(* ===== verification/_CoqProject ===== *)
-Q . S2P
Prelude.v
NgxString.v
NgxNum.v
Sort.v
Base64.v
Utf8.v
Escape.v
Radix.v
Sprintf.v
Times.v
HuffTables.v
Huffman.v
Chunked.v
Uri.v
RequestLine.v
HeaderLine.v
Heap.v
Rbtree.v
Timer.v
Upstream.v
Hpack.v
H2Block.v
QuicBuffer.v
QuicStream.v
QuicCrypto.v
QuicFrame.v
QuicAck.v
QuicPacket.v
QuicLoss.v
QuicSend.v
