(* ===== verification/Prelude.v ===== *)
(** * A verification of the core of nginx 1.28.0

    The sources are under src/Nginx/nginx-1.28.0/src.  This library models the
    parts of nginx that turn bytes into structured data and back (the request
    line and the header lines, the path of a URI, the chunked transfer coding, the
    header compression of HTTP/2, dates, numbers, the string library) and some of
    the machinery behind them: prefix trees, red-black trees, the timers of events
    and the choice of an upstream server.  The build assumed is the one whose
    objects are in the repository: 64-bit Linux, little-endian, unaligned loads
    allowed.

    ** Files

    - [Prelude]: character literals, machine integers, bytes, list update,
      checks over all bytes, the outcome of code that may read outside its
      buffer, tactics and the hint database [ngx].
    - [NgxString] (core/ngx_string.c): case folding, comparison and search.
    - [NgxNum] (core/ngx_string.c, core/ngx_parse.c): numbers, sizes, times.
    - [Sort] (core/ngx_string.c, [ngx_sort]): a sort over any comparison; the
      class [Comparator] is what it asks of one.
    - [Base64], [Utf8], [Escape] (core/ngx_string.c): the codecs.
    - [Sprintf] (core/ngx_string.c): [ngx_vslprintf] over a list of arguments.
    - [Radix] (core/ngx_radix_tree.c): the prefix trees of 32 and 128 bits; one
      walk over an abstract cursor, two instances.
    - [Times] (core/ngx_times.c, core/ngx_parse_time.c): dates both ways.
    - [HuffTables], [Huffman] (http/ngx_http_huff_encode.c,
      http/ngx_http_huff_decode.c): the tables as they stand, and the codec.
    - [Chunked] (http/ngx_http_parse.c, http/ngx_http_request_body.c): the
      incremental parser and the request body filter that drives it.
    - [Uri] (http/ngx_http_parse.c): normalisation of paths, the check of
      redirect targets, the split of arguments.
    - [RequestLine] (http/ngx_http_parse.c, http/ngx_http_request.c): the request
      line, the path on its own, and the making of the request's URI.
    - [HeaderLine] (http/ngx_http_parse.c): the header lines of requests and of
      the responses of upstream servers.
    - [Heap]: memory as a finite map from addresses to records, computations that
      may fail on a wrong access, and the rules that reason about them.
    - [Rbtree] (core/ngx_rbtree.c): red-black trees with their pointers, over
      [Heap]; the class [InsertPt] is what a callback of insertion promises.
    - [Timer] (event/ngx_event_timer.c): the timers of events, over [Rbtree].
    - [Upstream] (http/ngx_http_upstream_round_robin.c): the smooth weighted round
      robin with its retries and backup group.
    - [Hpack] (http/v2/ngx_http_v2_table.c, http/v2/ngx_http_v2_encode.c): the
      tables, integers and strings of HTTP/2 header compression.
    - [H2Block] (http/v2/ngx_http_v2.c): the header blocks of HTTP/2, from the bytes
      of HEADERS and CONTINUATION frames to the headers of a request.
    - [QuicBuffer] (event/quic/ngx_event_quic_frames.c): blocks of memory shared by
      chains, and the buffers of the streams of QUIC.
    - [QuicStream] (event/quic/ngx_event_quic_streams.c): the receiving side of
      streams and their flow control.
    - [QuicCrypto] (event/quic/ngx_event_quic_ssl.c): the handshake data in order.
    - [QuicFrame] (event/quic/ngx_event_quic_transport.c): variable-length integers,
      the frames of packets, read and written.
    - [QuicAck] (event/quic/ngx_event_quic_ack.c, event/quic/ngx_event_quic_output.c):
      the ranges of the packet numbers received and the acknowledgements made of them.
    - [QuicPacket] (event/quic/ngx_event_quic_transport.c,
      event/quic/ngx_event_quic_output.c, event/quic/ngx_event_quic_frames.c,
      event/quic/ngx_event_quic_protection.c, event/quic/ngx_event_quic.c): headers,
      packet numbers, frames put into packets and taken out of them.
    - [QuicLoss] (event/quic/ngx_event_quic_ack.c, event/quic/ngx_event_quic_output.c):
      packets acknowledged or lost, congestion, the timer of losses, datagrams.
    - [QuicSend] (event/quic/ngx_event_quic_streams.c): the sending side of streams,
      from the writes of the application to the frames that are queued.

    [RequestLine] calls [Uri], which calls [Escape]; [Chunked] uses the
    hexadecimal numbers of [NgxNum] in its grammar; [Timer] calls [Rbtree], which
    is written over [Heap]; [Hpack] calls [Huffman] and [NgxString];
    [H2Block] calls [Hpack] and [Huffman], through the class [Decoder] for strings
    that come in parts; [QuicStream] and [QuicCrypto] keep their bytes in the buffers
    of [QuicBuffer]; [QuicAck] makes frames of [QuicFrame], [QuicPacket] packets of
    both, [QuicLoss] follows these packets until they are acknowledged or lost, and
    [QuicSend] queues the frames of streams, with the buffers of [QuicBuffer] and the
    queue and the acknowledgements of [QuicLoss].

    ** How the code is modelled

    A byte, and an integer of any width, is a [Z]; wrap-around is written with
    [u8], [u16], [u32], [u64] and [s64] where the code can reach it.  A buffer is
    the list of its bytes; a pointer into it is what is left of the list, an
    offset, or the list of the bytes written before it, last one first.  A state
    machine keeps the source's states as an inductive type; one function per
    [case] says where a byte leads, and the loop is a fixpoint on the bytes
    left.  State kept between calls (the request, the chunked context, the
    Huffman state) is a record passed in and out.  A static table is the list of
    its entries.  Linked structures are records in a memory, a [gmap] from
    addresses, and an access to a missing address makes the computation [None];
    the theorems say that it does not happen.  Memory allocation is an argument
    of the functions whose result depends on it.  Log messages are left out.

    ** Bounds and fuel

    Loops are structural wherever the code walks a text.  The chunked body
    filter is given one unit of fuel per byte of its buffer and one more: every
    turn that goes on has taken a byte, and [chunked_filter_refines] is stated
    for the filter with that fuel, so running out would falsify it.  The radix
    trees are walked with fuel 33 and 129, one more than the bits of a key.  The
    walks of a red-black tree take one unit per node in memory and one more, the
    expiration of timers any number greater than that of the timers that are due,
    the evictions of [Hpack] the number of its entries, a read of [H2Block] four
    units per byte and four more, as at most three handlers in a row take no byte,
    a write of [QuicBuffer] the sum of [write_fuel], as each turn passes a byte, uses
    up an input or splits a link, the loops of [QuicFrame] over padding and over the
    ranges of an acknowledgement one unit per byte and one more, the loop that fills a
    packet one per byte of room and one more, as a frame takes a byte at least, and the
    one over the frames of a packet one per frame that is read and two more, the loop
    over the packets of a space that may be lost one per frame that waits and one more;
    the theorems have the result for this much fuel.  Formats, dates and integers
    carry the ranges of their C types as hypotheses.

    ** What the theorems show

    - Requests.  The request line is read for what it says and nothing else, the
      same whether it comes at once or in parts; the URI of every accepted
      request is the normal form of its target, by the short cut or by the
      normaliser; that form never leaves the root, fits the buffer allocated
      for it, and normalising it again changes nothing.
    - Header lines.  A well-formed line is read with the bounds, the hash and the
      lower-case copy of its name; what is accepted is a line; the parts in which
      it arrives do not matter.
    - Bodies.  The chunked filter computes, over any division into buffers, what
      a machine that reads one byte at a time computes; a well-formed body is
      decoded to its data and the request after it is left alone.
    - Header compression.  The Huffman encoder's output decodes to its input, and
      the decoder accepts exactly the encodings followed by a padding of ones.
      The dynamic table answers as the table of RFC 7541 does after any history
      of insertions and size updates, within its bounds and without a wrong
      access; integers and strings are read back.
    - Header blocks.  However a block is cut into frames, padded and read, the request
      gets its headers as the RFC reads them, the table follows, and what is wrong
      closes the connection; a request that drops out gets nothing more; no read is
      needed to be of any size, and no access goes wrong.  The allocator grants what is
      asked for, and an empty frame at the end is not the last thing that is received.
    - QUIC.  The buffers of a connection are streams of bytes, whatever is written to
      them in whatever order, and what was read keeps its bytes while it is held; the
      application and the TLS library get the bytes of the peer in order, without a
      gap, and are woken up for them; the limits of flow control hold, grow with the
      reads, and are the only reason, with the final size, to refuse a frame (a reset is
      held to the limit of the connection only).
      A frame is read for what it says wherever it may appear, and what is written is
      read back.  A packet carries the first of the frames that wait, in order, with
      ordered data divided if need be; its peer finds these frames in it and its number
      from the few bytes that are sent.  The ranges of an acknowledgement are the
      highest of the sets of numbers that were received and not yet reported as seen,
      and a packet that asks for an acknowledgement gets one, at once or within the delay
      that is allowed, unless the ranges are full when others come.  The other end takes exactly the packets of these ranges from those
      that wait, refuses ranges that make no sense, finds the late ones lost and sends
      their data again; the bytes in flight are those of the packets that wait, after
      any history.  What a stream takes from the application is queued in order and
      once, and its end after it, within the limits of the peer; nothing waits but for
      a limit, and the application but for a full buffer.
    - Red-black trees.  Every history of insertions and deletions keeps the tree
      red-black, ordered, and its pointers consistent; the entries are those of
      an ordered list; the minimum and the successor are those of the list.
    - Timers.  Expiration takes the due timers one by one, earliest first, marks their
      events and calls their handlers, and ends; an event is armed once, and not again for a small change.
    - Load balancing.  Over a period of requests every peer is chosen as often
      as its weight says; the weights stay balanced through failures; a peer that
      is down, busy or already tried is not chosen; retries end.
    - Prefix trees.  Insertion and deletion change one prefix; lookup returns the
      longest match, and the byte after a 128-bit key, which it reads, does not matter.
    - Dates.  The broken-down time is the proleptic Gregorian calendar counted
      day by day; a date is printed as the RFC has it and read back; the parser never reads outside
      its text.
    - Text.  Comparisons are lexicographic, searches leftmost, the sort is a
      stable permutation, numbers are exact up to overflow, which is refused;
      Base64, escapes, UTF-8 and formatted numbers round-trip and keep to their
      buffers.

    Some remarks state what the code accepts beyond what it means to
    ([utf8_decode_lax], [parse_http_time_lax], [huff_decode_lax],
    [unsafe_uri_lax]); [radix_delete_correct] has the one deletion that
    dereferences a null pointer, [hpack_early_size_lost] the table size that
    the first insertion overrides, [empty_continuation_waits] and
    [skipped_name_refused] two blocks that are not read as they should be,
    [reset_beyond_limit] a reset that flow control lets pass, [owed_ack_lost] a packet
    that is never acknowledged, [ack_ecn_refused] a valid frame that ends the connection,
    [unsent_ack_taken] an acknowledgement of packets that were never sent,
    [max_data_lowers_limit] a limit that a frame lowers.

    ** Not modelled

    Event loops, sockets, TLS, processes and files, which are calls of the
    operating system and of OpenSSL; the modules, the mail and stream proxies;
    the floating-point conversion of [ngx_vslprintf]; the cached clock; the move
    of a partly read request line to a large buffer; the peers of an upstream in
    shared memory; the online judge of src/OJ_Judge, a C++ program around
    processes and a database.  Of QUIC, the protection of packets, transport
    parameters, probes, connection identifiers, migration and the opening of
    streams; of HTTP/2, the frames other than header blocks; the QPACK of HTTP/3.
    Next in line would be addresses, the status line and header values, checksums,
    request limits, the slab allocator, queues. *)

From Stdlib Require Export ZArith List Lia Bool ZifyBool Permutation Sorted.
From Stdlib Require Strings.Byte.
Export ListNotations.

#[global] Open Scope Z_scope.

(** ** Character literals

    A C character constant is the integer it denotes: ["a"%chr] is [97]. *)

Declare Scope chr_scope.
Delimit Scope chr_scope with chr.

Definition chr_parse (l : list Byte.byte) : option Z :=
  match l with
  | [b] => Some (Z.of_N (Byte.to_N b))
  | _ => None
  end.

Definition chr_print (z : Z) : option (list Byte.byte) := None.

String Notation Z chr_parse chr_print : chr_scope.

(** The bytes of a C string literal, without its terminator: [bs "GET"]. *)
Record text := Text { text_bytes : list Byte.byte }.

Declare Scope text_scope.
Delimit Scope text_scope with text.
Bind Scope text_scope with text.

String Notation text Text text_bytes : text_scope.

Definition bs (s : text) : list Z :=
  map (fun b => Z.of_N (Byte.to_N b)) (text_bytes s).

Arguments bs _%_text.

(** ** Return codes and integer limits (src/core/ngx_core.h, objs/ngx_auto_config.h) *)

Abbreviation NGX_OK := 0.
Abbreviation NGX_ERROR := (-1).
Abbreviation NGX_AGAIN := (-2).
Abbreviation NGX_BUSY := (-3).
Abbreviation NGX_DONE := (-4).
Abbreviation NGX_DECLINED := (-5).

Abbreviation NGX_MAX_INT_T_VALUE := 9223372036854775807.
Abbreviation NGX_MAX_SIZE_T_VALUE := 9223372036854775807.
Abbreviation NGX_MAX_OFF_T_VALUE := 9223372036854775807.
Abbreviation NGX_MAX_TIME_T_VALUE := 9223372036854775807.

Abbreviation CR := 13.
Abbreviation LF := 10.

(** ** Machine integers: a [w]-bit unsigned value is a [Z] in [0, 2^w) *)

Definition u8 (z : Z) : Z := z mod 2 ^ 8.
Definition u16 (z : Z) : Z := z mod 2 ^ 16.
Definition u32 (z : Z) : Z := z mod 2 ^ 32.
Definition u64 (z : Z) : Z := z mod 2 ^ 64.

(** Conversion to a signed 64-bit integer (two's complement). *)
Definition s64 (z : Z) : Z := (z + 2 ^ 63) mod 2 ^ 64 - 2 ^ 63.

Definition is_byte (b : Z) : Prop := 0 <= b < 256.
Definition is_u32 (z : Z) : Prop := 0 <= z < 2 ^ 32.
Definition wf_bytes (l : list Z) : Prop := Forall is_byte l.

(** ** C strings

    A NUL-terminated string is the list of the bytes before its terminator;
    reading at its end gives the terminator. *)

Definition hd0 (s : list Z) : Z := hd 0 s.

(** ** Lists updated by index *)

Fixpoint upd {A} (i : nat) (x : A) (l : list A) : list A :=
  match l, i with
  | [], _ => []
  | _ :: t, O => x :: t
  | y :: t, S j => y :: upd j x t
  end.

(** Table lookup in a static C array. *)
Definition tbl (t : list Z) (i : Z) : Z := nth (Z.to_nat i) t 0.

(** ** Decimal digits *)

Definition is_digit (c : Z) : bool := (("0"%chr <=? c) && (c <=? "9"%chr))%Z.

(** The value of a list of decimal digits, most significant first. *)
Fixpoint decval_from (acc : Z) (l : list Z) : Z :=
  match l with
  | [] => acc
  | c :: t => decval_from (acc * 10 + (c - "0"%chr)) t
  end.

Definition decval (l : list Z) : Z := decval_from 0 l.

(** ** Automation *)

Create HintDb ngx.
Create Rewrite HintDb ngx.

(** Case analysis on the first boolean test of the goal. *)
Ltac case_if :=
  match goal with
  | |- context [if ?b then _ else _] => destruct b eqn:?
  end.

Ltac case_if_in H :=
  match type of H with
  | context [if ?b then _ else _] => destruct b eqn:?
  end.

(** Solve an arithmetic goal over bytes after opening the range predicates. *)
Ltac byte_lia := unfold is_byte, is_u32, is_digit in *; lia.

(** ** Generic lemmas *)

Lemma u8_small z : is_byte z -> u8 z = z.
Proof. intros H. apply Z.mod_small. exact H. Qed.

Lemma u8_byte z : is_byte (u8 z).
Proof. apply Z.mod_pos_bound. reflexivity. Qed.

Lemma u32_small z : is_u32 z -> u32 z = z.
Proof. intros H. apply Z.mod_small. exact H. Qed.

Lemma u32_range z : is_u32 (u32 z).
Proof. apply Z.mod_pos_bound. reflexivity. Qed.

Lemma u64_small z : 0 <= z < 2 ^ 64 -> u64 z = z.
Proof. intros H. apply Z.mod_small. exact H. Qed.

Lemma u64_range z : 0 <= u64 z < 2 ^ 64.
Proof. apply Z.mod_pos_bound. reflexivity. Qed.

Lemma s64_small z : - 2 ^ 63 <= z < 2 ^ 63 -> s64 z = z.
Proof.
  intros H. unfold s64.
  rewrite Z.mod_small; [lia|].
  change (2 ^ 64) with (2 ^ 63 + 2 ^ 63). lia.
Qed.

(** The difference of two small unsigned values, computed in [ngx_uint_t] and
    returned as [ngx_int_t], is the mathematical difference. *)
Lemma s64_u64_small z : - 2 ^ 63 <= z < 2 ^ 63 -> s64 (u64 z) = z.
Proof.
  intros H. unfold s64, u64.
  rewrite Zplus_mod_idemp_l. apply s64_small. exact H.
Qed.

#[export] Hint Rewrite u8_small u32_small u64_small using byte_lia : ngx.

Lemma length_upd {A} i (x : A) l : length (upd i x l) = length l.
Proof. revert i; induction l; destruct i; simpl; auto. Qed.

Lemma nth_error_upd_eq {A} i (x : A) l :
  (i < length l)%nat -> nth_error (upd i x l) i = Some x.
Proof.
  revert i; induction l; destruct i; simpl; intros; auto; try lia.
  apply IHl. lia.
Qed.

Lemma nth_error_upd_ne {A} i j (x : A) l :
  i <> j -> nth_error (upd i x l) j = nth_error l j.
Proof.
  revert i j; induction l; destruct i, j; simpl; intros; auto; try lia.
Qed.

Lemma upd_app_r {A} i (x : A) l1 l2 :
  (length l1 <= i)%nat -> upd i x (l1 ++ l2) = l1 ++ upd (i - length l1) x l2.
Proof.
  revert i; induction l1 as [|y l1 IH]; simpl; intros i H.
  - now rewrite Nat.sub_0_r.
  - destruct i; [lia|]. simpl. rewrite IH by lia. reflexivity.
Qed.

Lemma wf_bytes_app l1 l2 : wf_bytes (l1 ++ l2) <-> wf_bytes l1 /\ wf_bytes l2.
Proof. apply Forall_app. Qed.

Lemma wf_bytes_cons b l : wf_bytes (b :: l) <-> is_byte b /\ wf_bytes l.
Proof. apply Forall_cons_iff. Qed.

(** Split [wf_bytes (b :: l)] hypotheses. *)
Ltac inv_bytes :=
  repeat match goal with
  | H : wf_bytes (_ :: _) |- _ => apply wf_bytes_cons in H as [? H]
  end.

Lemma decval_from_app acc l1 l2 :
  decval_from acc (l1 ++ l2) = decval_from (decval_from acc l1) l2.
Proof. revert acc; induction l1; simpl; auto. Qed.

Lemma decval_snoc l c : decval (l ++ [c]) = decval l * 10 + (c - "0"%chr).
Proof. unfold decval. now rewrite decval_from_app. Qed.

Lemma decval_from_ge acc l :
  0 <= acc -> forallb is_digit l = true -> acc <= decval_from acc l.
Proof.
  revert acc; induction l as [|c l IH]; simpl; intros acc Ha Hl; [lia|].
  apply andb_true_iff in Hl as [Hc Hl]. unfold is_digit in Hc.
  specialize (IH (acc * 10 + (c - 48)) ltac:(lia) Hl). lia.
Qed.

Lemma decval_nonneg l : forallb is_digit l = true -> 0 <= decval l.
Proof. intros H. apply decval_from_ge; [lia|assumption]. Qed.

(** Bit decomposition: or-ing disjoint bit ranges is addition. *)
Lemma land_shiftl_small a b k :
  0 <= k -> 0 <= b < 2 ^ k -> Z.land (Z.shiftl a k) b = 0.
Proof.
  intros Hk Hb. apply Z.bits_inj'. intros n Hn.
  rewrite Z.land_spec, Z.bits_0, Z.shiftl_spec by lia.
  destruct (Z.ltb_spec n k).
  - rewrite Z.testbit_neg_r by lia. reflexivity.
  - rewrite andb_comm. rewrite <- (Z.mod_small b (2 ^ k)) by lia.
    rewrite Z.mod_pow2_bits_high by lia. reflexivity.
Qed.

Lemma lor_shiftl_add a b k :
  0 <= k -> 0 <= b < 2 ^ k -> Z.lor (Z.shiftl a k) b = a * 2 ^ k + b.
Proof.
  intros Hk Hb.
  rewrite <- Z.shiftl_mul_pow2 by lia.
  rewrite <- Z.add_lor_land, land_shiftl_small by lia. lia.
Qed.

(** A decidable property of a byte can be checked on the 256 values. *)
Definition all_bytes : list Z := map Z.of_nat (seq 0 256).

Lemma all_bytes_spec b : In b all_bytes <-> is_byte b.
Proof.
  unfold all_bytes, is_byte. rewrite in_map_iff. split.
  - intros (n & <- & Hn). apply in_seq in Hn. lia.
  - intros H. exists (Z.to_nat b). split; [lia|]. apply in_seq. lia.
Qed.

Lemma byte_check (P : Z -> bool) b :
  forallb P all_bytes = true -> is_byte b -> P b = true.
Proof.
  rewrite forallb_forall. intros H Hb. apply H. now apply all_bytes_spec.
Qed.

(** Two bytes at once. *)
Lemma byte_check2 (P : Z -> Z -> bool) a b :
  forallb (fun x => forallb (P x) all_bytes) all_bytes = true ->
  is_byte a -> is_byte b -> P a b = true.
Proof.
  intros H Ha Hb. apply (byte_check (P a)); [|exact Hb].
  exact (byte_check (fun x => forallb (P x) all_bytes) a H Ha).
Qed.

(** Two functions of a byte that agree on the 256 values are equal there. *)
Lemma byte_eq (f g : Z -> Z) b :
  forallb (fun x => f x =? g x) all_bytes = true -> is_byte b -> f b = g b.
Proof. intros H Hb. apply Z.eqb_eq. exact (byte_check (fun x => f x =? g x) b H Hb). Qed.

Definition opt_eqb (a b : option Z) : bool :=
  match a, b with
  | Some x, Some y => x =? y
  | None, None => true
  | _, _ => false
  end.

Lemma opt_eqb_eq a b : opt_eqb a b = true -> a = b.
Proof. destruct a, b; simpl; try discriminate; [|reflexivity]. intros; f_equal; lia. Qed.

Lemma byte_eq_opt (f g : Z -> option Z) b :
  forallb (fun x => opt_eqb (f x) (g x)) all_bytes = true -> is_byte b -> f b = g b.
Proof.
  intros H Hb. apply opt_eqb_eq. exact (byte_check (fun x => opt_eqb (f x) (g x)) b H Hb).
Qed.

(** Prove [f b = g b] for a byte [b] by evaluation. *)
Ltac by_bytes b :=
  match goal with
  | H : is_byte b |- @eq Z _ _ =>
      pattern b; match goal with |- (fun x => @eq Z (@?f x) (@?g x)) _ =>
        exact (byte_eq f g b ltac:(vm_compute; reflexivity) H) end
  | H : is_byte b |- @eq (option Z) _ _ =>
      pattern b; match goal with |- (fun x => @eq _ (@?f x) (@?g x)) _ =>
        exact (byte_eq_opt f g b ltac:(vm_compute; reflexivity) H) end
  | H : is_byte b |- @eq bool _ true =>
      pattern b; match goal with |- (fun x => @eq _ (@?f x) _) _ =>
        exact (byte_check f b ltac:(vm_compute; reflexivity) H) end
  end.

(** Testing one bit with a mask, as C does. *)
Lemma land_pow2_test x k : 0 <= k -> negb (Z.land x (2 ^ k) =? 0) = Z.testbit x k.
Proof.
  intros Hk. destruct (Z.testbit x k) eqn:E.
  - destruct (Z.eqb_spec (Z.land x (2 ^ k)) 0) as [H|H]; [|reflexivity].
    assert (F : Z.testbit (Z.land x (2 ^ k)) k = false) by (rewrite H; apply Z.bits_0).
    rewrite Z.land_spec, E, Z.pow2_bits_true in F by lia. discriminate F.
  - replace (Z.land x (2 ^ k)) with 0; [reflexivity|].
    symmetry. apply Z.bits_inj'. intros n Hn. rewrite Z.land_spec, Z.bits_0.
    destruct (Z.eqb_spec k n) as [->|N]; [now rewrite E|].
    rewrite Z.pow2_bits_false by lia. apply andb_false_r.
Qed.

Definition is_nil {A} (s : list A) : bool := match s with [] => true | _ => false end.

Lemma seq_S_map {A} (f : nat -> A) i n :
  map f (seq i (S n)) = f i :: map f (seq (S i) n).
Proof. reflexivity. Qed.

(** Checking a decidable property of an interval of integers by evaluation. *)
Fixpoint check_upto (P : Z -> bool) (fuel : nat) (z : Z) : bool :=
  match fuel with
  | O => true
  | S fuel' => if P z then check_upto P fuel' (z + 1) else false
  end.

Lemma check_upto_spec P n z i :
  check_upto P (Z.to_nat n) z = true -> z <= i < z + n -> P i = true.
Proof.
  intros H Hi. assert (G : forall f z, check_upto P f z = true ->
    forall i, z <= i < z + Z.of_nat f -> P i = true).
  { clear. induction f as [|f IH]; cbn [check_upto]; intros z H i Hi; [lia|].
    case_if_in H; [|discriminate H]. destruct (Z.eq_dec i z) as [->|]; [assumption|].
    apply (IH (z + 1) H). lia. }
  apply (G _ _ H). lia.
Qed.

(** ** Marks in a buffer

    The text from offset [a] to offset [b]. *)
Definition slice (m : list Z) (a b : nat) : list Z := firstn (b - a) (skipn a m).

Lemma skipn_nth {A} (l : list A) p c t : skipn p l = c :: t ->
  firstn (S p) l = firstn p l ++ [c] /\ skipn (S p) l = t /\ (p < length l)%nat.
Proof.
  revert p. induction l as [|a l IH]; intros p; [now destruct p|].
  destruct p as [|p]; cbn [skipn].
  - intros [= -> ->]. cbn. split; [reflexivity|]. split; [reflexivity|lia].
  - intros H. apply IH in H as (H1 & H2 & H3). split; [|split; [exact H2|cbn; lia]].
    change (a :: firstn (S p) l = a :: (firstn p l ++ [c])). now rewrite H1.
Qed.

(** The text from [s] to [p], and a byte more. *)
Lemma slice_snoc m s p c t : (s <= p)%nat -> skipn p m = c :: t ->
  slice m s (S p) = slice m s p ++ [c].
Proof.
  intros Hs H. unfold slice. replace (S p - s)%nat with (S (p - s)) by lia.
  apply (skipn_nth (skipn s m) (p - s) c t). rewrite skipn_skipn.
  now replace (p - s + s)%nat with p by lia.
Qed.

Lemma slice_nil m s : slice m s s = [].
Proof. unfold slice. now rewrite Nat.sub_diag. Qed.

Lemma slice_length m s p : (s <= p)%nat -> (p <= length m)%nat -> length (slice m s p) = (p - s)%nat.
Proof. intros H1 H2. unfold slice. rewrite length_firstn, length_skipn. lia. Qed.

Lemma slice_split m s p : (s <= p)%nat -> skipn s m = slice m s p ++ skipn p m.
Proof.
  intros H. unfold slice. rewrite <- (firstn_skipn (p - s) (skipn s m)) at 1. f_equal.
  rewrite skipn_skipn. f_equal. lia.
Qed.

Lemma wf_skipn n l : wf_bytes l -> wf_bytes (skipn n l).
Proof.
  intros H. unfold wf_bytes. rewrite <- (firstn_skipn n l) in H. now apply Forall_app in H.
Qed.

Lemma slice_one m p c t : skipn p m = c :: t -> slice m p (S p) = [c].
Proof. intros H. rewrite (slice_snoc m p p c t) by auto. now rewrite slice_nil. Qed.

Lemma slice_app m s p a b : slice m s p = a ++ b -> (s <= p <= length m)%nat ->
  slice m s (s + length a) = a /\ slice m (s + length a) p = b /\ (p = s + length a + length b)%nat.
Proof.
  intros H Hp. pose proof (slice_length m s p ltac:(lia) ltac:(lia)) as L.
  rewrite H, length_app in L. unfold slice in *.
  replace (s + length a - s)%nat with (length a) by lia.
  replace p with (s + length a + length b)%nat by lia.
  replace (p - s)%nat with (length a + length b)%nat in H by lia.
  replace (s + length a + length b - (s + length a))%nat with (length b) by lia.
  split; [|split; [|lia]].
  - assert (G : firstn (length a) (firstn (length a + length b) (skipn s m))
      = firstn (length a) (skipn s m)) by (rewrite firstn_firstn; f_equal; lia).
    rewrite <- G, H, firstn_app, firstn_all, Nat.sub_diag. apply app_nil_r.
  - rewrite (Nat.add_comm s), <- skipn_skipn, firstn_skipn_comm, H, skipn_app, skipn_all, Nat.sub_diag.
    reflexivity.
Qed.

Lemma Forall_snoc {A} (P : A -> Prop) l x : Forall P l -> P x -> Forall P (l ++ [x]).
Proof. intros. apply Forall_app. auto. Qed.

Lemma slice_mid pre t post : slice (pre ++ t ++ post) (length pre) (length pre + length t) = t.
Proof.
  unfold slice. rewrite skipn_app, skipn_all, Nat.sub_diag. cbn [skipn app].
  replace (length pre + length t - length pre)%nat with (length t) by lia.
  rewrite firstn_app, firstn_all, Nat.sub_diag. cbn [firstn]. apply app_nil_r.
Qed.

(** The text two marks delimit. *)
Definition between (m : list Z) (a b : option nat) (t : list Z) : Prop :=
  exists x y, a = Some x /\ b = Some y /\ slice m x y = t.

Lemma between_mid m a b pre t post : m = pre ++ t ++ post ->
  a = Some (length pre) -> b = Some (length pre + length t)%nat -> between m a b t.
Proof.
  intros -> -> ->. exists (length pre), (length pre + length t)%nat.
  split; [reflexivity|]. split; [reflexivity|]. apply slice_mid.
Qed.

(** The ends of line the parsers take. *)
Definition eol (l : list Z) : Prop := l = [LF] \/ l = [CR; LF].

(** ** Reads outside a buffer

    The result of code that reads through pointers: a value, the failure it
    reports, or a read outside the buffer it was given. *)
Inductive outcome (A : Type) : Type :=
| Ok (a : A)
| Fail
| Oob.

Arguments Ok {A} a.
Arguments Fail {A}.
Arguments Oob {A}.

Definition obind {A B} (m : outcome A) (f : A -> outcome B) : outcome B :=
  match m with
  | Ok a => f a
  | Fail => Fail
  | Oob => Oob
  end.

Declare Scope outcome_scope.
Delimit Scope outcome_scope with outcome.
Notation "'let*' x := m 'in' f" := (obind m (fun x => f))
  (at level 10, x name, m at level 100, f at level 200) : outcome_scope.

(** [*(p + k)], [p] being the bytes from the pointer to the end. *)
Definition rd (p : list Z) (k : nat) : outcome Z :=
  match nth_error p k with Some c => Ok c | None => Oob end.
