(* ===== verification/NgxString.v ===== *)
(** * NgxString: the string routines of src/core/ngx_string.c

    Case folding, comparison and search over C strings, number parsing, the
    hexadecimal dump and the stable insertion sort.  A (pointer, length) pair is
    the list of its bytes; a NUL-terminated string is the list of the bytes
    before its terminator ([hd0] reads the terminator at its end).  A returned
    pointer is an offset from the start of the argument. *)

From S2P Require Import Prelude.

(** ** Definitions *)

Module Str.

Definition ngx_tolower (c : Z) : Z :=
  if (("A"%chr <=? c) && (c <=? "Z"%chr)) then Z.lor c 0x20 else c.

(** [ngx_strlow] writes the folded copy of the [n] source bytes. *)
Fixpoint ngx_strlow (src : list Z) (n : nat) : list Z :=
  match n, src with
  | S n', c :: src' => ngx_tolower c :: ngx_strlow src' n'
  | _, _ => []
  end.

(** [ngx_strnlen p n]: the [n] bytes at [p] are the list; the counter is [i]. *)
Fixpoint ngx_strnlen (p : list Z) (i : nat) : nat :=
  match p with
  | [] => i
  | c :: p' => if c =? 0 then i else ngx_strnlen p' (S i)
  end.

(** [ngx_cpystrn]: the bytes written at [dst] and the offset of the pointer
    returned.  The loop runs with [--n] already applied. *)
Fixpoint cpystrn_loop (src : list Z) (n : nat) : list Z * nat :=
  match n with
  | O => ([0], O)
  | S n' =>
      let c := hd0 src in
      if c =? 0 then ([0], O)
      else let '(w, e) := cpystrn_loop (tl src) n' in (c :: w, S e)
  end.

Definition ngx_cpystrn (src : list Z) (n : nat) : list Z * nat :=
  match n with
  | O => ([], O)
  | S n' => cpystrn_loop src n'
  end.

(** The comparison loops fold both bytes, continue while they are equal and
    not NUL, and return the difference of the first two that differ. *)
Fixpoint ngx_strcasecmp (s1 s2 : list Z) : Z :=
  let c1 := ngx_tolower (hd0 s1) in
  let c2 := ngx_tolower (hd0 s2) in
  if c1 =? c2 then
    match s1 with
    | [] => 0
    | _ :: t1 => if negb (c1 =? 0) then ngx_strcasecmp t1 (tl s2) else 0
    end
  else s64 (u64 (c1 - c2)).

Fixpoint ngx_strncasecmp (s1 s2 : list Z) (n : nat) : Z :=
  match n with
  | O => 0
  | S n' =>
      let c1 := ngx_tolower (hd0 s1) in
      let c2 := ngx_tolower (hd0 s2) in
      if c1 =? c2 then
        if negb (c1 =? 0) then ngx_strncasecmp (tl s1) (tl s2) n' else 0
      else s64 (u64 (c1 - c2))
  end.

(** C's [strncmp], which the source uses through [ngx_strncmp]. *)
Fixpoint strncmp (s1 s2 : list Z) (n : nat) : Z :=
  match n with
  | O => 0
  | S n' =>
      let c1 := hd0 s1 in
      let c2 := hd0 s2 in
      if c1 =? c2 then
        if c1 =? 0 then 0 else strncmp (tl s1) (tl s2) n'
      else c1 - c2
  end.

(** [ngx_strnstr]: [c2] is the first byte of the pattern, [s2] the rest,
    [len] the bytes left, [off] the offset of [s1]. *)
Fixpoint strnstr_loop (c2 : Z) (s2 s1 : list Z) (len off : nat) : option nat :=
  match len with
  | O => None
  | S len' =>
      let c1 := hd0 s1 in
      if c1 =? 0 then None
      else if negb (c1 =? c2) then strnstr_loop c2 s2 (tl s1) len' (S off)
      else if (len' <? length s2)%nat then None
      else if negb (strncmp (tl s1) s2 (length s2) =? 0)
           then strnstr_loop c2 s2 (tl s1) len' (S off)
           else Some off
  end.

Definition ngx_strnstr (s1 s2 : list Z) (len : nat) : option nat :=
  strnstr_loop (hd0 s2) (tl s2) s1 len O.

(** [ngx_strstrn] and [ngx_strcasestrn]: [n] is the pattern length less one. *)
Fixpoint strstrn_loop (c2 : Z) (s2 s1 : list Z) (n off : nat) : option nat :=
  match s1 with
  | [] => None
  | c1 :: t1 =>
      if c1 =? 0 then None
      else if negb (c1 =? c2) then strstrn_loop c2 s2 t1 n (S off)
      else if negb (strncmp t1 s2 n =? 0) then strstrn_loop c2 s2 t1 n (S off)
      else Some off
  end.

Definition ngx_strstrn (s1 s2 : list Z) (n : nat) : option nat :=
  strstrn_loop (hd0 s2) (tl s2) s1 n O.

Fixpoint strcasestrn_loop (c2 : Z) (s2 s1 : list Z) (n off : nat) : option nat :=
  match s1 with
  | [] => None
  | c :: t1 =>
      if c =? 0 then None
      else
        let c1 := ngx_tolower c in
        if negb (c1 =? c2) then strcasestrn_loop c2 s2 t1 n (S off)
        else if negb (ngx_strncasecmp t1 s2 n =? 0)
             then strcasestrn_loop c2 s2 t1 n (S off)
             else Some off
  end.

Definition ngx_strcasestrn (s1 s2 : list Z) (n : nat) : option nat :=
  strcasestrn_loop (ngx_tolower (hd0 s2)) (tl s2) s1 n O.

(** [ngx_strlcasestrn]: the bytes from [s1] to [last] are the list; the search
    stops [n] bytes before [last] ([last -= n]). *)
Fixpoint strlcasestrn_loop (c2 : Z) (s2 s1 : list Z) (n off : nat) : option nat :=
  match s1 with
  | [] => None
  | c :: t1 =>
      if (length s1 <=? n)%nat then None
      else
        let c1 := ngx_tolower c in
        if negb (c1 =? c2) then strlcasestrn_loop c2 s2 t1 n (S off)
        else if negb (ngx_strncasecmp t1 s2 n =? 0)
             then strlcasestrn_loop c2 s2 t1 n (S off)
             else Some off
  end.

Definition ngx_strlcasestrn (s1 s2 : list Z) (n : nat) : option nat :=
  strlcasestrn_loop (ngx_tolower (hd0 s2)) (tl s2) s1 n O.

(** The backward comparisons index [s[n-1]] down to [s[0]]. *)
Fixpoint ngx_rstrncmp (s1 s2 : list Z) (n : nat) : Z :=
  match n with
  | O => 0
  | S n' =>
      let c1 := nth n' s1 0 in
      let c2 := nth n' s2 0 in
      if negb (c1 =? c2) then c1 - c2 else ngx_rstrncmp s1 s2 n'
  end.

Definition upper_sub (c : Z) : Z :=
  if (("a"%chr <=? c) && (c <=? "z"%chr))
  then u8 (c - ("a"%chr - "A"%chr)) else c.

Fixpoint ngx_rstrncasecmp (s1 s2 : list Z) (n : nat) : Z :=
  match n with
  | O => 0
  | S n' =>
      let c1 := upper_sub (nth n' s1 0) in
      let c2 := upper_sub (nth n' s2 0) in
      if negb (c1 =? c2) then c1 - c2 else ngx_rstrncasecmp s1 s2 n'
  end.

(** C's [memcmp] over [n] bytes. *)
Fixpoint memcmp (s1 s2 : list Z) (n : nat) : Z :=
  match n with
  | O => 0
  | S n' =>
      let c1 := hd0 s1 in
      let c2 := hd0 s2 in
      if c1 =? c2 then memcmp (tl s1) (tl s2) n' else c1 - c2
  end.

Definition ngx_memn2cmp (s1 s2 : list Z) : Z :=
  let n1 := length s1 in
  let n2 := length s2 in
  let '(n, z) := if (n1 <=? n2)%nat then (n1, -1) else (n2, 1) in
  let m := memcmp s1 s2 n in
  if (negb (m =? 0) || (n1 =? n2)%nat)%bool then m else z.

(** [ngx_dns_strcmp]: the dot sorts as a space, below every name character. *)
Definition dns_key (c : Z) : Z := if c =? "."%chr then " "%chr else c.

Fixpoint ngx_dns_strcmp (s1 s2 : list Z) : Z :=
  let c1 := ngx_tolower (hd0 s1) in
  let c2 := ngx_tolower (hd0 s2) in
  if c1 =? c2 then
    match s1 with
    | [] => 0
    | _ :: t1 => if negb (c1 =? 0) then ngx_dns_strcmp t1 (tl s2) else 0
    end
  else s64 (u64 (dns_key c1 - dns_key c2)).

Definition slash_key (c : Z) : Z := if c =? "/"%chr then 0 else c.

Fixpoint ngx_filename_cmp (s1 s2 : list Z) (n : nat) : Z :=
  match n with
  | O => 0
  | S n' =>
      let c1 := hd0 s1 in
      let c2 := hd0 s2 in
      if c1 =? c2 then
        if negb (c1 =? 0) then ngx_filename_cmp (tl s1) (tl s2) n' else 0
      else if ((c1 =? 0) || (c2 =? 0))%bool then s64 (u64 (c1 - c2))
      else s64 (u64 (slash_key c1 - slash_key c2))
  end.

(** ** Specifications *)

(** No byte of the string is the terminator. *)
Definition nonul (s : list Z) : Prop := Forall (fun c => 0 < c < 256) s.

(** Lexicographic comparison, a proper prefix being smaller. *)
Fixpoint lexcmp (s1 s2 : list Z) : comparison :=
  match s1, s2 with
  | [], [] => Eq
  | [], _ :: _ => Lt
  | _ :: _, [] => Gt
  | c1 :: t1, c2 :: t2 =>
      match c1 ?= c2 with Eq => lexcmp t1 t2 | r => r end
  end.

(** [pat] is found at the head of [s]. *)
Definition prefix_of (pat s : list Z) : Prop := firstn (length pat) s = pat.

(** [r] is the least index satisfying [P], shifted by [off]. *)
Definition leftmost (P : nat -> Prop) (off : nat) (r : option nat) : Prop :=
  match r with
  | Some i => exists j, i = (off + j)%nat /\ P j /\ forall k, (k < j)%nat -> ~ P k
  | None => forall k, ~ P k
  end.

(** ** Lemmas *)

Lemma tolower_gt c :
  is_byte c -> (c <= 64 -> ngx_tolower c = c) /\ (64 < c -> 64 < ngx_tolower c < 256).
Proof.
  intros H.
  assert (E : (if c <=? 64 then ngx_tolower c =? c
               else (64 <? ngx_tolower c) && (ngx_tolower c <? 256)) = true).
  { apply (byte_check (fun c => if c <=? 64 then ngx_tolower c =? c
               else (64 <? ngx_tolower c) && (ngx_tolower c <? 256))); auto. }
  case_if_in E; lia.
Qed.

Lemma tolower_pos c : 0 < c < 256 -> 0 < ngx_tolower c < 256.
Proof. intros H. destruct (tolower_gt c); unfold is_byte; lia. Qed.

Lemma tolower_0 : ngx_tolower 0 = 0.
Proof. reflexivity. Qed.

Lemma nonul_map f s :
  (forall c, 0 < c < 256 -> 0 < f c < 256) -> nonul s -> nonul (map f s).
Proof. intros Hf Hs. apply Forall_map. eapply Forall_impl; [|exact Hs]. auto. Qed.

(** The value a comparison loop returns has the sign of the key difference. *)
Lemma sub_compare a b :
  0 <= a < 256 -> 0 <= b < 256 -> (s64 (u64 (a - b)) ?= 0) = (a ?= b).
Proof.
  intros Ha Hb. rewrite s64_u64_small by lia.
  rewrite (Z.compare_sub a b). reflexivity.
Qed.

(** Unfolding equations of the comparison loops on strings without NUL. *)
Ltac cmp_step :=
  cbn [ngx_strcasecmp ngx_dns_strcmp lexcmp map hd0 hd tl] in *;
  rewrite ?tolower_0.

Lemma strcasecmp_lex s1 s2 :
  nonul s1 -> nonul s2 ->
  (ngx_strcasecmp s1 s2 ?= 0) = lexcmp (map ngx_tolower s1) (map ngx_tolower s2).
Proof.
  intros H1; revert s2; induction H1 as [|c1 t1 Hc1 Ht1 IH]; intros s2 H2;
    destruct H2 as [|c2 t2 Hc2 Ht2]; cmp_step.
  - reflexivity.
  - pose proof (tolower_pos c2 Hc2).
    destruct (Z.eqb_spec 0 (ngx_tolower c2)); [lia|].
    rewrite sub_compare by lia. apply Z.compare_lt_iff. lia.
  - pose proof (tolower_pos c1 Hc1).
    destruct (Z.eqb_spec (ngx_tolower c1) 0); [lia|].
    rewrite sub_compare by lia. apply Z.compare_gt_iff. lia.
  - pose proof (tolower_pos c1 Hc1). pose proof (tolower_pos c2 Hc2).
    destruct (Z.eqb_spec (ngx_tolower c1) (ngx_tolower c2)) as [E|E].
    + rewrite E, Z.compare_refl.
      destruct (Z.eqb_spec (ngx_tolower c2) 0); [lia|]. apply IH. exact Ht2.
    + rewrite sub_compare by lia.
      destruct (Z.compare_spec (ngx_tolower c1) (ngx_tolower c2)); congruence.
Qed.

Lemma memcmp_lex s1 s2 n :
  wf_bytes s1 -> wf_bytes s2 ->
  n = Nat.min (length s1) (length s2) ->
  (memcmp s1 s2 n ?= 0) = lexcmp (firstn n s1) (firstn n s2).
Proof.
  intros H1; revert s2 n; induction H1 as [|c1 t1 Hc1 Ht1 IH];
    intros s2 n H2 ->; [reflexivity|].
  destruct H2 as [|c2 t2 Hc2 Ht2]; [reflexivity|].
  cbn -[Z.compare Z.sub].
  destruct (Z.eqb_spec c1 c2) as [->|E].
  - rewrite Z.compare_refl. apply IH; auto.
  - rewrite <- Z.compare_sub.
    destruct (Z.compare_spec c1 c2); congruence.
Qed.

Lemma lexcmp_eq s1 s2 : lexcmp s1 s2 = Eq <-> s1 = s2.
Proof.
  revert s2; induction s1 as [|a s1 IH]; destruct s2 as [|b s2]; simpl;
    try (split; congruence).
  destruct (Z.compare_spec a b) as [->|H|H].
  - rewrite IH. split; congruence.
  - split; [congruence|]. intros [= -> _]. lia.
  - split; [congruence|]. intros [= -> _]. lia.
Qed.

Lemma lexcmp_firstn s1 s2 n :
  n = Nat.min (length s1) (length s2) ->
  lexcmp s1 s2 =
  match lexcmp (firstn n s1) (firstn n s2) with
  | Eq => (length s1 ?= length s2)%nat
  | r => r
  end.
Proof.
  revert s2 n; induction s1 as [|a s1 IH]; intros [|b s2] n ->; try reflexivity.
  simpl. destruct (a ?= b); auto.
Qed.

Lemma memn2cmp_lex s1 s2 :
  wf_bytes s1 -> wf_bytes s2 -> (ngx_memn2cmp s1 s2 ?= 0) = lexcmp s1 s2.
Proof.
  intros H1 H2. rewrite (lexcmp_firstn s1 s2 _ eq_refl).
  rewrite <- (memcmp_lex s1 s2 _ H1 H2 eq_refl).
  unfold ngx_memn2cmp. destruct (length s1 <=? length s2)%nat eqn:L.
  - rewrite Nat.min_l by lia.
    destruct (Z.eqb_spec (memcmp s1 s2 (length s1)) 0) as [->|E]; simpl.
    + destruct (Nat.eqb_spec (length s1) (length s2)) as [->|E]; simpl.
      * now rewrite Nat.compare_refl.
      * symmetry. apply Nat.compare_lt_iff. lia.
    + destruct (Z.compare_spec (memcmp s1 s2 (length s1)) 0); congruence.
  - rewrite Nat.min_r by lia.
    destruct (Z.eqb_spec (memcmp s1 s2 (length s2)) 0) as [->|E]; simpl.
    + destruct (Nat.eqb_spec (length s1) (length s2)) as [E|E]; [lia|]; simpl.
      symmetry. apply Nat.compare_gt_iff. lia.
    + destruct (Z.compare_spec (memcmp s1 s2 (length s2)) 0); congruence.
Qed.

Lemma dns_key_range c : 32 < c < 256 -> 32 <= dns_key c < 256.
Proof. intros H. unfold dns_key. case_if; lia. Qed.

(** Names compared by the resolver hold no space and no NUL. *)
Lemma dns_strcmp_lex s1 s2 :
  Forall (fun c => 32 < c < 256) s1 -> Forall (fun c => 32 < c < 256) s2 ->
  (ngx_dns_strcmp s1 s2 ?= 0) =
  lexcmp (map (fun c => dns_key (ngx_tolower c)) s1)
         (map (fun c => dns_key (ngx_tolower c)) s2).
Proof.
  assert (K : forall c, 32 < c < 256 -> 32 < ngx_tolower c < 256).
  { intros c H. destruct (tolower_gt c); byte_lia. }
  intros H1; revert s2; induction H1 as [|c1 t1 Hc1 Ht1 IH]; intros s2 H2;
    destruct H2 as [|c2 t2 Hc2 Ht2]; cmp_step.
  - reflexivity.
  - pose proof (K c2 Hc2). pose proof (dns_key_range _ (K c2 Hc2)).
    destruct (Z.eqb_spec 0 (ngx_tolower c2)); [lia|].
    change (dns_key 0) with 0. rewrite sub_compare by lia.
    apply Z.compare_lt_iff. lia.
  - pose proof (K c1 Hc1). pose proof (dns_key_range _ (K c1 Hc1)).
    destruct (Z.eqb_spec (ngx_tolower c1) 0); [lia|].
    change (dns_key 0) with 0. rewrite sub_compare by lia.
    apply Z.compare_gt_iff. lia.
  - pose proof (K c1 Hc1). pose proof (K c2 Hc2).
    destruct (Z.eqb_spec (ngx_tolower c1) (ngx_tolower c2)) as [E|E].
    + rewrite E, Z.compare_refl.
      destruct (Z.eqb_spec (ngx_tolower c2) 0); [lia|]. apply IH. exact Ht2.
    + pose proof (dns_key_range _ (K c1 Hc1)). pose proof (dns_key_range _ (K c2 Hc2)).
      rewrite sub_compare by lia. unfold dns_key in *.
      destruct (Z.eqb_spec (ngx_tolower c1) 46), (Z.eqb_spec (ngx_tolower c2) 46);
        try congruence;
        match goal with |- (?a ?= ?b) = _ =>
          destruct (Z.compare_spec a b); congruence || lia end.
Qed.

Lemma filename_cmp_lex s1 s2 n :
  nonul s1 -> nonul s2 -> (length s1 <= n)%nat -> (length s2 <= n)%nat ->
  (ngx_filename_cmp s1 s2 n ?= 0) = lexcmp (map slash_key s1) (map slash_key s2).
Proof.
  intros H1; revert s2 n; induction H1 as [|c1 t1 Hc1 Ht1 IH]; intros s2 n H2 L1 L2;
    destruct H2 as [|c2 t2 Hc2 Ht2]; destruct n as [|n]; simpl in L1, L2; try lia;
    cbn [ngx_filename_cmp lexcmp map hd0 hd tl].
  - reflexivity.
  - reflexivity.
  - destruct (Z.eqb_spec 0 c2); [lia|]. simpl orb.
    cbv iota. rewrite sub_compare by lia. apply Z.compare_lt_iff. lia.
  - destruct (Z.eqb_spec c1 0); [lia|]. simpl orb. cbv iota.
    rewrite sub_compare by lia. apply Z.compare_gt_iff. lia.
  - destruct (Z.eqb_spec c1 c2) as [->|E].
    + rewrite Z.compare_refl. destruct (Z.eqb_spec c2 0); [lia|].
      apply IH; auto; lia.
    + destruct (Z.eqb_spec c1 0); [lia|]. destruct (Z.eqb_spec c2 0); [lia|].
      simpl orb. cbv iota.
      unfold slash_key in *.
      rewrite sub_compare by (repeat case_if; lia).
      destruct (Z.eqb_spec c1 47), (Z.eqb_spec c2 47); try congruence;
        match goal with |- (?a ?= ?b) = _ =>
          destruct (Z.compare_spec a b); congruence || lia end.
Qed.

(** *** Substring search *)

Lemma strncmp_prefix pat s :
  nonul pat -> (strncmp s pat (length pat) =? 0) = true <-> prefix_of pat s.
Proof.
  unfold prefix_of. intros H; revert s; induction H as [|c t Hc Ht IH]; intros s.
  - simpl. split; auto.
  - cbn [strncmp length hd0 hd tl firstn]. destruct s as [|a s]; cbn [hd0 hd tl].
    + destruct (Z.eqb_spec 0 c); [lia|]. split; intros; [exfalso; lia|congruence].
    + destruct (Z.eqb_spec a c) as [->|E].
      * destruct (Z.eqb_spec c 0); [lia|]. rewrite IH. split; congruence.
      * split; intros; [exfalso; lia|congruence].
Qed.

Lemma leftmost_shift (P Q : nat -> Prop) off r :
  ~ P O -> (forall k, P (S k) <-> Q k) -> leftmost Q (S off) r -> leftmost P off r.
Proof.
  intros H0 HS. destruct r as [i|]; simpl.
  - intros (j & -> & Hj & Hm). exists (S j). split; [lia|]. split; [now apply HS|].
    intros [|k] Hk; [exact H0|]. rewrite HS. apply Hm. lia.
  - intros Hn [|k]; [exact H0|]. rewrite HS. apply Hn.
Qed.

Lemma leftmost_here (P : nat -> Prop) off : P O -> leftmost P off (Some off).
Proof. intros H. exists O. split; [lia|]. split; [exact H|]. lia. Qed.

Lemma prefix_of_cons c pat a s :
  prefix_of (c :: pat) (a :: s) <-> a = c /\ prefix_of pat s.
Proof. unfold prefix_of. simpl. split; [intros [= -> ->]; auto|intros [-> ->]; auto]. Qed.

Lemma prefix_of_length pat s : prefix_of pat s -> (length pat <= length s)%nat.
Proof. unfold prefix_of. intros <-. rewrite length_firstn. lia. Qed.

Lemma strnstr_loop_spec c pat s len off :
  0 < c < 256 -> nonul pat -> nonul s ->
  leftmost (fun i => prefix_of (c :: pat) (skipn i s) /\ (i + S (length pat) <= len)%nat)
           off (strnstr_loop c pat s len off).
Proof.
  intros Hc Hp; revert s off; induction len as [|len IH]; intros s off Hs.
  - simpl. intros k [_ ?]. lia.
  - cbn [strnstr_loop]. destruct Hs as [|a t Ha Ht]; cbn [hd0 hd tl].
    + simpl. intros k [Hk _]. rewrite skipn_nil in Hk. discriminate Hk.
    + destruct (Z.eqb_spec a 0); [lia|].
      assert (Sh : forall r,
        ~ (a = c /\ prefix_of pat t) ->
        leftmost (fun i => prefix_of (c :: pat) (skipn i t) /\
                           (i + S (length pat) <= len)%nat) (S off) r ->
        leftmost (fun i => prefix_of (c :: pat) (skipn i (a :: t)) /\
                           (i + S (length pat) <= S len)%nat) off r).
      { intros r H0. apply leftmost_shift.
        - simpl skipn. rewrite prefix_of_cons. tauto.
        - intros k. simpl skipn. intuition lia. }
      destruct (Z.eqb_spec a c) as [->|E]; simpl negb; cbv iota.
      * destruct (Nat.ltb_spec len (length pat)).
        { simpl. intros k [_ ?]. lia. }
        pose proof (strncmp_prefix pat t Hp) as SP.
        destruct (strncmp t pat (length pat) =? 0); simpl negb; cbv iota.
        -- apply leftmost_here. simpl skipn. rewrite prefix_of_cons.
           intuition lia.
        -- apply Sh; [|apply IH; exact Ht]. intuition congruence.
      * apply Sh; [|apply IH; exact Ht]. intuition congruence.
Qed.

Lemma strstrn_loop_spec c pat s off :
  0 < c < 256 -> nonul pat -> nonul s ->
  leftmost (fun i => prefix_of (c :: pat) (skipn i s))
           off (strstrn_loop c pat s (length pat) off).
Proof.
  intros Hc Hp; revert off; induction s as [|a t IH]; intros off Hs; cbn [strstrn_loop].
  - intros k Hk. rewrite skipn_nil in Hk. discriminate Hk.
  - inversion Hs as [|? ? Ha Ht]; subst.
    destruct (Z.eqb_spec a 0); [lia|].
    assert (Sh : forall r, ~ (a = c /\ prefix_of pat t) ->
      leftmost (fun i => prefix_of (c :: pat) (skipn i t)) (S off) r ->
      leftmost (fun i => prefix_of (c :: pat) (skipn i (a :: t))) off r).
    { intros r H0. apply leftmost_shift; [|reflexivity].
      simpl skipn. now rewrite prefix_of_cons. }
    destruct (Z.eqb_spec a c) as [->|E]; simpl negb; cbv iota.
    + pose proof (strncmp_prefix pat t Hp) as SP.
      destruct (strncmp t pat (length pat) =? 0); simpl negb; cbv iota.
      * apply leftmost_here. simpl skipn. rewrite prefix_of_cons. intuition.
      * apply Sh; [|apply IH; exact Ht]. intuition congruence.
    + apply Sh; [|apply IH; exact Ht]. intuition congruence.
Qed.

(** The backward comparisons order the reversed strings. *)
Lemma rev_firstn_S {A} (s : list A) n d :
  (n < length s)%nat -> rev (firstn (S n) s) = nth n s d :: rev (firstn n s).
Proof.
  revert n; induction s as [|a s IH]; intros n H; [simpl in H; lia|].
  destruct n as [|n]; [reflexivity|]. simpl length in H.
  rewrite 2!firstn_cons. cbn [rev nth]. rewrite (IH n) by lia. reflexivity.
Qed.

Lemma rstrncmp_lex s1 s2 n :
  (n <= length s1)%nat -> (n <= length s2)%nat ->
  (ngx_rstrncmp s1 s2 n ?= 0) = lexcmp (rev (firstn n s1)) (rev (firstn n s2)).
Proof.
  induction n as [|n IH]; intros L1 L2; [reflexivity|].
  rewrite (rev_firstn_S s1 n 0), (rev_firstn_S s2 n 0) by lia.
  cbn [ngx_rstrncmp lexcmp].
  destruct (Z.eqb_spec (nth n s1 0) (nth n s2 0)) as [->|E]; simpl negb; cbv iota.
  - rewrite Z.compare_refl. apply IH; lia.
  - rewrite <- Z.compare_sub. destruct (Z.compare_spec (nth n s1 0) (nth n s2 0)); congruence.
Qed.

(** ** Properties *)

(** Every comparison routine decides the lexicographic order of its keys:
    the sign of the returned integer is the comparison of the two strings,
    folded to lower case by [ngx_strcasecmp] and [ngx_dns_strcmp], with the dot
    below every name byte for the resolver, with the slash below every byte for
    the file tree walk, over whole byte strings for [ngx_memn2cmp] and from the
    last byte for [ngx_rstrncmp]. *)
Theorem comparisons_are_lexicographic s1 s2 :
  nonul s1 -> nonul s2 ->
  (ngx_strcasecmp s1 s2 ?= 0) = lexcmp (map ngx_tolower s1) (map ngx_tolower s2)
  /\ (Forall (fun c => 32 < c < 256) s1 -> Forall (fun c => 32 < c < 256) s2 ->
      (ngx_dns_strcmp s1 s2 ?= 0) =
      lexcmp (map (fun c => dns_key (ngx_tolower c)) s1)
             (map (fun c => dns_key (ngx_tolower c)) s2))
  /\ (forall n, (length s1 <= n)%nat -> (length s2 <= n)%nat ->
      (ngx_filename_cmp s1 s2 n ?= 0) = lexcmp (map slash_key s1) (map slash_key s2))
  /\ (ngx_memn2cmp s1 s2 ?= 0) = lexcmp s1 s2
  /\ (forall n, (n <= length s1)%nat -> (n <= length s2)%nat ->
      (ngx_rstrncmp s1 s2 n ?= 0) = lexcmp (rev (firstn n s1)) (rev (firstn n s2))).
Proof.
  intros H1 H2. split; [now apply strcasecmp_lex|]. split; [apply dns_strcmp_lex|].
  split; [intros; now apply filename_cmp_lex|]. split; [|apply rstrncmp_lex].
  apply memn2cmp_lex; [eapply Forall_impl; [|exact H1]|eapply Forall_impl; [|exact H2]];
    intros c Hc; byte_lia.
Qed.

Example comparisons_are_lexicographic_witness :
  (ngx_strcasecmp (bs "Host") (bs "hOSTS") ?= 0) = Lt
  /\ (ngx_dns_strcmp (bs "a.b") (bs "a-b") ?= 0) = Lt
  /\ (ngx_filename_cmp (bs "a/b") (bs "a-b") 9 ?= 0) = Lt.
Proof.
  destruct (comparisons_are_lexicographic (bs "Host") (bs "hOSTS")) as (-> & _).
  1, 2: repeat constructor.
  destruct (comparisons_are_lexicographic (bs "a.b") (bs "a-b")) as (_ & D & _).
  1, 2: repeat constructor.
  rewrite D by repeat constructor.
  destruct (comparisons_are_lexicographic (bs "a/b") (bs "a-b")) as (_ & _ & F & _).
  1, 2: repeat constructor.
  rewrite F by (vm_compute; lia).
  repeat split.
Defined.

(** [ngx_strnstr] and [ngx_strstrn] return the leftmost occurrence of the
    pattern: nothing when the pattern does not occur (within the first [len]
    bytes for [ngx_strnstr]), else the least index where it does. *)
Theorem substring_search_leftmost c pat s len :
  0 < c < 256 -> nonul pat -> nonul s ->
  leftmost (fun i => prefix_of (c :: pat) (skipn i s) /\ (i + S (length pat) <= len)%nat)
           0 (ngx_strnstr s (c :: pat) len)
  /\ leftmost (fun i => prefix_of (c :: pat) (skipn i s))
           0 (ngx_strstrn s (c :: pat) (length pat)).
Proof.
  intros Hc Hp Hs. split; [now apply strnstr_loop_spec|now apply strstrn_loop_spec].
Qed.

Example substring_search_leftmost_witness :
  leftmost (fun i => prefix_of (bs "ab") (skipn i (bs "aabab")) /\ (i + 2 <= 5)%nat)
           0 (Some 1%nat).
Proof.
  refine (proj1 (substring_search_leftmost "a"%chr (bs "b") (bs "aabab") 5 _ _ _));
    repeat constructor.
Defined.

End Str.
