(* ===== verification/NgxNum.v ===== *)
(** * NgxNum: number parsing (src/core/ngx_string.c, src/core/ngx_parse.c)

    Decimal, fixed-point and hexadecimal integers with their overflow cut-offs,
    the hexadecimal dump, and the size, offset and time values of the
    configuration language.  The (pointer, length) argument is the list of the
    bytes; signed arithmetic is exact, and the theorems show that every value
    computed stays within the 64-bit range, so the C code never overflows. *)

From S2P Require Import Prelude.

Module Num.

(** ** Definitions *)

(** The digit loop the [ngx_ato*] functions share in shape: [value] so far,
    one byte per turn. *)
Fixpoint ato_loop (cutoff cutlim value : Z) (line : list Z) : Z :=
  match line with
  | [] => value
  | c :: line' =>
      if ((c <? "0"%chr) || ("9"%chr <? c))%bool then NGX_ERROR
      else if ((cutoff <=? value) && ((cutoff <? value) || (cutlim <? c - "0"%chr)))%bool
      then NGX_ERROR
      else ato_loop cutoff cutlim (value * 10 + (c - "0"%chr)) line'
  end.

Definition ngx_atoi (line : list Z) : Z :=
  match line with
  | [] => NGX_ERROR
  | _ => ato_loop (NGX_MAX_INT_T_VALUE / 10) (NGX_MAX_INT_T_VALUE mod 10) 0 line
  end.

Definition ngx_atosz (line : list Z) : Z :=
  match line with
  | [] => NGX_ERROR
  | _ => ato_loop (NGX_MAX_SIZE_T_VALUE / 10) (NGX_MAX_SIZE_T_VALUE mod 10) 0 line
  end.

Definition ngx_atoof (line : list Z) : Z :=
  match line with
  | [] => NGX_ERROR
  | _ => ato_loop (NGX_MAX_OFF_T_VALUE / 10) (NGX_MAX_OFF_T_VALUE mod 10) 0 line
  end.

Definition ngx_atotm (line : list Z) : Z :=
  match line with
  | [] => NGX_ERROR
  | _ => ato_loop (NGX_MAX_TIME_T_VALUE / 10) (NGX_MAX_TIME_T_VALUE mod 10) 0 line
  end.

(** [while (point--)]: scale by ten for every decimal place left. *)
Fixpoint atofp_scale (cutoff value : Z) (point : nat) : Z :=
  match point with
  | O => value
  | S point' =>
      if cutoff <? value then NGX_ERROR else atofp_scale cutoff (value * 10) point'
  end.

(** [dot] is 0 or 1; [point -= dot] after each digit. *)
Fixpoint atofp_loop (cutoff cutlim value : Z) (dot point : nat) (line : list Z) : Z :=
  match line with
  | [] => atofp_scale cutoff value point
  | c :: line' =>
      if (point =? 0)%nat then NGX_ERROR
      else if c =? "."%chr then
        if negb (dot =? 0)%nat then NGX_ERROR
        else atofp_loop cutoff cutlim value 1 point line'
      else if ((c <? "0"%chr) || ("9"%chr <? c))%bool then NGX_ERROR
      else if ((cutoff <=? value) && ((cutoff <? value) || (cutlim <? c - "0"%chr)))%bool
      then NGX_ERROR
      else atofp_loop cutoff cutlim (value * 10 + (c - "0"%chr)) dot (point - dot) line'
  end.

Definition ngx_atofp (line : list Z) (point : nat) : Z :=
  match line with
  | [] => NGX_ERROR
  | _ => atofp_loop (NGX_MAX_INT_T_VALUE / 10) (NGX_MAX_INT_T_VALUE mod 10) 0 0 point line
  end.

Fixpoint hextoi_loop (cutoff value : Z) (line : list Z) : Z :=
  match line with
  | [] => value
  | ch :: line' =>
      if cutoff <? value then NGX_ERROR
      else if (("0"%chr <=? ch) && (ch <=? "9"%chr))%bool
      then hextoi_loop cutoff (value * 16 + (ch - "0"%chr)) line'
      else
        let c := u8 (Z.lor ch 0x20) in
        if (("a"%chr <=? c) && (c <=? "f"%chr))%bool
        then hextoi_loop cutoff (value * 16 + (c - "a"%chr + 10)) line'
        else NGX_ERROR
  end.

Definition ngx_hextoi (line : list Z) : Z :=
  match line with
  | [] => NGX_ERROR
  | _ => hextoi_loop (NGX_MAX_INT_T_VALUE / 16) 0 line
  end.

Definition hex_digits : list Z := bs "0123456789abcdef".

Definition ngx_hex_dump (src : list Z) : list Z :=
  flat_map (fun c => [tbl hex_digits (Z.shiftr c 4); tbl hex_digits (Z.land c 0xf)]) src.

(** [ngx_parse_size] and [ngx_parse_offset]: the last byte selects the scale
    and the bound; [removelast] is [len--]. *)
Definition ngx_parse_size (line : list Z) : Z :=
  match line with
  | [] => NGX_ERROR
  | _ =>
      let unit := last line 0 in
      let '(digits, max, scale) :=
        if ((unit =? "K"%chr) || (unit =? "k"%chr))%bool
        then (removelast line, NGX_MAX_SIZE_T_VALUE / 1024, 1024)
        else if ((unit =? "M"%chr) || (unit =? "m"%chr))%bool
        then (removelast line, NGX_MAX_SIZE_T_VALUE / (1024 * 1024), 1024 * 1024)
        else (line, NGX_MAX_SIZE_T_VALUE, 1) in
      let size := ngx_atosz digits in
      if ((size =? NGX_ERROR) || (max <? size))%bool then NGX_ERROR else size * scale
  end.

Definition ngx_parse_offset (line : list Z) : Z :=
  match line with
  | [] => NGX_ERROR
  | _ =>
      let unit := last line 0 in
      let '(digits, max, scale) :=
        if ((unit =? "K"%chr) || (unit =? "k"%chr))%bool
        then (removelast line, NGX_MAX_OFF_T_VALUE / 1024, 1024)
        else if ((unit =? "M"%chr) || (unit =? "m"%chr))%bool
        then (removelast line, NGX_MAX_OFF_T_VALUE / (1024 * 1024), 1024 * 1024)
        else if ((unit =? "G"%chr) || (unit =? "g"%chr))%bool
        then (removelast line, NGX_MAX_OFF_T_VALUE / (1024 * 1024 * 1024),
              1024 * 1024 * 1024)
        else (line, NGX_MAX_OFF_T_VALUE, 1) in
      let offset := ngx_atoof digits in
      if ((offset =? NGX_ERROR) || (max <? offset))%bool then NGX_ERROR
      else offset * scale
  end.

(** The steps of [ngx_parse_time], in the order of the C enumeration. *)
Inductive time_step : Set :=
  st_start | st_year | st_month | st_week | st_day | st_hour | st_min | st_sec
| st_msec | st_last.

Definition step_num (s : time_step) : Z :=
  match s with
  | st_start => 0 | st_year => 1 | st_month => 2 | st_week => 3 | st_day => 4
  | st_hour => 5 | st_min => 6 | st_sec => 7 | st_msec => 8 | st_last => 9
  end.

Definition step_ge (a b : time_step) : bool := step_num b <=? step_num a.

(** The [switch] on the unit byte, [p] being the bytes after it: the new step,
    [max], [scale] and the bytes left, or [None] for [return NGX_ERROR]. *)
Definition time_unit (is_sec : bool) (step : time_step) (c : Z) (p : list Z)
  : option (time_step * Z * Z * list Z) :=
  let max := NGX_MAX_INT_T_VALUE in
  if c =? "y"%chr then
    if step_num st_start <? step_num step then None
    else Some (st_year, max / (60 * 60 * 24 * 365), 60 * 60 * 24 * 365, p)
  else if c =? "M"%chr then
    if step_ge step st_month then None
    else Some (st_month, max / (60 * 60 * 24 * 30), 60 * 60 * 24 * 30, p)
  else if c =? "w"%chr then
    if step_ge step st_week then None
    else Some (st_week, max / (60 * 60 * 24 * 7), 60 * 60 * 24 * 7, p)
  else if c =? "d"%chr then
    if step_ge step st_day then None
    else Some (st_day, max / (60 * 60 * 24), 60 * 60 * 24, p)
  else if c =? "h"%chr then
    if step_ge step st_hour then None
    else Some (st_hour, max / (60 * 60), 60 * 60, p)
  else if c =? "m"%chr then
    let minutes :=
      if step_ge step st_min then None else Some (st_min, max / 60, 60, p) in
    match p with
    | [] => minutes
    | c' :: p' =>
        if c' =? "s"%chr then
          if (is_sec || step_ge step st_msec)%bool then None
          else Some (st_msec, max, 1, p')
        else minutes
    end
  else if c =? "s"%chr then
    if step_ge step st_sec then None else Some (st_sec, max, 1, p)
  else if c =? " "%chr then
    if step_ge step st_sec then None else Some (st_last, max, 1, p)
  else None.

Definition is_msec (s : time_step) : bool :=
  match s with st_msec => true | _ => false end.

(** [while (p < last && *p == ' ') p++;] *)
Fixpoint skip_spaces (p : list Z) : list Z :=
  match p with
  | c :: p' => if c =? " "%chr then skip_spaces p' else p
  | [] => []
  end.

(** The main loop; [None] is running out of fuel. *)
Fixpoint parse_time_loop (fuel : nat) (is_sec : bool) (p : list Z)
    (step : time_step) (valid : bool) (value total : Z) : option Z :=
  match p with
  | [] =>
      Some (if negb valid then NGX_ERROR
            else if (negb is_sec && (NGX_MAX_INT_T_VALUE / 1000 <? value))%bool
            then NGX_ERROR
            else
              let value := if is_sec then value else value * 1000 in
              if NGX_MAX_INT_T_VALUE - value <? total then NGX_ERROR
              else total + value)
  | c :: p1 =>
      match fuel with
      | O => None
      | S fuel' =>
          if (("0"%chr <=? c) && (c <=? "9"%chr))%bool then
            if ((NGX_MAX_INT_T_VALUE / 10 <=? value)
                && ((NGX_MAX_INT_T_VALUE / 10 <? value)
                    || (NGX_MAX_INT_T_VALUE mod 10 <? c - "0"%chr)))%bool
            then Some NGX_ERROR
            else parse_time_loop fuel' is_sec p1 step true
                   (value * 10 + (c - "0"%chr)) total
          else
            match time_unit is_sec step c p1 with
            | None => Some NGX_ERROR
            | Some (step, max, scale, p2) =>
                let ms := (negb (is_msec step) && negb is_sec)%bool in
                let scale := if ms then scale * 1000 else scale in
                let max := if ms then max / 1000 else max in
                if max <? value then Some NGX_ERROR
                else
                  let value := value * scale in
                  if NGX_MAX_INT_T_VALUE - value <? total then Some NGX_ERROR
                  else parse_time_loop fuel' is_sec (skip_spaces p2) step valid 0
                         (total + value)
            end
      end
  end.

Definition ngx_parse_time (line : list Z) (is_sec : bool) : option Z :=
  parse_time_loop (length line) is_sec line
    (if is_sec then st_start else st_month) false 0 0.

(** ** Specifications *)

(** The number a digit string denotes when it is representable. *)
Definition decimal (max : Z) (line : list Z) : Z :=
  if (negb (length line =? 0)%nat && forallb is_digit line && (decval line <=? max))%bool
  then decval line else NGX_ERROR.

(** The value of a hexadecimal digit, of either case. *)
Definition hexval (c : Z) : option Z :=
  if (("0"%chr <=? c) && (c <=? "9"%chr))%bool then Some (c - "0"%chr)
  else if (("a"%chr <=? c) && (c <=? "f"%chr))%bool then Some (c - "a"%chr + 10)
  else if (("A"%chr <=? c) && (c <=? "F"%chr))%bool then Some (c - "A"%chr + 10)
  else None.

Fixpoint hexval_from (acc : Z) (l : list Z) : option Z :=
  match l with
  | [] => Some acc
  | c :: t =>
      match hexval c with Some d => hexval_from (acc * 16 + d) t | None => None end
  end.

(** Big-endian value of a byte string. *)
Fixpoint be_from (acc : Z) (l : list Z) : Z :=
  match l with
  | [] => acc
  | b :: t => be_from (acc * 256 + b) t
  end.

(** The seconds (or milliseconds) one unit of the time syntax stands for. *)
Inductive tunit : Set := UYear | UMonth | UWeek | UDay | UHour | UMin | USec | UMsec.

Definition unit_text (u : tunit) : list Z :=
  match u with
  | UYear => ["y"%chr] | UMonth => ["M"%chr] | UWeek => ["w"%chr] | UDay => ["d"%chr]
  | UHour => ["h"%chr] | UMin => ["m"%chr] | USec => ["s"%chr] | UMsec => ["m"%chr; "s"%chr]
  end.

Definition unit_step (u : tunit) : time_step :=
  match u with
  | UYear => st_year | UMonth => st_month | UWeek => st_week | UDay => st_day
  | UHour => st_hour | UMin => st_min | USec => st_sec | UMsec => st_msec
  end.

Definition unit_seconds (u : tunit) : Z :=
  match u with
  | UYear => 31536000 | UMonth => 2592000 | UWeek => 604800 | UDay => 86400
  | UHour => 3600 | UMin => 60 | USec => 1 | UMsec => 1
  end.

(** The weight of a unit in the unit of the result. *)
Definition unit_weight (is_sec : bool) (u : tunit) : Z :=
  match u with
  | UMsec => 1
  | _ => if is_sec then unit_seconds u else unit_seconds u * 1000
  end.

(** A term of a time value: digits, unit and the spaces that follow. *)
Record term := Term { t_digits : list Z; t_unit : tunit; t_spaces : nat }.

Definition term_text (t : term) : list Z :=
  t_digits t ++ unit_text (t_unit t) ++ repeat (" "%chr) (t_spaces t).

Definition terms_text (ts : list term) : list Z := concat (map term_text ts).

Definition term_value (is_sec : bool) (t : term) : Z :=
  decval (t_digits t) * unit_weight is_sec (t_unit t).

Definition terms_value (is_sec : bool) (ts : list term) : Z :=
  fold_right (fun t acc => term_value is_sec t + acc) 0 ts.

(** Units in strictly decreasing size, starting after [step]; milliseconds
    only when the result is in milliseconds. *)
Fixpoint well_ordered (is_sec : bool) (step : Z) (ts : list term) : Prop :=
  match ts with
  | [] => True
  | t :: ts' =>
      t_digits t <> [] /\ forallb is_digit (t_digits t) = true
      /\ step < step_num (unit_step (t_unit t))
      /\ (is_sec = true -> t_unit t <> UMsec)
      /\ well_ordered is_sec (step_num (unit_step (t_unit t))) ts'
  end.

(** ** Lemmas *)

(** The cut-off test of the digit loops rejects exactly the digits that would
    take the value over [max]. *)
Lemma cutoff_iff max value d :
  0 <= max -> 0 <= value -> 0 <= d <= 9 ->
  ((max / 10 <=? value) && ((max / 10 <? value) || (max mod 10 <? d)))%bool
  = (max <? value * 10 + d).
Proof.
  intros Hm Hv Hd. pose proof (Z.div_mod max 10 ltac:(lia)).
  pose proof (Z.mod_pos_bound max 10 ltac:(lia)). lia.
Qed.

Lemma digit_test c :
  ((c <? "0"%chr) || ("9"%chr <? c))%bool = negb (is_digit c).
Proof. unfold is_digit. lia. Qed.

Lemma is_digit_range c : is_digit c = true -> 0 <= c - "0"%chr <= 9.
Proof. unfold is_digit. lia. Qed.

Lemma ato_loop_spec max line value :
  0 <= max -> 0 <= value <= max ->
  ato_loop (max / 10) (max mod 10) value line =
  if (forallb is_digit line && (decval_from value line <=? max))%bool
  then decval_from value line else NGX_ERROR.
Proof.
  intros Hm; revert value; induction line as [|c line IH]; intros value Hv.
  - simpl. destruct (Z.leb_spec value max); [reflexivity|lia].
  - cbn [ato_loop forallb decval_from]. rewrite digit_test.
    destruct (is_digit c) eqn:Hc; [|reflexivity]. cbn [negb andb].
    apply is_digit_range in Hc. rewrite cutoff_iff by lia.
    destruct (Z.ltb_spec max (value * 10 + (c - 48))).
    + case_if; [|reflexivity].
      assert (value * 10 + (c - 48) <= decval_from (value * 10 + (c - 48)) line); [|lia].
      apply decval_from_ge; [lia|]. now apply andb_true_iff in Heqb as [? _].
    + apply IH. lia.
Qed.

Lemma ato_spec max line :
  0 <= max ->
  match line with
  | [] => NGX_ERROR
  | _ => ato_loop (max / 10) (max mod 10) 0 line
  end = decimal max line.
Proof.
  intros H. destruct line as [|c line]; [reflexivity|].
  rewrite ato_loop_spec by lia. reflexivity.
Qed.

Lemma ngx_atoi_spec line : ngx_atoi line = decimal NGX_MAX_INT_T_VALUE line.
Proof. apply ato_spec. lia. Qed.

Lemma ngx_atosz_spec line : ngx_atosz line = decimal NGX_MAX_SIZE_T_VALUE line.
Proof. apply ato_spec. lia. Qed.

Lemma ngx_atoof_spec line : ngx_atoof line = decimal NGX_MAX_OFF_T_VALUE line.
Proof. apply ato_spec. lia. Qed.

Lemma ngx_atotm_spec line : ngx_atotm line = decimal NGX_MAX_TIME_T_VALUE line.
Proof. apply ato_spec. lia. Qed.

Lemma decimal_cases max line :
  0 <= max ->
  decimal max line = NGX_ERROR \/
  (line <> [] /\ forallb is_digit line = true /\ decimal max line = decval line
   /\ 0 <= decval line <= max).
Proof.
  intros H. unfold decimal. case_if; [right|left; reflexivity].
  apply andb_true_iff in Heqb as [Hb Hm]. apply andb_true_iff in Hb as [Hl Hd].
  pose proof (decval_nonneg line Hd). repeat split; try lia; auto.
  intros ->. discriminate Hl.
Qed.

(** Scaled values: the digits times the scale when the product fits. *)
Lemma scaled_spec max0 digits scale :
  0 < scale -> 0 <= max0 ->
  (let v := decimal max0 digits in
   if ((v =? NGX_ERROR) || (max0 / scale <? v))%bool then NGX_ERROR else v * scale)
  = if (negb (length digits =? 0)%nat && forallb is_digit digits
        && (decval digits * scale <=? max0))%bool
    then decval digits * scale else NGX_ERROR.
Proof.
  intros Hs Hm. cbv zeta.
  assert (B : forall v, 0 <= v -> (max0 / scale <? v) = (max0 <? v * scale)).
  { intros v Hv. destruct (Z.ltb_spec max0 (v * scale)).
    - apply Z.ltb_lt, Z.div_lt_upper_bound; lia.
    - apply Z.ltb_ge, Z.div_le_lower_bound; lia. }
  destruct (decimal_cases max0 digits Hm) as [E|(Hn & Hd & E & Hr)]; rewrite E.
  - simpl orb. cbv iota. case_if; [|reflexivity]. unfold decimal in E.
    destruct (negb (length digits =? 0)%nat); [|discriminate Heqb].
    destruct (forallb is_digit digits) eqn:Hd; [|discriminate Heqb].
    pose proof (decval_nonneg digits Hd). cbn [andb] in *.
    assert (decval digits <= max0) by nia. exfalso. case_if_in E; lia.
  - rewrite B by lia. rewrite Hd.
    destruct digits as [|c d]; [congruence|]. cbn [length Nat.eqb negb andb].
    destruct (Z.eqb_spec (decval (c :: d)) (-1)); [lia|]. cbn [orb].
    rewrite Z.ltb_antisym. destruct (decval (c :: d) * scale <=? max0); reflexivity.
Qed.

(** *** Fixed point *)

Lemma decval_scale value n : 0 <= value -> 0 <= value * 10 ^ Z.of_nat n.
Proof. intros H. pose proof (Z.pow_nonneg 10 (Z.of_nat n)). nia. Qed.

Lemma atofp_scale_spec max value n :
  0 <= max -> 0 <= value <= max ->
  atofp_scale (max / 10) value n =
  if value * 10 ^ Z.of_nat n <=? max then value * 10 ^ Z.of_nat n else NGX_ERROR.
Proof.
  intros Hm; revert value; induction n as [|n IH]; intros value Hv; cbn [atofp_scale].
  - rewrite Z.mul_1_r. case_if; lia.
  - rewrite Nat2Z.inj_succ, Z.pow_succ_r by lia.
    replace (value * (10 * 10 ^ Z.of_nat n)) with (value * 10 * 10 ^ Z.of_nat n) by lia.
    destruct (Z.ltb_spec (max / 10) value) as [H|H].
    + apply Z.div_lt_upper_bound in H || idtac.
      assert (max < value * 10) by (pose proof (Z.div_mod max 10 ltac:(lia));
        pose proof (Z.mod_pos_bound max 10 ltac:(lia)); lia).
      pose proof (Z.pow_pos_nonneg 10 (Z.of_nat n) ltac:(lia) ltac:(lia)).
      case_if; nia.
    + apply IH. pose proof (Z.div_mod max 10 ltac:(lia)).
      pose proof (Z.mod_pos_bound max 10 ltac:(lia)). lia.
Qed.

(** The fractional digits, after the dot: one place is consumed per digit. *)
Lemma atofp_loop_frac max value n line :
  0 <= max -> 0 <= value <= max -> forallb is_digit line = true ->
  (length line <= n)%nat ->
  atofp_loop (max / 10) (max mod 10) value 1 n line =
  if decval_from value line * 10 ^ Z.of_nat (n - length line) <=? max
  then decval_from value line * 10 ^ Z.of_nat (n - length line) else NGX_ERROR.
Proof.
  intros Hm; revert value n; induction line as [|c line IH];
    intros value n Hv Hd Hn; cbn [atofp_loop length decval_from].
  - rewrite Nat.sub_0_r. now apply atofp_scale_spec.
  - cbn [forallb] in Hd. apply andb_true_iff in Hd as [Hc Hd].
    pose proof (is_digit_range c Hc) as Hr. simpl length in Hn.
    destruct (Nat.eqb_spec n 0); [lia|].
    destruct (Z.eqb_spec c 46); [lia|].
    rewrite digit_test, Hc. cbn [negb]. rewrite cutoff_iff by lia.
    destruct (Z.ltb_spec max (value * 10 + (c - 48))).
    + pose proof (decval_from_ge (value * 10 + (c - 48)) line ltac:(lia) Hd).
      pose proof (Z.pow_pos_nonneg 10 (Z.of_nat (n - S (length line))) ltac:(lia) ltac:(lia)).
      case_if; nia.
    + rewrite IH by (try assumption; lia).
      replace (n - 1 - length line)%nat with (n - S (length line))%nat by lia.
      reflexivity.
Qed.

(** The integral digits, before any dot. *)
Lemma atofp_loop_int max value n int rest :
  0 <= max -> 0 <= value <= max -> forallb is_digit int = true -> (0 < n)%nat ->
  atofp_loop (max / 10) (max mod 10) value 0 n (int ++ rest) =
  if decval_from value int <=? max
  then atofp_loop (max / 10) (max mod 10) (decval_from value int) 0 n rest
  else NGX_ERROR.
Proof.
  intros Hm; revert value; induction int as [|c int IH];
    intros value Hv Hd Hn; cbn [app decval_from].
  - case_if; [reflexivity|lia].
  - cbn [forallb] in Hd. apply andb_true_iff in Hd as [Hc Hd].
    pose proof (is_digit_range c Hc) as Hr. cbn [atofp_loop].
    destruct (Nat.eqb_spec n 0); [lia|].
    destruct (Z.eqb_spec c 46); [lia|].
    rewrite digit_test, Hc. cbn [negb]. rewrite cutoff_iff by lia.
    destruct (Z.ltb_spec max (value * 10 + (c - 48))).
    + pose proof (decval_from_ge (value * 10 + (c - 48)) int ltac:(lia) Hd).
      case_if; [lia|reflexivity].
    + rewrite Nat.sub_0_r. apply IH; auto. lia.
Qed.

(** *** Hexadecimal *)

Lemma hexval_range c d : hexval c = Some d -> 0 <= d < 16.
Proof. unfold hexval. repeat case_if; intros [= <-]; lia. Qed.

Lemma hextoi_step c :
  is_byte c ->
  hexval c =
  if (("0"%chr <=? c) && (c <=? "9"%chr))%bool then Some (c - "0"%chr)
  else let l := u8 (Z.lor c 0x20) in
       if (("a"%chr <=? l) && (l <=? "f"%chr))%bool then Some (l - "a"%chr + 10)
       else None.
Proof.
  intros H. by_bytes c.
Qed.

Lemma hexval_from_ge acc l v : 0 <= acc -> hexval_from acc l = Some v -> acc <= v.
Proof.
  revert acc; induction l as [|c l IH]; simpl; intros acc Ha.
  - intros [= ->]. lia.
  - destruct (hexval c) as [d|] eqn:E; [|discriminate]. apply hexval_range in E.
    intros Hv. apply IH in Hv; lia.
Qed.

Lemma hextoi_loop_spec max value line :
  0 <= max -> max mod 16 = 15 -> 0 <= value <= max -> wf_bytes line ->
  hextoi_loop (max / 16) value line =
  match hexval_from value line with
  | Some v => if v <=? max then v else NGX_ERROR
  | None => NGX_ERROR
  end.
Proof.
  intros Hm H15; revert value; induction line as [|c line IH]; intros value Hv Hb.
  - simpl. case_if; lia.
  - inversion Hb as [|? ? Hc Hl]; subst. pose proof (Z.div_mod max 16 ltac:(lia)).
    cbn [hextoi_loop hexval_from].
    destruct (Z.ltb_spec (max / 16) value).
    + destruct (hexval c) as [d|] eqn:E; [|reflexivity]. apply hexval_range in E.
      destruct (hexval_from (value * 16 + d) line) as [v|] eqn:F; [|reflexivity].
      apply hexval_from_ge in F; [|lia]. case_if; [lia|reflexivity].
    + rewrite (hextoi_step c Hc). cbv zeta.
      assert (D : forall d, 0 <= d < 16 -> 0 <= value * 16 + d <= max) by lia.
      case_if; [apply IH; [apply D; lia|assumption]|].
      case_if; [|reflexivity]. apply IH; [apply D; lia|assumption].
Qed.

Lemma hex_dump_hexval b :
  is_byte b ->
  hexval (tbl hex_digits (Z.shiftr b 4)) = Some (b / 16)
  /\ hexval (tbl hex_digits (Z.land b 0xf)) = Some (b mod 16).
Proof.
  intros H. split; by_bytes b.
Qed.

Lemma hexval_from_dump acc src :
  wf_bytes src -> hexval_from acc (ngx_hex_dump src) = Some (be_from acc src).
Proof.
  intros H; revert acc; induction H as [|b l Hb Hl IH]; intros acc; [reflexivity|].
  unfold ngx_hex_dump in *. cbn [flat_map app hexval_from be_from].
  destruct (hex_dump_hexval b Hb) as [-> ->].
  rewrite IH. do 2 f_equal. pose proof (Z.div_mod b 16 ltac:(lia)). lia.
Qed.

Lemma hex_dump_wf src : wf_bytes src -> wf_bytes (ngx_hex_dump src).
Proof.
  intros H. unfold ngx_hex_dump. induction H as [|b l Hb Hl IH]; [constructor|].
  cbn [flat_map app].
  assert (E : ((0 <=? tbl hex_digits (Z.shiftr b 4)) &&
               (tbl hex_digits (Z.shiftr b 4) <? 256) &&
               (0 <=? tbl hex_digits (Z.land b 0xf)) &&
               (tbl hex_digits (Z.land b 0xf) <? 256)) = true).
  { apply (byte_check (fun b => (0 <=? tbl hex_digits (Z.shiftr b 4)) &&
               (tbl hex_digits (Z.shiftr b 4) <? 256) &&
               (0 <=? tbl hex_digits (Z.land b 0xf)) &&
               (tbl hex_digits (Z.land b 0xf) <? 256))); auto. }
  constructor; [byte_lia|]. constructor; [byte_lia|exact IH].
Qed.

(** *** Time values *)

Definition time_ok (v : Z) : Prop := v = NGX_ERROR \/ 0 <= v <= NGX_MAX_INT_T_VALUE.

Lemma skip_spaces_length p : (length (skip_spaces p) <= length p)%nat.
Proof. induction p as [|c p IH]; simpl; [lia|]. case_if; simpl; lia. Qed.

Lemma skip_spaces_repeat n p :
  match p with c :: _ => c <> " "%chr | [] => True end ->
  skip_spaces (repeat (" "%chr) n ++ p) = p.
Proof.
  intros H. induction n as [|n IH]; simpl; [|exact IH].
  destruct p as [|c p]; [reflexivity|]. simpl. destruct (Z.eqb_spec c 32); [lia|reflexivity].
Qed.

Lemma time_unit_spec is_sec step c p step' max scale p' :
  time_unit is_sec step c p = Some (step', max, scale, p') ->
  0 < scale /\ max = NGX_MAX_INT_T_VALUE / scale /\ (length p' <= length p)%nat
  /\ (is_msec step' = true -> scale = 1).
Proof.
  unfold time_unit. intros H. destruct p as [|a p];
  repeat (case_if_in H; try discriminate H;
          try (injection H as <- <- <- <-;
               repeat split; try reflexivity; try discriminate; simpl; lia)).
Qed.

(** The loop never runs out of fuel, and a value it returns is in range. *)
Lemma parse_time_loop_total fuel is_sec p step valid value total :
  (length p <= fuel)%nat -> 0 <= value <= NGX_MAX_INT_T_VALUE ->
  0 <= total <= NGX_MAX_INT_T_VALUE ->
  exists v, parse_time_loop fuel is_sec p step valid value total = Some v /\ time_ok v.
Proof.
  revert p step valid value total; induction fuel as [|fuel IH];
    intros p step valid value total Hf Hv Ht; destruct p as [|c p]; simpl in Hf; try lia;
    cbn [parse_time_loop].
  1, 2: eexists; split; [reflexivity|]; unfold time_ok;
    destruct valid, is_sec; cbn [negb andb]; repeat case_if; lia.
  case_if.
  - rewrite cutoff_iff by lia. case_if; [eexists; split; [reflexivity|now left]|].
    apply IH; lia.
  - destruct (time_unit is_sec step c p) as [[[[st' max] scale] p2]|] eqn:E;
      [|eexists; split; [reflexivity|now left]].
    apply time_unit_spec in E as (Hs & Hm & Hl & _).
    set (ms := (negb (is_msec st') && negb is_sec)%bool).
    assert (B : 0 < (if ms then scale * 1000 else scale) /\
      (if ms then max / 1000 else max) = NGX_MAX_INT_T_VALUE / (if ms then scale * 1000 else scale)).
    { destruct ms; [|lia]. split; [lia|]. subst max. apply Z.div_div; lia. }
    revert B. generalize (if ms then scale * 1000 else scale) as sc,
                         (if ms then max / 1000 else max) as mx.
    cbv zeta. intros sc mx [Bs Bm].
    case_if; [eexists; split; [reflexivity|now left]|].
    assert (value * sc <= NGX_MAX_INT_T_VALUE).
    { pose proof (Z.mul_div_le NGX_MAX_INT_T_VALUE sc ltac:(lia)). nia. }
    case_if; [eexists; split; [reflexivity|now left]|].
    pose proof (skip_spaces_length p2). apply IH; nia.
Qed.

Lemma parse_time_digits fuel is_sec ds p step valid value total :
  forallb is_digit ds = true -> 0 <= value <= NGX_MAX_INT_T_VALUE ->
  parse_time_loop (length ds + fuel) is_sec (ds ++ p) step valid value total =
  if decval_from value ds <=? NGX_MAX_INT_T_VALUE
  then parse_time_loop fuel is_sec p step (valid || negb (length ds =? 0)%nat)
         (decval_from value ds) total
  else Some NGX_ERROR.
Proof.
  revert valid value; induction ds as [|c ds IH]; intros valid value Hd Hv.
  - cbn [app length Nat.add decval_from]. rewrite orb_false_r. case_if; [reflexivity|lia].
  - cbn [forallb] in Hd. apply andb_true_iff in Hd as [Hc Hd].
    pose proof (is_digit_range c Hc) as Hr.
    cbn [app length Nat.add parse_time_loop decval_from]. unfold is_digit in Hc. rewrite Hc.
    rewrite cutoff_iff by lia.
    destruct (Z.ltb_spec NGX_MAX_INT_T_VALUE (value * 10 + (c - 48))).
    + pose proof (decval_from_ge (value * 10 + (c - 48)) ds ltac:(lia) Hd).
      case_if; [lia|reflexivity].
    + rewrite IH by (try assumption; lia). cbn [orb]. rewrite orb_true_r. reflexivity.
Qed.

(** A tail of the text at which a term can start or the text can end. *)
Definition term_start (p : list Z) : Prop :=
  match p with c :: _ => is_digit c = true | [] => True end.

Lemma time_unit_text is_sec step u n p :
  term_start p -> step_num step < step_num (unit_step u) ->
  (is_sec = true -> u <> UMsec) ->
  exists c q, unit_text u = c :: q /\ is_digit c = false /\
    time_unit is_sec step c (q ++ repeat (" "%chr) n ++ p) =
    Some (unit_step u, NGX_MAX_INT_T_VALUE / unit_seconds u, unit_seconds u,
          repeat (" "%chr) n ++ p).
Proof.
  intros Hp Hs Hu.
  destruct u; do 2 eexists; (split; [reflexivity|]); (split; [reflexivity|]);
    cbn [app]; unfold time_unit, step_ge; cbn [Z.eqb Pos.eqb];
    try (cbn [unit_step step_num] in *; case_if; [lia|reflexivity]).
  - cbn [unit_step step_num] in *.
    assert (M : (6 <=? step_num step) = false) by lia. rewrite M.
    destruct n as [|n]; cbn [repeat app]; [|reflexivity].
    destruct p as [|d p]; [reflexivity|]. unfold term_start, is_digit in Hp.
    destruct (Z.eqb_spec d 115); [lia|reflexivity].
  - cbn [unit_step step_num] in *. destruct is_sec; [now specialize (Hu eq_refl)|].
    cbn [orb]. case_if; [lia|reflexivity].
Qed.

Lemma scale_guard value sc total :
  0 < sc -> 0 <= value -> 0 <= total ->
  (if NGX_MAX_INT_T_VALUE / sc <? value then true
   else NGX_MAX_INT_T_VALUE - value * sc <? total)
  = negb (total + value * sc <=? NGX_MAX_INT_T_VALUE).
Proof.
  intros Hs Hv Ht. pose proof (Z.mul_div_le NGX_MAX_INT_T_VALUE sc Hs).
  pose proof (Z.mul_succ_div_gt NGX_MAX_INT_T_VALUE sc Hs).
  case_if; [|lia]. assert (NGX_MAX_INT_T_VALUE < value * sc) by nia. lia.
Qed.

Lemma parse_time_unit fuel is_sec u n p step valid value total :
  term_start p -> step_num step < step_num (unit_step u) ->
  (is_sec = true -> u <> UMsec) -> 0 <= value -> 0 <= total ->
  parse_time_loop (S fuel) is_sec (unit_text u ++ repeat (" "%chr) n ++ p) step valid value total
  = if total + value * unit_weight is_sec u <=? NGX_MAX_INT_T_VALUE
    then parse_time_loop fuel is_sec p (unit_step u) valid 0
           (total + value * unit_weight is_sec u)
    else Some NGX_ERROR.
Proof.
  intros Hp Hs Hu Hv Ht.
  destruct (time_unit_text is_sec step u n p Hp Hs Hu) as (c & q & -> & Hc & E).
  cbn [app parse_time_loop]. unfold is_digit in Hc. rewrite Hc, E.
  assert (W : (if (negb (is_msec (unit_step u)) && negb is_sec)%bool
               then unit_seconds u * 1000 else unit_seconds u) = unit_weight is_sec u
            /\ (if (negb (is_msec (unit_step u)) && negb is_sec)%bool
                then NGX_MAX_INT_T_VALUE / unit_seconds u / 1000
                else NGX_MAX_INT_T_VALUE / unit_seconds u)
               = NGX_MAX_INT_T_VALUE / unit_weight is_sec u
            /\ 0 < unit_weight is_sec u).
  { destruct u, is_sec; repeat split. }
  destruct W as (W1 & W2 & W3). cbv zeta. rewrite W1, W2.
  pose proof (scale_guard value _ total W3 Hv Ht) as G.
  rewrite skip_spaces_repeat.
  2:{ destruct p as [|d p]; [exact I|]. unfold term_start, is_digit in Hp. lia. }
  destruct (NGX_MAX_INT_T_VALUE / unit_weight is_sec u <? value);
    [|rewrite G]; destruct (total + value * unit_weight is_sec u <=? NGX_MAX_INT_T_VALUE);
    try discriminate G; reflexivity.
Qed.

Lemma terms_value_nonneg is_sec step ts :
  well_ordered is_sec step ts -> 0 <= terms_value is_sec ts.
Proof.
  revert step; induction ts as [|t ts IH]; intros step; simpl; [lia|].
  intros (_ & Hd & _ & _ & Hw). apply IH in Hw.
  pose proof (decval_nonneg _ Hd). unfold term_value.
  assert (0 <= unit_weight is_sec (t_unit t)) by (destruct (t_unit t), is_sec; simpl; lia).
  nia.
Qed.

Lemma term_start_terms is_sec step ts tail :
  well_ordered is_sec step ts -> forallb is_digit tail = true ->
  term_start (terms_text ts ++ tail).
Proof.
  destruct ts as [|t ts]; simpl.
  - intros _ H. destruct tail as [|c tail]; [exact I|]. simpl in *. lia.
  - intros (Hn & Hd & _) _. unfold terms_text, term_text. simpl.
    destruct (t_digits t) as [|c ds]; [congruence|]. simpl in *. lia.
Qed.

(** The trailing number, in the unit of the result. *)
Definition tail_value (is_sec : bool) (tail : list Z) : Z :=
  if is_sec then decval tail else decval tail * 1000.

Lemma parse_time_terms fuel is_sec ts tail step valid total :
  well_ordered is_sec (step_num step) ts -> forallb is_digit tail = true ->
  (valid = true \/ ts <> [] \/ tail <> []) ->
  0 <= total <= NGX_MAX_INT_T_VALUE -> (length (terms_text ts ++ tail) <= fuel)%nat ->
  parse_time_loop fuel is_sec (terms_text ts ++ tail) step valid 0 total =
  Some (let v := total + terms_value is_sec ts + tail_value is_sec tail in
        if v <=? NGX_MAX_INT_T_VALUE then v else NGX_ERROR).
Proof.
  revert fuel step valid total; induction ts as [|t ts IH];
    intros fuel step valid total Hw Htl Hv Ht Hf.
  - cbn [terms_text map concat app terms_value fold_right] in *. unfold tail_value.
    rewrite <- (app_nil_r tail) at 1.
    replace fuel with (length tail + (fuel - length tail))%nat by lia.
    rewrite parse_time_digits by (try assumption; lia).
    pose proof (decval_nonneg tail Htl). change (decval_from 0 tail) with (decval tail).
    assert (V : (valid || negb (length tail =? 0)%nat)%bool = true).
    { destruct Hv as [->|[C|C]]; [reflexivity|congruence|]. destruct tail; [congruence|].
      apply orb_true_r. }
    destruct (Z.leb_spec (decval tail) NGX_MAX_INT_T_VALUE).
    + destruct (fuel - length tail)%nat; cbn [parse_time_loop]; rewrite V; cbn [negb];
        f_equal; destruct is_sec; cbn [negb andb];
        repeat case_if; try lia;
        pose proof (Z.div_mod NGX_MAX_INT_T_VALUE 1000 ltac:(lia));
        pose proof (Z.mod_pos_bound NGX_MAX_INT_T_VALUE 1000 ltac:(lia)); lia.
    + f_equal. cbv zeta. destruct is_sec; case_if; lia.
  - destruct Hw as (Hn & Hd & Hs & Hm & Hw).
    pose proof (term_start_terms _ _ _ _ Hw Htl) as Hstart.
    pose proof (terms_value_nonneg _ _ _ Hw) as Hpos.
    pose proof (decval_nonneg _ Hd) as Hdv.
    pose proof (decval_nonneg _ Htl) as Htv.
    assert (Hwt : 0 < unit_weight is_sec (t_unit t))
      by (destruct (t_unit t), is_sec; simpl; lia).
    assert (Hul : (1 <= length (unit_text (t_unit t)))%nat) by (destruct (t_unit t); simpl; lia).
    unfold terms_text in *. cbn [map concat terms_value fold_right] in *.
    fold (terms_value is_sec ts). unfold term_text at 1 in Hf.
    unfold term_text at 1. rewrite <- !app_assoc in *.
    rewrite !length_app in Hf.
    remember (fuel - length (t_digits t))%nat as f1.
    replace fuel with (length (t_digits t) + f1)%nat by lia.
    rewrite parse_time_digits by (try assumption; lia).
    change (decval_from 0 (t_digits t)) with (decval (t_digits t)).
    replace (valid || negb (length (t_digits t) =? 0)%nat)%bool with true
      by (destruct (t_digits t); [congruence|now rewrite orb_true_r]).
    unfold term_value, tail_value in *.
    destruct f1 as [|f1]; [lia|].
    destruct (Z.leb_spec (decval (t_digits t)) NGX_MAX_INT_T_VALUE).
    + rewrite parse_time_unit by (try assumption; lia).
      destruct (Z.leb_spec (total + decval (t_digits t) * unit_weight is_sec (t_unit t))
                  NGX_MAX_INT_T_VALUE).
      * rewrite IH.
        -- f_equal. cbv zeta. rewrite !Z.add_assoc. reflexivity.
        -- exact Hw.
        -- exact Htl.
        -- now left.
        -- nia.
        -- rewrite length_app. lia.
      * f_equal. cbv zeta. destruct is_sec; case_if; lia.
    + f_equal. cbv zeta. destruct is_sec; case_if; nia.
Qed.

Lemma atofp_loop_long max value n line :
  0 <= max -> 0 <= value <= max -> forallb is_digit line = true ->
  (n < length line)%nat ->
  atofp_loop (max / 10) (max mod 10) value 1 n line = NGX_ERROR.
Proof.
  intros Hm; revert value n; induction line as [|c line IH];
    intros value n Hv Hd Hn; simpl length in Hn; [lia|].
  cbn [forallb] in Hd. apply andb_true_iff in Hd as [Hc Hd].
  pose proof (is_digit_range c Hc) as Hr. cbn [atofp_loop].
  destruct (Nat.eqb_spec n 0); [reflexivity|].
  destruct (Z.eqb_spec c 46); [lia|].
  rewrite digit_test, Hc. cbn [negb]. rewrite cutoff_iff by lia.
  case_if; [reflexivity|]. apply IH; try assumption; lia.
Qed.

Lemma last_removelast (l : list Z) : l <> [] -> l = removelast l ++ [last l 0].
Proof. apply app_removelast_last. Qed.

(** The scale a size or offset suffix stands for. *)
Definition suffix_scale (giga : bool) (unit : Z) : option Z :=
  if ((unit =? "K"%chr) || (unit =? "k"%chr))%bool then Some 1024
  else if ((unit =? "M"%chr) || (unit =? "m"%chr))%bool then Some 1048576
  else if (giga && ((unit =? "G"%chr) || (unit =? "g"%chr)))%bool then Some 1073741824
  else None.

(** Digits times a scale, or the error code when the text is no number or the
    product exceeds [max]. *)
Definition scaled (max : Z) (digits : list Z) (scale : Z) : Z :=
  if (negb (length digits =? 0)%nat && forallb is_digit digits
      && (decval digits * scale <=? max))%bool
  then decval digits * scale else NGX_ERROR.

Definition scaled_text (max : Z) (giga : bool) (line : list Z) : Z :=
  match suffix_scale giga (last line 0) with
  | Some k => scaled max (removelast line) k
  | None => scaled max line 1
  end.

Lemma parse_size_spec line :
  ngx_parse_size line = scaled_text NGX_MAX_SIZE_T_VALUE false line.
Proof.
  unfold scaled_text, suffix_scale, scaled. destruct line as [|c line]; [reflexivity|].
  unfold ngx_parse_size. set (l := c :: line).
  do 2 (case_if; [rewrite ngx_atosz_spec;
    apply (scaled_spec NGX_MAX_SIZE_T_VALUE); lia|]).
  rewrite ngx_atosz_spec. rewrite <- (scaled_spec NGX_MAX_SIZE_T_VALUE l 1) by lia.
  reflexivity.
Qed.

Lemma parse_offset_spec line :
  ngx_parse_offset line = scaled_text NGX_MAX_OFF_T_VALUE true line.
Proof.
  unfold scaled_text, suffix_scale, scaled. destruct line as [|c line]; [reflexivity|].
  unfold ngx_parse_offset. set (l := c :: line). cbn [andb].
  do 3 (case_if; [rewrite ngx_atoof_spec;
    apply (scaled_spec NGX_MAX_OFF_T_VALUE); lia|]).
  rewrite ngx_atoof_spec. rewrite <- (scaled_spec NGX_MAX_OFF_T_VALUE l 1) by lia.
  reflexivity.
Qed.

(** ** Properties *)

(** The decimal parsers accept exactly the non-empty digit strings whose
    value fits their type and return that value, and [NGX_ERROR] on everything
    else: no accepted number overflows, none that fits is refused. *)
Theorem ato_exact line :
  ngx_atoi line = decimal NGX_MAX_INT_T_VALUE line
  /\ ngx_atosz line = decimal NGX_MAX_SIZE_T_VALUE line
  /\ ngx_atoof line = decimal NGX_MAX_OFF_T_VALUE line
  /\ ngx_atotm line = decimal NGX_MAX_TIME_T_VALUE line.
Proof.
  auto using ngx_atoi_spec, ngx_atosz_spec, ngx_atoof_spec, ngx_atotm_spec.
Qed.

(** [ngx_atofp] reads a fixed-point number exactly: integral digits, a dot
    and at most [point] decimals give the number scaled by [10^point] when that
    fits in [ngx_int_t]; more decimals or an overflow give [NGX_ERROR]. *)
Theorem atofp_exact int frac point :
  forallb is_digit int = true -> forallb is_digit frac = true -> (0 < point)%nat ->
  ngx_atofp (int ++ "."%chr :: frac) point =
  let v := decval (int ++ frac) * 10 ^ Z.of_nat (point - length frac) in
  if ((length frac <=? point)%nat && (v <=? NGX_MAX_INT_T_VALUE))%bool
  then v else NGX_ERROR.
Proof.
  intros Hi Hf Hp. unfold ngx_atofp.
  replace (match int ++ "."%chr :: frac with [] => NGX_ERROR | _ :: _ =>
    atofp_loop (NGX_MAX_INT_T_VALUE / 10) (NGX_MAX_INT_T_VALUE mod 10) 0 0 point
      (int ++ "."%chr :: frac) end) with
    (atofp_loop (NGX_MAX_INT_T_VALUE / 10) (NGX_MAX_INT_T_VALUE mod 10) 0 0 point
      (int ++ "."%chr :: frac)) by (destruct int; reflexivity).
  rewrite atofp_loop_int by (try assumption; lia).
  pose proof (decval_nonneg _ Hi) as Hi0. fold (decval int).
  assert (Edv : decval (int ++ frac) = decval_from (decval int) frac)
    by apply decval_from_app.
  cbv zeta. rewrite Edv. clear Edv.
  pose proof (decval_from_ge (decval int) frac Hi0 Hf) as Hge.
  pose proof (Z.pow_pos_nonneg 10 (Z.of_nat (point - length frac)) ltac:(lia) ltac:(lia)).
  destruct (Z.leb_spec (decval int) NGX_MAX_INT_T_VALUE) as [L|L].
  - cbn [atofp_loop]. destruct (Nat.eqb_spec point 0); [lia|]. cbn [Nat.eqb negb].
    rewrite Z.eqb_refl.
    destruct (Nat.leb_spec (length frac) point); cbn [andb].
    + now rewrite atofp_loop_frac by (try assumption; lia).
    + now rewrite atofp_loop_long by (try assumption; lia).
  - assert (N : decval_from (decval int) frac * 10 ^ Z.of_nat (point - length frac)
                > NGX_MAX_INT_T_VALUE) by nia.
    case_if; [|reflexivity]. apply andb_true_iff in Heqb as [_ Hb]. lia.
Qed.

Example atofp_exact_witness : ngx_atofp (bs "10.5") 2 = 1050.
Proof. exact (atofp_exact (bs "10") (bs "5") 2 eq_refl eq_refl ltac:(lia)). Defined.

(** [ngx_hextoi] reads hexadecimal digits of either case, refusing what is
    not a digit and what exceeds [ngx_int_t]; on the dump [ngx_hex_dump] writes
    it returns the big-endian value of the dumped bytes. *)
Theorem hex_roundtrip src line :
  wf_bytes src -> src <> [] -> wf_bytes line -> line <> [] ->
  ngx_hextoi line =
    match hexval_from 0 line with
    | Some v => if v <=? NGX_MAX_INT_T_VALUE then v else NGX_ERROR
    | None => NGX_ERROR
    end
  /\ ngx_hextoi (ngx_hex_dump src) =
    (if be_from 0 src <=? NGX_MAX_INT_T_VALUE then be_from 0 src else NGX_ERROR)
  /\ length (ngx_hex_dump src) = (2 * length src)%nat.
Proof.
  intros Hs Hn Hl Hl'.
  assert (G : forall l, wf_bytes l -> l <> [] -> ngx_hextoi l =
    match hexval_from 0 l with
    | Some v => if v <=? NGX_MAX_INT_T_VALUE then v else NGX_ERROR
    | None => NGX_ERROR
    end).
  { intros l Hw Hne. destruct l; [congruence|].
    apply (hextoi_loop_spec NGX_MAX_INT_T_VALUE); [lia|reflexivity|lia|exact Hw]. }
  split; [now apply G|]. split.
  - rewrite G.
    + now rewrite hexval_from_dump.
    + now apply hex_dump_wf.
    + destruct src; [congruence|discriminate].
  - unfold ngx_hex_dump. clear. induction src; simpl in *; lia.
Qed.

Example hex_roundtrip_witness :
  ngx_hextoi (bs "7fF") = 0x7ff /\ ngx_hextoi (ngx_hex_dump [18; 52; 171]) = 0x1234ab.
Proof.
  refine (let H := hex_roundtrip [18; 52; 171] (bs "7fF") _ _ _ _ in
          conj (proj1 H) (proj1 (proj2 H)));
    try discriminate; repeat constructor; discriminate.
Defined.

(** [ngx_parse_size] and [ngx_parse_offset] multiply the digits by the
    scale of their suffix (K, M and for offsets G, either case) and refuse
    exactly the texts that are no number or whose product exceeds the type. *)
Theorem parse_size_offset_exact line :
  ngx_parse_size line = scaled_text NGX_MAX_SIZE_T_VALUE false line
  /\ ngx_parse_offset line = scaled_text NGX_MAX_OFF_T_VALUE true line.
Proof. split; [apply parse_size_spec|apply parse_offset_spec]. Qed.

(** [ngx_parse_time] returns on every input, and what it returns is either
    [NGX_ERROR] or a time in the range of [ngx_int_t]. *)
Theorem parse_time_total line is_sec :
  exists v, ngx_parse_time line is_sec = Some v /\ time_ok v.
Proof. apply parse_time_loop_total; lia. Qed.

(** On a text of terms in strictly decreasing units (years down to seconds,
    or weeks down to milliseconds for a millisecond result), each followed by
    any spaces, and an optional trailing number, [ngx_parse_time] returns the
    sum of the terms in the unit of the result, or [NGX_ERROR] when the sum
    does not fit. *)
Theorem parse_time_sum is_sec ts tail :
  well_ordered is_sec (if is_sec then 0 else 2) ts -> forallb is_digit tail = true ->
  ts <> [] \/ tail <> [] ->
  ngx_parse_time (terms_text ts ++ tail) is_sec =
  Some (let v := terms_value is_sec ts + tail_value is_sec tail in
        if v <=? NGX_MAX_INT_T_VALUE then v else NGX_ERROR).
Proof.
  intros Hw Ht Hn. unfold ngx_parse_time.
  apply parse_time_terms; [destruct is_sec; exact Hw|exact Ht|now right|lia|lia].
Qed.

Example parse_time_sum_witness :
  ngx_parse_time (bs "1h  30m5") true = Some 5405
  /\ ngx_parse_time (bs "1d20ms") false = Some 86400020.
Proof.
  split.
  - refine (parse_time_sum true [Term (bs "1") UHour 2; Term (bs "30") UMin 0] (bs "5") _ _ _);
      [|reflexivity|now left].
    repeat split; try discriminate; vm_compute; congruence.
  - refine (parse_time_sum false [Term (bs "1") UDay 0; Term (bs "20") UMsec 0] [] _ _ _);
      [|reflexivity|now left].
    repeat split; try discriminate; vm_compute; congruence.
Defined.

End Num.
