(* ===== verification/Sort.v ===== *)
(** * Sort: the insertion sort [ngx_sort] of src/core/ngx_string.c

    The array is a list updated by index; [sort_shift] is the inner loop that
    moves [p2] down, [sort_step] one turn of the outer loop, and the comparator
    is an argument, as in the C signature. *)

From S2P Require Import Prelude.

Module Sort.

Section Defs.

Context {A : Type} (cmp : A -> A -> Z).

(** ** Definitions *)

(** The inner loop: [p2] is the index of the free slot; the array and the final
    slot are returned. *)
Fixpoint sort_shift (p : A) (arr : list A) (p2 : nat) : list A * nat :=
  match p2 with
  | O => (arr, O)
  | S j =>
      match nth_error arr j with
      | Some y =>
          if 0 <? cmp y p then sort_shift p (upd p2 y arr) j else (arr, p2)
      | None => (arr, p2)
      end
  end.

Definition sort_step (arr : list A) (p1 : nat) : list A :=
  match nth_error arr p1 with
  | Some p => let '(arr', p2) := sort_shift p arr p1 in upd p2 p arr'
  | None => arr
  end.

(** [alloc] tells whether [ngx_alloc] gave the temporary element. *)
Definition ngx_sort (alloc : bool) (base : list A) : list A :=
  if alloc then fold_left sort_step (seq 1 (length base - 1)) base else base.

(** ** Specifications *)

(** Insertion from the back, on the reversed list and on the list. *)
Fixpoint ins_rev (p : A) (l : list A) : list A :=
  match l with
  | [] => [p]
  | y :: t => if 0 <? cmp y p then y :: ins_rev p t else p :: y :: t
  end.

Definition ins_back (p : A) (l : list A) : list A := rev (ins_rev p (rev l)).

Definition cle (a b : A) : Prop := cmp a b <= 0.

(** A comparator of the kind [ngx_sort] is given: a total preorder whose sign
    changes when its arguments are exchanged. *)
Class Comparator : Prop := {
  cmp_antisym : forall a b, Z.sgn (cmp b a) = - Z.sgn (cmp a b);
  cmp_trans : forall a b c, cmp a b <= 0 -> cmp b c <= 0 -> cmp a c <= 0
}.

(** ** Lemmas *)

Lemma ins_back_snoc p l y :
  ins_back p (l ++ [y]) = if 0 <? cmp y p then ins_back p l ++ [y] else (l ++ [y]) ++ [p].
Proof.
  unfold ins_back. rewrite rev_app_distr. cbn [rev app ins_rev].
  case_if; cbn [rev]; [reflexivity|]. now rewrite rev_involutive.
Qed.

Lemma sort_shift_spec p l q rest arr' k :
  sort_shift p (l ++ q :: rest) (length l) = (arr', k) ->
  upd k p arr' = ins_back p l ++ rest.
Proof.
  revert q rest; induction l as [|y l IH] using rev_ind; intros q rest.
  - cbn. intros [= <- <-]. reflexivity.
  - rewrite length_app, Nat.add_1_r, <- app_assoc. cbn [app sort_shift].
    rewrite nth_error_app2, Nat.sub_diag by lia. cbn [nth_error].
    rewrite ins_back_snoc. case_if.
    + rewrite upd_app_r by lia. replace (S (length l) - length l)%nat with 1%nat by lia.
      cbn [upd]. intros Hs. apply IH in Hs. rewrite Hs, <- app_assoc. reflexivity.
    + intros [= <- <-]. rewrite upd_app_r by lia.
      replace (S (length l) - length l)%nat with 1%nat by lia.
      cbn [upd]. rewrite <- !app_assoc. reflexivity.
Qed.

Lemma sort_step_spec l p rest :
  sort_step (l ++ p :: rest) (length l) = ins_back p l ++ rest.
Proof.
  unfold sort_step. rewrite nth_error_app2, Nat.sub_diag by lia. cbn [nth_error].
  destruct (sort_shift p (l ++ p :: rest) (length l)) as [arr' k] eqn:E.
  eapply sort_shift_spec. exact E.
Qed.

Lemma ins_rev_perm p l : Permutation (p :: l) (ins_rev p l).
Proof.
  induction l as [|y l IH]; simpl; [reflexivity|]. case_if; [|reflexivity].
  rewrite perm_swap. now apply perm_skip.
Qed.

Lemma ins_back_perm p l : Permutation (l ++ [p]) (ins_back p l).
Proof.
  unfold ins_back. rewrite <- Permutation_rev, <- ins_rev_perm, <- Permutation_rev.
  symmetry. apply Permutation_cons_append.
Qed.

Lemma length_ins_back p l : length (ins_back p l) = S (length l).
Proof. rewrite <- (Permutation_length (ins_back_perm p l)), length_app. simpl. lia. Qed.

Lemma sort_fold done rest :
  fold_left sort_step (seq (length done) (length rest)) (done ++ rest)
  = fold_left (fun d p => ins_back p d) rest done.
Proof.
  revert done; induction rest as [|p rest IH]; intros done.
  - cbn. apply app_nil_r.
  - cbn [length seq fold_left]. rewrite sort_step_spec, <- IH, length_ins_back.
    reflexivity.
Qed.

Lemma ngx_sort_ins l :
  ngx_sort true l =
  match l with [] => [] | a :: t => fold_left (fun d p => ins_back p d) t [a] end.
Proof.
  unfold ngx_sort. destruct l as [|a t]; [reflexivity|].
  replace (length (a :: t) - 1)%nat with (length t) by (simpl; lia).
  exact (sort_fold [a] t).
Qed.

Context {HC : Comparator}.

Lemma cmp_pos_flip a b : 0 < cmp a b <-> cmp b a < 0.
Proof. pose proof (cmp_antisym a b). destruct (cmp a b), (cmp b a); simpl in *; lia. Qed.

Lemma cmp_zero_flip a b : cmp a b = 0 <-> cmp b a = 0.
Proof. pose proof (cmp_antisym a b). destruct (cmp a b), (cmp b a); simpl in *; lia. Qed.

Lemma ins_rev_sorted p l :
  StronglySorted (fun a b => cle b a) l -> StronglySorted (fun a b => cle b a) (ins_rev p l).
Proof.
  unfold cle. induction 1 as [|y l Hs IH Hf]; simpl; [repeat constructor|].
  destruct (Z.ltb_spec 0 (cmp y p)) as [Hp|Hp].
  - constructor; [exact IH|].
    apply (Permutation_Forall (ins_rev_perm p l)). constructor; [|exact Hf].
    apply cmp_pos_flip in Hp. lia.
  - constructor; [now constructor|]. constructor; [exact Hp|].
    eapply Forall_impl; [|exact Hf]. intros z Hz. exact (cmp_trans z y p Hz Hp).
Qed.

Lemma sorted_rev l :
  StronglySorted (fun a b => cle b a) l -> StronglySorted cle (rev l).
Proof.
  induction 1 as [|y l Hs IH Hf]; simpl; [constructor|].
  clear Hs. revert IH. assert (Hr : Forall (fun a => cle a y) (rev l)).
  { apply Forall_rev. exact Hf. }
  induction Hr as [|z r Hz Hr IHr]; intros Hs; simpl; [repeat constructor|].
  apply StronglySorted_inv in Hs as [Hs Hzr]. constructor; [now apply IHr|].
  apply Forall_app. split; [exact Hzr|]. now repeat constructor.
Qed.

Lemma sorted_rev' l :
  StronglySorted cle l -> StronglySorted (fun a b => cle b a) (rev l).
Proof.
  induction 1 as [|y l Hs IH Hf]; simpl; [constructor|].
  clear Hs. revert IH. assert (Hr : Forall (fun a => cle y a) (rev l)).
  { apply Forall_rev. exact Hf. }
  induction Hr as [|z r Hz Hr IHr]; intros Hs; simpl; [repeat constructor|].
  apply StronglySorted_inv in Hs as [Hs Hzr]. constructor; [now apply IHr|].
  apply Forall_app. split; [exact Hzr|]. now repeat constructor.
Qed.

Lemma ins_back_sorted p l : StronglySorted cle l -> StronglySorted cle (ins_back p l).
Proof. intros H. apply sorted_rev, ins_rev_sorted, sorted_rev', H. Qed.

(** Insertion keeps the order of the elements equivalent to any [x]. *)
Lemma ins_rev_filter x p l :
  filter (fun y => cmp x y =? 0) (ins_rev p l) = filter (fun y => cmp x y =? 0) (p :: l).
Proof.
  induction l as [|y l IH]; [reflexivity|]. cbn [ins_rev].
  destruct (Z.ltb_spec 0 (cmp y p)) as [H|H]; [|reflexivity].
  cbn [filter] in *. rewrite IH.
  destruct (Z.eqb_spec (cmp x y) 0) as [Ey|Ey], (Z.eqb_spec (cmp x p) 0) as [Ep|Ep];
    try reflexivity. exfalso.
  assert (cmp y p <= 0); [|lia].
  apply cmp_trans with x; [apply cmp_zero_flip in Ey; lia|lia].
Qed.

Lemma ins_back_filter x p l :
  filter (fun y => cmp x y =? 0) (ins_back p l)
  = filter (fun y => cmp x y =? 0) (l ++ [p]).
Proof.
  unfold ins_back. rewrite filter_rev, ins_rev_filter, <- filter_rev. cbn [rev].
  now rewrite rev_involutive.
Qed.

Lemma fold_ins_spec rest done :
  StronglySorted cle done ->
  let r := fold_left (fun d p => ins_back p d) rest done in
  StronglySorted cle r /\ Permutation (done ++ rest) r
  /\ forall x, filter (fun y => cmp x y =? 0) r
             = filter (fun y => cmp x y =? 0) (done ++ rest).
Proof.
  revert done; induction rest as [|p rest IH]; intros done Hs; cbn [fold_left].
  - rewrite app_nil_r. auto.
  - destruct (IH (ins_back p done) (ins_back_sorted p done Hs)) as (H1 & H2 & H3).
    split; [exact H1|]. split.
    + rewrite <- H2, <- ins_back_perm, <- app_assoc. reflexivity.
    + intros x. rewrite H3, !filter_app, ins_back_filter, filter_app, <- app_assoc.
      f_equal. cbn [filter app]. now case_if.
Qed.

(** ** Properties *)

(** [ngx_sort] is a stable sort: with a comparator that is a total preorder
    the array it leaves is a permutation of the input, sorted, and the elements
    equivalent to any given one keep their relative order; when the temporary
    cannot be allocated the array is left as it was. *)
Theorem ngx_sort_stable base :
  StronglySorted cle (ngx_sort true base) /\ Permutation base (ngx_sort true base)
  /\ (forall x, filter (fun y => cmp x y =? 0) (ngx_sort true base)
              = filter (fun y => cmp x y =? 0) base)
  /\ ngx_sort false base = base.
Proof.
  rewrite ngx_sort_ins. destruct base as [|a t]; [repeat split; constructor|].
  destruct (fold_ins_spec t [a]) as (H1 & H2 & H3); [repeat constructor|]. auto.
Qed.

End Defs.

(** Comparing first components only, as the sorters of the resolver and of the
    hash initialisation do. *)
Definition cmp_fst (a b : Z * Z) : Z := fst a - fst b.

#[export] Instance cmp_fst_comparator : Comparator cmp_fst.
Proof.
  constructor; unfold cmp_fst; intros.
  - rewrite <- Z.sgn_opp. f_equal. lia.
  - lia.
Qed.

Example ngx_sort_stable_witness :
  Permutation [(2, 0); (1, 1); (2, 2); (1, 3)] [(1, 1); (1, 3); (2, 0); (2, 2)].
Proof.
  exact (proj1 (proj2 (ngx_sort_stable cmp_fst [(2, 0); (1, 1); (2, 2); (1, 3)]))).
Defined.

End Sort.
