(* ===== verification/Base64.v ===== *)
(** * Base64: the base64 and base64url codecs of src/core/ngx_string.c

    [ngx_encode_base64_internal] and [ngx_decode_base64_internal] with their
    alphabets; the decode tables are generated below from their 128 meaningful
    entries.  [dst->len] is the length of the list returned. *)

From S2P Require Import Prelude.

Module Base64.

(** ** Definitions *)

Definition ngx_base64_encoded_length (len : Z) : Z := (len + 2) / 3 * 4.
Definition ngx_base64_decoded_length (len : Z) : Z := (len + 3) / 4 * 3.

Definition basis64 : list Z :=
  bs "ABCDEFGHIJKLMNOPQRSTUVWXYZabcdefghijklmnopqrstuvwxyz0123456789+/".

Definition basis64url : list Z :=
  bs "ABCDEFGHIJKLMNOPQRSTUVWXYZabcdefghijklmnopqrstuvwxyz0123456789-_".

(** The decode tables, 16 entries a row; 77 marks a byte outside the alphabet. *)
Definition row77 : list Z := repeat 77 16.

Definition decode_basis64 : list Z :=
  row77 ++ row77
  ++ [77; 77; 77; 77; 77; 77; 77; 77; 77; 77; 77; 62; 77; 77; 77; 63]
  ++ [52; 53; 54; 55; 56; 57; 58; 59; 60; 61; 77; 77; 77; 77; 77; 77]
  ++ [77;  0;  1;  2;  3;  4;  5;  6;  7;  8;  9; 10; 11; 12; 13; 14]
  ++ [15; 16; 17; 18; 19; 20; 21; 22; 23; 24; 25; 77; 77; 77; 77; 77]
  ++ [77; 26; 27; 28; 29; 30; 31; 32; 33; 34; 35; 36; 37; 38; 39; 40]
  ++ [41; 42; 43; 44; 45; 46; 47; 48; 49; 50; 51; 77; 77; 77; 77; 77]
  ++ row77 ++ row77 ++ row77 ++ row77 ++ row77 ++ row77 ++ row77 ++ row77.

Definition decode_basis64url : list Z :=
  row77 ++ row77
  ++ [77; 77; 77; 77; 77; 77; 77; 77; 77; 77; 77; 77; 77; 62; 77; 77]
  ++ [52; 53; 54; 55; 56; 57; 58; 59; 60; 61; 77; 77; 77; 77; 77; 77]
  ++ [77;  0;  1;  2;  3;  4;  5;  6;  7;  8;  9; 10; 11; 12; 13; 14]
  ++ [15; 16; 17; 18; 19; 20; 21; 22; 23; 24; 25; 77; 77; 77; 77; 63]
  ++ [77; 26; 27; 28; 29; 30; 31; 32; 33; 34; 35; 36; 37; 38; 39; 40]
  ++ [41; 42; 43; 44; 45; 46; 47; 48; 49; 50; 51; 77; 77; 77; 77; 77]
  ++ row77 ++ row77 ++ row77 ++ row77 ++ row77 ++ row77 ++ row77 ++ row77.

(** The three index computations of the encoder. *)
Definition idx1 (s0 : Z) : Z := Z.land (Z.shiftr s0 2) 0x3f.
Definition idx2 (s0 s1 : Z) : Z := Z.lor (Z.shiftl (Z.land s0 3) 4) (Z.shiftr s1 4).
Definition idx3 (s1 s2 : Z) : Z := Z.lor (Z.shiftl (Z.land s1 0x0f) 2) (Z.shiftr s2 6).

Fixpoint ngx_encode_base64_internal (basis : list Z) (padding : bool) (s : list Z)
  : list Z :=
  match s with
  | s0 :: s1 :: s2 :: s' =>
      [tbl basis (idx1 s0); tbl basis (idx2 s0 s1); tbl basis (idx3 s1 s2);
       tbl basis (Z.land s2 0x3f)]
      ++ ngx_encode_base64_internal basis padding s'
  | [s0] =>
      [tbl basis (idx1 s0); tbl basis (Z.shiftl (Z.land s0 3) 4)]
      ++ (if padding then ["="%chr] else []) ++ (if padding then ["="%chr] else [])
  | [s0; s1] =>
      [tbl basis (idx1 s0); tbl basis (idx2 s0 s1);
       tbl basis (Z.shiftl (Z.land s1 0x0f) 2)]
      ++ (if padding then ["="%chr] else [])
  | [] => []
  end.

Definition ngx_encode_base64 (src : list Z) : list Z :=
  ngx_encode_base64_internal basis64 true src.

Definition ngx_encode_base64url (src : list Z) : list Z :=
  ngx_encode_base64_internal basis64url false src.

(** The first loop: the length of the prefix before the first '=', or [None]
    when a byte before it is not in the alphabet. *)
Fixpoint scan_base64 (basis : list Z) (data : list Z) (len : nat) : option nat :=
  match data with
  | [] => Some len
  | c :: data' =>
      if c =? "="%chr then Some len
      else if tbl basis c =? 77 then None
      else scan_base64 basis data' (S len)
  end.

Definition out1 (basis : list Z) (a b : Z) : Z :=
  u8 (Z.lor (Z.shiftl (tbl basis a) 2) (Z.shiftr (tbl basis b) 4)).
Definition out2 (basis : list Z) (b c : Z) : Z :=
  u8 (Z.lor (Z.shiftl (tbl basis b) 4) (Z.shiftr (tbl basis c) 2)).
Definition out3 (basis : list Z) (c d : Z) : Z :=
  u8 (Z.lor (Z.shiftl (tbl basis c) 6) (tbl basis d)).

(** The decode loop over the [len] bytes the scan kept. *)
Fixpoint decode_blocks (basis : list Z) (s : list Z) : list Z :=
  match s with
  | a :: b :: c :: d :: s' =>
      [out1 basis a b; out2 basis b c; out3 basis c d] ++ decode_blocks basis s'
  | [a; b; c] => [out1 basis a b; out2 basis b c]
  | [a; b] => [out1 basis a b]
  | _ => []
  end.

(** [None] is [NGX_ERROR]; [Some d] is [NGX_OK] with [d] written at [dst]. *)
Definition ngx_decode_base64_internal (basis : list Z) (src : list Z)
  : option (list Z) :=
  match scan_base64 basis src 0 with
  | None => None
  | Some len =>
      if (len mod 4 =? 1)%nat then None
      else Some (decode_blocks basis (firstn len src))
  end.

Definition ngx_decode_base64 (src : list Z) : option (list Z) :=
  ngx_decode_base64_internal decode_basis64 src.

Definition ngx_decode_base64url (src : list Z) : option (list Z) :=
  ngx_decode_base64_internal decode_basis64url src.

(** ** Lemmas *)

Lemma idx1_spec s0 : is_byte s0 -> idx1 s0 = s0 / 4.
Proof. intros H. unfold idx1. by_bytes s0. Qed.

Lemma idx2_spec s0 s1 : is_byte s0 -> is_byte s1 -> idx2 s0 s1 = s0 mod 4 * 16 + s1 / 16.
Proof.
  intros H0 H1. apply Z.eqb_eq.
  apply (byte_check2 (fun a b => idx2 a b =? a mod 4 * 16 + b / 16));
    [vm_compute; reflexivity|assumption..].
Qed.

Lemma idx3_spec s1 s2 : is_byte s1 -> is_byte s2 -> idx3 s1 s2 = s1 mod 16 * 4 + s2 / 64.
Proof.
  intros H0 H1. apply Z.eqb_eq.
  apply (byte_check2 (fun a b => idx3 a b =? a mod 16 * 4 + b / 64));
    [vm_compute; reflexivity|assumption..].
Qed.

Lemma idx4_spec s2 : is_byte s2 -> Z.land s2 0x3f = s2 mod 64.
Proof. intros H. by_bytes s2. Qed.

Lemma idx2_end s0 : is_byte s0 -> Z.shiftl (Z.land s0 3) 4 = s0 mod 4 * 16.
Proof. intros H. by_bytes s0. Qed.

Lemma idx3_end s1 : is_byte s1 -> Z.shiftl (Z.land s1 0x0f) 2 = s1 mod 16 * 4.
Proof. intros H. by_bytes s1. Qed.

(** An output byte from its two 6-bit groups. *)
Lemma groups (i j : Z) :
  0 <= i < 64 -> 0 <= j < 64 ->
  u8 (Z.lor (Z.shiftl i 2) (Z.shiftr j 4)) = i * 4 + j / 16
  /\ u8 (Z.lor (Z.shiftl i 4) (Z.shiftr j 2)) = i mod 16 * 16 + j / 4
  /\ u8 (Z.lor (Z.shiftl i 6) j) = i mod 4 * 64 + j.
Proof.
  intros Hi Hj.
  pose proof (byte_check2 (fun i j =>
    implb ((i <? 64) && (j <? 64))
      ((u8 (Z.lor (Z.shiftl i 2) (Z.shiftr j 4)) =? i * 4 + j / 16)
       && (u8 (Z.lor (Z.shiftl i 4) (Z.shiftr j 2)) =? i mod 16 * 16 + j / 4)
       && (u8 (Z.lor (Z.shiftl i 6) j) =? i mod 4 * 64 + j))) i j
    ltac:(vm_compute; reflexivity) ltac:(byte_lia) ltac:(byte_lia)) as E.
  cbv beta in E. replace ((i <? 64) && (j <? 64)) with true in E by lia. cbn [implb] in E.
  apply andb_true_iff in E as [E E3]. apply andb_true_iff in E as [E1 E2].
  repeat split; now apply Z.eqb_eq.
Qed.

Lemma group1 i j : 0 <= i < 64 -> 0 <= j < 64 ->
  u8 (Z.lor (Z.shiftl i 2) (Z.shiftr j 4)) = i * 4 + j / 16.
Proof. intros; now apply groups. Qed.

Lemma group2 i j : 0 <= i < 64 -> 0 <= j < 64 ->
  u8 (Z.lor (Z.shiftl i 4) (Z.shiftr j 2)) = i mod 16 * 16 + j / 4.
Proof. intros; now apply groups. Qed.

Lemma group3 i j : 0 <= i < 64 -> 0 <= j < 64 ->
  u8 (Z.lor (Z.shiftl i 6) j) = i mod 4 * 64 + j.
Proof. intros; now apply groups. Qed.

Lemma list_ind3 {A} (P : list A -> Prop) :
  P [] -> (forall a, P [a]) -> (forall a b, P [a; b]) ->
  (forall a b c l, P l -> P (a :: b :: c :: l)) -> forall l, P l.
Proof.
  intros H0 H1 H2 H3. fix IH 1. intros [|a [|b [|c l]]]; [exact H0|apply H1|apply H2|exact (H3 a b c l (IH l))].
Qed.

Section Codec.

(** An alphabet and its decode table: the table inverts the alphabet, whose
    bytes are neither the padding nor marked invalid. *)
Variables (basis dbasis : list Z) (padding : bool).
Hypothesis table_inverts : forall i, 0 <= i < 64 -> tbl dbasis (tbl basis i) = i.
Hypothesis no_pad : forall i, 0 <= i < 64 -> (tbl basis i =? "="%chr) = false.

Let enc := ngx_encode_base64_internal basis padding.

(** The symbols written for [src], without padding. *)
Fixpoint symbols (s : list Z) : list Z :=
  match s with
  | s0 :: s1 :: s2 :: s' =>
      s0 / 4 :: s0 mod 4 * 16 + s1 / 16 :: s1 mod 16 * 4 + s2 / 64 :: s2 mod 64
      :: symbols s'
  | [s0] => [s0 / 4; s0 mod 4 * 16]
  | [s0; s1] => [s0 / 4; s0 mod 4 * 16 + s1 / 16; s1 mod 16 * 4]
  | [] => []
  end.

Definition pad (s : list Z) : list Z :=
  if padding then repeat "="%chr ((3 - length s mod 3) mod 3) else [].

Lemma symbols_range s : wf_bytes s -> Forall (fun i => 0 <= i < 64) (symbols s).
Proof.
  induction s as [|a|a b|a b c s IH] using list_ind3; intros H;
    inv_bytes; cbn [symbols]; unfold is_byte in *;
    repeat (apply Forall_cons; [Z.to_euclidean_division_equations; lia|]);
    [apply Forall_nil..|now apply IH].
Qed.

Lemma pad_step a b c s : pad (a :: b :: c :: s) = pad s.
Proof.
  unfold pad. destruct padding; [|reflexivity]. f_equal.
  cbn [length]. replace (S (S (S (length s)))) with (length s + 1 * 3)%nat by lia.
  now rewrite Nat.Div0.mod_add.
Qed.

Lemma encode_symbols s :
  wf_bytes s -> enc s = map (tbl basis) (symbols s) ++ pad s.
Proof.
  unfold enc.
  induction s as [|a|a b|a b c s IH] using list_ind3; intros H;
    inv_bytes;
    cbn [ngx_encode_base64_internal symbols map app].
  - unfold pad. now destruct padding.
  - rewrite idx1_spec, idx2_end by assumption. unfold pad. now destruct padding.
  - rewrite idx1_spec, idx2_spec, idx3_end by assumption. unfold pad. now destruct padding.
  - rewrite idx1_spec, idx2_spec, idx3_spec, idx4_spec by assumption.
    rewrite pad_step, IH by assumption. reflexivity.
Qed.

Lemma scan_symbols l n rest :
  Forall (fun i => 0 <= i < 64) l ->
  scan_base64 dbasis (map (tbl basis) l ++ rest) n = scan_base64 dbasis rest (n + length l).
Proof.
  intros H; revert n; induction H as [|i l Hi Hl IH]; intros n; cbn [map app scan_base64 length].
  - now rewrite Nat.add_0_r.
  - rewrite no_pad, table_inverts by assumption.
    destruct (Z.eqb_spec i 77); [lia|]. rewrite IH. f_equal. lia.
Qed.

Lemma scan_pad s n : scan_base64 dbasis (pad s) n = Some n.
Proof.
  unfold pad. destruct padding; [|reflexivity].
  destruct ((3 - length s mod 3) mod 3)%nat; reflexivity.
Qed.

Lemma symbols_mod4 s : (length (symbols s) mod 4 <> 1)%nat.
Proof.
  induction s as [|a|a b|a b c s IH] using list_ind3; cbn [symbols length]; try discriminate.
  replace (S (S (S (S (length (symbols s)))))) with (length (symbols s) + 1 * 4)%nat by lia.
  now rewrite Nat.Div0.mod_add.
Qed.

Lemma decode_symbols s :
  wf_bytes s -> decode_blocks dbasis (map (tbl basis) (symbols s)) = s.
Proof.
  induction s as [|a|a b|a b c s IH] using list_ind3; intros H;
    inv_bytes;
    cbn [symbols map decode_blocks app]; unfold out1, out2, out3, is_byte in *;
    rewrite ?table_inverts by (Z.to_euclidean_division_equations; lia);
    rewrite ?group1, ?group2, ?group3 by (Z.to_euclidean_division_equations; lia);
    rewrite ?IH by assumption;
    repeat (apply (f_equal2 cons); [Z.to_euclidean_division_equations; lia|]); reflexivity.
Qed.

Lemma codec_roundtrip s :
  wf_bytes s -> ngx_decode_base64_internal dbasis (enc s) = Some s.
Proof.
  intros H. unfold ngx_decode_base64_internal.
  rewrite encode_symbols by assumption.
  rewrite scan_symbols by now apply symbols_range.
  rewrite scan_pad. cbn [Nat.add].
  destruct (Nat.eqb_spec (length (symbols s) mod 4) 1) as [E|_];
    [now apply symbols_mod4 in E|].
  rewrite <- (length_map (tbl basis)), firstn_app, Nat.sub_diag, firstn_all.
  cbn [firstn]. rewrite app_nil_r, decode_symbols by assumption. reflexivity.
Qed.

End Codec.

Lemma enc_length_mul basis s :
  Z.of_nat (length (ngx_encode_base64_internal basis true s))
  = ngx_base64_encoded_length (Z.of_nat (length s)).
Proof.
  unfold ngx_base64_encoded_length.
  induction s as [|a|a b|a b c s IH] using list_ind3; try reflexivity.
  cbn [ngx_encode_base64_internal app length]. rewrite !Nat2Z.inj_succ, IH.
  Z.to_euclidean_division_equations; lia.
Qed.

Lemma list_ind4 {A} (P : list A -> Prop) :
  P [] -> (forall a, P [a]) -> (forall a b, P [a; b]) -> (forall a b c, P [a; b; c]) ->
  (forall a b c d l, P l -> P (a :: b :: c :: d :: l)) -> forall l, P l.
Proof.
  intros H0 H1 H2 H3 H4. fix IH 1. intros [|a [|b [|c [|d l]]]];
    [exact H0|apply H1|apply H2|apply H3|exact (H4 a b c d l (IH l))].
Qed.

(** What the decoder writes fits the buffer its callers allocate. *)
Lemma decode_blocks_length basis s :
  Z.of_nat (length (decode_blocks basis s)) <= ngx_base64_decoded_length (Z.of_nat (length s)).
Proof.
  unfold ngx_base64_decoded_length.
  induction s as [|a|a b|a b c|a b c d s IH] using list_ind4;
    try (vm_compute; discriminate).
  cbn [decode_blocks app length]. rewrite !Nat2Z.inj_succ.
  Z.to_euclidean_division_equations; lia.
Qed.

Lemma decode_length basis src d :
  ngx_decode_base64_internal basis src = Some d ->
  Z.of_nat (length d) <= ngx_base64_decoded_length (Z.of_nat (length src)).
Proof.
  unfold ngx_decode_base64_internal.
  destruct (scan_base64 basis src 0) as [len|]; [|discriminate].
  case_if; [discriminate|]. intros [= <-].
  pose proof (decode_blocks_length basis (firstn len src)).
  rewrite length_firstn in *. unfold ngx_base64_decoded_length in *.
  Z.to_euclidean_division_equations; lia.
Qed.

Lemma nth_alphabet (P : Z -> bool) :
  forallb P (map Z.of_nat (seq 0 64)) = true -> forall i, 0 <= i < 64 -> P i = true.
Proof.
  rewrite forallb_forall. intros H i Hi. apply H.
  rewrite in_map_iff. exists (Z.to_nat i). split; [lia|]. apply in_seq. lia.
Qed.

Lemma table_inverts64 i : 0 <= i < 64 -> tbl decode_basis64 (tbl basis64 i) = i.
Proof. intros H. apply Z.eqb_eq. revert i H. now apply nth_alphabet. Qed.

Lemma table_inverts64url i : 0 <= i < 64 -> tbl decode_basis64url (tbl basis64url i) = i.
Proof. intros H. apply Z.eqb_eq. revert i H. now apply nth_alphabet. Qed.

Lemma no_pad64 i : 0 <= i < 64 -> (tbl basis64 i =? "="%chr) = false.
Proof. intros H. apply negb_true_iff. revert i H. now apply nth_alphabet. Qed.

Lemma no_pad64url i : 0 <= i < 64 -> (tbl basis64url i =? "="%chr) = false.
Proof. intros H. apply negb_true_iff. revert i H. now apply nth_alphabet. Qed.

(** ** Properties *)

(** Decoding what the encoder wrote gives the source back, for base64 with
    padding and for base64url without, whatever the source bytes. *)
Theorem base64_roundtrip src :
  wf_bytes src ->
  ngx_decode_base64 (ngx_encode_base64 src) = Some src
  /\ ngx_decode_base64url (ngx_encode_base64url src) = Some src.
Proof.
  intros H. split.
  - now apply codec_roundtrip; [apply table_inverts64|apply no_pad64|].
  - now apply codec_roundtrip; [apply table_inverts64url|apply no_pad64url|].
Qed.

Example base64_roundtrip_witness :
  ngx_decode_base64 (ngx_encode_base64 (bs "any carnal pleas")) = Some (bs "any carnal pleas").
Proof. refine (proj1 (base64_roundtrip _ _)). repeat constructor; discriminate. Defined.

(** Both directions stay inside the buffers their callers allocate: the
    padded encoding is exactly [ngx_base64_encoded_length] bytes long, the
    unpadded one no longer, and a successful decoding writes at most
    [ngx_base64_decoded_length] bytes, whatever the input. *)
Theorem base64_lengths src :
  Z.of_nat (length (ngx_encode_base64 src)) = ngx_base64_encoded_length (Z.of_nat (length src))
  /\ Z.of_nat (length (ngx_encode_base64url src))
     <= ngx_base64_encoded_length (Z.of_nat (length src))
  /\ (forall d, ngx_decode_base64 src = Some d \/ ngx_decode_base64url src = Some d ->
      Z.of_nat (length d) <= ngx_base64_decoded_length (Z.of_nat (length src))).
Proof.
  split; [apply enc_length_mul|]. split.
  - rewrite <- (enc_length_mul basis64url). apply inj_le. unfold ngx_encode_base64url.
    induction src as [|a|a b|a b c s IH] using list_ind3; simpl; lia.
  - intros d [H|H]; eapply decode_length; exact H.
Qed.

Example base64_lengths_witness : Z.of_nat (length [1; 2]) <= 3.
Proof.
  exact (proj2 (proj2 (base64_lengths (bs "AQI="))) [1; 2] (or_introl eq_refl)).
Defined.

End Base64.
