(* ===== verification/Utf8.v ===== *)
(** * Utf8: the UTF-8 routines of src/core/ngx_string.c

    [ngx_utf8_decode] reads one multi-byte sequence, [ngx_utf8_length] counts
    characters and [ngx_utf8_cpystrn] copies a bounded number of them.  The
    bytes available at a pointer are a list; the pointer left in [*p] is the
    list that remains. *)

From S2P Require Import Prelude.

Module Utf8.

(** ** Definitions *)

(** The continuation loop: [len] bytes left, [u] the value so far.  [None] is
    the [return 0xffffffff] on a byte below 0x80. *)
Fixpoint utf8_cont (u : Z) (len : nat) (p : list Z) : option Z * list Z :=
  match len with
  | O => (Some u, p)
  | S len' =>
      let i := hd0 p in
      if i <? 0x80 then (None, tl p)
      else utf8_cont (u32 (Z.lor (Z.shiftl u 6) (Z.land i 0x3f))) len' (tl p)
  end.

(** The lead byte: its payload, the bound [valid] and the continuation count. *)
Definition utf8_lead (u : Z) : option (Z * Z * nat) :=
  if 0xf8 <=? u then None
  else if 0xf0 <=? u then Some (Z.land u 0x07, 0xffff, 3%nat)
  else if 0xe0 <=? u then Some (Z.land u 0x0f, 0x7ff, 2%nat)
  else if 0xc2 <=? u then Some (Z.land u 0x1f, 0x7f, 1%nat)
  else None.

(** [n] is the number of bytes available, at least one. *)
Definition ngx_utf8_decode (p : list Z) : Z * list Z :=
  let n := length p in
  match utf8_lead (hd0 p) with
  | None => (0xffffffff, tl p)
  | Some (u, valid, len) =>
      if (n - 1 <? len)%nat then (0xfffffffe, p)
      else
        match utf8_cont u len (tl p) with
        | (None, p') => (0xffffffff, p')
        | (Some u, p') => if valid <? u then (u, p') else (0xffffffff, p')
        end
  end.

(** [None] is running out of fuel. *)
Fixpoint utf8_length_loop (fuel : nat) (n : Z) (p : list Z) (len : Z) : option Z :=
  match p with
  | [] => Some len
  | c :: p1 =>
      match fuel with
      | O => None
      | S fuel' =>
          if c <? 0x80 then utf8_length_loop fuel' n p1 (len + 1)
          else
            let '(u, p2) := ngx_utf8_decode p in
            if 0x10ffff <? u then Some n
            else utf8_length_loop fuel' n p2 (len + 1)
      end
  end.

Definition ngx_utf8_length (p : list Z) : option Z :=
  utf8_length_loop (length p) (Z.of_nat (length p)) p 0.

(** [ngx_utf8_cpystrn]: [src] is NUL-terminated and [len] its length; the bytes
    written are returned.  The first argument is [n] after [--n]. *)
Fixpoint utf8_cpystrn_loop (n : nat) (src : list Z) : list Z :=
  match n with
  | O => [0]
  | S n' =>
      let c := hd0 src in
      if c <? 0x80 then
        if negb (c =? 0) then c :: utf8_cpystrn_loop n' (tl src) else [0]
      else
        let '(u, next) := ngx_utf8_decode src in
        if 0x10ffff <? u then [0]
        else firstn (length src - length next) src ++ utf8_cpystrn_loop n' next
  end.

Definition ngx_utf8_cpystrn (src : list Z) (n : nat) : list Z :=
  match n with
  | O => []
  | S n' => utf8_cpystrn_loop n' src
  end.

(** ** Specifications *)

(** The UTF-8 encoding of a code point (RFC 3629, without the surrogate
    restriction, which the decoder does not make). *)
Definition utf8_encode (cp : Z) : list Z :=
  if cp <? 0x80 then [cp]
  else if cp <? 0x800 then [0xc0 + cp / 64; 0x80 + cp mod 64]
  else if cp <? 0x10000 then
    [0xe0 + cp / 4096; 0x80 + cp / 64 mod 64; 0x80 + cp mod 64]
  else [0xf0 + cp / 262144; 0x80 + cp / 4096 mod 64; 0x80 + cp / 64 mod 64;
        0x80 + cp mod 64].

Definition is_cp (cp : Z) : Prop := 0 <= cp <= 0x10ffff.

Definition utf8_text (cps : list Z) : list Z := concat (map utf8_encode cps).

(** ** Lemmas *)

Lemma cont_step u i :
  0 <= u < 2 ^ 26 -> 0x80 <= i < 0xc0 ->
  u32 (Z.lor (Z.shiftl u 6) (Z.land i 0x3f)) = u * 64 + (i - 0x80).
Proof.
  intros Hu Hi. assert (Hb : is_byte i) by byte_lia.
  assert (E : Z.land i 0x3f = i mod 64) by (by_bytes i).
  rewrite E, lor_shiftl_add by (Z.to_euclidean_division_equations; lia).
  rewrite u32_small by (unfold is_u32; Z.to_euclidean_division_equations; lia).
  Z.to_euclidean_division_equations; lia.
Qed.

(** A continuation byte above 0xbf is read like the one 0x40 below it. *)
Lemma cont_step_any u i :
  0 <= u < 2 ^ 26 -> is_byte i ->
  u32 (Z.lor (Z.shiftl u 6) (Z.land i 0x3f)) = u * 64 + i mod 64.
Proof.
  intros Hu Hb.
  assert (E : Z.land i 0x3f = i mod 64) by (by_bytes i).
  rewrite E, lor_shiftl_add by (Z.to_euclidean_division_equations; lia).
  apply u32_small. unfold is_u32; Z.to_euclidean_division_equations; lia.
Qed.

(** The lead byte classes, as arithmetic. *)
Definition lead_spec (u : Z) : option (Z * Z * nat) :=
  if 0xf8 <=? u then None
  else if 0xf0 <=? u then Some (u - 0xf0, 0xffff, 3%nat)
  else if 0xe0 <=? u then Some (u - 0xe0, 0x7ff, 2%nat)
  else if 0xc2 <=? u then Some (u - 0xc0, 0x7f, 1%nat)
  else None.

Lemma utf8_lead_spec u : is_byte u -> utf8_lead u = lead_spec u.
Proof.
  intros H. unfold utf8_lead, lead_spec.
  case_if; [reflexivity|]. case_if; [|case_if; [|case_if; [|reflexivity]]]; do 3 f_equal.
  - replace (Z.land u 0x07) with (u mod 8) by (symmetry; by_bytes u).
    Z.to_euclidean_division_equations; lia.
  - replace (Z.land u 0x0f) with (u mod 16) by (symmetry; by_bytes u).
    Z.to_euclidean_division_equations; lia.
  - replace (Z.land u 0x1f) with (u mod 32) by (symmetry; by_bytes u).
    Z.to_euclidean_division_equations; lia.
Qed.

(** What the continuation loop computes. *)
Definition cont_value (u : Z) (cs : list Z) : Z :=
  fold_left (fun u i => u * 64 + i mod 64) cs u.

Lemma cont_value_range u cs k :
  0 <= u < k -> 0 <= cont_value u cs < k * 64 ^ Z.of_nat (length cs).
Proof.
  unfold cont_value. revert u k; induction cs as [|i cs IH]; intros u k Hu.
  - cbn [fold_left length]. change (64 ^ Z.of_nat 0) with 1. lia.
  - cbn [fold_left length]. rewrite Nat2Z.inj_succ, Z.pow_succ_r by lia.
    replace (k * (64 * 64 ^ Z.of_nat (length cs)))
      with (k * 64 * 64 ^ Z.of_nat (length cs)) by lia.
    apply IH. pose proof (Z.mod_pos_bound i 64 ltac:(lia)). lia.
Qed.

Lemma utf8_cont_ok cs u rest :
  wf_bytes cs -> Forall (fun i => 0x80 <= i) cs -> 0 <= u < 8 * 64 ^ (3 - Z.of_nat (length cs)) ->
  (length cs <= 3)%nat ->
  utf8_cont u (length cs) (cs ++ rest) = (Some (cont_value u cs), rest).
Proof.
  unfold cont_value. revert u; induction cs as [|i cs IH]; intros u Hb Hc Hu Hl; [reflexivity|].
  inv_bytes. apply Forall_cons_iff in Hc as [Hi Hc].
  cbn [length app utf8_cont fold_left hd0 hd tl] in *.
  rewrite Nat2Z.inj_succ in Hu.
  assert (P : 64 ^ (3 - Z.of_nat (length cs)) = 64 * 64 ^ (3 - Z.succ (Z.of_nat (length cs)))).
  { rewrite <- Z.pow_succ_r by lia. f_equal. lia. }
  assert (Hu2 : 0 <= u < 2 ^ 26).
  { pose proof (Z.pow_le_mono_r 64 (3 - Z.succ (Z.of_nat (length cs))) 2 ltac:(lia) ltac:(lia)).
    lia. }
  destruct (Z.ltb_spec i 0x80); [lia|]. rewrite cont_step_any by assumption.
  apply IH; try assumption; [|lia]. rewrite P.
  pose proof (Z.mod_pos_bound i 64 ltac:(lia)). lia.
Qed.

Lemma utf8_cont_inv len u p v rest :
  wf_bytes p -> (len <= length p)%nat -> utf8_cont u len p = (Some v, rest) ->
  exists cs, p = cs ++ rest /\ length cs = len /\ Forall (fun i => 0x80 <= i) cs.
Proof.
  revert u p; induction len as [|len IH]; intros u p Hb Hl H.
  - injection H as _ <-. exists []. auto.
  - destruct p as [|i p]; [simpl in Hl; lia|]. inv_bytes.
    cbn [utf8_cont hd0 hd tl length] in *.
    destruct (Z.ltb_spec i 0x80); [discriminate|].
    apply IH in H as (cs & -> & <- & Hc); [|assumption|lia].
    exists (i :: cs). repeat split. now constructor.
Qed.

(** The canonical continuation byte with the same payload. *)
Definition canon (i : Z) : Z := 0x80 + i mod 64.

Lemma canon_id i : 0x80 <= i < 0xc0 -> canon i = i.
Proof. intros H. unfold canon. Z.to_euclidean_division_equations; lia. Qed.

(** The encoding of a value assembled from a lead byte and payloads. *)
Lemma encode_assembled l cs u valid :
  is_byte l -> wf_bytes cs -> lead_spec l = Some (u, valid, length cs) ->
  valid < cont_value u cs <= 0x10ffff ->
  utf8_encode (cont_value u cs) = l :: map canon cs /\ 0x80 <= cont_value u cs
  /\ 0 <= u < 8 * 64 ^ (3 - Z.of_nat (length cs)).
Proof.
  intros Hl Hb Hs Hv. unfold lead_spec in Hs.
  repeat (case_if_in Hs; [try discriminate Hs|]); try discriminate Hs;
    injection Hs as <- <- Hn;
    repeat (destruct cs as [|? cs]; try discriminate Hn); inv_bytes;
    cbn [cont_value fold_left map length] in *; unfold canon, is_byte in *;
    unfold utf8_encode;
    (split; [|split; [lia|change (Z.of_nat 1) with 1; change (Z.of_nat 2) with 2;
      change (Z.of_nat 3) with 3; cbn -[Z.lt Z.le]; lia]]).
  - do 3 (case_if; [lia|]).
    repeat (apply (f_equal2 cons); [Z.to_euclidean_division_equations; lia|]); reflexivity.
  - do 2 (case_if; [lia|]). case_if; [|Z.to_euclidean_division_equations; lia].
    repeat (apply (f_equal2 cons); [Z.to_euclidean_division_equations; lia|]); reflexivity.
  - case_if; [lia|]. case_if; [|Z.to_euclidean_division_equations; lia].
    repeat (apply (f_equal2 cons); [Z.to_euclidean_division_equations; lia|]); reflexivity.
Qed.

Lemma lead_valid u v k n : lead_spec u = Some (v, k, n) -> (1 <= n <= 3)%nat.
Proof. unfold lead_spec. repeat case_if; intros [= _ _ <-]; lia. Qed.

(** A decoded character is the encoding read, up to the two top bits of its
    continuation bytes, which the decoder only requires to be at least 0x80. *)
Lemma decode_sound p cp rest :
  wf_bytes p -> p <> [] -> ngx_utf8_decode p = (cp, rest) -> cp <= 0x10ffff ->
  exists l cs, p = l :: cs ++ rest /\ Forall (fun i => 0x80 <= i) cs
    /\ utf8_encode cp = l :: map canon cs /\ 0x80 <= cp.
Proof.
  intros Hb Hp. destruct p as [|l p]; [congruence|]. inv_bytes.
  unfold ngx_utf8_decode. cbn [hd0 hd tl length]. rewrite utf8_lead_spec by assumption.
  destruct (lead_spec l) as [[[u valid] len]|] eqn:El; [|intros [= <- <-]; lia].
  case_if; [intros [= <- <-]; lia|].
  destruct (utf8_cont u len p) as [[v|] p'] eqn:Ec; [|intros [= <- <-]; lia].
  case_if; [|intros [= <- <-]; lia]. intros [= <- <-] Hv.
  pose proof Ec as Ec'.
  apply utf8_cont_inv in Ec' as (cs & -> & <- & Hc); [|assumption|lia].
  apply wf_bytes_app in Hb as [Hcs Hr].
  assert (Hu : 0 <= u < 8 * 64 ^ (3 - Z.of_nat (length cs))).
  { unfold is_byte in *. unfold lead_spec in El.
    repeat (case_if_in El; [try discriminate El|]); try discriminate El;
      injection El as <- _ <-; cbn -[Z.lt Z.le]; lia. }
  rewrite utf8_cont_ok in Ec by (try assumption; apply lead_valid in El; lia).
  injection Ec as <-.
  destruct (encode_assembled l cs u valid) as (E1 & E2 & _); try assumption; [lia|].
  exists l, cs. auto.
Qed.

Lemma encode_shape cp :
  0x80 <= cp <= 0x10ffff ->
  exists l cs u valid, utf8_encode cp = l :: cs /\ 0xc2 <= l < 0xf8 /\ wf_bytes cs
    /\ Forall (fun i => 0x80 <= i) cs /\ lead_spec l = Some (u, valid, length cs)
    /\ cont_value u cs = cp /\ valid < cp /\ 0 <= u < 8 * 64 ^ (3 - Z.of_nat (length cs)).
Proof.
  intros H. unfold utf8_encode.
  destruct (Z.ltb_spec cp 0x80); [lia|].
  destruct (Z.ltb_spec cp 0x800); [|destruct (Z.ltb_spec cp 0x10000)];
    do 4 eexists; (split; [reflexivity|]);
    (split; [Z.to_euclidean_division_equations; lia|]);
    (split; [repeat (apply Forall_cons;
      [unfold is_byte; Z.to_euclidean_division_equations; lia|]); apply Forall_nil|]);
    (split; [repeat (apply Forall_cons;
      [Z.to_euclidean_division_equations; lia|]); apply Forall_nil|]).
  - split.
    { unfold lead_spec. do 3 (case_if; [Z.to_euclidean_division_equations; lia|]).
      case_if; [reflexivity|Z.to_euclidean_division_equations; lia]. }
    cbn -[Z.lt Z.le Z.modulo Z.div Z.add Z.mul Z.sub].
    repeat split; try (Z.to_euclidean_division_equations; lia).
  - split.
    { unfold lead_spec. do 2 (case_if; [Z.to_euclidean_division_equations; lia|]).
      case_if; [reflexivity|Z.to_euclidean_division_equations; lia]. }
    cbn -[Z.lt Z.le Z.modulo Z.div Z.add Z.mul Z.sub].
    repeat split; try (Z.to_euclidean_division_equations; lia).
  - split.
    { unfold lead_spec. case_if; [Z.to_euclidean_division_equations; lia|].
      case_if; [reflexivity|Z.to_euclidean_division_equations; lia]. }
    cbn -[Z.lt Z.le Z.modulo Z.div Z.add Z.mul Z.sub].
    repeat split; try (Z.to_euclidean_division_equations; lia).
Qed.

Lemma decode_complete cp rest :
  0x80 <= cp <= 0x10ffff -> ngx_utf8_decode (utf8_encode cp ++ rest) = (cp, rest).
Proof.
  intros H. destruct (encode_shape cp H) as (l & cs & u & valid & E & Hl & Hb & Hc & Es & Ev & Hv & Hu).
  rewrite E. cbn [app]. unfold ngx_utf8_decode. cbn [hd0 hd tl length].
  rewrite utf8_lead_spec, Es by byte_lia.
  destruct (Nat.ltb_spec (S (length (cs ++ rest)) - 1) (length cs)) as [L|L];
    [rewrite length_app in L; lia|].
  rewrite utf8_cont_ok by (try assumption; apply lead_valid in Es; lia).
  rewrite Ev. case_if; [reflexivity|lia].
Qed.

Lemma encode_head_multi cp :
  0x80 <= cp <= 0x10ffff -> exists l t, utf8_encode cp = l :: t /\ 0x80 <= l.
Proof.
  intros H. destruct (encode_shape cp H) as (l & cs & _ & _ & E & Hl & _).
  exists l, cs. split; [exact E|lia].
Qed.

Lemma length_loop_text fuel n cps len :
  Forall is_cp cps -> (length (utf8_text cps) <= fuel)%nat ->
  utf8_length_loop fuel n (utf8_text cps) len = Some (len + Z.of_nat (length cps)).
Proof.
  unfold utf8_text. intros H; revert fuel len; induction H as [|cp cps Hc Hcs IH];
    intros fuel len Hf; cbn [map concat length] in *.
  - destruct fuel; cbn [utf8_length_loop]; f_equal; lia.
  - rewrite Nat2Z.inj_succ. destruct (Z.ltb_spec cp 0x80) as [L|L].
    + assert (E : utf8_encode cp = [cp]) by (unfold utf8_encode; case_if; [reflexivity|lia]).
      rewrite E in *. cbn [app length] in *. destruct fuel as [|fuel]; [lia|].
      cbn [utf8_length_loop]. case_if; [|lia]. rewrite IH by lia. f_equal. lia.
    + assert (Hcp : 0x80 <= cp <= 0x10ffff) by (unfold is_cp in Hc; lia).
      destruct (encode_head_multi cp Hcp) as (l & t & E & Hl).
      pose proof (decode_complete cp (concat (map utf8_encode cps)) Hcp) as D.
      rewrite E in *. cbn [app length] in *. rewrite length_app in Hf.
      destruct fuel as [|fuel]; [lia|]. cbn [utf8_length_loop].
      destruct (Z.ltb_spec l 0x80); [lia|]. rewrite D.
      destruct (Z.ltb_spec 0x10ffff cp); [lia|]. rewrite IH by lia. f_equal. lia.
Qed.

Lemma utf8_cont_length u len p :
  (length (snd (utf8_cont u len p)) <= length p)%nat.
Proof.
  revert u p; induction len as [|len IH]; intros u p; cbn [utf8_cont]; [simpl; lia|].
  assert (T : (length (tl p) <= length p)%nat) by (destruct p; simpl; lia).
  case_if; cbn [snd]; [lia|]. rewrite IH. exact T.
Qed.

(** A character that is accepted consumes at least its lead byte. *)
Lemma decode_progress c p u p2 :
  ngx_utf8_decode (c :: p) = (u, p2) -> u <= 0x10ffff -> (length p2 <= length p)%nat.
Proof.
  unfold ngx_utf8_decode. cbn [hd0 hd tl length].
  destruct (utf8_lead c) as [[[v valid] len]|]; [|intros [= <- <-]; lia].
  case_if; [intros [= <- <-]; lia|].
  pose proof (utf8_cont_length v len p) as L.
  destruct (utf8_cont v len p) as [[w|] p']; cbn [snd] in L;
    [case_if|]; intros [= <- <-]; lia.
Qed.

Lemma length_loop_total fuel n p len :
  (length p <= fuel)%nat -> 0 <= len ->
  exists v, utf8_length_loop fuel n p len = Some v
            /\ (v = n \/ len <= v <= len + Z.of_nat (length p)).
Proof.
  revert p len; induction fuel as [|fuel IH]; intros p len Hf Hl;
    destruct p as [|c p]; cbn [utf8_length_loop length] in *; try lia.
  1, 2: exists len; split; [reflexivity|]; lia.
  rewrite Nat2Z.inj_succ. case_if.
  - destruct (IH p (len + 1)) as (v & -> & Hv); [lia|lia|]. exists v. split; [reflexivity|lia].
  - destruct (ngx_utf8_decode (c :: p)) as [u p2] eqn:E.
    destruct (Z.ltb_spec 0x10ffff u); [exists n; auto|].
    apply decode_progress in E; [|lia].
    destruct (IH p2 (len + 1)) as (v & -> & Hv); [lia|lia|].
    exists v. split; [reflexivity|lia].
Qed.

Lemma cpystrn_text n cps :
  Forall (fun cp => 0 < cp <= 0x10ffff) cps ->
  utf8_cpystrn_loop n (utf8_text cps) = utf8_text (firstn n cps) ++ [0].
Proof.
  unfold utf8_text. revert cps; induction n as [|n IH]; intros cps H; [reflexivity|].
  destruct H as [|cp cps Hc Hcs]; [reflexivity|].
  cbn [map concat firstn]. destruct (Z.ltb_spec cp 0x80) as [L|L].
  - assert (E : utf8_encode cp = [cp]) by (unfold utf8_encode; case_if; [reflexivity|lia]).
    rewrite E. cbn [app utf8_cpystrn_loop hd0 hd tl]. case_if; [|lia].
    destruct (Z.eqb_spec cp 0); [lia|]. cbn [negb]. now rewrite IH.
  - assert (Hcp : 0x80 <= cp <= 0x10ffff) by lia.
    destruct (encode_head_multi cp Hcp) as (l & t & E & Hl).
    pose proof (decode_complete cp (concat (map utf8_encode cps)) Hcp) as D.
    rewrite E in *. cbn [app utf8_cpystrn_loop hd0 hd] in *.
    destruct (Z.ltb_spec l 0x80); [lia|]. rewrite D.
    destruct (Z.ltb_spec 0x10ffff cp); [lia|]. rewrite IH by assumption.
    rewrite <- app_assoc. cbn [length]. rewrite length_app.
    replace (S (length t + length (concat (map utf8_encode cps))) -
             length (concat (map utf8_encode cps)))%nat with (S (length t)) by lia.
    cbn [firstn app]. rewrite firstn_app, Nat.sub_diag, firstn_all. cbn [firstn].
    now rewrite app_nil_r.
Qed.

(** ** Properties *)

(** [ngx_utf8_decode] inverts the UTF-8 encoding: on the encoding of any
    code point from 0x80 to 0x10ffff it returns that code point and stops
    right after it; and whatever it accepts is the shortest encoding of the
    value returned, up to the top two bits of the continuation bytes. *)
Theorem utf8_decode_correct cp rest :
  0x80 <= cp <= 0x10ffff ->
  ngx_utf8_decode (utf8_encode cp ++ rest) = (cp, rest)
  /\ forall p rest', wf_bytes p -> p <> [] -> ngx_utf8_decode p = (cp, rest') ->
     exists l cs, p = l :: cs ++ rest' /\ Forall (fun i => 0x80 <= i) cs
       /\ utf8_encode cp = l :: map canon cs.
Proof.
  intros H. split; [now apply decode_complete|]. intros p rest' Hb Hp E.
  destruct (decode_sound p cp rest' Hb Hp E) as (l & cs & H1 & H2 & H3 & _); [lia|].
  exists l, cs. auto.
Qed.

Example utf8_decode_correct_witness :
  ngx_utf8_decode [0xe2; 0x82; 0xac; 0x20] = (0x20ac, [0x20]).
Proof. refine (proj1 (utf8_decode_correct 0x20ac [0x20] _)). lia. Defined.

(** The decoder does not check the top two bits of a continuation byte beyond
    requiring 0x80: a lead byte followed by 0xff, which is no UTF-8, is accepted
    as a valid character. *)
Remark utf8_decode_lax rest :
  ngx_utf8_decode (0xc2 :: 0xff :: rest) = (0xbf, rest).
Proof. reflexivity. Qed.

(** [ngx_utf8_length] always returns: the number of characters of a valid
    UTF-8 text, and never more than the number of bytes. *)
Theorem utf8_length_correct cps p :
  Forall is_cp cps ->
  ngx_utf8_length (utf8_text cps) = Some (Z.of_nat (length cps))
  /\ exists v, ngx_utf8_length p = Some v /\ 0 <= v <= Z.of_nat (length p).
Proof.
  intros H. split.
  - unfold ngx_utf8_length. rewrite length_loop_text by (try assumption; lia). reflexivity.
  - destruct (length_loop_total (length p) (Z.of_nat (length p)) p 0) as (v & E & Hv);
      [lia|lia|]. exists v. split; [exact E|lia].
Qed.

Example utf8_length_correct_witness :
  ngx_utf8_length (utf8_text [0x41; 0x20ac; 0x1f600]) = Some 3.
Proof.
  refine (proj1 (utf8_length_correct [0x41; 0x20ac; 0x1f600] [] _)).
  repeat (constructor; [unfold is_cp; lia|]); constructor.
Defined.

(** [ngx_utf8_cpystrn] never cuts a character: given room for [n] it copies
    the first [n - 1] characters of the source, or all of them when there are
    fewer, and terminates the copy. *)
Theorem utf8_cpystrn_whole cps n :
  Forall (fun cp => 0 < cp <= 0x10ffff) cps -> (0 < n)%nat ->
  ngx_utf8_cpystrn (utf8_text cps) n = utf8_text (firstn (n - 1) cps) ++ [0].
Proof.
  intros H Hn. destruct n as [|n]; [lia|]. cbn [ngx_utf8_cpystrn].
  rewrite cpystrn_text by assumption. now rewrite Nat.sub_succ, Nat.sub_0_r.
Qed.

Example utf8_cpystrn_whole_witness :
  ngx_utf8_cpystrn (utf8_text [0x41; 0x20ac; 0x42]) 3 = [0x41; 0xe2; 0x82; 0xac; 0].
Proof.
  refine (utf8_cpystrn_whole [0x41; 0x20ac; 0x42] 3 _ _); [|lia].
  repeat (constructor; [lia|]); constructor.
Defined.

End Utf8.
