(* ===== verification/Escape.v ===== *)
(** * Escape: URI, HTML and JSON escaping (src/core/ngx_string.c)

    Each escaping routine has two modes: with [dst == NULL] it counts, else it
    writes.  Both modes are modelled; callers size their buffer with the first
    and fill it with the second.  [ngx_unescape_uri] is the three-state loop. *)

From S2P Require Import Prelude.

Module Escape.

(** ** Definitions *)

(** The bitmaps of [ngx_escape_uri], one 32-bit word per 32 byte values. *)
Definition uri : list Z :=
  [0xffffffff; 0xd000002d; 0x50000000; 0xb8000001;
   0xffffffff; 0xffffffff; 0xffffffff; 0xffffffff].
Definition args : list Z :=
  [0xffffffff; 0xd800086d; 0x50000000; 0xb8000001;
   0xffffffff; 0xffffffff; 0xffffffff; 0xffffffff].
Definition uri_component : list Z :=
  [0xffffffff; 0xfc009fff; 0x78000001; 0xb8000001;
   0xffffffff; 0xffffffff; 0xffffffff; 0xffffffff].
Definition html : list Z :=
  [0xffffffff; 0x500000ad; 0x50000000; 0xb8000001;
   0xffffffff; 0xffffffff; 0xffffffff; 0xffffffff].
Definition refresh : list Z :=
  [0xffffffff; 0x50000085; 0x50000000; 0xd8000001;
   0xffffffff; 0xffffffff; 0xffffffff; 0xffffffff].
Definition memcached : list Z :=
  [0xffffffff; 0x00000021; 0x00000000; 0x00000000;
   0x00000000; 0x00000000; 0x00000000; 0x00000000].

(** The values of the [type] argument, in the order of the [map] array. *)
Inductive escape_type : Set :=
  NGX_ESCAPE_URI | NGX_ESCAPE_ARGS | NGX_ESCAPE_URI_COMPONENT | NGX_ESCAPE_HTML
| NGX_ESCAPE_REFRESH | NGX_ESCAPE_MEMCACHED | NGX_ESCAPE_MAIL_AUTH.

Definition escape_map (type : escape_type) : list Z :=
  match type with
  | NGX_ESCAPE_URI => uri
  | NGX_ESCAPE_ARGS => args
  | NGX_ESCAPE_URI_COMPONENT => uri_component
  | NGX_ESCAPE_HTML => html
  | NGX_ESCAPE_REFRESH => refresh
  | NGX_ESCAPE_MEMCACHED => memcached
  | NGX_ESCAPE_MAIL_AUTH => memcached
  end.

(** [escape[*src >> 5] & (1U << ( *src & 0x1f))] *)
Definition escaped (escape : list Z) (c : Z) : bool :=
  negb (Z.land (tbl escape (Z.shiftr c 5)) (Z.shiftl 1 (Z.land c 0x1f)) =? 0).

Definition hex : list Z := bs "0123456789ABCDEF".

Fixpoint escape_uri_count (escape : list Z) (src : list Z) (n : Z) : Z :=
  match src with
  | [] => n
  | c :: src' => escape_uri_count escape src' (if escaped escape c then n + 1 else n)
  end.

Fixpoint escape_uri_copy (escape : list Z) (src : list Z) : list Z :=
  match src with
  | [] => []
  | c :: src' =>
      (if escaped escape c
       then ["%"%chr; tbl hex (Z.shiftr c 4); tbl hex (Z.land c 0xf)]
       else [c]) ++ escape_uri_copy escape src'
  end.

(** [dst == NULL]: the number of bytes to escape; else the bytes written. *)
Definition ngx_escape_uri (null : bool) (src : list Z) (type : escape_type)
  : Z + list Z :=
  if null then inl (escape_uri_count (escape_map type) src 0)
  else inr (escape_uri_copy (escape_map type) src).

(** The bits of the [type] argument of [ngx_unescape_uri]. *)
Definition NGX_UNESCAPE_URI : Z := 1.
Definition NGX_UNESCAPE_REDIRECT : Z := 2.

Definition has (type flags : Z) : bool := negb (Z.land type flags =? 0).

Inductive unescape_state : Set := sw_usual | sw_quoted | sw_quoted_second.

(** One turn of the loop: the bytes written and either the next state with
    [decoded], or [None] for [goto done].  [prev] is [s[-2]], the byte before
    the current one. *)
Definition unescape_step (type : Z) (state : unescape_state) (decoded prev ch : Z)
  : list Z * option (unescape_state * Z) :=
  match state with
  | sw_usual =>
      if ((ch =? "?"%chr) && has type (Z.lor NGX_UNESCAPE_URI NGX_UNESCAPE_REDIRECT))%bool
      then ([ch], None)
      else if ch =? "%"%chr then ([], Some (sw_quoted, decoded))
      else ([ch], Some (sw_usual, decoded))
  | sw_quoted =>
      if (("0"%chr <=? ch) && (ch <=? "9"%chr))%bool
      then ([], Some (sw_quoted_second, u8 (ch - "0"%chr)))
      else
        let c := u8 (Z.lor ch 0x20) in
        if (("a"%chr <=? c) && (c <=? "f"%chr))%bool
        then ([], Some (sw_quoted_second, u8 (c - "a"%chr + 10)))
        else ([ch], Some (sw_usual, decoded))
  | sw_quoted_second =>
      if (("0"%chr <=? ch) && (ch <=? "9"%chr))%bool then
        let v := u8 (Z.shiftl decoded 4 + (ch - "0"%chr)) in
        if has type NGX_UNESCAPE_REDIRECT then
          if (("%"%chr <? v) && (v <? 0x7f))%bool then ([v], Some (sw_usual, decoded))
          else (["%"%chr; prev; ch], Some (sw_usual, decoded))
        else ([v], Some (sw_usual, decoded))
      else
        let c := u8 (Z.lor ch 0x20) in
        if (("a"%chr <=? c) && (c <=? "f"%chr))%bool then
          let v := u8 (Z.shiftl decoded 4 + (c - "a"%chr) + 10) in
          if has type NGX_UNESCAPE_URI then
            if v =? "?"%chr then ([v], None) else ([v], Some (sw_usual, decoded))
          else if has type NGX_UNESCAPE_REDIRECT then
            if v =? "?"%chr then ([v], None)
            else if (("%"%chr <? v) && (v <? 0x7f))%bool
                 then ([v], Some (sw_usual, decoded))
                 else (["%"%chr; prev; ch], Some (sw_usual, decoded))
          else ([v], Some (sw_usual, decoded))
        else ([], Some (sw_usual, decoded))
  end.

(** The loop: the bytes written at [*dst] and what is left at [*src]. *)
Fixpoint unescape_loop (type : Z) (state : unescape_state) (decoded prev : Z)
    (s : list Z) : list Z * list Z :=
  match s with
  | [] => ([], [])
  | ch :: s' =>
      match unescape_step type state decoded prev ch with
      | (d, None) => (d, s')
      | (d, Some (state', decoded')) =>
          let '(d', r) := unescape_loop type state' decoded' ch s' in (d ++ d', r)
      end
  end.

Definition ngx_unescape_uri (src : list Z) (type : Z) : list Z * list Z :=
  unescape_loop type sw_usual 0 0 src.

Definition html_extra (c : Z) : Z :=
  if c =? "<"%chr then 3
  else if c =? ">"%chr then 3
  else if c =? "&"%chr then 4
  else if c =? 34 then 5
  else 0.

Definition html_char (ch : Z) : list Z :=
  if ch =? "<"%chr then bs "&lt;"
  else if ch =? ">"%chr then bs "&gt;"
  else if ch =? "&"%chr then bs "&amp;"
  else if ch =? 34 then bs "&quot;"
  else [ch].

Definition ngx_escape_html (null : bool) (src : list Z) : Z + list Z :=
  if null then inl (fold_left (fun len c => len + html_extra c) src 0)
  else inr (flat_map html_char src).

(** The escapes JSON has a letter for: LF, CR, TAB, BS and FF. *)
Definition json_short (ch : Z) : option Z :=
  if ch =? 10 then Some "n"%chr
  else if ch =? 13 then Some "r"%chr
  else if ch =? 9 then Some "t"%chr
  else if ch =? 8 then Some "b"%chr
  else if ch =? 12 then Some "f"%chr
  else None.

Definition json_extra (ch : Z) : Z :=
  if ((ch =? "\"%chr) || (ch =? 34))%bool then 1
  else if ch <=? 0x1f then match json_short ch with Some _ => 1 | None => 5 end
  else 0.

Definition json_char (ch : Z) : list Z :=
  if 0x1f <? ch then
    (if ((ch =? "\"%chr) || (ch =? 34))%bool then ["\"%chr] else []) ++ [ch]
  else
    "\"%chr ::
    match json_short ch with
    | Some l => [l]
    | None =>
        let lo := Z.land ch 0xf in
        ["u"%chr; "0"%chr; "0"%chr; u8 ("0"%chr + Z.shiftr ch 4);
         if lo <? 10 then u8 ("0"%chr + lo) else u8 ("A"%chr + lo - 10)]
    end.

Definition ngx_escape_json (null : bool) (src : list Z) : Z + list Z :=
  if null then inl (fold_left (fun len c => len + json_extra c) src 0)
  else inr (flat_map json_char src).

(** ** Specifications *)

(** The types whose bitmap escapes the percent sign itself. *)
Definition reversible (type : escape_type) : bool :=
  match type with NGX_ESCAPE_REFRESH => false | _ => true end.

(** A reader of the HTML produced: the four entities, other bytes as they are. *)
Fixpoint html_read (s : list Z) : list Z :=
  match s with
  | 38 :: 108 :: 116 :: 59 :: t => "<"%chr :: html_read t
  | 38 :: 103 :: 116 :: 59 :: t => ">"%chr :: html_read t
  | 38 :: 97 :: 109 :: 112 :: 59 :: t => "&"%chr :: html_read t
  | 38 :: 113 :: 117 :: 111 :: 116 :: 59 :: t => 34 :: html_read t
  | c :: t => c :: html_read t
  | [] => []
  end.

(** A reader of the contents of a JSON string (RFC 8259): [None] on a raw
    control byte, a bare quote or an escape that is not one. *)
Definition json_letter (l : Z) : option Z :=
  if l =? "n"%chr then Some 10
  else if l =? "r"%chr then Some 13
  else if l =? "t"%chr then Some 9
  else if l =? "b"%chr then Some 8
  else if l =? "f"%chr then Some 12
  else if ((l =? "\"%chr) || (l =? 34) || (l =? "/"%chr))%bool then Some l
  else None.

Definition hexdigit (c : Z) : option Z :=
  if (("0"%chr <=? c) && (c <=? "9"%chr))%bool then Some (c - "0"%chr)
  else if (("A"%chr <=? c) && (c <=? "F"%chr))%bool then Some (c - "A"%chr + 10)
  else if (("a"%chr <=? c) && (c <=? "f"%chr))%bool then Some (c - "a"%chr + 10)
  else None.

Definition hex4 (a b c d : Z) : option Z :=
  match hexdigit a, hexdigit b, hexdigit c, hexdigit d with
  | Some a, Some b, Some c, Some d => Some (((a * 16 + b) * 16 + c) * 16 + d)
  | _, _, _, _ => None
  end.

Fixpoint json_read (s : list Z) : option (list Z) :=
  match s with
  | [] => Some []
  | c :: t =>
      if ((c <=? 0x1f) || (c =? 34))%bool then None
      else if c =? "\"%chr then
        match t with
        | l :: t1 =>
            if l =? "u"%chr then
              match t1 with
              | a :: b :: e :: f :: t2 =>
                  match hex4 a b e f, json_read t2 with
                  | Some v, Some r => if v <? 0x80 then Some (v :: r) else None
                  | _, _ => None
                  end
              | _ => None
              end
            else
              match json_letter l, json_read t1 with
              | Some v, Some r => Some (v :: r)
              | _, _ => None
              end
        | [] => None
        end
      else match json_read t with Some r => Some (c :: r) | None => None end
  end.

(** ** Lemmas *)

Lemma escape_count_spec e src n :
  escape_uri_count e src n = n + Z.of_nat (length (filter (escaped e) src)).
Proof.
  revert n; induction src as [|c src IH]; intros n; cbn [escape_uri_count filter].
  - simpl. lia.
  - rewrite IH. destruct (escaped e c); simpl length; lia.
Qed.

Lemma escape_copy_length e src :
  Z.of_nat (length (escape_uri_copy e src))
  = Z.of_nat (length src) + 2 * escape_uri_count e src 0.
Proof.
  rewrite escape_count_spec. induction src as [|c src IH]; [reflexivity|].
  cbn [escape_uri_copy filter]. rewrite length_app.
  destruct (escaped e c); simpl length in *; lia.
Qed.

(** The two digits written for a byte, read back by the unescaping states. *)
Lemma quoted_digit type decoded prev b :
  is_byte b ->
  unescape_step type sw_quoted decoded prev (tbl hex (Z.shiftr b 4))
  = ([], Some (sw_quoted_second, b / 16)).
Proof.
  intros H. unfold unescape_step.
  assert (E : (let ch := tbl hex (Z.shiftr b 4) in
    if (("0"%chr <=? ch) && (ch <=? "9"%chr))%bool then u8 (ch - "0"%chr)
    else if (("a"%chr <=? u8 (Z.lor ch 0x20)) && (u8 (Z.lor ch 0x20) <=? "f"%chr))%bool
         then u8 (u8 (Z.lor ch 0x20) - "a"%chr + 10) else -1) = b / 16) by (by_bytes b).
  cbv zeta in *. pose proof (Z.div_pos b 16). unfold is_byte in H.
  case_if; [now rewrite E|]. case_if; [now rewrite E|lia].
Qed.

(** The value the second digit completes, and whether it was a letter. *)
Lemma second_digit b :
  is_byte b ->
  let ch := tbl hex (Z.land b 0xf) in
  (("0"%chr <=? ch) && (ch <=? "9"%chr))%bool = (b mod 16 <=? 9)
  /\ (b mod 16 <= 9 -> u8 (Z.shiftl (b / 16) 4 + (ch - "0"%chr)) = b)
  /\ (9 < b mod 16 ->
      (("a"%chr <=? u8 (Z.lor ch 0x20)) && (u8 (Z.lor ch 0x20) <=? "f"%chr))%bool = true
      /\ u8 (Z.shiftl (b / 16) 4 + (u8 (Z.lor ch 0x20) - "a"%chr) + 10) = b).
Proof.
  intros H. cbv zeta.
  assert (E : (let ch := tbl hex (Z.land b 0xf) in
    Bool.eqb (("0"%chr <=? ch) && (ch <=? "9"%chr))%bool (b mod 16 <=? 9)
    && (if b mod 16 <=? 9 then u8 (Z.shiftl (b / 16) 4 + (ch - "0"%chr)) =? b
        else (("a"%chr <=? u8 (Z.lor ch 0x20)) && (u8 (Z.lor ch 0x20) <=? "f"%chr))%bool
             && (u8 (Z.shiftl (b / 16) 4 + (u8 (Z.lor ch 0x20) - "a"%chr) + 10) =? b)))%bool
    = true) by (by_bytes b).
  cbv zeta in E. apply andb_true_iff in E as [E1 E2]. apply eqb_prop in E1.
  split; [exact E1|]. destruct (Z.leb_spec (b mod 16) 9) as [L|L].
  - split; [intros _; lia|intros; lia].
  - apply andb_true_iff in E2 as [E2 E3]. split; [intros; lia|]. intros _. split; [exact E2|lia].
Qed.

Lemma unescape_cons type state decoded prev ch s d state' decoded' :
  unescape_step type state decoded prev ch = (d, Some (state', decoded')) ->
  unescape_loop type state decoded prev (ch :: s)
  = (d ++ fst (unescape_loop type state' decoded' ch s),
     snd (unescape_loop type state' decoded' ch s)).
Proof.
  intros H. cbn [unescape_loop]. rewrite H.
  now destruct (unescape_loop type state' decoded' ch s).
Qed.

(** Reading back one escaped byte, outside the redirect mode, when the byte
    does not stop the loop. *)
Lemma unescape_escaped type decoded prev b s :
  is_byte b -> has type NGX_UNESCAPE_REDIRECT = false ->
  (has type NGX_UNESCAPE_URI = true -> b <> "?"%chr) ->
  exists decoded' prev',
  unescape_loop type sw_usual decoded prev
    ("%"%chr :: tbl hex (Z.shiftr b 4) :: tbl hex (Z.land b 0xf) :: s)
  = (b :: fst (unescape_loop type sw_usual decoded' prev' s),
     snd (unescape_loop type sw_usual decoded' prev' s)).
Proof.
  intros Hb Hr Hq. exists (b / 16), (tbl hex (Z.land b 0xf)).
  assert (S3 : forall prev,
    unescape_step type sw_quoted_second (b / 16) prev (tbl hex (Z.land b 0xf))
    = ([b], Some (sw_usual, b / 16))).
  { intros p. destruct (second_digit b Hb) as (E1 & E2 & E3). cbv zeta in *.
    unfold unescape_step. rewrite E1, Hr. destruct (Z.leb_spec (b mod 16) 9).
    - now rewrite E2 by assumption.
    - destruct E3 as [-> ->]; [assumption|].
      destruct (has type NGX_UNESCAPE_URI) eqn:Hu; [|reflexivity].
      destruct (Z.eqb_spec b 63); [|reflexivity]. now specialize (Hq eq_refl). }
  erewrite unescape_cons by reflexivity.
  erewrite unescape_cons by (now apply quoted_digit).
  now rewrite (unescape_cons _ _ _ _ _ _ _ _ _ (S3 _)).
Qed.

Lemma unescape_escape e type src :
  wf_bytes src -> escaped e "%"%chr = true -> has type NGX_UNESCAPE_REDIRECT = false ->
  (has type NGX_UNESCAPE_URI = true -> ~ In "?"%chr src) ->
  forall decoded prev,
  unescape_loop type sw_usual decoded prev (escape_uri_copy e src) = (src, []).
Proof.
  intros Hs He Hr Hq. induction Hs as [|b src Hb Hs IH]; intros decoded prev; [reflexivity|].
  cbn [escape_uri_copy].
  assert (IH' := IH (fun H1 H2 => Hq H1 (or_intror H2))). clear IH.
  destruct (escaped e b) eqn:Eb.
  - destruct (unescape_escaped type decoded prev b (escape_uri_copy e src) Hb Hr)
      as (d & p & E); [intros H ->; now apply (Hq H); left|].
    cbn [app]. rewrite E, IH'. reflexivity.
  - assert (S1 : unescape_step type sw_usual decoded prev b
                 = ([b], Some (sw_usual, decoded)));
      [|cbn [app]; rewrite (unescape_cons _ _ _ _ _ _ _ _ _ S1), IH'; reflexivity].
    unfold unescape_step, has in *.
    assert (F : (Z.land type (Z.lor NGX_UNESCAPE_URI NGX_UNESCAPE_REDIRECT) =? 0)
      = ((Z.land type NGX_UNESCAPE_URI =? 0) && (Z.land type NGX_UNESCAPE_REDIRECT =? 0))%bool).
    { rewrite Z.land_lor_distr_r.
      destruct (Z.eqb_spec (Z.lor (Z.land type NGX_UNESCAPE_URI)
                                  (Z.land type NGX_UNESCAPE_REDIRECT)) 0) as [E|E].
      - apply Z.lor_eq_0_iff in E as [-> ->]. reflexivity.
      - rewrite Z.lor_eq_0_iff in E. lia. }
    rewrite F. destruct (Z.eqb_spec b 63) as [->|N].
    + destruct (Z.land type NGX_UNESCAPE_URI =? 0); cbn [negb] in *.
      * apply negb_false_iff in Hr. rewrite Hr. reflexivity.
      * exfalso. apply (Hq eq_refl). now left.
    + cbn [andb]. destruct (Z.eqb_spec b 37) as [->|N2]; [congruence|reflexivity].
Qed.

Lemma reversible_percent type : reversible type = true -> escaped (escape_map type) "%"%chr = true.
Proof. destruct type; vm_compute; congruence. Qed.

(** Everything written is the percent sign or a byte the bitmap lets through. *)
Lemma escape_copy_safe type src :
  wf_bytes src ->
  Forall (fun c => c = "%"%chr \/ escaped (escape_map type) c = false)
         (escape_uri_copy (escape_map type) src).
Proof.
  intros H. induction H as [|b src Hb Hs IH]; cbn [escape_uri_copy]; [constructor|].
  apply Forall_app. split; [|exact IH].
  destruct (escaped (escape_map type) b) eqn:E.
  - apply Forall_cons; [now left|].
    repeat (apply Forall_cons; [right; apply negb_true_iff; destruct type; by_bytes b|]).
    apply Forall_nil.
  - apply Forall_cons; [now right|apply Forall_nil].
Qed.

(** *** HTML and JSON *)

Lemma extra_length (extra : Z -> Z) (char : Z -> list Z) src n :
  (forall c, Z.of_nat (length (char c)) = 1 + extra c) ->
  fold_left (fun len c => len + extra c) src n
  = n + Z.of_nat (length (flat_map char src)) - Z.of_nat (length src).
Proof.
  intros H. revert n; induction src as [|c src IH]; intros n; cbn [fold_left flat_map].
  - simpl. lia.
  - rewrite IH, length_app. specialize (H c). simpl length. lia.
Qed.

Lemma html_char_length c : Z.of_nat (length (html_char c)) = 1 + html_extra c.
Proof. unfold html_char, html_extra. repeat case_if; reflexivity. Qed.

Lemma json_char_length c : Z.of_nat (length (json_char c)) = 1 + json_extra c.
Proof.
  unfold json_char, json_extra. rewrite Z.ltb_antisym.
  destruct (((c =? "\"%chr) || (c =? 34))%bool) eqn:Q; destruct (Z.leb_spec c 0x1f) as [L|L];
    cbn [negb]; [exfalso; lia|reflexivity| |reflexivity].
  destruct (json_short c); reflexivity.
Qed.

Lemma html_read_plain c t : c <> 38 -> html_read (c :: t) = c :: html_read t.
Proof.
  intros H. destruct c as [|p|p]; [reflexivity| |reflexivity].
  do 6 (destruct p as [p|p|]; try reflexivity). congruence.
Qed.

Lemma html_read_escape src : html_read (flat_map html_char src) = src.
Proof.
  induction src as [|c src IH]; [reflexivity|]. cbn [flat_map]. unfold html_char at 1.
  destruct (Z.eqb_spec c 60) as [->|]; [cbn; now rewrite IH|].
  destruct (Z.eqb_spec c 62) as [->|]; [cbn; now rewrite IH|].
  destruct (Z.eqb_spec c 38) as [->|]; [cbn; now rewrite IH|].
  destruct (Z.eqb_spec c 34) as [->|]; [cbn; now rewrite IH|].
  cbn [app]. rewrite html_read_plain by assumption. now rewrite IH.
Qed.

Lemma html_safe src :
  Forall (fun c => c <> "<"%chr /\ c <> ">"%chr /\ c <> 34) (flat_map html_char src).
Proof.
  induction src as [|c src IH]; [constructor|]. cbn [flat_map]. apply Forall_app.
  split; [|exact IH].
  assert (F : forallb (fun c => negb (c =? "<"%chr) && negb (c =? ">"%chr) && negb (c =? 34))
                (html_char c) = true).
  { unfold html_char. repeat case_if; try reflexivity. cbn [forallb]. lia. }
  rewrite forallb_forall in F. apply Forall_forall. intros x Hx.
  specialize (F x Hx). lia.
Qed.

(** A control byte written as six bytes is read back. *)
Lemma json_u_spec c :
  0 <= c <= 0x1f ->
  hex4 "0"%chr "0"%chr (u8 ("0"%chr + Z.shiftr c 4))
    (let lo := Z.land c 0xf in
     if lo <? 10 then u8 ("0"%chr + lo) else u8 ("A"%chr + lo - 10)) = Some c.
Proof.
  intros H. assert (Hb : is_byte c) by byte_lia.
  pose proof (byte_eq_opt
    (fun c => if c <=? 0x1f then
      hex4 "0"%chr "0"%chr (u8 ("0"%chr + Z.shiftr c 4))
       (let lo := Z.land c 0xf in
        if lo <? 10 then u8 ("0"%chr + lo) else u8 ("A"%chr + lo - 10)) else Some c)
    Some c ltac:(vm_compute; reflexivity) Hb) as E.
  cbv beta in E. replace (c <=? 0x1f) with true in E by lia. exact E.
Qed.

Lemma json_read_escape src :
  wf_bytes src -> json_read (flat_map json_char src) = Some src.
Proof.
  intros H. induction H as [|c src Hc Hs IH]; [reflexivity|].
  cbn [flat_map]. unfold json_char at 1.
  destruct (Z.ltb_spec 0x1f c) as [L|L].
  - destruct (Z.eqb_spec c 92) as [->|N1]; [cbn; now rewrite IH|].
    destruct (Z.eqb_spec c 34) as [->|N2]; [cbn; now rewrite IH|].
    cbn [orb app json_read]. replace (c <=? 31) with false by lia.
    replace (c =? 34) with false by lia. replace (c =? 92) with false by lia.
    cbn [orb]. now rewrite IH.
  - assert (Hr : 0 <= c <= 0x1f) by byte_lia.
    destruct (json_short c) as [l|] eqn:E.
    + assert (El : json_letter l = Some c /\ l <> 117).
      { unfold json_short in E.
        repeat (case_if_in E; [injection E as <-; split; [cbn; f_equal; lia|discriminate]|]).
        discriminate. }
      destruct El as [El Nu]. cbn [app json_read].
      change (92 <=? 31) with false. change (92 =? 34) with false.
      rewrite Z.eqb_refl. cbn [orb]. replace (l =? 117) with false by lia.
      now rewrite El, IH.
    + cbn [app json_read]. rewrite !Z.eqb_refl.
      change (92 <=? 31) with false. change (92 =? 34) with false. cbn [orb].
      pose proof (json_u_spec c Hr) as U. cbv zeta in *. rewrite U, IH.
      case_if; [reflexivity|lia].
Qed.

(** ** Properties *)

(** Unescaping what [ngx_escape_uri] wrote gives the source back, for every
    type whose set holds the percent sign, when the unescaping does not stop at
    a question mark: with type 0 for any source, and as a URI when the source
    has no question mark. *)
Theorem uri_roundtrip type src :
  wf_bytes src -> reversible type = true ->
  exists w, ngx_escape_uri false src type = inr w
  /\ ngx_unescape_uri w 0 = (src, [])
  /\ (~ In "?"%chr src -> ngx_unescape_uri w NGX_UNESCAPE_URI = (src, [])).
Proof.
  intros H R. eexists. split; [reflexivity|].
  pose proof (reversible_percent type R). unfold ngx_unescape_uri.
  split; [|intros Hq]; apply unescape_escape; auto; discriminate.
Qed.

Example uri_roundtrip_witness :
  exists w, ngx_escape_uri false (bs "/a b%/#") NGX_ESCAPE_ARGS = inr w
  /\ ngx_unescape_uri w 0 = (bs "/a b%/#", [])
  /\ (~ In "?"%chr (bs "/a b%/#") ->
      ngx_unescape_uri w NGX_UNESCAPE_URI = (bs "/a b%/#", [])).
Proof.
  refine (uri_roundtrip NGX_ESCAPE_ARGS (bs "/a b%/#") _ eq_refl).
  repeat constructor; discriminate.
Defined.

(** The bytes [ngx_escape_uri] writes are the percent sign or bytes its
    bitmap lets through, so no reserved, control or non-ASCII byte remains for
    the types that exclude them; and the counting mode sizes the buffer exactly:
    the source length plus two bytes for each byte counted. *)
Theorem escape_uri_safe type src :
  wf_bytes src ->
  exists n w, ngx_escape_uri true src type = inl n /\ ngx_escape_uri false src type = inr w
  /\ Z.of_nat (length w) = Z.of_nat (length src) + 2 * n
  /\ Forall (fun c => c = "%"%chr \/ escaped (escape_map type) c = false) w.
Proof.
  intros H. do 2 eexists. do 2 (split; [reflexivity|]).
  split; [apply escape_copy_length|now apply escape_copy_safe].
Qed.

Example escape_uri_safe_witness :
  exists n w, ngx_escape_uri true (bs "a b") NGX_ESCAPE_URI = inl n
  /\ ngx_escape_uri false (bs "a b") NGX_ESCAPE_URI = inr w
  /\ Z.of_nat (length w) = Z.of_nat (length (bs "a b")) + 2 * n
  /\ Forall (fun c => c = "%"%chr \/ escaped uri c = false) w.
Proof.
  refine (escape_uri_safe NGX_ESCAPE_URI (bs "a b") _). repeat constructor; discriminate.
Defined.

(** HTML escaping is faithful and inert: a reader of the four entities gets
    the source back, no angle bracket or double quote is written, and the
    counting mode gives exactly the bytes added. *)
Theorem escape_html_faithful src :
  exists n w, ngx_escape_html true src = inl n /\ ngx_escape_html false src = inr w
  /\ html_read w = src
  /\ Forall (fun c => c <> "<"%chr /\ c <> ">"%chr /\ c <> 34) w
  /\ Z.of_nat (length w) = Z.of_nat (length src) + n.
Proof.
  do 2 eexists. do 2 (split; [reflexivity|]).
  split; [apply html_read_escape|]. split; [apply html_safe|].
  rewrite (extra_length html_extra html_char) by apply html_char_length. lia.
Qed.

(** JSON escaping writes the contents of a valid JSON string that denotes
    the source bytes: a reader that refuses raw control bytes, bare quotes and
    unknown escapes gets the source back; the counting mode gives exactly the
    bytes added. *)
Theorem escape_json_faithful src :
  wf_bytes src ->
  exists n w, ngx_escape_json true src = inl n /\ ngx_escape_json false src = inr w
  /\ json_read w = Some src /\ Z.of_nat (length w) = Z.of_nat (length src) + n.
Proof.
  intros H. do 2 eexists. do 2 (split; [reflexivity|]).
  split; [now apply json_read_escape|].
  rewrite (extra_length json_extra json_char) by apply json_char_length. lia.
Qed.

Example escape_json_faithful_witness :
  exists n w, ngx_escape_json true [97; 10; 1] = inl n /\ ngx_escape_json false [97; 10; 1] = inr w
  /\ json_read w = Some [97; 10; 1] /\ Z.of_nat (length w) = 3 + n.
Proof. refine (escape_json_faithful [97; 10; 1] _). repeat constructor; discriminate. Defined.

End Escape.
