(* ===== verification/Radix.v ===== *)
(** * Radix: the prefix tree of src/core/ngx_radix_tree.c

    A tree node is the [Node] constructor, a NULL child is [Null]; the parent
    link of a node is its position in the tree.  The insertion, deletion and
    lookup loops are written once over a bit cursor and instantiated for the
    32-bit trees ([bit] shifted right from 0x80000000) and the 128-bit ones
    (byte index and bit). *)

From S2P Require Import Prelude.

Module Radix.

(** ** Definitions *)

Abbreviation NGX_RADIX_NO_VALUE := 18446744073709551615.

(** [ngx_radix_node_t] *)
Inductive rtree : Set :=
| Null
| Node (lft rgt : rtree) (value : Z).

Definition is_node (t : rtree) : bool := match t with Null => false | _ => true end.

(** The allocator part of [ngx_radix_tree_t]: the length of the free list, the
    bytes lft in the current chunk ([size]), and the number of pages
    [ngx_pmemalign] will still supply. *)
Record alloc_state : Set := AS { as_free : nat; as_size : Z; as_pages : nat }.

Definition sizeof_node : Z := 32.
Definition ngx_pagesize : Z := 4096.

(** [ngx_radix_alloc]: [None] is NULL. *)
Definition ngx_radix_alloc (a : alloc_state) : option alloc_state :=
  match as_free a with
  | S f => Some (AS f (as_size a) (as_pages a))
  | O =>
      if as_size a <? sizeof_node then
        match as_pages a with
        | O => None
        | S p => Some (AS O (ngx_pagesize - sizeof_node) p)
        end
      else Some (AS O (as_size a - sizeof_node) (as_pages a))
  end.

Definition free_node (a : alloc_state) : alloc_state :=
  AS (S (as_free a)) (as_size a) (as_pages a).

Section Walk.

(** A cursor over the bits of a key under a mask: [more] is the loop test
    [bit & mask], [dir] the test [key & bit], [next] the shift. *)
Context {C : Type} (more dir : C -> bool) (next : C -> C).

(** The second loop of the insertion: one new node per remaining mask bit, the
    value in the last.  Nodes linked before an allocation failure stay. *)
Fixpoint grow (fuel : nat) (c : C) (value : Z) (lft rgt : rtree) (v : Z)
    (a : alloc_state) : rtree * Z * alloc_state :=
  if more c then
    match fuel with
    | O => (Node lft rgt v, NGX_ERROR, a)
    | S fuel' =>
        match ngx_radix_alloc a with
        | None => (Node lft rgt v, NGX_ERROR, a)
        | Some a' =>
            let '(child, rc, a'') :=
              grow fuel' (next c) value Null Null NGX_RADIX_NO_VALUE a' in
            (if dir c then Node lft child v else Node child rgt v, rc, a'')
        end
    end
  else (Node lft rgt value, NGX_OK, a).

(** The first loop, from a node [t] that is not NULL. *)
Fixpoint insert_walk (fuel : nat) (c : C) (value : Z) (t : rtree) (a : alloc_state)
  : rtree * Z * alloc_state :=
  match t with
  | Null => (Null, NGX_ERROR, a)
  | Node lft rgt v =>
      if more c then
        match (if dir c then rgt else lft) with
        | Null => grow fuel c value lft rgt v a
        | _ =>
            if dir c then
              let '(r, rc, a') := insert_walk (pred fuel) (next c) value rgt a in
              (Node lft r v, rc, a')
            else
              let '(l, rc, a') := insert_walk (pred fuel) (next c) value lft a in
              (Node l rgt v, rc, a')
        end
      else if negb (v =? NGX_RADIX_NO_VALUE) then (t, NGX_BUSY, a)
      else (Node lft rgt value, NGX_OK, a)
  end.

(** The outcome of a deletion below a node: an error, a tree that stays, the
    node itself unlinked by its parent, or a NULL parent dereferenced. *)
Inductive del_res : Set := DErr | DKeep (t : rtree) | DGone | DCrash.

(** [root] tells whether the node has no parent.  The unlinking loop climbs
    through the parents as the recursion returns. *)
Fixpoint delete_walk (root : bool) (c : C) (t : rtree) (a : alloc_state)
  : del_res * alloc_state :=
  match t with
  | Null => (DErr, a)
  | Node lft rgt v =>
      if more c then
        let '(res, a') :=
          if dir c then delete_walk false (next c) rgt a
          else delete_walk false (next c) lft a in
        match res with
        | DErr => (DErr, a')
        | DCrash => (DCrash, a')
        | DKeep t' => (DKeep (if dir c then Node lft t' v else Node t' rgt v), a')
        | DGone =>
            let sibling := if dir c then lft else rgt in
            if (is_node sibling || negb (v =? NGX_RADIX_NO_VALUE) || root)%bool
            then (DKeep (if dir c then Node lft Null v else Node Null rgt v), a')
            else (DGone, free_node a')
        end
      else if (is_node lft || is_node rgt)%bool then
        if negb (v =? NGX_RADIX_NO_VALUE)
        then (DKeep (Node lft rgt NGX_RADIX_NO_VALUE), a)
        else (DErr, a)
      else if root then (DCrash, a)
      else (DGone, free_node a)
  end.

Fixpoint find_walk (c : C) (t : rtree) (value : Z) : Z :=
  match t with
  | Null => value
  | Node lft rgt v =>
      let value := if negb (v =? NGX_RADIX_NO_VALUE) then v else value in
      if dir c then find_walk (next c) rgt value else find_walk (next c) lft value
  end.

End Walk.

(** [ngx_radix_tree_t] *)
Record radix_tree : Set := RT { rt_root : rtree; rt_alloc : alloc_state }.

(** The cursor of a 32-bit tree is [bit]. *)
Definition more32 (mask bit : Z) : bool := negb (Z.land bit mask =? 0).
Definition dir32 (key bit : Z) : bool := negb (Z.land key bit =? 0).
Definition next32 (bit : Z) : Z := Z.shiftr bit 1.

Definition ngx_radix32tree_insert (tree : radix_tree) (key mask value : Z)
  : Z * radix_tree :=
  let '(r, rc, a) :=
    insert_walk (more32 mask) (dir32 key) next32 33 0x80000000 value
      (rt_root tree) (rt_alloc tree) in
  (rc, RT r a).

(** [None] is the NULL dereference. *)
Definition ngx_radix32tree_delete (tree : radix_tree) (key mask : Z)
  : option (Z * radix_tree) :=
  match delete_walk (more32 mask) (dir32 key) next32 true 0x80000000
          (rt_root tree) (rt_alloc tree) with
  | (DErr, _) => Some (NGX_ERROR, tree)
  | (DKeep r, a) => Some (NGX_OK, RT r a)
  | (_, _) => None
  end.

Definition ngx_radix32tree_find (tree : radix_tree) (key : Z) : Z :=
  find_walk (dir32 key) next32 0x80000000 (rt_root tree) NGX_RADIX_NO_VALUE.

(** The cursor of a 128-bit tree is the byte index and the bit; the loops leave
    at index 16.  [key[16]], which the lookup reads below a 128-bit prefix, is
    whatever byte follows the key: the list may hold it. *)
Definition more128 (mask : list Z) (c : nat * Z) : bool :=
  let '(i, bit) := c in
  ((i <? 16)%nat && negb (Z.land bit (nth i mask 0) =? 0))%bool.
Definition dir128 (key : list Z) (c : nat * Z) : bool :=
  let '(i, bit) := c in negb (Z.land (nth i key 0) bit =? 0).
Definition next128 (c : nat * Z) : nat * Z :=
  let '(i, bit) := c in
  let bit := Z.shiftr bit 1 in
  if bit =? 0 then (S i, 0x80) else (i, bit).

Definition ngx_radix128tree_insert (tree : radix_tree) (key mask : list Z) (value : Z)
  : Z * radix_tree :=
  let '(r, rc, a) :=
    insert_walk (more128 mask) (dir128 key) next128 129 (O, 0x80) value
      (rt_root tree) (rt_alloc tree) in
  (rc, RT r a).

Definition ngx_radix128tree_delete (tree : radix_tree) (key mask : list Z)
  : option (Z * radix_tree) :=
  match delete_walk (more128 mask) (dir128 key) next128 true (O, 0x80)
          (rt_root tree) (rt_alloc tree) with
  | (DErr, _) => Some (NGX_ERROR, tree)
  | (DKeep r, a) => Some (NGX_OK, RT r a)
  | (_, _) => None
  end.

Definition ngx_radix128tree_find (tree : radix_tree) (key : list Z) : Z :=
  find_walk (dir128 key) next128 (O, 0x80) (rt_root tree) NGX_RADIX_NO_VALUE.

(** [ngx_radix_tree_create]: the [do ... while (key)] loop inserts every prefix
    of one length without a value; [None] is NULL. *)
Fixpoint create_level (fuel : nat) (tree : radix_tree) (key mask inc : Z)
  : option radix_tree :=
  match fuel with
  | O => None
  | S fuel' =>
      let '(rc, tree') := ngx_radix32tree_insert tree key mask NGX_RADIX_NO_VALUE in
      if negb (rc =? NGX_OK) then None
      else
        let key' := u32 (key + inc) in
        if key' =? 0 then Some tree' else create_level fuel' tree' key' mask inc
  end.

Fixpoint create_levels (preallocate : nat) (tree : radix_tree) (mask inc : Z)
  : option radix_tree :=
  match preallocate with
  | O => Some tree
  | S n =>
      let mask := Z.lor (Z.shiftr mask 1) 0x80000000 in
      match create_level (S (Z.to_nat (2 ^ 32 / inc))) tree 0 mask inc with
      | None => None
      | Some tree' => create_levels n tree' mask (Z.shiftr inc 1)
      end
  end.

(** [preallocate] when the argument is -1. *)
Definition default_preallocate : nat :=
  let n := ngx_pagesize / sizeof_node in
  if n =? 128 then 6%nat else if n =? 256 then 7%nat else 8%nat.

Definition ngx_radix_tree_create (pages : nat) (preallocate : Z) : option radix_tree :=
  match ngx_radix_alloc (AS O 0 pages) with
  | None => None
  | Some a =>
      let tree := RT (Node Null Null NGX_RADIX_NO_VALUE) a in
      if preallocate =? 0 then Some tree
      else
        let n := if preallocate =? -1 then default_preallocate
                 else Z.to_nat preallocate in
        create_levels n tree 0 0x80000000
  end.

(** ** Specifications *)

(** The value stored for a prefix, [NGX_RADIX_NO_VALUE] when there is none. *)
Fixpoint lookup (p : list bool) (t : rtree) : Z :=
  match t with
  | Null => NGX_RADIX_NO_VALUE
  | Node l r v => match p with [] => v | b :: p' => lookup p' (if b then r else l) end
  end.

(** How many nodes the allocator can still supply. *)
Definition capacity (a : alloc_state) : Z :=
  Z.of_nat (as_free a) + as_size a / sizeof_node
  + Z.of_nat (as_pages a) * (ngx_pagesize / sizeof_node).

Definition same_prefix (p q : list bool) : bool :=
  if list_eq_dec bool_dec p q then true else false.

(** What an insertion of [value] for the prefix [p] does to the prefix table. *)
Definition insert_spec (p : list bool) (value : Z) (tree : radix_tree)
    (res : Z * radix_tree) : Prop :=
  let '(rc, tree') := res in
  let old := lookup p (rt_root tree) in
  (old <> NGX_RADIX_NO_VALUE -> rc = NGX_BUSY /\ tree' = tree)
  /\ (old = NGX_RADIX_NO_VALUE ->
      (rc = NGX_OK /\ forall q, lookup q (rt_root tree') =
         if same_prefix p q then value else lookup q (rt_root tree))
      \/ (rc = NGX_ERROR /\ capacity (rt_alloc tree) < Z.of_nat (length p)
          /\ forall q, lookup q (rt_root tree') = lookup q (rt_root tree))).

(** What a deletion does; [None] is the dereference of the root's parent. *)
Definition delete_spec (p : list bool) (tree : radix_tree)
    (res : option (Z * radix_tree)) : Prop :=
  match res with
  | None => p = [] /\ exists v, rt_root tree = Node Null Null v
  | Some (rc, tree') =>
      (rc = NGX_ERROR /\ tree' = tree /\ lookup p (rt_root tree) = NGX_RADIX_NO_VALUE)
      \/ (rc = NGX_OK /\ forall q, lookup q (rt_root tree') =
            if same_prefix p q then NGX_RADIX_NO_VALUE else lookup q (rt_root tree))
  end.

(** [r] is the value of the longest prefix of the bits [b 0, b 1, ...] that has
    one. *)
Definition longest_match (bits : nat -> list bool) (t : rtree) (default r : Z) : Prop :=
  (exists n, lookup (bits n) t = r /\ r <> NGX_RADIX_NO_VALUE
     /\ forall m, (n < m)%nat -> lookup (bits m) t = NGX_RADIX_NO_VALUE)
  \/ (r = default /\ forall n, lookup (bits n) t = NGX_RADIX_NO_VALUE).

(** The first [n] bits of a 32-bit key, of a 16-byte key, and the masks of [n]
    leading bits. *)
Definition bits32 (key : Z) (n : nat) : list bool :=
  map (fun i => Z.testbit key (31 - Z.of_nat i)) (seq 0 n).

Definition mask32 (n : nat) : Z := 2 ^ 32 - 2 ^ (32 - Z.of_nat n).

Definition bit128 (key : list Z) (i : nat) : bool :=
  Z.testbit (nth (i / 8) key 0) (7 - Z.of_nat (i mod 8)).

Definition bits128 (key : list Z) (n : nat) : list bool := map (bit128 key) (seq 0 n).

Definition mask128 (n : nat) (mask : list Z) : Prop :=
  forall i, (i < 128)%nat -> bit128 mask i = (i <? n)%nat.

(** The nodes on the longest way down. *)
Fixpoint height (t : rtree) : nat :=
  match t with Null => O | Node l r _ => S (Nat.max (height l) (height r)) end.

(** The trees of 128-bit keys: one that was created, then insertions and deletions
    with any keys and masks. *)
Inductive built128 : radix_tree -> Prop :=
| built_create pages preallocate tree :
    ngx_radix_tree_create pages preallocate = Some tree -> built128 tree
| built_insert tree key mask value :
    built128 tree -> built128 (snd (ngx_radix128tree_insert tree key mask value))
| built_delete tree key mask rc tree' :
    built128 tree -> ngx_radix128tree_delete tree key mask = Some (rc, tree') -> built128 tree'.

(** ** Lemmas *)

Lemma same_prefix_refl p : same_prefix p p = true.
Proof. unfold same_prefix. destruct (list_eq_dec bool_dec p p); congruence. Qed.

Lemma same_prefix_cons b p c q :
  same_prefix (b :: p) (c :: q) = (Bool.eqb b c && same_prefix p q)%bool.
Proof.
  unfold same_prefix.
  destruct (list_eq_dec bool_dec (b :: p) (c :: q)) as [E|E],
           (list_eq_dec bool_dec p q) as [E'|E'], (Bool.eqb b c) eqn:Eb; cbn [andb];
    try reflexivity; apply eqb_prop in Eb || apply eqb_false_iff in Eb; congruence.
Qed.

Lemma same_prefix_nil p q : same_prefix [] (p :: q) = false.
Proof. reflexivity. Qed.

Lemma lookup_node_cons b p l r v :
  lookup (b :: p) (Node l r v) = lookup p (if b then r else l).
Proof. reflexivity. Qed.

Lemma capacity_alloc a :
  0 <= as_size a ->
  match ngx_radix_alloc a with
  | Some a' => capacity a' = capacity a - 1 /\ 0 <= as_size a'
  | None => capacity a <= 0
  end.
Proof.
  unfold ngx_radix_alloc, capacity, sizeof_node, ngx_pagesize.
  destruct a as [[|f] s [|p]]; cbn [as_free as_size as_pages]; intros H;
    try (destruct (Z.ltb_spec s 32)); cbn [as_free as_size as_pages];
    rewrite ?Nat2Z.inj_succ; try split; try lia;
    Z.to_euclidean_division_equations; lia.
Qed.

Section WalkFacts.

Context {C : Type} (more dir : C -> bool) (next : C -> C).

(** The loop over the mask ends within [fuel] turns. *)
Fixpoint ends (fuel : nat) (c : C) : Prop :=
  if more c then match fuel with O => False | S f => ends f (next c) end else True.

(** The prefix the cursor spells. *)
Fixpoint path_of (fuel : nat) (c : C) : list bool :=
  if more c then
    match fuel with O => [] | S f => dir c :: path_of f (next c) end
  else [].

(** The first [n] bits from the cursor, whatever the mask. *)
Fixpoint dirs (n : nat) (c : C) : list bool :=
  match n with O => [] | S m => dir c :: dirs m (next c) end.

(** Growing below a node replaces one child by a chain with a single value. *)
Lemma grow_spec fuel c value l r v a t' rc a' :
  ends fuel c -> 0 <= as_size a ->
  (if more c then if dir c then r = Null else l = Null
   else l = Null /\ r = Null /\ v = NGX_RADIX_NO_VALUE) ->
  grow more dir next fuel c value l r v a = (t', rc, a') ->
  (rc = NGX_OK /\ forall q, lookup q t' =
     if same_prefix (path_of fuel c) q then value else lookup q (Node l r v))
  \/ (rc = NGX_ERROR /\ capacity a < Z.of_nat (length (path_of fuel c))
      /\ forall q, lookup q t' = lookup q (Node l r v)).
Proof.
  revert c l r v a t' rc a'; induction fuel as [|fuel IH];
    intros c l r v a t' rc a' He Ha Hc; cbn [grow ends path_of] in *;
    destruct (more c) eqn:Hm; try contradiction.
  1, 3: intros [= <- <- <-]; left; (split; [reflexivity|]); intros [|b q];
    [reflexivity|]; now rewrite same_prefix_nil.
  pose proof (capacity_alloc a Ha) as Cap.
  destruct (ngx_radix_alloc a) as [a1|].
  2:{ intros [= <- <- <-]. right. split; [reflexivity|]. split; [|reflexivity].
      cbn [length]. lia. }
  destruct Cap as [Cap Ha1].
  destruct (grow more dir next fuel (next c) value Null Null NGX_RADIX_NO_VALUE a1)
    as [[child rc1] a2] eqn:E.
  apply IH in E; [|exact He|exact Ha1|destruct (more (next c)); [destruct (dir (next c))|]; auto].
  assert (N : forall q, lookup q (Node Null Null NGX_RADIX_NO_VALUE) = NGX_RADIX_NO_VALUE).
  { intros [|[] [|? ?]]; reflexivity. }
  intros [= <- <- <-].
  destruct E as [[-> E]|(-> & E1 & E2)].
  - left. split; [reflexivity|]. intros [|b q]; [destruct (dir c); reflexivity|].
    rewrite same_prefix_cons. specialize (E q). rewrite N in E.
    destruct (dir c), b; subst; cbn [Bool.eqb andb lookup]; try exact E; try reflexivity;
      rewrite E; destruct (same_prefix _ q); destruct q; reflexivity.
  - right. split; [reflexivity|]. split.
    + cbn [length]. rewrite Nat2Z.inj_succ. lia.
    + intros [|b q]; [destruct (dir c); reflexivity|]. specialize (E2 q). rewrite N in E2.
      destruct (dir c), b; subst; cbn [lookup]; try reflexivity; rewrite E2; destruct q; reflexivity.
Qed.

Lemma grow_size fuel c value l r v a t' rc a' :
  0 <= as_size a -> grow more dir next fuel c value l r v a = (t', rc, a') -> 0 <= as_size a'.
Proof.
  revert c l r v a t' rc a'; induction fuel as [|fuel IH];
    intros c l r v a t' rc a' Ha; cbn [grow]; destruct (more c);
    try (intros [= <- <- <-]; exact Ha).
  pose proof (capacity_alloc a Ha) as Cap. destruct (ngx_radix_alloc a) as [a1|];
    [|intros [= <- <- <-]; exact Ha].
  destruct (grow more dir next fuel (next c) value Null Null NGX_RADIX_NO_VALUE a1)
    as [[child rc1] a2] eqn:E.
  intros [= <- <- <-]. eapply IH; [|exact E]. tauto.
Qed.

Lemma insert_walk_spec fuel c value t a t' rc a' :
  ends fuel c -> 0 <= as_size a -> t <> Null ->
  insert_walk more dir next fuel c value t a = (t', rc, a') ->
  let p := path_of fuel c in
  (lookup p t <> NGX_RADIX_NO_VALUE -> rc = NGX_BUSY /\ t' = t /\ a' = a)
  /\ (lookup p t = NGX_RADIX_NO_VALUE ->
      (rc = NGX_OK /\ forall q, lookup q t' = if same_prefix p q then value else lookup q t)
      \/ (rc = NGX_ERROR /\ capacity a < Z.of_nat (length p)
          /\ forall q, lookup q t' = lookup q t)).
Proof.
  revert c fuel t' rc a'; induction t as [|l IHl r IHr v];
    intros c fuel t' rc a' He Ha Ht; [congruence|]. clear Ht.
  cbn [insert_walk]. destruct fuel as [|fuel]; cbn [ends path_of Nat.pred] in *;
    destruct (more c) eqn:Hm; try contradiction; cbv zeta.
  1, 3: intros E; cbn [lookup]; destruct (Z.eqb_spec v NGX_RADIX_NO_VALUE) as [->|N];
    cbn [negb] in E; injection E as <- <- <-; (split; [intros; try congruence; auto|]);
    intros; try congruence; left; (split; [reflexivity|]); intros [|b q];
    [reflexivity|now rewrite same_prefix_nil].
  destruct (dir c) eqn:Hd.
  - rewrite lookup_node_cons. destruct r as [|rl rr rv].
    + intros E. split; [intros H; destruct (path_of fuel (next c)); exfalso; apply H; reflexivity|].
      intros _. apply (grow_spec (S fuel) c) in E; [|simpl; now rewrite Hm|exact Ha|now rewrite Hm, Hd].
      cbn [path_of] in E. rewrite Hm, Hd in E. exact E.
    + destruct (insert_walk more dir next fuel (next c) value (Node rl rr rv) a)
        as [[t1 rc1] a1] eqn:E1. intros [= <- <- <-].
      apply IHr in E1 as [B O]; [|exact He|exact Ha|discriminate]. split.
      * intros H. destruct (B H) as (-> & -> & ->). auto.
      * intros H. destruct (O H) as [[-> L]|(-> & K & L)]; [left|right]; (split; [reflexivity|]).
        -- intros [|b q]; [reflexivity|]. rewrite same_prefix_cons.
           destruct b; cbn [Bool.eqb andb]; rewrite !lookup_node_cons; [apply L|reflexivity].
        -- split; [cbn [length]; lia|]. intros [|b q]; [reflexivity|].
           rewrite !lookup_node_cons. destruct b; [apply L|reflexivity].
  - rewrite lookup_node_cons. destruct l as [|ll lr lv].
    + intros E. split; [intros H; destruct (path_of fuel (next c)); exfalso; apply H; reflexivity|].
      intros _. apply (grow_spec (S fuel) c) in E; [|simpl; now rewrite Hm|exact Ha|now rewrite Hm, Hd].
      cbn [path_of] in E. rewrite Hm, Hd in E. exact E.
    + destruct (insert_walk more dir next fuel (next c) value (Node ll lr lv) a)
        as [[t1 rc1] a1] eqn:E1. intros [= <- <- <-].
      apply IHl in E1 as [B O]; [|exact He|exact Ha|discriminate]. split.
      * intros H. destruct (B H) as (-> & -> & ->). auto.
      * intros H. destruct (O H) as [[-> L]|(-> & K & L)]; [left|right]; (split; [reflexivity|]).
        -- intros [|b q]; [reflexivity|]. rewrite same_prefix_cons.
           destruct b; cbn [Bool.eqb andb]; rewrite !lookup_node_cons; [reflexivity|apply L].
        -- split; [cbn [length]; lia|]. intros [|b q]; [reflexivity|].
           rewrite !lookup_node_cons. destruct b; [reflexivity|apply L].
Qed.

Lemma find_walk_spec c t d : longest_match (fun n => dirs n c) t d (find_walk dir next c t d).
Proof.
  revert c d; induction t as [|l IHl r IHr v]; intros c d; cbn [find_walk].
  - right. split; [reflexivity|]. intros [|n]; reflexivity.
  - set (d' := if negb (v =? NGX_RADIX_NO_VALUE) then v else d).
    assert (S : forall child, (if dir c then r else l) = child ->
      longest_match (fun n => dirs n (next c)) child d' (find_walk dir next (next c) child d') ->
      longest_match (fun n => dirs n c) (Node l r v) d (find_walk dir next (next c) child d')).
    { intros child <- [(n & L & N & M)|[E M]].
      - left. exists (S n). cbn [dirs]. rewrite lookup_node_cons. split; [exact L|].
        split; [exact N|]. intros [|m] Hm; [lia|]. cbn [dirs]. rewrite lookup_node_cons.
        apply M. lia.
      - subst d'. destruct (Z.eqb_spec v NGX_RADIX_NO_VALUE) as [->|N]; cbn [negb] in *.
        + right. split; [exact E|]. intros [|n]; [reflexivity|].
          cbn [dirs]. rewrite lookup_node_cons. apply M.
        + left. exists O. cbn [dirs lookup]. split; [congruence|]. split; [congruence|].
          intros [|m] Hm; [lia|]. cbn [dirs]. rewrite lookup_node_cons. apply M. }
    destruct (dir c); apply S; auto.
Qed.

(** Deletion below a node that has a parent never crashes; a node that is
    unlinked held no other value. *)
Lemma delete_walk_spec fuel root c t a res a' :
  ends fuel c -> delete_walk more dir next root c t a = (res, a') ->
  let p := path_of fuel c in
  match res with
  | DErr => lookup p t = NGX_RADIX_NO_VALUE
  | DKeep t' => forall q, lookup q t' =
      if same_prefix p q then NGX_RADIX_NO_VALUE else lookup q t
  | DGone => root = false /\ forall q, same_prefix p q = false -> lookup q t = NGX_RADIX_NO_VALUE
  | DCrash => root = true /\ p = [] /\ exists v, t = Node Null Null v
  end.
Proof.
  revert c root fuel res a'; induction t as [|l IHl r IHr v];
    intros c root fuel res a' He; cbn [delete_walk].
  - intros [= <- <-]. cbv zeta. now destruct (path_of fuel c).
  - destruct fuel as [|fuel]; cbn [ends path_of] in *; destruct (more c) eqn:Hm;
      try contradiction; cbv zeta.
    1, 3: destruct l as [|ll lr lv], r as [|rl rr rv]; cbn [is_node orb];
      [destruct root; intros [= <- <-]; [split; [reflexivity|eauto]|split; [reflexivity|]];
       intros [|[] [|? ?]] Hq; try reflexivity; discriminate Hq
      |..]; destruct (Z.eqb_spec v NGX_RADIX_NO_VALUE) as [->|N]; cbn [negb];
      intros [= <- <-]; try reflexivity; intros [|b q]; try reflexivity;
      now rewrite same_prefix_nil.
    destruct (dir c) eqn:Hd.
    + destruct (delete_walk more dir next false (next c) r a) as [res1 a1] eqn:E.
      apply (IHr _ _ fuel) in E; [|exact He].
      destruct res1 as [|t1| |].
      * intros [= <- <-]. exact E.
      * intros [= <- <-] [|b q]; [reflexivity|]. rewrite same_prefix_cons.
        destruct b; cbn [Bool.eqb andb]; rewrite !lookup_node_cons; [apply E|reflexivity].
      * destruct E as [_ E].
        destruct (is_node l || negb (v =? NGX_RADIX_NO_VALUE) || root)%bool eqn:K;
          intros [= <- <-].
        -- intros [|b q]; [reflexivity|]. rewrite same_prefix_cons, !lookup_node_cons.
           destruct b; cbn [Bool.eqb andb]; [|reflexivity].
           specialize (E q). destruct (same_prefix (path_of fuel (next c)) q);
             [now destruct q|]. rewrite E by reflexivity. now destruct q.
        -- apply orb_false_iff in K as [K ->]. apply orb_false_iff in K as [Kl Kv].
           destruct l; [|discriminate]. split; [reflexivity|].
           intros [|b q] Hq; [cbn [lookup]; lia|]. rewrite same_prefix_cons in Hq.
           rewrite lookup_node_cons. destruct b; [apply E, Hq|now destruct q].
      * destruct E as [E _]. discriminate.
    + destruct (delete_walk more dir next false (next c) l a) as [res1 a1] eqn:E.
      apply (IHl _ _ fuel) in E; [|exact He].
      destruct res1 as [|t1| |].
      * intros [= <- <-]. exact E.
      * intros [= <- <-] [|b q]; [reflexivity|]. rewrite same_prefix_cons.
        destruct b; cbn [Bool.eqb andb]; rewrite !lookup_node_cons; [reflexivity|apply E].
      * destruct E as [_ E].
        destruct (is_node r || negb (v =? NGX_RADIX_NO_VALUE) || root)%bool eqn:K;
          intros [= <- <-].
        -- intros [|b q]; [reflexivity|]. rewrite same_prefix_cons, !lookup_node_cons.
           destruct b; cbn [Bool.eqb andb]; [reflexivity|].
           specialize (E q). destruct (same_prefix (path_of fuel (next c)) q);
             [now destruct q|]. rewrite E by reflexivity. now destruct q.
        -- apply orb_false_iff in K as [K ->]. apply orb_false_iff in K as [Kl Kv].
           destruct r; [|discriminate]. split; [reflexivity|].
           intros [|b q] Hq; [cbn [lookup]; lia|]. rewrite same_prefix_cons in Hq.
           rewrite lookup_node_cons. destruct b; [now destruct q|apply E, Hq].
      * destruct E as [E _]. discriminate.
Qed.

End WalkFacts.

(** A cursor whose [i]-th position tests bit [i] of the mask and of the key. *)
Section Cursor.

Context {C : Type} (more dir : C -> bool) (next : C -> C) (at_ : nat -> C)
  (kbit : nat -> bool) (n : nat).

Hypothesis next_at : forall i, next (at_ i) = at_ (S i).
Hypothesis dir_at : forall i, dir (at_ i) = kbit i.
Hypothesis more_at : forall i, (i <= n)%nat -> more (at_ i) = (i <? n)%nat.

Lemma path_at i fuel :
  (i <= n)%nat -> (n - i < fuel)%nat ->
  ends more next fuel (at_ i) /\
  path_of more dir next fuel (at_ i) = map kbit (seq i (n - i)).
Proof.
  revert i; induction fuel as [|fuel IH]; intros i Hi Hf; [lia|].
  cbn [ends path_of]. rewrite more_at by assumption.
  destruct (Nat.ltb_spec i n).
  - rewrite next_at, dir_at. replace (n - i)%nat with (S (n - S i)) by lia.
    rewrite seq_S_map. destruct (IH (S i)) as [E ->]; [lia|lia|]. auto.
  - replace (n - i)%nat with O by lia. auto.
Qed.

Lemma dirs_at i m : dirs dir next m (at_ i) = map kbit (seq i m).
Proof.
  revert i; induction m as [|m IH]; intros i; [reflexivity|].
  cbn [dirs]. now rewrite dir_at, next_at, IH.
Qed.

End Cursor.

Definition at32 (i : nat) : Z := Z.shiftr 0x80000000 (Z.of_nat i).

Lemma at32_pow i : (i <= 31)%nat -> at32 i = 2 ^ (31 - Z.of_nat i).
Proof.
  intros H. unfold at32. change 0x80000000 with (2 ^ 31).
  rewrite Z.shiftr_div_pow2, <- Z.pow_sub_r by lia. reflexivity.
Qed.

Lemma at32_zero i : (32 <= i)%nat -> at32 i = 0.
Proof.
  intros H. unfold at32. rewrite Z.shiftr_div_pow2 by lia. apply Z.div_small.
  split; [lia|]. change 0x80000000 with (2 ^ 31). apply Z.pow_lt_mono_r; lia.
Qed.

Lemma next32_at i : next32 (at32 i) = at32 (S i).
Proof. unfold next32, at32. rewrite Z.shiftr_shiftr by lia. f_equal. lia. Qed.

Lemma dir32_at key i : dir32 key (at32 i) = Z.testbit key (31 - Z.of_nat i).
Proof.
  unfold dir32. destruct (Nat.leb_spec i 31).
  - rewrite at32_pow by assumption. apply land_pow2_test. lia.
  - rewrite at32_zero, Z.land_0_r, Z.testbit_neg_r by lia. reflexivity.
Qed.

Lemma mask32_bit n i : (n <= 32)%nat -> (i <= 31)%nat ->
  Z.testbit (mask32 n) (31 - Z.of_nat i) = (i <? n)%nat.
Proof.
  intros Hn Hi. unfold mask32.
  replace (2 ^ 32 - 2 ^ (32 - Z.of_nat n)) with
    (Z.shiftl (Z.ones (Z.of_nat n)) (32 - Z.of_nat n)).
  2:{ rewrite Z.shiftl_mul_pow2, Z.ones_equiv, <- Z.sub_1_r, Z.mul_sub_distr_r by lia.
      rewrite <- Z.pow_add_r by lia. replace (Z.of_nat n + (32 - Z.of_nat n)) with 32 by lia.
      lia. }
  rewrite Z.shiftl_spec by lia. destruct (Nat.ltb_spec i n).
  - rewrite Z.ones_spec_low by lia. reflexivity.
  - rewrite Z.testbit_neg_r by lia. reflexivity.
Qed.

Lemma more32_at n i : (n <= 32)%nat -> (i <= n)%nat ->
  more32 (mask32 n) (at32 i) = (i <? n)%nat.
Proof.
  intros Hn Hi. unfold more32. rewrite Z.land_comm. destruct (Nat.leb_spec i 31).
  - rewrite at32_pow, land_pow2_test, mask32_bit by lia. reflexivity.
  - rewrite at32_zero, Z.land_0_r by lia. symmetry. apply Nat.ltb_ge. lia.
Qed.

Definition at128 (i : nat) : nat * Z := ((i / 8)%nat, Z.shiftr 0x80 (Z.of_nat (i mod 8))).

Lemma at128_split a b : (b < 8)%nat -> at128 (8 * a + b) = (a, Z.shiftr 0x80 (Z.of_nat b)).
Proof.
  intros H. unfold at128. rewrite Nat.add_comm, Nat.mul_comm.
  rewrite Nat.div_add, Nat.Div0.mod_add by lia.
  rewrite Nat.div_small, Nat.mod_small by lia. reflexivity.
Qed.

Lemma split8 i : exists a b, (b < 8)%nat /\ i = (8 * a + b)%nat.
Proof.
  exists (i / 8)%nat, (i mod 8)%nat. split; [apply Nat.mod_upper_bound; lia|].
  apply Nat.div_mod_eq.
Qed.

Lemma bit_pow b : (b < 8)%nat -> Z.shiftr 0x80 (Z.of_nat b) = 2 ^ (7 - Z.of_nat b).
Proof.
  intros H. change 0x80 with (2 ^ 7). rewrite Z.shiftr_div_pow2, <- Z.pow_sub_r by lia.
  reflexivity.
Qed.

Lemma next128_at i : next128 (at128 i) = at128 (S i).
Proof.
  destruct (split8 i) as (a & b & Hb & ->). rewrite at128_split by assumption.
  unfold next128. rewrite Z.shiftr_shiftr by lia.
  destruct (Nat.eqb_spec b 7) as [->|N].
  - replace (S (8 * a + 7)) with (8 * S a + 0)%nat by lia.
    rewrite at128_split by lia. reflexivity.
  - replace (S (8 * a + b)) with (8 * a + S b)%nat by lia.
    rewrite at128_split by lia. replace (Z.of_nat b + 1) with (Z.of_nat (S b)) by lia.
    rewrite bit_pow by lia. pose proof (Z.pow_pos_nonneg 2 (7 - Z.of_nat (S b))).
    destruct (Z.eqb_spec (2 ^ (7 - Z.of_nat (S b))) 0); [lia|reflexivity].
Qed.

Lemma dir128_at key i : dir128 key (at128 i) = bit128 key i.
Proof.
  unfold dir128, at128, bit128. pose proof (Nat.mod_upper_bound i 8).
  rewrite bit_pow by lia. apply land_pow2_test. lia.
Qed.

Lemma more128_at n mask i : mask128 n mask -> (n <= 128)%nat -> (i <= n)%nat ->
  more128 mask (at128 i) = (i <? n)%nat.
Proof.
  intros Hm Hn Hi. pose proof (dir128_at mask i) as D.
  unfold more128, dir128, at128 in *. rewrite Z.land_comm, D. clear D.
  destruct (Nat.ltb_spec i 128) as [L|L].
  - rewrite Hm by assumption.
    replace (i / 8 <? 16)%nat with true; [reflexivity|].
    symmetry. apply Nat.ltb_lt. apply Nat.Div0.div_lt_upper_bound. lia.
  - replace (i / 8 <? 16)%nat with false; [symmetry; apply Nat.ltb_ge; lia|].
    symmetry. apply Nat.ltb_ge. apply Nat.div_le_lower_bound; lia.
Qed.

Lemma path32 n key :
  (n <= 32)%nat ->
  ends (more32 (mask32 n)) next32 33 0x80000000
  /\ path_of (more32 (mask32 n)) (dir32 key) next32 33 0x80000000 = bits32 key n.
Proof.
  intros Hn.
  destruct (path_at (more32 (mask32 n)) (dir32 key) next32 at32
    (fun i => Z.testbit key (31 - Z.of_nat i)) n next32_at (dir32_at key)
    (fun i => more32_at n i Hn) 0 33) as [E P]; [lia|lia|].
  rewrite Nat.sub_0_r in P. auto.
Qed.

Lemma path128 n key mask :
  mask128 n mask -> (n <= 128)%nat ->
  ends (more128 mask) next128 129 (O, 0x80)
  /\ path_of (more128 mask) (dir128 key) next128 129 (O, 0x80) = bits128 key n.
Proof.
  intros Hm Hn.
  destruct (path_at (more128 mask) (dir128 key) next128 at128 (bit128 key) n
    next128_at (dir128_at key) (fun i => more128_at n mask i Hm Hn) 0 129) as [E P];
    [lia|lia|].
  rewrite Nat.sub_0_r in P. auto.
Qed.

(** A tree as the operations keep it: a root node and a sane allocator. *)
Definition wf_tree (tree : radix_tree) : Prop :=
  rt_root tree <> Null /\ 0 <= as_size (rt_alloc tree).

Lemma insert_generic {C} (more dir : C -> bool) (next : C -> C) fuel c value tree p :
  ends more next fuel c -> path_of more dir next fuel c = p -> wf_tree tree ->
  insert_spec p value tree
    (let '(r, rc, a) := insert_walk more dir next fuel c value (rt_root tree) (rt_alloc tree) in
     (rc, RT r a)).
Proof.
  intros He <- [Hr Ha].
  destruct (insert_walk more dir next fuel c value (rt_root tree) (rt_alloc tree))
    as [[r rc] a] eqn:E.
  apply insert_walk_spec in E as [B O]; try assumption. split; [|exact O].
  intros H. destruct (B H) as (-> & -> & ->). now destruct tree.
Qed.

Lemma delete_generic {C} (more dir : C -> bool) (next : C -> C) fuel c tree p :
  ends more next fuel c -> path_of more dir next fuel c = p ->
  delete_spec p tree
    (match delete_walk more dir next true c (rt_root tree) (rt_alloc tree) with
     | (DErr, _) => Some (NGX_ERROR, tree)
     | (DKeep r, a) => Some (NGX_OK, RT r a)
     | (_, _) => None
     end).
Proof.
  intros He <-.
  destruct (delete_walk more dir next true c (rt_root tree) (rt_alloc tree)) as [res a] eqn:E.
  apply (delete_walk_spec more dir next fuel) in E; [|exact He].
  destruct res as [|t| |]; cbn [delete_spec].
  - left. auto.
  - right. auto.
  - destruct E as [E _]. discriminate.
  - tauto.
Qed.

(** *** Creation *)

Definition empty_tree (tree : radix_tree) : Prop :=
  wf_tree tree /\ forall p, lookup p (rt_root tree) = NGX_RADIX_NO_VALUE.

Lemma ends32 mask i fuel :
  (i <= 32)%nat -> (32 - i < fuel)%nat -> ends (more32 mask) next32 fuel (at32 i).
Proof.
  revert i; induction fuel as [|fuel IH]; intros i Hi Hf; [lia|]. cbn [ends].
  destruct (Nat.eqb_spec i 32) as [->|N].
  - unfold more32. rewrite at32_zero by lia. reflexivity.
  - case_if; [|exact I]. rewrite next32_at. apply IH; lia.
Qed.

Lemma insert_walk_node {C} (more dir : C -> bool) (next : C -> C) fuel c value t a t' rc a' :
  t <> Null -> 0 <= as_size a ->
  insert_walk more dir next fuel c value t a = (t', rc, a') ->
  t' <> Null /\ 0 <= as_size a'.
Proof.
  revert c fuel t' rc a'; induction t as [|l IHl r IHr v]; intros c fuel t' rc a' Ht Ha;
    [congruence|]. cbn [insert_walk].
  assert (G : forall fuel c t' rc a', grow more dir next fuel c value l r v a = (t', rc, a') ->
    t' <> Null).
  { intros f c0 t0 rc0 a0. destruct f; cbn [grow]; destruct (more c0);
      try (intros [= <- _ _]; discriminate).
    destruct (ngx_radix_alloc a); [|intros [= <- _ _]; discriminate].
    destruct (grow _ _ _ _ _ _ _ _ _ _) as [[? ?] ?].
    intros [= <- _ _]. destruct (dir c0); discriminate. }
  destruct (more c).
  - destruct (dir c).
    + destruct r as [|rl rr rv]; [intros E; split; [eapply G; exact E|eapply grow_size; eassumption]|].
      destruct (insert_walk _ _ _ _ _ _ _ _) as [[t1 rc1] a1] eqn:E.
      apply IHr in E as [_ ?]; [|discriminate|exact Ha].
      intros [= <- _ <-]. split; [discriminate|assumption].
    + destruct l as [|ll lr lv]; [intros E; split; [eapply G; exact E|eapply grow_size; eassumption]|].
      destruct (insert_walk _ _ _ _ _ _ _ _) as [[t1 rc1] a1] eqn:E.
      apply IHl in E as [_ ?]; [|discriminate|exact Ha].
      intros [= <- _ <-]. split; [discriminate|assumption].
  - case_if; intros [= <- _ <-]; split; try discriminate; assumption.
Qed.

Lemma insert_empty tree key mask rc tree' :
  empty_tree tree ->
  ngx_radix32tree_insert tree key mask NGX_RADIX_NO_VALUE = (rc, tree') -> empty_tree tree'.
Proof.
  intros [[Hr Ha] He]. unfold ngx_radix32tree_insert.
  destruct (insert_walk _ _ _ _ _ _ _ _) as [[t1 rc1] a1] eqn:E. intros [= <- <-].
  split; [eapply insert_walk_node; eassumption|].
  apply insert_walk_spec in E as [_ O]; try assumption.
  2:{ change 0x80000000 with (at32 0). apply ends32; lia. }
  destruct O as [[_ L]|(_ & _ & L)]; [apply He| |]; intros p; cbn [rt_root];
    rewrite L, He; [now destruct (same_prefix _ p)|reflexivity].
Qed.

Lemma create_level_empty fuel tree key mask inc tree' :
  empty_tree tree -> create_level fuel tree key mask inc = Some tree' -> empty_tree tree'.
Proof.
  revert tree key; induction fuel as [|fuel IH]; intros tree key He; [discriminate|].
  cbn [create_level].
  destruct (ngx_radix32tree_insert _ _ _ _) as [rc t1] eqn:E.
  apply insert_empty in E; [|exact He].
  case_if; [discriminate|]. cbv zeta. case_if; [now intros [= <-]|]. apply IH, E.
Qed.

Lemma create_levels_empty n tree mask inc tree' :
  empty_tree tree -> create_levels n tree mask inc = Some tree' -> empty_tree tree'.
Proof.
  revert tree mask inc; induction n as [|n IH]; intros tree mask inc He;
    cbn [create_levels]; [now intros [= <-]|].
  destruct (create_level _ _ _ _ _) as [t1|] eqn:E; [|discriminate].
  apply create_level_empty in E; [|exact He]. apply IH, E.
Qed.

(** *** Depth *)

Section Depth.

(** A cursor that the masks stop at its position [n]. *)
Context {C : Type} (more dir : C -> bool) (next : C -> C) (at_ : nat -> C) (n : nat).

Hypothesis next_at : forall i, next (at_ i) = at_ (S i).
Hypothesis more_at : forall i, more (at_ i) = true -> (i < n)%nat.

Lemma grow_height fuel i value l r v a t rc a' :
  (i <= n)%nat -> (height l <= n - i)%nat -> (height r <= n - i)%nat ->
  grow more dir next fuel (at_ i) value l r v a = (t, rc, a') -> (height t <= S (n - i))%nat.
Proof.
  revert i l r v a t rc a'; induction fuel as [|fuel IH]; intros i l r v a t rc a' Hi Hl Hr;
    cbn [grow]; destruct (more (at_ i)) eqn:Hm;
    try (intros [= <- _ _]; cbn [height]; lia).
  apply more_at in Hm. destruct (ngx_radix_alloc a) as [a1|]; [|intros [= <- _ _]; cbn [height]; lia].
  rewrite next_at. destruct (grow _ _ _ _ _ _ _ _ _ _) as [[child rc1] a2] eqn:E.
  apply IH in E; [|lia|cbn; lia|cbn; lia].
  intros [= <- _ _]. destruct (dir (at_ i)); cbn [height]; lia.
Qed.

Lemma insert_height fuel i value t a t' rc a' :
  (i <= n)%nat -> (height t <= S (n - i))%nat ->
  insert_walk more dir next fuel (at_ i) value t a = (t', rc, a') -> (height t' <= S (n - i))%nat.
Proof.
  revert fuel i t' rc a'; induction t as [|l IHl r IHr v]; intros fuel i t' rc a' Hi Ht;
    cbn [insert_walk height] in *; [intros [= <- _ _]; cbn; lia|].
  destruct (more (at_ i)) eqn:Hm; [|case_if; intros [= <- _ _]; cbn [height]; lia].
  apply more_at in Hm.
  assert (G : forall res, grow more dir next fuel (at_ i) value l r v a = res ->
    (height (fst (fst res)) <= S (n - i))%nat).
  { intros [[t0 rc0] a0] E. apply grow_height in E; cbn [fst]; lia. }
  rewrite next_at. destruct (dir (at_ i)).
  - destruct r as [|rl rr rv]; [intros E; apply G in E; exact E|].
    destruct (insert_walk _ _ _ _ _ _ _ _) as [[t1 rc1] a1] eqn:E.
    apply IHr in E; [|lia|lia]. intros [= <- _ _]. cbn [height] in *. lia.
  - destruct l as [|ll lr lv]; [intros E; apply G in E; exact E|].
    destruct (insert_walk _ _ _ _ _ _ _ _) as [[t1 rc1] a1] eqn:E.
    apply IHl in E; [|lia|lia]. intros [= <- _ _]. cbn [height] in *. lia.
Qed.

(** Two keys with the same bits lead to the same place. *)
Lemma find_same (dir' : C -> bool) i t value :
  (forall j, (j < n)%nat -> dir (at_ j) = dir' (at_ j)) -> (i <= n)%nat -> (height t <= S (n - i))%nat ->
  find_walk dir next (at_ i) t value = find_walk dir' next (at_ i) t value.
Proof.
  intros Hd. revert i value; induction t as [|l IHl r IHr v]; intros i value Hi Ht; [reflexivity|].
  cbn [find_walk height] in *. rewrite next_at. destruct (Nat.eq_dec i n) as [->|N].
  - destruct l as [|? ? ?], r as [|? ? ?]; cbn [height] in Ht; try lia.
    cbn [find_walk]. now destruct (dir (at_ n)), (dir' (at_ n)).
  - rewrite (Hd i) by lia. destruct (dir' (at_ i)); [apply IHr|apply IHl]; lia.
Qed.

End Depth.

Lemma delete_height {C} (more dir : C -> bool) (next : C -> C) root c t a t' a' :
  delete_walk more dir next root c t a = (DKeep t', a') -> (height t' <= height t)%nat.
Proof.
  revert root c t' a'; induction t as [|l IHl r IHr v]; intros root c t' a'; cbn [delete_walk height];
    [discriminate|].
  destruct (more c).
  - destruct (dir c).
    + destruct (delete_walk _ _ _ _ _ r a) as [[|t1| |] a1] eqn:E; try discriminate.
      * apply IHr in E. intros [= <- _]. cbn [height]. lia.
      * case_if; [|discriminate]. intros [= <- _]. cbn [height]. lia.
    + destruct (delete_walk _ _ _ _ _ l a) as [[|t1| |] a1] eqn:E; try discriminate.
      * apply IHl in E. intros [= <- _]. cbn [height]. lia.
      * case_if; [|discriminate]. intros [= <- _]. cbn [height]. lia.
  - case_if; [|case_if; discriminate]. case_if; [|discriminate]. intros [= <- _]. cbn [height]. lia.
Qed.

Lemma more32_stops mask i : more32 mask (at32 i) = true -> (i < 32)%nat.
Proof.
  unfold more32. intros H. destruct (Nat.ltb_spec i 32); [assumption|].
  now rewrite at32_zero in H by lia.
Qed.

Lemma more128_stops mask i : more128 mask (at128 i) = true -> (i < 128)%nat.
Proof.
  unfold more128, at128. intros H. apply andb_prop in H as [H _]. apply Nat.ltb_lt in H.
  destruct (Nat.ltb_spec i 128); [assumption|].
  pose proof (Nat.div_le_lower_bound i 8 16). lia.
Qed.

Definition low (depth : nat) (tree : radix_tree) : Prop := (height (rt_root tree) <= S depth)%nat.

Lemma insert32_low tree key mask value :
  low 32 tree -> low 32 (snd (ngx_radix32tree_insert tree key mask value)).
Proof.
  unfold low, ngx_radix32tree_insert. intros H.
  destruct (insert_walk _ _ _ _ _ _ _ _) as [[t rc] a] eqn:E. cbn [snd rt_root].
  apply (insert_height _ _ _ at32 32 next32_at (more32_stops mask) 33 0) in E; lia.
Qed.

Lemma create_level_low fuel tree key mask inc tree' :
  low 32 tree -> create_level fuel tree key mask inc = Some tree' -> low 32 tree'.
Proof.
  revert tree key; induction fuel as [|fuel IH]; intros tree key H; [discriminate|].
  cbn [create_level]. pose proof (insert32_low tree key mask NGX_RADIX_NO_VALUE H) as Hi.
  destruct (ngx_radix32tree_insert _ _ _ _) as [rc t1]. cbn [snd] in Hi.
  case_if; [discriminate|]. cbv zeta. case_if; [now intros [= <-]|]. now apply IH.
Qed.

Lemma create_levels_low n tree mask inc tree' :
  low 32 tree -> create_levels n tree mask inc = Some tree' -> low 32 tree'.
Proof.
  revert tree mask inc; induction n as [|n IH]; intros tree mask inc H;
    cbn [create_levels]; [now intros [= <-]|].
  destruct (create_level _ _ _ _ _) as [t1|] eqn:E; [|discriminate].
  apply create_level_low in E; [|exact H]. apply IH, E.
Qed.

Lemma create_low pages preallocate tree : ngx_radix_tree_create pages preallocate = Some tree -> low 32 tree.
Proof.
  unfold ngx_radix_tree_create. destruct (ngx_radix_alloc _) as [a|]; [|discriminate]. cbv zeta.
  assert (H : low 32 (RT (Node Null Null NGX_RADIX_NO_VALUE) a)) by (unfold low; cbn; lia).
  case_if; [now intros [= <-]|]. now apply create_levels_low.
Qed.

Lemma built128_low tree : built128 tree -> low 128 tree.
Proof.
  induction 1 as [pages pre tree E|tree key mask value _ IH|tree key mask rc tree' _ IH E].
  - apply create_low in E. unfold low in *. lia.
  - unfold low, ngx_radix128tree_insert in *.
    destruct (insert_walk _ _ _ _ _ _ _ _) as [[t rc] a] eqn:E. cbn [snd rt_root].
    change (O, 0x80) with (at128 0) in E.
    apply (insert_height _ _ _ at128 128 next128_at (more128_stops mask) 129 0) in E; lia.
  - unfold ngx_radix128tree_delete in E. unfold low in *.
    destruct (delete_walk _ _ _ _ _ _ _) as [[|t| |] a] eqn:D; try discriminate; injection E as _ <-.
    + exact IH.
    + apply delete_height in D. cbn [rt_root]. lia.
Qed.

Lemma bit128_first key key' i : firstn 16 key = firstn 16 key' -> (i < 128)%nat -> bit128 key i = bit128 key' i.
Proof.
  intros H Hi. assert (Hb : (i / 8 < 16)%nat) by (apply Nat.Div0.div_lt_upper_bound; lia).
  assert (N : forall k : list Z, nth (i / 8) k 0 = nth (i / 8) (firstn 16 k) 0).
  { intros k. rewrite nth_firstn. apply Nat.ltb_lt in Hb. now rewrite Hb. }
  unfold bit128. now rewrite (N key), (N key'), H.
Qed.

(** ** Properties *)

(** Insertion into a prefix tree: a prefix that has a value is left alone
    with [NGX_BUSY]; otherwise the tree afterwards maps that prefix to the value
    and every other prefix as before, or, when the allocator cannot supply a
    node per bit, the call fails and every prefix keeps its value. *)
Theorem radix_insert_correct tree value :
  wf_tree tree ->
  (forall key n, (n <= 32)%nat ->
    insert_spec (bits32 key n) value tree
      (ngx_radix32tree_insert tree key (mask32 n) value))
  /\ (forall key mask n, mask128 n mask -> (n <= 128)%nat ->
    insert_spec (bits128 key n) value tree
      (ngx_radix128tree_insert tree key mask value)).
Proof.
  intros Hw. split.
  - intros key n Hn. destruct (path32 n key Hn). now apply insert_generic.
  - intros key mask n Hm Hn. destruct (path128 n key mask Hm Hn). now apply insert_generic.
Qed.

Example radix_insert_correct_witness :
  insert_spec (bits32 0x0a000000 8) 7 (RT (Node Null Null NGX_RADIX_NO_VALUE) (AS 0 4096 0))
    (ngx_radix32tree_insert (RT (Node Null Null NGX_RADIX_NO_VALUE) (AS 0 4096 0))
       0x0a000000 0xff000000 7).
Proof.
  refine (proj1 (radix_insert_correct
    (RT (Node Null Null NGX_RADIX_NO_VALUE) (AS 0 4096 0)) 7 _) 0x0a000000 8%nat _).
  - split; cbn; [discriminate|lia].
  - lia.
Defined.

(** C37. Lookup is longest-prefix match: the value returned is that of the
    longest prefix of the key that has one, or [NGX_RADIX_NO_VALUE].  The lookup
    of a 128-bit key reads the byte after the key when it comes to a node of the
    last level; in the trees that are made by creation, insertion and deletion
    that byte makes no difference: keys with the same 16 bytes have the same
    value. *)
Theorem radix_find_longest tree :
  (forall key, longest_match (bits32 key) (rt_root tree) NGX_RADIX_NO_VALUE
                 (ngx_radix32tree_find tree key))
  /\ (forall key, longest_match (bits128 key) (rt_root tree) NGX_RADIX_NO_VALUE
                 (ngx_radix128tree_find tree key))
  /\ (built128 tree -> forall key key', firstn 16 key = firstn 16 key' ->
        ngx_radix128tree_find tree key = ngx_radix128tree_find tree key').
Proof.
  split; [|split]; [intros key|intros key|].
  - pose proof (find_walk_spec (dir32 key) next32 0x80000000 (rt_root tree)
      NGX_RADIX_NO_VALUE) as [(m & L & N & M)|[E M]]; [left; exists m|right];
      change 0x80000000 with (at32 0) in *;
      setoid_rewrite (dirs_at _ _ at32 _ next32_at (dir32_at key)) in M;
      [rewrite (dirs_at _ _ at32 _ next32_at (dir32_at key)) in L|]; auto.
  - pose proof (find_walk_spec (dir128 key) next128 (O, 0x80) (rt_root tree)
      NGX_RADIX_NO_VALUE) as [(m & L & N & M)|[E M]]; [left; exists m|right];
      change (O, 0x80) with (at128 0) in *;
      setoid_rewrite (dirs_at _ _ at128 _ next128_at (dir128_at key)) in M;
      [rewrite (dirs_at _ _ at128 _ next128_at (dir128_at key)) in L|]; auto.
  - intros Hb key key' Hk. unfold ngx_radix128tree_find. change (O, 0x80) with (at128 0).
    apply built128_low in Hb. apply (find_same _ _ at128 128 next128_at); [|lia|exact Hb].
    intros j Hj. rewrite !dir128_at. now apply bit128_first.
Qed.

(** The prefix of all 128 bits, and two bytes that may follow the key. *)
Example radix_find_longest_witness :
  let key := repeat 0x55 16 in
  exists tree, built128 tree /\ ngx_radix128tree_find tree (key ++ [0]) = 7
    /\ ngx_radix128tree_find tree (key ++ [0]) = ngx_radix128tree_find tree (key ++ [255]).
Proof.
  intros key.
  set (tree := snd (ngx_radix128tree_insert (RT (Node Null Null NGX_RADIX_NO_VALUE) (AS 0 4064 1))
                      key (repeat 0xff 16) 7)).
  assert (Hb : built128 tree) by (apply built_insert; exact (built_create 2 0 _ eq_refl)).
  exists tree. split; [exact Hb|]. split; [vm_compute; reflexivity|].
  apply (proj2 (proj2 (radix_find_longest tree)) Hb). reflexivity.
Defined.

(** C38. Deletion from a prefix tree: success unsets exactly that prefix, an
    error leaves the tree untouched and means the prefix had no value; the only
    unsafe call is the deletion of the empty prefix from a tree that is a lone
    root, which dereferences the root's NULL parent. *)
Theorem radix_delete_correct tree :
  (forall key n, (n <= 32)%nat ->
    delete_spec (bits32 key n) tree (ngx_radix32tree_delete tree key (mask32 n)))
  /\ (forall key mask n, mask128 n mask -> (n <= 128)%nat ->
    delete_spec (bits128 key n) tree (ngx_radix128tree_delete tree key mask))
  /\ (forall v a key, ngx_radix32tree_delete (RT (Node Null Null v) a) key 0 = None).
Proof.
  split; [|split; [|reflexivity]].
  - intros key n Hn. destruct (path32 n key Hn). now apply (delete_generic _ _ _ 33).
  - intros key mask n Hm Hn. destruct (path128 n key mask Hm Hn).
    now apply (delete_generic _ _ _ 129).
Qed.

Example radix_delete_correct_witness :
  delete_spec (bits32 0x80000000 1)
    (RT (Node Null (Node Null Null 5) NGX_RADIX_NO_VALUE) (AS 0 0 0))
    (ngx_radix32tree_delete
      (RT (Node Null (Node Null Null 5) NGX_RADIX_NO_VALUE) (AS 0 0 0)) 0x80000000 0x80000000).
Proof.
  refine (proj1 (radix_delete_correct
    (RT (Node Null (Node Null Null 5) NGX_RADIX_NO_VALUE) (AS 0 0 0))) 0x80000000 1%nat _).
  lia.
Defined.

(** A created tree is empty whatever was preallocated: its root is a node and
    no prefix has a value, so every lookup finds nothing; the default
    preallocation (six levels) fits the single page the allocator asks for. *)
Theorem radix_create_empty pages preallocate tree :
  ngx_radix_tree_create pages preallocate = Some tree ->
  empty_tree tree
  /\ (forall key, ngx_radix32tree_find tree key = NGX_RADIX_NO_VALUE)
  /\ ngx_radix_tree_create 1 (-1) <> None.
Proof.
  intros H.
  assert (He : empty_tree tree).
  { unfold ngx_radix_tree_create in H.
    pose proof (capacity_alloc (AS 0 0 pages) ltac:(cbn; lia)) as Cap.
    destruct (ngx_radix_alloc (AS 0 0 pages)) as [a|]; [|discriminate].
    assert (E0 : empty_tree (RT (Node Null Null NGX_RADIX_NO_VALUE) a)).
    { split; [split; [discriminate|tauto]|]. intros [|[] [|? ?]]; reflexivity. }
    cbv zeta in H. case_if_in H; [now injection H as <-|].
    eapply create_levels_empty; eassumption. }
  split; [exact He|]. split; [|vm_compute; discriminate].
  intros key. destruct He as [_ He].
  destruct (find_walk_spec (dir32 key) next32 0x80000000 (rt_root tree) NGX_RADIX_NO_VALUE)
    as [(m & L & N & _)|[E _]]; [|exact E].
  rewrite He in L. congruence.
Qed.

Example radix_create_empty_witness :
  ngx_radix32tree_find (RT (Node Null Null NGX_RADIX_NO_VALUE) (AS 0 4064 1)) 0x0a000001
  = NGX_RADIX_NO_VALUE.
Proof.
  exact (proj1 (proj2 (radix_create_empty 2 0
    (RT (Node Null Null NGX_RADIX_NO_VALUE) (AS 0 4064 1)) eq_refl)) 0x0a000001).
Defined.

End Radix.
