(* ===== verification/Sprintf.v ===== *)
(** * Sprintf: the formatted output of src/core/ngx_string.c

    [ngx_vslprintf] with its helpers, over a format string, a list of variadic
    arguments and the room between [buf] and [last].  The bytes written are
    returned.  [None] is what the C code leaves undefined (an argument that is
    missing or of the wrong kind, a read past the bytes given) and the floating
    point conversion [%f], which is not modelled. *)

From S2P Require Import Prelude NgxNum.

Module Sprintf.

(** ** Definitions *)

Definition NGX_INT64_LEN : nat := 20.
Abbreviation NGX_INT_T_LEN := 20%nat.
Abbreviation NGX_ATOMIC_T_LEN := 20%nat.
Abbreviation NGX_MAX_UINT32_VALUE := 0xffffffff.

Definition hex_lower : list Z := bs "0123456789abcdef".
Definition hex_upper : list Z := bs "0123456789ABCDEF".

(** [do *--p = ui % 10 + '0'; while (ui /= 10);] -- [p] moves down, so each
    digit is put in front. *)
Fixpoint dec_text (fuel : nat) (ui : Z) (p : list Z) : list Z :=
  match fuel with
  | O => p
  | S fuel' =>
      let p := u8 (ui mod 10 + "0"%chr) :: p in
      let ui := ui / 10 in
      if ui =? 0 then p else dec_text fuel' ui p
  end.

Fixpoint hex_text (table : list Z) (fuel : nat) (ui : Z) (p : list Z) : list Z :=
  match fuel with
  | O => p
  | S fuel' =>
      let p := tbl table (Z.land ui 0xf) :: p in
      let ui := Z.shiftr ui 4 in
      if ui =? 0 then p else hex_text table fuel' ui p
  end.

(** The contents of [temp] from [p]. *)
Definition num_text (ui64 : Z) (hexadecimal : Z) : list Z :=
  if hexadecimal =? 0 then
    if ui64 <=? NGX_MAX_UINT32_VALUE
    then dec_text NGX_INT64_LEN (u32 ui64) []
    else dec_text NGX_INT64_LEN ui64 []
  else if hexadecimal =? 1 then hex_text hex_lower NGX_INT64_LEN ui64 []
  else hex_text hex_upper NGX_INT64_LEN ui64 [].

Definition ngx_sprintf_num (room : nat) (ui64 zero hexadecimal : Z) (width : nat)
  : list Z :=
  let p := num_text ui64 hexadecimal in
  let pad := Nat.min (width - length p) room in
  repeat zero pad ++ firstn (room - pad) p.

(** A NUL-terminated copy, plain or two hexadecimal digits a byte. *)
Fixpoint cstr (src : list Z) : list Z :=
  match src with
  | [] => []
  | c :: t => if c =? 0 then [] else c :: cstr t
  end.

Fixpoint hex_copy (table : list Z) (room : nat) (src : list Z) : list Z :=
  match src, room with
  | c :: t, S (S room') =>
      tbl table (Z.shiftr c 4) :: tbl table (Z.land c 0xf) :: hex_copy table room' t
  | _, _ => []
  end.

(** [len] is [None] for [(size_t) -1]. *)
Definition ngx_sprintf_str (room : nat) (src : list Z) (len : option nat)
    (hexadecimal : Z) : option (list Z) :=
  let bytes := match len with
               | None => Some (cstr src)
               | Some n => if (n <=? length src)%nat then Some (firstn n src) else None
               end in
  match bytes with
  | None => None
  | Some b =>
      Some (if hexadecimal =? 0 then firstn room b
            else if hexadecimal =? 1 then hex_copy hex_lower room b
            else hex_copy hex_upper room b)
  end.

(** A variadic argument: an integer or pointer value, a string. *)
Inductive arg : Set := AInt (z : Z) | AStr (s : list Z).

(** The state of one conversion specification. *)
Record conv : Set := Conv {
  cv_zero : Z; cv_width : nat; cv_sign : bool; cv_hex : Z; cv_max_width : bool;
  cv_frac_width : nat; cv_slen : option nat }.

(** A run of decimal digits of the format. *)
Fixpoint fmt_number (n : nat) (fmt : list Z) : nat * list Z :=
  match fmt with
  | c :: t =>
      if (("0"%chr <=? c) && (c <=? "9"%chr))%bool
      then fmt_number (n * 10 + Z.to_nat (c - "0"%chr)) t
      else (n, fmt)
  | [] => (n, [])
  end.

(** The [for ( ;; )] loop over the flags. *)
Fixpoint fmt_flags (cv : conv) (fmt : list Z) (args : list arg)
  : option (conv * list Z * list arg) :=
  let '(Conv z w s h m f l) := cv in
  match fmt with
  | c :: t =>
      if c =? "u"%chr then fmt_flags (Conv z w false h m f l) t args
      else if c =? "m"%chr then fmt_flags (Conv z w s h true f l) t args
      else if c =? "X"%chr then fmt_flags (Conv z w false 2 m f l) t args
      else if c =? "x"%chr then fmt_flags (Conv z w false 1 m f l) t args
      else if c =? "."%chr then
        let '(f', t') := fmt_number f t in Some (Conv z w s h m f' l, t', args)
      else if c =? "*"%chr then
        match args with
        | AInt n :: args' =>
            fmt_flags (Conv z w s h m f
              (if u64 n =? 18446744073709551615 then None else Some (Z.to_nat (u64 n)))) t args'
        | _ => None
        end
      else Some (cv, fmt, args)
  | [] => Some (cv, fmt, args)
  end.

(** What a conversion letter asks for: a string, a number with its signed and
    unsigned value, a byte written as it is, or nothing that is defined. *)
Inductive request : Set :=
| RStr (s : list Z) (len : option nat)
| RNum (signed : bool) (i64 ui64 : Z) (zero hexadecimal : Z) (width : nat)
| RByte (b : Z)
| RUndef.

Definition s32 (z : Z) : Z := (z + 2 ^ 31) mod 2 ^ 32 - 2 ^ 31.

(** An integer argument of [w] bits, signed or not. *)
Definition int_arg (cv : conv) (width : nat) (as_signed as_unsigned : Z -> Z) (a : arg)
  : request :=
  match a with
  | AInt z =>
      if cv_sign cv then RNum true (as_signed z) 0 (cv_zero cv) (cv_hex cv) width
      else RNum false 0 (as_unsigned z) (cv_zero cv) (cv_hex cv) width
  | AStr _ => RUndef
  end.

(** The second [switch], for the letters that take an argument. *)
Definition fmt_arg (c : Z) (cv : conv) (a : arg) : request :=
  let signed_ z := RNum true z 0 (cv_zero cv) (cv_hex cv) (cv_width cv) in
  if ((c =? "V"%chr) || (c =? "v"%chr))%bool then
    match a with AStr s => RStr s (Some (length s)) | AInt _ => RUndef end
  else if c =? "s"%chr then
    match a with AStr s => RStr s (cv_slen cv) | AInt _ => RUndef end
  else if ((c =? "O"%chr) || (c =? "T"%chr) || (c =? "r"%chr))%bool then
    match a with AInt z => signed_ (s64 z) | AStr _ => RUndef end
  else if c =? "P"%chr then
    match a with AInt z => signed_ (s32 z) | AStr _ => RUndef end
  else if c =? "M"%chr then
    match a with
    | AInt z =>
        if s64 z =? -1 then signed_ (-1)
        else RNum false 0 (u64 z) (cv_zero cv) (cv_hex cv) (cv_width cv)
    | AStr _ => RUndef
    end
  else if ((c =? "z"%chr) || (c =? "l"%chr) || (c =? "L"%chr))%bool then
    int_arg cv (cv_width cv) s64 u64 a
  else if c =? "i"%chr then
    int_arg cv (if cv_max_width cv then NGX_INT_T_LEN else cv_width cv) s64 u64 a
  else if c =? "A"%chr then
    int_arg cv (if cv_max_width cv then NGX_ATOMIC_T_LEN else cv_width cv) s64 u64 a
  else if ((c =? "d"%chr) || (c =? "D"%chr))%bool then
    int_arg cv (cv_width cv) s32 u32 a
  else if c =? "p"%chr then
    match a with AInt z => RNum false 0 (u64 z) "0"%chr 2 16 | AStr _ => RUndef end
  else if c =? "c"%chr then
    match a with AInt z => RByte (Z.land z 0xff) | AStr _ => RUndef end
  else RUndef.

Definition takes_arg (c : Z) : bool :=
  existsb (Z.eqb c) (bs "VvsOTrPMzlLiAdDpcf").

(** The letters without an argument. *)
Definition fmt_plain (c : Z) : request :=
  if c =? "Z"%chr then RByte 0
  else if c =? "N"%chr then RByte LF
  else if c =? "%"%chr then RByte "%"%chr
  else RByte c.

Definition request_of (c : Z) (cv : conv) (args : list arg) : request * list arg :=
  if takes_arg c then
    match args with
    | a :: args' => (fmt_arg c cv a, args')
    | [] => (RUndef, [])
    end
  else (fmt_plain c, args).

(** The bytes one request writes, [room] being at least 1. *)
Definition fulfil (room : nat) (cv : conv) (r : request) : option (list Z) :=
  match r with
  | RUndef => None
  | RByte b => Some [b]
  | RStr s len => ngx_sprintf_str room s len (cv_hex cv)
  | RNum true i64 _ zero h width =>
      if i64 <? 0
      then Some ("-"%chr :: ngx_sprintf_num (room - 1) (u64 (- i64)) zero h width)
      else Some (ngx_sprintf_num room (u64 i64) zero h width)
  | RNum false _ ui64 zero h width => Some (ngx_sprintf_num room ui64 zero h width)
  end.

(** The conversion after the percent sign: bytes, format and arguments left. *)
Definition fmt_conv (room : nat) (fmt : list Z) (args : list arg)
  : option (list Z * list Z * list arg) :=
  let zero := if hd0 fmt =? "0"%chr then "0"%chr else " "%chr in
  let '(width, fmt1) := fmt_number 0 fmt in
  match fmt_flags (Conv zero width true 0 false 0 None) fmt1 args with
  | None => None
  | Some (cv, [], _) => None  (* the format ends inside a conversion *)
  | Some (cv, c :: fmt2, args1) =>
      let '(r, args2) := request_of c cv args1 in
      match fulfil room cv r with
      | None => None
      | Some w => Some (w, fmt2, args2)
      end
  end.

Fixpoint vslprintf_loop (fuel room : nat) (fmt : list Z) (args : list arg)
  : option (list Z) :=
  match fmt with
  | [] => Some []
  | c :: fmt' =>
      match room with
      | O => Some []
      | S room' =>
          match fuel with
          | O => None
          | S fuel' =>
              if c =? "%"%chr then
                match fmt_conv room fmt' args with
                | None => None
                | Some (w, fmt2, args2) =>
                    match vslprintf_loop fuel' (room - length w) fmt2 args2 with
                    | None => None
                    | Some w' => Some (w ++ w')
                    end
                end
              else
                match vslprintf_loop fuel' room' fmt' args with
                | None => None
                | Some w' => Some (c :: w')
                end
          end
      end
  end.

(** [room] is [last - buf]. *)
Definition ngx_vslprintf (room : nat) (fmt : list Z) (args : list arg)
  : option (list Z) := vslprintf_loop (length fmt) room fmt args.

(** [ngx_snprintf] and [ngx_slprintf] name their end; the end of [ngx_sprintf]
    is the top of the address space, so its room never runs out: any room that
    is at least what is written gives its output. *)
Definition ngx_snprintf (max : nat) (fmt : list Z) (args : list arg)
  : option (list Z) := ngx_vslprintf max fmt args.

(** ** Specifications *)

(** The conversions whose truncated output is a prefix of the full output: a
    hexadecimal string stops at whole bytes, so it is left out. *)
Definition hex_flag (c : Z) : bool := ((c =? "x"%chr) || (c =? "X"%chr))%bool.
Definition is_int (a : arg) : Prop := match a with AInt _ => True | AStr _ => False end.
Definition no_hex_string (fmt : list Z) (args : list arg) : Prop :=
  Forall (fun c => hex_flag c = false) fmt \/ Forall is_int args.

(** ** Lemmas *)

Lemma dec_text_spec fuel ui p :
  (0 < fuel)%nat -> 0 <= ui < 10 ^ Z.of_nat fuel ->
  exists ds, dec_text fuel ui p = ds ++ p /\ forallb is_digit ds = true
    /\ decval ds = ui /\ (1 <= length ds <= fuel)%nat.
Proof.
  revert ui p; induction fuel as [|fuel IH]; intros ui p Hf H; [lia|].
  cbn [dec_text].
  assert (Hd : u8 (ui mod 10 + "0"%chr) = ui mod 10 + "0"%chr).
  { apply u8_small. pose proof (Z.mod_pos_bound ui 10). byte_lia. }
  rewrite Hd. assert (Hm := Z.mod_pos_bound ui 10 ltac:(lia)).
  assert (Hq := Z.div_mod ui 10 ltac:(lia)).
  destruct (Z.eqb_spec (ui / 10) 0) as [E|E].
  - exists [ui mod 10 + "0"%chr]. cbn. repeat split; try lia.
    rewrite andb_true_r. unfold is_digit. lia.
  - rewrite Nat2Z.inj_succ, Z.pow_succ_r in H by lia.
    destruct (IH (ui / 10) ((ui mod 10 + "0"%chr) :: p)) as (ds & -> & Hds & Hv & Hl).
    + destruct fuel; [|lia]. cbn in H. lia.
    + split; [apply Z.div_pos; lia|]. apply Z.div_lt_upper_bound; lia.
    + exists (ds ++ [ui mod 10 + "0"%chr]). rewrite <- app_assoc, forallb_app, Hds, decval_snoc, Hv,
        length_app. cbn. repeat split; try lia. rewrite andb_true_r. unfold is_digit. lia.
Qed.

Lemma hexval_from_app acc l1 l2 :
  Num.hexval_from acc (l1 ++ l2) =
  match Num.hexval_from acc l1 with Some v => Num.hexval_from v l2 | None => None end.
Proof.
  revert acc; induction l1 as [|c l1 IH]; intros acc; [reflexivity|].
  cbn. destruct (Num.hexval c); [apply IH|reflexivity].
Qed.

(** A table of the sixteen digits. *)
Definition hex_table (t : list Z) : Prop :=
  forall d, 0 <= d < 16 -> Num.hexval (tbl t d) = Some d.

Lemma hex_table_both : hex_table hex_lower /\ hex_table hex_upper.
Proof.
  assert (G : forall t, forallb (fun d => opt_eqb (Num.hexval (tbl t d)) (Some d))
      (map Z.of_nat (seq 0 16)) = true -> hex_table t).
  { intros t H d Hd. apply opt_eqb_eq. rewrite forallb_forall in H. apply (H d).
    apply in_map_iff. exists (Z.to_nat d). split; [lia|]. apply in_seq. lia. }
  split; apply G; vm_compute; reflexivity.
Qed.

Lemma hex_text_spec t fuel ui p :
  hex_table t -> (0 < fuel)%nat -> 0 <= ui < 16 ^ Z.of_nat fuel ->
  exists ds, hex_text t fuel ui p = ds ++ p /\ Num.hexval_from 0 ds = Some ui
    /\ (1 <= length ds <= fuel)%nat.
Proof.
  intros Ht. revert ui p; induction fuel as [|fuel IH]; intros ui p Hf H; [lia|].
  cbn [hex_text]. change 0xf with (Z.ones 4). rewrite Z.land_ones, Z.shiftr_div_pow2 by lia.
  change (2 ^ 4) with 16. assert (Hm := Z.mod_pos_bound ui 16 ltac:(lia)).
  assert (Hq := Z.div_mod ui 16 ltac:(lia)).
  destruct (Z.eqb_spec (ui / 16) 0) as [E|E].
  - exists [tbl t (ui mod 16)]. cbn [app Num.hexval_from length]. rewrite Ht by lia.
    repeat split; try lia. f_equal. lia.
  - rewrite Nat2Z.inj_succ, Z.pow_succ_r in H by lia.
    destruct (IH (ui / 16) (tbl t (ui mod 16) :: p)) as (ds & -> & Hv & Hl).
    + destruct fuel; [|lia]. cbn in H. lia.
    + split; [apply Z.div_pos; lia|]. apply Z.div_lt_upper_bound; lia.
    + exists (ds ++ [tbl t (ui mod 16)]).
      rewrite <- app_assoc, hexval_from_app, Hv, length_app.
      cbn [app Num.hexval_from length]. rewrite Ht by lia. repeat split; try lia. f_equal. lia.
Qed.

(** The temporary buffer of [NGX_INT64_LEN] bytes is enough for any value. *)
Lemma num_text_dec n :
  0 <= n < 2 ^ 64 ->
  forallb is_digit (num_text n 0) = true /\ decval (num_text n 0) = n
  /\ (1 <= length (num_text n 0) <= NGX_INT64_LEN)%nat.
Proof.
  intros H. unfold num_text. rewrite Z.eqb_refl.
  assert (E : (if n <=? NGX_MAX_UINT32_VALUE then dec_text NGX_INT64_LEN (u32 n) []
               else dec_text NGX_INT64_LEN n []) = dec_text NGX_INT64_LEN n []).
  { case_if; [|reflexivity]. rewrite u32_small by byte_lia. reflexivity. }
  rewrite E. destruct (dec_text_spec NGX_INT64_LEN n []) as (ds & -> & Hd & Hv & Hl).
  - cbv. lia.
  - change (10 ^ Z.of_nat NGX_INT64_LEN) with 100000000000000000000. lia.
  - rewrite app_nil_r. auto.
Qed.

Lemma num_text_hex n h :
  h = 1 \/ h = 2 -> 0 <= n < 2 ^ 64 ->
  Num.hexval_from 0 (num_text n h) = Some n
  /\ (1 <= length (num_text n h) <= NGX_INT64_LEN)%nat.
Proof.
  intros Hh H.
  assert (exists t, hex_table t /\ num_text n h = hex_text t NGX_INT64_LEN n [])
    as (t & Ht & ->).
  { destruct hex_table_both. destruct Hh; subst h; unfold num_text; cbn [Z.eqb Pos.eqb].
    - exists hex_lower. auto.
    - exists hex_upper. auto. }
  destruct (hex_text_spec t NGX_INT64_LEN n [] Ht) as (ds & -> & Hv & Hl).
  - cbv. lia.
  - change (16 ^ Z.of_nat NGX_INT64_LEN) with 1208925819614629174706176. lia.
  - rewrite app_nil_r. auto.
Qed.

(** Padding and the safe copy keep a prefix of the padded number. *)
Lemma sprintf_num_firstn room ui zero h width :
  ngx_sprintf_num room ui zero h width =
  firstn room (repeat zero (width - length (num_text ui h)) ++ num_text ui h).
Proof.
  unfold ngx_sprintf_num. set (p := num_text ui h). clearbody p.
  rewrite firstn_app, repeat_length. set (k := (width - length p)%nat). clearbody k.
  destruct (Nat.le_gt_cases k room).
  - rewrite Nat.min_l by lia. rewrite (firstn_all2 (repeat zero k)); [reflexivity|].
    rewrite repeat_length. lia.
  - rewrite Nat.min_r by lia. replace (room - k)%nat with 0%nat by lia.
    rewrite Nat.sub_diag. cbn. rewrite !app_nil_r.
    replace k with (room + (k - room))%nat by lia. rewrite repeat_app, firstn_app, repeat_length.
    rewrite Nat.sub_diag, firstn_all2 by (rewrite repeat_length; lia). cbn. now rewrite app_nil_r.
Qed.

Lemma decval_zeros k l : decval (repeat "0"%chr k ++ l) = decval l.
Proof. unfold decval. induction k; [reflexivity|]. exact IHk. Qed.

Lemma digits_zeros k : forallb is_digit (repeat "0"%chr k) = true.
Proof. induction k; [reflexivity|exact IHk]. Qed.

Lemma hexval_zeros k l : Num.hexval_from 0 (repeat "0"%chr k ++ l) = Num.hexval_from 0 l.
Proof. induction k; [reflexivity|exact IHk]. Qed.

Lemma fmt_number_suffix n fmt n' fmt' :
  fmt_number n fmt = (n', fmt') -> exists pre, fmt = pre ++ fmt'.
Proof.
  revert n; induction fmt as [|c t IH]; cbn [fmt_number]; intros n H.
  - injection H as _ <-. now exists [].
  - case_if_in H.
    + destruct (IH _ H) as (pre & ->). now exists (c :: pre).
    + injection H as _ <-. now exists [].
Qed.

(** The flags consume a prefix of the format and of the arguments, and set the
    hexadecimal mode only when that prefix names it. *)
Lemma fmt_flags_suffix cv fmt args cv' fmt' args' :
  fmt_flags cv fmt args = Some (cv', fmt', args') ->
  (exists pre, fmt = pre ++ fmt'
     /\ (Forall (fun c => hex_flag c = false) pre -> cv_hex cv' = cv_hex cv))
  /\ exists pa, args = pa ++ args'.
Proof.
  revert cv args; induction fmt as [|c t IH]; intros [z w s h m f l] args H; cbn [fmt_flags] in H.
  - injection H as <- <- <-. split; exists []; auto.
  - assert (step : forall cv1 args1, fmt_flags cv1 t args1 = Some (cv', fmt', args') ->
      (hex_flag c = false -> cv_hex cv1 = h) -> (exists pa, args = pa ++ args1) ->
      (exists pre, c :: t = pre ++ fmt' /\ (Forall (fun c => hex_flag c = false) pre ->
         cv_hex cv' = h)) /\ exists pa, args = pa ++ args').
    { intros cv1 args1 H1 Hh (pa1 & ->).
      destruct (IH _ _ H1) as [(pre & -> & Hp) (pa & ->)]. split.
      - exists (c :: pre). split; [reflexivity|]. intros Hc. inversion Hc; subst.
        rewrite Hp by assumption. auto.
      - exists (pa1 ++ pa). now rewrite app_assoc. }
    assert (nil_args : exists pa : list arg, args = pa ++ args) by now exists [].
    do 2 (case_if_in H; [eapply step; eauto|]).
    do 2 (case_if_in H; [eapply step; [exact H| |exact nil_args];
      unfold hex_flag; lia|]).
    case_if_in H.
    { destruct (fmt_number f t) as [f' t'] eqn:E. injection H as <- <- <-.
      apply fmt_number_suffix in E as (pre & ->).
      split; [exists (c :: pre); auto|exact nil_args]. }
    case_if_in H.
    { destruct args as [|[n|] args1]; try discriminate H.
      eapply step; [exact H|auto|now exists [AInt n]]. }
    injection H as <- <- <-. split; [exists []; auto|exact nil_args].
Qed.

Lemma request_of_args c cv args r args' :
  request_of c cv args = (r, args') -> exists pa, args = pa ++ args'.
Proof.
  unfold request_of. destruct (takes_arg c); [destruct args as [|a t]|];
    intros [= <- <-]; [now exists []|now exists [a]|now exists []].
Qed.

(** Only a string argument asks for a string. *)
Lemma fmt_arg_str c cv a s len : fmt_arg c cv a = RStr s len -> ~ is_int a.
Proof.
  destruct a as [z|t]; [|intros _ []]. unfold fmt_arg, int_arg.
  repeat case_if; discriminate.
Qed.

Lemma fmt_plain_byte c : exists b, fmt_plain c = RByte b.
Proof. unfold fmt_plain. repeat case_if; eauto. Qed.

Lemma request_of_str c cv args r args' s len :
  request_of c cv args = (r, args') -> r = RStr s len -> ~ Forall is_int args.
Proof.
  unfold request_of. intros H ->. destruct (takes_arg c).
  - destruct args as [|a t]; [discriminate H|]. injection H as H <-.
    intros F. inversion F; subst. now apply fmt_arg_str in H.
  - destruct (fmt_plain_byte c) as (b & E). rewrite E in H. discriminate H.
Qed.

Lemma hex_copy_length t room src : (length (hex_copy t room src) <= room)%nat.
Proof.
  revert room; induction src as [|c src IH]; intros [|[|room]]; cbn; try lia.
  specialize (IH room). lia.
Qed.

Lemma sprintf_str_length room src len h w :
  ngx_sprintf_str room src len h = Some w -> (length w <= room)%nat.
Proof.
  unfold ngx_sprintf_str. destruct (match len with None => _ | Some n => _ end) as [b|];
    [|discriminate]. intros [= <-].
  repeat case_if; auto using hex_copy_length, firstn_le_length.
Qed.

Lemma fulfil_length room cv r w :
  (1 <= room)%nat -> fulfil room cv r = Some w -> (length w <= room)%nat.
Proof.
  intros Hr. destruct r as [s len|[] i64 ui zero h width|b|]; cbn [fulfil]; intros H.
  - eapply sprintf_str_length; eauto.
  - case_if_in H; injection H as <-; cbn [length]; rewrite sprintf_num_firstn, length_firstn; lia.
  - injection H as <-. rewrite sprintf_num_firstn, length_firstn. lia.
  - injection H as <-. exact Hr.
  - discriminate H.
Qed.

Lemma sprintf_num_room room1 room2 ui zero h width :
  (room1 <= room2)%nat ->
  ngx_sprintf_num room1 ui zero h width = firstn room1 (ngx_sprintf_num room2 ui zero h width).
Proof.
  intros H. rewrite !sprintf_num_firstn, firstn_firstn. now rewrite Nat.min_l by lia.
Qed.

Lemma fulfil_room room1 room2 cv r w :
  (1 <= room1 <= room2)%nat -> ((exists s len, r = RStr s len) -> cv_hex cv = 0) ->
  fulfil room2 cv r = Some w -> fulfil room1 cv r = Some (firstn room1 w).
Proof.
  intros Hr Hh. destruct room1 as [|room1]; [lia|].
  destruct r as [s len|[] i64 ui zero h width|b|]; cbn [fulfil].
  - unfold ngx_sprintf_str. rewrite Hh by eauto. cbn [Z.eqb].
    destruct (match len with None => _ | Some n => _ end) as [b|]; [|discriminate].
    intros [= <-]. rewrite firstn_firstn. now rewrite Nat.min_l by lia.
  - case_if; intros [= <-].
    + cbn [firstn]. rewrite !Nat.sub_succ, !Nat.sub_0_r.
      now rewrite (sprintf_num_room room1 (room2 - 1)) by lia.
    + now rewrite (sprintf_num_room (S room1) room2) by lia.
  - intros [= <-]. now rewrite (sprintf_num_room (S room1) room2) by lia.
  - intros [= <-]. cbn [firstn]. now rewrite firstn_nil.
  - discriminate.
Qed.

(** What one conversion consumes and writes. *)
Lemma fmt_conv_spec room fmt args w fmt2 args2 :
  (1 <= room)%nat -> fmt_conv room fmt args = Some (w, fmt2, args2) ->
  (length w <= room)%nat /\ (length fmt2 < length fmt)%nat
  /\ (no_hex_string fmt args -> no_hex_string fmt2 args2
      /\ forall room1, (1 <= room1 <= room)%nat ->
         fmt_conv room1 fmt args = Some (firstn room1 w, fmt2, args2)).
Proof.
  intros Hr. unfold fmt_conv. destruct (fmt_number 0 fmt) as [width fmt1] eqn:En.
  set (z := if hd0 fmt =? _ then _ else _). clearbody z.
  destruct (fmt_flags _ fmt1 args) as [[[cv [|c fmt3]] args1]|] eqn:Ef; try discriminate.
  destruct (request_of c cv args1) as [r args3] eqn:Er.
  destruct (fulfil room cv r) as [w'|] eqn:Ew; [|discriminate]. intros [= <- <- <-].
  apply fmt_number_suffix in En as (p1 & ->).
  apply fmt_flags_suffix in Ef as [(p2 & -> & Hcv) (pa & ->)].
  destruct (request_of_args _ _ _ _ _ Er) as (pb & ->).
  split; [eapply fulfil_length; eauto|].
  split; [rewrite !length_app; cbn; lia|]. intros Hn. split.
  - destruct Hn as [Hn|Hn]; [left|right].
    + apply Forall_app in Hn as [_ Hn]. apply Forall_app in Hn as [_ Hn]. now inversion Hn.
    + apply Forall_app in Hn as [_ Hn]. now apply Forall_app in Hn as [_ Hn].
  - intros room1 H1. rewrite (fulfil_room room1 room cv r w' H1); [reflexivity| |exact Ew].
    intros (s & len & E). destruct Hn as [Hn|Hn].
    + apply Hcv. apply Forall_app in Hn as [_ Hn]. now apply Forall_app in Hn as [Hn _].
    + exfalso. apply Forall_app in Hn as [_ Hn].
      exact (request_of_str _ _ _ _ _ s len Er E Hn).
Qed.

Lemma vslprintf_loop_length fuel room fmt args w :
  vslprintf_loop fuel room fmt args = Some w -> (length w <= room)%nat.
Proof.
  revert room fmt args w; induction fuel as [|fuel IH];
    intros [|room] [|c fmt] args w; cbn [vslprintf_loop];
    try (intros [= <-]; cbn; lia); try discriminate.
  case_if.
  - destruct (fmt_conv (S room) fmt args) as [[[w1 fmt2] args2]|] eqn:Ec; [|discriminate].
    apply fmt_conv_spec in Ec as (H1 & _); [|lia].
    destruct (vslprintf_loop _ _ fmt2 args2) as [w2|] eqn:E2; [|discriminate].
    intros [= <-]. apply IH in E2. rewrite length_app. lia.
  - destruct (vslprintf_loop fuel room fmt args) as [w2|] eqn:E2; [|discriminate].
    intros [= <-]. apply IH in E2. cbn. lia.
Qed.

Lemma vslprintf_loop_room fuel1 fuel2 room1 room2 fmt args w :
  (room1 <= room2)%nat -> no_hex_string fmt args ->
  (length fmt <= fuel1)%nat -> (length fmt <= fuel2)%nat ->
  vslprintf_loop fuel2 room2 fmt args = Some w ->
  vslprintf_loop fuel1 room1 fmt args = Some (firstn room1 w).
Proof.
  revert fuel1 room1 room2 fmt args w; induction fuel2 as [|fuel2 IH];
    intros [|fuel1] [|room1] [|room2] [|c fmt] args w Hr Hn Hf1 Hf2;
    cbn [length] in Hf1, Hf2; try lia; cbn [vslprintf_loop];
    try (intros [= <-]; rewrite ?firstn_nil; reflexivity); try (intros _; reflexivity).
  case_if.
  - destruct (fmt_conv (S room2) fmt args) as [[[w1 fmt2] args2]|] eqn:Ec; [|discriminate].
    assert (Hn' : no_hex_string fmt args)
      by (destruct Hn as [Hn|Hn]; [left; now inversion Hn|now right]).
    apply fmt_conv_spec in Ec as (H1 & H2 & H3); [|lia].
    destruct (H3 Hn') as [Hn2 Hr1]. rewrite (Hr1 (S room1)) by lia.
    destruct (vslprintf_loop fuel2 _ fmt2 args2) as [w2|] eqn:E2; [|discriminate].
    intros [= <-]. rewrite firstn_app.
    replace (S room1 - length (firstn (S room1) w1))%nat with (S room1 - length w1)%nat
      by (rewrite length_firstn; lia).
    rewrite (IH fuel1 (S room1 - length w1)%nat (S room2 - length w1)%nat fmt2 args2 w2);
      [reflexivity|lia|exact Hn2|lia|lia|exact E2].
  - destruct (vslprintf_loop fuel2 room2 fmt args) as [w2|] eqn:E2; [|discriminate].
    intros [= <-]. rewrite (IH fuel1 room1 room2 fmt args w2); try assumption; try lia.
    + reflexivity.
    + destruct Hn as [Hn|Hn]; [left; now inversion Hn|now right].
Qed.

Lemma atoi_reads l n :
  forallb is_digit l = true -> (1 <= length l)%nat -> decval l = n ->
  Num.ngx_atoi l = if n <=? NGX_MAX_INT_T_VALUE then n else NGX_ERROR.
Proof.
  intros Hd Hl <-. rewrite Num.ngx_atoi_spec. unfold Num.decimal. rewrite Hd.
  destruct (Nat.eqb_spec (length l) 0); [lia|]. reflexivity.
Qed.

Lemma hexval_wf acc l v : Num.hexval_from acc l = Some v -> wf_bytes l.
Proof.
  revert acc; induction l as [|c l IH]; intros acc H; [constructor|].
  cbn in H. destruct (Num.hexval c) as [d|] eqn:E; [|discriminate].
  constructor; [|eapply IH; eauto]. unfold Num.hexval in E.
  repeat case_if_in E; try discriminate E; byte_lia.
Qed.

Lemma hextoi_reads l n :
  (1 <= length l)%nat -> Num.hexval_from 0 l = Some n ->
  Num.ngx_hextoi l = if n <=? NGX_MAX_INT_T_VALUE then n else NGX_ERROR.
Proof.
  intros Hl H. destruct l as [|c l]; [cbn in Hl; lia|]. unfold Num.ngx_hextoi.
  change (NGX_MAX_INT_T_VALUE / 16) with (9223372036854775807 / 16).
  rewrite (Num.hextoi_loop_spec NGX_MAX_INT_T_VALUE);
    [now rewrite H|lia|reflexivity|lia|eapply hexval_wf; eauto].
Qed.

(** ** Properties *)

(** C40. Formatted output never passes the end of its buffer, and truncation is
    faithful: without hexadecimal strings, a smaller buffer receives exactly
    the bytes of the larger output that fit. *)
Theorem snprintf_bounded room1 room2 fmt args w :
  (room1 <= room2)%nat -> ngx_snprintf room2 fmt args = Some w ->
  (length w <= room2)%nat
  /\ (no_hex_string fmt args -> ngx_snprintf room1 fmt args = Some (firstn room1 w)).
Proof.
  intros Hr Hw. split.
  - exact (vslprintf_loop_length _ _ _ _ _ Hw).
  - intros Hn. exact (vslprintf_loop_room _ _ _ _ _ _ _ Hr Hn (le_n _) (le_n _) Hw).
Qed.

Example snprintf_bounded_witness :
  ngx_snprintf 8 (bs "%V:%03uD%%") [AStr (bs "port"); AInt 80] = Some (bs "port:080")
  /\ ngx_snprintf 6 (bs "%V:%03uD%%") [AStr (bs "port"); AInt 80] = Some (bs "port:0").
Proof.
  split; [reflexivity|].
  refine (proj2 (snprintf_bounded 6 9 (bs "%V:%03uD%%") [AStr (bs "port"); AInt 80]
    (bs "port:080%") _ eq_refl) _).
  - lia.
  - left. repeat constructor.
Defined.

(** Numbers survive being printed and read back: any 64-bit value, zero
    padded to any width that fits, is a digit string of that value and at least
    that width, so [ngx_atoi] and [ngx_hextoi] return it exactly when it is
    representable; without padding 20 bytes are always enough. *)
Theorem sprintf_num_roundtrip n width room :
  0 <= n < 2 ^ 64 -> (Nat.max 20 width <= room)%nat ->
  let dec := ngx_sprintf_num room n "0"%chr 0 width in
  let hex := ngx_sprintf_num room n "0"%chr 1 width in
  Num.ngx_atoi dec = (if n <=? NGX_MAX_INT_T_VALUE then n else NGX_ERROR)
  /\ Num.ngx_hextoi hex = (if n <=? NGX_MAX_INT_T_VALUE then n else NGX_ERROR)
  /\ (width <= length dec <= Nat.max 20 width)%nat
  /\ (width <= length hex <= Nat.max 20 width)%nat.
Proof.
  intros Hn Hr. cbv zeta. rewrite !sprintf_num_firstn.
  destruct (num_text_dec n Hn) as (Hd & Hv & Hl).
  destruct (num_text_hex n 1 ltac:(auto) Hn) as (Hx & Hl').
  change NGX_INT64_LEN with 20%nat in *.
  rewrite !firstn_all2 by (rewrite length_app, repeat_length; lia).
  rewrite !length_app, !repeat_length.
  split; [apply atoi_reads|split; [apply hextoi_reads|lia]].
  - rewrite forallb_app, digits_zeros. exact Hd.
  - rewrite length_app. lia.
  - now rewrite decval_zeros.
  - rewrite length_app. lia.
  - now rewrite hexval_zeros.
Qed.

Example sprintf_num_roundtrip_witness :
  Num.ngx_atoi (ngx_sprintf_num 24 18446744073709551615 "0"%chr 0 22) = NGX_ERROR
  /\ ngx_sprintf_num 24 18446744073709551615 "0"%chr 0 22 = bs "0018446744073709551615".
Proof.
  split; [|reflexivity].
  exact (proj1 (sprintf_num_roundtrip 18446744073709551615 22 24 ltac:(lia) ltac:(lia))).
Defined.

End Sprintf.
