(* ===== verification/Times.v ===== *)
(** * Times: HTTP dates (src/core/ngx_times.c, src/core/ngx_parse_time.c)

    The broken-down UTC time, the two date texts nginx writes and the parser of
    the three date formats of HTTP.  Unsigned arithmetic is written with its
    wrap-around; the parser's reads are checked against the end of its buffer. *)

From S2P Require Import Prelude Sprintf.

Module Times.

Import Sprintf.
#[local] Open Scope outcome_scope.

(** ** Definitions *)

(** [ngx_tm_t], the fields in use. *)
Record tm : Set := Tm {
  tm_sec : Z; tm_min : Z; tm_hour : Z; tm_mday : Z; tm_mon : Z; tm_year : Z; tm_wday : Z }.

Definition week : list (list Z) :=
  [bs "Sun"; bs "Mon"; bs "Tue"; bs "Wed"; bs "Thu"; bs "Fri"; bs "Sat"].

Definition months : list (list Z) :=
  [bs "Jan"; bs "Feb"; bs "Mar"; bs "Apr"; bs "May"; bs "Jun";
   bs "Jul"; bs "Aug"; bs "Sep"; bs "Oct"; bs "Nov"; bs "Dec"].

(** From days since January 1, 1970 to year, month and day. *)
Definition gm_date (days : Z) : Z * Z * Z :=
  let days := u64 (days - (31 + 28) + 719527) in
  let year := u64 ((days + 2) * 400) / (365 * 400 + 100 - 4 + 1) in
  let yday := s64 (days - (365 * year + year / 4 - year / 100 + year / 400)) in
  let leap := if (year mod 4 =? 0) && (negb (year mod 100 =? 0) || (year mod 400 =? 0))
              then 1 else 0 in
  let '(yday, year) :=
    if yday <? 0 then (s64 (365 + leap + yday), u64 (year - 1)) else (yday, year) in
  let mon := u64 (Z.quot ((yday + 31) * 10) 306) in
  let mday := u64 (yday - (367 * mon / 12 - 30) + 1) in
  if 306 <=? yday then (u64 (year + 1), u64 (mon - 10), mday)
  else (year, u64 (mon + 2), mday).

Definition ngx_gmtime (t : Z) : tm :=
  let t := if t <? 0 then 0 else t in
  let days := t / 86400 in
  let sec := t mod 86400 in
  let '(days, sec) := if 2932896 <? days then (2932896, 86399) else (days, sec) in
  let wday := (4 + days) mod 7 in
  let hour := sec / 3600 in
  let sec := sec mod 3600 in
  let min := sec / 60 in
  let sec := sec mod 60 in
  let '(year, mon, mday) := gm_date days in
  Tm sec min hour mday mon year wday.

(** [top] is the room from [buf] to the end of the address space. *)
Definition ngx_http_time (top : nat) (t : Z) : option (list Z) :=
  let tm := ngx_gmtime t in
  ngx_vslprintf top (bs "%s, %02d %s %4d %02d:%02d:%02d GMT")
    [AStr (nth (Z.to_nat (tm_wday tm)) week []); AInt (tm_mday tm);
     AStr (nth (Z.to_nat (tm_mon tm - 1)) months []); AInt (tm_year tm);
     AInt (tm_hour tm); AInt (tm_min tm); AInt (tm_sec tm)].

Definition ngx_http_cookie_time (top : nat) (t : Z) : option (list Z) :=
  let tm := ngx_gmtime t in
  ngx_vslprintf top
    (if 2037 <? tm_year tm then bs "%s, %02d-%s-%d %02d:%02d:%02d GMT"
     else bs "%s, %02d-%s-%02d %02d:%02d:%02d GMT")
    [AStr (nth (Z.to_nat (tm_wday tm)) week []); AInt (tm_mday tm);
     AStr (nth (Z.to_nat (tm_mon tm - 1)) months []);
     AInt (if 2037 <? tm_year tm then tm_year tm else tm_year tm mod 100);
     AInt (tm_hour tm); AInt (tm_min tm); AInt (tm_sec tm)].

Definition mday : list Z := [31; 28; 31; 30; 31; 30; 31; 31; 30; 31; 30; 31].

Inductive date_fmt : Set := rfc822 | rfc850 | isoc.

(** The first loop: to the first comma or space, and past it. *)
Fixpoint to_separator (p : list Z) : bool * list Z :=
  match p with
  | [] => (false, [])
  | c :: p' =>
      if c =? ","%chr then (false, p')
      else if c =? " "%chr then (true, p')
      else to_separator p'
  end.

Fixpoint skip_blanks (p : list Z) : list Z :=
  match p with
  | c :: p' => if c =? " "%chr then skip_blanks p' else p
  | [] => []
  end.

(** One digit, two, four; a byte is read only when those before it are digits. *)
Definition digit (p : list Z) (k : nat) : outcome Z :=
  let* c := rd p k in
  if (c <? "0"%chr) || ("9"%chr <? c) then Fail else Ok (c - "0"%chr).

Definition two_digits (p : list Z) : outcome Z :=
  let* a := digit p 0 in let* b := digit p 1 in Ok (a * 10 + b).

Definition four_digits (p : list Z) : outcome Z :=
  let* a := digit p 0 in let* b := digit p 1 in
  let* c := digit p 2 in let* d := digit p 3 in
  Ok (a * 1000 + b * 100 + c * 10 + d).

(** The byte at [p] has to be [c]. *)
Definition expect (p : list Z) (c : Z) : outcome unit :=
  let* b := rd p 0 in if b =? c then Ok tt else Fail.

(** The [switch] on the month name. *)
Definition parse_month (p : list Z) : outcome Z :=
  let* c := rd p 0 in
  if c =? "J"%chr then
    let* c1 := rd p 1 in
    if c1 =? "a"%chr then Ok 0
    else let* c2 := rd p 2 in Ok (if c2 =? "n"%chr then 5 else 6)
  else if c =? "F"%chr then Ok 1
  else if c =? "M"%chr then let* c2 := rd p 2 in Ok (if c2 =? "r"%chr then 2 else 4)
  else if c =? "A"%chr then let* c1 := rd p 1 in Ok (if c1 =? "p"%chr then 3 else 7)
  else if c =? "S"%chr then Ok 8
  else if c =? "O"%chr then Ok 9
  else if c =? "N"%chr then Ok 10
  else if c =? "D"%chr then Ok 11
  else Fail.

(** The day before the month (not in [isoc]), with the format it selects. *)
Definition parse_day (is_isoc : bool) (p : list Z) : outcome (Z * date_fmt * list Z) :=
  if is_isoc then Ok (32, isoc, p)
  else
    let* day := two_digits p in
    let p := skipn 2 p in
    let* c := rd p 0 in
    if c =? " "%chr then
      if (length p <? 18)%nat then Fail else Ok (day, rfc822, skipn 1 p)
    else if c =? "-"%chr then Ok (day, rfc850, skipn 1 p)
    else Fail.

(** The year of the first two formats, the day of the third. *)
Definition parse_year_day (fmt : date_fmt) (day : Z) (p : list Z)
  : outcome (Z * Z * list Z) :=
  match fmt with
  | rfc822 => let* year := four_digits p in Ok (year, day, skipn 4 p)
  | rfc850 =>
      let* year := two_digits p in
      Ok (year + (if year <? 70 then 2000 else 1900), day, skipn 2 p)
  | isoc =>
      let* c := rd p 0 in
      let p := if c =? " "%chr then skipn 1 p else p in
      let* day := digit p 0 in
      let p := skipn 1 p in
      let* c := rd p 0 in
      let* dp := (if c =? " "%chr then Ok (day, p)
                  else let* d := digit p 0 in Ok (day * 10 + d, skipn 1 p)) in
      if (length (snd dp) <? 14)%nat then Fail else Ok (2038, fst dp, snd dp)
  end.

(** [ hh:mm:ss], and the year of the third format. *)
Definition parse_clock (fmt : date_fmt) (year : Z) (p : list Z)
  : outcome (Z * Z * Z * Z) :=
  let* _ := expect p " "%chr in
  let p := skipn 1 p in
  let* hour := two_digits p in
  let p := skipn 2 p in
  let* _ := expect p ":"%chr in
  let p := skipn 1 p in
  let* min := two_digits p in
  let p := skipn 2 p in
  let* _ := expect p ":"%chr in
  let p := skipn 1 p in
  let* sec := two_digits p in
  match fmt with
  | isoc =>
      let p := skipn 2 p in
      let* _ := expect p " "%chr in
      let* year := four_digits (skipn 1 p) in
      Ok (year, hour, min, sec)
  | _ => Ok (year, hour, min, sec)
  end.

Definition day_valid (year month day : Z) : bool :=
  if (day =? 29) && (month =? 1)
  then negb (negb (Z.land year 3 =? 0) || ((year mod 100 =? 0) && negb (year mod 400 =? 0)))
  else day <=? nth (Z.to_nat month) mday 0.

(** Gauss' formula, in unsigned 64-bit arithmetic. *)
Definition gauss_time (year month day hour min sec : Z) : Z :=
  let month := month - 1 in
  let '(month, year) := if month <=? 0 then (month + 12, u64 (year - 1)) else (month, year) in
  u64 ((365 * year + year / 4 - year / 100 + year / 400
        + Z.quot (367 * month) 12 - 30 + day - 1 - 719527 + 31 + 28) * 86400
       + hour * 3600 + min * 60 + sec).

Definition ngx_parse_http_time (value : list Z) : outcome Z :=
  let '(is_isoc, p) := to_separator value in
  let p := skip_blanks p in
  if (length p <? 18)%nat then Fail
  else
    let* dfp := parse_day is_isoc p in
    let '(day, fmt, p) := dfp in
    let* month := parse_month p in
    let p := skipn 3 p in
    let* _ := (match fmt with
               | rfc822 => expect p " "%chr
               | rfc850 => expect p "-"%chr
               | isoc => Ok tt
               end) in
    let p := skipn 1 p in
    let* ydp := parse_year_day fmt day p in
    let '(year, day, p) := ydp in
    let* yhms := parse_clock fmt year p in
    let '(year, hour, min, sec) := yhms in
    if (23 <? hour) || (59 <? min) || (59 <? sec) then Fail
    else if day_valid year month day then Ok (s64 (gauss_time year month day hour min sec))
    else Fail.

(** ** Specifications *)

(** The Gregorian calendar. *)
Definition leap_year (y : Z) : bool :=
  (y mod 4 =? 0) && (negb (y mod 100 =? 0) || (y mod 400 =? 0)).

Definition month_days (y m : Z) : Z :=
  if (m =? 2) && leap_year y then 29 else nth (Z.to_nat (m - 1)) mday 0.

Definition next_date (d : Z * Z * Z) : Z * Z * Z :=
  let '(y, m, d) := d in
  if d <? month_days y m then (y, m, d + 1)
  else if m <? 12 then (y, m + 1, 1)
  else (y + 1, 1, 1).

(** The date [n] days after the epoch. *)
Definition date_after (n : nat) : Z * Z * Z := Nat.iter n next_date (1970, 1, 1).

Definition MAX_DAYS : Z := 2932896.
Definition MAX_TIME : Z := MAX_DAYS * 86400 + 86399.

(** The texts of the three date formats. *)
Definition d2 (n : Z) : list Z := [48 + n / 10 mod 10; 48 + n mod 10].
Definition d4 (n : Z) : list Z := [48 + n / 1000 mod 10; 48 + n / 100 mod 10] ++ d2 n.
Definition wday_text (t : tm) : list Z := nth (Z.to_nat (tm_wday t)) week [].
Definition mon_text (t : tm) : list Z := nth (Z.to_nat (tm_mon t - 1)) months [].
Definition clock_text (t : tm) : list Z :=
  d2 (tm_hour t) ++ ":"%chr :: d2 (tm_min t) ++ ":"%chr :: d2 (tm_sec t).

Definition rfc822_text (t : tm) : list Z :=
  wday_text t ++ bs ", " ++ d2 (tm_mday t) ++ " "%chr :: mon_text t ++ " "%chr ::
  d4 (tm_year t) ++ " "%chr :: clock_text t ++ bs " GMT".

Definition rfc850_text (t : tm) : list Z :=
  wday_text t ++ bs ", " ++ d2 (tm_mday t) ++ "-"%chr :: mon_text t ++ "-"%chr ::
  d2 (tm_year t mod 100) ++ " "%chr :: clock_text t ++ bs " GMT".

(** asctime(): a one-digit day is padded with a space. *)
Definition isoc_text (t : tm) : list Z :=
  wday_text t ++ " "%chr :: mon_text t ++ " "%chr ::
  (if tm_mday t <? 10 then [" "%chr; 48 + tm_mday t] else d2 (tm_mday t)) ++
  " "%chr :: clock_text t ++ " "%chr :: d4 (tm_year t).

(** The texts of a time as RFC 9110, section 5.6.7, has them, from the calendar: the
    name of the day of the week, which was a Thursday at the epoch, the date and the
    clock.  The day of the RFC 850 date has its short name, as in cookies. *)
Definition day_name (t : Z) : list Z :=
  match (t / 86400 + 4) mod 7 with
  | 0 => bs "Sun" | 1 => bs "Mon" | 2 => bs "Tue" | 3 => bs "Wed"
  | 4 => bs "Thu" | 5 => bs "Fri" | _ => bs "Sat"
  end.

Definition month_name (m : Z) : list Z :=
  match m with
  | 1 => bs "Jan" | 2 => bs "Feb" | 3 => bs "Mar" | 4 => bs "Apr"
  | 5 => bs "May" | 6 => bs "Jun" | 7 => bs "Jul" | 8 => bs "Aug"
  | 9 => bs "Sep" | 10 => bs "Oct" | 11 => bs "Nov" | _ => bs "Dec"
  end.

Definition date_of (t : Z) : Z * Z * Z := date_after (Z.to_nat (t / 86400)).

Definition clock_of (t : Z) : list Z :=
  let s := t mod 86400 in
  d2 (s / 3600) ++ bs ":" ++ d2 (s / 60 mod 60) ++ bs ":" ++ d2 (s mod 60).

Definition imf_fixdate (t : Z) : list Z :=
  let '(y, m, d) := date_of t in
  day_name t ++ bs ", " ++ d2 d ++ bs " " ++ month_name m ++ bs " " ++ d4 y ++ bs " " ++ clock_of t ++ bs " GMT".

Definition rfc850_date (t : Z) : list Z :=
  let '(y, m, d) := date_of t in
  day_name t ++ bs ", " ++ d2 d ++ bs "-" ++ month_name m ++ bs "-" ++ d2 (y mod 100) ++ bs " " ++ clock_of t ++ bs " GMT".

Definition asctime_date (t : Z) : list Z :=
  let '(y, m, d) := date_of t in
  day_name t ++ bs " " ++ month_name m ++ bs " " ++ (if d <? 10 then bs " " ++ [48 + d] else d2 d) ++
  bs " " ++ clock_of t ++ bs " " ++ d4 y.

Definition year_of (t : Z) : Z := let '(y, _, _) := date_of t in y.

(** ** Lemmas: the calendar *)

(** The calendar counted in years that start on March 1: [march y] days precede
    the year [y], which has [march_len y] days. *)
Definition march (y : Z) : Z := 365 * y + y / 4 - y / 100 + y / 400.
Definition march_len (y : Z) : Z := if leap_year (y + 1) then 366 else 365.

(** The date of the day [yday] of the March year [y]. *)
Definition march_date (y yday : Z) : Z * Z * Z :=
  let mon := (yday + 31) * 10 / 306 in
  let mday := yday - (367 * mon / 12 - 30) + 1 in
  if 306 <=? yday then (y + 1, mon - 10, mday) else (y, mon + 2, mday).

Lemma march_succ y : 0 <= y -> march (y + 1) = march y + march_len y.
Proof.
  intros H. unfold march, march_len, leap_year.
  case_if; Z.to_euclidean_division_equations; lia.
Qed.

Lemma march_year y d :
  0 <= y -> march y <= d < march (y + 1) ->
  (d + 2) * 400 / 146097 = y \/ (d + 2) * 400 / 146097 = y + 1.
Proof.
  intros Hy H.
  assert (146097 * y <= (march y + 2) * 400).
  { unfold march. Z.to_euclidean_division_equations. lia. }
  assert ((march (y + 1) + 1) * 400 < 146097 * (y + 2)).
  { unfold march. Z.to_euclidean_division_equations. lia. }
  assert (y <= (d + 2) * 400 / 146097) by (apply Z.div_le_lower_bound; lia).
  assert ((d + 2) * 400 / 146097 < y + 2) by (apply Z.div_lt_upper_bound; lia).
  lia.
Qed.

(** Days of the month [m] of a year that is leap or not. *)
Definition month_days_of (leap : bool) (m : Z) : Z :=
  if (m =? 2) && leap then 29 else nth (Z.to_nat (m - 1)) mday 0.

(** The day after [yday] within a March year, and the last one. *)
Definition date_eqb (a b : Z * Z * Z) : bool :=
  let '(y, m, d) := a in let '(y', m', d') := b in (y =? y') && (m =? m') && (d =? d').

Definition march_day_ok (leap : bool) (yday : Z) : bool :=
  let '(y, m, d) := march_date 0 yday in
  (1 <=? m) && (m <=? 12) && (1 <=? d) && (d <=? month_days_of leap m)
  && (negb (m =? 2) || (y =? 1)) && (0 <=? y) && (y <=? 1)
  && date_eqb
       (if d <? month_days_of leap m then (y, m, d + 1)
        else if m <? 12 then (y, m + 1, 1) else (y + 1, 1, 1))
       (if yday + 1 <? (if leap then 366 else 365) then march_date 0 (yday + 1)
        else march_date 1 0).

Lemma march_days_ok (leap : bool) yday :
  0 <= yday < (if leap then 366 else 365) -> march_day_ok leap yday = true.
Proof.
  intros H. destruct leap.
  - apply (check_upto_spec _ 366 0); [vm_compute; reflexivity|lia].
  - apply (check_upto_spec _ 365 0); [vm_compute; reflexivity|lia].
Qed.

Lemma march_date_shift y yday :
  march_date y yday = let '(y0, m, d) := march_date 0 yday in (y + y0, m, d).
Proof. unfold march_date. case_if; f_equal; f_equal; ring. Qed.

Lemma date_eqb_eq a b : date_eqb a b = true -> a = b.
Proof.
  destruct a as [[y m] d], b as [[y' m'] d']. unfold date_eqb.
  rewrite !andb_true_iff, !Z.eqb_eq. intros [[-> ->] ->]. reflexivity.
Qed.

(** Dates as [march_date] gives them are dates of the calendar, and their
    successors are its successors. *)
Lemma march_date_next y yday :
  0 <= yday < march_len y ->
  let '(y', m, d) := march_date y yday in
  1 <= m <= 12 /\ 1 <= d <= month_days y' m /\ y <= y' <= y + 1
  /\ next_date (y', m, d) =
     if yday + 1 <? march_len y then march_date y (yday + 1) else march_date (y + 1) 0.
Proof.
  intros H. set (lp := leap_year (y + 1)).
  assert (Hl : march_len y = if lp then 366 else 365) by reflexivity. rewrite Hl in *.
  pose proof (march_days_ok lp yday H) as K. unfold march_day_ok in K.
  rewrite (march_date_shift y yday), (march_date_shift y (yday + 1)), (march_date_shift (y + 1)).
  destruct (march_date 0 yday) as [[y0 m] d] eqn:E.
  rewrite !andb_true_iff in K. destruct K as [[[[[[[K1 K2] K3] K4] K5] K6] K7] K8].
  assert (M : month_days (y + y0) m = month_days_of lp m).
  { unfold month_days, month_days_of, lp. destruct (Z.eqb_spec m 2) as [->|N]; [|reflexivity].
    cbn in K5. replace y0 with 1 by lia. reflexivity. }
  rewrite M. repeat (split; [lia|]). apply date_eqb_eq in K8. unfold next_date. rewrite M.
  rewrite (march_date_shift 1 0) in K8.
  destruct (march_date 0 (yday + 1)) as [[y1 m1] d1], (march_date 0 0) as [[y2 m2] d2'].
  revert K8. repeat case_if; intros K8; apply pair_equal_spec in K8 as [K8 ?];
    apply pair_equal_spec in K8 as [? ?];
    (apply (f_equal2 pair); [apply (f_equal2 pair)|]; lia).
Qed.

(** Gauss' formula, from the date back to the day. *)
Definition day_of (a : Z * Z * Z) : Z :=
  let '(year, mon, day) := a in
  let month := mon - 2 in
  let '(month, year) := if month <=? 0 then (month + 12, year - 1) else (month, year) in
  365 * year + year / 4 - year / 100 + year / 400 + 367 * month / 12 - 30 + day - 1
  - 719527 + 31 + 28.

Lemma day_of_march y yday : 0 <= yday <= 365 ->
  day_of (march_date y yday) = march y + yday - 719468.
Proof.
  intros H. unfold march_date, day_of. cbv zeta.
  set (mon := (yday + 31) * 10 / 306).
  assert (Hm : 1 <= mon <= 12 /\ (306 <= yday -> 11 <= mon) /\ (yday < 306 -> mon <= 10)).
  { unfold mon. Z.to_euclidean_division_equations. lia. }
  destruct (Z.leb_spec 306 yday).
  - destruct (Z.leb_spec (mon - 10 - 2) 0); [|lia].
    replace (mon - 10 - 2 + 12) with mon by ring. replace (y + 1 - 1) with y by ring.
    unfold march. ring.
  - destruct (Z.leb_spec (mon + 2 - 2) 0); [lia|].
    replace (mon + 2 - 2) with mon by ring. unfold march. ring.
Qed.

Lemma march_bounds y : 0 <= y <= 9999 -> 0 <= march y <= 3652059.
Proof. intros H. unfold march. Z.to_euclidean_division_equations. lia. Qed.

Lemma march_len_bounds y : 365 <= march_len y <= 366.
Proof. unfold march_len. case_if; lia. Qed.

(** Every day after the epoch is a day of a March year, and its date is that
    reached by counting. *)
Lemma march_of_day n :
  exists y yday, 1969 <= y /\ 0 <= yday < march_len y
    /\ Z.of_nat n = march y + yday - 719468 /\ date_after n = march_date y yday.
Proof.
  induction n as [|n (y & yday & Hy & Hd & Hn & IH)].
  - exists 1969, 306. repeat split; try lia; vm_compute; congruence.
  - pose proof (march_date_next y yday Hd) as K. pose proof (march_succ y ltac:(lia)) as Hs.
    change (date_after (S n)) with (next_date (date_after n)). rewrite IH.
    destruct (march_date y yday) as [[y' m] d]. destruct K as (_ & _ & _ & ->).
    pose proof (march_len_bounds (y + 1)).
    destruct (Z.ltb_spec (yday + 1) (march_len y)).
    + exists y, (yday + 1). repeat split; lia.
    + exists (y + 1), 0. repeat split; lia.
Qed.

(** The C arithmetic never wraps on the days it accepts. *)
Lemma gm_date_spec y yday :
  1969 <= y <= 9999 -> 0 <= yday < march_len y ->
  gm_date (march y + yday - 719468) = march_date y yday.
Proof.
  intros Hy Hd. pose proof (march_bounds y ltac:(lia)) as B. pose proof (march_len_bounds y) as L.
  pose proof (march_succ y ltac:(lia)) as Hs.
  assert (B1 : 0 <= march (y + 1) <= 3652425) by lia.
  unfold gm_date. cbv zeta.
  replace (march y + yday - 719468 - (31 + 28) + 719527) with (march y + yday) by ring.
  rewrite !(u64_small (march y + yday)) by lia.
  rewrite !(u64_small ((march y + yday + 2) * 400)) by lia.
  change (365 * 400 + 100 - 4 + 1) with 146097.
  assert (F : forall yd, 0 <= yd < march_len y ->
    (let mon := u64 (Z.quot ((yd + 31) * 10) 306) in
     let mday := u64 (yd - (367 * mon / 12 - 30) + 1) in
     if 306 <=? yd then (u64 (y + 1), u64 (mon - 10), mday)
     else (y, u64 (mon + 2), mday)) = march_date y yd).
  { intros yd Hyd. cbv zeta. unfold march_date.
    rewrite Z.quot_div_nonneg by lia. set (mon := (yd + 31) * 10 / 306).
    assert (Hm : 1 <= mon <= 12 /\ (306 <= yd -> 11 <= mon))
      by (unfold mon; Z.to_euclidean_division_equations; lia).
    rewrite !(u64_small mon) by lia.
    assert (Hd' : 0 <= yd - (367 * mon / 12 - 30) + 1 < 1000)
      by (unfold mon; Z.to_euclidean_division_equations; lia).
    rewrite !(u64_small (yd - _ + 1)) by lia. rewrite (u64_small (y + 1)) by lia.
    destruct (Z.leb_spec 306 yd); [rewrite (u64_small (mon - 10)) by lia
                                  |rewrite (u64_small (mon + 2)) by lia]; reflexivity. }
  destruct (march_year y (march y + yday)) as [->| ->]; [lia|lia| |].
  - fold (march y). replace (march y + yday - march y) with yday by ring.
    rewrite !s64_small by lia. destruct (Z.ltb_spec yday 0); [lia|]. apply F. lia.
  - fold (march (y + 1)). rewrite !(s64_small (march y + yday - march (y + 1))) by lia.
    destruct (Z.ltb_spec (march y + yday - march (y + 1)) 0); [|lia].
    fold (leap_year (y + 1)).
    replace (365 + (if leap_year (y + 1) then 1 else 0) + (march y + yday - march (y + 1)))
      with yday by (unfold march_len in *; destruct (leap_year (y + 1)); lia).
    rewrite s64_small, (u64_small (y + 1 - 1)) by lia.
    replace (y + 1 - 1) with y by ring. apply F. lia.
Qed.

(** The fields of a valid time. *)
Lemma gm_date_day days : 0 <= days <= MAX_DAYS ->
  let '(y, m, d) := gm_date days in
  date_after (Z.to_nat days) = (y, m, d) /\ 1970 <= y <= 9999 /\ 1 <= m <= 12
  /\ 1 <= d <= month_days y m /\ day_of (y, m, d) = days.
Proof.
  intros H. unfold MAX_DAYS in H.
  destruct (march_of_day (Z.to_nat days)) as (y & yday & Hy & Hd & Hn & E).
  rewrite Z2Nat.id in Hn by lia.
  assert (Hy2 : y <= 9999).
  { assert (146097 * y <= (march y + 2) * 400); [|lia].
    unfold march. Z.to_euclidean_division_equations. lia. }
  pose proof (march_len_bounds y).
  assert (G : gm_date days = march_date y yday) by (rewrite Hn; apply gm_date_spec; lia).
  rewrite G, E. pose proof (day_of_march y yday ltac:(lia)) as D.
  pose proof (march_date_next y yday Hd) as K.
  assert (Y1 : 1970 <= fst (fst (march_date y yday)) <= 9999).
  { unfold march_date. pose proof (march_succ y ltac:(lia)).
    case_if; cbn [fst]; [|destruct (Z.eq_dec y 1969) as [->|]; [|lia]];
      [destruct (Z.eq_dec y 9999) as [->|]; [|lia]|];
      change (march 9999) with 3652059 in *; change (march 1969) with 719162 in *; lia. }
  destruct (march_date y yday) as [[y' m] d]. cbn [fst] in Y1.
  destruct K as (K1 & K2 & _). repeat split; try lia.
Qed.

(** ** Lemmas: writing *)

Lemma dec_text_step f ui p : 10 <= ui ->
  dec_text (S f) ui p = dec_text f (ui / 10) (48 + ui mod 10 :: p).
Proof.
  intros H. cbn [dec_text]. pose proof (Z.mod_pos_bound ui 10 ltac:(lia)).
  rewrite u8_small by byte_lia. rewrite Z.add_comm.
  destruct (Z.eqb_spec (ui / 10) 0) as [E|E]; [|reflexivity].
  apply Z.div_small_iff in E; lia.
Qed.

Lemma dec_text_last f ui p : 0 <= ui < 10 -> dec_text (S f) ui p = 48 + ui :: p.
Proof.
  intros H. cbn [dec_text]. rewrite Z.div_small, Z.mod_small by lia.
  rewrite u8_small by byte_lia. now rewrite Z.add_comm.
Qed.

Lemma num_text_small n : 0 <= n < 10000 -> num_text n 0 = dec_text 20 n [].
Proof.
  intros H. unfold num_text. rewrite Z.eqb_refl. rewrite u32_small by byte_lia.
  destruct (Z.leb_spec n 4294967295); [reflexivity|lia].
Qed.

(** "%02d" *)
Lemma sprintf_d2 room n : 0 <= n < 100 -> (2 <= room)%nat ->
  ngx_sprintf_num room n "0"%chr 0 2 = d2 n.
Proof.
  intros H Hr. rewrite sprintf_num_firstn, num_text_small by lia. unfold d2.
  destruct (Z.ltb_spec n 10).
  - rewrite dec_text_last by lia. rewrite firstn_all2 by (cbn; lia). cbn [length Nat.sub repeat app].
    rewrite Z.div_small, (Z.mod_small n) by lia. reflexivity.
  - rewrite dec_text_step, dec_text_last by (Z.to_euclidean_division_equations; lia).
    rewrite firstn_all2 by (cbn; lia). cbn [length Nat.sub repeat app].
    rewrite (Z.mod_small (n / 10)) by (Z.to_euclidean_division_equations; lia). reflexivity.
Qed.

(** "%4d" and "%d" *)
Lemma sprintf_d4 room n zero width : 1000 <= n < 10000 -> (4 <= room)%nat -> (width <= 4)%nat ->
  ngx_sprintf_num room n zero 0 width = d4 n.
Proof.
  intros H Hr Hw. rewrite sprintf_num_firstn, num_text_small by lia. unfold d4, d2.
  rewrite !dec_text_step, dec_text_last by (Z.to_euclidean_division_equations; lia).
  rewrite firstn_all2 by (rewrite length_app, repeat_length; cbn; lia).
  cbn [length]. replace (width - 4)%nat with 0%nat by lia. cbn [repeat app].
  rewrite !Z.div_div by lia. change (10 * 10) with 100. change (10 * 100) with 1000.
  change (100 * 10) with 1000.
  rewrite (Z.mod_small (n / 1000)) by (Z.to_euclidean_division_equations; lia). reflexivity.
Qed.

Lemma s32_u64 n : 0 <= n < 10000 -> u64 (s32 n) = n /\ (s32 n <? 0) = false.
Proof.
  intros H. assert (E : s32 n = n)
    by (unfold s32; rewrite Z.mod_small by lia; ring).
  rewrite E. split; [apply u64_small; lia|lia].
Qed.

(** One conversion of the format strings used here. *)
Lemma loop_char f room c fmt args : c <> "%"%chr -> (1 <= room)%nat ->
  vslprintf_loop (S f) room (c :: fmt) args =
  option_map (cons c) (vslprintf_loop f (room - 1) fmt args).
Proof.
  intros H Hr. destruct room as [|room]; [lia|]. cbn [vslprintf_loop].
  destruct (Z.eqb_spec c 37); [congruence|]. rewrite Nat.sub_succ, Nat.sub_0_r.
  now destruct (vslprintf_loop f room fmt args).
Qed.

Lemma loop_nil f room args : vslprintf_loop f room [] args = Some [].
Proof. now destruct f. Qed.

Lemma loop_d2 f room fmt args n : 0 <= n < 100 -> (2 <= room)%nat ->
  vslprintf_loop (S f) room (bs "%02d" ++ fmt) (AInt n :: args) =
  option_map (app (d2 n)) (vslprintf_loop f (room - 2) fmt args).
Proof.
  intros H Hr. destruct room as [|room]; [lia|]. destruct (s32_u64 n ltac:(lia)) as [E1 E2].
  change (bs "%02d" ++ fmt) with ("%"%chr :: "0"%chr :: "2"%chr :: "d"%chr :: fmt).
  cbn [vslprintf_loop Z.eqb Pos.eqb].
  replace (fmt_conv (S room) ("0"%chr :: "2"%chr :: "d"%chr :: fmt) (AInt n :: args))
    with (Some (ngx_sprintf_num (S room) (u64 (s32 n)) "0"%chr 0 2, fmt, args))
    by (unfold fmt_conv; cbn -[s32 u64 ngx_sprintf_num]; now rewrite E2).
  rewrite E1, sprintf_d2 by lia. change (length (d2 n)) with 2%nat.
  now destruct (vslprintf_loop f (S room - 2) fmt args).
Qed.

Lemma loop_d4 f room fmt args n : 1000 <= n < 10000 -> (4 <= room)%nat ->
  vslprintf_loop (S f) room (bs "%4d" ++ fmt) (AInt n :: args) =
  option_map (app (d4 n)) (vslprintf_loop f (room - 4) fmt args)
  /\ vslprintf_loop (S f) room (bs "%d" ++ fmt) (AInt n :: args) =
  option_map (app (d4 n)) (vslprintf_loop f (room - 4) fmt args).
Proof.
  intros H Hr. destruct room as [|room]; [lia|]. destruct (s32_u64 n ltac:(lia)) as [E1 E2].
  change (bs "%4d" ++ fmt) with ("%"%chr :: "4"%chr :: "d"%chr :: fmt).
  change (bs "%d" ++ fmt) with ("%"%chr :: "d"%chr :: fmt).
  cbn [vslprintf_loop Z.eqb Pos.eqb].
  replace (fmt_conv (S room) ("4"%chr :: "d"%chr :: fmt) (AInt n :: args))
    with (Some (ngx_sprintf_num (S room) (u64 (s32 n)) " "%chr 0 4, fmt, args))
    by (unfold fmt_conv; cbn -[s32 u64 ngx_sprintf_num]; now rewrite E2).
  replace (fmt_conv (S room) ("d"%chr :: fmt) (AInt n :: args))
    with (Some (ngx_sprintf_num (S room) (u64 (s32 n)) " "%chr 0 0, fmt, args))
    by (unfold fmt_conv; cbn -[s32 u64 ngx_sprintf_num]; now rewrite E2).
  rewrite E1, !sprintf_d4 by lia. change (length (d4 n)) with 4%nat.
  now destruct (vslprintf_loop f (S room - 4) fmt args).
Qed.

Lemma loop_s f room fmt args s : cstr s = s -> (length s <= room)%nat -> s <> [] ->
  vslprintf_loop (S f) room (bs "%s" ++ fmt) (AStr s :: args) =
  option_map (app s) (vslprintf_loop f (room - length s) fmt args).
Proof.
  intros H Hr Hs. destruct room as [|room]; [destruct s; [congruence|cbn in Hr; lia]|].
  change (bs "%s" ++ fmt) with ("%"%chr :: "s"%chr :: fmt).
  cbn [vslprintf_loop Z.eqb Pos.eqb].
  replace (fmt_conv (S room) ("s"%chr :: fmt) (AStr s :: args)) with (Some (s, fmt, args)).
  - now destruct (vslprintf_loop f (S room - length s) fmt args).
  - unfold fmt_conv. cbn -[ngx_sprintf_str]. unfold ngx_sprintf_str. rewrite H. cbn [Z.eqb].
    now rewrite firstn_all2 by lia.
Qed.

(** The names of days and months: three bytes, no terminator, no separator. *)
Definition name_ok (s : list Z) : Prop :=
  cstr s = s /\ length s = 3%nat
  /\ forall r, to_separator (s ++ ","%chr :: r) = (false, r)
             /\ to_separator (s ++ " "%chr :: r) = (true, r).

Lemma week_ok w : 0 <= w < 7 -> name_ok (nth (Z.to_nat w) week []).
Proof.
  intros H. assert (F : Forall name_ok week) by (repeat constructor).
  rewrite Forall_forall in F. apply F, nth_In. change (length week) with 7%nat. lia.
Qed.

Lemma months_ok m : 1 <= m <= 12 ->
  name_ok (nth (Z.to_nat (m - 1)) months [])
  /\ forall r, parse_month (nth (Z.to_nat (m - 1)) months [] ++ r) = Ok (m - 1).
Proof.
  intros H.
  assert (F : Forall2 (fun s k => name_ok s /\ forall r, parse_month (s ++ r) = Ok k)
    months (map Z.of_nat (seq 0 12))) by (repeat constructor).
  assert (G : forall l k, Forall2 (fun s k => name_ok s /\ forall r, parse_month (s ++ r) = Ok k) l k ->
    forall i, (i < length l)%nat ->
    name_ok (nth i l []) /\ forall r, parse_month (nth i l [] ++ r) = Ok (nth i k (Z.of_nat 0))).
  { induction 1; intros [|i] Hi; cbn in *; try lia; auto. apply IHForall2. lia. }
  specialize (G _ _ F (Z.to_nat (m - 1)) ltac:(change (length months) with 12%nat; lia)).
  rewrite map_nth, seq_nth in G by lia.
  rewrite Nat.add_0_l, Z2Nat.id in G by lia. exact G.
Qed.

(** A broken-down time with fields in their ranges. *)
Definition tm_ok (t : tm) : Prop :=
  0 <= tm_sec t <= 59 /\ 0 <= tm_min t <= 59 /\ 0 <= tm_hour t <= 23
  /\ 1 <= tm_mon t <= 12 /\ 1 <= tm_mday t <= month_days (tm_year t) (tm_mon t)
  /\ 1970 <= tm_year t <= 9999 /\ 0 <= tm_wday t < 7.

Lemma month_days_31 y m : month_days y m <= 31.
Proof.
  unfold month_days. case_if; [lia|]. generalize (Z.to_nat (m - 1)). intros i.
  do 12 (destruct i as [|i]; [cbn; lia|]). destruct i; cbn; lia.
Qed.

Lemma gmtime_fields t : 0 <= t <= MAX_TIME ->
  tm_ok (ngx_gmtime t)
  /\ day_of (tm_year (ngx_gmtime t), tm_mon (ngx_gmtime t), tm_mday (ngx_gmtime t)) * 86400
     + tm_hour (ngx_gmtime t) * 3600 + tm_min (ngx_gmtime t) * 60 + tm_sec (ngx_gmtime t) = t
  /\ date_after (Z.to_nat (t / 86400)) =
     (tm_year (ngx_gmtime t), tm_mon (ngx_gmtime t), tm_mday (ngx_gmtime t))
  /\ tm_wday (ngx_gmtime t) = (4 + t / 86400) mod 7.
Proof.
  intros H. unfold MAX_TIME, MAX_DAYS in H. unfold ngx_gmtime.
  destruct (Z.ltb_spec t 0); [lia|].
  assert (Hd : 0 <= t / 86400 <= MAX_DAYS)
    by (unfold MAX_DAYS; Z.to_euclidean_division_equations; lia).
  destruct (Z.ltb_spec 2932896 (t / 86400)); [unfold MAX_DAYS in Hd; lia|].
  pose proof (gm_date_day _ Hd) as G. destruct (gm_date (t / 86400)) as [[y m] d].
  destruct G as (E & G1 & G2 & G3 & G4). unfold tm_ok.
  cbn [tm_sec tm_min tm_hour tm_mday tm_mon tm_year tm_wday]. rewrite G4.
  split; [repeat split; try lia; Z.to_euclidean_division_equations; lia|].
  split; [Z.to_euclidean_division_equations; lia|]. auto.
Qed.


(** Rewrite with the lemmas on conversions as long as one applies. *)
Ltac side := (assumption || discriminate || lia).
Ltac run_format :=
  repeat first
    [ rewrite loop_nil
    | rewrite loop_char by side
    | rewrite loop_d2 by side
    | rewrite (fun f r x a n H K => proj1 (loop_d4 f r x a n H K)) by side
    | rewrite (fun f r x a n H K => proj2 (loop_d4 f r x a n H K)) by side
    | rewrite loop_s by side ].

(** The names of a time in range, as [loop_s] needs them. *)
Lemma name_texts t : tm_ok t ->
  (cstr (wday_text t) = wday_text t /\ length (wday_text t) = 3%nat /\ wday_text t <> [])
  /\ (cstr (mon_text t) = mon_text t /\ length (mon_text t) = 3%nat /\ mon_text t <> []).
Proof.
  intros (_ & _ & _ & F4 & _ & _ & F7).
  destruct (week_ok _ F7) as (W1 & W2 & _). destruct (months_ok _ F4) as [(M1 & M2 & _) _].
  unfold wday_text, mon_text. split; (split; [assumption|split; [assumption|]]);
    intros E; rewrite E in *; discriminate.
Qed.

Lemma http_time_text top t : 0 <= t <= MAX_TIME -> (29 <= top)%nat ->
  ngx_http_time top t = Some (rfc822_text (ngx_gmtime t)).
Proof.
  intros Ht Htop. unfold ngx_http_time. destruct (gmtime_fields t Ht) as (F & _).
  set (u := ngx_gmtime t) in *. clearbody u.
  destruct (name_texts u F) as [(W1 & W2 & W3) (M1 & M2 & M3)].
  destruct F as (F1 & F2 & F3 & F4 & F5 & F6 & F7).
  pose proof (month_days_31 (tm_year u) (tm_mon u)).
  fold (wday_text u) (mon_text u). unfold rfc822_text, clock_text, ngx_vslprintf.
  change (bs "%s, %02d %s %4d %02d:%02d:%02d GMT") with
    (bs "%s" ++ ","%chr :: " "%chr :: bs "%02d" ++ " "%chr :: bs "%s" ++ " "%chr ::
     bs "%4d" ++ " "%chr :: bs "%02d" ++ ":"%chr :: bs "%02d" ++ ":"%chr :: bs "%02d" ++
     " "%chr :: "G"%chr :: "M"%chr :: "T"%chr :: []).
  set (len := length _). change len with 34%nat. clear len.
  run_format. cbn [option_map]. reflexivity.
Qed.

(** The cookie date has a two-digit year up to 2037. *)
Definition cookie_text (t : tm) : list Z :=
  wday_text t ++ bs ", " ++ d2 (tm_mday t) ++ "-"%chr :: mon_text t ++ "-"%chr ::
  (if 2037 <? tm_year t then d4 (tm_year t) else d2 (tm_year t mod 100)) ++
  " "%chr :: clock_text t ++ bs " GMT".

Lemma cookie_time_text top t : 0 <= t <= MAX_TIME -> (31 <= top)%nat ->
  ngx_http_cookie_time top t = Some (cookie_text (ngx_gmtime t)).
Proof.
  intros Ht Htop. unfold ngx_http_cookie_time. destruct (gmtime_fields t Ht) as (F & _).
  set (u := ngx_gmtime t) in *. clearbody u.
  destruct (name_texts u F) as [(W1 & W2 & W3) (M1 & M2 & M3)].
  destruct F as (F1 & F2 & F3 & F4 & F5 & F6 & F7).
  pose proof (month_days_31 (tm_year u) (tm_mon u)).
  pose proof (Z.mod_pos_bound (tm_year u) 100 ltac:(lia)).
  fold (wday_text u) (mon_text u). unfold cookie_text, clock_text, ngx_vslprintf. case_if.
  - change (bs "%s, %02d-%s-%d %02d:%02d:%02d GMT") with
      (bs "%s" ++ ","%chr :: " "%chr :: bs "%02d" ++ "-"%chr :: bs "%s" ++ "-"%chr ::
       bs "%d" ++ " "%chr :: bs "%02d" ++ ":"%chr :: bs "%02d" ++ ":"%chr :: bs "%02d" ++
       " "%chr :: "G"%chr :: "M"%chr :: "T"%chr :: []).
    set (len := length _). change len with 33%nat. clear len.
    run_format. cbn [option_map]. reflexivity.
  - change (bs "%s, %02d-%s-%02d %02d:%02d:%02d GMT") with
      (bs "%s" ++ ","%chr :: " "%chr :: bs "%02d" ++ "-"%chr :: bs "%s" ++ "-"%chr ::
       bs "%02d" ++ " "%chr :: bs "%02d" ++ ":"%chr :: bs "%02d" ++ ":"%chr :: bs "%02d" ++
       " "%chr :: "G"%chr :: "M"%chr :: "T"%chr :: []).
    set (len := length _). change len with 35%nat. clear len.
    run_format. cbn [option_map]. reflexivity.
Qed.

(** The fields spell the texts of the calendar. *)
Lemma field_texts t : 0 <= t <= MAX_TIME ->
  let u := ngx_gmtime t in
  rfc822_text u = imf_fixdate t /\ rfc850_text u = rfc850_date t /\ isoc_text u = asctime_date t
  /\ tm_year u = year_of t.
Proof.
  intros Ht. cbv zeta. destruct (gmtime_fields t Ht) as (F & E & D & W).
  set (u := ngx_gmtime t) in *. clearbody u.
  assert (Wd : wday_text u = day_name t).
  { unfold wday_text, day_name. rewrite W, (Z.add_comm 4). pose proof (Z.mod_pos_bound (t / 86400 + 4) 7 ltac:(lia)) as B.
    set (w := (t / 86400 + 4) mod 7) in *. clearbody w.
    assert (C : w = 0 \/ w = 1 \/ w = 2 \/ w = 3 \/ w = 4 \/ w = 5 \/ w = 6) by lia.
    repeat destruct C as [->|C]; try subst w; reflexivity. }
  destruct F as (F1 & F2 & F3 & F4 & _).
  assert (Mn : mon_text u = month_name (tm_mon u)).
  { unfold mon_text. set (m := tm_mon u) in *. clearbody m.
    assert (C : m = 1 \/ m = 2 \/ m = 3 \/ m = 4 \/ m = 5 \/ m = 6 \/ m = 7 \/ m = 8 \/ m = 9 \/ m = 10 \/ m = 11 \/ m = 12) by lia.
    repeat destruct C as [->|C]; try subst m; reflexivity. }
  assert (Ck : clock_text u = clock_of t).
  { unfold clock_text, clock_of. set (h := tm_hour u) in *. set (mi := tm_min u) in *. set (s := tm_sec u) in *.
    clearbody h mi s. set (n := day_of _) in E. clearbody n. clear - E F1 F2 F3.
    assert (t mod 86400 = h * 3600 + mi * 60 + s) as -> by (Z.to_euclidean_division_equations; lia).
    cbv zeta. replace ((h * 3600 + mi * 60 + s) / 3600) with h by (Z.to_euclidean_division_equations; lia).
    replace ((h * 3600 + mi * 60 + s) / 60 mod 60) with mi by (Z.to_euclidean_division_equations; lia).
    replace ((h * 3600 + mi * 60 + s) mod 60) with s by (Z.to_euclidean_division_equations; lia). reflexivity. }
  unfold rfc822_text, rfc850_text, isoc_text, imf_fixdate, rfc850_date, asctime_date, year_of, date_of.
  rewrite D, Wd, Mn, Ck. auto.
Qed.

(** ** Lemmas: reading *)

Lemma digit_read p k n : nth_error p k = Some (48 + n) -> 0 <= n < 10 -> digit p k = Ok n.
Proof.
  intros E H. unfold digit, rd. rewrite E. cbn [obind].
  case_if; [lia|]. f_equal. lia.
Qed.

Lemma two_digits_read n r : 0 <= n < 100 -> two_digits (d2 n ++ r) = Ok n.
Proof.
  intros H. unfold two_digits, d2.
  rewrite (digit_read _ 0 (n / 10 mod 10)) by
    (try reflexivity; Z.to_euclidean_division_equations; lia).
  cbn [obind]. rewrite (digit_read _ 1 (n mod 10)) by
    (try reflexivity; Z.to_euclidean_division_equations; lia).
  cbn [obind]. f_equal. Z.to_euclidean_division_equations; lia.
Qed.

Lemma four_digits_read n r : 0 <= n < 10000 -> four_digits (d4 n ++ r) = Ok n.
Proof.
  intros H. unfold four_digits, d4, d2.
  rewrite (digit_read _ 0 (n / 1000 mod 10)) by
    (try reflexivity; apply Z.mod_pos_bound; lia).
  cbn [obind]. rewrite (digit_read _ 1 (n / 100 mod 10)) by
    (try reflexivity; apply Z.mod_pos_bound; lia).
  cbn [obind]. rewrite (digit_read _ 2 (n / 10 mod 10)) by
    (try reflexivity; apply Z.mod_pos_bound; lia).
  cbn [obind]. rewrite (digit_read _ 3 (n mod 10)) by
    (try reflexivity; apply Z.mod_pos_bound; lia).
  cbn [obind]. f_equal. Z.to_euclidean_division_equations; lia.
Qed.

Lemma skip_d2 n r : skipn 2 (d2 n ++ r) = r.
Proof. reflexivity. Qed.

Lemma skip_d4 n r : skipn 4 (d4 n ++ r) = r.
Proof. reflexivity. Qed.

Lemma expect_read c r : expect (c :: r) c = Ok tt.
Proof. unfold expect. cbn [rd nth_error obind]. now rewrite Z.eqb_refl. Qed.

Lemma skip_1 (c : Z) r : skipn 1 (c :: r) = r.
Proof. reflexivity. Qed.

Ltac run_parse :=
  repeat first
    [ rewrite two_digits_read by lia | rewrite four_digits_read by lia
    | rewrite skip_d2 | rewrite skip_d4 | rewrite skip_1 | rewrite expect_read
    | progress cbn [obind app] | rewrite <- app_assoc ].

Lemma parse_clock_read fmt year t r : tm_ok t ->
  parse_clock fmt year (" "%chr :: clock_text t ++ r)
  = match fmt with
    | isoc => let* _ := expect r " "%chr in let* y := four_digits (skipn 1 r) in
              Ok (y, tm_hour t, tm_min t, tm_sec t)
    | _ => Ok (year, tm_hour t, tm_min t, tm_sec t)
    end.
Proof.
  intros (F1 & F2 & F3 & _). unfold parse_clock, clock_text.
  run_parse. now destruct fmt.
Qed.

(** The final computation on a date of the calendar. *)
Lemma day_valid_date t : tm_ok t -> day_valid (tm_year t) (tm_mon t - 1) (tm_mday t) = true.
Proof.
  intros (_ & _ & _ & Hm & Hd & _). unfold day_valid. unfold month_days, leap_year in Hd.
  change 3 with (Z.ones 2). rewrite Z.land_ones by lia. change (2 ^ 2) with 4.
  destruct (Z.eqb_spec (tm_mday t) 29) as [E|E]; cbn [andb].
  - destruct (Z.eqb_spec (tm_mon t - 1) 1) as [F|F].
    + replace (tm_mon t) with 2 in Hd by lia. cbn [Z.eqb Pos.eqb andb] in Hd.
      change (nth (Z.to_nat (2 - 1)) mday 0) with 28 in Hd.
      case_if_in Hd; lia.
    + destruct (Z.eqb_spec (tm_mon t) 2); [lia|]. cbn [andb] in Hd. lia.
  - destruct (Z.eqb_spec (tm_mon t) 2) as [F|F]; cbn [andb] in Hd; [|lia].
    rewrite F in *. change (nth (Z.to_nat (2 - 1)) mday 0) with 28 in *.
    case_if_in Hd; lia.
Qed.

Lemma gauss_time_spec t : tm_ok t ->
  0 <= day_of (tm_year t, tm_mon t, tm_mday t) <= MAX_DAYS ->
  s64 (gauss_time (tm_year t) (tm_mon t - 1) (tm_mday t) (tm_hour t) (tm_min t) (tm_sec t))
  = day_of (tm_year t, tm_mon t, tm_mday t) * 86400 + tm_hour t * 3600 + tm_min t * 60 + tm_sec t.
Proof.
  intros (F1 & F2 & F3 & Hm & _ & Hy & _) Hr. unfold MAX_DAYS in Hr. unfold gauss_time, day_of in *.
  replace (tm_mon t - 1 - 1) with (tm_mon t - 2) by ring.
  destruct (Z.leb_spec (tm_mon t - 2) 0);
    rewrite ?(u64_small (tm_year t - 1)), Z.quot_div_nonneg by lia;
    rewrite u64_small by lia; apply s64_small; lia.
Qed.

(** The tail of the parser, after the format has been read. *)
Lemma parse_finish t : tm_ok t ->
  day_of (tm_year t, tm_mon t, tm_mday t) * 86400 + tm_hour t * 3600 + tm_min t * 60 + tm_sec t
  <= MAX_TIME -> 0 <= day_of (tm_year t, tm_mon t, tm_mday t) ->
  (if (23 <? tm_hour t) || (59 <? tm_min t) || (59 <? tm_sec t) then Fail
   else if day_valid (tm_year t) (tm_mon t - 1) (tm_mday t)
   then Ok (s64 (gauss_time (tm_year t) (tm_mon t - 1) (tm_mday t) (tm_hour t) (tm_min t) (tm_sec t)))
   else Fail)
  = Ok (day_of (tm_year t, tm_mon t, tm_mday t) * 86400 + tm_hour t * 3600 + tm_min t * 60 + tm_sec t).
Proof.
  intros F H1 H2. rewrite day_valid_date, gauss_time_spec; try exact F.
  - destruct F as (F1 & F2 & F3 & _). case_if; [lia|reflexivity].
  - destruct F as (F1 & F2 & F3 & _). unfold MAX_TIME in H1. lia.
Qed.

Lemma skip_blank_d2 n r : 0 <= n < 100 -> skip_blanks (" "%chr :: d2 n ++ r) = d2 n ++ r.
Proof.
  intros H. unfold d2. cbn [app skip_blanks Z.eqb Pos.eqb].
  destruct (Z.eqb_spec (48 + n / 10 mod 10) 32) as [E|E]; [|reflexivity].
  exfalso. Z.to_euclidean_division_equations; lia.
Qed.

Lemma d2_length n : length (d2 n) = 2%nat.
Proof. reflexivity. Qed.

Lemma d4_length n : length (d4 n) = 4%nat.
Proof. reflexivity. Qed.

Lemma clock_length t : length (clock_text t) = 8%nat.
Proof. reflexivity. Qed.

Lemma month_read t r : tm_ok t ->
  parse_month (mon_text t ++ r) = Ok (tm_mon t - 1) /\ skipn 3 (mon_text t ++ r) = r
  /\ length (mon_text t) = 3%nat /\ (forall r, skip_blanks (" "%chr :: mon_text t ++ r) = mon_text t ++ r).
Proof.
  intros F. destruct (name_texts t F) as [_ (_ & M & _)]. destruct F as (_ & _ & _ & F4 & _).
  destruct (months_ok _ F4) as [_ P]. split; [apply P|]. rewrite <- M at 1.
  rewrite skipn_app, skipn_all, Nat.sub_diag. split; [reflexivity|]. split; [exact M|].
  intros r'. specialize (P r'). unfold mon_text in *.
  destruct (nth (Z.to_nat (tm_mon t - 1)) months []) as [|c l]; [discriminate M|].
  cbn [app skip_blanks Z.eqb Pos.eqb]. destruct (Z.eqb_spec c 32) as [->|]; [|reflexivity].
  exfalso. unfold parse_month, rd in P. cbn in P. discriminate P.
Qed.

Ltac lengths :=
  match goal with H : (length _ < 18)%nat |- _ => revert H end;
  repeat first [rewrite length_app | rewrite d2_length | rewrite d4_length
               | rewrite clock_length | progress cbn [length]]; lia.

Definition stamp (t : tm) : Z :=
  day_of (tm_year t, tm_mon t, tm_mday t) * 86400 + tm_hour t * 3600 + tm_min t * 60 + tm_sec t.

(** The text after the day name, in the two formats with a comma. *)
Lemma parse_start t r : tm_ok t ->
  to_separator (wday_text t ++ bs ", " ++ d2 (tm_mday t) ++ r)
    = (false, " "%chr :: d2 (tm_mday t) ++ r)
  /\ skip_blanks (" "%chr :: d2 (tm_mday t) ++ r) = d2 (tm_mday t) ++ r
  /\ to_separator (wday_text t ++ " "%chr :: r) = (true, r)
  /\ 0 <= tm_mday t < 100 /\ 0 <= tm_year t < 10000.
Proof.
  intros F. pose proof (month_days_31 (tm_year t) (tm_mon t)).
  assert (Hd : 0 <= tm_mday t < 100) by (destruct F as (_ & _ & _ & _ & F5 & _); lia).
  assert (Hy : 0 <= tm_year t < 10000) by (destruct F as (_ & _ & _ & _ & _ & F6 & _); lia).
  destruct (week_ok (tm_wday t)) as (_ & _ & W); [apply F|].
  split; [apply W|]. split; [now apply skip_blank_d2|]. split; [apply W|]. auto.
Qed.

Lemma parse_rfc822 t : tm_ok t -> 0 <= day_of (tm_year t, tm_mon t, tm_mday t) ->
  stamp t <= MAX_TIME -> ngx_parse_http_time (rfc822_text t) = Ok (stamp t).
Proof.
  intros F H1 H2. unfold ngx_parse_http_time, rfc822_text.
  destruct (parse_start t (" "%chr :: mon_text t ++ " "%chr :: d4 (tm_year t) ++
    " "%chr :: clock_text t ++ bs " GMT") F) as (S1 & S2 & _ & Hd & Hy).
  rewrite S1, S2. destruct (month_read t (" "%chr :: d4 (tm_year t) ++
    " "%chr :: clock_text t ++ bs " GMT") F) as (M1 & M2 & M3 & _).
  destruct (Nat.ltb_spec (length (d2 (tm_mday t) ++ " "%chr :: mon_text t ++ " "%chr ::
    d4 (tm_year t) ++ " "%chr :: clock_text t ++ bs " GMT")) 18); [exfalso; lengths|].
  unfold parse_day. rewrite two_digits_read, skip_d2 by exact Hd. cbn [obind rd nth_error Z.eqb Pos.eqb].
  destruct (Nat.ltb_spec (length (" "%chr :: mon_text t ++ " "%chr ::
    d4 (tm_year t) ++ " "%chr :: clock_text t ++ bs " GMT")) 18); [exfalso; lengths|].
  rewrite skip_1. cbn [obind]. rewrite M1, M2. run_parse. unfold parse_year_day. run_parse.
  rewrite parse_clock_read by exact F. run_parse. now apply parse_finish.
Qed.

Lemma parse_rfc850 t : tm_ok t -> 0 <= day_of (tm_year t, tm_mon t, tm_mday t) ->
  stamp t <= MAX_TIME -> tm_year t < 2070 -> ngx_parse_http_time (rfc850_text t) = Ok (stamp t).
Proof.
  intros F H1 H2 Hc. unfold ngx_parse_http_time, rfc850_text.
  destruct (parse_start t ("-"%chr :: mon_text t ++ "-"%chr :: d2 (tm_year t mod 100) ++
    " "%chr :: clock_text t ++ bs " GMT") F) as (S1 & S2 & _ & Hd & Hy).
  rewrite S1, S2. destruct (month_read t ("-"%chr :: d2 (tm_year t mod 100) ++
    " "%chr :: clock_text t ++ bs " GMT") F) as (M1 & M2 & M3 & _).
  destruct (Nat.ltb_spec (length (d2 (tm_mday t) ++ "-"%chr :: mon_text t ++ "-"%chr ::
    d2 (tm_year t mod 100) ++ " "%chr :: clock_text t ++ bs " GMT")) 18); [exfalso; lengths|].
  unfold parse_day. rewrite two_digits_read, skip_d2 by exact Hd. cbn [obind rd nth_error Z.eqb Pos.eqb].
  rewrite skip_1. cbn [obind]. rewrite M1, M2. run_parse. unfold parse_year_day.
  rewrite two_digits_read by (apply Z.mod_pos_bound; lia). run_parse.
  assert (E : tm_year t mod 100 + (if tm_year t mod 100 <? 70 then 2000 else 1900) = tm_year t).
  { destruct F as (_ & _ & _ & _ & _ & F6 & _).
    case_if; Z.to_euclidean_division_equations; lia. }
  rewrite E. rewrite parse_clock_read by exact F. run_parse. now apply parse_finish.
Qed.

Lemma parse_isoc t : tm_ok t -> 0 <= day_of (tm_year t, tm_mon t, tm_mday t) ->
  stamp t <= MAX_TIME -> ngx_parse_http_time (isoc_text t) = Ok (stamp t).
Proof.
  intros F H1 H2. unfold ngx_parse_http_time, isoc_text.
  set (dd := if tm_mday t <? 10 then _ else _).
  set (rest := " "%chr :: clock_text t ++ " "%chr :: d4 (tm_year t)).
  destruct (parse_start t (mon_text t ++ " "%chr :: dd ++ rest) F) as (_ & _ & S3 & Hd & Hy).
  rewrite S3. destruct (month_read t (" "%chr :: dd ++ rest) F) as (M1 & M2 & M3 & M4).
  assert (Mb : skip_blanks (mon_text t ++ " "%chr :: dd ++ rest) = mon_text t ++ " "%chr :: dd ++ rest)
    by exact (M4 _).
  rewrite Mb. clear Mb M4.
  assert (Ld : length dd = 2%nat) by (unfold dd; case_if; reflexivity).
  destruct (Nat.ltb_spec (length (mon_text t ++ " "%chr :: dd ++ rest)) 18);
    [exfalso; unfold rest in *; lengths|].
  cbn [parse_day obind]. rewrite M1, M2. run_parse.
  assert (Y : parse_year_day isoc 32 (dd ++ rest) = Ok (2038, tm_mday t, rest)).
  { unfold parse_year_day, dd. assert (1 <= tm_mday t) by (destruct F as (_ & _ & _ & _ & F5 & _); lia).
    destruct (Z.ltb_spec (tm_mday t) 10).
    - cbn [rd nth_error obind app Z.eqb Pos.eqb skipn].
      rewrite (digit_read _ 0 (tm_mday t)) by (try reflexivity; lia). reflexivity.
    - unfold d2. cbn [rd nth_error obind app].
      destruct (Z.eqb_spec (48 + tm_mday t / 10 mod 10) 32) as [E|_];
        [exfalso; Z.to_euclidean_division_equations; lia|].
      rewrite (digit_read _ 0 (tm_mday t / 10 mod 10)) by
        (try reflexivity; Z.to_euclidean_division_equations; lia).
      cbn [rd nth_error obind skipn].
      destruct (Z.eqb_spec (48 + tm_mday t mod 10) 32) as [E|_];
        [exfalso; Z.to_euclidean_division_equations; lia|].
      rewrite (digit_read _ 0 (tm_mday t mod 10)) by
        (try reflexivity; Z.to_euclidean_division_equations; lia).
      cbn [obind skipn fst snd]. replace (tm_mday t / 10 mod 10 * 10 + tm_mday t mod 10) with (tm_mday t)
        by (Z.to_euclidean_division_equations; lia). reflexivity. }
  rewrite Y. cbn [obind]. unfold rest. rewrite parse_clock_read by exact F.
  rewrite expect_read, skip_1. cbn [obind].
  rewrite <- (app_nil_r (d4 (tm_year t))), four_digits_read by lia. cbn [obind].
  now apply parse_finish.
Qed.

(** ** Lemmas: no read outside the text *)

Lemma obind_inb {A B} (m : outcome A) (f : A -> outcome B) :
  m <> Oob -> (forall a, m = Ok a -> f a <> Oob) -> obind m f <> Oob.
Proof. destruct m; cbn; auto; discriminate. Qed.

Lemma rd_inb p k : (k < length p)%nat -> rd p k <> Oob.
Proof.
  intros H. unfold rd. destruct (nth_error p k) eqn:E; [discriminate|].
  apply nth_error_None in E. lia.
Qed.

Lemma digit_inb p k : (k < length p)%nat -> digit p k <> Oob.
Proof.
  intros H. apply obind_inb; [now apply rd_inb|]. intros c _. case_if; discriminate.
Qed.

Lemma two_digits_inb p : (2 <= length p)%nat -> two_digits p <> Oob.
Proof.
  intros H. repeat (apply obind_inb; [apply digit_inb; lia|intros ? _]). discriminate.
Qed.

Lemma four_digits_inb p : (4 <= length p)%nat -> four_digits p <> Oob.
Proof.
  intros H. repeat (apply obind_inb; [apply digit_inb; lia|intros ? _]). discriminate.
Qed.

Lemma expect_inb p c : (1 <= length p)%nat -> expect p c <> Oob.
Proof.
  intros H. apply obind_inb; [apply rd_inb; lia|]. intros b _. case_if; discriminate.
Qed.

Lemma parse_month_inb p : (3 <= length p)%nat -> parse_month p <> Oob.
Proof.
  intros H. apply obind_inb; [apply rd_inb; lia|]. intros c _.
  repeat case_if; try discriminate; apply obind_inb; try (apply rd_inb; lia); intros c1 _;
    try discriminate.
  case_if; [discriminate|]. apply obind_inb; [apply rd_inb; lia|discriminate].
Qed.

Ltac inb := first
  [ discriminate | apply digit_inb | apply two_digits_inb | apply four_digits_inb
  | apply expect_inb | apply parse_month_inb | apply rd_inb ];
  rewrite ?length_skipn; lia.

#[local] Opaque skipn.

(** What is left after the day: enough for the rest of each format. *)
Definition left_for (fmt : date_fmt) (rfc822_n rfc850_n isoc_n : nat) (p : list Z) : Prop :=
  (match fmt with rfc822 => rfc822_n | rfc850 => rfc850_n | isoc => isoc_n end <= length p)%nat.

Lemma parse_day_inb b p : (18 <= length p)%nat ->
  parse_day b p <> Oob
  /\ forall d fmt p', parse_day b p = Ok (d, fmt, p') -> left_for fmt 17 15 18 p'.
Proof.
  intros H. unfold parse_day. destruct b.
  - split; [discriminate|]. intros d fmt p' [= <- <- <-]. exact H.
  - pose proof (two_digits_inb p ltac:(lia)) as T. destruct (two_digits p) as [d| |]; cbn [obind];
      [|split; discriminate|congruence].
    pose proof (rd_inb (skipn 2 p) 0 ltac:(rewrite length_skipn; lia)) as R.
    destruct (rd (skipn 2 p) 0) as [c| |]; cbn [obind]; [|split; discriminate|congruence].
    repeat case_if; split; try discriminate; intros ? ? ? [= <- <- <-]; unfold left_for;
      rewrite ?length_skipn in *; lia.
Qed.

Lemma parse_year_day_inb fmt d p : left_for fmt 13 11 14 p ->
  parse_year_day fmt d p <> Oob
  /\ forall y d' p', parse_year_day fmt d p = Ok (y, d', p') -> left_for fmt 9 9 14 p'.
Proof.
  unfold left_for. intros H. destruct fmt; cbn [parse_year_day].
  - pose proof (four_digits_inb p ltac:(lia)). destruct (four_digits p); cbn [obind];
      [|split; discriminate|congruence]. split; [discriminate|].
    intros ? ? ? [= <- <- <-]. rewrite length_skipn. lia.
  - pose proof (two_digits_inb p ltac:(lia)). destruct (two_digits p); cbn [obind];
      [|split; discriminate|congruence]. split; [discriminate|].
    intros ? ? ? [= <- <- <-]. rewrite length_skipn. lia.
  - pose proof (rd_inb p 0 ltac:(lia)) as R. destruct (rd p 0) as [c| |]; cbn [obind];
      [|split; discriminate|congruence].
    set (q := if c =? " "%chr then skipn 1 p else p).
    assert (Hq : (13 <= length q)%nat) by (unfold q; case_if; rewrite ?length_skipn; lia).
    clearbody q. pose proof (digit_inb q 0 ltac:(lia)) as D.
    destruct (digit q 0) as [dg| |]; cbn [obind]; [|split; discriminate|congruence].
    pose proof (rd_inb (skipn 1 q) 0 ltac:(rewrite length_skipn; lia)) as R2.
    destruct (rd (skipn 1 q) 0) as [c2| |]; cbn [obind]; [|split; discriminate|congruence].
    set (m := if c2 =? " "%chr then _ else _).
    assert (Hm : m <> Oob).
    { unfold m. case_if; [discriminate|]. apply obind_inb; [inb|discriminate]. }
    clearbody m. destruct m as [dp| |]; cbn [obind]; [|split; discriminate|congruence].
    destruct (Nat.ltb_spec (length (snd dp)) 14); split; try discriminate.
    intros ? ? ? [= <- <- <-]. assumption.
Qed.

Lemma parse_clock_inb fmt y p : left_for fmt 9 9 14 p -> parse_clock fmt y p <> Oob.
Proof.
  unfold left_for. intros H. unfold parse_clock.
  assert (9 <= length p)%nat by (destruct fmt; lia).
  do 6 (apply obind_inb; [inb|intros ? _]).
  destruct fmt; try discriminate.
  do 2 (apply obind_inb; [inb|intros ? _]). discriminate.
Qed.

(** ** Properties *)

(** [ngx_gmtime] is the Gregorian calendar: from the epoch to the end of
    the year 9999 its date is the one reached by counting days one by one from
    January 1, 1970, its clock fields and weekday are those of the second, and
    the time is determined by the fields; later times are taken as the last
    second of 9999 and negative ones as the epoch. *)
Theorem gmtime_calendar t :
  (0 <= t <= MAX_TIME ->
    let u := ngx_gmtime t in
    (tm_year u, tm_mon u, tm_mday u) = date_after (Z.to_nat (t / 86400))
    /\ tm_hour u * 3600 + tm_min u * 60 + tm_sec u = t mod 86400
    /\ 0 <= tm_hour u <= 23 /\ 0 <= tm_min u <= 59 /\ 0 <= tm_sec u <= 59
    /\ 1 <= tm_mon u <= 12 /\ 1 <= tm_mday u <= month_days (tm_year u) (tm_mon u)
    /\ tm_wday u = (4 + t / 86400) mod 7)
  /\ (MAX_TIME < t -> ngx_gmtime t = ngx_gmtime MAX_TIME)
  /\ (t < 0 -> ngx_gmtime t = ngx_gmtime 0).
Proof.
  split; [|split].
  - intros H. cbv zeta. destruct (gmtime_fields t H) as (F & E & D & W).
    rewrite D. destruct F as (F1 & F2 & F3 & F4 & F5 & F6 & F7).
    repeat (split; [try reflexivity; try lia|]); [|exact W].
    unfold ngx_gmtime in *. destruct (Z.ltb_spec t 0); [lia|].
    unfold MAX_TIME, MAX_DAYS in H.
    destruct (Z.ltb_spec 2932896 (t / 86400)); [Z.to_euclidean_division_equations; lia|].
    destruct (gm_date (t / 86400)) as [[y m] d]. cbn [tm_hour tm_min tm_sec].
    Z.to_euclidean_division_equations; lia.
  - intros H. unfold MAX_TIME, MAX_DAYS in H. unfold ngx_gmtime at 1.
    destruct (Z.ltb_spec t 0); [lia|].
    destruct (Z.ltb_spec 2932896 (t / 86400)); [reflexivity|].
    exfalso. Z.to_euclidean_division_equations; lia.
  - intros H. unfold ngx_gmtime at 1. destruct (Z.ltb_spec t 0); [reflexivity|lia].
Qed.

Example gmtime_calendar_witness :
  let u := ngx_gmtime 951868799 in
  (tm_year u, tm_mon u, tm_mday u) = date_after (Z.to_nat (951868799 / 86400)).
Proof. refine (proj1 (proj1 (gmtime_calendar 951868799) _)). vm_compute. split; discriminate. Defined.

(** C39. Dates survive being written and read: for every time up to the end of
    9999 [ngx_http_time] writes exactly the IMF-fixdate of RFC 9110 (the RFC 822
    date), with the right day of the week, date and clock, and
    [ngx_parse_http_time] reads it back to the same second; the asctime date of a
    time reads back too, and so does its RFC 850 date up to 2069, which is what
    [ngx_http_cookie_time] writes up to 2037. *)
Theorem http_time_roundtrip top t :
  0 <= t <= MAX_TIME -> (31 <= top)%nat ->
  ngx_http_time top t = Some (imf_fixdate t)
  /\ ngx_parse_http_time (imf_fixdate t) = Ok t
  /\ ngx_parse_http_time (asctime_date t) = Ok t
  /\ (year_of t < 2070 -> ngx_parse_http_time (rfc850_date t) = Ok t)
  /\ (year_of t <= 2037 -> ngx_http_cookie_time top t = Some (rfc850_date t)).
Proof.
  intros Ht Htop. destruct (gmtime_fields t Ht) as (F & E & D & _).
  destruct (field_texts t Ht) as (<- & <- & <- & <-).
  fold (stamp (ngx_gmtime t)) in E.
  assert (H1 : 0 <= day_of (tm_year (ngx_gmtime t), tm_mon (ngx_gmtime t), tm_mday (ngx_gmtime t))).
  { destruct F as (F1 & F2 & F3 & _). unfold stamp in E. lia. }
  split; [apply http_time_text; lia|split; [|split; [|split]]].
  - rewrite parse_rfc822; [now rewrite E|exact F|exact H1|lia].
  - rewrite parse_isoc; [now rewrite E|exact F|exact H1|lia].
  - intros Hy. rewrite parse_rfc850; [now rewrite E|exact F|exact H1|lia|exact Hy].
  - intros Hy. rewrite cookie_time_text by lia. unfold cookie_text, rfc850_text.
    destruct (Z.ltb_spec 2037 (tm_year (ngx_gmtime t))); [lia|reflexivity].
Qed.

(** The example of RFC 9110. *)
Example http_time_roundtrip_witness :
  imf_fixdate 784111777 = bs "Sun, 06 Nov 1994 08:49:37 GMT"
  /\ ngx_http_time 40 784111777 = Some (imf_fixdate 784111777)
  /\ ngx_parse_http_time (imf_fixdate 784111777) = Ok 784111777.
Proof.
  split; [vm_compute; reflexivity|].
  assert (H : 0 <= 784111777 <= MAX_TIME) by (vm_compute; split; discriminate).
  assert (K : (31 <= 40)%nat) by lia.
  pose proof (http_time_roundtrip 40 784111777 H K) as (W & R & _). exact (conj W R).
Defined.

(** [ngx_parse_http_time] never reads outside its text, whatever the bytes
    and however short. *)
Theorem parse_http_time_safe value : ngx_parse_http_time value <> Oob.
Proof.
  unfold ngx_parse_http_time. destruct (to_separator value) as [b p0].
  set (p := skip_blanks p0). clearbody p. destruct (Nat.ltb_spec (length p) 18); [discriminate|].
  destruct (parse_day_inb b p ltac:(assumption)) as [D1 D2].
  destruct (parse_day b p) as [[[d fmt] p1]| |]; cbn [obind]; [|discriminate|congruence].
  specialize (D2 _ _ _ eq_refl). unfold left_for in D2.
  apply obind_inb; [apply parse_month_inb; destruct fmt; lia|]. intros m _.
  apply obind_inb; [destruct fmt; inb|]. intros _ _.
  set (p2 := skipn 1 (skipn 3 p1)).
  assert (L : left_for fmt 13 11 14 p2)
    by (unfold left_for, p2; rewrite !length_skipn; destruct fmt; lia).
  destruct (parse_year_day_inb fmt d p2 L) as [Y1 Y2].
  destruct (parse_year_day fmt d p2) as [[[y d'] p3]| |]; cbn [obind]; [|discriminate|congruence].
  apply obind_inb; [apply parse_clock_inb; exact (Y2 _ _ _ eq_refl)|].
  intros [[[y' h] mi] s] _. repeat case_if; discriminate.
Qed.

(** Dates the parser takes although the calendar has none, and a year it gets
    wrong because [year - 1] wraps. *)
Remark parse_http_time_lax :
  ngx_parse_http_time (bs "Sun, 00 Nov 1994 08:49:37 GMT") =
    ngx_parse_http_time (bs "Sun, 31 Oct 1994 08:49:37 GMT")
  /\ ngx_parse_http_time (bs "Sat, 01 Jan 0000 00:00:00 GMT") = Ok (-62167208832)
  /\ day_of (0, 1, 1) * 86400 = -62167219200.
Proof. repeat split; vm_compute; reflexivity. Qed.

End Times.
