(* ===== verification/HuffTables.v ===== *)
(** * HuffTables: the code tables of HTTP header compression

    The tables of src/http/ngx_http_huff_encode.c (one code word a byte, the
    second table with upper case mapped to lower) and the transition table of
    src/http/ngx_http_huff_decode.c (256 states, 16 entries a state, here in
    blocks of fourteen states). *)

From S2P Require Import Prelude.

Module HuffTables.

(** ** Definitions *)

(** [ngx_http_huff_encode_code_t] *)
Record huff_encode_code : Set := HE { code : Z; len : Z }.

(** [ngx_http_huff_decode_code_t] *)
Record huff_decode_code : Set := HD { next : Z; emit : Z; sym : Z; ending : Z }.

Definition ngx_http_huff_encode_table : list huff_encode_code :=
  [ HE 0x1ff8 13; HE 0x7fffd8 23; HE 0xfffffe2 28; HE 0xfffffe3 28;
    HE 0xfffffe4 28; HE 0xfffffe5 28; HE 0xfffffe6 28; HE 0xfffffe7 28;
    HE 0xfffffe8 28; HE 0xffffea 24; HE 0x3ffffffc 30; HE 0xfffffe9 28;
    HE 0xfffffea 28; HE 0x3ffffffd 30; HE 0xfffffeb 28; HE 0xfffffec 28;
    HE 0xfffffed 28; HE 0xfffffee 28; HE 0xfffffef 28; HE 0xffffff0 28;
    HE 0xffffff1 28; HE 0xffffff2 28; HE 0x3ffffffe 30; HE 0xffffff3 28;
    HE 0xffffff4 28; HE 0xffffff5 28; HE 0xffffff6 28; HE 0xffffff7 28;
    HE 0xffffff8 28; HE 0xffffff9 28; HE 0xffffffa 28; HE 0xffffffb 28;
    HE 0x14 6; HE 0x3f8 10; HE 0x3f9 10; HE 0xffa 12;
    HE 0x1ff9 13; HE 0x15 6; HE 0xf8 8; HE 0x7fa 11;
    HE 0x3fa 10; HE 0x3fb 10; HE 0xf9 8; HE 0x7fb 11;
    HE 0xfa 8; HE 0x16 6; HE 0x17 6; HE 0x18 6;
    HE 0x0 5; HE 0x1 5; HE 0x2 5; HE 0x19 6;
    HE 0x1a 6; HE 0x1b 6; HE 0x1c 6; HE 0x1d 6;
    HE 0x1e 6; HE 0x1f 6; HE 0x5c 7; HE 0xfb 8;
    HE 0x7ffc 15; HE 0x20 6; HE 0xffb 12; HE 0x3fc 10;
    HE 0x1ffa 13; HE 0x21 6; HE 0x5d 7; HE 0x5e 7;
    HE 0x5f 7; HE 0x60 7; HE 0x61 7; HE 0x62 7;
    HE 0x63 7; HE 0x64 7; HE 0x65 7; HE 0x66 7;
    HE 0x67 7; HE 0x68 7; HE 0x69 7; HE 0x6a 7;
    HE 0x6b 7; HE 0x6c 7; HE 0x6d 7; HE 0x6e 7;
    HE 0x6f 7; HE 0x70 7; HE 0x71 7; HE 0x72 7;
    HE 0xfc 8; HE 0x73 7; HE 0xfd 8; HE 0x1ffb 13;
    HE 0x7fff0 19; HE 0x1ffc 13; HE 0x3ffc 14; HE 0x22 6;
    HE 0x7ffd 15; HE 0x3 5; HE 0x23 6; HE 0x4 5;
    HE 0x24 6; HE 0x5 5; HE 0x25 6; HE 0x26 6;
    HE 0x27 6; HE 0x6 5; HE 0x74 7; HE 0x75 7;
    HE 0x28 6; HE 0x29 6; HE 0x2a 6; HE 0x7 5;
    HE 0x2b 6; HE 0x76 7; HE 0x2c 6; HE 0x8 5;
    HE 0x9 5; HE 0x2d 6; HE 0x77 7; HE 0x78 7;
    HE 0x79 7; HE 0x7a 7; HE 0x7b 7; HE 0x7ffe 15;
    HE 0x7fc 11; HE 0x3ffd 14; HE 0x1ffd 13; HE 0xffffffc 28;
    HE 0xfffe6 20; HE 0x3fffd2 22; HE 0xfffe7 20; HE 0xfffe8 20;
    HE 0x3fffd3 22; HE 0x3fffd4 22; HE 0x3fffd5 22; HE 0x7fffd9 23;
    HE 0x3fffd6 22; HE 0x7fffda 23; HE 0x7fffdb 23; HE 0x7fffdc 23;
    HE 0x7fffdd 23; HE 0x7fffde 23; HE 0xffffeb 24; HE 0x7fffdf 23;
    HE 0xffffec 24; HE 0xffffed 24; HE 0x3fffd7 22; HE 0x7fffe0 23;
    HE 0xffffee 24; HE 0x7fffe1 23; HE 0x7fffe2 23; HE 0x7fffe3 23;
    HE 0x7fffe4 23; HE 0x1fffdc 21; HE 0x3fffd8 22; HE 0x7fffe5 23;
    HE 0x3fffd9 22; HE 0x7fffe6 23; HE 0x7fffe7 23; HE 0xffffef 24;
    HE 0x3fffda 22; HE 0x1fffdd 21; HE 0xfffe9 20; HE 0x3fffdb 22;
    HE 0x3fffdc 22; HE 0x7fffe8 23; HE 0x7fffe9 23; HE 0x1fffde 21;
    HE 0x7fffea 23; HE 0x3fffdd 22; HE 0x3fffde 22; HE 0xfffff0 24;
    HE 0x1fffdf 21; HE 0x3fffdf 22; HE 0x7fffeb 23; HE 0x7fffec 23;
    HE 0x1fffe0 21; HE 0x1fffe1 21; HE 0x3fffe0 22; HE 0x1fffe2 21;
    HE 0x7fffed 23; HE 0x3fffe1 22; HE 0x7fffee 23; HE 0x7fffef 23;
    HE 0xfffea 20; HE 0x3fffe2 22; HE 0x3fffe3 22; HE 0x3fffe4 22;
    HE 0x7ffff0 23; HE 0x3fffe5 22; HE 0x3fffe6 22; HE 0x7ffff1 23;
    HE 0x3ffffe0 26; HE 0x3ffffe1 26; HE 0xfffeb 20; HE 0x7fff1 19;
    HE 0x3fffe7 22; HE 0x7ffff2 23; HE 0x3fffe8 22; HE 0x1ffffec 25;
    HE 0x3ffffe2 26; HE 0x3ffffe3 26; HE 0x3ffffe4 26; HE 0x7ffffde 27;
    HE 0x7ffffdf 27; HE 0x3ffffe5 26; HE 0xfffff1 24; HE 0x1ffffed 25;
    HE 0x7fff2 19; HE 0x1fffe3 21; HE 0x3ffffe6 26; HE 0x7ffffe0 27;
    HE 0x7ffffe1 27; HE 0x3ffffe7 26; HE 0x7ffffe2 27; HE 0xfffff2 24;
    HE 0x1fffe4 21; HE 0x1fffe5 21; HE 0x3ffffe8 26; HE 0x3ffffe9 26;
    HE 0xffffffd 28; HE 0x7ffffe3 27; HE 0x7ffffe4 27; HE 0x7ffffe5 27;
    HE 0xfffec 20; HE 0xfffff3 24; HE 0xfffed 20; HE 0x1fffe6 21;
    HE 0x3fffe9 22; HE 0x1fffe7 21; HE 0x1fffe8 21; HE 0x7ffff3 23;
    HE 0x3fffea 22; HE 0x3fffeb 22; HE 0x1ffffee 25; HE 0x1ffffef 25;
    HE 0xfffff4 24; HE 0xfffff5 24; HE 0x3ffffea 26; HE 0x7ffff4 23;
    HE 0x3ffffeb 26; HE 0x7ffffe6 27; HE 0x3ffffec 26; HE 0x3ffffed 26;
    HE 0x7ffffe7 27; HE 0x7ffffe8 27; HE 0x7ffffe9 27; HE 0x7ffffea 27;
    HE 0x7ffffeb 27; HE 0xffffffe 28; HE 0x7ffffec 27; HE 0x7ffffed 27;
    HE 0x7ffffee 27; HE 0x7ffffef 27; HE 0x7fffff0 27; HE 0x3ffffee 26 ].

Definition ngx_http_huff_encode_table_lc : list huff_encode_code :=
  [ HE 0x1ff8 13; HE 0x7fffd8 23; HE 0xfffffe2 28; HE 0xfffffe3 28;
    HE 0xfffffe4 28; HE 0xfffffe5 28; HE 0xfffffe6 28; HE 0xfffffe7 28;
    HE 0xfffffe8 28; HE 0xffffea 24; HE 0x3ffffffc 30; HE 0xfffffe9 28;
    HE 0xfffffea 28; HE 0x3ffffffd 30; HE 0xfffffeb 28; HE 0xfffffec 28;
    HE 0xfffffed 28; HE 0xfffffee 28; HE 0xfffffef 28; HE 0xffffff0 28;
    HE 0xffffff1 28; HE 0xffffff2 28; HE 0x3ffffffe 30; HE 0xffffff3 28;
    HE 0xffffff4 28; HE 0xffffff5 28; HE 0xffffff6 28; HE 0xffffff7 28;
    HE 0xffffff8 28; HE 0xffffff9 28; HE 0xffffffa 28; HE 0xffffffb 28;
    HE 0x14 6; HE 0x3f8 10; HE 0x3f9 10; HE 0xffa 12;
    HE 0x1ff9 13; HE 0x15 6; HE 0xf8 8; HE 0x7fa 11;
    HE 0x3fa 10; HE 0x3fb 10; HE 0xf9 8; HE 0x7fb 11;
    HE 0xfa 8; HE 0x16 6; HE 0x17 6; HE 0x18 6;
    HE 0x0 5; HE 0x1 5; HE 0x2 5; HE 0x19 6;
    HE 0x1a 6; HE 0x1b 6; HE 0x1c 6; HE 0x1d 6;
    HE 0x1e 6; HE 0x1f 6; HE 0x5c 7; HE 0xfb 8;
    HE 0x7ffc 15; HE 0x20 6; HE 0xffb 12; HE 0x3fc 10;
    HE 0x1ffa 13; HE 0x3 5; HE 0x23 6; HE 0x4 5;
    HE 0x24 6; HE 0x5 5; HE 0x25 6; HE 0x26 6;
    HE 0x27 6; HE 0x6 5; HE 0x74 7; HE 0x75 7;
    HE 0x28 6; HE 0x29 6; HE 0x2a 6; HE 0x7 5;
    HE 0x2b 6; HE 0x76 7; HE 0x2c 6; HE 0x8 5;
    HE 0x9 5; HE 0x2d 6; HE 0x77 7; HE 0x78 7;
    HE 0x79 7; HE 0x7a 7; HE 0x7b 7; HE 0x1ffb 13;
    HE 0x7fff0 19; HE 0x1ffc 13; HE 0x3ffc 14; HE 0x22 6;
    HE 0x7ffd 15; HE 0x3 5; HE 0x23 6; HE 0x4 5;
    HE 0x24 6; HE 0x5 5; HE 0x25 6; HE 0x26 6;
    HE 0x27 6; HE 0x6 5; HE 0x74 7; HE 0x75 7;
    HE 0x28 6; HE 0x29 6; HE 0x2a 6; HE 0x7 5;
    HE 0x2b 6; HE 0x76 7; HE 0x2c 6; HE 0x8 5;
    HE 0x9 5; HE 0x2d 6; HE 0x77 7; HE 0x78 7;
    HE 0x79 7; HE 0x7a 7; HE 0x7b 7; HE 0x7ffe 15;
    HE 0x7fc 11; HE 0x3ffd 14; HE 0x1ffd 13; HE 0xffffffc 28;
    HE 0xfffe6 20; HE 0x3fffd2 22; HE 0xfffe7 20; HE 0xfffe8 20;
    HE 0x3fffd3 22; HE 0x3fffd4 22; HE 0x3fffd5 22; HE 0x7fffd9 23;
    HE 0x3fffd6 22; HE 0x7fffda 23; HE 0x7fffdb 23; HE 0x7fffdc 23;
    HE 0x7fffdd 23; HE 0x7fffde 23; HE 0xffffeb 24; HE 0x7fffdf 23;
    HE 0xffffec 24; HE 0xffffed 24; HE 0x3fffd7 22; HE 0x7fffe0 23;
    HE 0xffffee 24; HE 0x7fffe1 23; HE 0x7fffe2 23; HE 0x7fffe3 23;
    HE 0x7fffe4 23; HE 0x1fffdc 21; HE 0x3fffd8 22; HE 0x7fffe5 23;
    HE 0x3fffd9 22; HE 0x7fffe6 23; HE 0x7fffe7 23; HE 0xffffef 24;
    HE 0x3fffda 22; HE 0x1fffdd 21; HE 0xfffe9 20; HE 0x3fffdb 22;
    HE 0x3fffdc 22; HE 0x7fffe8 23; HE 0x7fffe9 23; HE 0x1fffde 21;
    HE 0x7fffea 23; HE 0x3fffdd 22; HE 0x3fffde 22; HE 0xfffff0 24;
    HE 0x1fffdf 21; HE 0x3fffdf 22; HE 0x7fffeb 23; HE 0x7fffec 23;
    HE 0x1fffe0 21; HE 0x1fffe1 21; HE 0x3fffe0 22; HE 0x1fffe2 21;
    HE 0x7fffed 23; HE 0x3fffe1 22; HE 0x7fffee 23; HE 0x7fffef 23;
    HE 0xfffea 20; HE 0x3fffe2 22; HE 0x3fffe3 22; HE 0x3fffe4 22;
    HE 0x7ffff0 23; HE 0x3fffe5 22; HE 0x3fffe6 22; HE 0x7ffff1 23;
    HE 0x3ffffe0 26; HE 0x3ffffe1 26; HE 0xfffeb 20; HE 0x7fff1 19;
    HE 0x3fffe7 22; HE 0x7ffff2 23; HE 0x3fffe8 22; HE 0x1ffffec 25;
    HE 0x3ffffe2 26; HE 0x3ffffe3 26; HE 0x3ffffe4 26; HE 0x7ffffde 27;
    HE 0x7ffffdf 27; HE 0x3ffffe5 26; HE 0xfffff1 24; HE 0x1ffffed 25;
    HE 0x7fff2 19; HE 0x1fffe3 21; HE 0x3ffffe6 26; HE 0x7ffffe0 27;
    HE 0x7ffffe1 27; HE 0x3ffffe7 26; HE 0x7ffffe2 27; HE 0xfffff2 24;
    HE 0x1fffe4 21; HE 0x1fffe5 21; HE 0x3ffffe8 26; HE 0x3ffffe9 26;
    HE 0xffffffd 28; HE 0x7ffffe3 27; HE 0x7ffffe4 27; HE 0x7ffffe5 27;
    HE 0xfffec 20; HE 0xfffff3 24; HE 0xfffed 20; HE 0x1fffe6 21;
    HE 0x3fffe9 22; HE 0x1fffe7 21; HE 0x1fffe8 21; HE 0x7ffff3 23;
    HE 0x3fffea 22; HE 0x3fffeb 22; HE 0x1ffffee 25; HE 0x1ffffef 25;
    HE 0xfffff4 24; HE 0xfffff5 24; HE 0x3ffffea 26; HE 0x7ffff4 23;
    HE 0x3ffffeb 26; HE 0x7ffffe6 27; HE 0x3ffffec 26; HE 0x3ffffed 26;
    HE 0x7ffffe7 27; HE 0x7ffffe8 27; HE 0x7ffffe9 27; HE 0x7ffffea 27;
    HE 0x7ffffeb 27; HE 0xffffffe 28; HE 0x7ffffec 27; HE 0x7ffffed 27;
    HE 0x7ffffee 27; HE 0x7ffffef 27; HE 0x7fffff0 27; HE 0x3ffffee 26 ].

Definition ngx_http_huff_decode_codes_0 : list (list huff_decode_code) :=
  [ [HD 4 0 0 0; HD 5 0 0 0; HD 7 0 0 0; HD 8 0 0 0;
      HD 11 0 0 0; HD 12 0 0 0; HD 16 0 0 0; HD 19 0 0 0;
      HD 25 0 0 0; HD 28 0 0 0; HD 32 0 0 0; HD 35 0 0 0;
      HD 42 0 0 0; HD 49 0 0 0; HD 57 0 0 0; HD 64 0 0 1];
    [HD 0 1 48 1; HD 0 1 49 1; HD 0 1 50 1; HD 0 1 97 1;
      HD 0 1 99 1; HD 0 1 101 1; HD 0 1 105 1; HD 0 1 111 1;
      HD 0 1 115 1; HD 0 1 116 1; HD 13 0 0 0; HD 14 0 0 0;
      HD 17 0 0 0; HD 18 0 0 0; HD 20 0 0 0; HD 21 0 0 0];
    [HD 1 1 48 0; HD 22 1 48 1; HD 1 1 49 0; HD 22 1 49 1;
      HD 1 1 50 0; HD 22 1 50 1; HD 1 1 97 0; HD 22 1 97 1;
      HD 1 1 99 0; HD 22 1 99 1; HD 1 1 101 0; HD 22 1 101 1;
      HD 1 1 105 0; HD 22 1 105 1; HD 1 1 111 0; HD 22 1 111 1];
    [HD 2 1 48 0; HD 9 1 48 0; HD 23 1 48 0; HD 40 1 48 1;
      HD 2 1 49 0; HD 9 1 49 0; HD 23 1 49 0; HD 40 1 49 1;
      HD 2 1 50 0; HD 9 1 50 0; HD 23 1 50 0; HD 40 1 50 1;
      HD 2 1 97 0; HD 9 1 97 0; HD 23 1 97 0; HD 40 1 97 1];
    [HD 3 1 48 0; HD 6 1 48 0; HD 10 1 48 0; HD 15 1 48 0;
      HD 24 1 48 0; HD 31 1 48 0; HD 41 1 48 0; HD 56 1 48 1;
      HD 3 1 49 0; HD 6 1 49 0; HD 10 1 49 0; HD 15 1 49 0;
      HD 24 1 49 0; HD 31 1 49 0; HD 41 1 49 0; HD 56 1 49 1];
    [HD 3 1 50 0; HD 6 1 50 0; HD 10 1 50 0; HD 15 1 50 0;
      HD 24 1 50 0; HD 31 1 50 0; HD 41 1 50 0; HD 56 1 50 1;
      HD 3 1 97 0; HD 6 1 97 0; HD 10 1 97 0; HD 15 1 97 0;
      HD 24 1 97 0; HD 31 1 97 0; HD 41 1 97 0; HD 56 1 97 1];
    [HD 2 1 99 0; HD 9 1 99 0; HD 23 1 99 0; HD 40 1 99 1;
      HD 2 1 101 0; HD 9 1 101 0; HD 23 1 101 0; HD 40 1 101 1;
      HD 2 1 105 0; HD 9 1 105 0; HD 23 1 105 0; HD 40 1 105 1;
      HD 2 1 111 0; HD 9 1 111 0; HD 23 1 111 0; HD 40 1 111 1];
    [HD 3 1 99 0; HD 6 1 99 0; HD 10 1 99 0; HD 15 1 99 0;
      HD 24 1 99 0; HD 31 1 99 0; HD 41 1 99 0; HD 56 1 99 1;
      HD 3 1 101 0; HD 6 1 101 0; HD 10 1 101 0; HD 15 1 101 0;
      HD 24 1 101 0; HD 31 1 101 0; HD 41 1 101 0; HD 56 1 101 1];
    [HD 3 1 105 0; HD 6 1 105 0; HD 10 1 105 0; HD 15 1 105 0;
      HD 24 1 105 0; HD 31 1 105 0; HD 41 1 105 0; HD 56 1 105 1;
      HD 3 1 111 0; HD 6 1 111 0; HD 10 1 111 0; HD 15 1 111 0;
      HD 24 1 111 0; HD 31 1 111 0; HD 41 1 111 0; HD 56 1 111 1];
    [HD 1 1 115 0; HD 22 1 115 1; HD 1 1 116 0; HD 22 1 116 1;
      HD 0 1 32 1; HD 0 1 37 1; HD 0 1 45 1; HD 0 1 46 1;
      HD 0 1 47 1; HD 0 1 51 1; HD 0 1 52 1; HD 0 1 53 1;
      HD 0 1 54 1; HD 0 1 55 1; HD 0 1 56 1; HD 0 1 57 1];
    [HD 2 1 115 0; HD 9 1 115 0; HD 23 1 115 0; HD 40 1 115 1;
      HD 2 1 116 0; HD 9 1 116 0; HD 23 1 116 0; HD 40 1 116 1;
      HD 1 1 32 0; HD 22 1 32 1; HD 1 1 37 0; HD 22 1 37 1;
      HD 1 1 45 0; HD 22 1 45 1; HD 1 1 46 0; HD 22 1 46 1];
    [HD 3 1 115 0; HD 6 1 115 0; HD 10 1 115 0; HD 15 1 115 0;
      HD 24 1 115 0; HD 31 1 115 0; HD 41 1 115 0; HD 56 1 115 1;
      HD 3 1 116 0; HD 6 1 116 0; HD 10 1 116 0; HD 15 1 116 0;
      HD 24 1 116 0; HD 31 1 116 0; HD 41 1 116 0; HD 56 1 116 1];
    [HD 2 1 32 0; HD 9 1 32 0; HD 23 1 32 0; HD 40 1 32 1;
      HD 2 1 37 0; HD 9 1 37 0; HD 23 1 37 0; HD 40 1 37 1;
      HD 2 1 45 0; HD 9 1 45 0; HD 23 1 45 0; HD 40 1 45 1;
      HD 2 1 46 0; HD 9 1 46 0; HD 23 1 46 0; HD 40 1 46 1];
    [HD 3 1 32 0; HD 6 1 32 0; HD 10 1 32 0; HD 15 1 32 0;
      HD 24 1 32 0; HD 31 1 32 0; HD 41 1 32 0; HD 56 1 32 1;
      HD 3 1 37 0; HD 6 1 37 0; HD 10 1 37 0; HD 15 1 37 0;
      HD 24 1 37 0; HD 31 1 37 0; HD 41 1 37 0; HD 56 1 37 1] ].

Definition ngx_http_huff_decode_codes_14 : list (list huff_decode_code) :=
  [ [HD 3 1 45 0; HD 6 1 45 0; HD 10 1 45 0; HD 15 1 45 0;
      HD 24 1 45 0; HD 31 1 45 0; HD 41 1 45 0; HD 56 1 45 1;
      HD 3 1 46 0; HD 6 1 46 0; HD 10 1 46 0; HD 15 1 46 0;
      HD 24 1 46 0; HD 31 1 46 0; HD 41 1 46 0; HD 56 1 46 1];
    [HD 1 1 47 0; HD 22 1 47 1; HD 1 1 51 0; HD 22 1 51 1;
      HD 1 1 52 0; HD 22 1 52 1; HD 1 1 53 0; HD 22 1 53 1;
      HD 1 1 54 0; HD 22 1 54 1; HD 1 1 55 0; HD 22 1 55 1;
      HD 1 1 56 0; HD 22 1 56 1; HD 1 1 57 0; HD 22 1 57 1];
    [HD 2 1 47 0; HD 9 1 47 0; HD 23 1 47 0; HD 40 1 47 1;
      HD 2 1 51 0; HD 9 1 51 0; HD 23 1 51 0; HD 40 1 51 1;
      HD 2 1 52 0; HD 9 1 52 0; HD 23 1 52 0; HD 40 1 52 1;
      HD 2 1 53 0; HD 9 1 53 0; HD 23 1 53 0; HD 40 1 53 1];
    [HD 3 1 47 0; HD 6 1 47 0; HD 10 1 47 0; HD 15 1 47 0;
      HD 24 1 47 0; HD 31 1 47 0; HD 41 1 47 0; HD 56 1 47 1;
      HD 3 1 51 0; HD 6 1 51 0; HD 10 1 51 0; HD 15 1 51 0;
      HD 24 1 51 0; HD 31 1 51 0; HD 41 1 51 0; HD 56 1 51 1];
    [HD 3 1 52 0; HD 6 1 52 0; HD 10 1 52 0; HD 15 1 52 0;
      HD 24 1 52 0; HD 31 1 52 0; HD 41 1 52 0; HD 56 1 52 1;
      HD 3 1 53 0; HD 6 1 53 0; HD 10 1 53 0; HD 15 1 53 0;
      HD 24 1 53 0; HD 31 1 53 0; HD 41 1 53 0; HD 56 1 53 1];
    [HD 2 1 54 0; HD 9 1 54 0; HD 23 1 54 0; HD 40 1 54 1;
      HD 2 1 55 0; HD 9 1 55 0; HD 23 1 55 0; HD 40 1 55 1;
      HD 2 1 56 0; HD 9 1 56 0; HD 23 1 56 0; HD 40 1 56 1;
      HD 2 1 57 0; HD 9 1 57 0; HD 23 1 57 0; HD 40 1 57 1];
    [HD 3 1 54 0; HD 6 1 54 0; HD 10 1 54 0; HD 15 1 54 0;
      HD 24 1 54 0; HD 31 1 54 0; HD 41 1 54 0; HD 56 1 54 1;
      HD 3 1 55 0; HD 6 1 55 0; HD 10 1 55 0; HD 15 1 55 0;
      HD 24 1 55 0; HD 31 1 55 0; HD 41 1 55 0; HD 56 1 55 1];
    [HD 3 1 56 0; HD 6 1 56 0; HD 10 1 56 0; HD 15 1 56 0;
      HD 24 1 56 0; HD 31 1 56 0; HD 41 1 56 0; HD 56 1 56 1;
      HD 3 1 57 0; HD 6 1 57 0; HD 10 1 57 0; HD 15 1 57 0;
      HD 24 1 57 0; HD 31 1 57 0; HD 41 1 57 0; HD 56 1 57 1];
    [HD 26 0 0 0; HD 27 0 0 0; HD 29 0 0 0; HD 30 0 0 0;
      HD 33 0 0 0; HD 34 0 0 0; HD 36 0 0 0; HD 37 0 0 0;
      HD 43 0 0 0; HD 46 0 0 0; HD 50 0 0 0; HD 53 0 0 0;
      HD 58 0 0 0; HD 61 0 0 0; HD 65 0 0 0; HD 68 0 0 1];
    [HD 0 1 61 1; HD 0 1 65 1; HD 0 1 95 1; HD 0 1 98 1;
      HD 0 1 100 1; HD 0 1 102 1; HD 0 1 103 1; HD 0 1 104 1;
      HD 0 1 108 1; HD 0 1 109 1; HD 0 1 110 1; HD 0 1 112 1;
      HD 0 1 114 1; HD 0 1 117 1; HD 38 0 0 0; HD 39 0 0 0];
    [HD 1 1 61 0; HD 22 1 61 1; HD 1 1 65 0; HD 22 1 65 1;
      HD 1 1 95 0; HD 22 1 95 1; HD 1 1 98 0; HD 22 1 98 1;
      HD 1 1 100 0; HD 22 1 100 1; HD 1 1 102 0; HD 22 1 102 1;
      HD 1 1 103 0; HD 22 1 103 1; HD 1 1 104 0; HD 22 1 104 1];
    [HD 2 1 61 0; HD 9 1 61 0; HD 23 1 61 0; HD 40 1 61 1;
      HD 2 1 65 0; HD 9 1 65 0; HD 23 1 65 0; HD 40 1 65 1;
      HD 2 1 95 0; HD 9 1 95 0; HD 23 1 95 0; HD 40 1 95 1;
      HD 2 1 98 0; HD 9 1 98 0; HD 23 1 98 0; HD 40 1 98 1];
    [HD 3 1 61 0; HD 6 1 61 0; HD 10 1 61 0; HD 15 1 61 0;
      HD 24 1 61 0; HD 31 1 61 0; HD 41 1 61 0; HD 56 1 61 1;
      HD 3 1 65 0; HD 6 1 65 0; HD 10 1 65 0; HD 15 1 65 0;
      HD 24 1 65 0; HD 31 1 65 0; HD 41 1 65 0; HD 56 1 65 1];
    [HD 3 1 95 0; HD 6 1 95 0; HD 10 1 95 0; HD 15 1 95 0;
      HD 24 1 95 0; HD 31 1 95 0; HD 41 1 95 0; HD 56 1 95 1;
      HD 3 1 98 0; HD 6 1 98 0; HD 10 1 98 0; HD 15 1 98 0;
      HD 24 1 98 0; HD 31 1 98 0; HD 41 1 98 0; HD 56 1 98 1] ].

Definition ngx_http_huff_decode_codes_28 : list (list huff_decode_code) :=
  [ [HD 2 1 100 0; HD 9 1 100 0; HD 23 1 100 0; HD 40 1 100 1;
      HD 2 1 102 0; HD 9 1 102 0; HD 23 1 102 0; HD 40 1 102 1;
      HD 2 1 103 0; HD 9 1 103 0; HD 23 1 103 0; HD 40 1 103 1;
      HD 2 1 104 0; HD 9 1 104 0; HD 23 1 104 0; HD 40 1 104 1];
    [HD 3 1 100 0; HD 6 1 100 0; HD 10 1 100 0; HD 15 1 100 0;
      HD 24 1 100 0; HD 31 1 100 0; HD 41 1 100 0; HD 56 1 100 1;
      HD 3 1 102 0; HD 6 1 102 0; HD 10 1 102 0; HD 15 1 102 0;
      HD 24 1 102 0; HD 31 1 102 0; HD 41 1 102 0; HD 56 1 102 1];
    [HD 3 1 103 0; HD 6 1 103 0; HD 10 1 103 0; HD 15 1 103 0;
      HD 24 1 103 0; HD 31 1 103 0; HD 41 1 103 0; HD 56 1 103 1;
      HD 3 1 104 0; HD 6 1 104 0; HD 10 1 104 0; HD 15 1 104 0;
      HD 24 1 104 0; HD 31 1 104 0; HD 41 1 104 0; HD 56 1 104 1];
    [HD 1 1 108 0; HD 22 1 108 1; HD 1 1 109 0; HD 22 1 109 1;
      HD 1 1 110 0; HD 22 1 110 1; HD 1 1 112 0; HD 22 1 112 1;
      HD 1 1 114 0; HD 22 1 114 1; HD 1 1 117 0; HD 22 1 117 1;
      HD 0 1 58 1; HD 0 1 66 1; HD 0 1 67 1; HD 0 1 68 1];
    [HD 2 1 108 0; HD 9 1 108 0; HD 23 1 108 0; HD 40 1 108 1;
      HD 2 1 109 0; HD 9 1 109 0; HD 23 1 109 0; HD 40 1 109 1;
      HD 2 1 110 0; HD 9 1 110 0; HD 23 1 110 0; HD 40 1 110 1;
      HD 2 1 112 0; HD 9 1 112 0; HD 23 1 112 0; HD 40 1 112 1];
    [HD 3 1 108 0; HD 6 1 108 0; HD 10 1 108 0; HD 15 1 108 0;
      HD 24 1 108 0; HD 31 1 108 0; HD 41 1 108 0; HD 56 1 108 1;
      HD 3 1 109 0; HD 6 1 109 0; HD 10 1 109 0; HD 15 1 109 0;
      HD 24 1 109 0; HD 31 1 109 0; HD 41 1 109 0; HD 56 1 109 1];
    [HD 3 1 110 0; HD 6 1 110 0; HD 10 1 110 0; HD 15 1 110 0;
      HD 24 1 110 0; HD 31 1 110 0; HD 41 1 110 0; HD 56 1 110 1;
      HD 3 1 112 0; HD 6 1 112 0; HD 10 1 112 0; HD 15 1 112 0;
      HD 24 1 112 0; HD 31 1 112 0; HD 41 1 112 0; HD 56 1 112 1];
    [HD 2 1 114 0; HD 9 1 114 0; HD 23 1 114 0; HD 40 1 114 1;
      HD 2 1 117 0; HD 9 1 117 0; HD 23 1 117 0; HD 40 1 117 1;
      HD 1 1 58 0; HD 22 1 58 1; HD 1 1 66 0; HD 22 1 66 1;
      HD 1 1 67 0; HD 22 1 67 1; HD 1 1 68 0; HD 22 1 68 1];
    [HD 3 1 114 0; HD 6 1 114 0; HD 10 1 114 0; HD 15 1 114 0;
      HD 24 1 114 0; HD 31 1 114 0; HD 41 1 114 0; HD 56 1 114 1;
      HD 3 1 117 0; HD 6 1 117 0; HD 10 1 117 0; HD 15 1 117 0;
      HD 24 1 117 0; HD 31 1 117 0; HD 41 1 117 0; HD 56 1 117 1];
    [HD 2 1 58 0; HD 9 1 58 0; HD 23 1 58 0; HD 40 1 58 1;
      HD 2 1 66 0; HD 9 1 66 0; HD 23 1 66 0; HD 40 1 66 1;
      HD 2 1 67 0; HD 9 1 67 0; HD 23 1 67 0; HD 40 1 67 1;
      HD 2 1 68 0; HD 9 1 68 0; HD 23 1 68 0; HD 40 1 68 1];
    [HD 3 1 58 0; HD 6 1 58 0; HD 10 1 58 0; HD 15 1 58 0;
      HD 24 1 58 0; HD 31 1 58 0; HD 41 1 58 0; HD 56 1 58 1;
      HD 3 1 66 0; HD 6 1 66 0; HD 10 1 66 0; HD 15 1 66 0;
      HD 24 1 66 0; HD 31 1 66 0; HD 41 1 66 0; HD 56 1 66 1];
    [HD 3 1 67 0; HD 6 1 67 0; HD 10 1 67 0; HD 15 1 67 0;
      HD 24 1 67 0; HD 31 1 67 0; HD 41 1 67 0; HD 56 1 67 1;
      HD 3 1 68 0; HD 6 1 68 0; HD 10 1 68 0; HD 15 1 68 0;
      HD 24 1 68 0; HD 31 1 68 0; HD 41 1 68 0; HD 56 1 68 1];
    [HD 44 0 0 0; HD 45 0 0 0; HD 47 0 0 0; HD 48 0 0 0;
      HD 51 0 0 0; HD 52 0 0 0; HD 54 0 0 0; HD 55 0 0 0;
      HD 59 0 0 0; HD 60 0 0 0; HD 62 0 0 0; HD 63 0 0 0;
      HD 66 0 0 0; HD 67 0 0 0; HD 69 0 0 0; HD 72 0 0 1];
    [HD 0 1 69 1; HD 0 1 70 1; HD 0 1 71 1; HD 0 1 72 1;
      HD 0 1 73 1; HD 0 1 74 1; HD 0 1 75 1; HD 0 1 76 1;
      HD 0 1 77 1; HD 0 1 78 1; HD 0 1 79 1; HD 0 1 80 1;
      HD 0 1 81 1; HD 0 1 82 1; HD 0 1 83 1; HD 0 1 84 1] ].

Definition ngx_http_huff_decode_codes_42 : list (list huff_decode_code) :=
  [ [HD 1 1 69 0; HD 22 1 69 1; HD 1 1 70 0; HD 22 1 70 1;
      HD 1 1 71 0; HD 22 1 71 1; HD 1 1 72 0; HD 22 1 72 1;
      HD 1 1 73 0; HD 22 1 73 1; HD 1 1 74 0; HD 22 1 74 1;
      HD 1 1 75 0; HD 22 1 75 1; HD 1 1 76 0; HD 22 1 76 1];
    [HD 2 1 69 0; HD 9 1 69 0; HD 23 1 69 0; HD 40 1 69 1;
      HD 2 1 70 0; HD 9 1 70 0; HD 23 1 70 0; HD 40 1 70 1;
      HD 2 1 71 0; HD 9 1 71 0; HD 23 1 71 0; HD 40 1 71 1;
      HD 2 1 72 0; HD 9 1 72 0; HD 23 1 72 0; HD 40 1 72 1];
    [HD 3 1 69 0; HD 6 1 69 0; HD 10 1 69 0; HD 15 1 69 0;
      HD 24 1 69 0; HD 31 1 69 0; HD 41 1 69 0; HD 56 1 69 1;
      HD 3 1 70 0; HD 6 1 70 0; HD 10 1 70 0; HD 15 1 70 0;
      HD 24 1 70 0; HD 31 1 70 0; HD 41 1 70 0; HD 56 1 70 1];
    [HD 3 1 71 0; HD 6 1 71 0; HD 10 1 71 0; HD 15 1 71 0;
      HD 24 1 71 0; HD 31 1 71 0; HD 41 1 71 0; HD 56 1 71 1;
      HD 3 1 72 0; HD 6 1 72 0; HD 10 1 72 0; HD 15 1 72 0;
      HD 24 1 72 0; HD 31 1 72 0; HD 41 1 72 0; HD 56 1 72 1];
    [HD 2 1 73 0; HD 9 1 73 0; HD 23 1 73 0; HD 40 1 73 1;
      HD 2 1 74 0; HD 9 1 74 0; HD 23 1 74 0; HD 40 1 74 1;
      HD 2 1 75 0; HD 9 1 75 0; HD 23 1 75 0; HD 40 1 75 1;
      HD 2 1 76 0; HD 9 1 76 0; HD 23 1 76 0; HD 40 1 76 1];
    [HD 3 1 73 0; HD 6 1 73 0; HD 10 1 73 0; HD 15 1 73 0;
      HD 24 1 73 0; HD 31 1 73 0; HD 41 1 73 0; HD 56 1 73 1;
      HD 3 1 74 0; HD 6 1 74 0; HD 10 1 74 0; HD 15 1 74 0;
      HD 24 1 74 0; HD 31 1 74 0; HD 41 1 74 0; HD 56 1 74 1];
    [HD 3 1 75 0; HD 6 1 75 0; HD 10 1 75 0; HD 15 1 75 0;
      HD 24 1 75 0; HD 31 1 75 0; HD 41 1 75 0; HD 56 1 75 1;
      HD 3 1 76 0; HD 6 1 76 0; HD 10 1 76 0; HD 15 1 76 0;
      HD 24 1 76 0; HD 31 1 76 0; HD 41 1 76 0; HD 56 1 76 1];
    [HD 1 1 77 0; HD 22 1 77 1; HD 1 1 78 0; HD 22 1 78 1;
      HD 1 1 79 0; HD 22 1 79 1; HD 1 1 80 0; HD 22 1 80 1;
      HD 1 1 81 0; HD 22 1 81 1; HD 1 1 82 0; HD 22 1 82 1;
      HD 1 1 83 0; HD 22 1 83 1; HD 1 1 84 0; HD 22 1 84 1];
    [HD 2 1 77 0; HD 9 1 77 0; HD 23 1 77 0; HD 40 1 77 1;
      HD 2 1 78 0; HD 9 1 78 0; HD 23 1 78 0; HD 40 1 78 1;
      HD 2 1 79 0; HD 9 1 79 0; HD 23 1 79 0; HD 40 1 79 1;
      HD 2 1 80 0; HD 9 1 80 0; HD 23 1 80 0; HD 40 1 80 1];
    [HD 3 1 77 0; HD 6 1 77 0; HD 10 1 77 0; HD 15 1 77 0;
      HD 24 1 77 0; HD 31 1 77 0; HD 41 1 77 0; HD 56 1 77 1;
      HD 3 1 78 0; HD 6 1 78 0; HD 10 1 78 0; HD 15 1 78 0;
      HD 24 1 78 0; HD 31 1 78 0; HD 41 1 78 0; HD 56 1 78 1];
    [HD 3 1 79 0; HD 6 1 79 0; HD 10 1 79 0; HD 15 1 79 0;
      HD 24 1 79 0; HD 31 1 79 0; HD 41 1 79 0; HD 56 1 79 1;
      HD 3 1 80 0; HD 6 1 80 0; HD 10 1 80 0; HD 15 1 80 0;
      HD 24 1 80 0; HD 31 1 80 0; HD 41 1 80 0; HD 56 1 80 1];
    [HD 2 1 81 0; HD 9 1 81 0; HD 23 1 81 0; HD 40 1 81 1;
      HD 2 1 82 0; HD 9 1 82 0; HD 23 1 82 0; HD 40 1 82 1;
      HD 2 1 83 0; HD 9 1 83 0; HD 23 1 83 0; HD 40 1 83 1;
      HD 2 1 84 0; HD 9 1 84 0; HD 23 1 84 0; HD 40 1 84 1];
    [HD 3 1 81 0; HD 6 1 81 0; HD 10 1 81 0; HD 15 1 81 0;
      HD 24 1 81 0; HD 31 1 81 0; HD 41 1 81 0; HD 56 1 81 1;
      HD 3 1 82 0; HD 6 1 82 0; HD 10 1 82 0; HD 15 1 82 0;
      HD 24 1 82 0; HD 31 1 82 0; HD 41 1 82 0; HD 56 1 82 1];
    [HD 3 1 83 0; HD 6 1 83 0; HD 10 1 83 0; HD 15 1 83 0;
      HD 24 1 83 0; HD 31 1 83 0; HD 41 1 83 0; HD 56 1 83 1;
      HD 3 1 84 0; HD 6 1 84 0; HD 10 1 84 0; HD 15 1 84 0;
      HD 24 1 84 0; HD 31 1 84 0; HD 41 1 84 0; HD 56 1 84 1] ].

Definition ngx_http_huff_decode_codes_56 : list (list huff_decode_code) :=
  [ [HD 0 1 85 1; HD 0 1 86 1; HD 0 1 87 1; HD 0 1 89 1;
      HD 0 1 106 1; HD 0 1 107 1; HD 0 1 113 1; HD 0 1 118 1;
      HD 0 1 119 1; HD 0 1 120 1; HD 0 1 121 1; HD 0 1 122 1;
      HD 70 0 0 0; HD 71 0 0 0; HD 73 0 0 0; HD 74 0 0 1];
    [HD 1 1 85 0; HD 22 1 85 1; HD 1 1 86 0; HD 22 1 86 1;
      HD 1 1 87 0; HD 22 1 87 1; HD 1 1 89 0; HD 22 1 89 1;
      HD 1 1 106 0; HD 22 1 106 1; HD 1 1 107 0; HD 22 1 107 1;
      HD 1 1 113 0; HD 22 1 113 1; HD 1 1 118 0; HD 22 1 118 1];
    [HD 2 1 85 0; HD 9 1 85 0; HD 23 1 85 0; HD 40 1 85 1;
      HD 2 1 86 0; HD 9 1 86 0; HD 23 1 86 0; HD 40 1 86 1;
      HD 2 1 87 0; HD 9 1 87 0; HD 23 1 87 0; HD 40 1 87 1;
      HD 2 1 89 0; HD 9 1 89 0; HD 23 1 89 0; HD 40 1 89 1];
    [HD 3 1 85 0; HD 6 1 85 0; HD 10 1 85 0; HD 15 1 85 0;
      HD 24 1 85 0; HD 31 1 85 0; HD 41 1 85 0; HD 56 1 85 1;
      HD 3 1 86 0; HD 6 1 86 0; HD 10 1 86 0; HD 15 1 86 0;
      HD 24 1 86 0; HD 31 1 86 0; HD 41 1 86 0; HD 56 1 86 1];
    [HD 3 1 87 0; HD 6 1 87 0; HD 10 1 87 0; HD 15 1 87 0;
      HD 24 1 87 0; HD 31 1 87 0; HD 41 1 87 0; HD 56 1 87 1;
      HD 3 1 89 0; HD 6 1 89 0; HD 10 1 89 0; HD 15 1 89 0;
      HD 24 1 89 0; HD 31 1 89 0; HD 41 1 89 0; HD 56 1 89 1];
    [HD 2 1 106 0; HD 9 1 106 0; HD 23 1 106 0; HD 40 1 106 1;
      HD 2 1 107 0; HD 9 1 107 0; HD 23 1 107 0; HD 40 1 107 1;
      HD 2 1 113 0; HD 9 1 113 0; HD 23 1 113 0; HD 40 1 113 1;
      HD 2 1 118 0; HD 9 1 118 0; HD 23 1 118 0; HD 40 1 118 1];
    [HD 3 1 106 0; HD 6 1 106 0; HD 10 1 106 0; HD 15 1 106 0;
      HD 24 1 106 0; HD 31 1 106 0; HD 41 1 106 0; HD 56 1 106 1;
      HD 3 1 107 0; HD 6 1 107 0; HD 10 1 107 0; HD 15 1 107 0;
      HD 24 1 107 0; HD 31 1 107 0; HD 41 1 107 0; HD 56 1 107 1];
    [HD 3 1 113 0; HD 6 1 113 0; HD 10 1 113 0; HD 15 1 113 0;
      HD 24 1 113 0; HD 31 1 113 0; HD 41 1 113 0; HD 56 1 113 1;
      HD 3 1 118 0; HD 6 1 118 0; HD 10 1 118 0; HD 15 1 118 0;
      HD 24 1 118 0; HD 31 1 118 0; HD 41 1 118 0; HD 56 1 118 1];
    [HD 1 1 119 0; HD 22 1 119 1; HD 1 1 120 0; HD 22 1 120 1;
      HD 1 1 121 0; HD 22 1 121 1; HD 1 1 122 0; HD 22 1 122 1;
      HD 0 1 38 1; HD 0 1 42 1; HD 0 1 44 1; HD 0 1 59 1;
      HD 0 1 88 1; HD 0 1 90 1; HD 75 0 0 0; HD 78 0 0 1];
    [HD 2 1 119 0; HD 9 1 119 0; HD 23 1 119 0; HD 40 1 119 1;
      HD 2 1 120 0; HD 9 1 120 0; HD 23 1 120 0; HD 40 1 120 1;
      HD 2 1 121 0; HD 9 1 121 0; HD 23 1 121 0; HD 40 1 121 1;
      HD 2 1 122 0; HD 9 1 122 0; HD 23 1 122 0; HD 40 1 122 1];
    [HD 3 1 119 0; HD 6 1 119 0; HD 10 1 119 0; HD 15 1 119 0;
      HD 24 1 119 0; HD 31 1 119 0; HD 41 1 119 0; HD 56 1 119 1;
      HD 3 1 120 0; HD 6 1 120 0; HD 10 1 120 0; HD 15 1 120 0;
      HD 24 1 120 0; HD 31 1 120 0; HD 41 1 120 0; HD 56 1 120 1];
    [HD 3 1 121 0; HD 6 1 121 0; HD 10 1 121 0; HD 15 1 121 0;
      HD 24 1 121 0; HD 31 1 121 0; HD 41 1 121 0; HD 56 1 121 1;
      HD 3 1 122 0; HD 6 1 122 0; HD 10 1 122 0; HD 15 1 122 0;
      HD 24 1 122 0; HD 31 1 122 0; HD 41 1 122 0; HD 56 1 122 1];
    [HD 1 1 38 0; HD 22 1 38 1; HD 1 1 42 0; HD 22 1 42 1;
      HD 1 1 44 0; HD 22 1 44 1; HD 1 1 59 0; HD 22 1 59 1;
      HD 1 1 88 0; HD 22 1 88 1; HD 1 1 90 0; HD 22 1 90 1;
      HD 76 0 0 0; HD 77 0 0 0; HD 79 0 0 0; HD 81 0 0 1];
    [HD 2 1 38 0; HD 9 1 38 0; HD 23 1 38 0; HD 40 1 38 1;
      HD 2 1 42 0; HD 9 1 42 0; HD 23 1 42 0; HD 40 1 42 1;
      HD 2 1 44 0; HD 9 1 44 0; HD 23 1 44 0; HD 40 1 44 1;
      HD 2 1 59 0; HD 9 1 59 0; HD 23 1 59 0; HD 40 1 59 1] ].

Definition ngx_http_huff_decode_codes_70 : list (list huff_decode_code) :=
  [ [HD 3 1 38 0; HD 6 1 38 0; HD 10 1 38 0; HD 15 1 38 0;
      HD 24 1 38 0; HD 31 1 38 0; HD 41 1 38 0; HD 56 1 38 1;
      HD 3 1 42 0; HD 6 1 42 0; HD 10 1 42 0; HD 15 1 42 0;
      HD 24 1 42 0; HD 31 1 42 0; HD 41 1 42 0; HD 56 1 42 1];
    [HD 3 1 44 0; HD 6 1 44 0; HD 10 1 44 0; HD 15 1 44 0;
      HD 24 1 44 0; HD 31 1 44 0; HD 41 1 44 0; HD 56 1 44 1;
      HD 3 1 59 0; HD 6 1 59 0; HD 10 1 59 0; HD 15 1 59 0;
      HD 24 1 59 0; HD 31 1 59 0; HD 41 1 59 0; HD 56 1 59 1];
    [HD 2 1 88 0; HD 9 1 88 0; HD 23 1 88 0; HD 40 1 88 1;
      HD 2 1 90 0; HD 9 1 90 0; HD 23 1 90 0; HD 40 1 90 1;
      HD 0 1 33 1; HD 0 1 34 1; HD 0 1 40 1; HD 0 1 41 1;
      HD 0 1 63 1; HD 80 0 0 0; HD 82 0 0 0; HD 84 0 0 1];
    [HD 3 1 88 0; HD 6 1 88 0; HD 10 1 88 0; HD 15 1 88 0;
      HD 24 1 88 0; HD 31 1 88 0; HD 41 1 88 0; HD 56 1 88 1;
      HD 3 1 90 0; HD 6 1 90 0; HD 10 1 90 0; HD 15 1 90 0;
      HD 24 1 90 0; HD 31 1 90 0; HD 41 1 90 0; HD 56 1 90 1];
    [HD 1 1 33 0; HD 22 1 33 1; HD 1 1 34 0; HD 22 1 34 1;
      HD 1 1 40 0; HD 22 1 40 1; HD 1 1 41 0; HD 22 1 41 1;
      HD 1 1 63 0; HD 22 1 63 1; HD 0 1 39 1; HD 0 1 43 1;
      HD 0 1 124 1; HD 83 0 0 0; HD 85 0 0 0; HD 88 0 0 1];
    [HD 2 1 33 0; HD 9 1 33 0; HD 23 1 33 0; HD 40 1 33 1;
      HD 2 1 34 0; HD 9 1 34 0; HD 23 1 34 0; HD 40 1 34 1;
      HD 2 1 40 0; HD 9 1 40 0; HD 23 1 40 0; HD 40 1 40 1;
      HD 2 1 41 0; HD 9 1 41 0; HD 23 1 41 0; HD 40 1 41 1];
    [HD 3 1 33 0; HD 6 1 33 0; HD 10 1 33 0; HD 15 1 33 0;
      HD 24 1 33 0; HD 31 1 33 0; HD 41 1 33 0; HD 56 1 33 1;
      HD 3 1 34 0; HD 6 1 34 0; HD 10 1 34 0; HD 15 1 34 0;
      HD 24 1 34 0; HD 31 1 34 0; HD 41 1 34 0; HD 56 1 34 1];
    [HD 3 1 40 0; HD 6 1 40 0; HD 10 1 40 0; HD 15 1 40 0;
      HD 24 1 40 0; HD 31 1 40 0; HD 41 1 40 0; HD 56 1 40 1;
      HD 3 1 41 0; HD 6 1 41 0; HD 10 1 41 0; HD 15 1 41 0;
      HD 24 1 41 0; HD 31 1 41 0; HD 41 1 41 0; HD 56 1 41 1];
    [HD 2 1 63 0; HD 9 1 63 0; HD 23 1 63 0; HD 40 1 63 1;
      HD 1 1 39 0; HD 22 1 39 1; HD 1 1 43 0; HD 22 1 43 1;
      HD 1 1 124 0; HD 22 1 124 1; HD 0 1 35 1; HD 0 1 62 1;
      HD 86 0 0 0; HD 87 0 0 0; HD 89 0 0 0; HD 90 0 0 1];
    [HD 3 1 63 0; HD 6 1 63 0; HD 10 1 63 0; HD 15 1 63 0;
      HD 24 1 63 0; HD 31 1 63 0; HD 41 1 63 0; HD 56 1 63 1;
      HD 2 1 39 0; HD 9 1 39 0; HD 23 1 39 0; HD 40 1 39 1;
      HD 2 1 43 0; HD 9 1 43 0; HD 23 1 43 0; HD 40 1 43 1];
    [HD 3 1 39 0; HD 6 1 39 0; HD 10 1 39 0; HD 15 1 39 0;
      HD 24 1 39 0; HD 31 1 39 0; HD 41 1 39 0; HD 56 1 39 1;
      HD 3 1 43 0; HD 6 1 43 0; HD 10 1 43 0; HD 15 1 43 0;
      HD 24 1 43 0; HD 31 1 43 0; HD 41 1 43 0; HD 56 1 43 1];
    [HD 2 1 124 0; HD 9 1 124 0; HD 23 1 124 0; HD 40 1 124 1;
      HD 1 1 35 0; HD 22 1 35 1; HD 1 1 62 0; HD 22 1 62 1;
      HD 0 1 0 1; HD 0 1 36 1; HD 0 1 64 1; HD 0 1 91 1;
      HD 0 1 93 1; HD 0 1 126 1; HD 91 0 0 0; HD 92 0 0 1];
    [HD 3 1 124 0; HD 6 1 124 0; HD 10 1 124 0; HD 15 1 124 0;
      HD 24 1 124 0; HD 31 1 124 0; HD 41 1 124 0; HD 56 1 124 1;
      HD 2 1 35 0; HD 9 1 35 0; HD 23 1 35 0; HD 40 1 35 1;
      HD 2 1 62 0; HD 9 1 62 0; HD 23 1 62 0; HD 40 1 62 1];
    [HD 3 1 35 0; HD 6 1 35 0; HD 10 1 35 0; HD 15 1 35 0;
      HD 24 1 35 0; HD 31 1 35 0; HD 41 1 35 0; HD 56 1 35 1;
      HD 3 1 62 0; HD 6 1 62 0; HD 10 1 62 0; HD 15 1 62 0;
      HD 24 1 62 0; HD 31 1 62 0; HD 41 1 62 0; HD 56 1 62 1] ].

Definition ngx_http_huff_decode_codes_84 : list (list huff_decode_code) :=
  [ [HD 1 1 0 0; HD 22 1 0 1; HD 1 1 36 0; HD 22 1 36 1;
      HD 1 1 64 0; HD 22 1 64 1; HD 1 1 91 0; HD 22 1 91 1;
      HD 1 1 93 0; HD 22 1 93 1; HD 1 1 126 0; HD 22 1 126 1;
      HD 0 1 94 1; HD 0 1 125 1; HD 93 0 0 0; HD 94 0 0 1];
    [HD 2 1 0 0; HD 9 1 0 0; HD 23 1 0 0; HD 40 1 0 1;
      HD 2 1 36 0; HD 9 1 36 0; HD 23 1 36 0; HD 40 1 36 1;
      HD 2 1 64 0; HD 9 1 64 0; HD 23 1 64 0; HD 40 1 64 1;
      HD 2 1 91 0; HD 9 1 91 0; HD 23 1 91 0; HD 40 1 91 1];
    [HD 3 1 0 0; HD 6 1 0 0; HD 10 1 0 0; HD 15 1 0 0;
      HD 24 1 0 0; HD 31 1 0 0; HD 41 1 0 0; HD 56 1 0 1;
      HD 3 1 36 0; HD 6 1 36 0; HD 10 1 36 0; HD 15 1 36 0;
      HD 24 1 36 0; HD 31 1 36 0; HD 41 1 36 0; HD 56 1 36 1];
    [HD 3 1 64 0; HD 6 1 64 0; HD 10 1 64 0; HD 15 1 64 0;
      HD 24 1 64 0; HD 31 1 64 0; HD 41 1 64 0; HD 56 1 64 1;
      HD 3 1 91 0; HD 6 1 91 0; HD 10 1 91 0; HD 15 1 91 0;
      HD 24 1 91 0; HD 31 1 91 0; HD 41 1 91 0; HD 56 1 91 1];
    [HD 2 1 93 0; HD 9 1 93 0; HD 23 1 93 0; HD 40 1 93 1;
      HD 2 1 126 0; HD 9 1 126 0; HD 23 1 126 0; HD 40 1 126 1;
      HD 1 1 94 0; HD 22 1 94 1; HD 1 1 125 0; HD 22 1 125 1;
      HD 0 1 60 1; HD 0 1 96 1; HD 0 1 123 1; HD 95 0 0 1];
    [HD 3 1 93 0; HD 6 1 93 0; HD 10 1 93 0; HD 15 1 93 0;
      HD 24 1 93 0; HD 31 1 93 0; HD 41 1 93 0; HD 56 1 93 1;
      HD 3 1 126 0; HD 6 1 126 0; HD 10 1 126 0; HD 15 1 126 0;
      HD 24 1 126 0; HD 31 1 126 0; HD 41 1 126 0; HD 56 1 126 1];
    [HD 2 1 94 0; HD 9 1 94 0; HD 23 1 94 0; HD 40 1 94 1;
      HD 2 1 125 0; HD 9 1 125 0; HD 23 1 125 0; HD 40 1 125 1;
      HD 1 1 60 0; HD 22 1 60 1; HD 1 1 96 0; HD 22 1 96 1;
      HD 1 1 123 0; HD 22 1 123 1; HD 96 0 0 0; HD 110 0 0 1];
    [HD 3 1 94 0; HD 6 1 94 0; HD 10 1 94 0; HD 15 1 94 0;
      HD 24 1 94 0; HD 31 1 94 0; HD 41 1 94 0; HD 56 1 94 1;
      HD 3 1 125 0; HD 6 1 125 0; HD 10 1 125 0; HD 15 1 125 0;
      HD 24 1 125 0; HD 31 1 125 0; HD 41 1 125 0; HD 56 1 125 1];
    [HD 2 1 60 0; HD 9 1 60 0; HD 23 1 60 0; HD 40 1 60 1;
      HD 2 1 96 0; HD 9 1 96 0; HD 23 1 96 0; HD 40 1 96 1;
      HD 2 1 123 0; HD 9 1 123 0; HD 23 1 123 0; HD 40 1 123 1;
      HD 97 0 0 0; HD 101 0 0 0; HD 111 0 0 0; HD 133 0 0 1];
    [HD 3 1 60 0; HD 6 1 60 0; HD 10 1 60 0; HD 15 1 60 0;
      HD 24 1 60 0; HD 31 1 60 0; HD 41 1 60 0; HD 56 1 60 1;
      HD 3 1 96 0; HD 6 1 96 0; HD 10 1 96 0; HD 15 1 96 0;
      HD 24 1 96 0; HD 31 1 96 0; HD 41 1 96 0; HD 56 1 96 1];
    [HD 3 1 123 0; HD 6 1 123 0; HD 10 1 123 0; HD 15 1 123 0;
      HD 24 1 123 0; HD 31 1 123 0; HD 41 1 123 0; HD 56 1 123 1;
      HD 98 0 0 0; HD 99 0 0 0; HD 102 0 0 0; HD 105 0 0 0;
      HD 112 0 0 0; HD 119 0 0 0; HD 134 0 0 0; HD 153 0 0 1];
    [HD 0 1 92 1; HD 0 1 195 1; HD 0 1 208 1; HD 100 0 0 0;
      HD 103 0 0 0; HD 104 0 0 0; HD 106 0 0 0; HD 107 0 0 0;
      HD 113 0 0 0; HD 116 0 0 0; HD 120 0 0 0; HD 126 0 0 0;
      HD 135 0 0 0; HD 142 0 0 0; HD 154 0 0 0; HD 169 0 0 1];
    [HD 1 1 92 0; HD 22 1 92 1; HD 1 1 195 0; HD 22 1 195 1;
      HD 1 1 208 0; HD 22 1 208 1; HD 0 1 128 1; HD 0 1 130 1;
      HD 0 1 131 1; HD 0 1 162 1; HD 0 1 184 1; HD 0 1 194 1;
      HD 0 1 224 1; HD 0 1 226 1; HD 108 0 0 0; HD 109 0 0 0];
    [HD 2 1 92 0; HD 9 1 92 0; HD 23 1 92 0; HD 40 1 92 1;
      HD 2 1 195 0; HD 9 1 195 0; HD 23 1 195 0; HD 40 1 195 1;
      HD 2 1 208 0; HD 9 1 208 0; HD 23 1 208 0; HD 40 1 208 1;
      HD 1 1 128 0; HD 22 1 128 1; HD 1 1 130 0; HD 22 1 130 1] ].

Definition ngx_http_huff_decode_codes_98 : list (list huff_decode_code) :=
  [ [HD 3 1 92 0; HD 6 1 92 0; HD 10 1 92 0; HD 15 1 92 0;
      HD 24 1 92 0; HD 31 1 92 0; HD 41 1 92 0; HD 56 1 92 1;
      HD 3 1 195 0; HD 6 1 195 0; HD 10 1 195 0; HD 15 1 195 0;
      HD 24 1 195 0; HD 31 1 195 0; HD 41 1 195 0; HD 56 1 195 1];
    [HD 3 1 208 0; HD 6 1 208 0; HD 10 1 208 0; HD 15 1 208 0;
      HD 24 1 208 0; HD 31 1 208 0; HD 41 1 208 0; HD 56 1 208 1;
      HD 2 1 128 0; HD 9 1 128 0; HD 23 1 128 0; HD 40 1 128 1;
      HD 2 1 130 0; HD 9 1 130 0; HD 23 1 130 0; HD 40 1 130 1];
    [HD 3 1 128 0; HD 6 1 128 0; HD 10 1 128 0; HD 15 1 128 0;
      HD 24 1 128 0; HD 31 1 128 0; HD 41 1 128 0; HD 56 1 128 1;
      HD 3 1 130 0; HD 6 1 130 0; HD 10 1 130 0; HD 15 1 130 0;
      HD 24 1 130 0; HD 31 1 130 0; HD 41 1 130 0; HD 56 1 130 1];
    [HD 1 1 131 0; HD 22 1 131 1; HD 1 1 162 0; HD 22 1 162 1;
      HD 1 1 184 0; HD 22 1 184 1; HD 1 1 194 0; HD 22 1 194 1;
      HD 1 1 224 0; HD 22 1 224 1; HD 1 1 226 0; HD 22 1 226 1;
      HD 0 1 153 1; HD 0 1 161 1; HD 0 1 167 1; HD 0 1 172 1];
    [HD 2 1 131 0; HD 9 1 131 0; HD 23 1 131 0; HD 40 1 131 1;
      HD 2 1 162 0; HD 9 1 162 0; HD 23 1 162 0; HD 40 1 162 1;
      HD 2 1 184 0; HD 9 1 184 0; HD 23 1 184 0; HD 40 1 184 1;
      HD 2 1 194 0; HD 9 1 194 0; HD 23 1 194 0; HD 40 1 194 1];
    [HD 3 1 131 0; HD 6 1 131 0; HD 10 1 131 0; HD 15 1 131 0;
      HD 24 1 131 0; HD 31 1 131 0; HD 41 1 131 0; HD 56 1 131 1;
      HD 3 1 162 0; HD 6 1 162 0; HD 10 1 162 0; HD 15 1 162 0;
      HD 24 1 162 0; HD 31 1 162 0; HD 41 1 162 0; HD 56 1 162 1];
    [HD 3 1 184 0; HD 6 1 184 0; HD 10 1 184 0; HD 15 1 184 0;
      HD 24 1 184 0; HD 31 1 184 0; HD 41 1 184 0; HD 56 1 184 1;
      HD 3 1 194 0; HD 6 1 194 0; HD 10 1 194 0; HD 15 1 194 0;
      HD 24 1 194 0; HD 31 1 194 0; HD 41 1 194 0; HD 56 1 194 1];
    [HD 2 1 224 0; HD 9 1 224 0; HD 23 1 224 0; HD 40 1 224 1;
      HD 2 1 226 0; HD 9 1 226 0; HD 23 1 226 0; HD 40 1 226 1;
      HD 1 1 153 0; HD 22 1 153 1; HD 1 1 161 0; HD 22 1 161 1;
      HD 1 1 167 0; HD 22 1 167 1; HD 1 1 172 0; HD 22 1 172 1];
    [HD 3 1 224 0; HD 6 1 224 0; HD 10 1 224 0; HD 15 1 224 0;
      HD 24 1 224 0; HD 31 1 224 0; HD 41 1 224 0; HD 56 1 224 1;
      HD 3 1 226 0; HD 6 1 226 0; HD 10 1 226 0; HD 15 1 226 0;
      HD 24 1 226 0; HD 31 1 226 0; HD 41 1 226 0; HD 56 1 226 1];
    [HD 2 1 153 0; HD 9 1 153 0; HD 23 1 153 0; HD 40 1 153 1;
      HD 2 1 161 0; HD 9 1 161 0; HD 23 1 161 0; HD 40 1 161 1;
      HD 2 1 167 0; HD 9 1 167 0; HD 23 1 167 0; HD 40 1 167 1;
      HD 2 1 172 0; HD 9 1 172 0; HD 23 1 172 0; HD 40 1 172 1];
    [HD 3 1 153 0; HD 6 1 153 0; HD 10 1 153 0; HD 15 1 153 0;
      HD 24 1 153 0; HD 31 1 153 0; HD 41 1 153 0; HD 56 1 153 1;
      HD 3 1 161 0; HD 6 1 161 0; HD 10 1 161 0; HD 15 1 161 0;
      HD 24 1 161 0; HD 31 1 161 0; HD 41 1 161 0; HD 56 1 161 1];
    [HD 3 1 167 0; HD 6 1 167 0; HD 10 1 167 0; HD 15 1 167 0;
      HD 24 1 167 0; HD 31 1 167 0; HD 41 1 167 0; HD 56 1 167 1;
      HD 3 1 172 0; HD 6 1 172 0; HD 10 1 172 0; HD 15 1 172 0;
      HD 24 1 172 0; HD 31 1 172 0; HD 41 1 172 0; HD 56 1 172 1];
    [HD 114 0 0 0; HD 115 0 0 0; HD 117 0 0 0; HD 118 0 0 0;
      HD 121 0 0 0; HD 123 0 0 0; HD 127 0 0 0; HD 130 0 0 0;
      HD 136 0 0 0; HD 139 0 0 0; HD 143 0 0 0; HD 146 0 0 0;
      HD 155 0 0 0; HD 162 0 0 0; HD 170 0 0 0; HD 180 0 0 1];
    [HD 0 1 176 1; HD 0 1 177 1; HD 0 1 179 1; HD 0 1 209 1;
      HD 0 1 216 1; HD 0 1 217 1; HD 0 1 227 1; HD 0 1 229 1;
      HD 0 1 230 1; HD 122 0 0 0; HD 124 0 0 0; HD 125 0 0 0;
      HD 128 0 0 0; HD 129 0 0 0; HD 131 0 0 0; HD 132 0 0 0] ].

Definition ngx_http_huff_decode_codes_112 : list (list huff_decode_code) :=
  [ [HD 1 1 176 0; HD 22 1 176 1; HD 1 1 177 0; HD 22 1 177 1;
      HD 1 1 179 0; HD 22 1 179 1; HD 1 1 209 0; HD 22 1 209 1;
      HD 1 1 216 0; HD 22 1 216 1; HD 1 1 217 0; HD 22 1 217 1;
      HD 1 1 227 0; HD 22 1 227 1; HD 1 1 229 0; HD 22 1 229 1];
    [HD 2 1 176 0; HD 9 1 176 0; HD 23 1 176 0; HD 40 1 176 1;
      HD 2 1 177 0; HD 9 1 177 0; HD 23 1 177 0; HD 40 1 177 1;
      HD 2 1 179 0; HD 9 1 179 0; HD 23 1 179 0; HD 40 1 179 1;
      HD 2 1 209 0; HD 9 1 209 0; HD 23 1 209 0; HD 40 1 209 1];
    [HD 3 1 176 0; HD 6 1 176 0; HD 10 1 176 0; HD 15 1 176 0;
      HD 24 1 176 0; HD 31 1 176 0; HD 41 1 176 0; HD 56 1 176 1;
      HD 3 1 177 0; HD 6 1 177 0; HD 10 1 177 0; HD 15 1 177 0;
      HD 24 1 177 0; HD 31 1 177 0; HD 41 1 177 0; HD 56 1 177 1];
    [HD 3 1 179 0; HD 6 1 179 0; HD 10 1 179 0; HD 15 1 179 0;
      HD 24 1 179 0; HD 31 1 179 0; HD 41 1 179 0; HD 56 1 179 1;
      HD 3 1 209 0; HD 6 1 209 0; HD 10 1 209 0; HD 15 1 209 0;
      HD 24 1 209 0; HD 31 1 209 0; HD 41 1 209 0; HD 56 1 209 1];
    [HD 2 1 216 0; HD 9 1 216 0; HD 23 1 216 0; HD 40 1 216 1;
      HD 2 1 217 0; HD 9 1 217 0; HD 23 1 217 0; HD 40 1 217 1;
      HD 2 1 227 0; HD 9 1 227 0; HD 23 1 227 0; HD 40 1 227 1;
      HD 2 1 229 0; HD 9 1 229 0; HD 23 1 229 0; HD 40 1 229 1];
    [HD 3 1 216 0; HD 6 1 216 0; HD 10 1 216 0; HD 15 1 216 0;
      HD 24 1 216 0; HD 31 1 216 0; HD 41 1 216 0; HD 56 1 216 1;
      HD 3 1 217 0; HD 6 1 217 0; HD 10 1 217 0; HD 15 1 217 0;
      HD 24 1 217 0; HD 31 1 217 0; HD 41 1 217 0; HD 56 1 217 1];
    [HD 3 1 227 0; HD 6 1 227 0; HD 10 1 227 0; HD 15 1 227 0;
      HD 24 1 227 0; HD 31 1 227 0; HD 41 1 227 0; HD 56 1 227 1;
      HD 3 1 229 0; HD 6 1 229 0; HD 10 1 229 0; HD 15 1 229 0;
      HD 24 1 229 0; HD 31 1 229 0; HD 41 1 229 0; HD 56 1 229 1];
    [HD 1 1 230 0; HD 22 1 230 1; HD 0 1 129 1; HD 0 1 132 1;
      HD 0 1 133 1; HD 0 1 134 1; HD 0 1 136 1; HD 0 1 146 1;
      HD 0 1 154 1; HD 0 1 156 1; HD 0 1 160 1; HD 0 1 163 1;
      HD 0 1 164 1; HD 0 1 169 1; HD 0 1 170 1; HD 0 1 173 1];
    [HD 2 1 230 0; HD 9 1 230 0; HD 23 1 230 0; HD 40 1 230 1;
      HD 1 1 129 0; HD 22 1 129 1; HD 1 1 132 0; HD 22 1 132 1;
      HD 1 1 133 0; HD 22 1 133 1; HD 1 1 134 0; HD 22 1 134 1;
      HD 1 1 136 0; HD 22 1 136 1; HD 1 1 146 0; HD 22 1 146 1];
    [HD 3 1 230 0; HD 6 1 230 0; HD 10 1 230 0; HD 15 1 230 0;
      HD 24 1 230 0; HD 31 1 230 0; HD 41 1 230 0; HD 56 1 230 1;
      HD 2 1 129 0; HD 9 1 129 0; HD 23 1 129 0; HD 40 1 129 1;
      HD 2 1 132 0; HD 9 1 132 0; HD 23 1 132 0; HD 40 1 132 1];
    [HD 3 1 129 0; HD 6 1 129 0; HD 10 1 129 0; HD 15 1 129 0;
      HD 24 1 129 0; HD 31 1 129 0; HD 41 1 129 0; HD 56 1 129 1;
      HD 3 1 132 0; HD 6 1 132 0; HD 10 1 132 0; HD 15 1 132 0;
      HD 24 1 132 0; HD 31 1 132 0; HD 41 1 132 0; HD 56 1 132 1];
    [HD 2 1 133 0; HD 9 1 133 0; HD 23 1 133 0; HD 40 1 133 1;
      HD 2 1 134 0; HD 9 1 134 0; HD 23 1 134 0; HD 40 1 134 1;
      HD 2 1 136 0; HD 9 1 136 0; HD 23 1 136 0; HD 40 1 136 1;
      HD 2 1 146 0; HD 9 1 146 0; HD 23 1 146 0; HD 40 1 146 1];
    [HD 3 1 133 0; HD 6 1 133 0; HD 10 1 133 0; HD 15 1 133 0;
      HD 24 1 133 0; HD 31 1 133 0; HD 41 1 133 0; HD 56 1 133 1;
      HD 3 1 134 0; HD 6 1 134 0; HD 10 1 134 0; HD 15 1 134 0;
      HD 24 1 134 0; HD 31 1 134 0; HD 41 1 134 0; HD 56 1 134 1];
    [HD 3 1 136 0; HD 6 1 136 0; HD 10 1 136 0; HD 15 1 136 0;
      HD 24 1 136 0; HD 31 1 136 0; HD 41 1 136 0; HD 56 1 136 1;
      HD 3 1 146 0; HD 6 1 146 0; HD 10 1 146 0; HD 15 1 146 0;
      HD 24 1 146 0; HD 31 1 146 0; HD 41 1 146 0; HD 56 1 146 1] ].

Definition ngx_http_huff_decode_codes_126 : list (list huff_decode_code) :=
  [ [HD 1 1 154 0; HD 22 1 154 1; HD 1 1 156 0; HD 22 1 156 1;
      HD 1 1 160 0; HD 22 1 160 1; HD 1 1 163 0; HD 22 1 163 1;
      HD 1 1 164 0; HD 22 1 164 1; HD 1 1 169 0; HD 22 1 169 1;
      HD 1 1 170 0; HD 22 1 170 1; HD 1 1 173 0; HD 22 1 173 1];
    [HD 2 1 154 0; HD 9 1 154 0; HD 23 1 154 0; HD 40 1 154 1;
      HD 2 1 156 0; HD 9 1 156 0; HD 23 1 156 0; HD 40 1 156 1;
      HD 2 1 160 0; HD 9 1 160 0; HD 23 1 160 0; HD 40 1 160 1;
      HD 2 1 163 0; HD 9 1 163 0; HD 23 1 163 0; HD 40 1 163 1];
    [HD 3 1 154 0; HD 6 1 154 0; HD 10 1 154 0; HD 15 1 154 0;
      HD 24 1 154 0; HD 31 1 154 0; HD 41 1 154 0; HD 56 1 154 1;
      HD 3 1 156 0; HD 6 1 156 0; HD 10 1 156 0; HD 15 1 156 0;
      HD 24 1 156 0; HD 31 1 156 0; HD 41 1 156 0; HD 56 1 156 1];
    [HD 3 1 160 0; HD 6 1 160 0; HD 10 1 160 0; HD 15 1 160 0;
      HD 24 1 160 0; HD 31 1 160 0; HD 41 1 160 0; HD 56 1 160 1;
      HD 3 1 163 0; HD 6 1 163 0; HD 10 1 163 0; HD 15 1 163 0;
      HD 24 1 163 0; HD 31 1 163 0; HD 41 1 163 0; HD 56 1 163 1];
    [HD 2 1 164 0; HD 9 1 164 0; HD 23 1 164 0; HD 40 1 164 1;
      HD 2 1 169 0; HD 9 1 169 0; HD 23 1 169 0; HD 40 1 169 1;
      HD 2 1 170 0; HD 9 1 170 0; HD 23 1 170 0; HD 40 1 170 1;
      HD 2 1 173 0; HD 9 1 173 0; HD 23 1 173 0; HD 40 1 173 1];
    [HD 3 1 164 0; HD 6 1 164 0; HD 10 1 164 0; HD 15 1 164 0;
      HD 24 1 164 0; HD 31 1 164 0; HD 41 1 164 0; HD 56 1 164 1;
      HD 3 1 169 0; HD 6 1 169 0; HD 10 1 169 0; HD 15 1 169 0;
      HD 24 1 169 0; HD 31 1 169 0; HD 41 1 169 0; HD 56 1 169 1];
    [HD 3 1 170 0; HD 6 1 170 0; HD 10 1 170 0; HD 15 1 170 0;
      HD 24 1 170 0; HD 31 1 170 0; HD 41 1 170 0; HD 56 1 170 1;
      HD 3 1 173 0; HD 6 1 173 0; HD 10 1 173 0; HD 15 1 173 0;
      HD 24 1 173 0; HD 31 1 173 0; HD 41 1 173 0; HD 56 1 173 1];
    [HD 137 0 0 0; HD 138 0 0 0; HD 140 0 0 0; HD 141 0 0 0;
      HD 144 0 0 0; HD 145 0 0 0; HD 147 0 0 0; HD 150 0 0 0;
      HD 156 0 0 0; HD 159 0 0 0; HD 163 0 0 0; HD 166 0 0 0;
      HD 171 0 0 0; HD 174 0 0 0; HD 181 0 0 0; HD 190 0 0 1];
    [HD 0 1 178 1; HD 0 1 181 1; HD 0 1 185 1; HD 0 1 186 1;
      HD 0 1 187 1; HD 0 1 189 1; HD 0 1 190 1; HD 0 1 196 1;
      HD 0 1 198 1; HD 0 1 228 1; HD 0 1 232 1; HD 0 1 233 1;
      HD 148 0 0 0; HD 149 0 0 0; HD 151 0 0 0; HD 152 0 0 0];
    [HD 1 1 178 0; HD 22 1 178 1; HD 1 1 181 0; HD 22 1 181 1;
      HD 1 1 185 0; HD 22 1 185 1; HD 1 1 186 0; HD 22 1 186 1;
      HD 1 1 187 0; HD 22 1 187 1; HD 1 1 189 0; HD 22 1 189 1;
      HD 1 1 190 0; HD 22 1 190 1; HD 1 1 196 0; HD 22 1 196 1];
    [HD 2 1 178 0; HD 9 1 178 0; HD 23 1 178 0; HD 40 1 178 1;
      HD 2 1 181 0; HD 9 1 181 0; HD 23 1 181 0; HD 40 1 181 1;
      HD 2 1 185 0; HD 9 1 185 0; HD 23 1 185 0; HD 40 1 185 1;
      HD 2 1 186 0; HD 9 1 186 0; HD 23 1 186 0; HD 40 1 186 1];
    [HD 3 1 178 0; HD 6 1 178 0; HD 10 1 178 0; HD 15 1 178 0;
      HD 24 1 178 0; HD 31 1 178 0; HD 41 1 178 0; HD 56 1 178 1;
      HD 3 1 181 0; HD 6 1 181 0; HD 10 1 181 0; HD 15 1 181 0;
      HD 24 1 181 0; HD 31 1 181 0; HD 41 1 181 0; HD 56 1 181 1];
    [HD 3 1 185 0; HD 6 1 185 0; HD 10 1 185 0; HD 15 1 185 0;
      HD 24 1 185 0; HD 31 1 185 0; HD 41 1 185 0; HD 56 1 185 1;
      HD 3 1 186 0; HD 6 1 186 0; HD 10 1 186 0; HD 15 1 186 0;
      HD 24 1 186 0; HD 31 1 186 0; HD 41 1 186 0; HD 56 1 186 1];
    [HD 2 1 187 0; HD 9 1 187 0; HD 23 1 187 0; HD 40 1 187 1;
      HD 2 1 189 0; HD 9 1 189 0; HD 23 1 189 0; HD 40 1 189 1;
      HD 2 1 190 0; HD 9 1 190 0; HD 23 1 190 0; HD 40 1 190 1;
      HD 2 1 196 0; HD 9 1 196 0; HD 23 1 196 0; HD 40 1 196 1] ].

Definition ngx_http_huff_decode_codes_140 : list (list huff_decode_code) :=
  [ [HD 3 1 187 0; HD 6 1 187 0; HD 10 1 187 0; HD 15 1 187 0;
      HD 24 1 187 0; HD 31 1 187 0; HD 41 1 187 0; HD 56 1 187 1;
      HD 3 1 189 0; HD 6 1 189 0; HD 10 1 189 0; HD 15 1 189 0;
      HD 24 1 189 0; HD 31 1 189 0; HD 41 1 189 0; HD 56 1 189 1];
    [HD 3 1 190 0; HD 6 1 190 0; HD 10 1 190 0; HD 15 1 190 0;
      HD 24 1 190 0; HD 31 1 190 0; HD 41 1 190 0; HD 56 1 190 1;
      HD 3 1 196 0; HD 6 1 196 0; HD 10 1 196 0; HD 15 1 196 0;
      HD 24 1 196 0; HD 31 1 196 0; HD 41 1 196 0; HD 56 1 196 1];
    [HD 1 1 198 0; HD 22 1 198 1; HD 1 1 228 0; HD 22 1 228 1;
      HD 1 1 232 0; HD 22 1 232 1; HD 1 1 233 0; HD 22 1 233 1;
      HD 0 1 1 1; HD 0 1 135 1; HD 0 1 137 1; HD 0 1 138 1;
      HD 0 1 139 1; HD 0 1 140 1; HD 0 1 141 1; HD 0 1 143 1];
    [HD 2 1 198 0; HD 9 1 198 0; HD 23 1 198 0; HD 40 1 198 1;
      HD 2 1 228 0; HD 9 1 228 0; HD 23 1 228 0; HD 40 1 228 1;
      HD 2 1 232 0; HD 9 1 232 0; HD 23 1 232 0; HD 40 1 232 1;
      HD 2 1 233 0; HD 9 1 233 0; HD 23 1 233 0; HD 40 1 233 1];
    [HD 3 1 198 0; HD 6 1 198 0; HD 10 1 198 0; HD 15 1 198 0;
      HD 24 1 198 0; HD 31 1 198 0; HD 41 1 198 0; HD 56 1 198 1;
      HD 3 1 228 0; HD 6 1 228 0; HD 10 1 228 0; HD 15 1 228 0;
      HD 24 1 228 0; HD 31 1 228 0; HD 41 1 228 0; HD 56 1 228 1];
    [HD 3 1 232 0; HD 6 1 232 0; HD 10 1 232 0; HD 15 1 232 0;
      HD 24 1 232 0; HD 31 1 232 0; HD 41 1 232 0; HD 56 1 232 1;
      HD 3 1 233 0; HD 6 1 233 0; HD 10 1 233 0; HD 15 1 233 0;
      HD 24 1 233 0; HD 31 1 233 0; HD 41 1 233 0; HD 56 1 233 1];
    [HD 1 1 1 0; HD 22 1 1 1; HD 1 1 135 0; HD 22 1 135 1;
      HD 1 1 137 0; HD 22 1 137 1; HD 1 1 138 0; HD 22 1 138 1;
      HD 1 1 139 0; HD 22 1 139 1; HD 1 1 140 0; HD 22 1 140 1;
      HD 1 1 141 0; HD 22 1 141 1; HD 1 1 143 0; HD 22 1 143 1];
    [HD 2 1 1 0; HD 9 1 1 0; HD 23 1 1 0; HD 40 1 1 1;
      HD 2 1 135 0; HD 9 1 135 0; HD 23 1 135 0; HD 40 1 135 1;
      HD 2 1 137 0; HD 9 1 137 0; HD 23 1 137 0; HD 40 1 137 1;
      HD 2 1 138 0; HD 9 1 138 0; HD 23 1 138 0; HD 40 1 138 1];
    [HD 3 1 1 0; HD 6 1 1 0; HD 10 1 1 0; HD 15 1 1 0;
      HD 24 1 1 0; HD 31 1 1 0; HD 41 1 1 0; HD 56 1 1 1;
      HD 3 1 135 0; HD 6 1 135 0; HD 10 1 135 0; HD 15 1 135 0;
      HD 24 1 135 0; HD 31 1 135 0; HD 41 1 135 0; HD 56 1 135 1];
    [HD 3 1 137 0; HD 6 1 137 0; HD 10 1 137 0; HD 15 1 137 0;
      HD 24 1 137 0; HD 31 1 137 0; HD 41 1 137 0; HD 56 1 137 1;
      HD 3 1 138 0; HD 6 1 138 0; HD 10 1 138 0; HD 15 1 138 0;
      HD 24 1 138 0; HD 31 1 138 0; HD 41 1 138 0; HD 56 1 138 1];
    [HD 2 1 139 0; HD 9 1 139 0; HD 23 1 139 0; HD 40 1 139 1;
      HD 2 1 140 0; HD 9 1 140 0; HD 23 1 140 0; HD 40 1 140 1;
      HD 2 1 141 0; HD 9 1 141 0; HD 23 1 141 0; HD 40 1 141 1;
      HD 2 1 143 0; HD 9 1 143 0; HD 23 1 143 0; HD 40 1 143 1];
    [HD 3 1 139 0; HD 6 1 139 0; HD 10 1 139 0; HD 15 1 139 0;
      HD 24 1 139 0; HD 31 1 139 0; HD 41 1 139 0; HD 56 1 139 1;
      HD 3 1 140 0; HD 6 1 140 0; HD 10 1 140 0; HD 15 1 140 0;
      HD 24 1 140 0; HD 31 1 140 0; HD 41 1 140 0; HD 56 1 140 1];
    [HD 3 1 141 0; HD 6 1 141 0; HD 10 1 141 0; HD 15 1 141 0;
      HD 24 1 141 0; HD 31 1 141 0; HD 41 1 141 0; HD 56 1 141 1;
      HD 3 1 143 0; HD 6 1 143 0; HD 10 1 143 0; HD 15 1 143 0;
      HD 24 1 143 0; HD 31 1 143 0; HD 41 1 143 0; HD 56 1 143 1];
    [HD 157 0 0 0; HD 158 0 0 0; HD 160 0 0 0; HD 161 0 0 0;
      HD 164 0 0 0; HD 165 0 0 0; HD 167 0 0 0; HD 168 0 0 0;
      HD 172 0 0 0; HD 173 0 0 0; HD 175 0 0 0; HD 177 0 0 0;
      HD 182 0 0 0; HD 185 0 0 0; HD 191 0 0 0; HD 207 0 0 1] ].

Definition ngx_http_huff_decode_codes_154 : list (list huff_decode_code) :=
  [ [HD 0 1 147 1; HD 0 1 149 1; HD 0 1 150 1; HD 0 1 151 1;
      HD 0 1 152 1; HD 0 1 155 1; HD 0 1 157 1; HD 0 1 158 1;
      HD 0 1 165 1; HD 0 1 166 1; HD 0 1 168 1; HD 0 1 174 1;
      HD 0 1 175 1; HD 0 1 180 1; HD 0 1 182 1; HD 0 1 183 1];
    [HD 1 1 147 0; HD 22 1 147 1; HD 1 1 149 0; HD 22 1 149 1;
      HD 1 1 150 0; HD 22 1 150 1; HD 1 1 151 0; HD 22 1 151 1;
      HD 1 1 152 0; HD 22 1 152 1; HD 1 1 155 0; HD 22 1 155 1;
      HD 1 1 157 0; HD 22 1 157 1; HD 1 1 158 0; HD 22 1 158 1];
    [HD 2 1 147 0; HD 9 1 147 0; HD 23 1 147 0; HD 40 1 147 1;
      HD 2 1 149 0; HD 9 1 149 0; HD 23 1 149 0; HD 40 1 149 1;
      HD 2 1 150 0; HD 9 1 150 0; HD 23 1 150 0; HD 40 1 150 1;
      HD 2 1 151 0; HD 9 1 151 0; HD 23 1 151 0; HD 40 1 151 1];
    [HD 3 1 147 0; HD 6 1 147 0; HD 10 1 147 0; HD 15 1 147 0;
      HD 24 1 147 0; HD 31 1 147 0; HD 41 1 147 0; HD 56 1 147 1;
      HD 3 1 149 0; HD 6 1 149 0; HD 10 1 149 0; HD 15 1 149 0;
      HD 24 1 149 0; HD 31 1 149 0; HD 41 1 149 0; HD 56 1 149 1];
    [HD 3 1 150 0; HD 6 1 150 0; HD 10 1 150 0; HD 15 1 150 0;
      HD 24 1 150 0; HD 31 1 150 0; HD 41 1 150 0; HD 56 1 150 1;
      HD 3 1 151 0; HD 6 1 151 0; HD 10 1 151 0; HD 15 1 151 0;
      HD 24 1 151 0; HD 31 1 151 0; HD 41 1 151 0; HD 56 1 151 1];
    [HD 2 1 152 0; HD 9 1 152 0; HD 23 1 152 0; HD 40 1 152 1;
      HD 2 1 155 0; HD 9 1 155 0; HD 23 1 155 0; HD 40 1 155 1;
      HD 2 1 157 0; HD 9 1 157 0; HD 23 1 157 0; HD 40 1 157 1;
      HD 2 1 158 0; HD 9 1 158 0; HD 23 1 158 0; HD 40 1 158 1];
    [HD 3 1 152 0; HD 6 1 152 0; HD 10 1 152 0; HD 15 1 152 0;
      HD 24 1 152 0; HD 31 1 152 0; HD 41 1 152 0; HD 56 1 152 1;
      HD 3 1 155 0; HD 6 1 155 0; HD 10 1 155 0; HD 15 1 155 0;
      HD 24 1 155 0; HD 31 1 155 0; HD 41 1 155 0; HD 56 1 155 1];
    [HD 3 1 157 0; HD 6 1 157 0; HD 10 1 157 0; HD 15 1 157 0;
      HD 24 1 157 0; HD 31 1 157 0; HD 41 1 157 0; HD 56 1 157 1;
      HD 3 1 158 0; HD 6 1 158 0; HD 10 1 158 0; HD 15 1 158 0;
      HD 24 1 158 0; HD 31 1 158 0; HD 41 1 158 0; HD 56 1 158 1];
    [HD 1 1 165 0; HD 22 1 165 1; HD 1 1 166 0; HD 22 1 166 1;
      HD 1 1 168 0; HD 22 1 168 1; HD 1 1 174 0; HD 22 1 174 1;
      HD 1 1 175 0; HD 22 1 175 1; HD 1 1 180 0; HD 22 1 180 1;
      HD 1 1 182 0; HD 22 1 182 1; HD 1 1 183 0; HD 22 1 183 1];
    [HD 2 1 165 0; HD 9 1 165 0; HD 23 1 165 0; HD 40 1 165 1;
      HD 2 1 166 0; HD 9 1 166 0; HD 23 1 166 0; HD 40 1 166 1;
      HD 2 1 168 0; HD 9 1 168 0; HD 23 1 168 0; HD 40 1 168 1;
      HD 2 1 174 0; HD 9 1 174 0; HD 23 1 174 0; HD 40 1 174 1];
    [HD 3 1 165 0; HD 6 1 165 0; HD 10 1 165 0; HD 15 1 165 0;
      HD 24 1 165 0; HD 31 1 165 0; HD 41 1 165 0; HD 56 1 165 1;
      HD 3 1 166 0; HD 6 1 166 0; HD 10 1 166 0; HD 15 1 166 0;
      HD 24 1 166 0; HD 31 1 166 0; HD 41 1 166 0; HD 56 1 166 1];
    [HD 3 1 168 0; HD 6 1 168 0; HD 10 1 168 0; HD 15 1 168 0;
      HD 24 1 168 0; HD 31 1 168 0; HD 41 1 168 0; HD 56 1 168 1;
      HD 3 1 174 0; HD 6 1 174 0; HD 10 1 174 0; HD 15 1 174 0;
      HD 24 1 174 0; HD 31 1 174 0; HD 41 1 174 0; HD 56 1 174 1];
    [HD 2 1 175 0; HD 9 1 175 0; HD 23 1 175 0; HD 40 1 175 1;
      HD 2 1 180 0; HD 9 1 180 0; HD 23 1 180 0; HD 40 1 180 1;
      HD 2 1 182 0; HD 9 1 182 0; HD 23 1 182 0; HD 40 1 182 1;
      HD 2 1 183 0; HD 9 1 183 0; HD 23 1 183 0; HD 40 1 183 1];
    [HD 3 1 175 0; HD 6 1 175 0; HD 10 1 175 0; HD 15 1 175 0;
      HD 24 1 175 0; HD 31 1 175 0; HD 41 1 175 0; HD 56 1 175 1;
      HD 3 1 180 0; HD 6 1 180 0; HD 10 1 180 0; HD 15 1 180 0;
      HD 24 1 180 0; HD 31 1 180 0; HD 41 1 180 0; HD 56 1 180 1] ].

Definition ngx_http_huff_decode_codes_168 : list (list huff_decode_code) :=
  [ [HD 3 1 182 0; HD 6 1 182 0; HD 10 1 182 0; HD 15 1 182 0;
      HD 24 1 182 0; HD 31 1 182 0; HD 41 1 182 0; HD 56 1 182 1;
      HD 3 1 183 0; HD 6 1 183 0; HD 10 1 183 0; HD 15 1 183 0;
      HD 24 1 183 0; HD 31 1 183 0; HD 41 1 183 0; HD 56 1 183 1];
    [HD 0 1 188 1; HD 0 1 191 1; HD 0 1 197 1; HD 0 1 231 1;
      HD 0 1 239 1; HD 176 0 0 0; HD 178 0 0 0; HD 179 0 0 0;
      HD 183 0 0 0; HD 184 0 0 0; HD 186 0 0 0; HD 187 0 0 0;
      HD 192 0 0 0; HD 199 0 0 0; HD 208 0 0 0; HD 223 0 0 1];
    [HD 1 1 188 0; HD 22 1 188 1; HD 1 1 191 0; HD 22 1 191 1;
      HD 1 1 197 0; HD 22 1 197 1; HD 1 1 231 0; HD 22 1 231 1;
      HD 1 1 239 0; HD 22 1 239 1; HD 0 1 9 1; HD 0 1 142 1;
      HD 0 1 144 1; HD 0 1 145 1; HD 0 1 148 1; HD 0 1 159 1];
    [HD 2 1 188 0; HD 9 1 188 0; HD 23 1 188 0; HD 40 1 188 1;
      HD 2 1 191 0; HD 9 1 191 0; HD 23 1 191 0; HD 40 1 191 1;
      HD 2 1 197 0; HD 9 1 197 0; HD 23 1 197 0; HD 40 1 197 1;
      HD 2 1 231 0; HD 9 1 231 0; HD 23 1 231 0; HD 40 1 231 1];
    [HD 3 1 188 0; HD 6 1 188 0; HD 10 1 188 0; HD 15 1 188 0;
      HD 24 1 188 0; HD 31 1 188 0; HD 41 1 188 0; HD 56 1 188 1;
      HD 3 1 191 0; HD 6 1 191 0; HD 10 1 191 0; HD 15 1 191 0;
      HD 24 1 191 0; HD 31 1 191 0; HD 41 1 191 0; HD 56 1 191 1];
    [HD 3 1 197 0; HD 6 1 197 0; HD 10 1 197 0; HD 15 1 197 0;
      HD 24 1 197 0; HD 31 1 197 0; HD 41 1 197 0; HD 56 1 197 1;
      HD 3 1 231 0; HD 6 1 231 0; HD 10 1 231 0; HD 15 1 231 0;
      HD 24 1 231 0; HD 31 1 231 0; HD 41 1 231 0; HD 56 1 231 1];
    [HD 2 1 239 0; HD 9 1 239 0; HD 23 1 239 0; HD 40 1 239 1;
      HD 1 1 9 0; HD 22 1 9 1; HD 1 1 142 0; HD 22 1 142 1;
      HD 1 1 144 0; HD 22 1 144 1; HD 1 1 145 0; HD 22 1 145 1;
      HD 1 1 148 0; HD 22 1 148 1; HD 1 1 159 0; HD 22 1 159 1];
    [HD 3 1 239 0; HD 6 1 239 0; HD 10 1 239 0; HD 15 1 239 0;
      HD 24 1 239 0; HD 31 1 239 0; HD 41 1 239 0; HD 56 1 239 1;
      HD 2 1 9 0; HD 9 1 9 0; HD 23 1 9 0; HD 40 1 9 1;
      HD 2 1 142 0; HD 9 1 142 0; HD 23 1 142 0; HD 40 1 142 1];
    [HD 3 1 9 0; HD 6 1 9 0; HD 10 1 9 0; HD 15 1 9 0;
      HD 24 1 9 0; HD 31 1 9 0; HD 41 1 9 0; HD 56 1 9 1;
      HD 3 1 142 0; HD 6 1 142 0; HD 10 1 142 0; HD 15 1 142 0;
      HD 24 1 142 0; HD 31 1 142 0; HD 41 1 142 0; HD 56 1 142 1];
    [HD 2 1 144 0; HD 9 1 144 0; HD 23 1 144 0; HD 40 1 144 1;
      HD 2 1 145 0; HD 9 1 145 0; HD 23 1 145 0; HD 40 1 145 1;
      HD 2 1 148 0; HD 9 1 148 0; HD 23 1 148 0; HD 40 1 148 1;
      HD 2 1 159 0; HD 9 1 159 0; HD 23 1 159 0; HD 40 1 159 1];
    [HD 3 1 144 0; HD 6 1 144 0; HD 10 1 144 0; HD 15 1 144 0;
      HD 24 1 144 0; HD 31 1 144 0; HD 41 1 144 0; HD 56 1 144 1;
      HD 3 1 145 0; HD 6 1 145 0; HD 10 1 145 0; HD 15 1 145 0;
      HD 24 1 145 0; HD 31 1 145 0; HD 41 1 145 0; HD 56 1 145 1];
    [HD 3 1 148 0; HD 6 1 148 0; HD 10 1 148 0; HD 15 1 148 0;
      HD 24 1 148 0; HD 31 1 148 0; HD 41 1 148 0; HD 56 1 148 1;
      HD 3 1 159 0; HD 6 1 159 0; HD 10 1 159 0; HD 15 1 159 0;
      HD 24 1 159 0; HD 31 1 159 0; HD 41 1 159 0; HD 56 1 159 1];
    [HD 0 1 171 1; HD 0 1 206 1; HD 0 1 215 1; HD 0 1 225 1;
      HD 0 1 236 1; HD 0 1 237 1; HD 188 0 0 0; HD 189 0 0 0;
      HD 193 0 0 0; HD 196 0 0 0; HD 200 0 0 0; HD 203 0 0 0;
      HD 209 0 0 0; HD 216 0 0 0; HD 224 0 0 0; HD 238 0 0 1];
    [HD 1 1 171 0; HD 22 1 171 1; HD 1 1 206 0; HD 22 1 206 1;
      HD 1 1 215 0; HD 22 1 215 1; HD 1 1 225 0; HD 22 1 225 1;
      HD 1 1 236 0; HD 22 1 236 1; HD 1 1 237 0; HD 22 1 237 1;
      HD 0 1 199 1; HD 0 1 207 1; HD 0 1 234 1; HD 0 1 235 1] ].

Definition ngx_http_huff_decode_codes_182 : list (list huff_decode_code) :=
  [ [HD 2 1 171 0; HD 9 1 171 0; HD 23 1 171 0; HD 40 1 171 1;
      HD 2 1 206 0; HD 9 1 206 0; HD 23 1 206 0; HD 40 1 206 1;
      HD 2 1 215 0; HD 9 1 215 0; HD 23 1 215 0; HD 40 1 215 1;
      HD 2 1 225 0; HD 9 1 225 0; HD 23 1 225 0; HD 40 1 225 1];
    [HD 3 1 171 0; HD 6 1 171 0; HD 10 1 171 0; HD 15 1 171 0;
      HD 24 1 171 0; HD 31 1 171 0; HD 41 1 171 0; HD 56 1 171 1;
      HD 3 1 206 0; HD 6 1 206 0; HD 10 1 206 0; HD 15 1 206 0;
      HD 24 1 206 0; HD 31 1 206 0; HD 41 1 206 0; HD 56 1 206 1];
    [HD 3 1 215 0; HD 6 1 215 0; HD 10 1 215 0; HD 15 1 215 0;
      HD 24 1 215 0; HD 31 1 215 0; HD 41 1 215 0; HD 56 1 215 1;
      HD 3 1 225 0; HD 6 1 225 0; HD 10 1 225 0; HD 15 1 225 0;
      HD 24 1 225 0; HD 31 1 225 0; HD 41 1 225 0; HD 56 1 225 1];
    [HD 2 1 236 0; HD 9 1 236 0; HD 23 1 236 0; HD 40 1 236 1;
      HD 2 1 237 0; HD 9 1 237 0; HD 23 1 237 0; HD 40 1 237 1;
      HD 1 1 199 0; HD 22 1 199 1; HD 1 1 207 0; HD 22 1 207 1;
      HD 1 1 234 0; HD 22 1 234 1; HD 1 1 235 0; HD 22 1 235 1];
    [HD 3 1 236 0; HD 6 1 236 0; HD 10 1 236 0; HD 15 1 236 0;
      HD 24 1 236 0; HD 31 1 236 0; HD 41 1 236 0; HD 56 1 236 1;
      HD 3 1 237 0; HD 6 1 237 0; HD 10 1 237 0; HD 15 1 237 0;
      HD 24 1 237 0; HD 31 1 237 0; HD 41 1 237 0; HD 56 1 237 1];
    [HD 2 1 199 0; HD 9 1 199 0; HD 23 1 199 0; HD 40 1 199 1;
      HD 2 1 207 0; HD 9 1 207 0; HD 23 1 207 0; HD 40 1 207 1;
      HD 2 1 234 0; HD 9 1 234 0; HD 23 1 234 0; HD 40 1 234 1;
      HD 2 1 235 0; HD 9 1 235 0; HD 23 1 235 0; HD 40 1 235 1];
    [HD 3 1 199 0; HD 6 1 199 0; HD 10 1 199 0; HD 15 1 199 0;
      HD 24 1 199 0; HD 31 1 199 0; HD 41 1 199 0; HD 56 1 199 1;
      HD 3 1 207 0; HD 6 1 207 0; HD 10 1 207 0; HD 15 1 207 0;
      HD 24 1 207 0; HD 31 1 207 0; HD 41 1 207 0; HD 56 1 207 1];
    [HD 3 1 234 0; HD 6 1 234 0; HD 10 1 234 0; HD 15 1 234 0;
      HD 24 1 234 0; HD 31 1 234 0; HD 41 1 234 0; HD 56 1 234 1;
      HD 3 1 235 0; HD 6 1 235 0; HD 10 1 235 0; HD 15 1 235 0;
      HD 24 1 235 0; HD 31 1 235 0; HD 41 1 235 0; HD 56 1 235 1];
    [HD 194 0 0 0; HD 195 0 0 0; HD 197 0 0 0; HD 198 0 0 0;
      HD 201 0 0 0; HD 202 0 0 0; HD 204 0 0 0; HD 205 0 0 0;
      HD 210 0 0 0; HD 213 0 0 0; HD 217 0 0 0; HD 220 0 0 0;
      HD 225 0 0 0; HD 231 0 0 0; HD 239 0 0 0; HD 246 0 0 1];
    [HD 0 1 192 1; HD 0 1 193 1; HD 0 1 200 1; HD 0 1 201 1;
      HD 0 1 202 1; HD 0 1 205 1; HD 0 1 210 1; HD 0 1 213 1;
      HD 0 1 218 1; HD 0 1 219 1; HD 0 1 238 1; HD 0 1 240 1;
      HD 0 1 242 1; HD 0 1 243 1; HD 0 1 255 1; HD 206 0 0 0];
    [HD 1 1 192 0; HD 22 1 192 1; HD 1 1 193 0; HD 22 1 193 1;
      HD 1 1 200 0; HD 22 1 200 1; HD 1 1 201 0; HD 22 1 201 1;
      HD 1 1 202 0; HD 22 1 202 1; HD 1 1 205 0; HD 22 1 205 1;
      HD 1 1 210 0; HD 22 1 210 1; HD 1 1 213 0; HD 22 1 213 1];
    [HD 2 1 192 0; HD 9 1 192 0; HD 23 1 192 0; HD 40 1 192 1;
      HD 2 1 193 0; HD 9 1 193 0; HD 23 1 193 0; HD 40 1 193 1;
      HD 2 1 200 0; HD 9 1 200 0; HD 23 1 200 0; HD 40 1 200 1;
      HD 2 1 201 0; HD 9 1 201 0; HD 23 1 201 0; HD 40 1 201 1];
    [HD 3 1 192 0; HD 6 1 192 0; HD 10 1 192 0; HD 15 1 192 0;
      HD 24 1 192 0; HD 31 1 192 0; HD 41 1 192 0; HD 56 1 192 1;
      HD 3 1 193 0; HD 6 1 193 0; HD 10 1 193 0; HD 15 1 193 0;
      HD 24 1 193 0; HD 31 1 193 0; HD 41 1 193 0; HD 56 1 193 1];
    [HD 3 1 200 0; HD 6 1 200 0; HD 10 1 200 0; HD 15 1 200 0;
      HD 24 1 200 0; HD 31 1 200 0; HD 41 1 200 0; HD 56 1 200 1;
      HD 3 1 201 0; HD 6 1 201 0; HD 10 1 201 0; HD 15 1 201 0;
      HD 24 1 201 0; HD 31 1 201 0; HD 41 1 201 0; HD 56 1 201 1] ].

Definition ngx_http_huff_decode_codes_196 : list (list huff_decode_code) :=
  [ [HD 2 1 202 0; HD 9 1 202 0; HD 23 1 202 0; HD 40 1 202 1;
      HD 2 1 205 0; HD 9 1 205 0; HD 23 1 205 0; HD 40 1 205 1;
      HD 2 1 210 0; HD 9 1 210 0; HD 23 1 210 0; HD 40 1 210 1;
      HD 2 1 213 0; HD 9 1 213 0; HD 23 1 213 0; HD 40 1 213 1];
    [HD 3 1 202 0; HD 6 1 202 0; HD 10 1 202 0; HD 15 1 202 0;
      HD 24 1 202 0; HD 31 1 202 0; HD 41 1 202 0; HD 56 1 202 1;
      HD 3 1 205 0; HD 6 1 205 0; HD 10 1 205 0; HD 15 1 205 0;
      HD 24 1 205 0; HD 31 1 205 0; HD 41 1 205 0; HD 56 1 205 1];
    [HD 3 1 210 0; HD 6 1 210 0; HD 10 1 210 0; HD 15 1 210 0;
      HD 24 1 210 0; HD 31 1 210 0; HD 41 1 210 0; HD 56 1 210 1;
      HD 3 1 213 0; HD 6 1 213 0; HD 10 1 213 0; HD 15 1 213 0;
      HD 24 1 213 0; HD 31 1 213 0; HD 41 1 213 0; HD 56 1 213 1];
    [HD 1 1 218 0; HD 22 1 218 1; HD 1 1 219 0; HD 22 1 219 1;
      HD 1 1 238 0; HD 22 1 238 1; HD 1 1 240 0; HD 22 1 240 1;
      HD 1 1 242 0; HD 22 1 242 1; HD 1 1 243 0; HD 22 1 243 1;
      HD 1 1 255 0; HD 22 1 255 1; HD 0 1 203 1; HD 0 1 204 1];
    [HD 2 1 218 0; HD 9 1 218 0; HD 23 1 218 0; HD 40 1 218 1;
      HD 2 1 219 0; HD 9 1 219 0; HD 23 1 219 0; HD 40 1 219 1;
      HD 2 1 238 0; HD 9 1 238 0; HD 23 1 238 0; HD 40 1 238 1;
      HD 2 1 240 0; HD 9 1 240 0; HD 23 1 240 0; HD 40 1 240 1];
    [HD 3 1 218 0; HD 6 1 218 0; HD 10 1 218 0; HD 15 1 218 0;
      HD 24 1 218 0; HD 31 1 218 0; HD 41 1 218 0; HD 56 1 218 1;
      HD 3 1 219 0; HD 6 1 219 0; HD 10 1 219 0; HD 15 1 219 0;
      HD 24 1 219 0; HD 31 1 219 0; HD 41 1 219 0; HD 56 1 219 1];
    [HD 3 1 238 0; HD 6 1 238 0; HD 10 1 238 0; HD 15 1 238 0;
      HD 24 1 238 0; HD 31 1 238 0; HD 41 1 238 0; HD 56 1 238 1;
      HD 3 1 240 0; HD 6 1 240 0; HD 10 1 240 0; HD 15 1 240 0;
      HD 24 1 240 0; HD 31 1 240 0; HD 41 1 240 0; HD 56 1 240 1];
    [HD 2 1 242 0; HD 9 1 242 0; HD 23 1 242 0; HD 40 1 242 1;
      HD 2 1 243 0; HD 9 1 243 0; HD 23 1 243 0; HD 40 1 243 1;
      HD 2 1 255 0; HD 9 1 255 0; HD 23 1 255 0; HD 40 1 255 1;
      HD 1 1 203 0; HD 22 1 203 1; HD 1 1 204 0; HD 22 1 204 1];
    [HD 3 1 242 0; HD 6 1 242 0; HD 10 1 242 0; HD 15 1 242 0;
      HD 24 1 242 0; HD 31 1 242 0; HD 41 1 242 0; HD 56 1 242 1;
      HD 3 1 243 0; HD 6 1 243 0; HD 10 1 243 0; HD 15 1 243 0;
      HD 24 1 243 0; HD 31 1 243 0; HD 41 1 243 0; HD 56 1 243 1];
    [HD 3 1 255 0; HD 6 1 255 0; HD 10 1 255 0; HD 15 1 255 0;
      HD 24 1 255 0; HD 31 1 255 0; HD 41 1 255 0; HD 56 1 255 1;
      HD 2 1 203 0; HD 9 1 203 0; HD 23 1 203 0; HD 40 1 203 1;
      HD 2 1 204 0; HD 9 1 204 0; HD 23 1 204 0; HD 40 1 204 1];
    [HD 3 1 203 0; HD 6 1 203 0; HD 10 1 203 0; HD 15 1 203 0;
      HD 24 1 203 0; HD 31 1 203 0; HD 41 1 203 0; HD 56 1 203 1;
      HD 3 1 204 0; HD 6 1 204 0; HD 10 1 204 0; HD 15 1 204 0;
      HD 24 1 204 0; HD 31 1 204 0; HD 41 1 204 0; HD 56 1 204 1];
    [HD 211 0 0 0; HD 212 0 0 0; HD 214 0 0 0; HD 215 0 0 0;
      HD 218 0 0 0; HD 219 0 0 0; HD 221 0 0 0; HD 222 0 0 0;
      HD 226 0 0 0; HD 228 0 0 0; HD 232 0 0 0; HD 235 0 0 0;
      HD 240 0 0 0; HD 243 0 0 0; HD 247 0 0 0; HD 250 0 0 1];
    [HD 0 1 211 1; HD 0 1 212 1; HD 0 1 214 1; HD 0 1 221 1;
      HD 0 1 222 1; HD 0 1 223 1; HD 0 1 241 1; HD 0 1 244 1;
      HD 0 1 245 1; HD 0 1 246 1; HD 0 1 247 1; HD 0 1 248 1;
      HD 0 1 250 1; HD 0 1 251 1; HD 0 1 252 1; HD 0 1 253 1];
    [HD 1 1 211 0; HD 22 1 211 1; HD 1 1 212 0; HD 22 1 212 1;
      HD 1 1 214 0; HD 22 1 214 1; HD 1 1 221 0; HD 22 1 221 1;
      HD 1 1 222 0; HD 22 1 222 1; HD 1 1 223 0; HD 22 1 223 1;
      HD 1 1 241 0; HD 22 1 241 1; HD 1 1 244 0; HD 22 1 244 1] ].

Definition ngx_http_huff_decode_codes_210 : list (list huff_decode_code) :=
  [ [HD 2 1 211 0; HD 9 1 211 0; HD 23 1 211 0; HD 40 1 211 1;
      HD 2 1 212 0; HD 9 1 212 0; HD 23 1 212 0; HD 40 1 212 1;
      HD 2 1 214 0; HD 9 1 214 0; HD 23 1 214 0; HD 40 1 214 1;
      HD 2 1 221 0; HD 9 1 221 0; HD 23 1 221 0; HD 40 1 221 1];
    [HD 3 1 211 0; HD 6 1 211 0; HD 10 1 211 0; HD 15 1 211 0;
      HD 24 1 211 0; HD 31 1 211 0; HD 41 1 211 0; HD 56 1 211 1;
      HD 3 1 212 0; HD 6 1 212 0; HD 10 1 212 0; HD 15 1 212 0;
      HD 24 1 212 0; HD 31 1 212 0; HD 41 1 212 0; HD 56 1 212 1];
    [HD 3 1 214 0; HD 6 1 214 0; HD 10 1 214 0; HD 15 1 214 0;
      HD 24 1 214 0; HD 31 1 214 0; HD 41 1 214 0; HD 56 1 214 1;
      HD 3 1 221 0; HD 6 1 221 0; HD 10 1 221 0; HD 15 1 221 0;
      HD 24 1 221 0; HD 31 1 221 0; HD 41 1 221 0; HD 56 1 221 1];
    [HD 2 1 222 0; HD 9 1 222 0; HD 23 1 222 0; HD 40 1 222 1;
      HD 2 1 223 0; HD 9 1 223 0; HD 23 1 223 0; HD 40 1 223 1;
      HD 2 1 241 0; HD 9 1 241 0; HD 23 1 241 0; HD 40 1 241 1;
      HD 2 1 244 0; HD 9 1 244 0; HD 23 1 244 0; HD 40 1 244 1];
    [HD 3 1 222 0; HD 6 1 222 0; HD 10 1 222 0; HD 15 1 222 0;
      HD 24 1 222 0; HD 31 1 222 0; HD 41 1 222 0; HD 56 1 222 1;
      HD 3 1 223 0; HD 6 1 223 0; HD 10 1 223 0; HD 15 1 223 0;
      HD 24 1 223 0; HD 31 1 223 0; HD 41 1 223 0; HD 56 1 223 1];
    [HD 3 1 241 0; HD 6 1 241 0; HD 10 1 241 0; HD 15 1 241 0;
      HD 24 1 241 0; HD 31 1 241 0; HD 41 1 241 0; HD 56 1 241 1;
      HD 3 1 244 0; HD 6 1 244 0; HD 10 1 244 0; HD 15 1 244 0;
      HD 24 1 244 0; HD 31 1 244 0; HD 41 1 244 0; HD 56 1 244 1];
    [HD 1 1 245 0; HD 22 1 245 1; HD 1 1 246 0; HD 22 1 246 1;
      HD 1 1 247 0; HD 22 1 247 1; HD 1 1 248 0; HD 22 1 248 1;
      HD 1 1 250 0; HD 22 1 250 1; HD 1 1 251 0; HD 22 1 251 1;
      HD 1 1 252 0; HD 22 1 252 1; HD 1 1 253 0; HD 22 1 253 1];
    [HD 2 1 245 0; HD 9 1 245 0; HD 23 1 245 0; HD 40 1 245 1;
      HD 2 1 246 0; HD 9 1 246 0; HD 23 1 246 0; HD 40 1 246 1;
      HD 2 1 247 0; HD 9 1 247 0; HD 23 1 247 0; HD 40 1 247 1;
      HD 2 1 248 0; HD 9 1 248 0; HD 23 1 248 0; HD 40 1 248 1];
    [HD 3 1 245 0; HD 6 1 245 0; HD 10 1 245 0; HD 15 1 245 0;
      HD 24 1 245 0; HD 31 1 245 0; HD 41 1 245 0; HD 56 1 245 1;
      HD 3 1 246 0; HD 6 1 246 0; HD 10 1 246 0; HD 15 1 246 0;
      HD 24 1 246 0; HD 31 1 246 0; HD 41 1 246 0; HD 56 1 246 1];
    [HD 3 1 247 0; HD 6 1 247 0; HD 10 1 247 0; HD 15 1 247 0;
      HD 24 1 247 0; HD 31 1 247 0; HD 41 1 247 0; HD 56 1 247 1;
      HD 3 1 248 0; HD 6 1 248 0; HD 10 1 248 0; HD 15 1 248 0;
      HD 24 1 248 0; HD 31 1 248 0; HD 41 1 248 0; HD 56 1 248 1];
    [HD 2 1 250 0; HD 9 1 250 0; HD 23 1 250 0; HD 40 1 250 1;
      HD 2 1 251 0; HD 9 1 251 0; HD 23 1 251 0; HD 40 1 251 1;
      HD 2 1 252 0; HD 9 1 252 0; HD 23 1 252 0; HD 40 1 252 1;
      HD 2 1 253 0; HD 9 1 253 0; HD 23 1 253 0; HD 40 1 253 1];
    [HD 3 1 250 0; HD 6 1 250 0; HD 10 1 250 0; HD 15 1 250 0;
      HD 24 1 250 0; HD 31 1 250 0; HD 41 1 250 0; HD 56 1 250 1;
      HD 3 1 251 0; HD 6 1 251 0; HD 10 1 251 0; HD 15 1 251 0;
      HD 24 1 251 0; HD 31 1 251 0; HD 41 1 251 0; HD 56 1 251 1];
    [HD 3 1 252 0; HD 6 1 252 0; HD 10 1 252 0; HD 15 1 252 0;
      HD 24 1 252 0; HD 31 1 252 0; HD 41 1 252 0; HD 56 1 252 1;
      HD 3 1 253 0; HD 6 1 253 0; HD 10 1 253 0; HD 15 1 253 0;
      HD 24 1 253 0; HD 31 1 253 0; HD 41 1 253 0; HD 56 1 253 1];
    [HD 0 1 254 1; HD 227 0 0 0; HD 229 0 0 0; HD 230 0 0 0;
      HD 233 0 0 0; HD 234 0 0 0; HD 236 0 0 0; HD 237 0 0 0;
      HD 241 0 0 0; HD 242 0 0 0; HD 244 0 0 0; HD 245 0 0 0;
      HD 248 0 0 0; HD 249 0 0 0; HD 251 0 0 0; HD 252 0 0 1] ].

Definition ngx_http_huff_decode_codes_224 : list (list huff_decode_code) :=
  [ [HD 1 1 254 0; HD 22 1 254 1; HD 0 1 2 1; HD 0 1 3 1;
      HD 0 1 4 1; HD 0 1 5 1; HD 0 1 6 1; HD 0 1 7 1;
      HD 0 1 8 1; HD 0 1 11 1; HD 0 1 12 1; HD 0 1 14 1;
      HD 0 1 15 1; HD 0 1 16 1; HD 0 1 17 1; HD 0 1 18 1];
    [HD 2 1 254 0; HD 9 1 254 0; HD 23 1 254 0; HD 40 1 254 1;
      HD 1 1 2 0; HD 22 1 2 1; HD 1 1 3 0; HD 22 1 3 1;
      HD 1 1 4 0; HD 22 1 4 1; HD 1 1 5 0; HD 22 1 5 1;
      HD 1 1 6 0; HD 22 1 6 1; HD 1 1 7 0; HD 22 1 7 1];
    [HD 3 1 254 0; HD 6 1 254 0; HD 10 1 254 0; HD 15 1 254 0;
      HD 24 1 254 0; HD 31 1 254 0; HD 41 1 254 0; HD 56 1 254 1;
      HD 2 1 2 0; HD 9 1 2 0; HD 23 1 2 0; HD 40 1 2 1;
      HD 2 1 3 0; HD 9 1 3 0; HD 23 1 3 0; HD 40 1 3 1];
    [HD 3 1 2 0; HD 6 1 2 0; HD 10 1 2 0; HD 15 1 2 0;
      HD 24 1 2 0; HD 31 1 2 0; HD 41 1 2 0; HD 56 1 2 1;
      HD 3 1 3 0; HD 6 1 3 0; HD 10 1 3 0; HD 15 1 3 0;
      HD 24 1 3 0; HD 31 1 3 0; HD 41 1 3 0; HD 56 1 3 1];
    [HD 2 1 4 0; HD 9 1 4 0; HD 23 1 4 0; HD 40 1 4 1;
      HD 2 1 5 0; HD 9 1 5 0; HD 23 1 5 0; HD 40 1 5 1;
      HD 2 1 6 0; HD 9 1 6 0; HD 23 1 6 0; HD 40 1 6 1;
      HD 2 1 7 0; HD 9 1 7 0; HD 23 1 7 0; HD 40 1 7 1];
    [HD 3 1 4 0; HD 6 1 4 0; HD 10 1 4 0; HD 15 1 4 0;
      HD 24 1 4 0; HD 31 1 4 0; HD 41 1 4 0; HD 56 1 4 1;
      HD 3 1 5 0; HD 6 1 5 0; HD 10 1 5 0; HD 15 1 5 0;
      HD 24 1 5 0; HD 31 1 5 0; HD 41 1 5 0; HD 56 1 5 1];
    [HD 3 1 6 0; HD 6 1 6 0; HD 10 1 6 0; HD 15 1 6 0;
      HD 24 1 6 0; HD 31 1 6 0; HD 41 1 6 0; HD 56 1 6 1;
      HD 3 1 7 0; HD 6 1 7 0; HD 10 1 7 0; HD 15 1 7 0;
      HD 24 1 7 0; HD 31 1 7 0; HD 41 1 7 0; HD 56 1 7 1];
    [HD 1 1 8 0; HD 22 1 8 1; HD 1 1 11 0; HD 22 1 11 1;
      HD 1 1 12 0; HD 22 1 12 1; HD 1 1 14 0; HD 22 1 14 1;
      HD 1 1 15 0; HD 22 1 15 1; HD 1 1 16 0; HD 22 1 16 1;
      HD 1 1 17 0; HD 22 1 17 1; HD 1 1 18 0; HD 22 1 18 1];
    [HD 2 1 8 0; HD 9 1 8 0; HD 23 1 8 0; HD 40 1 8 1;
      HD 2 1 11 0; HD 9 1 11 0; HD 23 1 11 0; HD 40 1 11 1;
      HD 2 1 12 0; HD 9 1 12 0; HD 23 1 12 0; HD 40 1 12 1;
      HD 2 1 14 0; HD 9 1 14 0; HD 23 1 14 0; HD 40 1 14 1];
    [HD 3 1 8 0; HD 6 1 8 0; HD 10 1 8 0; HD 15 1 8 0;
      HD 24 1 8 0; HD 31 1 8 0; HD 41 1 8 0; HD 56 1 8 1;
      HD 3 1 11 0; HD 6 1 11 0; HD 10 1 11 0; HD 15 1 11 0;
      HD 24 1 11 0; HD 31 1 11 0; HD 41 1 11 0; HD 56 1 11 1];
    [HD 3 1 12 0; HD 6 1 12 0; HD 10 1 12 0; HD 15 1 12 0;
      HD 24 1 12 0; HD 31 1 12 0; HD 41 1 12 0; HD 56 1 12 1;
      HD 3 1 14 0; HD 6 1 14 0; HD 10 1 14 0; HD 15 1 14 0;
      HD 24 1 14 0; HD 31 1 14 0; HD 41 1 14 0; HD 56 1 14 1];
    [HD 2 1 15 0; HD 9 1 15 0; HD 23 1 15 0; HD 40 1 15 1;
      HD 2 1 16 0; HD 9 1 16 0; HD 23 1 16 0; HD 40 1 16 1;
      HD 2 1 17 0; HD 9 1 17 0; HD 23 1 17 0; HD 40 1 17 1;
      HD 2 1 18 0; HD 9 1 18 0; HD 23 1 18 0; HD 40 1 18 1];
    [HD 3 1 15 0; HD 6 1 15 0; HD 10 1 15 0; HD 15 1 15 0;
      HD 24 1 15 0; HD 31 1 15 0; HD 41 1 15 0; HD 56 1 15 1;
      HD 3 1 16 0; HD 6 1 16 0; HD 10 1 16 0; HD 15 1 16 0;
      HD 24 1 16 0; HD 31 1 16 0; HD 41 1 16 0; HD 56 1 16 1];
    [HD 3 1 17 0; HD 6 1 17 0; HD 10 1 17 0; HD 15 1 17 0;
      HD 24 1 17 0; HD 31 1 17 0; HD 41 1 17 0; HD 56 1 17 1;
      HD 3 1 18 0; HD 6 1 18 0; HD 10 1 18 0; HD 15 1 18 0;
      HD 24 1 18 0; HD 31 1 18 0; HD 41 1 18 0; HD 56 1 18 1] ].

Definition ngx_http_huff_decode_codes_238 : list (list huff_decode_code) :=
  [ [HD 0 1 19 1; HD 0 1 20 1; HD 0 1 21 1; HD 0 1 23 1;
      HD 0 1 24 1; HD 0 1 25 1; HD 0 1 26 1; HD 0 1 27 1;
      HD 0 1 28 1; HD 0 1 29 1; HD 0 1 30 1; HD 0 1 31 1;
      HD 0 1 127 1; HD 0 1 220 1; HD 0 1 249 1; HD 253 0 0 1];
    [HD 1 1 19 0; HD 22 1 19 1; HD 1 1 20 0; HD 22 1 20 1;
      HD 1 1 21 0; HD 22 1 21 1; HD 1 1 23 0; HD 22 1 23 1;
      HD 1 1 24 0; HD 22 1 24 1; HD 1 1 25 0; HD 22 1 25 1;
      HD 1 1 26 0; HD 22 1 26 1; HD 1 1 27 0; HD 22 1 27 1];
    [HD 2 1 19 0; HD 9 1 19 0; HD 23 1 19 0; HD 40 1 19 1;
      HD 2 1 20 0; HD 9 1 20 0; HD 23 1 20 0; HD 40 1 20 1;
      HD 2 1 21 0; HD 9 1 21 0; HD 23 1 21 0; HD 40 1 21 1;
      HD 2 1 23 0; HD 9 1 23 0; HD 23 1 23 0; HD 40 1 23 1];
    [HD 3 1 19 0; HD 6 1 19 0; HD 10 1 19 0; HD 15 1 19 0;
      HD 24 1 19 0; HD 31 1 19 0; HD 41 1 19 0; HD 56 1 19 1;
      HD 3 1 20 0; HD 6 1 20 0; HD 10 1 20 0; HD 15 1 20 0;
      HD 24 1 20 0; HD 31 1 20 0; HD 41 1 20 0; HD 56 1 20 1];
    [HD 3 1 21 0; HD 6 1 21 0; HD 10 1 21 0; HD 15 1 21 0;
      HD 24 1 21 0; HD 31 1 21 0; HD 41 1 21 0; HD 56 1 21 1;
      HD 3 1 23 0; HD 6 1 23 0; HD 10 1 23 0; HD 15 1 23 0;
      HD 24 1 23 0; HD 31 1 23 0; HD 41 1 23 0; HD 56 1 23 1];
    [HD 2 1 24 0; HD 9 1 24 0; HD 23 1 24 0; HD 40 1 24 1;
      HD 2 1 25 0; HD 9 1 25 0; HD 23 1 25 0; HD 40 1 25 1;
      HD 2 1 26 0; HD 9 1 26 0; HD 23 1 26 0; HD 40 1 26 1;
      HD 2 1 27 0; HD 9 1 27 0; HD 23 1 27 0; HD 40 1 27 1];
    [HD 3 1 24 0; HD 6 1 24 0; HD 10 1 24 0; HD 15 1 24 0;
      HD 24 1 24 0; HD 31 1 24 0; HD 41 1 24 0; HD 56 1 24 1;
      HD 3 1 25 0; HD 6 1 25 0; HD 10 1 25 0; HD 15 1 25 0;
      HD 24 1 25 0; HD 31 1 25 0; HD 41 1 25 0; HD 56 1 25 1];
    [HD 3 1 26 0; HD 6 1 26 0; HD 10 1 26 0; HD 15 1 26 0;
      HD 24 1 26 0; HD 31 1 26 0; HD 41 1 26 0; HD 56 1 26 1;
      HD 3 1 27 0; HD 6 1 27 0; HD 10 1 27 0; HD 15 1 27 0;
      HD 24 1 27 0; HD 31 1 27 0; HD 41 1 27 0; HD 56 1 27 1];
    [HD 1 1 28 0; HD 22 1 28 1; HD 1 1 29 0; HD 22 1 29 1;
      HD 1 1 30 0; HD 22 1 30 1; HD 1 1 31 0; HD 22 1 31 1;
      HD 1 1 127 0; HD 22 1 127 1; HD 1 1 220 0; HD 22 1 220 1;
      HD 1 1 249 0; HD 22 1 249 1; HD 254 0 0 0; HD 255 0 0 1];
    [HD 2 1 28 0; HD 9 1 28 0; HD 23 1 28 0; HD 40 1 28 1;
      HD 2 1 29 0; HD 9 1 29 0; HD 23 1 29 0; HD 40 1 29 1;
      HD 2 1 30 0; HD 9 1 30 0; HD 23 1 30 0; HD 40 1 30 1;
      HD 2 1 31 0; HD 9 1 31 0; HD 23 1 31 0; HD 40 1 31 1];
    [HD 3 1 28 0; HD 6 1 28 0; HD 10 1 28 0; HD 15 1 28 0;
      HD 24 1 28 0; HD 31 1 28 0; HD 41 1 28 0; HD 56 1 28 1;
      HD 3 1 29 0; HD 6 1 29 0; HD 10 1 29 0; HD 15 1 29 0;
      HD 24 1 29 0; HD 31 1 29 0; HD 41 1 29 0; HD 56 1 29 1];
    [HD 3 1 30 0; HD 6 1 30 0; HD 10 1 30 0; HD 15 1 30 0;
      HD 24 1 30 0; HD 31 1 30 0; HD 41 1 30 0; HD 56 1 30 1;
      HD 3 1 31 0; HD 6 1 31 0; HD 10 1 31 0; HD 15 1 31 0;
      HD 24 1 31 0; HD 31 1 31 0; HD 41 1 31 0; HD 56 1 31 1];
    [HD 2 1 127 0; HD 9 1 127 0; HD 23 1 127 0; HD 40 1 127 1;
      HD 2 1 220 0; HD 9 1 220 0; HD 23 1 220 0; HD 40 1 220 1;
      HD 2 1 249 0; HD 9 1 249 0; HD 23 1 249 0; HD 40 1 249 1;
      HD 0 1 10 1; HD 0 1 13 1; HD 0 1 22 1; HD 250 0 0 0];
    [HD 3 1 127 0; HD 6 1 127 0; HD 10 1 127 0; HD 15 1 127 0;
      HD 24 1 127 0; HD 31 1 127 0; HD 41 1 127 0; HD 56 1 127 1;
      HD 3 1 220 0; HD 6 1 220 0; HD 10 1 220 0; HD 15 1 220 0;
      HD 24 1 220 0; HD 31 1 220 0; HD 41 1 220 0; HD 56 1 220 1] ].

Definition ngx_http_huff_decode_codes_252 : list (list huff_decode_code) :=
  [ [HD 3 1 249 0; HD 6 1 249 0; HD 10 1 249 0; HD 15 1 249 0;
      HD 24 1 249 0; HD 31 1 249 0; HD 41 1 249 0; HD 56 1 249 1;
      HD 1 1 10 0; HD 22 1 10 1; HD 1 1 13 0; HD 22 1 13 1;
      HD 1 1 22 0; HD 22 1 22 1; HD 252 0 0 0; HD 252 0 0 0];
    [HD 2 1 10 0; HD 9 1 10 0; HD 23 1 10 0; HD 40 1 10 1;
      HD 2 1 13 0; HD 9 1 13 0; HD 23 1 13 0; HD 40 1 13 1;
      HD 2 1 22 0; HD 9 1 22 0; HD 23 1 22 0; HD 40 1 22 1;
      HD 253 0 0 0; HD 253 0 0 0; HD 253 0 0 0; HD 253 0 0 0];
    [HD 3 1 10 0; HD 6 1 10 0; HD 10 1 10 0; HD 15 1 10 0;
      HD 24 1 10 0; HD 31 1 10 0; HD 41 1 10 0; HD 56 1 10 1;
      HD 3 1 13 0; HD 6 1 13 0; HD 10 1 13 0; HD 15 1 13 0;
      HD 24 1 13 0; HD 31 1 13 0; HD 41 1 13 0; HD 56 1 13 1];
    [HD 3 1 22 0; HD 6 1 22 0; HD 10 1 22 0; HD 15 1 22 0;
      HD 24 1 22 0; HD 31 1 22 0; HD 41 1 22 0; HD 56 1 22 1;
      HD 255 0 0 0; HD 255 0 0 0; HD 255 0 0 0; HD 255 0 0 0;
      HD 255 0 0 0; HD 255 0 0 0; HD 255 0 0 0; HD 255 0 0 0] ].

Definition ngx_http_huff_decode_codes : list (list huff_decode_code) :=
  ngx_http_huff_decode_codes_0 ++
  ngx_http_huff_decode_codes_14 ++
  ngx_http_huff_decode_codes_28 ++
  ngx_http_huff_decode_codes_42 ++
  ngx_http_huff_decode_codes_56 ++
  ngx_http_huff_decode_codes_70 ++
  ngx_http_huff_decode_codes_84 ++
  ngx_http_huff_decode_codes_98 ++
  ngx_http_huff_decode_codes_112 ++
  ngx_http_huff_decode_codes_126 ++
  ngx_http_huff_decode_codes_140 ++
  ngx_http_huff_decode_codes_154 ++
  ngx_http_huff_decode_codes_168 ++
  ngx_http_huff_decode_codes_182 ++
  ngx_http_huff_decode_codes_196 ++
  ngx_http_huff_decode_codes_210 ++
  ngx_http_huff_decode_codes_224 ++
  ngx_http_huff_decode_codes_238 ++
  ngx_http_huff_decode_codes_252.

End HuffTables.
