(* ===== verification/Huffman.v ===== *)
(** * Huffman: the string coding of HTTP/2 and HTTP/3 header fields

    [ngx_http_huff_encode] (src/http/ngx_http_huff_encode.c) packs code words in
    a 64-bit buffer; [ngx_http_huff_decode] (src/http/ngx_http_huff_decode.c)
    runs a table driven automaton four bits at a time.  Both are related to the
    bit string of the code words, which is the specification. *)

From S2P Require Import Prelude NgxString HuffTables.

Module Huffman.

Import HuffTables.

(** ** Definitions *)

(** [ngx_http_huff_encode_buf]: the buffer in network byte order; also the final
    [do ... while (pending)] loop, [k] bytes of the value [buf]. *)
Fixpoint put_be (k : nat) (buf : Z) : list Z :=
  match k with
  | O => []
  | S k' => u8 (Z.shiftr buf (8 * Z.of_nat k')) :: put_be k' buf
  end.

Definition ngx_align (d a : Z) : Z := Z.land (d + (a - 1)) (Z.lnot (a - 1)).

(** The tail of the encoder: [hlen] bytes are in [dst]. *)
Definition huff_encode_tail (len hlen buf pending : Z) : option (list Z) :=
  if pending =? 0 then Some []
  else
    let buf := Z.lor buf (Z.shiftr 0xffffffffffffffff pending) in
    let pending := ngx_align pending 8 in
    if len <=? hlen + pending / 8 then None
    else Some (put_be (Z.to_nat (pending / 8)) (Z.shiftr buf (64 - pending))).

(** The loop; the result is what [dst] holds, [None] is the return of 0. *)
Fixpoint huff_encode_loop (table : list huff_encode_code) (len : Z) (src : list Z)
    (hlen buf pending : Z) : option (list Z) :=
  match src with
  | [] => huff_encode_tail len hlen buf pending
  | c :: src' =>
      let next := nth (Z.to_nat c) table (HE 0 0) in
      let code := HuffTables.code next in
      let pending := u64 (pending + HuffTables.len next) in
      if pending <? 64
      then huff_encode_loop table len src' hlen
             (Z.lor buf (u64 (Z.shiftl code (64 - pending)))) pending
      else if len <=? hlen + 8 then None
      else
        let pending := pending - 64 in
        let buf := Z.lor buf (Z.shiftr code pending) in
        match huff_encode_loop table len src' (hlen + 8)
                (if pending =? 0 then 0 else u64 (Z.shiftl code (64 - pending))) pending
        with
        | None => None
        | Some dst => Some (put_be 8 buf ++ dst)
        end
  end.

(** The encoded bytes; [[]] is the return value 0, which tells the caller to
    send the string as it is. *)
Definition ngx_http_huff_encode (src : list Z) (lower : bool) : list Z :=
  let table := if lower then ngx_http_huff_encode_table_lc
               else ngx_http_huff_encode_table in
  match huff_encode_loop table (Z.of_nat (length src)) src 0 0 0 with
  | None => []
  | Some dst => dst
  end.

(** [None] is [NGX_ERROR]; otherwise the new state and [ending] and the symbol
    written, if any. *)
Definition ngx_http_huff_decode_bits (state bits : Z) : option (Z * Z * list Z) :=
  let code := nth (Z.to_nat bits)
                (nth (Z.to_nat state) ngx_http_huff_decode_codes []) (HD 0 0 0 0) in
  if next code =? state then None
  else Some (next code, ending code,
             if emit code =? 0 then [] else [sym code]).

(** The loop: return code, state, [ending] and the bytes written. *)
Fixpoint huff_decode_loop (state ending : Z) (src : list Z) : Z * Z * Z * list Z :=
  match src with
  | [] => (NGX_OK, state, ending, [])
  | ch :: src' =>
      match ngx_http_huff_decode_bits state (Z.shiftr ch 4) with
      | None => (NGX_ERROR, state, ending, [])
      | Some (s1, e1, o1) =>
          match ngx_http_huff_decode_bits s1 (Z.land ch 0xf) with
          | None => (NGX_ERROR, s1, e1, o1)
          | Some (s2, e2, o2) =>
              let '(rc, s, e, o) := huff_decode_loop s2 e2 src' in
              (rc, s, e, o1 ++ o2 ++ o)
          end
      end
  end.

Definition ngx_http_huff_decode (state : Z) (src : list Z) (last : bool)
  : Z * Z * list Z :=
  let '(rc, s, e, o) := huff_decode_loop state 1 src in
  if negb (rc =? NGX_OK) then (rc, s, o)
  else if last then (if e =? 0 then (NGX_ERROR, s, o) else (NGX_OK, 0, o))
  else (NGX_OK, s, o).

(** ** Specifications *)

(** The [k] low bits of [z], most significant first. *)
Fixpoint bits (k : nat) (z : Z) : list bool :=
  match k with
  | O => []
  | S k' => Z.testbit z (Z.of_nat k') :: bits k' z
  end.

Definition byte_bits (l : list Z) : list bool := flat_map (bits 8) l.

(** The code word of a byte and the code words of a string. *)
Definition word (table : list huff_encode_code) (c : Z) : list bool :=
  let e := nth (Z.to_nat c) table (HE 0 0) in bits (Z.to_nat (len e)) (code e).

Definition words (table : list huff_encode_code) (s : list Z) : list bool :=
  flat_map (word table) s.

Abbreviation T := ngx_http_huff_encode_table.

Definition ones (l : list bool) : bool := forallb (fun b => b) l.

(** The node of the code tree a decoder state stands for, as the bits read
    since the last symbol; computed by following the table from state 0. *)
Fixpoint strip (p l : list bool) : option (list bool) :=
  match p, l with
  | [], _ => Some l
  | a :: p', b :: l' => if Bool.eqb a b then strip p' l' else None
  | _ :: _, [] => None
  end.

Definition follow (paths : list (option (list bool))) (s : nat)
  : list (option (list bool)) :=
  match nth s paths None with
  | None => paths
  | Some p =>
      fold_left (fun acc n =>
        let e := nth n (nth s ngx_http_huff_decode_codes []) (HD 0 0 0 0) in
        let q := p ++ bits 4 (Z.of_nat n) in
        if next e =? Z.of_nat s then acc
        else if emit e =? 0 then upd (Z.to_nat (next e)) (Some q) acc
        else match strip (word T (sym e)) q with
             | Some r => upd (Z.to_nat (next e)) (Some r) acc
             | None => acc
             end) (seq 0 16) paths
  end.

Definition round (paths : list (option (list bool))) : list (option (list bool)) :=
  fold_left follow (seq 0 256) paths.

Definition paths : list (list bool) := Eval vm_compute in
  map (fun o => match o with Some p => p | None => [] end)
    (Nat.iter 8 round (Some [] :: repeat None 255)).

Definition path (s : Z) : list bool := nth (Z.to_nat s) paths [].

Definition bools_eqb (a b : list bool) : bool :=
  if list_eq_dec Bool.bool_dec a b then true else false.

(** What the table entry of state [s] and nibble [n] has to be. *)
Definition entry_ok (s n : Z) : bool :=
  let q := path s ++ bits 4 n in
  match ngx_http_huff_decode_bits s n with
  | None => (30 <=? length q)%nat && ones (firstn 30 q)
  | Some (s', e, o) =>
      (0 <=? s') && (s' <? 256) && bools_eqb q (words T o ++ path s')
      && forallb (fun c => (0 <=? c) && (c <? 256)) o
      && Bool.eqb (negb (e =? 0)) (ones (path s')) && (length (path s') <? 30)%nat
  end.

Lemma entries_ok :
  forallb (fun s => forallb (entry_ok (Z.of_nat s)) (map Z.of_nat (seq 0 16))) (seq 0 256) = true.
Proof. vm_cast_no_check (eq_refl true). Qed.

(** Facts about the code words: between 5 and 30 bits, each with a zero bit, none a
    prefix of another. *)
Definition word_ok (c : Z) : bool :=
  (5 <=? length (word T c))%nat && (length (word T c) <=? 30)%nat
  && negb (ones (word T c)) && (HuffTables.len (nth (Z.to_nat c) T (HE 0 0)) <=? 30)
  && (HuffTables.code (nth (Z.to_nat c) T (HE 0 0)) <? 2 ^ HuffTables.len (nth (Z.to_nat c) T (HE 0 0))).

Lemma words_ok : forallb word_ok all_bytes = true.
Proof. vm_cast_no_check (eq_refl true). Qed.

(** The code words tabulated. *)
Definition word_pairs : list (Z * list bool) := Eval vm_compute in
  map (fun c => (c, word T c)) all_bytes.

Lemma word_pairs_eq : map (fun c => (c, word T c)) all_bytes = word_pairs.
Proof. vm_cast_no_check (eq_refl word_pairs). Qed.

Lemma words_prefix_free :
  forallb (fun p => forallb (fun q =>
    match strip (snd p) (snd q) with Some _ => fst p =? fst q | None => true end)
    word_pairs) word_pairs = true.
Proof. vm_cast_no_check (eq_refl true). Qed.

Lemma table_lc : forallb (fun c => let a := nth (Z.to_nat c) ngx_http_huff_encode_table_lc (HE 0 0) in
   let b := nth (Z.to_nat (Str.ngx_tolower c)) T (HE 0 0) in
   (HuffTables.code a =? HuffTables.code b) && (HuffTables.len a =? HuffTables.len b)) all_bytes = true.
Proof. vm_cast_no_check (eq_refl true). Qed.

(** No state holds a complete code word. *)
Lemma paths_open :
  forallb (fun p => forallb (fun q =>
    match strip (snd p) q with Some _ => false | None => true end) paths) word_pairs = true.
Proof. vm_cast_no_check (eq_refl true). Qed.

Lemma path_in s : 0 <= s < 256 -> In (path s) paths.
Proof.
  intros H. apply nth_In. assert (L : length paths = 256%nat) by reflexivity. lia.
Qed.

Lemma paths_short :
  forallb (fun s => (length (path (Z.of_nat s)) <? 30)%nat) (seq 0 256) = true.
Proof. vm_cast_no_check (eq_refl true). Qed.

#[local] Opaque path paths word_pairs ngx_http_huff_decode_codes ngx_http_huff_encode_table.

(** ** Lemmas: bits *)

Lemma strip_some p l r : strip p l = Some r -> l = p ++ r.
Proof.
  revert l; induction p as [|a p IH]; intros [|b l]; cbn; try (intros [= <-]; reflexivity);
    try discriminate.
  destruct (Bool.eqb_spec a b) as [->|]; [|discriminate]. intros H. now rewrite (IH l).
Qed.

Lemma strip_app p r : strip p (p ++ r) = Some r.
Proof. induction p as [|a p IH]; [now destruct r|]. cbn. now rewrite Bool.eqb_reflx. Qed.

(** Of two prefixes of a list one is a prefix of the other. *)
Lemma app_eq_strip (a b x y : list bool) :
  a ++ x = b ++ y -> (exists r, strip a b = Some r) \/ (exists r, strip b a = Some r).
Proof.
  revert b; induction a as [|h a IH]; intros [|k b] H; cbn; eauto.
  injection H as -> H. rewrite Bool.eqb_reflx. destruct (IH b H); auto.
Qed.

Lemma ones_app l1 l2 : ones (l1 ++ l2) = (ones l1 && ones l2)%bool.
Proof. apply forallb_app. Qed.

(** A list that starts with [p] and whose first [k] bits are ones. *)
Lemma ones_prefix k (p q r : list bool) :
  ones (firstn k q) = true -> (k <= length q)%nat -> (length p <= k)%nat ->
  (exists x, q ++ r = p ++ x) -> ones p = true.
Proof.
  intros Hq Hk Hp (x & E).
  assert (H : p = firstn (length p) q).
  { assert (F : firstn (length p) (q ++ r) = p).
    { rewrite E, firstn_app, Nat.sub_diag, firstn_all. apply app_nil_r. }
    rewrite firstn_app in F. replace (length p - length q)%nat with 0%nat in F by lia.
    cbn in F. now rewrite app_nil_r in F. }
  rewrite <- (firstn_skipn (length p) (firstn k q)), ones_app, firstn_firstn in Hq.
  rewrite Nat.min_l in Hq by lia. rewrite <- H in Hq. now apply andb_true_iff in Hq as [? _].
Qed.

Lemma bits_length k z : length (bits k z) = k.
Proof. induction k; cbn; auto. Qed.

Lemma byte_bits_cons b l : byte_bits (b :: l) = bits 8 b ++ byte_bits l.
Proof. reflexivity. Qed.

Lemma bits_app a b z : bits (a + b) z = bits a (Z.shiftr z (Z.of_nat b)) ++ bits b z.
Proof.
  induction a as [|a IH]; [reflexivity|]. cbn [Nat.add bits app]. rewrite <- IH.
  rewrite Z.shiftr_spec by lia. now rewrite Nat2Z.inj_add.
Qed.

Lemma bits_ext k y z :
  (forall i, 0 <= i < Z.of_nat k -> Z.testbit y i = Z.testbit z i) -> bits k y = bits k z.
Proof.
  induction k as [|k IH]; intros H; [reflexivity|]. cbn [bits]. f_equal.
  - apply H. lia.
  - apply IH. intros i Hi. apply H. lia.
Qed.

Lemma bits_mod k m z : (k <= m)%nat -> bits k (z mod 2 ^ Z.of_nat m) = bits k z.
Proof.
  intros H. apply bits_ext. intros i Hi. apply Z.mod_pow2_bits_low. lia.
Qed.

Lemma byte_nibbles ch :
  bits 8 ch = bits 4 (Z.shiftr ch 4) ++ bits 4 (Z.land ch 0xf).
Proof.
  change 8%nat with (4 + 4)%nat. rewrite bits_app. f_equal.
  change 0xf with (Z.ones 4). rewrite Z.land_ones by lia. symmetry.
  apply (bits_mod 4 4). lia.
Qed.

Lemma nibble_range ch : is_byte ch -> 0 <= Z.shiftr ch 4 < 16 /\ 0 <= Z.land ch 0xf < 16.
Proof.
  intros H. change 0xf with (Z.ones 4). rewrite Z.land_ones, Z.shiftr_div_pow2 by lia.
  unfold is_byte in H. split; [|apply Z.mod_pos_bound; lia].
  change (2 ^ 4) with 16. split; [apply Z.div_pos; lia|apply Z.div_lt_upper_bound; lia].
Qed.

(** ** Lemmas: code words *)

Lemma words_app s1 s2 : words T (s1 ++ s2) = words T s1 ++ words T s2.
Proof. apply flat_map_app. Qed.

Lemma words_cons c s : words T (c :: s) = word T c ++ words T s.
Proof. reflexivity. Qed.

Lemma word_facts c : is_byte c ->
  (5 <= length (word T c) <= 30)%nat /\ ones (word T c) = false.
Proof.
  intros H. pose proof (byte_check word_ok c words_ok H) as E. unfold word_ok in E.
  rewrite !andb_true_iff, negb_true_iff, !Nat.leb_le in E. tauto.
Qed.

Lemma word_pair c : is_byte c -> In (c, word T c) word_pairs.
Proof.
  intros H. rewrite <- word_pairs_eq. apply in_map_iff. exists c.
  split; [reflexivity|now apply all_bytes_spec].
Qed.

Lemma word_prefix c d r : is_byte c -> is_byte d -> strip (word T c) (word T d) = Some r -> c = d.
Proof.
  intros Hc Hd S. pose proof words_prefix_free as F. rewrite forallb_forall in F.
  specialize (F _ (word_pair c Hc)). cbn [fst snd] in F. rewrite forallb_forall in F.
  specialize (F _ (word_pair d Hd)). cbn [fst snd] in F. rewrite S in F. now apply Z.eqb_eq.
Qed.

Lemma word_inj c d x y :
  is_byte c -> is_byte d -> word T c ++ x = word T d ++ y -> c = d /\ x = y.
Proof.
  intros Hc Hd E.
  assert (c = d) as ->.
  { destruct (app_eq_strip _ _ _ _ E) as [(r & S)|(r & S)].
    - now apply (word_prefix c d r).
    - symmetry. now apply (word_prefix d c r). }
  split; [reflexivity|]. now apply app_inv_head in E.
Qed.

(** A run of ones that is not a code word nor longer. *)
Definition padding (p : list bool) : Prop := ones p = true /\ (length p < 30)%nat.

(** A code word starts no padding. *)
Lemma word_not_padding c x pad : is_byte c -> padding pad -> word T c ++ x <> pad.
Proof.
  intros Hc [Hp _] <-. rewrite ones_app in Hp. destruct (word_facts c Hc) as [_ F].
  rewrite F in Hp. discriminate Hp.
Qed.

(** ** Lemmas: the decoder *)

Definition state_ok (s : Z) : Prop := 0 <= s < 256.

Lemma entry s n : state_ok s -> 0 <= n < 16 -> entry_ok s n = true.
Proof.
  intros Hs Hn. pose proof entries_ok as H. rewrite forallb_forall in H.
  specialize (H (Z.to_nat s) ltac:(apply in_seq; unfold state_ok in Hs; lia)).
  rewrite forallb_forall in H. rewrite Z2Nat.id in H by (unfold state_ok in Hs; lia).
  apply H. apply in_map_iff. exists (Z.to_nat n). split; [lia|]. apply in_seq. lia.
Qed.

Lemma bools_eqb_eq a b : bools_eqb a b = true -> a = b.
Proof. unfold bools_eqb. now destruct (list_eq_dec _ a b). Qed.

Lemma decode_bits_spec s n : state_ok s -> 0 <= n < 16 ->
  match ngx_http_huff_decode_bits s n with
  | None => (30 <= length (path s ++ bits 4 n))%nat
            /\ ones (firstn 30 (path s ++ bits 4 n)) = true
  | Some (s', e, o) =>
      state_ok s' /\ path s ++ bits 4 n = words T o ++ path s' /\ wf_bytes o
      /\ (e =? 0) = negb (ones (path s'))
  end.
Proof.
  intros Hs Hn. pose proof (entry s n Hs Hn) as E. unfold entry_ok in E. cbv zeta in E.
  destruct (ngx_http_huff_decode_bits s n) as [[[s' e] o]|].
  - rewrite !andb_true_iff in E. destruct E as [[[[[E1 E2] E3] E4] E5] E6].
    split; [unfold state_ok; lia|]. split; [now apply bools_eqb_eq|]. split.
    + apply Forall_forall. rewrite forallb_forall in E4. intros c Hc.
      specialize (E4 c Hc). byte_lia.
    + apply Bool.eqb_prop in E5. rewrite <- E5. now rewrite negb_involutive.
  - rewrite andb_true_iff, Nat.leb_le in E. exact E.
Qed.

(** One nibble that starts a continuation of valid code words and padding. *)
Lemma decode_bits_complete s n rest w pad :
  state_ok s -> 0 <= n < 16 -> wf_bytes w -> padding pad ->
  path s ++ bits 4 n ++ rest = words T w ++ pad ->
  exists s' e o w', ngx_http_huff_decode_bits s n = Some (s', e, o)
    /\ state_ok s' /\ w = o ++ w' /\ path s' ++ rest = words T w' ++ pad
    /\ (e =? 0) = negb (ones (path s')).
Proof.
  intros Hs Hn Hw Hp E. rewrite app_assoc in E. pose proof (decode_bits_spec s n Hs Hn) as H.
  destruct (ngx_http_huff_decode_bits s n) as [[[s' e] o]|] eqn:D.
  - destruct H as (Hs' & Eq & Ho & He). exists s', e, o.
    assert (Hlen : o = [] \/ exists c, o = [c]).
    { revert D. unfold ngx_http_huff_decode_bits. generalize (nth (Z.to_nat n)
        (nth (Z.to_nat s) ngx_http_huff_decode_codes []) (HD 0 0 0 0)).
      intros cd. case_if; [discriminate|].
      intros [= _ _ <-]. case_if; eauto. }
    rewrite Eq, <- app_assoc in E. destruct Hlen as [->|(c & ->)].
    + exists w. auto.
    + inv_bytes. change (words T [c]) with (word T c ++ []) in E. rewrite app_nil_r in E.
      destruct w as [|d w].
      * exfalso. exact (word_not_padding c _ pad ltac:(assumption) Hp E).
      * inv_bytes. rewrite words_cons, <- (app_assoc (word T d)) in E.
        apply word_inj in E as [-> E]; try assumption. exists w. auto.
  - exfalso. destruct H as [H1 H2]. destruct w as [|d w].
    + change (words T [] ++ pad) with pad in E. destruct Hp as [_ Hp]. apply (f_equal (@length bool)) in E.
      rewrite length_app in E. lia.
    + inv_bytes. rewrite words_cons, <- (app_assoc (word T d)) in E.
      destruct (word_facts d) as [F1 F2]; [assumption|].
      rewrite (ones_prefix 30 (word T d) (path s ++ bits 4 n) rest) in F2; [discriminate F2|exact H2|exact H1|lia|].
      eexists. exact E.
Qed.

Lemma decode_loop_sound s e0 src s' e o :
  state_ok s -> wf_bytes src -> huff_decode_loop s e0 src = (NGX_OK, s', e, o) ->
  state_ok s' /\ path s ++ byte_bits src = words T o ++ path s' /\ wf_bytes o
  /\ (src <> [] -> (e =? 0) = negb (ones (path s'))).
Proof.
  revert s e0 s' e o; induction src as [|ch src IH]; intros s e0 s' e o Hs Hw H.
  - injection H as <- <- <-.
    split; [exact Hs|]. split; [now rewrite app_nil_r|]. split; [constructor|congruence].
  - inv_bytes. destruct (nibble_range ch) as [Hn1 Hn2]; [assumption|]. cbn [huff_decode_loop] in H.
    pose proof (decode_bits_spec s _ Hs Hn1) as B1.
    destruct (ngx_http_huff_decode_bits s _) as [[[s1 e1] o1]|]; [|discriminate H].
    destruct B1 as (Hs1 & E1 & Ho1 & _). pose proof (decode_bits_spec s1 _ Hs1 Hn2) as B2.
    destruct (ngx_http_huff_decode_bits s1 _) as [[[s2 e2] o2]|]; [|discriminate H].
    destruct B2 as (Hs2 & E2 & Ho2 & He2).
    destruct (huff_decode_loop s2 e2 src) as [[[rc s3] e3] o3] eqn:L. injection H as -> -> -> <-.
    destruct (IH s2 e2 s' e o3 Hs2 Hw L) as (Hs3 & E3 & Ho3 & He3).
    split; [exact Hs3|]. split; [|split].
    + rewrite byte_bits_cons, byte_nibbles, !words_app, <- !app_assoc, <- E3.
      rewrite (app_assoc (words T o2)), <- E2, (app_assoc (path s)), E1. now rewrite <- !app_assoc.
    + rewrite !wf_bytes_app. auto.
    + intros _. destruct src; [|apply He3; discriminate].
      cbn in L. injection L as <- <- <-. exact He2.
Qed.

Lemma path_open s w pad : state_ok s -> wf_bytes w -> path s = words T w ++ pad -> w = [].
Proof.
  intros Hs Hw E. destruct w as [|c w]; [reflexivity|]. exfalso. inv_bytes.
  rewrite words_cons, <- app_assoc in E. pose proof paths_open as P.
  rewrite forallb_forall in P. specialize (P _ (word_pair c ltac:(assumption))). cbn [snd] in P.
  rewrite forallb_forall in P. specialize (P (path s)). rewrite E, strip_app in P.
  discriminate P. rewrite <- E. now apply path_in.
Qed.

Lemma path_length s : state_ok s -> (length (path s) < 30)%nat.
Proof.
  intros Hs. pose proof paths_short as P. rewrite forallb_forall in P.
  specialize (P (Z.to_nat s) ltac:(apply in_seq; unfold state_ok in Hs; lia)). cbv beta in P.
  rewrite Z2Nat.id in P by (unfold state_ok in Hs; lia). now apply Nat.ltb_lt.
Qed.

Lemma decode_loop_complete s e0 src w pad :
  state_ok s -> wf_bytes src -> wf_bytes w -> padding pad ->
  path s ++ byte_bits src = words T w ++ pad ->
  exists s' e, huff_decode_loop s e0 src = (NGX_OK, s', e, w) /\ path s' = pad.
Proof.
  intros Hs Hb. revert s e0 w Hs; induction src as [|ch src IH]; intros s e0 w Hs Hw Hp E.
  - cbn in E. rewrite app_nil_r in E. assert (w = []) as -> by (eapply path_open; eauto).
    exists s, e0. split; [reflexivity|exact E].
  - inv_bytes. destruct (nibble_range ch) as [Hn1 Hn2]; [assumption|]. cbn [huff_decode_loop].
    rewrite byte_bits_cons, byte_nibbles, <- app_assoc in E.
    destruct (decode_bits_complete _ _ _ _ _ Hs Hn1 Hw Hp E) as (s1 & e1 & o1 & w1 & -> & Hs1 & -> & E1 & _).
    apply wf_bytes_app in Hw as [_ Hw].
    destruct (decode_bits_complete _ _ _ _ _ Hs1 Hn2 Hw Hp E1) as (s2 & e2 & o2 & w2 & -> & Hs2 & -> & E2 & _).
    apply wf_bytes_app in Hw as [_ Hw].
    destruct (IH Hb s2 e2 w2 Hs2 Hw Hp E2) as (s' & e & -> & Ep).
    exists s', e. now rewrite Ep.
Qed.

(** ** Lemmas: the value of a bit string *)

Fixpoint val (l : list bool) : Z :=
  match l with
  | [] => 0
  | b :: l' => Z.b2z b * 2 ^ Z.of_nat (length l') + val l'
  end.

Lemma val_range l : 0 <= val l < 2 ^ Z.of_nat (length l).
Proof.
  induction l as [|b l IH]; [cbn; lia|]. cbn [val length].
  rewrite Nat2Z.inj_succ, Z.pow_succ_r by lia. destruct b; cbn [Z.b2z]; lia.
Qed.

Lemma val_app l1 l2 : val (l1 ++ l2) = val l1 * 2 ^ Z.of_nat (length l2) + val l2.
Proof.
  induction l1 as [|b l1 IH]; [reflexivity|]. cbn [app val].
  rewrite IH, length_app, Nat2Z.inj_add, Z.pow_add_r by lia. ring.
Qed.

Lemma bits_val l : bits (length l) (val l) = l.
Proof.
  induction l as [|b l IH]; [reflexivity|]. cbn [length bits val]. f_equal.
    pose proof (val_range l) as R. apply Z.b2z_inj. rewrite Z.testbit_spec' by lia.
    rewrite Z.div_add_l by lia. rewrite (Z.div_small (val l)) by lia.
    rewrite Z.add_0_r. destruct b; reflexivity.
  - transitivity (bits (length l) (val l)); [|exact IH].
    rewrite <- (bits_mod _ (length l)), Z.add_comm, Z.mod_add by lia. now apply bits_mod.
Qed.

Lemma val_bits k z : 0 <= z < 2 ^ Z.of_nat k -> val (bits k z) = z.
Proof.
  revert z; induction k as [|k IH]; intros z H; [cbn in *; lia|].
  cbn [bits val]. rewrite bits_length. rewrite Nat2Z.inj_succ, Z.pow_succ_r in H by lia.
  rewrite <- (bits_mod k k) by lia.
  rewrite IH by (apply Z.mod_pos_bound; lia).
  rewrite Z.testbit_spec' by lia.
  assert (0 <= z / 2 ^ Z.of_nat k < 2)
    by (split; [apply Z.div_pos; lia|apply Z.div_lt_upper_bound; lia]).
  rewrite Z.mod_small by lia. pose proof (Z.div_mod z (2 ^ Z.of_nat k) ltac:(lia)). lia.
Qed.

Lemma val_ones k : val (repeat true k) = 2 ^ Z.of_nat k - 1.
Proof.
  induction k as [|k IH]; [reflexivity|]. cbn [repeat val]. rewrite repeat_length, IH.
  rewrite Nat2Z.inj_succ, Z.pow_succ_r by lia. cbn [Z.b2z]. lia.
Qed.

Lemma put_be_bits k v : byte_bits (put_be k v) = bits (8 * k) v.
Proof.
  induction k as [|k IH]; [reflexivity|]. cbn [put_be]. rewrite byte_bits_cons, IH.
  replace (8 * S k)%nat with (8 + 8 * k)%nat by lia. rewrite bits_app. f_equal.
  unfold u8. rewrite (bits_mod 8 8) by lia. f_equal. f_equal. lia.
Qed.

Lemma put_be_wf k v : wf_bytes (put_be k v) /\ length (put_be k v) = k.
Proof.
  induction k as [|k [IH1 IH2]]; [split; [constructor|reflexivity]|]. cbn [put_be length].
  split; [constructor; [apply u8_byte|exact IH1]|now rewrite IH2].
Qed.

(** ** Lemmas: the encoder *)

(** A code table: every entry a code of at most 30 bits in its length. *)
Definition table_ok (t : list huff_encode_code) : Prop :=
  forall c, is_byte c -> let e := nth (Z.to_nat c) t (HE 0 0) in
    0 <= len e <= 30 /\ 0 <= code e < 2 ^ len e.

Definition entry_bound (t : list huff_encode_code) (c : Z) : bool :=
  let e := nth (Z.to_nat c) t (HE 0 0) in
  (0 <=? len e) && (len e <=? 30) && (0 <=? code e) && (code e <? 2 ^ len e).

Lemma tables_ok : table_ok T /\ table_ok ngx_http_huff_encode_table_lc.
Proof.
  assert (G : forall t, forallb (entry_bound t) all_bytes = true -> table_ok t).
  { intros t H c Hc. pose proof (byte_check _ c H Hc) as E. unfold entry_bound in E.
    cbv zeta in *. rewrite !andb_true_iff, !Z.leb_le, Z.ltb_lt in E. tauto. }
  split; apply G; vm_cast_no_check (eq_refl true).
Qed.

Lemma word_spec t c : table_ok t -> is_byte c ->
  let e := nth (Z.to_nat c) t (HE 0 0) in
  Z.of_nat (length (word t c)) = len e /\ val (word t c) = code e /\ 0 <= len e <= 30.
Proof.
  intros Ht Hc. destruct (Ht c Hc) as [H1 H2]. cbv zeta in *. unfold word. cbv zeta.
  rewrite bits_length. split; [lia|]. split; [|exact H1].
  apply val_bits. now rewrite Z2Nat.id by lia.
Qed.

(** The 64-bit buffer whose [length l] top bits are [l]. *)
Definition top (l : list bool) : Z := val l * 2 ^ (64 - Z.of_nat (length l)).

Lemma lor_add a b k : 0 <= k -> 0 <= b < 2 ^ k -> Z.lor (a * 2 ^ k) b = a * 2 ^ k + b.
Proof.
  intros Hk Hb. rewrite <- Z.shiftl_mul_pow2 by lia. rewrite lor_shiftl_add by lia.
  now rewrite Z.shiftl_mul_pow2 by lia.
Qed.

(** Accumulating a code that fits. *)
Lemma top_app l c : (length l + length c < 64)%nat ->
  Z.lor (top l) (u64 (Z.shiftl (val c) (64 - Z.of_nat (length l + length c)))) = top (l ++ c).
Proof.
  intros H. pose proof (val_range c) as Hc. unfold top. rewrite length_app, val_app.
  set (m := 64 - Z.of_nat (length l + length c)).
  replace (64 - Z.of_nat (length l)) with (Z.of_nat (length c) + m) by (unfold m; lia).
  assert (Hm : 0 <= m) by (unfold m; lia). rewrite Z.shiftl_mul_pow2 by exact Hm.
  pose proof (Z.pow_pos_nonneg 2 m ltac:(lia) Hm).
  assert (Hb : 0 <= val c * 2 ^ m < 2 ^ (Z.of_nat (length c) + m))
    by (rewrite Z.pow_add_r by lia; nia).
  assert (2 ^ (Z.of_nat (length c) + m) <= 2 ^ 64)
    by (apply Z.pow_le_mono_r; unfold m; lia).
  rewrite u64_small by lia. rewrite lor_add by lia. rewrite Z.pow_add_r by lia. ring.
Qed.

(** Accumulating a code that fills the buffer: [a] completes it, [b] remains. *)
Lemma top_flush l a b : (length l + length a = 64)%nat -> (length b < 64)%nat ->
  Z.lor (top l) (Z.shiftr (val (a ++ b)) (Z.of_nat (length b))) = val (l ++ a)
  /\ (if Z.of_nat (length b) =? 0 then 0
      else u64 (Z.shiftl (val (a ++ b)) (64 - Z.of_nat (length b)))) = top b.
Proof.
  intros H Hb. pose proof (val_range a) as Ha. pose proof (val_range b) as Hv.
  rewrite !val_app. split.
  - rewrite Z.shiftr_div_pow2, Z.div_add_l, (Z.div_small (val b)) by lia. rewrite Z.add_0_r.
    unfold top. replace (64 - Z.of_nat (length l)) with (Z.of_nat (length a)) by lia.
    apply lor_add; lia.
  - unfold top. destruct b as [|b0 b]; [reflexivity|].
    destruct (Z.eqb_spec (Z.of_nat (length (b0 :: b))) 0) as [E|_]; [cbn in E; lia|].
    set (n := Z.of_nat (length (b0 :: b))) in *. rewrite Z.shiftl_mul_pow2 by lia.
    assert (Hs : 2 ^ 64 = 2 ^ n * 2 ^ (64 - n)) by (rewrite <- Z.pow_add_r by lia; f_equal; lia).
    unfold u64. rewrite Z.mul_add_distr_r, <- Z.mul_assoc, <- Hs, Z.add_comm, Z.mod_add by lia.
    apply Z.mod_small. pose proof (Z.pow_pos_nonneg 2 (64 - n) ltac:(lia) ltac:(lia)). nia.
Qed.

Lemma align_8 p : (p < 64)%nat -> ngx_align (Z.of_nat p) 8 = Z.of_nat (8 * ((p + 7) / 8)).
Proof.
  intros H.
  assert (G : forallb (fun p => ngx_align (Z.of_nat p) 8 =? Z.of_nat (8 * ((p + 7) / 8)))
    (seq 0 64) = true) by (vm_compute; reflexivity).
  rewrite forallb_forall in G. apply Z.eqb_eq, G, in_seq. lia.
Qed.

(** What the encoder has to produce for the bits [total], [hlen] bytes being
    written already: whole bytes that are the bits and a padding of fewer than
    eight ones, or nothing when that would not be shorter than [n] bytes. *)
Definition encoded (n hlen : Z) (total : list bool) (r : option (list Z)) : Prop :=
  let k := ((length total + 7) / 8)%nat in
  match r with
  | None => (0 < k)%nat /\ n <= hlen + Z.of_nat k
  | Some d =>
      length d = k /\ (k = 0%nat \/ hlen + Z.of_nat k < n) /\ wf_bytes d
      /\ exists pad, byte_bits d = total ++ pad /\ ones pad = true /\ (length pad < 8)%nat
  end.

Lemma ones_repeat k : ones (repeat true k) = true.
Proof. induction k; [reflexivity|exact IHk]. Qed.

(** The final word: the pending bits, ones below them, cut to whole bytes. *)
Lemma tail_word l k : (length l <= 8 * k <= 64)%nat ->
  Z.shiftr (Z.lor (top l) (Z.shiftr 0xffffffffffffffff (Z.of_nat (length l))))
    (64 - Z.of_nat (8 * k)) = val (l ++ repeat true (8 * k - length l)).
Proof.
  intros H. set (q := (8 * k - length l)%nat).
  set (r := (64 - 8 * k)%nat).
  replace (64 - Z.of_nat (8 * k)) with (Z.of_nat (length (repeat true r)))
    by (rewrite repeat_length; unfold r; lia).
  destruct (top_flush l (repeat true (64 - length l)) []) as [F _];
    [rewrite repeat_length; lia|cbn; lia|].
  rewrite app_nil_r in F. cbn [length] in F. change (Z.of_nat 0) with 0 in F.
  rewrite Z.shiftr_0_r, val_ones in F.
  replace (Z.shiftr 0xffffffffffffffff (Z.of_nat (length l)))
    with (2 ^ Z.of_nat (64 - length l) - 1).
  2:{ change 0xffffffffffffffff with (Z.ones 64). rewrite Z.ones_equiv, Z.shiftr_div_pow2 by lia.
      replace (Z.pred (2 ^ 64)) with
        ((2 ^ Z.of_nat (64 - length l) - 1) * 2 ^ Z.of_nat (length l)
         + (2 ^ Z.of_nat (length l) - 1)).
      - rewrite Z.div_add_l by lia. rewrite (Z.div_small (2 ^ Z.of_nat (length l) - 1)) by lia. lia.
      - rewrite Z.mul_sub_distr_r, <- Z.pow_add_r by lia.
        replace (Z.of_nat (64 - length l) + Z.of_nat (length l)) with 64 by lia. lia. }
  rewrite F. replace (64 - length l)%nat with (q + r)%nat by (unfold q, r; lia).
  rewrite repeat_app, app_assoc, val_app, Z.shiftr_div_pow2 by lia.
  rewrite Z.div_add_l, Z.div_small; [lia|apply val_range|lia].
Qed.

Lemma encode_tail_spec n hlen l : (length l < 64)%nat ->
  encoded n hlen l (huff_encode_tail n hlen (top l) (Z.of_nat (length l))).
Proof.
  intros H. unfold huff_encode_tail. destruct (Z.eqb_spec (Z.of_nat (length l)) 0) as [E|E].
  - destruct l; [|cbn in E; lia]. split; [reflexivity|]. split; [now left|].
    split; [constructor|]. exists []. repeat split; auto. cbn. lia.
  - set (k := ((length l + 7) / 8)%nat).
    assert (Hk : (8 * k < length l + 8 /\ length l <= 8 * k)%nat).
    { pose proof (Nat.div_mod_eq (length l + 7) 8).
      pose proof (Nat.mod_upper_bound (length l + 7) 8). unfold k. lia. }
    rewrite align_8 by exact H. fold k.
    replace (Z.of_nat (8 * k) / 8) with (Z.of_nat k)
      by (rewrite Nat2Z.inj_mul, Z.mul_comm, Z.div_mul; lia).
    case_if; [unfold encoded; fold k; lia|]. rewrite Nat2Z.id.
    set (q := (8 * k - length l)%nat).
    rewrite tail_word by (unfold k in *; lia). fold q.
    unfold encoded. fold k. destruct (put_be_wf k (val (l ++ repeat true q))) as [W L].
    split; [exact L|]. split; [lia|]. split; [exact W|]. exists (repeat true q).
    split; [|split; [apply ones_repeat|rewrite repeat_length; unfold q; lia]].
    rewrite put_be_bits. replace (8 * k)%nat with (length (l ++ repeat true q)).
    + apply bits_val.
    + rewrite length_app, repeat_length. unfold q. lia.
Qed.

(** Eight bytes already cut off. *)
Lemma encoded_cons n hlen w total r :
  length w = 64%nat -> hlen + 8 < n -> encoded n (hlen + 8) total r ->
  encoded n hlen (w ++ total)
    (match r with None => None | Some d => Some (put_be 8 (val w) ++ d) end).
Proof.
  intros Hw Hn H. unfold encoded in *. rewrite length_app, Hw.
  assert (K : ((64 + length total + 7) / 8 = 8 + (length total + 7) / 8)%nat)
    by (replace (64 + length total + 7)%nat with ((length total + 7) + 8 * 8)%nat by lia;
        rewrite Nat.div_add; lia).
  rewrite K. destruct r as [d|]; [|lia].
  destruct H as (L & Hb & W & pad & B & P1 & P2).
  destruct (put_be_wf 8 (val w)) as [W8 L8].
  split; [rewrite length_app, L8, L; reflexivity|]. split; [lia|].
  split; [now apply wf_bytes_app|]. exists pad. split; [|auto].
  unfold byte_bits. rewrite flat_map_app. fold (byte_bits d). fold (byte_bits (put_be 8 (val w))).
  rewrite put_be_bits, B. change (8 * 8)%nat with 64%nat.
  replace 64%nat with (length w). now rewrite bits_val, app_assoc.
Qed.

Lemma encode_loop_spec t n src l hlen :
  table_ok t -> wf_bytes src -> (length l < 64)%nat ->
  encoded n hlen (l ++ words t src)
    (huff_encode_loop t n src hlen (top l) (Z.of_nat (length l))).
Proof.
  intros Ht. revert l hlen; induction src as [|c src IH]; intros l hlen Hw Hl.
  - cbn [words flat_map huff_encode_loop]. rewrite app_nil_r. now apply encode_tail_spec.
  - inv_bytes. cbn [words flat_map huff_encode_loop]. fold (words t src).
    destruct (word_spec t c Ht) as (E1 & E2 & E3); [assumption|].
    set (e := nth (Z.to_nat c) t (HE 0 0)) in *. cbv zeta in E1, E2, E3. rewrite <- E1, <- E2.
    set (wd := word t c) in *. rewrite u64_small by lia.
    rewrite <- Nat2Z.inj_add. rewrite app_assoc. case_if.
    + rewrite top_app by lia. rewrite <- length_app. apply IH; [assumption|].
      rewrite length_app. lia.
    + pose proof (firstn_skipn (64 - length l) wd) as S.
      set (a := firstn (64 - length l) wd) in *. set (b := skipn (64 - length l) wd) in *.
      assert (La : length a = (64 - length l)%nat) by (apply firstn_length_le; lia).
      assert (Lb : length wd = (length a + length b)%nat) by (rewrite <- S; apply length_app).
      rewrite <- S. rewrite (app_assoc l a b), <- (app_assoc (l ++ a)).
      assert (W : length (l ++ a) = 64%nat) by (rewrite length_app; lia).
      case_if.
      * unfold encoded. rewrite length_app, W.
        assert (8 <= (64 + length (b ++ words t src) + 7) / 8)%nat
          by (apply Nat.div_le_lower_bound; lia).
        lia.
      * replace (Z.of_nat (length l + length (a ++ b)) - 64) with (Z.of_nat (length b))
          by (rewrite length_app; lia).
        destruct (top_flush l a b) as [F1 F2]; [lia|lia|]. rewrite F1, F2.
        apply encoded_cons; [exact W|lia|]. apply IH; [assumption|lia].
Qed.

Lemma encode_spec src (lower : bool) : wf_bytes src ->
  let t := if lower then ngx_http_huff_encode_table_lc else T in
  let n := Z.of_nat (length src) in
  exists r, encoded n 0 (words t src) r
    /\ ngx_http_huff_encode src lower = match r with None => [] | Some d => d end.
Proof.
  intros Hw. cbv zeta.
  exists (huff_encode_loop (if lower then ngx_http_huff_encode_table_lc else T)
            (Z.of_nat (length src)) src 0 0 0). split; [|reflexivity].
  apply (encode_loop_spec _ _ src [] 0); [|exact Hw|cbn; lia].
  destruct lower; apply tables_ok.
Qed.

(** The lower case table codes the lower case text. *)
Lemma words_lower src : wf_bytes src ->
  words ngx_http_huff_encode_table_lc src = words T (map Str.ngx_tolower src).
Proof.
  unfold words. induction 1 as [|c src Hc Hs IH]; [reflexivity|].
  cbn [flat_map map]. rewrite IH. f_equal. unfold word.
  pose proof (byte_check _ c table_lc Hc) as E. cbv beta zeta in E.
  rewrite andb_true_iff, !Z.eqb_eq in E. cbv zeta. destruct E as [-> ->]. reflexivity.
Qed.

Lemma tolower_wf src : wf_bytes src -> wf_bytes (map Str.ngx_tolower src).
Proof.
  induction 1 as [|c src Hc Hs IH]; [constructor|].
  constructor; [|exact IH]. unfold Str.ngx_tolower. case_if; [|exact Hc].
  assert (E : is_byte (Z.lor c 0x20)); [|exact E].
  assert (((0 <=? Z.lor c 0x20) && (Z.lor c 0x20 <? 256))%bool = true) by by_bytes c.
  byte_lia.
Qed.

(** Splitting the input between two calls. *)
Lemma decode_loop_app s e0 a b :
  huff_decode_loop s e0 (a ++ b) =
  let '(rc, s1, e1, o1) := huff_decode_loop s e0 a in
  if rc =? NGX_OK then
    let '(rc2, s2, e2, o2) := huff_decode_loop s1 e1 b in (rc2, s2, e2, o1 ++ o2)
  else (rc, s1, e1, o1).
Proof.
  revert s e0; induction a as [|ch a IH]; intros s e0; cbn [app huff_decode_loop].
  - change (NGX_OK =? NGX_OK) with true. cbv iota.
    now destruct (huff_decode_loop s e0 b) as [[[rc s2] e2] o2].
  - destruct (ngx_http_huff_decode_bits s _) as [[[s1 e1] o1]|]; [|reflexivity].
    destruct (ngx_http_huff_decode_bits s1 _) as [[[s2 e2] o2]|]; [|reflexivity].
    rewrite IH. destruct (huff_decode_loop s2 e2 a) as [[[rc s3] e3] o3].
    destruct (rc =? NGX_OK); [|reflexivity].
    destruct (huff_decode_loop s3 e3 b) as [[[rc4 s4] e4] o4]. now rewrite !app_assoc.
Qed.

(** The value of [ending] is lost between calls and set by any byte read. *)
Lemma decode_loop_ending s e1 e2 src : src <> [] ->
  let '(rc, s1, _, o1) := huff_decode_loop s e1 src in
  let '(rc', s2, _, o2) := huff_decode_loop s e2 src in
  rc = rc' /\ s1 = s2 /\ o1 = o2
  /\ (rc = NGX_OK -> huff_decode_loop s e1 src = huff_decode_loop s e2 src).
Proof.
  destruct src as [|ch src]; [congruence|]. intros _. cbn [huff_decode_loop].
  destruct (ngx_http_huff_decode_bits s _) as [[[s1 e1'] o1]|];
    [|repeat split; discriminate].
  destruct (ngx_http_huff_decode_bits s1 _) as [[[s2 e2'] o2]|];
    [|repeat split; discriminate].
  destruct (huff_decode_loop s2 e2' src) as [[[rc s3] e3] o3]. auto.
Qed.

Lemma decode_app s0 a b last s o :
  b <> [] -> ngx_http_huff_decode s0 a false = (NGX_OK, s, o) ->
  ngx_http_huff_decode s0 (a ++ b) last =
  let '(rc, s', o') := ngx_http_huff_decode s b last in (rc, s', o ++ o').
Proof.
  intros Hn. unfold ngx_http_huff_decode. rewrite decode_loop_app.
  destruct (huff_decode_loop s0 1 a) as [[[rc s1] e1] o1].
  destruct (Z.eqb_spec rc NGX_OK) as [->|N]; cbn [negb]; [|intros [=]; congruence].
  intros [= -> ->]. pose proof (decode_loop_ending s e1 1 b Hn) as E.
  destruct (huff_decode_loop s e1 b) as [[[rc s2] e2] o2].
  destruct (huff_decode_loop s 1 b) as [[[rc' s2'] e2'] o2'].
  destruct E as (-> & -> & -> & E).
  destruct (Z.eqb_spec rc' NGX_OK) as [->|N]; cbn [negb]; [|reflexivity].
  injection (E eq_refl) as ->. destruct last; [|reflexivity]. now case_if.
Qed.

(** What was wrong stays wrong. *)
Lemma decode_app_error s0 a b last rc s o :
  rc <> NGX_OK -> ngx_http_huff_decode s0 a false = (rc, s, o) ->
  ngx_http_huff_decode s0 (a ++ b) last = (rc, s, o).
Proof.
  intros Hrc. unfold ngx_http_huff_decode. rewrite decode_loop_app.
  destruct (huff_decode_loop s0 1 a) as [[[rc1 s1] e1] o1].
  destruct (Z.eqb_spec rc1 NGX_OK) as [->|N]; cbn [negb]; [congruence|].
  intros [= -> -> ->]. now destruct (Z.eqb_spec rc NGX_OK).
Qed.

Lemma state_0 : state_ok 0.
Proof. unfold state_ok. lia. Qed.

(** Every symbol takes at least five bits, whether the string is good or not. *)
Lemma words_length w : wf_bytes w -> (5 * length w <= length (words T w))%nat.
Proof.
  induction 1 as [|c w Hc _ IH]; cbn [length]; [lia|]. rewrite words_cons, length_app.
  destruct (word_facts c Hc). lia.
Qed.

Lemma decode_loop_output s e0 src rc s' e o :
  state_ok s -> wf_bytes src -> huff_decode_loop s e0 src = (rc, s', e, o) ->
  (5 * length o <= length (path s) + 8 * length src)%nat.
Proof.
  revert s e0 rc s' e o; induction src as [|ch src IH]; intros s e0 rc s' e o Hs Hw H.
  - injection H as <- <- <- <-. cbn. lia.
  - inv_bytes. destruct (nibble_range ch) as [Hn1 Hn2]; [assumption|]. cbn [huff_decode_loop] in H.
    pose proof (decode_bits_spec s _ Hs Hn1) as B1.
    destruct (ngx_http_huff_decode_bits s _) as [[[s1 e1] o1]|];
      [|injection H as <- <- <- <-; cbn [length]; lia].
    destruct B1 as (Hs1 & E1 & Ho1 & _). pose proof (decode_bits_spec s1 _ Hs1 Hn2) as B2.
    apply (f_equal (@length bool)) in E1. rewrite !length_app, bits_length in E1.
    pose proof (words_length o1 Ho1).
    destruct (ngx_http_huff_decode_bits s1 _) as [[[s2 e2] o2]|];
      [|injection H as <- <- <- <-; cbn [length]; lia].
    destruct B2 as (Hs2 & E2 & Ho2 & _). apply (f_equal (@length bool)) in E2.
    rewrite !length_app, bits_length in E2. pose proof (words_length o2 Ho2).
    destruct (huff_decode_loop s2 e2 src) as [[[rc3 s3] e3] o3] eqn:L. injection H as <- <- <- <-.
    specialize (IH s2 e2 rc3 s3 e3 o3 Hs2 ltac:(assumption) L). rewrite !length_app. cbn [length]. lia.
Qed.

Lemma decode_output src last : wf_bytes src ->
  (5 * length (snd (ngx_http_huff_decode 0 src last)) <= 8 * length src)%nat.
Proof.
  intros Hw. unfold ngx_http_huff_decode.
  destruct (huff_decode_loop 0 1 src) as [[[rc s] e] o] eqn:L.
  apply decode_loop_output in L; [|exact state_0|exact Hw]. change (length (path 0)) with 0%nat in L.
  case_if; [exact L|]. destruct last; [|exact L]. case_if; exact L.
Qed.

(** One call on a whole string. *)
Lemma decode_whole src w : wf_bytes src ->
  ngx_http_huff_decode 0 src true = (NGX_OK, 0, w) <->
  wf_bytes w /\ exists pad, byte_bits src = words T w ++ pad /\ padding pad.
Proof.
  intros Hb. unfold ngx_http_huff_decode. split.
  - destruct (huff_decode_loop 0 1 src) as [[[rc s] e] o] eqn:L.
    destruct (Z.eqb_spec rc NGX_OK) as [->|N]; cbn [negb]; [|intros [=]; congruence].
    destruct (Z.eqb_spec e 0) as [E|E]; [discriminate|]. intros [= ->].
    apply decode_loop_sound in L as (Hs & Eq & Hw & He); [|exact state_0|exact Hb].
    split; [exact Hw|]. exists (path s). split; [exact Eq|].
    split; [|now apply path_length]. destruct src as [|ch src].
    + symmetry in Eq. apply app_eq_nil in Eq as [_ ->]. reflexivity.
    + specialize (He ltac:(discriminate)). apply negb_false_iff. rewrite <- He. lia.
  - intros (Hw & pad & Eq & Hp).
    destruct (decode_loop_complete 0 1 src w pad) as (s & e & L & Ep);
      [exact state_0|exact Hb|exact Hw|exact Hp|exact Eq|]. rewrite L. cbn [negb Z.eqb].
    destruct (decode_loop_sound _ _ _ _ _ _ state_0 Hb L) as (Hs & _ & _ & He).
    destruct src as [|ch src].
    + symmetry in Eq. apply app_eq_nil in Eq as [Eq _]. destruct w as [|c w].
      * cbn in L. injection L as <- <-. reflexivity.
      * exfalso. inv_bytes. rewrite words_cons in Eq. apply app_eq_nil in Eq as [Eq _].
        destruct (word_facts c) as [F _]; [assumption|]. rewrite Eq in F. cbn in F. lia.
    + specialize (He ltac:(discriminate)). rewrite Ep in He. destruct Hp as [Hp _].
      rewrite Hp in He. now rewrite He.
Qed.

(** ** Properties *)

(** C35. The decoder accepts exactly the concatenations of code words followed
    by fewer than 30 one bits, and returns the string they code; an input cut
    in two calls gives the same result as in one. *)
Theorem huff_decode_exact src w :
  wf_bytes src ->
  (ngx_http_huff_decode 0 src true = (NGX_OK, 0, w) <->
   wf_bytes w /\ exists pad, byte_bits src = words T w ++ pad /\ padding pad)
  /\ (forall a b last s o, src = a ++ b -> b <> [] ->
      ngx_http_huff_decode 0 a false = (NGX_OK, s, o) ->
      ngx_http_huff_decode 0 src last =
      let '(rc, s', o') := ngx_http_huff_decode s b last in (rc, s', o ++ o')).
Proof.
  intros Hb. split; [now apply decode_whole|].
  intros a b last s o -> Hn H. now apply decode_app.
Qed.

Example huff_decode_exact_witness :
  ngx_http_huff_decode 0 [0xa8; 0xeb; 0x10; 0x64; 0x9c; 0xbf] true
  = (NGX_OK, 0, bs "no-cache").
Proof.
  refine (proj2 (proj1 (huff_decode_exact [0xa8; 0xeb; 0x10; 0x64; 0x9c; 0xbf]
    (bs "no-cache") _)) _).
  - repeat constructor; discriminate.
  - split; [repeat constructor; discriminate|]. exists [true; true; true; true; true].
    split; [vm_compute; reflexivity|]. split; [reflexivity|cbn; lia].
Defined.

(** Whatever the encoder writes, it is shorter than the string and decodes to it. *)
Lemma encode_decodes src (lower : bool) :
  wf_bytes src ->
  let r := ngx_http_huff_encode src lower in
  r = [] \/ (0 < length r < length src)%nat /\
    ngx_http_huff_decode 0 r true = (NGX_OK, 0, if lower then map Str.ngx_tolower src else src).
Proof.
  intros Hw. cbv zeta.
  assert (E : words (if lower then ngx_http_huff_encode_table_lc else T) src
              = words T (if lower then map Str.ngx_tolower src else src)).
  { destruct lower; [now apply words_lower|reflexivity]. }
  assert (Hs : wf_bytes (if lower then map Str.ngx_tolower src else src)).
  { destruct lower; [now apply tolower_wf|exact Hw]. }
  destruct (encode_spec src lower Hw) as (r & Hr & ->). rewrite E in Hr. unfold encoded in Hr.
  destruct r as [[| b d] |]; [now left | | now left]. right.
  destruct Hr as (Hl & H0 & Hd & pad & B & P1 & P2). cbn [length] in *.
  split; [destruct H0 as [H0|H0]; lia |].
  apply decode_whole; [exact Hd|]. split; [exact Hs|].
  exists pad. split; [exact B|]. split; [exact P1|lia].
Qed.

(** C36. [ngx_http_huff_encode] writes the code words of the (lower-cased)
    string and fewer than eight padding ones in whole bytes when that is
    shorter than the string, and declines (returns 0) exactly otherwise; the
    decoder gives the string back. *)
Theorem huff_encode_roundtrip src (lower : bool) :
  wf_bytes src ->
  let s := if lower then map Str.ngx_tolower src else src in
  let k := ((length (words T s) + 7) / 8)%nat in
  let r := ngx_http_huff_encode src lower in
  if (k <? length src)%nat
  then length r = k
    /\ (exists pad, byte_bits r = words T s ++ pad /\ ones pad = true /\ (length pad < 8)%nat)
    /\ ngx_http_huff_decode 0 r true = (NGX_OK, 0, s)
  else r = [].
Proof.
  intros Hw. cbv zeta.
  assert (E : words (if lower then ngx_http_huff_encode_table_lc else T) src
              = words T (if lower then map Str.ngx_tolower src else src)).
  { destruct lower; [now apply words_lower|reflexivity]. }
  assert (Hs : wf_bytes (if lower then map Str.ngx_tolower src else src)).
  { destruct lower; [now apply tolower_wf|exact Hw]. }
  destruct (encode_spec src lower Hw) as (r & Hr & ->). rewrite E in Hr. unfold encoded in Hr.
  set (s := if lower then map Str.ngx_tolower src else src) in *. set (k := ((length (words T s) + 7) / 8)%nat) in *.
  destruct (Nat.ltb_spec k (length src)) as [L|L]; destruct r as [d|]; try lia.
  - destruct Hr as (Hl & _ & Hd & pad & B & P1 & P2). split; [exact Hl|].
    split; [exists pad; auto|]. apply decode_whole; [exact Hd|]. split; [exact Hs|].
    exists pad. split; [exact B|]. split; [exact P1|lia].
  - destruct Hr as (Hl & [H0|H0] & _); [|lia]. rewrite H0 in Hl. destruct d; [reflexivity|discriminate Hl].
  - reflexivity.
Qed.

Example huff_encode_roundtrip_witness :
  ngx_http_huff_decode 0 (ngx_http_huff_encode (bs "No-Cache") true) true
  = (NGX_OK, 0, bs "no-cache").
Proof.
  refine (proj2 (proj2 (huff_encode_roundtrip (bs "No-Cache") true _))).
  repeat constructor; discriminate.
Defined.

(** The padding the decoder accepts is longer than the seven bits of RFC 7541
    (5.2), and a string cut inside a code word passes when the last call brings
    no byte. *)
Remark huff_decode_lax :
  ngx_http_huff_decode 0 [0xff; 0xff; 0xff] true = (NGX_OK, 0, [])
  /\ ngx_http_huff_decode 0 [0x01] false = (NGX_OK, 6, bs "0")
  /\ ngx_http_huff_decode 6 [] true = (NGX_OK, 0, []).
Proof. repeat split; vm_compute; reflexivity. Qed.

End Huffman.
