(* ===== verification/Chunked.v ===== *)
(** * Chunked: the chunked transfer coding

    The incremental parser [ngx_http_parse_chunked] of src/http/ngx_http_parse.c
    and the loop of [ngx_http_request_body_chunked_filter]
    (src/http/ngx_http_request_body.c) that drives it over the buffers of a
    request body.  A buffer is the list of the bytes from [b->pos] to
    [b->last]; what is consumed is counted from its front.  The filter is
    related to a reference machine that reads one byte at a time. *)

From S2P Require Import Prelude NgxNum.

Module Chunked.

(** ** Definitions *)

Inductive chunk_state : Set :=
| sw_chunk_start
| sw_chunk_size
| sw_chunk_extension
| sw_chunk_extension_almost_done
| sw_chunk_data
| sw_after_data
| sw_after_data_almost_done
| sw_last_chunk_extension
| sw_last_chunk_extension_almost_done
| sw_trailer
| sw_trailer_almost_done
| sw_trailer_header
| sw_trailer_header_almost_done.

(** [ngx_http_chunked_t] *)
Record ngx_http_chunked : Set := Chunk { state : chunk_state; size : Z; length_ : Z }.

(** Where one byte leads: on, to the [data], [done] or [invalid] label. *)
Inductive chunk_ctl : Set :=
| Go (s : chunk_state) (size : Z)
| Data
| Done
| Invalid.

Definition hex_digit (ch : Z) : option Z :=
  if (("0"%chr <=? ch) && (ch <=? "9"%chr))%bool then Some (ch - "0"%chr)
  else
    let c := u8 (Z.lor ch 0x20) in
    if (("a"%chr <=? c) && (c <=? "f"%chr))%bool then Some (c - "a"%chr + 10)
    else None.

Definition TAB : Z := 9.

(** [sw_chunk_size]: a digit, or the end of the number. *)
Definition chunk_size_step (keep_trailers : bool) (size ch : Z) : chunk_ctl :=
  if NGX_MAX_OFF_T_VALUE / 16 <? size then Invalid
  else match hex_digit ch with
  | Some d => Go sw_chunk_size (size * 16 + d)
  | None =>
      if size =? 0 then
        if ch =? CR then Go sw_last_chunk_extension_almost_done size
        else if ch =? LF then (if keep_trailers then Done else Go sw_trailer size)
        else if ((ch =? ";"%chr) || (ch =? " "%chr) || (ch =? TAB))%bool
        then Go sw_last_chunk_extension size
        else Invalid
      else
        if ch =? CR then Go sw_chunk_extension_almost_done size
        else if ch =? LF then Go sw_chunk_data size
        else if ((ch =? ";"%chr) || (ch =? " "%chr) || (ch =? TAB))%bool
        then Go sw_chunk_extension size
        else Invalid
  end.

(** The [switch (state)]. *)
Definition chunk_step (keep_trailers : bool) (s : chunk_state) (size ch : Z) : chunk_ctl :=
  match s with
  | sw_chunk_start =>
      match hex_digit ch with
      | Some d => Go sw_chunk_size d
      | None => Invalid
      end
  | sw_chunk_size => chunk_size_step keep_trailers size ch
  | sw_chunk_extension =>
      if ch =? CR then Go sw_chunk_extension_almost_done size
      else if ch =? LF then Go sw_chunk_data size
      else Go sw_chunk_extension size
  | sw_chunk_extension_almost_done =>
      if ch =? LF then Go sw_chunk_data size else Invalid
  | sw_chunk_data => Data
  | sw_after_data =>
      if ch =? CR then Go sw_after_data_almost_done size
      else if ch =? LF then Go sw_chunk_start size
      else Invalid
  | sw_after_data_almost_done =>
      if ch =? LF then Go sw_chunk_start size else Invalid
  | sw_last_chunk_extension =>
      if ch =? CR then Go sw_last_chunk_extension_almost_done size
      else if ch =? LF then (if keep_trailers then Done else Go sw_trailer size)
      else Go sw_last_chunk_extension size
  | sw_last_chunk_extension_almost_done =>
      if ch =? LF then (if keep_trailers then Done else Go sw_trailer size) else Invalid
  | sw_trailer =>
      if ch =? CR then Go sw_trailer_almost_done size
      else if ch =? LF then Done
      else Go sw_trailer_header size
  | sw_trailer_almost_done => if ch =? LF then Done else Invalid
  | sw_trailer_header =>
      if ch =? CR then Go sw_trailer_header_almost_done size
      else if ch =? LF then Go sw_trailer size
      else Go sw_trailer_header size
  | sw_trailer_header_almost_done =>
      if ch =? LF then Go sw_trailer size else Invalid
  end.

(** The [for] loop: how it ends, the state and size there, the bytes passed. *)
Fixpoint chunk_loop (keep_trailers : bool) (s : chunk_state) (size : Z) (b : list Z)
  : option chunk_ctl * chunk_state * Z * nat :=
  match b with
  | [] => (None, s, size, O)
  | ch :: b' =>
      match chunk_step keep_trailers s size ch with
      | Go s' size' =>
          let '(e, s2, z2, n) := chunk_loop keep_trailers s' size' b' in (e, s2, z2, S n)
      | c => (Some c, s, size, O)
      end
  end.

(** The [switch] that sets [ctx->length]: the fewest bytes still to come. *)
Definition chunk_length (s : chunk_state) (size : Z) : Z :=
  match s with
  | sw_chunk_start => 3
  | sw_chunk_size => 1 + (if size =? 0 then 1 else size + 4)
  | sw_chunk_extension | sw_chunk_extension_almost_done => 1 + size + 4
  | sw_chunk_data => size + 4
  | sw_after_data | sw_after_data_almost_done => 4
  | sw_last_chunk_extension | sw_last_chunk_extension_almost_done => 2
  | sw_trailer | sw_trailer_almost_done => 1
  | sw_trailer_header | sw_trailer_header_almost_done => 2
  end.

Definition is_data (s : chunk_state) : bool :=
  match s with sw_chunk_data => true | _ => false end.

(** [if (state == sw_chunk_data && ctx->size == 0) state = sw_after_data;] *)
Definition enter (s : chunk_state) (size : Z) : chunk_state :=
  if (is_data s && (size =? 0))%bool then sw_after_data else s.

(** Return code, context, bytes consumed. *)
Definition ngx_http_parse_chunked (b : list Z) (ctx : ngx_http_chunked) (keep_trailers : bool)
  : Z * ngx_http_chunked * nat :=
  let '(e, s, z, n) := chunk_loop keep_trailers (enter (state ctx) (size ctx)) (size ctx) b in
  match e with
  | Some Invalid => (NGX_ERROR, Chunk (state ctx) z (length_ ctx), O)
  | Some Done => (NGX_DONE, Chunk sw_chunk_start z (length_ ctx), S n)
  | _ =>
      if NGX_MAX_OFF_T_VALUE - 5 <? z then (NGX_ERROR, Chunk s z (length_ ctx), n)
      else (match e with Some Data => NGX_OK | _ => NGX_AGAIN end,
            Chunk s z (chunk_length s z), n)
  end.

Definition NGX_HTTP_BAD_REQUEST : Z := 400.
Definition NGX_HTTP_REQUEST_ENTITY_TOO_LARGE : Z := 413.

(** What the filter keeps between buffers: the parser's context, the body
    bytes counted in [headers_in.content_length_n], and [rb->rest]. *)
Record body_state : Set := Body { b_chunked : ngx_http_chunked; b_length : Z; b_rest : Z }.

(** The bytes of a chunk that are in the buffer: appended to the last body
    buffer when the rest of the chunk is short and complete, otherwise in a
    body buffer of their own.  [out] holds the body buffers made so far, the
    last one first. *)
Definition body_take (ctx : ngx_http_chunked) (len rest : Z) (out : list (list Z)) (b : list Z)
  : body_state * list (list Z) * list Z :=
  let avail := Z.of_nat (length b) in
  let k := Z.to_nat (size ctx) in
  let all := Body (Chunk (state ctx) 0 (length_ ctx)) (len + size ctx) rest in
  let part := Body (Chunk (state ctx) (size ctx - avail) (length_ ctx)) (len + avail) rest in
  let new := if size ctx <? avail then (all, firstn k b :: out, skipn k b)
             else (part, b :: out, []) in
  match out with
  | last :: out' =>
      if ((size ctx <=? 128) && (size ctx <=? avail))%bool
      then (all, (last ++ firstn k b) :: out', skipn k b)
      else new
  | [] => new
  end.

(** The inner [for] loop over one buffer [b].  The result is the code the
    parser gave last or an HTTP status, the state, the body buffers and what is
    left of the buffer.  [max] is [client_max_body_size] (0: no limit), [large]
    the size of the large header buffers; memory allocation succeeds. *)
Fixpoint body_filter_loop (fuel : nat) (max large : Z) (st : body_state) (out : list (list Z))
    (b : list Z) : Z * body_state * list (list Z) * list Z :=
  match fuel with
  | O => (NGX_ERROR, st, out, b)
  | S fuel' =>
      let '(rc, ctx, n) := ngx_http_parse_chunked b (b_chunked st) false in
      let b := skipn n b in
      let len := b_length st in
      if rc =? NGX_OK then
        if (negb (max =? 0) && (max - len <? size ctx))%bool
        then (NGX_HTTP_REQUEST_ENTITY_TOO_LARGE, Body ctx len (b_rest st), out, b)
        else
          let '(st', out', b') := body_take ctx len (b_rest st) out b in
          body_filter_loop fuel' max large st' out' b'
      else if rc =? NGX_DONE then (NGX_DONE, Body ctx len 0, out, b)
      else if rc =? NGX_AGAIN
      then (NGX_AGAIN, Body ctx len (Z.max (length_ ctx) large), out, b)
      else (NGX_HTTP_BAD_REQUEST, Body ctx len (b_rest st), out, b)
  end.

(** One call with one buffer; each turn of the loop that goes on has taken a
    byte.  [rest] is -1 before the first call. *)
Definition ngx_http_request_body_chunked_filter (max large : Z) (st : body_state) (b : list Z)
  : Z * body_state * list Z * list Z :=
  let st := if b_rest st =? -1 then Body (Chunk sw_chunk_start 0 0) 0 large else st in
  let '(rc, st', out, b') := body_filter_loop (S (length b)) max large st [] b in
  (rc, st', concat (rev out), b').

(** ** Specifications *)

(** The reference machine: one byte at a time, the data of a chunk included;
    when the last byte of a chunk is read it is past the data. *)
Inductive byte_step : Set :=
| BGo (s : chunk_state) (z : Z) (out : list Z)
| BDone
| BInvalid.

Definition bstep (s : chunk_state) (z ch : Z) : byte_step :=
  match chunk_step false s z ch with
  | Go s' z' => BGo s' z' []
  | Data => if NGX_MAX_OFF_T_VALUE - 5 <? z then BInvalid
            else BGo (enter sw_chunk_data (z - 1)) (z - 1) [ch]
  | Done => BDone
  | Invalid => BInvalid
  end.

(** The end of a run: out of bytes in a state, done with bytes left, invalid. *)
Inductive run_end : Set :=
| RAgain (s : chunk_state) (z : Z)
| RDone (rest : list Z)
| RInvalid.

Fixpoint brun (s : chunk_state) (z : Z) (l : list Z) : run_end * list Z :=
  match l with
  | [] => (RAgain s z, [])
  | ch :: l' =>
      match bstep s z ch with
      | BGo s' z' o => let '(e, o') := brun s' z' l' in (e, o ++ o')
      | BDone => (RDone l', [])
      | BInvalid => (RInvalid, [])
      end
  end.

(** The sizes a context can hold. *)
Definition chunk_ok (s : chunk_state) (z : Z) : Prop :=
  0 <= z <= NGX_MAX_OFF_T_VALUE
  /\ match s with
     | sw_chunk_extension | sw_chunk_extension_almost_done => 0 < z
     | sw_chunk_size | sw_chunk_data => True
     | _ => z = 0
     end.

(** The filter over successive buffers, until it stops asking for more; what is
    left of the input is returned. *)
Fixpoint feed (max large : Z) (st : body_state) (bufs : list (list Z))
  : Z * body_state * list Z * list Z :=
  match bufs with
  | [] => (NGX_AGAIN, st, [], [])
  | b :: bufs' =>
      let '(rc, st', o, b') := ngx_http_request_body_chunked_filter max large st b in
      if rc =? NGX_AGAIN
      then let '(rc2, st2, o2, r) := feed max large st' bufs' in (rc2, st2, o ++ o2, r)
      else (rc, st', o, b' ++ concat bufs')
  end.

Definition first_call : body_state := Body (Chunk sw_chunk_start 0 0) 0 (-1).

(** The grammar of the coding: a size in hexadecimal digits of either case,
    an extension, an end of line (LF alone is taken), the data. *)
Definition no_eol (c : Z) : Prop := c <> CR /\ c <> LF.
Definition extension (l : list Z) : Prop :=
  l = [] \/ exists c t, l = c :: t /\ (c = ";"%chr \/ c = " "%chr \/ c = TAB)
             /\ Forall no_eol t.

Record chunk : Set := MkChunk {
  c_size : list Z; c_ext : list Z; c_eol : list Z; c_data : list Z; c_end : list Z }.

Definition chunk_wf (c : chunk) : Prop :=
  wf_bytes (c_size c) /\ c_size c <> []
  /\ Num.hexval_from 0 (c_size c) = Some (Z.of_nat (length (c_data c)))
  /\ 0 < Z.of_nat (length (c_data c)) <= NGX_MAX_OFF_T_VALUE / 16
  /\ extension (c_ext c) /\ eol (c_eol c) /\ eol (c_end c).

Definition chunk_text (c : chunk) : list Z :=
  c_size c ++ c_ext c ++ c_eol c ++ c_data c ++ c_end c.

(** A trailer line and its end. *)
Definition trailer_wf (t : list Z * list Z) : Prop :=
  fst t <> [] /\ Forall no_eol (fst t) /\ eol (snd t).

Record body_text : Set := MkBody {
  bt_chunks : list chunk; bt_zero : list Z; bt_ext : list Z; bt_eol : list Z;
  bt_trailers : list (list Z * list Z); bt_end : list Z }.

Definition body_wf (t : body_text) : Prop :=
  Forall chunk_wf (bt_chunks t) /\ wf_bytes (bt_zero t) /\ bt_zero t <> []
  /\ Num.hexval_from 0 (bt_zero t) = Some 0 /\ extension (bt_ext t) /\ eol (bt_eol t)
  /\ Forall trailer_wf (bt_trailers t) /\ eol (bt_end t).

Definition body_bytes (t : body_text) : list Z :=
  concat (map chunk_text (bt_chunks t)) ++ bt_zero t ++ bt_ext t ++ bt_eol t
  ++ concat (map (fun l => fst l ++ snd l) (bt_trailers t)) ++ bt_end t.

Definition body_data (t : body_text) : list Z := concat (map c_data (bt_chunks t)).

(** ** Lemmas *)

Lemma hex_digit_range ch d : hex_digit ch = Some d -> 0 <= d <= 15.
Proof.
  unfold hex_digit. case_if; [intros [= <-]; lia|]. cbv zeta. case_if; [|discriminate].
  intros [= <-]. lia.
Qed.

(** A state the loop can be in: not a chunk whose data is over. *)
Definition entered (s : chunk_state) (z : Z) : Prop := (is_data s && (z =? 0))%bool = false.

Lemma enter_entered s z : entered s z -> enter s z = s.
Proof. unfold entered, enter. now intros ->. Qed.

Lemma entered_enter s z : entered (enter s z) z.
Proof. unfold entered, enter. case_if; [reflexivity|assumption]. Qed.

Lemma enter_ok s z : chunk_ok s z -> chunk_ok (enter s z) z.
Proof. unfold chunk_ok, enter. intros [? ?]. case_if; [|auto]. destruct s; lia. Qed.

Lemma chunk_step_ok keep s z ch s' z' :
  chunk_ok s z -> chunk_step keep s z ch = Go s' z' -> chunk_ok s' z' /\ entered s' z'.
Proof.
  intros [Hz Hs]. unfold chunk_ok, entered.
  destruct s; cbn [chunk_step]; unfold chunk_size_step;
    change (NGX_MAX_OFF_T_VALUE / 16) with 576460752303423487;
    try (destruct (hex_digit ch) as [d|] eqn:D; [apply hex_digit_range in D|]);
    repeat case_if; try discriminate; intros [= <- <-]; cbn [is_data andb];
    repeat split; try reflexivity; lia.
Qed.

(** *** The loop and its chunked input *)

Lemma chunk_loop_ok keep s z b : chunk_ok s z -> entered s z ->
  let '(_, s', z', n) := chunk_loop keep s z b in
  chunk_ok s' z' /\ entered s' z' /\ (n <= length b)%nat.
Proof.
  revert s z; induction b as [|ch b IH]; intros s z H E; cbn [chunk_loop]; [auto|].
  destruct (chunk_step keep s z ch) as [s1 z1| | |] eqn:C; try (cbn; repeat split; auto; lia);
    [|split; [assumption|split; [assumption|lia]]..].
  destruct (chunk_step_ok _ _ _ _ _ _ H C) as [H1 E1]. specialize (IH s1 z1 H1 E1).
  destruct (chunk_loop keep s1 z1 b) as [[[e s2] z2] n]. cbn [length]. intuition lia.
Qed.

Lemma chunk_loop_app keep s z a b :
  chunk_loop keep s z (a ++ b) =
  let '(e, s1, z1, n) := chunk_loop keep s z a in
  match e with
  | None => let '(e2, s2, z2, m) := chunk_loop keep s1 z1 b in (e2, s2, z2, (n + m)%nat)
  | Some _ => (e, s1, z1, n)
  end.
Proof.
  revert s z; induction a as [|ch a IH]; intros s z; cbn [app chunk_loop].
  - now destruct (chunk_loop keep s z b) as [[[e2 s2] z2] m].
  - destruct (chunk_step keep s z ch) as [s1 z1| | |]; [|reflexivity..].
    rewrite IH. destruct (chunk_loop keep s1 z1 a) as [[[e s2] z2] n].
    destruct e; [reflexivity|].
    now destruct (chunk_loop keep s2 z2 b) as [[[e2 s3] z3] m].
Qed.

(** *** The filter and the reference machine *)

(** What the loop passes over yields no data. *)
Lemma loop_brun s z b : chunk_ok s z -> entered s z ->
  let '(e, s', z', n) := chunk_loop false s z b in
  match e with
  | None => n = length b /\ brun s z b = (RAgain s' z', [])
  | Some Data => s' = sw_chunk_data /\ 0 < z' /\ (n < length b)%nat
                 /\ brun s z b = brun s' z' (skipn n b)
  | Some Done => (n < length b)%nat /\ brun s z b = (RDone (skipn (S n) b), [])
  | Some Invalid => brun s z b = (RInvalid, [])
  | Some (Go _ _) => False
  end.
Proof.
  revert s z; induction b as [|ch b IH]; intros s z H E; [cbn; auto|].
  cbn [chunk_loop].
  destruct (chunk_step false s z ch) as [s1 z1| | |] eqn:C.
  - destruct (chunk_step_ok _ _ _ _ _ _ H C) as [H1 E1]. specialize (IH s1 z1 H1 E1).
    destruct (chunk_loop false s1 z1 b) as [[[e s2] z2] n]. cbn [length].
    assert (R : brun s z (ch :: b) = brun s1 z1 b).
    { cbn [brun]. unfold bstep. rewrite C. now destruct (brun s1 z1 b). }
    rewrite R. change (skipn (S (S n)) (ch :: b)) with (skipn (S n) b).
    change (skipn (S n) (ch :: b)) with (skipn n b).
    destruct e as [[| | |]|]; intuition lia.
  - assert (s = sw_chunk_data) as ->.
    { destruct s; cbn [chunk_step] in C; unfold chunk_size_step in C; try reflexivity;
        try destruct (hex_digit ch); repeat case_if_in C; discriminate C. }
    unfold entered in E. cbn [is_data andb] in E. destruct H as [H _]. cbn [length].
    split; [reflexivity|]. split; [lia|]. split; [lia|reflexivity].
  - split; [cbn; lia|]. cbn [brun]. unfold bstep. now rewrite C.
  - cbn [brun]. unfold bstep. now rewrite C.
Qed.

(** The bytes of a chunk go through. *)
Lemma brun_data z d r :
  0 < z -> Z.of_nat (length d) <= z <= NGX_MAX_OFF_T_VALUE - 5 ->
  brun sw_chunk_data z (d ++ r) =
  let z' := z - Z.of_nat (length d) in
  let '(e, o) := brun (enter sw_chunk_data z') z' r in (e, d ++ o).
Proof.
  cbv zeta. revert z; induction d as [|ch d IH]; intros z Hp H; cbn [app length].
  - rewrite Z.sub_0_r, enter_entered by (unfold entered; cbn; lia).
    now destruct (brun sw_chunk_data z r).
  - cbn [length] in H. cbn [brun]. unfold bstep. cbn [chunk_step].
    destruct (Z.ltb_spec (NGX_MAX_OFF_T_VALUE - 5) z); [lia|].
    replace (z - Z.of_nat (S (length d))) with (z - 1 - Z.of_nat (length d)) by lia.
    destruct (Z.eq_dec z 1) as [->|N].
    + assert (d = []) as -> by (destruct d; [reflexivity|cbn in H; lia]). cbn [app length].
      change (1 - 1 - Z.of_nat 0) with (1 - 1). now destruct (brun _ (1 - 1) r).
    + rewrite (enter_entered sw_chunk_data (z - 1)) by (unfold entered; cbn [is_data andb]; lia).
      rewrite IH by lia. now destruct (brun _ (z - 1 - Z.of_nat (length d)) r).
Qed.

(** A size too large for [ctx->length] never reaches the end of the body. *)
Definition too_large (z : Z) : Prop := NGX_MAX_OFF_T_VALUE - 5 < z.

Lemma too_large_run s z l rest o :
  chunk_ok s z -> too_large z -> brun s z l <> (RDone rest, o).
Proof.
  unfold too_large. revert s z o; induction l as [|ch l IH]; intros s z o H Hz; [discriminate|].
  assert (E : entered s z) by (unfold entered; destruct (Z.eqb_spec z 0); [lia|apply andb_false_r]).
  cbn [brun]. unfold bstep.
  destruct (chunk_step false s z ch) as [s1 z1| | |] eqn:C; [| | |discriminate].
  - assert (z1 = z) as ->.
    { destruct H as [_ H].
      destruct s; cbn [chunk_step] in C; unfold chunk_size_step in C; try lia;
        change (NGX_MAX_OFF_T_VALUE / 16) with 576460752303423487 in C;
        repeat case_if_in C; try discriminate C; try (now injection C); lia. }
    destruct (chunk_step_ok _ _ _ _ _ _ H C) as [H1 _].
    destruct (brun s1 z l) as [e o1] eqn:R. intros [= -> _]. exact (IH s1 z o1 H1 Hz R).
  - destruct (Z.ltb_spec (NGX_MAX_OFF_T_VALUE - 5) z); [discriminate|lia].
  - exfalso. destruct H as [_ H].
    destruct s; cbn [chunk_step] in C; unfold chunk_size_step in C; try lia;
      try destruct (hex_digit ch); repeat case_if_in C; try discriminate C.
Qed.

Lemma brun_app s z a b :
  brun s z (a ++ b) =
  let '(e, o) := brun s z a in
  match e with
  | RAgain s1 z1 => let '(e2, o2) := brun s1 z1 b in (e2, o ++ o2)
  | RDone r => (RDone (r ++ b), o)
  | RInvalid => (RInvalid, o)
  end.
Proof.
  revert s z; induction a as [|ch a IH]; intros s z; cbn [app brun].
  - now destruct (brun s z b).
  - destruct (bstep s z ch) as [s1 z1 o1| |]; [|reflexivity..].
    rewrite IH. destruct (brun s1 z1 a) as [[s2 z2|r|] o2]; [|reflexivity..].
    destruct (brun s2 z2 b) as [e3 o3]. now rewrite app_assoc.
Qed.

(** Only [sw_chunk_data] leads to the data. *)
Lemma step_data keep s z ch : chunk_step keep s z ch = Data -> s = sw_chunk_data.
Proof.
  intros C. destruct s; cbn [chunk_step] in C; unfold chunk_size_step in C; try reflexivity;
    try destruct (hex_digit ch); repeat case_if_in C; discriminate C.
Qed.

Lemma data_step_ok z : 0 < z -> chunk_ok sw_chunk_data z ->
  chunk_ok (enter sw_chunk_data (z - 1)) (z - 1).
Proof. intros Hz [H _]. apply enter_ok. split; [lia|exact I]. Qed.

Lemma brun_ok s z l : chunk_ok s z -> entered s z ->
  match brun s z l with (RAgain s' z', _) => chunk_ok s' z' /\ entered s' z' | _ => True end.
Proof.
  revert s z; induction l as [|ch l IH]; intros s z H E; cbn [brun]; [auto|].
  unfold bstep. destruct (chunk_step false s z ch) as [s1 z1| | |] eqn:C; [| |exact I|exact I].
  - destruct (chunk_step_ok _ _ _ _ _ _ H C) as [H1 E1]. specialize (IH s1 z1 H1 E1).
    now destruct (brun s1 z1 l).
  - case_if; [exact I|]. apply step_data in C as ->. unfold entered in E. cbn [is_data andb] in E.
    destruct H as [H H']. assert (Hd : chunk_ok _ _) by (apply data_step_ok; [|split; [exact H|exact H']]; lia).
    specialize (IH _ _ Hd (entered_enter _ _)). now destruct (brun _ (z - 1) l).
Qed.

(** A chunk whose data has begun is read to its end before the body is done. *)
Lemma data_done_length z l r o : 0 < z -> brun sw_chunk_data z l = (RDone r, o) ->
  z <= Z.of_nat (length o).
Proof.
  revert z o; induction l as [|ch l IH]; intros z o Hz; [discriminate|].
  cbn [brun]. unfold bstep. cbn [chunk_step]. case_if; [discriminate|].
  destruct (brun _ (z - 1) l) as [e o1] eqn:R. intros [= -> <-]. cbn [app length].
  destruct (Z.eq_dec z 1) as [->|N]; [lia|].
  rewrite enter_entered in R by (unfold entered; cbn [is_data andb]; lia).
  specialize (IH (z - 1) o1 ltac:(lia) R). lia.
Qed.

(** No continuation of [b] ends the body. *)
Definition hopeless (s : chunk_state) (z : Z) (b : list Z) : Prop :=
  forall l r o, brun s z (b ++ l) <> (RDone r, o).

(** One call of the parser, on the reference machine. *)
Lemma parse_brun b ctx : chunk_ok (state ctx) (size ctx) ->
  let s := enter (state ctx) (size ctx) in
  let z := size ctx in
  let '(rc, ctx', n) := ngx_http_parse_chunked b ctx false in
  (n <= length b)%nat /\
  ((rc = NGX_AGAIN /\ n = length b /\ chunk_ok (state ctx') (size ctx')
    /\ entered (state ctx') (size ctx')
    /\ length_ ctx' = chunk_length (state ctx') (size ctx')
    /\ brun s z b = (RAgain (state ctx') (size ctx'), []))
   \/ (rc = NGX_OK /\ (n < length b)%nat /\ state ctx' = sw_chunk_data /\ 0 < size ctx'
       /\ chunk_ok sw_chunk_data (size ctx') /\ ~ too_large (size ctx')
       /\ forall l, brun s z (b ++ l) = brun sw_chunk_data (size ctx') (skipn n b ++ l))
   \/ (rc = NGX_DONE /\ brun s z b = (RDone (skipn n b), []))
   \/ (rc = NGX_ERROR /\ hopeless s z b)).
Proof.
  intros H. cbv zeta. unfold ngx_http_parse_chunked.
  set (s := enter (state ctx) (size ctx)). set (z := size ctx).
  assert (Hs : chunk_ok s z) by now apply enter_ok.
  assert (Es : entered s z) by apply entered_enter.
  pose proof (chunk_loop_ok false s z b Hs Es) as L. pose proof (loop_brun s z b Hs Es) as B.
  assert (A : forall l, let '(e, s', z', n) := chunk_loop false s z b in
     e <> None -> chunk_loop false s z (b ++ l) = (e, s', z', n)).
  { intros l. rewrite chunk_loop_app. destruct (chunk_loop false s z b) as [[[[e|] s'] z'] n];
      [reflexivity|congruence]. }
  assert (Bl : forall l, let '(e, s', z', n) := chunk_loop false s z (b ++ l) in
     match e with
     | Some Data => brun s z (b ++ l) = brun s' z' (skipn n (b ++ l))
     | Some Invalid => brun s z (b ++ l) = (RInvalid, [])
     | _ => True
     end).
  { intros l. pose proof (loop_brun s z (b ++ l) Hs Es) as K.
    destruct (chunk_loop false s z (b ++ l)) as [[[[[| | |]|] s'] z'] n]; tauto. }
  destruct (chunk_loop false s z b) as [[[e s'] z'] n]. destruct L as (L1 & L2 & L3).
  destruct e as [[|  | |]|]; [contradiction| | | |].
  - destruct B as (-> & B1 & B2 & B3).
    assert (D : forall l, brun s z (b ++ l) = brun sw_chunk_data z' (skipn n b ++ l)).
    { intros l. specialize (A l ltac:(discriminate)). specialize (Bl l). rewrite A in Bl.
      rewrite Bl, skipn_app. replace (n - length b)%nat with 0%nat by lia. reflexivity. }
    destruct (Z.ltb_spec (NGX_MAX_OFF_T_VALUE - 5) z') as [T|T]; (split; [lia|]).
    + right. right. right. split; [reflexivity|]. intros l r o. rewrite D.
      now apply too_large_run.
    + right. left. cbn [state size]. repeat (split; [try assumption; reflexivity|]).
      split; [unfold too_large; lia|exact D].
  - destruct B as [B1 B2]. split; [lia|]. right. right. left. auto.
  - split; [lia|]. right. right. right. split; [reflexivity|]. intros l r o.
    specialize (A l ltac:(discriminate)). specialize (Bl l). rewrite A in Bl. rewrite Bl. discriminate.
  - destruct B as (-> & B). destruct (Z.ltb_spec (NGX_MAX_OFF_T_VALUE - 5) z') as [T|T]; (split; [lia|]).
    + right. right. right. split; [reflexivity|]. intros l r o. rewrite brun_app, B.
      destruct (brun s' z' l) as [e2 o2] eqn:R. intros [= -> <-].
      exact (too_large_run s' z' l r o2 L1 T R).
    + left. cbn [state size length_]. auto 10.
Qed.

(** The bytes [body_take] takes. *)
Lemma body_take_spec ctx len rest out b :
  0 < size ctx -> b <> [] ->
  let '(st', out', b') := body_take ctx len rest out b in
  exists d, b = d ++ b' /\ d <> [] /\ Z.of_nat (length d) <= size ctx
    /\ concat (rev out') = concat (rev out) ++ d
    /\ st' = Body (Chunk (state ctx) (size ctx - Z.of_nat (length d)) (length_ ctx))
               (len + Z.of_nat (length d)) rest.
Proof.
  intros Hz Hb. assert (Hl : (0 < length b)%nat) by (destruct b; [congruence|cbn; lia]).
  assert (Whole : size ctx <= Z.of_nat (length b) ->
    exists d, b = d ++ skipn (Z.to_nat (size ctx)) b /\ d = firstn (Z.to_nat (size ctx)) b
      /\ d <> [] /\ Z.of_nat (length d) = size ctx).
  { intros H. exists (firstn (Z.to_nat (size ctx)) b). rewrite firstn_skipn.
    assert (E : length (firstn (Z.to_nat (size ctx)) b) = Z.to_nat (size ctx))
      by (apply firstn_length_le; lia).
    repeat split; try lia. intros N. rewrite N in E. cbn in E. lia. }
  assert (New : let '(st', out', b') :=
     if size ctx <? Z.of_nat (length b)
     then (Body (Chunk (state ctx) 0 (length_ ctx)) (len + size ctx) rest,
           firstn (Z.to_nat (size ctx)) b :: out, skipn (Z.to_nat (size ctx)) b)
     else (Body (Chunk (state ctx) (size ctx - Z.of_nat (length b)) (length_ ctx))
             (len + Z.of_nat (length b)) rest, b :: out, []) in
     exists d, b = d ++ b' /\ d <> [] /\ Z.of_nat (length d) <= size ctx
    /\ concat (rev out') = concat (rev out) ++ d
    /\ st' = Body (Chunk (state ctx) (size ctx - Z.of_nat (length d)) (length_ ctx))
               (len + Z.of_nat (length d)) rest).
  { destruct (Z.ltb_spec (size ctx) (Z.of_nat (length b))).
    - destruct (Whole ltac:(lia)) as (d & E & Ed & Hd & L). exists d. rewrite <- Ed, L, Z.sub_diag.
      cbn [rev]. rewrite concat_app. cbn [concat]. rewrite app_nil_r. repeat split; auto; lia.
    - exists b. cbn [rev]. rewrite concat_app. cbn [concat]. rewrite !app_nil_r.
      repeat split; auto; lia. }
  unfold body_take. destruct out as [|last out']; [exact New|].
  case_if; [|exact New]. destruct (Whole ltac:(lia)) as (d & E & Ed & Hd & L).
  exists d. rewrite <- Ed, L, Z.sub_diag. cbn [rev]. rewrite !concat_app. cbn [concat].
  rewrite !app_nil_r, app_assoc. repeat split; auto; lia.
Qed.

(** The state of the filter as a state of the reference machine. *)
Definition ref_state (st : body_state) : chunk_state :=
  enter (state (b_chunked st)) (size (b_chunked st)).
Definition ref_size (st : body_state) : Z := size (b_chunked st).
Definition body_ok (st : body_state) : Prop :=
  chunk_ok (state (b_chunked st)) (size (b_chunked st)).

(** What one call of the filter does, by the code it returns. *)
Definition filter_ends (max large : Z) (st st' : body_state) (b b' : list Z) (rc : Z)
    (o : list Z) : Prop :=
  let run := brun (ref_state st) (ref_size st) in
  (rc = NGX_AGAIN /\ b' = [] /\ body_ok st' /\ run b = (RAgain (ref_state st') (ref_size st'), o)
    /\ b_rest st' = Z.max (chunk_length (ref_state st') (ref_size st')) large)
  \/ (rc = NGX_DONE /\ run b = (RDone b', o) /\ b_rest st' = 0)
  \/ (rc = NGX_HTTP_BAD_REQUEST /\ hopeless (ref_state st) (ref_size st) b)
  \/ (rc = NGX_HTTP_REQUEST_ENTITY_TOO_LARGE /\ max <> 0
      /\ forall l r o', run (b ++ l) = (RDone r, o') -> max < b_length st + Z.of_nat (length o')).

Lemma body_filter_spec fuel max large st out b :
  body_ok st -> (length b < fuel)%nat ->
  let '(rc, st', out', b') := body_filter_loop fuel max large st out b in
  exists o, concat (rev out') = concat (rev out) ++ o
    /\ b_length st' = b_length st + Z.of_nat (length o)
    /\ (max <> 0 -> b_length st <= max -> b_length st' <= max)
    /\ filter_ends max large st st' b b' rc o.
Proof.
  revert st out b; induction fuel as [|fuel IH]; intros st out b Hok Hf; [lia|].
  cbn [body_filter_loop]. pose proof (parse_brun b (b_chunked st) Hok) as P. cbv zeta in P.
  fold (ref_state st) (ref_size st) in P.
  destruct (ngx_http_parse_chunked b (b_chunked st) false) as [[rc ctx] n].
  destruct P as (Pn & [(-> & -> & P1 & P2 & P3 & P4)|[(-> & P1 & P2 & P3 & P4 & P5 & P6)|
    [(-> & P1)|(-> & P1)]]]).
  - cbn [Z.eqb]. exists []. rewrite app_nil_r, Z.add_0_r. repeat split; auto.
    left. rewrite skipn_all. unfold ref_state, ref_size, body_ok. cbn [b_chunked b_rest].
    rewrite (enter_entered _ _ P2), P3. auto.
  - cbn [Z.eqb]. destruct (negb (max =? 0) && (max - b_length st <? size ctx))%bool eqn:E.
    + exists []. rewrite app_nil_r, Z.add_0_r. repeat split; auto. right. right. right.
      split; [reflexivity|]. split; [lia|]. intros l r o' R. rewrite P6 in R.
      apply data_done_length in R; [lia|exact P3].
    + assert (Hne : skipn n b <> []).
      { intros N. apply (f_equal (@length Z)) in N. rewrite length_skipn in N. cbn in N. lia. }
      pose proof (body_take_spec ctx (b_length st) (b_rest st) out (skipn n b) P3 Hne) as T.
      destruct (body_take ctx (b_length st) (b_rest st) out (skipn n b)) as [[st1 out1] b1].
      destruct T as (d & Ed & Hd & Hl & Ho & ->).
      assert (Ld : (0 < length d)%nat) by (destruct d; [congruence|cbn; lia]).
      assert (Lb : (length b1 < length b)%nat).
      { apply (f_equal (@length Z)) in Ed. rewrite length_skipn, length_app in Ed. lia. }
      set (st1 := Body _ _ _).
      assert (Hok1 : body_ok st1).
      { destruct P4 as [P4 _]. split; [unfold st1; cbn; lia|]. unfold st1. cbn [state b_chunked].
        now rewrite P2. }
      specialize (IH st1 out1 b1 Hok1 ltac:(lia)).
      destruct (body_filter_loop fuel max large st1 out1 b1) as [[[rc st'] out'] b'].
      destruct IH as (o & IHo & IHl & IHm & IHe). exists (d ++ o).
      assert (D : forall l, brun (ref_state st) (ref_size st) (b ++ l) =
        let '(e, o) := brun (ref_state st1) (ref_size st1) (b1 ++ l) in (e, d ++ o)).
      { intros l. rewrite P6, Ed, <- app_assoc. unfold too_large in P5.
        rewrite brun_data by (try exact P3; lia). cbv zeta. unfold ref_state, ref_size, st1.
        cbn [b_chunked state size]. now rewrite P2. }
      assert (D0 := D []). rewrite !app_nil_r in D0. rewrite length_app, Nat2Z.inj_add.
      cbn [st1 b_length] in IHl, IHm.
      split; [now rewrite IHo, Ho, app_assoc|]. split; [lia|]. split; [lia|].
      unfold filter_ends in *.
      destruct IHe as [(-> & E1 & E2 & E3 & E4)|[(-> & E1 & E2)|[(-> & E1)|(-> & E1 & E2)]]].
      * left. rewrite D0, E3. auto.
      * right. left. rewrite D0, E1. auto.
      * right. right. left. split; [reflexivity|]. intros l r o' R. rewrite D in R.
        destruct (brun (ref_state st1) (ref_size st1) (b1 ++ l)) as [e1 o1] eqn:R1.
        injection R as -> _. exact (E1 l r o1 R1).
      * right. right. right. split; [reflexivity|]. split; [exact E1|]. intros l r o' R.
        rewrite D in R. destruct (brun (ref_state st1) (ref_size st1) (b1 ++ l)) as [e1 o1] eqn:R1.
        injection R as -> <-. specialize (E2 l r o1 R1). cbn [st1 b_length] in E2.
        rewrite length_app. lia.
  - cbn [Z.eqb Pos.eqb]. exists []. rewrite app_nil_r, Z.add_0_r. repeat split; auto.
    right. left. auto.
  - cbn [Z.eqb Pos.eqb]. exists []. rewrite app_nil_r, Z.add_0_r. repeat split; auto.
    right. right. left. auto.
Qed.

(** *** Successive buffers *)

Lemma filter_spec max large st b :
  body_ok st -> b_rest st <> -1 ->
  let '(rc, st', o, b') := ngx_http_request_body_chunked_filter max large st b in
  b_length st' = b_length st + Z.of_nat (length o)
  /\ (max <> 0 -> b_length st <= max -> b_length st' <= max)
  /\ filter_ends max large st st' b b' rc o.
Proof.
  intros Hok Hr. unfold ngx_http_request_body_chunked_filter.
  destruct (Z.eqb_spec (b_rest st) (-1)); [contradiction|].
  pose proof (body_filter_spec (S (length b)) max large st [] b Hok ltac:(lia)) as F.
  destruct (body_filter_loop _ max large st [] b) as [[[rc st'] out] b'].
  destruct F as (o & -> & F). exact F.
Qed.

Lemma chunk_length_pos s z : 0 <= z -> 1 <= chunk_length s z.
Proof. destruct s; cbn [chunk_length]; intros; try lia. case_if; lia. Qed.

Lemma ref_entered st : entered (ref_state st) (ref_size st).
Proof. apply entered_enter. Qed.

Lemma feed_spec max large st bufs :
  body_ok st -> b_rest st <> -1 -> (max <> 0 -> b_length st <= max) ->
  let '(rc, st', o, r) := feed max large st bufs in
  let run := brun (ref_state st) (ref_size st) (concat bufs) in
  b_length st' = b_length st + Z.of_nat (length o)
  /\ (max <> 0 -> b_length st' <= max)
  /\ (rc = NGX_DONE -> run = (RDone r, o))
  /\ (forall r' o', run = (RDone r', o') -> (max = 0 \/ b_length st + Z.of_nat (length o') <= max) ->
      rc = NGX_DONE).
Proof.
  revert st; induction bufs as [|b bufs IH]; intros st Hok Hr Hm; cbn [feed concat].
  { rewrite Z.add_0_r. repeat split; auto; discriminate. }
  pose proof (filter_spec max large st b Hok Hr) as F.
  destruct (ngx_http_request_body_chunked_filter max large st b) as [[[rc st1] o] b'].
  destruct F as (F1 & F2 & [(-> & -> & E1 & E2 & E3)|[(-> & E1 & E2)|[(-> & E1)|(-> & E1 & E2)]]]).
  - cbn [Z.eqb Pos.eqb].
    assert (Hr1 : b_rest st1 <> -1).
    { destruct E1 as [E1 _]. pose proof (chunk_length_pos (ref_state st1) (ref_size st1) (proj1 E1)).
      rewrite E3. lia. }
    specialize (IH st1 E1 Hr1 ltac:(auto)).
    destruct (feed max large st1 bufs) as [[[rc2 st2] o2] r].
    destruct IH as (I1 & I2 & I3 & I4). rewrite brun_app, E2.
    destruct (brun (ref_state st1) (ref_size st1) (concat bufs)) as [e2 o3].
    rewrite length_app, Nat2Z.inj_add. split; [lia|]. split; [exact I2|]. split.
    + intros Hd. injection (I3 Hd) as -> ->. reflexivity.
    + intros r' o' R Hb. injection R as -> <-. apply (I4 r' o3 eq_refl).
      rewrite length_app in Hb. lia.
  - cbn [Z.eqb Pos.eqb]. rewrite brun_app, E1. repeat split; auto.
  - cbn. repeat split; auto; [discriminate|]. intros r' o' R. exfalso. exact (E1 _ _ _ R).
  - cbn. repeat split; auto; [discriminate|]. intros r' o' R Hb.
    specialize (E2 _ _ _ R). lia.
Qed.

(** *** The grammar on the reference machine *)

Lemma hex_digit_hexval c : is_byte c -> hex_digit c = Num.hexval c.
Proof. intros H. by_bytes c. Qed.

Lemma brun_go s z ch s' z' l :
  chunk_step false s z ch = Go s' z' -> brun s z (ch :: l) = brun s' z' l.
Proof. intros C. cbn [brun]. unfold bstep. rewrite C. now destruct (brun s' z' l). Qed.

Definition MAX_CHUNK : Z := NGX_MAX_OFF_T_VALUE / 16.

Lemma brun_digits z ds v l :
  wf_bytes ds -> 0 <= z -> Num.hexval_from z ds = Some v -> v <= MAX_CHUNK ->
  brun sw_chunk_size z (ds ++ l) = brun sw_chunk_size v l.
Proof.
  intros Hw. revert z; induction Hw as [|c ds Hc Hw IH]; intros z Hz Hv Hm; cbn [app].
  - injection Hv as ->. reflexivity.
  - cbn [Num.hexval_from] in Hv. destruct (Num.hexval c) as [d|] eqn:D; [|discriminate Hv].
    pose proof (Num.hexval_range c d D). pose proof (Num.hexval_from_ge (z * 16 + d) ds v ltac:(lia) Hv).
    rewrite (brun_go _ _ _ sw_chunk_size (z * 16 + d)).
    + apply IH; [lia|exact Hv|exact Hm].
    + cbn [chunk_step]. unfold chunk_size_step. fold MAX_CHUNK.
      destruct (Z.ltb_spec MAX_CHUNK z); [lia|]. now rewrite hex_digit_hexval, D by exact Hc.
Qed.

Lemma brun_number ds v l :
  wf_bytes ds -> ds <> [] -> Num.hexval_from 0 ds = Some v -> v <= MAX_CHUNK ->
  brun sw_chunk_start 0 (ds ++ l) = brun sw_chunk_size v l.
Proof.
  intros Hw Hn Hv Hm. destruct ds as [|c ds]; [congruence|]. inv_bytes.
  cbn [Num.hexval_from app] in *. destruct (Num.hexval c) as [d|] eqn:D; [|discriminate Hv].
  pose proof (Num.hexval_range c d D).
  rewrite (brun_go _ _ _ sw_chunk_size d).
  - apply brun_digits; [exact Hw|lia|exact Hv|exact Hm].
  - cbn [chunk_step]. now rewrite hex_digit_hexval, D by assumption.
Qed.

(** A run of bytes that are no end of line, in a state that skips them. *)
Lemma brun_skip s z t l :
  (forall c, no_eol c -> chunk_step false s z c = Go s z) -> Forall no_eol t ->
  brun s z (t ++ l) = brun s z l.
Proof.
  intros Hs. induction 1 as [|c t Hc Ht IH]; [reflexivity|]. cbn [app].
  now rewrite (brun_go _ _ _ _ _ _ (Hs c Hc)).
Qed.

Lemma brun_eol s s1 s2 z e l :
  eol e -> chunk_step false s z LF = Go s2 z ->
  chunk_step false s z CR = Go s1 z -> chunk_step false s1 z LF = Go s2 z ->
  brun s z (e ++ l) = brun s2 z l.
Proof.
  intros [-> | ->] H1 H2 H3; cbn [app].
  - now rewrite (brun_go _ _ _ _ _ _ H1).
  - rewrite (brun_go _ _ _ _ _ _ H2). now rewrite (brun_go _ _ _ _ _ _ H3).
Qed.

Lemma chunk_size_byte z ch : z <= MAX_CHUNK -> hex_digit ch = None ->
  chunk_step false sw_chunk_size z ch =
  if z =? 0 then
    if ch =? CR then Go sw_last_chunk_extension_almost_done z
    else if ch =? LF then Go sw_trailer z
    else if ((ch =? ";"%chr) || (ch =? " "%chr) || (ch =? TAB))%bool
    then Go sw_last_chunk_extension z else Invalid
  else
    if ch =? CR then Go sw_chunk_extension_almost_done z
    else if ch =? LF then Go sw_chunk_data z
    else if ((ch =? ";"%chr) || (ch =? " "%chr) || (ch =? TAB))%bool
    then Go sw_chunk_extension z else Invalid.
Proof.
  intros Hz Hd. cbn [chunk_step]. unfold chunk_size_step. fold MAX_CHUNK. rewrite Hd.
  destruct (Z.ltb_spec MAX_CHUNK z); [lia|]. reflexivity.
Qed.

(** The rest of a size line. *)
Lemma brun_size_line z ext e l :
  0 <= z <= MAX_CHUNK -> extension ext -> eol e ->
  brun sw_chunk_size z (ext ++ e ++ l) =
  if z =? 0 then brun sw_trailer z l else brun sw_chunk_data z l.
Proof.
  intros Hz Hx He.
  assert (No : forall s c, no_eol c ->
    s = sw_chunk_extension \/ s = sw_last_chunk_extension -> chunk_step false s z c = Go s z).
  { intros s c [N1 N2] [-> | ->]; cbn [chunk_step];
      (destruct (Z.eqb_spec c CR); [contradiction|]; destruct (Z.eqb_spec c LF); [contradiction|]);
      reflexivity. }
  destruct Hx as [->|(c & t & -> & Hc & Ht)]; cbn [app].
  - destruct (Z.eqb_spec z 0) as [->|N].
    + now apply brun_eol with (s1 := sw_last_chunk_extension_almost_done).
    + apply brun_eol with (s1 := sw_chunk_extension_almost_done); try exact He;
        try reflexivity; rewrite chunk_size_byte by (try reflexivity; lia);
        destruct (Z.eqb_spec z 0); try contradiction; reflexivity.
  - assert (Hh : hex_digit c = None) by (destruct Hc as [->|[->| ->]]; reflexivity).
    assert (Hn : no_eol c) by (unfold no_eol; destruct Hc as [->|[->| ->]]; split; discriminate).
    assert (Ho : ((c =? ";"%chr) || (c =? " "%chr) || (c =? TAB))%bool = true)
      by (destruct Hc as [->|[->| ->]]; reflexivity).
    pose proof (chunk_size_byte z c ltac:(lia) Hh) as S. destruct Hn as [N1 N2].
    destruct (Z.eqb_spec c CR); [contradiction|]. destruct (Z.eqb_spec c LF); [contradiction|].
    rewrite Ho in S. destruct (Z.eqb_spec z 0) as [->|N]; rewrite (brun_go _ _ _ _ _ _ S).
    + rewrite brun_skip by auto. now apply brun_eol with (s1 := sw_last_chunk_extension_almost_done).
    + rewrite brun_skip by auto. now apply brun_eol with (s1 := sw_chunk_extension_almost_done).
Qed.

Lemma brun_chunk c l : chunk_wf c ->
  brun sw_chunk_start 0 (chunk_text c ++ l) =
  let '(e, o) := brun sw_chunk_start 0 l in (e, c_data c ++ o).
Proof.
  intros (Hw & Hn & Hv & Hd & Hx & He & He2). fold MAX_CHUNK in Hd. unfold chunk_text.
  rewrite <- !app_assoc. rewrite (brun_number _ _ _ Hw Hn Hv) by lia.
  rewrite brun_size_line by (try assumption; lia).
  destruct (Z.eqb_spec (Z.of_nat (length (c_data c))) 0); [lia|].
  assert (MAX_CHUNK <= NGX_MAX_OFF_T_VALUE - 5) by (vm_compute; discriminate).
  rewrite brun_data by lia. cbv zeta. rewrite Z.sub_diag.
  change (enter sw_chunk_data 0) with sw_after_data.
  rewrite (brun_eol sw_after_data sw_after_data_almost_done sw_chunk_start);
    [reflexivity|exact He2|reflexivity..].
Qed.

Lemma brun_trailer t l : trailer_wf t ->
  brun sw_trailer 0 ((fst t ++ snd t) ++ l) = brun sw_trailer 0 l.
Proof.
  intros (Hn & Ht & He). destruct t as [[|c t] e]; cbn [fst snd] in *; [congruence|].
  inversion Ht as [|? ? [N1 N2] Ht']; subst. cbn [app]. rewrite <- app_assoc.
  assert (No : forall s d, no_eol d -> s = sw_trailer \/ s = sw_trailer_header ->
    chunk_step false s 0 d = Go sw_trailer_header 0).
  { intros s d [D1 D2] [-> | ->]; cbn [chunk_step];
      (destruct (Z.eqb_spec d CR); [contradiction|]; destruct (Z.eqb_spec d LF); [contradiction|]);
      reflexivity. }
  rewrite (brun_go _ _ _ _ _ _ (No sw_trailer c (conj N1 N2) (or_introl eq_refl))).
  rewrite brun_skip by auto. now apply brun_eol with (s1 := sw_trailer_header_almost_done).
Qed.

Lemma brun_body t rest : body_wf t ->
  brun sw_chunk_start 0 (body_bytes t ++ rest) = (RDone rest, body_data t).
Proof.
  intros (Hc & Hzw & Hzn & Hz & Hx & He & Ht & Hend). unfold body_bytes, body_data.
  rewrite <- !app_assoc. induction Hc as [|c cs Hc Hcs IH]; cbn [map concat app].
  - rewrite (brun_number _ 0 _ Hzw Hzn Hz) by (vm_compute; discriminate).
    assert (H0 : 0 <= 0 <= MAX_CHUNK) by (vm_compute; split; discriminate).
    rewrite brun_size_line by assumption.
    cbn [Z.eqb]. induction Ht as [|t0 ts Ht0 Hts IHt]; cbn [map concat app].
    + destruct Hend as [-> | ->]; reflexivity.
    + rewrite <- app_assoc. rewrite brun_trailer by exact Ht0. exact IHt.
  - rewrite <- app_assoc, brun_chunk by exact Hc. now rewrite IH.
Qed.

(** *** The fewest bytes still to come *)

Lemma chunk_length_step s z ch s' z' o :
  chunk_ok s z -> entered s z -> bstep s z ch = BGo s' z' o ->
  chunk_length s z <= chunk_length s' z' + 1.
Proof.
  intros H E. unfold bstep. destruct (chunk_step false s z ch) as [s1 z1| | |] eqn:C;
    try discriminate.
  - destruct (chunk_step_ok _ _ _ _ _ _ H C) as [[H1 _] _]. intros [= <- <- _].
    destruct H as [H H'].
    destruct s; cbn [chunk_step] in C; unfold chunk_size_step in C;
      try (destruct (hex_digit ch) as [d|] eqn:D; [apply hex_digit_range in D|]);
      repeat case_if_in C; try discriminate C; injection C as <- <-; cbn [chunk_length];
      repeat case_if; lia.
  - case_if; [discriminate|]. intros [= <- <- _]. apply step_data in C as ->.
    unfold entered in E. cbn [is_data andb] in E. destruct H as [H _].
    unfold enter. cbn [is_data andb]. case_if; cbn [chunk_length]; lia.
Qed.

Lemma chunk_length_bound s z l r o :
  chunk_ok s z -> entered s z -> brun s z l = (RDone r, o) ->
  chunk_length s z <= Z.of_nat (length l) - Z.of_nat (length r).
Proof.
  revert s z o; induction l as [|ch l IH]; intros s z o H E; [discriminate|]. cbn [brun].
  destruct (bstep s z ch) as [s1 z1 o1| |] eqn:B; [| |discriminate].
  - pose proof (chunk_length_step _ _ _ _ _ _ H E B).
    assert (K : chunk_ok s1 z1 /\ entered s1 z1).
    { pose proof (brun_ok s z [ch] H E) as P. cbn [brun] in P. rewrite B in P. exact P. }
    destruct K as [H1 E1]. destruct (brun s1 z1 l) as [e o2] eqn:R. intros [= -> _].
    specialize (IH s1 z1 o2 H1 E1 R). cbn [length]. lia.
  - intros [= <- _]. unfold bstep in B. cbn [length]. destruct H as [H H'].
    assert (chunk_length s z <= 1); [|lia].
    destruct s; cbn [chunk_step] in B; unfold chunk_size_step in B;
      try destruct (hex_digit ch); repeat case_if_in B; try discriminate B; cbn [chunk_length]; lia.
Qed.

(** ** Properties *)

Lemma feed_first max large bufs : 0 <= max -> 0 < large ->
  let '(rc, st', o, r) := feed max large first_call bufs in
  let run := brun sw_chunk_start 0 (concat bufs) in
  (max <> 0 -> Z.of_nat (length o) <= max)
  /\ (rc = NGX_DONE -> run = (RDone r, o))
  /\ (forall r' o', run = (RDone r', o') -> (max = 0 \/ Z.of_nat (length o') <= max) ->
      rc = NGX_DONE).
Proof.
  intros Hm Hl. set (st := Body (Chunk sw_chunk_start 0 0) 0 large).
  assert (E : forall b, ngx_http_request_body_chunked_filter max large first_call b
     = ngx_http_request_body_chunked_filter max large st b).
  { intros b. unfold ngx_http_request_body_chunked_filter, st, first_call. cbn [b_rest].
    destruct (Z.eqb_spec large (-1)); [lia|]. reflexivity. }
  assert (F : bufs <> [] -> feed max large first_call bufs = feed max large st bufs).
  { destruct bufs as [|b bufs]; [congruence|]. intros _. cbn [feed]. now rewrite E. }
  destruct bufs as [|b bufs]; [cbn; repeat split; try discriminate; lia|].
  rewrite F by discriminate.
  pose proof (feed_spec max large st (b :: bufs)) as S.
  assert (Hok : body_ok st) by (repeat split; cbn; lia).
  specialize (S Hok ltac:(cbn; lia) ltac:(cbn; lia)).
  destruct (feed max large st (b :: bufs)) as [[[rc st'] o] r].
  destruct S as (S1 & S2 & S3 & S4). cbn [st b_length] in *. rewrite Z.add_0_l in S1.
  split; [rewrite <- S1; exact S2|]. split; [exact S3|]. intros r' o' R B. exact (S4 r' o' R B).
Qed.

(** C33. Reading a chunked request body does not depend on how it arrives: for
    every division of the input into buffers the filter finishes exactly when
    the byte-at-a-time machine does on the whole input, with the same body and
    the same bytes left over, provided the body fits [client_max_body_size];
    and it never lets through more than that size. *)
Theorem chunked_filter_refines max large bufs :
  0 <= max -> 0 < large ->
  let '(rc, _, o, r) := feed max large first_call bufs in
  (max <> 0 -> Z.of_nat (length o) <= max)
  /\ (rc = NGX_DONE -> brun sw_chunk_start 0 (concat bufs) = (RDone r, o))
  /\ (forall r' o', brun sw_chunk_start 0 (concat bufs) = (RDone r', o') ->
      max = 0 \/ Z.of_nat (length o') <= max -> rc = NGX_DONE /\ o = o' /\ r = r').
Proof.
  intros Hm Hl. pose proof (feed_first max large bufs Hm Hl) as F.
  destruct (feed max large first_call bufs) as [[[rc st'] o] r]. destruct F as (F1 & F2 & F3).
  split; [exact F1|]. split; [exact F2|]. intros r' o' R B. pose proof (F3 r' o' R B) as D.
  split; [exact D|]. rewrite (F2 D) in R. injection R as -> ->. auto.
Qed.

Definition sample : body_text :=
  MkBody [MkChunk (bs "3") [] [CR; LF] (bs "abc") [CR; LF];
          MkChunk (bs "0A") (bs ";x=1") [LF] (bs "0123456789") [LF]]
    (bs "00") [] [CR; LF] [(bs "T: v", [CR; LF])] [CR; LF].

Example chunked_filter_refines_witness :
  let '(_, _, o, _) := feed 16 1024 first_call
    [bs "3"; CR :: LF :: bs "ab"; bs "c" ++ [CR; LF]; bs "0" ++ [CR; LF; CR; LF]] in
  Z.of_nat (length o) <= 16.
Proof.
  exact (proj1 (chunked_filter_refines 16 1024
    [bs "3"; CR :: LF :: bs "ab"; bs "c" ++ [CR; LF]; bs "0" ++ [CR; LF; CR; LF]]
    ltac:(lia) ltac:(lia)) ltac:(lia)).
Defined.

(** C34. A well-formed chunked body is decoded: hexadecimal sizes of either
    case, extensions, trailers and either end of line are read, the data of
    the chunks comes out in order, and what follows the body is left; in any
    division into buffers. *)
Theorem chunked_body_decoded t rest bufs max large :
  body_wf t -> 0 < large ->
  max = 0 \/ Z.of_nat (length (body_data t)) <= max -> 0 <= max ->
  concat bufs = body_bytes t ++ rest ->
  exists st, feed max large first_call bufs = (NGX_DONE, st, body_data t, rest).
Proof.
  intros Hw Hl Hm Hm0 Hb. pose proof (feed_first max large bufs Hm0 Hl) as F.
  destruct (feed max large first_call bufs) as [[[rc st'] o] r]. destruct F as (_ & F2 & F3).
  rewrite Hb, brun_body in * by exact Hw. specialize (F3 _ _ eq_refl Hm). subst rc.
  injection (F2 eq_refl) as -> ->. eauto.
Qed.

Lemma sample_wf : body_wf sample.
Proof.
  assert (E1 : eol [LF]) by (left; reflexivity). assert (E2 : eol [CR; LF]) by (right; reflexivity).
  assert (X1 : extension []) by (left; reflexivity).
  assert (X2 : extension (bs ";x=1")).
  { right. exists 59, (bs "x=1"). repeat split; auto; repeat constructor; discriminate. }
  assert (W : forall l, forallb (fun b => (0 <=? b) && (b <? 256))%bool l = true -> wf_bytes l).
  { intros l H. apply Forall_forall. rewrite forallb_forall in H. intros b Hb.
    specialize (H b Hb). byte_lia. }
  unfold body_wf, sample. cbn [bt_chunks bt_zero bt_ext bt_eol bt_trailers bt_end].
  split; [repeat apply Forall_cons; try apply Forall_nil|];
    repeat (split; [try assumption; try discriminate; try (apply W; reflexivity); try reflexivity|]);
    try assumption; try (vm_compute; discriminate).
  repeat constructor; try discriminate; assumption.
Qed.

Example chunked_body_decoded_witness :
  exists st, feed 100 1024 first_call [firstn 9 (body_bytes sample); skipn 9 (body_bytes sample) ++ bs "GET"]
    = (NGX_DONE, st, bs "abc0123456789", bs "GET").
Proof.
  refine (chunked_body_decoded sample (bs "GET") _ 100 1024 sample_wf _ _ _ _);
    [lia|right; vm_compute; discriminate|lia|reflexivity].
Defined.

(** The [length] the parser leaves for its caller is a lower bound: when it
    asks for more, however the body goes on, at least that many bytes come
    before its end, so waiting for them never waits past the request; and the
    sizes it holds stay representable. *)
Theorem chunked_length_bound b ctx ctx' n more r o :
  chunk_ok (state ctx) (size ctx) ->
  ngx_http_parse_chunked b ctx false = (NGX_AGAIN, ctx', n) ->
  0 <= size ctx' <= NGX_MAX_OFF_T_VALUE - 5
  /\ (brun (state ctx') (size ctx') more = (RDone r, o) ->
      length_ ctx' <= Z.of_nat (length more) - Z.of_nat (length r)).
Proof.
  intros H E. pose proof (parse_brun b ctx H) as P. cbv zeta in P. rewrite E in P.
  destruct P as (_ & [(_ & _ & P1 & P2 & P3 & _)|[(D & _)|[(D & _)|(D & _)]]]); try discriminate D.
  split.
  - destruct P1 as [P1 _]. unfold ngx_http_parse_chunked in E.
    destruct (chunk_loop false _ _ b) as [[[e s'] z'] m].
    destruct e as [[| | |]|]; try discriminate E;
      destruct (Z.ltb_spec (NGX_MAX_OFF_T_VALUE - 5) z'); try discriminate E;
      injection E as <- _; cbn [size] in *; lia.
  - intros R. rewrite P3. exact (chunk_length_bound _ _ _ _ _ P1 P2 R).
Qed.

Example chunked_length_bound_witness :
  let '(_, ctx', _) := ngx_http_parse_chunked (bs "1f;") (Chunk sw_chunk_start 0 0) false in
  length_ ctx' = 36 /\ 0 <= size ctx' <= NGX_MAX_OFF_T_VALUE - 5.
Proof.
  split; [reflexivity|].
  refine (proj1 (chunked_length_bound (bs "1f;") (Chunk sw_chunk_start 0 0) _ 3 [] [] [] _ eq_refl)).
  repeat split; cbn; lia.
Defined.

End Chunked.
