(* ===== verification/Uri.v ===== *)
(** * Uri: normalisation of request paths (src/http/ngx_http_parse.c)

    [ngx_http_parse_complex_uri] decodes the percent escapes of a request URI,
    resolves "." and ".." segments and merges slashes while it copies the path
    into [r->uri.data].  The write pointer [u] is the list of the bytes written,
    last one first.  It is related to a specification that decodes, splits the
    path into segments and resolves them on a stack.  [ngx_http_parse_unsafe_uri]
    and [ngx_http_split_args] follow. *)

From S2P Require Import Prelude Escape.

Module Uri.

(** ** Definitions *)

(** [usual]: the characters copied without a second look. *)
Definition usual : list Z :=
  [0x00000000; 0x7fff37d6; 0xffffffff; 0x7fffffff;
   0xffffffff; 0xffffffff; 0xffffffff; 0xffffffff].

Definition is_usual (ch : Z) : bool :=
  negb (Z.land (tbl usual (Z.shiftr ch 5)) (u32 (Z.shiftl 1 (Z.land ch 0x1f))) =? 0).

Definition NGX_HTTP_PARSE_INVALID_REQUEST : Z := 11.

Inductive uri_state : Set :=
| sw_usual | sw_slash | sw_dot | sw_dot_dot | sw_quoted | sw_quoted_second.

(** The local variables and the fields of [r] the loop changes; [uri_ext] is an
    offset in [r->uri.data]. *)
Record uri_vars : Set := Vars {
  st : uri_state; quoted_state : uri_state; decoded : Z; u : list Z;
  uri_ext : option nat; plus_in_uri : bool; quoted_uri : bool }.

(** How a case of the [switch] ends: on to the next character, again with the
    decoded one, at [args], at [done], or refused. *)
Inductive uri_ctl : Set :=
| Next (v : uri_vars)
| Again (v : uri_vars) (ch : Z)
| Args (v : uri_vars)
| Done (v : uri_vars)
| Bad.

Definition goto (v : uri_vars) (s : uri_state) : uri_vars :=
  Vars s (quoted_state v) (decoded v) (u v) (uri_ext v) (plus_in_uri v) (quoted_uri v).

Definition write (v : uri_vars) (s : uri_state) (ch : Z) : uri_vars :=
  Vars s (quoted_state v) (decoded v) (ch :: u v) (uri_ext v) (plus_in_uri v) (quoted_uri v).

(** [u--] and more *)
Definition back (v : uri_vars) (s : uri_state) (u' : list Z) : uri_vars :=
  Vars s (quoted_state v) (decoded v) u' (uri_ext v) (plus_in_uri v) (quoted_uri v).

Definition set_ext (v : uri_vars) (e : option nat) : uri_vars :=
  Vars (st v) (quoted_state v) (decoded v) (u v) e (plus_in_uri v) (quoted_uri v).

Definition set_plus (v : uri_vars) : uri_vars :=
  Vars (st v) (quoted_state v) (decoded v) (u v) (uri_ext v) true (quoted_uri v).

(** [quoted_state = state; state = sw_quoted;] *)
Definition quote (v : uri_vars) : uri_vars :=
  Vars sw_quoted (st v) (decoded v) (u v) (uri_ext v) (plus_in_uri v) (quoted_uri v).

Definition usual_step (v : uri_vars) (ch : Z) : uri_ctl :=
  if is_usual ch then Next (write v sw_usual ch)
  else if ch =? "/"%chr then Next (write (set_ext v None) sw_slash ch)
  else if ch =? "%"%chr then Next (quote v)
  else if ch =? "?"%chr then Args v
  else if ch =? "#"%chr then Done v
  else if ch =? "."%chr then Next (write (set_ext v (Some (S (length (u v))))) sw_usual ch)
  else if ch =? "+"%chr then Next (write (set_plus v) sw_usual ch)
  else Next (write v sw_usual ch).

Definition slash_step (merge_slashes : bool) (v : uri_vars) (ch : Z) : uri_ctl :=
  if is_usual ch then Next (write v sw_usual ch)
  else if ch =? "/"%chr then Next (if merge_slashes then v else write v sw_slash ch)
  else if ch =? "."%chr then Next (write v sw_dot ch)
  else if ch =? "%"%chr then Next (quote v)
  else if ch =? "?"%chr then Args v
  else if ch =? "#"%chr then Done v
  else if ch =? "+"%chr then Next (write (set_plus v) sw_usual ch)
  else Next (write v sw_usual ch).

Definition dot_step (v : uri_vars) (ch : Z) : uri_ctl :=
  if is_usual ch then Next (write v sw_usual ch)
  else if ch =? "/"%chr then Next (back v sw_slash (tl (u v)))
  else if ch =? "."%chr then Next (write v sw_dot_dot ch)
  else if ch =? "%"%chr then Next (quote v)
  else if ch =? "?"%chr then Args (back v sw_dot (tl (u v)))
  else if ch =? "#"%chr then Done (back v sw_dot (tl (u v)))
  else if ch =? "+"%chr then Next (write (set_plus v) sw_usual ch)
  else Next (write v sw_usual ch).

(** [u -= 4] and the loop down to the slash; [None] is [u < r->uri.data]. *)
Fixpoint to_slash (l : list Z) : option (list Z) :=
  match l with
  | [] => None
  | c :: l' => if c =? "/"%chr then Some l else to_slash l'
  end.

Definition up_dir (l : list Z) : option (list Z) := to_slash (skipn 3 l).

Definition dot_dot_step (v : uri_vars) (ch : Z) : uri_ctl :=
  if is_usual ch then Next (write v sw_usual ch)
  else if ((ch =? "/"%chr) || (ch =? "?"%chr) || (ch =? "#"%chr))%bool then
    match up_dir (u v) with
    | None => Bad
    | Some u' =>
        if ch =? "?"%chr then Args (back v (st v) u')
        else if ch =? "#"%chr then Done (back v (st v) u')
        else Next (back v sw_slash u')
    end
  else if ch =? "%"%chr then Next (quote v)
  else if ch =? "+"%chr then Next (write (set_plus v) sw_usual ch)
  else Next (write v sw_usual ch).

Definition decode_to (v : uri_vars) (d : Z) : uri_vars :=
  Vars sw_quoted_second (quoted_state v) d (u v) (uri_ext v) (plus_in_uri v) true.

Definition quoted_step (v : uri_vars) (ch : Z) : uri_ctl :=
  if (("0"%chr <=? ch) && (ch <=? "9"%chr))%bool then Next (decode_to v (u8 (ch - "0"%chr)))
  else
    let c := u8 (Z.lor ch 0x20) in
    if (("a"%chr <=? c) && (c <=? "f"%chr))%bool
    then Next (decode_to v (u8 (c - "a"%chr + 10)))
    else Bad.

Definition quoted_second_step (v : uri_vars) (ch : Z) : uri_ctl :=
  if (("0"%chr <=? ch) && (ch <=? "9"%chr))%bool then
    let ch := u8 (Z.shiftl (decoded v) 4 + (ch - "0"%chr)) in
    if ((ch =? "%"%chr) || (ch =? "#"%chr))%bool then Next (write v sw_usual ch)
    else if ch =? 0 then Bad
    else Again (goto v (quoted_state v)) ch
  else
    let c := u8 (Z.lor ch 0x20) in
    if (("a"%chr <=? c) && (c <=? "f"%chr))%bool then
      let ch := u8 (Z.shiftl (decoded v) 4 + (c - "a"%chr) + 10) in
      if ch =? "?"%chr then Next (write v sw_usual ch)
      else if ch =? "+"%chr then Again (goto (set_plus v) (quoted_state v)) ch
      else Again (goto v (quoted_state v)) ch
    else Bad.

Definition uri_step (merge_slashes : bool) (v : uri_vars) (ch : Z) : uri_ctl :=
  match st v with
  | sw_usual => usual_step v ch
  | sw_slash => slash_step merge_slashes v ch
  | sw_dot => dot_step v ch
  | sw_dot_dot => dot_dot_step v ch
  | sw_quoted => quoted_step v ch
  | sw_quoted_second => quoted_second_step v ch
  end.

(** [r->uri], [r->exten], and the arguments: [args_start] with what follows it,
    or the complete [r->args] when a fragment ends them. *)
Record uri_result : Set := Result {
  r_uri : list Z; r_exten : option (list Z); r_args_start : option (list Z);
  r_args : option (list Z); r_plus : bool; r_quoted : bool }.

Definition finish (v : uri_vars) (args_start args : option (list Z)) : uri_result :=
  let path := rev (u v) in
  Result path (option_map (fun e => skipn e path) (uri_ext v)) args_start args
    (plus_in_uri v) (quoted_uri v).

(** The [args] label: up to a fragment. *)
Fixpoint before_hash (l : list Z) : option (list Z) :=
  match l with
  | [] => None
  | c :: l' => if c =? "#"%chr then Some [] else option_map (cons c) (before_hash l')
  end.

Definition finish_args (v : uri_vars) (rest : list Z) : uri_result :=
  match before_hash rest with
  | Some a => finish v None (Some a)
  | None => finish v (Some rest) None
  end.

(** After the loop. *)
Definition uri_end (v : uri_vars) : option uri_result :=
  match st v with
  | sw_quoted | sw_quoted_second => None
  | sw_dot => Some (finish (back v sw_dot (tl (u v))) None None)
  | sw_dot_dot =>
      match up_dir (u v) with
      | None => None
      | Some u' => Some (finish (back v sw_dot_dot u') None None)
      end
  | _ => Some (finish v None None)
  end.

(** The loop.  [l] is what is left from the current character; a decoded
    character is looked at once more, in the state the escape began in. *)
Fixpoint uri_loop (merge_slashes : bool) (v : uri_vars) (l : list Z) : option uri_result :=
  match l with
  | [] => uri_end v
  | ch :: l' =>
      let ctl := match uri_step merge_slashes v ch with
                 | Again v' ch' => uri_step merge_slashes v' ch'
                 | c => c
                 end in
      match ctl with
      | Next v' => uri_loop merge_slashes v' l'
      | Args v' => Some (finish_args v' l')
      | Done v' => Some (finish v' None None)
      | Again _ _ | Bad => None
      end
  end.

(** [uri] is the text from [r->uri_start] to [r->uri_end]; [plus] the flag the
    request line left.  [None] is [NGX_HTTP_PARSE_INVALID_REQUEST]. *)
Definition ngx_http_parse_complex_uri (uri : list Z) (empty_path_in_uri plus quoted : bool)
    (merge_slashes : bool) : option uri_result :=
  uri_loop merge_slashes
    (Vars sw_usual sw_usual 0 (if empty_path_in_uri then ["/"%chr] else []) None plus quoted) uri.

(** [ngx_path_separator], and "p[0] == '.' && p[1] == '.'" up to a separator or
    the end of the text. *)
Definition ngx_path_separator (c : Z) : bool := c =? "/"%chr.

Definition up_at (p : list Z) : bool :=
  match p with
  | a :: b :: p' =>
      ((a =? "."%chr) && (b =? "."%chr)
       && match p' with [] => true | c :: _ => ngx_path_separator c end)%bool
  | _ => false
  end.

(** The first loop of [ngx_http_parse_unsafe_uri]: the number of bytes before
    the question mark, what follows it, and [quoted]; [None] is [unsafe]. *)
Fixpoint unsafe_scan (l : list Z) (n : nat) (quoted : bool)
  : option (nat * option (list Z) * bool) :=
  match l with
  | [] => Some (n, None, quoted)
  | ch :: p =>
      if ch =? "%"%chr then unsafe_scan p (S n) true
      else if is_usual ch then unsafe_scan p (S n) quoted
      else if ch =? "?"%chr then Some (n, Some p, quoted)
      else if ch =? 0 then None
      else if (ngx_path_separator ch && (2 <? Z.of_nat (length l)) && up_at p)%bool then None
      else unsafe_scan p (S n) quoted
  end.

(** The second loop, over the decoded text. *)
Fixpoint unsafe_rescan (l : list Z) : bool :=
  match l with
  | [] => false
  | ch :: p =>
      if ch =? 0 then true
      else if (ngx_path_separator ch && (2 <? Z.of_nat (length l)) && up_at p)%bool then true
      else unsafe_rescan p
  end.

(** The new [uri], and [args] when the call sets it; [None] is [NGX_ERROR].
    [pnalloc] tells whether the pool has the memory for the decoded text. *)
Definition ngx_http_parse_unsafe_uri (pnalloc : bool) (uri : list Z)
  : option (list Z * option (list Z)) :=
  if (match uri with [] => true | c :: _ => c =? "?"%chr end || up_at uri)%bool then None
  else
    match unsafe_scan uri 0 false with
    | None => None
    | Some (len, args, quoted) =>
        let path := firstn len uri in
        if quoted then
          if pnalloc then
            let '(dst, _) := Escape.ngx_unescape_uri path 0 in
            if (up_at dst || unsafe_rescan dst)%bool then None else Some (dst, args)
          else None
        else Some (path, args)
    end.

(** [ngx_http_split_args]: [uri] and [args]. *)
Fixpoint ngx_http_split_args (uri : list Z) : list Z * list Z :=
  match uri with
  | [] => ([], [])
  | c :: p =>
      if c =? "?"%chr then ([], p)
      else let '(u, a) := ngx_http_split_args p in (c :: u, a)
  end.

(** ** Specifications *)

Definition hexval (ch : Z) : option Z :=
  if (("0"%chr <=? ch) && (ch <=? "9"%chr))%bool then Some (ch - "0"%chr)
  else if (("a"%chr <=? ch) && (ch <=? "f"%chr))%bool then Some (ch - "a"%chr + 10)
  else if (("A"%chr <=? ch) && (ch <=? "F"%chr))%bool then Some (ch - "A"%chr + 10)
  else None.

(** What ends the path. *)
Inductive path_end : Set := AtEnd | AtArgs (rest : list Z) | AtHash.

(** The decoded path of a URI text; a NUL or a broken escape has none. *)
Fixpoint path_decode (l : list Z) : option (list Z * path_end) :=
  match l with
  | [] => Some ([], AtEnd)
  | c :: l' =>
      if c =? "?"%chr then Some ([], AtArgs l')
      else if c =? "#"%chr then Some ([], AtHash)
      else if c =? "%"%chr then
        match l' with
        | a :: b :: l'' =>
            match hexval a, hexval b, path_decode l'' with
            | Some x, Some y, Some (p, e) =>
                if x * 16 + y =? 0 then None else Some (x * 16 + y :: p, e)
            | _, _, _ => None
            end
        | _ => None
        end
      else match path_decode l' with
           | Some (p, e) => Some (c :: p, e)
           | None => None
           end
  end.

(** Segment by segment: [stack] holds the segments kept so far, the last one
    first, [cur] the segment being read. *)
Definition is_dot (s : list Z) : bool :=
  match s with [a] => a =? "."%chr | _ => false end.
Definition is_dot_dot (s : list Z) : bool :=
  match s with [a; b] => (a =? "."%chr) && (b =? "."%chr) | _ => false end%bool.

(** A segment followed by a slash: "." is dropped, ".." drops the segment
    before it and fails when there is none, an empty one is dropped when
    slashes are merged. *)
Definition push (merge : bool) (stack : list (list Z)) (cur : list Z)
  : option (list (list Z)) :=
  if is_dot cur then Some stack
  else if is_dot_dot cur then match stack with [] => None | _ :: stack' => Some stack' end
  else if (is_nil cur && merge)%bool then Some stack
  else Some (cur :: stack).

(** The last segment, which has no slash after it. *)
Definition close (stack : list (list Z)) (cur : list Z) : option (list (list Z) * list Z) :=
  if is_dot cur then Some (stack, [])
  else if is_dot_dot cur then match stack with [] => None | _ :: stack' => Some (stack', []) end
  else Some (stack, cur).

Fixpoint resolve (merge : bool) (stack : list (list Z)) (cur : list Z) (l : list Z)
  : option (list (list Z) * list Z) :=
  match l with
  | [] => close stack cur
  | c :: l' =>
      if c =? "/"%chr then
        match push merge stack cur with
        | Some stack' => resolve merge stack' [] l'
        | None => None
        end
      else resolve merge stack (cur ++ [c]) l'
  end.

(** A path is a slash, the segments of the stack each with its slash, and the
    last segment. *)
Definition render (stack : list (list Z)) (cur : list Z) : list Z :=
  "/"%chr :: concat (map (fun s => s ++ ["/"%chr]) (rev stack)) ++ cur.

Definition normalize (merge : bool) (path : list Z) : option (list Z) :=
  match path with
  | c :: l =>
      if c =? "/"%chr
      then option_map (fun sc => render (fst sc) (snd sc)) (resolve merge [] [] l)
      else None
  | [] => None
  end.

(** ** Lemmas *)

Lemma usual_special c : is_byte c -> is_usual c = true ->
  c <> "/"%chr /\ c <> "."%chr /\ c <> "%"%chr /\ c <> "?"%chr /\ c <> "#"%chr /\ c <> "+"%chr.
Proof.
  intros H E.
  assert (F : (negb (is_usual c) || negb ((c =? "/"%chr) || (c =? "."%chr) || (c =? "%"%chr)
    || (c =? "?"%chr) || (c =? "#"%chr) || (c =? "+"%chr)))%bool = true) by by_bytes c.
  rewrite E in F. cbn [negb orb] in F. lia.
Qed.

(** The state a segment in progress puts the machine in. *)
Definition state_of (cur : list Z) : uri_state :=
  if is_nil cur then sw_slash
  else if is_dot cur then sw_dot
  else if is_dot_dot cur then sw_dot_dot
  else sw_usual.

(** The bytes written for a stack and a segment, last one first. *)
Definition written (stack : list (list Z)) (cur : list Z) : list Z := rev (render stack cur).

Definition no_slash (s : list Z) : Prop := Forall (fun c => c <> "/"%chr) s.
Definition stack_ok (stack : list (list Z)) : Prop := Forall no_slash stack.

Lemma render_snoc stack cur c : render stack (cur ++ [c]) = render stack cur ++ [c].
Proof. unfold render. now rewrite app_assoc, app_comm_cons. Qed.

Lemma written_snoc stack cur c : written stack (cur ++ [c]) = c :: written stack cur.
Proof. unfold written. rewrite render_snoc. apply rev_unit. Qed.

Lemma render_push stack cur : render (cur :: stack) [] = render stack (cur ++ ["/"%chr]).
Proof.
  unfold render. cbn [rev]. rewrite map_app, concat_app. cbn [map concat].
  now rewrite !app_nil_r.
Qed.

Lemma written_push stack cur : written (cur :: stack) [] = "/"%chr :: written stack cur.
Proof. unfold written. now rewrite render_push, render_snoc, rev_unit. Qed.

Lemma written_app stack cur : written stack cur = rev cur ++ written stack [].
Proof.
  unfold written, render. rewrite app_nil_r. cbn [rev]. rewrite rev_app_distr.
  now rewrite app_assoc.
Qed.

Lemma written_top stack : exists l, written stack [] = "/"%chr :: l.
Proof.
  destruct stack as [|s stack]; [now exists []|]. rewrite written_push. eauto.
Qed.

Lemma to_slash_app s l : no_slash s -> to_slash (rev s ++ "/"%chr :: l) = Some ("/"%chr :: l).
Proof.
  intros H. assert (G : no_slash (rev s)) by now apply Forall_rev.
  induction G as [|c t Hc Ht IH]; [reflexivity|]. cbn [app to_slash].
  destruct (Z.eqb_spec c 47); [contradiction|exact IH].
Qed.

(** ".." goes back over the segment before it. *)
Lemma up_dir_written stack : stack_ok stack ->
  up_dir (written stack ["."%chr; "."%chr]) =
  match stack with [] => None | _ :: stack' => Some (written stack' []) end.
Proof.
  intros H. rewrite written_app. unfold up_dir. cbn [rev app].
  destruct stack as [|s stack]; [reflexivity|]. rewrite written_push. cbn [skipn].
  rewrite written_app. destruct (written_top stack) as (l & ->).
  apply to_slash_app. now inversion H.
Qed.

(** The machine has written [stack] and [cur]; an extension starts after a dot
    of a segment that is no dot segment. *)
Definition ext_ok (v : uri_vars) (stack : list (list Z)) (cur : list Z) : Prop :=
  forall e, uri_ext v = Some e ->
    state_of cur = sw_usual
    /\ exists pre ex, cur = pre ++ "."%chr :: ex /\ e = S (length (render stack pre)).

Definition in_path (v : uri_vars) (stack : list (list Z)) (cur : list Z) : Prop :=
  u v = written stack cur /\ st v = state_of cur /\ stack_ok stack /\ no_slash cur
  /\ ext_ok v stack cur.

Lemma state_of_snoc cur c : c <> "."%chr -> state_of (cur ++ [c]) = sw_usual.
Proof.
  intros H. unfold state_of. destruct cur as [|a [|b cur]]; cbn.
  - destruct (Z.eqb_spec c 46); [contradiction|reflexivity].
  - destruct (Z.eqb_spec c 46); [contradiction|]. now rewrite andb_false_r.
  - destruct (cur ++ [c]) eqn:E; [destruct cur; discriminate E|reflexivity].
Qed.

Lemma state_of_dot cur :
  state_of (cur ++ ["."%chr]) =
  match state_of cur with sw_slash => sw_dot | sw_dot => sw_dot_dot | _ => sw_usual end.
Proof.
  unfold state_of. destruct cur as [|a [|b cur]]; [reflexivity| |].
  - cbn. destruct (a =? 46); reflexivity.
  - cbn. destruct cur as [|d cur]; [destruct ((a =? 46) && (b =? 46))%bool; reflexivity|].
    reflexivity.
Qed.

(** Appending a byte that is no slash. *)
Lemma in_path_write v stack cur c s :
  in_path v stack cur -> c <> "/"%chr -> s = state_of (cur ++ [c]) ->
  (state_of cur = sw_usual -> s = sw_usual) ->
  in_path (write v s c) stack (cur ++ [c]).
Proof.
  intros (Hu & Hs & Hk & Hn & He) Hc -> Hm. unfold in_path, write. cbn [u st].
  rewrite written_snoc, Hu. repeat split; auto.
  - apply Forall_app. split; [exact Hn|]. constructor; [exact Hc|constructor].
  - apply Hm. exact (proj1 (He e H)).
  - destruct (He e H) as (_ & pre & ex & -> & ->). exists pre, (ex ++ [c]).
    now rewrite <- app_assoc.
Qed.

Lemma in_path_plus v stack cur : in_path v stack cur -> in_path (set_plus v) stack cur.
Proof. intros H. exact H. Qed.

Lemma in_path_goto v stack cur :
  in_path v stack cur -> forall q d p b,
  in_path (Vars (state_of cur) q d (u v) (uri_ext v) p b) stack cur.
Proof. intros (Hu & Hs & Hk & Hn & He) q d p b. repeat split; auto; apply (He e H). Qed.

(** In a state of dots or at a slash there is no extension. *)
Lemma ext_none v stack cur : in_path v stack cur -> state_of cur <> sw_usual -> uri_ext v = None.
Proof.
  intros (_ & _ & _ & _ & He) H. destruct (uri_ext v) as [e|] eqn:E; [|reflexivity].
  destruct (He e E) as [F _]. contradiction.
Qed.

(** What one path character does in the specification. *)
Definition feed_char (merge : bool) (stack : list (list Z)) (cur : list Z) (c : Z)
  : option (list (list Z) * list Z) :=
  if c =? "/"%chr then option_map (fun s => (s, [])) (push merge stack cur)
  else Some (stack, cur ++ [c]).

Lemma resolve_feed merge stack cur c p :
  resolve merge stack cur (c :: p) =
  match feed_char merge stack cur c with
  | Some (s, c') => resolve merge s c' p
  | None => None
  end.
Proof.
  cbn [resolve]. unfold feed_char. case_if; [|reflexivity].
  now destruct (push merge stack cur).
Qed.

Lemma state_cases cur :
  (cur = [] /\ state_of cur = sw_slash) \/ (cur = ["."%chr] /\ state_of cur = sw_dot)
  \/ (cur = ["."%chr; "."%chr] /\ state_of cur = sw_dot_dot)
  \/ (state_of cur = sw_usual /\ is_nil cur = false /\ is_dot cur = false /\ is_dot_dot cur = false).
Proof.
  unfold state_of. destruct cur as [|a [|b [|d cur]]]; cbn.
  - auto.
  - destruct (Z.eqb_spec a 46) as [->|]; auto 10.
  - destruct (Z.eqb_spec a 46) as [->|]; cbn [andb]; [|auto 10].
    destruct (Z.eqb_spec b 46) as [->|]; auto 10.
  - auto 10.
Qed.

Lemma stack_push merge stack cur stack' :
  stack_ok stack -> no_slash cur -> push merge stack cur = Some stack' -> stack_ok stack'.
Proof.
  intros Hk Hn. unfold push. repeat case_if; try (intros [= <-]; auto; fail).
  - destruct stack; [discriminate|]. intros [= <-]. now inversion Hk.
  - intros [= <-]. now constructor.
Qed.

(** The four path states on a slash. *)
Lemma slash_step_spec merge v stack cur :
  in_path v stack cur ->
  match push merge stack cur with
  | None => uri_step merge v "/"%chr = Bad
  | Some stack' => exists v', uri_step merge v "/"%chr = Next v' /\ in_path v' stack' []
  end.
Proof.
  intros H. pose proof H as (Hu & Hs & Hk & Hn & _).
  assert (N : forall v' stack', u v' = written stack' [] -> st v' = sw_slash ->
    push merge stack cur = Some stack' -> uri_ext v' = None -> in_path v' stack' []).
  { intros v' stack' E1 E2 E3 E4. repeat split; auto.
    - eapply stack_push; eauto.
    - constructor.
    - rewrite E4 in H0. discriminate H0.
    - rewrite E4 in H0. discriminate H0. }
  unfold uri_step. rewrite Hs.
  destruct (state_cases cur) as [(-> & E)|[(-> & E)|[(-> & E)|(E & F1 & F2 & F3)]]]; rewrite E.
  - unfold push, slash_step. cbn [is_dot is_dot_dot is_nil andb Z.eqb Pos.eqb].
    change (is_usual 47) with false. pose proof (ext_none _ _ _ H ltac:(discriminate)) as X.
    destruct merge; (eexists; split; [reflexivity|]); [exact H|].
    apply N; [|reflexivity|reflexivity|exact X]. cbn [u write]. now rewrite Hu, written_push.
  - unfold push, dot_step. cbn [is_dot is_dot_dot is_nil andb Z.eqb Pos.eqb].
    change (is_usual 47) with false. eexists; split; [reflexivity|].
    pose proof (ext_none _ _ _ H ltac:(discriminate)) as X.
    apply N; [|reflexivity|reflexivity|exact X]. cbn [u back]. rewrite Hu.
    now rewrite written_app.
  - unfold dot_dot_step. change (is_usual 47) with false. cbn [Z.eqb Pos.eqb orb].
    rewrite Hu, up_dir_written by exact Hk. unfold push. cbn [is_dot is_dot_dot Z.eqb Pos.eqb andb].
    destruct stack as [|s stack]; [reflexivity|]. eexists; split; [reflexivity|].
    pose proof (ext_none _ _ _ H ltac:(discriminate)) as X.
    apply N; [reflexivity|reflexivity|reflexivity|exact X].
  - assert (P : push merge stack cur = Some (cur :: stack)).
    { unfold push. now rewrite F1, F2, F3. }
    rewrite P. unfold usual_step. change (is_usual 47) with false. cbn [Z.eqb Pos.eqb].
    eexists; split; [reflexivity|].
    apply N; [|reflexivity|exact P|reflexivity]. cbn [u write set_ext]. now rewrite Hu, written_push.
Qed.

Lemma char_step_spec merge v stack cur c :
  in_path v stack cur -> is_byte c -> c <> "%"%chr -> c <> "?"%chr -> c <> "#"%chr ->
  match feed_char merge stack cur c with
  | None => uri_step merge v c = Bad
  | Some (s, c') => exists v', uri_step merge v c = Next v' /\ in_path v' s c'
  end.
Proof.
  intros H Hb N1 N2 N3. unfold feed_char. destruct (Z.eqb_spec c 47) as [->|N4].
  { pose proof (slash_step_spec merge v stack cur H) as S.
    destruct (push merge stack cur); exact S. }
  pose proof H as (Hu & Hs & Hk & Hn & He).
  assert (W : c <> "."%chr -> forall v', in_path v' stack cur ->
    in_path (write v' sw_usual c) stack (cur ++ [c])).
  { intros Nd v' H'. apply in_path_write; auto. now rewrite state_of_snoc. }
  assert (D : forall s, c = "."%chr -> s = state_of (cur ++ [c]) ->
    (state_of cur = sw_usual -> s = sw_usual) -> in_path (write v s c) stack (cur ++ [c])).
  { intros s _ E F. now apply in_path_write. }
  destruct (is_usual c) eqn:Eu.
  { pose proof (usual_special c Hb Eu) as (_ & Nd & _). exists (write v sw_usual c).
    split; [|now apply W]. unfold uri_step. rewrite Hs.
    destruct (state_of cur) eqn:E; unfold usual_step, slash_step, dot_step, dot_dot_step;
      rewrite ?Eu; try reflexivity;
      destruct (state_cases cur) as [(_ & F)|[(_ & F)|[(_ & F)|(F & _)]]]; congruence. }
  unfold uri_step. rewrite Hs.
  destruct (Z.eq_dec c "."%chr) as [->|Nd].
  - pose proof (state_of_dot cur) as Sd.
    destruct (state_cases cur) as [(-> & E)|[(-> & E)|[(-> & E)|(E & F1 & F2 & F3)]]];
      rewrite E in *; unfold usual_step, slash_step, dot_step, dot_dot_step; rewrite Eu;
      cbn [Z.eqb Pos.eqb orb]; (eexists; split; [reflexivity|]).
    + apply D; [reflexivity|now rewrite Sd|discriminate].
    + apply D; [reflexivity|now rewrite Sd|discriminate].
    + apply D; [reflexivity|now rewrite Sd|discriminate].
    + split; [cbn [u write set_ext]; now rewrite written_snoc, Hu|].
      split; [cbn [st write]; now rewrite Sd|]. split; [exact Hk|]. split.
      * apply Forall_app. split; [exact Hn|]. constructor; [discriminate|constructor].
      * intros e. cbn [uri_ext write set_ext]. intros [= <-]. split; [exact Sd|].
        exists cur, []. split; [reflexivity|]. f_equal. rewrite Hu. unfold written. apply length_rev.
  - destruct (state_cases cur) as [(-> & E)|[(-> & E)|[(-> & E)|(E & F1 & F2 & F3)]]];
      rewrite E in *; unfold usual_step, slash_step, dot_step, dot_dot_step; rewrite Eu;
      repeat match goal with |- context [c =? ?k] =>
        destruct (Z.eqb_spec c k); [try contradiction|] end; cbn [orb];
      (eexists; split; [reflexivity|]); apply W; auto; now apply in_path_plus.
Qed.

(** The result for a path and what follows it. *)
Definition result_ok (r : uri_result) (path : list Z) (e : path_end) : Prop :=
  r_uri r = path
  /\ (r_exten r = None \/ exists pre ex, r_exten r = Some ex /\ path = pre ++ "."%chr :: ex
                                         /\ no_slash ex)
  /\ match e with
     | AtArgs rest =>
         match before_hash rest with
         | Some a => r_args r = Some a /\ r_args_start r = None
         | None => r_args r = None /\ r_args_start r = Some rest
         end
     | _ => r_args r = None /\ r_args_start r = None
     end.

(** The end of the path, as the three exits of the machine compute it. *)
Lemma finish_spec v stack cur a b :
  u v = written stack cur -> no_slash cur ->
  (forall e, uri_ext v = Some e ->
     exists pre ex, cur = pre ++ "."%chr :: ex /\ e = S (length (render stack pre))) ->
  r_uri (finish v a b) = render stack cur
  /\ (r_exten (finish v a b) = None \/
      exists pre ex, r_exten (finish v a b) = Some ex /\ render stack cur = pre ++ "."%chr :: ex
                     /\ no_slash ex).
Proof.
  intros Hu Hn He. unfold finish. cbn [r_uri r_exten]. rewrite Hu. unfold written at 1.
  rewrite rev_involutive. split; [reflexivity|]. destruct (uri_ext v) as [e|]; [right|now left].
  destruct (He e eq_refl) as (pre & ex & -> & ->). exists (render stack pre), ex.
  assert (R : render stack (pre ++ "."%chr :: ex) = render stack pre ++ "."%chr :: ex).
  { unfold render. cbn [app]. now rewrite <- app_assoc. }
  cbn [option_map]. unfold written. rewrite rev_involutive, R. split; [|split; [reflexivity|]].
  - f_equal. replace (S (length (render stack pre))) with (length (render stack pre) + 1)%nat by lia.
    rewrite skipn_app, skipn_all2 by lia.
    now replace (length (render stack pre) + 1 - length (render stack pre))%nat with 1%nat by lia.
  - apply Forall_app in Hn as [_ Hn]. now inversion Hn.
Qed.

(** Where the machine stops the path: [done], [args], or the end of the text. *)
Definition stop (v : uri_vars) : option uri_vars :=
  match st v with
  | sw_quoted | sw_quoted_second => None
  | sw_dot => Some (back v sw_dot (tl (u v)))
  | sw_dot_dot => option_map (back v sw_dot_dot) (up_dir (u v))
  | _ => Some v
  end.

Lemma stop_spec v stack cur : in_path v stack cur ->
  match close stack cur with
  | None => stop v = None
  | Some (s, c) => exists v', stop v = Some v' /\ u v' = written s c /\ no_slash c
      /\ forall e, uri_ext v' = Some e ->
         exists pre ex, c = pre ++ "."%chr :: ex /\ e = S (length (render s pre))
  end.
Proof.
  intros H. pose proof H as (Hu & Hs & Hk & Hn & He). unfold stop. rewrite Hs.
  assert (X : forall s c v', uri_ext v' = uri_ext v -> state_of cur <> sw_usual ->
    forall e, uri_ext v' = Some e ->
    exists pre ex, c = pre ++ "."%chr :: ex /\ e = S (length (render s pre))).
  { intros s c v' E N e. rewrite E, (ext_none _ _ _ H N). discriminate. }
  destruct (state_cases cur) as [(-> & E)|[(-> & E)|[(-> & E)|(E & F1 & F2 & F3)]]]; rewrite E.
  - cbn [close is_dot is_dot_dot]. exists v. repeat split; auto. apply X; [reflexivity|now rewrite E].
  - unfold close. cbn [is_dot Z.eqb Pos.eqb]. eexists. split; [reflexivity|].
    split; [cbn [u back]; rewrite Hu, written_app; reflexivity|]. split; [constructor|].
    apply X; [reflexivity|rewrite E; discriminate].
  - unfold close. cbn [is_dot is_dot_dot Z.eqb Pos.eqb andb]. rewrite Hu, up_dir_written by exact Hk.
    destruct stack as [|s stack]; [reflexivity|]. eexists. split; [reflexivity|].
    split; [reflexivity|]. split; [constructor|]. apply X; [reflexivity|rewrite E; discriminate].
  - unfold close. rewrite F2, F3. exists v. repeat split; auto. intros e Ee. exact (proj2 (He e Ee)).
Qed.

Lemma step_question merge v stack cur : in_path v stack cur ->
  uri_step merge v "?"%chr = match stop v with Some v' => Args v' | None => Bad end
  /\ uri_step merge v "#"%chr = match stop v with Some v' => Done v' | None => Bad end
  /\ uri_step merge v "%"%chr = Next (quote v)
  /\ uri_end v = option_map (fun v' => finish v' None None) (stop v).
Proof.
  intros (Hu & Hs & _). unfold uri_step, stop, uri_end. rewrite Hs.
  destruct (state_cases cur) as [(_ & E)|[(_ & E)|[(_ & E)|(E & _)]]]; rewrite E;
    repeat split; try reflexivity;
    unfold dot_dot_step; rewrite ?Hs, ?E;
    change (is_usual "?"%chr) with false; change (is_usual "#"%chr) with false;
    cbn [Z.eqb Pos.eqb orb]; destruct (up_dir (u v)); reflexivity.
Qed.

(** The two digits of an escape. *)
Lemma quoted_step_spec v a : is_byte a ->
  quoted_step v a =
  match hexval a with Some x => Next (decode_to v x) | None => Bad end
  /\ forall x, hexval a = Some x -> 0 <= x < 16.
Proof.
  intros H.
  assert (E : (match hexval a with
               | Some x =>
                   ((("0"%chr <=? a) && (a <=? "9"%chr) && (u8 (a - "0"%chr) =? x))
                    || (negb (("0"%chr <=? a) && (a <=? "9"%chr))
                        && (("a"%chr <=? u8 (Z.lor a 0x20)) && (u8 (Z.lor a 0x20) <=? "f"%chr))
                        && (u8 (u8 (Z.lor a 0x20) - "a"%chr + 10) =? x)))
                   && (0 <=? x) && (x <? 16)
               | None => negb (("0"%chr <=? a) && (a <=? "9"%chr))
                         && negb (("a"%chr <=? u8 (Z.lor a 0x20)) && (u8 (Z.lor a 0x20) <=? "f"%chr))
               end)%bool = true) by by_bytes a.
  unfold quoted_step. destruct (hexval a) as [x|]; cbv zeta.
  - destruct (("0"%chr <=? a) && (a <=? "9"%chr))%bool; cbn [andb orb negb] in E.
    + rewrite !andb_true_iff in E. split; [f_equal; f_equal; lia|]. intros y [= <-]. lia.
    + destruct ((("a"%chr <=? u8 (Z.lor a 0x20)) && (u8 (Z.lor a 0x20) <=? "f"%chr)))%bool;
        cbn [andb orb negb] in E; [|discriminate E].
      rewrite !andb_true_iff in E. split; [f_equal; f_equal; lia|]. intros y [= <-]. lia.
  - split; [|discriminate].
    destruct (("0"%chr <=? a) && (a <=? "9"%chr))%bool; [discriminate E|].
    destruct (("a"%chr <=? u8 (Z.lor a 0x20)) && (u8 (Z.lor a 0x20) <=? "f"%chr))%bool;
      [discriminate E|reflexivity].
Qed.

(** The decoded byte: written as it is when it would be special, refused when
    it is NUL, otherwise a character of the path. *)
Lemma quoted_second_spec v x b :
  is_byte b -> decoded v = x -> 0 <= x < 16 ->
  match hexval b with
  | None => quoted_second_step v b = Bad
  | Some y =>
      let d := x * 16 + y in
      is_byte d /\
      if ((d =? "%"%chr) || (d =? "#"%chr) || (d =? "?"%chr))%bool
      then quoted_second_step v b = Next (write v sw_usual d)
      else if d =? 0 then quoted_second_step v b = Bad
      else exists p, quoted_second_step v b =
             Again (Vars (quoted_state v) (quoted_state v) (decoded v) (u v) (uri_ext v) p
                      (quoted_uri v)) d
  end.
Proof.
  intros Hb Hd Hx. pose proof (quoted_step_spec v b Hb) as [Q R]. unfold quoted_step in Q.
  unfold quoted_second_step. rewrite Hd. cbv zeta in *.
  destruct (hexval b) as [y|].
  - specialize (R y eq_refl).
    assert (V : forall z, u8 z = y -> is_byte z -> u8 (Z.shiftl x 4 + z) = x * 16 + y).
    { intros z E Hz. rewrite u8_small in E by exact Hz. subst z.
      rewrite Z.shiftl_mul_pow2 by lia. change (2 ^ 4) with 16. apply u8_small. byte_lia. }
    split; [byte_lia|].
    destruct (("0"%chr <=? b) && (b <=? "9"%chr))%bool eqn:E1.
    + assert (Y : u8 (b - "0"%chr) = y) by (injection Q as Q; exact Q).
      rewrite (V _ Y) by byte_lia.
      assert (Hy : y <= 9) by (rewrite u8_small in Y by byte_lia; lia).
      destruct (Z.eqb_spec (x * 16 + y) 37); [reflexivity|].
      destruct (Z.eqb_spec (x * 16 + y) 35); [reflexivity|].
      destruct (Z.eqb_spec (x * 16 + y) 63); [lia|]. cbn [orb].
      case_if; [reflexivity|]. exists (plus_in_uri v). unfold goto. now rewrite Hd.
    + destruct (("a"%chr <=? u8 (Z.lor b 0x20)) && (u8 (Z.lor b 0x20) <=? "f"%chr))%bool eqn:E2;
        [|discriminate Q].
      assert (Y : u8 (u8 (Z.lor b 0x20) - "a"%chr + 10) = y) by (injection Q as Q; exact Q).
      rewrite <- Z.add_assoc. rewrite (V _ Y) by byte_lia.
      assert (Hy : 10 <= y) by (rewrite u8_small in Y by byte_lia; lia).
      destruct (Z.eqb_spec (x * 16 + y) 37); [lia|].
      destruct (Z.eqb_spec (x * 16 + y) 35); [lia|].
      destruct (Z.eqb_spec (x * 16 + y) 63); [reflexivity|]. cbn [orb].
      destruct (Z.eqb_spec (x * 16 + y) 0); [lia|].
      destruct (Z.eqb_spec (x * 16 + y) 43); eexists; unfold goto; cbn; now rewrite Hd.
  - destruct (("0"%chr <=? b) && (b <=? "9"%chr))%bool; [discriminate Q|].
    destruct (("a"%chr <=? u8 (Z.lor b 0x20)) && (u8 (Z.lor b 0x20) <=? "f"%chr))%bool;
      [discriminate Q|reflexivity].
Qed.

(** One turn of the loop. *)
Definition turn (merge : bool) (v : uri_vars) (ch : Z) : uri_ctl :=
  match uri_step merge v ch with
  | Again v' ch' => uri_step merge v' ch'
  | c => c
  end.

Lemma uri_loop_cons merge v ch l :
  uri_loop merge v (ch :: l) =
  match turn merge v ch with
  | Next v' => uri_loop merge v' l
  | Args v' => Some (finish_args v' l)
  | Done v' => Some (finish v' None None)
  | Again _ _ | Bad => None
  end.
Proof. reflexivity. Qed.

Lemma turn_next merge v ch v' : uri_step merge v ch = Next v' -> turn merge v ch = Next v'.
Proof. unfold turn. now intros ->. Qed.

Lemma turn_bad merge v ch : uri_step merge v ch = Bad -> turn merge v ch = Bad.
Proof. unfold turn. now intros ->. Qed.

(** An escape is one path character. *)
Lemma escape_spec merge v stack cur a b l :
  in_path v stack cur -> is_byte a -> is_byte b ->
  match hexval a, hexval b with
  | Some x, Some y =>
      if x * 16 + y =? 0 then uri_loop merge v ("%"%chr :: a :: b :: l) = None
      else is_byte (x * 16 + y) /\ match feed_char merge stack cur (x * 16 + y) with
           | None => uri_loop merge v ("%"%chr :: a :: b :: l) = None
           | Some (s, c) => exists v', in_path v' s c
               /\ uri_loop merge v ("%"%chr :: a :: b :: l) = uri_loop merge v' l
           end
  | _, _ => uri_loop merge v ("%"%chr :: a :: b :: l) = None
  end.
Proof.
  intros H Ha Hb. destruct (step_question merge v stack cur H) as (_ & _ & Q & _).
  rewrite uri_loop_cons, (turn_next _ _ _ _ Q), uri_loop_cons.
  assert (Q1 : uri_step merge (quote v) a = quoted_step (quote v) a) by reflexivity.
  destruct (quoted_step_spec (quote v) a Ha) as [Q2 Rx]. rewrite Q2 in Q1.
  destruct (hexval a) as [x|]; [|now rewrite (turn_bad _ _ _ Q1)].
  specialize (Rx x eq_refl). rewrite (turn_next _ _ _ _ Q1), uri_loop_cons.
  set (v2 := decode_to (quote v) x).
  assert (Q3 : uri_step merge v2 b = quoted_second_step v2 b) by reflexivity.
  pose proof (quoted_second_spec v2 x b Hb eq_refl Rx) as S.
  destruct (hexval b) as [y|]; [|now rewrite (turn_bad _ _ _ (eq_trans Q3 S))].
  cbv zeta in S. destruct S as [Hd S]. set (d := x * 16 + y) in *.
  pose proof H as (Hu & Hs & Hk & Hn & He).
  destruct ((d =? "%"%chr) || (d =? "#"%chr) || (d =? "?"%chr))%bool eqn:E.
  - destruct (Z.eqb_spec d 0); [lia|]. split; [exact Hd|]. unfold feed_char.
    destruct (Z.eqb_spec d 47); [lia|]. exists (write v2 sw_usual d).
    rewrite (turn_next _ _ _ _ (eq_trans Q3 S)). split; [|reflexivity].
    apply (in_path_write (Vars (state_of cur) (st v) x (u v) (uri_ext v) (plus_in_uri v) true)).
    + now apply in_path_goto.
    + lia.
    + rewrite state_of_snoc by lia. reflexivity.
    + reflexivity.
  - destruct (Z.eqb_spec d 0) as [Z0|Z0]; [now rewrite (turn_bad _ _ _ (eq_trans Q3 S))|].
    split; [exact Hd|]. destruct S as [p S]. set (v3 := Vars _ _ _ _ _ _ _) in S.
    assert (P : in_path v3 stack cur).
    { unfold v3, v2. cbn [quoted_state decoded u uri_ext decode_to quote]. rewrite Hs.
      now apply in_path_goto. }
    assert (Tn : turn merge v2 b = uri_step merge v3 d) by (unfold turn; now rewrite Q3, S).
    pose proof (char_step_spec merge _ stack cur d P Hd ltac:(lia) ltac:(lia) ltac:(lia)) as C.
    rewrite Tn. destruct (feed_char merge stack cur d) as [[s c]|].
    + destruct C as (v' & C1 & C2). exists v'. rewrite C1. auto.
    + now rewrite C.
Qed.

(** What a URI text means from a position in its path. *)
Definition uri_spec (merge : bool) (stack : list (list Z)) (cur l : list Z)
  : option (list Z * path_end) :=
  match path_decode l with
  | Some (p, e) =>
      option_map (fun sc => (render (fst sc) (snd sc), e)) (resolve merge stack cur p)
  | None => None
  end.

Definition agrees (r : option uri_result) (spec : option (list Z * path_end)) : Prop :=
  match spec with
  | None => r = None
  | Some (path, e) => exists res, r = Some res /\ result_ok res path e
  end.

Lemma uri_spec_char merge stack cur c l : c <> "%"%chr -> c <> "?"%chr -> c <> "#"%chr ->
  uri_spec merge stack cur (c :: l) =
  match feed_char merge stack cur c with
  | Some (s, c') => uri_spec merge s c' l
  | None => None
  end.
Proof.
  intros N1 N2 N3. unfold uri_spec. cbn [path_decode].
  destruct (Z.eqb_spec c 63); [contradiction|]. destruct (Z.eqb_spec c 35); [contradiction|].
  destruct (Z.eqb_spec c 37); [contradiction|].
  destruct (path_decode l) as [[p e]|]; [rewrite resolve_feed|];
    now destruct (feed_char merge stack cur c) as [[s c']|].
Qed.

Lemma uri_spec_escape merge stack cur a b l :
  uri_spec merge stack cur ("%"%chr :: a :: b :: l) =
  match hexval a, hexval b with
  | Some x, Some y =>
      if x * 16 + y =? 0 then None
      else match feed_char merge stack cur (x * 16 + y) with
           | Some (s, c') => uri_spec merge s c' l
           | None => None
           end
  | _, _ => None
  end.
Proof.
  unfold uri_spec. cbn [path_decode Z.eqb Pos.eqb].
  destruct (hexval a) as [x|]; [|reflexivity]. destruct (hexval b) as [y|]; [|reflexivity].
  destruct (path_decode l) as [[p e]|]; case_if; try reflexivity; [rewrite resolve_feed|];
    now destruct (feed_char merge stack cur (x * 16 + y)) as [[s c']|].
Qed.

(** The three ways the path stops. *)
Lemma agrees_stop merge v stack cur (r : uri_vars -> uri_result) e :
  in_path v stack cur ->
  (forall v' path, r_uri (finish v' None None) = path ->
     (r_exten (finish v' None None) = None \/ exists pre ex, r_exten (finish v' None None) = Some ex
        /\ path = pre ++ "."%chr :: ex /\ no_slash ex) -> result_ok (r v') path e) ->
  agrees (option_map r (stop v))
    (option_map (fun sc => (render (fst sc) (snd sc), e)) (resolve merge stack cur [])).
Proof.
  intros H R. pose proof (stop_spec v stack cur H) as S. cbn [resolve].
  destruct (close stack cur) as [[s c]|]; [|now rewrite S].
  destruct S as (v' & E & Hu & Hn & He). rewrite E. cbn [option_map agrees fst snd].
  eexists. split; [reflexivity|]. destruct (finish_spec v' s c None None Hu Hn He). now apply R.
Qed.

Lemma uri_loop_spec merge n : forall l v stack cur,
  (length l <= n)%nat -> wf_bytes l -> in_path v stack cur ->
  agrees (uri_loop merge v l) (uri_spec merge stack cur l).
Proof.
  induction n as [|n IH]; intros l v stack cur Hl Hw H;
    destruct (step_question merge v stack cur H) as (Q1 & Q2 & Q3 & Q4);
    (destruct l as [|c l]; [cbn [uri_loop]; rewrite Q4; unfold uri_spec; cbn [path_decode];
       apply (agrees_stop merge v stack cur _ AtEnd H); repeat split; auto|]);
    cbn [length] in Hl; [lia|].
  inv_bytes. destruct (Z.eq_dec c "%"%chr) as [->|N1].
  { destruct l as [|a [|b l]].
    - rewrite uri_loop_cons, (turn_next _ _ _ _ Q3). reflexivity.
    - rewrite uri_loop_cons, (turn_next _ _ _ _ Q3), uri_loop_cons. inv_bytes.
      destruct (quoted_step_spec (quote v) a ltac:(assumption)) as [S _].
      assert (Q5 : uri_step merge (quote v) a = quoted_step (quote v) a) by reflexivity.
      rewrite S in Q5. unfold turn. rewrite Q5. destruct (hexval a); reflexivity.
    - inv_bytes. pose proof (escape_spec merge v stack cur a b l H
        ltac:(assumption) ltac:(assumption)) as S. rewrite uri_spec_escape.
      destruct (hexval a) as [x|]; [|exact S]. destruct (hexval b) as [y|]; [|exact S].
      case_if; [exact S|]. destruct S as [_ S].
      destruct (feed_char merge stack cur (x * 16 + y)) as [[s c]|]; [|exact S].
      destruct S as (v' & Hv & ->). apply IH; [cbn in Hl; lia|assumption|exact Hv]. }
  destruct (Z.eq_dec c "?"%chr) as [->|N2].
  { rewrite uri_loop_cons. unfold turn. rewrite Q1. unfold uri_spec. cbn [path_decode Z.eqb Pos.eqb].
    pose proof (agrees_stop merge v stack cur (fun v' => finish_args v' l) (AtArgs l) H) as S.
    destruct (stop v) as [v'|]; apply S; unfold finish_args, result_ok;
      destruct (before_hash l); auto. }
  destruct (Z.eq_dec c "#"%chr) as [->|N3].
  { rewrite uri_loop_cons. unfold turn. rewrite Q2. unfold uri_spec. cbn [path_decode Z.eqb Pos.eqb].
    pose proof (agrees_stop merge v stack cur (fun v' => finish v' None None) AtHash H) as S.
    destruct (stop v) as [v'|]; apply S; repeat split; auto. }
  rewrite uri_spec_char by assumption.
  pose proof (char_step_spec merge v stack cur c H ltac:(assumption) N1 N2 N3) as S.
  rewrite uri_loop_cons. destruct (feed_char merge stack cur c) as [[s c']|].
  - destruct S as (v' & S & Hv). rewrite (turn_next _ _ _ _ S).
    apply IH; [lia|assumption|exact Hv].
  - rewrite (turn_bad _ _ _ S). reflexivity.
Qed.

(** The start of the machine: the first byte is the slash of the path, or the
    path is empty and what ends it comes first. *)
Definition path_start (empty_path_in_uri : bool) (uri : list Z) : bool :=
  match uri with
  | c :: _ => if empty_path_in_uri then ((c =? "?"%chr) || (c =? "#"%chr))%bool
              else c =? "/"%chr
  | [] => false
  end.

Definition whole_path (empty_path_in_uri : bool) (uri : list Z) : list Z :=
  if empty_path_in_uri then "/"%chr :: uri else uri.

Definition uri_meaning (merge : bool) (uri : list Z) : option (list Z * path_end) :=
  match path_decode uri with
  | Some (p, e) => option_map (fun q => (q, e)) (normalize merge p)
  | None => None
  end.

Lemma uri_meaning_slash merge l : uri_meaning merge ("/"%chr :: l) = uri_spec merge [] [] l.
Proof.
  unfold uri_meaning, uri_spec. cbn [path_decode Z.eqb Pos.eqb].
  destruct (path_decode l) as [[p e]|]; [|reflexivity]. cbn [normalize Z.eqb Pos.eqb].
  destruct (resolve merge [] [] p) as [[s c]|]; reflexivity.
Qed.

Lemma complex_uri_agrees uri empty plus quoted merge :
  wf_bytes uri -> path_start empty uri = true ->
  agrees (ngx_http_parse_complex_uri uri empty plus quoted merge)
         (uri_meaning merge (whole_path empty uri)).
Proof.
  intros Hw Hs. unfold ngx_http_parse_complex_uri, whole_path.
  destruct uri as [|c l]; [discriminate Hs|]. cbn [path_start] in Hs. destruct empty.
  - rewrite uri_meaning_slash, uri_loop_cons. unfold turn, uri_step. cbn [st].
    apply orb_true_iff in Hs as [Hs|Hs]; apply Z.eqb_eq in Hs; subst c.
    + change (uri_spec merge [] [] ("?"%chr :: l)) with (Some (["/"%chr], AtArgs l)).
      unfold usual_step. change (is_usual 63) with false. cbn [Z.eqb Pos.eqb].
      unfold agrees, finish_args, finish, result_ok.
      destruct (before_hash l); eexists; (split; [reflexivity|]); cbn; auto.
    + change (uri_spec merge [] [] ("#"%chr :: l)) with (Some (["/"%chr], AtHash)).
      unfold usual_step. change (is_usual 35) with false. cbn [Z.eqb Pos.eqb].
      eexists; (split; [reflexivity|]); repeat split; auto.
  - apply Z.eqb_eq in Hs. subst c. inv_bytes. rewrite uri_meaning_slash, uri_loop_cons.
    unfold turn, uri_step. cbn [st]. unfold usual_step. change (is_usual 47) with false.
    cbn [Z.eqb Pos.eqb]. apply (uri_loop_spec merge (length l)); [lia|exact Hw|].
    repeat split; try constructor; discriminate.
Qed.

(** *** What a resolved path looks like *)

(** A segment that stays: neither "." nor "..", and not empty when slashes are
    merged. *)
Definition kept (merge : bool) (s : list Z) : Prop :=
  no_slash s /\ is_dot s = false /\ is_dot_dot s = false /\ (merge = true -> s <> []).

Definition last_ok (s : list Z) : Prop :=
  no_slash s /\ is_dot s = false /\ is_dot_dot s = false.

Lemma push_kept merge stack cur stack' : Forall (kept merge) stack -> no_slash cur ->
  push merge stack cur = Some stack' -> Forall (kept merge) stack'.
Proof.
  intros Hk Hn. unfold push. destruct (is_dot cur) eqn:E1; [now intros [= <-]|].
  destruct (is_dot_dot cur) eqn:E2.
  { destruct stack; [discriminate|]. intros [= <-]. now inversion Hk. }
  destruct (is_nil cur && merge)%bool eqn:E3; intros [= <-]; [exact Hk|].
  constructor; [|exact Hk]. repeat split; auto. intros -> ->. discriminate E3.
Qed.

Lemma resolve_kept merge l : forall stack cur s c,
  Forall (kept merge) stack -> no_slash cur -> resolve merge stack cur l = Some (s, c) ->
  Forall (kept merge) s /\ last_ok c.
Proof.
  induction l as [|a l IH]; intros stack cur s c Hk Hn; cbn [resolve].
  - unfold close. destruct (is_dot cur) eqn:E1.
    { intros [= <- <-]. repeat split; auto. constructor. }
    destruct (is_dot_dot cur) eqn:E2.
    { destruct stack; [discriminate|]. intros [= <- <-]. inversion Hk; subst.
      repeat split; auto. constructor. }
    intros [= <- <-]. repeat split; auto.
  - destruct (Z.eqb_spec a 47) as [->|Na].
    + destruct (push merge stack cur) as [stack'|] eqn:E; [|discriminate]. apply IH.
      * eapply push_kept; eauto.
      * constructor.
    + apply IH; [exact Hk|]. apply Forall_app. split; [exact Hn|]. constructor; [exact Na|constructor].
Qed.

(** Reading a kept segment and its slash. *)
Lemma resolve_segment merge s : forall stack cur l, no_slash s ->
  resolve merge stack cur (s ++ l) = resolve merge stack (cur ++ s) l.
Proof.
  induction s as [|a s IH]; intros stack cur l H; [now rewrite app_nil_r|].
  inversion H; subst. cbn [app resolve]. destruct (Z.eqb_spec a 47); [contradiction|].
  rewrite IH by assumption. now rewrite <- app_assoc.
Qed.

Lemma push_kept_eq merge stack s : kept merge s -> push merge stack s = Some (s :: stack).
Proof.
  intros (_ & E1 & E2 & E3). unfold push. rewrite E1, E2.
  destruct s; [|reflexivity]. destruct merge; [now destruct E3|reflexivity].
Qed.

Lemma resolve_render merge ss c : forall stack, Forall (kept merge) ss -> last_ok c ->
  resolve merge stack [] (concat (map (fun s => s ++ ["/"%chr]) ss) ++ c) =
  Some (rev ss ++ stack, c).
Proof.
  induction ss as [|s ss IH]; intros stack Hk Hc.
  - destruct Hc as (Hn & E1 & E2). cbn [map concat app rev].
    rewrite <- (app_nil_r c) at 1. rewrite resolve_segment by exact Hn. cbn [app resolve].
    unfold close. now rewrite E1, E2.
  - inversion Hk as [|? ? Hs Hk']; subst. cbn [map concat]. rewrite <- !app_assoc.
    rewrite resolve_segment by apply Hs. cbn [app resolve Z.eqb Pos.eqb].
    rewrite push_kept_eq by exact Hs. rewrite IH by assumption.
    cbn [rev]. now rewrite <- app_assoc.
Qed.

(** Normalising twice changes nothing. *)
Lemma normalize_render merge s c : Forall (kept merge) s -> last_ok c ->
  normalize merge (render s c) = Some (render s c).
Proof.
  intros Hk Hc. unfold render at 1. cbn [normalize Z.eqb Pos.eqb].
  rewrite resolve_render by (auto; now apply Forall_rev). cbn [option_map fst snd].
  now rewrite rev_involutive, app_nil_r.
Qed.

(** The segments of a path, after its first slash. *)
Fixpoint split_slash (cur l : list Z) : list (list Z) :=
  match l with
  | [] => [cur]
  | c :: l' => if c =? "/"%chr then cur :: split_slash [] l' else split_slash (cur ++ [c]) l'
  end.

Lemma split_segment s : forall cur l, no_slash s ->
  split_slash cur (s ++ l) = split_slash (cur ++ s) l.
Proof.
  induction s as [|a s IH]; intros cur l H; [now rewrite app_nil_r|].
  inversion H; subst. cbn [app split_slash]. destruct (Z.eqb_spec a 47); [contradiction|].
  rewrite IH by assumption. now rewrite <- app_assoc.
Qed.

Lemma split_render ss c : Forall no_slash ss -> no_slash c ->
  split_slash [] (concat (map (fun s => s ++ ["/"%chr]) ss) ++ c) = ss ++ [c].
Proof.
  intros H Hc. induction H as [|s ss Hs Hk IH]; cbn [map concat app].
  - rewrite <- (app_nil_r c) at 1. now rewrite split_segment.
  - rewrite <- !app_assoc. rewrite split_segment by exact Hs.
    cbn [app split_slash Z.eqb Pos.eqb]. now rewrite IH.
Qed.

Lemma resolve_bytes (P : Z -> Prop) merge l : forall stack cur s c,
  Forall (Forall P) stack -> Forall P cur -> Forall P l ->
  resolve merge stack cur l = Some (s, c) -> Forall (Forall P) s /\ Forall P c.
Proof.
  induction l as [|a l IH]; intros stack cur s c Hk Hc Hl; cbn [resolve].
  - unfold close. case_if; [intros [= <- <-]; split; auto|].
    case_if; [|intros [= <- <-]; split; auto].
    destruct stack; [discriminate|]. intros [= <- <-]. inversion Hk; subst. split; auto.
  - inversion Hl; subst. case_if.
    + destruct (push merge stack cur) as [stack'|] eqn:E; [|discriminate]. apply IH; auto.
      revert E. unfold push. repeat case_if; try (intros [= <-]; auto; fail).
      destruct stack; [discriminate|]. intros [= <-]. now inversion Hk.
    + apply IH; auto. apply Forall_app. auto.
Qed.

Lemma render_bytes (P : Z -> Prop) s c :
  P "/"%chr -> Forall (Forall P) s -> Forall P c -> Forall P (render s c).
Proof.
  intros H0 Hs Hc. constructor; [exact H0|]. apply Forall_app. split; [|exact Hc].
  apply Forall_rev in Hs. induction Hs as [|a l Ha _ IH]; [constructor|].
  cbn [map concat]. apply Forall_app. split; [|exact IH]. apply Forall_app. auto.
Qed.

Definition not_nul (c : Z) : Prop := c <> 0.

Lemma path_decode_nul n : forall l p e, (length l <= n)%nat -> Forall not_nul l ->
  path_decode l = Some (p, e) -> Forall not_nul p.
Proof.
  induction n as [|n IH]; intros l p e Hl H;
    (destruct l as [|c l]; [intros [= <- <-]; constructor|]); cbn [length] in Hl; [lia|].
  inversion H as [|? ? Hc H']; subst. cbn [path_decode].
  case_if; [intros [= <- <-]; constructor|]. case_if; [intros [= <- <-]; constructor|].
  case_if.
  - destruct l as [|a [|b l]]; try discriminate.
    destruct (hexval a) as [x|]; [|discriminate]. destruct (hexval b) as [y|]; [|discriminate].
    destruct (path_decode l) as [[p' e']|] eqn:E; [|discriminate].
    destruct (Z.eqb_spec (x * 16 + y) 0) as [|N]; [discriminate|]. intros [= <- <-].
    constructor; [exact N|]. apply (IH l p' e'); [cbn [length] in Hl; lia| |exact E].
    inversion H' as [|? ? _ H'']. now inversion H''.
  - destruct (path_decode l) as [[p' e']|] eqn:E; [|discriminate]. intros [= <- <-].
    constructor; [exact Hc|]. apply (IH l p' e'); [lia|exact H'|exact E].
Qed.

(** The shape of every path the parser returns. *)
Lemma complex_uri_shape uri empty plus quoted merge r :
  wf_bytes uri -> path_start empty uri = true ->
  ngx_http_parse_complex_uri uri empty plus quoted merge = Some r ->
  exists s c, r_uri r = render s c /\ Forall (kept merge) s /\ last_ok c
    /\ (Forall not_nul uri -> Forall not_nul (r_uri r)).
Proof.
  intros Hw Hs E. pose proof (complex_uri_agrees uri empty plus quoted merge Hw Hs) as A.
  rewrite E in A. unfold uri_meaning, agrees in A.
  destruct (path_decode (whole_path empty uri)) as [[p e]|] eqn:Ep; [|discriminate A].
  destruct p as [|a p]; [discriminate A|]. cbn [normalize] in A.
  destruct (Z.eqb_spec a 47) as [->|]; [|discriminate A].
  destruct (resolve merge [] [] p) as [[s c]|] eqn:Er; [|discriminate A].
  cbn [option_map fst snd] in A. destruct A as (r' & [= <-] & -> & _). exists s, c.
  split; [reflexivity|].
  destruct (resolve_kept merge p [] [] s c ltac:(constructor) ltac:(constructor) Er) as [Hk Hc].
  split; [exact Hk|]. split; [exact Hc|]. intros Hn.
  assert (Hn' : Forall not_nul (whole_path empty uri)).
  { unfold whole_path. destruct empty; [constructor; [discriminate|exact Hn]|exact Hn]. }
  pose proof (path_decode_nul _ _ _ _ (le_n _) Hn' Ep) as Hp. inversion Hp; subst.
  destruct (resolve_bytes not_nul merge p [] [] s c) as [Hs' Hc']; auto.
  apply render_bytes; auto.
Qed.

(** *** The write pointer *)

(** The positions the loop goes through. *)
Inductive reaches (merge : bool) : uri_vars -> list Z -> uri_vars -> list Z -> Prop :=
| reach_refl v l : reaches merge v l v l
| reach_turn v l v1 c l1 v2 :
    reaches merge v l v1 (c :: l1) -> turn merge v1 c = Next v2 -> reaches merge v l v2 l1.

Lemma reach_front merge v c l v1 v' l' :
  turn merge v c = Next v1 -> reaches merge v1 l v' l' -> reaches merge v (c :: l) v' l'.
Proof.
  intros E H. induction H as [|v1 l v2 d l2 v3 H IH E'].
  - eapply reach_turn; [apply reach_refl|exact E].
  - eapply reach_turn; [now apply IH|exact E'].
Qed.

Lemma to_slash_length l l' : to_slash l = Some l' -> (length l' <= length l)%nat.
Proof.
  induction l as [|c l IH]; cbn [to_slash]; [discriminate|]. case_if.
  - now intros [= <-].
  - intros H. apply IH in H. cbn [length]. lia.
Qed.

Lemma up_dir_length l l' : up_dir l = Some l' -> (length l' <= length l)%nat.
Proof. intros H. apply to_slash_length in H. rewrite length_skipn in H. lia. Qed.

Lemma tl_length {A} (l : list A) : (length (tl l) <= length l)%nat.
Proof. destruct l; cbn; lia. Qed.

(** What one case writes. *)
Definition grows (v : uri_vars) (k : nat) (c : uri_ctl) : Prop :=
  match c with
  | Next v' => (length (u v') <= length (u v) + k)%nat
  | Again v' _ | Args v' | Done v' => (length (u v') <= length (u v))%nat
  | Bad => True
  end.

Lemma step_grows merge v ch : grows v 1 (uri_step merge v ch).
Proof.
  pose proof (tl_length (u v)) as T. pose proof (up_dir_length (u v)) as D.
  unfold uri_step. destruct (st v);
    unfold usual_step, slash_step, dot_step, dot_dot_step, quoted_step, quoted_second_step; cbv zeta;
    repeat (case_if; try (cbn; lia));
    try (destruct (up_dir (u v)) as [u'|]; [specialize (D u' eq_refl)|exact I];
         repeat case_if; cbn; lia);
    try exact I.
Qed.

Lemma turn_grows merge v ch : grows v 1 (turn merge v ch).
Proof.
  unfold turn. pose proof (step_grows merge v ch) as H.
  destruct (uri_step merge v ch) as [v'|v' c|v'|v'|]; try exact H.
  pose proof (step_grows merge v' c) as H'. cbn [grows] in H.
  destruct (uri_step merge v' c); cbn [grows] in *; try lia; exact I.
Qed.

Lemma reaches_length merge v l v' l' : reaches merge v l v' l' ->
  (length (u v') + length l' <= length (u v) + length l)%nat.
Proof.
  induction 1 as [|v l v1 c l1 v2 _ IH E]; [lia|].
  pose proof (turn_grows merge v1 c) as G. rewrite E in G. cbn [grows length] in *. lia.
Qed.

Lemma finish_length v a b : length (r_uri (finish v a b)) = length (u v).
Proof. apply length_rev. Qed.

Lemma finish_args_length v l : length (r_uri (finish_args v l)) = length (u v).
Proof. unfold finish_args. destruct (before_hash l); apply finish_length. Qed.

(** The text before its first question mark: what [ngx_http_process_request_uri]
    allocates for when the request line has set [args_start]. *)
Fixpoint before_question (l : list Z) : list Z :=
  match l with
  | [] => []
  | c :: l' => if c =? "?"%chr then [] else c :: before_question l'
  end.

(** The question mark ends the path or is refused. *)
Lemma turn_question merge v :
  match turn merge v "?"%chr with Args _ | Bad => True | _ => False end.
Proof.
  unfold turn, uri_step. destruct (st v); try exact I.
  unfold dot_dot_step. change (is_usual "?"%chr) with false. cbn [Z.eqb Pos.eqb orb].
  destruct (up_dir (u v)); exact I.
Qed.

Lemma loop_length merge l : forall v r, uri_loop merge v l = Some r ->
  (length (r_uri r) <= length (u v) + length (before_question l))%nat.
Proof.
  induction l as [|c l IH]; intros v r.
  - cbn [uri_loop]. unfold uri_end. pose proof (tl_length (u v)).
    destruct (st v); try discriminate; try (intros [= <-]; rewrite finish_length; cbn; lia).
    destruct (up_dir (u v)) as [u'|] eqn:E; [|discriminate]. apply up_dir_length in E.
    intros [= <-]. rewrite finish_length. cbn. lia.
  - rewrite uri_loop_cons. pose proof (turn_grows merge v c) as G. pose proof (turn_question merge v) as Q.
    cbn [before_question]. destruct (Z.eqb_spec c 63) as [->|N]; cbn [length];
    destruct (turn merge v _) as [v'|v' x|v'|v'|]; try discriminate; try contradiction;
      cbn [grows] in G.
    + intros [= <-]. rewrite finish_args_length. lia.
    + intros H. apply IH in H. lia.
    + intros [= <-]. rewrite finish_args_length. lia.
    + intros [= <-]. rewrite finish_length. lia.
Qed.

(** *** Unsafe paths *)

Definition not_up (s : list Z) : Prop := is_dot_dot s = false.

Fixpoint upto_slash (l : list Z) : list Z :=
  match l with
  | [] => []
  | c :: l' => if c =? "/"%chr then [] else c :: upto_slash l'
  end.

Lemma up_at_spec l : up_at l = is_dot_dot (upto_slash l).
Proof.
  unfold up_at, ngx_path_separator. destruct l as [|a [|b [|c l]]]; cbn.
  - reflexivity.
  - now destruct (a =? 47).
  - destruct (Z.eqb_spec a 47) as [->|]; [reflexivity|].
    destruct (Z.eqb_spec b 47) as [->|]; cbn; now rewrite ?andb_false_r, ?andb_true_r.
  - destruct (Z.eqb_spec a 47) as [->|]; [reflexivity|].
    destruct (Z.eqb_spec b 47) as [->|]; [cbn; now rewrite andb_false_r|].
    destruct (Z.eqb_spec c 47) as [->|]; cbn; now rewrite ?andb_true_r, ?andb_false_r.
Qed.

(** ".." somewhere after a slash. *)
Fixpoint scan_up (l : list Z) : bool :=
  match l with
  | [] => false
  | c :: p => ((c =? "/"%chr) && up_at p || scan_up p)%bool
  end.

Lemma split_not_up l : forall cur,
  is_dot_dot (cur ++ upto_slash l) = false -> scan_up l = false ->
  Forall not_up (split_slash cur l).
Proof.
  induction l as [|c l IH]; intros cur; cbn [upto_slash scan_up split_slash].
  - rewrite app_nil_r. intros H _. constructor; [exact H|constructor].
  - intros H E. apply orb_false_iff in E as [E E']. destruct (Z.eqb_spec c 47) as [->|].
    + rewrite app_nil_r in H. constructor; [exact H|]. apply IH; [|exact E'].
      cbn [app andb] in *. now rewrite <- up_at_spec.
    + apply IH; [|exact E']. now rewrite <- app_assoc.
Qed.

Lemma split_ne cur l : split_slash cur l <> [].
Proof. revert cur. induction l; intros cur; cbn; [discriminate|]. case_if; [discriminate|auto]. Qed.

Lemma split_snoc l c : c <> "/"%chr -> forall cur,
  removelast (split_slash cur (l ++ [c])) = removelast (split_slash cur l).
Proof.
  intros Hc. induction l as [|a l IH]; intros cur; cbn [app split_slash].
  - destruct (Z.eqb_spec c 47); [contradiction|reflexivity].
  - case_if; [|apply IH].
    change (removelast (?x :: ?y)) with (match y with [] => [] | _ => x :: removelast y end).
    pose proof (split_ne [] (l ++ [c])). pose proof (split_ne [] l).
    specialize (IH []). destruct (split_slash [] (l ++ [c])), (split_slash [] l); congruence.
Qed.

Lemma Forall_removelast {A} (P : A -> Prop) l : Forall P l -> Forall P (removelast l).
Proof. induction 1 as [|a [|b l] Ha Hl IH]; [constructor|constructor|]. now constructor. Qed.

Lemma up_at_cut l a : up_at (l ++ "?"%chr :: a) = up_at (l ++ ["?"%chr]).
Proof.
  destruct l as [|c [|d [|e l]]]; try reflexivity.
  - destruct a; reflexivity.
  - cbn. now rewrite !andb_false_r.
Qed.

Lemma up_at_length l : up_at l = true -> (2 <= length l)%nat.
Proof. destruct l as [|a [|b l]]; try discriminate. cbn. lia. Qed.

Lemma length_test (c : Z) p : ((c =? "/"%chr) && (2 <? Z.of_nat (S (length p))) && up_at p)%bool
  = ((c =? "/"%chr) && up_at p)%bool.
Proof.
  destruct (up_at p) eqn:E; [|now rewrite !andb_false_r].
  apply up_at_length in E. destruct (c =? "/"%chr); cbn; lia.
Qed.

Lemma rescan_spec l : unsafe_rescan l = false -> Forall not_nul l /\ scan_up l = false.
Proof.
  induction l as [|c l IH]; cbn [unsafe_rescan scan_up length]; [auto|].
  unfold ngx_path_separator. rewrite length_test.
  destruct (Z.eqb_spec c 0); [discriminate|]. case_if; [discriminate|].
  intros H. apply IH in H as [H1 H2]. split; [now constructor|]. exact H2.
Qed.

(** What the first loop leaves. *)
Definition query (args : option (list Z)) : list Z :=
  match args with Some a => "?"%chr :: a | None => [] end.

Lemma scan_spec l : forall n q len args q', wf_bytes l ->
  unsafe_scan l n q = Some (len, args, q') ->
  exists path, l = path ++ query args /\ len = (n + length path)%nat
    /\ ~ In "?"%chr path /\ Forall not_nul path
    /\ q' = (q || existsb (fun c => Z.eqb c "%"%chr) path)%bool
    /\ scan_up (path ++ match args with Some _ => ["?"%chr] | None => [] end) = false.
Proof.
  induction l as [|c l IH]; intros n q len args q' Hw.
  - intros [= <- <- <-]. exists []. rewrite orb_false_r. repeat split; auto; lia.
  - cbn [unsafe_scan]. inv_bytes.
    assert (G : forall b, unsafe_scan l (S n) (q || b)%bool = Some (len, args, q') ->
      c <> "?"%chr -> c <> 0 -> b = (c =? "%"%chr) -> ((c =? "/"%chr) && up_at l)%bool = false ->
      exists path, c :: l = path ++ query args /\ len = (n + length path)%nat
      /\ ~ In "?"%chr path /\ Forall not_nul path
      /\ q' = (q || existsb (fun c => Z.eqb c "%"%chr) path)%bool
      /\ scan_up (path ++ match args with Some _ => ["?"%chr] | None => [] end) = false).
    { intros b E N1 N2 -> N3. apply IH in E as (path & -> & -> & H1 & H2 & -> & H4); [|exact Hw].
      exists (c :: path). cbn [app length existsb scan_up]. rewrite H4, orb_false_r.
      split; [reflexivity|]. split; [lia|]. split; [intros [F|F]; [congruence|contradiction]|].
      split; [now constructor|]. split; [now rewrite orb_assoc|].
      destruct args as [a|]; [|now rewrite app_nil_r in *].
      cbn [query] in N3. now rewrite up_at_cut in N3. }
    destruct (Z.eqb_spec c 37) as [->|N1]; [rewrite <- (orb_true_r q); intros E;
      apply (G true E); reflexivity || discriminate|].
    destruct (is_usual c) eqn:Eu.
    { pose proof (usual_special c ltac:(assumption) Eu) as (U1 & _ & _ & U2 & _).
      rewrite <- (orb_false_r q) at 1. intros E. apply (G false E); auto.
      - intros ->. discriminate Eu.
      - destruct (Z.eqb_spec c 47); [contradiction|reflexivity]. }
    destruct (Z.eqb_spec c 63) as [->|N2].
    { intros [= <- <- <-]. exists []. rewrite orb_false_r. repeat split; auto; lia. }
    destruct (Z.eqb_spec c 0) as [->|N3]; [discriminate|].
    unfold ngx_path_separator. cbn [length]. rewrite length_test. case_if; [discriminate|].
    rewrite <- (orb_false_r q) at 1. intros E. now apply (G false E).
Qed.

Lemma split_args_spec uri : forall u a, ngx_http_split_args uri = (u, a) ->
  ~ In "?"%chr u /\ (uri = u ++ "?"%chr :: a \/ uri = u /\ a = []).
Proof.
  induction uri as [|c l IH]; intros u a; cbn [ngx_http_split_args]; [intros [= <- <-]; auto|].
  destruct (Z.eqb_spec c 63) as [->|N]; [intros [= <- <-]; auto|].
  destruct (ngx_http_split_args l) as [u' a']. intros [= <- <-].
  destruct (IH u' a' eq_refl) as [H1 H2]. split; [intros [F|F]; [congruence|contradiction]|].
  destruct H2 as [->|[-> ->]]; auto.
Qed.

(** ** Properties *)

(** C7. [ngx_http_parse_complex_uri] computes the normal form of the path of a
    request: it decodes the percent escapes of the text before the query, drops
    "." segments, drops ".." segments with the segment before them, and merges
    slashes when told to.  It refuses exactly the texts with a broken escape, an
    encoded NUL, or a ".." above the root.  The query is what follows the first
    bare question mark, up to a fragment, and the extension is a suffix of the
    last segment that follows a dot. *)
Theorem complex_uri_normalizes uri empty_path_in_uri plus quoted merge :
  wf_bytes uri -> path_start empty_path_in_uri uri = true ->
  let result := ngx_http_parse_complex_uri uri empty_path_in_uri plus quoted merge in
  match path_decode (whole_path empty_path_in_uri uri) with
  | None => result = None
  | Some (path, e) =>
      match normalize merge path with
      | None => result = None
      | Some p => exists r, result = Some r /\ result_ok r p e
      end
  end.
Proof.
  intros Hw Hs result. pose proof (complex_uri_agrees uri _ plus quoted merge Hw Hs) as A.
  fold result in A. unfold uri_meaning in A.
  destruct (path_decode (whole_path empty_path_in_uri uri)) as [[path e]|]; [|exact A].
  destruct (normalize merge path); exact A.
Qed.

Example complex_uri_normalizes_witness :
  path_decode (bs "/a//b/./%2e%2e/c.html?x=1") = Some (bs "/a//b/./../c.html", AtArgs (bs "x=1"))
  /\ normalize true (bs "/a//b/./../c.html") = Some (bs "/a/c.html")
  /\ exists r, ngx_http_parse_complex_uri (bs "/a//b/./%2e%2e/c.html?x=1") false false false true = Some r
       /\ result_ok r (bs "/a/c.html") (AtArgs (bs "x=1")).
Proof.
  assert (H : wf_bytes (bs "/a//b/./%2e%2e/c.html?x=1"))
    by (repeat constructor; discriminate).
  split; [reflexivity|]. split; [reflexivity|].
  exact (complex_uri_normalizes (bs "/a//b/./%2e%2e/c.html?x=1") false false false true H eq_refl).
Defined.

(** C8. No path that [ngx_http_parse_complex_uri] accepts leaves the root: the
    result starts with a slash, none of its segments is "." or "..", none but
    the last is empty when slashes are merged, no NUL byte appears that the
    request line did not carry, and normalising it again changes nothing. *)
Theorem complex_uri_confined uri empty_path_in_uri plus quoted merge r :
  wf_bytes uri -> path_start empty_path_in_uri uri = true ->
  ngx_http_parse_complex_uri uri empty_path_in_uri plus quoted merge = Some r ->
  exists rest, r_uri r = "/"%chr :: rest
  /\ Forall (fun s => is_dot s = false /\ is_dot_dot s = false) (split_slash [] rest)
  /\ (merge = true -> Forall (fun s => s <> []) (removelast (split_slash [] rest)))
  /\ (Forall not_nul uri -> Forall not_nul (r_uri r))
  /\ normalize merge (r_uri r) = Some (r_uri r).
Proof.
  intros Hw Hs E. destruct (complex_uri_shape _ _ _ _ _ _ Hw Hs E) as (s & c & R & Hk & Hc & Hn).
  rewrite R in *. eexists. split; [reflexivity|].
  assert (Hr : Forall no_slash (rev s)) by (apply Forall_rev; eapply Forall_impl; [|exact Hk]; now intros a [? _]).
  rewrite split_render by (auto; apply Hc). apply Forall_rev in Hk as Hk'. repeat split.
  - apply Forall_app. split; [eapply Forall_impl; [|exact Hk']; now intros a (_ & ? & ? & _)|].
    constructor; [now destruct Hc as (_ & ? & ?)|constructor].
  - intros M. rewrite removelast_last. eapply Forall_impl; [|exact Hk']. intros a (_ & _ & _ & N). auto.
  - exact Hn.
  - now apply normalize_render.
Qed.

Example complex_uri_confined_witness :
  let r := Result (bs "/b/.c") None None None false true in
  exists rest, r_uri r = "/"%chr :: rest
  /\ Forall (fun s => is_dot s = false /\ is_dot_dot s = false) (split_slash [] rest)
  /\ (true = true -> Forall (fun s => s <> []) (removelast (split_slash [] rest)))
  /\ (Forall not_nul (bs "/a/%2E./b/.c") -> Forall not_nul (r_uri r))
  /\ normalize true (r_uri r) = Some (r_uri r).
Proof.
  assert (H : wf_bytes (bs "/a/%2E./b/.c")) by (repeat constructor; discriminate).
  exact (complex_uri_confined (bs "/a/%2E./b/.c") false false false true
    (Result (bs "/b/.c") None None None false true) H eq_refl eq_refl).
Defined.

(** The write pointer stays in the buffer: at every turn of the loop the
    bytes written and the bytes still to read together are at most those of the
    text, and one more for an empty path; and the path returned fits in what the
    caller allocates, the text before its first question mark, if any. *)
Theorem complex_uri_fits uri (empty_path_in_uri plus quoted merge : bool) v l r :
  reaches merge
    (Vars sw_usual sw_usual 0 (if empty_path_in_uri then ["/"%chr] else []) None plus quoted)
    uri v l ->
  ngx_http_parse_complex_uri uri empty_path_in_uri plus quoted merge = Some r ->
  (length (u v) + length l <= length (whole_path empty_path_in_uri uri))%nat
  /\ (length (r_uri r) <= length (before_question (whole_path empty_path_in_uri uri)))%nat.
Proof.
  intros H E. apply reaches_length in H. apply loop_length in E.
  unfold whole_path. destruct empty_path_in_uri; cbn [u length before_question Z.eqb Pos.eqb] in *; lia.
Qed.

Example complex_uri_fits_witness :
  let v := Vars sw_usual sw_slash 6 (rev (bs "/a")) None false true in
  let r := Result (bs "/a/") None None None false true in
  (length (u v) + length (bs "/") <= length (whole_path false (bs "/%61/")))%nat
  /\ (length (r_uri r) <= length (before_question (whole_path false (bs "/%61/"))))%nat.
Proof.
  intros v r. refine (complex_uri_fits (bs "/%61/") false false false true v (bs "/") r _ eq_refl).
  do 4 (eapply reach_front; [reflexivity|]). apply reach_refl.
Defined.

(** A path that [ngx_http_parse_unsafe_uri] accepts is what precedes the
    first question mark, decoded when it holds an escape; it has no NUL byte, no
    ".." segment is followed by another one, and when there are no arguments or
    an escape was decoded there is no ".." segment at all. *)
Theorem unsafe_uri_refuses uri path args :
  wf_bytes uri -> ngx_http_parse_unsafe_uri true uri = Some (path, args) ->
  exists raw, uri = raw ++ query args /\ ~ In "?"%chr raw
  /\ (let escaped := existsb (fun c => c =? "%"%chr) raw in
      path = (if escaped then fst (Escape.ngx_unescape_uri raw 0) else raw)
      /\ Forall not_nul path
      /\ Forall not_up (removelast (split_slash [] path))
      /\ (args = None \/ escaped = true -> Forall not_up (split_slash [] path))).
Proof.
  intros Hw. unfold ngx_http_parse_unsafe_uri. case_if; [discriminate|].
  apply orb_false_iff in Heqb as [_ U].
  destruct (unsafe_scan uri 0 false) as [[[len ar] q]|] eqn:E; [|discriminate].
  apply scan_spec in E as (raw & -> & -> & H1 & H2 & -> & H4); [|exact Hw].
  cbn [orb Nat.add]. rewrite firstn_app, firstn_all, Nat.sub_diag, firstn_O, app_nil_r. cbv zeta.
  destruct (existsb _ raw) eqn:Eq.
  - destruct (Escape.ngx_unescape_uri raw 0) as [d rest] eqn:Ed. case_if; [discriminate|].
    apply orb_false_iff in Heqb as [Hd Hr]. apply rescan_spec in Hr as [Hr Hz].
    intros [= <- <-]. exists raw. rewrite Eq, Ed.
    assert (F : Forall not_up (split_slash [] d)) by (apply split_not_up; [now rewrite up_at_spec in Hd|exact Hz]).
    repeat split; auto. now apply Forall_removelast.
  - intros [= <- <-]. exists raw. rewrite Eq.
    assert (F : Forall not_up (split_slash [] (raw ++ match ar with Some _ => ["?"%chr] | None => [] end))).
    { apply split_not_up; [|exact H4]. cbn [app]. rewrite <- up_at_spec.
      destruct ar as [a|]; [|exact U]. cbn [query] in U. now rewrite up_at_cut in U. }
    repeat split; auto.
    + apply Forall_removelast in F. destruct ar; [|now rewrite app_nil_r in F].
      now rewrite split_snoc in F by discriminate.
    + intros [->|[=]]. now rewrite app_nil_r in F.
Qed.

Example unsafe_uri_refuses_witness :
  exists raw, bs "/a%2fb?c" = raw ++ query (Some (bs "c")) /\ ~ In "?"%chr raw
  /\ (let escaped := existsb (fun c => c =? "%"%chr) raw in
      bs "/a/b" = (if escaped then fst (Escape.ngx_unescape_uri raw 0) else raw)
      /\ Forall not_nul (bs "/a/b")
      /\ Forall not_up (removelast (split_slash [] (bs "/a/b")))
      /\ (Some (bs "c") = None \/ escaped = true -> Forall not_up (split_slash [] (bs "/a/b")))).
Proof. refine (unsafe_uri_refuses (bs "/a%2fb?c") (bs "/a/b") (Some (bs "c")) _ eq_refl). repeat constructor; discriminate. Defined.

(** The check looks for a separator or the end of the whole text after "..", so
    one that the question mark follows passes. *)
Remark unsafe_uri_lax :
  ngx_http_parse_unsafe_uri true (bs "/a/..?x") = Some (bs "/a/..", Some (bs "x")).
Proof. reflexivity. Qed.

End Uri.
