(* ===== verification/RequestLine.v ===== *)
(** * RequestLine: the request line (src/http/ngx_http_parse.c)

    [ngx_http_parse_request_line] reads the first line of a request from the
    header buffer, as far as it has arrived; [ngx_http_parse_uri] checks a path
    received on its own; [ngx_http_process_request_uri]
    (src/http/ngx_http_request.c) makes the request's URI out of what they
    marked.  The header buffer is the list of its bytes from [b->start] to
    [b->last], and every pointer into it is an offset. *)

From S2P Require Import Prelude Uri.

Module RequestLine.

(** ** Definitions *)

Inductive rl_state : Set :=
| sw_start
| sw_method
| sw_spaces_before_uri
| sw_schema
| sw_schema_slash
| sw_schema_slash_slash
| sw_host_start
| sw_host
| sw_host_end
| sw_host_ip_literal
| sw_port
| sw_after_slash_in_uri
| sw_check_uri
| sw_uri
| sw_http_09
| sw_http_H
| sw_http_HT
| sw_http_HTT
| sw_http_HTTP
| sw_first_major_digit
| sw_major_digit
| sw_first_minor_digit
| sw_minor_digit
| sw_spaces_after_digit
| sw_almost_done.

Definition NGX_HTTP_PARSE_INVALID_METHOD : Z := 10.
Definition NGX_HTTP_PARSE_INVALID_REQUEST : Z := 11.
Definition NGX_HTTP_PARSE_INVALID_VERSION : Z := 12.
Definition NGX_HTTP_PARSE_INVALID_09_METHOD : Z := 13.

Definition NGX_HTTP_UNKNOWN : Z := 0x00000001.
Definition NGX_HTTP_GET : Z := 0x00000002.
Definition NGX_HTTP_HEAD : Z := 0x00000004.
Definition NGX_HTTP_POST : Z := 0x00000008.
Definition NGX_HTTP_PUT : Z := 0x00000010.
Definition NGX_HTTP_DELETE : Z := 0x00000020.
Definition NGX_HTTP_MKCOL : Z := 0x00000040.
Definition NGX_HTTP_COPY : Z := 0x00000080.
Definition NGX_HTTP_MOVE : Z := 0x00000100.
Definition NGX_HTTP_OPTIONS : Z := 0x00000200.
Definition NGX_HTTP_PROPFIND : Z := 0x00000400.
Definition NGX_HTTP_PROPPATCH : Z := 0x00000800.
Definition NGX_HTTP_LOCK : Z := 0x00001000.
Definition NGX_HTTP_UNLOCK : Z := 0x00002000.
Definition NGX_HTTP_PATCH : Z := 0x00004000.
Definition NGX_HTTP_TRACE : Z := 0x00008000.
Definition NGX_HTTP_CONNECT : Z := 0x00010000.

(** The fields of [ngx_http_request_t] the parser sets, in groups; a pointer is
    an offset in the header buffer, [None] is NULL. *)
Record marks : Set := Marks {
  request_start : option nat; method_end : option nat; request_end : option nat;
  http_protocol : option nat }.

Record target : Set := Target {
  schema_start : option nat; schema_end : option nat;
  host_start : option nat; host_end : option nat;
  uri_start : option nat; uri_end : option nat;
  uri_ext : option nat; args_start : option nat }.

Record flags : Set := Flags {
  complex_uri : bool; quoted_uri : bool; plus_in_uri : bool; empty_path_in_uri : bool }.

Record version : Set := Version {
  method : Z; http_major : Z; http_minor : Z; http_version : Z }.

Record fields : Set := Fields { mk : marks; tg : target; fl : flags; vn : version }.

Record request : Set := Request { state : rl_state; rq : fields }.

(** Assignments. *)
Definition with_mk (r : fields) (k : marks) : fields := Fields k (tg r) (fl r) (vn r).
Definition with_tg (r : fields) (t : target) : fields := Fields (mk r) t (fl r) (vn r).
Definition with_fl (r : fields) (f : flags) : fields := Fields (mk r) (tg r) f (vn r).
Definition with_vn (r : fields) (v : version) : fields := Fields (mk r) (tg r) (fl r) v.

Definition set_request_start (r : fields) (p : nat) : fields :=
  with_mk r (Marks (Some p) (method_end (mk r)) (request_end (mk r)) (http_protocol (mk r))).
Definition set_method_end (r : fields) (p : nat) : fields :=
  with_mk r (Marks (request_start (mk r)) (Some p) (request_end (mk r)) (http_protocol (mk r))).
Definition set_request_end (r : fields) (p : nat) : fields :=
  with_mk r (Marks (request_start (mk r)) (method_end (mk r)) (Some p) (http_protocol (mk r))).
Definition set_http_protocol (r : fields) (p : nat) : fields :=
  with_mk r (Marks (request_start (mk r)) (method_end (mk r)) (request_end (mk r)) (Some p)).

Definition set_schema_start (r : fields) (p : nat) : fields :=
  let t := tg r in with_tg r (Target (Some p) (schema_end t) (host_start t) (host_end t)
    (uri_start t) (uri_end t) (uri_ext t) (args_start t)).
Definition set_schema_end (r : fields) (p : nat) : fields :=
  let t := tg r in with_tg r (Target (schema_start t) (Some p) (host_start t) (host_end t)
    (uri_start t) (uri_end t) (uri_ext t) (args_start t)).
Definition set_host_start (r : fields) (p : nat) : fields :=
  let t := tg r in with_tg r (Target (schema_start t) (schema_end t) (Some p) (host_end t)
    (uri_start t) (uri_end t) (uri_ext t) (args_start t)).
Definition set_host_end (r : fields) (p : nat) : fields :=
  let t := tg r in with_tg r (Target (schema_start t) (schema_end t) (host_start t) (Some p)
    (uri_start t) (uri_end t) (uri_ext t) (args_start t)).
Definition set_uri_start (r : fields) (p : nat) : fields :=
  let t := tg r in with_tg r (Target (schema_start t) (schema_end t) (host_start t) (host_end t)
    (Some p) (uri_end t) (uri_ext t) (args_start t)).
Definition set_uri_end (r : fields) (p : nat) : fields :=
  let t := tg r in with_tg r (Target (schema_start t) (schema_end t) (host_start t) (host_end t)
    (uri_start t) (Some p) (uri_ext t) (args_start t)).
Definition set_uri_ext (r : fields) (e : option nat) : fields :=
  let t := tg r in with_tg r (Target (schema_start t) (schema_end t) (host_start t) (host_end t)
    (uri_start t) (uri_end t) e (args_start t)).
Definition set_args_start (r : fields) (p : nat) : fields :=
  let t := tg r in with_tg r (Target (schema_start t) (schema_end t) (host_start t) (host_end t)
    (uri_start t) (uri_end t) (uri_ext t) (Some p)).

Definition set_complex (r : fields) : fields :=
  with_fl r (Flags true (quoted_uri (fl r)) (plus_in_uri (fl r)) (empty_path_in_uri (fl r))).
Definition set_quoted (r : fields) : fields :=
  with_fl r (Flags (complex_uri (fl r)) true (plus_in_uri (fl r)) (empty_path_in_uri (fl r))).
Definition set_plus (r : fields) : fields :=
  with_fl r (Flags (complex_uri (fl r)) (quoted_uri (fl r)) true (empty_path_in_uri (fl r))).
Definition set_empty_path (r : fields) : fields :=
  with_fl r (Flags (complex_uri (fl r)) (quoted_uri (fl r)) (plus_in_uri (fl r)) true).

Definition set_method (r : fields) (m : Z) : fields :=
  with_vn r (Version m (http_major (vn r)) (http_minor (vn r)) (http_version (vn r))).
(** [http_major] and [http_minor] are bit fields of 16 bits. *)
Definition set_major (r : fields) (v : Z) : fields :=
  with_vn r (Version (method (vn r)) (u16 v) (http_minor (vn r)) (http_version (vn r))).
Definition set_minor (r : fields) (v : Z) : fields :=
  with_vn r (Version (method (vn r)) (http_major (vn r)) (u16 v) (http_version (vn r))).

(** How a case of the [switch] ends. *)
Inductive rl_ctl : Set :=
| Go (s : rl_state) (r : fields)
| Done (r : fields)
| Err (rc : Z) (r : fields).

(** *** Methods

    The macros load four bytes as a little-endian word.  [m] is the text from
    [r->request_start]; the mask of [ngx_str6cmp] drops the bytes after the
    method, which may be past the end of the buffer. *)
Definition byte_at (m : list Z) (k : nat) : Z := nth k m 0.

Definition word32 (c0 c1 c2 c3 : Z) : Z :=
  Z.lor (Z.lor (Z.lor (Z.shiftl c3 24) (Z.shiftl c2 16)) (Z.shiftl c1 8)) c0.

Definition load32 (m : list Z) (k : nat) : Z :=
  word32 (byte_at m k) (byte_at m (k + 1)) (byte_at m (k + 2)) (byte_at m (k + 3)).

Definition ngx_str4cmp (m : list Z) (c0 c1 c2 c3 : Z) : bool :=
  load32 m 0 =? word32 c0 c1 c2 c3.
Definition ngx_str3_cmp (m : list Z) (c0 c1 c2 c3 : Z) : bool :=
  load32 m 0 =? word32 c0 c1 c2 c3.
Definition ngx_str3Ocmp (m : list Z) (c0 c1 c2 c3 : Z) : bool :=
  load32 m 0 =? word32 c0 c1 c2 c3.
Definition ngx_str5cmp (m : list Z) (c0 c1 c2 c3 c4 : Z) : bool :=
  ((load32 m 0 =? word32 c0 c1 c2 c3) && (byte_at m 4 =? c4))%bool.
Definition ngx_str6cmp (m : list Z) (c0 c1 c2 c3 c4 c5 : Z) : bool :=
  ((load32 m 0 =? word32 c0 c1 c2 c3)
   && (Z.land (load32 m 4) 0xffff =? Z.lor (Z.shiftl c5 8) c4))%bool.
Definition ngx_str7_cmp (m : list Z) (c0 c1 c2 c3 c4 c5 c6 c7 : Z) : bool :=
  ((load32 m 0 =? word32 c0 c1 c2 c3) && (load32 m 4 =? word32 c4 c5 c6 c7))%bool.
Definition ngx_str8cmp (m : list Z) (c0 c1 c2 c3 c4 c5 c6 c7 : Z) : bool :=
  ((load32 m 0 =? word32 c0 c1 c2 c3) && (load32 m 4 =? word32 c4 c5 c6 c7))%bool.
Definition ngx_str9cmp (m : list Z) (c0 c1 c2 c3 c4 c5 c6 c7 c8 : Z) : bool :=
  ((load32 m 0 =? word32 c0 c1 c2 c3) && (load32 m 4 =? word32 c4 c5 c6 c7)
   && (byte_at m 8 =? c8))%bool.

(** The [switch (p - m)]: the method of [n] bytes at [m], [old] when unknown. *)
Definition method_of (m : list Z) (n : nat) (old : Z) : Z :=
  match n with
  | 3%nat =>
      if ngx_str3_cmp m "G"%chr "E"%chr "T"%chr " "%chr then NGX_HTTP_GET
      else if ngx_str3_cmp m "P"%chr "U"%chr "T"%chr " "%chr then NGX_HTTP_PUT
      else old
  | 4%nat =>
      if byte_at m 1 =? "O"%chr then
        if ngx_str3Ocmp m "P"%chr "O"%chr "S"%chr "T"%chr then NGX_HTTP_POST
        else if ngx_str3Ocmp m "C"%chr "O"%chr "P"%chr "Y"%chr then NGX_HTTP_COPY
        else if ngx_str3Ocmp m "M"%chr "O"%chr "V"%chr "E"%chr then NGX_HTTP_MOVE
        else if ngx_str3Ocmp m "L"%chr "O"%chr "C"%chr "K"%chr then NGX_HTTP_LOCK
        else old
      else if ngx_str4cmp m "H"%chr "E"%chr "A"%chr "D"%chr then NGX_HTTP_HEAD
      else old
  | 5%nat =>
      if ngx_str5cmp m "M"%chr "K"%chr "C"%chr "O"%chr "L"%chr then NGX_HTTP_MKCOL
      else if ngx_str5cmp m "P"%chr "A"%chr "T"%chr "C"%chr "H"%chr then NGX_HTTP_PATCH
      else if ngx_str5cmp m "T"%chr "R"%chr "A"%chr "C"%chr "E"%chr then NGX_HTTP_TRACE
      else old
  | 6%nat =>
      if ngx_str6cmp m "D"%chr "E"%chr "L"%chr "E"%chr "T"%chr "E"%chr then NGX_HTTP_DELETE
      else if ngx_str6cmp m "U"%chr "N"%chr "L"%chr "O"%chr "C"%chr "K"%chr then NGX_HTTP_UNLOCK
      else old
  | 7%nat =>
      let old :=
        if ngx_str7_cmp m "O"%chr "P"%chr "T"%chr "I"%chr "O"%chr "N"%chr "S"%chr " "%chr
        then NGX_HTTP_OPTIONS else old in
      if ngx_str7_cmp m "C"%chr "O"%chr "N"%chr "N"%chr "E"%chr "C"%chr "T"%chr " "%chr
      then NGX_HTTP_CONNECT else old
  | 8%nat =>
      if ngx_str8cmp m "P"%chr "R"%chr "O"%chr "P"%chr "F"%chr "I"%chr "N"%chr "D"%chr
      then NGX_HTTP_PROPFIND else old
  | 9%nat =>
      if ngx_str9cmp m "P"%chr "R"%chr "O"%chr "P"%chr "P"%chr "A"%chr "T"%chr "C"%chr "H"%chr
      then NGX_HTTP_PROPPATCH else old
  | _ => old
  end.

(** *** The cases of the state machine *)

Definition method_char (ch : Z) : bool :=
  negb (((ch <? "A"%chr) || ("Z"%chr <? ch)) && negb (ch =? "_"%chr) && negb (ch =? "-"%chr)).

Definition alpha (ch : Z) : bool :=
  let c := u8 (Z.lor ch 0x20) in (("a"%chr <=? c) && (c <=? "z"%chr))%bool.

Definition bad_char (ch : Z) : bool := ((ch <? 0x20) || (ch =? 0x7f))%bool.

Definition start_step (p : nat) (ch : Z) (r : fields) : rl_ctl :=
  let r := set_request_start r p in
  if ((ch =? CR) || (ch =? LF))%bool then Go sw_start r
  else if negb (method_char ch) then Err NGX_HTTP_PARSE_INVALID_METHOD r
  else Go sw_method r.

(** [m] is the buffer. *)
Definition method_step (m : list Z) (p : nat) (ch : Z) (r : fields) : rl_ctl :=
  if ch =? " "%chr then
    let r := set_method_end r (p - 1) in
    let s := match request_start (mk r) with Some s => s | None => O end in
    Go sw_spaces_before_uri (set_method r (method_of (skipn s m) (p - s) (method (vn r))))
  else if negb (method_char ch) then Err NGX_HTTP_PARSE_INVALID_METHOD r
  else Go sw_method r.

Definition spaces_before_uri_step (p : nat) (ch : Z) (r : fields) : rl_ctl :=
  if ch =? "/"%chr then Go sw_after_slash_in_uri (set_uri_start r p)
  else if alpha ch then Go sw_schema (set_schema_start r p)
  else if ch =? " "%chr then Go sw_spaces_before_uri r
  else Err NGX_HTTP_PARSE_INVALID_REQUEST r.

Definition schema_step (p : nat) (ch : Z) (r : fields) : rl_ctl :=
  if alpha ch then Go sw_schema r
  else if (is_digit ch || (ch =? "+"%chr) || (ch =? "-"%chr) || (ch =? "."%chr))%bool
  then Go sw_schema r
  else if ch =? ":"%chr then Go sw_schema_slash (set_schema_end r p)
  else Err NGX_HTTP_PARSE_INVALID_REQUEST r.

Definition slash_then (s : rl_state) (ch : Z) (r : fields) : rl_ctl :=
  if ch =? "/"%chr then Go s r else Err NGX_HTTP_PARSE_INVALID_REQUEST r.

(** What may follow the host, or the port. *)
Definition authority_end (p : nat) (ch : Z) (r : fields) : rl_ctl :=
  if ch =? "/"%chr then Go sw_after_slash_in_uri (set_uri_start r p)
  else if ch =? "?"%chr
  then Go sw_uri (set_empty_path (set_args_start (set_uri_start r p) (p + 1)))
  else if ch =? " "%chr then
    let e := match schema_end (tg r) with Some e => e | None => O end in
    Go sw_http_09 (set_uri_end (set_uri_start r (e + 1)) (e + 2))
  else Err NGX_HTTP_PARSE_INVALID_REQUEST r.

Definition host_end_step (p : nat) (ch : Z) (r : fields) : rl_ctl :=
  let r := set_host_end r p in
  if ch =? ":"%chr then Go sw_port r else authority_end p ch r.

Definition host_step (p : nat) (ch : Z) (r : fields) : rl_ctl :=
  if alpha ch then Go sw_host r
  else if (is_digit ch || (ch =? "."%chr) || (ch =? "-"%chr))%bool then Go sw_host r
  else host_end_step p ch r.

Definition host_start_step (p : nat) (ch : Z) (r : fields) : rl_ctl :=
  let r := set_host_start r p in
  if ch =? "["%chr then Go sw_host_ip_literal r else host_step p ch r.

Definition ip_literal_char (ch : Z) : bool :=
  existsb (Z.eqb ch) (bs ":-._~!$&'()*+,;=").

Definition host_ip_literal_step (ch : Z) (r : fields) : rl_ctl :=
  if is_digit ch then Go sw_host_ip_literal r
  else if alpha ch then Go sw_host_ip_literal r
  else if ch =? "]"%chr then Go sw_host_end r
  else if ip_literal_char ch then Go sw_host_ip_literal r
  else Err NGX_HTTP_PARSE_INVALID_REQUEST r.

Definition port_step (p : nat) (ch : Z) (r : fields) : rl_ctl :=
  if is_digit ch then Go sw_port r else authority_end p ch r.

(** A space or an end of line after the URI. *)
Definition uri_stop (p : nat) (ch : Z) (r : fields) : option rl_ctl :=
  if ch =? " "%chr then Some (Go sw_http_09 (set_uri_end r p))
  else if ch =? CR then Some (Go sw_almost_done (set_minor (set_uri_end r p) 9))
  else if ch =? LF then Some (Done (set_minor (set_uri_end r p) 9))
  else None.

(** The cases of the URI states after the space and the ends of line;
    [invalid] are the bytes they refuse. *)
Definition after_slash_rest (invalid : Z -> bool) (p : nat) (ch : Z) (r : fields)
  : option (rl_state * fields) :=
  if ch =? "."%chr then Some (sw_uri, set_complex r)
  else if ch =? "%"%chr then Some (sw_uri, set_quoted r)
  else if ch =? "/"%chr then Some (sw_uri, set_complex r)
  else if ch =? "?"%chr then Some (sw_uri, set_args_start r (p + 1))
  else if ch =? "#"%chr then Some (sw_uri, set_complex r)
  else if ch =? "+"%chr then Some (sw_after_slash_in_uri, set_plus r)
  else if invalid ch then None
  else Some (sw_check_uri, r).

Definition check_uri_rest (invalid : Z -> bool) (p : nat) (ch : Z) (r : fields)
  : option (rl_state * fields) :=
  if ch =? "/"%chr then Some (sw_after_slash_in_uri, set_uri_ext r None)
  else if ch =? "."%chr then Some (sw_check_uri, set_uri_ext r (Some (p + 1)%nat))
  else if ch =? "%"%chr then Some (sw_uri, set_quoted r)
  else if ch =? "?"%chr then Some (sw_uri, set_args_start r (p + 1))
  else if ch =? "#"%chr then Some (sw_uri, set_complex r)
  else if ch =? "+"%chr then Some (sw_check_uri, set_plus r)
  else if invalid ch then None
  else Some (sw_check_uri, r).

Definition uri_rest (invalid : Z -> bool) (ch : Z) (r : fields) : option (rl_state * fields) :=
  if ch =? "#"%chr then Some (sw_uri, set_complex r)
  else if invalid ch then None
  else Some (sw_uri, r).

Definition go_on (c : option (rl_state * fields)) (r : fields) : rl_ctl :=
  match c with
  | Some (s, r') => Go s r'
  | None => Err NGX_HTTP_PARSE_INVALID_REQUEST r
  end.

Definition after_slash_step (p : nat) (ch : Z) (r : fields) : rl_ctl :=
  if Uri.is_usual ch then Go sw_check_uri r
  else match uri_stop p ch r with
  | Some c => c
  | None => go_on (after_slash_rest bad_char p ch r) r
  end.

Definition check_uri_step (p : nat) (ch : Z) (r : fields) : rl_ctl :=
  if Uri.is_usual ch then Go sw_check_uri r
  else match uri_stop p ch r with
  | Some c => c
  | None => go_on (check_uri_rest bad_char p ch r) r
  end.

Definition uri_step (p : nat) (ch : Z) (r : fields) : rl_ctl :=
  if Uri.is_usual ch then Go sw_uri r
  else match uri_stop p ch r with
  | Some c => c
  | None => go_on (uri_rest bad_char ch r) r
  end.

Definition http_09_step (p : nat) (ch : Z) (r : fields) : rl_ctl :=
  if ch =? " "%chr then Go sw_http_09 r
  else if ch =? CR then Go sw_almost_done (set_minor r 9)
  else if ch =? LF then Done (set_minor r 9)
  else if ch =? "H"%chr then Go sw_http_H (set_http_protocol r p)
  else Err NGX_HTTP_PARSE_INVALID_REQUEST r.

Definition expect (c : Z) (s : rl_state) (ch : Z) (r : fields) : rl_ctl :=
  if ch =? c then Go s r else Err NGX_HTTP_PARSE_INVALID_REQUEST r.

Definition first_major_step (ch : Z) (r : fields) : rl_ctl :=
  if ((ch <? "1"%chr) || ("9"%chr <? ch))%bool then Err NGX_HTTP_PARSE_INVALID_REQUEST r
  else
    let r := set_major r (ch - "0"%chr) in
    if 1 <? http_major (vn r) then Err NGX_HTTP_PARSE_INVALID_VERSION r
    else Go sw_major_digit r.

Definition major_step (ch : Z) (r : fields) : rl_ctl :=
  if ch =? "."%chr then Go sw_first_minor_digit r
  else if negb (is_digit ch) then Err NGX_HTTP_PARSE_INVALID_REQUEST r
  else
    let r := set_major r (http_major (vn r) * 10 + (ch - "0"%chr)) in
    if 1 <? http_major (vn r) then Err NGX_HTTP_PARSE_INVALID_VERSION r
    else Go sw_major_digit r.

Definition first_minor_step (ch : Z) (r : fields) : rl_ctl :=
  if negb (is_digit ch) then Err NGX_HTTP_PARSE_INVALID_REQUEST r
  else Go sw_minor_digit (set_minor r (ch - "0"%chr)).

Definition minor_step (ch : Z) (r : fields) : rl_ctl :=
  if ch =? CR then Go sw_almost_done r
  else if ch =? LF then Done r
  else if ch =? " "%chr then Go sw_spaces_after_digit r
  else if negb (is_digit ch) then Err NGX_HTTP_PARSE_INVALID_REQUEST r
  else if 99 <? http_minor (vn r) then Err NGX_HTTP_PARSE_INVALID_REQUEST r
  else Go sw_minor_digit (set_minor r (http_minor (vn r) * 10 + (ch - "0"%chr))).

Definition spaces_after_step (ch : Z) (r : fields) : rl_ctl :=
  if ch =? " "%chr then Go sw_spaces_after_digit r
  else if ch =? CR then Go sw_almost_done r
  else if ch =? LF then Done r
  else Err NGX_HTTP_PARSE_INVALID_REQUEST r.

Definition almost_done_step (p : nat) (ch : Z) (r : fields) : rl_ctl :=
  let r := set_request_end r (p - 1) in
  if ch =? LF then Done r else Err NGX_HTTP_PARSE_INVALID_REQUEST r.

Definition rl_step (m : list Z) (s : rl_state) (p : nat) (ch : Z) (r : fields) : rl_ctl :=
  match s with
  | sw_start => start_step p ch r
  | sw_method => method_step m p ch r
  | sw_spaces_before_uri => spaces_before_uri_step p ch r
  | sw_schema => schema_step p ch r
  | sw_schema_slash => slash_then sw_schema_slash_slash ch r
  | sw_schema_slash_slash => slash_then sw_host_start ch r
  | sw_host_start => host_start_step p ch r
  | sw_host => host_step p ch r
  | sw_host_end => host_end_step p ch r
  | sw_host_ip_literal => host_ip_literal_step ch r
  | sw_port => port_step p ch r
  | sw_after_slash_in_uri => after_slash_step p ch r
  | sw_check_uri => check_uri_step p ch r
  | sw_uri => uri_step p ch r
  | sw_http_09 => http_09_step p ch r
  | sw_http_H => expect "T"%chr sw_http_HT ch r
  | sw_http_HT => expect "T"%chr sw_http_HTT ch r
  | sw_http_HTT => expect "P"%chr sw_http_HTTP ch r
  | sw_http_HTTP => expect "/"%chr sw_first_major_digit ch r
  | sw_first_major_digit => first_major_step ch r
  | sw_major_digit => major_step ch r
  | sw_first_minor_digit => first_minor_step ch r
  | sw_minor_digit => minor_step ch r
  | sw_spaces_after_digit => spaces_after_step ch r
  | sw_almost_done => almost_done_step p ch r
  end.

(** The loop from position [p], where [l] is what is left of the buffer:
    how it ends, and where. *)
Fixpoint rl_loop (m : list Z) (s : rl_state) (p : nat) (l : list Z) (r : fields)
  : rl_ctl * nat :=
  match l with
  | [] => (Go s r, p)
  | ch :: l' =>
      match rl_step m s p ch r with
      | Go s' r' => rl_loop m s' (S p) l' r'
      | c => (c, p)
      end
  end.

(** The [done] label: [r->request_end] and [r->http_version]. *)
Definition line_done (r : fields) (p : nat) : fields :=
  let r := match request_end (mk r) with None => set_request_end r p | Some _ => r end in
  let v := vn r in
  with_vn r (Version (method v) (http_major v) (http_minor v)
               (http_major v * 1000 + http_minor v)).

(** Return code, request, [b->pos]. *)
Definition ngx_http_parse_request_line (r : request) (m : list Z) (pos : nat)
  : Z * request * nat :=
  match rl_loop m (state r) pos (skipn pos m) (rq r) with
  | (Go s r', p) => (NGX_AGAIN, Request s r', p)
  | (Err rc r', _) => (rc, Request (state r) r', pos)
  | (Done r', p) =>
      let r' := line_done r' p in
      (if ((http_version (vn r') =? 9) && negb (method (vn r') =? NGX_HTTP_GET))%bool
       then NGX_HTTP_PARSE_INVALID_09_METHOD else NGX_OK, Request sw_start r', S p)
  end.

(** *** The path alone

    [ngx_http_parse_uri]; [l] is the text from [r->uri_start] to [r->uri_end]
    and [p] its position.  [None] is [NGX_ERROR]. *)
Definition bad_path_char (ch : Z) : bool := ((ch <=? 0x20) || (ch =? 0x7f))%bool.

Definition pu_step (s : rl_state) (p : nat) (ch : Z) (r : fields)
  : option (rl_state * fields) :=
  match s with
  | sw_start => if ch =? "/"%chr then Some (sw_after_slash_in_uri, r) else None
  | sw_after_slash_in_uri =>
      if Uri.is_usual ch then Some (sw_check_uri, r) else after_slash_rest bad_path_char p ch r
  | sw_check_uri =>
      if Uri.is_usual ch then Some (sw_check_uri, r) else check_uri_rest bad_path_char p ch r
  | _ => if Uri.is_usual ch then Some (sw_uri, r) else uri_rest bad_path_char ch r
  end.

Fixpoint pu_loop (s : rl_state) (p : nat) (l : list Z) (r : fields) : option fields :=
  match l with
  | [] => Some r
  | ch :: l' =>
      match pu_step s p ch r with
      | Some (s', r') => pu_loop s' (S p) l' r'
      | None => None
      end
  end.

Definition ptr (o : option nat) : nat := match o with Some p => p | None => O end.

Definition ngx_http_parse_uri (r : fields) (m : list Z) : option fields :=
  let s := ptr (uri_start (tg r)) in
  pu_loop sw_start s (slice m s (ptr (uri_end (tg r)))) r.

(** *** The URI of the request *)
Record request_uri : Set := RequestUri {
  ru_uri : list Z; ru_exten : list Z; ru_args : list Z;
  ru_unparsed : list Z; ru_valid_unparsed : bool }.

Definition text (o : option (list Z)) : list Z := match o with Some l => l | None => [] end.

(** [None]: the request is closed, for lack of memory, or refused. *)
Definition ngx_http_process_request_uri (pnalloc merge_slashes : bool) (r : fields) (m : list Z)
  : option request_uri :=
  let t := tg r in
  let f := fl r in
  let s := ptr (uri_start t) in
  let e := ptr (uri_end t) in
  let path_end := match args_start t with Some a => (a - 1)%nat | None => e end in
  let unparsed := slice m s e in
  let valid := negb (empty_path_in_uri f) in
  if (complex_uri f || quoted_uri f || empty_path_in_uri f)%bool then
    if pnalloc then
      match Uri.ngx_http_parse_complex_uri unparsed (empty_path_in_uri f) (plus_in_uri f)
              (quoted_uri f) merge_slashes with
      | Some u =>
          Some (RequestUri (Uri.r_uri u) (text (Uri.r_exten u))
                  (match Uri.r_args_start u with
                   | Some (c :: a) => c :: a
                   | _ => text (Uri.r_args u)
                   end) unparsed valid)
      | None => None
      end
    else None
  else
    Some (RequestUri (slice m s path_end)
            (match uri_ext t with Some x => slice m x path_end | None => [] end)
            (match args_start t with
             | Some a => if (a <? e)%nat then slice m a e else []
             | None => []
             end) unparsed valid).

(** The fields of a request as [ngx_http_alloc_request] leaves them. *)
Definition new_request : request :=
  Request sw_start
    (Fields (Marks None None None None) (Target None None None None None None None None)
       (Flags false false false false) (Version NGX_HTTP_UNKNOWN 0 0 1000)).

(** ** Specifications *)

(** The methods by name. *)
Definition methods : list (list Z * Z) :=
  [(bs "GET", NGX_HTTP_GET); (bs "HEAD", NGX_HTTP_HEAD); (bs "POST", NGX_HTTP_POST);
   (bs "PUT", NGX_HTTP_PUT); (bs "DELETE", NGX_HTTP_DELETE); (bs "MKCOL", NGX_HTTP_MKCOL);
   (bs "COPY", NGX_HTTP_COPY); (bs "MOVE", NGX_HTTP_MOVE); (bs "OPTIONS", NGX_HTTP_OPTIONS);
   (bs "PROPFIND", NGX_HTTP_PROPFIND); (bs "PROPPATCH", NGX_HTTP_PROPPATCH);
   (bs "LOCK", NGX_HTTP_LOCK); (bs "UNLOCK", NGX_HTTP_UNLOCK); (bs "PATCH", NGX_HTTP_PATCH);
   (bs "TRACE", NGX_HTTP_TRACE); (bs "CONNECT", NGX_HTTP_CONNECT)].

Fixpoint bytes_eqb (a b : list Z) : bool :=
  match a, b with
  | [], [] => true
  | x :: a', y :: b' => ((x =? y) && bytes_eqb a' b')%bool
  | _, _ => false
  end.

Definition same_name (a b : list Z) : bool :=
  (Nat.eqb (length a) (length b) && bytes_eqb a b)%bool.

Definition method_named (name : list Z) (old : Z) : Z :=
  match find (fun p => same_name name (fst p)) methods with
  | Some (_, c) => c
  | None => old
  end.

(** ** Lemmas: methods *)

Lemma word_byte3 c0 c1 c2 c3 : is_byte c0 -> is_byte c1 -> is_byte c2 -> is_byte c3 ->
  word32 c0 c1 c2 c3 = c0 + 256 * c1 + 65536 * c2 + 16777216 * c3.
Proof.
  intros H0 H1 H2 H3. unfold word32. change 24 with (8 + (8 + 8)). change 16 with (8 + 8).
  rewrite <- !Z.shiftl_shiftl by lia. rewrite <- !Z.shiftl_lor.
  repeat rewrite lor_shiftl_add by byte_lia. byte_lia.
Qed.

Lemma word_eq c0 c1 c2 c3 d0 d1 d2 d3 :
  wf_bytes [c0; c1; c2; c3] -> wf_bytes [d0; d1; d2; d3] ->
  (word32 c0 c1 c2 c3 =? word32 d0 d1 d2 d3) =
  ((c0 =? d0) && ((c1 =? d1) && ((c2 =? d2) && (c3 =? d3))))%bool.
Proof.
  intros H H'. inv_bytes. rewrite !word_byte3 by assumption.
  destruct (Z.eqb_spec c0 d0), (Z.eqb_spec c1 d1), (Z.eqb_spec c2 d2), (Z.eqb_spec c3 d3);
    cbn [andb]; byte_lia.
Qed.

(** The mask of [ngx_str6cmp] keeps the two low bytes. *)
Lemma word_mask c0 c1 c2 c3 d0 d1 :
  wf_bytes [c0; c1; c2; c3] -> is_byte d0 -> is_byte d1 ->
  (Z.land (word32 c0 c1 c2 c3) 0xffff =? Z.lor (Z.shiftl d1 8) d0) =
  ((c0 =? d0) && (c1 =? d1))%bool.
Proof.
  intros H D0 D1. inv_bytes. rewrite word_byte3 by assumption.
  rewrite lor_shiftl_add by byte_lia. change 0xffff with (Z.ones 16).
  rewrite Z.land_ones by lia. change (2 ^ 16) with 65536. change (2 ^ 8) with 256.
  replace (c0 + 256 * c1 + 65536 * c2 + 16777216 * c3)
    with (c0 + 256 * c1 + (c2 + 256 * c3) * 65536) by lia.
  rewrite Z.mod_add, Z.mod_small by byte_lia.
  destruct (Z.eqb_spec c0 d0), (Z.eqb_spec c1 d1); cbn [andb]; byte_lia.
Qed.

Lemma byte_at_byte m k : wf_bytes m -> is_byte (byte_at m k).
Proof.
  intros H. unfold byte_at. destruct (nth_in_or_default k m 0) as [I | ->]; [|byte_lia].
  exact (proj1 (Forall_forall _ _) H _ I).
Qed.

Lemma load32_eq m k d0 d1 d2 d3 : wf_bytes m -> wf_bytes [d0; d1; d2; d3] ->
  (load32 m k =? word32 d0 d1 d2 d3) =
  ((byte_at m k =? d0) && ((byte_at m (k + 1) =? d1)
    && ((byte_at m (k + 2) =? d2) && (byte_at m (k + 3) =? d3))))%bool.
Proof.
  intros H D. apply word_eq; [|exact D]. repeat constructor; now apply byte_at_byte.
Qed.

Lemma load32_mask m k d0 d1 : wf_bytes m -> is_byte d0 -> is_byte d1 ->
  (Z.land (load32 m k) 0xffff =? Z.lor (Z.shiftl d1 8) d0) =
  ((byte_at m k =? d0) && (byte_at m (k + 1) =? d1))%bool.
Proof.
  intros H D0 D1. apply word_mask; auto. repeat constructor; now apply byte_at_byte.
Qed.

(** The word comparisons of a method and a space are comparisons of names. *)
Lemma method_of_spec name rest old :
  wf_bytes (name ++ " "%chr :: rest) ->
  method_of (name ++ " "%chr :: rest) (length name) old = method_named name old.
Proof.
  intros H. unfold method_named, methods.
  destruct name as [|c0 [|c1 [|c2 [|c3 [|c4 [|c5 [|c6 [|c7 [|c8 [|c9 name]]]]]]]]]];
    try reflexivity; cbn [length method_of app] in *;
    unfold ngx_str3_cmp, ngx_str3Ocmp, ngx_str4cmp, ngx_str5cmp, ngx_str6cmp, ngx_str7_cmp,
      ngx_str8cmp, ngx_str9cmp;
    repeat first [rewrite load32_eq by first [exact H | repeat constructor; discriminate]
                 |rewrite load32_mask by first [exact H | split; discriminate || reflexivity]];
    unfold same_name, bs, byte_at; cbn -[Z.eqb];
    rewrite ?andb_true_r, <- ?andb_assoc, ?Z.eqb_refl; cbn [andb find fst].
  all: repeat (case_if; try reflexivity; try (exfalso; lia)).
Qed.

(** ** Lemmas: a line that arrives in parts *)

(** The method is the name between the start of the request and the space. *)
Lemma method_at m s p t old : wf_bytes m -> (s <= p)%nat -> skipn p m = " "%chr :: t ->
  method_of (skipn s m) (p - s) old = method_named (slice m s p) old.
Proof.
  intros Hw Hs H. destruct (skipn_nth m p _ t H) as (_ & _ & Hp).
  rewrite (slice_split m s p Hs), H. rewrite <- (slice_length m s p) by lia.
  apply method_of_spec. rewrite <- H, <- slice_split by exact Hs. now apply wf_skipn.
Qed.

Lemma rl_step_prefix m1 m2 s p ch t r :
  wf_bytes (m1 ++ m2) -> skipn p m1 = ch :: t ->
  rl_step (m1 ++ m2) s p ch r = rl_step m1 s p ch r.
Proof.
  intros Hw H. destruct s; try reflexivity. cbn [rl_step]. unfold method_step.
  destruct (Z.eqb_spec ch 32) as [->|]; [|reflexivity]. cbv zeta. do 2 f_equal.
  apply wf_bytes_app in Hw as Hw'. destruct Hw' as [Hw1 _].
  set (s := match _ with Some s => s | None => O end).
  destruct (skipn_nth m1 p _ t H) as (_ & _ & Hp).
  destruct (Nat.le_gt_cases s p) as [Hs|Hs]; [|now replace (p - s)%nat with O by lia].
  rewrite (method_at m1 s p t) by assumption. rewrite (method_at (m1 ++ m2) s p (t ++ m2)); auto.
  - f_equal. unfold slice. rewrite skipn_app, firstn_app.
    rewrite length_skipn. replace (p - s - (length m1 - s))%nat with O by lia.
    cbn [firstn]. now rewrite app_nil_r.
  - rewrite skipn_app, H. now replace (p - length m1)%nat with O by lia.
Qed.

Lemma rl_loop_prefix m1 m2 : wf_bytes (m1 ++ m2) -> forall l s p r,
  skipn p m1 = l -> rl_loop (m1 ++ m2) s p l r = rl_loop m1 s p l r.
Proof.
  intros Hw. induction l as [|ch l IH]; intros s p r H; [reflexivity|].
  cbn [rl_loop]. rewrite (rl_step_prefix m1 m2 s p ch l r Hw H).
  destruct (rl_step m1 s p ch r); try reflexivity. apply IH.
  now apply (skipn_nth m1 p ch l).
Qed.

Lemma rl_loop_app m l1 l2 : forall s p r,
  rl_loop m s p (l1 ++ l2) r =
  match rl_loop m s p l1 r with
  | (Go s' r', p') => rl_loop m s' p' l2 r'
  | c => c
  end.
Proof.
  induction l1 as [|ch l1 IH]; intros s p r; [reflexivity|]. cbn [app rl_loop].
  destruct (rl_step m s p ch r); try reflexivity. apply IH.
Qed.

Lemma rl_loop_again m s p l r s' r' p' :
  rl_loop m s p l r = (Go s' r', p') -> p' = (p + length l)%nat.
Proof.
  revert s p r. induction l as [|ch l IH]; intros s p r; cbn [rl_loop length].
  - intros [= _ _ <-]. lia.
  - destruct (rl_step m s p ch r); try discriminate. intros H. apply IH in H. lia.
Qed.

(** What a caller sees of a result: where an error was found does not matter. *)
Definition observed (x : Z * request * nat) : Z * fields * option (rl_state * nat) :=
  let '(rc, r, p) := x in
  (rc, rq r, if ((rc =? NGX_OK) || (rc =? NGX_AGAIN) || (rc =? NGX_HTTP_PARSE_INVALID_09_METHOD))%bool
             then Some (state r, p) else None).

Definition err_code (rc : Z) : Prop :=
  rc = NGX_HTTP_PARSE_INVALID_METHOD \/ rc = NGX_HTTP_PARSE_INVALID_REQUEST
  \/ rc = NGX_HTTP_PARSE_INVALID_VERSION.

Lemma uri_stop_err p ch r c : uri_stop p ch r = Some c ->
  match c with Err _ _ => False | _ => True end.
Proof. unfold uri_stop. repeat case_if; now intros [= <-]. Qed.

Lemma rl_step_err m s p ch r rc r' : rl_step m s p ch r = Err rc r' -> err_code rc.
Proof.
  assert (U : forall o r0, go_on o r0 = Err rc r' -> err_code rc).
  { intros [[s0 f0]|] g; cbn; [discriminate|]. intros [= <- _]. unfold err_code. auto. }
  assert (A : forall r0, authority_end p ch r0 = Err rc r' -> err_code rc).
  { intros r0. unfold authority_end. repeat case_if; try discriminate.
    intros [= <- _]. unfold err_code. auto. }
  assert (H : forall r0, host_end_step p ch r0 = Err rc r' -> err_code rc).
  { intros r0. unfold host_end_step. case_if; [discriminate|apply A]. }
  assert (H' : forall r0, host_step p ch r0 = Err rc r' -> err_code rc).
  { intros r0. unfold host_step. repeat case_if; try discriminate. apply H. }
  destruct s; cbn [rl_step];
    try apply H; try apply H';
    try (unfold after_slash_step, check_uri_step, uri_step; case_if; [discriminate|];
         destruct (uri_stop p ch r) as [c|] eqn:E; [|now apply U];
         apply uri_stop_err in E; intros ->; contradiction);
    unfold start_step, method_step, spaces_before_uri_step, schema_step, slash_then,
      host_start_step, host_ip_literal_step, port_step, http_09_step, expect, first_major_step,
      major_step, first_minor_step, minor_step, spaces_after_step, almost_done_step; cbv zeta;
    repeat case_if; try discriminate; try apply A; try apply H';
    intros [= <- _]; unfold err_code; auto.
Qed.

Lemma rl_loop_err m l : forall s p r rc r' p', rl_loop m s p l r = (Err rc r', p') -> err_code rc.
Proof.
  induction l as [|ch l IH]; intros s p r rc r' p'; cbn [rl_loop]; [discriminate|].
  destruct (rl_step m s p ch r) eqn:E; [apply IH|discriminate|].
  intros [= <- _ _]. now apply rl_step_err in E.
Qed.

Lemma parse_prefix r m1 m2 pos rc r1 p1 :
  wf_bytes (m1 ++ m2) -> (pos <= length m1)%nat ->
  ngx_http_parse_request_line r m1 pos = (rc, r1, p1) ->
  if rc =? NGX_AGAIN
  then p1 = length m1
       /\ observed (ngx_http_parse_request_line r (m1 ++ m2) pos)
          = observed (ngx_http_parse_request_line r1 (m1 ++ m2) p1)
  else ngx_http_parse_request_line r (m1 ++ m2) pos = (rc, r1, p1).
Proof.
  intros Hw Hp. unfold ngx_http_parse_request_line.
  pose proof (rl_loop_prefix m1 m2 Hw (skipn pos m1) (state r) pos (rq r) eq_refl) as P.
  rewrite skipn_app. replace (pos - length m1)%nat with O by lia. cbn [skipn].
  rewrite rl_loop_app, P.
  destruct (rl_loop m1 (state r) pos (skipn pos m1) (rq r)) as [c p] eqn:E.
  destruct c as [s f|f|e f]; cbv zeta.
  - intros [= <- <- <-]. cbn [Z.eqb Pos.eqb state rq]. apply rl_loop_again in E as ->.
    rewrite length_skipn. replace (pos + (length m1 - pos))%nat with (length m1) by lia.
    split; [reflexivity|]. rewrite skipn_app, skipn_all, Nat.sub_diag. cbn [skipn app].
    destruct (rl_loop (m1 ++ m2) s (length m1) m2 f) as [c p'] eqn:E2.
    destruct c as [s2 f2|f2|e2 f2]; try reflexivity.
    apply rl_loop_err in E2 as [-> | [-> | ->]]; reflexivity.
  - match goal with |- context [if ?b then _ else _] => destruct b end; now intros [= <- <- <-].
  - intros [= <- <- <-]. apply rl_loop_err in E as [-> | [-> | ->]]; reflexivity.
Qed.

(** The parser called again each time more of the line has arrived. *)
Fixpoint arrive (r : request) (m : list Z) (pos : nat) (parts : list (list Z))
  : Z * request * nat :=
  match parts with
  | [] => (NGX_AGAIN, r, pos)
  | part :: parts' =>
      let m' := m ++ part in
      let '(rc, r', pos') := ngx_http_parse_request_line r m' pos in
      if rc =? NGX_AGAIN then arrive r' m' pos' parts' else (rc, r', pos')
  end.

(** C2. Reading a request line does not depend on how it arrives: called again
    after each part, from the state and the marks the last call left, the
    parser ends with the same code, fields and position as one call on the
    whole text. *)
Theorem request_line_resumes parts : forall r m,
  wf_bytes (m ++ concat parts) ->
  observed (arrive r m (length m) parts)
  = observed (ngx_http_parse_request_line r (m ++ concat parts) (length m)).
Proof.
  induction parts as [|part parts IH]; intros r m Hw; cbn [concat arrive] in *.
  - rewrite app_nil_r. unfold ngx_http_parse_request_line. rewrite skipn_all. now destruct r.
  - cbv zeta. rewrite app_assoc in *.
    destruct (ngx_http_parse_request_line r (m ++ part) (length m)) as [[rc r1] p1] eqn:E.
    pose proof (parse_prefix r (m ++ part) (concat parts) (length m) rc r1 p1 Hw
      ltac:(rewrite length_app; lia) E) as P.
    destruct (rc =? NGX_AGAIN).
    + destruct P as [-> P]. rewrite IH by exact Hw. now rewrite P.
    + now rewrite P.
Qed.

Example request_line_resumes_witness :
  observed (arrive new_request [] 0 [bs "GE"; bs "T /a%20b HT"; bs "TP/1.1"; [CR]; [LF]])
  = observed (ngx_http_parse_request_line new_request (bs "GET /a%20b HTTP/1.1" ++ [CR; LF]) 0).
Proof.
  apply (request_line_resumes [bs "GE"; bs "T /a%20b HT"; bs "TP/1.1"; [CR]; [LF]] new_request []).
  repeat constructor; discriminate.
Defined.

(** ** Lemmas: what the marks delimit *)

(** Rule induction over the loop: [I] holds at every position, [D] at the end
    of the line. *)
Lemma rl_loop_inv (I : rl_state -> nat -> fields -> Prop) (D : nat -> fields -> Prop) m :
  (forall s p ch t r, skipn p m = ch :: t -> I s p r ->
     match rl_step m s p ch r with
     | Go s' r' => I s' (S p) r'
     | Done r' => D p r'
     | Err _ _ => True
     end) ->
  forall l s p r, skipn p m = l -> I s p r ->
  match rl_loop m s p l r with
  | (Go s' r', p') => I s' p' r'
  | (Done r', p') => D p' r'
  | (Err _ _, _) => True
  end.
Proof.
  intros H. induction l as [|ch l IH]; intros s p r E HI; [exact HI|]. cbn [rl_loop].
  pose proof (H s p ch l r E HI) as S. destruct (rl_step m s p ch r); try exact S.
  apply IH; [|exact S]. now apply (skipn_nth m p ch l).
Qed.

Definition clean (t : list Z) : Prop :=
  Forall (fun c => bad_char c = false /\ c <> " "%chr) t.
Definition not_special (c : Z) : Prop := c <> "%"%chr /\ c <> "?"%chr /\ c <> "#"%chr.

(** An extension marked in the text. *)
Definition ext_in (r : fields) (s : nat) (path : list Z) : Prop :=
  uri_ext (tg r) = None
  \/ exists pre ex, uri_ext (tg r) = Some (s + length pre + 1)%nat /\ path = pre ++ "."%chr :: ex
     /\ Uri.no_slash ex.

(** A path that is its own normal form, and its arguments. *)
Definition plain (m : list Z) (r : fields) (s e : nat) : Prop :=
  exists path rest stack cur,
    slice m s e = path ++ Uri.query rest
    /\ args_start (tg r)
       = match rest with None => None | Some _ => Some (s + length path + 1)%nat end
    /\ Forall not_special path /\ Forall (fun c => c <> "#"%chr) (text rest)
    /\ path = Uri.render stack cur /\ Forall (Uri.kept true) stack /\ Uri.last_ok cur
    /\ ext_in r s path.

Definition flagged (r : fields) : Prop :=
  complex_uri (fl r) = true \/ quoted_uri (fl r) = true \/ empty_path_in_uri (fl r) = true.

(** The URI from [s] to [e], as the marks and the flags describe it. *)
Definition marked (m : list Z) (r : fields) (s e : nat) : Prop :=
  uri_start (tg r) = Some s /\ (s < e <= length m)%nat /\ clean (slice m s e)
  /\ Uri.path_start (empty_path_in_uri (fl r)) (slice m s e) = true
  /\ (flagged r \/ plain m r s e).

(** In the middle of a segment. *)
Definition in_seg (m : list Z) (r : fields) (s p : nat) (stack : list (list Z)) (cur : list Z)
  : Prop :=
  uri_start (tg r) = Some s /\ (s < p <= length m)%nat
  /\ slice m s p = Uri.render stack cur /\ clean (slice m s p)
  /\ Forall not_special (slice m s p) /\ Forall (Uri.kept true) stack /\ Uri.no_slash cur
  /\ empty_path_in_uri (fl r) = false /\ args_start (tg r) = None /\ ext_in r s (slice m s p).

Definition pluses (cur : list Z) : Prop := Forall (fun c => c = "+"%chr) cur.
Definition undotted (cur : list Z) : Prop := exists c t, cur = c :: t /\ c <> "."%chr.

Lemma pluses_last cur : pluses cur -> Uri.last_ok cur.
Proof.
  intros H. split; [eapply Forall_impl; [|exact H]; now intros c ->|].
  destruct cur as [|a [|b [|c cur]]]; auto; inversion H as [|? ? -> H']; subst; auto.
Qed.

Lemma undotted_last cur : Uri.no_slash cur -> undotted cur -> Uri.last_ok cur.
Proof.
  intros H (c & t & -> & N). split; [exact H|].
  destruct t as [|b [|d t]]; cbn; auto; destruct (Z.eqb_spec c 46); auto; contradiction.
Qed.

Lemma undotted_kept cur : Uri.no_slash cur -> undotted cur -> Uri.kept true cur.
Proof.
  intros H U. destruct (undotted_last cur H U) as (H1 & H2 & H3).
  destruct U as (c & t & -> & _). repeat split; auto. discriminate.
Qed.

Lemma in_seg_plain m r s p stack cur :
  in_seg m r s p stack cur -> Uri.last_ok cur -> plain m r s p.
Proof.
  intros (H1 & H2 & H3 & H4 & H5 & H6 & H7 & H8 & H9 & H10) L.
  exists (slice m s p), None, stack, cur. cbn [Uri.query text]. rewrite app_nil_r.
  repeat (split; [solve [auto | reflexivity]|]). exact H10.
Qed.

Lemma render_start e stack cur :
  Uri.path_start e (Uri.render stack cur) = negb e.
Proof. destruct e; reflexivity. Qed.

Lemma in_seg_marked m r s p stack cur :
  in_seg m r s p stack cur -> Uri.last_ok cur -> marked m r s p.
Proof.
  intros H L. pose proof (in_seg_plain _ _ _ _ _ _ H L).
  destruct H as (H1 & H2 & H3 & H4 & H5 & H6 & H7 & H8 & H9 & H10).
  repeat (split; [assumption|]). split; [|now right].
  rewrite H3, render_start, H8. reflexivity.
Qed.

(** One more byte in a segment. *)
Lemma in_seg_char m r r' s p stack cur ch t :
  in_seg m r s p stack cur -> skipn p m = ch :: t ->
  bad_char ch = false -> ch <> " "%chr -> not_special ch -> ch <> "/"%chr ->
  tg r' = tg r -> empty_path_in_uri (fl r') = empty_path_in_uri (fl r) ->
  in_seg m r' s (S p) stack (cur ++ [ch]).
Proof.
  intros (H1 & H2 & H3 & H4 & H5 & H6 & H7 & H8 & H9 & H10) E B N1 N2 N3 T F.
  destruct (skipn_nth m p ch t E) as (_ & _ & Hp).
  unfold in_seg, ext_in. rewrite T, F, (slice_snoc m s p ch t) by (auto; lia).
  rewrite Uri.render_snoc, <- H3.
  assert (A : forall (P : Z -> Prop) l, Forall P l -> P ch -> Forall P (l ++ [ch])).
  { intros P l HF HP. apply Forall_app. auto. }
  do 9 (split; [solve [assumption | reflexivity | lia | apply A; auto]|]).
  destruct H10 as [H10|(pre & ex & E1 & E2 & E3)]; [now left|right].
  exists pre, (ex ++ [ch]). rewrite E2, <- app_assoc. repeat split; auto. now apply A.
Qed.

(** The segment ends. *)
Lemma in_seg_slash m r s p stack cur t :
  in_seg m r s p stack cur -> skipn p m = "/"%chr :: t -> Uri.kept true cur ->
  in_seg m (set_uri_ext r None) s (S p) (cur :: stack) [].
Proof.
  intros (H1 & H2 & H3 & H4 & H5 & H6 & H7 & H8 & H9 & H10) E K.
  destruct (skipn_nth m p _ t E) as (_ & _ & Hp).
  unfold in_seg, ext_in. cbn [set_uri_ext with_tg tg fl uri_start uri_ext args_start].
  rewrite (slice_snoc m s p "/"%chr t) by (auto; lia).
  rewrite Uri.render_push, Uri.render_snoc, <- H3.
  assert (A : forall (P : Z -> Prop) l, Forall P l -> P "/"%chr -> Forall P (l ++ ["/"%chr])).
  { intros P l HF HP. apply Forall_app. auto. }
  repeat (split; [solve [assumption | reflexivity | lia | constructor; assumption
    | apply A; [assumption | repeat split; discriminate] | constructor]|]).
  now left.
Qed.

(** A dot in a segment marks the extension. *)
Lemma in_seg_ext m r s p stack cur t :
  in_seg m r s p stack cur -> skipn p m = "."%chr :: t ->
  in_seg m (set_uri_ext r (Some (p + 1)%nat)) s (S p) stack (cur ++ ["."%chr]).
Proof.
  intros H E.
  pose proof (in_seg_char m r r s p stack cur _ t H E eq_refl ltac:(discriminate)
    ltac:(repeat split; discriminate) ltac:(discriminate) eq_refl eq_refl) as H'.
  destruct H as (_ & H2 & _). destruct H' as (K1 & K2 & K3 & K4 & K5 & K6 & K7 & K8 & K9 & _).
  unfold in_seg, ext_in. cbn [set_uri_ext with_tg tg fl uri_start uri_ext args_start].
  repeat (split; [assumption|]). right. exists (slice m s p), []. split; [|split; [|constructor]].
  - rewrite slice_length by lia. f_equal. lia.
  - apply (slice_snoc m s p _ t); [lia|exact E].
Qed.

(** The question mark: from here on the URI is marked. *)
Lemma in_seg_query m r s p stack cur t :
  in_seg m r s p stack cur -> Uri.last_ok cur -> skipn p m = "?"%chr :: t ->
  marked m (set_args_start r (p + 1)) s (S p)
  /\ plain m (set_args_start r (p + 1)) s (S p) /\ args_start (tg (set_args_start r (p + 1))) <> None.
Proof.
  intros (H1 & H2 & H3 & H4 & H5 & H6 & H7 & H8 & H9 & H10) L E.
  destruct (skipn_nth m p _ t E) as (_ & _ & Hp).
  assert (P : plain m (set_args_start r (p + 1)) s (S p)).
  { exists (slice m s p), (Some []), stack, cur.
    cbn [set_args_start with_tg tg args_start text Uri.query].
    rewrite (slice_snoc m s p "?"%chr t) by (auto; lia). rewrite slice_length by lia.
    split; [reflexivity|]. split; [f_equal; lia|].
    repeat (split; [solve [auto | constructor]|]). exact H10. }
  split; [|split; [exact P|discriminate]].
  unfold marked. rewrite (slice_snoc m s p "?"%chr t) by (auto; lia).
  repeat (split; [solve [auto | lia | apply Forall_app; split; [assumption|];
    repeat constructor; discriminate]|]).
  split; [|now right]. rewrite H3, <- Uri.render_snoc, render_start.
  cbn [set_args_start with_tg fl]. now rewrite H8.
Qed.

(** A flag takes the place of the description. *)
Lemma marked_flag m r r' s p ch t :
  marked m r s p -> skipn p m = ch :: t -> bad_char ch = false -> ch <> " "%chr ->
  tg r' = tg r -> empty_path_in_uri (fl r') = empty_path_in_uri (fl r) -> flagged r' ->
  marked m r' s (S p).
Proof.
  intros (H1 & H2 & H3 & H4 & H5) E B N T F G.
  destruct (skipn_nth m p ch t E) as (_ & _ & Hp).
  unfold marked. rewrite T, F, (slice_snoc m s p ch t) by (auto; lia).
  split; [exact H1|]. split; [lia|]. split; [apply Forall_app; auto|]. split; [|now left].
  destruct (slice m s p); [discriminate H4|exact H4].
Qed.

(** Inside the arguments, or after a flag. *)
Lemma marked_char m r s p ch t :
  marked m r s p -> skipn p m = ch :: t -> bad_char ch = false -> ch <> " "%chr -> ch <> "#"%chr ->
  (flagged r \/ args_start (tg r) <> None) ->
  marked m r s (S p).
Proof.
  intros (H1 & H2 & H3 & H4 & H5) E B N1 N2 G.
  destruct (skipn_nth m p ch t E) as (_ & _ & Hp).
  unfold marked. rewrite (slice_snoc m s p ch t) by (auto; lia).
  split; [exact H1|]. split; [lia|]. split; [apply Forall_app; auto|].
  split; [destruct (slice m s p); [discriminate H4|exact H4]|].
  destruct H5 as [H5|H5]; [now left|]. destruct G as [G|G]; [now left|right].
  destruct H5 as (path & rest & stack & cur & E1 & E2 & E3 & E4 & E5).
  destruct rest as [a|]; [|contradiction]. exists path, (Some (a ++ [ch])), stack, cur.
  rewrite (slice_snoc m s p ch t) by (auto; lia). rewrite E1. cbn [Uri.query text].
  rewrite <- app_assoc. split; [reflexivity|]. split; [exact E2|]. split; [exact E3|].
  split; [|exact E5]. apply Forall_app. auto.
Qed.

(** *** The invariant *)

Definition uri_part (m : list Z) (r : fields) (s : nat) (u : rl_state) (p : nat) : Prop :=
  match u with
  | sw_after_slash_in_uri => exists stack cur, in_seg m r s p stack cur /\ pluses cur
  | sw_check_uri => exists stack cur, in_seg m r s p stack cur /\ undotted cur
  | _ => marked m r s p /\ (flagged r \/ args_start (tg r) <> None)
  end.

Definition in_uri (m : list Z) (u : rl_state) (p : nat) (r : fields) : Prop :=
  exists s, uri_part m r s u p.

Lemma in_uri_marked m u p r : in_uri m u p r -> exists s, marked m r s p.
Proof.
  intros (s & H). exists s. destruct u; cbn [uri_part] in H; try apply H;
    destruct H as (stack & cur & H & K).
  - eapply in_seg_marked; [exact H|now apply pluses_last].
  - eapply in_seg_marked; [exact H|]. apply undotted_last; [apply H|exact K].
Qed.

Lemma usual_clean c : is_byte c -> Uri.is_usual c = true ->
  bad_char c = false /\ c <> " "%chr /\ not_special c /\ c <> "/"%chr /\ c <> "."%chr /\ c <> "+"%chr.
Proof.
  intros Hb E. pose proof (Uri.usual_special c Hb E) as (N1 & N2 & N3 & N4 & N5 & N6).
  assert (F : (negb (Uri.is_usual c) || (negb (bad_char c) && negb (c =? " "%chr)))%bool = true)
    by by_bytes c.
  rewrite E in F. cbn [negb orb] in F. unfold not_special. rewrite andb_true_iff in F.
  destruct F as [F1 F2]. apply negb_true_iff in F1, F2.
  repeat split; auto. now apply Z.eqb_neq.
Qed.

(** The three URI states keep the invariant, and leave a marked URI. *)
Definition after_uri (m : list Z) (r : fields) : Prop :=
  exists s e, uri_end (tg r) = Some e /\ marked m r s e.

Lemma uri_stop_marked m r s p ch c :
  marked m r s p -> uri_stop p ch r = Some c ->
  match c with
  | Go s' r' => (s' = sw_http_09 \/ s' = sw_almost_done) /\ after_uri m r'
  | Done r' => after_uri m r'
  | Err _ _ => True
  end.
Proof.
  intros H. unfold uri_stop, after_uri.
  assert (A : forall v, after_uri m (set_minor (set_uri_end r p) v)) by (intros v; exists s, p; auto).
  assert (B : after_uri m (set_uri_end r p)) by (exists s, p; auto).
  repeat case_if; intros [= <-]; auto.
Qed.

Lemma not_stop p ch r : uri_stop p ch r = None -> ch <> " "%chr /\ ch <> CR /\ ch <> LF.
Proof. unfold uri_stop. repeat case_if; try discriminate. lia. Qed.

(** What follows a step of the three states. *)
Definition step_ok (m : list Z) (p : nat) (c : rl_ctl) : Prop :=
  match c with
  | Go s' r' =>
      match s' with
      | sw_after_slash_in_uri | sw_check_uri | sw_uri => in_uri m s' (S p) r'
      | sw_http_09 | sw_almost_done => after_uri m r'
      | _ => False
      end
  | Done r' => after_uri m r'
  | Err _ _ => True
  end.

Lemma stop_ok m r s p ch c :
  marked m r s p -> uri_stop p ch r = Some c -> step_ok m p c.
Proof.
  intros H E. pose proof (uri_stop_marked m r s p ch c H E) as S.
  destruct c as [s' r'|r'|e r']; try exact S. destruct S as [[-> | ->] S]; exact S.
Qed.

Lemma special_good ch : bad_char ch = false -> ch <> "%"%chr -> ch <> "?"%chr -> ch <> "#"%chr ->
  not_special ch.
Proof. now repeat split. Qed.

Lemma after_slash_ok m r p ch t : is_byte ch ->
  in_uri m sw_after_slash_in_uri p r -> skipn p m = ch :: t ->
  step_ok m p (after_slash_step p ch r).
Proof.
  intros Hb (s & stack & cur & H & K) E. unfold after_slash_step.
  assert (U : forall c, c <> "."%chr -> undotted (cur ++ [c])).
  { intros c N. destruct cur as [|a cur]; [now exists c, []|]. exists a, (cur ++ [c]).
    split; [reflexivity|]. inversion K as [|? ? -> ]. discriminate. }
  destruct (Uri.is_usual ch) eqn:Eu.
  { destruct (usual_clean ch Hb Eu) as (B & N1 & N2 & N3 & N4 & _).
    exists s, stack, (cur ++ [ch]). split; [|now apply U].
    now apply (in_seg_char m r r s p stack cur ch t). }
  pose proof (in_seg_marked m r s p stack cur H (pluses_last cur K)) as M.
  destruct (uri_stop p ch r) as [c|] eqn:Es; [now apply (stop_ok m r s p ch)|].
  apply not_stop in Es as (N1 & N2 & N3). unfold after_slash_rest.
  destruct (Z.eqb_spec ch 46) as [->|D1]; [exists s; split; [|left; now left];
    apply (marked_flag m r _ s p _ t M E); auto; left; reflexivity|].
  destruct (Z.eqb_spec ch 37) as [->|D2]; [exists s; split; [|left; right; now left];
    apply (marked_flag m r _ s p _ t M E); auto; right; left; reflexivity|].
  destruct (Z.eqb_spec ch 47) as [->|D3]; [exists s; split; [|left; now left];
    apply (marked_flag m r _ s p _ t M E); auto; left; reflexivity|].
  destruct (Z.eqb_spec ch 63) as [->|D4].
  { destruct (in_seg_query m r s p stack cur t H (pluses_last cur K) E) as (Q1 & _ & Q2).
    exists s. split; [exact Q1|now right]. }
  destruct (Z.eqb_spec ch 35) as [->|D5]; [exists s; split; [|left; now left];
    apply (marked_flag m r _ s p _ t M E); auto; left; reflexivity|].
  destruct (Z.eqb_spec ch 43) as [->|D6].
  { exists s, stack, (cur ++ [43]). split; [|apply Forall_app; split; [exact K|now constructor]].
    apply (in_seg_char m r _ s p stack cur _ t H E); auto; repeat split; discriminate. }
  destruct (bad_char ch) eqn:B; [exact I|].
  exists s, stack, (cur ++ [ch]). split; [|now apply U].
  apply (in_seg_char m r r s p stack cur ch t); auto. now apply special_good.
Qed.

Lemma check_uri_ok m r p ch t : is_byte ch ->
  in_uri m sw_check_uri p r -> skipn p m = ch :: t ->
  step_ok m p (check_uri_step p ch r).
Proof.
  intros Hb (s & stack & cur & H & K) E. unfold check_uri_step.
  assert (U : forall c, undotted (cur ++ [c])).
  { intros c. destruct K as (a & l & -> & N). now exists a, (l ++ [c]). }
  destruct (Uri.is_usual ch) eqn:Eu.
  { destruct (usual_clean ch Hb Eu) as (B & N1 & N2 & N3 & N4 & _).
    exists s, stack, (cur ++ [ch]). split; [|now apply U].
    now apply (in_seg_char m r r s p stack cur ch t). }
  assert (Hn : Uri.no_slash cur) by apply H.
  pose proof (undotted_last cur Hn K) as L.
  pose proof (in_seg_marked m r s p stack cur H L) as M.
  destruct (uri_stop p ch r) as [c|] eqn:Es; [now apply (stop_ok m r s p ch)|].
  apply not_stop in Es as (N1 & N2 & N3). unfold check_uri_rest.
  destruct (Z.eqb_spec ch 47) as [->|D3].
  { exists s, (cur :: stack), []. split; [|constructor].
    apply (in_seg_slash m r s p stack cur t H E). now apply undotted_kept. }
  destruct (Z.eqb_spec ch 46) as [->|D1].
  { exists s, stack, (cur ++ [46]). split; [|apply U]. now apply (in_seg_ext m r s p stack cur t). }
  destruct (Z.eqb_spec ch 37) as [->|D2]; [exists s; split; [|left; right; now left];
    apply (marked_flag m r _ s p _ t M E); auto; right; left; reflexivity|].
  destruct (Z.eqb_spec ch 63) as [->|D4].
  { destruct (in_seg_query m r s p stack cur t H L E) as (Q1 & _ & Q2).
    exists s. split; [exact Q1|now right]. }
  destruct (Z.eqb_spec ch 35) as [->|D5]; [exists s; split; [|left; now left];
    apply (marked_flag m r _ s p _ t M E); auto; left; reflexivity|].
  destruct (Z.eqb_spec ch 43) as [->|D6].
  { exists s, stack, (cur ++ [43]). split; [|apply U].
    apply (in_seg_char m r _ s p stack cur _ t H E); auto; repeat split; discriminate. }
  destruct (bad_char ch) eqn:B; [exact I|].
  exists s, stack, (cur ++ [ch]). split; [|apply U].
  apply (in_seg_char m r r s p stack cur ch t); auto. now apply special_good.
Qed.

Lemma uri_ok m r p ch t : is_byte ch ->
  in_uri m sw_uri p r -> skipn p m = ch :: t -> step_ok m p (uri_step p ch r).
Proof.
  intros Hb (s & M & G) E. unfold uri_step.
  destruct (Uri.is_usual ch) eqn:Eu.
  { destruct (usual_clean ch Hb Eu) as (B & N1 & (_ & _ & N2) & _).
    exists s. split; [|exact G]. now apply (marked_char m r s p ch t). }
  destruct (uri_stop p ch r) as [c|] eqn:Es; [now apply (stop_ok m r s p ch)|].
  apply not_stop in Es as (N1 & N2 & N3). unfold uri_rest.
  destruct (Z.eqb_spec ch 35) as [->|D5]; [exists s; split; [|left; now left];
    apply (marked_flag m r _ s p _ t M E); auto; left; reflexivity|].
  destruct (bad_char ch) eqn:B; [exact I|].
  exists s. split; [|exact G]. now apply (marked_char m r s p ch t).
Qed.

Definition fresh (r : fields) : Prop :=
  fl r = Flags false false false false /\ args_start (tg r) = None /\ uri_ext (tg r) = None.

(** The slash after the scheme's colon, which stands for an empty path. *)
Definition has_slash (m : list Z) (r : fields) (p : nat) : Prop :=
  exists e, schema_end (tg r) = Some e /\ (e + 2 <= p)%nat /\ slice m (e + 1) (e + 2) = ["/"%chr].

Definition rl_inv (m : list Z) (s : rl_state) (p : nat) (r : fields) : Prop :=
  match s with
  | sw_start | sw_method | sw_spaces_before_uri | sw_schema => fresh r
  | sw_schema_slash => fresh r /\ exists e, schema_end (tg r) = Some e /\ p = (e + 1)%nat
  | sw_schema_slash_slash | sw_host_start | sw_host | sw_host_end | sw_host_ip_literal | sw_port =>
      fresh r /\ has_slash m r p
  | sw_after_slash_in_uri | sw_check_uri | sw_uri => in_uri m s p r
  | _ => after_uri m r
  end.

Lemma seg_start m r p t : fresh r -> skipn p m = "/"%chr :: t ->
  in_uri m sw_after_slash_in_uri (S p) (set_uri_start r p).
Proof.
  intros (F1 & F2 & F3) E. destruct (skipn_nth m p _ t E) as (_ & _ & Hp).
  exists p, [], []. split; [|constructor]. unfold in_seg, ext_in.
  rewrite (slice_one m p _ t E). cbn [set_uri_start with_tg tg fl uri_start args_start uri_ext].
  rewrite F1, F2, F3. repeat split; auto; try lia;
    repeat constructor; discriminate.
Qed.

Lemma marked_slash m r e : fresh r -> (e + 2 <= length m)%nat ->
  slice m (e + 1) (e + 2) = ["/"%chr] ->
  after_uri m (set_uri_end (set_uri_start r (e + 1)) (e + 2)).
Proof.
  intros (F1 & F2 & F3) Hl Hs. exists (e + 1)%nat, (e + 2)%nat. split; [reflexivity|].
  unfold marked. cbn [set_uri_start set_uri_end with_tg tg fl uri_start].
  rewrite Hs, F1. split; [reflexivity|]. split; [lia|].
  split; [repeat constructor; discriminate|]. split; [reflexivity|right].
  exists ["/"%chr], None, [], []. unfold ext_in.
  cbn [set_uri_start set_uri_end with_tg tg args_start uri_ext]. rewrite Hs, F2, F3.
  repeat split; auto; repeat constructor; discriminate.
Qed.

Lemma authority_end_ok m r p ch t :
  fresh r -> has_slash m r p -> skipn p m = ch :: t ->
  match authority_end p ch r with
  | Go s' r' => rl_inv m s' (S p) r'
  | Done r' => after_uri m r'
  | Err _ _ => True
  end.
Proof.
  intros F (e & E1 & E2 & E3) E. destruct (skipn_nth m p _ t E) as (_ & _ & Hp).
  unfold authority_end.
  destruct (Z.eqb_spec ch 47) as [->|]; [now apply (seg_start m r p t)|].
  destruct (Z.eqb_spec ch 63) as [->|].
  { exists p. split; [|left; right; right; reflexivity]. unfold marked.
    rewrite (slice_one m p _ t E). repeat split; try lia; try (left; right; right; reflexivity).
    repeat constructor; discriminate. }
  destruct (Z.eqb_spec ch 32) as [->|]; [|exact I]. rewrite E1.
  apply (marked_slash m r e); auto. lia.
Qed.

Lemma after_uri_ext m r r' : tg r' = tg r -> fl r' = fl r -> after_uri m r -> after_uri m r'.
Proof.
  intros T F (s & e & E & M). exists s, e. rewrite T. split; [exact E|].
  unfold marked, plain, ext_in, flagged in *. now rewrite T, F.
Qed.

Lemma step_ok_inv m p c : step_ok m p c ->
  match c with
  | Go s' r' => rl_inv m s' (S p) r'
  | Done r' => after_uri m r'
  | Err _ _ => True
  end.
Proof. destruct c as [s' r'|r'|e r']; [|auto|auto]. destruct s'; cbn; auto; contradiction. Qed.

Lemma rl_step_inv m s p ch t r : wf_bytes m -> skipn p m = ch :: t -> rl_inv m s p r ->
  match rl_step m s p ch r with
  | Go s' r' => rl_inv m s' (S p) r'
  | Done r' => after_uri m r'
  | Err _ _ => True
  end.
Proof.
  intros Hw E.
  assert (Hb : is_byte ch).
  { apply (wf_skipn p) in Hw. rewrite E in Hw. now inv_bytes. }
  assert (W : forall q, (p <= q)%nat -> has_slash m r p -> has_slash m r q).
  { intros q Hq (e & E1 & E2 & E3). exists e. repeat split; auto. lia. }
  assert (A : forall v, after_uri m r -> after_uri m (set_minor r v))
    by (intros v; now apply after_uri_ext).
  assert (A' : forall v, after_uri m r -> after_uri m (set_major r v))
    by (intros v; now apply after_uri_ext).
  assert (P : forall v, after_uri m r -> after_uri m (set_http_protocol r v))
    by (intros v; now apply after_uri_ext).
  assert (R : forall v, after_uri m r -> after_uri m (set_request_end r v))
    by (intros v; now apply after_uri_ext).
  assert (HE : forall r0, tg r0 = tg r -> fl r0 = fl r -> fresh r -> has_slash m r p ->
    fresh r0 /\ has_slash m r0 p).
  { intros r0 T F. unfold fresh, has_slash. now rewrite T, F. }
  destruct s; cbn [rl_step rl_inv]; intros H;
    try (apply step_ok_inv; first [now apply (after_slash_ok m r p ch t)
      | now apply (check_uri_ok m r p ch t) | now apply (uri_ok m r p ch t)]).
  - unfold start_step. cbv zeta. repeat case_if; exact I || exact H.
  - unfold method_step. cbv zeta. repeat case_if; exact I || exact H.
  - unfold spaces_before_uri_step. destruct (Z.eqb_spec ch 47) as [->|]; [now apply (seg_start m r p t)|].
    repeat case_if; exact I || exact H.
  - unfold schema_step. repeat case_if; try exact I; try exact H.
    split; [exact H|]. exists p. split; [reflexivity|lia].
  - unfold slash_then. destruct (Z.eqb_spec ch 47) as [->|]; [|exact I].
    destruct H as (F & e & E1 & ->). split; [exact F|]. exists e. repeat split; auto; [lia|].
    replace (e + 2)%nat with (S (e + 1)) by lia. now apply (slice_one m (e + 1) _ t).
  - unfold slash_then. case_if; [|exact I]. split; [apply H|]. apply W; [lia|apply H].
  - (* host_start *)
    unfold host_start_step, host_step, host_end_step. cbv zeta.
    destruct H as [F S]. assert (S' := W (Datatypes.S p) ltac:(lia) S).
    repeat (case_if; [solve [split; [exact F|exact S']]|]).
    apply (authority_end_ok m _ p ch t); [exact F|exact S|exact E].
  - unfold host_step, host_end_step. cbv zeta.
    destruct H as [F S]. assert (S' := W (Datatypes.S p) ltac:(lia) S).
    repeat (case_if; [solve [split; [exact F|exact S']]|]).
    apply (authority_end_ok m _ p ch t); [exact F|exact S|exact E].
  - unfold host_end_step. cbv zeta.
    destruct H as [F S]. assert (S' := W (Datatypes.S p) ltac:(lia) S).
    repeat (case_if; [solve [split; [exact F|exact S']]|]).
    apply (authority_end_ok m _ p ch t); [exact F|exact S|exact E].
  - unfold host_ip_literal_step. destruct H as [F S]. assert (S' := W (Datatypes.S p) ltac:(lia) S).
    repeat case_if; try exact I; split; assumption.
  - unfold port_step. destruct H as [F S]. assert (S' := W (Datatypes.S p) ltac:(lia) S).
    case_if; [split; assumption|]. apply (authority_end_ok m _ p ch t); [exact F|exact S|exact E].
  - unfold http_09_step. repeat case_if; auto.
  - unfold expect. case_if; auto.
  - unfold expect. case_if; auto.
  - unfold expect. case_if; auto.
  - unfold expect. case_if; auto.
  - unfold first_major_step. cbv zeta. repeat case_if; auto.
  - unfold major_step. cbv zeta. repeat case_if; auto.
  - unfold first_minor_step. repeat case_if; auto.
  - unfold minor_step. repeat case_if; auto.
  - unfold spaces_after_step. repeat case_if; auto.
  - unfold almost_done_step. cbv zeta. repeat case_if; auto.
Qed.

(** An accepted line leaves its URI marked. *)
Lemma line_marked m r p : wf_bytes m ->
  ngx_http_parse_request_line new_request m 0 = (NGX_OK, r, p) -> after_uri m (rq r).
Proof.
  intros Hw. unfold ngx_http_parse_request_line. cbn [state new_request skipn].
  pose proof (rl_loop_inv (rl_inv m) (fun _ => after_uri m) m
    (fun s p ch t r => rl_step_inv m s p ch t r Hw) m sw_start 0%nat (rq new_request) eq_refl
    ltac:(repeat split)) as I.
  destruct (rl_loop m sw_start 0 m (rq new_request)) as [[s f|f|e f] q] eqn:E; cbv zeta.
  - discriminate.
  - case_if; [discriminate|]. intros [= <- _]. cbn [rq].
    revert I. apply after_uri_ext; unfold line_done; cbv zeta; destruct (request_end (mk f)); reflexivity.
  - apply rl_loop_err in E as [-> | [-> | ->]]; discriminate.
Qed.

(** *** The URI made of the marks *)

Lemma decode_plain path rest : Forall not_special path ->
  Uri.path_decode (path ++ Uri.query rest) =
  Some (path, match rest with None => Uri.AtEnd | Some a => Uri.AtArgs a end).
Proof.
  induction 1 as [|c l (N1 & N2 & N3) _ IH]; [destruct rest; reflexivity|].
  cbn [app Uri.path_decode]. rewrite IH.
  destruct (Z.eqb_spec c 63); [contradiction|]. destruct (Z.eqb_spec c 35); [contradiction|].
  destruct (Z.eqb_spec c 37); [contradiction|]. reflexivity.
Qed.

Lemma before_hash_none a : Forall (fun c => c <> "#"%chr) a -> Uri.before_hash a = None.
Proof.
  induction 1 as [|c a N _ IH]; [reflexivity|]. cbn [Uri.before_hash].
  destruct (Z.eqb_spec c 35); [contradiction|]. now rewrite IH.
Qed.

(** The arguments a URI text has, without the fragment. *)
Definition args_of (e : Uri.path_end) : list Z :=
  match e with
  | Uri.AtArgs rest => match Uri.before_hash rest with Some a => a | None => rest end
  | _ => []
  end.

(** What the request's URI should be. *)
Definition uri_as (path : list Z) (e : Uri.path_end) (unparsed : list Z) (u : request_uri) : Prop :=
  ru_uri u = path /\ ru_args u = args_of e /\ ru_unparsed u = unparsed
  /\ (ru_exten u = [] \/ exists pre, path = pre ++ "."%chr :: ru_exten u /\ Uri.no_slash (ru_exten u)).

Lemma process_plain merge m r s e : (s < e <= length m)%nat ->
  uri_start (tg r) = Some s -> uri_end (tg r) = Some e -> plain m r s e ->
  complex_uri (fl r) = false -> quoted_uri (fl r) = false -> empty_path_in_uri (fl r) = false ->
  exists path en u, Uri.uri_meaning merge (slice m s e) = Some (path, en)
  /\ ngx_http_process_request_uri true merge r m = Some u /\ uri_as path en (slice m s e) u.
Proof.
  intros Hse Hs He (path & rest & stack & cur & E1 & E2 & E3 & E4 & E5 & E6 & E7 & E8) F1 F2 F3.
  exists path, (match rest with None => Uri.AtEnd | Some a => Uri.AtArgs a end).
  unfold ngx_http_process_request_uri. cbv zeta. rewrite F1, F2, F3, Hs, He. cbn [orb ptr negb].
  assert (K : Uri.normalize merge path = Some path).
  { rewrite E5. apply Uri.normalize_render; [|exact E7].
    eapply Forall_impl; [|exact E6]. intros a (K1 & K2 & K3 & K4). repeat split; auto. }
  unfold Uri.uri_meaning. rewrite E1, decode_plain, K by exact E3. rewrite E2. cbn [option_map].
  destruct (slice_app m s e path (Uri.query rest) E1 ltac:(lia)) as (S1 & S2 & S3).
  set (pe := match (match rest with None => None | Some _ => Some (s + length path + 1)%nat end)
             with Some a => (a - 1)%nat | None => e end).
  assert (Epe : pe = (s + length path)%nat).
  { unfold pe. destruct rest; [lia|]. cbn [Uri.query length] in S3. lia. }
  eexists. split; [reflexivity|]. split; [reflexivity|].
  unfold uri_as. cbn [ru_uri ru_args ru_unparsed ru_exten]. rewrite Epe, S1.
  split; [reflexivity|]. split; [|split; [reflexivity|]].
  - destruct rest as [a|]; [|reflexivity]. cbn [args_of text Uri.query] in *.
    rewrite before_hash_none by exact E4. cbn [length] in S3.
    destruct (slice_app m (s + length path) e ["?"%chr] a S2 ltac:(lia)) as (_ & S4 & _).
    cbn [length] in S4. rewrite S4. destruct (Nat.ltb_spec (s + length path + 1) e); [reflexivity|].
    destruct a; [reflexivity|]. cbn [length] in S3. lia.
  - destruct E8 as [-> | (pre & ex & -> & Ep & Hn)]; [now left|right]. exists pre.
    assert (Hx : path = (pre ++ ["."%chr]) ++ ex) by now rewrite <- app_assoc.
    rewrite Hx in S1. destruct (slice_app m s (s + length path) (pre ++ ["."%chr]) ex) as (_ & S5 & _).
    { now rewrite Hx. }
    { lia. }
    rewrite length_app in S5. cbn [length] in S5.
    replace (s + length pre + 1)%nat with (s + (length pre + 1))%nat by lia.
    rewrite S5. split; [exact Ep|exact Hn].
Qed.

Lemma process_complex merge m r s e : wf_bytes m ->
  uri_start (tg r) = Some s -> uri_end (tg r) = Some e -> flagged r ->
  Uri.path_start (empty_path_in_uri (fl r)) (slice m s e) = true ->
  match Uri.uri_meaning merge (Uri.whole_path (empty_path_in_uri (fl r)) (slice m s e)) with
  | None => ngx_http_process_request_uri true merge r m = None
  | Some (path, en) => exists u, ngx_http_process_request_uri true merge r m = Some u
                       /\ uri_as path en (slice m s e) u
  end.
Proof.
  intros Hw Hs He Hf Hp. unfold ngx_http_process_request_uri. cbv zeta.
  rewrite Hs, He. cbn [ptr].
  replace (complex_uri (fl r) || quoted_uri (fl r) || empty_path_in_uri (fl r))%bool with true
    by (destruct Hf as [-> | [-> | ->]]; now rewrite ?orb_true_r).
  assert (Hw' : wf_bytes (slice m s e)).
  { unfold slice. apply (wf_skipn s) in Hw. unfold wf_bytes in *.
    rewrite <- (firstn_skipn (e - s) (skipn s m)) in Hw. now apply Forall_app in Hw. }
  pose proof (Uri.complex_uri_agrees (slice m s e) _ (plus_in_uri (fl r)) (quoted_uri (fl r)) merge
    Hw' Hp) as A.
  destruct (Uri.uri_meaning merge _) as [[path en]|]; cbn [Uri.agrees] in A; [|now rewrite A].
  destruct A as (u & -> & R1 & R2 & R3). eexists. split; [reflexivity|].
  unfold uri_as. cbn [ru_uri ru_args ru_unparsed ru_exten]. split; [exact R1|].
  split; [|split; [reflexivity|]].
  - destruct en as [|rest|]; cbn [args_of]; try (destruct R3 as [-> ->]; reflexivity).
    destruct (Uri.before_hash rest); destruct R3 as [-> ->]; [reflexivity|].
    destruct rest; reflexivity.
  - destruct R2 as [-> | (pre & ex & -> & Ep & Hn)]; [now left|right]. exists pre. auto.
Qed.

(** ** Lemmas: the line *)

Definition crlf (c : Z) : Prop := c = CR \/ c = LF.

Definition begun (s : rl_state) : bool :=
  match s with sw_start | sw_method => false | _ => true end.

Definition same_head (r r' : fields) : Prop :=
  request_start (mk r') = request_start (mk r) /\ method_end (mk r') = method_end (mk r)
  /\ method (vn r') = method (vn r).

(** After the method only an end of the line takes a line feed. *)
Lemma step_line m s p ch r : begun s = true ->
  match rl_step m s p ch r with
  | Go s' r' => begun s' = true /\ ch <> LF /\ same_head r r'
  | Done r' => ch = LF /\ same_head r r'
  | Err _ _ => True
  end.
Proof.
  intros B.
  assert (S : forall r', same_head r r' -> ch <> LF -> True /\ ch <> LF /\ same_head r r') by auto.
  assert (A : forall r0, same_head r r0 -> match authority_end p ch r0 with
    | Go s' r' => begun s' = true /\ ch <> LF /\ same_head r r'
    | Done r' => ch = LF /\ same_head r r' | Err _ _ => True end).
  { intros r0 H. unfold authority_end. cbv zeta.
    repeat (case_if; [split; [reflexivity|split; [lia|exact H]]|]). exact I. }
  assert (HE : forall r0, same_head r r0 -> match host_end_step p ch r0 with
    | Go s' r' => begun s' = true /\ ch <> LF /\ same_head r r'
    | Done r' => ch = LF /\ same_head r r' | Err _ _ => True end).
  { intros r0 H. unfold host_end_step. cbv zeta.
    case_if; [split; [reflexivity|split; [lia|exact H]]|]. now apply A. }
  assert (R : same_head r r) by (repeat split).
  assert (Al : alpha ch = true -> ch <> LF) by (intros H ->; discriminate H).
  assert (HS : forall r0, same_head r r0 -> match host_step p ch r0 with
    | Go s' r' => begun s' = true /\ ch <> LF /\ same_head r r'
    | Done r' => ch = LF /\ same_head r r' | Err _ _ => True end).
  { intros r0 H. unfold host_step. case_if; [split; [reflexivity|split; [auto|exact H]]|].
    case_if; [split; [reflexivity|split; [byte_lia|exact H]]|]. now apply HE. }
  assert (Us : Uri.is_usual ch = true -> ch <> LF) by (intros H ->; discriminate H).
  assert (St : forall c, uri_stop p ch r = Some c -> match c with
    | Go s' r' => begun s' = true /\ ch <> LF /\ same_head r r'
    | Done r' => ch = LF /\ same_head r r' | Err _ _ => True end).
  { intros c. unfold uri_stop. repeat case_if; intros [= <-]; repeat split; lia. }
  destruct s; try discriminate B; cbn [rl_step];
    try (unfold after_slash_step, check_uri_step, uri_step;
      case_if; [split; [reflexivity|split; [auto|exact R]]|];
      destruct (uri_stop p ch r) as [c|] eqn:E; [exact (St c eq_refl)|];
      apply not_stop in E as (_ & _ & E); unfold after_slash_rest, check_uri_rest, uri_rest;
      repeat (case_if; [first [exact I | split; [reflexivity|split; [exact E|exact R]]]|]);
      try exact I; split; [reflexivity|split; [exact E|exact R]]);
    unfold spaces_before_uri_step, schema_step, slash_then, host_start_step,
      host_ip_literal_step, port_step, http_09_step, expect, first_major_step, major_step,
      first_minor_step, minor_step, spaces_after_step, almost_done_step; cbv zeta.
  all: repeat (case_if;
    [first [exact I | split; [reflexivity|split; [solve [auto|byte_lia|(intros ->; discriminate)]|exact R]]
           | split; [lia|exact R]]|]).
  all: try exact I; try (apply A; exact R); try (apply HE; exact R); try (apply HS; exact R).
  all: split; [reflexivity|split; [byte_lia|exact R]].
Qed.

(** The line as read so far: blank lines, then a method, then no line feed. *)
Definition head_at (m : list Z) (p : nat) (r : fields) : Prop :=
  exists a e, request_start (mk r) = Some a /\ method_end (mk r) = Some e
  /\ (a <= e)%nat /\ (e + 1 < p <= length m)%nat
  /\ Forall crlf (firstn a m) /\ Forall (fun c => method_char c = true) (slice m a (e + 1))
  /\ method (vn r) = method_named (slice m a (e + 1)) NGX_HTTP_UNKNOWN
  /\ Forall (fun c => c <> LF) (slice m a p).

Definition line_inv (m : list Z) (s : rl_state) (p : nat) (r : fields) : Prop :=
  match s with
  | sw_start => Forall crlf (firstn p m) /\ method (vn r) = NGX_HTTP_UNKNOWN
  | sw_method =>
      exists a, request_start (mk r) = Some a /\ (a < p <= length m)%nat
      /\ Forall crlf (firstn a m) /\ Forall (fun c => method_char c = true) (slice m a p)
      /\ method (vn r) = NGX_HTTP_UNKNOWN
  | _ => head_at m p r
  end.

Definition line_end (m : list Z) (p : nat) (r : fields) : Prop :=
  head_at m p r /\ slice m p (S p) = [LF].

Lemma method_char_lf c : method_char c = true -> c <> LF.
Proof. intros H ->. discriminate H. Qed.

Lemma head_at_next m p ch t r r' : head_at m p r -> skipn p m = ch :: t -> ch <> LF ->
  same_head r r' -> head_at m (S p) r'.
Proof.
  intros (a & e & H1 & H2 & H3 & H4 & H5 & H6 & H7 & H8) E N (S1 & S2 & S3).
  destruct (skipn_nth m p ch t E) as (_ & _ & Hp). exists a, e.
  rewrite S1, S2, S3. repeat split; auto; try lia.
  rewrite (slice_snoc m a p ch t) by (auto; lia). now apply Forall_snoc.
Qed.

Lemma line_step m s p ch t r : wf_bytes m -> skipn p m = ch :: t -> line_inv m s p r ->
  match rl_step m s p ch r with
  | Go s' r' => line_inv m s' (S p) r'
  | Done r' => line_end m p r'
  | Err _ _ => True
  end.
Proof.
  intros Hw E H. destruct (skipn_nth m p ch t E) as (Hf & _ & Hp).
  destruct (begun s) eqn:B.
  { assert (H' : head_at m p r) by (destruct s; try discriminate B; exact H).
    pose proof (step_line m s p ch r B) as S.
    destruct (rl_step m s p ch r) as [s' r'|r'|]; [| |exact I].
    - destruct S as (B' & N & Sh). pose proof (head_at_next m p ch t r r' H' E N Sh) as G.
      destruct s'; try discriminate B'; exact G.
    - destruct S as (-> & S1 & S2 & S3). split; [|now apply (slice_one m p _ t)].
      destruct H' as (a & e & H'). exists a, e. now rewrite S1, S2, S3. }
  destruct s; try discriminate B; cbn [rl_step line_inv] in *.
  - destruct H as [H1 H2]. unfold start_step. cbv zeta.
    destruct ((ch =? CR) || (ch =? LF))%bool eqn:C.
    + split; [|exact H2]. rewrite Hf. apply Forall_snoc; [exact H1|]. unfold crlf. lia.
    + destruct (method_char ch) eqn:M; cbn [negb]; [|exact I]. exists p.
      rewrite (slice_one m p ch t E). repeat split; auto; lia.
  - destruct H as (a & H1 & H2 & H3 & H4 & H5). unfold method_step. cbv zeta.
    destruct (Z.eqb_spec ch 32) as [->|N].
    + exists a, (p - 1)%nat. cbn [set_method set_method_end with_mk with_vn mk vn request_start
        method_end method]. rewrite H1, H5. replace (p - 1 + 1)%nat with p by lia.
      rewrite (method_at m a p t) by (auto; lia).
      rewrite (slice_snoc m a p " "%chr t) by (auto; lia). repeat split; auto; try lia.
      apply Forall_snoc; [|discriminate]. eapply Forall_impl; [|exact H4].
      intros c. apply method_char_lf.
    + destruct (method_char ch) eqn:M; cbn [negb]; [|exact I]. exists a.
      rewrite (slice_snoc m a p ch t) by (auto; lia). repeat split; auto; try lia.
      now apply Forall_snoc.
Qed.

Lemma line_framed m rc r p : wf_bytes m -> rc = NGX_OK \/ rc = NGX_HTTP_PARSE_INVALID_09_METHOD ->
  ngx_http_parse_request_line new_request m 0 = (rc, r, p) ->
  exists q, p = S q /\ line_end m q (rq r).
Proof.
  intros Hw Hrc. unfold ngx_http_parse_request_line. cbn [state new_request skipn].
  pose proof (rl_loop_inv (line_inv m) (line_end m) m
    (fun s p ch t r => line_step m s p ch t r Hw) m sw_start 0%nat (rq new_request) eq_refl
    ltac:(split; [constructor|reflexivity])) as I.
  destruct (rl_loop m sw_start 0 m (rq new_request)) as [[s f|f|e f] q] eqn:E; cbv zeta.
  - intros [= <- _ _]. destruct Hrc; discriminate.
  - intros [= _ <- <-]. exists q. split; [reflexivity|]. destruct I as [(a & e & H) I].
    split; [|exact I]. exists a, e. cbn [rq].
    unfold line_done; cbv zeta. destruct (request_end (mk f)); exact H.
  - intros [= <- _ _]. apply rl_loop_err in E as [-> | [-> | ->]]; destruct Hrc; discriminate.
Qed.

(** ** Lemmas: well-formed lines *)

(** The loop passes the bytes [l] from one state to another. *)
Definition runs (m : list Z) (s : rl_state) (p : nat) (l : list Z) (r : fields)
    (s' : rl_state) (r' : fields) : Prop :=
  forall rest, rl_loop m s p (l ++ rest) r = rl_loop m s' (p + length l) rest r'.

Lemma runs_nil m s p r : runs m s p [] r s r.
Proof. intros rest. cbn [app length]. now rewrite Nat.add_0_r. Qed.

Lemma runs_app m s1 s2 s3 p l1 l2 r1 r2 r3 :
  runs m s1 p l1 r1 s2 r2 -> runs m s2 (p + length l1) l2 r2 s3 r3 ->
  runs m s1 p (l1 ++ l2) r1 s3 r3.
Proof.
  intros H1 H2 rest. rewrite <- app_assoc, H1, H2, length_app. f_equal. lia.
Qed.

Lemma runs_step m s p ch r s' r' : rl_step m s p ch r = Go s' r' -> runs m s p [ch] r s' r'.
Proof. intros H rest. cbn [app rl_loop length]. rewrite H. f_equal. lia. Qed.

Lemma runs_cons m s1 s2 s3 p ch l r1 r2 r3 :
  rl_step m s1 p ch r1 = Go s2 r2 -> runs m s2 (S p) l r2 s3 r3 ->
  runs m s1 p (ch :: l) r1 s3 r3.
Proof.
  intros H1 H2. apply (runs_app m s1 s2 s3 p [ch] l r1 r2 r3); [now apply runs_step|].
  cbn [length]. now replace (p + 1)%nat with (S p) by lia.
Qed.

(** Bytes that keep the state and change nothing. *)
Lemma runs_many m s r l : Forall (fun ch => forall p, rl_step m s p ch r = Go s r) l ->
  forall p, runs m s p l r s r.
Proof.
  induction 1 as [|ch l H _ IH]; intros p; [apply runs_nil|]. eapply runs_cons; [apply H|apply IH].
Qed.

Definition spaces (n : nat) : list Z := repeat " "%chr n.

Lemma runs_spaces m s r n : (forall p, rl_step m s p " "%chr r = Go s r) ->
  forall p, runs m s p (spaces n) r s r.
Proof. intros H. apply runs_many. apply Forall_forall. intros c I. apply repeat_spec in I as ->. exact H. Qed.

(** Blank lines: only where the request starts is noted. *)
Lemma runs_blank m l : Forall crlf l -> forall p r, exists r', runs m sw_start p l r sw_start r'
  /\ forall q, set_request_start r' q = set_request_start r q.
Proof.
  induction 1 as [|ch l H _ IH]; intros p r; [exists r; split; [apply runs_nil|reflexivity]|].
  destruct (IH (S p) (set_request_start r p)) as (r' & H1 & H2). exists r'. split.
  - eapply runs_cons; [|exact H1]. cbn [rl_step]. unfold start_step. cbv zeta.
    destruct H as [-> | ->]; reflexivity.
  - intros q. rewrite H2. reflexivity.
Qed.

(** The method and its space. *)
Lemma runs_method m name t p r :
  wf_bytes m -> name <> [] -> Forall (fun c => method_char c = true) name ->
  skipn p m = name ++ " "%chr :: t -> method (vn r) = NGX_HTTP_UNKNOWN ->
  runs m sw_start p (name ++ [" "%chr]) r sw_spaces_before_uri
    (set_method (set_method_end (set_request_start r p) (p + length name - 1))
       (method_named name NGX_HTTP_UNKNOWN)).
Proof.
  intros Hw Hn Hc E Hm. apply runs_app with (s2 := sw_method) (r2 := set_request_start r p).
  - destruct name as [|c name]; [contradiction|]. inversion Hc as [|? ? Hc1 Hc2]; subst.
    eapply runs_cons.
    + cbn [rl_step]. unfold start_step. cbv zeta. rewrite Hc1.
      assert (N : ((c =? CR) || (c =? LF))%bool = false).
      { destruct (Z.eqb_spec c CR) as [->|]; [discriminate Hc1|].
        destruct (Z.eqb_spec c LF) as [->|]; [discriminate Hc1|reflexivity]. }
      rewrite N. reflexivity.
    + apply runs_many. eapply Forall_impl; [|exact Hc2]. intros a Ha q. cbn [rl_step].
      unfold method_step. rewrite Ha. destruct (Z.eqb_spec a 32) as [->|]; [discriminate Ha|reflexivity].
  - apply runs_step. cbn [rl_step]. unfold method_step. cbn [Z.eqb Pos.eqb]. cbv zeta.
    do 2 f_equal. change (request_start (mk (set_method_end (set_request_start r p) (p + length name - 1))))
      with (Some p).
    assert (E' : skipn (p + length name) m = " "%chr :: t).
    { rewrite Nat.add_comm, <- skipn_skipn, E, skipn_app, skipn_all, Nat.sub_diag. reflexivity. }
    rewrite (method_at m p (p + length name) t) by (auto; lia).
    unfold slice. rewrite E. replace (p + length name - p)%nat with (length name) by lia.
    rewrite firstn_app, firstn_all, Nat.sub_diag. cbn [firstn]. rewrite app_nil_r.
    f_equal. exact Hm.
Qed.

Definition in_uri_state (u : rl_state) : Prop :=
  u = sw_after_slash_in_uri \/ u = sw_check_uri \/ u = sw_uri.

(** What the URI states leave as it is. *)
Definition keeps (r r' : fields) : Prop :=
  mk r' = mk r /\ vn r' = vn r
  /\ exists e a, tg r' = Target (schema_start (tg r)) (schema_end (tg r)) (host_start (tg r))
                           (host_end (tg r)) (uri_start (tg r)) (uri_end (tg r)) e a.

Lemma keeps_refl r : keeps r r.
Proof. repeat split. exists (uri_ext (tg r)), (args_start (tg r)). now destruct (tg r). Qed.

Lemma keeps_trans r1 r2 r3 : keeps r1 r2 -> keeps r2 r3 -> keeps r1 r3.
Proof.
  intros (A1 & A2 & e & a & A3) (B1 & B2 & e' & a' & B3).
  repeat split; [congruence|congruence|]. exists e', a'. rewrite B3, A3. reflexivity.
Qed.

Lemma uri_char_step m u p ch r : in_uri_state u -> bad_char ch = false -> ch <> " "%chr ->
  exists u' r', rl_step m u p ch r = Go u' r' /\ in_uri_state u' /\ keeps r r'.
Proof.
  intros Hu B N.
  assert (St : uri_stop p ch r = None).
  { unfold uri_stop. destruct (Z.eqb_spec ch 32); [contradiction|].
    destruct (Z.eqb_spec ch 13) as [->|]; [discriminate B|].
    destruct (Z.eqb_spec ch 10) as [->|]; [discriminate B|reflexivity]. }
  assert (K : forall f', mk f' = mk r -> vn f' = vn r ->
    (exists e a, tg f' = Target (schema_start (tg r)) (schema_end (tg r)) (host_start (tg r))
                           (host_end (tg r)) (uri_start (tg r)) (uri_end (tg r)) e a) -> keeps r f')
    by (intros f' K1 K2 K3; split; [exact K1|split; [exact K2|exact K3]]).
  pose proof (keeps_refl r) as (K1 & K2 & K3).
  unfold in_uri_state. destruct Hu as [-> | [-> | ->]]; cbn [rl_step];
    unfold after_slash_step, check_uri_step, uri_step; rewrite St;
    unfold after_slash_rest, check_uri_rest, uri_rest; rewrite B;
    repeat case_if; cbn [go_on]; do 2 eexists; (split; [reflexivity|]); (split; [auto|]);
    apply K; auto; do 2 eexists; reflexivity.
Qed.

Lemma runs_uri m l : clean l -> forall u p r, in_uri_state u ->
  exists u' r', runs m u p l r u' r' /\ in_uri_state u' /\ keeps r r'.
Proof.
  induction 1 as [|ch l [B N] _ IH]; intros u p r Hu.
  - exists u, r. split; [apply runs_nil|]. split; [exact Hu|apply keeps_refl].
  - destruct (uri_char_step m u p ch r Hu B N) as (u1 & r1 & E1 & U1 & K1).
    destruct (IH u1 (S p) r1 U1) as (u2 & r2 & E2 & U2 & K2). exists u2, r2.
    split; [eapply runs_cons; eauto|]. split; [exact U2|]. now apply (keeps_trans r r1).
Qed.

(** *** The end of the line *)

Lemma eol_runs m s p e r f rest : eol e -> request_end (mk f) = None ->
  rl_step m s p LF r = Done f -> rl_step m s p CR r = Go sw_almost_done f ->
  exists g q, rl_loop m s p (e ++ rest) r = (Done g, q) /\ S q = (p + length e)%nat
  /\ line_done g q = line_done f p.
Proof.
  intros [-> | ->] N E1 E2; cbn [app rl_loop length].
  - rewrite E1. exists f, p. split; [reflexivity|]. split; [lia|reflexivity].
  - rewrite E2. cbn [rl_step]. unfold almost_done_step. cbn [Z.eqb Pos.eqb]. cbv zeta.
    exists (set_request_end f (S p - 1)), (S p). split; [reflexivity|]. split; [lia|].
    unfold line_done. rewrite N. replace (S p - 1)%nat with p by lia. reflexivity.
Qed.

(** The digits of the minor version: each is read while the value is below
    100. *)
Lemma runs_minor m ds : forall p v r0, forallb is_digit ds = true -> 0 <= v <= 999 ->
  (ds <> [] -> decval_from v (removelast ds) <= 99) ->
  runs m sw_minor_digit p ds (set_minor r0 v) sw_minor_digit (set_minor r0 (decval_from v ds)).
Proof.
  induction ds as [|d ds IH]; intros p v r0 Hd Hv Hr; [apply runs_nil|].
  cbn [forallb] in Hd. apply andb_true_iff in Hd as [Hd Hds].
  assert (V : v <= 99).
  { specialize (Hr ltac:(discriminate)). destruct ds as [|d' ds]; [exact Hr|].
    change (removelast (d :: d' :: ds)) with (d :: removelast (d' :: ds)) in Hr.
    cbn [decval_from] in Hr.
    pose proof (decval_from_ge (v * 10 + (d - 48)) (removelast (d' :: ds))) as G.
    unfold is_digit in Hd.
    assert (forallb is_digit (removelast (d' :: ds)) = true).
    { rewrite forallb_forall in Hds |- *. intros x I. apply Hds.
      rewrite (app_removelast_last 0 (l := d' :: ds)) by discriminate. apply in_app_iff. auto. }
    specialize (G ltac:(lia) H). lia. }
  assert (Dd : 0 <= d - 48 <= 9) by byte_lia.
  eapply runs_cons with (s2 := sw_minor_digit) (r2 := set_minor r0 (v * 10 + (d - 48))).
  - cbn [rl_step]. unfold minor_step. cbn [set_minor with_vn vn http_minor].
    destruct (Z.eqb_spec d 13); [lia|]. destruct (Z.eqb_spec d 10); [lia|].
    destruct (Z.eqb_spec d 32); [lia|]. rewrite Hd. cbn [negb].
    assert (U : u16 v = v) by (apply Z.mod_small; lia). rewrite U.
    destruct (Z.ltb_spec 99 v); [lia|]. reflexivity.
  - apply IH; [exact Hds|lia|]. intros N. specialize (Hr ltac:(discriminate)).
    destruct ds as [|d' ds]; [contradiction|]. exact Hr.
Qed.

Definition minor_wf (ds : list Z) : Prop :=
  ds <> [] /\ forallb is_digit ds = true /\ decval (removelast ds) <= 99.

Definition HTTP1 : list Z := bs "HTTP/1.".

Definition version_1 (r : fields) (h : nat) (ds : list Z) : fields :=
  set_minor (set_major (set_http_protocol r h) 1) (decval ds).

Lemma runs_version m ds p r : minor_wf ds ->
  runs m sw_http_09 p (HTTP1 ++ ds) r sw_minor_digit (version_1 r p ds).
Proof.
  intros (Hn & Hd & Hm). change HTTP1 with [72; 84; 84; 80; 47; 49; 46].
  destruct ds as [|d ds]; [contradiction|]. cbn [app].
  cbn [forallb] in Hd. apply andb_true_iff in Hd as [Hd Hds].
  do 7 (eapply runs_cons; [reflexivity|]).
  apply (runs_cons m _ sw_minor_digit sw_minor_digit _ d ds _
    (set_minor (set_major (set_http_protocol r p) 1) (d - 48))).
  - cbn [rl_step]. unfold first_minor_step. rewrite Hd. reflexivity.
  - unfold version_1, decval. cbn [decval_from]. replace (0 * 10 + (d - 48)) with (d - 48) by lia.
    apply runs_minor; [exact Hds|byte_lia|]. intros N.
    destruct ds as [|d' ds]; [contradiction|].
    change (removelast (d :: d' :: ds)) with (d :: removelast (d' :: ds)) in Hm.
    unfold decval in Hm. cbn [decval_from] in Hm. replace (0 * 10 + (d - 48)) with (d - 48) in Hm by lia.
    exact Hm.
Qed.

(** What may stand between the URI and the end of the line. *)
Inductive proto_form : Set :=
| V09
| V1 (minor : list Z) (after : nat).

Definition proto_text (v : proto_form) : list Z :=
  match v with V09 => [] | V1 ds k => HTTP1 ++ ds ++ spaces k end.

Definition proto_wf (v : proto_form) : Prop :=
  match v with V09 => True | V1 ds _ => minor_wf ds end.

Definition proto_fields (v : proto_form) (r : fields) (h : nat) : fields :=
  match v with V09 => set_minor r 9 | V1 ds _ => version_1 r h ds end.

Lemma tail_runs m n v e p r rest : proto_wf v -> eol e -> request_end (mk r) = None ->
  exists g q, rl_loop m sw_http_09 p ((spaces n ++ proto_text v ++ e) ++ rest) r = (Done g, q)
  /\ S q = (p + length (spaces n ++ proto_text v ++ e))%nat
  /\ line_done g q = line_done (proto_fields v r (p + n)) (p + length (spaces n ++ proto_text v)).
Proof.
  intros Hv He Hr. rewrite <- !app_assoc.
  rewrite (runs_spaces m sw_http_09 r n (fun _ => eq_refl)). rewrite !length_app.
  assert (L : forall k, length (spaces k) = k) by (intros k; apply repeat_length). rewrite !L.
  destruct v as [|ds k]; cbn [proto_text proto_fields app length].
  - rewrite Nat.add_0_r.
    destruct (eol_runs m sw_http_09 (p + n) e r (set_minor r 9) rest He Hr eq_refl eq_refl)
      as (g & q & E & Q & Lg). exists g, q. split; [exact E|]. split; [lia|exact Lg].
  - rewrite <- !app_assoc.
    pose proof (runs_version m ds (p + n) r Hv) as R. rewrite app_assoc, R.
    pose proof (repeat_length " "%chr k) as Lk. fold (spaces k) in Lk.
    assert (Hf : request_end (mk (version_1 r (p + n) ds)) = None) by exact Hr.
    destruct k as [|k].
    + cbn [spaces repeat app].
      destruct (eol_runs m sw_minor_digit (p + n + length (HTTP1 ++ ds)) e _ _ rest He Hf
        eq_refl eq_refl) as (g & q & E & Q & Lg). exists g, q. split; [exact E|].
      rewrite !length_app in *. cbn [length]. split; [lia|]. rewrite Lg. f_equal. lia.
    + change (spaces (S k)) with (" "%chr :: spaces k). cbn [app rl_loop].
      change (rl_step m sw_minor_digit (p + n + length (HTTP1 ++ ds)) 32 (version_1 r (p + n) ds))
        with (Go sw_spaces_after_digit (version_1 r (p + n) ds)). cbv beta iota.
      rewrite (runs_spaces m sw_spaces_after_digit _ k (fun _ => eq_refl)), L.
      destruct (eol_runs m sw_spaces_after_digit (S (p + n + length (HTTP1 ++ ds)) + k) e
        (version_1 r (p + n) ds) _ rest He Hf
        eq_refl eq_refl) as (g & q & E & Q & Lg). exists g, q. split; [exact E|].
      rewrite !length_app in *. cbn [length] in *. rewrite L. split; [lia|]. rewrite Lg. f_equal. lia.
Qed.

(** From state [s] at [p] a gap, a version and an end of line end the line with
    the fields [f]; [strict] when the gap may not be empty. *)
Definition gap_wf (strict : bool) (gap : nat) (v : proto_form) : Prop :=
  match gap, v with O, V09 => strict = false | O, V1 _ _ => False | S _, _ => True end.

Definition finishes (m : list Z) (s : rl_state) (p : nat) (r f : fields) (strict : bool) : Prop :=
  forall gap v e rest, gap_wf strict gap v -> proto_wf v -> eol e ->
  exists g q, rl_loop m s p ((spaces gap ++ proto_text v ++ e) ++ rest) r = (Done g, q)
  /\ S q = (p + length (spaces gap ++ proto_text v ++ e))%nat
  /\ line_done g q
     = line_done (proto_fields v f (p + gap)) (p + length (spaces gap ++ proto_text v)).

Lemma finishes_space m s p r f strict : request_end (mk f) = None ->
  rl_step m s p " "%chr r = Go sw_http_09 f ->
  (strict = false -> rl_step m s p LF r = Done (set_minor f 9)
     /\ rl_step m s p CR r = Go sw_almost_done (set_minor f 9)) ->
  finishes m s p r f strict.
Proof.
  intros N E1 E2 gap v e rest Hg Hv He. destruct gap as [|gap].
  - destruct v as [|ds k]; cbn [gap_wf] in Hg; [|contradiction]. destruct (E2 Hg) as [E3 E4].
    cbn [spaces repeat app proto_text proto_fields length].
    destruct (eol_runs m s p e r (set_minor f 9) rest He N E3 E4) as (g & q & E & Q & Lg).
    exists g, q. split; [exact E|]. split; [exact Q|]. now rewrite Nat.add_0_r.
  - destruct (tail_runs m gap v e (S p) f rest Hv He N) as (g & q & E & Q & Lg).
    exists g, q. change (spaces (S gap)) with (" "%chr :: spaces gap). cbn [app rl_loop length].
    rewrite E1, E. split; [reflexivity|]. split; [lia|]. rewrite Lg.
    replace (S p + gap)%nat with (p + S gap)%nat by lia. f_equal. lia.
Qed.

Lemma finishes_uri m u p r : in_uri_state u -> request_end (mk r) = None ->
  finishes m u p r (set_uri_end r p) false.
Proof. intros [-> | [-> | ->]] N; (apply finishes_space; [exact N|reflexivity|split; reflexivity]). Qed.

Lemma finishes_runs m s s' p l r r' f strict :
  runs m s p l r s' r' -> finishes m s' (p + length l) r' f strict ->
  forall gap v e rest, gap_wf strict gap v -> proto_wf v -> eol e ->
  exists g q, rl_loop m s p (l ++ (spaces gap ++ proto_text v ++ e) ++ rest) r = (Done g, q)
  /\ S q = (p + length l + length (spaces gap ++ proto_text v ++ e))%nat
  /\ line_done g q = line_done (proto_fields v f (p + length l + gap))
                       (p + length l + length (spaces gap ++ proto_text v)).
Proof. intros R F gap v e rest Hg Hv He. rewrite R. now apply F. Qed.

(** *** The target *)

Definition schema_char (c : Z) : bool :=
  (alpha c || is_digit c || (c =? "+"%chr) || (c =? "-"%chr) || (c =? "."%chr))%bool.
Definition host_char (c : Z) : bool :=
  (alpha c || is_digit c || (c =? "."%chr) || (c =? "-"%chr))%bool.
Definition literal_char (c : Z) : bool := (is_digit c || alpha c || ip_literal_char c)%bool.

Definition schema_wf (l : list Z) : Prop :=
  exists c t, l = c :: t /\ alpha c = true /\ forallb schema_char t = true.
Definition host_wf (l : list Z) : Prop :=
  forallb host_char l = true
  \/ exists t, l = "["%chr :: t ++ ["]"%chr] /\ forallb literal_char t = true.
Definition port_wf (l : list Z) : Prop :=
  l = [] \/ exists t, l = ":"%chr :: t /\ forallb is_digit t = true.

(** What ends the authority. *)
Definition stops (c : Z) : Prop := c = "/"%chr \/ c = "?"%chr \/ c = " "%chr.

Lemma runs_forall m s r (f : Z -> bool) l : forallb f l = true ->
  (forall c p, f c = true -> rl_step m s p c r = Go s r) -> forall p, runs m s p l r s r.
Proof.
  intros H K. apply runs_many. apply Forall_forall. intros c I p. apply K.
  rewrite forallb_forall in H. now apply H.
Qed.

Lemma host_char_step m p c r : host_char c = true -> rl_step m sw_host p c r = Go sw_host r.
Proof.
  intros H. cbn [rl_step]. unfold host_step, host_char in *. destruct (alpha c); [reflexivity|].
  cbn [orb] in H. now rewrite H.
Qed.

Lemma literal_char_step m p c r : literal_char c = true -> c <> "]"%chr ->
  rl_step m sw_host_ip_literal p c r = Go sw_host_ip_literal r.
Proof.
  intros H N. cbn [rl_step]. unfold host_ip_literal_step, literal_char in *.
  destruct (is_digit c); [reflexivity|]. destruct (alpha c); [reflexivity|]. cbn [orb] in H.
  destruct (Z.eqb_spec c 93); [contradiction|]. now rewrite H.
Qed.

Lemma not_host_char c r p : c = ":"%chr \/ stops c -> host_step p c r = host_end_step p c r.
Proof. intros [-> | [-> | [-> | ->]]]; reflexivity. Qed.

(** The host, up to the byte after it. *)
Lemma runs_host m l p r : host_wf l -> exists s' r',
  runs m sw_host_start p l r s' r'
  /\ forall c, c = ":"%chr \/ stops c ->
     rl_step m s' (p + length l) c r' = host_end_step (p + length l) c (set_host_start r p).
Proof.
  intros [H | (t & -> & H)].
  - destruct l as [|a l].
    + exists sw_host_start, r. split; [apply runs_nil|]. intros c Hc. cbn [rl_step length].
      rewrite Nat.add_0_r. unfold host_start_step. cbv zeta. rewrite not_host_char by exact Hc.
      destruct Hc as [-> | [-> | [-> | ->]]]; reflexivity.
    + cbn [forallb] in H. apply andb_true_iff in H as [Ha H]. exists sw_host, (set_host_start r p).
      split.
      * eapply runs_cons; [|apply (runs_forall m _ _ host_char l H); intros; now apply host_char_step].
        pose proof (host_char_step m p a (set_host_start r p) Ha) as S. cbn [rl_step] in *.
        unfold host_start_step. cbv zeta. destruct (Z.eqb_spec a 91) as [->|]; [discriminate Ha|exact S].
      * intros c Hc. cbn [rl_step]. now apply not_host_char.
  - exists sw_host_end, (set_host_start r p). split; [|reflexivity].
    eapply runs_cons; [reflexivity|].
    apply (runs_app m _ sw_host_ip_literal sw_host_end _ t ["]"%chr] _ (set_host_start r p) _).
    + apply (runs_forall m _ _ literal_char t H). intros c q Hc. apply literal_char_step; [exact Hc|].
      intros ->. discriminate Hc.
    + apply runs_step. reflexivity.
Qed.

(** The host and the port. *)
Definition authority (r : fields) (p : nat) (host : list Z) : fields :=
  set_host_end (set_host_start r p) (p + length host).

Lemma runs_authority m host port p r : host_wf host -> port_wf port -> exists s' r',
  runs m sw_host_start p (host ++ port) r s' r'
  /\ forall c, stops c ->
     rl_step m s' (p + length (host ++ port)) c r'
     = authority_end (p + length (host ++ port)) c (authority r p host).
Proof.
  intros Hh Hp. destruct (runs_host m host p r Hh) as (s1 & r1 & R & E).
  destruct Hp as [-> | (t & -> & Ht)].
  - exists s1, r1. rewrite app_nil_r. split; [exact R|]. intros c Hc. rewrite E by auto.
    unfold host_end_step. cbv zeta. destruct Hc as [-> | [-> | ->]]; reflexivity.
  - exists sw_port, (authority r p host). split.
    + apply (runs_app m _ s1 _ p host _ _ r1 _ R).
      eapply runs_cons; [rewrite E by auto; reflexivity|].
      apply (runs_forall m _ _ is_digit t Ht). intros c q Hc. cbn [rl_step].
      unfold port_step. now rewrite Hc.
    + intros c Hc. cbn [rl_step]. unfold port_step.
      destruct Hc as [-> | [-> | ->]]; reflexivity.
Qed.

(** The scheme and "://". *)
Definition schemed (r : fields) (p : nat) (schema : list Z) : fields :=
  set_schema_end (set_schema_start r p) (p + length schema).

Lemma runs_schema m schema p r : schema_wf schema ->
  runs m sw_spaces_before_uri p (schema ++ bs "://") r sw_host_start (schemed r p schema).
Proof.
  intros (a & t & -> & Ha & Ht). cbn [app].
  apply (runs_cons m _ sw_schema _ p a _ r (set_schema_start r p) _).
  - cbn [rl_step]. unfold spaces_before_uri_step. rewrite Ha.
    destruct (Z.eqb_spec a 47) as [->|]; [discriminate Ha|reflexivity].
  - apply (runs_app m _ sw_schema _ (S p) t _ _ (set_schema_start r p) _).
    + apply (runs_forall m _ _ schema_char t Ht). intros c q Hc. cbn [rl_step].
      unfold schema_step, schema_char in *. destruct (alpha c); [reflexivity|]. cbn [orb] in Hc.
      now rewrite Hc.
    + change (bs "://") with [":"%chr; "/"%chr; "/"%chr].
      eapply runs_cons; [reflexivity|]. do 2 (eapply runs_cons; [reflexivity|]).
      unfold schemed. cbn [length]. replace (S p + length t)%nat with (p + S (length t))%nat by lia.
      apply runs_nil.
Qed.

(** A path, or arguments without one. *)
Definition uri_wf (l : list Z) : Prop :=
  l = [] \/ exists c t, l = c :: t /\ (c = "/"%chr \/ c = "?"%chr) /\ clean t.

Inductive target_form : Set :=
| Origin (uri : list Z)
| Absolute (schema host port uri : list Z).

Definition target_text (t : target_form) : list Z :=
  match t with
  | Origin uri => uri
  | Absolute schema host port uri => schema ++ bs "://" ++ (host ++ port) ++ uri
  end.

Definition target_wf (t : target_form) : Prop :=
  match t with
  | Origin uri => exists l, uri = "/"%chr :: l /\ clean l
  | Absolute schema host port uri =>
      schema_wf schema /\ host_wf host /\ port_wf port /\ uri_wf uri
  end.

Definition no_uri (t : target_form) : bool :=
  match t with Absolute _ _ _ [] => true | _ => false end.

(** What the parser has noted of a target that starts at [p]. *)
Definition target_noted (t : target_form) (p : nat) (f : fields) : Prop :=
  let q := (p + length (target_text t))%nat in
  match t with
  | Origin uri => uri_start (tg f) = Some p /\ uri_end (tg f) = Some q
  | Absolute schema host port uri =>
      let h := (p + length schema + 3)%nat in
      schema_start (tg f) = Some p /\ schema_end (tg f) = Some (p + length schema)%nat
      /\ host_start (tg f) = Some h /\ host_end (tg f) = Some (h + length host)%nat
      /\ match uri with
         | [] => uri_start (tg f) = Some (p + length schema + 1)%nat
                 /\ uri_end (tg f) = Some (p + length schema + 2)%nat
         | _ => uri_start (tg f) = Some (q - length uri)%nat /\ uri_end (tg f) = Some q
         end
  end.

Lemma keeps_end r r' : keeps r r' -> request_end (mk r') = request_end (mk r).
Proof. intros (E & _). now rewrite E. Qed.

Lemma target_runs m t p r : target_wf t -> request_end (mk r) = None -> exists s' r' f,
  runs m sw_spaces_before_uri p (target_text t) r s' r'
  /\ finishes m s' (p + length (target_text t)) r' f (no_uri t)
  /\ target_noted t p f /\ mk f = mk r /\ vn f = vn r.
Proof.
  intros Hw N. destruct t as [uri|schema host port uri]; cbn [target_wf target_text no_uri] in *.
  - destruct Hw as (l & -> & Hl).
    destruct (runs_uri m l Hl sw_after_slash_in_uri (S p) (set_uri_start r p)) as (u & r' & R & U & K);
      [now left|]. exists u, r', (set_uri_end r' (p + length ("/"%chr :: l))).
    split; [eapply runs_cons; [reflexivity|exact R]|].
    split; [apply finishes_uri; [exact U|now rewrite (keeps_end _ _ K)]|].
    destruct K as (K1 & K2 & e & a & K3). cbn [target_noted target_text set_uri_end with_tg tg mk vn
      uri_start uri_end]. rewrite K1, K2, K3. auto.
  - destruct Hw as (Hs & Hh & Hp & Hu).
    pose proof (runs_schema m schema p r Hs) as R1.
    destruct (runs_authority m host port (p + length (schema ++ bs "://")) (schemed r p schema) Hh Hp)
      as (s2 & r2 & R2 & E2).
    pose proof (runs_app _ _ _ _ _ _ _ _ _ _ R1 R2) as R12. rewrite <- app_assoc in R12.
    set (pre := schema ++ bs "://" ++ host ++ port) in *.
    set (au := authority (schemed r p schema) (p + length (schema ++ bs "://")) host) in *.
    assert (Q : (p + length (schema ++ bs "://") + length (host ++ port))%nat = (p + length pre)%nat).
    { unfold pre. rewrite !length_app. lia. }
    rewrite Q in E2.
    assert (Lt : schema ++ bs "://" ++ (host ++ port) ++ uri = pre ++ uri)
      by (unfold pre; now rewrite <- !app_assoc).
    rewrite Lt.
    assert (L3 : length (schema ++ bs "://") = (length schema + 3)%nat) by (rewrite length_app; reflexivity).
    destruct uri as [|c l].
    + rewrite app_nil_r. exists s2, r2. eexists. split; [exact R12|].
      split; [apply finishes_space; [|rewrite E2 by (right; right; reflexivity); reflexivity|discriminate]; exact N|].
      cbn [target_noted target_text]. unfold au, authority, schemed.
      cbn [schema_end set_uri_end set_uri_start set_host_end set_host_start set_schema_end
        set_schema_start with_tg tg schema_start host_start host_end uri_start uri_end mk vn].
      rewrite L3. repeat split; f_equal; lia.
    + destruct Hu as [F | (c' & l' & [= <- <-] & Hc & Hl)]; [discriminate F|].
      set (ru := if c =? "/"%chr then set_uri_start au (p + length pre)
                 else set_empty_path (set_args_start (set_uri_start au (p + length pre))
                        (p + length pre + 1))).
      set (u0 := if c =? "/"%chr then sw_after_slash_in_uri else sw_uri).
      assert (Ec : rl_step m s2 (p + length pre) c r2 = Go u0 ru).
      { rewrite E2 by (destruct Hc; unfold stops; auto). unfold u0, ru.
        destruct Hc as [-> | ->]; reflexivity. }
      destruct (runs_uri m l Hl u0 (S (p + length pre)) ru) as (u & r' & R & U & K).
      { unfold u0, in_uri_state. case_if; auto. }
      exists u, r', (set_uri_end r' (p + length (pre ++ c :: l))).
      split; [eapply runs_app; [exact R12|]; eapply runs_cons; [exact Ec|exact R]|].
      assert (Nu : request_end (mk ru) = None) by (unfold ru; case_if; exact N).
      split; [apply finishes_uri; [exact U|now rewrite (keeps_end _ _ K)]|].
      destruct K as (K1 & K2 & e & a & K3).
      cbn [target_noted target_text]. rewrite Lt. cbn [set_uri_end with_tg tg mk vn uri_start uri_end
        schema_start schema_end host_start host_end]. rewrite K1, K2, K3.
      cbn [schema_start schema_end host_start host_end uri_start uri_end].
      unfold ru, au, authority, schemed. rewrite (length_app pre).
      case_if; cbn [set_empty_path set_args_start set_uri_start set_host_end set_host_start set_schema_end
        set_schema_start with_tg with_fl tg schema_start schema_end host_start host_end uri_start uri_end mk vn];
      rewrite L3; repeat split; f_equal; cbn [length]; lia.
Qed.

Record line_form : Set := LineForm {
  lf_blank : list Z; lf_method : list Z; lf_spaces : nat; lf_target : target_form;
  lf_gap : nat; lf_proto : proto_form; lf_eol : list Z }.

(** The line without the blank lines before it and its end. *)
Definition line_body (l : line_form) : list Z :=
  (lf_method l ++ [" "%chr]) ++ spaces (lf_spaces l) ++ target_text (lf_target l)
  ++ spaces (lf_gap l) ++ proto_text (lf_proto l).

Definition line_text (l : line_form) : list Z := lf_blank l ++ line_body l ++ lf_eol l.

Definition line_wf (l : line_form) : Prop :=
  Forall crlf (lf_blank l) /\ lf_method l <> []
  /\ Forall (fun c => method_char c = true) (lf_method l) /\ target_wf (lf_target l)
  /\ gap_wf (no_uri (lf_target l)) (lf_gap l) (lf_proto l) /\ proto_wf (lf_proto l)
  /\ eol (lf_eol l).

Definition line_version (v : proto_form) : Z :=
  match v with V09 => 9 | V1 ds _ => 1000 + decval ds end.

Definition target_between (m : list Z) (t : target_form) (f : target) : Prop :=
  match t with
  | Origin uri => between m (uri_start f) (uri_end f) uri
  | Absolute schema host _ uri =>
      between m (schema_start f) (schema_end f) schema
      /\ between m (host_start f) (host_end f) host
      /\ between m (uri_start f) (uri_end f) (match uri with [] => ["/"%chr] | _ => uri end)
  end.

Lemma noted_between pre t post f : target_wf t ->
  target_noted t (length pre) f -> target_between (pre ++ target_text t ++ post) t (tg f).
Proof.
  intros Hw. destruct t as [uri|schema host port uri]; cbn [target_noted target_between target_text].
  - intros (E1 & E2). now apply (between_mid _ _ _ pre uri post).
  - intros (E1 & E2 & E3 & E4 & E5).
    split; [|split].
    + apply (between_mid _ _ _ pre schema (bs "://" ++ (host ++ port) ++ uri ++ post)); auto.
      now rewrite <- !app_assoc.
    + apply (between_mid _ _ _ (pre ++ schema ++ bs "://") host (port ++ uri ++ post)).
      * now rewrite <- !app_assoc.
      * rewrite E3, !length_app. f_equal. change (length (bs "://")) with 3%nat. lia.
      * rewrite E4, !length_app. f_equal. change (length (bs "://")) with 3%nat. lia.
    + destruct uri as [|c uri].
      * destruct E5 as [E5 E6].
        apply (between_mid _ _ _ (pre ++ schema ++ [":"%chr]) ["/"%chr]
          (["/"%chr] ++ (host ++ port) ++ post)).
        -- change (bs "://") with ([":"%chr] ++ ["/"%chr] ++ ["/"%chr]).
           now rewrite <- !app_assoc, app_nil_l.
        -- rewrite E5, !length_app. f_equal. cbn [length]. lia.
        -- rewrite E6, !length_app. f_equal. cbn [length]. lia.
      * destruct E5 as [E5 E6].
        apply (between_mid _ _ _ (pre ++ schema ++ bs "://" ++ host ++ port) (c :: uri) post).
        -- now rewrite <- !app_assoc.
        -- rewrite E5, !length_app. f_equal. lia.
        -- rewrite E6, !length_app. f_equal. lia.
Qed.

Lemma done_version v f h q : proto_wf v -> http_major (vn f) = 0 ->
  http_version (vn (line_done (proto_fields v f h) q)) = line_version v
  /\ method (vn (line_done (proto_fields v f h) q)) = method (vn f)
  /\ tg (line_done (proto_fields v f h) q) = tg f.
Proof.
  intros Hv Hm. unfold line_done. destruct v as [|ds k]; cbv zeta; cbn [proto_fields line_version].
  - repeat split; destruct (request_end _); cbn; rewrite ?Hm; reflexivity.
  - destruct Hv as (Hn & Hd & Hl).
    assert (R : 0 <= decval ds <= 999).
    { split; [now apply decval_nonneg|]. rewrite (app_removelast_last 0 Hn).
      rewrite decval_snoc. rewrite (app_removelast_last 0 Hn), forallb_app in Hd.
      apply andb_true_iff in Hd as [_ Hd]. cbn [forallb] in Hd. byte_lia. }
    assert (U : u16 (decval ds) = decval ds) by (apply Z.mod_small; lia).
    unfold version_1. repeat split; destruct (request_end _); cbn; rewrite ?U; try reflexivity;
      change (u16 1) with 1; lia.
Qed.

Lemma done_marks v f h q : request_end (mk f) = None ->
  request_start (mk (line_done (proto_fields v f h) q)) = request_start (mk f)
  /\ method_end (mk (line_done (proto_fields v f h) q)) = method_end (mk f)
  /\ request_end (mk (line_done (proto_fields v f h) q)) = Some q.
Proof.
  intros N. unfold line_done. destruct v as [|ds k]; cbv zeta; cbn [proto_fields];
    unfold version_1; cbn; rewrite N; cbn; auto.
Qed.

(** *** A path on its own *)

(** Where [ngx_http_parse_uri] goes on, so does the request line parser. *)
Lemma pu_step_rl m u p ch r s' r' : in_uri_state u ->
  pu_step u p ch r = Some (s', r') -> rl_step m u p ch r = Go s' r'.
Proof.
  intros Hu. destruct (bad_path_char ch) eqn:B.
  - assert (C : ch <= 32 \/ ch = 127) by (unfold bad_path_char in B; lia).
    destruct Hu as [-> | [-> | ->]]; cbn [pu_step rl_step];
      unfold after_slash_step, check_uri_step, uri_step, after_slash_rest, check_uri_rest, uri_rest;
      rewrite B; case_if; try (now intros [= <- <-]);
      repeat (case_if; [lia|]); discriminate.
  - assert (St : uri_stop p ch r = None /\ bad_char ch = false).
    { unfold uri_stop, bad_char, bad_path_char in *. repeat (case_if; [lia|]). split; [reflexivity|lia]. }
    destruct St as [St B']. destruct Hu as [-> | [-> | ->]]; cbn [pu_step rl_step];
      unfold after_slash_step, check_uri_step, uri_step; rewrite St;
      unfold after_slash_rest, check_uri_rest, uri_rest; rewrite B, B';
      repeat case_if; now intros [= <- <-].
Qed.

Lemma pu_state u p ch r s' r' : in_uri_state u -> pu_step u p ch r = Some (s', r') -> in_uri_state s'.
Proof.
  intros Hu. unfold in_uri_state. destruct Hu as [-> | [-> | ->]]; cbn [pu_step];
    unfold after_slash_rest, check_uri_rest, uri_rest; repeat case_if;
    try discriminate; intros [= <- <-]; auto.
Qed.

Lemma pu_step_keeps u p ch r s' r' : in_uri_state u -> pu_step u p ch r = Some (s', r') ->
  uri_end (tg r') = uri_end (tg r).
Proof.
  intros Hu. destruct Hu as [-> | [-> | ->]]; cbn [pu_step];
    unfold after_slash_rest, check_uri_rest, uri_rest; repeat case_if;
    try discriminate; now intros [= <- <-].
Qed.

Lemma pu_loop_marked m l : wf_bytes m -> forall u p r r' rest, in_uri_state u ->
  in_uri m u p r -> skipn p m = l ++ rest -> pu_loop u p l r = Some r' ->
  uri_end (tg r') = uri_end (tg r) /\ exists s, marked m r' s (p + length l).
Proof.
  intros Hw. induction l as [|ch l IH]; intros u p r r' rest Hu H E; cbn [pu_loop length app] in *.
  - intros [= <-]. split; [reflexivity|]. rewrite Nat.add_0_r. now apply in_uri_marked in H.
  - destruct (pu_step u p ch r) as [[s1 r1]|] eqn:Es; [|discriminate]. intros L.
    pose proof (pu_state _ _ _ _ _ _ Hu Es) as U1.
    pose proof (pu_step_rl m _ _ _ _ _ _ Hu Es) as R.
    pose proof (rl_step_inv m u p ch (l ++ rest) r Hw E) as I. rewrite R in I.
    destruct (IH s1 (S p) r1 r' rest U1) as (K & s & M).
    + destruct Hu as [-> | [-> | ->]], U1 as [-> | [-> | ->]]; exact (I H).
    + now apply (skipn_nth m p ch (l ++ rest)).
    + exact L.
    + split; [rewrite K; exact (pu_step_keeps _ _ _ _ _ _ Hu Es)|]. exists s.
      now replace (p + S (length l))%nat with (S p + length l)%nat by lia.
Qed.

Lemma path_marked m r s e r' : wf_bytes m -> fresh r -> (s < e <= length m)%nat ->
  uri_start (tg r) = Some s -> uri_end (tg r) = Some e ->
  ngx_http_parse_uri r m = Some r' -> after_uri m r'.
Proof.
  intros Hw F Hse Hs He. unfold ngx_http_parse_uri. cbv zeta. rewrite Hs, He. cbn [ptr].
  pose proof (slice_length m s e ltac:(lia) ltac:(lia)) as L.
  pose proof (slice_split m s e ltac:(lia)) as Sp.
  destruct (slice m s e) as [|c l]; [cbn [length] in L; lia|]. cbn [pu_loop pu_step].
  destruct (Z.eqb_spec c 47) as [->|]; [|discriminate]. intros P.
  assert (E : r = set_uri_start r s).
  { destruct r as [k t f v]. destruct t. cbn in Hs. now subst. }
  destruct (pu_loop_marked m l Hw sw_after_slash_in_uri (S s) r r' (skipn e m)) as (K & s' & M).
  - now left.
  - rewrite E. exact (seg_start m r s _ F Sp).
  - now apply (skipn_nth m s _ _ Sp).
  - exact P.
  - exists s', e. rewrite K. split; [exact He|]. cbn [length] in L.
    now replace (S s + length l)%nat with e in M by lia.
Qed.

(** The short cut or the normaliser, from the same marks. *)
Lemma marked_process merge m r : wf_bytes m -> after_uri m r ->
  let unparsed := slice m (ptr (uri_start (tg r))) (ptr (uri_end (tg r))) in
  let result := ngx_http_process_request_uri true merge r m in
  match Uri.uri_meaning merge (Uri.whole_path (empty_path_in_uri (fl r)) unparsed) with
  | None => result = None
  | Some (path, e) => exists u, result = Some u /\ uri_as path e unparsed u
  end.
Proof.
  intros Hw (s & e & He & Hs & Hse & _ & Hp & H).
  cbv zeta. rewrite Hs, He. cbn [ptr]. destruct H as [F|P].
  - exact (process_complex merge m r s e Hw Hs He F Hp).
  - destruct (complex_uri (fl r)) eqn:F1;
      [exact (process_complex merge m r s e Hw Hs He (or_introl F1) Hp)|].
    destruct (quoted_uri (fl r)) eqn:F2;
      [exact (process_complex merge m r s e Hw Hs He (or_intror (or_introl F2)) Hp)|].
    destruct (empty_path_in_uri (fl r)) eqn:F3.
    + pose proof (process_complex merge m r s e Hw Hs He (or_intror (or_intror F3))) as C.
      rewrite F3 in C. exact (C Hp).
    + destruct (process_plain merge m r s e Hse Hs He P F1 F2 F3) as (path & en & u & U1 & U2 & U3).
      cbn [Uri.whole_path]. rewrite U1. eauto.
Qed.

(** ** Properties *)

(** C3. A well-formed request line is read for what it says: after blank lines,
    a method, spaces, a target in origin or absolute form, and optionally a
    version 1.x, ended by CRLF or LF, the parser stops right after the line and
    its marks delimit the line, the method, the scheme, the host and the URI of
    the target; the version is 1000 plus the minor version, or 9 without one,
    which only GET may use. *)
Theorem request_line_read l rest :
  line_wf l -> wf_bytes (line_text l ++ rest) ->
  let m := line_text l ++ rest in
  exists f, ngx_http_parse_request_line new_request m 0
    = (if (match lf_proto l with V09 => true | V1 _ _ => false end
           && negb (method (vn f) =? NGX_HTTP_GET))%bool
       then NGX_HTTP_PARSE_INVALID_09_METHOD else NGX_OK,
       Request sw_start f, length (line_text l))
  /\ between m (request_start (mk f)) (request_end (mk f)) (line_body l)
  /\ between m (request_start (mk f)) (option_map S (method_end (mk f))) (lf_method l)
  /\ method (vn f) = method_named (lf_method l) NGX_HTTP_UNKNOWN
  /\ target_between m (lf_target l) (tg f)
  /\ http_version (vn f) = line_version (lf_proto l).
Proof.
  destruct l as [bl name n t gap v e]. unfold line_wf, line_text, line_body.
  cbn [lf_blank lf_method lf_spaces lf_target lf_gap lf_proto lf_eol].
  intros (H1 & H2 & H3 & H4 & H5 & H6 & H7) Hw.
  set (m := (bl ++ ((name ++ [" "%chr]) ++ spaces n ++ target_text t ++ spaces gap ++ proto_text v) ++ e)
            ++ rest) in *.
  assert (Em : m = bl ++ (name ++ [" "%chr]) ++ spaces n ++ target_text t
                   ++ (spaces gap ++ proto_text v ++ e) ++ rest)
    by (unfold m; now rewrite <- !app_assoc).
  destruct (runs_blank m bl H1 0 (rq new_request)) as (r1 & R1 & S1).
  assert (V1' : vn r1 = vn (rq new_request)) by exact (f_equal vn (S1 0%nat)).
  assert (Es : skipn (length bl) m = name ++ " "%chr :: spaces n ++ target_text t
                   ++ (spaces gap ++ proto_text v ++ e) ++ rest).
  { rewrite Em, skipn_app, skipn_all, Nat.sub_diag. cbn [skipn app]. now rewrite <- app_assoc. }
  pose proof (runs_method m name _ (length bl) r1 Hw H2 H3 Es ltac:(now rewrite V1')) as R2.
  rewrite S1 in R2. set (f2 := set_method _ _) in R2.
  pose proof (runs_spaces m sw_spaces_before_uri f2 n (fun _ => eq_refl)) as R3.
  set (p3 := (length bl + length (name ++ [" "%chr]) + n)%nat).
  destruct (target_runs m t p3 f2 H4 eq_refl) as (s4 & r4 & f4 & R4 & F4 & T4 & K4 & V4).
  destruct (F4 gap v e rest H5 H6 H7) as (g & q & E & Q & Lg).
  set (h := (p3 + length (target_text t) + gap)%nat) in *.
  set (z := (p3 + length (target_text t) + length (spaces gap ++ proto_text v))%nat) in *.
  assert (Ln : length (spaces n) = n) by apply repeat_length.
  assert (Lp : rl_loop m sw_start 0 m (rq new_request) = (Done g, q)).
  { rewrite Em at 2. rewrite R1, R2, R3. cbn [Nat.add]. rewrite Ln. fold p3. rewrite R4. exact E. }
  destruct (done_version v f4 h z H6 ltac:(now rewrite V4)) as (D1 & D2 & D3).
  assert (N4 : request_end (mk f4) = None) by (now rewrite K4).
  destruct (done_marks v f4 h z N4) as (D4 & D5 & D6).
  assert (Lz : z = (length bl + length ((name ++ [" "%chr]) ++ spaces n ++ target_text t
                   ++ spaces gap ++ proto_text v))%nat)
    by (unfold z, p3; rewrite !length_app, Ln; lia).
  exists (line_done (proto_fields v f4 h) z). split; [|split; [|split; [|split; [|split]]]].
  - unfold ngx_http_parse_request_line. cbn [state new_request skipn]. rewrite Lp. cbv zeta.
    rewrite Lg, D1. f_equal.
    + f_equal. replace (line_version v =? 9) with (match v with V09 => true | V1 _ _ => false end);
        [reflexivity|]. destruct v as [|ds k]; [reflexivity|]. destruct H6 as (_ & Hd & _).
      pose proof (decval_nonneg ds Hd). cbn [line_version]. symmetry. apply Z.eqb_neq. lia.
    + rewrite Q. unfold p3. rewrite !length_app, Ln. lia.
  - rewrite D4, D6, K4, Lz. apply (between_mid _ _ _ bl _ (e ++ rest)); try reflexivity.
    unfold m. now rewrite <- !app_assoc.
  - rewrite D4, D5, K4. apply (between_mid _ _ _ bl name ([" "%chr] ++ spaces n ++ target_text t
      ++ (spaces gap ++ proto_text v ++ e) ++ rest)); [|reflexivity|].
    + rewrite Em. now rewrite <- !app_assoc.
    + cbn. f_equal. destruct name; [contradiction|]. cbn [length]. lia.
  - rewrite D2, V4. reflexivity.
  - rewrite D3. replace m with ((bl ++ (name ++ [" "%chr]) ++ spaces n) ++ target_text t
      ++ (spaces gap ++ proto_text v ++ e) ++ rest) by (rewrite Em; now rewrite <- !app_assoc).
    apply noted_between; [exact H4|]. replace (length _) with p3; [exact T4|].
    unfold p3. rewrite !length_app, Ln. lia.
  - exact D1.
Qed.

Example request_line_read_witness :
  let l := LineForm [CR; LF] (bs "GET") 1 (Absolute (bs "http") (bs "a.b") (bs ":80") (bs "/c?d")) 1
             (V1 (bs "1") 0) [CR; LF] in
  line_text l = [CR; LF] ++ bs "GET  http://a.b:80/c?d HTTP/1.1" ++ [CR; LF]
  /\ exists f, ngx_http_parse_request_line new_request (line_text l ++ bs "Host") 0
    = (if (false && negb (method (vn f) =? NGX_HTTP_GET))%bool
       then NGX_HTTP_PARSE_INVALID_09_METHOD else NGX_OK,
       Request sw_start f, length (line_text l))
  /\ between (line_text l ++ bs "Host") (request_start (mk f)) (request_end (mk f)) (line_body l)
  /\ between (line_text l ++ bs "Host") (request_start (mk f)) (option_map S (method_end (mk f))) (bs "GET")
  /\ method (vn f) = method_named (bs "GET") NGX_HTTP_UNKNOWN
  /\ target_between (line_text l ++ bs "Host") (lf_target l) (tg f)
  /\ http_version (vn f) = line_version (lf_proto l).
Proof.
  intros l. split; [reflexivity|].
  refine (request_line_read l (bs "Host") _ _).
  - split; [constructor; [now left|]; constructor; [now right|constructor]|].
    split; [discriminate|]. split; [repeat constructor|]. split.
    { split; [exists 104, (bs "ttp"); repeat split|]. split; [now left|].
      split; [right; exists (bs "80"); split; reflexivity|].
      right. exists 47, (bs "c?d"). split; [reflexivity|]. split; [now left|].
      repeat constructor; discriminate. }
    split; [exact I|]. split; [repeat split; discriminate|]. now right.
  - repeat constructor; discriminate.
Defined.

(** C4. An accepted request line is framed by its line feed: the request starts
    after the leading line ends, the method is a token of upper case letters,
    "_" and "-" followed by its code, no byte of the line before its last is a
    line feed, and reading stops right after that byte; the URI has no space,
    no control character and no DEL. *)
Theorem request_line_sound m r p :
  wf_bytes m -> ngx_http_parse_request_line new_request m 0 = (NGX_OK, r, p) ->
  exists a e s t, request_start (mk (rq r)) = Some a /\ method_end (mk (rq r)) = Some e
  /\ uri_start (tg (rq r)) = Some s /\ uri_end (tg (rq r)) = Some t
  /\ Forall crlf (firstn a m)
  /\ (a <= e)%nat /\ Forall (fun c => method_char c = true) (slice m a (e + 1))
  /\ method (vn (rq r)) = method_named (slice m a (e + 1)) NGX_HTTP_UNKNOWN
  /\ Forall (fun c => c <> LF) (slice m a (p - 1)) /\ slice m (p - 1) p = [LF]
  /\ (s < t)%nat /\ clean (slice m s t).
Proof.
  intros Hw E. destruct (line_framed m NGX_OK r p Hw (or_introl eq_refl) E) as (q & -> & L & Lq).
  destruct L as (a & e & A1 & A2 & A3 & A4 & A5 & A6 & A7 & A8).
  destruct (line_marked m r (S q) Hw E) as (s & t & U1 & U2 & U3 & U4 & _).
  exists a, e, s, t. replace (S q - 1)%nat with q by lia. repeat (split; [assumption|]).
  split; [lia|exact U4].
Qed.

Example request_line_sound_witness :
  exists r, ngx_http_parse_request_line new_request (bs "GET /a HTTP/1.0" ++ [LF]) 0 = (NGX_OK, r, 16%nat)
  /\ exists a e s t, request_start (mk (rq r)) = Some a /\ method_end (mk (rq r)) = Some e
  /\ uri_start (tg (rq r)) = Some s /\ uri_end (tg (rq r)) = Some t
  /\ Forall crlf (firstn a (bs "GET /a HTTP/1.0" ++ [LF]))
  /\ (a <= e)%nat
  /\ Forall (fun c => method_char c = true) (slice (bs "GET /a HTTP/1.0" ++ [LF]) a (e + 1))
  /\ method (vn (rq r)) = method_named (slice (bs "GET /a HTTP/1.0" ++ [LF]) a (e + 1)) NGX_HTTP_UNKNOWN
  /\ Forall (fun c => c <> LF) (slice (bs "GET /a HTTP/1.0" ++ [LF]) a 15)
  /\ slice (bs "GET /a HTTP/1.0" ++ [LF]) 15 16 = [LF]
  /\ (s < t)%nat /\ clean (slice (bs "GET /a HTTP/1.0" ++ [LF]) s t).
Proof.
  set (m := bs "GET /a HTTP/1.0" ++ [LF]).
  set (r := Request sw_start (Fields (Marks (Some 0%nat) (Some 2%nat) (Some 15%nat) (Some 7%nat))
    (Target None None None None (Some 4%nat) (Some 6%nat) None None) (Flags false false false false)
    (Version NGX_HTTP_GET 1 0 1000))).
  exists r. split; [vm_compute; reflexivity|].
  refine (request_line_sound m r 16 _ _); [repeat constructor; discriminate|vm_compute; reflexivity].
Defined.

(** C1. The URI of a request is the normal form of its target, whichever way it
    is made: for every accepted request line, if the target's text has a normal
    form, [ngx_http_process_request_uri] takes it for [r->uri], with the
    arguments before the fragment and an extension of the path, and otherwise
    refuses the request.  In particular the short cut, which takes the text as
    it stands when the parser has raised no flag, agrees with
    [ngx_http_parse_complex_uri]. *)
Theorem request_uri_normalized merge_slashes m r p :
  wf_bytes m -> ngx_http_parse_request_line new_request m 0 = (NGX_OK, r, p) ->
  let unparsed := slice m (ptr (uri_start (tg (rq r)))) (ptr (uri_end (tg (rq r)))) in
  let result := ngx_http_process_request_uri true merge_slashes (rq r) m in
  match Uri.uri_meaning merge_slashes
          (Uri.whole_path (empty_path_in_uri (fl (rq r))) unparsed) with
  | None => result = None
  | Some (path, e) => exists u, result = Some u /\ uri_as path e unparsed u
  end.
Proof.
  intros Hw E. exact (marked_process merge_slashes m (rq r) Hw (line_marked m r p Hw E)).
Qed.

Example request_uri_normalized_witness :
  let m := bs "GET /a/b.c?d=e HTTP/1.1" ++ [CR; LF] in
  let r := rq (snd (fst (ngx_http_parse_request_line new_request m 0))) in
  Uri.uri_meaning true (bs "/a/b.c?d=e") = Some (bs "/a/b.c", Uri.AtArgs (bs "d=e"))
  /\ exists u, ngx_http_process_request_uri true true r m = Some u
     /\ uri_as (bs "/a/b.c") (Uri.AtArgs (bs "d=e")) (bs "/a/b.c?d=e") u.
Proof.
  set (m := bs "GET /a/b.c?d=e HTTP/1.1" ++ [CR; LF]).
  set (r := Request sw_start (Fields (Marks (Some 0%nat) (Some 2%nat) (Some 23%nat) (Some 15%nat))
    (Target None None None None (Some 4%nat) (Some 14%nat) (Some 9%nat) (Some 11%nat))
    (Flags false false false false) (Version NGX_HTTP_GET 1 1 1001))).
  assert (W : wf_bytes m) by (repeat constructor; discriminate).
  assert (E : ngx_http_parse_request_line new_request m 0 = (NGX_OK, r, 25%nat)) by (vm_compute; reflexivity).
  split; [vm_compute; reflexivity|]. cbv zeta. rewrite E.
  exact (request_uri_normalized true m r 25 W E).
Defined.

(** A path received on its own, as in HTTP/2 and HTTP/3, is held to the same
    rule: when [ngx_http_parse_uri] accepts it, [ngx_http_process_request_uri]
    takes its normal form for [r->uri], or refuses the request. *)
Theorem path_uri_normalized merge_slashes m r s e r' :
  wf_bytes m -> fresh r -> (s < e <= length m)%nat ->
  uri_start (tg r) = Some s -> uri_end (tg r) = Some e -> ngx_http_parse_uri r m = Some r' ->
  let unparsed := slice m (ptr (uri_start (tg r'))) (ptr (uri_end (tg r'))) in
  let result := ngx_http_process_request_uri true merge_slashes r' m in
  match Uri.uri_meaning merge_slashes (Uri.whole_path (empty_path_in_uri (fl r')) unparsed) with
  | None => result = None
  | Some (path, e) => exists u, result = Some u /\ uri_as path e unparsed u
  end.
Proof.
  intros Hw F Hse Hs He P.
  exact (marked_process merge_slashes m r' Hw (path_marked m r s e r' Hw F Hse Hs He P)).
Qed.

Example path_uri_normalized_witness :
  let m := bs "/a%2fb" in
  let t e a := Target None None None None (Some 0%nat) (Some 6%nat) e a in
  let r := Fields (Marks None None None None) (t None None) (Flags false false false false)
             (Version NGX_HTTP_GET 2 0 2000) in
  let r' := Fields (Marks None None None None) (t None None) (Flags false true false false)
             (Version NGX_HTTP_GET 2 0 2000) in
  ngx_http_parse_uri r m = Some r'
  /\ exists u, ngx_http_process_request_uri true true r' m = Some u
     /\ uri_as (bs "/a/b") Uri.AtEnd (bs "/a%2fb") u.
Proof.
  intros m t r r'. assert (W : wf_bytes m) by (repeat constructor; discriminate).
  split; [vm_compute; reflexivity|].
  refine (path_uri_normalized true m r 0 6 r' W _ _ eq_refl eq_refl eq_refl);
    [repeat split|cbn; lia].
Defined.

End RequestLine.
