(* ===== verification/HeaderLine.v ===== *)
(** * HeaderLine: header lines (src/http/ngx_http_parse.c)

    [ngx_http_parse_header_line] reads one line of a header from a buffer that
    may hold only a part of it.  It marks the name and the value, and while it
    reads the name it computes its hash and a copy in lower case.  The buffer is
    the list of its bytes from [b->start] to [b->last]; pointers are offsets. *)

From S2P Require Import Prelude NgxString.

Module HeaderLine.

(** ** Definitions *)

Inductive hl_state : Set :=
| sw_start
| sw_name
| sw_space_before_value
| sw_value
| sw_space_after_value
| sw_ignore_line
| sw_almost_done
| sw_header_almost_done.

Definition NGX_HTTP_PARSE_HEADER_DONE : Z := 1.
Definition NGX_HTTP_PARSE_INVALID_HEADER : Z := 14.
Definition NGX_HTTP_LC_HEADER_LEN : Z := 32.

(** [ngx_hash] (src/core/ngx_hash.h) *)
Definition ngx_hash (key c : Z) : Z := u64 (u64 (key * 31) + c).

(** A byte of a name in lower case, 0 when it is not a letter, a digit or "-". *)
Definition lowcase : list Z :=
  repeat 0 32
  ++ repeat 0 13 ++ ["-"%chr] ++ repeat 0 2 ++ bs "0123456789" ++ repeat 0 6
  ++ repeat 0 1 ++ bs "abcdefghijklmnopqrstuvwxyz" ++ repeat 0 5
  ++ repeat 0 1 ++ bs "abcdefghijklmnopqrstuvwxyz" ++ repeat 0 5
  ++ repeat 0 128.

(** The fields of [ngx_http_request_t] the parser uses. *)
Record fields : Set := Fields {
  lowcase_header : list Z; invalid_header : bool;
  header_name_start : option nat; header_name_end : option nat;
  header_start : option nat; header_end : option nat }.

Record header : Set := Header {
  state : hl_state; header_hash : Z; lowcase_index : Z; hd_fields : fields }.

Definition set_lowcase (f : fields) (i c : Z) : fields :=
  Fields (upd (Z.to_nat i) c (lowcase_header f)) (invalid_header f) (header_name_start f)
    (header_name_end f) (header_start f) (header_end f).
Definition set_invalid (f : fields) (b : bool) : fields :=
  Fields (lowcase_header f) b (header_name_start f) (header_name_end f) (header_start f) (header_end f).
Definition set_name_start (f : fields) (p : nat) : fields :=
  Fields (lowcase_header f) (invalid_header f) (Some p) (header_name_end f) (header_start f) (header_end f).
Definition set_name_end (f : fields) (p : nat) : fields :=
  Fields (lowcase_header f) (invalid_header f) (header_name_start f) (Some p) (header_start f) (header_end f).
Definition set_start (f : fields) (p : nat) : fields :=
  Fields (lowcase_header f) (invalid_header f) (header_name_start f) (header_name_end f) (Some p) (header_end f).
Definition set_end (f : fields) (p : nat) : fields :=
  Fields (lowcase_header f) (invalid_header f) (header_name_start f) (header_name_end f) (header_start f) (Some p).

(** The local variables [hash] and [i], and the fields. *)
Record vars : Set := Vars { hash : Z; ix : Z; fs : fields }.

Definition on_fields (v : vars) (f : fields) : vars := Vars (hash v) (ix v) f.

Inductive hl_ctl : Set :=
| Go (s : hl_state) (v : vars)
| Done (v : vars)
| HeaderDone (v : vars)
| Err (v : vars).

(** The first byte of a line. *)
Definition start_step (allow_underscores : bool) (p : nat) (ch : Z) (v : vars) : hl_ctl :=
  let f := set_invalid (set_name_start (fs v) p) false in
  if ch =? CR then Go sw_header_almost_done (on_fields v (set_end f p))
  else if ch =? LF then HeaderDone (on_fields v (set_end f p))
  else
    let c := tbl lowcase ch in
    if negb (c =? 0) then Go sw_name (Vars (ngx_hash 0 c) 1 (set_lowcase f 0 c))
    else if ch =? "_"%chr then
      if allow_underscores then Go sw_name (Vars (ngx_hash 0 ch) 1 (set_lowcase f 0 ch))
      else Go sw_name (Vars 0 0 (set_invalid f true))
    else if ((ch <=? 0x20) || (ch =? 0x7f) || (ch =? ":"%chr))%bool
    then Err (on_fields v (set_end f p))
    else Go sw_name (Vars 0 0 (set_invalid f true)).

(** One more byte of the name in the hash and the copy. *)
Definition add_char (v : vars) (c : Z) : vars :=
  Vars (ngx_hash (hash v) c) (Z.land (ix v + 1) (NGX_HTTP_LC_HEADER_LEN - 1))
    (set_lowcase (fs v) (ix v) c).

(** [ngx_strncmp(r->header_name_start, "HTTP", 4) == 0] *)
Definition is_http (m : list Z) (s p : nat) : bool :=
  (Nat.eqb (p - s) 4
   && (nth s m 0 =? "H"%chr) && (nth (s + 1) m 0 =? "T"%chr)
   && (nth (s + 2) m 0 =? "T"%chr) && (nth (s + 3) m 0 =? "P"%chr))%bool.

Definition name_step (allow_underscores upstream : bool) (m : list Z) (p : nat) (ch : Z) (v : vars)
  : hl_ctl :=
  let f := fs v in
  let c := tbl lowcase ch in
  if negb (c =? 0) then Go sw_name (add_char v c)
  else if ch =? "_"%chr then
    if allow_underscores then Go sw_name (add_char v ch)
    else Go sw_name (on_fields v (set_invalid f true))
  else if ch =? ":"%chr then Go sw_space_before_value (on_fields v (set_name_end f p))
  else if ch =? CR
  then Go sw_almost_done (on_fields v (set_end (set_start (set_name_end f p) p) p))
  else if ch =? LF then Done (on_fields v (set_end (set_start (set_name_end f p) p) p))
  else if ((ch =? "/"%chr) && upstream
           && is_http m (match header_name_start f with Some s => s | None => O end) p)%bool
  then Go sw_ignore_line v
  else if ((ch <=? 0x20) || (ch =? 0x7f))%bool then Err (on_fields v (set_end f p))
  else Go sw_name (on_fields v (set_invalid f true)).

Definition space_before_step (p : nat) (ch : Z) (v : vars) : hl_ctl :=
  let f := fs v in
  if ch =? " "%chr then Go sw_space_before_value v
  else if ch =? CR then Go sw_almost_done (on_fields v (set_end (set_start f p) p))
  else if ch =? LF then Done (on_fields v (set_end (set_start f p) p))
  else if ch =? 0 then Err (on_fields v (set_end f p))
  else Go sw_value (on_fields v (set_start f p)).

Definition value_step (p : nat) (ch : Z) (v : vars) : hl_ctl :=
  let v' := on_fields v (set_end (fs v) p) in
  if ch =? " "%chr then Go sw_space_after_value v'
  else if ch =? CR then Go sw_almost_done v'
  else if ch =? LF then Done v'
  else if ch =? 0 then Err v'
  else Go sw_value v.

Definition space_after_step (p : nat) (ch : Z) (v : vars) : hl_ctl :=
  if ch =? " "%chr then Go sw_space_after_value v
  else if ch =? CR then Go sw_almost_done v
  else if ch =? LF then Done v
  else if ch =? 0 then Err (on_fields v (set_end (fs v) p))
  else Go sw_value v.

Definition hl_step (allow_underscores upstream : bool) (m : list Z) (s : hl_state) (p : nat)
    (ch : Z) (v : vars) : hl_ctl :=
  match s with
  | sw_start => start_step allow_underscores p ch v
  | sw_name => name_step allow_underscores upstream m p ch v
  | sw_space_before_value => space_before_step p ch v
  | sw_value => value_step p ch v
  | sw_space_after_value => space_after_step p ch v
  | sw_ignore_line => if ch =? LF then Go sw_start v else Go sw_ignore_line v
  | sw_almost_done =>
      if ch =? LF then Done v else if ch =? CR then Go sw_almost_done v else Err v
  | sw_header_almost_done => if ch =? LF then HeaderDone v else Err v
  end.

Fixpoint hl_loop (allow_underscores upstream : bool) (m : list Z) (s : hl_state) (p : nat)
    (l : list Z) (v : vars) : hl_ctl * nat :=
  match l with
  | [] => (Go s v, p)
  | ch :: l' =>
      match hl_step allow_underscores upstream m s p ch v with
      | Go s' v' => hl_loop allow_underscores upstream m s' (S p) l' v'
      | c => (c, p)
      end
  end.

(** Return code, fields, [b->pos].  [upstream] tells whether the line comes from
    an upstream server. *)
Definition ngx_http_parse_header_line (r : header) (m : list Z) (pos : nat)
    (allow_underscores upstream : bool) : Z * header * nat :=
  match hl_loop allow_underscores upstream m (state r) pos (skipn pos m)
          (Vars (header_hash r) (lowcase_index r) (hd_fields r)) with
  | (Go s v, p) => (NGX_AGAIN, Header s (hash v) (ix v) (fs v), p)
  | (Done v, p) => (NGX_OK, Header sw_start (hash v) (ix v) (fs v), S p)
  | (HeaderDone v, p) =>
      (NGX_HTTP_PARSE_HEADER_DONE, Header sw_start (header_hash r) (lowcase_index r) (fs v), S p)
  | (Err v, _) =>
      (NGX_HTTP_PARSE_INVALID_HEADER,
       Header (state r) (header_hash r) (lowcase_index r) (fs v), pos)
  end.

(** ** Lemmas: a line that arrives in parts *)

(** [ngx_strncmp] looks at the name only when four bytes of it are there. *)
Lemma is_http_prefix m1 m2 s p : (p <= length m1)%nat ->
  is_http (m1 ++ m2) s p = is_http m1 s p.
Proof.
  intros H. unfold is_http. destruct (Nat.eqb_spec (p - s) 4); [|reflexivity]. cbn [andb].
  now rewrite !app_nth1 by lia.
Qed.

Section Loop.
Context (au up : bool).

Lemma hl_step_prefix m1 m2 s p ch v : (p < length m1)%nat ->
  hl_step au up (m1 ++ m2) s p ch v = hl_step au up m1 s p ch v.
Proof.
  intros H. destruct s; try reflexivity. cbn [hl_step]. unfold name_step.
  now rewrite is_http_prefix by lia.
Qed.

Lemma hl_loop_prefix m1 m2 l : forall s p v,
  skipn p m1 = l -> hl_loop au up (m1 ++ m2) s p l v = hl_loop au up m1 s p l v.
Proof.
  induction l as [|ch l IH]; intros s p v H; [reflexivity|]. cbn [hl_loop].
  destruct (skipn_nth m1 p ch l H) as (_ & H2 & H3). rewrite hl_step_prefix by exact H3.
  destruct (hl_step au up m1 s p ch v); try reflexivity. now apply IH.
Qed.

Lemma hl_loop_app m l1 l2 : forall s p v,
  hl_loop au up m s p (l1 ++ l2) v =
  match hl_loop au up m s p l1 v with
  | (Go s' v', p') => hl_loop au up m s' p' l2 v'
  | c => c
  end.
Proof.
  induction l1 as [|ch l1 IH]; intros s p v; [reflexivity|]. cbn [app hl_loop].
  destruct (hl_step au up m s p ch v); try reflexivity. apply IH.
Qed.

Lemma hl_loop_again m l : forall s p v s' v' p',
  hl_loop au up m s p l v = (Go s' v', p') -> p' = (p + length l)%nat.
Proof.
  induction l as [|ch l IH]; intros s p v s' v' p'; cbn [hl_loop length].
  - intros [= _ _ <-]. lia.
  - destruct (hl_step au up m s p ch v); try discriminate. intros H. apply IH in H. lia.
Qed.

(** What a caller sees of a result; the hash and the index count only with a
    complete line, and where an error was found does not matter. *)
Definition observed (x : Z * header * nat)
  : Z * fields * option (hl_state * nat) * option (Z * Z) :=
  let '(rc, r, p) := x in
  (rc, hd_fields r,
   if rc =? NGX_HTTP_PARSE_INVALID_HEADER then None else Some (state r, p),
   if ((rc =? NGX_OK) || (rc =? NGX_AGAIN))%bool then Some (header_hash r, lowcase_index r) else None).

Lemma hl_parse_prefix r m1 m2 pos rc r1 p1 : (pos <= length m1)%nat ->
  ngx_http_parse_header_line r m1 pos au up = (rc, r1, p1) ->
  if rc =? NGX_AGAIN
  then p1 = length m1
       /\ observed (ngx_http_parse_header_line r (m1 ++ m2) pos au up)
          = observed (ngx_http_parse_header_line r1 (m1 ++ m2) p1 au up)
  else ngx_http_parse_header_line r (m1 ++ m2) pos au up = (rc, r1, p1).
Proof.
  intros Hp. unfold ngx_http_parse_header_line. set (v0 := Vars _ _ (hd_fields r)).
  pose proof (hl_loop_prefix m1 m2 (skipn pos m1) (state r) pos v0 eq_refl) as P.
  rewrite skipn_app. replace (pos - length m1)%nat with O by lia. cbn [skipn].
  rewrite hl_loop_app, P.
  destruct (hl_loop au up m1 (state r) pos (skipn pos m1) v0) as [[s v|v|v|v] p] eqn:E;
    try (now intros [= <- <- <-]).
  intros [= <- <- <-]. cbn [Z.eqb Pos.eqb state header_hash lowcase_index hd_fields].
  apply hl_loop_again in E as ->. rewrite length_skipn.
  replace (pos + (length m1 - pos))%nat with (length m1) by lia. split; [reflexivity|].
  rewrite skipn_app, skipn_all, Nat.sub_diag. cbn [skipn app]. destruct v as [h i f]. cbn [hash ix fs].
  destruct (hl_loop au up (m1 ++ m2) s (length m1) m2 (Vars h i f)) as [[s2 v2|v2|v2|v2] p2];
    reflexivity.
Qed.

(** The parser called again each time more of the line has arrived. *)
Fixpoint arrive (r : header) (m : list Z) (pos : nat) (parts : list (list Z))
  : Z * header * nat :=
  match parts with
  | [] => (NGX_AGAIN, r, pos)
  | part :: parts' =>
      let m' := m ++ part in
      let '(rc, r', pos') := ngx_http_parse_header_line r m' pos au up in
      if rc =? NGX_AGAIN then arrive r' m' pos' parts' else (rc, r', pos')
  end.

Lemma arrive_whole parts : forall r m,
  observed (arrive r m (length m) parts)
  = observed (ngx_http_parse_header_line r (m ++ concat parts) (length m) au up).
Proof.
  induction parts as [|part parts IH]; intros r m; cbn [concat arrive].
  - rewrite app_nil_r. unfold ngx_http_parse_header_line. rewrite skipn_all. now destruct r.
  - cbv zeta. rewrite app_assoc.
    destruct (ngx_http_parse_header_line r (m ++ part) (length m) au up) as [[rc r1] p1] eqn:E.
    pose proof (hl_parse_prefix r (m ++ part) (concat parts) (length m) rc r1 p1
      ltac:(rewrite length_app; lia) E) as P.
    destruct (rc =? NGX_AGAIN).
    + destruct P as [-> P]. now rewrite IH, P.
    + now rewrite P.
Qed.
End Loop.

(** ** Specifications *)

(** The bytes of a name that count, and those the parser takes for a name. *)
Definition valid_char (au : bool) (c : Z) : bool :=
  (is_digit c || (("a"%chr <=? c) && (c <=? "z"%chr)) || (("A"%chr <=? c) && (c <=? "Z"%chr))
   || (c =? "-"%chr) || ((c =? "_"%chr) && au))%bool.

Definition name_char (c : Z) : bool :=
  negb ((c <=? 0x20) || (c =? 0x7f) || (c =? ":"%chr)).

(** The valid bytes of a name, in lower case, and their hash. *)
Definition kept (au : bool) (name : list Z) : list Z :=
  map Str.ngx_tolower (filter (valid_char au) name).
Definition hash_of (l : list Z) : Z := fold_left ngx_hash l 0.

(** Writing a byte of the copy: the array and the index, which wraps at 32. *)
Definition lc_add (s : list Z * Z) (c : Z) : list Z * Z :=
  (upd (Z.to_nat (snd s)) c (fst s), Z.land (snd s + 1) (NGX_HTTP_LC_HEADER_LEN - 1)).

(** A value keeps its inner spaces, and neither starts nor ends with one. *)
Definition value_char (c : Z) : Prop := c <> 0 /\ c <> CR /\ c <> LF.
Definition trimmed (l : list Z) : Prop :=
  Forall value_char l /\ hd 1 l <> " "%chr /\ last l 1 <> " "%chr.

(** ** Lemmas: the name *)

Lemma lowcase_spec c : is_byte c ->
  (if tbl lowcase c =? 0 then valid_char false c = false
   else valid_char false c = true /\ tbl lowcase c = Str.ngx_tolower c).
Proof.
  intros H.
  assert (E : (if tbl lowcase c =? 0 then negb (valid_char false c)
               else valid_char false c && (tbl lowcase c =? Str.ngx_tolower c))%bool = true)
    by by_bytes c.
  destruct (tbl lowcase c =? 0); [now apply negb_true_iff|].
  apply andb_true_iff in E as [E1 E2]. split; [exact E1|lia].
Qed.

(** What one byte of the name does. *)
Definition add (au : bool) (v : vars) (c : Z) : vars :=
  if valid_char au c then add_char v (Str.ngx_tolower c)
  else on_fields v (set_invalid (fs v) true).

Lemma valid_char_split au c : c <> "_"%chr -> valid_char au c = valid_char false c.
Proof.
  intros N. unfold valid_char. destruct (Z.eqb_spec c 95); [contradiction|reflexivity].
Qed.

Lemma start_step_name au p c v : is_byte c -> name_char c = true ->
  start_step au p c v
  = Go sw_name (add au (Vars 0 0 (set_invalid (set_name_start (fs v) p) false)) c).
Proof.
  intros Hb Hc. unfold start_step, add. cbv zeta. unfold name_char in Hc.
  destruct (Z.eqb_spec c 13); [lia|]. destruct (Z.eqb_spec c 10); [lia|].
  pose proof (lowcase_spec c Hb) as L.
  destruct (Z.eqb_spec c 95) as [->|N].
  - change (tbl lowcase 95) with 0. cbn [Z.eqb negb]. change (valid_char au 95) with au.
    destruct au; reflexivity.
  - rewrite (valid_char_split au c N). destruct (tbl lowcase c =? 0); cbn [negb].
    + rewrite L. case_if; [lia|reflexivity].
    + destruct L as [-> ->]. reflexivity.
Qed.

Lemma name_step_name au up m p c v : is_byte c -> name_char c = true ->
  up = false \/ c <> "/"%chr ->
  name_step au up m p c v = Go sw_name (add au v c).
Proof.
  intros Hb Hc Hu. unfold name_step, add. cbv zeta. unfold name_char in Hc.
  pose proof (lowcase_spec c Hb) as L.
  destruct (Z.eqb_spec c 95) as [->|N].
  - change (tbl lowcase 95) with 0. cbn [Z.eqb negb]. change (valid_char au 95) with au.
    destruct au; reflexivity.
  - rewrite (valid_char_split au c N). destruct (tbl lowcase c =? 0); cbn [negb].
    + rewrite L. destruct (Z.eqb_spec c 58); [lia|]. destruct (Z.eqb_spec c 13); [lia|].
      destruct (Z.eqb_spec c 10); [lia|].
      destruct (Z.eqb_spec c 47) as [->|]; cbn [andb].
      * destruct Hu as [-> | Hu]; [|contradiction]. reflexivity.
      * case_if; [lia|reflexivity].
    + destruct L as [-> ->]. reflexivity.
Qed.

Definition invalid_in (au : bool) (name : list Z) : bool :=
  existsb (fun c => negb (valid_char au c)) name.

(** The whole name. *)
Lemma add_all au name : forall v,
  let v' := fold_left (add au) name v in
  hash v' = fold_left ngx_hash (kept au name) (hash v)
  /\ (lowcase_header (fs v'), ix v')
     = fold_left lc_add (kept au name) (lowcase_header (fs v), ix v)
  /\ invalid_header (fs v') = (invalid_header (fs v) || invalid_in au name)%bool
  /\ header_name_start (fs v') = header_name_start (fs v).
Proof.
  induction name as [|c name IH]; intros v; cbv zeta; cbn [fold_left].
  - rewrite orb_false_r. auto.
  - destruct (IH (add au v c)) as (H1 & H2 & H3 & H4). rewrite H1, H2, H3, H4.
    unfold kept, invalid_in, add. cbn [filter existsb].
    destruct (valid_char au c); cbn; rewrite ?orb_true_r; auto.
Qed.

Lemma lc_add_index l : forall a i, 0 <= i < 32 ->
  snd (fold_left lc_add l (a, i)) = (i + Z.of_nat (length l)) mod 32.
Proof.
  induction l as [|c l IH]; intros a i Hi; cbn [fold_left length].
  - rewrite Z.add_0_r. symmetry. now apply Z.mod_small.
  - unfold lc_add at 2. cbn [fst snd]. change (NGX_HTTP_LC_HEADER_LEN - 1) with (Z.ones 5).
    rewrite Z.land_ones by lia. change (2 ^ 5) with 32.
    rewrite IH by (apply Z.mod_pos_bound; lia). rewrite Zplus_mod_idemp_l. f_equal. lia.
Qed.

Lemma firstn_upd_snoc {A} (a : list A) i x : (i < length a)%nat ->
  firstn (S i) (upd i x a) = firstn i a ++ [x].
Proof.
  revert i. induction a as [|y a IH]; intros [|i] H; cbn [length] in *; try lia; [reflexivity|].
  cbn [upd]. change (firstn (S (S i)) (y :: upd i x a)) with (y :: firstn (S i) (upd i x a)).
  rewrite IH by lia. reflexivity.
Qed.

(** Up to 32 bytes the copy is the name. *)
Lemma lc_copy l : forall a, length a = 32%nat -> (length l <= 32)%nat ->
  firstn (length l) (fst (fold_left lc_add l (a, 0))) = l
  /\ length (fst (fold_left lc_add l (a, 0))) = 32%nat.
Proof.
  induction l as [|c l IH] using rev_ind; intros a Ha Hl; [now split|].
  rewrite length_app in *. cbn [length] in *.
  destruct (IH a Ha ltac:(lia)) as [H1 H2]. rewrite fold_left_app. cbn [fold_left].
  pose proof (lc_add_index l a 0 ltac:(lia)) as I.
  destruct (fold_left lc_add l (a, 0)) as [b i]. cbn [fst snd lc_add] in *.
  assert (E : Z.to_nat i = length l).
  { rewrite I, Z.add_0_l, Z.mod_small by lia. lia. }
  rewrite E, length_upd. split; [|exact H2].
  rewrite Nat.add_1_r, firstn_upd_snoc by lia. now rewrite H1.
Qed.

(** ** Lemmas: well-formed lines *)

Section Line.
Context (au up : bool) (m : list Z).

(** The loop passes the bytes [l] from one state to another. *)
Definition runs (s : hl_state) (p : nat) (l : list Z) (v : vars) (s' : hl_state) (v' : vars)
  : Prop :=
  forall rest, hl_loop au up m s p (l ++ rest) v = hl_loop au up m s' (p + length l) rest v'.

Lemma hl_runs_nil s p v : runs s p [] v s v.
Proof. intros rest. cbn [app length]. now rewrite Nat.add_0_r. Qed.

Lemma hl_runs_cons s1 s2 s3 p c l v1 v2 v3 :
  hl_step au up m s1 p c v1 = Go s2 v2 -> runs s2 (S p) l v2 s3 v3 ->
  runs s1 p (c :: l) v1 s3 v3.
Proof.
  intros H1 H2 rest. cbn [app hl_loop length]. rewrite H1, H2. f_equal. lia.
Qed.

Lemma hl_runs_spaces s v n : (forall p, hl_step au up m s p " "%chr v = Go s v) ->
  forall p, runs s p (repeat " "%chr n) v s v.
Proof.
  intros H. induction n as [|n IH]; intros p; [apply hl_runs_nil|].
  eapply hl_runs_cons; [apply H|apply IH].
Qed.

Lemma runs_name_rest l : wf_bytes l -> forallb name_char l = true ->
  up = false \/ ~ In "/"%chr l ->
  forall p v, runs sw_name p l v sw_name (fold_left (add au) l v).
Proof.
  intros Hw. induction l as [|c l IH]; intros Hn Hu p v; [apply hl_runs_nil|].
  inv_bytes. cbn [forallb] in Hn. apply andb_true_iff in Hn as [Hc Hn].
  eapply hl_runs_cons.
  - cbn [hl_step]. apply name_step_name; auto. destruct Hu as [Hu|Hu]; [now left|right].
    intros ->. apply Hu. now left.
  - apply IH; auto. destruct Hu as [Hu|Hu]; [now left|right]. intros F. apply Hu. now right.
Qed.

Definition name_vars (p : nat) (name : list Z) (f : fields) : vars :=
  fold_left (add au) name (Vars 0 0 (set_invalid (set_name_start f p) false)).

Lemma runs_name p name v : name <> [] -> wf_bytes name -> forallb name_char name = true ->
  up = false \/ ~ In "/"%chr name ->
  runs sw_start p name v sw_name (name_vars p name (fs v)).
Proof.
  intros Hn Hw Hc Hu. destruct name as [|c name]; [contradiction|]. inv_bytes.
  cbn [forallb] in Hc. apply andb_true_iff in Hc as [Hc1 Hc2].
  eapply hl_runs_cons; [cbn [hl_step]; now apply start_step_name|].
  apply runs_name_rest; auto. destruct Hu as [Hu|Hu]; [now left|right].
  intros F. apply Hu. now right.
Qed.

(** The value: only [header_end] changes before its last byte, and the end of
    the value sets it for good. *)
Definition same_but_end (v v' : vars) : Prop :=
  hash v' = hash v /\ ix v' = ix v /\ forall q, set_end (fs v') q = set_end (fs v) q.

Lemma runs_value l : Forall value_char l -> last l 1 <> " "%chr ->
  forall s p v, (l <> [] /\ s = sw_space_after_value) \/ s = sw_value ->
  exists v', runs s p l v sw_value v' /\ same_but_end v v'.
Proof.
  induction 1 as [|c l (N0 & N1 & N2) Hl IH]; intros Hlast s p v Hs.
  - destruct Hs as [[F _] | ->]; [contradiction|]. exists v. split; [apply hl_runs_nil|].
    repeat split.
  - destruct (Z.eqb_spec c " "%chr) as [->|Nc].
    + assert (Ne : l <> []) by (intros ->; now apply Hlast).
      assert (Hl' : last l 1 <> " "%chr) by (destruct l; [contradiction|exact Hlast]).
      set (v1 := match s with sw_value => on_fields v (set_end (fs v) p) | _ => v end).
      destruct (IH Hl' sw_space_after_value (S p) v1 (or_introl (conj Ne eq_refl)))
        as (v' & R & E). exists v'. split.
      * eapply hl_runs_cons; [|exact R]. destruct Hs as [[_ ->] | ->]; reflexivity.
      * destruct E as (E1 & E2 & E3). subst v1.
        destruct Hs as [[_ ->] | ->]; repeat split; auto.
    + assert (Hl' : last l 1 <> " "%chr) by (destruct l; [discriminate|exact Hlast]).
      destruct (IH Hl' sw_value (S p) v (or_intror eq_refl)) as (v' & R & E). exists v'.
      split; [|exact E]. eapply hl_runs_cons; [|exact R].
      destruct Hs as [[_ ->] | ->]; cbn [hl_step]; unfold space_after_step, value_step; cbv zeta;
        destruct (Z.eqb_spec c 32); try contradiction; destruct (Z.eqb_spec c 13); try contradiction;
        destruct (Z.eqb_spec c 10); try contradiction; destruct (Z.eqb_spec c 0); try contradiction;
        reflexivity.
Qed.

(** The end of the line from a state that takes it with the fields [f]. *)
Lemma eol_done s p e v w rest : eol e ->
  hl_step au up m s p LF v = Done w -> hl_step au up m s p CR v = Go sw_almost_done w ->
  exists q, hl_loop au up m s p (e ++ rest) v = (Done w, q) /\ S q = (p + length e)%nat.
Proof.
  intros [-> | ->] E1 E2; cbn [app hl_loop length].
  - rewrite E1. exists p. split; [reflexivity|lia].
  - rewrite E2. cbn [hl_step]. cbn [Z.eqb Pos.eqb]. exists (S p). split; [reflexivity|lia].
Qed.

(** From the colon's state: spaces, the value, spaces, the end of the line. *)
Lemma value_done a value b e p v rest : trimmed value -> eol e ->
  exists q, hl_loop au up m sw_space_before_value p
              ((repeat " "%chr a ++ value ++ repeat " "%chr b ++ e) ++ rest) v
    = (Done (on_fields v (if is_nil value
                          then set_end (set_start (fs v) (p + a + b)) (p + a + b)
                          else set_end (set_start (fs v) (p + a)) (p + a + length value))), q)
  /\ S q = (p + length (repeat " "%chr a ++ value ++ repeat " "%chr b ++ e))%nat.
Proof.
  intros (Hv & Hh & Hl) He. rewrite <- !app_assoc.
  rewrite (hl_runs_spaces sw_space_before_value v a (fun _ => eq_refl)).
  rewrite repeat_length, !length_app, !repeat_length. destruct value as [|c l].
  - cbn [app is_nil length]. rewrite (hl_runs_spaces sw_space_before_value v b (fun _ => eq_refl)).
    rewrite repeat_length.
    destruct (eol_done sw_space_before_value (p + a + b) e v
      (on_fields v (set_end (set_start (fs v) (p + a + b)) (p + a + b))) rest He eq_refl eq_refl)
      as (q & E & Q). exists q. split; [exact E|lia].
  - inversion Hv as [|? ? (N0 & N1 & N2) Hv']; subst. cbn [hd] in Hh.
    assert (Hl' : last l 1 <> " "%chr) by (destruct l; [discriminate|exact Hl]).
    set (v1 := on_fields v (set_start (fs v) (p + a))).
    destruct (runs_value l Hv' Hl' sw_value (S (p + a)) v1 (or_intror eq_refl)) as (v2 & R & E1 & E2 & E3).
    assert (R' : runs sw_space_before_value (p + a) (c :: l) v sw_value v2).
    { eapply hl_runs_cons; [|exact R]. cbn [hl_step]. unfold space_before_step. cbv zeta.
      destruct (Z.eqb_spec c 32); [contradiction|]. destruct (Z.eqb_spec c 13); [contradiction|].
      destruct (Z.eqb_spec c 10); [contradiction|]. destruct (Z.eqb_spec c 0); [contradiction|].
      reflexivity. }
    rewrite R'. set (z := (p + a + length (c :: l))%nat). cbn [is_nil].
    assert (W : on_fields v (set_end (set_start (fs v) (p + a)) z) = on_fields v2 (set_end (fs v2) z)).
    { rewrite E3. unfold on_fields. rewrite E1, E2. reflexivity. }
    rewrite W. destruct b as [|b].
    + cbn [repeat app]. destruct (eol_done sw_value z e v2 (on_fields v2 (set_end (fs v2) z)) rest
        He eq_refl eq_refl) as (q & E & Q). exists q. split; [exact E|]. subst z. lia.
    + cbn [repeat app]. set (w := on_fields v2 (set_end (fs v2) z)).
      change (hl_loop au up m sw_value z (32 :: repeat 32 b ++ e ++ rest) v2)
        with (hl_loop au up m sw_space_after_value (S z) (repeat 32 b ++ e ++ rest) w).
      rewrite (hl_runs_spaces sw_space_after_value w b (fun _ => eq_refl)), repeat_length.
      destruct (eol_done sw_space_after_value (S z + b) e w w rest He eq_refl eq_refl)
        as (q & E & Q). exists q. split; [exact E|]. subst z. lia.
Qed.
End Line.

(** ** Lemmas: what an accepted line holds *)

Definition not_lf (c : Z) : Prop := c <> LF.

(** A name being read; a name from [a] to [b], and no line feed up to [p]. *)
Definition name_at (m : list Z) (p : nat) (f : fields) : Prop :=
  exists a, header_name_start f = Some a /\ (a < p <= length m)%nat
  /\ forallb name_char (slice m a p) = true.

Definition named (m : list Z) (p : nat) (f : fields) : Prop :=
  exists a b, header_name_start f = Some a /\ header_name_end f = Some b
  /\ (a < b <= p)%nat /\ (p <= length m)%nat /\ forallb name_char (slice m a b) = true
  /\ Forall not_lf (slice m a p).

(** A value that may go on; [inside] when the last byte is not a space. *)
Definition open_value (inside : bool) (m : list Z) (p : nat) (f : fields) : Prop :=
  exists b v, header_name_end f = Some b /\ header_start f = Some v /\ (b <= v < p)%nat
  /\ Forall value_char (slice m v p) /\ hd 1 (slice m v p) <> " "%chr
  /\ (inside = true -> last (slice m v p) 1 <> " "%chr).

(** A marked value. *)
Definition value_at (m : list Z) (p : nat) (f : fields) : Prop :=
  exists b v e, header_name_end f = Some b /\ header_start f = Some v /\ header_end f = Some e
  /\ (b <= v <= e)%nat /\ (e <= p)%nat /\ trimmed (slice m v e).

Definition hl_inv (m : list Z) (s : hl_state) (p : nat) (w : vars) : Prop :=
  let f := fs w in
  match s with
  | sw_start | sw_header_almost_done => True
  | sw_name => name_at m p f
  | sw_space_before_value =>
      named m p f /\ exists b, header_name_end f = Some b /\ (b <= p)%nat
  | sw_value => named m p f /\ open_value true m p f
  | sw_space_after_value => named m p f /\ open_value false m p f /\ value_at m p f
  | sw_ignore_line => False
  | sw_almost_done => named m p f /\ value_at m p f
  end.

Definition hl_end (m : list Z) (p : nat) (w : vars) : Prop :=
  named m p (fs w) /\ value_at m p (fs w) /\ slice m p (S p) = [LF].

Lemma name_char_lf c : name_char c = true -> not_lf c.
Proof. intros H ->. discriminate H. Qed.

Lemma forallb_name_lf l : forallb name_char l = true -> Forall not_lf l.
Proof.
  intros H. apply Forall_forall. intros c I. rewrite forallb_forall in H. apply name_char_lf. auto.
Qed.

Section Sound.
Context (au : bool) (m : list Z) (p : nat) (ch : Z) (t : list Z) (E : skipn p m = ch :: t).

Lemma here : (p < length m)%nat.
Proof. apply (skipn_nth m p ch t E). Qed.

Lemma named_next f f' : header_name_start f' = header_name_start f ->
  header_name_end f' = header_name_end f -> ch <> LF -> named m p f -> named m (S p) f'.
Proof.
  intros E1 E2 N (a & b & H1 & H2 & H3 & H4 & H5 & H6). pose proof here as Hp. exists a, b.
  rewrite E1, E2. rewrite (slice_snoc m a p ch t) by (auto; lia).
  do 5 (split; [solve [auto; lia]|]). now apply Forall_snoc.
Qed.

(** The name ends here. *)
Lemma name_ends f f' : header_name_start f' = header_name_start f ->
  header_name_end f' = Some p -> name_at m p f -> named m p f'.
Proof.
  intros E1 E2 (a & H1 & H2 & H3). exists a, p. rewrite E1, E2.
  do 5 (split; [solve [auto; lia]|]). now apply forallb_name_lf.
Qed.

Lemma empty_value f : (exists b, header_name_end f = Some b /\ (b <= p)%nat) ->
  value_at m p (set_end (set_start f p) p).
Proof.
  intros (b & E1 & E2). exists b, p, p. cbn [set_end set_start header_name_end header_start header_end].
  rewrite slice_nil. do 5 (split; [solve [auto; lia]|]). repeat split; [constructor|discriminate|discriminate].
Qed.

Lemma value_at_next f : value_at m p f -> value_at m (S p) f.
Proof.
  intros (b & v & e & H1 & H2 & H3 & H4 & H5 & H6). exists b, v, e.
  do 5 (split; [solve [auto; lia]|]). exact H6.
Qed.

Lemma value_ends f : open_value true m p f -> value_at m p (set_end f p).
Proof.
  intros (b & v & H1 & H2 & H3 & H4 & H5 & H6). exists b, v, p.
  do 5 (split; [solve [auto; lia]|]). repeat split; auto.
Qed.

Lemma open_next inside f f' : header_name_end f' = header_name_end f ->
  header_start f' = header_start f -> value_char ch -> (inside = true -> ch <> " "%chr) ->
  forall inside0, open_value inside0 m p f -> open_value inside m (S p) f'.
Proof.
  intros E1 E2 V N inside0 (b & v & H1 & H2 & H3 & H4 & H5 & _). exists b, v. rewrite E1, E2.
  rewrite (slice_snoc m v p ch t) by (auto; lia).
  assert (L : length (slice m v p) = (p - v)%nat) by (apply slice_length; pose proof here; lia).
  do 3 (split; [solve [auto; lia]|]). split; [now apply Forall_snoc|].
  split; [|now rewrite last_last]. destruct (slice m v p); [cbn in L; lia|exact H5].
Qed.

Lemma hl_step_inv w s : is_byte ch -> hl_inv m s p w ->
  match hl_step au false m s p ch w with
  | Go s' w' => hl_inv m s' (S p) w'
  | Done w' => hl_end m p w'
  | _ => True
  end.
Proof.
  intros Hb H. pose proof here as Hp.
  assert (Lf : ch = LF -> slice m p (S p) = [LF]).
  { intros ->. now apply (slice_one m p _ t). }
  destruct s; cbn [hl_step hl_inv] in *.
  - (* start *)
    destruct (name_char ch) eqn:C.
    + rewrite start_step_name by assumption. cbn [hl_inv]. exists p.
      destruct (add_all au [ch] (Vars 0 0 (set_invalid (set_name_start (fs w) p) false)))
        as (_ & _ & _ & A). cbn [fold_left] in A. rewrite A.
      rewrite (slice_one m p ch t E). cbn [forallb]. rewrite C. repeat split; lia.
    + unfold start_step. cbv zeta. pose proof (lowcase_spec ch Hb) as L. unfold name_char in C.
      assert (V : valid_char false ch = false) by (unfold valid_char, is_digit; lia).
      destruct (tbl lowcase ch =? 0); [|destruct L as [L _]; congruence]. cbn [negb].
      repeat (case_if; try exact I); lia.
  - (* name *)
    destruct (name_char ch) eqn:C.
    + rewrite name_step_name by auto. destruct H as (a & H1 & H2 & H3). exists a.
      destruct (add_all au [ch] w) as (_ & _ & _ & A). cbn [fold_left] in A. rewrite A.
      rewrite (slice_snoc m a p ch t), forallb_app by (auto; lia). cbn [forallb].
      rewrite H3, C. repeat split; auto; lia.
    + unfold name_step. cbv zeta. pose proof (lowcase_spec ch Hb) as L. unfold name_char in C.
      assert (V : valid_char false ch = false) by (unfold valid_char, is_digit; lia).
      destruct (tbl lowcase ch =? 0); [|destruct L as [L _]; congruence]. cbn [negb].
      repeat (case_if; try exact I; try lia).
      * split; [apply (named_next (set_name_end (fs w) p)); try reflexivity; [lia|];
          now apply (name_ends (fs w))|]. exists p. split; [reflexivity|lia].
      * split; [apply (named_next (set_name_end (fs w) p)); try reflexivity; [lia|];
          now apply (name_ends (fs w))|].
        apply value_at_next, (empty_value (set_name_end (fs w) p)). exists p. split; [reflexivity|lia].
      * split; [now apply (name_ends (fs w))|].
        split; [apply (empty_value (set_name_end (fs w) p)); exists p; split; [reflexivity|lia]|].
        apply Lf. lia.
  - (* space before the value *)
    destruct H as [Hn Hv]. unfold space_before_step. cbv zeta.
    destruct (Z.eqb_spec ch 32) as [N1|N1].
    { split; [apply (named_next (fs w)); auto; lia|]. destruct Hv as (b & ? & ?). exists b. split; [auto|lia]. }
    destruct (Z.eqb_spec ch 13) as [N2|N2].
    { split; [apply (named_next (fs w)); auto; lia|]. now apply value_at_next, empty_value. }
    destruct (Z.eqb_spec ch 10) as [N3|N3].
    { split; [exact Hn|]. split; [now apply empty_value|auto]. }
    destruct (Z.eqb_spec ch 0) as [N4|N4]; [exact I|].
    split; [now apply (named_next (fs w))|]. destruct Hv as (b & Hb1 & Hb2). exists b, p.
    cbn [on_fields fs set_start header_name_end header_start]. rewrite (slice_one m p ch t E).
    do 3 (split; [solve [auto; lia]|]). split; [repeat constructor; auto|]. now split.
  - (* value *)
    destruct H as [Hn Hv]. unfold value_step. cbv zeta.
    destruct (Z.eqb_spec ch 32) as [N1|N1].
    { split; [apply (named_next (fs w)); auto; lia|]. split; [|now apply value_at_next, value_ends].
      apply (open_next false (fs w) _ eq_refl eq_refl ltac:(unfold value_char; lia) ltac:(discriminate) true Hv). }
    destruct (Z.eqb_spec ch 13) as [N2|N2].
    { split; [apply (named_next (fs w)); auto; lia|]. now apply value_at_next, value_ends. }
    destruct (Z.eqb_spec ch 10) as [N3|N3].
    { split; [exact Hn|]. split; [now apply value_ends|auto]. }
    destruct (Z.eqb_spec ch 0) as [N4|N4]; [exact I|].
    split; [now apply (named_next (fs w))|].
    apply (open_next true (fs w) _ eq_refl eq_refl ltac:(unfold value_char; lia) ltac:(auto) true Hv).
  - (* spaces after the value *)
    destruct H as (Hn & Ho & Hv). unfold space_after_step.
    destruct (Z.eqb_spec ch 32) as [N1|N1].
    { split; [apply (named_next (fs w)); auto; lia|]. split; [|now apply value_at_next].
      apply (open_next false (fs w) _ eq_refl eq_refl ltac:(unfold value_char; lia) ltac:(discriminate) false Ho). }
    destruct (Z.eqb_spec ch 13) as [N2|N2].
    { split; [apply (named_next (fs w)); auto; lia|]. now apply value_at_next. }
    destruct (Z.eqb_spec ch 10) as [N3|N3]; [repeat split; auto|].
    destruct (Z.eqb_spec ch 0) as [N4|N4]; [exact I|].
    split; [now apply (named_next (fs w))|].
    apply (open_next true (fs w) _ eq_refl eq_refl ltac:(unfold value_char; lia) ltac:(auto) false Ho).
  - contradiction.
  - (* almost done *)
    destruct H as [Hn Hv]. destruct (Z.eqb_spec ch 10) as [N3|N3]; [repeat split; auto|].
    destruct (Z.eqb_spec ch 13) as [N2|N2]; [|exact I].
    split; [apply (named_next (fs w)); auto; lia|now apply value_at_next].
  - case_if; exact I.
Qed.
End Sound.

Lemma hl_loop_inv au m : wf_bytes m -> forall l s p w,
  skipn p m = l -> hl_inv m s p w ->
  match hl_loop au false m s p l w with
  | (Done w', q) => hl_end m q w'
  | _ => True
  end.
Proof.
  intros Hw. induction l as [|ch l IH]; intros s p w E H; [exact I|]. cbn [hl_loop].
  assert (Hb : is_byte ch) by (apply (wf_skipn p) in Hw; rewrite E in Hw; now inv_bytes).
  pose proof (hl_step_inv au m p ch l E w s Hb H) as S.
  destruct (hl_step au false m s p ch w); try exact S.
  apply IH; [|exact S]. now apply (skipn_nth m p ch l).
Qed.

(** ** Properties *)

(** C5. Reading a header line does not depend on how it arrives: called again
    after each part, from the state, the marks, the hash and the index the last
    call left, the parser ends with the same code, fields and position as one
    call on the whole text. *)
Theorem header_line_resumes allow_underscores upstream r m parts :
  observed (arrive allow_underscores upstream r m (length m) parts)
  = observed (ngx_http_parse_header_line r (m ++ concat parts) (length m) allow_underscores upstream).
Proof. apply arrive_whole. Qed.

(** C6. A well-formed header line is read for what it says: the parser stops
    right after it, marks the name and the value without the spaces around it,
    computes the hash of the valid bytes of the name in lower case, and copies
    those bytes to [lowcase_header], all of them when there are at most 32; the
    line is flagged when the name has any other byte. *)
Theorem header_line_read allow_underscores upstream r pre name a value b e rest :
  let line := name ++ [":"%chr] ++ repeat " "%chr a ++ value ++ repeat " "%chr b ++ e in
  let m := pre ++ line ++ rest in
  state r = sw_start -> length (lowcase_header (hd_fields r)) = 32%nat ->
  wf_bytes name -> name <> [] -> forallb name_char name = true ->
  upstream = false \/ ~ In "/"%chr name -> trimmed value -> eol e ->
  exists f i, ngx_http_parse_header_line r m (length pre) allow_underscores upstream
    = (NGX_OK, Header sw_start (hash_of (kept allow_underscores name)) i f, (length pre + length line)%nat)
  /\ between m (header_name_start f) (header_name_end f) name
  /\ between m (header_start f) (header_end f) value
  /\ invalid_header f = invalid_in allow_underscores name
  /\ i = Z.of_nat (length (kept allow_underscores name)) mod 32
  /\ ((length (kept allow_underscores name) <= 32)%nat ->
      firstn (length (kept allow_underscores name)) (lowcase_header f) = kept allow_underscores name).
Proof.
  intros line m Hs Hl Hw Hn Hc Hu Hv He. unfold ngx_http_parse_header_line.
  assert (Es : skipn (length pre) m = (name ++ [":"%chr])
            ++ ((repeat " "%chr a ++ value ++ repeat " "%chr b ++ e) ++ rest)).
  { unfold m, line. rewrite skipn_app, skipn_all, Nat.sub_diag. cbn [skipn].
    rewrite app_nil_l. now rewrite <- !app_assoc. }
  rewrite Es, Hs. set (v0 := Vars _ _ (hd_fields r)).
  set (nv := name_vars allow_underscores (length pre) name (hd_fields r)).
  assert (Rn : runs allow_underscores upstream m sw_start (length pre) (name ++ [":"%chr]) v0
    sw_space_before_value
    (on_fields nv (set_name_end (fs nv) (length pre + length name)))).
  { intros tl. rewrite <- app_assoc, (runs_name allow_underscores upstream m (length pre) name v0 Hn Hw Hc Hu).
    cbn [app hl_loop]. rewrite length_app. cbn [length].
    fold nv. change (hl_step allow_underscores upstream m sw_name (length pre + length name) 58 nv)
      with (Go sw_space_before_value (on_fields nv (set_name_end (fs nv) (length pre + length name)))). cbv iota beta.
    now replace (length pre + (length name + 1))%nat with (S (length pre + length name)) by lia. }
  rewrite Rn. set (v1 := on_fields nv _).
  destruct (value_done allow_underscores upstream m a value b e (length pre + length (name ++ [":"%chr]))
    v1 rest Hv He) as (q & L & Q). rewrite L.
  destruct (add_all allow_underscores name
    (Vars 0 0 (set_invalid (set_name_start (hd_fields r) (length pre)) false))) as (A1 & A2 & A3 & A4).
  change (fold_left (add allow_underscores) name _) with nv in A1, A2, A3, A4.
  cbn [hash ix fs set_invalid set_name_start lowcase_header invalid_header header_name_start] in A1, A2, A3, A4.
  set (k := kept allow_underscores name) in *.
  assert (Hk : (length k <= 32)%nat -> firstn (length k) (lowcase_header (fs nv)) = k).
  { intros Hle. destruct (lc_copy k (lowcase_header (hd_fields r)) Hl Hle) as [C _].
    now rewrite <- A2 in C. }
  assert (Hi : ix nv = Z.of_nat (length k) mod 32).
  { pose proof (lc_add_index k (lowcase_header (hd_fields r)) 0 ltac:(lia)) as I.
    rewrite <- A2 in I. exact I. }
  eexists. exists (ix nv). split; [|split; [|split; [|split; [|split]]]].
  - cbn [on_fields hash ix fs v1]. rewrite A1. f_equal. rewrite Q. unfold line.
    rewrite !length_app. cbn [length]. lia.
  - apply (between_mid _ _ _ pre name ([":"%chr] ++ repeat " "%chr a ++ value ++ repeat " "%chr b ++ e ++ rest)).
    + unfold m, line. now rewrite <- !app_assoc.
    + cbn [on_fields fs]. unfold v1. cbv zeta. destruct (is_nil value); exact A4.
    + cbn [on_fields fs]. destruct (is_nil value); reflexivity.
  - cbn [on_fields fs]. rewrite length_app. cbn [length]. destruct value as [|c value]; cbn [is_nil].
    + apply (between_mid _ _ _ (pre ++ name ++ [":"%chr] ++ repeat " "%chr a ++ repeat " "%chr b) [] (e ++ rest)).
      * unfold m, line. rewrite !app_nil_l. now rewrite <- !app_assoc.
      * transitivity (Some (length pre + (length name + 1) + a + b)%nat); [reflexivity|].
        f_equal. rewrite !length_app, !repeat_length. cbn [length]. lia.
      * transitivity (Some (length pre + (length name + 1) + a + b)%nat); [reflexivity|].
        f_equal. cbn [length]. rewrite !length_app, !repeat_length. cbn [length]. lia.
    + apply (between_mid _ _ _ (pre ++ name ++ [":"%chr] ++ repeat " "%chr a) (c :: value)
        (repeat " "%chr b ++ e ++ rest)).
      * unfold m, line. now rewrite <- !app_assoc.
      * transitivity (Some (length pre + (length name + 1) + a)%nat); [reflexivity|].
        f_equal. rewrite !length_app, repeat_length. cbn [length]. lia.
      * transitivity (Some (length pre + (length name + 1) + a + length (c :: value))%nat); [reflexivity|].
        f_equal. rewrite !length_app, repeat_length. cbn [length]. lia.
  - cbn [on_fields fs]. destruct (is_nil value); exact A3.
  - exact Hi.
  - cbn [on_fields fs]. destruct (is_nil value); exact Hk.
Qed.

(** A request's header fields before the first line. *)
Definition new_header : header :=
  Header sw_start 0 0 (Fields (repeat 0 32) false None None None None).

Example header_line_read_witness :
  let line := bs "X-a_B" ++ [":"%chr] ++ repeat " "%chr 1 ++ bs "1 2" ++ repeat " "%chr 2 ++ [CR; LF] in
  let m := bs "GET" ++ line ++ bs "Y" in
  exists f i, ngx_http_parse_header_line new_header m 3 false false
    = (NGX_OK, Header sw_start (hash_of (bs "x-ab")) i f, (3 + length line)%nat)
  /\ between m (header_name_start f) (header_name_end f) (bs "X-a_B")
  /\ between m (header_start f) (header_end f) (bs "1 2")
  /\ invalid_header f = true
  /\ i = Z.of_nat 4 mod 32
  /\ ((4 <= 32)%nat -> firstn 4 (lowcase_header f) = bs "x-ab").
Proof.
  refine (header_line_read false false new_header (bs "GET") (bs "X-a_B") 1 (bs "1 2") 2 [CR; LF] (bs "Y")
    eq_refl eq_refl _ _ eq_refl (or_introl eq_refl) _ (or_intror eq_refl)).
  - repeat constructor; discriminate.
  - discriminate.
  - split; [repeat constructor; discriminate|split; discriminate].
Defined.

(** An accepted header line of a client is framed and clean: reading stops
    right after a line feed, and no byte from the name on is one before it; the
    name is not empty and has no space, control byte, DEL or colon; the value
    has no NUL, CR or LF byte and neither starts nor ends with a space. *)
Theorem header_line_sound allow_underscores r m pos r' p :
  wf_bytes m -> state r = sw_start ->
  ngx_http_parse_header_line r m pos allow_underscores false = (NGX_OK, r', p) ->
  exists a b v e,
    header_name_start (hd_fields r') = Some a /\ header_name_end (hd_fields r') = Some b
    /\ header_start (hd_fields r') = Some v /\ header_end (hd_fields r') = Some e
    /\ (a < b <= v)%nat /\ (v <= e <= p - 1)%nat
    /\ forallb name_char (slice m a b) = true /\ trimmed (slice m v e)
    /\ Forall not_lf (slice m a (p - 1)) /\ slice m (p - 1) p = [LF].
Proof.
  intros Hw Hs. unfold ngx_http_parse_header_line.
  pose proof (hl_loop_inv allow_underscores m Hw (skipn pos m) (state r) pos
    (Vars (header_hash r) (lowcase_index r) (hd_fields r)) eq_refl) as I.
  rewrite Hs in *. specialize (I Logic.I).
  destruct (hl_loop _ _ _ _ _ _ _) as [[s w|w|w|w] q]; try discriminate.
  intros [= <- <-]. destruct I as ((a & b & N1 & N2 & N3 & N4 & N5 & N6) & V & Lq).
  destruct V as (b' & v & e & V1 & V2 & V3 & V4 & V5 & V6).
  assert (b' = b) by congruence. subst b'. exists a, b, v, e. cbn [hd_fields].
  replace (S q - 1)%nat with q by lia. repeat (split; [solve [assumption | lia]|]). exact Lq.
Qed.

Example header_line_sound_witness :
  let m := bs "A: b" ++ [LF] in
  exists r', ngx_http_parse_header_line new_header m 0 true false = (NGX_OK, r', 5%nat)
  /\ exists a b v e,
    header_name_start (hd_fields r') = Some a /\ header_name_end (hd_fields r') = Some b
    /\ header_start (hd_fields r') = Some v /\ header_end (hd_fields r') = Some e
    /\ (a < b <= v)%nat /\ (v <= e <= 4)%nat
    /\ forallb name_char (slice m a b) = true /\ trimmed (slice m v e)
    /\ Forall not_lf (slice m a 4) /\ slice m 4 5 = [LF].
Proof.
  intros m.
  set (r' := Header sw_start 97 1
    (Fields (97 :: repeat 0 31) false (Some 0%nat) (Some 1%nat) (Some 3%nat) (Some 4%nat))).
  exists r'. split; [vm_compute; reflexivity|].
  refine (header_line_sound true new_header m 0 r' 5 _ eq_refl _);
    [repeat constructor; discriminate|vm_compute; reflexivity].
Defined.

End HeaderLine.
