(* ===== verification/Heap.v ===== *)
(** * Heap: linked structures in memory

    The intrusive containers of nginx are nodes in the memory of their users,
    linked by pointers.  The memory is a finite map from addresses to nodes; a
    pointer is an address or NULL; a read or a write through NULL, or through an
    address that holds no node, has no result.  A program is a computation on
    the memory and on the variables outside it ([G]).  [owns m l] says that the
    cells [l], at distinct addresses, are in the memory [m]: the separating
    conjunction of its cells.  [wp] is the weakest precondition, with one rule
    per primitive. *)

From S2P Require Import Prelude.
From stdpp Require Import base option list gmap.

#[local] Open Scope Z_scope.

Module Heap.

(** ** Definitions *)

Abbreviation loc := positive.
Abbreviation ptr := (option loc).

Record store (V G : Type) : Type := Store { mem : gmap loc V; vars : G }.

Arguments Store {V G} _ _.
Arguments mem {V G} _.
Arguments vars {V G} _.

Definition M (V G A : Type) : Type := store V G -> option (A * store V G).

#[export] Instance M_ret V G : MRet (M V G) := fun A a st => Some (a, st).
#[export] Instance M_bind V G : MBind (M V G) := fun A B k m st =>
  match m st with Some (a, st') => k a st' | None => None end.

Definition load {V G A} (f : V -> A) (p : ptr) : M V G A := fun st =>
  match p with
  | Some l => match mem st !! l with Some n => Some (f n, st) | None => None end
  | None => None
  end.

Definition store_at {V G} (f : V -> V) (p : ptr) : M V G unit := fun st =>
  match p with
  | Some l =>
      match mem st !! l with
      | Some n => Some (tt, Store (<[l := f n]> (mem st)) (vars st))
      | None => None
      end
  | None => None
  end.

Definition get {V G A} (f : G -> A) : M V G A := fun st => Some (f (vars st), st).
Definition put {V G} (f : G -> G) : M V G unit := fun st => Some (tt, Store (mem st) (f (vars st))).

(** A loop that runs out of fuel has no result. *)
Definition stuck {V G A} : M V G A := fun _ => None.

(** One more than the number of nodes, which bounds every walk without a cycle. *)
Definition nodes {V G} : M V G nat := fun st => Some (S (size (mem st)), st).

Definition wp {V G A} (m : M V G A) (Q : A -> store V G -> Prop) (st : store V G) : Prop :=
  match m st with Some (a, st') => Q a st' | None => False end.

Definition owns {V} (m : gmap loc V) (l : list (loc * V)) : Prop :=
  NoDup l.*1 /\ Forall (fun c => m !! c.1 = Some c.2) l.

(** [writes x f l l']: [l'] is [l] with [f] applied to the cell [x]. *)
Inductive writes {V} (x : loc) (f : V -> V) : list (loc * V) -> list (loc * V) -> Prop :=
| writes_here n l : writes x f ((x, n) :: l) ((x, f n) :: l)
| writes_there c l l' : writes x f l l' -> writes x f (c :: l) (c :: l')
| writes_left l1 l1' l2 : writes x f l1 l1' -> writes x f (l1 ++ l2) (l1' ++ l2)
| writes_right l1 l2 l2' : writes x f l2 l2' -> writes x f (l1 ++ l2) (l1 ++ l2').

(** ** Cells *)

#[export] Instance owns_perm V : Proper (eq ==> Permutation ==> iff) (@owns V).
Proof.
  intros m ? <- l l' P. unfold owns. now rewrite P.
Qed.

Lemma owns_lookup {V} (m : gmap loc V) l x n : owns m l -> (x, n) ∈ l -> m !! x = Some n.
Proof. intros [_ F] E. rewrite Forall_forall in F. exact (F _ E). Qed.

Lemma writes_locs {V} x f (l l' : list (loc * V)) : writes x f l l' -> l'.*1 = l.*1.
Proof. induction 1; rewrite ?fmap_app; cbn; [done|congruence..]. Qed.

Lemma writes_cell {V} x f (l l' : list (loc * V)) : writes x f l l' ->
  exists a n b, l = a ++ (x, n) :: b /\ l' = a ++ (x, f n) :: b.
Proof.
  induction 1 as [n l|c l l' W (a & n & b & -> & ->)|l1 l1' l2 W (a & n & b & -> & ->)
    |l1 l2 l2' W (a & n & b & -> & ->)].
  - exists [], n, l. done.
  - exists (c :: a), n, b. done.
  - exists a, n, (b ++ l2). now rewrite <- !app_assoc.
  - exists (l1 ++ a), n, b. now rewrite <- !app_assoc.
Qed.

Lemma owns_write {V} (m : gmap loc V) x f l l' n : owns m l -> writes x f l l' ->
  m !! x = Some n -> owns (<[x := f n]> m) l'.
Proof.
  intros [N F] W E. split; [now rewrite (writes_locs _ _ _ _ W)|].
  destruct (writes_cell _ _ _ _ W) as (a & k & b & -> & ->).
  rewrite fmap_app, fmap_cons in N. apply NoDup_app in N as (Na & Nx & Nb).
  apply NoDup_cons in Nb as [Nxb _].
  rewrite !Forall_app, !Forall_cons in F |- *. destruct F as (Fa & Fx & Fb). cbn in *.
  assert (k = n) as -> by congruence.
  split; [|split].
  - rewrite Forall_forall in Fa |- *. intros c Hc. rewrite lookup_insert_ne; [now apply Fa|].
    intros ->. apply (Nx c.1); [now apply list_elem_of_fmap_2|set_solver].
  - now rewrite lookup_insert_eq.
  - rewrite Forall_forall in Fb |- *. intros c Hc. rewrite lookup_insert_ne; [now apply Fb|].
    intros ->. apply Nxb. now apply list_elem_of_fmap_2.
Qed.

Lemma owns_size {V} (m : gmap loc V) l : owns m l -> (length l <= size m)%nat.
Proof.
  intros [N F]. rewrite <- (length_fmap fst). rewrite <- (size_list_to_set (C := gset loc) _ N).
  rewrite <- size_dom. apply subseteq_size. intros x Hx.
  apply elem_of_list_to_set, list_elem_of_fmap in Hx as (c & -> & Hc).
  rewrite Forall_forall in F. apply elem_of_dom. exists c.2. now apply F.
Qed.

(** ** The rules *)

Section Rules.
Context {V G : Type}.

Lemma wp_ret {A} (a : A) (Q : A -> store V G -> Prop) st : Q a st -> wp (mret a) Q st.
Proof. done. Qed.

Lemma wp_bind {A B} (m : M V G A) (k : A -> M V G B) Q st :
  wp m (fun a => wp (k a) Q) st -> wp (m ≫= k) Q st.
Proof. unfold wp, mbind, M_bind. now destruct (m st) as [[a st']|]. Qed.

Lemma wp_mono {A} (m : M V G A) (P Q : A -> store V G -> Prop) st :
  wp m P st -> (forall a st', P a st' -> Q a st') -> wp m Q st.
Proof. unfold wp. destruct (m st) as [[a st']|]; [auto|done]. Qed.

Lemma wp_load {A} (f : V -> A) x n l (Q : A -> store V G -> Prop) st :
  owns (mem st) l -> (x, n) ∈ l -> Q (f n) st -> wp (load f (Some x)) Q st.
Proof. intros O E H. unfold wp, load. now rewrite (owns_lookup _ _ _ _ O E). Qed.

Lemma wp_load_at {A} (f : V -> A) x n (Q : A -> store V G -> Prop) st :
  mem st !! x = Some n -> Q (f n) st -> wp (load f (Some x)) Q st.
Proof. intros E H. unfold wp, load. now rewrite E. Qed.

Lemma wp_store (f : V -> V) x l l' (Q : unit -> store V G -> Prop) st :
  owns (mem st) l -> writes x f l l' ->
  (forall st', vars st' = vars st -> owns (mem st') l' -> Q tt st') ->
  wp (store_at f (Some x)) Q st.
Proof.
  intros O W H. unfold wp, store_at.
  destruct (writes_cell _ _ _ _ W) as (a & n & b & El & _).
  assert (E : mem st !! x = Some n) by (apply (owns_lookup _ l); [done|subst; set_solver]).
  rewrite E. apply H; [done|]. exact (owns_write _ _ _ _ _ _ O W E).
Qed.

Lemma wp_get {A} (f : G -> A) (Q : A -> store V G -> Prop) st :
  Q (f (vars st)) st -> wp (get f) Q st.
Proof. done. Qed.

Lemma wp_put (f : G -> G) (Q : unit -> store V G -> Prop) st :
  (forall st', vars st' = f (vars st) -> mem st' = mem st -> Q tt st') -> wp (put f) Q st.
Proof. intros H. now apply H. Qed.

Lemma wp_nodes l (Q : nat -> store V G -> Prop) st :
  owns (mem st) l -> (forall n, (length l < n)%nat -> Q n st) -> wp nodes Q st.
Proof. intros O H. apply H. pose proof (owns_size _ _ O). lia. Qed.

End Rules.

Lemma wp_run {V G A} (m : M V G A) Q st :
  wp m Q st -> exists a st', m st = Some (a, st') /\ Q a st'.
Proof. unfold wp. destruct (m st) as [[a st']|]; [eauto|done]. Qed.

Lemma wp_run_unit {V G} (m : M V G unit) (P : store V G -> Prop) st :
  wp m (fun _ => P) st -> exists st', m st = Some (tt, st') /\ P st'.
Proof. intros H. destruct (wp_run _ _ _ H) as ([] & st' & E & H'). eauto. Qed.

Lemma wp_run_eq {V G A} (m : M V G A) st a st' :
  wp m (fun b st2 => b = a /\ st2 = st') st -> m st = Some (a, st').
Proof. intros H. now destruct (wp_run _ _ _ H) as (b & st2 & E & -> & ->). Qed.

End Heap.

(** ** Tactics *)

(** A cell of an explicit list. *)
Ltac in_cells :=
  first [apply list_elem_of_here | apply list_elem_of_further; in_cells
        | apply elem_of_app; first [left; in_cells | right; in_cells]].

Ltac writes_cell :=
  first [apply Heap.writes_here | apply Heap.writes_there; writes_cell
        | apply Heap.writes_left; writes_cell | apply Heap.writes_right; writes_cell].

(** One primitive: the owned cells are in the hypothesis [O]. *)
Ltac wp_step O :=
  lazymatch goal with
  | |- Heap.wp (mbind _ _) _ _ => apply Heap.wp_bind; wp_step O
  | |- Heap.wp (mret _) _ _ => apply Heap.wp_ret
  | |- Heap.wp (Heap.get _) _ _ => apply Heap.wp_get
  | |- Heap.wp (Heap.load _ (Some _)) _ _ =>
      eapply Heap.wp_load; [exact O | in_cells | ]; cbn beta
  | |- Heap.wp (Heap.store_at _ (Some _)) _ _ =>
      eapply Heap.wp_store; [exact O | writes_cell | ]; cbn beta
  end.

(** Primitives one after the other, until one is not of a known cell. *)
Ltac wp_walk O :=
  repeat (wp_step O;
    try (let O' := fresh "O" in
         intros ? ? O'; clear O; rename O' into O; cbn in O);
    cbn).

(** The owned cells, up to their order, are those of the hypothesis [O]. *)
Ltac owned O :=
  revert O; apply Heap.owns_perm; [reflexivity|];
  rewrite <- ?app_assoc; cbn [app]; solve_Permutation.
