(* ===== verification/Rbtree.v ===== *)
(** * Rbtree: red-black trees (src/core/ngx_rbtree.c, src/core/ngx_rbtree.h)

    The tree is made of nodes that live in the memory of its users and are
    linked by pointers; a sentinel node stands for every missing child.  The
    functions are computations of [Heap], with [tree->root] as the variable
    outside the nodes. *)

From S2P Require Import Prelude Heap.
From stdpp Require Import base option list gmap.

#[local] Open Scope Z_scope.

Module Rbtree.

Import Heap.

(** ** The state *)

Record node : Set := Node { key : Z; left : ptr; right : ptr; parent : ptr; color : Z }.

(** The variable outside the nodes is [tree->root]. *)
Abbreviation rb_store := (store node ptr).
Abbreviation MR := (M node ptr).

Definition get_root : MR ptr := get (fun r => r).
Definition set_root (p : ptr) : MR unit := put (fun _ => p).

Definition set_key (k : Z) (n : node) : node := Node k (left n) (right n) (parent n) (color n).
Definition set_left (p : ptr) (n : node) : node := Node (key n) p (right n) (parent n) (color n).
Definition set_right (p : ptr) (n : node) : node := Node (key n) (left n) p (parent n) (color n).
Definition set_parent (p : ptr) (n : node) : node := Node (key n) (left n) (right n) p (color n).
Definition set_color (c : Z) (n : node) : node := Node (key n) (left n) (right n) (parent n) c.

Definition ngx_rbt_red (p : ptr) : MR unit := store_at (set_color 1) p.
Definition ngx_rbt_black (p : ptr) : MR unit := store_at (set_color 0) p.
Definition is_red (c : Z) : bool := negb (c =? 0).
Definition ngx_rbt_is_red (p : ptr) : MR bool := c ← load color p; mret (is_red c).
Definition ngx_rbt_is_black (p : ptr) : MR bool := c ← load color p; mret (negb (is_red c)).
Definition ngx_rbt_copy_color (n1 n2 : ptr) : MR unit :=
  c ← load color n2; store_at (set_color c) n1.

(** ** Directions

    The source writes every step twice, once for each side; the second text is
    the first with left and right exchanged. *)

Inductive dir : Set := L | R.

#[export] Instance dir_eq_dec : EqDecision dir.
Proof. solve_decision. Defined.

Definition opp (d : dir) : dir := match d with L => R | R => L end.
Definition child (d : dir) : node -> ptr := match d with L => left | R => right end.
Definition set_child (d : dir) : ptr -> node -> node :=
  match d with L => set_left | R => set_right end.

(** The child [node] of its parent, or the root, becomes [temp]:
    [if (node == *root) *root = temp; else if (node == node->parent->left) ...] *)
Definition link (d : dir) (node temp : ptr) : MR unit :=
  p ← load parent node;
  c ← load (child d) p;
  if decide (node = c) then p ← load parent node; store_at (set_child d temp) p
  else p ← load parent node; store_at (set_child (opp d) temp) p.

Definition link_root (d : dir) (node temp : ptr) : MR unit :=
  r ← get_root;
  if decide (node = r) then set_root temp else link d node temp.

(** [if (node->child != sentinel) node->child->parent = q] *)
Definition reparent (d : dir) (sentinel node q : ptr) : MR unit :=
  t ← load (child d) node;
  if decide (t = sentinel) then mret tt
  else t ← load (child d) node; store_at (set_parent q) t.

(** ** Rotations *)

Definition rotate (d : dir) (sentinel node : ptr) : MR unit :=
  temp ← load (child (opp d)) node;
  t ← load (child d) temp; store_at (set_child (opp d) t) node;;
  reparent d sentinel temp node;;
  p ← load parent node; store_at (set_parent p) temp;;
  link_root d node temp;;
  store_at (set_child d node) temp;;
  store_at (set_parent temp) node.

Definition ngx_rbtree_left_rotate : ptr -> ptr -> MR unit := rotate L.
Definition ngx_rbtree_right_rotate : ptr -> ptr -> MR unit := rotate R.

(** ** Insertion *)

(** The nodes a node is compared with: a key and an address. *)
Abbreviation entry := (Z * loc)%type.

(** The descent from [temp]; [goes_left] is the comparison, of the keys. *)
Fixpoint descend (goes_left : Z -> Z -> bool) (fuel : nat) (temp node sentinel : ptr)
  : MR (ptr * dir) :=
  match fuel with
  | O => stuck
  | S fuel =>
      kn ← load key node;
      kt ← load key temp;
      let d := if goes_left kn kt then L else R in
      p ← load (child d) temp;
      if decide (p = sentinel) then mret (temp, d)
      else descend goes_left fuel p node sentinel
  end.

Definition insert_at (goes_left : Z -> Z -> bool) (fuel : nat) (temp node sentinel : ptr)
  : MR unit :=
  '(temp, d) ← descend goes_left fuel temp node sentinel;
  store_at (set_child d node) temp;;
  store_at (set_parent temp) node;;
  store_at (set_left sentinel) node;;
  store_at (set_right sentinel) node;;
  ngx_rbt_red node.

Definition value_left (kn kt : Z) : bool := kn <? kt.
Definition timer_left (kn kt : Z) : bool := s64 (u64 (kn - kt)) <? 0.

Definition ngx_rbtree_insert_value : nat -> ptr -> ptr -> ptr -> MR unit := insert_at value_left.
Definition ngx_rbtree_insert_timer_value : nat -> ptr -> ptr -> ptr -> MR unit :=
  insert_at timer_left.

(** One turn of the re-balancing loop for a red parent that is the [d] child of
    its parent; the result is the new value of [node]. *)
Definition balance_step (d : dir) (sentinel node : ptr) : MR ptr :=
  p ← load parent node;
  g ← load parent p;
  temp ← load (child (opp d)) g;
  red ← ngx_rbt_is_red temp;
  if (red : bool) then
    p ← load parent node; ngx_rbt_black p;;
    ngx_rbt_black temp;;
    p ← load parent node; g ← load parent p; ngx_rbt_red g;;
    p ← load parent node; load parent p
  else
    p ← load parent node;
    c ← load (child (opp d)) p;
    node ← (if decide (node = c) then
              node ← load parent node;
              rotate d sentinel node;;
              mret node
            else mret node);
    p ← load parent node; ngx_rbt_black p;;
    p ← load parent node; g ← load parent p; ngx_rbt_red g;;
    p ← load parent node; g ← load parent p; rotate (opp d) sentinel g;;
    mret node.

Fixpoint balance (fuel : nat) (sentinel node : ptr) : MR unit :=
  match fuel with
  | O => stuck
  | S fuel =>
      r ← get_root;
      if decide (node = r) then mret tt
      else
        p ← load parent node;
        red ← ngx_rbt_is_red p;
        if (red : bool) then
          p ← load parent node;
          g ← load parent p;
          l ← load left g;
          node ← (if decide (p = l) then balance_step L sentinel node
                  else balance_step R sentinel node);
          balance fuel sentinel node
        else mret tt
  end.

(** [insert] is the callback [tree->insert]. *)
Definition ngx_rbtree_insert (insert : nat -> ptr -> ptr -> ptr -> MR unit) (sentinel node : ptr)
  : MR unit :=
  fuel ← nodes;
  r ← get_root;
  if decide (r = sentinel) then
    store_at (set_parent None) node;;
    store_at (set_left sentinel) node;;
    store_at (set_right sentinel) node;;
    ngx_rbt_black node;;
    set_root node
  else
    r ← get_root;
    insert fuel r node sentinel;;
    balance fuel sentinel node;;
    r ← get_root;
    ngx_rbt_black r.

(** ** Walks *)

Fixpoint ngx_rbtree_min (fuel : nat) (node sentinel : ptr) : MR ptr :=
  match fuel with
  | O => stuck
  | S fuel =>
      l ← load left node;
      if decide (l = sentinel) then mret node else ngx_rbtree_min fuel l sentinel
  end.

Fixpoint climb (fuel : nat) (root node : ptr) : MR ptr :=
  match fuel with
  | O => stuck
  | S fuel =>
      parent ← load parent node;
      if decide (node = root) then mret None
      else
        l ← load left parent;
        if decide (node = l) then mret parent else climb fuel root parent
  end.

Definition ngx_rbtree_next (sentinel node : ptr) : MR ptr :=
  fuel ← nodes;
  r ← load right node;
  if decide (r = sentinel) then
    root ← get_root;
    climb fuel root node
  else
    r ← load right node;
    ngx_rbtree_min fuel r sentinel.

(** ** Deletion *)

(** The removed node is cleared. *)
Definition clear (node : ptr) : MR unit :=
  store_at (set_left None) node;;
  store_at (set_right None) node;;
  store_at (set_parent None) node;;
  store_at (set_key 0) node.

(** [subst] takes the place of [node], and its color. *)
Definition replace (sentinel node subst temp : ptr) : MR unit :=
  p ← load parent subst;
  (if decide (p = node) then store_at (set_parent subst) temp
   else p ← load parent subst; store_at (set_parent p) temp);;
  l ← load left node; store_at (set_left l) subst;;
  r ← load right node; store_at (set_right r) subst;;
  p ← load parent node; store_at (set_parent p) subst;;
  ngx_rbt_copy_color subst node;;
  link_root L node subst;;
  reparent L sentinel subst subst;;
  reparent R sentinel subst subst.

(** One turn of the fixup for a node [temp] that is the [d] child of its
    parent; the result is the new value of [temp]. *)
Definition fixup_step (d : dir) (sentinel temp : ptr) : MR ptr :=
  p ← load parent temp;
  w ← load (child (opp d)) p;
  red ← ngx_rbt_is_red w;
  w ← (if (red : bool) then
         ngx_rbt_black w;;
         p ← load parent temp; ngx_rbt_red p;;
         p ← load parent temp; rotate d sentinel p;;
         p ← load parent temp; load (child (opp d)) p
       else mret w);
  both ← (l ← load left w;
          bl ← ngx_rbt_is_black l;
          if (bl : bool) then r ← load right w; ngx_rbt_is_black r else mret false);
  if (both : bool) then
    ngx_rbt_red w;;
    load parent temp
  else
    far ← load (child (opp d)) w;
    bf ← ngx_rbt_is_black far;
    w ← (if (bf : bool) then
           near ← load (child d) w; ngx_rbt_black near;;
           ngx_rbt_red w;;
           rotate (opp d) sentinel w;;
           p ← load parent temp; load (child (opp d)) p
         else mret w);
    p ← load parent temp; ngx_rbt_copy_color w p;;
    p ← load parent temp; ngx_rbt_black p;;
    far ← load (child (opp d)) w; ngx_rbt_black far;;
    p ← load parent temp; rotate d sentinel p;;
    get_root.

Fixpoint fixup (fuel : nat) (sentinel temp : ptr) : MR unit :=
  match fuel with
  | O => stuck
  | S fuel =>
      r ← get_root;
      if decide (temp = r) then ngx_rbt_black temp
      else
        black ← ngx_rbt_is_black temp;
        if (black : bool) then
          p ← load parent temp;
          l ← load left p;
          temp ← (if decide (temp = l) then fixup_step L sentinel temp
                  else fixup_step R sentinel temp);
          fixup fuel sentinel temp
        else ngx_rbt_black temp
  end.

(** The node that leaves its place, and the child that takes it. *)
Definition select (fuel : nat) (sentinel node : ptr) : MR (ptr * ptr) :=
  l ← load left node;
  if decide (l = sentinel) then temp ← load right node; mret (node, temp)
  else
    r ← load right node;
    if decide (r = sentinel) then temp ← load left node; mret (node, temp)
    else
      r ← load right node;
      subst ← ngx_rbtree_min fuel r sentinel;
      temp ← load right subst;
      mret (subst, temp).

(** [subst], whose child is [temp], leaves its place. *)
Definition delete_rest (fuel : nat) (sentinel node subst temp : ptr) : MR unit :=
  r ← get_root;
  if decide (subst = r) then
    set_root temp;;
    ngx_rbt_black temp;;
    clear node
  else
    red ← ngx_rbt_is_red subst;
    link L subst temp;;
    (if decide (subst = node) then p ← load parent subst; store_at (set_parent p) temp
     else replace sentinel node subst temp);;
    clear node;;
    if (red : bool) then mret tt else fixup fuel sentinel temp.

Definition ngx_rbtree_delete (sentinel node : ptr) : MR unit :=
  fuel ← nodes;
  '(subst, temp) ← select fuel sentinel node;
  delete_rest fuel sentinel node subst temp.

(** [ngx_rbtree_init] *)
Definition ngx_rbtree_init (sentinel : ptr) : MR unit :=
  ngx_rbt_black sentinel;;
  set_root sentinel.

(** ** Trees, contexts, and the cells they stand for *)

Inductive tree : Set := E | T (c : Z) (l : tree) (p : loc) (k : Z) (r : tree).

(** The node [p] with [x] as its [d] child and [y] as the other. *)
Definition mk (d : dir) (c : Z) (x : tree) (p : loc) (k : Z) (y : tree) : tree :=
  match d with L => T c x p k y | R => T c y p k x end.

Definition mkn (d : dir) (k : Z) (x y q : ptr) (c : Z) : node :=
  match d with L => Node k x y q c | R => Node k y x q c end.

(** The surroundings of a hole: its parent [p], of which it is the [d] child,
    with the sibling [t]; then the surroundings of the parent. *)
Inductive frame : Set := Frame (d : dir) (c : Z) (p : loc) (k : Z) (t : tree).

Definition plug1 (f : frame) (x : tree) : tree :=
  match f with Frame d c p k t => mk d c x p k t end.

Definition plug (ctx : list frame) (x : tree) : tree := fold_left (fun x f => plug1 f x) ctx x.

(** The nodes in order. *)
Fixpoint elements (t : tree) : list entry :=
  match t with E => [] | T _ l p k r => elements l ++ (k, p) :: elements r end.

Section Cells.
Context (s : loc).

Definition ptr_of (t : tree) : ptr := match t with E => Some s | T _ _ p _ _ => Some p end.

Fixpoint cells (q : ptr) (t : tree) : list (loc * node) :=
  match t with
  | E => []
  | T c l p k r =>
      (p, Node k (ptr_of l) (ptr_of r) q c) :: cells (Some p) l ++ cells (Some p) r
  end.

(** The parent of the hole; [q0] is what the parent pointer of the root holds. *)
Definition up_of (ctx : list frame) (q0 : ptr) : ptr :=
  match ctx with [] => q0 | Frame _ _ p _ _ :: _ => Some p end.

(** The cells of a context whose hole holds [x]. *)
Fixpoint ccells (x : ptr) (ctx : list frame) (q0 : ptr) : list (loc * node) :=
  match ctx with
  | [] => []
  | Frame d c p k t :: up =>
      (p, mkn d k x (ptr_of t) (up_of up q0) c) :: cells (Some p) t ++ ccells (Some p) up q0
  end.

(** The root of the whole, when the hole holds [x]. *)
Fixpoint top (x : ptr) (ctx : list frame) : ptr :=
  match ctx with [] => x | Frame _ _ p _ _ :: up => top (Some p) up end.

(** The memory holds the tree [plug ctx t], the sentinel [sn], and [F]. *)
Definition at_ (F : list (loc * node)) (q0 : ptr) (sn : node) (ctx : list frame) (t : tree)
    (st : rb_store) : Prop :=
  owns (mem st) ((s, sn) :: cells (up_of ctx q0) t ++ ccells (ptr_of t) ctx q0 ++ F)
  /\ vars st = top (ptr_of t) ctx.

Lemma cells_mk d q c x p k y :
  cells q (mk d c x p k y)
  ≡ₚ (p, mkn d k (ptr_of x) (ptr_of y) q c) :: cells (Some p) x ++ cells (Some p) y.
Proof. destruct d; cbn; solve_Permutation. Qed.

Lemma ptr_mk d c x p k y : ptr_of (mk d c x p k y) = Some p.
Proof. now destruct d. Qed.

Lemma at_zip F q0 sn d c p k y ctx x st :
  at_ F q0 sn (Frame d c p k y :: ctx) x st <-> at_ F q0 sn ctx (mk d c x p k y) st.
Proof.
  unfold at_. rewrite cells_mk, ptr_mk. cbn [up_of ccells top].
  enough (Eq : (s, sn) :: cells (Some p) x
    ++ ((p, mkn d k (ptr_of x) (ptr_of y) (up_of ctx q0) c)
        :: cells (Some p) y ++ ccells (Some p) ctx q0) ++ F
    ≡ₚ (s, sn) :: ((p, mkn d k (ptr_of x) (ptr_of y) (up_of ctx q0) c)
        :: cells (Some p) x ++ cells (Some p) y) ++ ccells (Some p) ctx q0 ++ F) by now rewrite Eq.
  solve_Permutation.
Qed.

Lemma at_plug F q0 sn ctx x st : at_ F q0 sn ctx x st <-> at_ F q0 sn [] (plug ctx x) st.
Proof.
  revert x. induction ctx as [|[d c p k y] ctx IH]; intros x; [done|].
  rewrite at_zip, IH. done.
Qed.

(** ** The pieces of the operations *)

Lemma owns_fresh (m : gmap loc node) p np R x n :
  owns m ((p, np) :: R) -> (x, n) ∈ R -> x <> p.
Proof.
  intros [N _] H ->. rewrite fmap_cons in N. apply NoDup_cons in N as [N _].
  apply N. exact (list_elem_of_fmap_2 fst _ _ H).
Qed.

Lemma ptr_cell t q sn : exists x n, ptr_of t = Some x /\ (x, n) ∈ (s, sn) :: cells q t.
Proof.
  destruct t as [|c l p k r]; cbn; eexists _, _; (split; [reflexivity|]); [left|right; left].
Qed.

Lemma ptr_ne (m : gmap loc node) p np sn q t R :
  owns m ((p, np) :: (s, sn) :: cells q t ++ R) -> ptr_of t <> Some p.
Proof.
  intros O. destruct (ptr_cell t q sn) as (x & n & -> & H).
  enough (x <> p) by congruence. apply (owns_fresh m p np _ x n O).
  change ((x, n) ∈ ((s, sn) :: cells q t) ++ R). apply elem_of_app. now left.
Qed.

Lemma top_cell x ctx q0 : ctx <> [] -> exists y n, top x ctx = Some y /\ (y, n) ∈ ccells x ctx q0.
Proof.
  revert x. induction ctx as [|[d c p k t] up IH]; [done|]. intros x _. cbn [top ccells].
  destruct up as [|f up].
  - cbn. eexists _, _. split; [done|]. left.
  - destruct (IH (Some p)) as (y & n & -> & H); [done|]. exists y, n. split; [done|]. set_solver.
Qed.

Lemma top_ne (m : gmap loc node) p np ctx q0 x R :
  ctx <> [] -> owns m ((p, np) :: ccells x ctx q0 ++ R) -> top x ctx <> Some p.
Proof.
  intros H O. destruct (top_cell x ctx q0 H) as (y & n & -> & Hy).
  enough (y <> p) by congruence. apply (owns_fresh m p np _ y n O). set_solver.
Qed.

Lemma wp_link d p np sn ctx q0 R x (Q : unit -> rb_store -> Prop) st :
  ctx <> [] -> parent np = up_of ctx q0 ->
  owns (mem st) ((p, np) :: (s, sn) :: ccells (Some p) ctx q0 ++ R) ->
  (forall st', vars st' = vars st ->
     owns (mem st') ((p, np) :: (s, sn) :: ccells x ctx q0 ++ R) -> Q tt st') ->
  wp (link d (Some p) x) Q st.
Proof.
  intros Hc Hp O HQ. destruct ctx as [|[d' c g k t] up]; [done|]. cbn [ccells app up_of] in *.
  assert (N : ptr_of t <> Some p).
  { refine (ptr_ne (mem st) p np sn (Some g) t ((g, mkn d' k (Some p) (ptr_of t) (up_of up q0) c) :: ccells (Some g) up q0 ++ R) _).
    owned O. }
  unfold link. wp_step O. rewrite Hp. wp_step O.
  destruct d, d'; cbn [child mkn left right opp set_child]; case_decide; try congruence;
    wp_step O; rewrite Hp; wp_step O; intros st' V O'; apply HQ; done.
Qed.

Lemma wp_link_root d p np sn ctx q0 R x (Q : unit -> rb_store -> Prop) st :
  parent np = up_of ctx q0 -> vars st = top (Some p) ctx ->
  owns (mem st) ((p, np) :: (s, sn) :: ccells (Some p) ctx q0 ++ R) ->
  (forall st', vars st' = top x ctx ->
     owns (mem st') ((p, np) :: (s, sn) :: ccells x ctx q0 ++ R) -> Q tt st') ->
  wp (link_root d (Some p) x) Q st.
Proof.
  intros Hp V O HQ. unfold link_root, get_root. wp_step O. rewrite V.
  destruct ctx as [|f up].
  - rewrite decide_True by done. unfold set_root. apply wp_put. intros st' V' M'. apply HQ; [done|].
    now rewrite M'.
  - rewrite decide_False.
    + apply (wp_link d p np sn (f :: up) q0 R); [done..|]. intros st' V' O'. apply HQ; [|done].
      rewrite V', V. now destruct f.
    + intros E0. symmetry in E0. revert E0.
      apply (top_ne (mem st) p np _ q0 _ ((s, sn) :: R)); [done|].
      owned O.
Qed.

Lemma wp_reparent d x nx q q' t sn R (Q : unit -> rb_store -> Prop) st :
  child d nx = ptr_of t ->
  owns (mem st) ((x, nx) :: (s, sn) :: cells q t ++ R) ->
  (forall st', vars st' = vars st ->
     owns (mem st') ((x, nx) :: (s, sn) :: cells q' t ++ R) -> Q tt st') ->
  wp (reparent d (Some s) (Some x) q') Q st.
Proof.
  intros Hc O HQ. unfold reparent. wp_step O. rewrite Hc. destruct t as [|c l p k r].
  - cbn [ptr_of]. rewrite decide_True by done. wp_step O. apply HQ; [done|]. exact O.
  - cbn [ptr_of cells app] in *. rewrite decide_False.
    + wp_step O. rewrite Hc. wp_step O. intros st' V O'. now apply HQ.
    + intros [= ->]. assert (O1 : owns (mem st) ((s, sn) :: (x, nx) :: (s, Node k (ptr_of l) (ptr_of r) q c)
        :: (cells (Some s) l ++ cells (Some s) r) ++ R)) by owned O.
      apply (owns_fresh _ s sn _ s (Node k (ptr_of l) (ptr_of r) q c) O1); [|done]. set_solver.
Qed.

Lemma wp_rotate F q0 sn ctx d c a p k c' b q k' e (Q : unit -> rb_store -> Prop) st :
  at_ F q0 sn ctx (mk d c a p k (mk d c' b q k' e)) st ->
  (forall st', at_ F q0 sn ctx (mk d c' (mk d c a p k b) q k' e) st' -> Q tt st') ->
  wp (rotate d (Some s) (Some p)) Q st.
Proof.
  intros [O V] HQ. rewrite !cells_mk, !ptr_mk in *.
  set (np := mkn d k (ptr_of a) (Some q) (up_of ctx q0) c).
  set (nq := mkn d k' (ptr_of b) (ptr_of e) (Some p) c').
  assert (O1 : owns (mem st) ((p, np) :: (q, nq) :: (s, sn) :: cells (Some q) b
    ++ cells (Some p) a ++ cells (Some q) e ++ ccells (Some p) ctx q0 ++ F)) by owned O.
  clear O. unfold rotate. wp_step O1.
  replace (child (opp d) np) with (Some q) by now destruct d.
  do 2 wp_step O1. intros st1 V1 O2. clear O1.
  replace (child d nq) with (ptr_of b) in * by now destruct d.
  apply wp_bind, (wp_reparent d q nq (Some q) (Some p) b sn
    ((p, set_child (opp d) (ptr_of b) np) :: cells (Some p) a ++ cells (Some q) e ++ ccells (Some p) ctx q0 ++ F));
    [now destruct d|owned O2|]. intros st2 V2 O3. clear O2.
  assert (O4 : owns (mem st2) ((p, set_child (opp d) (ptr_of b) np) :: (q, nq) :: (s, sn)
    :: ccells (Some p) ctx q0 ++ cells (Some p) a ++ cells (Some p) b ++ cells (Some q) e ++ F)) by owned O3.
  clear O3. do 2 wp_step O4. intros st3 V3 O5. clear O4.
  apply wp_bind, (wp_link_root d p (set_child (opp d) (ptr_of b) np) sn ctx q0
    ((q, set_parent (up_of ctx q0) nq) :: cells (Some p) a ++ cells (Some p) b ++ cells (Some q) e ++ F));
    [now destruct d|congruence|destruct d; cbn in O5; owned O5|]. intros st4 V4 O6. clear O5.
  assert (O7 : owns (mem st4) ((p, set_child (opp d) (ptr_of b) np) :: (q, set_parent (up_of ctx q0) nq)
    :: (s, sn) :: ccells (Some q) ctx q0 ++ cells (Some p) a ++ cells (Some p) b ++ cells (Some q) e ++ F))
    by owned O6. clear O6.
  wp_step O7. intros st5 V5 O8. clear O7.
  wp_step O8. intros st6 V6 O9. clear O8.
  apply HQ. unfold at_. rewrite !cells_mk, !ptr_mk. split; [|congruence].
  destruct d; cbn in O9 |- *; owned O9.
Qed.

(** ** Insertion: re-balancing *)

Lemma mk_cells_explicit F q0 sn d d' c1 p k1 t1 c2 g k2 u up x kx a b st :
  at_ F q0 sn (Frame d' c1 p k1 t1 :: Frame d c2 g k2 u :: up) (T 1 a x kx b) st <->
  owns (mem st)
    ((x, Node kx (ptr_of a) (ptr_of b) (Some p) 1)
     :: (p, mkn d' k1 (Some x) (ptr_of t1) (Some g) c1)
     :: (g, mkn d k2 (Some p) (ptr_of u) (up_of up q0) c2)
     :: (s, sn) :: cells (Some g) u ++ cells (Some x) a ++ cells (Some x) b ++ cells (Some p) t1
     ++ ccells (Some g) up q0 ++ F)
  /\ vars st = top (Some g) up.
Proof.
  unfold at_. cbn [cells ccells up_of ptr_of top]. apply and_iff_compat_r.
  apply owns_perm; [done|]. rewrite <- ?app_assoc; cbn [app]. rewrite <- ?app_assoc. solve_Permutation.
Qed.

Lemma wp_balance_red F q0 sn d d' c1 p k1 t1 c2 g k2 cu ua y ku ub up x kx a b
    (Q : ptr -> rb_store -> Prop) st :
  at_ F q0 sn (Frame d' c1 p k1 t1 :: Frame d c2 g k2 (T cu ua y ku ub) :: up) (T 1 a x kx b) st ->
  is_red cu = true ->
  (forall st', at_ F q0 sn up (mk d 1 (mk d' 0 (T 1 a x kx b) p k1 t1) g k2 (T 0 ua y ku ub)) st' ->
     Q (Some g) st') ->
  wp (balance_step d (Some s) (Some x)) Q st.
Proof.
  intros A Hu HQ. rewrite mk_cells_explicit in A. destruct A as [O V]. cbn [cells ptr_of app] in O.
  assert (O1 : owns (mem st)
    ((x, Node kx (ptr_of a) (ptr_of b) (Some p) 1)
     :: (p, mkn d' k1 (Some x) (ptr_of t1) (Some g) c1)
     :: (g, mkn d k2 (Some p) (Some y) (up_of up q0) c2)
     :: (y, Node ku (ptr_of ua) (ptr_of ub) (Some g) cu)
     :: (s, sn) :: cells (Some y) ua ++ cells (Some y) ub ++ cells (Some x) a ++ cells (Some x) b
     ++ cells (Some p) t1 ++ ccells (Some g) up q0 ++ F)) by owned O.
  clear O. unfold balance_step, ngx_rbt_is_red, ngx_rbt_black, ngx_rbt_red.
  destruct d, d'; cbn in O1 |- *; wp_walk O1; rewrite Hu; wp_walk O1;
    apply HQ; (split; [|cbn; congruence]); cbn in O1 |- *; owned O1.
Qed.

(** The end of a turn whose uncle is black: [n] is the child on the side [d] of
    [q], itself the child on the side [d] of the grandparent [g]. *)
Lemma wp_balance_turn F q0 sn up d cn na n kn nb c1 q kq b c2 g k2 u
    (Q : ptr -> rb_store -> Prop) st :
  at_ F q0 sn up (mk d c2 (mk d c1 (T cn na n kn nb) q kq b) g k2 u) st ->
  (forall st', at_ F q0 sn (Frame d 0 q kq (mk d 1 b g k2 u) :: up) (T cn na n kn nb) st' ->
     Q (Some n) st') ->
  wp (p ← load parent (Some n); ngx_rbt_black p;;
      p ← load parent (Some n); g ← load parent p; ngx_rbt_red g;;
      p ← load parent (Some n); g ← load parent p; rotate (opp d) (Some s) g;;
      mret (Some n)) Q st.
Proof.
  intros [O V] HQ. rewrite !cells_mk, !ptr_mk in *. cbn [cells ptr_of app] in O.
  assert (O1 : owns (mem st)
    ((n, Node kn (ptr_of na) (ptr_of nb) (Some q) cn)
     :: (q, mkn d kq (Some n) (ptr_of b) (Some g) c1)
     :: (g, mkn d k2 (Some q) (ptr_of u) (up_of up q0) c2)
     :: (s, sn) :: cells (Some g) u ++ cells (Some n) na ++ cells (Some n) nb ++ cells (Some q) b
     ++ ccells (Some g) up q0 ++ F)) by owned O.
  clear O. unfold ngx_rbt_black, ngx_rbt_red.
  destruct d; cbn in O1 |- *; wp_walk O1; apply wp_bind.
  - apply (wp_rotate F q0 sn up R 1 u g k2 0 b q kq (T cn na n kn nb)).
    + split; [|cbn; congruence]. cbn. owned O1.
    + intros st9 A. apply wp_ret, HQ. now rewrite at_zip.
  - apply (wp_rotate F q0 sn up L 1 u g k2 0 b q kq (T cn na n kn nb)).
    + split; [|cbn; congruence]. cbn. owned O1.
    + intros st9 A. apply wp_ret, HQ. now rewrite at_zip.
Qed.

Definition color_of (t : tree) : bool := match t with E => false | T c _ _ _ _ => is_red c end.

Lemma wp_is_red sn q t R (Q : bool -> rb_store -> Prop) st :
  owns (mem st) ((s, sn) :: cells q t ++ R) -> is_red (color sn) = false ->
  Q (color_of t) st -> wp (ngx_rbt_is_red (ptr_of t)) Q st.
Proof.
  intros O Hs HQ. unfold ngx_rbt_is_red.
  destruct t as [|c l p k r]; cbn [ptr_of cells app color_of] in *; wp_step O; apply wp_ret; [now rewrite Hs|exact HQ].
Qed.

(** Red-black trees by color of the root and number of black nodes on a path. *)
Inductive rbt : tree -> bool -> nat -> Prop :=
| rbt_E : rbt E false 0
| rbt_red c l p k r n :
    is_red c = true -> rbt l false n -> rbt r false n -> rbt (T c l p k r) true n
| rbt_black c l p k r bl br n :
    is_red c = false -> rbt l bl n -> rbt r br n -> rbt (T c l p k r) false (S n).

Lemma rbt_mk_red d c x p k y n :
  is_red c = true -> rbt x false n -> rbt y false n -> rbt (mk d c x p k y) true n.
Proof. intros. destruct d; now constructor. Qed.

Lemma rbt_mk_black d c x p k y bx b_y n :
  is_red c = false -> rbt x bx n -> rbt y b_y n -> rbt (mk d c x p k y) false (S n).
Proof. intros. destruct d; econstructor; eassumption. Qed.

Lemma rbt_color t b n : rbt t b n -> color_of t = b.
Proof. now destruct 1. Qed.

Lemma elements_rotate d c a p k c' b q k' e :
  elements (mk d c' (mk d c a p k b) q k' e) = elements (mk d c a p k (mk d c' b q k' e)).
Proof. destruct d; cbn; now rewrite <- ?app_assoc. Qed.

Lemma elements_mk_color d c c' x p k y : elements (mk d c x p k y) = elements (mk d c' x p k y).
Proof. now destruct d. Qed.

Lemma elements_mk d c x x' p k y y' : elements x = elements x' -> elements y = elements y' ->
  elements (mk d c x p k y) = elements (mk d c x' p k y').
Proof. destruct d; cbn; congruence. Qed.

Ltac in_order :=
  cbn; do 3 (rewrite <- ?app_assoc; cbn [app]); reflexivity.

Lemma wp_balance_black F q0 sn d d' c1 p k1 t1 c2 g k2 u up x kx a b n
    (Q : ptr -> rb_store -> Prop) st :
  at_ F q0 sn (Frame d' c1 p k1 t1 :: Frame d c2 g k2 u :: up) (T 1 a x kx b) st ->
  is_red (color sn) = false -> is_red c1 = true ->
  rbt a false n -> rbt b false n -> rbt t1 false n -> rbt u false n ->
  (forall st' cn na m kn nb q kq w,
     at_ F q0 sn (Frame d 0 q kq w :: up) (T cn na m kn nb) st' ->
     rbt (mk d 0 (T cn na m kn nb) q kq w) false (S n) ->
     elements (mk d 0 (T cn na m kn nb) q kq w)
     = elements (mk d c2 (mk d' c1 (T 1 a x kx b) p k1 t1) g k2 u) -> Q (Some m) st') ->
  wp (balance_step d (Some s) (Some x)) Q st.
Proof.
  intros A Hs H1 Ra Rb Rt Ru HQ.
  destruct (proj1 (mk_cells_explicit _ _ _ _ _ _ _ _ _ _ _ _ _ _ _ _ _ _ _) A) as [O V].
  unfold balance_step. do 2 (wp_step O; cbn [parent]).
  replace (parent (mkn d' _ _ _ _ _)) with (Some g) by now destruct d'.
  wp_step O. replace (child (opp d) _) with (ptr_of u) by now destruct d.
  apply wp_bind, (wp_is_red sn (Some g) u ((x, Node kx (ptr_of a) (ptr_of b) (Some p) 1)
     :: (p, mkn d' k1 (Some x) (ptr_of t1) (Some g) c1)
     :: (g, mkn d k2 (Some p) (ptr_of u) (up_of up q0) c2) :: cells (Some x) a ++ cells (Some x) b ++ cells (Some p) t1
     ++ ccells (Some g) up q0 ++ F)); [owned O|done|].
  rewrite (rbt_color _ _ _ Ru). wp_step O. cbn [parent]. wp_step O.
  apply wp_bind. destruct (decide (d' = d)) as [->|N].
  - replace (child (opp d) _) with (ptr_of t1) by now destruct d.
    rewrite decide_False; [|apply not_eq_sym; refine (ptr_ne (mem st) x (Node kx (ptr_of a) (ptr_of b) (Some p) 1) sn (Some p) t1
      ((p, mkn d k1 (Some x) (ptr_of t1) (Some g) c1) :: (g, mkn d k2 (Some p) (ptr_of u) (up_of up q0) c2)
       :: cells (Some g) u ++ cells (Some x) a ++ cells (Some x) b ++ ccells (Some g) up q0 ++ F) _); owned O].
    apply wp_ret. rewrite !at_zip in A.
    apply (wp_balance_turn F q0 sn up d 1 a x kx b c1 p k1 t1 c2 g k2 u); [now destruct d|].
    intros st' A'. eapply HQ; [exact A'| |].
    + apply (rbt_mk_black _ _ _ _ _ _ true true); [done|now constructor|now apply rbt_mk_red].
    + destruct d; in_order.
  - assert (d' = opp d) as -> by (now destruct d, d').
    replace (child (opp d) _) with (Some x) by now destruct d.
    rewrite decide_True by done. wp_step O. cbn [parent]. rewrite at_zip in A. apply wp_bind.
    destruct d; cbn [opp] in *.
    + apply (wp_rotate F q0 sn (Frame L c2 g k2 u :: up) L c1 t1 p k1 1 a x kx b); [exact A|]. intros st' A'. apply wp_ret.
      rewrite at_zip in A'. apply (wp_balance_turn F q0 sn up L c1 t1 p k1 a 1 x kx b c2 g k2 u); [exact A'|].
      intros st'' A''. eapply HQ; [exact A''| |].
      * apply (rbt_mk_black L _ _ _ _ _ true true); [done|now constructor|now constructor].
      * in_order.
    + apply (wp_rotate F q0 sn (Frame R c2 g k2 u :: up) R c1 t1 p k1 1 b x kx a); [exact A|]. intros st' A'. apply wp_ret.
      rewrite at_zip in A'. apply (wp_balance_turn F q0 sn up R c1 b p k1 t1 1 x kx a c2 g k2 u); [exact A'|].
      intros st'' A''. eapply HQ; [exact A''| |].
      * apply (rbt_mk_black R _ _ _ _ _ true true); [done|now constructor|now constructor].
      * in_order.
Qed.

(** ** Reading at a hole *)

Lemma at_node F q0 sn ctx c l p k r st : at_ F q0 sn ctx (T c l p k r) st ->
  mem st !! p = Some (Node k (ptr_of l) (ptr_of r) (up_of ctx q0) c).
Proof. intros [O _]. apply (owns_lookup _ _ _ _ O). right. left. Qed.

Lemma at_frame F q0 sn d c p k y up x st : at_ F q0 sn (Frame d c p k y :: up) x st ->
  mem st !! p = Some (mkn d k (ptr_of x) (ptr_of y) (up_of up q0) c).
Proof.
  rewrite at_zip. intros A. destruct d; exact (at_node _ _ _ _ _ _ _ _ _ _ A).
Qed.

Lemma at_sentinel F q0 sn ctx t st : at_ F q0 sn ctx t st -> mem st !! s = Some sn.
Proof. intros [O _]. apply (owns_lookup _ _ _ _ O). left. Qed.

Lemma at_not_root F q0 sn f up c l p k r st : at_ F q0 sn (f :: up) (T c l p k r) st ->
  vars st <> Some p.
Proof.
  intros [O ->]. cbn [ptr_of cells app] in *.
  apply (top_ne (mem st) p (Node k (ptr_of l) (ptr_of r) (up_of (f :: up) q0) c) (f :: up) q0
    (Some p) ((s, sn) :: (cells (Some p) l ++ cells (Some p) r) ++ F)); [done|]. owned O.
Qed.

Lemma at_sibling F q0 sn d c p k y up c' l x k' r st :
  at_ F q0 sn (Frame d c p k y :: up) (T c' l x k' r) st -> ptr_of y <> Some x.
Proof.
  intros [O _]. cbn [ptr_of cells ccells app up_of] in *.
  apply (ptr_ne (mem st) x (Node k' (ptr_of l) (ptr_of r) (Some p) c') sn (Some p) y
    ((p, mkn d k (Some x) (ptr_of y) (up_of up q0) c) :: (cells (Some x) l ++ cells (Some x) r)
     ++ ccells (Some p) up q0 ++ F)). owned O.
Qed.

(** The [d] child of the parent is the hole when [d] is the side of the hole,
    and only then. *)
Lemma at_side F q0 sn d c p k y up c' l x k' r st (Q : ptr -> rb_store -> Prop) :
  at_ F q0 sn (Frame d c p k y :: up) (T c' l x k' r) st ->
  (forall z, (z = Some x <-> d = L) -> Q z st) -> wp (load left (Some p)) Q st.
Proof.
  intros A HQ. apply (wp_load_at _ _ _ _ _ (at_frame _ _ _ _ _ _ _ _ _ _ _ A)).
  apply HQ. pose proof (at_sibling _ _ _ _ _ _ _ _ _ _ _ _ _ _ _ A). destruct d; cbn; naive_solver.
Qed.

(** ** Red-black contexts *)

(** [rbc ctx pr n]: the context of a red-black tree whose hole takes trees with
    [n] black nodes on a path; [pr] tells that the parent is red. *)
Inductive rbc : list frame -> bool -> nat -> Prop :=
| rbc_nil n : rbc [] false n
| rbc_red d c p k t f up n :
    is_red c = true -> rbt t false n -> rbc (f :: up) false n ->
    rbc (Frame d c p k t :: f :: up) true n
| rbc_black d c p k t bt up pr n :
    is_red c = false -> rbt t bt n -> rbc up pr (S n) -> rbc (Frame d c p k t :: up) false n.

Lemma plug_rbt ctx : forall pr n t b, rbc ctx pr n -> rbt t b n -> (pr = true -> b = false) ->
  exists b' m, rbt (plug ctx t) b' m /\ (ctx <> [] \/ b = false -> b' = false).
Proof.
  induction ctx as [|f ctx IH]; intros pr n t b C Rt Hb.
  - exists b, n. split; [done|]. now intros [?|?].
  - inversion C as [|d c p k y f' up n' Hc Ry C' |d c p k y bt up pr' n' Hc Ry C']; subst.
    + rewrite (Hb eq_refl) in Rt.
      destruct (IH false n (plug1 (Frame d c p k y) t) true) as (b' & m & R' & H'); [done|..].
      * now apply rbt_mk_red.
      * done.
      * exists b', m. split; [done|]. intros _. apply H'. now left.
    + destruct (IH pr' (S n) (plug1 (Frame d c p k y) t) false) as (b' & m & R' & H'); [done|..].
      * now apply (rbt_mk_black _ _ _ _ _ _ b bt).
      * done.
      * exists b', m. split; [done|]. intros _. apply H'. now right.
Qed.

Lemma rbt_mk_inv d c x p k y b n : rbt (mk d c x p k y) b n ->
  (is_red c = true /\ b = true /\ rbt x false n /\ rbt y false n)
  \/ (is_red c = false /\ b = false /\ exists m bx b_y, n = S m /\ rbt x bx m /\ rbt y b_y m).
Proof. destruct d; inversion 1; subst; [left|right|left|right]; eauto 10. Qed.

Lemma unplug_rbt ctx : forall t m, rbt (plug ctx t) false m ->
  exists pr n b, rbc ctx pr n /\ rbt t b n /\ (pr = true \/ ctx = [] -> b = false).
Proof.
  induction ctx as [|[d c p k y] ctx IH]; intros t m Rt.
  - exists false, m, false. eauto using rbc_nil.
  - destruct (IH (mk d c t p k y) m Rt) as (pr & n & b & C & Rm & Hb).
    destruct (rbt_mk_inv _ _ _ _ _ _ _ _ Rm) as [(Hc & -> & Rx & Ry)|(Hc & -> & n' & bx & b_y & -> & Rx & Ry)].
    + destruct ctx as [|f ctx]; [now specialize (Hb (or_intror eq_refl))|]. exists true, n, false.
      split; [|split; [done|done]]. destruct pr; [now specialize (Hb (or_introl eq_refl))|]. now constructor.
    + exists false, n', bx. split; [econstructor; eassumption|]. split; [done|].
      intros [?|?]; discriminate.
Qed.

Lemma elements_plug ctx : forall x y, elements x = elements y ->
  elements (plug ctx x) = elements (plug ctx y).
Proof.
  induction ctx as [|[d c p k t] ctx IH]; intros x y H; [done|].
  apply IH. now apply elements_mk.
Qed.

(** ** Insertion *)

Definition blacken (t : tree) : tree :=
  match t with E => E | T _ l p k r => T 0 l p k r end.

(** The tree after the re-balancing of [t]. *)
Definition balanced (t t' : tree) : Prop :=
  (exists m, rbt (blacken t') false m) /\ elements t' = elements t.

Lemma rbt_blacken t b n : rbt t b n -> exists m, rbt (blacken t) false m.
Proof.
  destruct 1 as [|c l p k r n Hc Rl Rr|c l p k r bl br n Hc Rl Rr]; cbn;
    [eauto using rbt_E| |]; exists (S n); now apply (rbt_black 0 _ _ _ _ _ _ _ eq_refl Rl Rr).
Qed.

Lemma balanced_plug ctx pr n t b : rbc ctx pr n -> rbt t b n -> (pr = true -> b = false) ->
  balanced (plug ctx t) (plug ctx t).
Proof.
  intros C Rt Hb. destruct (plug_rbt ctx _ _ _ _ C Rt Hb) as (b' & m & Rp & _).
  split; [now apply (rbt_blacken _ b' m)|done].
Qed.

Lemma balanced_elements ctx x y t' : elements x = elements y ->
  balanced (plug ctx y) t' -> balanced (plug ctx x) t'.
Proof. intros H [Rb El]. split; [done|]. now rewrite El, (elements_plug ctx x y H). Qed.

(** The loop ends when the parent is black. *)
Lemma wp_balance_exit F q0 sn d c p k y up c' l x k' r fuel (Q : unit -> rb_store -> Prop) st :
  at_ F q0 sn (Frame d c p k y :: up) (T c' l x k' r) st -> is_red c = false -> Q tt st ->
  wp (balance (S fuel) (Some s) (Some x)) Q st.
Proof.
  intros A Hc HQ. cbn [balance]. unfold get_root. wp_step A.
  rewrite decide_False by (apply not_eq_sym, (at_not_root _ _ _ _ _ _ _ _ _ _ _ A)).
  apply wp_bind, (wp_load_at _ _ _ _ _ (at_node _ _ _ _ _ _ _ _ _ _ A)). cbn [parent up_of].
  unfold ngx_rbt_is_red. apply wp_bind, wp_bind, (wp_load_at _ _ _ _ _ (at_frame _ _ _ _ _ _ _ _ _ _ _ A)).
  replace (color _) with c by now destruct d. apply wp_ret. rewrite Hc. now apply wp_ret.
Qed.

(** One turn under a red parent and the rest of the loop, given the loop on
    shorter contexts. *)
Lemma wp_turn F q0 sn d d' c1 p k1 t1 c2 g k2 u up x kx a b n fuel
    (Q : unit -> rb_store -> Prop) st :
  at_ F q0 sn (Frame d' c1 p k1 t1 :: Frame d c2 g k2 u :: up) (T 1 a x kx b) st ->
  is_red (color sn) = false -> is_red c1 = true ->
  rbt a false n -> rbt b false n -> rbt t1 false n -> rbc (Frame d c2 g k2 u :: up) false n ->
  (length up < fuel)%nat ->
  (forall up' pr' n' y ky a' b' (Q' : unit -> rb_store -> Prop) st',
     at_ F q0 sn up' (T 1 a' y ky b') st' -> rbc up' pr' n' -> rbt a' false n' -> rbt b' false n' ->
     (length up' <= length up)%nat ->
     (forall st'' t', at_ F q0 sn [] t' st'' -> balanced (plug up' (T 1 a' y ky b')) t' -> Q' tt st'') ->
     wp (balance fuel (Some s) (Some y)) Q' st') ->
  (forall st' t', at_ F q0 sn [] t' st' ->
     balanced (plug (Frame d' c1 p k1 t1 :: Frame d c2 g k2 u :: up) (T 1 a x kx b)) t' -> Q tt st') ->
  wp (balance_step d (Some s) (Some x)) (fun node => wp (balance fuel (Some s) node) Q) st.
Proof.
  intros A Hs H1 Ra Rb Rt C Hf Loop HQ. inversion C as [| |d0 c0 p0 k0 t0 bu up0 pr n0 Hc2 Ru C2]; subst.
  destruct bu.
  - inversion Ru as [|cu ua y ku ub n1 Hu Rua Rub|]; subst.
    apply (wp_balance_red F q0 sn d d' c1 p k1 t1 c2 g k2 cu ua y ku ub up x kx a b _ st A Hu).
    intros st' A'.
    assert (Rp : rbt (mk d' 0 (T 1 a x kx b) p k1 t1) false (S n))
      by (apply (rbt_mk_black _ _ _ _ _ _ true false); [done|now constructor|done]).
    assert (Ry : rbt (T 0 ua y ku ub) false (S n)) by (now apply (rbt_black 0 _ _ _ _ false false)).
    assert (El : elements (mk d 1 (mk d' 0 (T 1 a x kx b) p k1 t1) g k2 (T 0 ua y ku ub))
      = elements (plug1 (Frame d c2 g k2 (T cu ua y ku ub)) (plug1 (Frame d' c1 p k1 t1) (T 1 a x kx b))))
      by (destruct d, d'; done).
    destruct d; cbn [mk] in A', El.
    + eapply Loop; [exact A'|exact C2|exact Rp|first [exact Rp|exact Ry]|done|].
      intros st'' t' At Bt. apply (HQ st'' t' At). now apply (balanced_elements up _ _ _ (eq_sym El)).
    + eapply Loop; [exact A'|exact C2|exact Ry|first [exact Rp|exact Ry]|done|].
      intros st'' t' At Bt. apply (HQ st'' t' At). now apply (balanced_elements up _ _ _ (eq_sym El)).
  - apply (wp_balance_black F q0 sn d d' c1 p k1 t1 c2 g k2 u up x kx a b n _ st A Hs H1 Ra Rb Rt Ru).
    intros st' cn na m kn nb q kq w A' Rw El. destruct fuel as [|fuel]; [lia|].
    apply (wp_balance_exit _ _ _ _ _ _ _ _ _ _ _ _ _ _ _ _ _ A' eq_refl).
    apply (HQ st' (plug up (mk d 0 (T cn na m kn nb) q kq w))); [now rewrite at_plug in A'|].
    apply (balanced_elements up _ _ _ (eq_sym El)).
    apply (balanced_plug up pr (S n) _ false C2 Rw). done.
Qed.

Lemma wp_balance F q0 sn x fuel : is_red (color sn) = false ->
  forall ctx pr n kx a b (Q : unit -> rb_store -> Prop) st,
  at_ F q0 sn ctx (T 1 a x kx b) st -> rbc ctx pr n -> rbt a false n -> rbt b false n ->
  (length ctx < fuel)%nat ->
  (forall st' t', at_ F q0 sn [] t' st' -> balanced (plug ctx (T 1 a x kx b)) t' -> Q tt st') ->
  wp (balance fuel (Some s) (Some x)) Q st.
Proof.
  intros Hs. revert x. induction fuel as [fuel IH] using lt_wf_ind.
  intros x ctx pr n kx a b Q st A C Ra Rb Hf HQ. destruct fuel as [|fuel]; [lia|].
  assert (Rx : rbt (T 1 a x kx b) true n) by now constructor.
  destruct C as [n|d' c1 p k1 t1 [d c2 g k2 u] up n H1 Rt C|d c p k y bt up pr n Hc Rt C].
  - cbn [balance]. unfold get_root. wp_step A. rewrite decide_True by (now destruct A).
    apply wp_ret, (HQ st (T 1 a x kx b)); [done|]. split; [|done]. now apply (rbt_blacken _ true n).
  - cbn [balance]. unfold get_root. wp_step A.
    rewrite decide_False by (apply not_eq_sym, (at_not_root _ _ _ _ _ _ _ _ _ _ _ A)).
    apply wp_bind, (wp_load_at _ _ _ _ _ (at_node _ _ _ _ _ _ _ _ _ _ A)). cbn [parent up_of].
    unfold ngx_rbt_is_red. apply wp_bind, wp_bind, (wp_load_at _ _ _ _ _ (at_frame _ _ _ _ _ _ _ _ _ _ _ A)).
    replace (color _) with c1 by now destruct d'. apply wp_ret. rewrite H1.
    apply wp_bind, (wp_load_at _ _ _ _ _ (at_node _ _ _ _ _ _ _ _ _ _ A)). cbn [parent up_of].
    apply wp_bind, (wp_load_at _ _ _ _ _ (at_frame _ _ _ _ _ _ _ _ _ _ _ A)).
    replace (parent _) with (Some g) by now destruct d'.
    apply wp_bind.
    assert (A2 := A). rewrite at_zip in A2.
    assert (Side : forall P : ptr -> rb_store -> Prop,
      (forall z, (z = Some p <-> d = L) -> P z st) -> wp (load left (Some g)) P st).
    { intros P HP. destruct d'; exact (at_side _ _ _ _ _ _ _ _ _ _ _ _ _ _ _ _ A2 HP). }
    apply Side. intros z Hz. apply wp_bind.
    enough (St : wp (balance_step d (Some s) (Some x)) (fun node => wp (balance fuel (Some s) node) Q) st).
    { case_decide as Hd; [symmetry in Hd; apply Hz in Hd as ->; exact St|].
      destruct d; [|exact St]. destruct Hd. symmetry. now apply Hz. }
    apply (wp_turn F q0 sn d d' c1 p k1 t1 c2 g k2 u up x kx a b n fuel Q st A Hs H1 Ra Rb Rt C).
    + cbn in Hf. lia.
    + intros up' pr' n' y ky a' b' Q' st' A' C' Ra' Rb' Hl HQ'.
      apply (IH fuel (Nat.lt_succ_diag_r _) y up' pr' n' ky a' b' Q' st' A' C' Ra' Rb'); [cbn in Hf; lia|done].
    + exact HQ.
  - apply (wp_balance_exit _ _ _ _ _ _ _ _ _ _ _ _ _ _ _ _ _ A Hc).
    apply (HQ st (plug (Frame d c p k y :: up) (T 1 a x kx b))); [exact (proj1 (at_plug _ _ _ _ _ _) A)|].
    refine (balanced_plug _ _ _ _ _ (rbc_black _ _ _ _ _ _ _ _ _ Hc Rt C) Rx _). done.
Qed.

(** ** The order of the nodes *)

(** What the comparison of a tree promises, on the keys [D]. *)
Class KeyOrder (goes_left : Z -> Z -> bool) (D : Z -> Prop) : Prop := {
  order_asym a b : D a -> D b -> goes_left a b = true -> goes_left b a = false;
  order_trans a b c : D a -> D b -> D c ->
    goes_left a b = false -> goes_left b c = false -> goes_left a c = false }.

(** A new node is put after the nodes that do not come after it. *)
Fixpoint ins (goes_left : Z -> Z -> bool) (e : entry) (l : list entry) : list entry :=
  match l with
  | [] => [e]
  | e' :: l' => if goes_left e.1 e'.1 then e :: l else e' :: ins goes_left e l'
  end.

Definition sorted (goes_left : Z -> Z -> bool) : list entry -> Prop :=
  StronglySorted (fun a b : entry => goes_left b.1 a.1 = false).

Section Order.
Context (gl : Z -> Z -> bool) (D : Z -> Prop) {HO : KeyOrder gl D}.

Definition in_domain (l : list entry) : Prop := Forall (fun e : entry => D e.1) l.

Lemma ins_left (e : entry) l1 y l2 : gl e.1 y.1 = true -> ins gl e (l1 ++ y :: l2) = ins gl e l1 ++ y :: l2.
Proof.
  intros H. induction l1 as [|z l1 IH]; cbn; [now rewrite H|]. case_match; [done|]. now rewrite IH.
Qed.

Lemma ins_right (e : entry) l1 l2 : Forall (fun z : entry => gl e.1 z.1 = false) l1 ->
  ins gl e (l1 ++ l2) = l1 ++ ins gl e l2.
Proof. induction 1 as [|z l1 Hz _ IH]; cbn; [done|]. now rewrite Hz, IH. Qed.

Lemma sorted_app l1 (y : entry) l2 : sorted gl (l1 ++ y :: l2) ->
  sorted gl l1 /\ sorted gl l2 /\ Forall (fun z : entry => gl y.1 z.1 = false) l1.
Proof.
  induction l1 as [|z l1 IH]; cbn; intros H; apply StronglySorted_inv in H as [S F].
  - split; [constructor|]. split; [done|constructor].
  - destruct (IH S) as (S1 & S2 & F1). apply Forall_app in F as [Fl Fr].
    apply Forall_cons in Fr as [Fy _].
    split; [now constructor|]. split; [done|]. now constructor.
Qed.

(** The nodes before [y] do not come after [e] when [y] does not. *)
Lemma sorted_before (e : entry) l1 y l2 : D e.1 -> in_domain (l1 ++ y :: l2) -> sorted gl (l1 ++ y :: l2) ->
  gl e.1 y.1 = false -> Forall (fun z : entry => gl e.1 z.1 = false) l1.
Proof.
  intros De Dl Sl H. destruct (sorted_app _ _ _ Sl) as (_ & _ & F).
  apply Forall_app in Dl as [D1 D2]. apply Forall_cons in D2 as [Dy _].
  rewrite Forall_forall in *. intros z Hz. apply (order_trans _ y.1); auto.
Qed.

Lemma ins_perm e l : ins gl e l ≡ₚ e :: l.
Proof.
  induction l as [|z l IH]; cbn; [done|]. case_match; [done|]. rewrite IH. apply perm_swap.
Qed.

Lemma ins_sorted (e : entry) l : D e.1 -> in_domain l -> sorted gl l -> sorted gl (ins gl e l).
Proof.
  intros De. induction l as [|z l IH]; intros Dl Sl; cbn; [repeat constructor|].
  apply Forall_cons in Dl as [Dz Dl]. apply StronglySorted_inv in Sl as [Sl F].
  case_match eqn:H.
  - constructor; [now constructor|]. constructor; [now apply order_asym|].
    rewrite Forall_forall in *. intros w Hw. apply (order_trans _ z.1); auto. now apply order_asym.
  - constructor; [now apply IH|]. rewrite ins_perm. now constructor.
Qed.

Lemma ins_domain (e : entry) l : D e.1 -> in_domain l -> in_domain (ins gl e l).
Proof. intros De Dl. unfold in_domain. rewrite ins_perm. now constructor. Qed.

End Order.

Lemma plug_app ctx1 ctx2 t : plug (ctx1 ++ ctx2) t = plug ctx2 (plug ctx1 t).
Proof. apply fold_left_app. Qed.

Lemma length_cells q t : length (cells q t) = length (elements t).
Proof.
  revert q. induction t as [|c l IHl p k r IHr]; intros q; [done|].
  cbn. rewrite !length_app, IHl, IHr. cbn. lia.
Qed.

Lemma length_ctx ctx t : (length ctx <= length (elements (plug ctx t)))%nat.
Proof.
  enough (length ctx + length (elements t) <= length (elements (plug ctx t)))%nat by lia.
  revert t. induction ctx as [|[d c p k y] ctx IH]; intros t; [done|].
  cbn [length]. etransitivity; [|apply (IH (mk d c t p k y))].
  destruct d; cbn; rewrite !length_app; cbn; lia.
Qed.

(** ** The insertion of a leaf *)

Definition side (ctx : list frame) : dir := match ctx with Frame d _ _ _ _ :: _ => d | [] => L end.

Lemma at_foreign x nx F q0 sn ctx t st : at_ ((x, nx) :: F) q0 sn ctx t st -> mem st !! x = Some nx.
Proof.
  intros [O _]. apply (owns_lookup _ _ _ _ O). right. rewrite !elem_of_app. right. right. left.
Qed.

Lemma at_ne_s F q0 sn ctx c l p k r st : at_ F q0 sn ctx (T c l p k r) st -> p <> s.
Proof.
  intros [O _]. apply (owns_fresh _ _ _ _ p (Node k (ptr_of l) (ptr_of r) (up_of ctx q0) c) O).
  rewrite !elem_of_app. left. left.
Qed.

Section Descent.
Context (gl : Z -> Z -> bool) (D : Z -> Prop) {HO : KeyOrder gl D}.

(** Where the descent goes at a node. *)
Lemma ins_at_node c l p k r (e : entry) : D e.1 ->
  in_domain D (elements (T c l p k r)) -> sorted gl (elements (T c l p k r)) ->
  ins gl e (elements (T c l p k r))
  = if gl e.1 k then ins gl e (elements l) ++ (k, p) :: elements r
    else elements l ++ (k, p) :: ins gl e (elements r).
Proof.
  intros De Dt St. cbn [elements] in *. case_match eqn:H; [now apply ins_left|].
  rewrite ins_right by exact (sorted_before gl D e _ (k, p) _ De Dt St H).
  cbn. now rewrite H.
Qed.

Definition descended (t : tree) (e : entry) (ctx : list frame) : Prop :=
  ctx <> [] /\ plug ctx E = t
  /\ forall c0, elements (plug ctx (T c0 E e.2 e.1 E)) = ins gl e (elements t).

Lemma descended_leaf d c p k y (e : entry) :
  D e.1 -> in_domain D (elements (mk d c E p k y)) -> sorted gl (elements (mk d c E p k y)) ->
  (if gl e.1 k then L else R) = d -> descended (mk d c E p k y) e [Frame d c p k y].
Proof.
  intros De Dt St Hd. split; [done|]. split; [done|]. intros c0. cbn [plug fold_left plug1].
  destruct e as [ke x], d; cbn [mk] in *; rewrite (ins_at_node _ _ _ _ _ _ De Dt St);
    destruct (gl _ k); done.
Qed.

Lemma descended_step d c t p k y (e : entry) ctx :
  D e.1 -> in_domain D (elements (mk d c t p k y)) -> sorted gl (elements (mk d c t p k y)) ->
  (if gl e.1 k then L else R) = d -> descended t e ctx ->
  descended (mk d c t p k y) e (ctx ++ [Frame d c p k y]).
Proof.
  intros De Dt St Hd (N & Pl & El). split; [now destruct ctx|]. rewrite plug_app, Pl. split; [done|].
  intros c0. rewrite plug_app. cbn [plug fold_left plug1].
  change (fold_left (fun (x : tree) (f : frame) => plug1 f x) ctx (T c0 E e.2 e.1 E))
    with (plug ctx (T c0 E e.2 e.1 E)).
  destruct d; cbn [mk] in *; rewrite (ins_at_node _ _ _ _ _ _ De Dt St); cbn [elements];
    rewrite (El c0); destruct (gl _ k); done.
Qed.

Lemma wp_descend F q0 sn x nx : D (key nx) ->
  forall t ctx fuel (Q : ptr * dir -> rb_store -> Prop) st,
  t <> E -> in_domain D (elements t) -> sorted gl (elements t) ->
  at_ ((x, nx) :: F) q0 sn ctx t st -> (length (elements t) <= fuel)%nat ->
  (forall ctx2, descended t (key nx, x) ctx2 -> at_ ((x, nx) :: F) q0 sn (ctx2 ++ ctx) E st ->
     Q (up_of ctx2 q0, side ctx2) st) ->
  wp (descend gl fuel (ptr_of t) (Some x) (Some s)) Q st.
Proof.
  intros De t. induction t as [|c l IHl p k r IHr]; [done|].
  intros ctx fuel Q st _ Dt St A Hf HQ. destruct fuel as [|fuel]; [cbn in Hf; rewrite length_app in Hf; cbn in Hf; lia|].
  cbn [descend ptr_of]. apply wp_bind, (wp_load_at _ _ _ _ _ (at_foreign _ _ _ _ _ _ _ _ A)).
  pose proof (at_node _ _ _ _ _ _ _ _ _ _ A) as En.
  apply wp_bind, (wp_load_at _ _ _ _ _ En). cbn [key].
  set (d := if gl (key nx) k then L else R).
  assert (exists y z, T c l p k r = mk d c y p k z /\ child d (Node k (ptr_of l) (ptr_of r) (up_of ctx q0) c) = ptr_of y
    /\ (y = l \/ y = r)) as (y & z & Et & Ec & Hy)
    by (destruct d; eauto 10).
  apply wp_bind, (wp_load_at _ _ _ _ _ En). rewrite Ec. rewrite Et in *.
  assert (A' := proj2 (at_zip _ _ _ _ _ _ _ _ _ _ _) A).
  destruct y as [|cy ly py ky ry]; cbn [ptr_of].
  - rewrite decide_True by done. apply wp_ret.
    apply (HQ [Frame d c p k z]); [now apply descended_leaf|exact A'].
  - rewrite decide_False by (intros [= ->]; now apply (at_ne_s _ _ _ _ _ _ _ _ _ _ A')).
    assert (Hsub : forall t', (t' = l \/ t' = r) ->
      in_domain D (elements t') /\ sorted gl (elements t') /\ (length (elements t') <= fuel)%nat).
    { rewrite <- Et in *. cbn [elements] in *. destruct (sorted_app gl _ _ _ St) as (Sl & Sr & _).
      apply Forall_app in Dt as [Dl Dr]. apply Forall_cons in Dr as [_ Dr].
      rewrite length_app in Hf. cbn in Hf. intros t' [->| ->]; (split; [done|]); (split; [done|lia]). }
    destruct (Hsub _ Hy) as (Dy & Sy & Hy').
    assert (IH : forall ctx fuel (Q : ptr * dir -> rb_store -> Prop) st,
      T cy ly py ky ry <> E -> in_domain D (elements (T cy ly py ky ry)) -> sorted gl (elements (T cy ly py ky ry)) ->
      at_ ((x, nx) :: F) q0 sn ctx (T cy ly py ky ry) st -> (length (elements (T cy ly py ky ry)) <= fuel)%nat ->
      (forall ctx2, descended (T cy ly py ky ry) (key nx, x) ctx2 -> at_ ((x, nx) :: F) q0 sn (ctx2 ++ ctx) E st ->
         Q (up_of ctx2 q0, side ctx2) st) ->
      wp (descend gl fuel (ptr_of (T cy ly py ky ry)) (Some x) (Some s)) Q st)
      by (destruct Hy as [-> | ->]; assumption).
    refine (IH _ fuel Q st _ Dy Sy A' Hy' _); [done|]. intros ctx2 Ds As.
    replace (up_of ctx2 q0, side ctx2) with (up_of (ctx2 ++ [Frame d c p k z]) q0, side (ctx2 ++ [Frame d c p k z]))
      by (destruct Ds as [N _]; now destruct ctx2).
    apply HQ; [now apply descended_step|]. now rewrite <- app_assoc.
Qed.

End Descent.

(** What [ngx_rbtree_insert] expects of the callback [tree->insert]: the new
    node becomes a red leaf at its place in the order. *)
Class InsertPt (insert : nat -> ptr -> ptr -> ptr -> MR unit) (gl : Z -> Z -> bool)
    (D : Z -> Prop) : Prop :=
  insert_pt F q0 sn x nx t fuel (Q : unit -> rb_store -> Prop) st :
    D (key nx) -> t <> E -> in_domain D (elements t) -> sorted gl (elements t) ->
    at_ ((x, nx) :: F) q0 sn [] t st -> (length (elements t) <= fuel)%nat ->
    (forall ctx st', descended gl t (key nx, x) ctx ->
       at_ F q0 sn ctx (T 1 E x (key nx) E) st' -> Q tt st') ->
    wp (insert fuel (ptr_of t) (Some x) (Some s)) Q st.

#[export] Instance insert_at_pt gl D `{KeyOrder gl D} : InsertPt (insert_at gl) gl D.
Proof.
  intros F q0 sn x nx t fuel Q st Dx Ht Dt St A Hf HQ. unfold insert_at. apply wp_bind.
  apply (wp_descend gl D F q0 sn x nx Dx t [] fuel _ st Ht Dt St A Hf).
  intros ctx Ds A'. rewrite app_nil_r in A'.
  destruct ctx as [|[d c p k y] up]; [now destruct Ds|]. cbn [side up_of].
  destruct A' as [O V]. cbn [cells ccells ptr_of app up_of] in O.
  assert (O1 : owns (mem st) ((x, nx) :: (p, mkn d k (Some s) (ptr_of y) (up_of up q0) c)
    :: (s, sn) :: cells (Some p) y ++ ccells (Some p) up q0 ++ F)) by owned O.
  clear O. unfold ngx_rbt_red. destruct d; cbn in O1 |- *; wp_walk O1;
    (apply (HQ _ _ Ds); split; [|cbn in *; congruence]; cbn; owned O1).
Qed.

(** ** Whole operations *)

(** The memory holds a red-black tree with the nodes [l] in order, and [F]. *)
Definition holds (gl : Z -> Z -> bool) (D : Z -> Prop) (F : list (loc * node)) (l : list entry)
    (st : rb_store) : Prop :=
  exists q0 sn t m, at_ F q0 sn [] t st /\ is_red (color sn) = false /\ rbt t false m
  /\ elements t = l /\ in_domain D l /\ sorted gl l.

Lemma at_blacken F q0 sn c l p k r (Q : unit -> rb_store -> Prop) st :
  at_ F q0 sn [] (T c l p k r) st ->
  (forall st', at_ F q0 sn [] (T 0 l p k r) st' -> Q tt st') -> wp (ngx_rbt_black (Some p)) Q st.
Proof.
  intros [O V] HQ. cbn [cells ccells ptr_of app up_of top] in *. unfold ngx_rbt_black.
  wp_walk O. apply HQ. split; [|cbn; congruence]. exact O.
Qed.

Lemma at_fuel F q0 sn ctx t (Q : nat -> rb_store -> Prop) st : at_ F q0 sn ctx t st ->
  (forall n, (length (elements (plug ctx t)) + length F + 1 < n)%nat -> Q n st) -> wp nodes Q st.
Proof.
  intros A HQ. rewrite at_plug in A. destruct A as [O _].
  apply (wp_nodes _ _ _ O). intros n Hn. apply HQ. cbn [length ccells app] in Hn.
  rewrite length_app, length_cells in Hn. lia.
Qed.

Lemma wp_insert insert gl D `{!KeyOrder gl D, !InsertPt insert gl D} F l x nx
    (Q : unit -> rb_store -> Prop) st :
  holds gl D ((x, nx) :: F) l st -> D (key nx) ->
  (forall st', holds gl D F (ins gl (key nx, x) l) st' -> Q tt st') ->
  wp (ngx_rbtree_insert insert (Some s) (Some x)) Q st.
Proof.
  intros (q0 & sn & t & m & A & Hs & Rt & <- & Dt & St) Dx HQ. unfold ngx_rbtree_insert.
  apply wp_bind, (at_fuel _ _ _ _ _ _ _ A). intros fuel Hf. cbn [plug fold_left length] in Hf.
  unfold get_root. wp_step A. rewrite (proj2 A). cbn [top].
  destruct t as [|c l p k r].
  - cbn [ptr_of]. rewrite decide_True by done. destruct A as [O _]. cbn [cells ccells app] in O.
    unfold ngx_rbt_black, set_root. wp_walk O. apply HQ.
    exists None, sn, (T 0 E x (key nx) E), 1%nat.
    split; [split; [exact O|done]|]. split; [done|].
    split; [apply (rbt_black 0 _ _ _ _ false false 0); [done|constructor..]|].
    repeat (constructor || done).
  - rewrite decide_False by (intros [= ->]; exact (at_ne_s _ _ _ _ _ _ _ _ _ _ A eq_refl)).
    wp_step A. rewrite (proj2 A). cbn [top]. apply wp_bind.
    apply (insert_pt F q0 sn x nx (T c l p k r) fuel _ st Dx); [done..|cbn in *; lia|].
    intros ctx st' (N & Pl & El) A'. apply wp_bind.
    rewrite <- Pl in Rt. destruct (unplug_rbt _ _ _ Rt) as (pr & n & b & C & RE & Hb).
    inversion RE; subst n b.
    apply (wp_balance F q0 sn x fuel Hs ctx pr 0%nat (key nx) E E _ st' A' C); [constructor|constructor| |].
    { pose proof (length_ctx ctx E) as Hl. rewrite Pl in Hl. lia. }
    intros st'' t' A'' [[m' Rb] Et]. pose proof (El 1) as Ei. cbn [fst snd] in Ei. rewrite Ei in Et.
    destruct t' as [|c' l' p' k' r']; [now destruct (ins gl (key nx, x) (elements (T c l p k r))) eqn:Hi;
      [pose proof (ins_perm gl (key nx, x) (elements (T c l p k r))) as P; rewrite Hi in P;
       apply Permutation_nil_cons in P|]|].
    wp_step A''. rewrite (proj2 A''). cbn [top ptr_of].
    apply (at_blacken F q0 sn c' l' p' k' r' _ st'' A''). intros st3 A3. apply HQ.
    exists q0, sn, (T 0 l' p' k' r'), m'. split; [exact A3|]. do 2 (split; [done|]).
    split; [exact Et|]. split; [now apply ins_domain|now apply (ins_sorted gl D)].
Qed.

(** ** Walks *)

(** The nodes before and after the hole of a context. *)
Fixpoint left_of (ctx : list frame) : list entry :=
  match ctx with
  | [] => []
  | Frame L _ _ _ _ :: up => left_of up
  | Frame R _ p k y :: up => left_of up ++ elements y ++ [(k, p)]
  end.

Fixpoint right_of (ctx : list frame) : list entry :=
  match ctx with
  | [] => []
  | Frame L _ p k y :: up => (k, p) :: elements y ++ right_of up
  | Frame R _ _ _ _ :: up => right_of up
  end.

Lemma elements_split ctx : forall t,
  elements (plug ctx t) = left_of ctx ++ elements t ++ right_of ctx.
Proof.
  induction ctx as [|[d c p k y] ctx IH]; intros t; [cbn; now rewrite app_nil_r|].
  transitivity (left_of ctx ++ elements (mk d c t p k y) ++ right_of ctx); [apply IH|].
  destruct d; in_order.
Qed.

Lemma right_of_app c1 c2 : right_of (c1 ++ c2) = right_of c1 ++ right_of c2.
Proof. induction c1 as [|[[] c p k y] c1 IH]; cbn; [done| |done]. now rewrite IH, app_assoc. Qed.

Lemma left_of_app c1 c2 : left_of (c1 ++ c2) = left_of c2 ++ left_of c1.
Proof.
  induction c1 as [|[[] c p k y] c1 IH]; cbn; [now rewrite app_nil_r|done|]. rewrite IH, <- ?app_assoc; reflexivity.
Qed.

(** Where an element is in the tree. *)
Lemma find_node t : forall l1 (e : entry) l2, elements t = l1 ++ e :: l2 ->
  exists ctx c l r, t = plug ctx (T c l e.2 e.1 r)
  /\ l1 = left_of ctx ++ elements l /\ l2 = elements r ++ right_of ctx.
Proof.
  induction t as [|c l IHl p k r IHr]; intros l1 e l2 H; [now destruct l1|]. cbn [elements] in H.
  destruct (app_eq_app _ _ _ _ H) as (m & [[E1 E2]|[E1 E2]]).
  - destruct m as [|e' m].
    + injection E2 as -> ->. rewrite app_nil_r in E1. subst l1.
      exists [], c, l, r. cbn. now rewrite app_nil_r.
    + injection E2 as -> ->. destruct (IHl _ _ _ E1) as (ctx & c' & l' & r' & -> & -> & ->).
      exists (ctx ++ [Frame L c p k r]), c', l', r'. rewrite plug_app, left_of_app, right_of_app.
      cbn. rewrite app_nil_r, <- ?app_assoc. done.
  - destruct m as [|e' m].
    + injection E2 as <- <-. rewrite app_nil_r in E1. subst l1.
      exists [], c, l, r. cbn. now rewrite app_nil_r.
    + injection E2 as <- E3. destruct (IHr _ _ _ E3) as (ctx & c' & l' & r' & -> & -> & ->).
      exists (ctx ++ [Frame R c p k l]), c', l', r'. rewrite plug_app, left_of_app, right_of_app.
      cbn. rewrite app_nil_r. split; [done|]. split; [|done].
      rewrite E1, <- ?app_assoc. done.
Qed.

Fixpoint height (t : tree) : nat :=
  match t with E => O | T _ l _ _ r => S (Nat.max (height l) (height r)) end.

Lemma height_length t : (height t <= length (elements t))%nat.
Proof. induction t as [|c l IHl p k r IHr]; cbn; [lia|]. rewrite length_app. cbn. lia. Qed.

Lemma wp_min F q0 sn t : forall ctx fuel (Q : ptr -> rb_store -> Prop) st,
  t <> E -> at_ F q0 sn ctx t st -> (height t <= fuel)%nat ->
  (forall spine c q k r, plug spine (T c E q k r) = t -> left_of spine = [] ->
     at_ F q0 sn (spine ++ ctx) (T c E q k r) st -> Q (Some q) st) ->
  wp (ngx_rbtree_min fuel (ptr_of t) (Some s)) Q st.
Proof.
  induction t as [|c l IHl p k r _]; intros ctx fuel Q st H A Hf HQ; [done|].
  cbn [height] in Hf.
  destruct fuel as [|fuel]; [lia|]. cbn [ngx_rbtree_min ptr_of].
  apply wp_bind, (wp_load_at _ _ _ _ _ (at_node _ _ _ _ _ _ _ _ _ _ A)). cbn [left].
  assert (A' := proj2 (at_zip _ _ _ L _ _ _ _ _ _ _) A).
  destruct l as [|cl ll pl kl rl]; cbn [ptr_of].
  - rewrite decide_True by done. apply wp_ret. now apply (HQ [] c p k r).
  - rewrite decide_False by (intros [= ->]; exact (at_ne_s _ _ _ _ _ _ _ _ _ _ A' eq_refl)).
    refine (IHl _ fuel Q st _ A' _ _); [done|lia|]. intros spine c' q k' r' Pl Ll As.
    apply (HQ (spine ++ [Frame L c p k r]) c' q k' r').
    + rewrite plug_app, Pl. done.
    + rewrite left_of_app. exact Ll.
    + now rewrite <- app_assoc.
Qed.

Lemma wp_climb F q0 sn ctx : forall c l p k r fuel (Q : ptr -> rb_store -> Prop) st,
  at_ F q0 sn ctx (T c l p k r) st -> (length ctx < fuel)%nat ->
  Q (snd <$> head (right_of ctx)) st -> wp (climb fuel (vars st) (Some p)) Q st.
Proof.
  induction ctx as [|[d cf pf kf y] up IH]; intros c l p k r fuel Q st A Hf HQ;
    (destruct fuel as [|fuel]; [lia|]); cbn [climb];
    apply wp_bind, (wp_load_at _ _ _ _ _ (at_node _ _ _ _ _ _ _ _ _ _ A)); cbn [parent up_of].
  - rewrite decide_True by (rewrite (proj2 A); done). now apply wp_ret.
  - rewrite decide_False by (apply not_eq_sym, (at_not_root _ _ _ _ _ _ _ _ _ _ _ A)).
    apply wp_bind. apply (at_side _ _ _ _ _ _ _ _ _ _ _ _ _ _ _ _ A). intros z Hz.
    destruct d.
    + rewrite decide_True by (symmetry; now apply Hz). apply wp_ret. exact HQ.
    + rewrite decide_False by (intros Ez; symmetry in Ez; now apply Hz in Ez).
      rewrite at_zip in A. apply (IH cf y pf kf (T c l p k r) fuel Q st A); [cbn in Hf; lia|exact HQ].
Qed.

Lemma at_plug_eq F q0 sn ctx t u st : at_ F q0 sn [] t st -> t = plug ctx u -> at_ F q0 sn ctx u st.
Proof. intros A ->. now apply at_plug. Qed.

Lemma wp_next gl D F l1 e l2 (Q : ptr -> rb_store -> Prop) st :
  holds gl D F (l1 ++ e :: l2) st -> Q (snd <$> head l2) st ->
  wp (ngx_rbtree_next (Some s) (Some e.2)) Q st.
Proof.
  intros (q0 & sn & t & m & A & _ & _ & El & _ & _) HQ. unfold ngx_rbtree_next.
  apply wp_bind, (at_fuel _ _ _ _ _ _ _ A). intros fuel Hf. cbn [plug fold_left] in Hf.
  destruct (find_node _ _ _ _ El) as (ctx & c & l & r & Et & -> & ->).
  pose proof (length_ctx ctx (T c l e.2 e.1 r)) as Hl. rewrite <- Et in Hl.
  pose proof (elements_split ctx (T c l e.2 e.1 r)) as Es. rewrite <- Et in Es.
  apply (f_equal length) in Es. cbn [elements] in Es. rewrite !length_app in Es. cbn [length] in Es.
  apply (at_plug_eq _ _ _ ctx _ _ _ A) in Et as A'.
  pose proof (at_node _ _ _ _ _ _ _ _ _ _ A') as En.
  apply wp_bind, (wp_load_at _ _ _ _ _ En). cbn [right].
  assert (A2 := proj2 (at_zip _ _ _ R _ _ _ _ _ _ _) A').
  destruct r as [|cr lr pr kr rr]; cbn [ptr_of].
  - rewrite decide_True by done. unfold get_root. wp_step A.
    apply (wp_climb _ _ _ _ _ _ _ _ _ _ _ _ A'); [lia|exact HQ].
  - rewrite decide_False by (intros [= ->]; exact (at_ne_s _ _ _ _ _ _ _ _ _ _ A2 eq_refl)).
    apply wp_bind, (wp_load_at _ _ _ _ _ En). cbn [right].
    refine (wp_min F q0 sn _ _ fuel Q st _ A2 _ _); [done|etransitivity; [apply height_length|lia]|].
    intros spine c' q k' r' Pl Ll _. rewrite <- Pl, elements_split, Ll in HQ. exact HQ.
Qed.

(** ** Deletion: unlinking *)

Lemma ccells_app c1 c2 x q0 :
  ccells x (c1 ++ c2) q0 = ccells x c1 (up_of c2 q0) ++ ccells (top x c1) c2 q0.
Proof.
  revert x. induction c1 as [|[d c p k y] c1 IH]; intros x; [done|].
  cbn [app ccells top]. rewrite IH, <- app_assoc.
  replace (up_of (c1 ++ c2) q0) with (up_of c1 (up_of c2 q0)) by (now destruct c1 as [|[]]). done.
Qed.

Lemma up_of_app c1 c2 q0 : up_of (c1 ++ c2) q0 = up_of c1 (up_of c2 q0).
Proof. now destruct c1 as [|[]]. Qed.

Lemma top_ctx_app c1 c2 x : top x (c1 ++ c2) = top (top x c1) c2.
Proof. revert x. induction c1 as [|[] c1 IH]; intros x; [done|apply IH]. Qed.

Lemma ptr_plug ctx t : ptr_of (plug ctx t) = top (ptr_of t) ctx.
Proof.
  revert t. induction ctx as [|[d c p k y] ctx IH]; intros t; [done|].
  cbn [top]. rewrite <- (ptr_mk d c t p k y). apply IH.
Qed.

Lemma cells_plug ctx q0 t :
  cells q0 (plug ctx t) ≡ₚ cells (up_of ctx q0) t ++ ccells (ptr_of t) ctx q0.
Proof.
  revert t. induction ctx as [|[d c p k y] ctx IH]; intros t; [cbn; now rewrite app_nil_r|].
  etransitivity; [apply (IH (mk d c t p k y))|]. rewrite cells_mk, ptr_mk. cbn [up_of ccells].
  solve_Permutation.
Qed.

(** The parent of a node that may be the sentinel. *)
Definition parent_set (sn : node) (t : tree) (w : ptr) (sn' : node) : Prop :=
  is_red (color sn') = is_red (color sn) /\ (t = E -> parent sn' = w).

Lemma wp_set_parent sn w t w' R (Q : unit -> rb_store -> Prop) st :
  owns (mem st) ((s, sn) :: cells w t ++ R) ->
  (forall st' sn', vars st' = vars st -> parent_set sn t w' sn' ->
     owns (mem st') ((s, sn') :: cells w' t ++ R) -> Q tt st') ->
  wp (store_at (set_parent w') (ptr_of t)) Q st.
Proof.
  intros O HQ. destruct t as [|c l p k r]; cbn [ptr_of cells app] in *; wp_step O; intros st' V O'.
  - apply (HQ st' (set_parent w' sn)); done.
  - apply (HQ st' sn); done.
Qed.

(** [clear] writes four fields of one cell. *)
Lemma wp_clear x nx R (Q : unit -> rb_store -> Prop) st :
  owns (mem st) ((x, nx) :: R) ->
  (forall st', vars st' = vars st ->
     owns (mem st') ((x, Node 0 None None None (color nx)) :: R) -> Q tt st') ->
  wp (clear (Some x)) Q st.
Proof. intros O HQ. unfold clear. wp_walk O. apply HQ; [congruence|done]. Qed.

(** A node with a missing child, not the root, gives its place to the other. *)
Lemma wp_unlink_one F q0 sn d f up c t x k (A : unit -> MR unit)
    (Q : unit -> rb_store -> Prop) st :
  at_ F q0 sn (f :: up) (mk d c E x k t) st ->
  (forall st' sn', at_ ((x, Node 0 None None None c) :: F) q0 sn' (f :: up) t st' ->
     parent_set sn t (up_of (f :: up) q0) sn' -> wp (A tt) Q st') ->
  wp (link L (Some x) (ptr_of t);;
      (p ← load parent (Some x); store_at (set_parent p) (ptr_of t));;
      clear (Some x);; A tt) Q st.
Proof.
  intros [O V] HQ. rewrite cells_mk, ptr_mk in *. cbn [cells ptr_of] in O.
  set (nx := mkn d k (Some s) (ptr_of t) (up_of (f :: up) q0) c) in *.
  assert (Pn : parent nx = up_of (f :: up) q0) by now destruct d.
  apply wp_bind, (wp_link L x nx sn (f :: up) q0 (cells (Some x) t ++ F)); [done|done|owned O|].
  intros st1 V1 O1. clear O.
  assert (O2 : owns (mem st1) ((x, nx) :: (s, sn) :: cells (Some x) t ++ ccells (ptr_of t) (f :: up) q0 ++ F))
    by owned O1.
  apply wp_bind. wp_step O2. rewrite Pn.
  apply (wp_set_parent sn (Some x) t _ ((x, nx) :: ccells (ptr_of t) (f :: up) q0 ++ F)); [owned O2|].
  intros st2 sn' V2 Hs' O3. clear O2 O1. apply wp_bind.
  apply (wp_clear x nx ((s, sn') :: cells (up_of (f :: up) q0) t ++ ccells (ptr_of t) (f :: up) q0 ++ F));
    [owned O3|]. intros st3 V3 O4. apply (HQ st3 sn'); [|done].
  replace (color nx) with c in O4 by now destruct d.
  split; [owned O4|]. rewrite V3, V2, V1, V. destruct f. done.
Qed.

(** The successor [q] leaves the place of its right child [rq] and takes that of
    the node [x], with its color. *)
Lemma wp_replace F q0 sn spine ctx c x k l cq q kq rq (Q : unit -> rb_store -> Prop) st :
  owns (mem st) ((q, Node kq (Some s) (ptr_of rq) (up_of spine (Some x)) cq)
    :: (s, sn) :: (x, Node k (ptr_of l) (top (ptr_of rq) spine) (up_of ctx q0) c)
    :: cells (Some q) rq ++ ccells (ptr_of rq) spine (Some x) ++ cells (Some x) l
    ++ ccells (Some x) ctx q0 ++ F) ->
  vars st = top (Some x) ctx ->
  (forall st' sn' nx, at_ ((x, nx) :: F) q0 sn' (spine ++ Frame R c q kq l :: ctx) rq st' ->
     color nx = c -> parent_set sn rq (up_of (spine ++ Frame R c q kq l :: ctx) q0) sn' -> Q tt st') ->
  wp (replace (Some s) (Some x) (Some q) (ptr_of rq)) Q st.
Proof.
  intros O V HQ. unfold replace. wp_step O. cbn [parent].
  set (nq := Node kq (Some s) (ptr_of rq) (up_of spine (Some x)) cq) in *.
  set (nx := Node k (ptr_of l) (top (ptr_of rq) spine) (up_of ctx q0) c) in *.
  set (rest := cells (Some x) l ++ ccells (Some x) ctx q0 ++ F).
  assert (First : forall P : unit -> rb_store -> Prop,
    (forall st1 sn' w, vars st1 = vars st -> parent_set sn rq (up_of spine (Some q)) sn' ->
       owns (mem st1) ((q, nq) :: (s, sn') :: (x, nx) :: cells w (plug spine rq) ++ rest) -> P tt st1) ->
    wp (if decide (up_of spine (Some x) = Some x) then store_at (set_parent (Some q)) (ptr_of rq)
        else p ← load parent (Some q); store_at (set_parent p) (ptr_of rq)) P st).
  { intros P HP. destruct spine as [|f spine].
    - cbn [up_of]. rewrite decide_True by done.
      apply (wp_set_parent sn (Some q) rq (Some q) ((q, nq) :: (x, nx) :: rest)); [unfold rest; owned O|].
      intros st1 sn' V1 Hs O1. apply (HP st1 sn' (Some q) V1 Hs). cbn [plug fold_left]. owned O1.
    - rewrite decide_False.
      + wp_step O. apply (wp_set_parent sn (Some q) rq _
          ((q, nq) :: (x, nx) :: ccells (ptr_of rq) (f :: spine) (Some x) ++ rest)); [unfold rest; owned O|].
        intros st1 sn' V1 Hs O1. apply (HP st1 sn' (Some x) V1); [destruct f; exact Hs|].
        rewrite cells_plug. cbn [nq parent] in O1. owned O1.
      + destruct f as [d' c' p' k' y']. cbn [up_of]. intros [= ->]. cbn [ccells app] in O.
        set (np := mkn d' k' (ptr_of rq) (ptr_of y') (up_of spine (Some x)) c') in *.
        refine (owns_fresh (mem st) x nx ((x, np) :: (q, nq) :: (s, sn) :: cells (Some q) rq
          ++ (cells (Some x) y' ++ ccells (Some x) spine (Some x)) ++ rest) x np _ _ eq_refl);
          [unfold rest; owned O|left]. }
  apply wp_bind, First. intros st1 sn' w V1 Hs O1. clear O First.
  subst nq nx. unfold ngx_rbt_copy_color. wp_walk O1.
  set (nx := Node k (ptr_of l) (top (ptr_of rq) spine) (up_of ctx q0) c) in *.
  set (nq := Node kq (ptr_of l) (top (ptr_of rq) spine) (up_of ctx q0) c).
  apply wp_bind, (wp_link_root L x nx sn' ctx q0 ((q, nq) :: cells w (plug spine rq) ++ cells (Some x) l ++ F));
    [done|congruence|unfold rest in O1; owned O1|]. intros st2 V2 O2. clear O1.
  apply wp_bind, (wp_reparent L q nq (Some x) (Some q) l sn'
    ((x, nx) :: cells w (plug spine rq) ++ ccells (Some q) ctx q0 ++ F)); [done|owned O2|].
  intros st3 V3 O3. clear O2.
  apply (wp_reparent R q nq w (Some q) (plug spine rq) sn'
    ((x, nx) :: cells (Some q) l ++ ccells (Some q) ctx q0 ++ F)); [symmetry; apply ptr_plug|owned O3|].
  intros st4 V4 O4. clear O3. rewrite cells_plug in O4.
  apply (HQ st4 sn' nx).
  - split.
    + rewrite up_of_app, ccells_app. cbn [up_of ccells mkn]. fold nq. owned O4.
    + rewrite top_ctx_app. cbn [top]. congruence.
  - done.
  - rewrite up_of_app. exact Hs.
Qed.

(** A node with two children gives its place to its successor. *)
Lemma wp_unlink_two F q0 sn spine ctx c l x k cq q kq rq (A : unit -> MR unit)
    (Q : unit -> rb_store -> Prop) st :
  at_ F q0 sn (spine ++ Frame R c x k l :: ctx) (T cq E q kq rq) st ->
  (forall st' sn', at_ ((x, Node 0 None None None c) :: F) q0 sn' (spine ++ Frame R c q kq l :: ctx) rq st' ->
     parent_set sn rq (up_of (spine ++ Frame R c q kq l :: ctx) q0) sn' -> wp (A tt) Q st') ->
  wp (link L (Some q) (ptr_of rq);;
      replace (Some s) (Some x) (Some q) (ptr_of rq);;
      clear (Some x);; A tt) Q st.
Proof.
  intros [O V] HQ. rewrite top_ctx_app in V. cbn [cells ptr_of top app] in O, V.
  set (ctx1 := spine ++ Frame R c x k l :: ctx) in *.
  assert (N : ctx1 <> []) by (unfold ctx1; now destruct spine).
  assert (Ep : up_of ctx1 q0 = up_of spine (Some x)) by apply up_of_app.
  set (nq := Node kq (Some s) (ptr_of rq) (up_of ctx1 q0) cq) in *.
  apply wp_bind, (wp_link L q nq sn ctx1 q0 (cells (Some q) rq ++ F)); [done|done|owned O|].
  intros st1 V1 O1. clear O. apply wp_bind.
  apply (wp_replace F q0 sn spine ctx c x k l cq q kq rq).
  - unfold ctx1 in O1. rewrite ccells_app in O1. cbn [ccells mkn up_of] in O1.
    subst nq. rewrite Ep in O1. fold ctx1 in O1. owned O1.
  - congruence.
  - intros st2 sn' nx A2 Hc Hs. apply wp_bind. destruct A2 as [O2 V2].
    apply (wp_clear x nx ((s, sn') :: cells (up_of (spine ++ Frame R c q kq l :: ctx) q0) rq
      ++ ccells (ptr_of rq) (spine ++ Frame R c q kq l :: ctx) q0 ++ F)); [owned O2|].
    intros st3 V3 O3. apply (HQ st3 sn'); [|done]. rewrite Hc in O3. split; [owned O3|congruence].
Qed.

(** ** Deletion: the fixup *)

(** The node that took the place of the removed one, or the sentinel, knows its
    parent. *)
Definition knows (sn : node) (t : tree) (w : ptr) : Prop := t = E -> parent sn = w.

Lemma wp_temp_parent F q0 sn f up t (Q : ptr -> rb_store -> Prop) st :
  at_ F q0 sn (f :: up) t st -> knows sn t (up_of (f :: up) q0) ->
  Q (up_of (f :: up) q0) st -> wp (load parent (ptr_of t)) Q st.
Proof.
  intros A K HQ. destruct t as [|c l p k r].
  - apply (wp_load_at _ _ _ _ _ (at_sentinel _ _ _ _ _ _ A)). now rewrite (K eq_refl).
  - now apply (wp_load_at _ _ _ _ _ (at_node _ _ _ _ _ _ _ _ _ _ A)).
Qed.

Lemma wp_color F q0 sn ctx d c x p k y c' (Q : unit -> rb_store -> Prop) st :
  at_ F q0 sn ctx (mk d c x p k y) st ->
  (forall st', at_ F q0 sn ctx (mk d c' x p k y) st' -> Q tt st') ->
  wp (store_at (set_color c') (Some p)) Q st.
Proof.
  intros [O V] HQ. destruct d; cbn in O, V |- *; wp_step O; intros st' V' O'; apply HQ;
    (split; [exact O'|cbn; congruence]).
Qed.

Lemma at_swap F q0 sn d c p k y up x st :
  at_ F q0 sn (Frame d c p k y :: up) x st <-> at_ F q0 sn (Frame (opp d) c p k x :: up) y st.
Proof. rewrite !at_zip. now destruct d. Qed.

Lemma wp_color_parent F q0 sn d c x p k y up c' (Q : unit -> rb_store -> Prop) st :
  at_ F q0 sn (Frame d c p k y :: up) x st ->
  (forall st', at_ F q0 sn (Frame d c' p k y :: up) x st' -> Q tt st') ->
  wp (store_at (set_color c') (Some p)) Q st.
Proof.
  rewrite at_zip. intros A HQ. apply (wp_color _ _ _ _ _ _ _ _ _ _ _ _ _ A).
  intros st' A'. apply HQ. now rewrite at_zip.
Qed.

Lemma wp_color_sibling F q0 sn d c x p k d' cw a w kw b up c' (Q : unit -> rb_store -> Prop) st :
  at_ F q0 sn (Frame d c p k (mk d' cw a w kw b) :: up) x st ->
  (forall st', at_ F q0 sn (Frame d c p k (mk d' c' a w kw b) :: up) x st' -> Q tt st') ->
  wp (store_at (set_color c') (Some w)) Q st.
Proof.
  rewrite at_swap. intros A HQ. apply (wp_color _ _ _ _ _ _ _ _ _ _ _ _ _ A).
  intros st' A'. apply HQ. now rewrite at_swap.
Qed.

(** The sibling is red: a rotation gives [temp] a black one. *)
Lemma wp_fixup_red F q0 sn d cp p kp cw b w kw e up t (Q : ptr -> rb_store -> Prop) st :
  at_ F q0 sn (Frame d cp p kp (mk d cw b w kw e) :: up) t st -> knows sn t (Some p) ->
  (forall st', at_ F q0 sn (Frame d 1 p kp b :: Frame d 0 w kw e :: up) t st' -> Q (ptr_of b) st') ->
  wp (ngx_rbt_black (Some w);;
      p ← load parent (ptr_of t); ngx_rbt_red p;;
      p ← load parent (ptr_of t); rotate d (Some s) p;;
      p ← load parent (ptr_of t); load (child (opp d)) p) Q st.
Proof.
  intros A K HQ. unfold ngx_rbt_black, ngx_rbt_red.
  apply wp_bind, (wp_color_sibling _ _ _ _ _ _ _ _ _ _ _ _ _ _ _ 0 _ _ A). clear A. intros st1 A.
  apply wp_bind, (wp_temp_parent _ _ _ _ _ _ _ _ A K).
  apply wp_bind, (wp_color_parent _ _ _ _ _ _ _ _ _ _ 1 _ _ A). clear A. intros st2 A.
  apply wp_bind, (wp_temp_parent _ _ _ _ _ _ _ _ A K). rewrite at_zip in A.
  apply wp_bind, (wp_rotate _ _ _ _ _ _ _ _ _ _ _ _ _ _ _ _ A). clear A. intros st3 A.
  rewrite <- !at_zip in A. apply wp_bind, (wp_temp_parent _ _ _ _ _ _ _ _ A K).
  apply (wp_load_at _ _ _ _ _ (at_frame _ _ _ _ _ _ _ _ _ _ _ A)).
  replace (child (opp d) _) with (ptr_of b) by now destruct d. now apply HQ.
Qed.

(** The sibling is black and its far child red: one rotation ends the fixup. *)
Lemma wp_fixup_far F q0 sn d cp p kp cw a w kw cf fl f kf fr up t (Q : ptr -> rb_store -> Prop) st :
  at_ F q0 sn (Frame d cp p kp (mk d cw a w kw (T cf fl f kf fr)) :: up) t st -> knows sn t (Some p) ->
  (forall st', at_ F q0 sn up (mk d cp (mk d 0 t p kp a) w kw (T 0 fl f kf fr)) st' -> Q (vars st') st') ->
  wp (p ← load parent (ptr_of t); ngx_rbt_copy_color (Some w) p;;
      p ← load parent (ptr_of t); ngx_rbt_black p;;
      far ← load (child (opp d)) (Some w); ngx_rbt_black far;;
      p ← load parent (ptr_of t); rotate d (Some s) p;;
      get_root) Q st.
Proof.
  intros A K HQ. unfold ngx_rbt_black, ngx_rbt_copy_color, get_root.
  apply wp_bind, (wp_temp_parent _ _ _ _ _ _ _ _ A K). cbn [up_of].
  apply wp_bind, wp_bind, (wp_load_at _ _ _ _ _ (at_frame _ _ _ _ _ _ _ _ _ _ _ A)).
  replace (color _) with cp by now destruct d.
  apply (wp_color_sibling _ _ _ _ _ _ _ _ _ _ _ _ _ _ _ cp _ _ A). clear A. intros st1 A.
  apply wp_bind, (wp_temp_parent _ _ _ _ _ _ _ _ A K).
  apply wp_bind, (wp_color_parent _ _ _ _ _ _ _ _ _ _ 0 _ _ A). clear A. intros st2 A.
  rewrite at_swap in A. rewrite <- (at_zip F q0 sn d) in A.
  apply wp_bind, (wp_load_at _ _ _ _ _ (at_frame _ _ _ _ _ _ _ _ _ _ _ A)).
  replace (child (opp d) _) with (ptr_of (T cf fl f kf fr)) by now destruct d.
  rewrite at_swap in A.
  apply wp_bind, (wp_color _ _ _ _ L _ _ _ _ _ 0 _ _ A). clear A. intros st3 A.
  rewrite at_swap, at_zip in A. replace (opp (opp d)) with d in A by now destruct d.
  rewrite at_swap in A. replace (opp (opp d)) with d in A by now destruct d.
  apply wp_bind, (wp_temp_parent _ _ _ _ _ _ _ _ A K). rewrite at_zip in A.
  apply wp_bind, (wp_rotate _ _ _ _ _ _ _ _ _ _ _ _ _ _ _ _ A). clear A. intros st4 A.
  apply wp_get. now apply HQ.
Qed.

Lemma mk_opp d c x p k y : mk (opp d) c x p k y = mk d c y p k x.
Proof. now destruct d. Qed.

Lemma opp_opp d : opp (opp d) = d.
Proof. now destruct d. Qed.

(** The sibling is black and its near child red: a rotation of the sibling. *)
Lemma wp_fixup_near F q0 sn d cp p kp cw cn m1 n kn m2 w kw far up t (Q : ptr -> rb_store -> Prop) st :
  at_ F q0 sn (Frame d cp p kp (mk d cw (mk d cn m1 n kn m2) w kw far) :: up) t st ->
  knows sn t (Some p) ->
  (forall st', at_ F q0 sn (Frame d cp p kp (mk d 0 m1 n kn (mk d 1 m2 w kw far)) :: up) t st' ->
     Q (Some n) st') ->
  wp (near ← load (child d) (Some w); ngx_rbt_black near;;
      ngx_rbt_red (Some w);;
      rotate (opp d) (Some s) (Some w);;
      p ← load parent (ptr_of t); load (child (opp d)) p) Q st.
Proof.
  intros A K HQ. unfold ngx_rbt_black, ngx_rbt_red. rewrite at_swap in A.
  rewrite <- (at_zip F q0 sn d) in A.
  apply wp_bind, (wp_load_at _ _ _ _ _ (at_frame _ _ _ _ _ _ _ _ _ _ _ A)).
  replace (child d _) with (Some n) by now destruct d.
  apply wp_bind, (wp_color _ _ _ _ _ _ _ _ _ _ 0 _ _ A). clear A. intros st1 A. rewrite at_zip in A.
  apply wp_bind, (wp_color _ _ _ _ _ _ _ _ _ _ 1 _ _ A). clear A. intros st2 A.
  rewrite <- (mk_opp d 1), <- (mk_opp d 0) in A.
  apply wp_bind, (wp_rotate _ _ _ _ _ _ _ _ _ _ _ _ _ _ _ _ A). clear A. intros st3 A.
  rewrite !mk_opp, at_swap, opp_opp in A.
  apply wp_bind, (wp_temp_parent _ _ _ _ _ _ _ _ A K). cbn [up_of].
  apply (wp_load_at _ _ _ _ _ (at_frame _ _ _ _ _ _ _ _ _ _ _ A)).
  replace (child (opp d) _) with (Some n) by now destruct d. now apply HQ.
Qed.

Lemma wp_is_black F q0 sn ctx t (Q : bool -> rb_store -> Prop) st :
  at_ F q0 sn ctx t st -> is_red (color sn) = false ->
  Q (negb (color_of t)) st -> wp (ngx_rbt_is_black (ptr_of t)) Q st.
Proof.
  intros A Hs HQ. unfold ngx_rbt_is_black. apply wp_bind. destruct t as [|c l p k r].
  - apply (wp_load_at _ _ _ _ _ (at_sentinel _ _ _ _ _ _ A)). apply wp_ret. now rewrite Hs.
  - apply (wp_load_at _ _ _ _ _ (at_node _ _ _ _ _ _ _ _ _ _ A)). now apply wp_ret.
Qed.

(** The sibling [w] and its children, seen from [temp]. *)
Lemma at_nephews F q0 sn d cp p kp cw a w kw b up t st :
  at_ F q0 sn (Frame d cp p kp (mk d cw a w kw b) :: up) t st ->
  mem st !! w = Some (mkn d kw (ptr_of a) (ptr_of b) (Some p) cw)
  /\ at_ F q0 sn (Frame d cw w kw b :: Frame (opp d) cp p kp t :: up) a st
  /\ at_ F q0 sn (Frame (opp d) cw w kw a :: Frame (opp d) cp p kp t :: up) b st.
Proof.
  intros A. rewrite at_swap in A. rewrite <- (at_zip F q0 sn d) in A.
  split; [exact (at_frame _ _ _ _ _ _ _ _ _ _ _ A)|]. split; [exact A|]. now rewrite at_swap in A.
Qed.

Lemma rbt_red_node d x bx n : rbt x bx n -> color_of x = true ->
  exists c l p k r, x = mk d c l p k r /\ is_red c = true /\ rbt l false n /\ rbt r false n.
Proof.
  intros Rx Hc. destruct x as [|c l p k r]; [done|]. cbn in Hc. inversion Rx; subst; [|congruence].
  destruct d; [exists c, l, p, k, r|exists c, r, p, k, l]; done.
Qed.

(** Both children of the sibling are black. *)
Lemma wp_both F q0 sn d cp p kp cw a w kw b up t (Q : bool -> rb_store -> Prop) st :
  at_ F q0 sn (Frame d cp p kp (mk d cw a w kw b) :: up) t st -> is_red (color sn) = false ->
  Q (negb (color_of a) && negb (color_of b))%bool st ->
  wp (l ← load left (Some w);
      bl ← ngx_rbt_is_black l;
      if (bl : bool) then r ← load right (Some w); ngx_rbt_is_black r else mret false) Q st.
Proof.
  intros A Hs HQ. destruct (at_nephews _ _ _ _ _ _ _ _ _ _ _ _ _ _ _ A) as (En & Aa & Ab).
  apply wp_bind, (wp_load_at _ _ _ _ _ En). destruct d; cbn [mkn left right].
  - apply wp_bind, (wp_is_black _ _ _ _ _ _ _ Aa Hs). destruct (color_of a); cbn [negb andb] in *.
    + now apply wp_ret.
    + apply wp_bind, (wp_load_at _ _ _ _ _ En), (wp_is_black _ _ _ _ _ _ _ Ab Hs), HQ.
  - apply wp_bind, (wp_is_black _ _ _ _ _ _ _ Ab Hs). rewrite andb_comm in HQ.
    destruct (color_of b); cbn [negb andb] in *.
    + now apply wp_ret.
    + apply wp_bind, (wp_load_at _ _ _ _ _ En), (wp_is_black _ _ _ _ _ _ _ Aa Hs), HQ.
Qed.

(** The place of a tree whose root is [c] over [n] black nodes: red over [n], or
    black. *)
Definition fits (c : Z) (n : nat) (u : tree) : Prop :=
  if is_red c then rbt u true n else rbt u false (S n).

Lemma fits_mk d c x p k y n : rbt x false n -> rbt y false n -> fits c n (mk d c x p k y).
Proof.
  intros Rx Ry. unfold fits. destruct (is_red c) eqn:Hc; [now apply rbt_mk_red|].
  now apply (rbt_mk_black _ _ _ _ _ _ false false).
Qed.

Lemma rbt_blacken_red c l p k r n : rbt (T c l p k r) true n -> rbt (T 0 l p k r) false (S n).
Proof. inversion 1; subst. now apply (rbt_black 0 _ _ _ _ false false). Qed.

(** The rest of a turn when the sibling is black. *)
Lemma wp_fixup_black F q0 sn d cp p kp cw a w kw b up t n ba bb (Q : ptr -> rb_store -> Prop) st :
  at_ F q0 sn (Frame d cp p kp (mk d cw a w kw b) :: up) t st -> knows sn t (Some p) ->
  is_red (color sn) = false -> is_red cw = false ->
  rbt t false n -> rbt a ba n -> rbt b bb n ->
  (forall st', at_ F q0 sn up (mk d cp t p kp (mk d 1 a w kw b)) st' -> ba = false -> bb = false ->
     Q (Some p) st') ->
  (forall st' u, at_ F q0 sn up u st' -> fits cp (S n) u ->
     elements u = elements (mk d cp t p kp (mk d cw a w kw b)) -> Q (vars st') st') ->
  wp (both ← (l ← load left (Some w);
      bl ← ngx_rbt_is_black l;
      if (bl : bool) then r ← load right (Some w); ngx_rbt_is_black r else mret false);
      if (both : bool) then ngx_rbt_red (Some w);; load parent (ptr_of t)
      else
        far ← load (child (opp d)) (Some w);
        bf ← ngx_rbt_is_black far;
        w ← (if (bf : bool) then
               near ← load (child d) (Some w); ngx_rbt_black near;;
               ngx_rbt_red (Some w);;
               rotate (opp d) (Some s) (Some w);;
               p ← load parent (ptr_of t); load (child (opp d)) p
             else mret (Some w));
        p ← load parent (ptr_of t); ngx_rbt_copy_color w p;;
        p ← load parent (ptr_of t); ngx_rbt_black p;;
        far ← load (child (opp d)) w; ngx_rbt_black far;;
        p ← load parent (ptr_of t); rotate d (Some s) p;;
        get_root) Q st.
Proof.
  intros A K Hs Hw Rt Ra Rb HQ1 HQ2. apply wp_bind, (wp_both _ _ _ _ _ _ _ _ _ _ _ _ _ _ _ _ A Hs).
  rewrite (rbt_color _ _ _ Ra), (rbt_color _ _ _ Rb).
  destruct (negb ba && negb bb)%bool eqn:Hboth.
  - unfold ngx_rbt_red. apply wp_bind, (wp_color_sibling _ _ _ _ _ _ _ _ _ _ _ _ _ _ _ 1 _ _ A).
    intros st1 A1. apply (wp_temp_parent _ _ _ _ _ _ _ _ A1 K). cbn [up_of]. rewrite at_zip in A1.
    destruct ba, bb; try discriminate. now apply HQ1.
  - destruct (at_nephews _ _ _ _ _ _ _ _ _ _ _ _ _ _ _ A) as (En & Aa & Ab).
    apply wp_bind, (wp_load_at _ _ _ _ _ En).
    replace (child (opp d) _) with (ptr_of b) by now destruct d.
    apply wp_bind, (wp_is_black _ _ _ _ _ _ _ Ab Hs). rewrite (rbt_color _ _ _ Rb). apply wp_bind.
    destruct bb; cbn [negb].
    + apply wp_ret. destruct (rbt_red_node L _ _ _ Rb (rbt_color _ _ _ Rb)) as (cf & fl & f & kf & fr & -> & Hf & Rl & Rr).
      apply (wp_fixup_far _ _ _ _ _ _ _ _ _ _ _ _ _ _ _ _ _ _ _ _ A K). intros st2 A2. apply (HQ2 _ _ A2).
      * destruct ba.
        -- apply fits_mk; [now apply (rbt_mk_black _ _ _ _ _ _ false true)|now apply (rbt_black 0 _ _ _ _ false false)].
        -- apply fits_mk; [now apply (rbt_mk_black _ _ _ _ _ _ false false)|now apply (rbt_black 0 _ _ _ _ false false)].
      * destruct d; in_order.
    + destruct ba; [|discriminate].
      destruct (rbt_red_node d _ _ _ Ra (rbt_color _ _ _ Ra)) as (cn & m1 & m & km & m2 & -> & Hm & R1 & R2).
      apply (wp_fixup_near _ _ _ _ _ _ _ _ _ _ _ _ _ _ _ _ _ _ _ _ A K). intros st2 A2.
      assert (Em : mk d 1 m2 w kw b = T 1 (if d is L then m2 else b) w kw (if d is L then b else m2)) by now destruct d.
      rewrite Em in A2.
      apply (wp_fixup_far _ _ _ _ _ _ _ _ _ _ _ _ _ _ _ _ _ _ _ _ A2 K). intros st3 A3. apply (HQ2 _ _ A3).
      * apply fits_mk; [now apply (rbt_mk_black _ _ _ _ _ _ false false)|].
        destruct d; now apply (rbt_black 0 _ _ _ _ false false).
      * destruct d; in_order.
Qed.

(** One turn.  [temp] moves to its parent, whose tree is one black node short;
    or the tree is whole and [temp] is the root; or, after the rotation of a red
    sibling, [temp] is a red node to be blackened. *)
Lemma wp_fixup_step F q0 sn d cp p kp y up t n b_y (Q : ptr -> rb_store -> Prop) st :
  at_ F q0 sn (Frame d cp p kp y :: up) t st -> knows sn t (Some p) ->
  is_red (color sn) = false -> rbt t false n -> rbt y b_y (S n) -> (is_red cp = true -> b_y = false) ->
  (forall st' w, at_ F q0 sn up (mk d cp t p kp w) st' -> rbt w true n -> elements w = elements y ->
     Q (Some p) st') ->
  (forall st' u, at_ F q0 sn up u st' -> fits cp (S n) u ->
     elements u = elements (mk d cp t p kp y) -> Q (vars st') st') ->
  (forall st' c l r f, at_ F q0 sn (f :: up) (T c l p kp r) st' -> is_red c = true ->
     fits cp (S n) (plug1 f (T 0 l p kp r)) ->
     elements (plug1 f (T 0 l p kp r)) = elements (mk d cp t p kp y) -> Q (Some p) st') ->
  wp (fixup_step d (Some s) (ptr_of t)) Q st.
Proof.
  intros A K Hs Rt Ry Hcp H1 H2 H3. unfold fixup_step.
  apply wp_bind, (wp_temp_parent _ _ _ _ _ _ _ _ A K). cbn [up_of].
  apply wp_bind, (wp_load_at _ _ _ _ _ (at_frame _ _ _ _ _ _ _ _ _ _ _ A)).
  replace (child (opp d) _) with (ptr_of y) by now destruct d.
  assert (exists cw a w kw b, y = mk d cw a w kw b) as (cw & a & w & kw & b & ->).
  { destruct y as [|cw l w kw r]; [inversion Ry|]. destruct d; eexists cw, _, w, kw, _; reflexivity. }
  rewrite ptr_mk. unfold ngx_rbt_is_red. apply wp_bind, wp_bind.
  apply (wp_load_at _ _ _ _ _ (proj1 (at_nephews _ _ _ _ _ _ _ _ _ _ _ _ _ _ _ A))).
  replace (color _) with cw by now destruct d. apply wp_ret, wp_bind.
  destruct (rbt_mk_inv _ _ _ _ _ _ _ _ Ry) as [(Hw & -> & Ra & Rb)|(Hw & -> & n' & ba & bb & [= <-] & Ra & Rb)];
    rewrite Hw.
  - assert (Hc : is_red cp = false) by (destruct (is_red cp); [now specialize (Hcp eq_refl)|done]).
    apply (wp_fixup_red _ _ _ _ _ _ _ _ _ _ _ _ _ _ _ _ A K). intros st1 A1.
    assert (exists c' a' w' kw' b', a = mk d c' a' w' kw' b') as (c' & a' & w' & kw' & b' & ->).
    { destruct a as [|cw' l w' kw' r]; [inversion Ra|]. destruct d; eexists cw', _, w', kw', _; reflexivity. }
    destruct (rbt_mk_inv _ _ _ _ _ _ _ _ Ra) as [(_ & [=] & _)|(Hw' & _ & n' & ba & bb & [= <-] & Ra' & Rb')].
    rewrite ptr_mk. assert (F0 : forall u, rbt u (is_red 0) (S n) \/ rbt u true (S n) ->
      fits cp (S n) (plug1 (Frame d 0 w kw b) u)).
    { intros u Hu. unfold fits. rewrite Hc. cbn [plug1].
      destruct Hu; eapply rbt_mk_black; first [reflexivity|eassumption]. }
    apply (wp_fixup_black _ _ _ _ _ _ _ _ _ _ _ _ _ _ _ _ _ _ _ A1 K Hs Hw' Rt Ra' Rb').
    + intros st2 A2 -> ->. destruct d; cbn [mk] in A2; eapply H3; try exact A2; try reflexivity.
      * apply F0. left. apply (rbt_black 0 _ _ _ _ false true); [done|done|now apply rbt_red].
      * in_order.
      * apply F0. left. apply (rbt_black 0 _ _ _ _ true false); [done|now apply rbt_red|done].
      * in_order.
    + intros st2 u A2 Fu Eu. rewrite at_zip in A2. apply (H2 _ _ A2).
      * apply F0. right. exact Fu.
      * rewrite (elements_mk d 0 _ _ w kw _ _ Eu (eq_refl (elements b))). destruct d; in_order.
  - apply wp_ret. apply (wp_fixup_black _ _ _ _ _ _ _ _ _ _ _ _ _ _ _ _ _ _ _ A K Hs Hw Rt Ra Rb).
    + intros st2 A2 -> ->. apply (H1 _ _ A2); [now apply rbt_mk_red|now apply elements_mk_color].
    + exact H2.
Qed.

Lemma wp_fixup_end F q0 sn ctx c l p k r fuel (Q : unit -> rb_store -> Prop) st :
  at_ F q0 sn ctx (T c l p k r) st -> (ctx <> [] -> is_red c = true) ->
  (forall st', at_ F q0 sn ctx (T 0 l p k r) st' -> Q tt st') ->
  wp (fixup (S fuel) (Some s) (Some p)) Q st.
Proof.
  intros A Hc HQ. cbn [fixup]. unfold get_root, ngx_rbt_black. wp_step A.
  destruct ctx as [|f up].
  - rewrite decide_True by (now rewrite (proj2 A)). exact (wp_color _ _ _ _ L _ _ _ _ _ 0 _ _ A HQ).
  - rewrite decide_False by (apply not_eq_sym, (at_not_root _ _ _ _ _ _ _ _ _ _ _ A)).
    unfold ngx_rbt_is_black. apply wp_bind, wp_bind, (wp_load_at _ _ _ _ _ (at_node _ _ _ _ _ _ _ _ _ _ A)).
    apply wp_ret. cbn [color]. rewrite Hc by done.
    exact (wp_color _ _ _ _ L _ _ _ _ _ 0 _ _ A HQ).
Qed.

Lemma plug_fits d cp p kp y up pr n u : rbc (Frame d cp p kp y :: up) pr n -> fits cp n u ->
  exists m, rbt (plug up u) false m.
Proof.
  intros C Fu. unfold fits in Fu. inversion C as [|d0 c0 p0 k0 t0 f up0 n0 Hc Ry C'|d0 c0 p0 k0 t0 bt up0 pr0 n0 Hc Ry C'];
    subst; rewrite Hc in Fu.
  - destruct (plug_rbt _ _ _ _ _ C' Fu) as (b' & m & R & H); [done|]. rewrite H in R by now left. eauto.
  - destruct (plug_rbt _ _ _ _ _ C' Fu) as (b' & m & R & H); [done|]. rewrite H in R by now right. eauto.
Qed.

Lemma plug_black d cp p kp y up pr n u : rbc (Frame d cp p kp y :: up) pr n -> is_red cp = true ->
  rbt u false n -> exists m, rbt (plug up u) false m.
Proof.
  intros C Hc Ru. inversion C as [|d0 c0 p0 k0 t0 f up0 n0 Hc' Ry C'|]; subst; [|congruence].
  destruct (plug_rbt _ _ _ _ _ C' Ru) as (b' & m & R & H); [done|]. rewrite H in R by now left. eauto.
Qed.

(** The whole tree when [temp] is the root. *)
Lemma wp_fixup_root F q0 sn up u fuel m (Q : unit -> rb_store -> Prop) st :
  at_ F q0 sn up u st -> elements u <> [] -> rbt (plug up u) false m ->
  (forall st' t' m', at_ F q0 sn [] t' st' -> rbt t' false m' -> elements t' = elements (plug up u) ->
     Q tt st') ->
  wp (fixup (S fuel) (Some s) (vars st)) Q st.
Proof.
  intros A Ne Ru HQ. rewrite at_plug in A. rewrite (proj2 A). cbn [top].
  destruct (plug up u) as [|c l p k r] eqn:Ep.
  - apply (f_equal elements) in Ep. rewrite elements_split in Ep. apply app_eq_nil in Ep as [_ Ep].
    apply app_eq_nil in Ep as [Ep _]. done.
  - apply (wp_fixup_end _ _ _ _ _ _ _ _ _ _ _ _ A); [done|]. intros st' A'.
    destruct (rbt_blacken _ _ _ Ru) as [m' Rb]. now apply (HQ st' (T 0 l p k r) m').
Qed.

(** [fixup] makes a red-black tree of one that is a black node short at [temp]. *)
Lemma wp_fixup F q0 sn fuel : is_red (color sn) = false ->
  forall ctx pr n b t (Q : unit -> rb_store -> Prop) st,
  at_ F q0 sn ctx t st -> rbc ctx pr (S n) -> rbt t b n ->
  (ctx = [] -> t <> E) -> (ctx <> [] -> knows sn t (up_of ctx q0)) -> (length ctx + 1 < fuel)%nat ->
  (forall st' t' m, at_ F q0 sn [] t' st' -> rbt t' false m -> elements t' = elements (plug ctx t) ->
     Q tt st') ->
  wp (fixup fuel (Some s) (ptr_of t)) Q st.
Proof.
  intros Hs. induction fuel as [|fuel IH]; intros ctx pr n b t Q st A C Rt Ne K Hf HQ; [lia|].
  destruct ctx as [|[d cp p kp y] up].
  { destruct t as [|c l q k r]; [now destruct Ne|]. apply (wp_fixup_end _ _ _ _ _ _ _ _ _ _ _ _ A); [done|].
    intros st' A'. destruct (rbt_blacken _ _ _ Rt) as [m Rb]. now apply (HQ st' (T 0 l q k r) m). }
  destruct b.
  { destruct t as [|c l q k r]; [inversion Rt|].
    apply (wp_fixup_end _ _ _ _ _ _ _ _ _ _ _ _ A); [intros _; now inversion Rt|]. intros st' A'.
    destruct (plug_rbt _ _ _ _ _ C (rbt_blacken_red _ _ _ _ _ _ Rt)) as (b' & m & Rp & H); [done|].
    rewrite H in Rp by now left. rewrite at_plug in A'. apply (HQ _ _ m A' Rp). now apply elements_plug. }
  assert (Ry : exists b_y, rbt y b_y (S n) /\ (is_red cp = true -> b_y = false))
    by (inversion C; subst; eexists; split; eauto; congruence).
  destruct Ry as (b_y & Ry & Hy). specialize (K ltac:(done)). cbn [up_of] in K.
  cbn [fixup]. unfold get_root. wp_step A. rewrite decide_False.
  2:{ intros Er. destruct t as [|c l q k r]; [|symmetry in Er; exact (at_not_root _ _ _ _ _ _ _ _ _ _ _ A Er)].
      rewrite (proj2 A) in Er. symmetry in Er. revert Er. cbn [ptr_of].
      apply (top_ne (mem st) s sn _ q0 _ F); [done|]. destruct A as [O _]. exact O. }
  apply wp_bind, (wp_is_black _ _ _ _ _ _ _ A Hs). rewrite (rbt_color _ _ _ Rt).
  apply wp_bind, (wp_temp_parent _ _ _ _ _ _ _ _ A K). cbn [up_of].
  apply wp_bind, (wp_load_at _ _ _ _ _ (at_frame _ _ _ _ _ _ _ _ _ _ _ A)). apply wp_bind.
  enough (St : wp (fixup_step d (Some s) (ptr_of t)) (fun temp => wp (fixup fuel (Some s) temp) Q) st).
  { destruct d; cbn [mkn left]; [now rewrite decide_True by done|]. rewrite decide_False; [exact St|].
    assert (A' := A). rewrite at_swap in A'. destruct y as [|cy ly w kw ry]; [inversion Ry|].
    intros Et. exact (at_sibling _ _ _ _ _ _ _ _ _ _ _ _ _ _ _ A' Et). }
  destruct fuel as [|fuel]; [cbn in Hf; lia|].
  apply (wp_fixup_step _ _ _ _ _ _ _ _ _ _ _ _ _ _ A K Hs Rt Ry Hy).
  - intros st1 w A1 Rw Ew. assert (Eu : elements (mk d cp t p kp w) = elements (mk d cp t p kp y))
      by now apply elements_mk.
    destruct (is_red cp) eqn:Hc.
    + assert (Et : mk d cp t p kp w = T cp (if d is L then t else w) p kp (if d is L then w else t)) by now destruct d.
      rewrite Et in A1. apply (wp_fixup_end _ _ _ _ _ _ _ _ _ _ _ _ A1); [done|]. intros st2 A2.
      assert (Rm : exists m, rbt (plug up (mk d 0 t p kp w)) false m)
        by (eapply (plug_black _ _ _ _ _ _ _ _ _ C Hc), rbt_mk_black; first [reflexivity|eassumption]).
      destruct Rm as [m Rm]. replace (T 0 _ p kp _) with (mk d 0 t p kp w) in A2 by now destruct d.
      rewrite at_plug in A2. apply (HQ _ _ m A2 Rm). apply (elements_plug up).
      etransitivity; [apply elements_mk_color|exact Eu].
    + inversion C as [|d0 c0 p0 k0 t0 f up0 n0 Hc' Ry' C'|d0 c0 p0 k0 t0 bt up0 pr0 n0 Hc' Ry' C']; subst; [congruence|].
      rewrite <- (ptr_mk d cp t p kp w). apply (IH up pr0 (S n) false (mk d cp t p kp w) Q st1 A1 C').
      * now apply (rbt_mk_black _ _ _ _ _ _ false true).
      * now destruct d.
      * intros _ Et. now destruct d.
      * cbn in Hf. lia.
      * intros st2 t' m A2 R2 E2. apply (HQ _ _ m A2 R2). rewrite E2. exact (elements_plug up _ _ Eu).
  - intros st1 u A1 Fu Eu. destruct (plug_fits _ _ _ _ _ _ _ _ _ C Fu) as [m Rp].
    apply (wp_fixup_root F q0 sn up u fuel m Q st1 A1); [rewrite Eu; destruct d; cbn; by intros [_ [=]]%app_eq_nil|exact Rp|].
    intros st2 t' m' A2 R2 E2. apply (HQ _ _ _ A2 R2). rewrite E2. exact (elements_plug up _ _ Eu).
  - intros st1 c l r f A1 Hc Fu Eu. destruct (plug_fits _ _ _ _ _ _ _ _ _ C Fu) as [m Rp].
    apply (wp_fixup_end _ _ _ _ _ _ _ _ _ _ _ _ A1); [done|]. intros st2 A2.
    rewrite at_plug in A2. apply (HQ _ _ _ A2 Rp). exact (elements_plug up _ _ Eu).
Qed.

(** ** Deletion *)

Lemma rbt_plug_mono ctx : forall t t' b m, (forall b n, rbt t b n -> rbt t' b n) ->
  rbt (plug ctx t) b m -> rbt (plug ctx t') b m.
Proof.
  induction ctx as [|[d c p k y] ctx IH]; intros t t' b m H; [apply H|].
  apply (IH (mk d c t p k y) (mk d c t' p k y)). intros b' n' R.
  destruct (rbt_mk_inv _ _ _ _ _ _ _ _ R) as [(Hc & -> & Rx & Ry)|(Hc & -> & n0 & bx & b_y & -> & Rx & Ry)].
  - apply rbt_mk_red; auto.
  - eapply rbt_mk_black; eauto.
Qed.

Lemma rbt_rename spine d c p k p' k' y ctx t b m :
  rbt (plug (spine ++ Frame d c p k y :: ctx) t) b m ->
  rbt (plug (spine ++ Frame d c p' k' y :: ctx) t) b m.
Proof.
  rewrite !plug_app.
  apply (rbt_plug_mono ctx (mk d c (plug spine t) p k y) (mk d c (plug spine t) p' k' y)). intros b' n' R.
  destruct (rbt_mk_inv _ _ _ _ _ _ _ _ R) as [(Hc & -> & Rx & Ry)|(Hc & -> & n0 & bx & b_y & -> & Rx & Ry)].
  - now apply rbt_mk_red.
  - now apply (rbt_mk_black _ _ _ _ _ _ bx b_y).
Qed.

(** Once a node with one child [t] is unlinked, the colors are mended. *)
Lemma wp_mend F q0 sn sn' ctx d c x k t m fuel (Q : unit -> rb_store -> Prop) st :
  at_ F q0 sn' ctx t st -> ctx <> [] -> parent_set sn t (up_of ctx q0) sn' ->
  is_red (color sn) = false -> rbt (plug ctx (mk d c E x k t)) false m ->
  (length (elements (plug ctx t)) + 1 < fuel)%nat ->
  (forall st' sn' t' m, at_ F q0 sn' [] t' st' -> is_red (color sn') = false -> rbt t' false m ->
     elements t' = elements (plug ctx t) -> Q tt st') ->
  wp (if is_red c then mret tt else fixup fuel (Some s) (ptr_of t)) Q st.
Proof.
  intros A Nc [Hs' K] Hs R Hf HQ. rewrite Hs in Hs'.
  destruct (unplug_rbt _ _ _ R) as (pr & n & b & C & Rm & _).
  pose proof (length_ctx ctx t) as Hl.
  destruct (rbt_mk_inv _ _ _ _ _ _ _ _ Rm) as [(Hc & -> & Rx & Ry)|(Hc & -> & n0 & bx & b_y & -> & Rx & Ry)];
    rewrite Hc.
  - apply wp_ret. destruct (plug_rbt _ _ _ _ _ C Ry) as (b' & m' & Rp & H); [done|].
    rewrite H in Rp by now left. apply (HQ st sn' (plug ctx t) m'); [exact (proj1 (at_plug _ _ _ _ _ _) A)|done..].
  - inversion Rx; subst. apply (wp_fixup F q0 sn' fuel Hs' ctx pr 0%nat b_y t Q st A C Ry).
    + intros ->. done.
    + intros _. exact K.
    + lia.
    + intros st' t' m' A' R' E'. now apply (HQ st' sn' t' m').
Qed.

Lemma wp_delete_root F q0 sn d c x k t b n (Q : unit -> rb_store -> Prop) st :
  at_ F q0 sn [] (mk d c E x k t) st -> is_red (color sn) = false -> rbt t b n ->
  (forall st' sn' t' m, at_ ((x, Node 0 None None None c) :: F) (Some x) sn' [] t' st' ->
     is_red (color sn') = false -> rbt t' false m -> elements t' = elements t -> Q tt st') ->
  wp (set_root (ptr_of t);; ngx_rbt_black (ptr_of t);; clear (Some x)) Q st.
Proof.
  intros [O V] Hs Rt HQ. rewrite cells_mk in O. cbn [cells up_of ccells app] in O.
  destruct (rbt_blacken _ _ _ Rt) as [m Rb].
  apply wp_bind, wp_put. intros st1 V1 M1. rewrite <- M1 in O. apply wp_bind. unfold ngx_rbt_black.
  set (nx := mkn d k (ptr_of E) (ptr_of t) q0 c) in *.
  assert (Hx : color nx = c) by now destruct d.
  destruct t as [|c' l p k' r]; cbn [ptr_of cells app] in *.
  - wp_step O. intros st2 V2 O2.
    apply (wp_clear x nx ((s, set_color 0 sn) :: F)); [owned O2|]. intros st3 V3 O3.
    apply (HQ st3 (set_color 0 sn) E m); [|done..]. rewrite Hx in O3. split; [|cbn; congruence].
    cbn. owned O3.
  - wp_step O. intros st2 V2 O2.
    apply (wp_clear x nx ((s, sn) :: cells (Some x) (T 0 l p k' r) ++ F)); [cbn in O2 |- *; owned O2|].
    intros st3 V3 O3. apply (HQ st3 sn (T 0 l p k' r) m); [|done..].
    rewrite Hx in O3. split; [|cbn; congruence]. cbn in O3 |- *. owned O3.
Qed.

Lemma sorted_remove gl l1 (e : entry) l2 : sorted gl (l1 ++ e :: l2) -> sorted gl (l1 ++ l2).
Proof.
  induction l1 as [|z l1 IH]; cbn; intros H; apply StronglySorted_inv in H as [Sl F]; [done|].
  constructor; [now apply IH|]. rewrite Forall_app, Forall_cons in F. rewrite Forall_app. tauto.
Qed.

Lemma wp_select_one F q0 sn ctx d c x k t fuel (Q : ptr * ptr -> rb_store -> Prop) st :
  at_ F q0 sn ctx (mk d c E x k t) st -> Q (Some x, ptr_of t) st ->
  wp (select fuel (Some s) (Some x)) Q st.
Proof.
  intros A HQ. unfold select.
  assert (En : mem st !! x = Some (mkn d k (Some s) (ptr_of t) (up_of ctx q0) c))
    by (destruct d; exact (at_node _ _ _ _ _ _ _ _ _ _ A)).
  apply wp_bind, (wp_load_at _ _ _ _ _ En).
  destruct d; cbn [mkn left right]; [|case_decide as Ht].
  - rewrite decide_True by done. apply wp_bind, (wp_load_at _ _ _ _ _ En), wp_ret, HQ.
  - apply wp_bind, (wp_load_at _ _ _ _ _ En), wp_ret. cbn [mkn right]. now rewrite <- Ht.
  - apply wp_bind, (wp_load_at _ _ _ _ _ En). cbn [mkn right]. rewrite decide_True by done.
    apply wp_bind, (wp_load_at _ _ _ _ _ En), wp_ret, HQ.
Qed.

Lemma wp_select_two F q0 sn ctx c x k l r fuel (Q : ptr * ptr -> rb_store -> Prop) st :
  at_ F q0 sn ctx (T c l x k r) st -> l <> E -> r <> E -> (length (elements r) <= fuel)%nat ->
  (forall spine cq q kq rq, plug spine (T cq E q kq rq) = r -> left_of spine = [] ->
     at_ F q0 sn (spine ++ Frame R c x k l :: ctx) (T cq E q kq rq) st -> Q (Some q, ptr_of rq) st) ->
  wp (select fuel (Some s) (Some x)) Q st.
Proof.
  intros A Hl Hr Hf HQ. unfold select. pose proof (at_node _ _ _ _ _ _ _ _ _ _ A) as En.
  assert (Ar := proj2 (at_zip _ _ _ R _ _ _ _ _ _ _) A). assert (Al := proj2 (at_zip _ _ _ L _ _ _ _ _ _ _) A).
  assert (Ne : forall t ctx', t <> E -> at_ F q0 sn ctx' t st -> ptr_of t <> Some s).
  { intros t ctx' Ht At. destruct t; [done|]. intros [= ->]. exact (at_ne_s _ _ _ _ _ _ _ _ _ _ At eq_refl). }
  apply wp_bind, (wp_load_at _ _ _ _ _ En). cbn [left]. rewrite decide_False by exact (Ne _ _ Hl Al).
  apply wp_bind, (wp_load_at _ _ _ _ _ En). cbn [right]. rewrite decide_False by exact (Ne _ _ Hr Ar).
  apply wp_bind, (wp_load_at _ _ _ _ _ En), wp_bind. cbn [right].
  apply (wp_min F q0 sn r _ fuel _ st Hr Ar (Nat.le_trans _ _ _ (height_length r) Hf)). intros spine cq q kq rq Pl Ll A'.
  apply wp_bind, (wp_load_at _ _ _ _ _ (at_node _ _ _ _ _ _ _ _ _ _ A')), wp_ret.
  exact (HQ spine cq q kq rq Pl Ll A').
Qed.

(** What a deletion leaves: the other nodes, and the node cleared. *)
Definition removed (F : list (loc * node)) (x : loc) (l : list entry) (st' : rb_store) : Prop :=
  exists q0 sn c t m, at_ ((x, Node 0 None None None c) :: F) q0 sn [] t st'
  /\ is_red (color sn) = false /\ rbt t false m /\ elements t = l.

Lemma wp_delete_one F q0 sn ctx d c x k t m fuel (Q : unit -> rb_store -> Prop) st :
  at_ F q0 sn ctx (mk d c E x k t) st -> is_red (color sn) = false ->
  rbt (plug ctx (mk d c E x k t)) false m -> (length (elements (plug ctx t)) + 1 < fuel)%nat ->
  (forall st', removed F x (elements (plug ctx t)) st' -> Q tt st') ->
  wp (delete_rest fuel (Some s) (Some x) (Some x) (ptr_of t)) Q st.
Proof.
  intros A Hs R Hf HQ. unfold delete_rest, get_root. wp_step A. destruct ctx as [|f up].
  - rewrite decide_True by (rewrite (proj2 A); cbn; now rewrite ptr_mk). cbn [plug fold_left] in R.
    assert (Rt : exists b n, rbt t b n).
    { destruct (rbt_mk_inv _ _ _ _ _ _ _ _ R) as [(_ & _ & _ & Rt)|(_ & _ & n0 & bx & b_y & _ & _ & Rt)]; eauto. }
    destruct Rt as (b & n & Rt). apply (wp_delete_root _ _ _ _ _ _ _ _ _ _ _ _ A Hs Rt).
    intros st' sn' t' m' A' Hs' R' E'. apply HQ. exists (Some x), sn', c, t', m'. done.
  - assert (Ax : exists l r, at_ F q0 sn (f :: up) (T c l x k r) st) by (destruct d; eauto).
    destruct Ax as (l & r & Ax).
    rewrite decide_False by (apply not_eq_sym, (at_not_root _ _ _ _ _ _ _ _ _ _ _ Ax)).
    unfold ngx_rbt_is_red. apply wp_bind, wp_bind, (wp_load_at _ _ _ _ _ (at_node _ _ _ _ _ _ _ _ _ _ Ax)), wp_ret.
    cbn [color]. rewrite decide_True by done.
    apply (wp_unlink_one F q0 sn d f up c t x k (fun _ => if is_red c then mret tt else fixup fuel (Some s) (ptr_of t)) Q st A).
    intros st' sn' A' Ps.
    apply (wp_mend _ q0 sn sn' (f :: up) d c x k t m fuel Q st' A'); [done|exact Ps|done|done|done|].
    intros st2 sn2 t' m' A2 Hs2 R2 E2. apply HQ. exists q0, sn2, c, t', m'. done.
Qed.

Lemma wp_delete_two F q0 sn spine ctx c x k l cq q kq rq m fuel (Q : unit -> rb_store -> Prop) st :
  at_ F q0 sn (spine ++ Frame R c x k l :: ctx) (T cq E q kq rq) st -> is_red (color sn) = false ->
  rbt (plug (spine ++ Frame R c x k l :: ctx) (T cq E q kq rq)) false m ->
  (length (elements (plug (spine ++ Frame R c q kq l :: ctx) rq)) + 1 < fuel)%nat ->
  (forall st', removed F x (elements (plug (spine ++ Frame R c q kq l :: ctx) rq)) st' -> Q tt st') ->
  wp (delete_rest fuel (Some s) (Some x) (Some q) (ptr_of rq)) Q st.
Proof.
  intros A Hs Rb Hf HQ. unfold delete_rest, get_root. wp_step A.
  assert (Nc : forall p k', spine ++ Frame R c p k' l :: ctx <> []) by (intros; now destruct spine).
  assert (Nq : q <> x).
  { intros ->. destruct A as [O _]. cbn [cells ptr_of app] in O. rewrite ccells_app in O. cbn [ccells] in O.
    set (nx := mkn R k _ (ptr_of l) (up_of ctx q0) c) in *.
    set (nq := Node kq _ _ _ cq) in *.
    refine (owns_fresh (mem st) x nq ((x, nx) :: (s, sn) :: cells (Some x) rq ++ ccells (Some x) spine (Some x)
      ++ cells (Some x) l ++ ccells (Some x) ctx q0 ++ F) x nx _ _ eq_refl); [owned O|left]. }
  destruct (spine ++ Frame R c x k l :: ctx) as [|f up] eqn:Ec; [now destruct (Nc x k)|].
  rewrite decide_False by (apply not_eq_sym, (at_not_root _ _ _ _ _ _ _ _ _ _ _ A)).
  unfold ngx_rbt_is_red. apply wp_bind, wp_bind, (wp_load_at _ _ _ _ _ (at_node _ _ _ _ _ _ _ _ _ _ A)), wp_ret.
  cbn [color]. rewrite decide_False by congruence. rewrite <- Ec in *.
  apply (wp_unlink_two F q0 sn spine ctx c l x k cq q kq rq
    (fun _ => if is_red cq then mret tt else fixup fuel (Some s) (ptr_of rq)) Q st A).
  intros st' sn' A' Ps.
  apply (wp_mend _ q0 sn sn' _ L cq q kq rq m fuel Q st' A'); [apply Nc|exact Ps|done| |done|].
  - exact (rbt_rename _ _ _ _ _ q kq _ _ _ _ _ Rb).
  - intros st2 sn2 t' m' A2 Hs2 R2 E2. apply HQ. exists q0, sn2, c, t', m'. done.
Qed.

Lemma wp_delete gl D F l1 e l2 (Q : unit -> rb_store -> Prop) st :
  holds gl D F (l1 ++ e :: l2) st ->
  (forall st' c, holds gl D ((e.2, Node 0 None None None c) :: F) (l1 ++ l2) st' -> Q tt st') ->
  wp (ngx_rbtree_delete (Some s) (Some e.2)) Q st.
Proof.
  intros (q0 & sn & t & m & A & Hs & Rt & El & Dt & St) HQ. unfold ngx_rbtree_delete.
  apply wp_bind, (at_fuel _ _ _ _ _ _ _ A). intros fuel Hf. cbn [plug fold_left] in Hf.
  change (wp (p ← select fuel (Some s) (Some e.2); let '(subst, temp) := p in
    delete_rest fuel (Some s) (Some e.2) subst temp) Q st).
  rewrite El, length_app in Hf. cbn [length] in Hf.
  destruct (find_node _ _ _ _ El) as (ctx & c & l & r & -> & -> & ->).
  assert (HQ' : forall st', removed F e.2 ((left_of ctx ++ elements l) ++ elements r ++ right_of ctx) st' -> Q tt st').
  { intros st' (q & sn' & c' & t' & m' & A' & Hs' & R' & E'). apply (HQ st' c').
    exists q, sn', t', m'. do 4 (split; [done|]). split; [|now apply sorted_remove in St].
    unfold in_domain in *. do 2 rewrite ?Forall_app, ?Forall_cons in Dt. rewrite !Forall_app. tauto. }
  rewrite <- at_plug in A. apply wp_bind.
  assert (One : forall d t, T c l e.2 e.1 r = mk d c E e.2 e.1 t -> elements l ++ elements r = elements t ->
    wp (select fuel (Some s) (Some e.2)) (fun p st' => wp (let '(subst, temp) := p in
      delete_rest fuel (Some s) (Some e.2) subst temp) Q st') st).
  { intros d t Et Ee. rewrite Et in A, Rt. apply (wp_select_one _ _ _ _ _ _ _ _ _ _ _ _ A).
    assert (Es : elements (plug ctx t) = (left_of ctx ++ elements l) ++ elements r ++ right_of ctx)
      by (rewrite elements_split, <- Ee; now rewrite <- !app_assoc).
    apply (wp_delete_one F q0 sn ctx d c e.2 e.1 t m fuel Q st A Hs Rt).
    - rewrite Es, length_app. lia.
    - rewrite Es. exact HQ'. }
  destruct l as [|cl ll pl kl rl] eqn:El'; [exact (One L r eq_refl eq_refl)|].
  destruct r as [|cr lr pr kr rr] eqn:Er; [exact (One R l ltac:(now subst) ltac:(subst; now rewrite app_nil_r))|].
  clear One. rewrite <- El', <- Er in *.
  apply (wp_select_two _ _ _ _ _ _ _ _ _ _ _ _ A); [now subst|now subst|rewrite !length_app in Hf; lia|].
  intros spine cq q kq rq Pl Ll A'.
  assert (Es : elements (plug (spine ++ Frame R c q kq l :: ctx) rq)
    = (left_of ctx ++ elements l) ++ elements r ++ right_of ctx).
  { rewrite <- Pl, !elements_split, Ll, left_of_app, right_of_app, Ll. cbn.
    rewrite ?app_nil_r, <- ?app_assoc. done. }
  apply (wp_delete_two F q0 sn spine ctx c e.2 e.1 l cq q kq rq m fuel Q st A' Hs).
  - rewrite plug_app, Pl. exact Rt.
  - rewrite Es, length_app. lia.
  - rewrite Es. exact HQ'.
Qed.

End Cells.

(** ** Orders of the two callbacks *)

Definition any_key (k : Z) : Prop := True.

#[export] Instance value_order : KeyOrder value_left any_key.
Proof. split; unfold value_left; intros; lia. Qed.

(** Timers that lie in a window of half the range of the clock. *)
Definition in_window (base k : Z) : Prop := u64 (k - base) < 2 ^ 63.

(** How late a timer is in the window. *)
Definition delay (base k : Z) : Z := u64 (k - base).

Lemma timer_left_delay base a b : in_window base a -> in_window base b ->
  timer_left a b = (delay base a <? delay base b).
Proof.
  unfold in_window, delay, timer_left. intros Ha Hb.
  pose proof (u64_range (a - base)). pose proof (u64_range (b - base)).
  assert (E0 : u64 (a - b) = u64 (u64 (a - base) - u64 (b - base))).
  { unfold u64. rewrite Zminus_mod_idemp_l, Zminus_mod_idemp_r. f_equal. lia. }
  rewrite E0, s64_u64_small by lia. lia.
Qed.

#[export] Instance timer_order base : KeyOrder timer_left (in_window base).
Proof.
  split; intros; rewrite !(timer_left_delay base) in * by done; lia.
Qed.

(** ** The height of a red-black tree *)

Lemma rbt_bounds t b n : rbt t b n ->
  (height t <= 2 * n + (if b then 1 else 0))%nat /\ (2 ^ n <= length (elements t) + 1)%nat.
Proof.
  induction 1 as [|c l p k r n Hc Rl [IHl1 IHl2] Rr [IHr1 IHr2]|c l p k r bl br n Hc Rl [IHl1 IHl2] Rr [IHr1 IHr2]];
    cbn [height elements]; rewrite ?length_app; cbn [length].
  - cbn. lia.
  - lia.
  - rewrite Nat.pow_succ_r'. destruct bl, br; lia.
Qed.

Lemma rbt_height t n : rbt t false n -> (height t <= 2 * Nat.log2 (length (elements t) + 1))%nat.
Proof.
  intros Rt. destruct (rbt_bounds _ _ _ Rt) as [Hh Hl].
  apply Nat.log2_le_mono in Hl. rewrite Nat.log2_pow2 in Hl; lia.
Qed.

(** ** What a user reads from a tree *)

Section Reads.
Context (s : loc) (gl : Z -> Z -> bool) (D : Z -> Prop) (F : list (loc * node)).

Lemma holds_root l st : holds s gl D F l st -> vars st = Some s <-> l = [].
Proof.
  intros (q0 & sn & t & m & A & _ & _ & <- & _). rewrite (proj2 A). cbn [top].
  destruct t as [|c tl p k tr]; [done|]. cbn [elements ptr_of]. split.
  - intros [= ->]. now destruct (at_ne_s _ _ _ _ _ _ _ _ _ _ _ A).
  - intros E0. now apply app_eq_nil in E0 as [_ E0].
Qed.

Lemma wp_nodes_holds l (Q : nat -> rb_store -> Prop) st :
  holds s gl D F l st -> (forall n, (length l < n)%nat -> Q n st) -> wp nodes Q st.
Proof.
  intros (q0 & sn & t & m & A & _ & _ & <- & _) HQ. apply (at_fuel _ _ _ _ _ _ _ _ A).
  intros n Hn. apply HQ. cbn in Hn. lia.
Qed.

Lemma wp_first k x l fuel (Q : ptr -> rb_store -> Prop) st :
  holds s gl D F ((k, x) :: l) st ->
  (length l < fuel)%nat \/ (2 * Nat.log2 (length l + 2) <= fuel)%nat ->
  Q (Some x) st -> wp (ngx_rbtree_min fuel (vars st) (Some s)) Q st.
Proof.
  intros (q0 & sn & t & m & A & Hs & Rt & El & _) Hf HQ.
  pose proof (rbt_height _ _ Rt) as Hh. pose proof (height_length t) as Hl.
  rewrite El in Hh, Hl. cbn [length] in Hh, Hl.
  replace (S (length l) + 1)%nat with (length l + 2)%nat in Hh by lia.
  rewrite (proj2 A). cbn [top].
  apply (wp_min s F q0 sn t [] fuel _ st); [now intros ->|exact A|lia|].
  intros spine c q k' r Pl Ll _. rewrite <- Pl, elements_split, Ll in El. now injection El as _ <-.
Qed.

Lemma wp_key k x l (Q : Z -> rb_store -> Prop) st :
  holds s gl D F l st -> (k, x) ∈ l -> Q k st -> wp (load key (Some x)) Q st.
Proof.
  intros (q0 & sn & t & m & A & _ & _ & <- & _) Hx HQ. apply list_elem_of_split in Hx as (l1 & l2 & El).
  destruct (find_node _ _ _ _ El) as (ctx & c & l & r & Et & _). rewrite Et, <- at_plug in A.
  now apply (wp_load_at _ _ _ _ _ (at_node _ _ _ _ _ _ _ _ _ _ _ A)).
Qed.

End Reads.

(** ** Histories

    A user owns some nodes; it sets the key of one of them and inserts it, or
    deletes one that is in the tree. *)

Inductive op : Set := Insert (x : loc) (k : Z) | Delete (x : loc).

Definition run_op (insert : nat -> ptr -> ptr -> ptr -> MR unit) (s : loc) (o : op) : MR unit :=
  match o with
  | Insert x k => store_at (set_key k) (Some x);; ngx_rbtree_insert insert (Some s) (Some x)
  | Delete x => ngx_rbtree_delete (Some s) (Some x)
  end.

Fixpoint run (insert : nat -> ptr -> ptr -> ptr -> MR unit) (s : loc) (ops : list op) : MR unit :=
  match ops with [] => mret tt | o :: ops => run_op insert s o;; run insert s ops end.

(** What the tree promises: a sorted list of keys and nodes, and the free nodes. *)
Record spec : Set := Spec { entries : list entry; free : list loc }.

Definition without (x : loc) (l : list entry) : list entry := filter (fun e => e.2 <> x) l.

Definition spec_op (gl : Z -> Z -> bool) (o : op) (a : spec) : spec :=
  match o with
  | Insert x k => Spec (ins gl (k, x) (entries a)) (filter (fun y => y <> x) (free a))
  | Delete x => Spec (without x (entries a)) (x :: free a)
  end.

Definition legal (D : Z -> Prop) (o : op) (a : spec) : Prop :=
  match o with
  | Insert x k => x ∈ free a /\ D k
  | Delete x => x ∈ (entries a).*2
  end.

Fixpoint legal_ops (gl : Z -> Z -> bool) (D : Z -> Prop) (ops : list op) (a : spec) : Prop :=
  match ops with [] => True | o :: ops => legal D o a /\ legal_ops gl D ops (spec_op gl o a) end.

(** The memory implements the promise. *)
Definition implements (s : loc) (gl : Z -> Z -> bool) (D : Z -> Prop) (a : spec) (st : rb_store)
  : Prop := exists F, F.*1 ≡ₚ free a /\ holds s gl D F (entries a) st.

Lemma cells_locs s q t : (cells s q t).*1 ≡ₚ (elements t).*2.
Proof.
  revert q. induction t as [|c l IHl p k r IHr]; intros q; [done|]. cbn [cells elements].
  rewrite fmap_cons, !fmap_app, fmap_cons, IHl, IHr. cbn. solve_Permutation.
Qed.

Lemma holds_nodup s gl D F l st : holds s gl D F l st -> NoDup (F.*1 ++ l.*2).
Proof.
  intros (q0 & sn & t & m & [[N _] _] & _ & _ & <- & _). cbn [ccells app up_of] in N.
  rewrite fmap_cons, fmap_app, cells_locs in N. apply NoDup_cons in N as [_ N].
  rewrite Permutation_app_comm. exact N.
Qed.

Lemma without_middle x k l1 l2 : NoDup (l1 ++ (k, x) :: l2).*2 ->
  without x (l1 ++ (k, x) :: l2) = l1 ++ l2.
Proof.
  intros N. rewrite fmap_app, fmap_cons in N. apply NoDup_app in N as (_ & N1 & N2).
  apply NoDup_cons in N2 as [N2 _]. cbn [snd] in *.
  assert (Keep : forall l, x ∉ l.*2 -> without x l = l).
  { intros l H. unfold without. induction l as [|e l IH]; [done|]. rewrite fmap_cons in H.
    apply not_elem_of_cons in H as [H1 H2]. rewrite filter_cons_True by congruence. now rewrite IH. }
  unfold without in *. rewrite filter_app, filter_cons_False by (cbn; auto).
  rewrite !Keep; [done|done|]. intros Hx. apply (N1 x Hx). left.
Qed.

Lemma owns_foreign s gl D x F l st nx F' (Q : unit -> rb_store -> Prop) f :
  holds s gl D F l st -> F ≡ₚ (x, nx) :: F' ->
  (forall st', holds s gl D ((x, f nx) :: F') l st' -> Q tt st') -> wp (store_at f (Some x)) Q st.
Proof.
  intros (q0 & sn & t & m & [O V] & Hs & Rt & El & Dt & St) P HQ. rewrite P in O. wp_step O.
  intros st' V' O'. apply HQ. exists q0, sn, t, m. split; [split; [exact O'|congruence]|done].
Qed.

Lemma holds_perm s gl D F F' l st : F ≡ₚ F' -> holds s gl D F l st -> holds s gl D F' l st.
Proof.
  intros P (q0 & sn & t & m & [O V] & H). exists q0, sn, t, m. split; [|done]. split; [|done].
  now rewrite <- P.
Qed.

Lemma filter_locs x (l l' : list loc) : NoDup (x :: l') -> l ≡ₚ x :: l' ->
  filter (fun y => y <> x) l ≡ₚ l'.
Proof.
  intros N P. rewrite P, filter_cons_False by (intros H; now apply H).
  apply NoDup_cons in N as [N _]. clear P. induction l' as [|y l' IH]; [done|].
  apply not_elem_of_cons in N as [N1 N2]. rewrite filter_cons_True by congruence. now rewrite IH.
Qed.

Lemma run_op_ok insert s gl D `{!KeyOrder gl D, !InsertPt s insert gl D} o a
    (Q : unit -> rb_store -> Prop) st :
  implements s gl D a st -> legal D o a ->
  (forall st', implements s gl D (spec_op gl o a) st' -> Q tt st') -> wp (run_op insert s o) Q st.
Proof.
  intros (F & PF & H) L HQ. pose proof (holds_nodup _ _ _ _ _ _ H) as N. destruct o as [x k|x]; cbn in L.
  - destruct L as [Hx Dk]. rewrite <- PF in Hx. apply list_elem_of_fmap in Hx as ([y nx] & Ex & Hx).
    cbn in Ex. subst y. apply elem_of_Permutation in Hx as [F' PF']. apply wp_bind.
    apply (owns_foreign _ _ _ _ _ _ _ _ _ _ _ H PF'). intros st1 H1.
    apply (wp_insert s insert gl D F' (entries a) x (set_key k nx) _ _ H1 Dk). intros st2 H2.
    apply HQ. exists F'. split; [|exact H2]. cbn. symmetry. apply filter_locs.
    + rewrite PF', fmap_cons in N. apply NoDup_app in N as (N & _). exact N.
    + rewrite <- PF, PF'. done.
  - apply list_elem_of_fmap in L as ([k y] & Ex & Hx). cbn in Ex. subst y.
    apply list_elem_of_split in Hx as (l1 & l2 & El). rewrite El in H, N.
    apply (wp_delete s gl D F l1 (k, x) l2 _ _ H). intros st' c H'. apply HQ.
    exists ((x, Node 0 None None None c) :: F). split; [cbn; now rewrite PF|].
    cbn [spec_op entries]. apply NoDup_app in N as (_ & _ & N). now rewrite El, without_middle.
Qed.

Lemma run_ok insert s gl D `{!KeyOrder gl D, !InsertPt s insert gl D} ops : forall a
    (Q : unit -> rb_store -> Prop) st,
  implements s gl D a st -> legal_ops gl D ops a ->
  (forall st', implements s gl D (fold_left (fun a o => spec_op gl o a) ops a) st' -> Q tt st') ->
  wp (run insert s ops) Q st.
Proof.
  induction ops as [|o ops IH]; intros a Q st H L HQ; cbn [run]; [now apply wp_ret, HQ|].
  destruct L as [L1 L2]. apply wp_bind, (run_op_ok insert s gl D o a _ _ H L1).
  intros st1 H1. now apply (IH _ _ _ H1 L2).
Qed.

Lemma init_ok s gl D sn F (Q : unit -> rb_store -> Prop) st :
  owns (mem st) ((s, sn) :: F) ->
  (forall st', holds s gl D F [] st' -> Q tt st') -> wp (ngx_rbtree_init (Some s)) Q st.
Proof.
  intros O HQ. unfold ngx_rbtree_init, ngx_rbt_black, set_root. wp_walk O. apply HQ.
  exists None, (set_color 0 sn), E, 0%nat. split; [split; [exact O|done]|].
  repeat (split; [done || constructor|]). repeat constructor.
Qed.

#[export] Instance value_pt s : InsertPt s ngx_rbtree_insert_value value_left any_key :=
  insert_at_pt s value_left any_key.
#[export] Instance timer_pt s base :
  InsertPt s ngx_rbtree_insert_timer_value timer_left (in_window base) :=
  insert_at_pt s timer_left (in_window base).

(** ** Properties *)

(** C9. Every history of a red-black tree is a history of a sorted list: from
    [ngx_rbtree_init], with any callback that keeps an order on the keys, any
    sequence of insertions of free nodes and deletions of nodes of the tree runs
    to its end without touching a bad pointer, and leaves in memory a red-black
    tree whose nodes, in order, are what the sorted list holds, each insertion
    being put after its equals, next to the free nodes. *)
Theorem rbtree_history_refines insert gl D `{!KeyOrder gl D} s `{!InsertPt s insert gl D} sn F ops st :
  owns (mem st) ((s, sn) :: F) -> legal_ops gl D ops (Spec [] F.*1) ->
  exists st', (ngx_rbtree_init (Some s);; run insert s ops) st = Some (tt, st')
  /\ implements s gl D (fold_left (fun a o => spec_op gl o a) ops (Spec [] F.*1)) st'.
Proof.
  intros O L. apply (wp_run_unit _ (fun st' =>
    implements s gl D (fold_left (fun a o => spec_op gl o a) ops (Spec [] F.*1)) st')).
  apply wp_bind, (init_ok s gl D sn F _ _ O). intros st1 H1.
  apply (run_ok insert s gl D ops (Spec [] F.*1)); [|exact L|auto].
  exists F. split; [done|exact H1].
Qed.

(** A memory with a sentinel and three nodes. *)
Definition sample : rb_store :=
  Store (list_to_map [(1%positive, Node 0 None None None 7); (2%positive, Node 0 None None None 7);
    (3%positive, Node 0 None None None 7); (4%positive, Node 0 None None None 7)]) None.

Example rbtree_history_refines_witness :
  let ops := [Insert 2 (2 ^ 64 - 1); Insert 3 5; Insert 4 1; Delete 3] in
  exists st', (ngx_rbtree_init (Some 1%positive);; run ngx_rbtree_insert_timer_value 1 ops) sample
    = Some (tt, st')
  /\ implements 1 timer_left (in_window (2 ^ 63 + 2 ^ 62)) (Spec [(2 ^ 64 - 1, 2%positive); (1, 4%positive)] [3%positive]) st'.
Proof.
  intros ops.
  refine (rbtree_history_refines ngx_rbtree_insert_timer_value timer_left (in_window (2 ^ 63 + 2 ^ 62)) 1
    (Node 0 None None None 7) [(2%positive, Node 0 None None None 7); (3%positive, Node 0 None None None 7);
    (4%positive, Node 0 None None None 7)] ops sample _ _).
  - split; [|repeat constructor].
    apply (bool_decide_unpack _). vm_compute. exact I.
  - repeat split; try reflexivity; unfold legal; apply (bool_decide_unpack _); vm_compute; exact I.
Defined.

(** A tree of three nodes over the sentinel 1, with a free node 5. *)
Definition sample_free : list (loc * node) := [(5%positive, Node 6 None None None 1)].

Definition sample_tree : rb_store :=
  Store (list_to_map [(1%positive, Node 0 None None None 0);
    (2%positive, Node 5 (Some 3%positive) (Some 4%positive) None 0);
    (3%positive, Node 1 (Some 1%positive) (Some 1%positive) (Some 2%positive) 1);
    (4%positive, Node 9 (Some 1%positive) (Some 1%positive) (Some 2%positive) 1);
    (5%positive, Node 6 None None None 1)]) (Some 2%positive).

Lemma sample_holds : holds 1 value_left any_key sample_free
  [(1, 3%positive); (5, 2%positive); (9, 4%positive)] sample_tree.
Proof.
  exists None, (Node 0 None None None 0), (T 0 (T 1 E 3 1 E) 2 5 (T 1 E 4 9 E)), 1%nat.
  split; [split; [split; [|repeat constructor]|reflexivity]|].
  - apply (bool_decide_unpack _). vm_compute. exact I.
  - split; [done|]. split; [|repeat constructor].
    apply (rbt_black 0 _ _ _ _ true true); [done|repeat constructor..].
Qed.

(** Insertion keeps the tree red-black and sorted: the new node goes after
    the nodes that do not come after it, no other memory is touched, and the
    loops of the descent and of the re-balancing end within the number of
    nodes. *)
Theorem rbtree_insert_sorted insert gl D `{!KeyOrder gl D} s `{!InsertPt s insert gl D} F l x n st :
  holds s gl D ((x, n) :: F) l st -> D (key n) ->
  exists st', ngx_rbtree_insert insert (Some s) (Some x) st = Some (tt, st')
  /\ holds s gl D F (ins gl (key n, x) l) st'.
Proof.
  intros H Dx. apply (wp_run_unit _ (holds s gl D F (ins gl (key n, x) l))).
  apply (wp_insert s insert gl D F l x n _ _ H Dx). auto.
Qed.

Example rbtree_insert_sorted_witness :
  exists st', ngx_rbtree_insert ngx_rbtree_insert_value (Some 1%positive) (Some 5%positive) sample_tree
    = Some (tt, st')
  /\ holds 1 value_left any_key [] [(1, 3%positive); (5, 2%positive); (6, 5%positive); (9, 4%positive)] st'.
Proof.
  exact (rbtree_insert_sorted ngx_rbtree_insert_value value_left any_key 1 []
    [(1, 3%positive); (5, 2%positive); (9, 4%positive)] 5 (Node 6 None None None 1) sample_tree
    sample_holds I).
Defined.

(** Deletion of any node of the tree keeps it red-black and sorted, takes
    out that node and no other, and clears it; the loops end within the number
    of nodes. *)
Theorem rbtree_delete_removes s gl D F l1 k x l2 st :
  holds s gl D F (l1 ++ (k, x) :: l2) st ->
  exists st', ngx_rbtree_delete (Some s) (Some x) st = Some (tt, st')
  /\ exists c, holds s gl D ((x, Node 0 None None None c) :: F) (l1 ++ l2) st'.
Proof.
  intros H. apply (wp_run_unit _ (fun st' =>
    exists c, holds s gl D ((x, Node 0 None None None c) :: F) (l1 ++ l2) st')).
  apply (wp_delete s gl D F l1 (k, x) l2 _ _ H). eauto.
Qed.

Example rbtree_delete_removes_witness :
  exists st', ngx_rbtree_delete (Some 1%positive) (Some 2%positive) sample_tree = Some (tt, st')
  /\ exists c, holds 1 value_left any_key ((2%positive, Node 0 None None None c) :: sample_free)
       [(1, 3%positive); (9, 4%positive)] st'.
Proof.
  exact (rbtree_delete_removes 1 value_left any_key sample_free [(1, 3%positive)] 5 2 [(9, 4%positive)]
    sample_tree sample_holds).
Defined.

(** [ngx_rbtree_next] walks the tree in order: from a node it returns the
    one after it, NULL from the last one, and changes nothing. *)
Theorem rbtree_next_in_order s gl D F l1 k x l2 st :
  holds s gl D F (l1 ++ (k, x) :: l2) st ->
  ngx_rbtree_next (Some s) (Some x) st = Some (snd <$> head l2, st).
Proof.
  intros H. apply (wp_run_eq _ _ (snd <$> head l2)). now apply (wp_next s gl D F l1 (k, x) l2 _ _ H).
Qed.

Example rbtree_next_in_order_witness :
  ngx_rbtree_next (Some 1%positive) (Some 3%positive) sample_tree = Some (Some 2%positive, sample_tree).
Proof.
  exact (rbtree_next_in_order 1 value_left any_key sample_free [] 1 3 [(5, 2%positive); (9, 4%positive)]
    sample_tree sample_holds).
Defined.

(** [ngx_rbtree_min] returns the first node of the tree in at most
    2 log2 (n + 1) turns, [n] being the number of nodes. *)
Theorem rbtree_min_logarithmic s gl D F k x l fuel st :
  holds s gl D F ((k, x) :: l) st -> (2 * Nat.log2 (length l + 2) <= fuel)%nat ->
  ngx_rbtree_min fuel (vars st) (Some s) st = Some (Some x, st).
Proof.
  intros H Hf. apply (wp_run_eq _ _ (Some x)). now apply (wp_first s gl D F k x l fuel _ st H); [right|].
Qed.

Example rbtree_min_logarithmic_witness :
  ngx_rbtree_min 4 (vars sample_tree) (Some 1%positive) sample_tree = Some (Some 3%positive, sample_tree).
Proof.
  apply (rbtree_min_logarithmic 1 value_left any_key sample_free 1 3 [(5, 2%positive); (9, 4%positive)] 4
    sample_tree sample_holds). vm_compute. lia.
Defined.

End Rbtree.
