(* ===== verification/Timer.v ===== *)
(** * Timer: the timers of events (src/event/ngx_event_timer.c, ngx_event_timer.h)

    Every event embeds a node of one red-black tree whose keys are the times, in
    milliseconds of a clock that wraps around, at which the events time out.
    The functions are run on the memory of [Rbtree] and on the flags of the
    events; an event and its node have one address.  The clock
    [ngx_current_msec], which only changes between the calls, is a parameter. *)

From S2P Require Import Prelude Heap Rbtree.
From stdpp Require Import base option list gmap.

#[local] Open Scope Z_scope.

Module Timer.

Import Heap Rbtree.

(** ** Definitions *)

Record event : Set := Event { timer_set : bool; timedout : bool; cancelable : bool }.

(** [world] is what the handlers of events act on. *)
Record timers (U : Type) : Type := Timers {
  tree : rb_store; events : gmap loc event; world : U }.

Arguments Timers {U} _ _ _.
Arguments tree {U} _.
Arguments events {U} _.
Arguments world {U} _.

(** Computations on the tree, the events and the world. *)
Definition TM (U A : Type) : Type := timers U -> option (A * timers U).

#[export] Instance TM_ret U : MRet (TM U) := fun A a t => Some (a, t).
#[export] Instance TM_bind U : MBind (TM U) := fun A B k m t =>
  match m t with Some (a, t') => k a t' | None => None end.

Definition on_tree {U A} (m : MR A) : TM U A := fun t =>
  match m (tree t) with Some (a, st) => Some (a, Timers st (events t) (world t)) | None => None end.

Definition ev_get {U A} (f : event -> A) (p : ptr) : TM U A := fun t =>
  match p ≫= fun x => events t !! x with Some e => Some (f e, t) | None => None end.

Definition ev_set {U} (f : event -> event) (p : ptr) : TM U unit := fun t =>
  match p with
  | Some x =>
      match events t !! x with
      | Some e => Some (tt, Timers (tree t) (<[x := f e]> (events t)) (world t))
      | None => None
      end
  | None => None
  end.

Definition set_timer_set (b : bool) (e : event) : event := Event b (timedout e) (cancelable e).
Definition set_timedout (b : bool) (e : event) : event := Event (timer_set e) b (cancelable e).

Definition NGX_TIMER_INFINITE : Z := u64 (-1).
Definition NGX_TIMER_LAZY_DELAY : Z := 300.

Section Timers.
Context {U : Type} (sentinel : ptr) (ngx_current_msec : Z).

(** [(ngx_msec_int_t) (key - ngx_current_msec)] *)
Definition left_to (key : Z) : Z := s64 (u64 (key - ngx_current_msec)).

Definition ngx_event_timer_init : TM U Z :=
  on_tree (ngx_rbtree_init sentinel);; mret NGX_OK.

Definition ngx_event_find_timer : TM U Z :=
  root ← on_tree get_root;
  if decide (root = sentinel) then mret NGX_TIMER_INFINITE
  else
    fuel ← on_tree nodes;
    root ← on_tree get_root;
    node ← on_tree (ngx_rbtree_min fuel root sentinel);
    k ← on_tree (load key node);
    let timer := left_to k in
    mret (if 0 <? timer then timer else 0).

(** [handler] is [ev->handler]. *)
Fixpoint ngx_event_expire_timers (handler : ptr -> TM U unit) (fuel : nat) : TM U unit :=
  match fuel with
  | O => fun _ => None
  | S fuel' =>
      root ← on_tree get_root;
      if decide (root = sentinel) then mret tt
      else
        walk ← on_tree nodes;
        node ← on_tree (ngx_rbtree_min walk root sentinel);
        k ← on_tree (load key node);
        if 0 <? left_to k then mret tt
        else
          on_tree (ngx_rbtree_delete sentinel node);;
          ev_set (set_timer_set false) node;;
          ev_set (set_timedout true) node;;
          handler node;;
          ngx_event_expire_timers handler fuel'
  end.

(** The loop of [ngx_event_no_timers_left] over the nodes. *)
Fixpoint timers_left (fuel : nat) (node : ptr) : TM U Z :=
  match fuel with
  | O => fun _ => None
  | S fuel' =>
      if decide (node = None) then mret NGX_OK
      else
        c ← ev_get cancelable node;
        if negb c then mret NGX_AGAIN
        else
          node ← on_tree (ngx_rbtree_next sentinel node);
          timers_left fuel' node
  end.

Definition ngx_event_no_timers_left : TM U Z :=
  root ← on_tree get_root;
  if decide (root = sentinel) then mret NGX_OK
  else
    fuel ← on_tree nodes;
    node ← on_tree (ngx_rbtree_min fuel root sentinel);
    timers_left fuel node.

Definition ngx_event_del_timer (ev : ptr) : TM U unit :=
  on_tree (ngx_rbtree_delete sentinel ev);;
  ev_set (set_timer_set false) ev.

Definition ngx_event_add_timer (ev : ptr) (timer : Z) : TM U unit :=
  let k := u64 (ngx_current_msec + timer) in
  set ← ev_get timer_set ev;
  lazy ← (if (set : bool) then
            old ← on_tree (load key ev);
            let diff := s64 (u64 (k - old)) in
            mret (Z.abs diff <? NGX_TIMER_LAZY_DELAY)
          else mret false);
  if (lazy : bool) then mret tt
  else
    (if (set : bool) then ngx_event_del_timer ev else mret tt);;
    on_tree (store_at (set_key k) ev);;
    on_tree (ngx_rbtree_insert ngx_rbtree_insert_timer_value sentinel ev);;
    ev_set (set_timer_set true) ev.

End Timers.

(** ** Rules *)

Definition twp {U A} (m : TM U A) (Q : A -> timers U -> Prop) (t : timers U) : Prop :=
  match m t with Some (a, t') => Q a t' | None => False end.

Section Rules.
Context {U : Type}.

Lemma twp_ret {A} (a : A) (Q : A -> timers U -> Prop) t : Q a t -> twp (mret a) Q t.
Proof. done. Qed.

Lemma twp_bind {A B} (m : TM U A) (k : A -> TM U B) Q t :
  twp m (fun a => twp (k a) Q) t -> twp (m ≫= k) Q t.
Proof. unfold twp, mbind, TM_bind. now destruct (m t) as [[a t']|]. Qed.

Lemma twp_tree {A} (m : MR A) (Q : A -> timers U -> Prop) t :
  wp m (fun a st => Q a (Timers st (events t) (world t))) (tree t) -> twp (on_tree m) Q t.
Proof. unfold twp, wp, on_tree. now destruct (m (tree t)) as [[a st]|]. Qed.

Lemma twp_get {A} (f : event -> A) x e (Q : A -> timers U -> Prop) t :
  events t !! x = Some e -> Q (f e) t -> twp (ev_get f (Some x)) Q t.
Proof. intros E H. unfold twp, ev_get. cbn. now rewrite E. Qed.

Lemma twp_set (f : event -> event) x e (Q : unit -> timers U -> Prop) t :
  events t !! x = Some e -> Q tt (Timers (tree t) (<[x := f e]> (events t)) (world t)) ->
  twp (ev_set f (Some x)) Q t.
Proof. intros E H. unfold twp, ev_set. now rewrite E. Qed.

Lemma twp_run {A} (m : TM U A) Q t : twp m Q t -> exists a t', m t = Some (a, t') /\ Q a t'.
Proof. unfold twp. destruct (m t) as [[a t']|]; [eauto|done]. Qed.

Lemma twp_run_unit (m : TM U unit) (P : timers U -> Prop) t :
  twp m (fun _ => P) t -> exists t', m t = Some (tt, t') /\ P t'.
Proof. intros H. destruct (twp_run _ _ _ H) as ([] & t' & E & H'). eauto. Qed.

End Rules.

(** ** The invariant *)

(** The tree holds the timers [l], in the order of their delays in a window of
    half the range of the clock; [F] are the nodes of the other events; the flag
    of an event tells whether its timer is set. *)
Definition timers_hold {U} (s : loc) (base : Z) (F : list (loc * node)) (l : list entry)
    (t : timers U) : Prop :=
  holds s timer_left (in_window base) F l (tree t)
  /\ forall x, x ∈ F.*1 ++ l.*2 -> exists e, events t !! x = Some e /\ (timer_set e = true <-> x ∈ l.*2).

Definition due (now k : Z) : bool := left_to now k <=? 0.

Lemma left_to_delay base now k : in_window base now -> in_window base k ->
  left_to now k = delay base k - delay base now.
Proof.
  unfold in_window, delay, left_to. intros Hn Hk.
  pose proof (u64_range (k - base)). pose proof (u64_range (now - base)).
  assert (E0 : u64 (k - now) = u64 (u64 (k - base) - u64 (now - base))).
  { unfold u64. rewrite Zminus_mod_idemp_l, Zminus_mod_idemp_r. f_equal. lia. }
  rewrite E0, s64_u64_small; lia.
Qed.

(** The due timers come first. *)
Lemma sorted_due base now k x l : in_window base now -> in_domain (in_window base) ((k, x) :: l) ->
  sorted timer_left ((k, x) :: l) -> Forall (fun e : entry => left_to now k <= left_to now e.1) l.
Proof.
  intros Hn Hd Hs. apply Forall_cons in Hd as [Hk Hd]. apply StronglySorted_inv in Hs as [_ Hs].
  rewrite Forall_forall in *. intros e He. specialize (Hs e He). specialize (Hd e He). cbn in *.
  rewrite (timer_left_delay base) in Hs by done. rewrite !(left_to_delay base now) by done. lia.
Qed.

Lemma holds_order {s gl D F l st} : holds s gl D F l st -> in_domain D l /\ sorted gl l.
Proof. now intros (q0 & sn & t & m & _ & _ & _ & _ & Hd & Hs). Qed.

Section Steps.
Context {U : Type} (s : loc) (base : Z).

(** A timer leaves the tree and its flag is reset. *)
Lemma hold_removed F l1 k x l2 n st' (w : U) (t : timers U) :
  timers_hold s base F (l1 ++ (k, x) :: l2) t ->
  holds s timer_left (in_window base) ((x, n) :: F) (l1 ++ l2) st' ->
  exists e, events t !! x = Some e
  /\ timers_hold s base ((x, n) :: F) (l1 ++ l2) (Timers st' (<[x := set_timer_set false e]> (events t)) w).
Proof.
  intros [H Fl] H'. pose proof (holds_nodup _ _ _ _ _ _ H') as N.
  rewrite fmap_cons in N. cbn [app fst] in N. apply NoDup_cons in N as [Nx _].
  destruct (Fl x) as (e & Ee & He); [rewrite elem_of_app, fmap_app, fmap_cons; set_solver|].
  exists e. split; [done|]. split; [done|]. cbn [events]. intros y Hy.
  rewrite fmap_cons in Hy. cbn [app fst] in Hy. apply elem_of_cons in Hy.
  destruct (decide (y = x)) as [->|Ny].
  - eexists. rewrite lookup_insert_eq. split; [done|]. cbn. split; [done|].
    intros Hx. destruct Nx. rewrite elem_of_app. now right.
  - rewrite lookup_insert_ne by congruence. destruct Hy as [Hy|Hy]; [done|].
    destruct (Fl y) as (e' & Ee' & He'); [rewrite elem_of_app, fmap_app, fmap_cons in *; set_solver|].
    exists e'. split; [done|]. rewrite He', !fmap_app, fmap_cons, !elem_of_app, elem_of_cons. cbn. tauto.
Qed.

(** A timer enters the tree and its flag is set. *)
Lemma hold_added F F' k x l n st' (w : U) (t : timers U) :
  timers_hold s base F l t -> F ≡ₚ (x, n) :: F' ->
  holds s timer_left (in_window base) F' (ins timer_left (k, x) l) st' ->
  exists e, events t !! x = Some e
  /\ timers_hold s base F' (ins timer_left (k, x) l) (Timers st' (<[x := set_timer_set true e]> (events t)) w).
Proof.
  intros [H Fl] P H'. pose proof (holds_nodup _ _ _ _ _ _ H') as N.
  assert (Pl : (ins timer_left (k, x) l).*2 ≡ₚ x :: l.*2) by now rewrite ins_perm.
  destruct (Fl x) as (e & Ee & He); [rewrite P, fmap_cons; set_solver|].
  exists e. split; [done|]. split; [done|]. cbn [events]. intros y Hy.
  rewrite Pl in N, Hy. destruct (decide (y = x)) as [->|Ny].
  - eexists. rewrite lookup_insert_eq. split; [done|]. cbn. split; [|done]. intros _. rewrite Pl. left.
  - rewrite lookup_insert_ne by congruence.
    destruct (Fl y) as (e' & Ee' & He').
    { rewrite P, fmap_cons, elem_of_app in *. set_solver. }
    exists e'. split; [done|]. rewrite He', Pl, elem_of_cons. naive_solver.
Qed.

Lemma hold_flag F l b x e (w : U) (t : timers U) : timers_hold s base F l t -> events t !! x = Some e ->
  timers_hold s base F l (Timers (tree t) (<[x := set_timedout b e]> (events t)) w).
Proof.
  intros [H Fl] Ee. split; [done|]. intros y Hy. cbn [events].
  destruct (decide (y = x)) as [->|Ny].
  - rewrite lookup_insert_eq. eexists. split; [done|]. cbn.
    destruct (Fl x Hy) as (e' & Ee' & He'). now simplify_eq.
  - rewrite lookup_insert_ne by congruence. now apply Fl.
Qed.

Lemma twp_del_timer F l1 k x l2 (Q : unit -> timers U -> Prop) (t : timers U) :
  timers_hold s base F (l1 ++ (k, x) :: l2) t ->
  (forall t' n, timers_hold s base ((x, n) :: F) (l1 ++ l2) t' -> world t' = world t ->
     events t' !! x = set_timer_set false <$> events t !! x -> Q tt t') ->
  twp (ngx_event_del_timer (Some s) (Some x)) Q t.
Proof.
  intros H HQ. unfold ngx_event_del_timer. apply twp_bind, twp_tree.
  apply (wp_delete s timer_left (in_window base) F l1 (k, x) l2 _ _ (proj1 H)). intros st' c H'.
  destruct (hold_removed _ _ _ _ _ _ _ (world t) _ H H') as (e & Ee & Ht).
  apply (twp_set _ _ e); [done|]. apply (HQ _ _ Ht); [done|]. cbn. now rewrite lookup_insert_eq, Ee.
Qed.

End Steps.

(** ** Expiration *)

Section Expire.
Context {U : Type} (s : loc) (base now : Z) (Hnow : in_window base now).

Definition expired (x : loc) (t : timers U) : Prop :=
  exists e, events t !! x = Some e /\ timer_set e = false /\ timedout e = true.

Lemma twp_expire_none handler fuel F (Q : unit -> timers U -> Prop) (t : timers U) :
  timers_hold s base F [] t -> Q tt t -> twp (ngx_event_expire_timers (Some s) now handler (S fuel)) Q t.
Proof.
  intros [H _] HQ. destruct t as [st ev w]. cbn [ngx_event_expire_timers].
  apply twp_bind, twp_tree, wp_get. cbn [tree] in *. rewrite decide_True by now apply (holds_root _ _ _ _ _ _ H).
  apply twp_ret, HQ.
Qed.

Lemma twp_expire_first handler fuel F k x l (Q : unit -> timers U -> Prop) (t : timers U) :
  timers_hold s base F ((k, x) :: l) t ->
  (due now k = false -> Q tt t) ->
  (due now k = true -> forall t' n, timers_hold s base ((x, n) :: F) l t' -> world t' = world t ->
     expired x t' -> (forall y, y <> x -> events t' !! y = events t !! y) ->
     twp (handler (Some x);; ngx_event_expire_timers (Some s) now handler fuel) Q t') ->
  twp (ngx_event_expire_timers (Some s) now handler (S fuel)) Q t.
Proof.
  intros Ht HQ1 HQ2. pose proof (proj1 Ht) as H. destruct t as [st ev w]. cbn [ngx_event_expire_timers].
  apply twp_bind, twp_tree, wp_get. cbn [tree events world] in *.
  rewrite decide_False by (intros E0; now apply (holds_root _ _ _ _ _ _ H) in E0).
  apply twp_bind, twp_tree, (wp_nodes_holds _ _ _ _ _ _ _ H). intros n Hn. cbn [tree events world].
  apply twp_bind, twp_tree, (wp_first _ _ _ _ _ _ _ _ _ _ H); [left; cbn in Hn |- *; lia|]. cbn [tree events world].
  apply twp_bind, twp_tree, (wp_key _ _ _ _ k x _ _ _ H); [left|]. cbn [tree events world].
  unfold due in *. destruct (0 <? left_to now k) eqn:Hk.
  - apply twp_ret, HQ1. lia.
  - apply twp_bind, twp_tree, (wp_delete s timer_left (in_window base) F [] (k, x) l _ _ H).
    intros st' c H'. cbn [tree events world].
    destruct (hold_removed s base F [] k x l _ _ w _ Ht H') as (e & Ee & Hr).
    apply twp_bind, (twp_set _ _ e); [done|]. cbn [tree events world].
    assert (Es : <[x := set_timer_set false e]> ev !! x = Some (set_timer_set false e)) by apply lookup_insert_eq.
    apply twp_bind; eapply twp_set; [exact Es|]. cbn [tree events world].
    apply (HQ2 ltac:(lia) _ (Node 0 None None None c)); [exact (hold_flag _ _ _ _ true _ _ w _ Hr Es)|done| |].
    + eexists. cbn [events]. rewrite lookup_insert_eq. split; [done|]. done.
    + intros y Hy. cbn [events]. now rewrite !lookup_insert_ne by congruence.
Qed.

(** What the loop expects of handlers: they may arm and delete timers, but leave
    no due timer that was not there. *)
Definition respects (handler : ptr -> TM U unit) : Prop :=
  forall x F l (t : timers U), timers_hold s base F l t -> x ∈ F.*1 ->
  exists t' F' l', handler (Some x) t = Some (tt, t') /\ timers_hold s base F' l' t'
  /\ forall e : entry, e ∈ l' -> due now e.1 = true -> e ∈ l.

Definition due_timers (l : list entry) : list entry := filter (fun e => due now e.1 = true) l.

Lemma due_fewer F F' l l' (t t' : timers U) : timers_hold s base F l t -> timers_hold s base F' l' t' ->
  (forall e, e ∈ l' -> due now e.1 = true -> e ∈ l) ->
  (length (due_timers l') <= length (due_timers l))%nat.
Proof.
  intros [H _] [H' _] Hd. apply submseteq_length, NoDup_submseteq.
  - apply NoDup_filter, (NoDup_fmap_1 snd). pose proof (holds_nodup _ _ _ _ _ _ H') as N.
    apply NoDup_app in N as (_ & _ & N). exact N.
  - intros e He. apply list_elem_of_filter in He as [H1 H2]. apply list_elem_of_filter. auto.
Qed.

Lemma none_due F k x l (t : timers U) : timers_hold s base F ((k, x) :: l) t -> due now k = false ->
  Forall (fun e : entry => due now e.1 = false) ((k, x) :: l).
Proof.
  intros [H _] Hk. destruct (holds_order H) as [Hd Hs]. constructor; [done|].
  pose proof (sorted_due base now k x l Hnow Hd Hs) as Hl. rewrite Forall_forall in *.
  intros e He. specialize (Hl e He). unfold due in *. lia.
Qed.

(** The turns of an expiration: the earliest timer, if it is due, leaves the tree, its
    event [x] is marked timed out and no longer set, no other event changes, and the
    handler is called for it in that state; at the end no timer is due.  The list has
    the events in the order of the calls. *)
Inductive turns (handler : ptr -> TM U unit) : list loc -> timers U -> timers U -> Prop :=
  | turns_end F l t : timers_hold s base F l t -> Forall (fun e : entry => due now e.1 = false) l -> turns handler [] t t
  | turns_next F k x l n t t1 t2 t3 xs :
      timers_hold s base F ((k, x) :: l) t -> due now k = true ->
      timers_hold s base ((x, n) :: F) l t1 -> world t1 = world t -> expired x t1 ->
      (forall y, y <> x -> events t1 !! y = events t !! y) ->
      handler (Some x) t1 = Some (tt, t2) -> turns handler xs t2 t3 -> turns handler (x :: xs) t t3.

Lemma twp_expire handler fuel : respects handler ->
  forall F l (Q : unit -> timers U -> Prop) (t : timers U), timers_hold s base F l t ->
  (length (due_timers l) < fuel)%nat ->
  (forall xs t', turns handler xs t t' -> (length xs <= length (due_timers l))%nat -> Q tt t') ->
  twp (ngx_event_expire_timers (Some s) now handler fuel) Q t.
Proof.
  intros HR. induction fuel as [|fuel IH]; intros F l Q t Ht Hf HQ; [lia|].
  destruct l as [|[k x] l].
  { apply (twp_expire_none _ _ _ _ _ Ht), (HQ []); [by eapply turns_end | cbn; lia]. }
  apply (twp_expire_first _ _ _ _ _ _ _ _ Ht).
  - intros Hk. apply (HQ []); [eapply turns_end; [exact Ht | exact (none_due _ _ _ _ _ Ht Hk)] | cbn; lia].
  - intros Hk t1 n H1 W1 X1 Y1.
    destruct (HR x _ _ _ H1 ltac:(left)) as (t2 & F2 & l2 & E2 & H2 & D2).
    pose proof (due_fewer _ _ _ _ _ _ H1 H2 D2). unfold due_timers in Hf, HQ. rewrite filter_cons_True in Hf, HQ by done.
    cbn in Hf, HQ. apply twp_bind. unfold twp at 1. rewrite E2. apply (IH _ _ _ _ H2); unfold due_timers in *; [lia|].
    intros xs t3 H3 Hlen. apply (HQ (x :: xs)); [by eapply turns_next | cbn; lia].
Qed.

(** Handlers that leave the timers alone. *)
Definition passive (handler : ptr -> TM U unit) (h : loc -> U -> U) : Prop :=
  forall x (t : timers U), handler (Some x) t = Some (tt, Timers (tree t) (events t) (h x (world t))).

Lemma twp_expire_passive handler h fuel : passive handler h ->
  forall F l (Q : unit -> timers U -> Prop) (t : timers U), timers_hold s base F l t ->
  (length (due_timers l) < fuel)%nat ->
  (forall t' F' l', timers_hold s base F' l' t' -> l = due_timers l ++ l' ->
     Forall (fun e : entry => due now e.1 = false) l' ->
     world t' = fold_left (fun w e => h e.2 w) (due_timers l) (world t) ->
     Forall (fun e : entry => expired e.2 t') (due_timers l) ->
     (forall y, y ∉ (due_timers l).*2 -> events t' !! y = events t !! y) -> Q tt t') ->
  twp (ngx_event_expire_timers (Some s) now handler fuel) Q t.
Proof.
  intros HP. induction fuel as [|fuel IH]; intros F l Q t Ht Hf HQ; [lia|].
  destruct l as [|[k x] l].
  { apply (twp_expire_none _ _ _ _ _ Ht), (HQ _ _ [] Ht); [done|constructor|done|constructor|done]. }
  apply (twp_expire_first _ _ _ _ _ _ _ _ Ht).
  - intros Hk. pose proof (none_due _ _ _ _ _ Ht Hk) as Hn.
    assert (E0 : due_timers ((k, x) :: l) = []).
    { unfold due_timers. revert Hn. generalize ((k, x) :: l). intros l0 Hn.
      induction Hn as [|e l1 He Hl IHl]; [done|].
      rewrite filter_cons_False by congruence. exact IHl. }
    apply (HQ _ _ _ Ht); rewrite ?E0; done.
  - intros Hk t1 n H1 W1 X1 Y1. apply twp_bind. unfold twp at 1. rewrite (HP x t1).
    unfold due_timers in Hf, HQ. rewrite filter_cons_True in Hf, HQ by done. fold (due_timers l) in Hf, HQ.
    assert (Nx : x ∉ (due_timers l).*2).
    { pose proof (holds_nodup _ _ _ _ _ _ (proj1 H1)) as N. cbn in N. apply NoDup_cons in N as [N _].
      intros Hx. apply N, elem_of_app. right. apply list_elem_of_fmap in Hx as (e & -> & He).
      apply list_elem_of_filter in He as [_ He]. now apply list_elem_of_fmap_2. }
    apply (IH ((x, n) :: F) l _ (Timers (tree t1) (events t1) (h x (world t1)))); [exact H1|cbn in Hf; lia|].
    intros t' F' l' H' El Hl Ew Ex Ey. cbn [events world] in *. apply (HQ _ _ l' H').
    + cbn. now rewrite <- El.
    + done.
    + rewrite Ew. cbn. now rewrite W1.
    + constructor; [|done]. destruct X1 as (e & Ee & Hx). exists e. cbn. now rewrite Ey.
    + intros y Hy. rewrite fmap_cons in Hy. apply not_elem_of_cons in Hy as [Hy1 Hy2].
      rewrite Ey by done. now apply Y1.
Qed.

End Expire.

(** ** The other operations *)

Lemma without_ins gl k x l : without x (ins gl (k, x) l) = without x l.
Proof.
  unfold without. induction l as [|e l IH]; cbn [ins].
  - now rewrite filter_cons_False by (intros H; now apply H).
  - case_match; [now rewrite filter_cons_False by (intros H0; now apply H0)|].
    destruct (decide (e.2 <> x)); [rewrite !filter_cons_True by done|rewrite !filter_cons_False by done];
      now rewrite IH.
Qed.

Section Operations.
Context {U : Type} (s : loc) (base now : Z) (Hnow : in_window base now).

Lemma twp_find F l (Q : Z -> timers U -> Prop) (t : timers U) : timers_hold s base F l t ->
  (forall v, match l with
             | [] => v = NGX_TIMER_INFINITE
             | e :: l' => v = Z.max 0 (left_to now e.1)
                 /\ Forall (fun e' : entry => v <= Z.max 0 (left_to now e'.1)) l'
             end -> Q v t) ->
  twp (ngx_event_find_timer (Some s) now) Q t.
Proof.
  intros [H _] HQ. destruct t as [st ev w]. unfold ngx_event_find_timer.
  apply twp_bind, twp_tree, wp_get. cbn [tree events world] in *. destruct l as [|[k x] l].
  - rewrite decide_True by now apply (holds_root _ _ _ _ _ _ H). now apply twp_ret, HQ.
  - rewrite decide_False by (intros E0; now apply (holds_root _ _ _ _ _ _ H) in E0).
    apply twp_bind, twp_tree, (wp_nodes_holds _ _ _ _ _ _ _ H). intros n Hn. cbn [tree events world].
    apply twp_bind, twp_tree, wp_get. cbn [tree events world].
    apply twp_bind, twp_tree, (wp_first _ _ _ _ _ _ _ _ _ _ H); [left; cbn in Hn |- *; lia|]. cbn [tree events world].
    apply twp_bind, twp_tree, (wp_key _ _ _ _ k x _ _ _ H); [left|]. cbn [tree events world].
    apply twp_ret, HQ. cbn [fst].
    assert (E0 : (if 0 <? left_to now k then left_to now k else 0) = Z.max 0 (left_to now k)) by (case_if; lia).
    rewrite E0. split; [done|]. destruct (holds_order H) as [Hd Hs].
    eapply Forall_impl; [exact (sorted_due base now k x l Hnow Hd Hs)|]. cbn. intros e He. lia.
Qed.

Lemma twp_insert F F' k x n l (Q : unit -> timers U -> Prop) (t : timers U) :
  timers_hold s base F l t -> F ≡ₚ (x, n) :: F' -> in_window base k ->
  (forall t', timers_hold s base F' (ins timer_left (k, x) l) t' ->
     (forall y, y <> x -> events t' !! y = events t !! y) -> Q tt t') ->
  twp (on_tree (store_at (set_key k) (Some x));;
       on_tree (ngx_rbtree_insert ngx_rbtree_insert_timer_value (Some s) (Some x));;
       ev_set (set_timer_set true) (Some x)) Q t.
Proof.
  intros Ht P Hk HQ. apply twp_bind, twp_tree.
  apply (owns_foreign s timer_left (in_window base) x F l _ n F' _ _ (proj1 Ht) P). intros st1 H1.
  apply twp_bind, twp_tree. cbn [tree events world].
  apply (wp_insert s ngx_rbtree_insert_timer_value timer_left (in_window base) F' l x (set_key k n) _ _ H1 Hk).
  intros st2 H2. cbn [key set_key] in H2.
  destruct (hold_added s base F F' k x l n st2 (world t) t Ht P H2) as (e & Ee & Hr).
  eapply twp_set; [exact Ee|]. apply HQ; [exact Hr|].
  intros y Hy. cbn [events]. now rewrite lookup_insert_ne by congruence.
Qed.

(** The timer of [x] is set to about [k], the others are as they were. *)
Definition armed (x : loc) (k : Z) (l : list entry) (t : timers U) : Prop :=
  exists F' l' k', timers_hold s base F' l' t /\ (k', x) ∈ l'
  /\ (k' = k \/ (k', x) ∈ l /\ Z.abs (s64 (u64 (k - k'))) < NGX_TIMER_LAZY_DELAY)
  /\ without x l' = without x l.

Lemma armed_now k x l F t : timers_hold s base F (ins timer_left (k, x) l) t -> armed x k l t.
Proof.
  intros H. exists F, (ins timer_left (k, x) l), k. split; [done|].
  split; [rewrite ins_perm; left|]. split; [now left|apply without_ins].
Qed.

Lemma twp_add F l x timer (Q : unit -> timers U -> Prop) (t : timers U) :
  timers_hold s base F l t -> x ∈ F.*1 ++ l.*2 -> in_window base (u64 (now + timer)) ->
  (forall t', armed x (u64 (now + timer)) l t' -> Q tt t') ->
  twp (ngx_event_add_timer (Some s) now (Some x) timer) Q t.
Proof.
  intros Ht Hx Hk HQ. unfold ngx_event_add_timer. set (k := u64 (now + timer)) in *.
  destruct (proj2 Ht x Hx) as (e & Ee & He). apply twp_bind, (twp_get _ _ _ _ _ Ee).
  destruct (timer_set e) eqn:Es.
  - pose proof (proj1 He eq_refl) as Hl. apply list_elem_of_fmap in Hl as ([k0 y] & -> & Hl). cbn [snd] in *.
    apply twp_bind, twp_bind, twp_tree, (wp_key _ _ _ _ k0 y l _ _ (proj1 Ht) Hl).
    apply twp_ret. destruct (Z.abs (s64 (u64 (k - k0))) <? NGX_TIMER_LAZY_DELAY) eqn:Hlazy.
    + apply twp_ret, HQ. exists F, l, k0. destruct t. split; [exact Ht|]. split; [done|].
      split; [right; split; [done|lia]|done].
    + apply list_elem_of_split in Hl as (l1 & l2 & El). subst l.
      apply twp_bind, (twp_del_timer s base F l1 k0 y l2); [destruct t; exact Ht|]. intros t1 n H1 _ _.
      apply (twp_insert _ F k y n (l1 ++ l2) _ _ H1); [done|done|]. intros t2 H2 _. apply HQ.
      destruct (armed_now _ _ _ _ _ H2) as (F2 & l2' & k2 & A1 & A2 & A3 & A4).
      exists F2, l2', k2. split; [done|]. split; [done|]. split.
      { destruct A3 as [A3|[A3 _]]; [now left|]. left.
        pose proof (holds_nodup _ _ _ _ _ _ (proj1 H1)) as N. cbn in N. apply NoDup_cons in N as [N _].
        destruct N. apply elem_of_app. right. now apply (list_elem_of_fmap_2 snd _ (k2, y)). }
      rewrite A4.
      unfold without. rewrite !filter_app, filter_cons_False by (intros H0; now apply H0). done.
  - apply elem_of_app in Hx as [Hx|Hx]; [|apply He in Hx; discriminate].
    apply twp_bind, twp_ret, twp_bind, twp_ret.
    apply list_elem_of_fmap in Hx as ([y n] & -> & Hx). cbn [fst] in *.
    apply elem_of_Permutation in Hx as [F' P].
    apply (twp_insert _ F' k y n l _ _ Ht P Hk). intros t2 H2 _. apply HQ. exact (armed_now _ _ _ _ _ H2).
Qed.

End Operations.

Section Left.
Context {U : Type} (s : loc) (base : Z).

(** The loop over the timers. *)
Lemma twp_left F l2 : forall l1 fuel (Q : Z -> timers U -> Prop) (t : timers U),
  timers_hold s base F (l1 ++ l2) t -> (length l2 < fuel)%nat ->
  (forall v, v = NGX_OK \/ v = NGX_AGAIN ->
     (v = NGX_OK <-> forall x, x ∈ l2.*2 -> cancelable <$> events t !! x = Some true) -> Q v t) ->
  twp (timers_left (Some s) fuel (snd <$> head l2)) Q t.
Proof.
  induction l2 as [|[k x] l2 IH]; intros l1 fuel Q t Ht Hf HQ; (destruct fuel as [|fuel]; [cbn in Hf; lia|]);
    cbn [timers_left head fmap option_fmap option_map snd].
  - rewrite decide_True by done. apply twp_ret, HQ; [now left|]. split; [|done]. intros _ x Hx. cbn in Hx. set_solver.
  - rewrite decide_False by done. destruct (proj2 Ht x) as (e & Ee & _).
    { rewrite fmap_app, fmap_cons. set_solver. }
    apply twp_bind, (twp_get _ _ _ _ _ Ee). destruct (cancelable e) eqn:Ec; cbn [negb].
    + apply twp_bind, twp_tree, (wp_next s timer_left (in_window base) F l1 (k, x) l2 _ _ (proj1 Ht)).
      replace (Timers (tree t) (events t) (world t)) with t by now destruct t.
      apply (IH (l1 ++ [(k, x)])); [now rewrite <- app_assoc|cbn in Hf; lia|].
      intros v Hv Hiff. apply HQ; [done|]. rewrite Hiff. split; intros Hc y Hy.
      * rewrite fmap_cons in Hy. apply elem_of_cons in Hy as [->|Hy]; [cbn; rewrite Ee; cbn; congruence|auto].
      * apply Hc. rewrite fmap_cons. now right.
    + apply twp_ret, HQ; [now right|]. split; [discriminate|]. intros Hc. specialize (Hc x ltac:(rewrite fmap_cons; left)).
      rewrite Ee in Hc. cbn in Hc. congruence.
Qed.

Lemma twp_none_left F l (Q : Z -> timers U -> Prop) (t : timers U) : timers_hold s base F l t ->
  (forall v, v = NGX_OK \/ v = NGX_AGAIN ->
     (v = NGX_OK <-> forall x, x ∈ l.*2 -> cancelable <$> events t !! x = Some true) -> Q v t) ->
  twp (ngx_event_no_timers_left (Some s)) Q t.
Proof.
  intros Ht HQ. pose proof (proj1 Ht) as H. destruct t as [st ev w]. unfold ngx_event_no_timers_left.
  apply twp_bind, twp_tree, wp_get. cbn [tree events world] in *. destruct l as [|[k x] l].
  - rewrite decide_True by now apply (holds_root _ _ _ _ _ _ H). apply twp_ret, HQ; [now left|].
    split; [|done]. intros _ x Hx. cbn in Hx. set_solver.
  - rewrite decide_False by (intros E0; now apply (holds_root _ _ _ _ _ _ H) in E0).
    apply twp_bind, twp_tree, (wp_nodes_holds _ _ _ _ _ _ _ H). intros n Hn. cbn [tree events world].
    apply twp_bind, twp_tree, (wp_first _ _ _ _ _ _ _ _ _ _ H); [left; cbn in Hn |- *; lia|]. cbn [tree events world].
    exact (twp_left F ((k, x) :: l) [] n Q _ Ht Hn HQ).
Qed.

End Left.

(** ** Properties *)

(** C10. Expiration fires the due timers one by one and ends: with any handlers that
    leave no due timer that was not there (they may arm and delete timers), the loop is
    a sequence of turns, no more of them than there were due timers; in each the timer
    that is the earliest then, and due, is removed, its event is marked timed out and no
    longer set, and the handler is called for it; no timer of the tree is due at the
    end. *)
Theorem timer_expire_ends {U} s base now handler fuel F l (t : timers U) :
  in_window base now -> respects s base now handler -> timers_hold s base F l t ->
  (length (due_timers now l) < fuel)%nat ->
  exists xs t', ngx_event_expire_timers (Some s) now handler fuel t = Some (tt, t')
  /\ turns s base now handler xs t t' /\ (length xs <= length (due_timers now l))%nat
  /\ exists F' l', timers_hold s base F' l' t' /\ Forall (fun e : entry => due now e.1 = false) l'.
Proof.
  intros Hn HR Ht Hf. destruct (twp_run_unit (ngx_event_expire_timers (Some s) now handler fuel) (fun t' => exists xs,
    turns s base now handler xs t t' /\ (length xs <= length (due_timers now l))%nat) t) as (t' & E & xs & H & Hl).
  { apply (twp_expire s base now Hn handler fuel HR F l _ _ Ht Hf). eauto. }
  exists xs, t'. split_and!; [done..|]. clear -H. induction H as [F l t Ht Hd|]; [by exists F, l | done].
Qed.

(** Three timers, of the events 2, 3 and 4, and an event 5 without one. *)
Definition sample_events : gmap loc event :=
  list_to_map [(2%positive, Event true false false); (3%positive, Event true false true);
    (4%positive, Event true false true); (5%positive, Event false false true)].

Definition sample_timers : timers (list loc) := Timers sample_tree sample_events [].

Lemma sample_timers_hold :
  timers_hold 1 0 sample_free [(1, 3%positive); (5, 2%positive); (9, 4%positive)] sample_timers.
Proof.
  split.
  - exists None, (Node 0 None None None 0), (Rbtree.T 0 (Rbtree.T 1 E 3 1 E) 2 5 (Rbtree.T 1 E 4 9 E)), 1%nat.
    split; [split; [split; [|repeat constructor]|reflexivity]|].
    + apply (bool_decide_unpack _). vm_compute. exact I.
    + split; [done|]. split; [|repeat constructor].
      apply (rbt_black 0 _ _ _ _ true true); [done|repeat constructor..].
  - intros x Hx. cbn in Hx. rewrite !elem_of_cons in Hx.
    destruct Hx as [->|[->|[->|[->|Hx]]]]; [..|set_solver]; eexists; (split; [reflexivity|]); cbn;
      rewrite !elem_of_cons; (split; [intros [=]; auto|intros [|[|[|]]]; try discriminate; set_solver || done]).
Qed.

(** A handler that arms its event again, a second later. *)
Definition rearm (p : ptr) : TM (list loc) unit := ngx_event_add_timer (Some 1%positive) 6 p 1000.

Lemma nodup_entry (l : list entry) e e' : NoDup l.*2 -> e ∈ l -> e' ∈ l -> e.2 = e'.2 -> e = e'.
Proof.
  induction l as [|a l IH]; [set_solver|]. rewrite fmap_cons. intros [N1 N2]%NoDup_cons He He' E0.
  apply elem_of_cons in He, He'. destruct He as [->|He], He' as [->|He']; [done| | |auto].
  - destruct N1. rewrite E0. now apply list_elem_of_fmap_2.
  - destruct N1. rewrite <- E0. now apply list_elem_of_fmap_2.
Qed.

Lemma rearm_respects : respects 1 0 6 rearm.
Proof.
  intros x F l t Ht Hx. assert (W : in_window 0 6) by reflexivity.
  destruct (twp_run_unit (rearm (Some x)) (armed 1 0 x (u64 (6 + 1000)) l) t) as (t' & E0 & F' & l' & k & H' & Hk & Hd & Hw).
  { apply (twp_add 1 0 6 F l x 1000 _ _ Ht); [apply elem_of_app; now left|reflexivity|auto]. }
  exists t', F', l'. split; [done|]. split; [done|]. intros e He Hdue.
  destruct (decide (e.2 = x)) as [Ex|Nx].
  - exfalso. pose proof (holds_nodup _ _ _ _ _ _ (proj1 H')) as N. apply NoDup_app in N as (_ & _ & N).
    rewrite (nodup_entry l' e (k, x) N He Hk Ex) in Hdue.
    destruct Hd as [->|[Hk' _]]; [done|].
    pose proof (holds_nodup _ _ _ _ _ _ (proj1 Ht)) as Nt. apply NoDup_app in Nt as (_ & Nt & _).
    exact (Nt x Hx (list_elem_of_fmap_2 snd _ (k, x) Hk')).
  - assert (He' : e ∈ without x l') by now apply list_elem_of_filter.
    rewrite Hw in He'. now apply list_elem_of_filter in He'.
Qed.

Example timer_expire_ends_witness :
  exists xs t', ngx_event_expire_timers (Some 1%positive) 6 rearm 3 sample_timers = Some (tt, t')
  /\ turns 1 0 6 rearm xs sample_timers t' /\ (length xs <= 2)%nat
  /\ exists F' l', timers_hold 1 0 F' l' t' /\ Forall (fun e : entry => due 6 e.1 = false) l'.
Proof.
  apply (timer_expire_ends 1 0 6 rearm 3 sample_free [(1, 3%positive); (5, 2%positive); (9, 4%positive)]);
    [reflexivity|exact rearm_respects|exact sample_timers_hold|vm_compute; lia].
Defined.

(** Exactly the due timers fire, the earliest first: with handlers that leave
    the timers alone, each handler is called once, in the order of the delays,
    its event is marked timed out and no longer set, the later timers stay in
    the tree, and no other event changes. *)
Theorem timer_expire_order {U} s base now handler (h : loc -> U -> U) fuel F l (t : timers U) :
  in_window base now -> passive handler h -> timers_hold s base F l t ->
  (length (due_timers now l) < fuel)%nat ->
  exists t', ngx_event_expire_timers (Some s) now handler fuel t = Some (tt, t')
  /\ world t' = fold_left (fun w e => h e.2 w) (due_timers now l) (world t)
  /\ Forall (fun e : entry => expired e.2 t') (due_timers now l)
  /\ (forall y, y ∉ (due_timers now l).*2 -> events t' !! y = events t !! y)
  /\ exists F' l', timers_hold s base F' l' t' /\ l = due_timers now l ++ l'.
Proof.
  intros Hn HP Ht Hf. eapply twp_run_unit.
  apply (twp_expire_passive s base now Hn handler h fuel HP F l _ _ Ht Hf).
  intros t' F' l' H1 H2 _ H3 H4 H5. do 3 (split; [assumption|]). eauto.
Qed.

(** A handler that records the call. *)
Definition record (p : ptr) : TM (list loc) unit := fun t =>
  match p with
  | Some x => Some (tt, Timers (tree t) (events t) (world t ++ [x]))
  | None => None
  end.

Example timer_expire_order_witness :
  exists t', ngx_event_expire_timers (Some 1%positive) 6 record 3 sample_timers = Some (tt, t')
  /\ world t' = [3%positive; 2%positive]
  /\ Forall (fun e : entry => expired e.2 t') [(1, 3%positive); (5, 2%positive)]
  /\ (forall y, y ∉ [3%positive; 2%positive] -> events t' !! y = sample_events !! y)
  /\ exists F' l', timers_hold 1 0 F' l' t'
  /\ [(1, 3%positive); (5, 2%positive); (9, 4%positive)] = [(1, 3%positive); (5, 2%positive)] ++ l'.
Proof.
  apply (timer_expire_order 1 0 6 record (fun x w => w ++ [x]) 3 sample_free
    [(1, 3%positive); (5, 2%positive); (9, 4%positive)] sample_timers);
    [reflexivity|intros x t; reflexivity|exact sample_timers_hold|vm_compute; lia].
Defined.

(** [ngx_event_find_timer] says how long the process may sleep: infinitely
    when there is no timer, otherwise until the first timer, not at all when it
    is due, and no timer is due sooner. *)
Theorem timer_find_nearest {U} s base now F l (t : timers U) :
  in_window base now -> timers_hold s base F l t ->
  exists v, ngx_event_find_timer (Some s) now t = Some (v, t)
  /\ match l with
     | [] => v = NGX_TIMER_INFINITE
     | e :: l' => v = Z.max 0 (left_to now e.1)
         /\ Forall (fun e' : entry => v <= Z.max 0 (left_to now e'.1)) l'
     end.
Proof.
  intros Hn Ht. assert (W : twp (ngx_event_find_timer (Some s) now) (fun v t' => t' = t /\ match l with
     | [] => v = NGX_TIMER_INFINITE
     | e :: l' => v = Z.max 0 (left_to now e.1)
         /\ Forall (fun e' : entry => v <= Z.max 0 (left_to now e'.1)) l'
     end) t) by (apply (twp_find s base now Hn F l _ _ Ht); auto).
  destruct (twp_run _ _ _ W) as (v & t' & E0 & -> & Hv). eauto.
Qed.

Example timer_find_nearest_witness :
  exists v, ngx_event_find_timer (Some 1%positive) 0 sample_timers = Some (v, sample_timers)
  /\ v = Z.max 0 (left_to 0 1)
  /\ Forall (fun e' : entry => v <= Z.max 0 (left_to 0 e'.1)) [(5, 2%positive); (9, 4%positive)].
Proof.
  apply (timer_find_nearest 1 0 0 sample_free [(1, 3%positive); (5, 2%positive); (9, 4%positive)] sample_timers);
    [reflexivity|exact sample_timers_hold].
Defined.

(** Adding a timer arms the event at the time asked for: afterwards its node
    is in the tree at that time, or stays where it was when that is less than
    [NGX_TIMER_LAZY_DELAY] milliseconds away; the other timers are as they were,
    and the flags agree with the tree. *)
Theorem timer_add_arms {U} s base now F l x timer (t : timers U) :
  timers_hold s base F l t -> x ∈ F.*1 ++ l.*2 ->
  in_window base (u64 (now + timer)) ->
  exists t', ngx_event_add_timer (Some s) now (Some x) timer t = Some (tt, t')
  /\ armed s base x (u64 (now + timer)) l t'.
Proof.
  intros Ht Hx Hk. apply (twp_run_unit _ (armed s base x (u64 (now + timer)) l)).
  apply (twp_add s base now F l x timer _ _ Ht Hx Hk). auto.
Qed.

Example timer_add_arms_witness :
  exists t', ngx_event_add_timer (Some 1%positive) 6 (Some 5%positive) 1000 sample_timers = Some (tt, t')
  /\ armed 1 0 5 1006 [(1, 3%positive); (5, 2%positive); (9, 4%positive)] t'.
Proof.
  apply (timer_add_arms 1 0 6 sample_free [(1, 3%positive); (5, 2%positive); (9, 4%positive)] 5 1000 sample_timers);
    [exact sample_timers_hold|left|reflexivity].
Defined.

(** [ngx_event_no_timers_left] tells whether only cancelable timers are left. *)
Theorem timer_none_left {U} s base F l (t : timers U) : timers_hold s base F l t ->
  exists v, ngx_event_no_timers_left (Some s) t = Some (v, t)
  /\ (v = NGX_OK \/ v = NGX_AGAIN)
  /\ (v = NGX_OK <-> forall x, x ∈ l.*2 -> cancelable <$> events t !! x = Some true).
Proof.
  intros Ht. assert (W : twp (ngx_event_no_timers_left (Some s)) (fun v t' => t' = t
    /\ (v = NGX_OK \/ v = NGX_AGAIN)
    /\ (v = NGX_OK <-> forall x, x ∈ l.*2 -> cancelable <$> events t !! x = Some true)) t)
    by (apply (twp_none_left s base F l _ _ Ht); auto).
  destruct (twp_run _ _ _ W) as (v & t' & E0 & -> & Hv). eauto.
Qed.

End Timer.
