(* ===== verification/Upstream.v ===== *)
(** * Upstream: the weighted round robin of upstream servers
    (src/http/ngx_http_upstream_round_robin.c)

    The peers of an upstream are a list; a request keeps a bitmap of the peers it
    has tried and the peer it uses.  The peers are not in shared memory, so there
    are no locks to take.  Weights are the values of the configuration and small
    sums of them; they are taken not to overflow [ngx_int_t]. *)

From S2P Require Import Prelude.

Module Upstream.

(** ** Definitions *)

(** [ngx_http_upstream_rr_peer_t] *)
Record peer : Set := Peer {
  current_weight : Z; effective_weight : Z; weight : Z;
  conns : Z; max_conns : Z;
  fails : Z; accessed : Z; checked : Z; max_fails : Z; fail_timeout : Z;
  down : Z; refs : Z }.

(** [ngx_http_upstream_rr_peers_t]; the group of backup peers that [next] points
    to is the next of the list of groups. *)
Record peers : Set := Peers { number : Z; single : bool; group_tries : Z; peer_list : list peer }.

Definition set_weights (cw ew : Z) (p : peer) : peer :=
  Peer cw ew (weight p) (conns p) (max_conns p) (fails p) (accessed p) (checked p) (max_fails p)
    (fail_timeout p) (down p) (refs p).
Definition set_conns (c r : Z) (p : peer) : peer :=
  Peer (current_weight p) (effective_weight p) (weight p) c (max_conns p) (fails p) (accessed p)
    (checked p) (max_fails p) (fail_timeout p) (down p) r.
Definition set_fails (f a c : Z) (p : peer) : peer :=
  Peer (current_weight p) (effective_weight p) (weight p) (conns p) (max_conns p) f a c (max_fails p)
    (fail_timeout p) (down p) (refs p).
Definition set_peers (l : list peer) (g : peers) : peers :=
  Peers (number g) (single g) (group_tries g) l.

(** The bitmap [rrp->tried], words of 64 bits. *)
Definition tried_bit (i : nat) : Z := Z.shiftl 1 (Z.of_nat i mod 64).
Definition is_tried (tried : list Z) (i : nat) : bool :=
  negb (Z.land (nth (i / 64) tried 0) (tried_bit i) =? 0).
Definition set_tried (tried : list Z) (i : nat) : list Z :=
  upd (i / 64) (Z.lor (nth (i / 64) tried 0) (tried_bit i)) tried.

(** The tests that pass over a peer. *)
Definition unavailable (now : Z) (p : peer) : bool :=
  (negb (down p =? 0)
   || (negb (max_fails p =? 0) && (max_fails p <=? fails p) && (now - checked p <=? fail_timeout p))
   || (negb (max_conns p =? 0) && (max_conns p <=? conns p)))%bool.

Definition skipped (now : Z) (tried : list Z) (i : nat) (p : peer) : bool :=
  (is_tried tried i || unavailable now p)%bool.

(** A peer that takes part in the choice gains its effective weight, which
    recovers by one. *)
Definition charged (p : peer) : peer :=
  set_weights (current_weight p + effective_weight p)
    (if effective_weight p <? weight p then effective_weight p + 1 else effective_weight p) p.

(** The loop of [ngx_http_upstream_get_peer] from the peer [i] on: the peers,
    the total, and the best with its weight. *)
Fixpoint choose (now : Z) (tried : list Z) (i : nat) (l : list peer) (total : Z)
    (best : option (nat * Z)) : list peer * Z * option (nat * Z) :=
  match l with
  | [] => ([], total, best)
  | p :: l' =>
      if skipped now tried i p then
        let '(l2, total', best') := choose now tried (S i) l' total best in
        (p :: l2, total', best')
      else
        let q := charged p in
        let best' :=
          match best with
          | Some (_, w) => if w <? current_weight q then Some (i, current_weight q) else best
          | None => Some (i, current_weight q)
          end in
        let '(l2, total', best2) :=
          choose now tried (S i) l' (total + effective_weight p) best' in
        (q :: l2, total', best2)
  end.

Definition modify (i : nat) (f : peer -> peer) (l : list peer) : list peer :=
  match nth_error l i with Some p => upd i (f p) l | None => l end.

(** The chosen peer pays the total. *)
Definition picked (now total : Z) (p : peer) : peer :=
  let p := set_conns (conns p) (u64 (refs p + 1)) p in
  let p := set_weights (current_weight p - total) (effective_weight p) p in
  if fail_timeout p <? now - checked p then set_fails (fails p) (accessed p) now p else p.

(** The peers, the bitmap, and the index of the peer. *)
Definition ngx_http_upstream_get_peer (now : Z) (l : list peer) (tried : list Z)
  : list peer * list Z * option nat :=
  match choose now tried 0 l 0 None with
  | (l', _, None) => (l', tried, None)
  | (l', total, Some (i, _)) => (modify i (picked now total) l', set_tried tried i, Some i)
  end.

(** The only peer of a group. *)
Definition get_single (l : list peer) : option (list peer) :=
  match l with
  | p :: l' =>
      if negb (down p =? 0) then None
      else if (negb (max_conns p =? 0) && (max_conns p <=? conns p))%bool then None
      else Some (set_conns (u64 (conns p + 1)) (u64 (refs p + 1)) p :: l')
  | [] => None
  end.

(** The words of the bitmap that cover a group of [n] peers are reset. *)
Definition reset_tried (n : Z) (tried : list Z) : list Z :=
  let k := Z.to_nat ((n + 63) / 64) in repeat 0 k ++ skipn k tried.

(** [ngx_http_upstream_get_round_robin_peer] from a group on: the code, the
    groups, the bitmap, and how many groups after this one the current group is,
    with the index of the current peer when there is one. *)
Fixpoint get_round_robin_peer (now : Z) (gs : list peers) (tried : list Z)
  : Z * list peers * list Z * (nat * option nat) :=
  match gs with
  | [] => (NGX_BUSY, [], tried, (O, None))
  | g :: gs' =>
      let '(g', tried', found) :=
        if single g then
          match get_single (peer_list g) with
          | Some l => (set_peers l g, tried, Some O)
          | None => (g, tried, None)
          end
        else
          match ngx_http_upstream_get_peer now (peer_list g) tried with
          | (l, tried', Some i) =>
              (set_peers (modify i (fun p => set_conns (u64 (conns p + 1)) (refs p) p) l) g, tried', Some i)
          | (l, tried', None) => (set_peers l g, tried', None)
          end in
      match found with
      | Some i => (NGX_OK, g' :: gs', tried', (O, Some i))
      | None =>
          match gs' with
          | [] => (NGX_BUSY, [g'], tried', (O, None))
          | n :: _ =>
              let '(rc, gs2, tried2, (k, i)) :=
                get_round_robin_peer now gs' (reset_tried (number n) tried') in
              (rc, g' :: gs2, tried2, (S k, i))
          end
      end
  end.

(** [ngx_http_upstream_tries] *)
Definition ngx_http_upstream_tries (gs : list peers) : Z :=
  match gs with
  | [] => 0
  | [g] => group_tries g
  | g :: n :: _ => group_tries g + group_tries n
  end.

Definition NGX_PEER_FAILED : Z := 4.

(** The peer after a request that ended in [state]. *)
Definition freed (now state : Z) (p : peer) : peer :=
  let p :=
    if negb (Z.land state NGX_PEER_FAILED =? 0) then
      let p := set_fails (u64 (fails p + 1)) now now p in
      let ew :=
        if negb (max_fails p =? 0) then effective_weight p - Z.quot (weight p) (max_fails p)
        else effective_weight p in
      set_weights (current_weight p) (if ew <? 0 then 0 else ew) p
    else if accessed p <? checked p then set_fails 0 (accessed p) (checked p) p else p in
  set_conns (u64 (conns p - 1)) (u64 (refs p - 1)) p.

Definition freed_single (p : peer) : peer :=
  let p := if negb (fails p =? 0) then set_fails 0 (accessed p) (checked p) p else p in
  set_conns (u64 (conns p - 1)) (u64 (refs p - 1)) p.

(** The group and [pc->tries] after the current peer [i] is freed. *)
Definition ngx_http_upstream_free_round_robin_peer (now : Z) (g : peers) (i : nat) (state tries : Z)
  : peers * Z :=
  if single g then (set_peers (modify i freed_single (peer_list g)) g, 0)
  else
    (set_peers (modify i (freed now state) (peer_list g)) g,
     if negb (tries =? 0) then tries - 1 else tries).

(** ** Lemmas: the bitmap *)

Definition words_ok (tried : list Z) : Prop := Forall (fun w => 0 <= w < 2 ^ 64) tried.

Lemma tried_bit_test i j : (i / 64 = j / 64)%nat ->
  Z.testbit (tried_bit i) (Z.of_nat j mod 64) = Nat.eqb i j.
Proof.
  intros H. unfold tried_bit. rewrite Z.shiftl_1_l, Z.pow2_bits_eqb by (apply Z.mod_pos_bound; lia).
  assert (Hi := Nat.div_mod_eq i 64). assert (Hj := Nat.div_mod_eq j 64).
  assert (Ei : Z.of_nat i mod 64 = Z.of_nat (i mod 64)) by (now rewrite Nat2Z.inj_mod).
  assert (Ej : Z.of_nat j mod 64 = Z.of_nat (j mod 64)) by (now rewrite Nat2Z.inj_mod).
  rewrite Ei, Ej. destruct (Nat.eqb_spec i j) as [->|N]; [apply Z.eqb_refl|]. apply Z.eqb_neq. lia.
Qed.

Lemma land_bit w k : 0 <= k -> negb (Z.land w (Z.shiftl 1 k) =? 0) = Z.testbit w k.
Proof.
  intros Hk. destruct (Z.testbit w k) eqn:T.
  - apply negb_true_iff, Z.eqb_neq. intros E.
    assert (B : Z.testbit (Z.land w (Z.shiftl 1 k)) k = false) by (rewrite E; apply Z.bits_0).
    rewrite Z.land_spec, T, Z.shiftl_1_l, Z.pow2_bits_true in B by easy. discriminate.
  - apply negb_false_iff, Z.eqb_eq. apply Z.bits_inj'. intros n Hn.
    rewrite Z.land_spec, Z.shiftl_1_l, Z.bits_0. destruct (Z.eq_dec n k) as [->|N].
    + now rewrite T.
    + rewrite Z.pow2_bits_false by congruence. apply andb_false_r.
Qed.

Lemma is_tried_test tried i : is_tried tried i = Z.testbit (nth (i / 64) tried 0) (Z.of_nat i mod 64).
Proof. apply land_bit. apply Z.mod_pos_bound. lia. Qed.

Lemma nth_upd {A} i j (x d : A) l : (i < length l)%nat ->
  nth j (upd i x l) d = if Nat.eqb i j then x else nth j l d.
Proof.
  revert i j. induction l as [|y l IH]; intros i j H; [cbn in H; lia|].
  destruct i, j; cbn; try easy. apply IH. cbn in H. lia.
Qed.

Lemma is_tried_set tried i j : (i / 64 < length tried)%nat ->
  is_tried (set_tried tried i) j = (is_tried tried j || Nat.eqb i j)%bool.
Proof.
  intros H. rewrite !is_tried_test. unfold set_tried. rewrite nth_upd by exact H.
  destruct (Nat.eqb_spec (i / 64) (j / 64)) as [E|N].
  - rewrite Z.lor_spec, tried_bit_test, E by easy. reflexivity.
  - assert (i <> j) by (intros ->; easy). rewrite (proj2 (Nat.eqb_neq i j)) by easy.
    now rewrite orb_false_r.
Qed.

Lemma is_tried_fresh k i : is_tried (repeat 0 k) i = false.
Proof. rewrite is_tried_test, nth_repeat. apply Z.bits_0. Qed.

(** ** Lemmas: the choice *)

Fixpoint charge_all (now : Z) (tried : list Z) (i : nat) (l : list peer) : list peer :=
  match l with
  | [] => []
  | p :: l' => (if skipped now tried i p then p else charged p) :: charge_all now tried (S i) l'
  end.

Fixpoint total_of (now : Z) (tried : list Z) (i : nat) (l : list peer) : Z :=
  match l with
  | [] => 0
  | p :: l' => (if skipped now tried i p then 0 else effective_weight p) + total_of now tried (S i) l'
  end.

Definition eligible (now : Z) (tried : list Z) (l : list peer) (j : nat) (p : peer) : Prop :=
  nth_error l j = Some p /\ skipped now tried j p = false.

(** The peer [j] has the greatest weight, once charged, of the peers that take
    part, and is the first of those that have it. *)
Definition is_best (now : Z) (tried : list Z) (l : list peer) (j : nat) : Prop :=
  exists p, eligible now tried l j p
  /\ forall n q, eligible now tried l n q ->
     current_weight (charged q) < current_weight (charged p)
     \/ (current_weight (charged q) = current_weight (charged p) /\ (j <= n)%nat).

Definition in_part (now : Z) (tried : list Z) (i : nat) (l : list peer) (j : nat) (w : Z) : Prop :=
  exists n p, j = (i + n)%nat /\ nth_error l n = Some p /\ skipped now tried j p = false
  /\ w = current_weight (charged p).

Lemma in_part_next now tried i p l j w : in_part now tried (S i) l j w -> in_part now tried i (p :: l) j w.
Proof. intros (n & q & -> & H). exists (S n), q. split; [lia|exact H]. Qed.

Lemma choose_spec now tried l : forall i total best,
  match best with Some (b, _) => (b < i)%nat | None => True end ->
  exists best',
    choose now tried i l total best = (charge_all now tried i l, total + total_of now tried i l, best')
    /\ match best' with
       | Some (j, w) =>
           (best = Some (j, w) \/ in_part now tried i l j w)
           /\ (forall b w0, best = Some (b, w0) -> w0 < w \/ (w0 = w /\ (j <= b)%nat))
           /\ (forall n v, in_part now tried i l n v -> v < w \/ (v = w /\ (j <= n)%nat))
       | None => best = None /\ forall n v, ~ in_part now tried i l n v
       end.
Proof.
  induction l as [|p l IH]; intros i total best Hb; cbn [choose charge_all total_of].
  - exists best. split; [f_equal; f_equal; lia|].
    assert (No : forall n v, ~ in_part now tried i [] n v) by (intros n v ([|k] & q & _ & H & _); discriminate).
    destruct best as [[j w]|]; [|split; auto].
    split; [now left|]. split; [intros b w0 [= -> ->]; right; lia|]. intros n v H. now destruct (No n v).
  - destruct (skipped now tried i p) eqn:Sk.
    + destruct (IH (S i) total best) as (best' & E & H); [destruct best as [[b ?]|]; lia || easy|].
      rewrite E. exists best'. split; [reflexivity|].
      assert (Eq : forall n v, in_part now tried i (p :: l) n v <-> in_part now tried (S i) l n v).
      { intros n v. split; [|apply in_part_next]. intros ([|k] & q & -> & Hq & Hs & Hv).
        - rewrite Nat.add_0_r in Hs. injection Hq as ->. congruence.
        - exists k, q. split; [lia|easy]. }
      destruct best' as [[j w]|].
      * destruct H as (H1 & H2 & H3). split; [rewrite Eq; exact H1|]. split; [exact H2|].
        intros n v Hn. apply H3, Eq, Hn.
      * destruct H as [H1 H2]. split; [exact H1|]. intros n v Hn. now apply (H2 n v), Eq.
    + set (w1 := current_weight (charged p)).
      set (best1 := match best with
        | Some (_, w) => if w <? w1 then Some (i, w1) else best | None => Some (i, w1) end).
      destruct (IH (S i) (total + effective_weight p) best1) as (best' & E & H).
      { unfold best1. destruct best as [[b w]|]; [case_if|]; lia. }
      rewrite E. exists best'. split; [f_equal; f_equal; lia|].
      assert (Here : in_part now tried i (p :: l) i w1)
        by (exists O, p; rewrite Nat.add_0_r; easy).
      assert (Split : forall n v, in_part now tried i (p :: l) n v -> (n = i /\ v = w1) \/ in_part now tried (S i) l n v).
      { intros n v ([|k] & q & -> & Hq & Hs & Hv).
        - injection Hq as ->. left. split; [lia|easy].
        - right. exists k, q. split; [lia|easy]. }
      destruct best' as [[j w]|].
      * destruct H as (H1 & H2 & H3).
        assert (B1 : w1 < w \/ (w1 = w /\ (j <= i)%nat)).
        { unfold best1 in H2. destruct best as [[b w0]|]; [|exact (H2 _ _ eq_refl)].
          destruct (w0 <? w1) eqn:Hw; [exact (H2 _ _ eq_refl)|].
          destruct (H2 _ _ eq_refl) as [H|[H Hj]]; [left; lia|].
          destruct (Z.eq_dec w1 w); [right; split; [easy|lia]|left; lia]. }
        split; [|split].
        -- destruct H1 as [H1|H1]; [|right; now apply in_part_next].
           unfold best1 in H1. destruct best as [[b w0]|]; [destruct (w0 <? w1)|].
           ++ injection H1 as <- <-. now right.
           ++ now left.
           ++ injection H1 as <- <-. now right.
        -- intros b w0 ->. unfold best1 in H2. destruct (w0 <? w1) eqn:Hw; [|exact (H2 _ _ eq_refl)].
           left. destruct B1 as [B1|[B1 _]]; lia.
        -- intros n v Hn. destruct (Split n v Hn) as [[-> ->]|Hn']; [exact B1|exact (H3 n v Hn')].
      * destruct H as [H1 _]. unfold best1 in H1. destruct best as [[b w0]|]; [destruct (w0 <? w1)|]; discriminate.
Qed.

(** What one choice does. *)
Lemma get_peer_spec now l tried :
  (exists j, is_best now tried l j
   /\ ngx_http_upstream_get_peer now l tried
      = (modify j (picked now (total_of now tried 0 l)) (charge_all now tried 0 l), set_tried tried j, Some j))
  \/ ((forall n q, ~ eligible now tried l n q)
      /\ ngx_http_upstream_get_peer now l tried = (l, tried, None)).
Proof.
  unfold ngx_http_upstream_get_peer.
  destruct (choose_spec now tried l 0 0 None I) as (best' & E & H). rewrite E.
  destruct best' as [[j w]|].
  - left. exists j. split; [|reflexivity]. destruct H as ([H|(n & p & -> & Hp & Hs & ->)] & _ & H3); [easy|].
    exists p. split; [easy|]. intros m q [Hq Hsq].
    destruct (H3 m (current_weight (charged q))) as [?|[? ?]]; [exists m, q; easy|now left|right; easy].
  - right. destruct H as [_ H].
    assert (No : forall n q, ~ eligible now tried l n q).
    { intros n q [Hq Hs]. apply (H n (current_weight (charged q))). exists n, q. easy. }
    split; [exact No|]. f_equal. f_equal. clear E H.
    assert (All : forall l i, (forall n q, nth_error l n = Some q -> skipped now tried (i + n) q = true) ->
      charge_all now tried i l = l).
    { clear l No. induction l as [|p l IH]; intros i H; [reflexivity|]. cbn.
      rewrite <- (Nat.add_0_r i) at 1. rewrite (H O p eq_refl). f_equal. apply IH.
      intros n q Hn. rewrite <- (H (S n) q Hn). f_equal. lia. }
    apply All. intros n q Hn. cbn. destruct (skipped now tried n q) eqn:Hs; [easy|]. now destruct (No n q).
Qed.

(** ** Lemmas: sums of weights *)

Fixpoint sum (f : peer -> Z) (l : list peer) : Z :=
  match l with [] => 0 | p :: l' => f p + sum f l' end.

Lemma sum_charge now tried l : forall i,
  sum current_weight (charge_all now tried i l) = sum current_weight l + total_of now tried i l.
Proof. induction l as [|p l IH]; intros i; cbn; [lia|]. rewrite IH. case_if; cbn; lia. Qed.

Lemma modify_nth l j f n : nth_error (modify j f l) n
  = if Nat.eqb j n then option_map f (nth_error l n) else nth_error l n.
Proof.
  unfold modify. destruct (nth_error l j) as [p|] eqn:Hj.
  - destruct (Nat.eqb_spec j n) as [<-|N].
    + rewrite Hj. apply nth_error_upd_eq. apply nth_error_Some. congruence.
    + apply nth_error_upd_ne. congruence.
  - destruct (Nat.eqb_spec j n) as [<-|N]; [now rewrite Hj|reflexivity].
Qed.

Lemma modify_length l j f : length (modify j f l) = length l.
Proof. unfold modify. destruct (nth_error l j); [apply length_upd|reflexivity]. Qed.

Lemma sum_upd f l : forall j p q, nth_error l j = Some p -> sum f (upd j q l) = sum f l + f q - f p.
Proof.
  induction l as [|a l IH]; intros [|j] p q H; try discriminate; cbn in *.
  - injection H as ->. lia.
  - rewrite (IH j p q H). lia.
Qed.

Lemma sum_modify f l j g p : nth_error l j = Some p -> sum f (modify j g l) = sum f l + f (g p) - f p.
Proof. intros H. unfold modify. rewrite H. now apply sum_upd. Qed.

Lemma charge_nth now tried l : forall i n, nth_error (charge_all now tried i l) n
  = option_map (fun p => if skipped now tried (i + n) p then p else charged p) (nth_error l n).
Proof.
  induction l as [|p l IH]; intros i [|n]; cbn; try reflexivity; [now rewrite Nat.add_0_r|].
  rewrite IH. now replace (S i + n)%nat with (i + S n)%nat by lia.
Qed.

Lemma charge_length now tried l i : length (charge_all now tried i l) = length l.
Proof. revert i. induction l as [|p l IH]; intros i; cbn; auto. Qed.

Lemma picked_weights now total p :
  current_weight (picked now total p) = current_weight p - total
  /\ effective_weight (picked now total p) = effective_weight p
  /\ weight (picked now total p) = weight p.
Proof. unfold picked. cbv zeta. case_if; easy. Qed.

Lemma freed_weights now state p :
  current_weight (freed now state p) = current_weight p /\ weight (freed now state p) = weight p.
Proof. unfold freed. cbv zeta. case_if; [|case_if]; easy. Qed.

(** ** Histories of one group *)

(** A request arrives at [now], or one that was given the peer [i] leaves. *)
Inductive event : Set := Arrive (now : Z) | Leave (now : Z) (i : nat) (state : Z).

(** The bitmap of a new request ([ngx_http_upstream_init_round_robin_peer]). *)
Definition fresh (g : peers) : list Z := repeat 0 (Z.to_nat ((number g + 63) / 64)).

(** The group after some events, and the peers given to the requests. *)
Fixpoint serve (evs : list event) (g : peers) : peers * list nat :=
  match evs with
  | [] => (g, [])
  | Arrive now :: evs =>
      match get_round_robin_peer now [g] (fresh g) with
      | (_, g' :: _, _, (_, Some i)) => let '(g2, cs) := serve evs g' in (g2, i :: cs)
      | (_, g' :: _, _, (_, None)) => serve evs g'
      | (_, [], _, _) => (g, [])
      end
  | Leave now i state :: evs =>
      serve evs (fst (ngx_http_upstream_free_round_robin_peer now g i state 1))
  end.

(** The group after an arrival that finds the peer [j]. *)
Definition given (now : Z) (g : peers) (j : nat) : peers :=
  set_peers (modify j (fun p => set_conns (u64 (conns p + 1)) (refs p) p)
    (modify j (picked now (total_of now (fresh g) 0 (peer_list g)))
      (charge_all now (fresh g) 0 (peer_list g)))) g.

Lemma serve_arrive now evs g : single g = false ->
  (exists j, is_best now (fresh g) (peer_list g) j
     /\ serve (Arrive now :: evs) g
        = (fst (serve evs (given now g j)), j :: snd (serve evs (given now g j))))
  \/ ((forall n q, ~ eligible now (fresh g) (peer_list g) n q)
      /\ serve (Arrive now :: evs) g = serve evs g).
Proof.
  intros Hs. cbn [serve get_round_robin_peer]. rewrite Hs.
  destruct (get_peer_spec now (peer_list g) (fresh g)) as [(j & Hb & E)|[Hn E]]; rewrite E.
  - left. exists j. split; [exact Hb|]. fold (given now g j). now destruct (serve evs (given now g j)).
  - right. split; [exact Hn|]. now destruct g.
Qed.

Lemma given_nth now g j n : nth_error (peer_list (given now g j)) n
  = option_map (fun p =>
      let p := if skipped now (fresh g) n p then p else charged p in
      if Nat.eqb j n then
        let p := picked now (total_of now (fresh g) 0 (peer_list g)) p in
        set_conns (u64 (conns p + 1)) (refs p) p
      else p) (nth_error (peer_list g) n).
Proof.
  unfold given. cbn [peer_list set_peers]. rewrite !modify_nth, charge_nth. cbn [Nat.add].
  destruct (Nat.eqb j n); destruct (nth_error (peer_list g) n); reflexivity.
Qed.

Lemma given_sum now g j : is_best now (fresh g) (peer_list g) j ->
  sum current_weight (peer_list (given now g j)) = sum current_weight (peer_list g).
Proof.
  intros (p & [Hp Hs] & _). unfold given. cbn [peer_list set_peers].
  set (l := charge_all now (fresh g) 0 (peer_list g)). set (t := total_of now (fresh g) 0 (peer_list g)).
  assert (Hl : nth_error l j = Some (charged p)).
  { unfold l. rewrite charge_nth, Hp. cbn. now rewrite Hs. }
  rewrite (sum_modify _ _ _ _ (picked now t (charged p))) by (rewrite modify_nth, Nat.eqb_refl, Hl; reflexivity).
  rewrite (sum_modify _ _ _ _ (charged p)) by exact Hl. unfold l. rewrite sum_charge. fold t.
  destruct (picked_weights now t (charged p)) as (E & _). cbn [current_weight set_conns]. rewrite E. lia.
Qed.

(** ** Lemmas: the invariant of the weights *)

(** The fields that histories keep. *)
Definition weights_ok (p : peer) : Prop := 0 <= effective_weight p <= weight p /\ 0 <= max_fails p.

Lemma charged_ok p : weights_ok p -> weights_ok (charged p).
Proof. unfold weights_ok, charged. cbn. case_if; lia. Qed.

Lemma picked_ok now total p : weights_ok p -> weights_ok (picked now total p).
Proof. unfold weights_ok, picked. cbv zeta. case_if; cbn; easy. Qed.

Lemma freed_ok now state p : weights_ok p -> weights_ok (freed now state p).
Proof.
  unfold weights_ok, freed. cbv zeta. intros [H1 H2]. case_if.
  - cbn. split; [|easy]. destruct (max_fails p =? 0) eqn:Hm; cbn.
    + case_if; lia.
    + assert (0 <= Z.quot (weight p) (max_fails p)) by (apply Z.quot_pos; lia). case_if; lia.
  - case_if; easy.
Qed.

Lemma modify_Forall (P : peer -> Prop) l j f : (forall p, P p -> P (f p)) -> Forall P l -> Forall P (modify j f l).
Proof.
  intros Hf H. apply Forall_forall. intros q Hq. apply In_nth_error in Hq as [n Hn].
  rewrite modify_nth in Hn. rewrite Forall_forall in H. destruct (Nat.eqb j n).
  - destruct (nth_error l n) eqn:E; [|discriminate]. injection Hn as <-. apply Hf, H. eapply nth_error_In, E.
  - apply H. eapply nth_error_In, Hn.
Qed.

Lemma given_ok now g j : Forall weights_ok (peer_list g) -> Forall weights_ok (peer_list (given now g j)).
Proof.
  intros H. unfold given. cbn [peer_list set_peers]. apply modify_Forall; [easy|].
  apply modify_Forall; [apply picked_ok|]. apply Forall_forall. intros q Hq.
  apply In_nth_error in Hq as [n Hn]. rewrite charge_nth in Hn.
  destruct (nth_error (peer_list g) n) eqn:E; [|discriminate]. injection Hn as <-.
  rewrite Forall_forall in H. assert (Hp : weights_ok p) by (apply H; eapply nth_error_In, E).
  case_if; [exact Hp|now apply charged_ok].
Qed.

Lemma freed_sum now g i state : sum current_weight (modify i (freed now state) (peer_list g))
  = sum current_weight (peer_list g).
Proof.
  destruct (nth_error (peer_list g) i) as [p|] eqn:Hp.
  - rewrite (sum_modify _ _ _ _ p Hp). destruct (freed_weights now state p) as [E _]. lia.
  - unfold modify. now rewrite Hp.
Qed.

Lemma serve_invariant evs : forall g, single g = false -> Forall weights_ok (peer_list g) ->
  let g' := fst (serve evs g) in
  sum current_weight (peer_list g') = sum current_weight (peer_list g)
  /\ Forall weights_ok (peer_list g') /\ length (peer_list g') = length (peer_list g).
Proof.
  induction evs as [|[now|now i state] evs IH]; intros g Hs H; [easy| |].
  - destruct (serve_arrive now evs g Hs) as [(j & Hb & E)|[_ E]]; rewrite E; [|exact (IH g Hs H)].
    cbv zeta. cbn [fst]. destruct (IH (given now g j) Hs (given_ok now g j H)) as (E1 & E2 & E3).
    split; [|split; [exact E2|]].
    + rewrite E1. now apply given_sum.
    + rewrite E3. unfold given. cbn. now rewrite !modify_length, charge_length.
  - cbn [serve]. unfold ngx_http_upstream_free_round_robin_peer. rewrite Hs. cbn [fst].
    destruct (IH (set_peers (modify i (freed now state) (peer_list g)) g) Hs) as (E1 & E2 & E3).
    { cbn. apply modify_Forall; [apply freed_ok|exact H]. }
    cbn [peer_list set_peers] in *. rewrite freed_sum in E1. rewrite modify_length in E3. easy.
Qed.

(** ** Lemmas: fairness *)

(** A peer that is in service and has not failed. *)
Definition healthy (p : peer) : Prop :=
  down p = 0 /\ max_conns p = 0 /\ fails p = 0 /\ 0 <= max_fails p
  /\ effective_weight p = weight p /\ 0 < weight p.

Lemma healthy_available now p : healthy p -> unavailable now p = false.
Proof. unfold healthy, unavailable. intros (-> & -> & -> & H & _). cbn. lia. Qed.

Lemma healthy_charged p : healthy p ->
  healthy (charged p) /\ current_weight (charged p) = current_weight p + weight p /\ weight (charged p) = weight p.
Proof.
  unfold healthy, charged. cbn. intros (H1 & H2 & H3 & H4 & H5 & H6).
  rewrite H5, Z.ltb_irrefl. easy.
Qed.

Lemma healthy_picked now total p : healthy p -> healthy (picked now total p).
Proof. unfold healthy, picked. cbv zeta. case_if; cbn; easy. Qed.

Lemma healthy_freed now state p : Z.land state NGX_PEER_FAILED = 0 -> healthy p -> healthy (freed now state p).
Proof. unfold freed. intros ->. cbn [Z.eqb negb]. cbv zeta. unfold healthy. case_if; cbn; easy. Qed.

Definition arrivals (evs : list event) : Z :=
  Z.of_nat (length (filter (fun e => match e with Arrive _ => true | Leave _ _ _ => false end) evs)).

Definition no_failure (e : event) : Prop :=
  match e with Arrive _ => True | Leave _ _ state => Z.land state NGX_PEER_FAILED = 0 end.

Definition times (i : nat) (cs : list nat) : Z := Z.of_nat (count_occ Nat.eq_dec cs i).

(** Every peer is healthy and its weight is within the total below its debt. *)
Definition in_step (W : Z) (p : peer) : Prop := healthy p /\ - W < current_weight p.

Lemma sum_max f l m : l <> [] -> (forall p, In p l -> f p <= m) -> 0 < sum f l -> 0 < m.
Proof.
  intros Hn Hm Hp. destruct (Z_lt_le_dec 0 m) as [|Hle]; [easy|]. exfalso.
  assert (sum f l <= 0); [|lia]. clear Hn Hp. induction l as [|p l IH]; cbn; [lia|].
  pose proof (Hm p (or_introl eq_refl)). pose proof (IH (fun q Hq => Hm q (or_intror Hq))). lia.
Qed.

Lemma not_skipped now g n p : healthy p -> skipped now (fresh g) n p = false.
Proof. intros H. unfold skipped, fresh. now rewrite is_tried_fresh, healthy_available. Qed.

Lemma total_healthy now g l : forall i, Forall healthy l -> total_of now (fresh g) i l = sum weight l.
Proof.
  induction l as [|p l IH]; intros i H; cbn; [easy|]. inversion H as [|? ? Hp Hl]; subst.
  rewrite (not_skipped now g i p Hp), (IH _ Hl). destruct Hp as (_ & _ & _ & _ & -> & _). easy.
Qed.

Definition balanced_group (W : Z) (g : peers) : Prop :=
  single g = false /\ peer_list g <> [] /\ Forall (in_step W) (peer_list g)
  /\ sum weight (peer_list g) = W /\ sum current_weight (peer_list g) = 0.

Lemma in_step_healthy W l : Forall (in_step W) l -> Forall healthy l.
Proof. apply Forall_impl. now intros p [H _]. Qed.

Lemma sum_map f (g : peer -> peer) l : (forall p, In p l -> f (g p) = f p) -> sum f (map g l) = sum f l.
Proof.
  induction l as [|p l IH]; intros H; cbn; [easy|].
  rewrite (H p (or_introl eq_refl)), IH; [easy|]. intros q Hq. apply H. now right.
Qed.

(** The best peer is in credit. *)
Lemma best_credit W now g j p : balanced_group W g -> is_best now (fresh g) (peer_list g) j ->
  nth_error (peer_list g) j = Some p -> 0 < current_weight p + weight p.
Proof.
  intros (Hs & Hn & Hf & HW & H0) (p' & [Hp' _] & Hb) Hp. assert (p' = p) as -> by congruence.
  pose proof (in_step_healthy _ _ Hf) as Hh. rewrite Forall_forall in Hh.
  apply (sum_max (fun q => current_weight q + weight q) (peer_list g)); [easy| |].
  - intros q Hq. apply In_nth_error in Hq as [n Hnq].
    pose proof (Hh q (nth_error_In _ _ Hnq)) as Hhq. pose proof (Hh p (nth_error_In _ _ Hp)) as Hhp.
    destruct (healthy_charged q Hhq) as (_ & Eq & _). destruct (healthy_charged p Hhp) as (_ & Ep & _).
    destruct (Hb n q) as [H|[H _]]; [split; [easy|now apply not_skipped]| |]; lia.
  - assert (Hpos : 0 < W).
    { destruct (peer_list g) as [|q l] eqn:El; [easy|]. pose proof (Hh q (or_introl eq_refl)) as (_ & _ & _ & _ & _ & Hq).
      assert (0 <= sum weight l); [|cbn in HW; lia]. clear HW H0 Hp Hb Hf Hp' Hn.
      assert (Hl : forall r, In r l -> 0 < weight r) by (intros r Hr; now apply Hh; right).
      clear Hh El. induction l as [|r l IH]; cbn; [lia|]. pose proof (Hl r (or_introl eq_refl)).
      assert (0 <= sum weight l) by (apply IH; intros x Hx; apply Hl; now right). lia. }
    assert (Es : forall l, sum (fun q => current_weight q + weight q) l = sum current_weight l + sum weight l)
      by (induction l as [|q l IH]; cbn; lia).
    rewrite Es. lia.
Qed.

(** One peer of the group after an arrival. *)
Lemma given_fair W now g j i p : balanced_group W g -> is_best now (fresh g) (peer_list g) j ->
  nth_error (peer_list g) i = Some p ->
  exists q, nth_error (peer_list (given now g j)) i = Some q /\ in_step W q /\ weight q = weight p
  /\ current_weight q = current_weight p + weight p - W * times i [j].
Proof.
  intros Hg Hb Hp. destruct Hg as (Hs & Hn & Hf & HW & H0) eqn:EHg. clear EHg.
  pose proof Hf as Hf'. rewrite Forall_forall in Hf'. destruct (Hf' p (nth_error_In _ _ Hp)) as [Hh Hd].
  rewrite given_nth, Hp. cbn [option_map]. cbv zeta. rewrite (not_skipped now g i p Hh).
  rewrite (total_healthy now g _ 0 (in_step_healthy _ _ Hf)), HW.
  destruct (healthy_charged p Hh) as (Hc & Ec & Ew).
  assert (Hw : 0 < weight p) by (destruct Hh as (_ & _ & _ & _ & _ & H); exact H).
  unfold times. cbn [count_occ]. destruct (Nat.eqb_spec j i) as [->|N].
  - destruct (Nat.eq_dec i i) as [_|]; [|easy]. eexists. split; [reflexivity|].
    pose proof (healthy_picked now W _ Hc) as Hk. destruct (picked_weights now W (charged p)) as (E1 & E2 & E3).
    pose proof (best_credit W now g i p (conj Hs (conj Hn (conj Hf (conj HW H0)))) Hb Hp).
    split; [split; [exact Hk|]|]; cbn [current_weight weight set_conns]; rewrite ?E1, ?E3, ?Ec, ?Ew; [lia|].
    split; [easy|]. lia.
  - destruct (Nat.eq_dec j i) as [|_]; [easy|]. eexists. split; [reflexivity|].
    split; [split; [exact Hc|]|]; rewrite ?Ec; [lia|]. split; [easy|]. cbn. lia.
Qed.

Lemma sum_nth f f' l : forall l', length l = length l' ->
  (forall i p q, nth_error l i = Some p -> nth_error l' i = Some q -> f p = f' q) -> sum f l = sum f' l'.
Proof.
  induction l as [|p l IH]; intros [|q l'] Hl H; try discriminate; [easy|]. cbn.
  rewrite (H O p q eq_refl eq_refl), (IH l'); [easy|now injection Hl|].
  intros i p' q' Hp Hq. exact (H (S i) p' q' Hp Hq).
Qed.

Lemma Forall_nth (P : peer -> Prop) l : (forall i p, nth_error l i = Some p -> P p) -> Forall P l.
Proof. intros H. apply Forall_forall. intros p Hp. apply In_nth_error in Hp as [i Hi]. exact (H i p Hi). Qed.

Lemma given_balanced W now g j : balanced_group W g -> is_best now (fresh g) (peer_list g) j ->
  balanced_group W (given now g j).
Proof.
  intros Hg Hb. pose proof Hg as (Hs & Hn & Hf & HW & H0).
  assert (Hl : length (peer_list (given now g j)) = length (peer_list g))
    by (unfold given; cbn; now rewrite !modify_length, charge_length).
  assert (Each : forall i q, nth_error (peer_list (given now g j)) i = Some q ->
    exists p, nth_error (peer_list g) i = Some p /\ in_step W q /\ weight q = weight p).
  { intros i q Hq. destruct (nth_error (peer_list g) i) as [p|] eqn:Hp.
    - destruct (given_fair W now g j i p Hg Hb Hp) as (q' & Hq' & Hi & Hw & _). exists p. split; [easy|].
      assert (q' = q) as -> by congruence. easy.
    - apply nth_error_None in Hp. assert (nth_error (peer_list (given now g j)) i = None); [|congruence].
      apply nth_error_None. lia. }
  split; [exact Hs|]. split; [destruct (peer_list (given now g j)); [|easy]; destruct (peer_list g); easy|].
  split; [apply Forall_nth; intros i q Hq; destruct (Each i q Hq) as (p & _ & Hi & _); exact Hi|].
  split; [|now rewrite given_sum].
  rewrite <- HW. apply sum_nth; [easy|]. intros i q p Hq Hp.
  destruct (Each i q Hq) as (p' & Hp' & _ & Hw). congruence.
Qed.

Lemma freed_balanced W now g i state : Z.land state NGX_PEER_FAILED = 0 -> balanced_group W g ->
  balanced_group W (set_peers (modify i (freed now state) (peer_list g)) g).
Proof.
  intros Hst (Hs & Hn & Hf & HW & H0). split; [exact Hs|]. cbn [peer_list set_peers].
  split; [|split; [|split]].
  - intros E. apply (f_equal (@length _)) in E. rewrite modify_length in E. now destruct (peer_list g).
  - apply modify_Forall; [|exact Hf]. intros p [Hp Hd]. split; [now apply healthy_freed|].
    destruct (freed_weights now state p) as [-> _]. exact Hd.
  - rewrite <- HW. destruct (nth_error (peer_list g) i) as [p|] eqn:Hp.
    + rewrite (sum_modify _ _ _ _ p Hp). destruct (freed_weights now state p) as [_ ->]. lia.
    + unfold modify. now rewrite Hp.
  - now rewrite freed_sum.
Qed.

Lemma best_exists W now g : balanced_group W g -> exists p, eligible now (fresh g) (peer_list g) 0 p.
Proof.
  intros (_ & Hn & Hf & _). destruct (peer_list g) as [|p l]; [easy|]. exists p. split; [easy|].
  inversion Hf as [|? ? [Hp _]]; subst. now apply not_skipped.
Qed.

(** After any history the weight of a peer tells how often it was chosen. *)
Lemma serve_fair W evs : forall g, balanced_group W g -> Forall no_failure evs ->
  forall i p, nth_error (peer_list g) i = Some p ->
  exists q, nth_error (peer_list (fst (serve evs g))) i = Some q /\ in_step W q /\ weight q = weight p
  /\ current_weight q = current_weight p + arrivals evs * weight p - W * times i (snd (serve evs g)).
Proof.
  induction evs as [|[now|now j state] evs IH]; intros g Hg He i p Hp.
  - cbn. exists p. split; [easy|]. destruct Hg as (_ & _ & Hf & _). rewrite Forall_forall in Hf.
    split; [apply Hf, (nth_error_In _ _ Hp)|]. split; [easy|]. unfold arrivals, times. cbn. lia.
  - inversion He as [|? ? _ He']; subst.
    destruct (serve_arrive now evs g (proj1 Hg)) as [(j & Hb & E)|[No _]].
    2:{ destruct (best_exists W now g Hg) as [q Hq]. now destruct (No _ _ Hq). }
    rewrite E. cbn [fst snd]. destruct (given_fair W now g j i p Hg Hb Hp) as (q1 & Hq1 & _ & Hw1 & Hc1).
    destruct (IH _ (given_balanced W now g j Hg Hb) He' i q1 Hq1) as (q & Hq & Hi & Hw & Hc).
    exists q. split; [exact Hq|]. split; [exact Hi|]. split; [congruence|].
    assert (Ea : arrivals (Arrive now :: evs) = arrivals evs + 1)
      by (unfold arrivals; cbn [filter length]; lia).
    assert (Et : times i (j :: snd (serve evs (given now g j))) = times i [j] + times i (snd (serve evs (given now g j))))
      by (unfold times; cbn [count_occ]; destruct (Nat.eq_dec j i); lia).
    rewrite Ea, Et, Hc, Hc1, Hw1. lia.
  - inversion He as [|? ? Hst He']; subst. cbn [serve]. unfold ngx_http_upstream_free_round_robin_peer.
    rewrite (proj1 Hg). cbn [fst].
    set (g1 := set_peers (modify j (freed now state) (peer_list g)) g).
    assert (Hp1 : exists p1, nth_error (peer_list g1) i = Some p1 /\ weight p1 = weight p
      /\ current_weight p1 = current_weight p).
    { unfold g1. cbn [peer_list set_peers]. rewrite modify_nth, Hp. cbn [option_map].
      destruct (Nat.eqb j i); eexists; (split; [reflexivity|]); [|easy].
      destruct (freed_weights now state p). easy. }
    destruct Hp1 as (p1 & Hp1 & Hw1 & Hc1).
    destruct (IH g1 (freed_balanced W now g j state Hst Hg) He' i p1 Hp1) as (q & Hq & Hi & Hw & Hc).
    exists q. split; [exact Hq|]. split; [exact Hi|]. split; [congruence|].
    rewrite Hc, Hc1, Hw1. reflexivity.
Qed.

(** ** Lemmas: groups and retries *)

(** A peer may be given to a request: what the code checks. *)
Definition usable (now : Z) (g : peers) (p : peer) : Prop :=
  down p = 0 /\ (max_conns p = 0 \/ conns p < max_conns p)
  /\ (single g = true \/ max_fails p = 0 \/ fails p < max_fails p \/ fail_timeout p < now - checked p).

Lemma usable_unavailable now g p : single g = false -> usable now g p <-> unavailable now p = false.
Proof.
  intros Hs. unfold usable, unavailable. rewrite Hs.
  rewrite !orb_false_iff, !andb_false_iff, negb_false_iff, !negb_false_iff, !Z.eqb_eq, !Z.leb_gt.
  intuition congruence.
Qed.

Lemma reset_untried n tried i : Z.of_nat i < n -> is_tried (reset_tried n tried) i = false.
Proof.
  intros Hi. rewrite is_tried_test. unfold reset_tried.
  assert (Hk : (i / 64 < Z.to_nat ((n + 63) / 64))%nat).
  { apply Nat2Z.inj_lt. rewrite Nat2Z.inj_div, Z2Nat.id by (apply Z.div_pos; lia).
    change (Z.of_nat 64) with 64. apply Z.div_lt_upper_bound; [lia|].
    pose proof (Z.mul_div_le (n + 63) 64 ltac:(lia)). pose proof (Z.mod_pos_bound (n + 63) 64 ltac:(lia)).
    pose proof (Z.div_mod (n + 63) 64 ltac:(lia)). lia. }
  rewrite app_nth1 by (now rewrite repeat_length). rewrite nth_repeat. apply Z.bits_0.
Qed.

(** The group is as configured: the bitmap covers it, and a single peer is one. *)
Definition group_ok (g : peers) : Prop :=
  number g = Z.of_nat (length (peer_list g)) /\ (single g = true -> length (peer_list g) = 1%nat).

(** The peer [i] of the group [k] of [gs] is a good choice, [tried] being the
    bitmap for the first group. *)
Definition good_choice (now : Z) (gs : list peers) (tried : list Z) (k i : nat) : Prop :=
  exists g p, nth_error gs k = Some g /\ nth_error (peer_list g) i = Some p /\ usable now g p
  /\ (k = O -> single g = false -> is_tried tried i = false).

(** No peer can be chosen. *)
Definition no_choice (now : Z) (gs : list peers) (tried : list Z) : Prop :=
  forall k i, ~ good_choice now gs tried k i.

Lemma single_choice now g i p tried : group_ok g -> single g = true -> nth_error (peer_list g) i = Some p ->
  (get_single (peer_list g) = None -> ~ usable now g p)
  /\ (get_single (peer_list g) <> None -> i = O /\ usable now g p)
  /\ (single g = false -> is_tried tried i = false).
Proof.
  intros [_ H1] Hs Hp. specialize (H1 Hs). destruct (peer_list g) as [|q [|]]; try discriminate.
  destruct i as [|i]; [|destruct i; discriminate]. injection Hp as ->.
  unfold get_single, usable. rewrite Hs. split; [|split; [|easy]].
  - destruct (down p =? 0) eqn:Hd; cbn [negb]; [|intros _ (H & _); lia].
    destruct (negb (max_conns p =? 0) && (max_conns p <=? conns p))%bool eqn:Hc; [|discriminate].
    intros _ (_ & H & _). lia.
  - destruct (down p =? 0) eqn:Hd; cbn [negb]; [|easy].
    destruct (negb (max_conns p =? 0) && (max_conns p <=? conns p))%bool eqn:Hc; [easy|].
    intros _. split; [easy|]. split; [lia|]. split; [lia|now left].
Qed.

Lemma get_round_robin_spec now gs : forall tried, Forall group_ok gs ->
  exists rc gs' tried' k r, get_round_robin_peer now gs tried = (rc, gs', tried', (k, r))
  /\ match r with
     | Some i => rc = NGX_OK /\ good_choice now gs tried k i
     | None => rc = NGX_BUSY /\ no_choice now gs tried
     end.
Proof.
  induction gs as [|g gs IH]; intros tried Hok.
  { cbn. do 5 eexists. split; [reflexivity|]. split; [easy|]. intros k i (g & p & H & _). now destruct k. }
  inversion Hok as [|? ? Hg Hgs]; subst. cbn [get_round_robin_peer].
  set (step := if single g then _ else _).
  assert (Step : exists g' tried' found, step = (g', tried', found)
    /\ match found with
       | Some i => exists p, nth_error (peer_list g) i = Some p /\ usable now g p
           /\ (single g = false -> is_tried tried i = false)
       | None => forall i p, nth_error (peer_list g) i = Some p ->
           ~ (usable now g p /\ (single g = false -> is_tried tried i = false))
       end).
  { unfold step. destruct (single g) eqn:Hs.
    - destruct (get_single (peer_list g)) as [l|] eqn:E.
      + do 3 eexists. split; [reflexivity|]. destruct Hg as [Hn H1].
        destruct (peer_list g) as [|p l0] eqn:El; [now specialize (H1 Hs)|]. exists p. split; [easy|].
        rewrite <- El in E. assert (Hp : nth_error (peer_list g) 0 = Some p) by now rewrite El.
        destruct (single_choice now g 0 p tried (conj (eq_trans Hn (f_equal (fun l => Z.of_nat (length l)) (eq_sym El)))
          (fun H => eq_trans (f_equal (@length _) El) (H1 H))) Hs Hp) as (_ & H2 & _).
        split; [apply H2; congruence|easy].
      + do 3 eexists. split; [reflexivity|]. intros i p Hp [Hu _].
        destruct (single_choice now g i p tried Hg Hs Hp) as (H2 & _). now apply H2.
    - destruct (get_peer_spec now (peer_list g) tried) as [(j & (p & [Hp Hsk] & _) & E)|[No E]]; rewrite E.
      + do 3 eexists. split; [reflexivity|]. exists p. split; [exact Hp|].
        unfold skipped in Hsk. apply orb_false_iff in Hsk as [Ht Hu].
        split; [now apply usable_unavailable|easy].
      + do 3 eexists. split; [reflexivity|]. intros i p Hp [Hu Ht].
        apply (No i p). split; [exact Hp|]. unfold skipped. rewrite (Ht eq_refl). cbn.
        now apply (usable_unavailable now g). }
  destruct Step as (g' & tried' & found & -> & Hf). destruct found as [i|].
  - destruct Hf as (p & Hp & Hu & Ht). do 5 eexists. split; [reflexivity|]. split; [easy|].
    exists g, p. easy.
  - assert (No0 : forall i, ~ good_choice now (g :: gs) tried 0 i).
    { intros i (g0 & p & [= <-] & Hp & Hu & Ht). apply (Hf i p Hp). auto. }
    destruct gs as [|n gs]; [do 5 eexists; split; [reflexivity|]; split; [easy|]|].
    { intros [|k] i; [apply No0|]. intros (g0 & p & H & _). now destruct k. }
    destruct (IH (reset_tried (number n) tried') Hgs) as (rc & gs' & t2 & k & r & E & Hr). rewrite E.
    do 5 eexists. split; [reflexivity|]. destruct r as [i|].
    + destruct Hr as [-> (g0 & p & H1 & H2 & H3 & _)]. split; [easy|]. exists g0, p. easy.
    + destruct Hr as [-> Hno]. split; [easy|]. intros [|k2] i; [apply No0|].
      intros (g0 & p & H1 & H2 & H3 & _). apply (Hno k2 i). exists g0, p. split; [exact H1|].
      split; [exact H2|]. split; [exact H3|]. intros -> _. injection H1 as ->.
      inversion Hgs as [|? ? [Hn _] _]; subst. apply reset_untried. rewrite Hn.
      assert (i < length (peer_list g0))%nat by (apply nth_error_Some; congruence). lia.
Qed.

(** The choices of one request, made at several times from peers that other
    requests change in between. *)
Fixpoint attempts (states : list (Z * list peer)) (tried : list Z) : list nat :=
  match states with
  | [] => []
  | (now, l) :: states =>
      match ngx_http_upstream_get_peer now l tried with
      | (_, tried', Some i) => i :: attempts states tried'
      | (_, tried', None) => attempts states tried'
      end
  end.

Lemma set_tried_length tried i : length (set_tried tried i) = length tried.
Proof. apply length_upd. Qed.

Lemma attempts_spec n states : forall tried, (n <= 64 * length tried)%nat ->
  Forall (fun s => length (snd s) = n) states ->
  NoDup (attempts states tried)
  /\ forall i, In i (attempts states tried) -> (i < n)%nat /\ is_tried tried i = false.
Proof.
  induction states as [|[now l] states IH]; intros tried Hn Hl; cbn [attempts]; [split; [constructor|easy]|].
  inversion Hl as [|? ? H1 H2]; subst. cbn [snd] in *.
  destruct (get_peer_spec now l tried) as [(j & (p & [Hp Hs] & _) & E)|[_ E]]; rewrite E; [|now apply IH].
  assert (Hj : (j < length l)%nat) by (apply nth_error_Some; congruence).
  assert (Hw : (j / 64 < length tried)%nat) by (apply Nat.Div0.div_lt_upper_bound; lia).
  unfold skipped in Hs. apply orb_false_iff in Hs as [Ht _].
  destruct (IH (set_tried tried j)) as [N Hin]; [now rewrite set_tried_length|exact H2|].
  split.
  - constructor; [|exact N]. intros Hi. destruct (Hin j Hi) as [_ Hi'].
    rewrite is_tried_set, Nat.eqb_refl, orb_true_r in Hi' by exact Hw. discriminate.
  - intros i [<-|Hi]; [easy|]. destruct (Hin i Hi) as [Hi1 Hi2]. split; [exact Hi1|].
    rewrite is_tried_set in Hi2 by exact Hw. now apply orb_false_iff in Hi2.
Qed.

(** ** Lemmas: shares *)

Lemma weight_positive l : Forall healthy l -> l <> [] -> 0 < sum weight l.
Proof.
  intros H Hn. assert (Hge : forall l, Forall healthy l -> 0 <= sum weight l).
  { induction 1 as [|p l' Hp _ IH]; cbn; [lia|]. destruct Hp as (_ & _ & _ & _ & _ & Hp). lia. }
  destruct H as [|p l' Hp Hl]; [easy|]. cbn. destruct Hp as (_ & _ & _ & _ & _ & Hp).
  pose proof (Hge l' Hl). lia.
Qed.

Lemma sum_zero f l : Forall (fun q => f q = 0) l -> sum f l = 0.
Proof. induction 1; cbn; lia. Qed.

Lemma start_balanced g : single g = false -> peer_list g <> [] -> Forall healthy (peer_list g) ->
  Forall (fun q => current_weight q = 0) (peer_list g) -> balanced_group (sum weight (peer_list g)) g.
Proof.
  intros Hs Hn Hh H0. pose proof (weight_positive _ Hh Hn). split; [exact Hs|]. split; [exact Hn|].
  split; [|split; [easy|now apply sum_zero]].
  rewrite Forall_forall in *. intros q Hq. split; [now apply Hh|]. rewrite (H0 q Hq). lia.
Qed.

Lemma sum_nonneg_zero f l : (forall q, In q l -> 0 <= f q) -> sum f l = 0 -> forall q, In q l -> f q = 0.
Proof.
  intros Hf Hs q Hq. assert (Hge : forall l, (forall q, In q l -> 0 <= f q) -> 0 <= sum f l).
  { clear. induction l as [|p l IH]; intros H; cbn; [lia|].
    pose proof (H p (or_introl eq_refl)). pose proof (IH (fun q Hq => H q (or_intror Hq))). lia. }
  induction l as [|p l IH]; [easy|]. cbn in Hs.
  pose proof (Hf p (or_introl eq_refl)). pose proof (Hge l (fun q Hq => Hf q (or_intror Hq))).
  destruct Hq as [<-|Hq]; [lia|]. apply IH; [intros r Hr; apply Hf; now right|lia|exact Hq].
Qed.

(** After whole cycles nothing is owed. *)
Lemma share_exact g evs m i p :
  single g = false -> peer_list g <> [] -> Forall healthy (peer_list g) ->
  Forall (fun q => current_weight q = 0) (peer_list g) -> Forall no_failure evs ->
  arrivals evs = m * sum weight (peer_list g) -> nth_error (peer_list g) i = Some p ->
  times i (snd (serve evs g)) = m * weight p.
Proof.
  intros Hs Hn Hh H0 He Hm Hp. set (W := sum weight (peer_list g)) in *.
  pose proof (weight_positive _ Hh Hn) as HW. fold W in HW.
  pose proof (start_balanced g Hs Hn Hh H0) as Hg. fold W in Hg.
  assert (Each : forall j r, nth_error (peer_list g) j = Some r ->
    exists q, nth_error (peer_list (fst (serve evs g))) j = Some q
    /\ current_weight q = W * (m * weight r - times j (snd (serve evs g))) /\ 0 <= current_weight q).
  { intros j r Hr. destruct (serve_fair W evs g Hg He j r Hr) as (q & Hq & [_ Hd] & _ & Hc).
    rewrite Forall_forall in H0. rewrite (H0 r (nth_error_In _ _ Hr)), Hm in Hc.
    exists q. split; [exact Hq|]. split; [lia|].
    assert (Hc' : current_weight q = W * (m * weight r - times j (snd (serve evs g)))) by lia.
    rewrite Hc' in *. assert (- 1 < m * weight r - times j (snd (serve evs g))) by nia. nia. }
  destruct (Each i p Hp) as (q & Hq & Hc & _).
  assert (Hok : Forall weights_ok (peer_list g)).
  { eapply Forall_impl; [|exact Hh]. unfold healthy, weights_ok. intros r (_ & _ & _ & ? & ? & ?). lia. }
  destruct (serve_invariant evs g Hs Hok) as (Hsum & _ & Hlen). cbv zeta in Hsum, Hlen.
  rewrite (sum_zero _ _ H0) in Hsum.
  assert (Hz : current_weight q = 0).
  { apply (sum_nonneg_zero current_weight (peer_list (fst (serve evs g)))); [|exact Hsum|exact (nth_error_In _ _ Hq)].
    intros r Hr. apply In_nth_error in Hr as [j Hj].
    destruct (nth_error (peer_list g) j) as [r0|] eqn:Hr0.
    - destruct (Each j r0 Hr0) as (r' & Hr' & _ & Hpos). congruence.
    - apply nth_error_None in Hr0. rewrite <- Hlen in Hr0. apply nth_error_None in Hr0. congruence. }
  nia.
Qed.

(** ** Properties *)

(** C11. The weighted round robin is fair.  From a group of healthy peers with no
    weight accumulated, requests arriving and leaving without failure in any
    order, no peer is ever given more than one request above its share of the
    arrivals, the share being its weight over the sum [W] of the weights; and
    whenever the number of arrivals is a multiple of [W], every peer has been
    given exactly its share, so that every peer is chosen in every cycle of [W]
    requests. *)
Theorem round_robin_fair g evs W i p :
  single g = false -> peer_list g <> [] -> W = sum weight (peer_list g) ->
  Forall healthy (peer_list g) -> Forall (fun q => current_weight q = 0) (peer_list g) ->
  Forall no_failure evs -> nth_error (peer_list g) i = Some p ->
  let cs := snd (serve evs g) in
  W * times i cs < arrivals evs * weight p + W
  /\ forall m, arrivals evs = m * W -> times i cs = m * weight p.
Proof.
  intros Hs Hn HW Hh H0 He Hp cs. subst W.
  assert (Hg : balanced_group (sum weight (peer_list g)) g) by now apply start_balanced.
  rewrite Forall_forall in H0. pose proof (H0 p (nth_error_In _ _ Hp)) as Hp0.
  destruct (serve_fair _ evs g Hg He i p Hp) as (q & Hq & [_ Hd] & _ & Hc). fold cs in Hc.
  split; [lia|]. intros m Hm. apply (share_exact g evs m i p); try assumption. now rewrite Forall_forall.
Qed.

Definition new_peer (w : Z) : peer := Peer 0 w w 0 0 0 0 0 1 10 0 0.
Definition sample_group : peers := Peers 3 false 3 [new_peer 5; new_peer 1; new_peer 2].

Example round_robin_fair_witness :
  let evs := [Arrive 100; Arrive 100; Leave 101 0 0; Arrive 101; Arrive 101; Arrive 102; Arrive 102;
              Leave 103 2 0; Arrive 103; Arrive 103] in
  let cs := snd (serve evs sample_group) in
  cs = [0; 2; 0; 0; 1; 0; 2; 0]%nat
  /\ 8 * times 2 cs < arrivals evs * 2 + 8 /\ forall m, arrivals evs = m * 8 -> times 2 cs = m * 2.
Proof.
  intros evs cs. split; [vm_compute; reflexivity|].
  apply (round_robin_fair sample_group evs 8 2 (new_peer 2)); try reflexivity; try discriminate;
    repeat constructor; discriminate.
Defined.

(** Histories keep the weights: whatever requests arrive, leave and fail, in
    any order, the current weights of a group keep their sum, and every
    effective weight stays between zero and the configured weight. *)
Theorem round_robin_weights g evs :
  single g = false -> Forall weights_ok (peer_list g) ->
  let g' := fst (serve evs g) in
  sum current_weight (peer_list g') = sum current_weight (peer_list g)
  /\ Forall weights_ok (peer_list g') /\ length (peer_list g') = length (peer_list g).
Proof. apply serve_invariant. Qed.

Example round_robin_weights_witness :
  let g' := fst (serve [Arrive 100; Leave 101 0 4; Arrive 101] sample_group) in
  sum current_weight (peer_list g') = 0 /\ Forall weights_ok (peer_list g') /\ length (peer_list g') = 3%nat.
Proof.
  apply (round_robin_weights sample_group [Arrive 100; Leave 101 0 4; Arrive 101]); [reflexivity|].
  repeat constructor; discriminate.
Defined.

(** The choice is sound and complete over the groups: a request is given a
    peer that is not down, not over its connections, not suspended by failures
    (the only peer of a group is not suspended) and not tried by the request
    before; it is refused with [NGX_BUSY] only when no peer of the group or of
    the backup groups is such. *)
Theorem round_robin_choice now gs tried :
  Forall group_ok gs ->
  exists rc gs' tried' k r, get_round_robin_peer now gs tried = (rc, gs', tried', (k, r))
  /\ match r with
     | Some i => rc = NGX_OK /\ good_choice now gs tried k i
     | None => rc = NGX_BUSY /\ no_choice now gs tried
     end.
Proof. apply get_round_robin_spec. Qed.

Example round_robin_choice_witness :
  exists rc gs' tried' k r, get_round_robin_peer 7 [sample_group; sample_group] [7] = (rc, gs', tried', (k, r))
  /\ match r with
     | Some i => rc = NGX_OK /\ good_choice 7 [sample_group; sample_group] [7] k i
     | None => rc = NGX_BUSY /\ no_choice 7 [sample_group; sample_group] [7]
     end.
Proof.
  apply (round_robin_choice 7 [sample_group; sample_group] [7]).
  repeat constructor; discriminate.
Defined.

(** C12. Retries end: whatever the other requests do to the peers in between, a
    request is never given the same peer of a group twice, so it is given at most
    as many as there are. *)
Theorem round_robin_retries n states tried :
  (n <= 64 * length tried)%nat -> Forall (fun s => length (snd s) = n) states ->
  NoDup (attempts states tried) /\ (length (attempts states tried) <= n)%nat.
Proof.
  intros Hn Hl. destruct (attempts_spec n states tried Hn Hl) as [N Hin]. split; [exact N|].
  rewrite <- (length_seq n 0). apply (NoDup_incl_length N). intros i Hi. apply in_seq.
  destruct (Hin i Hi). lia.
Qed.

Example round_robin_retries_witness :
  let states := [(5, peer_list sample_group); (5, peer_list sample_group); (6, peer_list sample_group);
                 (6, peer_list sample_group)] in
  NoDup (attempts states [0]) /\ (length (attempts states [0%Z]) <= 3)%nat.
Proof.
  apply (round_robin_retries 3 _ [0]); [vm_compute; lia|repeat constructor].
Defined.

End Upstream.
