(* ===== verification/Hpack.v ===== *)
(** * Hpack: the header compression of HTTP/2 (src/http/v2/ngx_http_v2_table.c,
    src/http/v2/ngx_http_v2_encode.c, [ngx_http_v2_parse_int] of
    src/http/v2/ngx_http_v2.c)

    The dynamic table keeps the bytes of its headers in a ring of 4096 bytes and
    pointers to structures that describe them in another ring, which grows by 64.
    The structures of evicted headers are used again.  The theorems compare it
    with the table of RFC 7541: a list of headers, newest first, cut to a size.

    An operation returns [None] when it would read or write memory it does not
    own, or use a slot that was never written. *)

From S2P Require Import Prelude NgxString HuffTables Huffman.
From stdpp Require Import base option list sets.

#[local] Open Scope Z_scope.

Module Hpack.

(** ** Definitions *)

(** [ngx_http_v2_header_t], by the bytes its two strings point to. *)
Record header : Set := Header { name : list Z; value : list Z }.

(** The same structure in the dynamic table: the data pointers point into the
    storage. *)
Record entry : Set := Entry { name_len : Z; name_at : Z; value_len : Z; value_at : Z }.

(** [ngx_http_v2_hpack_t].  [entries] is the array of pointers, a pointer being the
    number of the structure among those allocated so far, [structs]; the storage is
    its bytes and [pos] an offset into it. *)
Record hpack : Set := Hpack {
  entries : option (list (option nat));
  structs : list entry;
  added : Z; deleted : Z; reused : Z; allocated : Z;
  size : Z; free : Z;
  storage : list Z; pos : Z }.

Definition NGX_HTTP_V2_TABLE_SIZE : Z := 4096.

Definition ngx_http_v2_static_table : list header := [
  Header (bs ":authority") (bs "");
  Header (bs ":method") (bs "GET");
  Header (bs ":method") (bs "POST");
  Header (bs ":path") (bs "/");
  Header (bs ":path") (bs "/index.html");
  Header (bs ":scheme") (bs "http");
  Header (bs ":scheme") (bs "https");
  Header (bs ":status") (bs "200");
  Header (bs ":status") (bs "204");
  Header (bs ":status") (bs "206");
  Header (bs ":status") (bs "304");
  Header (bs ":status") (bs "400");
  Header (bs ":status") (bs "404");
  Header (bs ":status") (bs "500");
  Header (bs "accept-charset") (bs "");
  Header (bs "accept-encoding") (bs "gzip, deflate");
  Header (bs "accept-language") (bs "");
  Header (bs "accept-ranges") (bs "");
  Header (bs "accept") (bs "");
  Header (bs "access-control-allow-origin") (bs "");
  Header (bs "age") (bs "");
  Header (bs "allow") (bs "");
  Header (bs "authorization") (bs "");
  Header (bs "cache-control") (bs "");
  Header (bs "content-disposition") (bs "");
  Header (bs "content-encoding") (bs "");
  Header (bs "content-language") (bs "");
  Header (bs "content-length") (bs "");
  Header (bs "content-location") (bs "");
  Header (bs "content-range") (bs "");
  Header (bs "content-type") (bs "");
  Header (bs "cookie") (bs "");
  Header (bs "date") (bs "");
  Header (bs "etag") (bs "");
  Header (bs "expect") (bs "");
  Header (bs "expires") (bs "");
  Header (bs "from") (bs "");
  Header (bs "host") (bs "");
  Header (bs "if-match") (bs "");
  Header (bs "if-modified-since") (bs "");
  Header (bs "if-none-match") (bs "");
  Header (bs "if-range") (bs "");
  Header (bs "if-unmodified-since") (bs "");
  Header (bs "last-modified") (bs "");
  Header (bs "link") (bs "");
  Header (bs "location") (bs "");
  Header (bs "max-forwards") (bs "");
  Header (bs "proxy-authenticate") (bs "");
  Header (bs "proxy-authorization") (bs "");
  Header (bs "range") (bs "");
  Header (bs "referer") (bs "");
  Header (bs "refresh") (bs "");
  Header (bs "retry-after") (bs "");
  Header (bs "server") (bs "");
  Header (bs "set-cookie") (bs "");
  Header (bs "strict-transport-security") (bs "");
  Header (bs "transfer-encoding") (bs "");
  Header (bs "user-agent") (bs "");
  Header (bs "vary") (bs "");
  Header (bs "via") (bs "");
  Header (bs "www-authenticate") (bs "") ].

Definition NGX_HTTP_V2_STATIC_TABLE_ENTRIES : Z := Z.of_nat (length ngx_http_v2_static_table).

(** [index] is at least 1. *)
Definition ngx_http_v2_get_static_name (index : Z) : option (list Z) :=
  name <$> ngx_http_v2_static_table !! Z.to_nat (index - 1).

Definition ngx_http_v2_get_static_value (index : Z) : option (list Z) :=
  value <$> ngx_http_v2_static_table !! Z.to_nat (index - 1).

(** The pointer [entries[i % allocated]]. *)
Definition slot (h : hpack) (i : Z) : option nat :=
  es ← entries h; s ← es !! Z.to_nat (i mod allocated h); s.

(** [ngx_cpymem(p, src, n)] out of the storage, and into it. *)
Definition read_at (st : list Z) (off n : Z) : option (list Z) :=
  if (0 <=? off) && (0 <=? n) && (off + n <=? Z.of_nat (length st))
  then Some (take (Z.to_nat n) (drop (Z.to_nat off) st)) else None.

Definition write_at (st : list Z) (off : Z) (data : list Z) : option (list Z) :=
  if (0 <=? off) && (off + Z.of_nat (length data) <=? Z.of_nat (length st))
  then Some (take (Z.to_nat off) st ++ data ++ drop (Z.to_nat off + length data) st) else None.

(** The copy of a string that may wrap around the end of the storage; the null
    byte after it is not part of the [ngx_str_t]. *)
Definition copy_string (st : list Z) (off len : Z) : option (list Z) :=
  let rest := NGX_HTTP_V2_TABLE_SIZE - off in
  if rest <? len then
    a ← read_at st off rest;
    b ← read_at st 0 (len - rest);
    Some (a ++ b)
  else read_at st off len.

(** The outcome of [ngx_http_v2_get_indexed_header]: its code and the header of the
    state, [old] before the call.  [name_mem] and [value_mem] say whether the two
    allocations succeed. *)
Definition ngx_http_v2_get_indexed_header (h : hpack) (index : Z) (name_only : bool)
    (name_mem value_mem : bool) (old : header) : option (Z * header) :=
  if index =? 0 then Some (NGX_ERROR, old)
  else
    let index := index - 1 in
    if index <? NGX_HTTP_V2_STATIC_TABLE_ENTRIES then
      e ← ngx_http_v2_static_table !! Z.to_nat index;
      Some (NGX_OK, e)
    else
      let index := index - NGX_HTTP_V2_STATIC_TABLE_ENTRIES in
      if index <? u64 (added h - deleted h) then
        id ← slot h (u64 (added h - index - 1));
        e ← structs h !! id;
        if negb name_mem then Some (NGX_ERROR, old)
        else
          n ← copy_string (storage h) (name_at e) (name_len e);
          if name_only then Some (NGX_OK, Header n (value old))
          else if negb value_mem then Some (NGX_ERROR, Header n (value old))
          else
            v ← copy_string (storage h) (value_at e) (value_len e);
            Some (NGX_OK, Header n v)
      else Some (NGX_ERROR, old).

(** The eviction of the oldest entry, the body of the loops below. *)
Definition evict (h : hpack) : option hpack :=
  id ← slot h (deleted h);
  e ← structs h !! id;
  Some (Hpack (entries h) (structs h) (added h) (u64 (deleted h + 1)) (reused h) (allocated h)
          (size h) (u64 (free h + (32 + name_len e + value_len e))) (storage h) (pos h)).

Definition set_size (sz fr : Z) (h : hpack) : hpack :=
  Hpack (entries h) (structs h) (added h) (deleted h) (reused h) (allocated h) sz fr
    (storage h) (pos h).
Definition set_deleted (d : Z) (h : hpack) : hpack :=
  Hpack (entries h) (structs h) (added h) d (reused h) (allocated h) (size h) (free h)
    (storage h) (pos h).

(** The loops take one unit of fuel per entry of the table. *)
Definition live (h : hpack) : nat := Z.to_nat (u64 (added h - deleted h)).

(** [do { .. } while (size > h2c->hpack.free)] *)
Fixpoint account_loop (fuel : nat) (sz : Z) (h : hpack) : option hpack :=
  match fuel with
  | O => None
  | S fuel => h' ← evict h; if free h' <? sz then account_loop fuel sz h' else Some h'
  end.

Definition ngx_http_v2_table_account (h : hpack) (sz : Z) : option (Z * hpack) :=
  let sz := sz + 32 in
  if sz <=? free h then Some (NGX_OK, set_size (size h) (free h - sz) h)
  else if size h <? sz then Some (NGX_DECLINED, set_size (size h) (size h) (set_deleted (added h) h))
  else
    h' ← account_loop (live h) sz h;
    Some (NGX_OK, set_size (size h') (free h' - sz) h').

(** [while (needed > (ssize_t) h2c->hpack.free)] *)
Fixpoint size_loop (fuel : nat) (needed : Z) (h : hpack) : option hpack :=
  if s64 (free h) <? needed then
    match fuel with
    | O => None
    | S fuel => h' ← evict h; size_loop fuel needed h'
    end
  else Some h.

Definition ngx_http_v2_table_size (h : hpack) (sz : Z) : option (Z * hpack) :=
  if NGX_HTTP_V2_TABLE_SIZE <? sz then Some (NGX_ERROR, h)
  else
    let needed := s64 (size h - sz) in
    h' ← size_loop (live h) needed h;
    Some (NGX_OK, set_size sz (u64 (free h' - needed)) h').

(** What the allocator answers to [ngx_http_v2_add_header]: whether there is
    memory for the first array of pointers, for the storage (its bytes), for a
    structure and for the grown array. *)
Record memory : Set := Memory {
  first_mem : bool; storage_mem : option (list Z); entry_mem : bool; grown_mem : bool }.

Definition set_entries (es : option (list (option nat))) (h : hpack) : hpack :=
  Hpack es (structs h) (added h) (deleted h) (reused h) (allocated h) (size h) (free h)
    (storage h) (pos h).

(** The first call allocates the table. *)
Definition first_add (m : memory) (h : hpack) : bool * hpack :=
  match entries h with
  | Some _ => (true, h)
  | None =>
      let h := Hpack None (structs h) (added h) (deleted h) (reused h) 64
                 NGX_HTTP_V2_TABLE_SIZE NGX_HTTP_V2_TABLE_SIZE (storage h) (pos h) in
      if negb (first_mem m) then (false, h)
      else
        let h := set_entries (Some (replicate 64 None)) h in
        match storage_mem m with
        | None => (false, h)
        | Some st => (true, Hpack (entries h) (structs h) (added h) (deleted h) (reused h)
                              (allocated h) (size h) (free h) st 0)
        end
  end.

(** A structure: the oldest one of the evicted entries, or a new one, whose
    fields are yet to be set. *)
Definition take_entry (m : memory) (h : hpack) : option (option nat * hpack) :=
  if reused h =? deleted h then
    if negb (entry_mem m) then Some (None, h)
    else Some (Some (length (structs h)),
               Hpack (entries h) (structs h ++ [Entry 0 0 0 0]) (added h) (deleted h) (reused h)
                 (allocated h) (size h) (free h) (storage h) (pos h))
  else
    id ← slot h (reused h);
    Some (Some id,
          Hpack (entries h) (structs h) (added h) (deleted h) (u64 (reused h + 1))
            (allocated h) (size h) (free h) (storage h) (pos h)).

(** The copy of one string at [pos], where the code takes [avail] bytes to be left
    up to the end of the storage: the storage, and the new [pos]. *)
Definition put_string (st : list Z) (pos avail : Z) (s : list Z) : option (list Z * Z) :=
  let len := Z.of_nat (length s) in
  if len <=? avail then
    st ← write_at st pos s;
    Some (st, pos + len)
  else
    st ← write_at st pos (take (Z.to_nat avail) s);
    st ← write_at st 0 (drop (Z.to_nat avail) s);
    Some (st, len - avail).

(** The fields of the structure and the two copies. *)
Definition put_header (hd : header) (id : nat) (h : hpack) : option hpack :=
  let nlen := Z.of_nat (length (name hd)) in
  let avail := NGX_HTTP_V2_TABLE_SIZE - pos h in
  '(st1, pos1) ← put_string (storage h) (pos h) avail (name hd);
  let avail := if nlen <=? avail then avail else NGX_HTTP_V2_TABLE_SIZE in
  let avail := avail - nlen in
  '(st2, pos2) ← put_string st1 pos1 avail (value hd);
  _ ← structs h !! id;
  Some (Hpack (entries h)
          (<[id := Entry nlen (pos h) (Z.of_nat (length (value hd))) pos1]> (structs h))
          (added h) (deleted h) (reused h) (allocated h) (size h) (free h) st2 pos2).

(** A full array of pointers is copied to one with 64 slots more, the oldest
    entry first. *)
Definition grow (m : memory) (h : hpack) : option (bool * hpack) :=
  if allocated h =? u64 (added h - deleted h) then
    if negb (grown_mem m) then Some (false, h)
    else
      es ← entries h;
      let index := deleted h mod allocated h in
      Some (true,
            Hpack (Some (drop (Z.to_nat index) es ++ take (Z.to_nat index) es ++ replicate 64 None))
              (structs h) (allocated h) 0 0 (allocated h + 64) (size h) (free h)
              (storage h) (pos h))
  else Some (true, h).

(** [h2c->hpack.entries[h2c->hpack.added++ % h2c->hpack.allocated] = entry] *)
Definition link (id : nat) (h : hpack) : option hpack :=
  es ← entries h;
  let i := Z.to_nat (added h mod allocated h) in
  _ ← es !! i;
  Some (Hpack (Some (<[i := Some id]> es)) (structs h) (u64 (added h + 1)) (deleted h) (reused h)
          (allocated h) (size h) (free h) (storage h) (pos h)).

Definition ngx_http_v2_add_header (m : memory) (h : hpack) (hd : header) : option (Z * hpack) :=
  let '(ok, h) := first_add m h in
  if negb ok then Some (NGX_ERROR, h)
  else
    '(rc, h) ← ngx_http_v2_table_account h (Z.of_nat (length (name hd)) + Z.of_nat (length (value hd)));
    if negb (rc =? NGX_OK) then Some (NGX_OK, h)
    else
      '(e, h) ← take_entry m h;
      match e with
      | None => Some (NGX_ERROR, h)
      | Some id =>
          h ← put_header hd id h;
          '(ok, h) ← grow m h;
          if negb ok then Some (NGX_ERROR, h)
          else h ← link id h; Some (NGX_OK, h)
      end.

(** The connection is allocated zeroed. *)
Definition hpack_init : hpack := Hpack None [] 0 0 0 0 0 0 [] 0.

(** *** Integers and strings *)

Definition NGX_HTTP_V2_INT_OCTETS : nat := 4.
Definition NGX_HTTP_V2_ENCODE_RAW : Z := 0.
Definition NGX_HTTP_V2_ENCODE_HUFF : Z := 0x80.

Definition ngx_http_v2_prefix (bits : Z) : Z := Z.shiftl 1 bits - 1.

(** The continuation octets up to [end]: the value, and the octets read so far. *)
Fixpoint parse_int_loop (l : list Z) (value shift : Z) (n : nat) : option (Z * nat) :=
  match l with
  | [] => None
  | octet :: l =>
      let value := u64 (value + Z.shiftl (Z.land octet 0x7f) shift) in
      if octet <? 128 then Some (value, S n) else parse_int_loop l value (shift + 7) (S n)
  end.

(** [buf] is the bytes from [*pos] to [end], and [len] is [h2c->state.length]: the
    value or the code, the new length and what is left of the buffer.  The callers
    see to it that there is a byte. *)
Definition ngx_http_v2_parse_int (prefix len : Z) (buf : list Z) : option (Z * Z * list Z) :=
  match buf with
  | [] => None
  | b :: t =>
      let value := Z.land b prefix in
      Some (
        if negb (value =? prefix) then
          if len =? 0 then (NGX_ERROR, len, buf) else (value, len - 1, t)
        else
          let n := Nat.min (length buf) NGX_HTTP_V2_INT_OCTETS in
          match parse_int_loop (take (n - 1) t) value 0 1 with
          | Some (value, k) =>
              if len <? Z.of_nat k then (NGX_ERROR, len, buf)
              else (value, len - Z.of_nat k, drop k buf)
          | None =>
              if len <=? Z.of_nat n then (NGX_ERROR, len, buf)
              else if (n =? NGX_HTTP_V2_INT_OCTETS)%nat then (NGX_DECLINED, len, buf)
              else (NGX_AGAIN, len, buf)
          end)
  end.

(** The loop of [ngx_http_v2_write_int]; a value of 64 bits has at most ten digits. *)
Fixpoint write_digits (fuel : nat) (value : Z) : list Z :=
  match fuel with
  | O => []
  | S fuel =>
      if 128 <=? value then u8 (value mod 128 + 128) :: write_digits fuel (value / 128)
      else [u8 value]
  end.

(** [b] is the byte at [pos], whose high bits are set; the bytes written. *)
Definition ngx_http_v2_write_int (b prefix value : Z) : list Z :=
  if value <? prefix then [u8 (Z.lor b value)]
  else u8 (Z.lor b prefix) :: write_digits 10 (value - prefix).

Definition ngx_http_v2_string_encode (src : list Z) (lower : bool) : list Z :=
  let tmp := Huffman.ngx_http_huff_encode src lower in
  let hlen := Z.of_nat (length tmp) in
  if 0 <? hlen then
    ngx_http_v2_write_int NGX_HTTP_V2_ENCODE_HUFF (ngx_http_v2_prefix 7) hlen ++ tmp
  else
    ngx_http_v2_write_int NGX_HTTP_V2_ENCODE_RAW (ngx_http_v2_prefix 7) (Z.of_nat (length src))
      ++ (if lower then Str.ngx_strlow src (length src) else src).

(** The table of RFC 7541, section 2.3.2, newest first, and its operations
    (sections 4.2 to 4.4). *)
Record table : Set := Table { limit : Z; content : list header }.

Definition header_size (hd : header) : Z :=
  Z.of_nat (length (name hd)) + Z.of_nat (length (value hd)) + 32.

Fixpoint total (l : list header) : Z :=
  match l with [] => 0 | hd :: l => header_size hd + total l end.

(** The headers that are left when the oldest ones are evicted until the others
    take no more than [room]. *)
Fixpoint keep (room : Z) (l : list header) : list header :=
  match l with
  | [] => []
  | hd :: l => if header_size hd <=? room then hd :: keep (room - header_size hd) l else []
  end.

Definition table_add (t : table) (hd : header) : table :=
  Table (limit t)
    (if header_size hd <=? limit t then hd :: keep (limit t - header_size hd) (content t) else []).

Definition table_resize (t : table) (sz : Z) : table := Table sz (keep sz (content t)).

Definition table_lookup (t : table) (index : Z) : option header :=
  if index <? 1 then None else (ngx_http_v2_static_table ++ content t) !! Z.to_nat (index - 1).

(** What a connection does to its table. *)
Inductive op : Set :=
  | Add (m : memory) (hd : header)
  | Resize (sz : Z).

Definition run_op (o : op) (h : hpack) : option (Z * hpack) :=
  match o with
  | Add m hd => ngx_http_v2_add_header m h hd
  | Resize sz => ngx_http_v2_table_size h sz
  end.

Fixpoint run_ops (os : list op) (h : hpack) : option (list Z * hpack) :=
  match os with
  | [] => Some ([], h)
  | o :: os => '(rc, h) ← run_op o h; '(rcs, h) ← run_ops os h; Some (rc :: rcs, h)
  end.

(** There is memory, and the storage has its size. *)
Definition granted (m : memory) : bool :=
  (first_mem m && entry_mem m && grown_mem m
   && match storage_mem m with
      | Some st => Z.of_nat (length st) =? NGX_HTTP_V2_TABLE_SIZE
      | None => false
      end)%bool.

Definition op_ok (o : op) : bool :=
  match o with Add m _ => granted m | Resize sz => 0 <=? sz end.

(** The same operations on the table of the RFC, with their codes; [started] is
    whether there was an insertion before.  A size that is set earlier is the one
    thing the code does in its own way. *)
Definition spec_op (o : op) (s : bool * table) : Z * (bool * table) :=
  let '(started, t) := s in
  match o with
  | Add _ hd => (NGX_OK, (true, table_add t hd))
  | Resize sz =>
      if NGX_HTTP_V2_TABLE_SIZE <? sz then (NGX_ERROR, s)
      else (NGX_OK, (started, if started then table_resize t sz else t))
  end.

Fixpoint spec_ops (os : list op) (s : bool * table) : list Z * (bool * table) :=
  match os with
  | [] => ([], s)
  | o :: os => let '(rc, s) := spec_op o s in let '(rcs, s) := spec_ops os s in (rc :: rcs, s)
  end.

Definition table_init : table := Table NGX_HTTP_V2_TABLE_SIZE [].

(** ** The representation of a table *)

(** The cell of the storage at a position of the stream of all bytes written. *)
Definition cell (st : list Z) (x : Z) : option Z := st !! Z.to_nat (x mod NGX_HTTP_V2_TABLE_SIZE).

Definition bytes_at (st : list Z) (p : Z) (s : list Z) : Prop :=
  forall i c, s !! i = Some c -> cell st (p + Z.of_nat i) = Some c.

(** [off] is an offset into the storage for the position [p] of the stream. *)
Definition points (off p : Z) : Prop :=
  0 <= off <= NGX_HTTP_V2_TABLE_SIZE /\ off mod NGX_HTTP_V2_TABLE_SIZE = p mod NGX_HTTP_V2_TABLE_SIZE.

Definition describes (st : list Z) (e : entry) (hd : header) (p : Z) : Prop :=
  let v := p - Z.of_nat (length (value hd)) in
  let n := v - Z.of_nat (length (name hd)) in
  name_len e = Z.of_nat (length (name hd)) /\ value_len e = Z.of_nat (length (value hd)) /\
  points (name_at e) n /\ points (value_at e) v /\
  bytes_at st n (name hd) /\ bytes_at st v (value hd).

(** The headers, newest first, end one before the other from the position [p]. *)
Fixpoint laid (ss : list entry) (st : list Z) (p : Z) (ids : list nat) (hs : list header) : Prop :=
  match ids, hs with
  | [], [] => True
  | id :: ids, hd :: hs =>
      (exists e, ss !! id = Some e /\ describes st e hd p) /\
      laid ss st (p - Z.of_nat (length (value hd)) - Z.of_nat (length (name hd))) ids hs
  | _, _ => False
  end.

(** [young] are the structures of the table and [old] the ones that may be used
    again, newest first; [A], [D] and [R] are the counters as they would be
    without wrap-around; [extra] is a structure in the course of being added, for
    which [debt] was taken from [free], and [pend] the header it describes once it
    is filled. *)
Record rep (extra : list nat) (pend : list header) (debt : Z) (h : hpack) (t : table)
    (es : list (option nat)) (young old : list nat) (A D R P : Z) : Prop := {
  rep_entries : entries h = Some es;
  rep_array : Z.of_nat (length es) = allocated h;
  rep_allocated : allocated h = 64 \/ allocated h = 128;
  rep_added : added h = u64 A;
  rep_deleted : deleted h = u64 D;
  rep_reused : reused h = u64 R;
  rep_young : Z.of_nat (length young) = A - D;
  rep_old : Z.of_nat (length old) = D - R;
  rep_fits : A - R <= allocated h;
  rep_slots : forall i id, (young ++ old) !! i = Some id ->
    es !! Z.to_nat ((A - 1 - Z.of_nat i) mod allocated h) = Some (Some id);
  rep_distinct : NoDup (extra ++ young ++ old);
  rep_structs : Forall (fun id => (id < length (structs h))%nat) (extra ++ young ++ old);
  rep_count : length (structs h) = length (extra ++ young ++ old);
  rep_storage : Z.of_nat (length (storage h)) = NGX_HTTP_V2_TABLE_SIZE;
  rep_pos : points (pos h) P;
  rep_laid : laid (structs h) (storage h) P (take (length pend) extra ++ young) (pend ++ content t);
  rep_free : free h = limit t - total (content t) - debt;
  rep_free_pos : 0 <= free h;
  rep_size : size h = limit t;
  rep_limit : 0 <= limit t <= NGX_HTTP_V2_TABLE_SIZE }.

Definition represents (h : hpack) (t : table) : Prop :=
  exists es young old A D R P, rep [] [] 0 h t es young old A D R P.

(** A connection whose table was not used yet. *)
Definition unused (h : hpack) : Prop :=
  exists s, 0 <= s <= NGX_HTTP_V2_TABLE_SIZE /\ h = Hpack None [] 0 0 0 0 s s [] 0.

(** ** The reference table *)

Lemma header_size_pos hd : 32 <= header_size hd.
Proof. unfold header_size. lia. Qed.

Lemma total_app l1 l2 : total (l1 ++ l2) = total l1 + total l2.
Proof. induction l1 as [| hd l1 IH]; simpl; lia. Qed.

Lemma total_length l : 32 * Z.of_nat (length l) <= total l.
Proof. induction l as [| hd l IH]; simpl; [lia |]. pose proof (header_size_pos hd). lia. Qed.

Lemma keep_total room l : 0 <= room -> total (keep room l) <= room.
Proof.
  revert room. induction l as [| hd l IH]; simpl; [lia |]. intros room H.
  case_if; simpl; [| lia]. specialize (IH (room - header_size hd)). lia.
Qed.

Lemma keep_all room l : total l <= room -> keep room l = l.
Proof.
  revert room. induction l as [| hd l IH]; simpl; [done |]. intros room H.
  pose proof (total_length l). case_if; [| lia]. f_equal. apply IH. lia.
Qed.

(** The oldest header goes first. *)
Lemma keep_snoc room l hd : room < total (l ++ [hd]) -> keep room (l ++ [hd]) = keep room l.
Proof.
  revert room. induction l as [| hd' l IH]; simpl; intros room H.
  - case_if; [lia | done].
  - case_if; [| done]. f_equal. apply IH. lia.
Qed.

Lemma keep_prefix room l : exists l', l = keep room l ++ l'.
Proof.
  revert room. induction l as [| hd l IH]; simpl; intros room; [by exists [] |].
  case_if; [| by exists (hd :: l)]. destruct (IH (room - header_size hd)) as [l' E].
  exists l'. simpl. by rewrite <- E.
Qed.

(** ** The ring of pointers *)

Lemma u64_mod_ring x al : al = 64 \/ al = 128 -> u64 x mod al = x mod al.
Proof.
  unfold u64. intros [-> | ->]; apply Z.mod_mod_divide; [by exists (2 ^ 58) | by exists (2 ^ 57)].
Qed.

Lemma u64_sub a b : u64 (u64 a - u64 b) = u64 (a - b).
Proof. unfold u64. by rewrite Zminus_mod_idemp_l, Zminus_mod_idemp_r. Qed.

Lemma u64_sub_small a b : 0 <= a - b < 2 ^ 64 -> u64 (u64 a - u64 b) = a - b.
Proof. intros H. rewrite u64_sub. by apply u64_small. Qed.

Lemma u64_succ a : u64 (u64 a + 1) = u64 (a + 1).
Proof. unfold u64. by rewrite Zplus_mod_idemp_l. Qed.

Section rep.

Context {extra : list nat} {pend : list header} {debt : Z} {h : hpack} {t : table}.
Context {es : list (option nat)} {young old : list nat} {A D R P : Z}.
Context (r : rep extra pend debt h t es young old A D R P).

Lemma rep_counts : 0 <= A - D <= 128 /\ 0 <= D - R /\ A - R <= 128 /\
  Z.of_nat (length young) = A - D /\ Z.of_nat (length old) = D - R.
Proof using r. destruct r. lia. Qed.

Lemma rep_live : live h = length young.
Proof using r.
  pose proof rep_counts. unfold live. rewrite (rep_added _ _ _ _ _ _ _ _ _ _ _ _ r),
    (rep_deleted _ _ _ _ _ _ _ _ _ _ _ _ r), u64_sub_small; lia.
Qed.

(** The pointer to a structure, by its age. *)
Lemma rep_slot i id x : (young ++ old) !! i = Some id -> x mod allocated h = (A - 1 - Z.of_nat i) mod allocated h ->
  slot h x = Some id.
Proof using r.
  intros Hi Hx. unfold slot. rewrite (rep_entries _ _ _ _ _ _ _ _ _ _ _ _ r). simpl.
  by rewrite Hx, (rep_slots _ _ _ _ _ _ _ _ _ _ _ _ r _ _ Hi).
Qed.

Lemma laid_length ss st p ids hs : laid ss st p ids hs -> length ids = length hs.
Proof using.
  revert p hs. induction ids as [| id ids IH]; intros p [| hd hs]; simpl; try done.
  intros [_ H]. f_equal. by apply (IH _ _ H).
Qed.

Lemma laid_snoc ss st p ids hs hd : laid ss st p ids (hs ++ [hd]) ->
  exists ids' id e q, ids = ids' ++ [id] /\ laid ss st p ids' hs /\ ss !! id = Some e /\ describes st e hd q.
Proof using.
  revert p ids. induction hs as [| hd' hs IH]; intros p [| id ids]; simpl; try done.
  - destruct ids as [| id' ids]; simpl; [| naive_solver].
    intros ((e & He & Hd) & _). by exists [], id, e, p.
  - intros [He H]. destruct (IH _ _ H) as (ids' & id' & e & q & -> & Hl & He' & Hd).
    exists (id :: ids'), id', e, q. by rewrite <- app_comm_cons.
Qed.

End rep.

(** ** Eviction *)

Lemma evict_rep h L hs hd es young old A D R P :
  rep [] [] 0 h (Table L (hs ++ [hd])) es young old A D R P ->
  exists h' young' id, evict h = Some h' /\
    rep [] [] 0 h' (Table L hs) es young' (id :: old) A (D + 1) R P /\
    entries h' = entries h /\ live h = S (live h').
Proof.
  intros r. pose proof (rep_counts r). pose proof (rep_live r) as Hl. destruct r.
  simpl in *.
  destruct (laid_snoc _ _ _ _ _ _ rep_laid0) as (young' & id & e & q & -> & Hlaid & He & Hd).
  rewrite length_app in *. simpl in *.
  pose proof (total_length hs). rewrite total_app in *. simpl in *. pose proof (header_size_pos hd).
  destruct Hd as (Hn & Hv & _).
  set (h' := Hpack (entries h) (structs h) (added h) (u64 (deleted h + 1)) (reused h) (allocated h)
          (size h) (u64 (free h + (32 + name_len e + value_len e))) (storage h) (pos h)).
  exists h', young', id.
  assert (Hev : evict h = Some h').
  { unfold evict, slot. rewrite rep_entries0. simpl.
    rewrite (rep_deleted0), u64_mod_ring by done.
    assert (D mod allocated h = (A - 1 - Z.of_nat (length young')) mod allocated h) as -> by (f_equal; lia).
    rewrite (rep_slots0 (length young') id).
    - simpl. rewrite He. unfold h'. by rewrite rep_entries0, rep_deleted0.
    - rewrite <- app_assoc. simpl. by apply list_lookup_middle. }
  assert (r' : rep [] [] 0 h' (Table L hs) es young' (id :: old) A (D + 1) R P).
  { rewrite <- app_assoc in *. simpl in *. split; subst h'; simpl in *; try done.
    - by rewrite rep_deleted0, u64_succ.
    - lia.
    - lia.
    - rewrite !length_app in *. simpl in *. lia.
    - unfold NGX_HTTP_V2_TABLE_SIZE, header_size in *. rewrite u64_small; lia.
    - rewrite u64_small; unfold NGX_HTTP_V2_TABLE_SIZE, header_size in *; lia. }
  split_and!; try done. rewrite Hl, (rep_live r'). lia.
Qed.

Lemma rep_represents h t es young old A D R P :
  rep [] [] 0 h t es young old A D R P -> represents h t.
Proof. intros r. by exists es, young, old, A, D, R, P. Qed.

(** The state of a table that evictions lead to. *)
Definition evicted (h : hpack) (L : Z) (hs : list header) (h' : hpack) : Prop :=
  represents h' (Table L hs) /\ entries h' = entries h.

Lemma free_total h t : represents h t -> free h = limit t - total (content t) /\ size h = limit t /\
  0 <= limit t <= NGX_HTTP_V2_TABLE_SIZE /\ 0 <= free h /\ live h = length (content t).
Proof.
  intros (es & young & old & A & D & R & P & r). pose proof (rep_live r). destruct r. simpl in *.
  rewrite <- (laid_length _ _ _ _ _ rep_laid0). repeat split; lia.
Qed.

Lemma represents_evict h L hs hd : represents h (Table L (hs ++ [hd])) ->
  exists h', evict h = Some h' /\ represents h' (Table L hs) /\ live h = S (live h').
Proof.
  intros (es & young & old & A & D & R & P & r).
  destruct (evict_rep _ _ _ _ _ _ _ _ _ _ _ r) as (h' & young' & id & He & r' & _ & Hl).
  exists h'. split; [done |]. split; [by apply rep_represents in r' | done].
Qed.

Lemma account_loop_spec sz L l h : represents h (Table L l) -> 0 <= sz <= L -> free h < sz ->
  exists h', account_loop (live h) sz h = Some h' /\
    represents h' (Table L (keep (L - sz) l)) /\ sz <= free h'.
Proof.
  revert h. induction l as [| hd l IH] using rev_ind; intros h Hr Hsz Hfree.
  - destruct (free_total _ _ Hr) as (Hf & _). simpl in Hf. lia.
  - destruct (represents_evict _ _ _ _ Hr) as (h' & He & Hr' & ->). simpl. rewrite He. simpl.
    destruct (free_total _ _ Hr) as (Hf & _). destruct (free_total _ _ Hr') as (Hf' & _).
    simpl in *. rewrite keep_snoc by lia. case_if.
    + apply IH; [done | lia | lia].
    + exists h'. rewrite keep_all by lia. repeat split; [done | lia].
Qed.

Lemma size_loop_spec sz L l h : represents h (Table L l) -> 0 <= sz <= NGX_HTTP_V2_TABLE_SIZE ->
  exists h', size_loop (live h) (L - sz) h = Some h' /\ represents h' (Table L (keep sz l)) /\
    0 <= free h' - (L - sz).
Proof.
  revert h. induction l as [| hd l IH] using rev_ind; intros h Hr Hsz;
    pose proof (free_total _ _ Hr) as (Hf & _ & HL & Hf0 & Hlive); simpl in Hf, HL, Hlive.
  - rewrite Hlive. exists h. simpl. rewrite s64_small by (unfold NGX_HTTP_V2_TABLE_SIZE in *; lia).
    case_if; [lia |]. repeat split; [done | lia].
  - destruct (represents_evict _ _ _ _ Hr) as (h' & He & Hr' & ->).
    pose proof (total_length (l ++ [hd])). simpl.
    rewrite s64_small by (unfold NGX_HTTP_V2_TABLE_SIZE in *; lia). case_if.
    + rewrite He. simpl. rewrite keep_snoc by lia. by apply IH.
    + exists h. rewrite keep_all by lia. repeat split; [done | lia].
Qed.

(** ** The storage *)

Lemma write_at_spec st off data : 0 <= off -> off + Z.of_nat (length data) <= Z.of_nat (length st) ->
  exists st', write_at st off data = Some st' /\ length st' = length st /\
    forall k, st' !! k = if decide (Z.to_nat off <= k < Z.to_nat off + length data)%nat
                         then data !! (k - Z.to_nat off)%nat else st !! k.
Proof.
  intros Ho Hl. unfold write_at. case_if; [| lia]. eexists. split; [done |].
  rewrite !length_app, length_take, length_drop. split; [lia |]. intros k.
  case_decide as Hk.
  - rewrite lookup_app_r by (rewrite length_take; lia).
    rewrite length_take, lookup_app_l by lia. f_equal. lia.
  - destruct (decide (k < Z.to_nat off)%nat).
    + rewrite lookup_app_l by (rewrite length_take; lia). by apply lookup_take_lt.
    + rewrite lookup_app_r by (rewrite length_take; lia).
      rewrite length_take, lookup_app_r by lia. rewrite lookup_drop. f_equal. lia.
Qed.

Lemma points_cell st off p i : points off p -> 0 <= i < NGX_HTTP_V2_TABLE_SIZE ->
  cell st (p + i) = st !! Z.to_nat (if off + i <? NGX_HTTP_V2_TABLE_SIZE then off + i
                                    else off + i - NGX_HTTP_V2_TABLE_SIZE).
Proof.
  unfold points, cell, NGX_HTTP_V2_TABLE_SIZE. intros [Ho Hp] Hi. f_equal. f_equal.
  rewrite <- Zplus_mod_idemp_l, <- Hp, Zplus_mod_idemp_l.
  case_if; [apply Z.mod_small; lia |].
  replace (off + i) with (off + i - 4096 + 1 * 4096) at 1 by lia.
  rewrite Z_mod_plus_full. destruct (decide (off + i = 8191)) as [-> | ]; apply Z.mod_small; lia.
Qed.

Lemma points_add off p n : points off p -> 0 <= n -> off + n <= NGX_HTTP_V2_TABLE_SIZE ->
  points (off + n) (p + n).
Proof.
  unfold points, NGX_HTTP_V2_TABLE_SIZE. intros [Ho Hp] Hn Hm. split; [lia |].
  by rewrite <- Zplus_mod_idemp_l, Hp, Zplus_mod_idemp_l.
Qed.

Lemma points_wrap off p n : points off p -> 0 <= off + n - NGX_HTTP_V2_TABLE_SIZE <= NGX_HTTP_V2_TABLE_SIZE ->
  points (off + n - NGX_HTTP_V2_TABLE_SIZE) (p + n).
Proof.
  unfold points, NGX_HTTP_V2_TABLE_SIZE. intros [Ho Hp] Hn. split; [lia |].
  rewrite <- (Zplus_mod_idemp_l p), <- Hp, Zplus_mod_idemp_l.
  replace (off + n) with (off + n - 4096 + 1 * 4096) at 2 by lia. by rewrite Z_mod_plus_full.
Qed.

(** [st'] is [st] with the string [s] over the cells that follow the position. *)
Definition overwrites (st st' : list Z) (p : Z) (s : list Z) : Prop :=
  forall i, 0 <= i < NGX_HTTP_V2_TABLE_SIZE ->
    cell st' (p + i) = if i <? Z.of_nat (length s) then s !! Z.to_nat i else cell st (p + i).

Lemma put_string_spec st off p avail s :
  Z.of_nat (length st) = NGX_HTTP_V2_TABLE_SIZE -> points off p ->
  Z.of_nat (length s) <= NGX_HTTP_V2_TABLE_SIZE ->
  avail = NGX_HTTP_V2_TABLE_SIZE - off \/
    Z.of_nat (length s) <= avail /\ off + Z.of_nat (length s) <= NGX_HTTP_V2_TABLE_SIZE ->
  let off' := if Z.of_nat (length s) <=? avail then off + Z.of_nat (length s)
              else Z.of_nat (length s) - avail in
  exists st', put_string st off avail s = Some (st', off') /\
    Z.of_nat (length st') = NGX_HTTP_V2_TABLE_SIZE /\ points off' (p + Z.of_nat (length s)) /\
    overwrites st st' p s.
Proof.
  intros Hst Hp Hs Hav off'. subst off'. pose proof (proj1 Hp) as Hoff. unfold put_string. case_if.
  - destruct (write_at_spec st off s) as (st' & -> & Hlen & Hget); [lia | lia |]. simpl.
    exists st'. split; [done |]. split; [lia |].
    split; [apply points_add; [done | lia | lia] |]. intros i Hi.
    rewrite !(points_cell _ off p i) by done. rewrite Hget. unfold NGX_HTTP_V2_TABLE_SIZE in *.
    repeat case_if; case_decide; try lia; try done; f_equal; lia.
  - assert (avail = NGX_HTTP_V2_TABLE_SIZE - off) as Ha by lia. clear Hav.
    destruct (write_at_spec st off (take (Z.to_nat avail) s)) as (st1 & -> & Hlen1 & Hget1);
      [lia | rewrite length_take; lia |]. simpl.
    destruct (write_at_spec st1 0 (drop (Z.to_nat avail) s)) as (st2 & -> & Hlen2 & Hget2);
      [lia | rewrite length_drop; unfold NGX_HTTP_V2_TABLE_SIZE in *; lia |]. simpl.
    exists st2. split; [done |]. split; [lia |].
    split.
    { replace (Z.of_nat (length s) - avail) with (off + Z.of_nat (length s) - NGX_HTTP_V2_TABLE_SIZE) by lia.
      apply points_wrap; [done |]. unfold NGX_HTTP_V2_TABLE_SIZE in *. lia. }
    intros i Hi. rewrite !(points_cell _ off p i) by done. rewrite Hget2, Hget1.
    rewrite length_take, length_drop. unfold NGX_HTTP_V2_TABLE_SIZE in *.
    repeat case_if; repeat case_decide; try lia; try done;
      first [rewrite lookup_drop | rewrite lookup_take_lt by lia]; f_equal; lia.
Qed.

(** A string that wraps around the end of the storage is read back. *)
Lemma read_at_spec st off n p s :
  Z.of_nat (length st) = NGX_HTTP_V2_TABLE_SIZE -> points off p -> 0 <= n -> off + n <= NGX_HTTP_V2_TABLE_SIZE ->
  Z.of_nat (length s) = n -> bytes_at st p s -> read_at st off n = Some s.
Proof.
  intros Hst Hp Hn Hm Hs Hb. pose proof (proj1 Hp). unfold read_at. case_if; [| lia]. f_equal.
  apply list_eq. intros i. destruct (decide (i < length s)%nat) as [Hi | Hi].
  - destruct (lookup_lt_is_Some_2 s i Hi) as [c Hc]. rewrite Hc, <- (Hb i c Hc).
    rewrite (points_cell _ off p) by (done || unfold NGX_HTTP_V2_TABLE_SIZE in *; lia).
    rewrite lookup_take_lt, lookup_drop by lia. case_if; f_equal; lia.
  - rewrite (lookup_ge_None_2 s) by lia. apply lookup_ge_None_2. rewrite length_take. lia.
Qed.

Lemma bytes_at_app st p s1 s2 : bytes_at st p (s1 ++ s2) <->
  bytes_at st p s1 /\ bytes_at st (p + Z.of_nat (length s1)) s2.
Proof.
  unfold bytes_at. split.
  - intros H. split; intros i c Hc.
    + apply H. rewrite lookup_app_l; [done | by eapply lookup_lt_Some].
    + specialize (H (length s1 + i)%nat c). rewrite lookup_app_r in H by lia.
      replace (length s1 + i - length s1)%nat with i in H by lia. rewrite <- (H Hc). f_equal. lia.
  - intros [H1 H2] i c Hc. apply lookup_app_Some in Hc as [Hc | [Hi Hc]]; [by apply H1 |].
    rewrite <- (H2 _ _ Hc). f_equal. lia.
Qed.

Lemma copy_string_spec st off p s :
  Z.of_nat (length st) = NGX_HTTP_V2_TABLE_SIZE -> points off p ->
  Z.of_nat (length s) <= NGX_HTTP_V2_TABLE_SIZE -> bytes_at st p s ->
  copy_string st off (Z.of_nat (length s)) = Some s.
Proof.
  intros Hst Hp Hs Hb. pose proof (proj1 Hp) as Ho. unfold copy_string. case_if.
  - set (rest := NGX_HTTP_V2_TABLE_SIZE - off) in *.
    rewrite <- (take_drop (Z.to_nat rest) s) in Hb. apply bytes_at_app in Hb as [H1 H2].
    rewrite length_take in H2.
    rewrite (read_at_spec st off rest p (take (Z.to_nat rest) s)); try done; try lia.
    2: rewrite length_take; lia. simpl.
    rewrite (read_at_spec st 0 _ (p + rest) (drop (Z.to_nat rest) s)); try done; try lia.
    + simpl. by rewrite take_drop.
    + replace 0 with (off + rest - NGX_HTTP_V2_TABLE_SIZE) by lia. apply points_wrap; [done |].
      unfold NGX_HTTP_V2_TABLE_SIZE in *. lia.
    + rewrite length_drop. lia.
    + by replace (Z.of_nat (Z.to_nat rest `min` length s)) with rest in H2 by lia.
  - by apply (read_at_spec st off _ p s); try lia.
Qed.

(** ** Insertion *)

Fixpoint bytes (l : list header) : Z :=
  match l with
  | [] => 0
  | hd :: l => Z.of_nat (length (value hd)) + Z.of_nat (length (name hd)) + bytes l
  end.

Lemma bytes_total l : 0 <= bytes l /\ bytes l + 32 * Z.of_nat (length l) = total l.
Proof. induction l as [| hd l IH]; simpl; unfold header_size in *; lia. Qed.

(** What is laid stays so when other structures and other cells change. *)
Lemma laid_frame ss st ss' st' p ids hs : laid ss st p ids hs ->
  (forall id, id ∈ ids -> ss' !! id = ss !! id) ->
  (forall x, p - bytes hs <= x < p -> cell st' x = cell st x) ->
  laid ss' st' p ids hs.
Proof.
  revert p hs. induction ids as [| id ids IH]; intros p [| hd hs]; simpl; try done.
  intros [(e & He & Hd) Hl] Hss Hst. pose proof (bytes_total hs). split.
  - exists e. rewrite Hss by set_solver. split; [done |].
    destruct Hd as (? & ? & ? & ? & Hn & Hv). split_and!; try done.
    + intros i c Hi. rewrite Hst; [by apply Hn |]. apply lookup_lt_Some in Hi. lia.
    + intros i c Hi. rewrite Hst; [by apply Hv |]. apply lookup_lt_Some in Hi. lia.
  - apply IH; [done | |].
    + intros id' Hin. apply Hss. set_solver.
    + intros x Hx. apply Hst. lia.
Qed.

(** Cells of the past that the ring has not come round to are kept. *)
Lemma cell_turn st x : cell st (x + NGX_HTTP_V2_TABLE_SIZE) = cell st x.
Proof. unfold cell, NGX_HTTP_V2_TABLE_SIZE. by rewrite <- (Z_mod_plus_full x 1 4096). Qed.

(** A string that was just written is there, and what it does not reach is kept. *)
Lemma overwrites_bytes st st' p s : overwrites st st' p s ->
  Z.of_nat (length s) <= NGX_HTTP_V2_TABLE_SIZE -> bytes_at st' p s.
Proof.
  intros Hc Hs i c Hi. pose proof (lookup_lt_Some _ _ _ Hi). rewrite Hc by lia. case_if; [| lia].
  by rewrite Nat2Z.id.
Qed.

Lemma overwrites_keeps st st' p s x : overwrites st st' p s ->
  p + Z.of_nat (length s) - NGX_HTTP_V2_TABLE_SIZE <= x < p -> cell st' x = cell st x.
Proof.
  intros Hc Hx. rewrite <- (cell_turn st'), <- (cell_turn st).
  replace (x + NGX_HTTP_V2_TABLE_SIZE) with (p + (x + NGX_HTTP_V2_TABLE_SIZE - p)) by lia.
  rewrite Hc by lia. case_if; [lia | done].
Qed.

Lemma bytes_at_keeps st st' p s : bytes_at st p s ->
  (forall x, p <= x < p + Z.of_nat (length s) -> cell st' x = cell st x) -> bytes_at st' p s.
Proof.
  intros Hb Hk i c Hi. pose proof (lookup_lt_Some _ _ _ Hi). rewrite Hk by lia. by apply Hb.
Qed.

Lemma put_header_rep h hd id L c es young old A D R P :
  rep [id] [] (header_size hd) h (Table L c) es young old A D R P ->
  exists h', put_header hd id h = Some h' /\
    rep [id] [hd] (header_size hd) h' (Table L c) es young old A D R
      (P + Z.of_nat (length (name hd)) + Z.of_nat (length (value hd))) /\
    allocated h' = allocated h.
Proof.
  intros r. destruct r. simpl in *. pose proof (bytes_total c) as [Hb Hbt]. unfold header_size in *.
  unfold put_header.
  destruct (put_string_spec (storage h) (pos h) P (NGX_HTTP_V2_TABLE_SIZE - pos h) (name hd))
    as (st1 & E1 & Hlen1 & Hp1 & Hc1); [done | done | lia | by left |]. rewrite E1. simpl.
  match type of Hp1 with points ?p _ => set (p1 := p) in * end.
  set (P1 := P + Z.of_nat (length (name hd))) in *.
  match goal with |- context [put_string st1 p1 ?a _] => set (avail := a) end.
  destruct (put_string_spec st1 p1 P1 avail (value hd))
    as (st2 & E2 & Hlen2 & Hp2 & Hc2); [done | done | lia | |].
  { destruct rep_pos0 as [? _]. subst p1 avail. case_if; [left | right]; lia. }
  rewrite E2. simpl.
  match type of Hp2 with points ?p _ => set (p2 := p) in * end.
  apply Forall_cons in rep_structs0 as [Hid Hids].
  destruct (lookup_lt_is_Some_2 _ _ Hid) as [e0 ->]. simpl. eexists. split; [done |].
  split; [| done]. split; simpl; try done.
  - rewrite length_insert. by constructor.
  - by rewrite length_insert.
  - rewrite !Z.add_simpl_r. unfold P1. rewrite Z.add_simpl_r. split.
    + eexists. rewrite list_lookup_insert_eq by done. split; [done |].
      unfold describes. rewrite !Z.add_simpl_r. split_and!; try done.
      * apply (bytes_at_keeps st1); [by eapply overwrites_bytes; [done | lia] |]. intros x Hx.
        apply (overwrites_keeps _ _ _ _ _ Hc2). lia.
      * eapply overwrites_bytes; [done | lia].
    + apply (laid_frame (structs h) (storage h)); [done | |].
      * intros id' Hin. apply list_lookup_insert_ne. intros ->.
        apply NoDup_cons in rep_distinct0 as [Hn _]. set_solver.
      * intros x Hx. rewrite (overwrites_keeps _ _ _ _ _ Hc2) by lia.
        apply (overwrites_keeps _ _ _ _ _ Hc1). lia.
Qed.

Lemma set_size_rep h L c es young old A D R P sz : rep [] [] 0 h (Table L c) es young old A D R P ->
  0 <= sz <= free h ->
  rep [] [] sz (set_size (size h) (free h - sz) h) (Table L c) es young old A D R P.
Proof. intros r Hsz. destruct r. split; simpl in *; try done; lia. Qed.

(** Room is made and accounted for, or the table is emptied. *)
Lemma account_spec h L c hd : represents h (Table L c) ->
  exists rc h', ngx_http_v2_table_account h (Z.of_nat (length (name hd)) + Z.of_nat (length (value hd)))
      = Some (rc, h') /\
    if header_size hd <=? L then
      rc = NGX_OK /\ exists es young old A D R P,
        rep [] [] (header_size hd) h' (Table L (keep (L - header_size hd) c)) es young old A D R P
    else rc = NGX_DECLINED /\ represents h' (Table L []).
Proof.
  intros Hr. destruct (free_total _ _ Hr) as (Hf & Hs & HL & Hf0 & _). simpl in *.
  unfold ngx_http_v2_table_account. fold (header_size hd). pose proof (header_size_pos hd).
  pose proof (bytes_total c). case_if; [| case_if].
  - case_if; [| lia]. exists NGX_OK. eexists. split; [done |]. split; [done |].
    rewrite keep_all by lia. destruct Hr as (es & young & old & A & D & R & P & r).
    exists es, young, old, A, D, R, P. apply set_size_rep; [done | lia].
  - exists NGX_DECLINED. eexists. split; [done |]. case_if; [lia |]. split; [done |].
    destruct Hr as (es & young & old & A & D & R & P & r). destruct r. simpl in *.
    exists es, [], (young ++ old), A, A, R, P. split; simpl; try done; try lia.
    rewrite length_app. lia.
  - case_if; [| lia].
    destruct (account_loop_spec (header_size hd) L c h) as (h' & -> & Hr' & Hf'); [done | lia | lia |].
    simpl. exists NGX_OK. eexists. split; [done |]. split; [done |].
    destruct Hr' as (es & young & old & A & D & R & P & r).
    exists es, young, old, A, D, R, P. apply set_size_rep; [done | lia].
Qed.

(** What an operation that may run out of memory leads to. *)
Definition gives {X} (enough : bool) (failed : X -> Prop) (done : X -> Prop) (r : option X) : Prop :=
  exists x, r = Some x /\ ((enough = false /\ failed x) \/ done x).

(** An entry is recycled when there is one, and otherwise allocated. *)
Lemma take_entry_rep m debt h t es young old A D R P :
  rep [] [] debt h t es young old A D R P ->
  gives (entry_mem m) (fun x => x.1 = None)
    (fun x => exists id old' R', x.1 = Some id /\
       rep [id] [] debt x.2 t es young old' A D R' P /\ (A - R' < allocated x.2 \/ R' = D))
    (take_entry m h).
Proof.
  intros r. pose proof (rep_counts r) as (HAD & HDR & HAR & _). destruct r. simpl in *.
  unfold take_entry, gives. case_if; simpl.
  - assert (D = R) as ->.
    { pose proof (u64_sub_small D R ltac:(lia)) as E.
      rewrite <- rep_deleted0, <- rep_reused0 in E. rewrite u64_small in E; [lia |].
      assert (deleted h - reused h = 0) as -> by lia. lia. }
    assert (old = []) as -> by (destruct old; [done | simpl in *; lia]).
    destruct (entry_mem m); simpl; [| eexists; split; [done | by left]].
    eexists. split; [done |]. right. simpl. eexists _, [], R. split; [done |]. split; [| by right].
    split; simpl; try done.
    + constructor; [| done]. intros Hin.
      apply (proj1 (Forall_forall _ _) rep_structs0) in Hin. lia.
    + rewrite length_app. simpl. constructor; [lia |].
      eapply Forall_impl; [done |]. simpl. lia.
    + rewrite length_app. simpl. lia.
    + eapply laid_frame; [done | | done]. intros id Hin. symmetry. 
      assert (id < length (structs h))%nat.
      { apply (proj1 (Forall_forall _ _) rep_structs0). by rewrite app_nil_r. }
      symmetry. by apply lookup_app_l.
  - destruct old as [| id old' _] using rev_ind.
    { simpl in *. assert (D = R) as -> by lia. lia. }
    rewrite length_app in rep_old0. simpl in *.
    assert (Hslot : slot h (reused h) = Some id).
    { unfold slot. rewrite rep_entries0. simpl. rewrite rep_reused0, u64_mod_ring by done.
      replace R with (A - 1 - Z.of_nat (length (young ++ old'))) by (rewrite length_app; lia).
      erewrite rep_slots0; [done |]. rewrite app_assoc. by apply list_lookup_middle. }
    rewrite Hslot. simpl. eexists. split; [done |]. right. simpl.
    exists id, old', (R + 1). split; [done |]. split; [| left; simpl; lia].
    assert (Hp : young ++ old' ++ [id] ≡ₚ id :: young ++ old') by solve_Permutation.
    rewrite Hp in *. 
    split; simpl; try done.
    + by rewrite rep_reused0, u64_succ.
    + lia.
    + lia.
    + intros i id' Hi. apply rep_slots0. rewrite app_assoc. by apply lookup_app_l_Some.
Qed.

(** Two positions of the ring less than a turn apart are different slots. *)
Lemma mod_apart al x y : 0 < al -> 0 < x - y < al -> x mod al <> y mod al.
Proof.
  intros Hal Hxy E. assert ((x - y) mod al = 0) as Hz by (rewrite Zminus_mod, E, Z.sub_diag; done).
  rewrite Z.mod_small in Hz; lia.
Qed.

(** A full ring, rewritten from its oldest entry on. *)
Lemma rotate_lookup {X} (l : list X) (tail : list X) i j :
  (i < length l)%nat -> (j < length l)%nat ->
  (drop i l ++ take i l ++ tail) !! j = l !! ((i + j) mod length l)%nat.
Proof.
  intros Hi Hj. destruct (decide (i + j < length l)%nat) as [H | H].
  - rewrite lookup_app_l by (rewrite length_drop; lia). rewrite lookup_drop, Nat.mod_small by lia. done.
  - rewrite lookup_app_r, length_drop by (rewrite length_drop; lia).
    rewrite lookup_app_l by (rewrite length_take; lia). rewrite lookup_take_lt by lia. f_equal.
    replace (i + j)%nat with (i + j - length l + 1 * length l)%nat by lia.
    rewrite Nat.Div0.mod_add, Nat.mod_small; lia.
Qed.

(** After [grow] there is a free slot. *)
Lemma grow_rep m debt id hd h t es young old A D R P :
  rep [id] [hd] debt h t es young old A D R P -> 32 <= debt ->
  A - R < allocated h \/ R = D ->
  gives (grown_mem m) (fun x => x.1 = false)
    (fun x => exists es' A' D' R', x.1 = true /\
       rep [id] [hd] debt x.2 t es' young old A' D' R' P /\ A' - R' < allocated x.2)
    (grow m h).
Proof.
  intros r Hd Hroom. pose proof (rep_counts r) as (HAD & HDR & HAR & _). pose proof r as r'. destruct r.
  unfold grow, gives. rewrite rep_added0, rep_deleted0, u64_sub_small by lia. case_if; simpl.
  - assert (R = D) as -> by lia. assert (old = []) as -> by (destruct old; [done | simpl in *; lia]).
    assert (Hlen : length young = length (content t)).
    { simpl in rep_laid0. destruct rep_laid0 as [_ Hl]. by apply laid_length in Hl. }
    destruct (grown_mem m); simpl; [| eexists; split; [done | by left]].
    pose proof (total_length (content t)).
    assert (allocated h = 64) as Hal by (unfold NGX_HTTP_V2_TABLE_SIZE in *; lia).
    rewrite rep_entries0. simpl. rewrite u64_mod_ring, Hal in * by done.
    assert (length es = 64%nat) as Hes by lia.
    eexists. split; [done |]. right. simpl. eexists _, 64, 0, 0. split; [done |]. split; [| simpl; lia].
    pose proof (Z.mod_pos_bound D 64 ltac:(lia)).
    split; simpl; try done; try lia.
    + rewrite length_app, length_app, length_drop, length_take. simpl. lia.
    + intros i id' Hi. pose proof (lookup_lt_Some _ _ _ Hi) as Hlt. rewrite app_nil_r in Hlt, Hi.
      rewrite Z.mod_small by lia. rewrite rotate_lookup by lia. rewrite Hes.
      rewrite <- (rep_slots0 i id') by (by rewrite app_nil_r). f_equal.
      apply Nat2Z.inj. rewrite Nat2Z.inj_mod, Nat2Z.inj_add, !Z2Nat.id by (apply Z.mod_pos_bound || idtac; lia).
      rewrite Zplus_mod_idemp_l. f_equal. lia.
  - eexists. split; [done |]. right. exists es, A, D, R. split; [done |]. split; [done | simpl; lia].
Qed.

(** The structure takes the free slot and the newest place. *)
Lemma link_rep id hd h L c es young old A D R P :
  rep [id] [hd] (header_size hd) h (Table L c) es young old A D R P -> A - R < allocated h ->
  exists h', link id h = Some h' /\ represents h' (Table L (hd :: c)).
Proof.
  intros r Hroom. pose proof (rep_counts r) as (HAD & HDR & HAR & _). destruct r. simpl in *.
  unfold link. rewrite rep_entries0. simpl. rewrite rep_added0, u64_mod_ring by done.
  assert (0 < allocated h) as Hal by lia. pose proof (Z.mod_pos_bound A _ Hal).
  assert (Hi : (Z.to_nat (A mod allocated h) < length es)%nat) by lia.
  destruct (lookup_lt_is_Some_2 _ _ Hi) as [x ->]. simpl. eexists. split; [done |].
  eexists _, (id :: young), old, (A + 1), D, R, P. split; simpl; try done; try lia.
  - by rewrite length_insert.
  - apply u64_succ.
  - intros [| i] id' Hid'; simpl in Hid'.
    + injection Hid' as <-. replace (A + 1 - 1 - Z.of_nat 0) with A by lia.
      by rewrite list_lookup_insert_eq.
    + replace (A + 1 - 1 - Z.of_nat (S i)) with (A - 1 - Z.of_nat i) by lia.
      pose proof (lookup_lt_Some _ _ _ Hid') as Hlt. rewrite length_app in Hlt.
      rewrite list_lookup_insert_ne; [by apply rep_slots0 |].
      pose proof (Z.mod_pos_bound (A - 1 - Z.of_nat i) _ Hal).
      pose proof (mod_apart (allocated h) A (A - 1 - Z.of_nat i) Hal). lia.
Qed.

(** Insertion into a table in use. *)
Lemma add_started m h t hd es : represents h t -> entries h = Some es ->
  gives (granted m) (fun x => x.1 = NGX_ERROR)
    (fun x => x.1 = NGX_OK /\ represents x.2 (table_add t hd)) (ngx_http_v2_add_header m h hd).
Proof.
  intros Hr Hes. unfold granted. destruct t as [L c]. unfold ngx_http_v2_add_header, first_add, gives.
  rewrite Hes. simpl. destruct (account_spec h L c hd Hr) as (rc & h1 & -> & Hacc). simpl.
  unfold table_add. simpl.
  destruct (header_size hd <=? L); destruct Hacc as [-> Hr1]; simpl; [| eexists; split; [done | by right]].
  destruct Hr1 as (es1 & young & old & A & D & R & P & r).
  destruct (take_entry_rep m _ _ _ _ _ _ _ _ _ _ r)
    as ([e h2] & -> & [[Hm He] | (id & old2 & R2 & He & r2 & Hroom)]); simpl in *; subst e.
  { eexists. split; [done |]. left. by rewrite Hm, andb_false_r. }
  destruct (put_header_rep _ _ _ _ _ _ _ _ _ _ _ _ r2) as (h3 & -> & r3 & Hal). simpl.
  rewrite <- Hal in Hroom. pose proof (header_size_pos hd).
  destruct (grow_rep m _ _ _ _ _ _ _ _ _ _ _ _ r3 ltac:(lia) Hroom)
    as ([ok h4] & -> & [[Hm He] | (es4 & A4 & D4 & R4 & He & r4 & Hroom4)]); simpl in *; subst ok.
  { eexists. split; [done |]. left. by rewrite Hm, andb_false_r. }
  destruct (link_rep _ _ _ _ _ _ _ _ _ _ _ _ r4 Hroom4) as (h5 & -> & Hr5). simpl.
  eexists. split; [done |]. by right.
Qed.

(** The storage that the allocator gives has its size. *)
Definition sized (m : memory) : bool :=
  match storage_mem m with Some st => Z.of_nat (length st) =? NGX_HTTP_V2_TABLE_SIZE | None => true end.

Lemma granted_sized m : granted m = true -> sized m = true.
Proof. unfold granted, sized. destruct (storage_mem m); [lia | done]. Qed.

(** The first insertion makes the table, of the full size whatever it was. *)
Lemma add_unused m h hd : unused h -> sized m = true ->
  gives (granted m) (fun x => x.1 = NGX_ERROR)
    (fun x => x.1 = NGX_OK /\ represents x.2 (table_add table_init hd)) (ngx_http_v2_add_header m h hd).
Proof.
  intros (s & Hs & ->) Hm. unfold sized in Hm.
  destruct (first_mem m) eqn:Hf.
  2: { unfold ngx_http_v2_add_header, first_add. simpl. rewrite Hf. simpl. eexists. split; [done |].
       left. unfold granted. by rewrite Hf. }
  destruct (storage_mem m) as [st |] eqn:Hst.
  2: { unfold ngx_http_v2_add_header, first_add. simpl. rewrite Hf, Hst. simpl. eexists. split; [done |].
       left. unfold granted. by rewrite Hst, andb_false_r. }
  set (h0 := Hpack (Some (replicate 64 None)) [] 0 0 0 64 NGX_HTTP_V2_TABLE_SIZE NGX_HTTP_V2_TABLE_SIZE st 0).
  assert (represents h0 table_init) as Hr.
  { exists (replicate 64 None), [], [], 0, 0, 0, 0.
    split; simpl; try done; unfold points, NGX_HTTP_V2_TABLE_SIZE in *; try lia. constructor. }
  destruct (add_started m h0 table_init hd _ Hr eq_refl) as (x & Hx & H). exists x. split; [| done].
  rewrite <- Hx. unfold ngx_http_v2_add_header, first_add. simpl. by rewrite Hf, Hst.
Qed.

Lemma represents_set_size h L L' c fr : represents h (Table L c) ->
  0 <= fr -> fr = L' - total c -> 0 <= L' <= NGX_HTTP_V2_TABLE_SIZE ->
  represents (set_size L' fr h) (Table L' c).
Proof.
  intros (es & young & old & A & D & R & P & r) Hfr -> HL'. destruct r.
  exists es, young, old, A, D, R, P. split; simpl in *; try done; lia.
Qed.

(** A change of the size. *)
Lemma resize_represents h t sz : represents h t -> 0 <= sz <= NGX_HTTP_V2_TABLE_SIZE ->
  exists h', ngx_http_v2_table_size h sz = Some (NGX_OK, h') /\ represents h' (table_resize t sz).
Proof.
  intros Hr Hsz. destruct t as [L c]. destruct (free_total _ _ Hr) as (Hf & Hs & HL & Hf0 & _). simpl in *.
  unfold ngx_http_v2_table_size. case_if; [lia |].
  rewrite Hs, s64_small by (unfold NGX_HTTP_V2_TABLE_SIZE in *; lia).
  destruct (size_loop_spec sz L c h Hr Hsz) as (h' & -> & Hr' & Hroom). simpl.
  destruct (free_total _ _ Hr') as (Hf' & _). simpl in *. eexists. split; [done |].
  pose proof (bytes_total (keep sz c)).
  rewrite u64_small by (unfold NGX_HTTP_V2_TABLE_SIZE in *; lia).
  eapply represents_set_size; [done | simpl; lia ..].
Qed.

Lemma resize_unused h sz : unused h -> 0 <= sz <= NGX_HTTP_V2_TABLE_SIZE ->
  exists h', ngx_http_v2_table_size h sz = Some (NGX_OK, h') /\ unused h'.
Proof.
  intros (s & Hs & ->) Hsz. unfold NGX_HTTP_V2_TABLE_SIZE in *.
  unfold ngx_http_v2_table_size, live, NGX_HTTP_V2_TABLE_SIZE. case_if; [lia |].
  cbn [size added deleted]. change (Z.to_nat (u64 (0 - 0))) with 0%nat.
  rewrite s64_small by lia. cbn [size_loop free]. rewrite s64_small by lia. case_if; [lia |].
  cbn [mbind option_bind free]. eexists. split; [done |]. exists sz. split; [done |].
  unfold set_size. cbn. f_equal. rewrite u64_small; lia.
Qed.

(** ** Histories *)

(** The state of a connection and what it stands for. *)
Definition tracks (h : hpack) (s : bool * table) : Prop :=
  if s.1 then represents h s.2 else unused h /\ s.2 = table_init.

Lemma run_op_tracks o h s : tracks h s -> op_ok o = true ->
  exists h', run_op o h = Some ((spec_op o s).1, h') /\ tracks h' (spec_op o s).2.
Proof.
  intros Ht Ho. unfold tracks in *.
  destruct s as [[|] t], o as [m hd | sz]; simpl in *.
  - pose proof Ht as (es & young & old & A & D & R & P & r).
    destruct (add_started m h t hd es Ht (rep_entries _ _ _ _ _ _ _ _ _ _ _ _ r))
      as ([rc h'] & -> & [[Hm _] | [Hrc Hr]]); [congruence |]. simpl in *. subst rc. by exists h'.
  - unfold run_op. case_if; simpl.
    + unfold ngx_http_v2_table_size. case_if; [| lia]. by exists h.
    + apply resize_represents; [done | lia].
  - destruct Ht as [Hu ->].
    destruct (add_unused m h hd Hu (granted_sized m Ho)) as ([rc h'] & -> & [[Hm _] | [Hrc Hr]]);
      [congruence |]. simpl in *. subst rc. by exists h'.
  - destruct Ht as [Hu ->]. case_if; simpl.
    + unfold ngx_http_v2_table_size. case_if; [| lia]. by exists h.
    + destruct (resize_unused h sz Hu ltac:(lia)) as (h' & ? & ?). by exists h'.
Qed.

Lemma run_ops_tracks os h s : tracks h s -> forallb op_ok os = true ->
  exists h', run_ops os h = Some ((spec_ops os s).1, h') /\ tracks h' (spec_ops os s).2.
Proof.
  revert h s. induction os as [| o os IH]; intros h s Ht Hos; simpl in *; [by exists h |].
  apply andb_prop in Hos as [Ho Hos].
  destruct (run_op_tracks o h s Ht Ho) as (h1 & -> & Ht1). simpl.
  destruct (spec_op o s) as [rc s1]. simpl in *.
  destruct (IH h1 s1 Ht1 Hos) as (h2 & -> & Ht2). simpl.
  destruct (spec_ops os s1) as [rcs s2]. by exists h2.
Qed.

Lemma init_tracks : tracks hpack_init (false, table_init).
Proof. split; [| done]. by exists 0. Qed.

Lemma tracks_live h s : tracks h s -> live h = length (content s.2).
Proof.
  destruct s as [[|] t]; unfold tracks; simpl; intros Ht; [by destruct (free_total _ _ Ht) as (_ & _ & _ & _ & ?) |].
  by destruct Ht as [(s & _ & ->) ->].
Qed.

(** ** Lookup *)

(** What a lookup gives for the table [t]: its code, and the header of the state.  A
    header of the static table is not copied. *)
Definition lookup_result (t : table) (index : Z) (name_only name_mem value_mem : bool) (old : header)
    : Z * header :=
  match table_lookup t index with
  | None => (NGX_ERROR, old)
  | Some hd =>
      if index <=? NGX_HTTP_V2_STATIC_TABLE_ENTRIES then (NGX_OK, hd)
      else if negb name_mem then (NGX_ERROR, old)
      else if name_only then (NGX_OK, Header (name hd) (value old))
      else if negb value_mem then (NGX_ERROR, Header (name hd) (value old))
      else (NGX_OK, hd)
  end.

Lemma laid_lookup ss st p ids hs i hd : laid ss st p ids hs -> hs !! i = Some hd ->
  exists id e q, ids !! i = Some id /\ ss !! id = Some e /\ describes st e hd q.
Proof.
  revert p ids i. induction hs as [| hd' hs IH]; intros p [| id ids] i; simpl; try done.
  intros [(e & He & Hd) Hl] Hi. destruct i as [| i]; simpl in *.
  - injection Hi as ->. by exists id, e, p.
  - by apply (IH _ _ _ Hl Hi).
Qed.

Lemma total_elem hd l i : l !! i = Some hd -> header_size hd <= total l.
Proof.
  revert i. induction l as [| hd' l IH]; intros [| i]; simpl; try done; intros H.
  - injection H as ->. pose proof (bytes_total l). lia.
  - specialize (IH i H). pose proof (header_size_pos hd'). lia.
Qed.

Lemma static_lookup index : 0 <= index < NGX_HTTP_V2_STATIC_TABLE_ENTRIES ->
  exists hd, ngx_http_v2_static_table !! Z.to_nat index = Some hd.
Proof.
  intros H. apply lookup_lt_is_Some_2. unfold NGX_HTTP_V2_STATIC_TABLE_ENTRIES in H. lia.
Qed.

(** Lookups below the dynamic table. *)
Lemma lookup_static h t index name_only name_mem value_mem old :
  0 <= index <= NGX_HTTP_V2_STATIC_TABLE_ENTRIES ->
  ngx_http_v2_get_indexed_header h index name_only name_mem value_mem old
  = Some (lookup_result t index name_only name_mem value_mem old).
Proof.
  intros Hi. unfold ngx_http_v2_get_indexed_header, lookup_result, table_lookup. case_if.
  { by destruct (index <? 1) eqn:?; [| lia]. }
  destruct (index <? 1) eqn:?; [lia |]. case_if; [| lia].
  destruct (static_lookup (index - 1)) as [hd Hhd]; [lia |]. rewrite Hhd.
  rewrite (lookup_app_l_Some _ _ _ _ Hhd). simpl. by case_if; [| lia].
Qed.

(** Lookups in the representation of a table. *)
Lemma lookup_represents h t index name_only name_mem value_mem old : represents h t ->
  0 <= index < 2 ^ 63 ->
  ngx_http_v2_get_indexed_header h index name_only name_mem value_mem old
  = Some (lookup_result t index name_only name_mem value_mem old).
Proof.
  intros (es & young & old' & A & D & R & P & r) Hi. pose proof (rep_counts r) as (HAD & _).
  assert (Hlen : length young = length (content t)) by (eapply laid_length, (rep_laid _ _ _ _ _ _ _ _ _ _ _ _ r)).
  destruct r. simpl in *.
  destruct (decide (index <= NGX_HTTP_V2_STATIC_TABLE_ENTRIES)); [apply lookup_static; lia |].
  unfold ngx_http_v2_get_indexed_header, lookup_result, table_lookup.
  unfold NGX_HTTP_V2_STATIC_TABLE_ENTRIES in *.
  do 2 (case_if; [lia |]). destruct (index <? 1) eqn:?; [lia |].
  set (i := index - 1 - Z.of_nat (length ngx_http_v2_static_table)).
  rewrite lookup_app_r by lia.
  replace ((Z.to_nat (index - 1) - length ngx_http_v2_static_table)%nat) with (Z.to_nat i) by lia.
  rewrite rep_added0, rep_deleted0, u64_sub_small by lia. case_if.
  2: { by rewrite lookup_ge_None_2 by lia. }
  destruct (lookup_lt_is_Some_2 (content t) (Z.to_nat i)) as [hd Hhd]; [lia |]. rewrite Hhd.
  destruct (laid_lookup _ _ _ _ _ _ _ rep_laid0 Hhd) as (id & e & q & Hid & He & Hd).
  unfold slot. rewrite rep_entries0. simpl mbind. rewrite u64_mod_ring by done.
  assert (Hmod : (u64 A - i - 1) mod allocated h = (A - 1 - Z.of_nat (Z.to_nat i)) mod allocated h).
  { replace (u64 A - i - 1) with (u64 A - (i + 1)) by lia.
    rewrite <- Zminus_mod_idemp_l, u64_mod_ring, Zminus_mod_idemp_l by done. f_equal. lia. }
  rewrite Hmod, (rep_slots0 _ id) by (by apply lookup_app_l_Some). simpl mbind. rewrite He. simpl mbind.
  pose proof (total_elem _ _ _ Hhd) as Hsz. unfold header_size in Hsz.
  destruct Hd as (-> & -> & Hn & Hv & Hbn & Hbv).
  rewrite (copy_string_spec _ _ _ _ rep_storage0 Hn) by (done || lia).
  rewrite (copy_string_spec _ _ _ _ rep_storage0 Hv) by (done || lia). simpl mbind.
  destruct (index <=? _) eqn:?; [lia |]. by destruct name_mem, name_only, value_mem, hd.
Qed.

Lemma lookup_unused h index name_only name_mem value_mem old : unused h -> 0 <= index ->
  ngx_http_v2_get_indexed_header h index name_only name_mem value_mem old
  = Some (lookup_result table_init index name_only name_mem value_mem old).
Proof.
  intros (s & _ & ->) Hi.
  destruct (decide (index <= NGX_HTTP_V2_STATIC_TABLE_ENTRIES)); [apply lookup_static; lia |].
  unfold ngx_http_v2_get_indexed_header, lookup_result, table_lookup.
  unfold NGX_HTTP_V2_STATIC_TABLE_ENTRIES in *.
  do 2 (case_if; [lia |]). destruct (index <? 1) eqn:?; [lia |].
  cbn [added deleted]. change (u64 (0 - 0)) with 0. case_if; [lia |].
  by rewrite lookup_app_r by lia.
Qed.

Lemma lookup_tracks h s index name_only name_mem value_mem old : tracks h s -> 0 <= index < 2 ^ 63 ->
  ngx_http_v2_get_indexed_header h index name_only name_mem value_mem old
  = Some (lookup_result s.2 index name_only name_mem value_mem old).
Proof.
  destruct s as [[|] t]; unfold tracks; simpl; intros Ht Hi; [apply lookup_represents; [done | lia] |].
  destruct Ht as [Hu ->]. apply lookup_unused; [done | lia].
Qed.

(** ** The theorems *)

(** C13. After any sequence of insertions and size updates, the connection answers
    with the codes of the RFC's dynamic table, and every lookup gives what a lookup
    in that table gives: the bytes of the header it names, or an error if there is
    none.  No access leaves the arrays, no slot is read before it was written,
    however often the ring of pointers, the ring of bytes and the counters wrap.
    The one deviation, a size set before the first insertion, is part of the
    specification [spec_op]. *)
Theorem hpack_history_refines os :
  forallb op_ok os = true ->
  exists h, run_ops os hpack_init = Some ((spec_ops os (false, table_init)).1, h) /\
    forall index name_only name_mem value_mem old, 0 <= index < 2 ^ 63 ->
      ngx_http_v2_get_indexed_header h index name_only name_mem value_mem old
      = Some (lookup_result (spec_ops os (false, table_init)).2.2 index name_only name_mem value_mem old).
Proof.
  intros Hos. destruct (run_ops_tracks os _ _ init_tracks Hos) as (h & Hrun & Ht).
  exists h. split; [done |]. intros. by apply lookup_tracks.
Qed.

(** What goes wrong is reported, and nothing else is: an insertion fails only when
    memory was refused, and gives its code without a wrong access even then; a size
    update fails exactly when it is above 4096, and changes nothing; a lookup fails
    exactly when no header has the index or memory for its copy was refused. *)
Theorem hpack_errors os h rcs : forallb op_ok os = true -> run_ops os hpack_init = Some (rcs, h) ->
  (forall m hd, sized m = true -> exists rc h', ngx_http_v2_add_header m h hd = Some (rc, h') /\
     (rc = NGX_OK \/ rc = NGX_ERROR /\ granted m = false)) /\
  (forall sz, 0 <= sz -> exists rc h', ngx_http_v2_table_size h sz = Some (rc, h') /\
     (rc = NGX_OK /\ sz <= NGX_HTTP_V2_TABLE_SIZE \/
      rc = NGX_ERROR /\ NGX_HTTP_V2_TABLE_SIZE < sz /\ h' = h)) /\
  (forall index name_only name_mem value_mem old, 0 <= index < 2 ^ 63 ->
     exists rc hd, ngx_http_v2_get_indexed_header h index name_only name_mem value_mem old = Some (rc, hd) /\
     (rc = NGX_OK \/ rc = NGX_ERROR) /\
     (rc = NGX_ERROR <->
        index = 0 \/ NGX_HTTP_V2_STATIC_TABLE_ENTRIES + Z.of_nat (live h) < index \/
        NGX_HTTP_V2_STATIC_TABLE_ENTRIES < index /\
          (name_mem = false \/ name_only = false /\ value_mem = false))).
Proof.
  intros Hos Hrun. destruct (run_ops_tracks os _ _ init_tracks Hos) as (h' & Hrun' & Ht).
  rewrite Hrun in Hrun'. injection Hrun' as _ <-. split_and!.
  - intros m hd Hm. destruct (spec_ops os (false, table_init)).2 as [[|] t]; unfold tracks in Ht; simpl in *.
    + pose proof Ht as (es & young & old & A & D & R & P & r).
      destruct (add_started m h t hd es Ht (rep_entries _ _ _ _ _ _ _ _ _ _ _ _ r))
        as ([rc h'] & -> & [[? ?] | [? _]]); exists rc, h'; auto.
    + destruct Ht as [Hu _].
      destruct (add_unused m h hd Hu Hm) as ([rc h'] & -> & [[? ?] | [? _]]); exists rc, h'; auto.
  - intros sz Hsz. destruct (NGX_HTTP_V2_TABLE_SIZE <? sz) eqn:E.
    + exists NGX_ERROR, h. unfold ngx_http_v2_table_size. rewrite E. split; [done |]. right.
      split; [done |]. split; [lia | done].
    + assert (op_ok (Resize sz) = true) as Ho by (simpl; lia).
      destruct (run_op_tracks (Resize sz) h _ Ht Ho) as (h' & Hr & _).
      destruct (spec_ops os (false, table_init)).2 as [st t]. simpl in Hr. rewrite E in Hr.
      exists NGX_OK, h'. split; [done |]. left. split; [done | lia].
  - intros index name_only name_mem value_mem old Hi. rewrite (lookup_tracks _ _ _ _ _ _ _ Ht Hi).
    do 2 eexists. split; [by rewrite <- surjective_pairing |].
    set (t := (spec_ops os (false, table_init)).2.2). unfold lookup_result.
    assert (Hl : table_lookup t index = None <->
      index = 0 \/ NGX_HTTP_V2_STATIC_TABLE_ENTRIES + Z.of_nat (live h) < index).
    { rewrite (tracks_live _ _ Ht). fold t. unfold table_lookup, NGX_HTTP_V2_STATIC_TABLE_ENTRIES.
      case_if; [split; [lia | done] |]. rewrite lookup_ge_None, length_app. lia. }
    destruct (table_lookup t index) as [hd |].
    + assert (~ (index = 0 \/ NGX_HTTP_V2_STATIC_TABLE_ENTRIES + Z.of_nat (live h) < index)) as Hn
        by (intros X; by apply Hl in X).
      destruct (Z.leb_spec index NGX_HTTP_V2_STATIC_TABLE_ENTRIES);
        [| destruct name_mem, name_only, value_mem]; simpl; (split; [by auto |]);
        intuition (lia || congruence).
    + simpl. split; [auto |]. tauto.
Qed.

(** C14. Between operations the table keeps to its bounds: the headers it holds take
    no more than the size last set, which is at most 4096, so they are at most 128;
    the array of pointers has 64 or 128 slots, and no more structures were ever
    allocated than it has; the count of free bytes is exact. *)
Theorem hpack_bounds os h rcs :
  forallb op_ok os = true -> run_ops os hpack_init = Some (rcs, h) ->
  let t := (spec_ops os (false, table_init)).2.2 in
  0 <= size h <= NGX_HTTP_V2_TABLE_SIZE /\
  (entries h <> None ->
     (allocated h = 64 \/ allocated h = 128) /\
     (length (structs h) <= Z.to_nat (allocated h))%nat /\
     live h = length (content t) /\
     Z.of_nat (length (content t)) <= 128 /\
     free h + total (content t) = size h /\ 0 <= free h).
Proof.
  intros Hos Hrun. destruct (run_ops_tracks os _ _ init_tracks Hos) as (h' & Hrun' & Ht).
  rewrite Hrun in Hrun'. injection Hrun' as _ <-. unfold tracks in Ht.
  destruct (spec_ops os (false, table_init)) as [rcs' [[|] t]]; simpl in *.
  - destruct (free_total _ _ Ht) as (Hf & -> & HL & Hf0 & Hl). split; [done |]. intros _.
    pose proof (total_length (content t)). unfold NGX_HTTP_V2_TABLE_SIZE in HL.
    destruct Ht as (es & young & old & A & D & R & P & r). pose proof (rep_counts r). destruct r.
    rewrite rep_count0. simpl. rewrite length_app. split_and!; try done; lia.
  - destruct Ht as [(s & Hs & ->) _]. split; [done |]. simpl. done.
Qed.

(** ** Integers and strings *)

(** The digits of a value, least significant first, are read back. *)
Lemma parse_write_digits fuel v acc shift n r :
  0 <= v < 128 ^ Z.of_nat fuel -> (0 < fuel)%nat -> 0 <= acc -> 0 <= shift ->
  acc + v * 2 ^ shift < 2 ^ 64 ->
  parse_int_loop (write_digits fuel v ++ r) acc shift n
  = Some (acc + v * 2 ^ shift, (n + length (write_digits fuel v))%nat).
Proof.
  revert v acc shift n. induction fuel as [| fuel IH]; intros v acc shift n Hv Hf Ha Hs Hb; [lia |].
  pose proof (Z.pow_pos_nonneg 2 shift ltac:(lia) Hs). simpl. case_if; simpl.
  - pose proof (Z.mod_pos_bound v 128 ltac:(lia)). pose proof (Z.div_mod v 128 ltac:(lia)) as Hd.
    destruct fuel as [| fuel]; [simpl in Hv; lia |].
    rewrite (u8_small (v mod 128 + 128)) by byte_lia. case_if; [lia |].
    rewrite (Z.land_ones _ 7), Z.shiftl_mul_pow2 by lia.
    replace ((v mod 128 + 128) mod 2 ^ 7) with (v mod 128)
      by (change (2 ^ 7) with 128; by rewrite <- Zplus_mod_idemp_r, Z_mod_same_full, Z.add_0_r, Z.mod_mod).
    assert (2 ^ (shift + 7) = 2 ^ shift * 128) as Hp by (by rewrite Z.pow_add_r by lia).
    rewrite u64_small by nia. rewrite Nat2Z.inj_succ, Z.pow_succ_r in Hv by lia.
    rewrite IH; [f_equal; f_equal; [rewrite Hp; nia | lia] | | lia | nia | lia | rewrite Hp; nia].
    split; [lia |]. apply Z.div_lt_upper_bound; lia.
  - rewrite u8_small by byte_lia. case_if; [| lia].
    rewrite (Z.land_ones _ 7), Z.shiftl_mul_pow2, Z.mod_small by lia.
    rewrite u64_small by nia. f_equal. f_equal. lia.
Qed.

Lemma write_digits_length fuel v k : 0 <= v < 128 ^ Z.of_nat k -> (0 < k <= fuel)%nat ->
  (1 <= length (write_digits fuel v) <= k)%nat.
Proof.
  revert v k. induction fuel as [| fuel IH]; intros v k Hv Hk; [lia |]. simpl. case_if; simpl; [| lia].
  destruct k as [| k]; [lia |]. rewrite Nat2Z.inj_succ, Z.pow_succ_r in Hv by lia.
  destruct k as [| k]; [simpl in Hv; lia |].
  specialize (IH (v / 128) (S k)). 
  assert (0 <= v / 128 < 128 ^ Z.of_nat (S k)) by (split; [apply Z.div_pos; lia | apply Z.div_lt_upper_bound; lia]).
  lia.
Qed.

(** A value fits beside the high bits of its first byte. *)
Lemma prefix_facts b n v : 1 <= n <= 7 -> is_byte b -> Z.land b (ngx_http_v2_prefix n) = 0 ->
  0 <= v <= ngx_http_v2_prefix n ->
  u8 (Z.lor b v) = Z.lor b v /\ Z.land (Z.lor b v) (ngx_http_v2_prefix n) = v.
Proof.
  intros Hn Hb Hz Hv. unfold ngx_http_v2_prefix in *. rewrite Z.shiftl_mul_pow2, Z.mul_1_l in * by lia.
  replace (2 ^ n - 1) with (Z.ones n) in * by (rewrite Z.ones_equiv; lia).
  assert (v < 2 ^ n) as Hvn by (rewrite Z.ones_equiv in Hv; lia).
  rewrite Z.land_lor_distr_l, Hz, Z.lor_0_l, Z.land_ones, Z.mod_small by lia. split; [| done].
  rewrite Z.land_ones in Hz by lia. pose proof (Z.div_mod b (2 ^ n) ltac:(lia)) as Hd.
  rewrite Hz, Z.add_0_r, Z.mul_comm in Hd. rewrite Hd, Huffman.lor_add by lia.
  apply u8_small. unfold is_byte in *. split; [lia |].
  assert (b / 2 ^ n < 2 ^ (8 - n)) as Hq.
  { apply Z.div_lt_upper_bound; [lia |]. rewrite <- Z.pow_add_r by lia. replace (n + (8 - n)) with 8 by lia; lia. }
  assert (2 ^ (8 - n) * 2 ^ n = 256) as H8 by (rewrite <- Z.pow_add_r by lia; by replace (8 - n + n) with 8 by lia).
  nia.
Qed.

(** An integer written after the high bits of a byte is read back as it was, with
    the octets it took and no others, for every value that the reader takes: up to
    four octets. *)
Lemma parse_write_int b n v len rest :
  1 <= n <= 7 -> is_byte b -> Z.land b (ngx_http_v2_prefix n) = 0 ->
  0 <= v < ngx_http_v2_prefix n + 2 ^ 21 ->
  let w := ngx_http_v2_write_int b (ngx_http_v2_prefix n) v in
  Z.of_nat (length w) <= len ->
  ngx_http_v2_parse_int (ngx_http_v2_prefix n) len (w ++ rest)
  = Some (v, len - Z.of_nat (length w), rest).
Proof.
  intros Hn Hb Hz Hv w. subst w. unfold ngx_http_v2_write_int.
  assert (0 < ngx_http_v2_prefix n < 128) as Hp.
  { unfold ngx_http_v2_prefix. rewrite Z.shiftl_mul_pow2 by lia.
    assert (2 ^ 1 <= 2 ^ n <= 2 ^ 7) by (split; apply Z.pow_le_mono_r; lia). lia. }
  destruct (Z.ltb_spec v (ngx_http_v2_prefix n)) as [Hlt | Hge]; intros Hl.
  - destruct (prefix_facts b n v Hn Hb Hz) as [-> Hland]; [lia |]. simpl. rewrite Hland.
    case_if; [| lia]. case_if; [simpl in Hl; lia | done].
  - destruct (prefix_facts b n (ngx_http_v2_prefix n) Hn Hb Hz) as [-> Hland]; [lia |].
    set (k := v - ngx_http_v2_prefix n) in *.
    destruct (write_digits_length 10 k 3) as [Hk1 Hk3]; [lia | lia |].
    set (ds := write_digits 10 k) in *.
    unfold ngx_http_v2_parse_int. rewrite <- app_comm_cons, Hland. case_if; [lia |].
    change (length (_ :: ds)) with (S (length ds)) in *. simpl length. rewrite length_app.
    set (e := Nat.min (S (length ds + length rest)) NGX_HTTP_V2_INT_OCTETS).
    unfold NGX_HTTP_V2_INT_OCTETS in e.
    rewrite take_app, (take_ge ds) by lia. unfold ds at 1.
    rewrite parse_write_digits by (simpl; lia). fold ds. change (1 + length ds)%nat with (S (length ds)).
    case_if; [lia |]. simpl. rewrite drop_app_length. f_equal. f_equal. f_equal. lia.
Qed.

Lemma parse_loop_app l x v sh n r :
  parse_int_loop l v sh n = Some r -> parse_int_loop (l ++ x) v sh n = Some r.
Proof. revert v sh n. induction l as [| o l IH]; intros v sh n; simpl; [done |]. case_if; auto. Qed.

Lemma parse_loop_some l v sh n v' k : parse_int_loop l v sh n = Some (v', k) ->
  0 <= v' /\ (n < k <= n + length l)%nat.
Proof.
  revert v sh n. induction l as [| o l IH]; intros v sh n; simpl; [done |]. case_if.
  - intros [= <- <-]. pose proof (u64_range (v + Z.shiftl (Z.land o 0x7f) sh)). lia.
  - intros H. apply IH in H. lia.
Qed.

Lemma parse_loop_later l x v sh n v' k : parse_int_loop l v sh n = None ->
  parse_int_loop (l ++ x) v sh n = Some (v', k) -> (n + length l < k)%nat.
Proof.
  revert v sh n. induction l as [| o l IH]; intros v sh n; simpl.
  - intros _ H. apply parse_loop_some in H. lia.
  - case_if; [done |]. intros H1 H2. specialize (IH _ _ _ H1 H2). lia.
Qed.

(** Reading an integer does not depend on how much of it has arrived: a result
    other than [NGX_AGAIN] stays what it is when more bytes follow, and
    [NGX_AGAIN] leaves everything as it was. *)
Lemma parse_int_more prefix len buf more rc len' rest :
  wf_bytes buf -> 0 <= prefix ->
  ngx_http_v2_parse_int prefix len buf = Some (rc, len', rest) ->
  (rc = NGX_AGAIN -> len' = len /\ rest = buf) /\
  (rc <> NGX_AGAIN ->
   ngx_http_v2_parse_int prefix len (buf ++ more) = Some (rc, len', rest ++ more)).
Proof.
  intros Hwf Hp. destruct buf as [| b t]; [done |].
  assert (0 <= Z.land b prefix) as Hv by (apply Z.land_nonneg; lia).
  unfold ngx_http_v2_parse_int. rewrite <- app_comm_cons. case_if.
  { case_if; intros [= <- <- <-]; (split; [lia |]); intros _; done. }
  set (n := Nat.min (length (b :: t)) NGX_HTTP_V2_INT_OCTETS).
  set (n' := Nat.min (length (b :: t ++ more)) NGX_HTTP_V2_INT_OCTETS).
  assert (exists x, take (n' - 1) (t ++ more) = take (n - 1) t ++ x /\
            ((n = 4)%nat -> x = []) /\ length (take (n - 1) t) = (n - 1)%nat) as (x & -> & Hx & Hlen).
  { subst n n'. unfold NGX_HTTP_V2_INT_OCTETS. simpl length. rewrite take_app, length_app, length_take.
    destruct (decide (4 <= S (length t))%nat).
    - exists []. rewrite app_nil_r. replace (Nat.min (S (length t)) 4) with 4%nat by lia.
      replace (Nat.min (S (length t + length more)) 4) with 4%nat by lia. simpl.
      replace (3 - length t)%nat with 0%nat by lia. rewrite app_nil_r. split_and!; [done | done | lia].
    - replace (Nat.min (S (length t)) 4 - 1)%nat with (length t) by lia.
      rewrite (take_ge t), (take_ge t) by lia. eexists. split_and!; [done | lia | lia]. }
  assert (Hn : (n <= length (b :: t))%nat) by lia.
  assert (Hn' : (n <= n' <= 4)%nat)
    by (subst n n'; unfold NGX_HTTP_V2_INT_OCTETS; simpl; rewrite length_app; lia).
  destruct (parse_int_loop (take (n - 1) t) _ 0 1) as [[v k] |] eqn:E.
  - rewrite (parse_loop_app _ x _ _ _ _ E). apply parse_loop_some in E.
    case_if; intros [= <- <- <-]; (split; [lia |]); intros _; [done |].
    rewrite app_comm_cons, drop_app_le; [done | lia].
  - destruct (parse_int_loop (take (n - 1) t ++ x) _ 0 1) as [[v k] |] eqn:E'.
    + pose proof (parse_loop_later _ _ _ _ _ _ _ E E') as Hk.
      case_if; [| case_if]; intros [= <- <- <-]; (split; [done |]); intros Hne; try done.
      * case_if; [done | lia].
      * unfold NGX_HTTP_V2_INT_OCTETS in *. rewrite Hx, app_nil_r in E' by lia. congruence.
    + case_if; [| case_if]; intros [= <- <- <-]; (split; [done |]); intros Hne; try done.
      * case_if; [done | lia].
      * unfold NGX_HTTP_V2_INT_OCTETS in *. replace n' with 4%nat by lia. by case_if; [lia |].
Qed.

(** What is left after an integer, and when there is not enough. *)
Lemma parse_int_shape prefix len buf rc len' rest :
  wf_bytes buf -> 0 <= prefix -> 0 <= len ->
  ngx_http_v2_parse_int prefix len buf = Some (rc, len', rest) ->
  (rc = NGX_AGAIN -> (length buf < 4)%nat) /\
  (0 <= rc -> 0 <= len' < len /\ wf_bytes rest /\
     exists k, buf = k ++ rest /\ k <> [] /\ Z.of_nat (length k) = len - len') /\
  (rc < 0 -> len' = len /\ rest = buf /\ (rc = NGX_AGAIN \/ rc = NGX_DECLINED \/ rc = NGX_ERROR)).
Proof.
  intros Hwf Hp Hl. destruct buf as [| b t]; [done |].
  assert (0 <= Z.land b prefix) as Hv by (apply Z.land_nonneg; lia).
  unfold ngx_http_v2_parse_int. case_if.
  { case_if; intros [= <- <- <-]; split_and!; try lia; auto. intros _. inv_bytes.
    split_and!; [lia | lia | done |]. exists [b]. split_and!; [done | done | simpl; lia]. }
  set (n := Nat.min (length (b :: t)) NGX_HTTP_V2_INT_OCTETS).
  assert (Hn : (n <= length (b :: t))%nat) by lia.
  destruct (parse_int_loop (take (n - 1) t) _ 0 1) as [[v k] |] eqn:E.
  - apply parse_loop_some in E as [Hv0 Hk]. rewrite length_take in Hk.
    case_if; intros [= <- <- <-]; split_and!; try lia; auto. intros _.
    split_and!; [lia | lia | by apply Forall_drop |].
    exists (take k (b :: t)). rewrite take_drop, length_take. simpl in *. split_and!; [done | | lia].
    destruct k; [lia | done].
  - case_if; [| case_if]; intros [= <- <- <-]; split_and!; try lia; auto.
    intros _. unfold NGX_HTTP_V2_INT_OCTETS in *. lia.
Qed.

(** All the bytes are there. *)
Lemma parse_int_whole prefix l rc n rest :
  wf_bytes l -> 0 <= prefix -> ngx_http_v2_parse_int prefix (Z.of_nat (length l)) l = Some (rc, n, rest) ->
  rc <> NGX_AGAIN /\ (0 <= rc -> n = Z.of_nat (length rest)).
Proof.
  intros Hw Hp E. assert (0 <= Z.of_nat (length l)) as Hl by lia.
  destruct (parse_int_shape _ _ _ _ _ _ Hw Hp Hl E) as (Hag & Hpos & _). split.
  - intros ->. specialize (Hag eq_refl). destruct l as [| b t]; [done |].
    assert (0 <= Z.land b prefix) as Hv by (apply Z.land_nonneg; lia).
    unfold ngx_http_v2_parse_int in E. case_if_in E.
    { case_if_in E; simplify_eq; lia. }
    set (k := Nat.min (length (b :: t)) NGX_HTTP_V2_INT_OCTETS) in E. unfold NGX_HTTP_V2_INT_OCTETS in k.
    destruct (parse_int_loop _ _ _ _) as [[v j] |] eqn:E'.
    { apply parse_loop_some in E'. case_if_in E; simplify_eq; lia. }
    case_if_in E; [by simplify_eq | lia].
  - intros H. destruct (Hpos H) as (_ & _ & k & -> & _ & Hk). rewrite length_app in Hk. lia.
Qed.

(** An integer that is whole does not look at how much follows. *)
Lemma parse_int_len prefix l m rc n rest : wf_bytes l -> 0 <= prefix -> 0 <= m -> (4 <= length l)%nat ->
  ngx_http_v2_parse_int prefix (Z.of_nat (length l)) l = Some (rc, n, rest) ->
  (0 <= rc -> ngx_http_v2_parse_int prefix (Z.of_nat (length l) + m) l = Some (rc, n + m, rest)) /\
  (rc < 0 -> exists rc', ngx_http_v2_parse_int prefix (Z.of_nat (length l) + m) l
     = Some (rc', Z.of_nat (length l) + m, l) /\ rc' < 0 /\ rc' <> NGX_AGAIN).
Proof.
  intros Hw Hp Hm Hl E. destruct l as [| b t]; [done |].
  assert (0 <= Z.land b prefix) as Hv by (apply Z.land_nonneg; lia).
  unfold ngx_http_v2_parse_int in *. revert E. case_if.
  { case_if; [lia |]. case_if; [lia |]. intros E. simplify_eq. split; [| lia]. intros _.
    do 2 f_equal. f_equal. lia. }
  intros E.
  rewrite (Nat.min_r _ NGX_HTTP_V2_INT_OCTETS) in * by (unfold NGX_HTTP_V2_INT_OCTETS; lia).
  change (length (b :: t)) with (S (length t)) in *.
  destruct (parse_int_loop _ _ _ _) as [[v j] |] eqn:E'.
  - apply parse_loop_some in E' as [Hv0 Hj]. rewrite length_take in Hj. unfold NGX_HTTP_V2_INT_OCTETS in Hj.
    case_if_in E; [lia |]. case_if; [lia |]. simplify_eq. split; [| lia]. intros _.
    do 2 f_equal. f_equal. lia.
  - unfold NGX_HTTP_V2_INT_OCTETS in *. cbn [Nat.eqb] in *. split.
    + intros H. case_if_in E; simplify_eq; lia.
    + intros _. case_if; eexists; (split; [done | done]).
Qed.

(** A value is far from the limits of its type. *)
Lemma parse_loop_bound l v sh n v' k : 0 <= v -> 0 <= sh ->
  parse_int_loop l v sh n = Some (v', k) -> v' + 2 ^ sh <= v + 2 ^ (sh + 7 * Z.of_nat (length l)).
Proof.
  revert v sh n. induction l as [| o l IH]; intros v sh n Hv Hs; cbn [parse_int_loop]; [done |].
  set (v1 := u64 _). pose proof (Z.pow_pos_nonneg 2 sh ltac:(lia) Hs) as H2.
  assert (0 <= v1 <= v + 127 * 2 ^ sh) as Hv1.
  { subst v1. pose proof (u64_range (v + Z.shiftl (Z.land o 127) sh)). split; [lia |].
    rewrite Z.shiftl_mul_pow2, (Z.land_ones _ 7) by lia. pose proof (Z.mod_pos_bound o (2 ^ 7) ltac:(lia)).
    transitivity (v + o mod 2 ^ 7 * 2 ^ sh); [apply Z.mod_le; nia | nia]. }
  assert (2 ^ (sh + 7) = 128 * 2 ^ sh) as H7 by (rewrite Z.pow_add_r by lia; lia).
  assert (2 ^ (sh + 7) <= 2 ^ (sh + 7 * Z.of_nat (length (o :: l)))) as Hle
    by (apply Z.pow_le_mono_r; simpl length; lia).
  case_if.
  - intros [= <- <-]. lia.
  - intros H. apply IH in H; [| lia | lia].
    replace (sh + 7 + 7 * Z.of_nat (length l)) with (sh + 7 * Z.of_nat (length (o :: l))) in H by (simpl length; lia).
    lia.
Qed.

Lemma parse_int_bound k len buf rc n rest : 0 <= k <= 7 ->
  ngx_http_v2_parse_int (ngx_http_v2_prefix k) len buf = Some (rc, n, rest) -> rc < 2 ^ 63.
Proof.
  intros Hk. destruct buf as [| b t]; [done |]. unfold ngx_http_v2_parse_int.
  assert (0 <= Z.land b (ngx_http_v2_prefix k) < 128) as Hv.
  { unfold ngx_http_v2_prefix. rewrite Z.shiftl_mul_pow2, Z.mul_1_l by lia.
    replace (2 ^ k - 1) with (Z.ones k) by (rewrite Z.ones_equiv; lia). rewrite Z.land_ones by lia.
    pose proof (Z.mod_pos_bound b (2 ^ k) ltac:(apply Z.pow_pos_nonneg; lia)).
    assert (2 ^ k <= 2 ^ 7) by (apply Z.pow_le_mono_r; lia). lia. }
  case_if; [case_if; intros [= <- <- <-]; lia |].
  destruct (parse_int_loop _ _ _ _) as [[v j] |] eqn:E.
  - apply parse_loop_bound in E; [| lia | lia]. rewrite length_take in E.
    assert (2 ^ (0 + 7 * Z.of_nat (Nat.min (Nat.min (length (b :: t)) NGX_HTTP_V2_INT_OCTETS - 1) (length t))) <= 2 ^ 21)
      by (apply Z.pow_le_mono_r; unfold NGX_HTTP_V2_INT_OCTETS; lia).
    case_if; intros [= <- <- <-]; lia.
  - repeat case_if; intros [= <- <- <-]; lia.
Qed.

Lemma strlow_map src : Str.ngx_strlow src (length src) = map Str.ngx_tolower src.
Proof. induction src as [| c src IH]; simpl; [done | by rewrite IH]. Qed.

(** The first byte keeps its high bit. *)
Lemma write_int_first b v : b = 0 \/ b = 128 -> 0 <= v ->
  exists t, ngx_http_v2_write_int b (ngx_http_v2_prefix 7) v = (b + Z.min v 127) :: t.
Proof.
  intros Hb Hv. unfold ngx_http_v2_write_int. change (ngx_http_v2_prefix 7) with 127.
  assert (Hor : forall x, 0 <= x <= 127 -> u8 (Z.lor b x) = b + x).
  { intros x Hx. replace b with (Z.shiftl (b / 128) 7) at 1 by (destruct Hb as [-> | ->]; done).
    rewrite lor_shiftl_add by lia.
    replace (b / 128 * 2 ^ 7) with b by (by destruct Hb as [-> | ->]).
    apply u8_small. unfold is_byte. lia. }
  case_if; eexists; f_equal; rewrite Hor by lia; lia.
Qed.

(** A header string is written as its length and its bytes, with the Huffman code
    when that is shorter; reading the length and undoing the code, as the first byte
    tells, gives the string, lower case if that was asked for, and what follows. *)
Theorem hpack_string_roundtrip src (lower : bool) len rest :
  wf_bytes src -> Z.of_nat (length src) < 127 + 2 ^ 21 ->
  let w := ngx_http_v2_string_encode src lower in
  Z.of_nat (length w) <= len ->
  exists n body,
    ngx_http_v2_parse_int (ngx_http_v2_prefix 7) len (w ++ rest)
    = Some (n, len - Z.of_nat (length w) + n, body ++ rest) /\
    n = Z.of_nat (length body) /\
    (if 128 <=? hd 0 w then Huffman.ngx_http_huff_decode 0 body true else (NGX_OK, 0, body))
    = (NGX_OK, 0, if lower then map Str.ngx_tolower src else src).
Proof.
  intros Hwf Hlen w Hw. subst w. unfold ngx_http_v2_string_encode in *.
  pose proof (Huffman.encode_decodes src lower Hwf) as Henc.
  set (tmp := Huffman.ngx_http_huff_encode src lower) in *.
  assert (exists b body, (b = 0 \/ b = 128) /\ Z.of_nat (length body) < 127 + 2 ^ 21 /\
    (if 0 <? Z.of_nat (length tmp)
     then ngx_http_v2_write_int NGX_HTTP_V2_ENCODE_HUFF (ngx_http_v2_prefix 7) (Z.of_nat (length tmp)) ++ tmp
     else ngx_http_v2_write_int NGX_HTTP_V2_ENCODE_RAW (ngx_http_v2_prefix 7) (Z.of_nat (length src))
       ++ (if lower then Str.ngx_strlow src (length src) else src))
    = ngx_http_v2_write_int b (ngx_http_v2_prefix 7) (Z.of_nat (length body)) ++ body /\
    (if 128 <=? b then Huffman.ngx_http_huff_decode 0 body true else (NGX_OK, 0, body))
    = (NGX_OK, 0, if lower then map Str.ngx_tolower src else src)) as (b & body & Hb & Hbl & E & Hdec).
  { destruct Henc as [-> | [Hl Hdec]].
    - exists 0, (if lower then map Str.ngx_tolower src else src). rewrite strlow_map.
      split_and!; [by left | | | done]; destruct lower; rewrite ?length_map; done.
    - exists 128, tmp. case_if; [| lia]. split_and!; [by right | lia | done | done]. }
  rewrite E in *. exists (Z.of_nat (length body)), body.
  rewrite length_app in Hw. rewrite <- app_assoc.
  rewrite (parse_write_int b 7);
    [| lia | by destruct Hb as [-> | ->] | by destruct Hb as [-> | ->]
     | change (ngx_http_v2_prefix 7) with 127; lia | lia].
  rewrite length_app. split_and!; [do 3 f_equal; lia | done |].
  destruct (write_int_first b (Z.of_nat (length body)) Hb) as [t ->]; [lia |]. simpl.
  rewrite <- Hdec. destruct Hb as [-> | ->]; do 2 case_if; try lia; done.
Qed.

Lemma hpack_string_roundtrip_witness :
  ngx_http_v2_string_encode (bs "No-Cache") true = [0x86; 0xa8; 0xeb; 0x10; 0x64; 0x9c; 0xbf] /\
  exists n body,
    ngx_http_v2_parse_int 127 100 (ngx_http_v2_string_encode (bs "No-Cache") true ++ [1; 2]) = Some (n, 93 + n, body ++ [1; 2]) /\
    n = Z.of_nat (length body) /\
    (if 128 <=? hd 0 (ngx_http_v2_string_encode (bs "No-Cache") true)
     then Huffman.ngx_http_huff_decode 0 body true else (NGX_OK, 0, body)) = (NGX_OK, 0, bs "no-cache").
Proof.
  split; [vm_compute; reflexivity |].
  exact (hpack_string_roundtrip (bs "No-Cache") true 100 [1; 2]
           ltac:(repeat constructor; easy) ltac:(vm_compute; reflexivity) ltac:(vm_compute; easy)).
Defined.

(** *** Witnesses, and a size that is lost *)

Definition plenty : memory := Memory true (Some (replicate 4096 0)) true true.

(** A small table, in which the second header evicts the first. *)
Definition small_history : list op :=
  [Add plenty (Header (bs "x-a") (bs "1")); Resize 50; Add plenty (Header (bs "x-long-name") (bs "2"))].

Lemma hpack_history_refines_witness :
  spec_ops small_history (false, table_init)
  = ([NGX_OK; NGX_OK; NGX_OK], (true, Table 50 [Header (bs "x-long-name") (bs "2")])) /\
  exists h, run_ops small_history hpack_init = Some ([NGX_OK; NGX_OK; NGX_OK], h) /\
    forall index name_only name_mem value_mem old, 0 <= index < 2 ^ 63 ->
      ngx_http_v2_get_indexed_header h index name_only name_mem value_mem old
      = Some (lookup_result (Table 50 [Header (bs "x-long-name") (bs "2")]) index name_only name_mem
                value_mem old).
Proof.
  split; [vm_compute; reflexivity |].
  exact (hpack_history_refines small_history ltac:(vm_compute; reflexivity)).
Defined.

(** The state after [small_history]. *)
Definition small_state : hpack :=
  match run_ops small_history hpack_init with Some (_, h) => h | None => hpack_init end.

Lemma small_run : run_ops small_history hpack_init = Some ([NGX_OK; NGX_OK; NGX_OK], small_state).
Proof. vm_compute. reflexivity. Qed.

Lemma hpack_bounds_witness : size small_state = 50 /\ 0 <= size small_state <= NGX_HTTP_V2_TABLE_SIZE.
Proof.
  split; [vm_compute; reflexivity |].
  exact (proj1 (hpack_bounds small_history small_state _ ltac:(vm_compute; reflexivity) small_run)).
Defined.

Lemma hpack_errors_witness : exists rc h',
  ngx_http_v2_table_size small_state 4097 = Some (rc, h') /\
  (rc = NGX_OK /\ 4097 <= NGX_HTTP_V2_TABLE_SIZE \/
   rc = NGX_ERROR /\ NGX_HTTP_V2_TABLE_SIZE < 4097 /\ h' = small_state).
Proof.
  exact (proj1 (proj2 (hpack_errors small_history small_state _ ltac:(vm_compute; reflexivity) small_run))
           4097 ltac:(easy)).
Defined.

(** The first insertion sets the size to 4096, so a smaller size that was set before
    it is lost: a header that is too large for the table of the client, who has
    evicted everything, takes a place in the table of the server. *)
Remark hpack_early_size_lost m hd sz :
  granted m = true -> 0 <= sz < header_size hd -> header_size hd <= NGX_HTTP_V2_TABLE_SIZE ->
  content (table_add (table_resize table_init sz) hd) = [] /\
  exists h rcs, run_ops [Resize sz; Add m hd] hpack_init = Some (rcs, h) /\ live h = 1%nat.
Proof.
  intros Hm Hsz Hhd. simpl content. unfold table_add. simpl. split; [by case_if; [lia |] |].
  destruct (run_ops_tracks [Resize sz; Add m hd] _ _ init_tracks) as (h & Hr & Ht).
  { simpl. rewrite Hm. lia. }
  exists h. eexists. split; [exact Hr |]. rewrite (tracks_live _ _ Ht). simpl.
  destruct (NGX_HTTP_V2_TABLE_SIZE <? sz) eqn:?; [lia |]. simpl.
  unfold table_add. simpl. by case_if; [| lia].
Qed.

End Hpack.
