(* ===== verification/H2Block.v ===== *)
(** * H2Block: the header blocks of HTTP/2 (src/http/v2/ngx_http_v2.c)

    A header block comes in a HEADERS frame and any number of CONTINUATION frames,
    and the frames come in any number of reads.  The handlers keep what they need
    in [h2c->state]; one of them runs on the bytes of the receive buffer, calls
    another one or returns, and saves up to sixteen bytes that it could not use.

    The model is the chain of handlers from [ngx_http_v2_state_header_block] on.
    What becomes of a header of a request ([ngx_http_v2_validate_header],
    [ngx_http_v2_pseudo_header], [ngx_http_v2_cookie] and the handlers of known
    headers) and the start of the request are functions of an abstract state of the
    request.  The allocator gives the same answers throughout.  The pool of the
    block and the timer of [ngx_http_v2_state_headers_save] are left out. *)

From S2P Require Import Prelude NgxString HuffTables Huffman Hpack.
From stdpp Require Import base option list.

#[local] Open Scope Z_scope.

Module H2Block.

Import Hpack.

(** ** Definitions *)

Definition NGX_HTTP_V2_END_HEADERS_FLAG : Z := 0x04.
Definition NGX_HTTP_V2_CONTINUATION_FRAME : Z := 0x9.
Definition NGX_HTTP_V2_FRAME_HEADER_SIZE : nat := 9.
Definition NGX_HTTP_V2_STATE_BUFFER_SIZE : nat := 16.

Definition NGX_HTTP_V2_PROTOCOL_ERROR : Z := 0x1.
Definition NGX_HTTP_V2_INTERNAL_ERROR : Z := 0x2.
Definition NGX_HTTP_V2_SIZE_ERROR : Z := 0x6.
Definition NGX_HTTP_V2_COMP_ERROR : Z := 0x9.
Definition NGX_HTTP_V2_ENHANCE_YOUR_CALM : Z := 0xb.

(** The four bytes at [p], in network order. *)
Definition ngx_http_v2_parse_uint32 (p : list Z) : option Z :=
  match p with
  | a :: b :: c :: d :: _ => Some (((a * 256 + b) * 256 + c) * 256 + d)
  | _ => None
  end.

Definition ngx_http_v2_parse_length (head : Z) : Z := Z.shiftr head 8.
Definition ngx_http_v2_parse_type (head : Z) : Z := Z.land head 0xff.
Definition ngx_http_v2_parse_sid (p : list Z) : option Z :=
  (fun n => Z.land n 0x7fffffff) <$> ngx_http_v2_parse_uint32 p.

(** [ngx_http_v2_state_t]: the frame, *)
Record frame : Set := Frame { sid : Z; len : Z; padding : Z; flags : Z }.

(** the flags of the header field that is being read, *)
Record mode : Set := Mode { parse_name : bool; parse_value : bool; index : bool }.

(** the string that is being read: the state of the Huffman decoder, the bytes from
    [field_start] to [field_end], the size of the memory at [field_start], and
    [field_rest], *)
Record field : Set := Field { field_state : Z; field_bytes : list Z; field_size : Z; field_rest : Z }.

(** and the rest of it: [stream] says whether there is one, and [request_length]
    is a field of its request.  [world] is what the request does with headers. *)
Record conn (U : Type) : Type := Conn {
  fr : frame; md : mode; fl : field;
  hdr : header; header_limit : Z;
  stream : bool; request_length : Z;
  table_of : hpack; world : U }.

Arguments Conn {U} _ _ _ _ _ _ _ _ _.
Arguments fr {U} _.
Arguments md {U} _.
Arguments fl {U} _.
Arguments hdr {U} _.
Arguments header_limit {U} _.
Arguments stream {U} _.
Arguments request_length {U} _.
Arguments table_of {U} _.
Arguments world {U} _.

Definition set_fr {U} (x : frame) (c : conn U) : conn U :=
  Conn x (md c) (fl c) (hdr c) (header_limit c) (stream c) (request_length c) (table_of c) (world c).
Definition set_md {U} (x : mode) (c : conn U) : conn U :=
  Conn (fr c) x (fl c) (hdr c) (header_limit c) (stream c) (request_length c) (table_of c) (world c).
Definition set_fl {U} (x : field) (c : conn U) : conn U :=
  Conn (fr c) (md c) x (hdr c) (header_limit c) (stream c) (request_length c) (table_of c) (world c).
Definition set_hdr {U} (x : header) (c : conn U) : conn U :=
  Conn (fr c) (md c) (fl c) x (header_limit c) (stream c) (request_length c) (table_of c) (world c).
Definition set_limit {U} (x : Z) (c : conn U) : conn U :=
  Conn (fr c) (md c) (fl c) (hdr c) x (stream c) (request_length c) (table_of c) (world c).
Definition set_request {U} (s : bool) (n : Z) (c : conn U) : conn U :=
  Conn (fr c) (md c) (fl c) (hdr c) (header_limit c) s n (table_of c) (world c).
Definition set_table {U} (h : hpack) (c : conn U) : conn U :=
  Conn (fr c) (md c) (fl c) (hdr c) (header_limit c) (stream c) (request_length c) h (world c).
Definition set_world {U} (w : U) (c : conn U) : conn U :=
  Conn (fr c) (md c) (fl c) (hdr c) (header_limit c) (stream c) (request_length c) (table_of c) w.

Definition set_len (n : Z) (f : frame) : frame := Frame (sid f) n (padding f) (flags f).
Definition set_padding (n : Z) (f : frame) : frame := Frame (sid f) (len f) n (flags f).

(** The handlers that may be left in [h2c->state.handler], and the one that is only
    called. *)
Inductive handler : Set :=
  | header_block | field_len | field_huff | field_raw | field_skip | process_header
  | header_complete | skip | frame_head.

#[export] Instance handler_eq_dec : EqDecision handler.
Proof. solve_decision. Defined.

(** How a handler ends: it calls another one on the rest of the buffer, returns
    the rest with the handler for it, saves the rest for the next read, or
    closes the connection.  [Wild] is an access to memory that is not there. *)
Inductive next (U : Type) : Type :=
  | Call (h : handler) (c : conn U) (p : list Z)
  | Back (h : handler) (c : conn U) (p : list Z)
  | Save (h : handler) (c : conn U) (p : list Z)
  | Fail (code : Z)
  | Wild.

Arguments Call {U} _ _ _.
Arguments Back {U} _ _ _.
Arguments Save {U} _ _ _.
Arguments Fail {U} _.
Arguments Wild {U}.

(** What a request does with a header: it goes on, it is finalized (the label
    [error]), or the connection is closed. *)
Inductive verdict : Set := Kept | Dropped | Broken (code : Z).

(** What the allocator answers. *)
Record answers : Set := Answers { field_mem : bool; name_mem : bool; value_mem : bool; table_mem : memory }.

(** A decoder that takes a string in parts, from a state to a state: what the two
    handlers of a string have in common. *)
Class Decoder (dec : Z -> list Z -> bool -> Z * Z * list Z) : Prop := {
  dec_nil s : dec s [] false = (NGX_OK, s, []);
  dec_cat s a b last s' o : b <> [] -> dec s a false = (NGX_OK, s', o) ->
    dec s (a ++ b) last = let '(rc, s'', o') := dec s' b last in (rc, s'', o ++ o');
  dec_wrong s a b last rc s' o : rc <> NGX_OK -> dec s a false = (rc, s', o) ->
    dec s (a ++ b) last = (rc, s', o) }.

Definition raw_decode (s : Z) (l : list Z) (last : bool) : Z * Z * list Z := (NGX_OK, s, l).

#[export] Instance huff_decoder : Decoder Huffman.ngx_http_huff_decode.
Proof.
  split.
  - reflexivity.
  - intros. by apply Huffman.decode_app.
  - intros. by apply Huffman.decode_app_error.
Qed.

#[export] Instance raw_decoder : Decoder raw_decode.
Proof. split; unfold raw_decode; congruence. Qed.

Section handlers.

Context {U : Type}.
Context (deliver : U -> header -> U * verdict) (run_request : U -> U).
Context (mem : answers) (buffer_size : Z).

Implicit Types (c : conn U) (p : list Z).

(** [ngx_http_v2_state_save], [ngx_http_v2_state_headers_save] *)
Definition ngx_http_v2_state_save c p (h : handler) : next U :=
  if (NGX_HTTP_V2_STATE_BUFFER_SIZE <? length p)%nat then Fail NGX_HTTP_V2_INTERNAL_ERROR
  else Save h c p.

Definition end_headers c : bool := negb (Z.land (flags (fr c)) NGX_HTTP_V2_END_HEADERS_FLAG =? 0).

(** The [len] bytes that are left of the frame are moved over the padding. *)
Definition drop_padding c p : conn U * list Z :=
  let f := fr c in
  let n := Z.to_nat (len f) in
  if negb (padding f =? 0) && (n <? length p)%nat then
    let skip := Z.min (padding f) (Z.of_nat (length p) - len f) in
    (set_fr (set_padding (padding f - skip) f) c, take n p ++ drop (n + Z.to_nat skip) p)
  else (c, p).

(** They are then moved over the header of the next frame. *)
Definition ngx_http_v2_handle_continuation c p (h : handler) : next U :=
  let '(c, p) := drop_padding c p in
  let f := fr c in
  let n := Z.to_nat (len f) in
  if (length p <? n + NGX_HTTP_V2_FRAME_HEADER_SIZE)%nat then ngx_http_v2_state_save c p h
  else
    let q := drop n p in
    match ngx_http_v2_parse_uint32 q, q !! 4%nat, ngx_http_v2_parse_sid (drop 5 q) with
    | Some head, Some p4, Some id =>
        if negb (ngx_http_v2_parse_type head =? NGX_HTTP_V2_CONTINUATION_FRAME) then
          Fail NGX_HTTP_V2_PROTOCOL_ERROR
        else if negb (sid f =? id) then Fail NGX_HTTP_V2_PROTOCOL_ERROR
        else
          let more := ngx_http_v2_parse_length head in
          let c := set_fr (Frame (sid f) (len f + more) (padding f) (Z.lor (flags f) p4)) c in
          let c := if stream c then set_request true (request_length c + more) c else c in
          Back h c (take n p ++ drop NGX_HTTP_V2_FRAME_HEADER_SIZE q)
    | _, _, _ => Wild
    end.

(** The kind of a header field: [indexed], [size_update], the flag [index] and the
    prefix. *)
Definition field_kind (ch : Z) : bool * bool * bool * Z :=
  if 128 <=? ch then (true, false, false, ngx_http_v2_prefix 7)
  else if 64 <=? ch then (false, false, true, ngx_http_v2_prefix 6)
  else if 32 <=? ch then (false, true, false, ngx_http_v2_prefix 5)
  else (false, false, false, ngx_http_v2_prefix 4).

(** The errors of an integer: [NGX_AGAIN] saves the bytes, [pos] having stayed
    where it was. *)
Definition int_error (rc : Z) c p (h : handler) : next U :=
  if rc =? NGX_AGAIN then ngx_http_v2_state_save c p h
  else if rc =? NGX_DECLINED then Fail NGX_HTTP_V2_COMP_ERROR
  else Fail NGX_HTTP_V2_SIZE_ERROR.

Definition get_header (i : Z) (name_only : bool) c : option (Z * header) :=
  ngx_http_v2_get_indexed_header (table_of c) i name_only (name_mem mem) (value_mem mem) (hdr c).

Definition ngx_http_v2_state_header_block c p : next U :=
  match p with
  | [] => ngx_http_v2_state_save c p header_block
  | ch :: _ =>
      if negb (end_headers c) && (len (fr c) <? Z.of_nat NGX_HTTP_V2_INT_OCTETS) then
        ngx_http_v2_handle_continuation c p header_block
      else
        let '(indexed, size_update, ix, prefix) := field_kind ch in
        let m := md c in
        let c := if (ix : bool) then set_md (Mode (parse_name m) (parse_value m) true) c else c in
        match ngx_http_v2_parse_int prefix (len (fr c)) p with
        | None => Wild
        | Some (value, n, p') =>
            if value <? 0 then int_error value c p header_block
            else
              let c := set_fr (set_len n (fr c)) c in
              if (indexed : bool) then
                match get_header value false c with
                | None => Wild
                | Some (rc, hd) =>
                    if negb (rc =? NGX_OK) then Fail NGX_HTTP_V2_COMP_ERROR
                    else Call process_header (set_hdr hd c) p'
                end
              else if (size_update : bool) then
                match ngx_http_v2_table_size (table_of c) value with
                | None => Wild
                | Some (rc, t) =>
                    if negb (rc =? NGX_OK) then Fail NGX_HTTP_V2_COMP_ERROR
                    else Call header_complete (set_table t c) p'
                end
              else if value =? 0 then
                Call field_len (set_md (Mode true true (index (md c))) c) p'
              else
                match get_header value true c with
                | None => Wild
                | Some (rc, hd) =>
                    if negb (rc =? NGX_OK) then Fail NGX_HTTP_V2_COMP_ERROR
                    else
                      Call field_len
                        (set_md (Mode (parse_name (md c)) true (index (md c))) (set_hdr hd c)) p'
                end
        end
  end.

Definition ngx_http_v2_state_field_len c p : next U :=
  if negb (end_headers c) && (len (fr c) <? Z.of_nat NGX_HTTP_V2_INT_OCTETS) then
    ngx_http_v2_handle_continuation c p field_len
  else if len (fr c) <? 1 then Fail NGX_HTTP_V2_SIZE_ERROR
  else
    match p with
    | [] => ngx_http_v2_state_save c p field_len
    | ch :: _ =>
        let huff := negb (Z.shiftr ch 7 =? 0) in
        match ngx_http_v2_parse_int (ngx_http_v2_prefix 7) (len (fr c)) p with
        | None => Wild
        | Some (n, l, p') =>
            if n <? 0 then int_error n c p field_len
            else
              let c := set_fr (set_len l (fr c)) c in
              if buffer_size <? n then Fail NGX_HTTP_V2_ENHANCE_YOUR_CALM
              else
                let f := fl c in
                let c := set_fl (Field (field_state f) (field_bytes f) (field_size f) n) c in
                if negb (stream c) && negb (index (md c)) then Call field_skip c p'
                else
                  let alloc := (if huff then n * 8 / 5 else n) + 1 in
                  if negb (field_mem mem) then Fail NGX_HTTP_V2_INTERNAL_ERROR
                  else
                    Call (if huff then field_huff else field_raw)
                      (set_fl (Field (field_state f) [] alloc n) c) p'
        end
    end.

(** The bytes of the field that are in the buffer and in the frame. *)
Definition field_part c p : Z :=
  Z.min (Z.min (Z.of_nat (length p)) (field_rest (fl c))) (len (fr c)).

(** What follows when that many bytes were taken: the end of the field, more bytes of
    this frame, an error, or another frame. *)
Definition field_next (h : handler) c p : next U :=
  if field_rest (fl c) =? 0 then
    if (field_size (fl c) <? Z.of_nat (length (field_bytes (fl c))) + 1) then Wild
    else Call process_header c p
  else if negb (len (fr c) =? 0) then ngx_http_v2_state_save c p h
  else if end_headers c then Fail NGX_HTTP_V2_SIZE_ERROR
  else ngx_http_v2_handle_continuation c p h.

(** The bytes are written after those of the field; there has to be room. *)
Definition take_part c (size : Z) (state : Z) (bytes : list Z) : conn U :=
  let f := fl c in
  set_fl (Field state (field_bytes f ++ bytes) (field_size f) (field_rest f - size))
    (set_fr (set_len (len (fr c) - size) (fr c)) c).

Definition overrun c : bool := field_size (fl c) <? Z.of_nat (length (field_bytes (fl c))).

Definition ngx_http_v2_state_field_huff c p : next U :=
  let size := field_part c p in
  let '(rc, state, bytes) :=
    Huffman.ngx_http_huff_decode (field_state (fl c)) (take (Z.to_nat size) p)
      (field_rest (fl c) - size =? 0) in
  let c := take_part c size state bytes in
  if overrun c then Wild
  else if negb (rc =? NGX_OK) then Fail NGX_HTTP_V2_COMP_ERROR
  else field_next field_huff c (drop (Z.to_nat size) p).

Definition ngx_http_v2_state_field_raw c p : next U :=
  let size := field_part c p in
  let c := take_part c size (field_state (fl c)) (take (Z.to_nat size) p) in
  if overrun c then Wild else field_next field_raw c (drop (Z.to_nat size) p).

(** Nothing is written, and the bytes of the field before are still there. *)
Definition ngx_http_v2_state_field_skip c p : next U :=
  let size := field_part c p in
  let c := take_part c size (field_state (fl c)) [] in
  let p := drop (Z.to_nat size) p in
  if field_rest (fl c) =? 0 then Call process_header c p
  else if negb (len (fr c) =? 0) then ngx_http_v2_state_save c p field_skip
  else if end_headers c then Fail NGX_HTTP_V2_SIZE_ERROR
  else ngx_http_v2_handle_continuation c p field_skip.

(** The insertion into the table. *)
Definition index_header c : option (Z * conn U) :=
  if index (md c) then
    '(rc, t) ← ngx_http_v2_add_header (table_mem mem) (table_of c) (hdr c);
    Some (rc, set_table t (set_md (Mode (parse_name (md c)) (parse_value (md c)) false) c))
  else Some (NGX_OK, c).

Definition ngx_http_v2_state_process_header c p : next U :=
  let m := md c in
  let s := field_bytes (fl c) in
  if parse_name m then
    let c := set_hdr (Header s (value (hdr c))) (set_md (Mode false (parse_value m) (index m)) c) in
    if (length s =? 0)%nat then Fail NGX_HTTP_V2_PROTOCOL_ERROR else Call field_len c p
  else
    let c := if parse_value m then set_hdr (Header (name (hdr c)) s) (set_md (Mode false false (index m)) c)
             else c in
    let n := Z.of_nat (length (name (hdr c))) + Z.of_nat (length (value (hdr c))) in
    if header_limit c <? n then Fail NGX_HTTP_V2_ENHANCE_YOUR_CALM
    else
      let c := set_limit (header_limit c - n) c in
      match index_header c with
      | None => Wild
      | Some (rc, c) =>
          if negb (rc =? NGX_OK) then Fail NGX_HTTP_V2_INTERNAL_ERROR
          else if negb (stream c) then Call header_complete c p
          else
            let '(w, v) := deliver (world c) (hdr c) in
            let c := set_world w c in
            match v with
            | Kept => Call header_complete c p
            | Dropped => Call header_complete (set_request false (request_length c) c) p
            | Broken code => Fail code
            end
      end.

(** [ngx_http_v2_state_complete] *)
Definition ngx_http_v2_state_complete c p : next U := Back frame_head (set_request false (request_length c) c) p.

Definition ngx_http_v2_state_skip c p : next U :=
  let size := Z.of_nat (length p) in
  if size <? len (fr c) then
    ngx_http_v2_state_save (set_fr (set_len (len (fr c) - size) (fr c)) c) [] skip
  else ngx_http_v2_state_complete c (drop (Z.to_nat (len (fr c))) p).

Definition ngx_http_v2_state_skip_padded c p : next U :=
  let f := fr c in
  ngx_http_v2_state_skip (set_fr (Frame (sid f) (len f + padding f) 0 (flags f)) c) p.

Definition ngx_http_v2_state_header_complete c p : next U :=
  if negb (len (fr c) =? 0) then
    if (0 <? length p)%nat then Back header_block c p
    else ngx_http_v2_state_save c p header_block
  else if negb (end_headers c) then ngx_http_v2_handle_continuation c p header_complete
  else
    let c := if stream c then set_world (run_request (world c)) c else c in
    if negb (padding (fr c) =? 0) then ngx_http_v2_state_skip_padded c p
    else ngx_http_v2_state_complete c p.

(** The call of a handler.  The frames that follow the block are not of concern. *)
Definition step (h : handler) c p : next U :=
  match h with
  | header_block => ngx_http_v2_state_header_block c p
  | field_len => ngx_http_v2_state_field_len c p
  | field_huff => ngx_http_v2_state_field_huff c p
  | field_raw => ngx_http_v2_state_field_raw c p
  | field_skip => ngx_http_v2_state_field_skip c p
  | process_header => ngx_http_v2_state_process_header c p
  | header_complete => ngx_http_v2_state_header_complete c p
  | skip => ngx_http_v2_state_skip c p
  | frame_head => Back frame_head c p
  end.

(** What one read of the connection comes to: the end of the block with the bytes
    after it, a pause with the bytes that were saved, or the end of the
    connection. *)
Inductive result : Type :=
  | Complete (c : conn U) (p : list Z)
  | Paused (h : handler) (c : conn U) (saved : list Z)
  | Closed (code : Z)
  | Crashed.

(** The loop of [ngx_http_v2_read_handler] over the bytes of one read. *)
Fixpoint run (fuel : nat) (h : handler) c p : option result :=
  match fuel with
  | O => None
  | S fuel =>
      match step h c p with
      | Call h c p => run fuel h c p
      | Back h c p =>
          match h, p with
          | frame_head, _ => Some (Complete c p)
          | _, [] => Some (Paused h c [])
          | _, _ => run fuel h c p
          end
      | Save h c p => Some (Paused h c p)
      | Fail code => Some (Closed code)
      | Wild => Some Crashed
      end
  end.

(** One read: [saved] is what the read before it left in [h2c->state.buffer].  No
    handler but those that take bytes can be called for ever. *)
Definition read_fuel p : nat := 4 * length p + 4.

Definition ngx_http_v2_read (h : handler) c (saved data : list Z) : option result :=
  run (read_fuel (saved ++ data)) h c (saved ++ data).

(** The reads of a connection, up to the end of the block. *)
Fixpoint reads (h : handler) c (saved : list Z) (chunks : list (list Z)) : option result :=
  match chunks with
  | [] => Some (Paused h c saved)
  | d :: ds =>
      match ngx_http_v2_read h c saved d with
      | Some (Paused h c saved) => reads h c saved ds
      | Some (Complete c p) => Some (Complete c (p ++ concat ds))
      | r => r
      end
  end.

(** ** What a block says *)

(** The reading of a whole block, after RFC 7541, section 6, and of the limits
    that the server sets.  The table is that of the RFC, as in [Hpack]. *)
Definition decode_int (prefix : Z) (l : list Z) : option (Z * list Z) :=
  '(v, _, rest) ← ngx_http_v2_parse_int prefix (Z.of_nat (length l)) l;
  if v <? 0 then None else Some (v, rest).

Definition coded (ch : Z) : bool := negb (Z.shiftr ch 7 =? 0).

Definition decode_string (l : list Z) : option (list Z * list Z) :=
  '(n, rest) ← decode_int (ngx_http_v2_prefix 7) l;
  if (buffer_size <? n) || (Z.of_nat (length rest) <? n) then None
  else
    let body := take (Z.to_nat n) rest in
    let rest := drop (Z.to_nat n) rest in
    if coded (hd 0 l) then
      let '(rc, _, s) := Huffman.ngx_http_huff_decode 0 body true in
      if rc =? NGX_OK then Some (s, rest) else None
    else Some (body, rest).

Definition decode_name (t : table) (v : Z) (l : list Z) : option (list Z * list Z) :=
  if v =? 0 then
    '(n, rest) ← decode_string l;
    if (length n =? 0)%nat then None else Some (n, rest)
  else
    hd ← table_lookup t v;
    Some (name hd, l).

Definition decode_header (t : table) (indexed : bool) (v : Z) (l : list Z) : option (header * list Z) :=
  if indexed then
    hd ← table_lookup t v;
    Some (hd, l)
  else
    '(n, l) ← decode_name t v l;
    '(x, l) ← decode_string l;
    Some (Header n x, l).

(** What is left to read after a field: the state of the table, the limit on the
    size of the headers and the state of the request, if the field is good and the
    request goes on; [Lost] says that it does not, and in what state it was left. *)
Inductive decoded : Type :=
  | Good (s : bool * table) (limit : Z) (w : U) (rest : list Z)
  | Bad
  | Lost (w : U).

Definition finish_field (s : bool * table) (limit : Z) (w : U) (ix : bool) (hd : header) (l : list Z) : decoded :=
  let n := Z.of_nat (length (name hd)) + Z.of_nat (length (value hd)) in
  if limit <? n then Bad
  else
    match deliver w hd with
    | (w, Kept) => Good (if ix then (spec_op (Add (table_mem mem) hd) s).2 else s) (limit - n) w l
    | (w, Dropped) => Lost w
    | (_, Broken _) => Bad
    end.

Definition decode_field (s : bool * table) (limit : Z) (w : U) (l : list Z) : decoded :=
  let '(indexed, size_update, ix, prefix) := field_kind (hd 0 l) in
  match decode_int prefix l with
  | None => Bad
  | Some (v, l) =>
      if (size_update : bool) then
        if NGX_HTTP_V2_TABLE_SIZE <? v then Bad else Good (spec_op (Resize v) s).2 limit w l
      else
        match decode_header s.2 indexed v l with
        | None => Bad
        | Some (hd, l) => finish_field s limit w ix hd l
        end
  end.

Fixpoint decode_fields (fuel : nat) (s : bool * table) (limit : Z) (w : U) (l : list Z) : decoded :=
  match fuel, l with
  | _, [] => Good s limit w []
  | O, _ => Bad
  | S fuel, _ =>
      match decode_field s limit w l with
      | Good s limit w l => decode_fields fuel s limit w l
      | r => r
      end
  end.

(** A field takes at least one byte. *)
Definition decode_block (s : bool * table) (limit : Z) (w : U) (l : list Z) : decoded :=
  decode_fields (length l) s limit w l.

(** ** The frames of a block *)

Definition has_end (fg : Z) : bool := negb (Z.land fg NGX_HTTP_V2_END_HEADERS_FLAG =? 0).

(** The bytes [buf] hold the rest of a block, [l], when [len] bytes of it are left in
    the current frame, [pad] bytes of padding follow, and [last] says whether it is
    the last frame; [after] is what follows the block.  Another frame has some
    bytes after its header: the code does not look at an empty one that ends the
    block until there are more. *)
Inductive framed (id : Z) : Z -> Z -> bool -> list Z -> list Z -> list Z -> Prop :=
  | framed_last x pad after :
      framed id (Z.of_nat (length x)) (Z.of_nat (length pad)) true x (x ++ pad ++ after) after
  | framed_more x pad h9 head fg n l y after :
      length h9 = NGX_HTTP_V2_FRAME_HEADER_SIZE ->
      ngx_http_v2_parse_uint32 h9 = Some head ->
      ngx_http_v2_parse_type head = NGX_HTTP_V2_CONTINUATION_FRAME ->
      ngx_http_v2_parse_length head = n -> h9 !! 4%nat = Some fg ->
      ngx_http_v2_parse_sid (drop 5 h9) = Some id ->
      y <> [] -> framed id n 0 (has_end fg) l y after ->
      framed id (Z.of_nat (length x)) (Z.of_nat (length pad)) false (x ++ l)
        (x ++ pad ++ h9 ++ y) after.

(** The state of a connection inside a block. *)
Definition inside c (l buf after : list Z) : Prop :=
  framed (sid (fr c)) (len (fr c)) (padding (fr c)) (end_headers c) l buf after.

(** What does not depend on the frames. *)
Definition same_core c c' : Prop :=
  md c' = md c /\ fl c' = fl c /\ hdr c' = hdr c /\ header_limit c' = header_limit c /\
  stream c' = stream c /\ table_of c' = table_of c /\ world c' = world c.

(** ** Lemmas: the parts in which a block arrives *)

Implicit Types (b : list Z) (h : handler).

Definition valid c : Prop := 0 <= len (fr c) /\ 0 <= padding (fr c) /\ 0 <= field_rest (fl c).

Lemma save_more c p h : (length p <= NGX_HTTP_V2_STATE_BUFFER_SIZE)%nat ->
  ngx_http_v2_state_save c p h = Save h c p.
Proof. intros H. unfold ngx_http_v2_state_save. by destruct (Nat.ltb_spec NGX_HTTP_V2_STATE_BUFFER_SIZE (length p)); [lia |]. Qed.

(** Padding is dropped as it comes. *)
Lemma drop_padding_more c p b c1 p1 : valid c -> drop_padding c p = (c1, p1) ->
  valid c1 /\ len (fr c1) = len (fr c) /\ end_headers c1 = end_headers c /\
  drop_padding c (p ++ b) = drop_padding c1 (p1 ++ b) /\
  (Z.to_nat (len (fr c)) < length p1 -> drop_padding c1 (p1 ++ b) = (c1, p1 ++ b))%nat.
Proof.
  intros (Hl & Hp & Hr) E. unfold drop_padding in E. set (n := Z.to_nat (len (fr c))) in *.
  destruct (Z.eqb_spec (padding (fr c)) 0) as [Hz | Hz]; simpl in E.
  { injection E as <- <-. split_and!; try done. intros _. unfold drop_padding. by rewrite Hz. }
  destruct (Nat.ltb_spec n (length p)) as [Hn | Hn].
  2: { injection E as <- <-. split_and!; try done. intros. lia. }
  injection E as <- <-. set (k := Z.min (padding (fr c)) (Z.of_nat (length p) - len (fr c))) in *.
  split_and!; try done; try (unfold valid; simpl; lia).
  - unfold drop_padding at 1. fold n. rewrite length_app.
    destruct (Z.eqb_spec (padding (fr c)) 0); [done |]. destruct (Nat.ltb_spec n (length p + length b)); [| lia].
    simpl. rewrite take_app_le by lia.
    destruct (decide (padding (fr c) <= Z.of_nat (length p) - len (fr c))) as [Hk | Hk].
    + assert (k = padding (fr c)) as Ek by lia.
      rewrite Z.min_l by lia. rewrite drop_app_le by lia. unfold drop_padding. simpl. rewrite Ek, Z.sub_diag.
      simpl. by rewrite <- app_assoc.
    + assert (k = Z.of_nat (length p) - len (fr c)) as Ek by lia.
      rewrite (drop_ge p) by lia. rewrite app_nil_r. unfold drop_padding. simpl. fold n.
      destruct (Z.eqb_spec (padding (fr c) - k) 0); [lia |]. simpl.
      rewrite length_app, length_take.
      destruct b as [| b0 b']. 
      * simpl. destruct (Nat.ltb_spec n (Nat.min n (length p) + 0)); [lia |]. simpl.
        rewrite !app_nil_r, drop_ge by lia. rewrite app_nil_r. f_equal. f_equal. f_equal. lia.
      * destruct (Nat.ltb_spec n (Nat.min n (length p) + length (b0 :: b'))); [| simpl in *; lia].
        f_equal; [unfold set_fr, set_padding; simpl; do 2 f_equal; lia |].
        f_equal; [by rewrite take_app_le, take_take by (rewrite length_take; lia); f_equal; lia |].
        rewrite !drop_app, drop_ge, (drop_ge (take n p)) by (rewrite ?length_take; lia). simpl app.
        f_equal. rewrite length_take. lia.
  - rewrite length_app, length_take, length_drop. intros Hlong.
    unfold drop_padding. simpl. destruct (Z.eqb_spec (padding (fr c) - k) 0); [done | lia].
Qed.

Lemma wf_take n l : wf_bytes l -> wf_bytes (take n l).
Proof. apply Forall_take. Qed.

Lemma wf_drop n l : wf_bytes l -> wf_bytes (drop n l).
Proof. apply Forall_drop. Qed.

(** The bytes that are left when the padding is dropped. *)
Lemma drop_padding_shape c p c1 p1 : valid c -> drop_padding c p = (c1, p1) ->
  exists k, 0 <= k /\ c1 = set_fr (set_padding k (fr c)) c /\ (wf_bytes p -> wf_bytes p1).
Proof.
  intros (Hl & Hp & Hr). unfold drop_padding. case_if.
  - intros [= <- <-]. eexists. split; [| split; [done |]]; [lia |].
    intros Hw. apply wf_bytes_app. split; [by apply wf_take | by apply wf_drop].
  - intros [= <- <-]. exists (padding (fr c)). destruct c as [[? ? ? ?]]. done.
Qed.

(** A frame header of nine bytes can be read. *)
Lemma frame_header q b : (NGX_HTTP_V2_FRAME_HEADER_SIZE <= length q)%nat ->
  exists (hd fg id : Z), ngx_http_v2_parse_uint32 (q ++ b) = Some hd /\ (q ++ b) !! 4%nat = Some fg /\
    ngx_http_v2_parse_sid (drop 5 (q ++ b)) = Some id /\
    ngx_http_v2_parse_uint32 q = Some hd /\ q !! 4%nat = Some fg /\
    ngx_http_v2_parse_sid (drop 5 q) = Some id /\
    (wf_bytes q -> 0 <= ngx_http_v2_parse_length hd).
Proof.
  unfold NGX_HTTP_V2_FRAME_HEADER_SIZE. intros H.
  do 9 (destruct q as [| ? q]; [simpl in H; lia |]).
  do 3 eexists. do 6 (split; [reflexivity |]). intros Hw.
  unfold ngx_http_v2_parse_length. apply Z.shiftr_nonneg. unfold wf_bytes, is_byte in Hw.
  rewrite !Forall_cons in Hw. lia.
Qed.

(** What a continuation does with a part of the bytes it can use. *)
Lemma cont_more c p b h : valid c -> wf_bytes p -> len (fr c) < 4 ->
  match ngx_http_v2_handle_continuation c p h with
  | Back h' c' p' => h' = h /\ valid c' /\ wf_bytes p' /\
      ngx_http_v2_handle_continuation c (p ++ b) h = Back h c' (p' ++ b)
  | Save h' c' p' => h' = h /\ wf_bytes p' /\
      (exists k, 0 <= k /\ c' = set_fr (set_padding k (fr c)) c) /\
      ngx_http_v2_handle_continuation c (p ++ b) h = ngx_http_v2_handle_continuation c' (p' ++ b) h
  | Fail code => ngx_http_v2_handle_continuation c (p ++ b) h = Fail code
  | _ => False
  end.
Proof.
  intros Hv Hw Hl. destruct (drop_padding c p) as [c1 p1] eqn:E.
  destruct (drop_padding_more c p b c1 p1 Hv E) as (Hv1 & Hl1 & He1 & Hmore & Hlong).
  destruct (drop_padding_shape c p c1 p1 Hv E) as (k & Hk & Hc1 & Hw1). specialize (Hw1 Hw).
  unfold ngx_http_v2_handle_continuation at 1. rewrite E, Hl1.
  set (n := Z.to_nat (len (fr c))) in *.
  destruct (Nat.ltb_spec (length p1) (n + NGX_HTTP_V2_FRAME_HEADER_SIZE)) as [Hs | Hs].
  - rewrite save_more by (unfold NGX_HTTP_V2_FRAME_HEADER_SIZE, NGX_HTTP_V2_STATE_BUFFER_SIZE in *; lia).
    split_and!; [done | done | by exists k |].
    unfold ngx_http_v2_handle_continuation. by rewrite Hmore.
  - assert (Hcat : ngx_http_v2_handle_continuation c (p ++ b) h
        = ngx_http_v2_handle_continuation c1 (p1 ++ b) h)
      by (unfold ngx_http_v2_handle_continuation; by rewrite Hmore).
    unfold NGX_HTTP_V2_FRAME_HEADER_SIZE in Hs. rewrite Hcat. unfold ngx_http_v2_handle_continuation.
    rewrite Hlong, Hl1 by lia. fold n.
    destruct (Nat.ltb_spec (length (p1 ++ b)) (n + NGX_HTTP_V2_FRAME_HEADER_SIZE)) as [Hs' | _];
      [rewrite length_app in Hs'; unfold NGX_HTTP_V2_FRAME_HEADER_SIZE in Hs'; lia |].
    rewrite drop_app_le, take_app_le by lia.
    destruct (frame_header (drop n p1) b) as (hd & fg & id & -> & -> & -> & -> & -> & -> & Hlen);
      [rewrite length_drop; unfold NGX_HTTP_V2_FRAME_HEADER_SIZE; lia |].
    specialize (Hlen (wf_drop _ _ Hw1)).
    case_if; [done |]. case_if; [done |]. split_and!; [done | | |].
    + destruct Hv1 as (? & ? & ?). destruct (stream _); unfold valid; simpl; lia.
    + apply wf_bytes_app. split; [by apply wf_take | by apply wf_drop, wf_drop].
    + rewrite drop_app_le by (rewrite length_drop; unfold NGX_HTTP_V2_FRAME_HEADER_SIZE; lia).
      by rewrite <- app_assoc.
Qed.

(** *** One handler *)

(** The end of a block leaves the length of the last frame as it was. *)
Definition alike (x y : next U) : Prop :=
  x = y \/ exists c f p, x = Back frame_head c p /\ y = Back frame_head (set_fr f c) p.

(** How a handler that got [b] as well, whose end is [whole], has gone on. *)
Definition next_more (x : next U) b (whole : next U) : Prop :=
  match x with
  | Call h c p => valid c /\ wf_bytes p /\ h <> frame_head /\ whole = Call h c (p ++ b)
  | Back h c p => valid c /\ wf_bytes p /\ whole = Back h c (p ++ b)
  | Save h c p => valid c /\ wf_bytes p /\ h <> frame_head /\
      (b <> [] -> alike (step h c (p ++ b)) whole \/ whole = Back h c (p ++ b))
  | Fail code => whole = Fail code
  | Wild => whole = Wild
  end.

Lemma cont_next_more c p b h : valid c -> wf_bytes p -> len (fr c) < 4 -> h <> frame_head ->
  (forall k q, q <> [] -> let c' := set_fr (set_padding k (fr c)) c in
     step h c' q = ngx_http_v2_handle_continuation c' q h) ->
  next_more (ngx_http_v2_handle_continuation c p h) b (ngx_http_v2_handle_continuation c (p ++ b) h).
Proof.
  intros Hv Hw Hl Hh Hstep. pose proof (cont_more c p b h Hv Hw Hl) as H.
  destruct (ngx_http_v2_handle_continuation c p h) as [| h' c' q | h' c' q | |]; simpl; try done.
  - by destruct H as (-> & ? & ? & ?).
  - destruct H as (-> & Hq & (k & Hk & ->) & H). split_and!; try done.
    + destruct Hv as (? & ? & ?). unfold valid. simpl. lia.
    + intros Hb. left. left. rewrite H. apply Hstep. destruct q; [by rewrite app_nil_l | done].
Qed.

(** A handler that could not read its integer. *)
Lemma int_error_next rc c p b h whole : valid c -> wf_bytes p -> h <> frame_head ->
  rc < 0 -> (rc = NGX_AGAIN -> (length p < 4)%nat) ->
  (rc = NGX_AGAIN -> step h c (p ++ b) = whole) ->
  (rc <> NGX_AGAIN -> whole = int_error rc c (p ++ b) h) ->
  next_more (int_error rc c p h) b whole.
Proof.
  intros Hv Hw Hh Hrc Hp H1 H2. unfold int_error in *. destruct (Z.eqb_spec rc NGX_AGAIN) as [E | E].
  - rewrite save_more by (specialize (Hp E); unfold NGX_HTTP_V2_STATE_BUFFER_SIZE; lia). simpl.
    split_and!; try done. intros _. left. left. by apply H1.
  - rewrite H2 by done. by case_if.
Qed.

Lemma field_kind_prefix ch : 0 <= (field_kind ch).2.
Proof. unfold field_kind. repeat case_if; done. Qed.

Lemma int_octets : Z.of_nat NGX_HTTP_V2_INT_OCTETS = 4.
Proof. reflexivity. Qed.

Lemma block_next_more c p b : valid c -> wf_bytes p ->
  next_more (step header_block c p) b (step header_block c (p ++ b)).
Proof.
  intros Hv Hw. destruct p as [| ch t].
  { simpl step at 1. rewrite save_more by (simpl; lia). simpl. split_and!; try done. intros _. left. by left. }
  cbn [step]. unfold ngx_http_v2_state_header_block. rewrite <- app_comm_cons, int_octets.
  destruct (negb (end_headers c) && (len (fr c) <? 4)) eqn:Hc.
  { rewrite app_comm_cons. apply cont_next_more; [done | done | lia | done |]. intros k q Hq. cbn [step].
    destruct q as [| x q]; [done |]. unfold ngx_http_v2_state_header_block. rewrite int_octets.
    change (end_headers (set_fr _ c)) with (end_headers c). cbn [fr set_fr len set_padding]. by rewrite Hc. }
  pose proof (field_kind_prefix ch) as Hpre. destruct (field_kind ch) as [[[indexed size_update] ix] prefix] eqn:Hk.
  cbn [snd] in Hpre. cbv zeta.
  set (c1 := if ix then set_md (Mode (parse_name (md c)) (parse_value (md c)) true) c else c).
  assert (Hv1 : valid c1) by (by destruct ix).
  replace (len (fr c1)) with (len (fr c)) by (by destruct ix).
  destruct (ngx_http_v2_parse_int prefix (len (fr c)) (ch :: t)) as [[[v n] q] |] eqn:E; [| done].
  destruct (parse_int_more _ _ _ b _ _ _ Hw Hpre E) as [_ Hmore].
  rewrite <- app_comm_cons in Hmore.
  destruct (parse_int_shape _ _ _ _ _ _ Hw Hpre (proj1 Hv) E) as (Hag & Hpos & Hneg).
  destruct (Z.ltb_spec v 0) as [Hn | Hn].
  - apply int_error_next; try done.
    + intros ->. cbn [step]. unfold ngx_http_v2_state_header_block. rewrite <- app_comm_cons, int_octets.
      replace (end_headers c1) with (end_headers c) by (by destruct ix).
      replace (len (fr c1)) with (len (fr c)) by (by destruct ix). rewrite Hc, Hk. cbv zeta.
      by destruct ix.
    + intros Hne. rewrite Hmore by done. by destruct (Z.ltb_spec v 0); [| lia].
  - rewrite Hmore by lia. destruct (Z.ltb_spec v 0) as [| _]; [lia |].
    destruct (Hpos Hn) as (Hn0 & Hq & _).
    assert (Hv2 : valid (set_fr (set_len n (fr c1)) c1)) by (destruct Hv1 as (? & ? & ?); unfold valid; simpl; lia).
    set (c2 := set_fr (set_len n (fr c1)) c1) in *.
    destruct indexed; [| destruct size_update; [| case_if]].
    + destruct (get_header v false c2) as [[rc hd] |]; [| done]. by case_if.
    + destruct (ngx_http_v2_table_size (table_of c2) v) as [[rc hd] |]; [| done]. by case_if.
    + done.
    + destruct (get_header v true c2) as [[rc hd] |]; [| done]. by case_if.
Qed.

Lemma len_next_more c p b : valid c -> wf_bytes p ->
  next_more (step field_len c p) b (step field_len c (p ++ b)).
Proof.
  intros Hv Hw. cbn [step]. unfold ngx_http_v2_state_field_len. rewrite int_octets.
  destruct (negb (end_headers c) && (len (fr c) <? 4)) eqn:Hc.
  { apply cont_next_more; [done | done | lia | done |]. intros k q Hq. cbn [step].
    unfold ngx_http_v2_state_field_len. rewrite int_octets.
    change (end_headers (set_fr _ c)) with (end_headers c). cbn [fr set_fr len set_padding]. by rewrite Hc. }
  destruct (len (fr c) <? 1) eqn:Hl; [done |]. destruct p as [| ch t].
  { rewrite save_more by (simpl; lia). split_and!; try done. intros _. left. left. cbn [step].
    unfold ngx_http_v2_state_field_len. by rewrite int_octets, Hc, Hl. }
  rewrite <- app_comm_cons.
  destruct (ngx_http_v2_parse_int _ (len (fr c)) (ch :: t)) as [[[v n] q] |] eqn:E; [| done].
  assert (0 <= ngx_http_v2_prefix 7) as Hpre by done.
  destruct (parse_int_more _ _ _ b _ _ _ Hw Hpre E) as [_ Hmore].
  rewrite <- app_comm_cons in Hmore.
  destruct (parse_int_shape _ _ _ _ _ _ Hw Hpre (proj1 Hv) E) as (Hag & Hpos & Hneg).
  destruct (Z.ltb_spec v 0) as [Hn | Hn].
  - apply int_error_next; try done.
    + intros ->. cbn [step]. unfold ngx_http_v2_state_field_len. by rewrite int_octets, Hc, Hl, <- app_comm_cons.
    + intros Hne. rewrite Hmore by done. by destruct (Z.ltb_spec v 0); [| lia].
  - rewrite Hmore by lia. destruct (Z.ltb_spec v 0) as [| _]; [lia |].
    destruct (Hpos Hn) as (Hn0 & Hq & _). destruct Hv as (? & ? & ?).
    case_if; [done |]. case_if; [| case_if; [done |]]; cbn [next_more];
      (split_and!; [by unfold valid; simpl; lia | done | | done]); by try case_if.
Qed.

(** The three handlers of a string are one: [checked] says whether it is written. *)
Definition part_next (checked : bool) h c p : next U :=
  if field_rest (fl c) =? 0 then
    if checked && (field_size (fl c) <? Z.of_nat (length (field_bytes (fl c))) + 1) then Wild
    else Call process_header c p
  else if negb (len (fr c) =? 0) then ngx_http_v2_state_save c p h
  else if end_headers c then Fail NGX_HTTP_V2_SIZE_ERROR
  else ngx_http_v2_handle_continuation c p h.

Definition part_step (checked : bool) (dec : Z -> list Z -> bool -> Z * Z * list Z) h c p : next U :=
  let size := field_part c p in
  let '(rc, state, bytes) :=
    dec (field_state (fl c)) (take (Z.to_nat size) p) (field_rest (fl c) - size =? 0) in
  let c := take_part c size state bytes in
  if checked && overrun c then Wild
  else if negb (rc =? NGX_OK) then Fail NGX_HTTP_V2_COMP_ERROR
  else part_next checked h c (drop (Z.to_nat size) p).

Definition skip_decode (s : Z) (l : list Z) (last : bool) : Z * Z * list Z := (NGX_OK, s, []).

#[local] Instance skip_decoder : Decoder skip_decode.
Proof. split; unfold skip_decode; [done | by intros ? ? ? ? ? ? _ [= <- <-] | congruence]. Qed.

(** Which handler a string is for. *)
Inductive part_handler : handler -> bool -> (Z -> list Z -> bool -> Z * Z * list Z) -> Prop :=
  | part_huff : part_handler field_huff true Huffman.ngx_http_huff_decode
  | part_raw : part_handler field_raw true raw_decode
  | part_skip : part_handler field_skip false skip_decode.

Lemma part_handler_spec h checked dec : part_handler h checked dec ->
  Decoder dec /\ h <> frame_head /\ forall c p, step h c p = part_step checked dec h c p.
Proof. intros []; split_and!; try done; apply _. Qed.

Lemma take_part_nil c : take_part c 0 (field_state (fl c)) [] = c.
Proof.
  destruct c as [[] ? []]. unfold take_part, set_fl, set_fr, set_len. simpl.
  by rewrite app_nil_r, !Z.sub_0_r.
Qed.

Lemma take_part_cat c n1 n2 s1 s2 o1 o2 :
  take_part (take_part c n1 s1 o1) n2 s2 o2 = take_part c (n1 + n2) s2 (o1 ++ o2).
Proof.
  unfold take_part, set_fl, set_fr, set_len. simpl.
  by rewrite app_assoc, !Z.sub_add_distr.
Qed.

Lemma overrun_more c n1 n2 s1 s2 o1 o2 :
  overrun (take_part c n1 s1 o1) = true -> overrun (take_part c n2 s2 (o1 ++ o2)) = true.
Proof. unfold overrun, take_part. simpl. rewrite !length_app. lia. Qed.

(** A frame that has no more bytes for a string. *)
Lemma part_step_cont checked dec h c q : Decoder dec ->
  len (fr c) = 0 -> 0 < field_rest (fl c) -> end_headers c = false ->
  checked && overrun c = false ->
  part_step checked dec h c q = ngx_http_v2_handle_continuation c q h.
Proof.
  intros Hd Hl Hr He Ho. unfold part_step, field_part. rewrite Hl, Z.min_r by lia.
  replace (Z.to_nat 0) with 0%nat by done. rewrite take_0, drop_0, Z.sub_0_r.
  destruct (Z.eqb_spec (field_rest (fl c)) 0); [lia |]. rewrite dec_nil, take_part_nil, Ho.
  simpl. unfold part_next. rewrite Hl, He. by destruct (Z.eqb_spec (field_rest (fl c)) 0); [lia |].
Qed.

Lemma take_part_valid c p s o : valid c -> valid (take_part c (field_part c p) s o).
Proof. intros (? & ? & ?). unfold valid, take_part, field_part. simpl. lia. Qed.

(** The buffer ends inside the frame and the string. *)
Lemma part_short checked dec h c p b : Decoder dec ->
  h <> frame_head -> (forall c p, step h c p = part_step checked dec h c p) ->
  valid c -> b <> [] ->
  Z.of_nat (length p) < Z.min (field_rest (fl c)) (len (fr c)) ->
  next_more (part_step checked dec h c p) b (part_step checked dec h c (p ++ b)).
Proof.
  intros Hd Hh Hstep Hv Hb Hs.
  assert (Hp : field_part c p = Z.of_nat (length p)) by (unfold field_part; lia).
  pose proof (take_part_valid c p) as Hv1. rewrite Hp in Hv1.
  assert (Hpb : 0 < field_part c (p ++ b) - Z.of_nat (length p) <= Z.of_nat (length b)).
  { unfold field_part. rewrite length_app. destruct b; [done | simpl length; lia]. }
  set (k := field_part c (p ++ b) - Z.of_nat (length p)) in *.
  assert (Hk : field_part c (p ++ b) = Z.of_nat (length p) + k) by lia.
  unfold part_step at 1. rewrite Hp, Nat2Z.id, take_ge, drop_ge by lia.
  destruct (Z.eqb_spec (field_rest (fl c) - Z.of_nat (length p)) 0); [lia |].
  destruct (dec (field_state (fl c)) p false) as [[rc s1] o1] eqn:E1.
  specialize (Hv1 s1 o1 Hv).
  (* what the whole decodes *)
  unfold part_step at 1. rewrite Hk.
  replace (Z.to_nat (Z.of_nat (length p) + k)) with (length p + Z.to_nat k)%nat by lia.
  rewrite take_app_add, drop_app_add.
  assert (Hbk : take (Z.to_nat k) b <> []) by (intros E; apply (f_equal length) in E; rewrite length_take in E; simpl in E; lia).
  destruct (Z.eqb_spec rc NGX_OK) as [-> | Hrc].
  2: { rewrite (dec_wrong _ _ _ _ _ _ _ Hrc E1). destruct (checked && overrun _); [done |].
       by destruct (Z.eqb_spec rc NGX_OK). }
  rewrite (dec_cat _ _ _ _ _ _ Hbk E1).
  destruct (dec s1 (take (Z.to_nat k) b) _) as [[rc2 s2] o2] eqn:E2.
  destruct (checked && overrun (take_part c (Z.of_nat (length p)) s1 o1)) eqn:Ho.
  { simpl. apply andb_prop in Ho as [-> Ho]. by rewrite (overrun_more _ _ _ _ _ _ _ Ho). }
  cbn [negb Z.eqb]. unfold part_next at 1.
  set (c1 := take_part c (Z.of_nat (length p)) s1 o1) in *.
  assert (Hr1 : field_rest (fl c1) = field_rest (fl c) - Z.of_nat (length p)) by done.
  assert (Hl1 : len (fr c1) = len (fr c) - Z.of_nat (length p)) by done.
  destruct (Z.eqb_spec (field_rest (fl c1)) 0); [lia |]. destruct (Z.eqb_spec (len (fr c1)) 0); [lia |].
  cbn [negb]. rewrite save_more by (simpl; lia). split_and!; [done | by constructor | done |]. intros _. left. left.
  rewrite Hstep. unfold part_step. simpl app.
  assert (Hkb : field_part c1 b = k).
  { unfold field_part in *. rewrite Hr1, Hl1. rewrite length_app in *. lia. }
  rewrite Hkb, Hr1. replace (field_rest (fl c) - Z.of_nat (length p) - k)
    with (field_rest (fl c) - (Z.of_nat (length p) + k)) by lia.
  change (field_state (fl c1)) with s1. rewrite E2. subst c1. rewrite take_part_cat. done.
Qed.

(** The buffer reaches the end of the frame or of the string. *)
Lemma part_long checked dec h c p b : Decoder dec ->
  h <> frame_head -> (forall c p, step h c p = part_step checked dec h c p) ->
  valid c -> wf_bytes p ->
  Z.min (field_rest (fl c)) (len (fr c)) <= Z.of_nat (length p) ->
  next_more (part_step checked dec h c p) b (part_step checked dec h c (p ++ b)).
Proof.
  intros Hd Hh Hstep Hv Hw Hs. pose proof (take_part_valid c p) as Hv1.
  assert (Hp : field_part c (p ++ b) = field_part c p) by (unfold field_part; rewrite length_app; lia).
  assert (Hz : field_part c p = field_rest (fl c) \/ field_part c p = len (fr c)) by (unfold field_part; lia).
  assert (Hn : (Z.to_nat (field_part c p) <= length p)%nat) by (unfold field_part; lia).
  unfold part_step. rewrite Hp. set (k := field_part c p) in *.
  rewrite take_app_le, drop_app_le by done.
  destruct (dec (field_state (fl c)) (take (Z.to_nat k) p) _) as [[rc s1] o1].
  specialize (Hv1 s1 o1 Hv). assert (Hw1 : wf_bytes (drop (Z.to_nat k) p)) by by apply wf_drop.
  set (c1 := take_part c k s1 o1) in *. destruct (checked && overrun c1) eqn:Ho; [done |].
  destruct (negb (rc =? NGX_OK)); [done |]. unfold part_next.
  assert (Hr1 : field_rest (fl c1) = field_rest (fl c) - k) by done.
  assert (Hl1 : len (fr c1) = len (fr c) - k) by done.
  destruct (Z.eqb_spec (field_rest (fl c1)) 0); [case_if; [done | cbn [next_more]; by split_and!] |].
  destruct (Z.eqb_spec (len (fr c1)) 0) as [Hl0 |]; [| lia]. simpl.
  destruct (end_headers c1) eqn:He; [done |]. apply cont_next_more; [done | done | lia | done |].
  intros j q Hq. cbv zeta. rewrite Hstep. apply part_step_cont; try done.
  destruct Hv1 as (_ & _ & ?). simpl in *. lia.
Qed.

Lemma part_next_more checked dec h c p b : part_handler h checked dec -> valid c -> wf_bytes p -> b <> [] ->
  next_more (step h c p) b (step h c (p ++ b)).
Proof.
  intros Hp Hv Hw Hb. destruct (part_handler_spec _ _ _ Hp) as (Hd & Hh & Hstep). rewrite !Hstep.
  destruct (decide (Z.min (field_rest (fl c)) (len (fr c)) <= Z.of_nat (length p))).
  - by apply part_long.
  - apply part_short; try done. lia.
Qed.

Lemma index_header_frame c rc c' : index_header c = Some (rc, c') -> fr c' = fr c /\ fl c' = fl c.
Proof.
  unfold index_header. case_if; [| by intros [= <- <-]].
  destruct (ngx_http_v2_add_header _ _ _) as [[? ?] |]; [| done]. by intros [= <- <-].
Qed.

Lemma process_next_more c p b : valid c -> wf_bytes p ->
  next_more (step process_header c p) b (step process_header c (p ++ b)).
Proof.
  intros Hv Hw. cbn [step]. unfold ngx_http_v2_state_process_header.
  case_if; [by case_if |].
  set (c1 := if parse_value (md c) then _ else c). assert (Hv1 : valid c1) by (subst c1; by case_if).
  clearbody c1. case_if; [done |].
  destruct (index_header _) as [[rc c2] |] eqn:E; [| done]. apply index_header_frame in E as [E1 E2].
  assert (Hv2 : valid c2) by (unfold valid; rewrite E1, E2; exact Hv1).
  case_if; [done |]. case_if; [done |]. destruct (deliver (world c2) (hdr c2)) as [w []]; done.
Qed.

Lemma skip_next_more c p b : valid c -> wf_bytes p ->
  next_more (step skip c p) b (step skip c (p ++ b)).
Proof.
  intros Hv Hw. cbn [step]. unfold ngx_http_v2_state_skip. rewrite length_app. destruct Hv as (? & ? & ?).
  destruct (Z.ltb_spec (Z.of_nat (length p)) (len (fr c))) as [Hl | Hl].
  - rewrite save_more by (simpl; lia). split_and!; [unfold valid; simpl; lia | by constructor | done |].
    intros _. left. cbn [step app]. unfold ngx_http_v2_state_skip. cbn [fr set_fr len set_len].
    destruct (Z.ltb_spec (Z.of_nat (length p + length b)) (len (fr c)));
      destruct (Z.ltb_spec (Z.of_nat (length b)) (len (fr c) - Z.of_nat (length p))); try lia.
    + left. rewrite !save_more by (simpl; lia). unfold set_fr, set_len. simpl.
      replace (len (fr c) - Z.of_nat (length p) - Z.of_nat (length b)) with (len (fr c) - Z.of_nat (length p + length b)) by lia. done.
    + right. rewrite drop_app_ge by lia. exists (set_request false (request_length c)
        (set_fr (set_len (len (fr c) - Z.of_nat (length p)) (fr c)) c)), (fr c),
        (drop (Z.to_nat (len (fr c) - Z.of_nat (length p))) b).
      split; [done |]. unfold ngx_http_v2_state_complete. f_equal. f_equal. lia.
  - destruct (Z.ltb_spec (Z.of_nat (length p + length b)) (len (fr c))); [lia |].
    split_and!; [unfold valid; simpl; lia | by apply wf_drop |]. by rewrite drop_app_le by lia.
Qed.

Lemma complete_next_more c p b : valid c -> wf_bytes p -> b <> [] ->
  next_more (step header_complete c p) b (step header_complete c (p ++ b)).
Proof.
  intros Hv Hw Hb. cbn [step]. unfold ngx_http_v2_state_header_complete.
  destruct (Z.eqb_spec (len (fr c)) 0) as [Hl |]; cbn [negb].
  - destruct (end_headers c) eqn:He; cbn [negb].
    + set (c1 := if stream c then _ else c). assert (Hv1 : valid c1) by (subst c1; by case_if).
      clearbody c1. case_if; [| done]. unfold ngx_http_v2_state_skip_padded. 
      apply skip_next_more; [| done]. destruct Hv1 as (? & ? & ?). unfold valid. simpl. lia.
    + apply cont_next_more; [done | done | lia | done |]. intros k q Hq. cbn [step].
      unfold ngx_http_v2_state_header_complete. cbn [fr set_fr set_padding len]. rewrite Hl. cbn [Z.eqb negb].
      change (end_headers (set_fr _ c)) with (end_headers c). by rewrite He.
  - destruct p as [| x p]; [| done]. cbn [length app]. rewrite save_more by (simpl; lia).
    split_and!; try done. intros _. right. by destruct b.
Qed.

(** Every handler can be interrupted. *)
Lemma step_more h c p b : h <> frame_head -> valid c -> wf_bytes p -> b <> [] ->
  next_more (step h c p) b (step h c (p ++ b)).
Proof.
  intros Hh Hv Hw Hb. destruct h; try done.
  - by apply block_next_more.
  - by apply len_next_more.
  - eapply part_next_more; [constructor | done ..].
  - eapply part_next_more; [constructor | done ..].
  - eapply part_next_more; [constructor | done ..].
  - by apply process_next_more.
  - by apply complete_next_more.
  - by apply skip_next_more.
Qed.

(** *** The loop *)

Lemma run_mono n m h c p r : run n h c p = Some r -> (n <= m)%nat -> run m h c p = Some r.
Proof.
  revert m h c p. induction n as [| n IH]; intros [| m] h c p; simpl; try done; [lia |].
  intros H Hm. destruct (step h c p) as [h' c' q | h' c' q | | |]; try done.
  - apply IH; [done | lia].
  - destruct h', q; try done; (apply IH; [done | lia]).
Qed.

Lemma run_det n m h c p r r' : run n h c p = Some r -> run m h c p = Some r' -> r = r'.
Proof.
  intros H1 H2. destruct (Nat.le_gt_cases n m) as [H | H].
  - eapply run_mono in H1; [| exact H]. congruence.
  - eapply run_mono in H2; [| apply Nat.lt_le_incl, H]. congruence.
Qed.

(** What a handler does not call for a byte, it calls in one direction. *)
Definition weight h : nat :=
  match h with
  | header_block | skip | frame_head => 0
  | header_complete | field_len => 1
  | process_header => 2
  | field_huff | field_raw | field_skip => 3
  end.

Definition potential h p : nat := 4 * length p + weight h.

Definition advances h p (x : next U) : Prop :=
  match x with
  | Call h' _ q => (potential h' q < potential h p)%nat
  | Back h' _ q => h' = frame_head \/ (potential h' q < potential h p)%nat
  | _ => True
  end.

Lemma cont_advances c p h : valid c -> advances h p (ngx_http_v2_handle_continuation c p h).
Proof.
  intros Hv. unfold ngx_http_v2_handle_continuation. destruct (drop_padding c p) as [c1 p1] eqn:E.
  assert (Hp : (length p1 <= length p)%nat).
  { unfold drop_padding in E. case_if_in E; injection E as <- <-; [| lia].
    rewrite length_app, length_take, length_drop. destruct Hv as (? & ? & ?). lia. }
  case_if; [by unfold ngx_http_v2_state_save; case_if |].
  destruct (ngx_http_v2_parse_uint32 _); [| done]. destruct (_ !! _); [| done].
  destruct (ngx_http_v2_parse_sid _); [| done]. case_if; [done |]. case_if; [done |].
  right. unfold potential, NGX_HTTP_V2_FRAME_HEADER_SIZE in *.
  rewrite length_app, length_take, !length_drop. lia.
Qed.

Lemma save_advances c p h p0 h0 : advances h0 p0 (ngx_http_v2_state_save c p h).
Proof. unfold ngx_http_v2_state_save. by case_if. Qed.

Lemma int_advances prefix n p rc n' q : wf_bytes p -> 0 <= prefix -> 0 <= n ->
  ngx_http_v2_parse_int prefix n p = Some (rc, n', q) -> (rc <? 0) = false -> (length q < length p)%nat.
Proof.
  intros Hw Hp Hn E Hrc. destruct (parse_int_shape _ _ _ _ _ _ Hw Hp Hn E) as (_ & H & _).
  destruct H as (_ & _ & k & -> & Hk & _); [lia |]. rewrite length_app. destruct k; [done | simpl; lia].
Qed.

Lemma part_next_advances checked h c p p0 : weight h = 3%nat -> valid c -> (length p <= length p0)%nat ->
  advances h p0 (part_next checked h c p).
Proof.
  intros Hh Hv Hp. unfold part_next. case_if.
  { case_if; [done |]. simpl. unfold potential. rewrite Hh. simpl. lia. }
  case_if; [apply save_advances |]. case_if; [done |].
  pose proof (cont_advances c p h Hv) as H. unfold advances, potential in *.
  destruct (ngx_http_v2_handle_continuation c p h); [lia | destruct H; [auto | right; lia] | done..].
Qed.

Lemma part_advances checked dec h c p : part_handler h checked dec -> valid c ->
  advances h p (step h c p).
Proof.
  intros Hp Hv. destruct (part_handler_spec _ _ _ Hp) as (_ & _ & ->). unfold part_step.
  destruct (dec _ _ _) as [[rc s] o]. case_if; [done |]. case_if; [done |].
  apply part_next_advances; [by destruct Hp | by apply take_part_valid | rewrite length_drop; lia].
Qed.

Lemma step_advances h c p : valid c -> wf_bytes p -> h <> frame_head -> advances h p (step h c p).
Proof.
  intros Hv Hw Hh. destruct h; cbn [step]; try done.
  - unfold ngx_http_v2_state_header_block. destruct p as [| ch t]; [apply save_advances |].
    case_if; [by apply cont_advances |]. pose proof (field_kind_prefix ch) as Hpre.
    destruct (field_kind ch) as [[[indexed size_update] ix] prefix]. cbn [snd] in Hpre. cbv zeta.
    set (c1 := if ix then _ else c). assert (Hl : 0 <= len (fr c1)) by (destruct Hv; by destruct ix).
    destruct (ngx_http_v2_parse_int _ _ _) as [[[v n] q] |] eqn:E; [| done].
    destruct (v <? 0) eqn:Hn; [unfold int_error; repeat case_if; try done; apply save_advances |].
    pose proof (int_advances _ _ _ _ _ _ Hw Hpre Hl E Hn).
    repeat case_if; unfold advances, potential; cbn [weight]; try lia.
    all: match goal with |- context [match ?x with Some _ => _ | None => _ end] =>
           destruct x as [[? ?] |]; [| done] end; case_if; [done | cbn [weight]; lia].
  - unfold ngx_http_v2_state_field_len. case_if; [by apply cont_advances |]. case_if; [done |].
    destruct p as [| ch t]; [apply save_advances |].
    destruct (ngx_http_v2_parse_int _ _ _) as [[[v n] q] |] eqn:E; [| done].
    destruct (v <? 0) eqn:Hn; [unfold int_error; repeat case_if; try done; apply save_advances |].
    pose proof (int_advances _ _ _ _ _ _ Hw (ltac:(done) : 0 <= ngx_http_v2_prefix 7) (proj1 Hv) E Hn).
    case_if; [done |]. case_if; [unfold advances, potential; cbn [weight]; lia |]. case_if; [done |].
    unfold advances, potential. case_if; cbn [weight]; lia.
  - eapply part_advances; [constructor | done].
  - eapply part_advances; [constructor | done].
  - eapply part_advances; [constructor | done].
  - unfold ngx_http_v2_state_process_header. case_if.
    { case_if; [done |]. unfold advances, potential. cbn [weight]. lia. }
    set (c1 := if parse_value (md c) then _ else c). case_if; [done |].
    destruct (index_header _) as [[rc c2] |]; [| done]. case_if; [done |].
    case_if; [unfold advances, potential; cbn [weight]; lia |].
    destruct (deliver _ _) as [w []]; unfold advances, potential; cbn [weight]; try done; lia.
  - unfold ngx_http_v2_state_header_complete. case_if.
    { case_if; [right; unfold potential; cbn [weight]; lia | apply save_advances]. }
    case_if; [by apply cont_advances |]. case_if; [| by left].
    unfold ngx_http_v2_state_skip_padded, ngx_http_v2_state_skip. case_if; [apply save_advances | by left].
  - unfold ngx_http_v2_state_skip. case_if; [apply save_advances | by left].
Qed.

(** The loop goes on from valid states. *)
Lemma step_valid h c p : h <> frame_head -> valid c -> wf_bytes p ->
  match step h c p with
  | Call h' c' q => valid c' /\ wf_bytes q /\ h' <> frame_head
  | Back h' c' q => valid c' /\ wf_bytes q
  | Save h' c' q => valid c' /\ wf_bytes q /\ h' <> frame_head
  | _ => True
  end.
Proof.
  intros Hh Hv Hw. pose proof (step_more h c p [0] Hh Hv Hw ltac:(done)) as H.
  destruct (step h c p); simpl in H; naive_solver.
Qed.

Lemma run_total n h c p : h <> frame_head -> valid c -> wf_bytes p -> (potential h p < n)%nat ->
  is_Some (run n h c p).
Proof.
  revert h c p. induction n as [| n IH]; intros h c p Hh Hv Hw Hn; [lia |]. simpl.
  pose proof (step_valid h c p Hh Hv Hw) as H1. pose proof (step_advances h c p Hv Hw Hh) as H2.
  destruct (step h c p) as [h' c' q | h' c' q | | |]; try done.
  - destruct H1 as (? & ? & ?). simpl in H2. apply IH; try done. lia.
  - destruct H1 as (? & ?). simpl in H2.
    destruct h', q; try done; (destruct H2 as [| H2]; [done |]); (apply IH; try done; lia).
Qed.

Lemma potential_fuel h p : (potential h p < read_fuel p)%nat.
Proof. unfold potential, read_fuel. destruct h; simpl; lia. Qed.

(** The same result, but for the length of the last frame. *)
Definition same_result (x y : option result) : Prop :=
  x = y \/ exists c f p, x = Some (Complete c p) /\ y = Some (Complete (set_fr f c) p).

(** What a run over a part of the bytes says of the run over all of them. *)
Definition goes_on h c p b (r : result) : Prop :=
  match r with
  | Complete c' q => exists m, run m h c (p ++ b) = Some (Complete c' (q ++ b))
  | Paused h' c' s => valid c' /\ wf_bytes s /\ h' <> frame_head /\
      forall m r', run m h' c' (s ++ b) = Some r' ->
        exists m' r'', run m' h c (p ++ b) = Some r'' /\ same_result (Some r') (Some r'')
  | Closed _ | Crashed => exists m, run m h c (p ++ b) = Some r
  end.

Lemma run_more n h c p b r : h <> frame_head -> valid c -> wf_bytes p -> b <> [] ->
  run n h c p = Some r -> goes_on h c p b r.
Proof.
  intros Hh Hv Hw Hb. revert h c p Hh Hv Hw. induction n as [| n IH]; intros h c p Hh Hv Hw; [done |]. simpl.
  pose proof (step_more h c p b Hh Hv Hw Hb) as Hm.
  assert (Hcall : forall h' c' q, h' <> frame_head -> valid c' -> wf_bytes q ->
    (forall m, run (S m) h c (p ++ b) = run m h' c' (q ++ b)) -> run n h' c' q = Some r -> goes_on h c p b r).
  { intros h' c' q Hh' Hv' Hw' Hstep Hr. specialize (IH h' c' q Hh' Hv' Hw' Hr). destruct r; cbn [goes_on] in *.
    - destruct IH as [m Hm']. exists (S m). by rewrite Hstep.
    - destruct IH as (? & ? & ? & IH). split_and!; try done. intros m r' Hr'.
      destruct (IH m r' Hr') as (m' & r'' & Hx & Hy). exists (S m'), r''. by rewrite Hstep.
    - destruct IH as [m Hm']. exists (S m). by rewrite Hstep.
    - destruct IH as [m Hm']. exists (S m). by rewrite Hstep. }
  destruct (step h c p) as [h' c' q | h' c' q | h' c' q | code |] eqn:Es; simpl in Hm.
  - destruct Hm as (? & ? & ? & Hm). apply Hcall; try done. intros m. simpl. by rewrite Hm.
  - destruct Hm as (Hv' & Hw' & Hm). destruct (decide (h' = frame_head)) as [-> | Hh'].
    { intros [= <-]. exists 1%nat. simpl. by rewrite Hm. }
    assert (Hwhole : forall m, run (S m) h c (p ++ b) = run m h' c' (q ++ b)).
    { intros m. simpl. rewrite Hm. destruct h', (q ++ b) eqn:E; try done; by destruct q, b. }
    destruct q as [| x q].
    + assert (Hq : Some (Paused h' c' []) = Some r -> goes_on h c p b r).
      { intros [= <-]. simpl. split_and!; try done. intros m r' Hr'. exists (S m), r'.
        rewrite Hwhole. split; [done | by left]. }
      by destruct h'.
    + intros Hr. apply (Hcall h' c' (x :: q)); try done. by destruct h'.
  - destruct Hm as (Hv' & Hw' & Hh' & Hm). intros [= <-]. simpl. split_and!; try done. intros [| m] r' Hr'; [done |].
    destruct (Hm Hb) as [[E | (c2 & f & q2 & E1 & E2)] | E].
    + exists (S m), r'. simpl in *. rewrite <- E. split; [done | by left].
    + simpl in Hr'. rewrite E1 in Hr'. injection Hr' as <-. exists 1%nat. eexists. simpl. rewrite E2.
      split; [done |]. right. by eexists _, _, _.
    + exists (S (S m)), r'. split; [| by left]. rewrite <- Hr'. remember (S m) as m1. simpl. rewrite E.
      destruct h', (q ++ b) eqn:E'; try done; by destruct q, b.
  - intros [= <-]. exists 1%nat. simpl. by rewrite Hm.
  - intros [= <-]. exists 1%nat. simpl. by rewrite Hm.
Qed.

Lemma same_result_trans x y z : same_result x y -> same_result y z -> same_result x z.
Proof.
  intros [-> | (c & f & p & -> & ->)]; [done |].
  intros [<- | (c' & f' & p' & [= <- <-] & ->)]; right; by eexists _, _, _.
Qed.

(** A read has enough fuel. *)
Lemma read_total h c saved data : h <> frame_head -> valid c -> wf_bytes (saved ++ data) ->
  exists r, ngx_http_v2_read h c saved data = Some r.
Proof.
  intros Hh Hv Hw. unfold ngx_http_v2_read.
  destruct (run_total (read_fuel (saved ++ data)) h c (saved ++ data) Hh Hv Hw (potential_fuel _ _)) as [r Hr].
  by exists r.
Qed.

Lemma read_run h c saved data m r : h <> frame_head -> valid c -> wf_bytes (saved ++ data) ->
  run m h c (saved ++ data) = Some r -> ngx_http_v2_read h c saved data = Some r.
Proof.
  intros Hh Hv Hw Hr. destruct (read_total h c saved data Hh Hv Hw) as [r' Hr']. rewrite Hr'.
  f_equal. exact (run_det _ _ _ _ _ _ _ Hr' Hr).
Qed.

Lemma wf_concat (ds : list (list Z)) : Forall (fun d => d <> [] /\ wf_bytes d) ds -> wf_bytes (concat ds).
Proof.
  induction 1 as [| d ds [_ Hd] _ IH]; simpl; [constructor |]. apply wf_bytes_app. by split.
Qed.

(** The reads of a block: what was saved, and the parts that follow. *)
Lemma reads_concat h c saved d ds : h <> frame_head -> valid c -> wf_bytes saved ->
  Forall (fun d => d <> [] /\ wf_bytes d) (d :: ds) ->
  same_result (reads h c saved (d :: ds)) (ngx_http_v2_read h c saved (d ++ concat ds)).
Proof.
  revert h c saved d. induction ds as [| d' ds IH]; intros h c saved d Hh Hv Hs Hc;
    apply Forall_cons in Hc as [[Hd0 Hd] Hc]; cbn [reads concat].
  - rewrite app_nil_r. destruct (read_total h c saved d) as [r ->]; [done | done | by apply wf_bytes_app |].
    left. destruct r; [by rewrite app_nil_r | done..].
  - assert (Hb : d' ++ concat ds <> []).
    { apply Forall_cons in Hc as [[Hd' _] _]. by destruct d'. }
    assert (Hwb : wf_bytes (d' ++ concat ds)) by exact (wf_concat (d' :: ds) Hc).
    assert (Hwd : wf_bytes (saved ++ d)) by by apply wf_bytes_app.
    set (b := d' ++ concat ds) in *.
    assert (Hwall : wf_bytes (saved ++ d ++ b)) by (rewrite app_assoc; by apply wf_bytes_app).
    destruct (read_total h c saved d Hh Hv Hwd) as [r Hr]. rewrite Hr.
    pose proof (run_more _ h c (saved ++ d) b r Hh Hv Hwd Hb Hr) as Hm.
    destruct r as [c' q | h' c' s | code |]; cbn [goes_on] in Hm.
    + destruct Hm as [m Hm]. rewrite <- app_assoc in Hm. left. symmetry. by apply (read_run _ _ _ _ m).
    + destruct Hm as (Hv' & Hws & Hh' & Hm). 
      destruct (read_total h' c' s b) as [r' Hr']; [done | done | by apply wf_bytes_app |].
      destruct (Hm _ _ Hr') as (m & r'' & Hrun & Hsame). rewrite <- app_assoc in Hrun.
      rewrite (read_run _ _ _ _ m r'' Hh Hv Hwall Hrun).
      eapply same_result_trans; [by apply IH | fold b; by rewrite Hr'].
    + destruct Hm as [m Hm]. rewrite <- app_assoc in Hm. left. symmetry. by apply (read_run _ _ _ _ m).
    + destruct Hm as [m Hm]. rewrite <- app_assoc in Hm. left. symmetry. by apply (read_run _ _ _ _ m).
Qed.

(** ** Lemmas: the frames of a block *)

(** The loop comes from one call to another. *)
Definition reach h c p h' c' q : Prop := exists k, forall m, run (k + m) h c p = run m h' c' q.

Lemma reach_refl h c p : reach h c p h c p.
Proof. by exists 0%nat. Qed.

Lemma reach_trans h1 c1 p1 h2 c2 p2 h3 c3 p3 :
  reach h1 c1 p1 h2 c2 p2 -> reach h2 c2 p2 h3 c3 p3 -> reach h1 c1 p1 h3 c3 p3.
Proof.
  intros [k1 H1] [k2 H2]. exists (k1 + k2)%nat. intros m. by rewrite <- Nat.add_assoc, H1, H2.
Qed.

Lemma reach_call h c p h' c' q : step h c p = Call h' c' q -> reach h c p h' c' q.
Proof. intros H. exists 1%nat. intros m. simpl. by rewrite H. Qed.

Lemma reach_back h c p h' c' q : step h c p = Back h' c' q -> h' <> frame_head -> q <> [] ->
  reach h c p h' c' q.
Proof. intros H Hh Hq. exists 1%nat. intros m. simpl. rewrite H. by destruct h', q. Qed.

(** The end of a run, from one call or another. *)
Definition ends h c p (P : result -> Prop) : Prop := exists m r, run m h c p = Some r /\ P r.

Lemma reach_ends h c p h' c' q P : reach h c p h' c' q -> ends h' c' q P -> ends h c p P.
Proof. intros [k H] (m & r & Hr & HP). exists (k + m)%nat, r. by rewrite H. Qed.

Definition closed (r : result) : Prop := exists code, r = Closed code.

Lemma fail_ends h c p code : step h c p = Fail code -> ends h c p closed.
Proof. intros H. exists 1%nat, (Closed code). simpl. rewrite H. split; [done | by exists code]. Qed.

Lemma same_core_refl c : same_core c c.
Proof. done. Qed.

Lemma same_core_trans c1 c2 c3 : same_core c1 c2 -> same_core c2 c3 -> same_core c1 c3.
Proof. unfold same_core. naive_solver congruence. Qed.

Lemma framed_nonneg id n pad e l buf after : framed id n pad e l buf after ->
  0 <= n /\ 0 <= pad /\ (e = false -> buf <> []) /\ (n <= Z.of_nat (length buf)) /\
  n <= Z.of_nat (length l) /\ (e = true -> n = Z.of_nat (length l)).
Proof.
  intros []; rewrite ?length_app; split_and!; try lia; try done.
  intros _ E. apply (f_equal length) in E. rewrite !length_app in E. simpl in E.
  unfold NGX_HTTP_V2_FRAME_HEADER_SIZE in *. lia.
Qed.

(** The next frame joins what is left of this one. *)
Lemma framed_join id x n e l y after : framed id n 0 e l y after ->
  framed id (Z.of_nat (length x) + n) 0 e (x ++ l) (x ++ y) after.
Proof.
  intros H. inversion H as [x' pad after' | x' pad h9 head fg n' l' y' after']; subst.
  - destruct pad; [| done]. simpl. rewrite app_assoc, <- Nat2Z.inj_add, <- length_app.
    apply (framed_last _ (x ++ l) []).
  - destruct pad; [| done]. simpl. rewrite (app_assoc x x' l'), (app_assoc x x'), <- Nat2Z.inj_add, <- length_app.
    by eapply (framed_more _ (x ++ x') []).
Qed.

(** The header of the next frame is read when this one has no more bytes for the
    handler. *)
Lemma cont_reach h c l buf after : inside c l buf after -> end_headers c = false -> h <> frame_head ->
  step h c buf = ngx_http_v2_handle_continuation c buf h ->
  exists c' buf', reach h c buf h c' buf' /\ inside c' l buf' after /\ same_core c c' /\
    (length buf' < length buf)%nat.
Proof.
  unfold inside. intros Hin He Hh Hstep. rewrite He in Hin.
  inversion Hin as [| x pad h9 hw fg n l' y after' Hlen Hw Hty Hn Hfg Hid Hy Hf El Ep E0 Ell Eb Ea]; subst.
  unfold NGX_HTTP_V2_FRAME_HEADER_SIZE in Hlen.
  unfold ngx_http_v2_handle_continuation in Hstep.
  assert (Hd : drop_padding c (x ++ pad ++ h9 ++ y) = (set_fr (set_padding 0 (fr c)) c, x ++ h9 ++ y)).
  { unfold drop_padding. rewrite <- El, <- Ep, Nat2Z.id. destruct (Z.eqb_spec (Z.of_nat (length pad)) 0) as [E | E].
    - destruct pad; [| done]. simpl. f_equal. destruct c as [[]]. simpl in *. by subst.
    - destruct (Nat.ltb_spec (length x) (length (x ++ pad ++ h9 ++ y))) as [_ | H];
        [| rewrite !length_app in H; lia]. cbn [negb andb].
      rewrite !length_app, Z.min_l by lia. rewrite Z.sub_diag, Nat2Z.id. f_equal.
      rewrite take_app_length. f_equal. rewrite (app_assoc x), drop_app_length'; [done |].
      by rewrite length_app. }
  rewrite Hd in Hstep. cbn [fr set_fr set_padding len] in Hstep. rewrite <- El, Nat2Z.id in Hstep.
  destruct (Nat.ltb_spec (length (x ++ h9 ++ y)) (length x + NGX_HTTP_V2_FRAME_HEADER_SIZE)) as [H | _];
    [rewrite !length_app in H; unfold NGX_HTTP_V2_FRAME_HEADER_SIZE in H; lia |].
  rewrite drop_app_length, take_app_length in Hstep.
  destruct (frame_header h9 y) as (hw' & fg' & id' & E1 & E2 & E3 & E4 & E5 & E6 & _);
    [unfold NGX_HTTP_V2_FRAME_HEADER_SIZE; lia |].
  rewrite E1, E2, E3 in Hstep. rewrite Hw in E4. rewrite Hfg in E5. rewrite Hid in E6. simplify_eq.
  rewrite Hty, Z.eqb_refl in Hstep. cbn [negb sid fr set_fr set_padding] in Hstep.
  rewrite Z.eqb_refl in Hstep. cbn [negb] in Hstep. change NGX_HTTP_V2_FRAME_HEADER_SIZE with 9%nat in Hstep.
  rewrite <- Hlen, drop_app_length, El in Hstep. cbn [stream set_fr] in Hstep.
  eexists _, (x ++ y). split; [eapply reach_back; [exact Hstep | done | by destruct x, y] |].
  split_and!.
  - assert (Hend : forall c0, fr c0 = Frame (sid (fr c)) (len (fr c) + ngx_http_v2_parse_length hw')
        0 (Z.lor (flags (fr c)) fg') -> inside c0 (x ++ l') (x ++ y) after).
    { intros c0 Hc0. unfold inside, end_headers. rewrite Hc0. cbn [sid len padding flags].
      rewrite Z.land_lor_distr_l. unfold end_headers in He. apply negb_false_iff, Z.eqb_eq in He.
      rewrite He, Z.lor_0_l, <- El. by apply framed_join. }
    by destruct (stream c); apply Hend.
  - unfold same_core. destruct (stream c) eqn:Es; by split_and!.
  - rewrite !length_app. lia.
Qed.

(** A handler that asks for more bytes of the frame gets them, or the last frame. *)
Lemma settle (P : Z -> bool) h c l buf after : inside c l buf after -> h <> frame_head ->
  (forall c1 buf1, same_core c c1 -> end_headers c1 = false -> P (len (fr c1)) = true -> buf1 <> [] ->
     step h c1 buf1 = ngx_http_v2_handle_continuation c1 buf1 h) ->
  exists c' buf', reach h c buf h c' buf' /\ inside c' l buf' after /\ same_core c c' /\
    (end_headers c' = true \/ P (len (fr c')) = false).
Proof.
  intros Hin Hh Hstep. remember (length buf) as k eqn:Hk. revert c buf Hk Hin Hstep.
  induction (lt_wf k) as [k _ IH]. intros c buf -> Hin Hstep.
  destruct (end_headers c) eqn:He; [exists c, buf; split_and!; [apply reach_refl | done | done | by left] |].
  destruct (P (len (fr c))) eqn:HP; [| exists c, buf; split_and!; [apply reach_refl | done | done | by right]].
  assert (Hne : buf <> []) by (by apply framed_nonneg in Hin; naive_solver).
  destruct (cont_reach h c l buf after Hin He Hh (Hstep c buf (same_core_refl c) He HP Hne))
    as (c1 & buf1 & Hr1 & Hin1 & Hc1 & Hlt).
  destruct (IH _ Hlt c1 buf1 eq_refl Hin1) as (c2 & buf2 & Hr2 & Hin2 & Hc2 & Hend).
  { intros c3 buf3 Hc3. apply Hstep. by eapply same_core_trans. }
  exists c2, buf2. split_and!; [by eapply reach_trans | done | by eapply same_core_trans | done].
Qed.

(** An integer of the block. *)
Lemma int_inside k c l buf after : inside c l buf after -> wf_bytes l -> l <> [] -> 0 <= k <= 7 ->
  end_headers c = true \/ (len (fr c) <? 4) = false ->
  match decode_int (ngx_http_v2_prefix k) l with
  | Some (v, l') => 0 <= v < 2 ^ 63 /\ exists n buf',
      ngx_http_v2_parse_int (ngx_http_v2_prefix k) (len (fr c)) buf = Some (v, n, buf') /\
      (forall c', fr c' = set_len n (fr c) -> inside c' l' buf' after) /\
      (length l' < length l)%nat /\ wf_bytes l'
  | None => exists rc n q,
      ngx_http_v2_parse_int (ngx_http_v2_prefix k) (len (fr c)) buf = Some (rc, n, q) /\
      rc < 0 /\ rc <> NGX_AGAIN
  end.
Proof.
  intros Hin Hw Hl Hk Hfr. assert (0 <= ngx_http_v2_prefix k) as Hp.
  { unfold ngx_http_v2_prefix. rewrite Z.shiftl_mul_pow2 by lia. pose proof (Z.pow_pos_nonneg 2 k). lia. }
  assert (Hsome : forall x, x <> [] -> forall n, is_Some (ngx_http_v2_parse_int (ngx_http_v2_prefix k) n x))
    by (intros [| ? ?] ? ?; [done | by eexists]).
  unfold decode_int. unfold inside in *.
  inversion Hin as [x pad after' El Ep Ee Ell Eb Ea
                   | x pad h9 hw fg n l2 y after' Hlen Hwd Hty Hn Hfg Hid Hy Hf El Ep E0 Ell Eb Ea]; subst.
  - destruct (Hsome l Hl (Z.of_nat (length l))) as [[[v n] rest] E]. rewrite E. cbn [mbind option_bind].
    destruct (parse_int_whole _ _ _ _ _ Hw Hp E) as [Hag Hn].
    destruct (parse_int_more _ _ _ (pad ++ after) _ _ _ Hw Hp E) as [_ Hmore].
    destruct (parse_int_shape _ _ _ _ _ _ Hw Hp (Nat2Z.is_nonneg (length l)) E) as (_ & Hpos & _).
    specialize (Hmore Hag). rewrite Hmore. destruct (Z.ltb_spec v 0); [by exists v, n, (rest ++ pad ++ after) |].
    split; [split; [done | by eapply parse_int_bound] |]. exists n, (rest ++ pad ++ after).
    destruct (Hpos ltac:(done)) as (Hn1 & Hwr & k' & -> & Hk' & Hn2).
    split_and!; [done | | rewrite length_app; destruct k'; [done | simpl; lia] | done]. intros c' Hc'.
    unfold inside, end_headers in *. rewrite Hc'. cbn [sid len padding flags set_len].
    rewrite <- Ee, <- Ep, Hn by done. apply framed_last.
  - destruct Hfr as [Hfr | Hfr]; [congruence |]. rewrite <- El in Hfr.
    assert (Hx : (4 <= length x)%nat) by lia. apply wf_bytes_app in Hw as [Hwx Hwl].
    destruct (Hsome x ltac:(by destruct x) (Z.of_nat (length x))) as [[[v n] rest] E].
    destruct (parse_int_whole _ _ _ _ _ Hwx Hp E) as [Hag Hn].
    destruct (parse_int_more _ _ _ (pad ++ h9 ++ y) _ _ _ Hwx Hp E) as [_ Hmore].
    destruct (parse_int_len _ _ (Z.of_nat (length l2)) _ _ _ Hwx Hp (Nat2Z.is_nonneg _) Hx E) as [Hpos Hneg].
    destruct (parse_int_shape _ _ _ _ _ _ Hwx Hp (Nat2Z.is_nonneg (length x)) E) as (_ & Hshape & _).
    rewrite length_app, Nat2Z.inj_add. destruct (Z.ltb_spec v 0) as [Hv | Hv].
    + destruct (Hneg Hv) as (rc & E2 & Hrc & Hrc2).
      destruct (parse_int_more _ _ _ l2 _ _ _ Hwx Hp E2) as [_ Hmore2]. rewrite (Hmore2 Hrc2).
      cbn [mbind option_bind]. destruct (Z.ltb_spec rc 0); [| lia]. eexists _, _, _.
      split; [by apply Hmore | done].
    + specialize (Hpos Hv). destruct (parse_int_more _ _ _ l2 _ _ _ Hwx Hp Hpos) as [_ Hmore2].
      rewrite (Hmore2 Hag). cbn [mbind option_bind]. destruct (Z.ltb_spec v 0); [lia |].
      split; [split; [done | by eapply parse_int_bound] |]. exists n, (rest ++ pad ++ h9 ++ y).
      destruct (Hshape Hv) as (Hn1 & Hwr & k' & -> & Hk' & Hn2).
      split_and!; [by apply Hmore | | | by apply wf_bytes_app].
      * intros c' Hc'. unfold inside, end_headers in *. rewrite Hc'. cbn [sid len padding flags set_len].
        rewrite <- E0, <- Ep, Hn by done. by eapply framed_more.
      * rewrite !length_app. destruct k'; [done | simpl; lia].
Qed.

(** *** Strings *)

Lemma run_step_eq h c p c' p' : step h c p = step h c' p' -> forall m, run m h c p = run m h c' p'.
Proof. intros H [| m]; simpl; [done | by rewrite H]. Qed.

(** Bytes of the block that are in the frame. *)
Lemma inside_take c l buf after k : inside c l buf after -> 0 <= k <= len (fr c) ->
  take (Z.to_nat k) buf = take (Z.to_nat k) l /\
  forall c', fr c' = set_len (len (fr c) - k) (fr c) ->
    inside c' (drop (Z.to_nat k) l) (drop (Z.to_nat k) buf) after.
Proof.
  unfold inside. intros Hin Hk. set (n := Z.to_nat k).
  assert (Hn : forall x : list Z, Z.of_nat (length x) = len (fr c) ->
    (n <= length x)%nat /\ len (fr c) - k = Z.of_nat (length (drop n x)))
    by (intros x Hx; rewrite length_drop; unfold n; lia).
  inversion Hin as [x pad after' El Ep Ee Ell Eb Ea
                   | x pad h9 hw fg m l2 y after' Hlen Hwd Hty Hm Hfg Hid Hy Hf El Ep E0 Ell Eb Ea]; subst.
  - destruct (Hn l El) as [H1 H2]. rewrite take_app_le by done. split; [done |]. intros c' Hc'.
    unfold end_headers in *. rewrite Hc'. cbn [sid len padding flags set_len].
    replace (Z.of_nat (length l) - k) with (Z.of_nat (length (drop n l))) by lia.
    rewrite <- Ee, <- Ep, drop_app_le by done. apply framed_last.
  - destruct (Hn x El) as [H1 H2]. rewrite !take_app_le by done. split; [done |]. intros c' Hc'.
    unfold end_headers in *. rewrite Hc'. cbn [sid len padding flags set_len].
    replace (Z.of_nat (length x) - k) with (Z.of_nat (length (drop n x))) by lia.
    rewrite <- E0, <- Ep, !drop_app_le by done. by eapply framed_more.
Qed.

(** What a string becomes: its handler calls the next one, or closes the connection. *)
Definition string_end h c l buf after (out : Z * Z * list Z) : Prop :=
  let '(rc, s, o) := out in
  let n := field_rest (fl c) in
  if (Z.of_nat (length l) <? n) || negb (rc =? NGX_OK) then ends h c buf closed
  else exists c' buf', reach h c buf process_header c' buf' /\
         inside c' (drop (Z.to_nat n) l) buf' after /\
         same_core (set_fl (Field s o (field_size (fl c)) 0) c) c'.

Lemma string_end_reach h c l buf after c1 buf1 out : reach h c buf h c1 buf1 -> same_core c c1 ->
  string_end h c1 l buf1 after out -> string_end h c l buf after out.
Proof.
  intros Hr Hc. destruct out as [[rc s] o]. unfold string_end.
  pose proof Hc as (_ & Hf & _). rewrite Hf. case_if; [by apply reach_ends |].
  intros (c' & buf' & H1 & H2 & H3). exists c', buf'. split_and!; [by eapply reach_trans | done |].
  destruct Hc as (? & ? & ? & ? & ? & ? & ?). destruct H3 as (? & ? & ? & ? & ? & ? & ?).
  unfold same_core, set_fl in *. simpl in *. split_and!; congruence.
Qed.

(** A string of [n] bytes of which [past] are read. *)
Record part_read (dec : Z -> list Z -> bool -> Z * Z * list Z) c (past : list Z) (n : Z) : Prop := {
  past_wf : wf_bytes past;
  past_decoded : dec 0 past false = (NGX_OK, field_state (fl c), field_bytes (fl c));
  past_rest : Z.of_nat (length past) + field_rest (fl c) = n;
  rest_nonneg : 0 <= field_rest (fl c);
  rest_none : field_rest (fl c) = 0 -> past = [];
  string_fits x last : wf_bytes x -> Z.of_nat (length x) <= n ->
    Z.of_nat (length (dec 0 x last).2) + 1 <= field_size (fl c) }.

Lemma part_read_core dec c c' past n : same_core c c' -> part_read dec c past n -> part_read dec c' past n.
Proof. intros (_ & Hf & _) []. split; rewrite ?Hf; auto. Qed.

(** The part of the string that is read in one call. *)
Lemma part_piece dec c past n x last : Decoder dec -> part_read dec c past n ->
  x <> [] \/ last = false \/ past = [] ->
  dec 0 (past ++ x) last
  = let '(rc, s, o) := dec (field_state (fl c)) x last in (rc, s, field_bytes (fl c) ++ o).
Proof.
  intros Hd [] Hor. destruct (decide (x = [])) as [-> | Hx0].
  - rewrite app_nil_r. destruct Hor as [| [-> | ->]]; [done | by rewrite dec_nil, app_nil_r |].
    rewrite dec_nil in past_decoded0. injection past_decoded0 as <- <-. by destruct (dec 0 [] last) as [[? ?] ?].
  - by apply dec_cat.
Qed.

(** A piece fits the memory of the string. *)
Lemma part_fits dec c past n x last rc s o k : Decoder dec -> part_read dec c past n -> wf_bytes x ->
  Z.of_nat (length x) <= field_rest (fl c) -> x <> [] \/ last = false \/ past = [] ->
  dec (field_state (fl c)) x last = (rc, s, o) ->
  Z.of_nat (length (field_bytes (fl c) ++ o)) + 1 <= field_size (fl c) /\
  overrun (take_part c k s o) = false.
Proof.
  intros Hd Hp Hw Hx Hor E. pose proof (part_piece dec c past n x last Hd Hp Hor) as Hpiece. rewrite E in Hpiece.
  destruct Hp as [Hwp _ Hrest _ _ Hfit]. specialize (Hfit (past ++ x) last).
  rewrite Hpiece in Hfit. cbn [snd] in Hfit. unfold overrun, take_part. simpl.
  assert (Z.of_nat (length (field_bytes (fl c) ++ o)) + 1 <= field_size (fl c)).
  { apply Hfit; [by apply wf_bytes_app | rewrite length_app; lia]. }
  split; lia.
Qed.

(** The rest of the string is in the frame. *)
Lemma part_last dec h c l buf after past n : part_handler h true dec -> inside c l buf after -> wf_bytes l ->
  part_read dec c past n -> field_rest (fl c) <= len (fr c) ->
  string_end h c l buf after (dec 0 (past ++ take (Z.to_nat (field_rest (fl c))) l) true).
Proof.
  intros Hpart Hin Hw Hp Hlen. destruct (part_handler_spec _ _ _ Hpart) as (Hd & Hh & Hstep).
  destruct (framed_nonneg _ _ _ _ _ _ _ Hin) as (_ & _ & _ & Hbuf & Hl & _).
  destruct (inside_take c l buf after (field_rest (fl c)) Hin ltac:(by destruct Hp)) as [Htake Hdrop].
  assert (Hor : take (Z.to_nat (field_rest (fl c))) l <> [] \/ true = false \/ past = []).
  { destruct (Z.eq_dec (field_rest (fl c)) 0) as [Hz | Hz]; [right; right; by apply (rest_none _ _ _ _ Hp) |].
    left. intros E. apply (f_equal length) in E. rewrite length_take in E. pose proof (rest_nonneg _ _ _ _ Hp).
    simpl in E. lia. }
  rewrite (part_piece dec c past n _ _ Hd Hp Hor).
  destruct (dec (field_state (fl c)) (take (Z.to_nat (field_rest (fl c))) l) true) as [[rc s] o] eqn:E.
  assert (Hx : Z.of_nat (length (take (Z.to_nat (field_rest (fl c))) l)) <= field_rest (fl c))
    by (rewrite length_take; pose proof (rest_nonneg _ _ _ _ Hp); lia).
  destruct (part_fits dec c past n _ _ _ _ _ (field_rest (fl c)) Hd Hp (wf_take _ _ Hw) Hx Hor E) as [Hfit Hover].
  assert (Hs : step h c buf = if negb (rc =? NGX_OK) then Fail NGX_HTTP_V2_COMP_ERROR
    else Call process_header (take_part c (field_rest (fl c)) s o) (drop (Z.to_nat (field_rest (fl c))) buf)).
  { rewrite Hstep. unfold part_step, field_part. rewrite (Z.min_r (Z.of_nat _)), Z.min_l by lia.
    rewrite Htake, Z.sub_diag. cbn [Z.eqb]. rewrite E, Hover. cbn [andb]. case_if; [done |].
    unfold part_next. cbn [take_part fl set_fl field_rest field_size field_bytes]. rewrite Z.sub_diag. cbn [Z.eqb andb].
    by case_if; [lia |]. }
  unfold string_end. destruct (Z.ltb_spec (Z.of_nat (length l)) (field_rest (fl c))); [lia |]. cbn [orb].
  case_if; [by eapply fail_ends |].
  eexists _, _. split; [by apply reach_call |]. split; [by apply Hdrop |].
  unfold take_part, same_core. simpl. by rewrite Z.sub_diag.
Qed.

Lemma part_reach dec h c l buf after past n : part_handler h true dec -> inside c l buf after -> wf_bytes l ->
  part_read dec c past n ->
  string_end h c l buf after (dec 0 (past ++ take (Z.to_nat (field_rest (fl c))) l) true).
Proof.
  intros Hpart. destruct (part_handler_spec _ _ _ Hpart) as (Hd & Hh & Hstep).
  remember (length l) as k eqn:Hk. revert c l buf past Hk. induction (lt_wf k) as [k _ IH].
  intros c l buf past -> Hin Hw Hp. pose proof (rest_nonneg _ _ _ _ Hp) as Hr.
  destruct (Z.eq_dec (field_rest (fl c)) 0) as [Hz | Hz].
  { eapply part_last; try done. rewrite Hz. by destruct (framed_nonneg _ _ _ _ _ _ _ Hin). }
  assert (Hcont : forall c1 buf1, part_read dec c1 past n -> field_rest (fl c1) = field_rest (fl c) ->
    end_headers c1 = false -> len (fr c1) = 0 ->
    step h c1 buf1 = ngx_http_v2_handle_continuation c1 buf1 h).
  { intros c1 buf1 Hp1 Hf He Hl0. rewrite Hstep. apply part_step_cont; [done | done | lia | done |].
    destruct Hp1 as [Hwp1 Hd1 Hn1 _ _ Hfit]. unfold overrun. specialize (Hfit past false Hwp1 ltac:(lia)).
    rewrite Hd1 in Hfit. cbn [snd] in Hfit. lia. }
  destruct (settle (fun n => n =? 0) h c l buf after Hin Hh) as (c1 & buf1 & Hreach & Hin1 & Hc1 & Hend).
  { intros c1 buf1 Hc1 He Hl0 _. apply Hcont; [by eapply part_read_core | by destruct Hc1 as (_ & -> & _) | done | lia]. }
  apply (part_read_core _ _ _ _ _ Hc1) in Hp. eapply string_end_reach; [done | done |].
  assert (Hfl : fl c1 = fl c) by by destruct Hc1 as (_ & -> & _).
  rewrite <- Hfl in *. clear Hin Hreach Hc1 Hfl. clear c buf. rename c1 into c, buf1 into buf, Hin1 into Hin.
  destruct (Z.le_gt_cases (field_rest (fl c)) (len (fr c))) as [Hle | Hgt]; [by eapply part_last |].
  (* the frame ends first *)
  destruct (framed_nonneg _ _ _ _ _ _ _ Hin) as (Hl0 & _ & _ & Hbuf & Hll & Hlast).
  destruct (inside_take c l buf after (len (fr c)) Hin ltac:(lia)) as [Htake Hdrop].
  set (x := take (Z.to_nat (len (fr c))) l) in *.
  assert (Hxl : Z.of_nat (length x) = len (fr c)) by (unfold x; rewrite length_take; lia).
  assert (Hwx : wf_bytes x) by by apply wf_take.
  pose proof (part_piece dec c past n x false Hd Hp ltac:(auto)) as Hpiece.
  destruct (dec (field_state (fl c)) x false) as [[rc s] o] eqn:E.
  assert (Hxr : Z.of_nat (length x) <= field_rest (fl c)) by lia.
  destruct (part_fits dec c past n x false rc s o (len (fr c)) Hd Hp Hwx Hxr ltac:(auto) E) as [Hfit Hover].
  set (c2 := take_part c (len (fr c)) s o) in *.
  assert (Hs : step h c buf = if negb (rc =? NGX_OK) then Fail NGX_HTTP_V2_COMP_ERROR
     else if end_headers c then Fail NGX_HTTP_V2_SIZE_ERROR
     else ngx_http_v2_handle_continuation c2 (drop (Z.to_nat (len (fr c))) buf) h).
  { rewrite Hstep. unfold part_step, field_part. rewrite (Z.min_r (Z.min _ _)) by lia.
    rewrite Htake. destruct (Z.eqb_spec (field_rest (fl c) - len (fr c)) 0); [lia |]. rewrite E.
    fold c2. rewrite Hover. cbn [andb]. case_if; [done |]. unfold part_next.
    assert (field_rest (fl c2) = field_rest (fl c) - len (fr c)) as -> by done.
    destruct (Z.eqb_spec (field_rest (fl c) - len (fr c)) 0); [lia |].
    assert (len (fr c2) = 0) as -> by (unfold c2, take_part; simpl; lia). done. }
  assert (Ex : take (Z.to_nat (field_rest (fl c))) l
    = x ++ take (Z.to_nat (field_rest (fl c) - len (fr c))) (drop (Z.to_nat (len (fr c))) l))
    by (unfold x; rewrite take_take_drop; f_equal; lia).
  destruct (Z.eqb_spec rc NGX_OK) as [-> | Hrc]; cbn [negb] in Hs.
  2: { assert (Hclosed : ends h c buf closed) by by eapply fail_ends. unfold string_end.
       destruct (Z.ltb_spec (Z.of_nat (length l)) (field_rest (fl c))) as [| Hlong].
       { by destruct (dec 0 _ true) as [[? ?] ?]. }
       rewrite Ex.
       rewrite app_assoc, (dec_wrong _ _ _ _ _ _ _ Hrc Hpiece). by destruct (Z.eqb_spec rc NGX_OK). }
  destruct (end_headers c) eqn:He.
  { assert (Hclosed : ends h c buf closed) by by eapply fail_ends. unfold string_end.
    specialize (Hlast eq_refl). destruct (dec 0 _ true) as [[? ?] ?].
    by destruct (Z.ltb_spec (Z.of_nat (length l)) (field_rest (fl c))); [| lia]. }
  assert (Hlen0 : 0 < len (fr c)) by (destruct Hend as [| Hend]; [done | lia]).
  assert (Hr2 : field_rest (fl c2) = field_rest (fl c) - len (fr c)) by done.
  assert (Hl2 : len (fr c2) = 0) by (unfold c2, take_part; simpl; lia).
  assert (Hp2 : part_read dec c2 (past ++ x) n).
  { destruct Hp as [Hwp Hpd Hpn _ _ Hpf]. split; rewrite ?Hr2; try lia.
    - by apply wf_bytes_app.
    - exact Hpiece.
    - rewrite length_app. lia.
    - exact Hpf. }
  assert (Hs2 : step h c buf = step h c2 (drop (Z.to_nat (len (fr c))) buf)).
  { rewrite Hs. symmetry. rewrite Hstep. apply part_step_cont; [done | done | lia | done | by rewrite Hover]. }
  assert (Hin2 : inside c2 (drop (Z.to_nat (len (fr c))) l) (drop (Z.to_nat (len (fr c))) buf) after)
    by by apply Hdrop.
  specialize (IH (length (drop (Z.to_nat (len (fr c))) l)) ltac:(rewrite length_drop; lia)
    c2 _ _ (past ++ x) eq_refl Hin2 (wf_drop _ _ Hw) Hp2).
  rewrite Hr2, <- app_assoc, <- Ex in IH.
  unfold string_end in *. destruct (dec 0 _ true) as [[rc' s'] o'].
  rewrite Hr2, length_drop in IH.
  replace (Z.of_nat (length l - Z.to_nat (len (fr c))) <? field_rest (fl c) - len (fr c))
    with (Z.of_nat (length l) <? field_rest (fl c)) in IH by lia.
  case_if.
  - destruct IH as (m & r & Hrun & Hcl). exists m, r. by rewrite (run_step_eq _ _ _ _ _ Hs2).
  - destruct IH as (c' & buf' & [k Hk] & Hin' & Hcore). exists c', buf'. split_and!.
    + exists k. intros m. by rewrite (run_step_eq _ _ _ _ _ Hs2), Hk.
    + rewrite drop_drop in Hin'. by replace (Z.to_nat (len (fr c)) + Z.to_nat (field_rest (fl c) - len (fr c)))%nat
        with (Z.to_nat (field_rest (fl c))) in Hin' by lia.
    + exact Hcore.
Qed.

(** The first byte of what is left of the block. *)
Lemma inside_head c l buf after : inside c l buf after -> l <> [] ->
  end_headers c = true \/ (len (fr c) <? 4) = false ->
  exists ch t t', l = ch :: t /\ buf = ch :: t' /\ 1 <= len (fr c).
Proof.
  intros Hin Hl Hend. destruct (framed_nonneg _ _ _ _ _ _ _ Hin) as (Hl0 & _ & _ & Hb & _ & Hlast).
  assert (Hlen : 1 <= len (fr c)).
  { destruct Hend as [He | He]; [| lia]. rewrite (Hlast He). destruct l; [done | simpl; lia]. }
  destruct (inside_take c l buf after 1 Hin ltac:(lia)) as [Ht _]. change (Z.to_nat 1) with 1%nat in Ht.
  destruct l as [| ch t]; [done |]. destruct buf as [| ch' t']; [simpl in Hb; lia |].
  simpl in Ht. injection Ht as ->. by exists ch, t, t'.
Qed.

(** The memory of a string is enough for it. *)
Lemma huff_fits n x last : wf_bytes x -> Z.of_nat (length x) <= n ->
  Z.of_nat (length (Huffman.ngx_http_huff_decode 0 x last).2) + 1 <= n * 8 / 5 + 1.
Proof.
  intros Hw Hx. pose proof (Huffman.decode_output x last Hw).
  assert (Z.of_nat (length (Huffman.ngx_http_huff_decode 0 x last).2) <= n * 8 / 5)
    by (apply Z.div_le_lower_bound; lia). lia.
Qed.

Lemma part_start dec c s0 size n : Decoder dec -> fl c = Field s0 [] size n -> s0 = 0 -> 0 <= n ->
  (forall x last, wf_bytes x -> Z.of_nat (length x) <= n -> Z.of_nat (length (dec 0 x last).2) + 1 <= size) ->
  part_read dec c [] n.
Proof.
  intros Hd Hf -> Hn Hfit. split; rewrite ?Hf; try done. - constructor. - apply dec_nil.
Qed.

Lemma huff_done x s o : Huffman.ngx_http_huff_decode 0 x true = (NGX_OK, s, o) -> s = 0.
Proof.
  unfold Huffman.ngx_http_huff_decode. destruct (Huffman.huff_decode_loop 0 1 x) as [[[rc s1] e] o1].
  case_if; [by intros [= -> -> ->] |]. case_if; congruence.
Qed.

(** A string of the block: its length and its bytes. *)
Lemma string_reach c l buf after : inside c l buf after -> wf_bytes l ->
  stream c = true -> field_state (fl c) = 0 -> field_mem mem = true ->
  match decode_string l with
  | Some (s, l') => exists c' buf' f, reach field_len c buf process_header c' buf' /\
      inside c' l' buf' after /\ same_core (set_fl f c) c' /\ field_bytes f = s /\ field_state f = 0 /\
      (length l' < length l)%nat /\ wf_bytes l'
  | None => ends field_len c buf closed
  end.
Proof.
  intros Hin Hw Hstream Hstate Hmem.
  destruct (settle (fun n => n <? 4) field_len c l buf after Hin ltac:(done)) as (c1 & buf1 & Hreach & Hin1 & Hc1 & Hend).
  { intros c1 buf1 _ He Hl _. cbn [step]. unfold ngx_http_v2_state_field_len. by rewrite int_octets, He, Hl. }
  pose proof Hc1 as (Hmd & Hfl & _ & _ & Hs1 & _ & _).
  assert (Hskip : negb (end_headers c1) && (len (fr c1) <? 4) = false)
    by (destruct Hend as [-> | ->]; [done | apply andb_false_r]).
  destruct (decide (l = [])) as [-> | Hl].
  { cbn. destruct (framed_nonneg _ _ _ _ _ _ _ Hin1) as (_ & _ & _ & _ & Hl0 & _). simpl in Hl0.
    eapply reach_ends; [done |]. eapply (fail_ends _ _ _ NGX_HTTP_V2_SIZE_ERROR). cbn [step].
    unfold ngx_http_v2_state_field_len. rewrite int_octets, Hskip.
    by destruct (Z.ltb_spec (len (fr c1)) 1); [| lia]. }
  destruct (inside_head c1 l buf1 after Hin1 Hl Hend) as (ch & t & t' & -> & -> & Hlen).
  pose proof (int_inside 7 c1 _ _ _ Hin1 Hw Hl ltac:(lia) Hend) as Hint. unfold decode_string.
  assert (Hstep : step field_len c1 (ch :: t') =
    match ngx_http_v2_parse_int (ngx_http_v2_prefix 7) (len (fr c1)) (ch :: t') with
    | None => Wild
    | Some (n, k, q) =>
        if n <? 0 then int_error n c1 (ch :: t') field_len
        else if buffer_size <? n then Fail NGX_HTTP_V2_ENHANCE_YOUR_CALM
        else Call (if coded ch then field_huff else field_raw)
               (set_fl (Field (field_state (fl c1)) [] ((if coded ch then n * 8 / 5 else n) + 1) n)
                  (set_fr (set_len k (fr c1)) c1)) q
    end).
  { cbn [step]. unfold ngx_http_v2_state_field_len. rewrite int_octets, Hskip.
    destruct (Z.ltb_spec (len (fr c1)) 1); [lia |].
    destruct (ngx_http_v2_parse_int _ _ _) as [[[n k] q] |]; [| done]. case_if; [done |]. case_if; [done |].
    unfold set_fl, set_fr. cbn [stream md fl]. by rewrite Hs1, Hstream, Hmem. }
  destruct (decode_int (ngx_http_v2_prefix 7) (ch :: t)) as [[n l'] |].
  2: { destruct Hint as (rc & n & q & E & Hrc & Hag). cbn [mbind option_bind]. rewrite E in Hstep.
       destruct (Z.ltb_spec rc 0); [| lia]. unfold int_error in Hstep.
       destruct (Z.eqb_spec rc NGX_AGAIN); [done |]. eapply reach_ends; [done |].
       case_if_in Hstep; by eapply fail_ends. }
  destruct Hint as (Hn & k & q & E & Hin2 & Hlt & Hwl'). cbn [mbind option_bind hd]. rewrite E in Hstep.
  destruct (Z.ltb_spec n 0); [lia |]. destruct (buffer_size <? n); cbn [orb].
  { eapply reach_ends; [done |]. by eapply fail_ends. }
  set (size := (if coded ch then n * 8 / 5 else n) + 1) in *.
  set (c2 := set_fl (Field (field_state (fl c1)) [] size n) (set_fr (set_len k (fr c1)) c1)) in *.
  assert (Hin3 : inside c2 l' q after) by by apply Hin2.
  assert (Hcall : reach field_len c buf (if coded ch then field_huff else field_raw) c2 q)
    by (eapply reach_trans; [done | by apply reach_call]).
  assert (Hcore : forall f c', same_core (set_fl f c2) c' -> same_core (set_fl f c) c').
  { intros f c' Hc'. destruct Hc1 as (? & ? & ? & ? & ? & ? & ?). destruct Hc' as (? & ? & ? & ? & ? & ? & ?).
    unfold same_core, c2 in *. simpl in *. split_and!; congruence. }
  set (dec := if coded ch then Huffman.ngx_http_huff_decode else raw_decode).
  assert (Hpart : part_handler (if coded ch then field_huff else field_raw) true dec)
    by (unfold dec; destruct (coded ch); constructor).
  assert (Hd : Decoder dec) by (unfold dec; destruct (coded ch); apply _).
  assert (Hread : part_read dec c2 [] n).
  { eapply part_start; [done | done | by rewrite Hfl | lia |]. intros x last Hwx Hx. unfold dec, size.
    destruct (coded ch); [by apply huff_fits | simpl; lia]. }
  pose proof (part_reach dec _ c2 l' q after [] n Hpart Hin3 Hwl' Hread) as Hend2.
  assert (Hout : forall s o, dec 0 (take (Z.to_nat n) l') true = (NGX_OK, s, o) -> s = 0).
  { intros s o. unfold dec. destruct (coded ch); [apply huff_done | by intros [= <- <-]]. }
  cbn [app] in Hend2. unfold string_end in Hend2. change (field_rest (fl c2)) with n in Hend2.
  assert (Hgoal : match (if Z.of_nat (length l') <? n then None
      else let '(rc, _, s) := dec 0 (take (Z.to_nat n) l') true in
           if rc =? NGX_OK then Some (s, drop (Z.to_nat n) l') else None) with
    | Some (s, l'0) => exists c' buf' f, reach field_len c buf process_header c' buf' /\
        inside c' l'0 buf' after /\ same_core (set_fl f c) c' /\ field_bytes f = s /\ field_state f = 0 /\
        (length l'0 < length (ch :: t))%nat /\ wf_bytes l'0
    | None => ends field_len c buf closed
    end).
  { destruct (dec 0 (take (Z.to_nat n) l') true) as [[rc s] o] eqn:Ed.
    destruct (Z.of_nat (length l') <? n); cbn [orb] in Hend2; [by eapply reach_ends |].
    destruct (Z.eqb_spec rc NGX_OK) as [-> | Hrc]; cbn [negb] in Hend2; [| by eapply reach_ends].
    destruct Hend2 as (c' & buf' & Hr & Hin' & Hc'). exists c', buf', (Field s o (field_size (fl c2)) 0).
    split_and!; [by eapply reach_trans | done | by apply Hcore | done | by eapply Hout | | by apply wf_drop].
    rewrite length_drop. lia. }
  clear -Hgoal. unfold dec in Hgoal. destruct (Z.of_nat (length l') <? n); [done |].
  by destruct (coded ch).
Qed.

(** *** Fields *)

(** The connection between two fields. *)
Definition ready c (s : bool * table) (limit : Z) (w : U) : Prop :=
  stream c = true /\ md c = Mode false false false /\ field_state (fl c) = 0 /\
  tracks (table_of c) s /\ world c = w /\ header_limit c = limit.

(** A request that was dropped: its stream is no more, and it stays as it was left. *)
Definition gone (w : U) c : Prop := stream c = false /\ world c = w.

(** A run does what the reading of the block says, and leaves less than [bound] bytes
    of it. *)
Definition field_end h c buf after (bound : nat) (d : decoded) : Prop :=
  match d with
  | Good s limit w l => exists c' buf', reach h c buf header_complete c' buf' /\
      inside c' l buf' after /\ ready c' s limit w /\ wf_bytes l /\ (length l < bound)%nat
  | Bad => ends h c buf closed
  | Lost w => exists h' c' buf', reach h c buf h' c' buf' /\ gone w c'
  end.

Lemma field_end_reach h c buf h' c' buf' after bound d : reach h c buf h' c' buf' ->
  field_end h' c' buf' after bound d -> field_end h c buf after bound d.
Proof.
  intros Hr. destruct d; simpl; [| by apply reach_ends |].
  - intros (c2 & buf2 & ? & ?). exists c2, buf2. split; [by eapply reach_trans | done].
  - intros (h2 & c2 & buf2 & ? & ?). exists h2, c2, buf2. split; [by eapply reach_trans | done].
Qed.

Lemma fail_end h c buf after bound code : step h c buf = Fail code -> field_end h c buf after bound Bad.
Proof. intros H. by eapply fail_ends. Qed.

(** The header of a field is put into the table. *)
Lemma index_header_tracks c s pv ix : md c = Mode false pv ix -> granted (table_mem mem) = true ->
  tracks (table_of c) s ->
  exists t, index_header c = Some (NGX_OK, set_table t (set_md (Mode false pv false) c)) /\
    tracks t (if ix then (spec_op (Add (table_mem mem) (hdr c)) s).2 else s).
Proof.
  intros Hm Hg Ht. unfold index_header. rewrite Hm. cbn [index parse_name parse_value]. destruct ix.
  - destruct (run_op_tracks (Add (table_mem mem) (hdr c)) _ _ Ht Hg) as (t & E & Ht'). cbn [run_op] in E.
    rewrite E. cbn [mbind option_bind]. exists t. destruct s as [started t0]. by split.
  - exists (table_of c). split; [| done]. do 2 f_equal. destruct c; simpl in *. by subst.
Qed.

Lemma process_end c l buf after s limit w pv ix bound : inside c l buf after -> wf_bytes l ->
  stream c = true -> md c = Mode false pv ix -> field_state (fl c) = 0 -> tracks (table_of c) s ->
  world c = w -> header_limit c = limit -> granted (table_mem mem) = true -> (length l < bound)%nat ->
  field_end process_header c buf after bound
    (finish_field s limit w ix (if pv then Header (name (hdr c)) (field_bytes (fl c)) else hdr c) l).
Proof.
  intros Hin Hw Hs Hm Hf Ht <- <- Hg Hb. set (hd := if pv then _ else hdr c). unfold finish_field.
  set (c1 := set_hdr hd (set_md (Mode false false ix) c)).
  set (n := Z.of_nat (length (name hd)) + Z.of_nat (length (value hd))).
  assert (Hstep : step process_header c buf =
    if header_limit c <? n then Fail NGX_HTTP_V2_ENHANCE_YOUR_CALM
    else match index_header (set_limit (header_limit c - n) c1) with
         | None => Wild
         | Some (rc, c2) =>
             if negb (rc =? NGX_OK) then Fail NGX_HTTP_V2_INTERNAL_ERROR
             else if negb (stream c2) then Call header_complete c2 buf
             else
               let '(w, v) := deliver (world c2) (hdr c2) in
               let c2 := set_world w c2 in
               match v with
               | Kept => Call header_complete c2 buf
               | Dropped => Call header_complete (set_request false (request_length c2) c2) buf
               | Broken code => Fail code
               end
         end).
  { cbn [step]. unfold ngx_http_v2_state_process_header. rewrite Hm. cbn [parse_name parse_value index].
    assert (Hc1 : (if pv then set_hdr (Header (name (hdr c)) (field_bytes (fl c))) (set_md (Mode false false ix) c) else c) = c1).
    { unfold c1, hd. destruct pv; [done |]. destruct c; simpl in *. by subst. }
    by rewrite Hc1. }
  destruct (header_limit c <? n); [by eapply fail_end |].
  destruct (index_header_tracks (set_limit (header_limit c - n) c1) s false ix eq_refl Hg Ht)
    as (t & Ei & Ht'). rewrite Ei in Hstep. cbn [negb Z.eqb] in Hstep.
  change (stream (set_table _ _)) with (stream c) in Hstep. rewrite Hs in Hstep. cbn [negb] in Hstep.
  change (world (set_table _ _)) with (world c) in Hstep. change (hdr (set_table _ _)) with hd in Hstep.
  destruct (deliver (world c) hd) as [w v]. destruct v as [| | code]; [| | by eapply fail_end].
  2: { eexists _, _, buf. by split; [by apply reach_call |]. }
  eexists _, buf. split; [by apply reach_call |]. split; [exact Hin |]. split; [| done]. by split_and!.
Qed.

(** The value of a literal field. *)
Lemma value_end c l buf after s limit w ix bound : inside c l buf after -> wf_bytes l ->
  stream c = true -> md c = Mode false true ix -> field_state (fl c) = 0 -> tracks (table_of c) s ->
  world c = w -> header_limit c = limit -> field_mem mem = true -> granted (table_mem mem) = true ->
  (length l <= bound)%nat ->
  field_end field_len c buf after bound
    match decode_string l with
    | None => Bad
    | Some (x, l) => finish_field s limit w ix (Header (name (hdr c)) x) l
    end.
Proof.
  intros Hin Hw Hs Hm Hf Ht Hwd Hl Hmem Hg Hb.
  pose proof (string_reach c l buf after Hin Hw Hs Hf Hmem) as Hr.
  destruct (decode_string l) as [[x l'] |]; [| done].
  destruct Hr as (c' & buf' & f & Hr & Hin' & Hc' & Hx & Hfs & Hlt & Hw').
  destruct Hc' as (Hc1 & Hc2 & Hc3 & Hc4 & Hc5 & Hc6 & Hc7). simpl in *. subst x.
  eapply field_end_reach; [done |]. rewrite <- Hc2, <- Hc3.
  apply (process_end c' l' buf' after s limit w true ix bound); try congruence; try lia; by rewrite Hc6.
Qed.

(** A literal field with a new name. *)
Lemma name_end c l buf after s limit w ix bound : inside c l buf after -> wf_bytes l ->
  stream c = true -> md c = Mode true true ix -> field_state (fl c) = 0 -> tracks (table_of c) s ->
  world c = w -> header_limit c = limit -> field_mem mem = true -> granted (table_mem mem) = true ->
  (length l <= bound)%nat ->
  field_end field_len c buf after bound
    match decode_header s.2 false 0 l with
    | None => Bad
    | Some (hd, l) => finish_field s limit w ix hd l
    end.
Proof.
  intros Hin Hw Hs Hm Hf Ht Hwd Hl Hmem Hg Hb. unfold decode_header, decode_name. cbn [Z.eqb].
  pose proof (string_reach c l buf after Hin Hw Hs Hf Hmem) as Hr.
  destruct (decode_string l) as [[nm l1] |]; [| done]. cbn [mbind option_bind].
  destruct Hr as (c' & buf' & f & Hr & Hin' & Hc' & Hx & Hfs & Hlt & Hw').
  destruct Hc' as (Hc1 & Hc2 & Hc3 & Hc4 & Hc5 & Hc6 & Hc7). simpl in *. subst nm.
  eapply field_end_reach; [done |].
  assert (Hstep : step process_header c' buf' =
    if (length (field_bytes f) =? 0)%nat then Fail NGX_HTTP_V2_PROTOCOL_ERROR
    else Call field_len (set_hdr (Header (field_bytes f) (value (hdr c'))) (set_md (Mode false true ix) c')) buf').
  { cbn [step]. unfold ngx_http_v2_state_process_header. by rewrite Hc1, Hm, Hc2. }
  destruct (length (field_bytes f) =? 0)%nat; [by eapply fail_end |]. cbn [mbind option_bind].
  eapply field_end_reach; [by apply reach_call |].
  set (c2 := set_hdr _ (set_md (Mode false true ix) c')) in *.
  pose proof (value_end c2 l1 buf' after s limit w ix bound) as Hv. change (name (hdr c2)) with (field_bytes f) in Hv.
  destruct (decode_string l1) as [[x l2] |]; cbn [mbind option_bind];
    apply Hv; try done; cbn [c2 set_hdr set_md stream fl table_of world header_limit];
    rewrite ?Hc2, ?Hc6; try congruence; lia.
Qed.

(** A lookup for a field. *)
Lemma get_header_result c s v name_only : tracks (table_of c) s -> 0 <= v < 2 ^ 63 ->
  name_mem mem = true -> value_mem mem = true ->
  exists rc hd, get_header v name_only c = Some (rc, hd) /\
    match table_lookup s.2 v with
    | Some h => rc = NGX_OK /\ name hd = name h /\ (name_only = false -> hd = h)
    | None => rc = NGX_ERROR
    end.
Proof.
  intros Ht Hv Hn Hx. unfold get_header. assert (0 <= v < 2 ^ 63) as Hv' by lia.
  rewrite (lookup_tracks _ _ _ _ _ _ _ Ht Hv'), Hn, Hx.
  do 2 eexists. split; [by rewrite <- surjective_pairing |]. unfold lookup_result.
  destruct (table_lookup s.2 v) as [h |]; [| done]. by repeat case_if.
Qed.

(** The first byte of a field says what it is. *)
Lemma field_kind_facts ch : exists k, 0 <= k <= 7 /\ (field_kind ch).2 = ngx_http_v2_prefix k /\
  ((field_kind ch).1.1.2 = true -> (field_kind ch).1.2 = false).
Proof.
  unfold field_kind. repeat case_if; eexists; (split; [| split; [reflexivity | done]]); lia.
Qed.

(** [ngx_http_v2_state_header_block] between two fields, with the bytes it needs. *)
Lemma block_step c ch t indexed size_update ix prefix :
  md c = Mode false false false -> negb (end_headers c) && (len (fr c) <? 4) = false ->
  field_kind ch = (indexed, size_update, ix, prefix) ->
  let cm := set_md (Mode false false ix) c in
  step header_block c (ch :: t) =
    match ngx_http_v2_parse_int prefix (len (fr c)) (ch :: t) with
    | None => Wild
    | Some (v, n, q) =>
        if v <? 0 then int_error v cm (ch :: t) header_block
        else
          let c2 := set_fr (set_len n (fr c)) cm in
          if indexed then
            match get_header v false c2 with
            | None => Wild
            | Some (rc, hd) => if negb (rc =? NGX_OK) then Fail NGX_HTTP_V2_COMP_ERROR
                               else Call process_header (set_hdr hd c2) q
            end
          else if size_update then
            match ngx_http_v2_table_size (table_of c2) v with
            | None => Wild
            | Some (rc, tb) => if negb (rc =? NGX_OK) then Fail NGX_HTTP_V2_COMP_ERROR
                              else Call header_complete (set_table tb c2) q
            end
          else if v =? 0 then Call field_len (set_md (Mode true true ix) c2) q
          else
            match get_header v true c2 with
            | None => Wild
            | Some (rc, hd) => if negb (rc =? NGX_OK) then Fail NGX_HTTP_V2_COMP_ERROR
                               else Call field_len (set_md (Mode false true ix) (set_hdr hd c2)) q
            end
    end.
Proof.
  intros Hm Hskip Ek cm. cbn [step]. unfold ngx_http_v2_state_header_block. rewrite int_octets, Hskip, Ek.
  assert (Hcm : (if ix then set_md (Mode (parse_name (md c)) (parse_value (md c)) true) c else c) = cm).
  { unfold cm. rewrite Hm. destruct ix; [done |]. destruct c; simpl in *. by subst. }
  cbv zeta. by rewrite Hcm.
Qed.

(** One field of the block, when its first integer can be read. *)
Lemma block_settled c l buf after s limit w : inside c l buf after -> wf_bytes l -> l <> [] ->
  end_headers c = true \/ (len (fr c) <? 4) = false ->
  ready c s limit w -> field_mem mem = true -> name_mem mem = true -> value_mem mem = true ->
  granted (table_mem mem) = true ->
  field_end header_block c buf after (length l) (decode_field s limit w l).
Proof.
  intros Hin Hw Hl Hend (Hs & Hm & Hf & Ht & Hwd & Hlim) Hmem Hnm Hvm Hg.
  assert (Hskip : negb (end_headers c) && (len (fr c) <? 4) = false)
    by (destruct Hend as [-> | ->]; [done | apply andb_false_r]).
  destruct (inside_head c l buf after Hin Hl Hend) as (ch & t & t' & -> & -> & Hlen).
  unfold decode_field. cbn [hd]. destruct (field_kind_facts ch) as (k & Hk & Hp & Hix).
  destruct (field_kind ch) as [[[indexed size_update] ix] prefix] eqn:Ek. cbn [fst snd] in Hp, Hix. subst prefix.
  pose proof (int_inside k c _ _ _ Hin Hw Hl Hk Hend) as Hint.
  pose proof (block_step c ch t' _ _ _ _ Hm Hskip Ek) as Hstep. cbv zeta in Hstep.
  set (cm := set_md (Mode false false ix) c) in *.
  destruct (decode_int (ngx_http_v2_prefix k) (ch :: t)) as [[v l'] |].
  2: { destruct Hint as (rc & n & q & E & Hrc & Hag). rewrite E in Hstep.
       destruct (Z.ltb_spec rc 0); [| lia]. unfold int_error in Hstep.
       destruct (Z.eqb_spec rc NGX_AGAIN); [done |]. case_if_in Hstep; by eapply fail_end. }
  destruct Hint as (Hv & n & q & E & Hin2 & Hlt & Hwl'). rewrite E in Hstep.
  destruct (Z.ltb_spec v 0); [lia |]. set (c2 := set_fr (set_len n (fr c)) cm) in *.
  assert (Hin3 : forall c', fr c' = fr c2 -> inside c' l' q after) by (intros c' Hc'; apply Hin2; by rewrite Hc').
  clear E Hin2. unfold decode_header. destruct size_update.
  - assert (indexed = false) as ->.
    { revert Ek. clear. unfold field_kind. repeat case_if; congruence. }
    assert (op_ok (Resize v) = true) as Hok by (simpl; lia).
    destruct (run_op_tracks (Resize v) _ _ Ht Hok) as (tb & Er & Htb). cbn [run_op] in Er.
    change (table_of c2) with (table_of c) in Hstep. rewrite Er in Hstep. destruct s as [started tab].
    cbn [spec_op] in *. clear Er. revert Hstep Htb.
    destruct (NGX_HTTP_V2_TABLE_SIZE <? v); intros Hstep Htb; cbn [fst snd negb Z.eqb] in Hstep, Htb; [by eapply fail_end |].
    exists (set_table tb c2), q. split; [by apply reach_call |]. split; [by apply Hin3 |].
    split; [| done]. pose proof (Hix eq_refl) as ->. unfold ready. by split_and!.
  - destruct indexed.
    + destruct (get_header_result c2 s v false Ht Hv Hnm Hvm) as (rc & h & E & Hh). rewrite E in Hstep.
      destruct (table_lookup s.2 v) as [h' |]; cbn [mbind option_bind]; [| subst rc; cbn [negb Z.eqb] in Hstep; by eapply fail_end].
      destruct Hh as (-> & _ & Hh). specialize (Hh eq_refl). subst h. cbn [negb Z.eqb] in Hstep. eapply field_end_reach; [by apply reach_call |].
      apply (process_end (set_hdr h' c2) l' q after s limit w false ix); try done. by apply Hin3.
    + destruct (Z.eqb_spec v 0) as [-> | Hv0].
      * eapply field_end_reach; [by apply reach_call |].
        apply (name_end (set_md (Mode true true ix) c2) l' q after s limit w ix); try done; [by apply Hin3 | lia].
      * destruct (get_header_result c2 s v true Ht Hv Hnm Hvm) as (rc & h & E & Hh). rewrite E in Hstep.
        unfold decode_name. destruct (Z.eqb_spec v 0); [done |].
        destruct (table_lookup s.2 v) as [h' |]; cbn [mbind option_bind]; [| subst rc; cbn [negb Z.eqb] in Hstep; by eapply fail_end].
        destruct Hh as (-> & Hh & _). cbn [negb Z.eqb] in Hstep. eapply field_end_reach; [by apply reach_call |].
        pose proof (value_end (set_md (Mode false true ix) (set_hdr h c2)) l' q after s limit w ix (length (ch :: t))) as Hve.
        cbn [hdr set_md set_hdr] in Hve. rewrite Hh in Hve.
        destruct (decode_string l') as [[x l2] |]; cbn [mbind option_bind];
          (apply Hve; try done; [by apply Hin3 | lia]).
Qed.

Lemma block_end c l buf after s limit w : inside c l buf after -> wf_bytes l -> l <> [] ->
  ready c s limit w -> field_mem mem = true -> name_mem mem = true -> value_mem mem = true ->
  granted (table_mem mem) = true ->
  field_end header_block c buf after (length l) (decode_field s limit w l).
Proof.
  intros Hin Hw Hl Hready Hmem Hnm Hvm Hg.
  destruct (settle (fun n => n <? 4) header_block c l buf after Hin ltac:(done)) as (c1 & buf1 & Hreach & Hin1 & Hc1 & Hend).
  { intros c1 [| ch t] _ He Hl0 Hne; [done |]. cbn [step]. unfold ngx_http_v2_state_header_block.
    by rewrite int_octets, He, Hl0. }
  eapply field_end_reach; [done |]. eapply block_settled; try done.
  destruct Hc1 as (E1 & E2 & _ & E4 & E5 & E6 & E7). unfold ready in *. by rewrite E1, E2, E4, E5, E6, E7.
Qed.

(** *** What no bytes can do *)

(** A property of what a handler leaves; [W] says whether a wrong access is allowed. *)
Definition leaves (P : handler -> conn U -> Prop) (W : Prop) (x : next U) : Prop :=
  match x with
  | Call h c _ | Back h c _ | Save h c _ => P h c
  | Fail _ => True
  | Wild => W
  end.

Lemma leaves_mono (P Q : handler -> conn U -> Prop) (V W : Prop) x :
  (forall h c, P h c -> Q h c) -> (V -> W) -> leaves P V x -> leaves Q W x.
Proof. intros HP HW. destruct x; simpl; auto. Qed.

Lemma save_leaves (P : handler -> conn U -> Prop) W c p h : P h c -> leaves P W (ngx_http_v2_state_save c p h).
Proof. intros H. unfold ngx_http_v2_state_save. by case_if. Qed.

(** What the header of a frame does not touch. *)
Definition keeps c c' : Prop :=
  fl c' = fl c /\ table_of c' = table_of c /\ stream c' = stream c /\ world c' = world c.

Lemma cont_leaves c p h :
  leaves (fun h' c' => h' = h /\ keeps c c') False (ngx_http_v2_handle_continuation c p h).
Proof.
  unfold ngx_http_v2_handle_continuation. destruct (drop_padding c p) as [c1 p1] eqn:E.
  assert (Hk : keeps c c1) by (revert E; unfold drop_padding; case_if; by intros [= <- <-]).
  destruct (Nat.ltb_spec (length p1) (Z.to_nat (len (fr c1)) + NGX_HTTP_V2_FRAME_HEADER_SIZE)) as [Hl | Hl];
    [by apply save_leaves |].
  destruct (frame_header (drop (Z.to_nat (len (fr c1))) p1) []) as (hd & fg & id & _ & _ & _ & -> & -> & -> & _);
    [rewrite length_drop; lia |].
  case_if; [done |]. case_if; [done |]. cbn [stream set_fr leaves]. split; [done |].
  destruct Hk as (? & ? & Hs & ?). destruct (stream c1) eqn:Es; split_and!; try done. cbn. congruence.
Qed.

(** A request that was dropped stays so. *)
Lemma gone_keeps w c c' : keeps c c' -> gone w c -> gone w c'.
Proof. unfold gone. intros (_ & _ & -> & ->). done. Qed.

Lemma cont_gone w c p h : gone w c -> leaves (fun _ c' => gone w c') True (ngx_http_v2_handle_continuation c p h).
Proof.
  intros Hg. eapply leaves_mono; [| | apply cont_leaves]; [| done].
  intros h' c' [_ Hk]. by apply (gone_keeps w c).
Qed.

Lemma part_gone w checked dec h c p : part_handler h checked dec -> gone w c ->
  leaves (fun _ c' => gone w c') True (step h c p).
Proof.
  intros Hp Hg. destruct (part_handler_spec _ _ _ Hp) as (_ & _ & ->). unfold part_step.
  destruct (dec _ _ _) as [[rc s] o]. case_if; [done |]. case_if; [done |]. unfold part_next.
  assert (Hg' : gone w (take_part c (field_part c p) s o)) by done.
  repeat case_if; try done; [by apply save_leaves | by apply cont_gone].
Qed.

Lemma index_header_gone w c rc c' : index_header c = Some (rc, c') -> gone w c -> gone w c'.
Proof.
  unfold index_header. case_if; [| by intros [= <- <-]].
  destruct (ngx_http_v2_add_header _ _ _) as [[? ?] |]; [| done]. by intros [= <- <-].
Qed.

Lemma step_gone w h c p : gone w c -> leaves (fun _ c' => gone w c') True (step h c p).
Proof.
  intros Hg. destruct h; cbn [step]; try done.
  - unfold ngx_http_v2_state_header_block. destruct p as [| ch t]; [by apply save_leaves |].
    case_if; [by apply cont_gone |]. destruct (field_kind ch) as [[[indexed size_update] ix] prefix]. cbv zeta.
    set (c1 := if ix then _ else c). assert (Hg1 : gone w c1) by (by destruct ix). clearbody c1.
    destruct (ngx_http_v2_parse_int _ _ _) as [[[v n] q] |]; [| done].
    case_if; [unfold int_error; repeat case_if; try done; by apply save_leaves |].
    repeat case_if; try done;
      match goal with |- context [match ?x with Some _ => _ | None => _ end] =>
        destruct x as [[? ?] |]; [| done] end; by case_if.
  - unfold ngx_http_v2_state_field_len. case_if; [by apply cont_gone |]. case_if; [done |].
    destruct p as [| ch t]; [by apply save_leaves |].
    destruct (ngx_http_v2_parse_int _ _ _) as [[[v n] q] |]; [| done].
    case_if; [unfold int_error; repeat case_if; try done; by apply save_leaves |]. by repeat case_if.
  - exact (part_gone w _ _ field_huff c p part_huff Hg).
  - exact (part_gone w _ _ field_raw c p part_raw Hg).
  - exact (part_gone w _ _ field_skip c p part_skip Hg).
  - unfold ngx_http_v2_state_process_header. case_if; [by case_if |].
    set (c1 := if parse_value (md c) then _ else c). assert (Hg1 : gone w c1) by (subst c1; by case_if).
    clearbody c1. case_if; [done |]. destruct (index_header _) as [[rc c2] |] eqn:E; [| done].
    apply (index_header_gone w) in E as [Hs Hw]; [| done]. case_if; [done |]. by rewrite Hs.
  - unfold ngx_http_v2_state_header_complete. case_if; [case_if; [done | by apply save_leaves] |].
    case_if; [by apply cont_gone |]. rewrite (proj1 Hg). destruct Hg as [Hs Hw]. case_if; [| by split].
    unfold ngx_http_v2_state_skip_padded, ngx_http_v2_state_skip. case_if; [by apply save_leaves | by split].
  - unfold ngx_http_v2_state_skip. destruct Hg as [Hs Hw]. case_if; [by apply save_leaves | by split].
Qed.

Lemma run_gone w n h c p r : gone w c -> run n h c p = Some r ->
  match r with Complete c _ | Paused _ c _ => gone w c | _ => True end.
Proof.
  revert h c p. induction n as [| n IH]; intros h c p Hg; [done |]. simpl.
  pose proof (step_gone w h c p Hg) as H. destruct (step h c p) as [h' c' q | h' c' q | h' c' q | code |]; simpl in H.
  - by apply IH.
  - destruct h', q; try (by apply IH); by intros [= <-].
  - by intros [= <-].
  - by intros [= <-].
  - by intros [= <-].
Qed.

(** The memory of a string is enough and the table is sound, in every handler. *)
Definition safe h c : Prop :=
  (exists s, tracks (table_of c) s) /\
  match h with
  | field_huff => exists past n, part_read Huffman.ngx_http_huff_decode c past n
  | field_raw => exists past n, part_read raw_decode c past n
  | _ => field_state (fl c) = 0
  end.

Lemma safe_keeps h c c' : keeps c c' -> safe h c -> safe h c'.
Proof.
  intros (Hf & Ht & _ & _) [Hs H]. split; [by rewrite Ht |].
  destruct h; try (by rewrite Hf); destruct H as (past & n & []); exists past, n; split; rewrite ?Hf; auto.
Qed.

Lemma cont_safe c p h : safe h c -> leaves safe False (ngx_http_v2_handle_continuation c p h).
Proof.
  intros Hs. eapply leaves_mono; [| | apply cont_leaves]; [| done].
  intros h' c' [-> Hk]. by apply (safe_keeps h c).
Qed.

(** A string is written to its memory, piece by piece. *)
Lemma part_safe dec h c p past n : part_handler h true dec -> valid c -> wf_bytes p -> part_read dec c past n ->
  (exists s, tracks (table_of c) s) ->
  (forall c' past, (exists s, tracks (table_of c') s) -> part_read dec c' past n -> safe h c') ->
  (forall x s o, dec 0 x true = (NGX_OK, s, o) -> s = 0) ->
  leaves safe False (step h c p).
Proof.
  intros Hpart Hv Hw Hp Ht Hsafe Hdone. destruct (part_handler_spec _ _ _ Hpart) as (Hd & _ & ->).
  pose proof (rest_nonneg _ _ _ _ Hp) as Hr. destruct Hv as (Hl & _ & _). unfold part_step.
  set (k := field_part c p). assert (Hk : 0 <= k <= field_rest (fl c) /\ k <= Z.of_nat (length p))
    by (unfold k, field_part; lia).
  set (x := take (Z.to_nat k) p). assert (Hx : Z.of_nat (length x) = k) by (unfold x; rewrite length_take; lia).
  assert (Hwx : wf_bytes x) by by apply wf_take.
  set (last := field_rest (fl c) - k =? 0). assert (Hor : x <> [] \/ last = false \/ past = []).
  { destruct (Z.eq_dec (field_rest (fl c)) 0) as [Hz | Hz]; [right; right; by apply (rest_none _ _ _ _ Hp) |].
    destruct last eqn:El; [left; intros E; subst last; rewrite E in Hx; simpl in Hx; lia | by right; left]. }
  pose proof (part_piece dec c past n x last Hd Hp Hor) as Hpiece.
  destruct (dec (field_state (fl c)) x last) as [[rc s] o] eqn:E.
  destruct (part_fits dec c past n x last rc s o k Hd Hp Hwx ltac:(lia) Hor E) as [Hfit ->]. cbn [andb].
  set (c1 := take_part c k s o). destruct (Z.eqb_spec rc NGX_OK) as [-> |]; cbn [negb]; [| done].
  unfold part_next. change (field_rest (fl c1)) with (field_rest (fl c) - k).
  change (field_size (fl c1)) with (field_size (fl c)). change (field_bytes (fl c1)) with (field_bytes (fl c) ++ o).
  fold last. destruct last eqn:El.
  - destruct (Z.ltb_spec (field_size (fl c)) (Z.of_nat (length (field_bytes (fl c) ++ o)) + 1)); [lia |].
    split; [done |]. by eapply Hdone.
  - assert (Hp1 : part_read dec c1 (past ++ x) n).
    { destruct Hp as [Hwp Hpd Hpn _ _ Hpf]. split; try exact Hpf; cbn [c1 take_part fl set_fl field_rest field_state field_bytes].
      - by apply wf_bytes_app.
      - exact Hpiece.
      - rewrite length_app. lia.
      - lia.
      - unfold last in El. lia. }
    assert (Hs1 : safe h c1) by by apply (Hsafe c1 (past ++ x)).
    case_if; [by apply save_leaves |]. case_if; [done |]. by apply cont_safe.
Qed.

Lemma skip_safe c p : safe field_skip c -> leaves safe False (step field_skip c p).
Proof.
  intros [Ht Hf]. destruct (part_handler_spec _ _ _ part_skip) as (_ & _ & ->). unfold part_step, skip_decode.
  cbn [negb Z.eqb andb]. assert (Hs : forall h, h <> field_huff -> h <> field_raw ->
    safe h (take_part c (field_part c p) (field_state (fl c)) [])) by (intros [] ? ?; by split).
  unfold part_next. case_if; [by apply Hs |]. case_if; [by apply save_leaves, Hs |]. case_if; [done |].
  by apply cont_safe, Hs.
Qed.

Lemma block_safe c p : name_mem mem = true -> value_mem mem = true -> granted (table_mem mem) = true ->
  wf_bytes p -> safe header_block c -> leaves safe False (step header_block c p).
Proof.
  intros Hnm Hvm Hg Hw Hs. cbn [step]. unfold ngx_http_v2_state_header_block.
  destruct p as [| ch t]; [by apply save_leaves |]. case_if; [by apply cont_safe |].
  destruct (field_kind_facts ch) as (k & Hk & Hp & _).
  destruct (field_kind ch) as [[[indexed size_update] ix] prefix]. cbn [fst snd] in Hp. subst prefix. cbv zeta.
  set (c1 := if ix then _ else c). assert (Hs1 : safe header_block c1) by (by destruct ix). clearbody c1. clear Hs.
  destruct (ngx_http_v2_parse_int (ngx_http_v2_prefix k) (len (fr c1)) (ch :: t)) as [[[v n] q] |] eqn:E; [| discriminate E].
  pose proof (parse_int_bound _ _ _ _ _ _ Hk E) as Hv.
  destruct (Z.ltb_spec v 0); [unfold int_error; repeat case_if; try done; by apply save_leaves |].
  set (c2 := set_fr _ c1). destruct Hs1 as [(s & Ht) Hf].
  assert (Hc2 : tracks (table_of c2) s) by done.
  assert (Hs2 : forall h c', h <> field_huff -> h <> field_raw -> table_of c' = table_of c2 ->
    fl c' = fl c2 -> safe h c') by (intros [] c' ? ? Et Ef; (split; [rewrite Et; by exists s | by rewrite ?Ef])).
  assert (Hget : forall no : bool, exists rc hd, get_header v no c2 = Some (rc, hd)).
  { intros no. destruct (get_header_result c2 s v no Hc2 ltac:(lia) Hnm Hvm) as (rc & hd & Eg & _). by exists rc, hd. }
  case_if; [destruct (Hget false) as (rc & hd & ->); case_if; [done | by apply Hs2] |].
  case_if.
  { assert (op_ok (Resize v) = true) as Hok by (simpl; lia).
    destruct (run_op_tracks (Resize v) _ _ Hc2 Hok) as (tb & Er & Htb). cbn [run_op] in Er. rewrite Er.
    case_if; [done |]. split; [by eexists | done]. }
  case_if; [by apply Hs2 |]. destruct (Hget true) as (rc & hd & ->). case_if; [done | by apply Hs2].
Qed.

Lemma len_safe c p : wf_bytes p -> safe field_len c -> leaves safe False (step field_len c p).
Proof.
  intros Hw Hs. cbn [step]. unfold ngx_http_v2_state_field_len. case_if; [by apply cont_safe |]. case_if; [done |].
  destruct p as [| ch t]; [by apply save_leaves |].
  destruct (ngx_http_v2_parse_int (ngx_http_v2_prefix 7) (len (fr c)) (ch :: t)) as [[[n k] q] |] eqn:E; [| discriminate E].
  destruct (Z.ltb_spec n 0); [unfold int_error; repeat case_if; try done; by apply save_leaves |].
  case_if; [done |]. destruct Hs as [Ht Hf]. case_if; [by split |]. case_if; [done |].
  change (negb (Z.shiftr ch 7 =? 0)) with (coded ch). destruct (coded ch); (split; [done |]); exists [], n.
  - eapply part_start; [apply _ | done | done | lia |]. intros. by apply huff_fits.
  - eapply part_start; [apply _ | done | done | lia |]. intros. simpl. lia.
Qed.

Lemma process_safe c p : granted (table_mem mem) = true -> safe process_header c ->
  leaves safe False (step process_header c p).
Proof.
  intros Hg [(s & Ht) Hf]. cbn [step]. unfold ngx_http_v2_state_process_header.
  case_if; [case_if; [done | by split; [exists s |]] |].
  set (c1 := if parse_value (md c) then _ else c).
  assert (Hc1 : tracks (table_of c1) s /\ field_state (fl c1) = 0 /\ parse_name (md c1) = false)
    by (subst c1; by case_if). clearbody c1. destruct Hc1 as (Ht1 & Hf1 & Hm1). case_if; [done |].
  set (c2 := set_limit _ c1). assert (Hm2 : md c2 = Mode false (parse_value (md c1)) (index (md c1)))
    by (cbn; rewrite <- Hm1; by destruct (md c1)).
  destruct (index_header_tracks c2 s _ _ Hm2 Hg Ht1) as (t & -> & Ht2). cbn [negb Z.eqb].
  assert (Hs : forall c', table_of c' = t -> fl c' = fl c1 -> safe header_complete c')
    by (intros c' Et Ef; split; [rewrite Et; by eexists | by rewrite Ef]).
  case_if; [by apply Hs |]. destruct (deliver _ _) as [w []]; [by apply Hs | by apply Hs | done].
Qed.

Lemma complete_safe c p : safe header_complete c -> leaves safe False (step header_complete c p).
Proof.
  intros Hs. cbn [step]. unfold ngx_http_v2_state_header_complete.
  case_if; [case_if; [done | by apply save_leaves] |]. case_if; [by apply cont_safe |].
  set (c1 := if stream c then _ else c). assert (Hs1 : safe header_complete c1) by (subst c1; by case_if).
  clearbody c1. case_if; [| done].
  unfold ngx_http_v2_state_skip_padded, ngx_http_v2_state_skip. case_if; [by apply save_leaves | done].
Qed.

(** Whatever the bytes and the frames, no access goes wrong. *)
Lemma step_safe h c p : name_mem mem = true -> value_mem mem = true -> granted (table_mem mem) = true ->
  valid c -> wf_bytes p -> safe h c -> leaves safe False (step h c p).
Proof.
  intros Hnm Hvm Hg Hv Hw Hs. destruct h.
  - by apply block_safe.
  - by apply len_safe.
  - destruct Hs as [Ht (past & n & Hp)]. eapply part_safe; try done; [constructor | | apply huff_done].
    intros c' x Ht' Hp'. split; [done | by exists x, n].
  - destruct Hs as [Ht (past & n & Hp)]. eapply part_safe; try done; [constructor | | by intros ? ? ? [= <- _]].
    intros c' x Ht' Hp'. split; [done | by exists x, n].
  - by apply skip_safe.
  - by apply process_safe.
  - by apply complete_safe.
  - cbn [step]. unfold ngx_http_v2_state_skip. case_if; [by apply save_leaves | done].
  - done.
Qed.

Lemma run_safe n h c p r : name_mem mem = true -> value_mem mem = true -> granted (table_mem mem) = true ->
  h <> frame_head -> valid c -> wf_bytes p -> safe h c -> run n h c p = Some r -> r <> Crashed.
Proof.
  intros Hnm Hvm Hg. revert h c p. induction n as [| n IH]; intros h c p Hh Hv Hw Hs; [done |]. simpl.
  pose proof (step_valid h c p Hh Hv Hw) as H1. pose proof (step_safe h c p Hnm Hvm Hg Hv Hw Hs) as H2.
  destruct (step h c p) as [h' c' q | h' c' q | h' c' q | code |]; simpl in H2; try done; try (by intros [= <-]).
  - destruct H1 as (? & ? & ?). by apply IH.
  - destruct H1 as (? & ?). destruct h', q; try (by apply IH); by intros [= <-].
Qed.

(** *** Blocks *)

(** The end of a block: the state of the table, the limit and the request are what
    the block says, and the bytes after it are left. *)
Definition completed (s : bool * table) (limit : Z) (w : U) (after : list Z) (r : result) : Prop :=
  exists c, r = Complete c after /\ stream c = false /\ tracks (table_of c) s /\
    header_limit c = limit /\ world c = run_request w.

(** A dropped request does not run and gets no more headers, whatever becomes of the
    rest of its block, and no access goes wrong. *)
Definition dropped (w : U) (r : result) : Prop :=
  match r with
  | Complete c _ | Paused _ c _ => gone w c
  | Closed _ => True
  | Crashed => False
  end.

Definition block_result (d : decoded) (after : list Z) (r : result) : Prop :=
  match d with
  | Good s limit w _ => completed s limit w after r
  | Bad => closed r
  | Lost w => dropped w r
  end.

(** Nothing is left of the block. *)
Lemma last_step c buf after s limit w : inside c [] buf after -> end_headers c = true -> ready c s limit w ->
  ends header_complete c buf (completed s limit w after).
Proof.
  intros Hin He (Hs & _ & _ & Ht & <- & <-). unfold inside in Hin. rewrite He in Hin.
  inversion Hin as [x pad after' El Ep Ee Ell Eb Ea |]; subst.
  change (Z.of_nat (length (@nil Z))) with 0 in El. exists 1%nat. cbn [run step]. unfold ngx_http_v2_state_header_complete. rewrite <- El, He, Hs. cbn [Z.eqb negb].
  change (padding (fr (set_world _ c))) with (padding (fr c)). case_if.
  - unfold ngx_http_v2_state_skip_padded, ngx_http_v2_state_skip, ngx_http_v2_state_complete.
    cbn [fr set_fr set_world len padding]. rewrite <- El, <- Ep. cbn [app].
    rewrite length_app, Z.add_0_l, Nat2Z.id, drop_app_length.
    destruct (Z.ltb_spec (Z.of_nat (length pad + length after)) (Z.of_nat (length pad))); [lia |].
    eexists. split; [done |]. eexists. by split_and!.
  - destruct pad; [| simpl in Ep; lia]. eexists. split; [done |]. eexists. by split_and!.
Qed.

(** How the run over a block ends: up to the point where its request is dropped. *)
Definition block_ends h c buf after (d : decoded) : Prop :=
  match d with
  | Lost w => exists h' c' buf', reach h c buf h' c' buf' /\ gone w c'
  | _ => ends h c buf (block_result d after)
  end.

Lemma block_ends_reach h c buf h' c' buf' after d : reach h c buf h' c' buf' ->
  block_ends h' c' buf' after d -> block_ends h c buf after d.
Proof.
  intros Hr. destruct d; simpl; try by apply reach_ends.
  intros (h2 & c2 & buf2 & ? & ?). exists h2, c2, buf2. split; [by eapply reach_trans | done].
Qed.

Lemma fields_end fuel l c buf after s limit w : inside c l buf after -> wf_bytes l -> ready c s limit w ->
  field_mem mem = true -> name_mem mem = true -> value_mem mem = true -> granted (table_mem mem) = true ->
  (length l <= fuel)%nat ->
  block_ends header_complete c buf after (decode_fields fuel s limit w l).
Proof.
  intros Hin Hw Hready Hmem Hnm Hvm Hg. revert l c buf s limit w Hin Hw Hready.
  induction fuel as [| fuel IH]; intros l c buf s limit w Hin Hw Hready Hlen;
    set (d := decode_fields _ s limit w l);
    (destruct (settle (fun n => n =? 0) header_complete c l buf after Hin ltac:(done))
       as (c1 & buf1 & Hreach & Hin1 & Hc1 & Hend);
     [intros c1 buf1 _ He Hl0 _; cbn [step]; unfold ngx_http_v2_state_header_complete;
      apply Z.eqb_eq in Hl0; by rewrite Hl0, He |]);
    assert (Hready1 : ready c1 s limit w)
      by (destruct Hc1 as (E1 & E2 & _ & E4 & E5 & E6 & E7); unfold ready in *; by rewrite E1, E2, E4, E5, E6, E7);
    pose proof (framed_nonneg _ _ _ _ _ _ _ Hin1) as (Hn0 & _ & _ & Hb & Hl & Hlast);
    (destruct (decide (l = [])) as [-> | Hne];
     [eapply block_ends_reach; [done |]; subst d; simpl in Hl;
      (destruct Hend as [Hend | Hend]; [by apply last_step | lia]) |]).
  { destruct l; [done | simpl in Hlen; lia]. }
  assert (Hlen1 : 0 < len (fr c1)).
  { destruct Hend as [Hend | Hend]; [rewrite (Hlast Hend); destruct l; [done | simpl; lia] | lia]. }
  assert (Hb1 : reach header_complete c buf header_block c1 buf1).
  { eapply reach_trans; [done |]. apply reach_back; [| done | by destruct buf1; [simpl in Hb; lia |]].
    cbn [step]. unfold ngx_http_v2_state_header_complete. destruct (Z.eqb_spec (len (fr c1)) 0); [lia |].
    cbn [negb]. destruct buf1; [simpl in Hb; lia | done]. }
  pose proof (block_end c1 l buf1 after s limit w Hin1 Hw Hne Hready1 Hmem Hnm Hvm Hg) as Hfield.
  assert (Hd : d = match decode_field s limit w l with
                   | Good s limit w l => decode_fields fuel s limit w l | r => r end) by (by destruct l).
  rewrite Hd. destruct (decode_field s limit w l) as [s' limit' w' l' | |]; simpl in Hfield.
  - destruct Hfield as (c2 & buf2 & Hr2 & Hin2 & Hready2 & Hw2 & Hlt).
    eapply block_ends_reach; [by eapply reach_trans |].
    apply (IH l' c2 buf2 s' limit' w' Hin2 Hw2 Hready2). lia.
  - by eapply reach_ends.
  - by apply (block_ends_reach _ _ _ _ _ _ after (Lost w0) Hb1).
Qed.

Lemma framed_wf id n pad e l buf after : framed id n pad e l buf after -> wf_bytes buf -> wf_bytes l.
Proof.
  induction 1; rewrite !wf_bytes_app; [by intros (? & _) |]. intros (? & _ & _ & ?). split; auto.
Qed.

(** A whole block. *)
Lemma block_whole c l buf after s limit w : inside c l buf after -> wf_bytes l -> l <> [] -> ready c s limit w ->
  field_mem mem = true -> name_mem mem = true -> value_mem mem = true -> granted (table_mem mem) = true ->
  block_ends header_block c buf after (decode_block s limit w l).
Proof.
  intros Hin Hwl Hl Hready Hmem Hnm Hvm Hg.
  pose proof (block_end c l buf after s limit w Hin Hwl Hl Hready Hmem Hnm Hvm Hg) as Hfield.
  assert (Hdb : decode_block s limit w l = match decode_field s limit w l with
    | Good s limit w l' => decode_fields (pred (length l)) s limit w l' | r => r end) by (by destruct l).
  rewrite Hdb. destruct (decode_field s limit w l) as [s' limit' w' l' | |]; [| done | done].
  destruct Hfield as (c2 & buf2 & Hr2 & Hin2 & Hready2 & Hw2 & Hlt).
  eapply block_ends_reach; [done |]. apply fields_end; try done. lia.
Qed.

(** What one read comes to. *)
Lemma read_block_ends c buf after s limit w d r : name_mem mem = true -> value_mem mem = true ->
  granted (table_mem mem) = true -> valid c -> wf_bytes buf -> ready c s limit w ->
  block_ends header_block c buf after d -> ngx_http_v2_read header_block c [] buf = Some r -> block_result d after r.
Proof.
  intros Hnm Hvm Hg Hv Hw Hready Hend Hr.
  assert (Hall : forall P, ends header_block c buf P -> P r).
  { intros P (m & r' & Hr' & HP). rewrite (read_run header_block c [] buf m r' ltac:(done) Hv Hw Hr') in Hr.
    by injection Hr as <-. }
  destruct d as [s' limit' w' l' | | w']; [by apply Hall in Hend | by apply Hall in Hend |].
  destruct Hend as (h' & c' & buf' & [k Hk] & Hg').
  assert (Hsafe : r <> Crashed).
  { destruct Hready as (_ & _ & Hf & Ht & _). apply (run_safe _ header_block c buf r Hnm Hvm Hg ltac:(done) Hv Hw) in Hr; [done |].
    split; [by exists s | done]. }
  assert (Hgone : match r with Complete c _ | Paused _ c _ => gone w' c | _ => True end).
  { eapply run_gone; [exact Hg' |]. rewrite <- Hk. eapply run_mono; [exact Hr |]. apply Nat.le_add_l. }
  by destruct r.
Qed.

(** ** Theorems *)

(** C16. The parts in which the bytes of a header block are read do not matter: any
    sequence of reads ends as one read of all the bytes does, in every state and for
    every block, good or bad, and it does end.  Only the length of the last frame,
    which nothing looks at, may differ. *)
Theorem header_block_parts h c saved d ds :
  h <> frame_head -> valid c -> wf_bytes saved -> Forall (fun d => d <> [] /\ wf_bytes d) (d :: ds) ->
  same_result (reads h c saved (d :: ds)) (ngx_http_v2_read h c saved (d ++ concat ds)) /\
  exists r, ngx_http_v2_read h c saved (d ++ concat ds) = Some r.
Proof.
  intros Hh Hv Hs Hd. split; [by apply reads_concat |]. apply read_total; [done | done |].
  apply wf_bytes_app. split; [done | exact (wf_concat _ Hd)].
Qed.

(** C15. A header block is read for what it says, as long as the allocator gives what
    is asked for.  The block comes in any number of HEADERS and CONTINUATION frames,
    cut anywhere, the first with or without padding, and the frames come in any
    reads; the last frame of several is not an empty one after which nothing came,
    which the code does not look at ([empty_continuation_waits]).  A block that is
    right and whose headers the request keeps: it gets them in their order and is
    run, the table becomes the table of the RFC, and the bytes after the block are
    left.  A block that is wrong closes the connection.  When the request drops out
    at one of its headers, it stays as that header left it: it gets no more headers
    and is not run, while nothing is said of the rest of the block but that no
    access goes wrong.  No string overruns its memory in any of these cases. *)
Theorem header_block_decoded c l after s limit w d ds :
  inside c l (d ++ concat ds) after -> l <> [] -> ready c s limit w -> 0 <= field_rest (fl c) ->
  field_mem mem = true -> name_mem mem = true -> value_mem mem = true -> granted (table_mem mem) = true ->
  Forall (fun d => d <> [] /\ wf_bytes d) (d :: ds) ->
  exists r, reads header_block c [] (d :: ds) = Some r /\ block_result (decode_block s limit w l) after r.
Proof.
  intros Hin Hl Hready Hrest Hmem Hnm Hvm Hg Hd. pose proof (wf_concat _ Hd) as Hw. cbn [concat] in Hw.
  pose proof (framed_wf _ _ _ _ _ _ _ Hin Hw) as Hwl.
  pose proof (framed_nonneg _ _ _ _ _ _ _ Hin) as (Hn & Hp & _).
  assert (Hv : valid c) by (by split_and!).
  pose proof (reads_concat header_block c [] d ds ltac:(done) Hv ltac:(constructor) Hd) as Hsame.
  set (buf := d ++ concat ds) in *.
  destruct (read_total header_block c [] buf ltac:(done) Hv Hw) as [r0 Hr0].
  pose proof (block_whole c l buf after s limit w Hin Hwl Hl Hready Hmem Hnm Hvm Hg) as Hend.
  pose proof (read_block_ends c buf after s limit w _ r0 Hnm Hvm Hg Hv Hw Hready Hend Hr0) as Hres.
  rewrite Hr0 in Hsame. destruct Hsame as [-> | (c' & f & q & -> & E)]; [by exists r0 |].
  exists (Complete c' q). split; [done |]. injection E as ->. destruct (decode_block s limit w l); simpl in *; [| by destruct Hres | done].
  destruct Hres as (c2 & [= <- <-] & H1 & H2 & H3 & H4). exists c'. by split_and!.
Qed.

End handlers.

(** ** Witnesses *)

(** A request that collects its headers. *)
Definition collect (w : list header) (hd : header) : list header * verdict := (w ++ [hd], Kept).

Definition all_granted : answers := Answers true true true plenty.

(** A connection at a HEADERS frame of the stream 1 with [n] bytes of a block and [k]
    of padding. *)
Definition sample (n k flags : Z) (stream : bool) : conn (list header) :=
  Conn (Frame 1 n k flags) (Mode false false false) (Field 0 [] 0 0) (Header [] []) 1000 stream 0 hpack_init [].

(** [:method: GET], [:authority: a] with indexing, in a padded frame and a
    CONTINUATION frame. *)
Definition sample_block : list Z := [0x82; 0x41; 0x01; 0x61].
Definition sample_bytes : list Z :=
  [0x82; 0x41; 0x01] ++ [0; 0] ++ [0; 0; 1; 9; 4; 0; 0; 0; 1] ++ [0x61; 7].
Definition sample_headers : list header :=
  [Header (bs ":method") (bs "GET"); Header (bs ":authority") (bs "a")].

Lemma sample_inside : inside (sample 3 2 0 true) sample_block sample_bytes [7].
Proof.
  apply (framed_more 1 [0x82; 0x41; 0x01] [0; 0] [0; 0; 1; 9; 4; 0; 0; 0; 1] 265 4 1 [0x61] [0x61; 7] [7]);
    try reflexivity; [done |]. apply (framed_last 1 [0x61] [] [7]).
Qed.

Lemma header_block_decoded_witness :
  decode_block collect all_granted 100 (false, table_init) 1000 [] sample_block
  = Good (true, table_add table_init (Header (bs ":authority") (bs "a"))) 979 sample_headers [] /\
  exists r, reads collect (fun w => w) all_granted 100 header_block (sample 3 2 0 true) []
      [[0x82; 0x41]; drop 2 sample_bytes] = Some r /\
    block_result (fun w => w) (decode_block collect all_granted 100 (false, table_init) 1000 [] sample_block) [7] r.
Proof.
  split; [vm_compute; reflexivity |].
  apply (header_block_decoded collect (fun w => w) all_granted 100 (sample 3 2 0 true) sample_block [7]
           (false, table_init) 1000 [] [0x82; 0x41] [drop 2 sample_bytes]);
    [exact sample_inside | easy | | easy | easy | easy | easy | vm_compute; reflexivity |].
  - split_and!; try reflexivity. exact init_tracks.
  - repeat constructor; easy.
Defined.

Lemma header_block_parts_witness :
  exists r, ngx_http_v2_read collect (fun w => w) all_granted 100 header_block (sample 3 2 0 true) []
    ([0x82; 0x41] ++ concat [drop 2 sample_bytes]) = Some r.
Proof.
  refine (proj2 (header_block_parts collect (fun w => w) all_granted 100 header_block (sample 3 2 0 true) []
    [0x82; 0x41] [drop 2 sample_bytes] _ _ _ _)).
  - easy.
  - split_and!; easy.
  - constructor.
  - repeat constructor; easy.
Defined.

(** A request that takes one header and drops out at the next. *)
Definition picky (w : list header) (hd : header) : list header * verdict :=
  match w with [] => ([hd], Kept) | _ => (w, Dropped) end.

Example second_header_drops :
  let h := Header (bs ":method") (bs "GET") in
  decode_block picky all_granted 100 (false, table_init) 1000 [] sample_block = Lost [h] /\
  exists c, ngx_http_v2_read picky (fun w => []) all_granted 100 header_block (sample 3 2 0 true) [] sample_bytes
    = Some (Complete c [7]) /\ stream c = false /\ world c = [h].
Proof. split; [vm_compute; reflexivity | eexists; split; [vm_compute; reflexivity | done]]. Qed.

(** A block that ends with an empty CONTINUATION frame, with nothing after it, is not
    finished: the handler that would finish it waits for another byte. *)
Remark empty_continuation_waits :
  exists c, ngx_http_v2_read collect (fun w => w) all_granted 100 header_block (sample 8 0 0 true) []
      ([0; 1; 0x61; 4; 0x62; 0x63; 0x64; 0x65] ++ [0; 0; 0; 9; 4; 0; 0; 0; 1]) = Some (Paused header_complete c []) /\
    end_headers c = true /\ len (fr c) = 0 /\ world c = [Header (bs "a") (bs "bcde")].
Proof. eexists. split; [vm_compute; reflexivity | done]. Qed.

(** A new name that is skipped, for a stream that is no more, takes the length of
    the string before it: when that was empty, the connection is closed for an empty
    name. *)
Remark skipped_name_refused :
  ngx_http_v2_read collect (fun w => w) all_granted 100 header_block
    (sample 5 0 NGX_HTTP_V2_END_HEADERS_FLAG false) [] [0; 1; 0x61; 1; 0x62]
  = Some (Closed NGX_HTTP_V2_PROTOCOL_ERROR) /\
  exists c, ngx_http_v2_read collect (fun w => w) all_granted 100 header_block
    (sample 5 0 NGX_HTTP_V2_END_HEADERS_FLAG true) [] [0; 1; 0x61; 1; 0x62] = Some (Complete c []).
Proof. split; [vm_compute; reflexivity | eexists; vm_compute; reflexivity]. Qed.

End H2Block.
