(* ===== verification/QuicBuffer.v ===== *)
(** * QuicBuffer: the buffers of QUIC streams (src/event/quic/ngx_event_quic_frames.c)

    A stream buffer takes the bytes of a stream at any offsets and gives them back in
    order.  It is a chain of pieces of blocks of 4096 bytes, filled ones and holes; a
    piece is split by making a second one on the same block, and a block is free
    again when all its pieces are.

    A block is a row of the memory; a chain is the list of its links, each with its
    address, so that [last_chain], a pointer into the chain, is an address.  What
    the allocator answers is a function of how often it was asked.  Offsets are
    62-bit numbers in the protocol, and no sum of them wraps. *)

From S2P Require Import Prelude.
From stdpp Require Import base option list sets.

#[local] Open Scope Z_scope.

Module QuicBuffer.

(** ** Definitions *)

Definition NGX_QUIC_BUFFER_SIZE : Z := 4096.

(** [ngx_buf_t]: the block it is a piece of ([shadow]), whether it is the structure
    that counts the pieces of the block ([own]), the piece, and the flag of a
    hole. *)
Record buf : Set := Buf { shadow : nat; own : bool; pos : Z; last : Z; sync : bool }.

(** [ngx_chain_t], at its address. *)
Record link : Set := Link { addr : nat; lbuf : buf }.

(** [ngx_quic_buffer_t] *)
Record qbuf : Set := Qbuf {
  qsize : Z; qoffset : Z; last_offset : Z; qchain : list link; last_chain : option nat }.

Definition qbuf_zero : qbuf := Qbuf 0 0 0 [] None.

(** A buffer that is written to the stream: [pos] moves over its bytes. *)
Record input : Set := Input { in_memory : bool; data : list Z }.

(** The memory of the connection: the bytes of the blocks, the numbers of their
    pieces, the free blocks, the number of free structures, and what tells new
    blocks, links and questions to the allocator apart. *)
Record pool : Type := Pool {
  cell : nat -> Z -> Z; refs : nat -> Z; free_bufs : list nat; free_shadow_bufs : nat;
  blocks : nat; links : nat; asked : nat }.

Definition set_cell f (p : pool) : pool :=
  Pool f (refs p) (free_bufs p) (free_shadow_bufs p) (blocks p) (links p) (asked p).
Definition set_refs (k : nat) (n : Z) (p : pool) : pool :=
  Pool (cell p) (fun k' => if (k' =? k)%nat then n else refs p k') (free_bufs p) (free_shadow_bufs p)
    (blocks p) (links p) (asked p).
Definition set_free l (p : pool) : pool :=
  Pool (cell p) (refs p) l (free_shadow_bufs p) (blocks p) (links p) (asked p).
Definition set_shadows n (p : pool) : pool :=
  Pool (cell p) (refs p) (free_bufs p) n (blocks p) (links p) (asked p).
Definition new_block (p : pool) : pool :=
  Pool (cell p) (refs p) (free_bufs p) (free_shadow_bufs p) (S (blocks p)) (links p) (asked p).
Definition new_link (p : pool) : pool :=
  Pool (cell p) (refs p) (free_bufs p) (free_shadow_bufs p) (blocks p) (S (links p)) (asked p).
Definition ask (p : pool) : pool :=
  Pool (cell p) (refs p) (free_bufs p) (free_shadow_bufs p) (blocks p) (links p) (S (asked p)).

Definition set_pos n (b : buf) : buf := Buf (shadow b) (own b) n (last b) (sync b).
Definition set_last n (b : buf) : buf := Buf (shadow b) (own b) (pos b) n (sync b).
Definition set_sync x (b : buf) : buf := Buf (shadow b) (own b) (pos b) (last b) x.

Definition blen (b : buf) : Z := last b - pos b.

Section operations.

Context (grant : nat -> bool).

Implicit Types (p : pool) (b : buf).

Definition ngx_palloc p : bool * pool := (grant (asked p), ask p).

(** A structure for a buffer, from [free_shadow_bufs] or from the pool. *)
Definition take_shadow p : bool * pool :=
  match free_shadow_bufs p with
  | S n => (true, set_shadows n p)
  | O => ngx_palloc p
  end.

Definition ngx_quic_alloc_buf p : option buf * pool :=
  match free_bufs p with
  | k :: ks => (Some (Buf k true 0 0 false), set_refs k 1 (set_free ks p))
  | [] =>
      let '(ok, p) := take_shadow p in
      if negb ok then (None, p)
      else
        let '(ok, p) := ngx_palloc p in
        if negb ok then (None, p)
        else (Some (Buf (blocks p) true 0 0 false), set_refs (blocks p) 1 (new_block p))
  end.

Definition ngx_quic_free_buf p b : pool :=
  let k := shadow b in
  let p := set_refs k (refs p k - 1) p in
  let p := if refs p k =? 0 then set_free (k :: free_bufs p) p else p in
  if own b then p else set_shadows (S (free_shadow_bufs p)) p.

Definition ngx_quic_clone_buf p b : option buf * pool :=
  let '(ok, p) := take_shadow p in
  if negb ok then (None, p)
  else
    (Some (Buf (shadow b) false (pos b) (last b) (sync b)), set_refs (shadow b) (refs p (shadow b) + 1) p).

(** [ngx_alloc_chain_link] *)
Definition alloc_chain_link p : option nat * pool :=
  let '(ok, p) := ngx_palloc p in
  if negb ok then (None, p) else (Some (links p), new_link p).

(** The link [l] becomes two. *)
Definition ngx_quic_split_chain p (l : link) (offset : Z) : option (link * link) * pool :=
  let '(tail, p) := alloc_chain_link p in
  match tail with
  | None => (None, p)
  | Some a =>
      let '(tb, p) := ngx_quic_clone_buf p (lbuf l) in
      match tb with
      | None => (None, p)
      | Some tb =>
          let tb := set_pos (pos tb + offset) tb in
          (Some (Link (addr l) (set_last (pos tb) (lbuf l)), Link a tb), p)
      end
  end.

Fixpoint ngx_quic_free_chain p (l : list link) : pool :=
  match l with
  | [] => p
  | x :: t => ngx_quic_free_chain (ngx_quic_free_buf p (lbuf x)) t
  end.

Definition ngx_quic_alloc_chain p : option link * pool :=
  let '(a, p) := alloc_chain_link p in
  match a with
  | None => (None, p)
  | Some a =>
      let '(b, p) := ngx_quic_alloc_buf p in
      match b with
      | None => (None, p)
      | Some b => (Some (Link a b), p)
      end
  end.

(** [ngx_memcpy] to the block [k], which has to have room. *)
Definition copy_bytes (k : nat) (q : Z) (d : list Z) p : option pool :=
  let n := Z.of_nat (length d) in
  if (0 <=? q) && (q + n <=? NGX_QUIC_BUFFER_SIZE) then
    Some (set_cell (fun k' x => if (k' =? k)%nat && (q <=? x) && (x <? q + n)
                                then nth (Z.to_nat (x - q)) d 0 else cell p k' x) p)
  else None.

(** The loop over the links in [ngx_quic_read_buffer]: the links it takes, the ones
    it leaves and [qb->offset].  The turn that follows a split stops at once, as
    there is nothing left of the limit. *)
Fixpoint read_loop p (l : list link) (limit offset : Z) : option (list link * list link) * Z * pool :=
  match l with
  | [] => (Some ([], []), offset, p)
  | x :: t =>
      if sync (lbuf x) then (Some ([], l), offset, p)
      else if limit =? 0 then (Some ([], l), offset, p)
      else
        let n := blen (lbuf x) in
        if limit <? n then
          let '(r, p) := ngx_quic_split_chain p x limit in
          match r with
          | None => (None, offset, p)
          | Some (x, y) => (Some ([x], y :: t), offset + limit, p)
          end
        else
          let '(r, offset, p) := read_loop p t (limit - n) (offset + n) in
          (option_map (fun r => (x :: r.1, r.2)) r, offset, p)
  end.

(** The position of the last write is forgotten when it is behind. *)
Definition drop_last (qb : qbuf) : qbuf :=
  if last_offset qb <=? qoffset qb then
    Qbuf (qsize qb) (qoffset qb) (last_offset qb) (qchain qb) None
  else qb.

(** [None] for the chain is [NGX_CHAIN_ERROR]. *)
Definition ngx_quic_read_buffer p (qb : qbuf) (limit : Z) : option (list link) * qbuf * pool :=
  let '(r, offset, p) := read_loop p (qchain qb) limit (qoffset qb) in
  match r with
  | None => (None, Qbuf (qsize qb) offset (last_offset qb) (qchain qb) (last_chain qb), p)
  | Some (out, rest) => (Some out, drop_last (Qbuf (qsize qb) offset (last_offset qb) rest (last_chain qb)), p)
  end.

Fixpoint skip_loop p (l : list link) (at' offset : Z) : list link * Z * pool :=
  match l with
  | [] => ([], at', p)
  | x :: t =>
      if offset <=? at' then (l, at', p)
      else
        let b := lbuf x in
        let n := blen b in
        if offset <? at' + n then
          (Link (addr x) (set_pos (pos b + (offset - at')) b) :: t, offset, p)
        else skip_loop (ngx_quic_free_buf p b) t (at' + n) offset
  end.

Definition ngx_quic_skip_buffer p (qb : qbuf) (offset : Z) : qbuf * pool :=
  let '(l, at', p) := skip_loop p (qchain qb) (qoffset qb) offset in
  let at' := match l with [] => offset | _ => at' end in
  (drop_last (Qbuf (qsize qb) at' (last_offset qb) l (last_chain qb)), p).

Definition ngx_quic_free_buffer p (qb : qbuf) : qbuf * pool :=
  (Qbuf (qsize qb) (qoffset qb) (last_offset qb) [] None, ngx_quic_free_chain p (qchain qb)).

(** What changes during a write besides the chain: [in], [offset], [limit] and
    [qb->size]. *)
Record todo : Set := Todo { ins : list input; woff : Z; limit : Z; wsize : Z }.

Definition exhausted (w : list input) : bool := match w with [] => true | _ => false end.

(** The inner loop of [ngx_quic_write_buffer], from [q] on in the buffer [b].  A
    buffer of [in] that is not used up ends it: [b] is full or the limit is reached. *)
Fixpoint fill b (q : Z) (l : list input) (off lim size : Z) p : option (Z * todo * pool) :=
  match l with
  | [] => Some (q, Todo [] off lim size, p)
  | Input m d :: t =>
      if negb m || (length d =? 0)%nat then fill b q t off lim size p
      else if (q =? last b) || (lim =? 0) then Some (q, Todo l off lim size, p)
      else
        let n := Z.min (Z.min (last b - q) (Z.of_nat (length d))) lim in
        p' ← (if sync b then copy_bytes (shadow b) q (take (Z.to_nat n) d) p else Some p);
        let size := if sync b then size + n else size in
        if n =? Z.of_nat (length d) then fill b (q + n) t (off + n) (lim - n) size p'
        else Some (q + n, Todo (Input m (drop (Z.to_nat n) d) :: t) (off + n) (lim - n) size, p')
  end.

(** The bytes of [in] that were read from the stream before. *)
Definition pass_input (w : todo) (base : Z) : todo :=
  match ins w with
  | [] => w
  | Input m d :: t =>
      let n := Z.min (Z.of_nat (length d)) (Z.min (base - woff w) (limit w)) in
      let d := drop (Z.to_nat n) d in
      Todo (match d with [] => t | _ => Input m d :: t end) (woff w + n) (limit w - n) (wsize w)
  end.

(** The end of a write: whether memory was there, the links before [*chain], those
    from it on, [base], and the rest. *)
Record written : Type := Written {
  ok : bool; before : list link; after : list link; wbase : Z; left_todo : todo; wpool : pool }.

(** The link that the outer loop works on; at the end of the chain, a new hole. *)
Definition current_link (post : list link) p : option (link * list link) * pool :=
  match post with
  | x :: t => (Some (x, t), p)
  | [] =>
      let '(r, p) := ngx_quic_alloc_chain p in
      match r with
      | None => (None, p)
      | Some x =>
          (Some (Link (addr x) (set_sync true (set_last NGX_QUIC_BUFFER_SIZE (lbuf x))), []), p)
      end
  end.

(** One turn of the outer loop. *)
Inductive turn : Type :=
  | Again (pre post : list link) (base : Z) (w : todo) (p : pool)
  | NoMemory (pre post : list link) (w : todo) (p : pool)
  | Wild.

Definition write_turn (pre post : list link) (base : Z) (w : todo) p : turn :=
  if woff w <? base then Again pre post base (pass_input w base) p
  else
    let '(r, p) := current_link post p in
    match r with
    | None => NoMemory pre post w p
    | Some (x, t) =>
        let b := lbuf x in
        let n := blen b in
        if base + n <=? woff w then Again (x :: pre) t (base + n) w p
        else if sync b && (base <? woff w) then
          let '(r, p) := ngx_quic_split_chain p x (woff w - base) in
          match r with
          | None => NoMemory pre (x :: t) w p
          | Some (x, y) => Again pre (x :: y :: t) base w p
          end
        else
          match fill b (pos b + (woff w - base)) (ins w) (woff w) (limit w) (wsize w) p with
          | None => Wild
          | Some (q, w, p) =>
              if sync b && (q =? last b) then Again pre (Link (addr x) (set_sync false b) :: t) base w p
              else if sync b && negb (q =? pos b) then
                let '(r, p) := ngx_quic_split_chain p x (q - pos b) in
                match r with
                | None => NoMemory pre (x :: t) w p
                | Some (x, y) =>
                    Again pre (Link (addr x) (set_sync false (lbuf x)) :: y :: t) base w p
                end
              else Again pre (x :: t) base w p
          end
    end.

Fixpoint write_loop (fuel : nat) (pre post : list link) (base : Z) (w : todo) p : option written :=
  if exhausted (ins w) || (limit w =? 0) then Some (Written true pre post base w p)
  else
    match fuel with
    | O => None
    | S fuel =>
        match write_turn pre post base w p with
        | Again pre post base w p => write_loop fuel pre post base w p
        | NoMemory pre post w p => Some (Written false pre post base w p)
        | Wild => None
        end
    end.

(** The links before the one at the address [a], last one first, and the rest. *)
Fixpoint find_link (a : nat) (pre l : list link) : option (list link * list link) :=
  match l with
  | [] => None
  | x :: t => if (addr x =? a)%nat then Some (pre, l) else find_link a (x :: pre) t
  end.

Definition input_bytes (l : list input) : list Z := concat (map data l).

(** A turn of the loop passes a byte of the chain or of the input, uses up an input
    buffer, or splits a link, and the next one passes the split link. *)
Definition write_fuel (base : Z) (w : todo) : nat :=
  let n := Z.min (limit w) (Z.of_nat (length (input_bytes (ins w)))) in
  length (ins w) + Z.to_nat (base - woff w) + 3 * Z.to_nat (woff w + n - base) + 3.

(** The buffers of [in] that are left, or [NGX_CHAIN_ERROR]; the outer [None] is an
    access to memory that is not there. *)
Definition ngx_quic_write_buffer p (qb : qbuf) (l : list input) (lim offset : Z)
    : option (option (list input) * qbuf * pool) :=
  '(pre, post, base) ←
    match last_chain qb with
    | Some a =>
        if last_offset qb <=? offset then
          '(pre, post) ← find_link a [] (qchain qb); Some (pre, post, last_offset qb)
        else Some ([], qchain qb, qoffset qb)
    | None => Some ([], qchain qb, qoffset qb)
    end;
  let w := Todo l offset lim (qsize qb) in
  r ← write_loop (write_fuel base w) pre post base w p;
  let chain := rev_append (before r) (after r) in
  if ok r then
    Some (Some (ins (left_todo r)),
      Qbuf (wsize (left_todo r)) (qoffset qb) (wbase r) chain (addr <$> head (after r)), wpool r)
  else
    Some (None, Qbuf (wsize (left_todo r)) (qoffset qb) (last_offset qb) chain (last_chain qb), wpool r).

Definition ngx_quic_copy_buffer p (d : list Z) : option (option (list link) * pool) :=
  '(r, qb, p) ← ngx_quic_write_buffer p qbuf_zero [Input true d] (Z.of_nat (length d)) 0;
  match r with
  | None => Some (None, p)
  | Some _ =>
      let '(out, qb, p) := ngx_quic_read_buffer p qb (Z.of_nat (length d)) in
      match out with
      | None => Some (None, p)
      | Some out => Some (Some out, (ngx_quic_free_buffer p qb).2)
      end
  end.

(** ** What a chain holds *)

Abbreviation bufs := (map lbuf).

Fixpoint total (l : list buf) : Z :=
  match l with [] => 0 | b :: t => blen b + total t end.

(** The bytes that were written. *)
Fixpoint filled (l : list buf) : Z :=
  match l with [] => 0 | b :: t => (if sync b then 0 else blen b) + filled t end.

(** The byte of the stream at [x], if it was written, when the chain begins at
    [base]. *)
Fixpoint view (c : nat -> Z -> Z) (base : Z) (l : list buf) (x : Z) : option Z :=
  match l with
  | [] => None
  | b :: t =>
      if x <? base + blen b then
        if sync b then None else Some (c (shadow b) (pos b + (x - base)))
      else view c (base + blen b) t x
  end.

(** How many pieces hold the byte [x] of the block [k], and how many are on [k]. *)
Definition covers (b : buf) (k : nat) (x : Z) : bool :=
  (shadow b =? k)%nat && (pos b <=? x) && (x <? last b).

Fixpoint cover (l : list buf) (k : nat) (x : Z) : Z :=
  match l with [] => 0 | b :: t => (if covers b k x then 1 else 0) + cover t k x end.

Fixpoint pieces (l : list buf) (k : nat) : Z :=
  match l with [] => 0 | b :: t => (if (shadow b =? k)%nat then 1 else 0) + pieces t k end.

Definition good p b : Prop := 0 <= pos b < last b /\ last b <= NGX_QUIC_BUFFER_SIZE /\ (shadow b < blocks p)%nat.

(** The pieces in use, [l], are apart, and the counts and the free list agree with
    them. *)
Record wf p (l : list buf) : Prop := {
  wf_good : Forall (good p) l;
  wf_cover k x : cover l k x <= 1;
  wf_refs k : refs p k = pieces l k;
  wf_nodup : NoDup (free_bufs p);
  wf_free : Forall (fun k => pieces l k = 0 /\ (k < blocks p)%nat) (free_bufs p) }.

(** The pieces in [l] hold the same bytes. *)
Definition stable (l : list buf) p p' : Prop :=
  Forall (fun b => forall x, pos b <= x < last b -> cell p' (shadow b) x = cell p (shadow b) x) l.

(** The bytes [d] from [off] on. *)
Definition lay (d : list Z) (off x : Z) : option Z :=
  if off <=? x then d !! Z.to_nat (x - off) else None.

Definition first_of (a b : option Z) : option Z := match a with Some _ => a | None => b end.

(** ** Lemmas: pieces *)

#[export] Instance cover_perm : Proper (Permutation ==> eq ==> eq ==> eq) cover.
Proof. intros l l' P k ? <- x ? <-. induction P; cbn; lia. Qed.

#[export] Instance pieces_perm : Proper (Permutation ==> eq ==> eq) pieces.
Proof. intros l l' P k ? <-. induction P; cbn; lia. Qed.

Lemma wf_perm p l l' : Permutation l l' -> wf p l -> wf p l'.
Proof.
  intros P [Hg Hc Hr Hn Hf]. split.
  - by rewrite <- P.
  - intros k x. by rewrite <- P.
  - intros k. by rewrite <- P.
  - done.
  - eapply Forall_impl; [exact Hf |]. intros k. cbn. by rewrite P.
Qed.

#[export] Instance wf_proper p : Proper (Permutation ==> iff) (wf p).
Proof. intros l l' P. split; apply wf_perm; [done | by symmetry]. Qed.

Lemma cover_app l1 l2 k x : cover (l1 ++ l2) k x = cover l1 k x + cover l2 k x.
Proof. induction l1; cbn; lia. Qed.

Lemma pieces_app l1 l2 k : pieces (l1 ++ l2) k = pieces l1 k + pieces l2 k.
Proof. induction l1; cbn; lia. Qed.

Lemma cover_nonneg l k x : 0 <= cover l k x.
Proof. induction l; cbn; [lia | case_match; lia]. Qed.

Lemma pieces_nonneg l k : 0 <= pieces l k.
Proof. induction l; cbn; [lia | case_match; lia]. Qed.

Lemma total_bufs_app l1 l2 : total (l1 ++ l2) = total l1 + total l2.
Proof. induction l1; cbn; lia. Qed.

Lemma filled_app l1 l2 : filled (l1 ++ l2) = filled l1 + filled l2.
Proof. induction l1; cbn; lia. Qed.

Lemma total_nonneg p l : Forall (good p) l -> 0 <= total l.
Proof. induction 1 as [|b l [? _] _ IH]; cbn; [done |]. unfold blen. lia. Qed.

Lemma view_app c base l1 l2 x : 0 <= total l1 -> base <= x -> Forall (fun b => 0 <= blen b) l1 ->
  view c base (l1 ++ l2) x = if x <? base + total l1 then view c base l1 x else view c (base + total l1) l2 x.
Proof.
  revert base. induction l1 as [|b l1 IH]; intros base Ht Hx F; cbn in *.
  - rewrite Z.add_0_r. case_match; [lia | done].
  - apply Forall_cons in F as [Hb F]. assert (0 <= total l1) by (clear -F; induction F; cbn; lia).
    rewrite Z.add_assoc. destruct (x <? base + blen b) eqn:E1.
    + destruct (Z.ltb_spec x (base + blen b + total l1)); [done | lia].
    + rewrite IH by (done || lia). done.
Qed.

Lemma view_beyond c base l x : base + total l <= x -> Forall (fun b => 0 <= blen b) l -> view c base l x = None.
Proof.
  revert base. induction l as [|b l IH]; intros base Hx F; cbn in *; [done |].
  apply Forall_cons in F as [Hb F]. assert (0 <= total l) by (clear -F; induction F; cbn; lia).
  case_match; [lia |]. apply IH; [lia | done].
Qed.

Lemma view_stable p p' base l x : base <= x -> stable l p p' -> view (cell p') base l x = view (cell p) base l x.
Proof.
  revert base. induction l as [|b l IH]; intros base Hx F; cbn; [done |].
  apply Forall_cons in F as [Hb F]. unfold blen. case_match; [| apply IH; [lia | done]].
  case_match; [done |]. rewrite Hb; [done | lia].
Qed.

Lemma stable_refl l p : stable l p p.
Proof. apply Forall_forall. done. Qed.

Lemma stable_trans l p1 p2 p3 : stable l p1 p2 -> stable l p2 p3 -> stable l p1 p3.
Proof.
  intros H1 H2. apply Forall_forall. intros b Hb x Hx. unfold stable in *. rewrite Forall_forall in H1, H2.
  rewrite (H2 b Hb x Hx). by apply H1.
Qed.

Lemma stable_cell l p p' : cell p' = cell p -> stable l p p'.
Proof. intros E. apply Forall_forall. intros b _ x _. by rewrite E. Qed.

(** What is written inside a piece leaves the other pieces alone. *)
Lemma stable_other b l p p' : wf p (b :: l) ->
  (forall k x, covers b k x = false -> cell p' k x = cell p k x) -> stable l p p'.
Proof.
  intros [_ Hc _ _ _] Hsame. apply Forall_forall. intros b' Hb' x Hx. apply Hsame.
  specialize (Hc (shadow b') x). cbn in Hc. destruct (covers b (shadow b') x); [| done].
  apply list_elem_of_split in Hb' as (l1 & l2 & ->). rewrite cover_app in Hc. cbn in Hc.
  assert (covers b' (shadow b') x = true) as E.
  { unfold covers. rewrite Nat.eqb_refl. lia. }
  rewrite E in Hc. pose proof (cover_nonneg l1 (shadow b') x). pose proof (cover_nonneg l2 (shadow b') x). lia.
Qed.

(** ** Lemmas: memory *)

(** What no operation but a write changes. *)
Definition quiet p p' : Prop :=
  cell p' = cell p /\ (blocks p <= blocks p')%nat /\ (links p <= links p')%nat.

Definition refused : Prop := exists k, grant k = false.

Lemma quiet_refl p : quiet p p.
Proof. done. Qed.

Lemma quiet_trans p1 p2 p3 : quiet p1 p2 -> quiet p2 p3 -> quiet p1 p3.
Proof. intros (? & ? & ?) (? & ? & ?). split_and!; [congruence | lia | lia]. Qed.

Lemma palloc_result p ok' p' : ngx_palloc p = (ok', p') -> p' = ask p /\ (ok' = false -> refused).
Proof. intros [= <- <-]. split; [done |]. intros ?. by eexists. Qed.

Lemma take_shadow_result p ok' p' : take_shadow p = (ok', p') ->
  quiet p p' /\ blocks p' = blocks p /\ links p' = links p /\ refs p' = refs p /\ free_bufs p' = free_bufs p /\
  (ok' = false -> refused).
Proof.
  unfold take_shadow. destruct (free_shadow_bufs p).
  - intros (-> & ?)%palloc_result. by split_and!.
  - intros [= <- <-]. by split_and!.
Qed.

(** The well-formedness only looks at the blocks. *)
Lemma wf_same p p' l : blocks p' = blocks p -> refs p' = refs p -> free_bufs p' = free_bufs p ->
  wf p l -> wf p' l.
Proof.
  intros Eb Er Ef [Hg Hc Hr Hn Hf]. split.
  - eapply Forall_impl; [exact Hg |]. unfold good. lia.
  - done.
  - by rewrite Er.
  - by rewrite Ef.
  - rewrite Ef. eapply Forall_impl; [exact Hf |]. intros k (? & ?). split; [done | lia].
Qed.

(** A block that nobody uses is taken. *)
Lemma wf_take_block p l k free b p' : wf p l -> pieces l k = 0 -> (blocks p <= blocks p')%nat -> (k < blocks p')%nat ->
  free_bufs p' = free -> NoDup free -> (forall j, j ∈ free -> j ∈ free_bufs p /\ j <> k) ->
  (forall j, refs p' j = if (j =? k)%nat then 1 else refs p j) ->
  shadow b = k -> good p' b -> wf p' (b :: l).
Proof.
  intros [Hg Hc Hr Hn Hf] Hk Hblocks Hlt Efree Hnd Hsub Hrefs Eb Hgood. split.
  - constructor; [done |]. eapply Forall_impl; [exact Hg |]. unfold good. lia.
  - intros j x. cbn. specialize (Hc j x). destruct (covers b j x) eqn:E; [| lia].
    unfold covers in E. assert (j = k) as -> by lia.
    enough (cover l k x = 0) by lia. clear -Hk. pose proof (pieces_nonneg l k).
    induction l as [|b l IH]; cbn in *; [done |]. pose proof (pieces_nonneg l k).
    unfold covers. destruct (shadow b =? k)%nat; cbn; [lia |]. apply IH; lia.
  - intros j. rewrite Hrefs. cbn. rewrite Eb. specialize (Hr j).
    rewrite (Nat.eqb_sym k j). destruct (Nat.eqb_spec j k) as [-> |]; lia.
  - by rewrite Efree.
  - rewrite Efree. apply Forall_forall. intros j Hin. destruct (Hsub j Hin) as [Hj Hne].
    rewrite Forall_forall in Hf. apply Hf in Hj as [Hp Hj]. split; [| lia]. cbn. rewrite Eb. destruct (Nat.eqb_spec k j); [congruence | lia].
Qed.

Lemma alloc_buf_spec p l r p' : wf p l -> ngx_quic_alloc_buf p = (r, p') ->
  quiet p p' /\ links p' = links p /\
  match r with
  | Some b => b = Buf (shadow b) true 0 0 false /\
      forall n x, 0 < n <= NGX_QUIC_BUFFER_SIZE -> wf p' (set_sync x (set_last n b) :: l)
  | None => refused /\ wf p' l
  end.
Proof.
  intros Hw. unfold ngx_quic_alloc_buf. destruct (free_bufs p) as [|k ks] eqn:E.
  - destruct (take_shadow p) as [ok1 p1] eqn:E1. apply take_shadow_result in E1 as (Hq & Eb & El & Er & Ef & Hno).
    assert (Hw1 : wf p1 l) by (by eapply wf_same). destruct ok1; cbn [negb]; [| intros [= <- <-]; auto].
    destruct (ngx_palloc p1) as [ok2 p2] eqn:E2. apply palloc_result in E2 as (-> & Hno2).
    destruct ok2; cbn [negb].
    + intros [= <- <-]. destruct Hq as (? & ? & ?). cbn. split_and!; [by split_and!; cbn; try lia | done | done |].
      intros n x Hn. eapply (wf_take_block p1 l (blocks p1) []); try done; cbn.
      * destruct Hw1 as [Hg _ _ _ _]. clear -Hg. induction Hg as [|b l' (? & ? & ?) _ IH]; cbn; [done |].
        destruct (Nat.eqb_spec (shadow b) (blocks p1)); lia.
      * lia.
      * lia.
      * rewrite Ef. congruence.
      * constructor.
      * intros j Hj. by apply not_elem_of_nil in Hj.
      * unfold good. cbn. lia.
    + intros [= <- <-]. split_and!; [done.. | by apply Hno2 |]. by eapply wf_same.
  - intros [= <- <-]. cbn. split_and!; [by split_and! | done | done |]. intros n x Hn.
    destruct (Hw) as [_ _ _ Hnd Hf]. rewrite E in Hnd, Hf. apply NoDup_cons in Hnd as [Hk Hnd].
    apply Forall_cons in Hf as [[Hp Hlt] _]. eapply (wf_take_block p l k ks); try done; cbn.
    + rewrite E. intros j Hj. split; [by apply elem_of_cons; right | by intros ->].
    + unfold good. cbn. lia.
Qed.

Lemma split_spec p y offset l r p' : wf p (lbuf y :: l) -> 0 < offset < blen (lbuf y) ->
  ngx_quic_split_chain p y offset = (r, p') ->
  quiet p p' /\
  match r with
  | Some (a, b) =>
      a = Link (addr y) (set_last (pos (lbuf y) + offset) (lbuf y)) /\
      (links p <= addr b < links p')%nat /\
      lbuf b = Buf (shadow (lbuf y)) false (pos (lbuf y) + offset) (last (lbuf y)) (sync (lbuf y)) /\
      wf p' (lbuf a :: lbuf b :: l)
  | None => refused /\ wf p' (lbuf y :: l)
  end.
Proof.
  intros Hw Ho. unfold ngx_quic_split_chain, alloc_chain_link.
  destruct (ngx_palloc p) as [ok1 p1] eqn:E1. apply palloc_result in E1 as (-> & Hno).
  destruct ok1; cbn [negb]; [| intros [= <- <-]; split; [by split_and!; cbn; try lia |]; split; [by apply Hno | by eapply (wf_same p)]].
  unfold ngx_quic_clone_buf. destruct (take_shadow (new_link (ask p))) as [ok2 p2] eqn:E2.
  apply take_shadow_result in E2 as ((? & ? & ?) & Eb & El & Er & Ef & Hno2). cbn in *.
  assert (quiet p p2) as Hq by (split_and!; [congruence | lia..]).
  destruct ok2; cbn [negb]; intros [= <- <-];
    [| split; [done |]; split; [by apply Hno2 | by eapply (wf_same p)]].
  split; [by destruct Hq |]. cbn. split_and!; [done | lia | lia | done |].
  destruct Hw as [Hg Hc Hr Hn Hf]. destruct y as [a b]. cbn in *. unfold blen in Ho. split; cbn.
  - apply Forall_cons in Hg as [[? ?] Hg]. constructor; [unfold good; cbn; lia |].
    constructor; [unfold good; cbn; lia |]. eapply Forall_impl; [exact Hg |]. unfold good. cbn. lia.
  - intros k x. specialize (Hc k x). unfold covers in *. cbn in *. destruct (shadow b =? k)%nat; cbn in *; [| lia].
    destruct (Z.leb_spec (pos b) x), (Z.ltb_spec x (last b)), (Z.ltb_spec x (pos b + offset)),
      (Z.leb_spec (pos b + offset) x); cbn in *; lia.
  - intros k. specialize (Hr k). cbn in Hr. rewrite Er. rewrite (Nat.eqb_sym (shadow b) k) in *.
    destruct (Nat.eqb_spec k (shadow b)) as [<- | ?]; lia.
  - by rewrite Ef.
  - rewrite Ef. eapply Forall_impl; [exact Hf |]. intros k. cbn. rewrite Eb.
    pose proof (pieces_nonneg l k). destruct (shadow b =? k)%nat; lia.
Qed.

Lemma free_buf_spec p b l : wf p (b :: l) -> wf (ngx_quic_free_buf p b) l /\ quiet p (ngx_quic_free_buf p b).
Proof.
  intros [Hg Hc Hr Hn Hf]. unfold ngx_quic_free_buf.
  set (p1 := set_refs (shadow b) (refs p (shadow b) - 1) p).
  set (p2 := if refs p1 (shadow b) =? 0 then set_free (shadow b :: free_bufs p1) p1 else p1).
  assert (Hw : wf p2 l /\ quiet p p2).
  { apply Forall_cons in Hg as [(? & ? & Hb) Hg].
    assert (Hr1 : forall k, refs p1 k = pieces l k).
    { intros k. cbn. specialize (Hr k). cbn in Hr. rewrite (Nat.eqb_sym (shadow b) k) in Hr.
      destruct (Nat.eqb_spec k (shadow b)) as [E |]; [rewrite E in Hr |- *; lia | lia]. }
    assert (Hf1 : Forall (fun k => pieces l k = 0 /\ (k < blocks p)%nat /\ k <> shadow b) (free_bufs p)).
    { eapply Forall_impl; [exact Hf |]. intros k [Hk Hlt]. cbn in Hk. pose proof (pieces_nonneg l k).
      destruct (Nat.eqb_spec (shadow b) k); [lia |]. split_and!; [lia | done | congruence]. }
    assert (Hc1 : forall k x, cover l k x <= 1).
    { intros k x. specialize (Hc k x). cbn in Hc. destruct (covers b k x); lia. }
    unfold p2. destruct (Z.eqb_spec (refs p1 (shadow b)) 0) as [E0 | E0].
    - split; [| done]. split; cbn; try done.
      + constructor; [| done]. intros Hin. rewrite Forall_forall in Hf1. by apply Hf1 in Hin as (_ & _ & ?).
      + constructor; [split; [by rewrite <- Hr1 | done] |].
        eapply Forall_impl; [exact Hf1 |]. cbn. tauto.
    - split; [| done]. split; try done. eapply Forall_impl; [exact Hf1 |]. cbn. tauto. }
  clearbody p2. destruct Hw as [Hw Hq]. destruct (own b); [done |]. split; [| done]. by eapply (wf_same p2).
Qed.

Lemma free_chain_spec p (c : list link) l : wf p (bufs c ++ l) ->
  wf (ngx_quic_free_chain p c) l /\ quiet p (ngx_quic_free_chain p c).
Proof.
  revert p. induction c as [|x c IH]; intros p Hw; cbn in *; [done |].
  apply free_buf_spec in Hw as [Hw Hq]. destruct (IH _ Hw) as [Hw' Hq']. split; [done | by eapply quiet_trans].
Qed.

(** ** Lemmas: reading *)

Lemma wf_app_r p l1 l2 : wf p (l1 ++ l2) -> Forall (good p) l1 /\ Forall (good p) l2.
Proof. intros [Hg _ _ _ _]. by apply Forall_app in Hg. Qed.

Lemma good_len p b : good p b -> 0 < blen b.
Proof. unfold good, blen. lia. Qed.

Lemma good_quiet p p' l : quiet p p' -> Forall (good p) l -> Forall (good p') l.
Proof. intros (_ & ? & _) F. eapply Forall_impl; [exact F |]. unfold good. lia. Qed.

Lemma good_nonneg p l : Forall (good p) l -> Forall (fun b => 0 <= blen b) l.
Proof. intros F. eapply Forall_impl; [exact F |]. intros b ?%good_len. lia. Qed.

#[local] Hint Resolve quiet_refl stable_refl : core.

(** The pieces of a piece hold what it held. *)
Lemma view_split c base b n o l x : 0 < n < blen b -> base <= x ->
  view c base (set_last (pos b + n) b :: Buf (shadow b) o (pos b + n) (last b) (sync b) :: l) x =
  view c base (b :: l) x.
Proof.
  intros Hn Hx. unfold blen in *. cbn. unfold blen. cbn.
  replace (base + (pos b + n - pos b)) with (base + n) by lia.
  replace (base + n + (last b - (pos b + n))) with (base + (last b - pos b)) by lia.
  destruct (Z.ltb_spec x (base + n)), (Z.ltb_spec x (base + (last b - pos b))); try lia; try done.
  destruct (sync b); [done |]. do 2 f_equal. lia.
Qed.

(** The bytes of a chain. *)
Definition piece (c : nat -> Z -> Z) b : list Z := map (fun i => c (shadow b) (pos b + Z.of_nat i)) (seq 0 (Z.to_nat (blen b))).
Definition chain_bytes (c : nat -> Z -> Z) (l : list buf) : list Z := concat (map (piece c) l).

Lemma length_piece c b : 0 <= blen b -> Z.of_nat (length (piece c b)) = blen b.
Proof. intros. unfold piece. rewrite length_map, length_seq. lia. Qed.

Lemma lookup_piece c b i : (i < Z.to_nat (blen b))%nat -> piece c b !! i = Some (c (shadow b) (pos b + Z.of_nat i)).
Proof.
  intros Hi. unfold piece. rewrite list_lookup_fmap, lookup_seq_lt by done. done.
Qed.

Lemma length_chain_bytes c l : Forall (fun b => 0 <= blen b) l -> Z.of_nat (length (chain_bytes c l)) = total l.
Proof.
  induction 1 as [|b l Hb F IH]; [done |]. unfold chain_bytes in *. cbn. rewrite length_app, Nat2Z.inj_add, IH.
  by rewrite length_piece.
Qed.

Lemma lookup_chain_bytes c base l i : Forall (fun b => 0 <= blen b) l -> Forall (fun b => sync b = false) l ->
  (i < length (chain_bytes c l))%nat -> chain_bytes c l !! i = view c base l (base + Z.of_nat i).
Proof.
  revert base i. induction l as [|b l IH]; intros base i Hg Hs Hi; cbn in *; [lia |].
  apply Forall_cons in Hg as [Hb Hg]. apply Forall_cons in Hs as [Es Hs]. unfold chain_bytes in *. cbn in *.
  pose proof (length_piece c b Hb) as Hlen. rewrite length_app in Hi.
  destruct (Z.ltb_spec (base + Z.of_nat i) (base + blen b)).
  - rewrite lookup_app_l by lia. rewrite lookup_piece by lia. rewrite Es. do 2 f_equal. lia.
  - rewrite lookup_app_r by lia. rewrite (IH (base + blen b)) by (done || lia). f_equal. lia.
Qed.

Lemma chain_bytes_stable p p' l : stable l p p' -> chain_bytes (cell p') l = chain_bytes (cell p) l.
Proof.
  induction 1 as [|b l Hb _ IH]; [done |]. unfold chain_bytes in *. cbn. rewrite IH. f_equal.
  unfold piece. apply map_ext_in. intros i Hi%in_seq. apply Hb. unfold blen in Hi. lia.
Qed.

(** What a read gives: a run of bytes from the beginning of the buffer, ended by the
    limit or by a byte that is not there. *)
Definition run_of (f : Z -> option Z) (base lim : Z) (d : list Z) : Prop :=
  (forall i, (i < length d)%nat -> f (base + Z.of_nat i) = d !! i) /\
  Z.of_nat (length d) <= lim /\
  (Z.of_nat (length d) = lim \/ f (base + Z.of_nat (length d)) = None).

(** The addresses of a chain. *)
Definition chain_ok p (c : list link) : Prop := NoDup (map addr c) /\ Forall (fun x => (addr x < links p)%nat) c.

(** The link at the address [a] begins at [o]. *)
Definition at_offset (base : Z) (c : list link) (a : nat) (o : Z) : Prop :=
  exists pre x post, c = pre ++ x :: post /\ addr x = a /\ base + total (bufs pre) = o.

Lemma chain_ok_quiet p p' c : (links p <= links p')%nat -> chain_ok p c -> chain_ok p' c.
Proof. intros ? [? F]. split; [done |]. eapply Forall_impl; [exact F |]. cbn. lia. Qed.

Lemma chain_ok_cons p x c : chain_ok p (x :: c) -> chain_ok p c.
Proof. intros [Hn F]. apply NoDup_cons in Hn as [_ Hn]. by apply Forall_cons in F as [_ F]. Qed.

Lemma chain_ok_fresh p p' x c : chain_ok p c -> (links p <= addr x < links p')%nat -> chain_ok p' (x :: c).
Proof.
  intros [Hn F] Hx. split.
  - cbn. apply NoDup_cons. split; [| done]. intros (y & E & Hy)%list_elem_of_fmap. rewrite Forall_forall in F.
    specialize (F y Hy). cbn in F. lia.
  - constructor; [lia |]. eapply Forall_impl; [exact F |]. cbn. lia.
Qed.

Lemma chain_ok_perm p c c' : Permutation c c' -> chain_ok p c -> chain_ok p c'.
Proof. intros P [? ?]. split; by rewrite <- P. Qed.

Lemma chain_ok_head p x y c : addr y = addr x -> chain_ok p (x :: c) -> chain_ok p (y :: c).
Proof.
  intros E [Hn F]. split; [cbn in *; by rewrite E |]. apply Forall_cons in F as [? F]. constructor; [by rewrite E | done].
Qed.

Lemma at_offset_cons base x c a o : at_offset base (x :: c) a o -> base < o -> at_offset (base + blen (lbuf x)) c a o.
Proof.
  intros ([|y pre] & z & post & E & Ea & Eo) Ho; cbn in *; [lia |]. injection E as -> ->.
  exists pre, z, post. split_and!; [done | done | lia].
Qed.

Record read_done p (c : list link) (l : list buf) (lim base : Z) (out rest : list link) (base' : Z) p' : Prop := {
  rd_wf : wf p' (bufs out ++ bufs rest ++ l);
  rd_chain : chain_ok p c -> chain_ok p' rest;
  rd_base : base' = base + total (bufs out);
  rd_limit : base' <= base + lim;
  rd_sync : Forall (fun b => sync b = false) (bufs out);
  rd_end : base' = base + lim \/ view (cell p) base' (bufs rest) base' = None;
  rd_view x : base <= x -> view (cell p) base (bufs out ++ bufs rest) x = view (cell p) base (bufs c) x;
  rd_last a o : at_offset base c a o -> base' < o -> at_offset base' rest a o;
  rd_filled : filled (bufs out ++ bufs rest) = filled (bufs c) }.

Lemma read_none p c l lim base : wf p (bufs c ++ l) -> 0 <= lim ->
  (lim = 0 \/ view (cell p) base (bufs c) base = None) -> read_done p c l lim base [] c base p.
Proof.
  intros Hw Hlim Hend. split; cbn; try done; [lia | lia |]. destruct Hend; [left; lia | by right].
Qed.

Lemma read_one p x c l lim base out rest base' p' : 0 <= lim - blen (lbuf x) -> 0 < blen (lbuf x) ->
  sync (lbuf x) = false -> wf p (lbuf x :: bufs c ++ l) ->
  read_done p c (lbuf x :: l) (lim - blen (lbuf x)) (base + blen (lbuf x)) out rest base' p' ->
  read_done p (x :: c) l lim base (x :: out) rest base' p'.
Proof.
  intros Hlim Hlen Hs Hw [H1 H2 H3 H4 H5 H6 H7 H8 H9]. split; cbn [map app total filled].
  - eapply wf_perm; [| exact H1]. by rewrite app_assoc, <- Permutation_middle, <- app_assoc.
  - intros Hc%chain_ok_cons. by apply H2.
  - lia.
  - lia.
  - by constructor.
  - destruct H6; [left; lia | by right].
  - intros y Hy. cbn. destruct (Z.ltb_spec y (base + blen (lbuf x))); [done |]. apply H7. lia.
  - intros a o Ha Ho. apply H8; [| done]. apply at_offset_cons; [done |].
    assert (0 <= total (bufs out)); [| lia]. eapply (total_nonneg p'). apply wf_app_r in H1. apply H1.
  - cbn. lia.
Qed.

Lemma read_split p x c l lim base x1 x2 p' : 0 < lim < blen (lbuf x) -> sync (lbuf x) = false ->
  wf p (lbuf x :: bufs c ++ l) -> ngx_quic_split_chain p x lim = (Some (x1, x2), p') ->
  read_done p (x :: c) l lim base [x1] (x2 :: c) (base + lim) p'.
Proof.
  intros Hlim Hs Hw E. apply (split_spec _ _ _ _ _ _ Hw) in E as [(Ec & _ & Hl) (-> & Hb & Eb & Hw')]; [| done].
  split; cbn [map app total filled lbuf].
  - exact Hw'.
  - intros Hc%chain_ok_cons. by eapply chain_ok_fresh.
  - unfold blen. cbn. lia.
  - lia.
  - by constructor.
  - by left.
  - intros y Hy. rewrite Eb. by apply view_split.
  - intros i o ([|z pre] & w & post & E & Ei & Eo) Ho; cbn in *; [lia |]. injection E as -> ->.
    exists (x2 :: pre), w, post. split_and!; [done | done |]. cbn. rewrite Eb. unfold blen in *. cbn. lia.
  - rewrite Eb. unfold blen. cbn. rewrite Hs. lia.
Qed.

Lemma read_loop_spec p c l lim base r base' p' : wf p (bufs c ++ l) -> 0 <= lim ->
  read_loop p c lim base = (r, base', p') ->
  quiet p p' /\
  match r with
  | Some (out, rest) => read_done p c l lim base out rest base' p'
  | None => refused /\ wf p' (bufs c ++ l)
  end.
Proof.
  revert p l lim base r base' p'. induction c as [|x c IH]; intros p l lim base r base' p' Hw Hlim; cbn.
  { intros [= <- <- <-]. split; [done |]. apply read_none; auto. }
  cbn in Hw. assert (Hlen : 0 < blen (lbuf x)) by (destruct Hw as [[? _]%Forall_cons]; by eapply good_len).
  destruct (sync (lbuf x)) eqn:Es.
  { intros [= <- <- <-]. split; [done |]. apply read_none; [done | done |]. right. cbn. rewrite Es.
    destruct (Z.ltb_spec base (base + blen (lbuf x))); [done | lia]. }
  destruct (Z.eqb_spec lim 0) as [-> | Hne]; [intros [= <- <- <-]; split; [done |]; apply read_none; auto |].
  destruct (Z.ltb_spec lim (blen (lbuf x))).
  - destruct (ngx_quic_split_chain p x lim) as [[[a b] |] p1] eqn:E; intros [= <- <- <-].
    + split; [| eapply read_split; [lia | done..]]. by apply (split_spec _ _ _ _ _ _ Hw) in E as [? _]; [| lia].
    + apply (split_spec _ _ _ _ _ _ Hw) in E as [? ?]; [done | lia].
  - destruct (read_loop p c (lim - blen (lbuf x)) (base + blen (lbuf x))) as [[r1 base1] p1] eqn:E.
    intros [= <- <- <-].
    apply (IH p (lbuf x :: l)) in E as [Hq Hr]; [| by rewrite <- Permutation_middle | lia]. split; [done |].
    destruct r1 as [[out rest] |]; cbn.
    + apply read_one; [lia | done..].
    + destruct Hr as [? Hr]. split; [done |]. by rewrite Permutation_middle.
Qed.

(** ** The stream that a buffer stands for *)

(** The bytes before [sbase] were taken; [byte_at] is what is known of the others. *)
Record stream : Type := Stream { sbase : Z; byte_at : Z -> option Z }.

Record represents p (qb : qbuf) (s : stream) : Prop := {
  rp_base : qoffset qb = sbase s;
  rp_view x : sbase s <= x -> view (cell p) (qoffset qb) (bufs (qchain qb)) x = byte_at s x;
  rp_chain : chain_ok p (qchain qb);
  rp_last a : last_chain qb = Some a -> at_offset (qoffset qb) (qchain qb) a (last_offset qb) }.

(** The bytes that were written and are no more in the buffer. *)
Definition gone (qb : qbuf) : Z := qsize qb - filled (bufs (qchain qb)).

Lemma represents_stable p p' qb s : (links p <= links p')%nat -> stable (bufs (qchain qb)) p p' ->
  represents p qb s -> represents p' qb s.
Proof.
  intros Hl Hst [H1 H2 H3 H4]. split; [done | | by eapply chain_ok_quiet | done].
  intros x Hx. rewrite <- H2 by done. apply view_stable; [lia | done].
Qed.

Lemma represents_drop p qb s : represents p (Qbuf (qsize qb) (qoffset qb) (last_offset qb) (qchain qb) None) s ->
  (forall a, last_chain qb = Some a -> qoffset qb < last_offset qb ->
    at_offset (qoffset qb) (qchain qb) a (last_offset qb)) ->
  represents p (drop_last qb) s.
Proof.
  intros [H1 H2 H3 H4] Ha. unfold drop_last. cbn in *. destruct (Z.leb_spec (last_offset qb) (qoffset qb)); [done |].
  split; try done. intros a E. apply Ha; [done | lia].
Qed.

Lemma filled_full l : Forall (fun b => sync b = false) l -> filled l = total l.
Proof. induction 1 as [|b l Hb _ IH]; [done |]. cbn. rewrite Hb. lia. Qed.

Lemma read_buffer_spec p qb s l lim r qb' p' : wf p (bufs (qchain qb) ++ l) -> represents p qb s -> 0 <= lim ->
  ngx_quic_read_buffer p qb lim = (r, qb', p') ->
  quiet p p' /\
  match r with
  | Some out =>
      let d := chain_bytes (cell p') (bufs out) in
      wf p' (bufs out ++ bufs (qchain qb') ++ l) /\ run_of (byte_at s) (sbase s) lim d /\
      represents p' qb' (Stream (sbase s + Z.of_nat (length d)) (byte_at s)) /\
      gone qb' = gone qb + Z.of_nat (length d)
  | None => refused /\ wf p' (bufs (qchain qb') ++ l)
  end.
Proof.
  intros Hw [H1 H2 H3 H4] Hlim. unfold ngx_quic_read_buffer.
  destruct (read_loop p (qchain qb) lim (qoffset qb)) as [[[[out rest] |] base'] p1] eqn:E; intros [= <- <- <-];
    (apply (read_loop_spec _ _ _ _ _ _ _ _ Hw Hlim) in E as [(Ec & Hb & Hl) E]; split; [done |]);
    [| exact E].
  destruct E as [E1 E2 E3 E4 E5 E6 E7 E8 E9]. pose proof E1 as Ew. apply wf_app_r in Ew as [Hout Hrest].
  pose proof (good_nonneg _ _ Hout) as Hno. pose proof (length_chain_bytes (cell p1) _ Hno) as Hlen.
  pose proof (total_nonneg _ _ Hout) as Hpos.
  assert (Hd : drop_last (Qbuf (qsize qb) base' (last_offset qb) rest (last_chain qb)) =
    Qbuf (qsize qb) base' (last_offset qb) rest
      (if last_offset qb <=? base' then None else last_chain qb)).
  { unfold drop_last. cbn. by destruct (last_offset qb <=? base'). }
  assert (Happ : forall x, qoffset qb <= x -> view (cell p) (qoffset qb) (bufs out ++ bufs rest) x =
    if x <? base' then view (cell p) (qoffset qb) (bufs out) x else view (cell p) base' (bufs rest) x).
  { intros x Hx. rewrite E3. by apply view_app. }
  rewrite Hlen, Hd. cbn. split_and!; [done | | |].
  - split_and!; [| lia |].
    + intros i Hi. rewrite (lookup_chain_bytes _ (qoffset qb)) by done. rewrite <- H2, <- E7 by lia.
      rewrite Happ by lia. rewrite H1, Ec. destruct (Z.ltb_spec (sbase s + Z.of_nat i) base'); [done | lia].
    + destruct E6 as [? | E6]; [left; lia |]. right. rewrite Hlen, <- H2, <- E7, Happ by lia.
      rewrite H1 in *. rewrite <- E3. by rewrite Z.ltb_irrefl.
  - rewrite <- Hd. apply represents_drop; cbn.
    + split; cbn; [lia | | by apply E2 | done]. intros x Hx. rewrite <- H2, <- E7, Happ by lia. rewrite Ec.
      destruct (Z.ltb_spec x base'); [lia | done].
    + intros a Ea Ho. apply E8; [by apply H4 | done].
  - unfold gone. cbn. rewrite filled_app, (filled_full (bufs out)) in E9 by done. lia.
Qed.

Lemma skip_loop_spec p c l base offset c' base' p' : wf p (bufs c ++ l) -> base <= offset ->
  skip_loop p c base offset = (c', base', p') ->
  quiet p p' /\ wf p' (bufs c' ++ l) /\ (chain_ok p c -> chain_ok p' c') /\
  (c' = [] -> base + total (bufs c) <= offset) /\ (c' <> [] -> base' = offset) /\
  (forall x, offset <= x -> view (cell p) offset (bufs c') x = view (cell p) base (bufs c) x) /\
  (forall a o, at_offset base c a o -> offset < o -> at_offset offset c' a o).
Proof.
  revert p base c' base' p'. induction c as [|x c IH]; intros p base c' base' p' Hw Hbase; cbn.
  { intros [= <- <- <-]. split_and!; try done; [lia |].
    intros a o ([|? ?] & ? & ? & E & _); discriminate. }
  cbn in Hw. assert (Hlen : 0 < blen (lbuf x)) by (destruct Hw as [[? _]%Forall_cons]; by eapply good_len).
  destruct (Z.leb_spec offset base).
  { assert (base = offset) as -> by lia. intros [= <- <- <-]. by split_and!. }
  destruct (Z.ltb_spec offset (base + blen (lbuf x))).
  - intros [= <- <- <-]. cbn. assert (0 < offset - base) as Hn0 by lia.
    set (n := offset - base) in *. assert (En : offset = base + n) by lia. clearbody n. split_and!; try done.
    + destruct Hw as [Hg Hc Hr Hn Hf]. split; cbn in *; try done.
      * apply Forall_cons in Hg as [? Hg]. constructor; [| done]. unfold good, blen in *. cbn. lia.
      * intros k y. specialize (Hc k y). unfold covers in *. cbn. destruct (shadow (lbuf x) =? k)%nat; cbn in *; [| lia].
        destruct (Z.leb_spec (pos (lbuf x)) y), (Z.leb_spec (pos (lbuf x) + n) y), (Z.ltb_spec y (last (lbuf x)));
          cbn in *; lia.
    + intros [Hnd F]. split; [done |]. by apply Forall_cons in F as [? ?]; constructor.
    + intros y Hy. unfold blen. cbn. replace (offset + (last (lbuf x) - (pos (lbuf x) + n))) with (base + blen (lbuf x))
        by (unfold blen; lia). fold (blen (lbuf x)).
      destruct (Z.ltb_spec y (base + blen (lbuf x))); [| done]. destruct (sync (lbuf x)); [done |]. do 2 f_equal. lia.
    + intros a o ([|z pre] & w & post & E & Ea & Eo) Ho; cbn in *; [lia |]. injection E as -> ->.
      eexists (_ :: pre), w, post. split_and!; [done | done |]. cbn. unfold blen in *. cbn. lia.
  - intros E. apply free_buf_spec in Hw as [Hw1 Hq1].
    apply IH in E as (Hq & Hw' & Hc & Hnil & Hcons & Hv & Ha); [| done | lia].
    split_and!; [by eapply quiet_trans | done | | | done | |].
    + intros Hx%chain_ok_cons. apply Hc. destruct Hq1 as (_ & _ & ?). by eapply chain_ok_quiet.
    + intros ->. specialize (Hnil eq_refl). lia.
    + intros y Hy. destruct Hq1 as [<- _]. rewrite Hv by done. destruct (Z.ltb_spec y (base + blen (lbuf x))); [lia | done].
    + intros a o Hx Ho. apply Ha; [| done]. apply at_offset_cons; [done | lia].
Qed.

Lemma skip_buffer_spec p qb s l offset qb' p' : wf p (bufs (qchain qb) ++ l) -> represents p qb s ->
  sbase s <= offset -> ngx_quic_skip_buffer p qb offset = (qb', p') ->
  quiet p p' /\ wf p' (bufs (qchain qb') ++ l) /\ represents p' qb' (Stream offset (byte_at s)).
Proof.
  intros Hw [H1 H2 H3 H4] Ho. unfold ngx_quic_skip_buffer.
  destruct (skip_loop p (qchain qb) (qoffset qb) offset) as [[c at'] p1] eqn:E. intros [= <- <-].
  apply (skip_loop_spec _ _ l) in E as (Hq & Hw' & Hc & Hnil & Hcons & Hv & Ha); [| done | lia].
  assert (Eo : match c with [] => offset | _ => at' end = offset) by (destruct c; [done | by apply Hcons]).
  rewrite Eo. clear Eo. split; [done |]. split.
  - unfold drop_last. cbn. by destruct (last_offset qb <=? offset).
  - destruct Hq as (Ec & _ & _). apply represents_drop; cbn.
    + split; cbn; [done | | by apply Hc | done]. intros x Hx. rewrite <- H2 by lia. rewrite Ec. by apply Hv.
    + intros a Ea Hlt. apply Ha; [by apply H4 | done].
Qed.

(** ** Lemmas: writing *)

(** A buffer that is not in memory has no bytes. *)
Definition inputs_ok (l : list input) : Prop := Forall (fun i => in_memory i = false -> data i = []) l.

Record fill_done b q (l : list input) off lim size p q' (w : todo) p' : Prop := {
  fd_low : q <= q'; fd_high : q' <= last b; fd_lim : q' - q <= lim;
  fd_have : q' - q <= Z.of_nat (length (input_bytes l));
  fd_bytes : input_bytes (ins w) = drop (Z.to_nat (q' - q)) (input_bytes l);
  fd_off : woff w = off + (q' - q);
  fd_limit : limit w = lim - (q' - q);
  fd_size : wsize w = size + (if sync b then q' - q else 0);
  fd_end : ins w = [] \/ q' = last b \/ limit w = 0;
  fd_ok : inputs_ok (ins w);
  fd_length : (length (ins w) <= length l)%nat;
  fd_pool : exists f, p' = set_cell f p;
  fd_cell k x : cell p' k x =
    if sync b && (k =? shadow b)%nat && (q <=? x) && (x <? q') then nth (Z.to_nat (x - q)) (input_bytes l) 0
    else cell p k x }.

Lemma fill_nothing b q l off lim size p : q <= last b -> 0 <= lim -> inputs_ok l ->
  l = [] \/ q = last b \/ lim = 0 -> fill_done b q l off lim size p q (Todo l off lim size) p.
Proof.
  intros Hq Hlim Hok Hend. split; cbn; rewrite ?Z.sub_diag; try done; try lia.
  - case_match; lia.
  - exists (cell p). by destruct p.
  - intros k x. destruct (Z.leb_spec q x), (Z.ltb_spec x q); rewrite ?andb_false_r; try done. lia.
Qed.

Lemma fill_empty b q i l off lim size p q' w p' : data i = [] ->
  fill_done b q l off lim size p q' w p' -> fill_done b q (i :: l) off lim size p q' w p'.
Proof.
  intros E. destruct i as [m d]. cbn in E. subst d. intros []. split; try done; cbn; try lia.
Qed.

(** The copy of [n] bytes. *)
Definition put_bytes b q n d p : option pool := if sync b then copy_bytes (shadow b) q (take n d) p else Some p.

Lemma put_bytes_spec b q n d p : 0 <= q -> q + Z.of_nat n <= NGX_QUIC_BUFFER_SIZE -> (n <= length d)%nat ->
  exists p', put_bytes b q n d p = Some p' /\ (exists f, p' = set_cell f p) /\
    forall k x, cell p' k x =
      if sync b && (k =? shadow b)%nat && (q <=? x) && (x <? q + Z.of_nat n) then nth (Z.to_nat (x - q)) d 0
      else cell p k x.
Proof.
  intros Hq Hn Hd. unfold put_bytes. destruct (sync b).
  - unfold copy_bytes. rewrite length_take, Nat.min_l by done.
    destruct (Z.leb_spec 0 q); [| lia]. destruct (Z.leb_spec (q + Z.of_nat n) NGX_QUIC_BUFFER_SIZE); [| lia].
    cbn. eexists. split_and!; [done | by eexists |]. intros k x. cbn.
    destruct (k =? shadow b)%nat; cbn; [| done].
    destruct (Z.leb_spec q x), (Z.ltb_spec x (q + Z.of_nat n)); cbn; try done.
    assert ((Z.to_nat (x - q) < n)%nat) as Hi by lia. clear -Hi Hd.
    revert d Hd Hi. generalize (Z.to_nat (x - q)). intros i. revert n.
    induction i as [|i IH]; intros [|n] [|c d] Hd Hi; cbn in *; try lia; try done. apply IH; lia.
  - exists p. split_and!; [done | exists (cell p); by destruct p |]. done.
Qed.

Lemma input_bytes_cons m d l : input_bytes (Input m d :: l) = d ++ input_bytes l.
Proof. done. Qed.

#[local] Arguments input_bytes : simpl never.

(** A part of the first buffer, and what follows. *)
Lemma fill_more b q m d l n off lim size p p1 q' w p' : 0 <= n <= Z.of_nat (length d) -> n <= lim ->
  put_bytes b q (Z.to_nat n) d p = Some p1 -> (exists f, p1 = set_cell f p) ->
  (forall k x, cell p1 k x =
      if sync b && (k =? shadow b)%nat && (q <=? x) && (x <? q + n) then nth (Z.to_nat (x - q)) d 0 else cell p k x) ->
  (length (ins w) <= S (length l))%nat ->
  fill_done b (q + n) (Input m (drop (Z.to_nat n) d) :: l) (off + n) (lim - n)
    (if sync b then size + n else size) p1 q' w p' ->
  fill_done b q (Input m d :: l) off lim size p q' w p'.
Proof.
  intros Hn Hlim _ [f Ef] Hcell Hlen [H1 H2 H3 H4 H5 H6 H7 H8 H9 H10 _ [g Eg] H13].
  rewrite input_bytes_cons in H4, H5. setoid_rewrite input_bytes_cons in H13.
  rewrite length_app, length_drop in H4.
  assert (Hd : drop (Z.to_nat n) d ++ input_bytes l = drop (Z.to_nat n) (d ++ input_bytes l)).
  { rewrite drop_app. by replace (Z.to_nat n - length d)%nat with O by lia. }
  rewrite Hd in H5. setoid_rewrite Hd in H13.
  split; rewrite ?input_bytes_cons; try done; try lia.
  - rewrite length_app. lia.
  - rewrite H5. replace (Z.to_nat (q' - q)) with (Z.to_nat n + Z.to_nat (q' - (q + n)))%nat by lia.
    by rewrite <- drop_drop.
  - destruct (sync b); lia.
  - exists g. by rewrite Eg, Ef.
  - intros k x. rewrite H13, Hcell. destruct (sync b && (k =? shadow b)%nat); cbn; [| done].
    destruct (Z.leb_spec q x), (Z.leb_spec (q + n) x), (Z.ltb_spec x q'), (Z.ltb_spec x (q + n)); cbn; try lia; try done.
    + replace (Z.to_nat (x - q)) with (Z.to_nat n + Z.to_nat (x - (q + n)))%nat by lia.
      by rewrite nth_skipn.
    + rewrite app_nth1 by lia. done.
Qed.

Lemma fill_spec b q l off lim size p : 0 <= q <= last b -> last b <= NGX_QUIC_BUFFER_SIZE -> 0 <= lim -> inputs_ok l ->
  exists q' w p', fill b q l off lim size p = Some (q', w, p') /\ fill_done b q l off lim size p q' w p'.
Proof.
  revert q off lim size p. induction l as [|[m d] l IH]; intros q off lim size p Hq Hlast Hlim Hok.
  { eexists _, _, _. split; [done |]. apply fill_nothing; auto; lia. }
  pose proof (Hok) as [Hm Hok']%Forall_cons. cbn in Hm. cbn [fill].
  destruct (negb m || (length d =? 0)%nat) eqn:Em.
  { destruct (IH q off lim size p Hq Hlast Hlim Hok') as (q' & w & p' & E & Hd). exists q', w, p'. split; [done |].
    apply fill_empty; [| done]. cbn. destruct m; [| by apply Hm]. destruct d; [done | discriminate]. }
  destruct ((q =? last b) || (lim =? 0)) eqn:Es.
  { eexists _, _, _. split; [done |]. apply fill_nothing; auto; lia. }
  set (n := Z.min _ lim). assert (Hn : 0 < n <= Z.of_nat (length d) /\ n <= lim /\ q + n <= last b /\
    (q + n = last b \/ n = lim \/ n = Z.of_nat (length d))).
  { assert (length d <> O) by (intros E; rewrite E in Em; by destruct m). unfold n. lia. }
  clearbody n. destruct Hn as (Hn & Hnl & Hnb & Hwhy).
  destruct (put_bytes_spec b q (Z.to_nat n) d p) as (p1 & Ep & Hf & Hc); [lia.. |].
  change (if sync b then copy_bytes (shadow b) q (take (Z.to_nat n) d) p else Some p)
    with (put_bytes b q (Z.to_nat n) d p). rewrite Ep. cbn [mbind option_bind].
  rewrite Z2Nat.id in Hc by lia. destruct (Z.eqb_spec n (Z.of_nat (length d))) as [-> | Hne].
  - destruct (IH (q + Z.of_nat (length d)) (off + Z.of_nat (length d)) (lim - Z.of_nat (length d))
      (if sync b then size + Z.of_nat (length d) else size) p1) as (q' & w & p' & E & Hd); [lia | done | lia | done |].
    exists q', w, p'. split; [done |]. eapply fill_more; [| done | done | done | done | |]; [lia | |].
    + destruct Hd. lia.
    + apply fill_empty; [| done]. cbn. apply drop_ge. lia.
  - eexists _, _, _. split; [done |]. eapply (fill_more b q m d l n); [lia | lia | done | done | done | done |].
    apply fill_nothing; [lia | lia | | lia].
    constructor; [| done]. cbn. intros E. by rewrite (Hm E), drop_nil.
Qed.

(** The bytes that a write still has to place. *)
Definition todo_bytes (w : todo) : list Z := take (Z.to_nat (limit w)) (input_bytes (ins w)).

Definition todo_at (w : todo) (x : Z) : option Z := lay (todo_bytes w) (woff w) x.

(** [k] bytes less to do. *)
Definition less_todo (k : Z) (w w' : todo) : Prop :=
  input_bytes (ins w') = drop (Z.to_nat k) (input_bytes (ins w)) /\ woff w' = woff w + k /\
  limit w' = limit w - k /\ 0 <= k <= limit w /\ k <= Z.of_nat (length (input_bytes (ins w))).

Lemma todo_before w x : x < woff w -> todo_at w x = None.
Proof. intros H. unfold todo_at, lay. destruct (Z.leb_spec (woff w) x); [lia | done]. Qed.

Lemma todo_within w x : woff w <= x -> x - woff w < limit w -> x - woff w < Z.of_nat (length (input_bytes (ins w))) ->
  todo_at w x = Some (nth (Z.to_nat (x - woff w)) (input_bytes (ins w)) 0).
Proof.
  intros H1 H2 H3. unfold todo_at, lay, todo_bytes. destruct (Z.leb_spec (woff w) x); [| lia].
  rewrite lookup_take_lt by lia.
  destruct (lookup_lt_is_Some_2 (input_bytes (ins w)) (Z.to_nat (x - woff w))) as [v Hv]; [lia |].
  rewrite Hv. f_equal. symmetry. by apply nth_lookup_Some.
Qed.

Lemma todo_after k w w' x : less_todo k w w' -> woff w' <= x -> todo_at w' x = todo_at w x.
Proof.
  intros (Eb & Eo & El & Hk & _) Hx. unfold todo_at, lay, todo_bytes.
  destruct (Z.leb_spec (woff w') x), (Z.leb_spec (woff w) x); try lia.
  rewrite Eb, Eo, El. set (i := Z.to_nat (x - (woff w + k))). set (j := Z.to_nat (x - woff w)).
  assert (j = Z.to_nat k + i)%nat as -> by lia.
  destruct (decide (i < Z.to_nat (limit w - k))%nat).
  - rewrite !lookup_take_lt by lia. by rewrite lookup_drop.
  - rewrite !lookup_take_ge by lia. done.
Qed.

Lemma bufs_rev_append pre post : bufs (rev_append pre post) = bufs (rev pre) ++ bufs post.
Proof. by rewrite rev_append_rev, map_app. Qed.

Lemma total_rev (pre : list link) : total (bufs (rev pre)) = total (bufs pre).
Proof. induction pre as [|x pre IH]; [done |]. cbn. rewrite map_app, total_bufs_app, IH. cbn. lia. Qed.

Lemma filled_rev_append pre post : filled (bufs (rev_append pre post)) = filled (bufs (rev pre)) + filled (bufs post).
Proof. by rewrite bufs_rev_append, filled_app. Qed.

(** What the stream will hold: what the chain holds, or else what is still to be
    placed. *)
Definition held_or_todo o pre post w p (x : Z) : option Z :=
  first_of (view (cell p) o (bufs (rev_append pre post)) x) (todo_at w x).

Record winv o (l : list buf) pre post base w p : Prop := {
  wi_wf : wf p (bufs (rev_append pre post) ++ l);
  wi_chain : chain_ok p (rev_append pre post);
  wi_base : base = o + total (bufs pre);
  wi_inputs : inputs_ok (ins w);
  wi_limit : 0 <= limit w;
  wi_off : woff w < base -> base = o }.

Record wsame o (l : list buf) pre post w p pre' post' w' p' : Prop := {
  ws_view x : o <= x -> held_or_todo o pre' post' w' p' x = held_or_todo o pre post w p x;
  ws_size : wsize w' - filled (bufs (rev_append pre' post')) = wsize w - filled (bufs (rev_append pre post));
  ws_stable : stable l p p';
  ws_links : (links p <= links p')%nat }.

Lemma wsame_refl o l pre post w p : wsame o l pre post w p pre post w p.
Proof. by split. Qed.

Lemma wsame_trans o l pre1 post1 w1 p1 pre2 post2 w2 p2 pre3 post3 w3 p3 :
  wsame o l pre1 post1 w1 p1 pre2 post2 w2 p2 -> wsame o l pre2 post2 w2 p2 pre3 post3 w3 p3 ->
  wsame o l pre1 post1 w1 p1 pre3 post3 w3 p3.
Proof.
  intros [V1 S1 T1 L1] [V2 S2 T2 L2]. split; [| lia | by eapply stable_trans | lia].
  intros x Hx. by rewrite V2, V1.
Qed.

Lemma winv_good o l pre post base w p : winv o l pre post base w p ->
  Forall (good p) (bufs (rev pre)) /\ Forall (good p) (bufs post) /\ 0 <= total (bufs pre).
Proof.
  intros [Hw _ _ _ _ _]. rewrite bufs_rev_append in Hw. apply wf_app_r in Hw as [Hg _].
  apply Forall_app in Hg as [Hpre Hpost]. split_and!; [done | done |]. rewrite <- total_rev. by eapply total_nonneg.
Qed.

(** The view of the chain before and after [base]. *)
Lemma view_parts c p o pre post x : o <= x -> Forall (good p) (bufs (rev pre)) ->
  view c o (bufs (rev_append pre post)) x =
  if x <? o + total (bufs pre) then view c o (bufs (rev pre)) x else view c (o + total (bufs pre)) (bufs post) x.
Proof.
  intros Hx Hg. rewrite bufs_rev_append, view_app; [by rewrite total_rev | by eapply total_nonneg | done |].
  by eapply good_nonneg.
Qed.

(** A turn changes the link at [base], of length [n], and leaves the others. *)
Lemma turn_view o l pre post base w p post' w' p' k n t x : winv o l pre post base w p -> o <= x -> 0 <= n ->
  stable (bufs (rev pre)) p p' -> stable (bufs t) p p' ->
  (forall y, base + n <= y -> view (cell p) base (bufs post) y = view (cell p) (base + n) (bufs t) y) ->
  (forall y, base + n <= y -> view (cell p') base (bufs post') y = view (cell p') (base + n) (bufs t) y) ->
  base <= woff w -> less_todo k w w' -> woff w' <= base + n ->
  (forall y, base <= y < base + n ->
    first_of (view (cell p') base (bufs post') y) (todo_at w' y) =
    first_of (view (cell p) base (bufs post) y) (todo_at w y)) ->
  held_or_todo o pre post' w' p' x = held_or_todo o pre post w p x.
Proof.
  intros Hi Hx Hn Hs1 Hs2 Hv Hv' Hb Hless Hoff Hmid. pose proof (winv_good _ _ _ _ _ _ _ Hi) as (Hg & _ & Ht).
  unfold held_or_todo. rewrite !(view_parts _ p) by done. rewrite <- (wi_base _ _ _ _ _ _ _ Hi).
  destruct Hless as (E1 & E2 & E3 & Hk & E4).
  destruct (Z.ltb_spec x base).
  - rewrite (view_stable p p') by done. rewrite !todo_before by lia. done.
  - destruct (Z.ltb_spec x (base + n)); [by apply Hmid |].
    rewrite Hv, Hv', (view_stable p p') by (done || lia). by rewrite (todo_after k w w') by (done || lia).
Qed.

Definition turn_ok o l pre post w p (r : turn) : Prop :=
  match r with
  | Again pre' post' base' w' p' => winv o l pre' post' base' w' p' /\ wsame o l pre post w p pre' post' w' p'
  | NoMemory pre' post' w' p' =>
      refused /\ wf p' (bufs (rev_append pre' post') ++ l) /\ stable l p p' /\ (links p <= links p')%nat
  | Wild => False
  end.

Lemma pass_ok o l pre post base w p : winv o l pre post base w p -> woff w < base ->
  ins w <> [] -> limit w <> 0 -> turn_ok o l pre post w p (Again pre post base (pass_input w base) p).
Proof.
  intros Hi Hb Hne Hlim. pose proof Hi as [H1 H2 H3 H4 H5 H6]. unfold pass_input.
  destruct w as [ws off lim size]. cbn in *. destruct ws as [|[m d] ws]; [done |].
  set (n := Z.min (Z.of_nat (length d)) (Z.min (base - off) lim)). assert (0 <= n <= Z.of_nat (length d)) by lia.
  assert (n <= base - off /\ n <= lim) as [Hn1 Hn2] by lia. clearbody n.
  set (ws' := match drop (Z.to_nat n) d with [] => ws | _ => Input m (drop (Z.to_nat n) d) :: ws end).
  assert (Eb : input_bytes ws' = drop (Z.to_nat n) (input_bytes (Input m d :: ws))).
  { rewrite input_bytes_cons, drop_app. replace (Z.to_nat n - length d)%nat with O by lia. unfold ws'.
    by destruct (drop (Z.to_nat n) d). }
  assert (Hok : inputs_ok ws').
  { apply Forall_cons in H4 as [Hm H4]. unfold ws'. destruct (drop (Z.to_nat n) d) eqn:E; [done |].
    constructor; [| done]. cbn in *. intros Em. rewrite (Hm Em), drop_nil in E. discriminate. }
  assert (Hless : less_todo n (Todo (Input m d :: ws) off lim size) (Todo ws' (off + n) (lim - n) size)).
  { split_and!; [exact Eb | done | done | lia | done |].
    change (input_bytes _) with (d ++ input_bytes ws). rewrite length_app. lia. }
  split.
  - split; cbn; try done; [lia |]. intros _. apply H6. lia.
  - split; try done. intros x Hx. unfold held_or_todo. f_equal. apply (todo_after n); [done |]. cbn.
    specialize (H6 Hb). lia.
Qed.

Lemma hole_view c base a k o x : base <= x -> view c base [Buf k o 0 a true] x = None.
Proof. intros. cbn. by case_match. Qed.

(** The current link is there, or it is a new hole. *)
Lemma current_ok o l pre post base w p r p' : winv o l pre post base w p -> current_link post p = (r, p') ->
  match r with
  | Some (x, t) => winv o l pre (x :: t) base w p' /\ wsame o l pre post w p pre (x :: t) w p' /\ 0 < blen (lbuf x)
  | None => turn_ok o l pre post w p (NoMemory pre post w p')
  end.
Proof.
  intros Hi. pose proof (winv_good _ _ _ _ _ _ _ Hi) as (Hg1 & Hg2 & Ht).
  destruct post as [|x t]; cbn [current_link].
  2:{ intros [= <- <-]. split_and!; [done | apply wsame_refl |]. apply Forall_cons in Hg2 as [Hx _]. by eapply good_len. }
  destruct Hi as [H1 H2 H3 H4 H5 H6]. unfold ngx_quic_alloc_chain, alloc_chain_link.
  destruct (ngx_palloc p) as [ok1 p1] eqn:E1. apply palloc_result in E1 as (-> & Hno).
  destruct ok1; cbn [negb].
  2:{ intros [= <- <-]. split_and!; [by apply Hno | by eapply (wf_same p) | by apply stable_cell | done]. }
  destruct (ngx_quic_alloc_buf (new_link (ask p))) as [b p2] eqn:E2.
  assert (Hw1 : wf (new_link (ask p)) (bufs (rev_append pre []) ++ l)) by (by eapply (wf_same p)).
  apply (alloc_buf_spec _ _ _ _ Hw1) in E2 as ((Ec & Eb & El') & El & E2). cbn in *.
  destruct b as [b |]; intros [= <- <-].
  - destruct E2 as [-> Hw2]. cbn. set (x := Link _ _).
    assert (Hview : forall y, o <= y ->
      view (cell p2) o (bufs (rev_append pre [x])) y = view (cell p) o (bufs (rev_append pre [])) y).
    { intros y Hy. rewrite !(view_parts _ p) by done. cbn [map]. rewrite Ec.
      destruct (Z.ltb_spec y (o + total (bufs pre))); [done |]. by apply hole_view. }
    split_and!; [| | done].
    + split; try done.
      * rewrite bufs_rev_append in *. cbn [map app] in *. rewrite app_nil_r in Hw2. rewrite <- app_assoc. cbn.
        rewrite <- Permutation_middle. by apply (Hw2 NGX_QUIC_BUFFER_SIZE true).
      * rewrite rev_append_rev in *. eapply (chain_ok_perm p2 (x :: rev pre)); [by rewrite Permutation_app_comm |].
        rewrite app_nil_r in H2. eapply chain_ok_fresh; [done |]. cbn. lia.
    + split; [| | by apply stable_cell | lia].
      * intros y Hy. unfold held_or_todo. by rewrite Hview.
      * rewrite !filled_rev_append. done.
  - destruct E2 as [Hr Hw2]. split_and!; [done | done | by apply stable_cell | lia].
Qed.

Lemma bufs_front pre x t l : Permutation (bufs (rev_append pre (x :: t)) ++ l) (lbuf x :: bufs (rev_append pre t) ++ l).
Proof. rewrite !bufs_rev_append. cbn. by rewrite <- Permutation_middle. Qed.

Lemma chain_front pre (x : link) t : Permutation (rev_append pre (x :: t)) (x :: rev_append pre t).
Proof. rewrite !rev_append_rev. by rewrite <- Permutation_middle. Qed.

(** A link of the chain becomes two. *)
Lemma split_link pre x t l n p r p' : wf p (bufs (rev_append pre (x :: t)) ++ l) ->
  chain_ok p (rev_append pre (x :: t)) -> 0 < n < blen (lbuf x) -> ngx_quic_split_chain p x n = (r, p') ->
  quiet p p' /\
  match r with
  | Some (x1, x2) =>
      x1 = Link (addr x) (set_last (pos (lbuf x) + n) (lbuf x)) /\
      lbuf x2 = Buf (shadow (lbuf x)) false (pos (lbuf x) + n) (last (lbuf x)) (sync (lbuf x)) /\
      wf p' (bufs (rev_append pre (x1 :: x2 :: t)) ++ l) /\ chain_ok p' (rev_append pre (x1 :: x2 :: t))
  | None => refused /\ wf p' (bufs (rev_append pre (x :: t)) ++ l)
  end.
Proof.
  intros Hw Hc Hn E. rewrite bufs_front in Hw. apply (split_spec _ _ _ _ _ _ Hw) in E as [Hq E]; [| done].
  split; [done |]. destruct r as [[x1 x2] |].
  - destruct E as (E1 & Hx2 & E2 & Hw'). split_and!; [done | done | |].
    + rewrite bufs_front. eapply wf_perm; [| exact Hw']. by rewrite bufs_front.
    + apply (chain_ok_perm p' (x2 :: x1 :: rev_append pre t)).
      * rewrite (chain_front pre x1), (chain_front pre x2). by constructor.
      * apply (chain_ok_fresh p); [| done]. subst x1.
        by apply (chain_ok_head _ x), (chain_ok_perm _ _ _ (chain_front pre x t)).
  - by rewrite bufs_front.
Qed.

(** The flag of a piece is of no concern to memory. *)
Lemma wf_flag v p b l : wf p (b :: l) -> wf p (set_sync v b :: l).
Proof.
  intros [Hg Hc Hr Hn Hf]. split; try done. apply Forall_cons in Hg as [? Hg]. by constructor.
Qed.

Lemma flag_link v pre x t l p : wf p (bufs (rev_append pre (x :: t)) ++ l) -> chain_ok p (rev_append pre (x :: t)) ->
  let x' := Link (addr x) (set_sync v (lbuf x)) in
  wf p (bufs (rev_append pre (x' :: t)) ++ l) /\ chain_ok p (rev_append pre (x' :: t)).
Proof.
  intros Hw Hc x'. split.
  - rewrite bufs_front in Hw |- *. by apply wf_flag.
  - apply (chain_ok_perm p (x' :: rev_append pre t)); [by rewrite chain_front |].
    by apply (chain_ok_head _ x), (chain_ok_perm _ _ _ (chain_front pre x t)).
Qed.

(** A hole is split where the bytes begin. *)
Lemma split_hole_ok o l pre x t base w p r p' : winv o l pre (x :: t) base w p -> sync (lbuf x) = true ->
  base < woff w < base + blen (lbuf x) -> ngx_quic_split_chain p x (woff w - base) = (r, p') ->
  turn_ok o l pre (x :: t) w p
    (match r with
     | Some (x1, x2) => Again pre (x1 :: x2 :: t) base w p'
     | None => NoMemory pre (x :: t) w p'
     end).
Proof.
  intros Hi Hs Ho E. pose proof Hi as [H1 H2 H3 H4 H5 H6].
  apply (split_link pre x t l) in E as [(Ec & ? & ?) E]; [| done | done | lia].
  destruct r as [[x1 x2] |].
  - destruct E as (-> & E2 & Hw & Hc). split; [by split |].
    split; [| | by apply stable_cell | done].
    + intros y Hy. unfold held_or_todo. f_equal. pose proof (winv_good _ _ _ _ _ _ _ Hi) as (Hg & _ & _).
      rewrite !(view_parts _ p) by done. rewrite Ec. case_match; [done |]. cbn [map lbuf]. rewrite E2.
      apply view_split; lia.
    + rewrite !filled_rev_append. cbn [map lbuf filled]. rewrite E2. cbn. by rewrite Hs.
  - destruct E. split_and!; [done | done | by apply stable_cell | done].
Qed.

(** The end of a turn that has filled a piece up to [q]. *)
Definition fill_turn pre x t base q w p : turn :=
  let b := lbuf x in
  if sync b && (q =? last b) then Again pre (Link (addr x) (set_sync false b) :: t) base w p
  else if sync b && negb (q =? pos b) then
    let '(r, p) := ngx_quic_split_chain p x (q - pos b) in
    match r with
    | None => NoMemory pre (x :: t) w p
    | Some (x, y) => Again pre (Link (addr x) (set_sync false (lbuf x)) :: y :: t) base w p
    end
  else Again pre (x :: t) base w p.

Section fill_turn.

Context (o : Z) (l : list buf) (pre : list link) (x : link) (t : list link) (base : Z) (w w1 : todo) (p p1 : pool) (q : Z).
Context (Hi : winv o l pre (x :: t) base w p).
Context (Hlo : base <= woff w) (Hhi : woff w < base + blen (lbuf x)).
Context (Hsync : sync (lbuf x) = true -> base = woff w).
Context (Hd : fill_done (lbuf x) (pos (lbuf x) + (woff w - base)) (ins w) (woff w) (limit w) (wsize w) p q w1 p1).

Let k := q - (pos (lbuf x) + (woff w - base)).

Lemma fill_less : less_todo k w w1.
Proof. clear -Hd. subst k. destruct Hd. split_and!; done || lia. Qed.

Lemma fill_wf : wf p1 (bufs (rev_append pre (x :: t)) ++ l) /\ links p1 = links p.
Proof.
  destruct Hi as [H1 _ _ _ _ _]. destruct (fd_pool _ _ _ _ _ _ _ _ _ _ Hd) as [f ->].
  split; [by eapply (wf_same p) | done].
Qed.

Lemma fill_others : stable (bufs (rev_append pre t) ++ l) p p1.
Proof.
  apply (stable_other (lbuf x)).
  - rewrite <- bufs_front. by destruct Hi.
  - intros k' y Hy. rewrite (fd_cell _ _ _ _ _ _ _ _ _ _ Hd). unfold covers in Hy.
    pose proof (fd_high _ _ _ _ _ _ _ _ _ _ Hd). rewrite (Nat.eqb_sym k'). revert Hy.
    destruct (shadow (lbuf x) =? k')%nat; cbn; rewrite ?andb_false_r; [| done].
    destruct (sync (lbuf x)); cbn; [| done]. intros Hy. case_match; [lia | done].
Qed.

Lemma fill_stable : stable (bufs (rev pre)) p p1 /\ stable (bufs t) p p1 /\ stable l p p1.
Proof.
  pose proof fill_others as H. rewrite bufs_rev_append in H. apply Forall_app in H as [H ?].
  by apply Forall_app in H as [? ?].
Qed.

(** The bytes that were copied into a hole. *)
Lemma fill_byte y : sync (lbuf x) = true -> base <= y < base + k ->
  Some (cell p1 (shadow (lbuf x)) (pos (lbuf x) + (y - base))) = todo_at w y.
Proof.
  intros Hs Hy. rewrite (fd_cell _ _ _ _ _ _ _ _ _ _ Hd). pose proof (Hsync Hs) as E.
  rewrite Hs, Nat.eqb_refl. subst k. cbn.
  destruct Hd as [? ? Hl Hh _ _ _ _ _ _ _ _ _]. rewrite (todo_within w) by lia.
  case_match; [| lia]. do 2 f_equal. lia.
Qed.

Lemma fill_again post' p' : winv o l pre post' base w1 p' -> cell p' = cell p1 -> (links p1 <= links p')%nat ->
  (forall y, base + blen (lbuf x) <= y ->
    view (cell p1) base (bufs post') y = view (cell p1) (base + blen (lbuf x)) (bufs t) y) ->
  (forall y, base <= y < base + blen (lbuf x) ->
    first_of (view (cell p1) base (bufs post') y) (todo_at w1 y) =
    first_of (view (cell p) base (bufs (x :: t)) y) (todo_at w y)) ->
  filled (bufs post') = filled (bufs (x :: t)) + (if sync (lbuf x) then k else 0) ->
  turn_ok o l pre (x :: t) w p (Again pre post' base w1 p').
Proof.
  intros Hi' Ec Hl Hv Hmid Hf. split; [done |]. destruct fill_stable as (S1 & S2 & S3).
  pose proof fill_wf as [_ El]. pose proof (winv_good _ _ _ _ _ _ _ Hi) as (_ & Hg & _).
  apply Forall_cons in Hg as [Hx _]. pose proof (good_len _ _ Hx) as Hlen.
  pose proof fill_less as Hless. pose proof Hless as (_ & Eo & _ & _ & _).
  assert (Hq : woff w1 <= base + blen (lbuf x)).
  { pose proof (fd_high _ _ _ _ _ _ _ _ _ _ Hd). unfold blen, k in *. lia. }
  split.
  - intros y Hy. eapply (turn_view o l pre (x :: t) base w p post' w1 p' k (blen (lbuf x)) t);
      rewrite ?Ec; try done; [lia | | |].
    + eapply stable_trans; [done | by apply stable_cell].
    + eapply stable_trans; [done | by apply stable_cell].
    + intros z Hz. cbn. destruct (Z.ltb_spec z (base + blen (lbuf x))); [lia | done].
  - rewrite !filled_rev_append, Hf, (fd_size _ _ _ _ _ _ _ _ _ _ Hd). fold k. lia.
  - eapply stable_trans; [exact S3 | by apply stable_cell].
  - lia.
Qed.

Lemma fill_winv post' p' : wf p' (bufs (rev_append pre post') ++ l) -> chain_ok p' (rev_append pre post') ->
  winv o l pre post' base w1 p'.
Proof.
  intros Hw Hc. destruct Hi as [H1 H2 H3 H4 H5 H6]. pose proof fill_less as (_ & Eo & El & Hk & _).
  split; try done; [by destruct Hd | lia | lia].
Qed.

Lemma fill_turn_ok : turn_ok o l pre (x :: t) w p (fill_turn pre x t base q w1 p1).
Proof.
  destruct fill_wf as [Hw El]. pose proof Hi as [_ Hc _ _ _ _].
  assert (Hc1 : chain_ok p1 (rev_append pre (x :: t))) by (eapply chain_ok_quiet; [| done]; lia).
  pose proof fill_less as (_ & Eo & _ & _ & _). pose proof (fd_low _ _ _ _ _ _ _ _ _ _ Hd) as Hlow.
  pose proof (fd_high _ _ _ _ _ _ _ _ _ _ Hd) as Hhigh. unfold fill_turn.
  destruct (sync (lbuf x)) eqn:Es in |- *; cbn [andb].
  - pose proof (Hsync Es) as Hs. destruct (Z.eqb_spec q (last (lbuf x))) as [Eq | Hne]; cbn [andb negb].
    + destruct (flag_link false _ _ _ _ _ Hw Hc1) as [Hw2 Hc2]. apply fill_again; try done.
      * by apply fill_winv.
      * intros y Hy. cbn. unfold blen in *. cbn. case_match; [lia | done].
      * intros y Hy. cbn. unfold blen in *. cbn. case_match; [| lia]. rewrite Es. cbn. apply fill_byte; [done |].
        unfold k. lia.
      * cbn. rewrite Es. unfold blen, k. cbn. lia.
    + destruct (Z.eqb_spec q (pos (lbuf x))) as [Eq | Hne2]; cbn [andb negb].
      * apply fill_again; try done; [by apply fill_winv | | |].
        -- intros y Hy. cbn. case_match; [lia | done].
        -- intros y Hy. cbn. case_match; [| lia]. rewrite Es. cbn. by apply (todo_after k); [apply fill_less |]; lia.
        -- rewrite Es. unfold k. lia.
      * destruct (ngx_quic_split_chain p1 x (q - pos (lbuf x))) as [r p2] eqn:E.
        apply (split_link pre x t l) in E as [(Ec & ? & ?) E]; [| done | done | unfold blen; lia].
        destruct fill_stable as (S1 & S2 & S3). destruct r as [[x1 x2] |].
        -- destruct E as (-> & E2 & Hw2 & Hc2). cbn [addr lbuf].
           destruct (flag_link false _ _ _ _ _ Hw2 Hc2) as [Hw3 Hc3]. apply fill_again; try done.
           ++ by apply fill_winv.
           ++ intros y Hy. cbn. rewrite E2. unfold blen in *. cbn. case_match; [lia |]. case_match; [lia |]. f_equal. lia.
           ++ intros y Hy. cbn. rewrite E2, Es. unfold blen in *. cbn. case_match.
              ** cbn. case_match; [| lia]. apply fill_byte; [done |]. unfold k. lia.
              ** case_match; [| lia]. case_match; [| lia]. cbn. apply (todo_after k); [apply fill_less |].
                 unfold k in *. lia.
           ++ cbn. rewrite E2, Es. unfold blen, k. cbn. lia.
        -- destruct E. split_and!; [done | done | by eapply stable_trans; [| apply stable_cell] | lia].
  - apply fill_again; try done; [by apply fill_winv | | |].
    + intros y Hy. cbn. case_match; [lia | done].
    + intros y Hy. cbn. case_match; [| lia]. rewrite Es. cbn.
      rewrite (fd_cell _ _ _ _ _ _ _ _ _ _ Hd), Es. done.
    + rewrite Es. lia.
Qed.

End fill_turn.

Lemma write_turn_ok o l pre post base w p : winv o l pre post base w p -> ins w <> [] -> limit w <> 0 ->
  turn_ok o l pre post w p (write_turn pre post base w p).
Proof.
  intros Hi Hne Hlim. unfold write_turn. destruct (Z.ltb_spec (woff w) base) as [Hb | Hb]; [by apply pass_ok |].
  destruct (current_link post p) as [r p1] eqn:E. apply (current_ok o l pre post base w p) in E; [| done].
  destruct r as [[x t] |]; [| done]. destruct E as (Hi1 & Hs1 & Hlen).
  assert (Hstep : forall r, turn_ok o l pre (x :: t) w p1 r -> turn_ok o l pre post w p r).
  { intros [pre' post' base' w' p' | pre' post' w' p' |]; cbn; [| | done].
    - intros [? ?]. split; [done |]. by eapply wsame_trans.
    - intros (? & ? & ? & ?). destruct Hs1. split_and!; [done | done | by eapply stable_trans | lia]. }
  apply Hstep. destruct (Z.leb_spec (base + blen (lbuf x)) (woff w)).
  - destruct Hi1 as [H1 H2 H3 H4 H5 H6]. split; [split; try done; [cbn; lia | lia] | by split].
  - destruct (sync (lbuf x) && (base <? woff w)) eqn:Es.
    + destruct (ngx_quic_split_chain p1 x (woff w - base)) as [r p2] eqn:E.
      eapply (split_hole_ok o l) in E; [| done | by destruct (sync (lbuf x)) | lia].
      by destruct r as [[? ?] |].
    + pose proof (winv_good _ _ _ _ _ _ _ Hi1) as (_ & [(? & ? & ?) _]%Forall_cons & _). unfold blen in *.
      pose proof (wi_inputs _ _ _ _ _ _ _ Hi1). pose proof (wi_limit _ _ _ _ _ _ _ Hi1).
      destruct (fill_spec (lbuf x) (pos (lbuf x) + (woff w - base)) (ins w) (woff w) (limit w) (wsize w) p1)
        as (q & w' & p2 & -> & Hd); [lia.. | done |].
      apply (fill_turn_ok o l pre x t base w w' p1 p2 q); [done | done | unfold blen; lia | | done].
      intros Ex. rewrite Ex in Es. cbn in Es. lia.
Qed.

(** What a turn takes from the fuel. *)
Definition remaining (base : Z) (w : todo) : Z :=
  woff w + Z.min (limit w) (Z.of_nat (length (input_bytes (ins w)))) - base.

Definition before_end (post : list link) (base : Z) (w : todo) : nat :=
  match post with
  | x :: _ => if base + blen (lbuf x) <=? woff w then O else 1%nat
  | [] => 1%nat
  end.

Definition measure (post : list link) (base : Z) (w : todo) : nat :=
  (length (ins w) + Z.to_nat (base - woff w) + 3 * Z.to_nat (remaining base w) + before_end post base w)%nat.

Definition over (w : todo) : Prop := ins w = [] \/ limit w = 0.

Lemma before_end_one post base w : woff w <= base -> Forall (fun x => 0 < blen (lbuf x)) post ->
  before_end post base w = 1%nat.
Proof.
  intros Hw. destruct 1 as [|x t Hx _]; [done |]. cbn. destruct (Z.leb_spec (base + blen (lbuf x)) (woff w)); [lia | done].
Qed.

Lemma pass_measure post base w : woff w < base -> ins w <> [] -> limit w <> 0 -> 0 <= limit w ->
  Forall (fun x => 0 < blen (lbuf x)) post -> (measure post base (pass_input w base) < measure post base w)%nat.
Proof.
  intros Hb Hne Hlim Hl Hp. unfold measure, remaining, pass_input. destruct w as [ws off lim size]. cbn in *.
  destruct ws as [|[m d] ws]; [done |]. set (n := Z.min (Z.of_nat (length d)) (Z.min (base - off) lim)).
  assert (Hn : 0 <= n <= Z.of_nat (length d) /\ n <= base - off /\ n <= lim /\ (n = 0 -> d = [])).
  { split_and!; try lia. intros E. apply nil_length_inv. lia. }
  clearbody n. destruct Hn as (Hn & Hnb & Hnl & Hnil).
  set (ws' := match drop (Z.to_nat n) d with [] => ws | _ => Input m (drop (Z.to_nat n) d) :: ws end).
  assert (Eb : Z.of_nat (length (input_bytes ws')) + n = Z.of_nat (length d + length (input_bytes ws))).
  { pose proof (length_drop d (Z.to_nat n)) as El. unfold ws'. destruct (drop (Z.to_nat n) d) eqn:E.
    - cbn in El. lia.
    - rewrite input_bytes_cons, length_app, El. lia. }
  assert (Hw : (length ws' + Z.to_nat (base - (off + n)) < S (length ws) + Z.to_nat (base - off))%nat).
  { unfold ws'. destruct (Z.eq_dec n 0) as [E | E].
    - rewrite (Hnil E), E, drop_nil. lia.
    - destruct (drop (Z.to_nat n) d); cbn; lia. }
  rewrite input_bytes_cons, length_app. cbn [ins woff limit].
  rewrite !before_end_one by (done || cbn; lia). cbn [ins]. clearbody ws'.
  cbn [length]. lia.
Qed.

Lemma fill_turn_measure o l pre x t base w w1 p p1 q post' base' w' p' pre' :
  winv o l pre (x :: t) base w p -> base <= woff w -> woff w < base + blen (lbuf x) ->
  fill_done (lbuf x) (pos (lbuf x) + (woff w - base)) (ins w) (woff w) (limit w) (wsize w) p q w1 p1 ->
  fill_turn pre x t base q w1 p1 = Again pre' post' base' w' p' ->
  (measure post' base' w' < measure (x :: t) base w)%nat \/ over w'.
Proof.
  intros Hi Hlo Hhi Hd E. destruct Hd as [F1 F2 F3 F4 F5 F6 F7 F8 F9 F10 F11 F12 F13].
  set (k := q - (pos (lbuf x) + (woff w - base))) in *.
  assert (Hw1 : w' = w1 /\ base' = base /\ (q = last (lbuf x) -> exists v, post' = Link (addr x) (set_sync v (lbuf x)) :: t)).
  { unfold fill_turn in E. destruct (sync (lbuf x)) eqn:Es; cbn [andb] in E.
    - destruct (Z.eqb_spec q (last (lbuf x))) as [Eq | Hne]; cbn [andb] in E.
      + injection E as <- <- <- <- <-. split_and!; [done | done |]. intros _. by exists false.
      + destruct (Z.eqb_spec q (pos (lbuf x))); cbn [negb] in E; [by injection E as <- <- <- <- <- |].
        destruct (ngx_quic_split_chain p1 x (q - pos (lbuf x))) as [[[? ?] |] ?]; [| done].
        by injection E as <- <- <- <- <-.
    - injection E as <- <- <- <- <-. split_and!; [done | done |]. intros _. exists false. destruct x as [a [? ? ? ? ?]].
      cbn in *. by rewrite Es. }
  destruct Hw1 as (-> & -> & Hpost). destruct F9 as [F9 | [Eq | F9]]; [by right; left | | by right; right].
  left. destruct (Hpost Eq) as [v ->]. unfold measure, remaining. rewrite F5, F6, F7, length_drop.
  unfold before_end. cbn [lbuf]. unfold blen in *. cbn [set_sync last pos].
  destruct (Z.leb_spec (base + (last (lbuf x) - pos (lbuf x))) (woff w1)); [| lia].
  destruct (Z.leb_spec (base + (last (lbuf x) - pos (lbuf x))) (woff w)); lia.
Qed.

Lemma write_turn_measure o l pre post base w p pre' post' base' w' p' : winv o l pre post base w p ->
  ins w <> [] -> limit w <> 0 -> write_turn pre post base w p = Again pre' post' base' w' p' ->
  (measure post' base' w' < measure post base w)%nat \/ over w'.
Proof.
  intros Hi Hne Hlim. pose proof (winv_good _ _ _ _ _ _ _ Hi) as (_ & Hg & _).
  pose proof (wi_limit _ _ _ _ _ _ _ Hi) as Hl. unfold write_turn. destruct (Z.ltb_spec (woff w) base) as [Hb | Hb].
  { intros [= <- <- <- <- <-]. left. apply pass_measure; try done. apply (Forall_fmap lbuf (good p)) in Hg.
    eapply Forall_impl; [exact Hg |]. intros y ?. by eapply good_len. }
  destruct (current_link post p) as [r p1] eqn:E.
  pose proof (current_ok o l pre post base w p _ _ Hi E) as Hr. destruct r as [[x t] |]; [| done].
  destruct Hr as (Hi1 & _ & Hlen).
  assert (Hm : (measure (x :: t) base w <= measure post base w)%nat).
  { destruct post as [|y s]; [| by injection E as <- <- <-]. unfold measure, before_end. case_match; lia. }
  destruct (Z.leb_spec (base + blen (lbuf x)) (woff w)) as [Ha | Ha].
  - intros [= <- <- <- <- <-]. left. eapply Nat.lt_le_trans; [| exact Hm]. unfold measure.
    assert (0 < Z.min (limit w) (Z.of_nat (length (input_bytes (ins w)))) \/
      Z.min (limit w) (Z.of_nat (length (input_bytes (ins w)))) = 0) as [Hpos | H0] by lia.
    + assert (before_end t (base + blen (lbuf x)) w <= 1)%nat by (unfold before_end; repeat case_match; lia).
      unfold remaining. cbn [before_end]. lia.
    + assert (before_end t (base + blen (lbuf x)) w <= 1)%nat by (unfold before_end; repeat case_match; lia).
      unfold remaining. lia.
  - destruct (sync (lbuf x) && (base <? woff w)) eqn:Es.
    + destruct (ngx_quic_split_chain p1 x (woff w - base)) as [[[x1 x2] |] p2] eqn:E2; [| done].
      intros [= <- <- <- <- <-]. left. eapply Nat.lt_le_trans; [| exact Hm].
      pose proof (wi_wf _ _ _ _ _ _ _ Hi1) as Hw. pose proof (wi_chain _ _ _ _ _ _ _ Hi1) as Hc.
      apply (split_link pre x t l _ _ _ _ Hw Hc) in E2 as [_ (-> & _)]; [| lia].
      unfold measure, before_end. cbn [lbuf]. unfold blen. cbn [set_last last pos]. unfold blen in *.
      repeat case_match; lia.
    + destruct (fill (lbuf x) (pos (lbuf x) + (woff w - base)) (ins w) (woff w) (limit w) (wsize w) p1)
        as [[[q w1] p2] |] eqn:E2; [| done].
      pose proof (winv_good _ _ _ _ _ _ _ Hi1) as (_ & [(? & ? & ?) _]%Forall_cons & _).
      destruct (fill_spec (lbuf x) (pos (lbuf x) + (woff w - base)) (ins w) (woff w) (limit w) (wsize w) p1)
        as (q' & w2 & p3 & E3 & Hd); [unfold blen in *; lia | done | done | by destruct Hi |].
      rewrite E3 in E2. injection E2 as -> -> ->. intros Et.
      destruct (fill_turn_measure o l pre x t base w w1 p1 p2 q post' base' w' p' pre') as [? | ?]; try done;
        [left; lia | by right].
Qed.

Lemma less_refl w : 0 <= limit w -> less_todo 0 w w.
Proof. intros. split_and!; done || lia. Qed.

Lemma less_trans j k w1 w2 w3 : less_todo j w1 w2 -> less_todo k w2 w3 -> less_todo (j + k) w1 w3.
Proof.
  intros (A1 & A2 & A3 & A4 & A5) (B1 & B2 & B3 & B4 & B5). rewrite A1, length_drop in B5. split_and!; try lia.
  rewrite B1, A1, drop_drop. f_equal. lia.
Qed.

Lemma pass_less w base : woff w <= base -> 0 <= limit w -> exists k, less_todo k w (pass_input w base).
Proof.
  intros Hb Hlim. unfold pass_input. destruct w as [ws off lim size]. cbn in *.
  destruct ws as [|[m d] ws]; [exists 0; by apply less_refl |].
  set (n := Z.min (Z.of_nat (length d)) (Z.min (base - off) lim)). exists n.
  assert (0 <= n <= Z.of_nat (length d) /\ n <= lim) as [? ?] by lia. clearbody n.
  split_and!; cbn [ins woff limit]; try lia; rewrite input_bytes_cons; [| rewrite length_app; lia].
  rewrite drop_app. replace (Z.to_nat n - length d)%nat with O by lia. by destruct (drop (Z.to_nat n) d).
Qed.

(** A turn takes its bytes from the front of what there is to do. *)
Lemma write_turn_less o l pre post base w p pre' post' base' w' p' : winv o l pre post base w p ->
  write_turn pre post base w p = Again pre' post' base' w' p' -> exists k, less_todo k w w'.
Proof.
  intros Hi. pose proof (wi_limit _ _ _ _ _ _ _ Hi) as Hlim. pose proof (wi_inputs _ _ _ _ _ _ _ Hi) as Hins.
  unfold write_turn. destruct (Z.ltb_spec (woff w) base) as [Hb | Hb]; [intros [= <- <- <- <- <-]; apply pass_less; lia |].
  destruct (current_link post p) as [r p1] eqn:E. apply (current_ok o l pre post base w p) in E; [| done].
  destruct r as [[x t] |]; [| done]. destruct E as (Hi1 & _ & _).
  destruct (Z.leb_spec (base + blen (lbuf x)) (woff w)); [intros [= <- <- <- <- <-]; exists 0; by apply less_refl |].
  destruct (sync (lbuf x) && (base <? woff w)).
  { destruct (ngx_quic_split_chain p1 x (woff w - base)) as [[[? ?] |] ?]; [| done].
    intros [= <- <- <- <- <-]. exists 0. by apply less_refl. }
  pose proof (winv_good _ _ _ _ _ _ _ Hi1) as (_ & [(? & ? & ?) _]%Forall_cons & _). unfold blen in *.
  destruct (fill_spec (lbuf x) (pos (lbuf x) + (woff w - base)) (ins w) (woff w) (limit w) (wsize w) p1)
    as (q & w1 & p2 & -> & Hd); [lia.. | done |].
  assert (Hl : less_todo (q - (pos (lbuf x) + (woff w - base))) w w1) by (destruct Hd; split_and!; done || lia).
  repeat case_match; intros E; try discriminate; injection E as <- <- <- <- <-; by eexists.
Qed.

Definition written_ok o l pre post w p (r : written) : Prop :=
  wf (wpool r) (bufs (rev_append (before r) (after r)) ++ l) /\ stable l p (wpool r) /\
  (links p <= links (wpool r))%nat /\
  if ok r then
    winv o l (before r) (after r) (wbase r) (left_todo r) (wpool r) /\ over (left_todo r) /\
    wsame o l pre post w p (before r) (after r) (left_todo r) (wpool r) /\ exists k, less_todo k w (left_todo r)
  else refused.

Lemma exhausted_nil (s : list input) : exhausted s = true <-> s = [].
Proof. by destruct s. Qed.

Lemma write_loop_over fuel o l pre post base w p : winv o l pre post base w p -> over w ->
  exists r, write_loop fuel pre post base w p = Some r /\ written_ok o l pre post w p r.
Proof.
  intros Hi Ho. exists (Written true pre post base w p). split.
  - assert (exhausted (ins w) || (limit w =? 0) = true) as E.
    { destruct Ho as [Ho | Ho]; rewrite Ho; [done |]. by rewrite orb_true_r. }
    destruct fuel; cbn; by rewrite E.
  - split_and!; cbn; [by destruct Hi | done | done |].
    split_and!; [done | done | apply wsame_refl | exists 0; apply less_refl; by destruct Hi].
Qed.

Lemma write_loop_spec fuel o l pre post base w p : winv o l pre post base w p ->
  (measure post base w < fuel)%nat ->
  exists r, write_loop fuel pre post base w p = Some r /\ written_ok o l pre post w p r.
Proof.
  revert pre post base w p. induction fuel as [|fuel IH]; intros pre post base w p Hi Hm; [lia |].
  destruct (exhausted (ins w) || (limit w =? 0)) eqn:E.
  { apply write_loop_over; [done |]. apply orb_true_iff in E as [E | E]; [left; by apply exhausted_nil | right; lia]. }
  cbn [write_loop]. rewrite E. apply orb_false_iff in E as [E1 E2].
  assert (Hne : ins w <> []) by (intros H; by rewrite H in E1). assert (Hlim : limit w <> 0) by lia.
  pose proof (write_turn_ok o l pre post base w p Hi Hne Hlim) as Ht.
  pose proof (fun pre' post' base' w' p' => write_turn_measure o l pre post base w p pre' post' base' w' p' Hi Hne Hlim) as Hms.
  destruct (write_turn pre post base w p) as [pre' post' base' w' p' | pre' post' w' p' |] eqn:Et; [| | done].
  - destruct Ht as [Hi' Hs]. pose proof Hi as Hk. eapply write_turn_less in Hk as [k Hk]; [| done].
    destruct (Hms _ _ _ _ _ eq_refl) as [Hlt | Ho].
    + destruct (IH _ _ _ _ _ Hi' ltac:(lia)) as (r & -> & Hr). exists r. split; [done |].
      destruct Hr as (H1 & H2 & H3 & H4). destruct Hs as [S1 S2 S3 S4].
      split_and!; [done | by eapply stable_trans | lia |].
      destruct (ok r); [| done]. destruct H4 as (? & ? & ? & k' & ?). split_and!; [done | done | |].
      * eapply wsame_trans; [by split | done].
      * eexists. by eapply less_trans.
    + destruct (write_loop_over fuel _ _ _ _ _ _ _ Hi' Ho) as (r & -> & Hr). exists r. split; [done |].
      destruct Hr as (H1 & H2 & H3 & H4). destruct Hs as [S1 S2 S3 S4].
      split_and!; [done | by eapply stable_trans | lia |].
      destruct (ok r); [| done]. destruct H4 as (? & ? & ? & k' & ?). split_and!; [done | done | |].
      * eapply wsame_trans; [by split | done].
      * eexists. by eapply less_trans.
  - destruct Ht as (? & ? & ? & ?). eexists. split; [done |]. by split_and!.
Qed.

(** The stream after a write of [d] at [off]: a byte that was there stays. *)
Definition stream_write (d : list Z) (off : Z) (s : stream) : stream :=
  Stream (sbase s) (fun x => first_of (byte_at s x) (lay d off x)).

Lemma find_link_spec a pre l pre' x post : NoDup (map addr l) -> l = pre' ++ x :: post -> addr x = a ->
  find_link a pre l = Some (rev_append pre' pre, x :: post).
Proof.
  revert pre l. induction pre' as [|y pre' IH]; intros pre l Hn -> Ha; cbn.
  - by rewrite Ha, Nat.eqb_refl.
  - destruct (Nat.eqb_spec (addr y) a) as [E |].
    + cbn in Hn. apply NoDup_cons in Hn as [Hy _]. destruct Hy. rewrite map_app, E, <- Ha. cbn. set_solver.
    + apply IH; [| done | done]. cbn in Hn. by apply NoDup_cons in Hn as [_ Hn].
Qed.

Lemma write_buffer_spec p qb s l inp lim off : wf p (bufs (qchain qb) ++ l) -> represents p qb s ->
  inputs_ok inp -> 0 <= lim ->
  exists r qb' p', ngx_quic_write_buffer p qb inp lim off = Some (r, qb', p') /\
    wf p' (bufs (qchain qb') ++ l) /\ stable l p p' /\ (links p <= links p')%nat /\
    match r with
    | Some rest =>
        represents p' qb' (stream_write (take (Z.to_nat lim) (input_bytes inp)) off s) /\ gone qb' = gone qb /\
        input_bytes rest = drop (Z.to_nat lim) (input_bytes inp)
    | None => refused
    end.
Proof.
  intros Hw [R1 R2 R3 R4] Hok Hlim. unfold ngx_quic_write_buffer.
  set (start := match last_chain qb with Some _ => _ | None => _ end).
  set (w := Todo inp off lim (qsize qb)).
  assert (Hstart : exists pre post base, start = Some (pre, post, base) /\ rev_append pre post = qchain qb /\
    base = qoffset qb + total (bufs pre) /\ (off < base -> base = qoffset qb)).
  { unfold start. destruct (last_chain qb) as [a |] eqn:Ea; [| by exists [], (qchain qb), (qoffset qb); cbn; split_and!; try lia].
    destruct (Z.leb_spec (last_offset qb) off); [| by exists [], (qchain qb), (qoffset qb); cbn; split_and!; try lia].
    destruct (R4 a eq_refl) as (pre & x & post & Ec & Hx & Ho). destruct R3 as [Hn _].
    rewrite (find_link_spec a [] (qchain qb) pre x post Hn Ec Hx). cbn [mbind option_bind].
    exists (rev_append pre []), (x :: post), (last_offset qb). split_and!; [done | | | lia].
    - by rewrite !rev_append_rev, app_nil_r, rev_involutive.
    - by rewrite rev_append_rev, app_nil_r, total_rev. }
  destruct Hstart as (pre & post & base & -> & Ec & Eb & Hb). cbn [mbind option_bind].
  assert (Hi : winv (qoffset qb) l pre post base w p).
  { split; rewrite ?Ec; done. }
  assert (Hm : (measure post base w < write_fuel base w)%nat).
  { unfold measure, write_fuel, remaining. assert (before_end post base w <= 1)%nat by (unfold before_end; repeat case_match; lia).
    lia. }
  destruct (write_loop_spec _ _ _ _ _ _ _ _ Hi Hm) as (r & -> & Hw' & Hst & Hl & Hr). cbn [mbind option_bind].
  destruct (ok r).
  - destruct Hr as ([I1 I2 I3 I4 I5 I6] & Ho & [S1 S2 S3 S4] & k & Hk).
    eexists _, _, _. split; [done |]. cbn [qchain]. split_and!; [done.. | | |].
    + split; cbn; [done | | done |].
      * intros x Hx. rewrite <- R2 by done. rewrite <- R1 in Hx. specialize (S1 x Hx). unfold held_or_todo in S1.
        rewrite Ec in S1. change (lay _ off x) with (todo_at w x). rewrite <- S1.
        assert (todo_at (left_todo r) x = None) as ->; [| by destruct (view _ _ _ x)].
        unfold todo_at, lay, todo_bytes. case_match; [| done]. destruct Ho as [Ho | Ho]; rewrite Ho; [| done].
        unfold input_bytes. cbn. by rewrite take_nil.
      * intros a Ha. destruct (after r) as [|x t] eqn:E; [done |]. cbn in Ha. injection Ha as <-.
        exists (rev (before r)), x, t. split_and!; [by rewrite rev_append_rev | done | by rewrite total_rev].
    + unfold gone. cbn. rewrite Ec in S2. cbn in S2. lia.
    + destruct Hk as (K1 & _ & K3 & K4 & K5). cbn in K1, K3, K4, K5. rewrite K1.
      destruct Ho as [Ho | Ho]; [| f_equal; lia].
      assert (Hlen : length (input_bytes (ins (left_todo r))) = O) by (by rewrite Ho). rewrite K1, length_drop in Hlen.
      rewrite !drop_ge by lia. done.
  - eexists _, _, _. split; [done |]. cbn. by split_and!.
Qed.

(** ** The buffers of a connection *)

(** The streams of a connection write to and read from their buffers; the chains that
    were read are held (a frame that was sent keeps its bytes until it is
    acknowledged) and freed later. *)
Inductive op : Type :=
  | Write (i : nat) (inp : list input) (lim off : Z)
  | Read (i : nat) (lim : Z)
  | Skip (i : nat) (n : Z)
  | FreeBuffer (i : nat)
  | FreeChain (j : nat).

Record system : Type := System { spool : pool; sbufs : list qbuf; sheld : list (list link) }.

(** One operation, and whether memory was there for it. *)
Definition exec (e : op) (st : system) : option (system * bool) :=
  let 'System p bs held := st in
  match e with
  | Write i inp lim off =>
      qb ← bs !! i;
      '(r, qb, p) ← ngx_quic_write_buffer p qb inp lim off;
      Some (System p (<[i := qb]> bs) held, match r with Some _ => true | None => false end)
  | Read i lim =>
      qb ← bs !! i;
      let '(r, qb, p) := ngx_quic_read_buffer p qb lim in
      match r with
      | Some out => Some (System p (<[i := qb]> bs) (held ++ [out]), true)
      | None => Some (System p (<[i := qb]> bs) held, false)
      end
  | Skip i n =>
      qb ← bs !! i;
      let '(qb, p) := ngx_quic_skip_buffer p qb (qoffset qb + n) in
      Some (System p (<[i := qb]> bs) held, true)
  | FreeBuffer i =>
      qb ← bs !! i;
      let '(qb, p) := ngx_quic_free_buffer p qb in
      Some (System p (<[i := qb]> bs) held, true)
  | FreeChain j =>
      Some (System (ngx_quic_free_chain p (default [] (held !! j))) bs (delete j held), true)
  end.

(** The operations up to the first that has no memory, and how many were done. *)
Fixpoint history (es : list op) (st : system) : option (system * nat) :=
  match es with
  | [] => Some (st, O)
  | e :: es =>
      '(st, good) ← exec e st;
      if (good : bool) then '(st, n) ← history es st; Some (st, S n) else Some (st, O)
  end.

Definition pool_init (c : nat -> Z -> Z) : pool := Pool c (fun _ => 0) [] 0 0 0 0.

Definition system_init (c : nat -> Z -> Z) (n : nat) : system := System (pool_init c) (repeat qbuf_zero n) [].

(** What they mean: streams of bytes, and the bytes that were read. *)
Record meaning : Type := Meaning { streams : list stream; kept : list (list Z) }.

Inductive means : op -> meaning -> meaning -> Prop :=
  | means_write i inp lim off ss ks s : ss !! i = Some s ->
      means (Write i inp lim off) (Meaning ss ks)
        (Meaning (<[i := stream_write (take (Z.to_nat lim) (input_bytes inp)) off s]> ss) ks)
  | means_read i lim ss ks s d : ss !! i = Some s -> run_of (byte_at s) (sbase s) lim d ->
      means (Read i lim) (Meaning ss ks)
        (Meaning (<[i := Stream (sbase s + Z.of_nat (length d)) (byte_at s)]> ss) (ks ++ [d]))
  | means_skip i n ss ks s : ss !! i = Some s ->
      means (Skip i n) (Meaning ss ks) (Meaning (<[i := Stream (sbase s + n) (byte_at s)]> ss) ks)
  | means_free i ss ks s : ss !! i = Some s ->
      means (FreeBuffer i) (Meaning ss ks) (Meaning (<[i := Stream (sbase s) (fun _ => None)]> ss) ks)
  | means_chain j ss ks : means (FreeChain j) (Meaning ss ks) (Meaning ss (delete j ks)).

Inductive means_all : list op -> meaning -> meaning -> Prop :=
  | means_nil a : means_all [] a a
  | means_cons e es a1 a2 a3 : means e a1 a2 -> means_all es a2 a3 -> means_all (e :: es) a1 a3.

Definition op_ok (n : nat) (e : op) : Prop :=
  match e with
  | Write i inp lim _ => (i < n)%nat /\ inputs_ok inp /\ 0 <= lim
  | Read i lim => (i < n)%nat /\ 0 <= lim
  | Skip i k => (i < n)%nat /\ 0 <= k
  | FreeBuffer i => (i < n)%nat
  | FreeChain _ => True
  end.

(** The bytes that are held, and what the buffers stand for. *)
Definition held_ok (st : system) (a : meaning) : Prop :=
  Forall2 (fun c d => chain_bytes (cell (spool st)) (bufs c) = d) (sheld st) (kept a).

Definition buffers_ok (st : system) (a : meaning) : Prop :=
  Forall2 (represents (spool st)) (sbufs st) (streams a).

Definition chains (bs : list qbuf) : list buf := bufs (concat (map qchain bs)).

Definition system_wf (st : system) : Prop :=
  wf (spool st) (chains (sbufs st) ++ bufs (concat (sheld st))).

(** ** Lemmas: the buffers of a connection *)

Definition others (i : nat) (bs : list qbuf) : list buf := chains (take i bs ++ drop (S i) bs).

Lemma chains_app l1 l2 : chains (l1 ++ l2) = chains l1 ++ chains l2.
Proof. unfold chains. by rewrite map_app, concat_app, map_app. Qed.

Lemma chains_insert i qb bs : (i < length bs)%nat -> Permutation (chains (<[i := qb]> bs)) (bufs (qchain qb) ++ others i bs).
Proof.
  intros Hi. rewrite insert_take_drop by done. unfold others. rewrite !chains_app.
  change (chains (qb :: drop (S i) bs)) with (bufs (qchain qb ++ concat (map qchain (drop (S i) bs)))).
  rewrite map_app, app_assoc, (Permutation_app_comm (chains (take i bs))), <- app_assoc. done.
Qed.

Lemma chains_split i qb bs : bs !! i = Some qb -> Permutation (chains bs) (bufs (qchain qb) ++ others i bs).
Proof.
  intros Hi. rewrite <- (chains_insert i qb) by (by eapply lookup_lt_Some). by rewrite list_insert_id.
Qed.

Lemma held_stable p p' bs bs' held a : stable (bufs (concat held)) p p' ->
  held_ok (System p bs held) a -> held_ok (System p' bs' held) a.
Proof.
  unfold held_ok. cbn. intros Hs F. revert Hs. induction F as [|c d cs ds Hc F IH]; intros Hs; [constructor |].
  cbn in Hs. rewrite map_app in Hs. apply Forall_app in Hs as [Hs1 Hs2].
  constructor; [by rewrite (chain_bytes_stable p p') | by apply IH].
Qed.

Lemma represents_all p p' bs ss : (links p <= links p')%nat -> stable (chains bs) p p' ->
  Forall2 (represents p) bs ss -> Forall2 (represents p') bs ss.
Proof.
  intros Hl Hs F. revert Hs. induction F as [|b s bs ss Hb F IH]; intros Hs; [constructor |].
  unfold chains in Hs. cbn in Hs. rewrite map_app in Hs. apply Forall_app in Hs as [Hs1 Hs2].
  constructor; [by eapply represents_stable | by apply IH].
Qed.

(** One buffer changes, and the others stay what they are. *)
Lemma buffers_insert p p' i qb s bs ss held held' ks ks' : (links p <= links p')%nat -> stable (others i bs) p p' ->
  (i < length bs)%nat -> buffers_ok (System p bs held) (Meaning ss ks) -> represents p' qb s ->
  buffers_ok (System p' (<[i := qb]> bs) held') (Meaning (<[i := s]> ss) ks').
Proof.
  unfold buffers_ok. cbn. intros Hl Hs Hi F Hr. pose proof (Forall2_length _ _ _ F).
  unfold others in Hs. rewrite chains_app in Hs. apply Forall_app in Hs as [Hs1 Hs2].
  rewrite !insert_take_drop by lia. apply Forall2_app; [| constructor; [done |]].
  - eapply represents_all; [done | done |]. by apply Forall2_take.
  - eapply represents_all; [done | done |]. by apply Forall2_drop.
Qed.

(** What an operation does to a system that stands for [a]. *)
Definition exec_ok (e : op) (n : nat) (a : meaning) (r : option (system * bool)) : Prop :=
  exists st' good, r = Some (st', good) /\ system_wf st' /\ length (sbufs st') = n /\
    if (good : bool) then exists a', means e a a' /\ held_ok st' a' /\ buffers_ok st' a'
    else refused /\ held_ok st' a.

Section exec.

Context (n : nat) (p : pool) (bs : list qbuf) (held : list (list link)) (ss : list stream) (ks : list (list Z)).
Context (Hw : system_wf (System p bs held)) (Hn : length bs = n).
Context (Hheld : held_ok (System p bs held) (Meaning ss ks)) (Hbufs : buffers_ok (System p bs held) (Meaning ss ks)).

Let st : system := System p bs held.
Let a : meaning := Meaning ss ks.

(** The buffer [i], its stream, and the rest of the memory. *)
Lemma exec_buffer i : (i < n)%nat -> exists qb s, bs !! i = Some qb /\ ss !! i = Some s /\ represents p qb s /\
  wf p (bufs (qchain qb) ++ others i bs ++ bufs (concat held)).
Proof.
  intros Hi. rewrite <- Hn in Hi. destruct (lookup_lt_is_Some_2 bs i Hi) as [qb Hqb].
  destruct (Forall2_lookup_l _ _ _ _ _ Hbufs Hqb) as (s & Hs & Hr).
  exists qb, s. split_and!; [done.. |]. unfold system_wf in Hw. cbn [spool sbufs sheld] in Hw.
  eapply wf_perm; [| exact Hw]. rewrite (chains_split i qb bs Hqb). by rewrite app_assoc.
Qed.

(** The buffer [i] becomes [qb]. *)
Lemma exec_update i qb s p' : (i < n)%nat -> wf p' (bufs (qchain qb) ++ others i bs ++ bufs (concat held)) ->
  stable (others i bs ++ bufs (concat held)) p p' -> (links p <= links p')%nat ->
  let st' := System p' (<[i := qb]> bs) held in
  system_wf st' /\ length (sbufs st') = n /\ held_ok st' a /\
  (represents p' qb s -> buffers_ok st' (Meaning (<[i := s]> ss) ks) /\ held_ok st' (Meaning (<[i := s]> ss) ks)).
Proof.
  intros Hi Hw' Hs Hl st'. apply Forall_app in Hs as [Hs1 Hs2].
  assert (Hh : held_ok st' a) by (by eapply held_stable). split_and!; [| | done |].
  - unfold system_wf, st'. cbn [spool sbufs sheld]. eapply wf_perm; [| exact Hw'].
    rewrite chains_insert by lia. by rewrite app_assoc.
  - unfold st'. cbn. by rewrite length_insert.
  - intros Hr. split; [| done]. eapply buffers_insert; try done. by rewrite Hn.
Qed.

Lemma exec_write i inp lim off : (i < n)%nat -> inputs_ok inp -> 0 <= lim ->
  exec_ok (Write i inp lim off) n a (exec (Write i inp lim off) st).
Proof.
  intros Hi Hok Hlim. destruct (exec_buffer i Hi) as (qb & s & Hqb & Hs & Hr & Hwq). unfold exec, st.
  rewrite Hqb. cbn [mbind option_bind].
  destruct (write_buffer_spec p qb s _ inp lim off Hwq Hr Hok Hlim) as (r & qb' & p' & -> & Hw' & Hst & Hl & Hres).
  cbn [mbind option_bind]. destruct (exec_update i qb' (stream_write (take (Z.to_nat lim) (input_bytes inp)) off s) p'
    Hi Hw' Hst Hl) as (U1 & U2 & U3 & U4).
  eexists _, _. split; [done |]. split_and!; [done | done |]. destruct r as [rest |]; [| done].
  destruct Hres as [Hres _]. destruct (U4 Hres) as [B1 B2]. eexists. split_and!; [by apply means_write | done | done].
Qed.

Lemma exec_read i lim : (i < n)%nat -> 0 <= lim -> exec_ok (Read i lim) n a (exec (Read i lim) st).
Proof.
  intros Hi Hlim. destruct (exec_buffer i Hi) as (qb & s & Hqb & Hs & Hr & Hwq). unfold exec, st.
  rewrite Hqb. cbn [mbind option_bind].
  destruct (ngx_quic_read_buffer p qb lim) as [[r qb'] p'] eqn:E.
  apply (read_buffer_spec _ _ s _ _ _ _ _ Hwq Hr Hlim) in E as [Hq E].
  assert (Hst : stable (others i bs ++ bufs (concat held)) p p') by (apply stable_cell; by destruct Hq).
  assert (Hl : (links p <= links p')%nat) by (by destruct Hq as (_ & _ & ?)).
  destruct r as [out |].
  - cbn zeta in E. set (d := chain_bytes (cell p') (bufs out)) in *. destruct E as (Hw' & Hrun & Hr' & _).
    eexists _, _. split; [done |]. split_and!.
    + unfold system_wf. cbn [spool sbufs sheld]. eapply wf_perm; [| exact Hw']. rewrite chains_insert by lia.
      rewrite concat_app, map_app. cbn [concat map]. rewrite app_nil_r.
      by rewrite (Permutation_app_comm (bufs out)), <- !app_assoc.
    + cbn. by rewrite length_insert.
    + eexists. split_and!; [by eapply means_read | |].
      * unfold held_ok. cbn. apply Forall2_app; [| by constructor].
        apply Forall_app in Hst as [_ Hst]. exact (held_stable p p' bs bs held a Hst Hheld).
      * eapply (buffers_insert p p'); try done; [by apply Forall_app in Hst as [? _] | by rewrite Hn].
  - destruct E as [Href Hw']. destruct (exec_update i qb' s p' Hi Hw' Hst Hl) as (U1 & U2 & U3 & _).
    eexists _, _. split; [done |]. by split_and!.
Qed.

Lemma exec_skip i k : (i < n)%nat -> 0 <= k -> exec_ok (Skip i k) n a (exec (Skip i k) st).
Proof.
  intros Hi Hk. destruct (exec_buffer i Hi) as (qb & s & Hqb & Hs & Hr & Hwq). unfold exec, st.
  rewrite Hqb. cbn [mbind option_bind].
  destruct (ngx_quic_skip_buffer p qb (qoffset qb + k)) as [qb' p'] eqn:E. pose proof (rp_base _ _ _ Hr) as Eb.
  apply (skip_buffer_spec _ _ s _ _ _ _ Hwq Hr) in E as (Hq & Hw' & Hr'); [| lia].
  destruct (exec_update i qb' (Stream (sbase s + k) (byte_at s)) p' Hi Hw') as (U1 & U2 & U3 & U4);
    [apply stable_cell; by destruct Hq | by destruct Hq as (_ & _ & ?) |].
  rewrite Eb in Hr'. destruct (U4 Hr') as [B1 B2].
  eexists _, _. split; [done |]. split_and!; [done | done |]. eexists. split_and!; [by apply means_skip | done | done].
Qed.

Lemma exec_free_buffer i : (i < n)%nat -> exec_ok (FreeBuffer i) n a (exec (FreeBuffer i) st).
Proof.
  intros Hi. destruct (exec_buffer i Hi) as (qb & s & Hqb & Hs & Hr & Hwq). unfold exec, st, ngx_quic_free_buffer.
  rewrite Hqb. cbn [mbind option_bind]. destruct (free_chain_spec _ _ _ Hwq) as [Hw' Hq].
  set (p' := ngx_quic_free_chain p (qchain qb)) in *. set (qb' := Qbuf _ _ _ _ _).
  destruct (exec_update i qb' (Stream (sbase s) (fun _ => None)) p' Hi Hw') as (U1 & U2 & U3 & U4);
    [apply stable_cell; by destruct Hq | by destruct Hq as (_ & _ & ?) |].
  destruct U4 as [B1 B2]; [split; cbn; [by destruct Hr | done | by split; constructor | done] |].
  eexists _, _. split; [done |]. split_and!; [done | done |]. eexists. split_and!; [by apply means_free | done | done].
Qed.

Lemma exec_free_chain j : exec_ok (FreeChain j) n a (exec (FreeChain j) st).
Proof.
  unfold exec, st. set (c := default [] (held !! j)).
  assert (Hp : Permutation (bufs (concat held)) (bufs c ++ bufs (concat (delete j held)))).
  { unfold c. destruct (held !! j) as [x |] eqn:E; cbn.
    - rewrite <- map_app. apply Permutation_map. change (x ++ concat (delete j held)) with (concat (x :: delete j held)).
      rewrite (delete_Permutation held j x E) at 1. done.
    - apply lookup_ge_None in E. by rewrite delete_take_drop, take_ge, drop_ge, app_nil_r by lia. }
  unfold system_wf in Hw. cbn in Hw. rewrite Hp, app_assoc, (Permutation_app_comm (chains bs)), <- app_assoc in Hw.
  destruct (free_chain_spec _ _ _ Hw) as [Hw' (Ec & Eb & El)].
  eexists _, _. split; [done |]. split_and!; [done | done |].
  eexists. split_and!; [apply means_chain | |].
  - unfold held_ok in *. cbn in *. rewrite Ec. by apply Forall2_delete.
  - eapply represents_all; [done | by apply stable_cell | done].
Qed.

Lemma exec_spec e : op_ok n e -> exec_ok e n a (exec e st).
Proof.
  destruct e; cbn [op_ok]; intros Hok.
  - destruct Hok as (? & ? & ?). by apply exec_write.
  - destruct Hok. by apply exec_read.
  - destruct Hok. by apply exec_skip.
  - by apply exec_free_buffer.
  - apply exec_free_chain.
Qed.

End exec.

Lemma history_spec es n st a : system_wf st -> length (sbufs st) = n -> held_ok st a -> buffers_ok st a ->
  Forall (op_ok n) es ->
  exists st' k a', history es st = Some (st', k) /\ means_all (take k es) a a' /\ held_ok st' a' /\
    if (k =? length es)%nat then buffers_ok st' a' else refused.
Proof.
  revert st a. induction es as [|e es IH]; intros [p bs held] [ss ks] Hw Hn Hh Hb Hok.
  { exists (System p bs held), O, (Meaning ss ks). split_and!; try done. constructor. }
  apply Forall_cons in Hok as [He Hok].
  destruct (exec_spec n p bs held ss ks Hw Hn Hh Hb e He) as (st1 & good & E & Hw1 & Hn1 & Hr). cbn [history].
  rewrite E. cbn [mbind option_bind]. destruct good.
  - destruct Hr as (a1 & Hm & Hh1 & Hb1). destruct (IH st1 a1 Hw1 Hn1 Hh1 Hb1 Hok) as (st2 & k & a2 & -> & Hm2 & Hh2 & Hb2).
    exists st2, (S k), a2. split_and!; [done | | done | done]. by econstructor.
  - destruct Hr as [Href Hh1]. exists st1, O, (Meaning ss ks). split_and!; [done | constructor | done | done].
Qed.

Lemma buffers_init_ok c n : let a := Meaning (repeat (Stream 0 (fun _ => None)) n) [] in
  system_wf (system_init c n) /\ length (sbufs (system_init c n)) = n /\ held_ok (system_init c n) a /\
  buffers_ok (system_init c n) a.
Proof.
  split_and!; [| by cbn; rewrite repeat_length | constructor |].
  - unfold system_wf, system_init. cbn [spool sbufs sheld concat map]. rewrite app_nil_r.
    assert (chains (repeat qbuf_zero n) = []) as -> by (induction n; [done | unfold chains in *; cbn; done]).
    split; cbn; try lia; constructor.
  - unfold buffers_ok. cbn. induction n as [|n IH]; cbn; constructor; [| done].
    split; cbn; try done. by split; constructor.
Qed.

(** ** Theorems *)

(** C17. The buffers of a connection, which share blocks of memory, are buffers of
    streams of bytes.  Whatever is written, at any offsets, overlapping or not, in
    any order, a read gives the bytes that follow the ones read before, each as it
    was first written, up to the limit or to the first byte that is missing; the
    bytes that were read stay what they are while they are held, through any later
    writes and the reuse of freed blocks.  Every write ends, nothing is accessed
    outside its block, and the work only stops short when the allocator refuses. *)
Theorem buffers_history c n es : Forall (op_ok n) es ->
  exists st k a, history es (system_init c n) = Some (st, k) /\
    means_all (take k es) (Meaning (repeat (Stream 0 (fun _ => None)) n) []) a /\
    held_ok st a /\ if (k =? length es)%nat then buffers_ok st a else refused.
Proof. intros Hok. destruct (buffers_init_ok c n) as (H1 & H2 & H3 & H4). by apply (history_spec es n). Qed.

(** A copy of some bytes into blocks of the connection, as it is made for the
    data of a frame, is a chain of pieces that holds these bytes; it ends, and the
    pieces that are in use keep theirs. *)
Theorem copy_buffer_bytes p l d : wf p l ->
  exists r p', ngx_quic_copy_buffer p d = Some (r, p') /\ stable l p p' /\
    match r with
    | Some out => chain_bytes (cell p') (bufs out) = d /\ wf p' (bufs out ++ l)
    | None => refused
    end.
Proof.
  intros Hw. unfold ngx_quic_copy_buffer. set (s := Stream 0 (fun _ => None)).
  assert (Hr : represents p qbuf_zero s) by (split; cbn; try done; by split; constructor).
  destruct (write_buffer_spec p qbuf_zero s l [Input true d] (Z.of_nat (length d)) 0 Hw Hr)
    as (r & qb & p1 & -> & Hw1 & Hs1 & Hl1 & H1); [by constructor | lia |]. cbn [mbind option_bind].
  destruct r as [rest |]; [| by exists None, p1]. destruct H1 as [Hr1 _].
  destruct (ngx_quic_read_buffer p1 qb (Z.of_nat (length d))) as [[r2 qb2] p2] eqn:E2.
  apply (read_buffer_spec _ _ _ _ _ _ _ _ Hw1 Hr1 (Zle_0_nat _)) in E2 as [Hq2 E2].
  assert (Hs2 : stable l p p2) by (eapply stable_trans; [exact Hs1 |]; apply stable_cell; by destruct Hq2).
  destruct r2 as [out |]; [| exists None, p2; by destruct E2].
  cbn zeta in E2. destruct E2 as (Hw2 & (Hrun & Hle & Hend) & _).
  eexists _, _. split; [done |]. unfold ngx_quic_free_buffer. cbn [snd].
  assert (Hw3 : wf p2 (bufs (qchain qb2) ++ bufs out ++ l)).
  { eapply wf_perm; [| exact Hw2]. by rewrite app_assoc, (Permutation_app_comm (bufs out)), <- app_assoc. }
  destruct (free_chain_spec _ _ _ Hw3) as [Hw4 (Ec & _ & _)].
  split; [eapply stable_trans; [exact Hs2 | by apply stable_cell] |]. split; [| done]. rewrite Ec.
  set (e := chain_bytes (cell p2) (bufs out)) in *.
  assert (Hbyte : forall i, byte_at (stream_write (take (Z.to_nat (Z.of_nat (length d))) (input_bytes [Input true d])) 0 s)
    (Z.of_nat i) = d !! i).
  { intros i. cbn. unfold lay. destruct (Z.leb_spec 0 (Z.of_nat i)); [| lia].
    change (input_bytes _) with (d ++ []). rewrite app_nil_r, take_ge by lia. f_equal. lia. }
  cbn [sbase s stream_write] in Hrun, Hend. change (sbase s) with 0 in *.
  assert (Hlen : length e = length d).
  { destruct Hend as [? | Hend]; [lia |]. rewrite Z.add_0_l, Hbyte in Hend. apply lookup_ge_None in Hend. lia. }
  apply list_eq. intros i. destruct (decide (i < length e)%nat) as [Hi | Hi].
  - rewrite <- Hrun by done. by rewrite Z.add_0_l, Hbyte.
  - rewrite !lookup_ge_None_2 by lia. done.
Qed.

End operations.

(** ** Witnesses *)

(** Two streams; the first gets "cd", then "ab" and "bX" over it, and is read; the
    chain is held while the second stream takes memory. *)
Definition sample_ops : list op :=
  [Write 0 [Input true [99; 100]] 2 2; Read 0 10; Write 0 [Input true [97]; Input false []; Input true [98]] 9 0;
   Write 0 [Input true [98; 88]] 2 1; Read 0 3; Write 1 [Input true [120; 121]] 2 0; Read 1 5; FreeChain 0; Read 0 5].

Definition sample_run : option (system * nat) := history (fun _ => true) sample_ops (system_init (fun _ _ => 0) 2).

Lemma buffers_history_witness :
  (exists st, sample_run = Some (st, 9%nat) /\
    map (fun c => chain_bytes (cell (spool st)) (map lbuf c)) (sheld st) = [[97; 98; 99]; [120; 121]; [100]]) /\
  exists st k a, sample_run = Some (st, k) /\
    means_all (take k sample_ops) (Meaning (repeat (Stream 0 (fun _ => None)) 2) []) a /\ held_ok st a /\
    if (k =? length sample_ops)%nat then buffers_ok st a else refused (fun _ => true).
Proof.
  split; [eexists; split; [vm_compute; reflexivity | vm_compute; reflexivity] |].
  apply (buffers_history (fun _ => true) (fun _ _ => 0) 2 sample_ops).
  repeat constructor; easy.
Defined.

Lemma copy_buffer_bytes_witness :
  exists r p', ngx_quic_copy_buffer (fun _ => true) (pool_init (fun _ _ => 0)) [1; 2; 3] = Some (r, p') /\
    stable [] (pool_init (fun _ _ => 0)) p' /\
    match r with
    | Some out => chain_bytes (cell p') (map lbuf out) = [1; 2; 3] /\ wf p' (map lbuf out ++ [])
    | None => refused (fun _ => true)
    end.
Proof.
  apply (copy_buffer_bytes (fun _ => true) (pool_init (fun _ _ => 0)) [] [1; 2; 3]).
  split; try constructor; try easy.
Defined.

End QuicBuffer.
