(* ===== verification/QuicStream.v ===== *)
(** * QuicStream: receiving on QUIC streams (src/event/quic/ngx_event_quic_streams.c)

    The receiving side of the streams of a connection: frames of data in any order,
    the final size, resets, flow control on a stream and on the connection, and the
    reads of the application.  The bytes are in the buffers of [QuicBuffer].

    The streams are open all the time, with the connection of an application; how
    they are created and closed is not part of the model.  A frame to send is the
    limit that it carries; whether there is one is a question to the allocator. *)

From S2P Require Import Prelude QuicBuffer.
From stdpp Require Import base option list sets.

#[local] Open Scope Z_scope.

Module QuicStream.

Import QuicBuffer.

(** ** Definitions *)

Definition NGX_QUIC_ERR_FLOW_CONTROL_ERROR : Z := 0x03.
Definition NGX_QUIC_ERR_FINAL_SIZE_ERROR : Z := 0x06.

(** [ngx_quic_stream_recv_state_e] *)
Inductive recv_state_e : Set :=
  | NGX_QUIC_STREAM_RECV_RECV
  | NGX_QUIC_STREAM_RECV_SIZE_KNOWN
  | NGX_QUIC_STREAM_RECV_DATA_RECVD
  | NGX_QUIC_STREAM_RECV_DATA_READ
  | NGX_QUIC_STREAM_RECV_RESET_RECVD
  | NGX_QUIC_STREAM_RECV_RESET_READ.

#[export] Instance recv_state_eq_dec : EqDecision recv_state_e.
Proof. solve_decision. Defined.

(** The receiving half of [ngx_quic_stream_t], with the flags of the read event of its
    connection; a final size of -1 is [None]. *)
Record rstream : Set := RStream {
  recv_state : recv_state_e;
  recv_last : Z; recv_offset : Z; recv_max_data : Z; recv_window : Z; recv_final_size : option Z;
  recv : qbuf; ready : bool; rerror : bool }.

Definition set_state x (s : rstream) : rstream :=
  RStream x (recv_last s) (recv_offset s) (recv_max_data s) (recv_window s) (recv_final_size s) (recv s) (ready s) (rerror s).
Definition set_last x (s : rstream) : rstream :=
  RStream (recv_state s) x (recv_offset s) (recv_max_data s) (recv_window s) (recv_final_size s) (recv s) (ready s) (rerror s).
Definition set_offset x (s : rstream) : rstream :=
  RStream (recv_state s) (recv_last s) x (recv_max_data s) (recv_window s) (recv_final_size s) (recv s) (ready s) (rerror s).
Definition set_max_data x (s : rstream) : rstream :=
  RStream (recv_state s) (recv_last s) (recv_offset s) x (recv_window s) (recv_final_size s) (recv s) (ready s) (rerror s).
Definition set_final x (s : rstream) : rstream :=
  RStream (recv_state s) (recv_last s) (recv_offset s) (recv_max_data s) (recv_window s) x (recv s) (ready s) (rerror s).
Definition set_recv x (s : rstream) : rstream :=
  RStream (recv_state s) (recv_last s) (recv_offset s) (recv_max_data s) (recv_window s) (recv_final_size s) x (ready s) (rerror s).
Definition set_ready x (s : rstream) : rstream :=
  RStream (recv_state s) (recv_last s) (recv_offset s) (recv_max_data s) (recv_window s) (recv_final_size s) (recv s) x (rerror s).
Definition set_rerror x (s : rstream) : rstream :=
  RStream (recv_state s) (recv_last s) (recv_offset s) (recv_max_data s) (recv_window s) (recv_final_size s) (recv s) (ready s) x.

(** The frames that are sent: limits. *)
Inductive limit_frame : Set :=
  | MAX_STREAM_DATA (id : nat) (limit : Z)
  | MAX_DATA (limit : Z).

(** The flow control of the connection ([qc->streams]), its memory, the frames that
    were sent, last one first, and [qc->error]. *)
Record flow : Type := Flow {
  flow_last : Z; flow_offset : Z; flow_max_data : Z; flow_window : Z;
  fpool : pool; sent : list limit_frame; error : option Z }.

Definition set_flow_last x (c : flow) : flow :=
  Flow x (flow_offset c) (flow_max_data c) (flow_window c) (fpool c) (sent c) (error c).
Definition set_flow_offset x (c : flow) : flow :=
  Flow (flow_last c) x (flow_max_data c) (flow_window c) (fpool c) (sent c) (error c).
Definition set_flow_max x (c : flow) : flow :=
  Flow (flow_last c) (flow_offset c) x (flow_window c) (fpool c) (sent c) (error c).
Definition set_fpool x (c : flow) : flow :=
  Flow (flow_last c) (flow_offset c) (flow_max_data c) (flow_window c) x (sent c) (error c).
Definition set_error x (c : flow) : flow :=
  Flow (flow_last c) (flow_offset c) (flow_max_data c) (flow_window c) (fpool c) (sent c) (Some x).
Definition add_sent x (c : flow) : flow :=
  Flow (flow_last c) (flow_offset c) (flow_max_data c) (flow_window c) (fpool c) (x :: sent c) (error c).

Section operations.

Context (grant : nat -> bool).

Implicit Types (s : rstream) (c : flow).

(** [ngx_quic_alloc_frame] and [ngx_quic_queue_frame] *)
Definition queue_limit (x : limit_frame) c : bool * flow :=
  let '(ok, p) := ngx_palloc grant (fpool c) in
  (ok, if ok then add_sent x (set_fpool p c) else set_fpool p c).

Definition ngx_quic_update_max_stream_data (id : nat) s c : bool * rstream * flow :=
  if negb (bool_decide (recv_state s = NGX_QUIC_STREAM_RECV_RECV)) then (true, s, c)
  else
    let limit := recv_offset s + recv_window s in
    if recv_max_data s =? limit then (true, s, c)
    else
      let s := set_max_data limit s in
      let '(ok, c) := queue_limit (MAX_STREAM_DATA id limit) c in (ok, s, c).

Definition ngx_quic_update_max_data c : bool * flow :=
  let limit := flow_offset c + flow_window c in
  if flow_max_data c =? limit then (true, c)
  else queue_limit (MAX_DATA limit) (set_flow_max limit c).

Definition ngx_quic_control_flow s c (last : Z) : bool * rstream * flow :=
  if last <=? recv_last s then (true, s, c)
  else
    let len := last - recv_last s in
    let s := set_last (recv_last s + len) s in
    if bool_decide (recv_state s = NGX_QUIC_STREAM_RECV_RECV) && (recv_max_data s <? recv_last s) then
      (false, s, set_error NGX_QUIC_ERR_FLOW_CONTROL_ERROR c)
    else
      let c := set_flow_last (flow_last c + len) c in
      if flow_max_data c <? flow_last c then (false, s, set_error NGX_QUIC_ERR_FLOW_CONTROL_ERROR c)
      else (true, s, c).

Definition ngx_quic_update_flow (id : nat) s c (last : Z) : bool * rstream * flow :=
  if last <=? recv_offset s then (true, s, c)
  else
    let len := last - recv_offset s in
    let s := set_offset (recv_offset s + len) s in
    let '(ok, s, c) :=
      if recv_max_data s <=? recv_offset s + recv_window s / 2 then ngx_quic_update_max_stream_data id s c
      else (true, s, c) in
    if negb ok then (false, s, c)
    else
      let c := set_flow_offset (flow_offset c + len) c in
      if flow_max_data c <=? flow_offset c + flow_window c / 2 then
        let '(ok, c) := ngx_quic_update_max_data c in (ok, s, c)
      else (true, s, c).

(** The states in which data are taken. *)
Definition receiving s : bool :=
  match recv_state s with
  | NGX_QUIC_STREAM_RECV_RECV | NGX_QUIC_STREAM_RECV_SIZE_KNOWN => true
  | _ => false
  end.

(** The end of the stream, in a frame with [fin]: [None] when it is not what it was
    or when there are bytes after it. *)
Definition take_fin s (last : Z) : option rstream :=
  match recv_final_size s with
  | Some z => if negb (z =? last) then None
              else if last <? recv_last s then None
              else Some (set_state NGX_QUIC_STREAM_RECV_SIZE_KNOWN (set_final (Some last) s))
  | None => if last <? recv_last s then None
            else Some (set_state NGX_QUIC_STREAM_RECV_SIZE_KNOWN (set_final (Some last) s))
  end.

(** All the data are there. *)
Definition note_size s : rstream :=
  if bool_decide (recv_state s = NGX_QUIC_STREAM_RECV_SIZE_KNOWN) &&
     bool_decide (recv_final_size s = Some (qsize (recv s)))
  then set_state NGX_QUIC_STREAM_RECV_DATA_RECVD s else s.

(** [ngx_quic_handle_stream_frame], once there is a stream.  The outer [None] is an
    access to memory that is not there; [false] is [NGX_ERROR]. *)
Definition ngx_quic_handle_stream_frame s c (offset : Z) (d : list Z) (fin : bool) : option (bool * rstream * flow) :=
  let length := Z.of_nat (length d) in
  let last := offset + length in
  if negb (receiving s) then Some (true, s, c)
  else
    let '(ok, s, c) := ngx_quic_control_flow s c last in
    if negb ok then Some (false, s, c)
    else if match recv_final_size s with Some z => z <? last | None => false end then
      Some (false, s, set_error NGX_QUIC_ERR_FINAL_SIZE_ERROR c)
    else if last <? recv_offset s then Some (true, s, c)
    else
      match if fin then take_fin s last else Some s with
      | None => Some (false, s, set_error NGX_QUIC_ERR_FINAL_SIZE_ERROR c)
      | Some s =>
          '(r, qb, p) ← ngx_quic_write_buffer grant (fpool c) (recv s) [Input true d] length offset;
          let s := set_recv qb s in
          let c := set_fpool p c in
          match r with
          | None => Some (false, s, c)
          | Some _ =>
              let s := note_size s in Some (true, if offset <=? recv_offset s then set_ready true s else s, c)
          end
      end.

Definition was_reset s : bool :=
  match recv_state s with
  | NGX_QUIC_STREAM_RECV_RESET_RECVD | NGX_QUIC_STREAM_RECV_RESET_READ => true
  | _ => false
  end.

(** All the data were read. *)
Definition note_read s : rstream :=
  if bool_decide (recv_state s = NGX_QUIC_STREAM_RECV_DATA_RECVD) &&
     bool_decide (recv_final_size s = Some (recv_offset s))
  then set_state NGX_QUIC_STREAM_RECV_DATA_READ s else s.

(** What a read gives. *)
Inductive received : Set := Bytes (d : list Z) | Eof | NotYet | Failed.

Definition ngx_quic_stream_recv (id : nat) s c (size : Z) : received * rstream * flow :=
  if was_reset s then (Failed, set_state NGX_QUIC_STREAM_RECV_RESET_READ s, c)
  else if size =? 0 then (Bytes [], s, c)
  else
    let '(r, qb, p) := ngx_quic_read_buffer grant (fpool c) (recv s) size in
    let s := set_recv qb s in
    match r with
    | None => (Failed, s, set_fpool p c)
    | Some chain =>
        let d := chain_bytes (cell p) (map lbuf chain) in
        let c := set_fpool (ngx_quic_free_chain p chain) c in
        if (length d =? 0)%nat then
          let s := note_read (set_ready false s) in
          (if bool_decide (recv_state s = NGX_QUIC_STREAM_RECV_DATA_READ) then Eof else NotYet, s, c)
        else
          let '(ok, s, c) := ngx_quic_update_flow id s c (recv_offset s + Z.of_nat (length d)) in
          (if ok then Bytes d else Failed, s, c)
    end.

Definition ngx_quic_handle_reset_stream_frame (id : nat) s c (final_size : Z) : bool * rstream * flow :=
  if was_reset s then (true, s, c)
  else
    let s := set_state NGX_QUIC_STREAM_RECV_RESET_RECVD s in
    let '(ok, s, c) := ngx_quic_control_flow s c final_size in
    if negb ok then (false, s, c)
    else if match recv_final_size s with Some z => negb (z =? final_size) | None => false end then
      (false, s, set_error NGX_QUIC_ERR_FINAL_SIZE_ERROR c)
    else if final_size <? recv_last s then (false, s, set_error NGX_QUIC_ERR_FINAL_SIZE_ERROR c)
    else
      let s := set_final (Some final_size) s in
      let '(ok, s, c) := ngx_quic_update_flow id s c final_size in
      if negb ok then (false, s, c) else (true, set_ready true (set_rerror true s), c).

(** ** The streams of a connection *)

Record rconn : Type := RConn { rstreams : list rstream; rflow : flow }.

(** What happens to the streams: [ngx_quic_handle_data_blocked_frame] and
    [ngx_quic_handle_stream_data_blocked_frame] are the last two. *)
Inductive event : Type :=
  | StreamFrame (i : nat) (off : Z) (d : list Z) (fin : bool)
  | StreamRecv (i : nat) (size : Z)
  | ResetStream (i : nat) (final_size : Z)
  | DataBlocked
  | StreamDataBlocked (i : nat).

Definition put_stream (i : nat) (r : bool * rstream * flow) (st : rconn) : bool * rconn :=
  let '(ok, s, c) := r in (ok, RConn (<[i := s]> (rstreams st)) c).

(** One event: whether the connection goes on, and what was read. *)
Definition happen (e : event) (st : rconn) : option (bool * rconn * list (nat * received)) :=
  match e with
  | StreamFrame i off d fin =>
      s ← rstreams st !! i;
      r ← ngx_quic_handle_stream_frame s (rflow st) off d fin;
      Some (put_stream i r st, [])
  | StreamRecv i size =>
      s ← rstreams st !! i;
      let '(r, s', c) := ngx_quic_stream_recv i s (rflow st) size in
      let ok := match r with Failed => was_reset s | _ => true end in
      Some (put_stream i (ok, s', c) st, [(i, r)])
  | ResetStream i final_size =>
      s ← rstreams st !! i;
      Some (put_stream i (ngx_quic_handle_reset_stream_frame i s (rflow st) final_size) st, [])
  | DataBlocked =>
      let '(ok, c) := ngx_quic_update_max_data (rflow st) in Some (ok, RConn (rstreams st) c, [])
  | StreamDataBlocked i =>
      s ← rstreams st !! i;
      Some (put_stream i (ngx_quic_update_max_stream_data i s (rflow st)) st, [])
  end.

(** The events up to the first that closes the connection: the state before it, what
    was read, and the number of the events before it. *)
Fixpoint deliver (es : list event) (st : rconn) : option (rconn * list (nat * received) * nat) :=
  match es with
  | [] => Some (st, [], O)
  | e :: es =>
      '(ok, st', log) ← happen e st;
      if (ok : bool) then '(st', log', k) ← deliver es st'; Some (st', log ++ log', S k)
      else Some (st, [], O)
  end.

(** A connection that offers the windows [ws] on its streams and [w] in all. *)
Definition rstream_init (w : Z) : rstream :=
  RStream NGX_QUIC_STREAM_RECV_RECV 0 0 w w None qbuf_zero false false.

Definition rconn_init (cl : nat -> Z -> Z) (ws : list Z) (w : Z) : rconn :=
  RConn (map rstream_init ws) (Flow 0 0 w w (pool_init cl) [] None).

(** What was read from the stream [i], and the frames for it. *)
Fixpoint got_of (i : nat) (log : list (nat * received)) : list Z :=
  match log with
  | [] => []
  | (j, r) :: log => (if (j =? i)%nat then match r with Bytes d => d | _ => [] end else []) ++ got_of i log
  end.

Fixpoint frames_of (i : nat) (es : list event) : list (Z * list Z) :=
  match es with
  | [] => []
  | StreamFrame j off d _ :: es => (if (j =? i)%nat then [(off, d)] else []) ++ frames_of i es
  | _ :: es => frames_of i es
  end.

(** ** Invariants *)

(** What a stream of the contents [f] is when [got] was read from it and the frames
    [seen] were handled; [b] is what its buffer stands for. *)
Record sinv (f : Z -> Z) (p : pool) s (b : stream) (got : list Z) (seen : list (Z * list Z)) : Prop := {
  si_rep : represents p (recv s) b;
  si_gone : gone (recv s) = sbase b;
  si_got : got = map (fun i => f (Z.of_nat i)) (seq 0 (length got));
  si_base : Z.of_nat (length got) = sbase b;
  si_offset : was_reset s = false -> recv_offset s = sbase b;
  si_true x v : sbase b <= x -> byte_at b x = Some v -> v = f x /\ x < recv_last s;
  si_last : recv_offset s <= recv_last s;
  si_final z : recv_final_size s = Some z -> recv_last s = z;
  si_unknown : recv_state s = NGX_QUIC_STREAM_RECV_RECV -> recv_final_size s = None;
  si_known : was_reset s = false -> recv_state s <> NGX_QUIC_STREAM_RECV_RECV ->
    recv_final_size s = Some (recv_last s);
  si_full x : was_reset s = false -> receiving s = false -> sbase b <= x < recv_last s -> byte_at b x <> None;
  si_read : recv_state s = NGX_QUIC_STREAM_RECV_DATA_READ -> sbase b = recv_last s;
  si_max : was_reset s = false -> recv_last s <= recv_max_data s;
  si_room : was_reset s = false -> recv_max_data s <= recv_offset s + recv_window s;
  si_half : recv_state s = NGX_QUIC_STREAM_RECV_RECV -> recv_offset s + recv_window s / 2 < recv_max_data s;
  si_wake : was_reset s = false -> ready s = false ->
    byte_at b (sbase b) = None /\
    ~ (recv_state s = NGX_QUIC_STREAM_RECV_DATA_RECVD /\ sbase b = recv_last s);
  si_seen off d k : was_reset s = false -> (off, d) ∈ seen -> (k < length d)%nat ->
    sbase b <= off + Z.of_nat k -> (forall z, recv_final_size s = Some z -> off + Z.of_nat k < z) ->
    byte_at b (off + Z.of_nat k) <> None }.

(** The flow control of the connection. *)
Record finv c : Prop := {
  fi_last : flow_last c <= flow_max_data c;
  fi_room : flow_max_data c <= flow_offset c + flow_window c;
  fi_half : flow_offset c + flow_window c / 2 < flow_max_data c }.

(** The bytes agree with the contents of the stream. *)
Definition piece_of (f : Z -> Z) (off : Z) (d : list Z) : Prop :=
  forall i v, d !! i = Some v -> v = f (off + Z.of_nat i).





(** ** Lemmas: full buffers *)

Lemma view_tail cl base b l z : 0 < blen b ->
  (forall x, base <= x -> view cl base (b :: l) x <> None -> x < z) ->
  forall x, base + blen b <= x -> view cl (base + blen b) l x <> None -> x < z.
Proof.
  intros Hb Hv x Hx Hn. apply Hv; [lia |]. cbn. destruct (Z.ltb_spec x (base + blen b)); [lia | done].
Qed.

Lemma view_head cl base b l z : 0 < blen b -> sync b = false ->
  (forall x, base <= x -> view cl base (b :: l) x <> None -> x < z) -> base + blen b <= z.
Proof.
  intros Hb Hs Hv. enough (base + blen b - 1 < z) by lia. apply Hv; [lia |]. cbn.
  destruct (Z.ltb_spec (base + blen b - 1) (base + blen b)); [by rewrite Hs | lia].
Qed.

Lemma filled_bound cl base l z : Forall (fun b => 0 < blen b) l ->
  (forall x, base <= x -> view cl base l x <> None -> x < z) -> filled l <= Z.max 0 (z - base).
Proof.
  intros F. revert base. induction F as [|b l Hb F IH]; intros base Hv; [cbn; lia |].
  specialize (IH _ (view_tail _ _ _ _ _ Hb Hv)). cbn. destruct (sync b) eqn:Es; [lia |].
  pose proof (view_head _ _ _ _ _ Hb Es Hv). lia.
Qed.

Lemma filled_full_view cl base l z : base <= z -> Forall (fun b => 0 < blen b) l ->
  (forall x, base <= x -> view cl base l x <> None -> x < z) -> filled l = z - base ->
  forall x, base <= x < z -> view cl base l x <> None.
Proof.
  intros Hz F. revert base Hz. induction F as [|b l Hb F IH]; intros base Hz Hv Hf x Hx; [cbn in *; lia |].
  pose proof (view_tail _ _ _ _ _ Hb Hv) as Hv'. pose proof (filled_bound _ _ _ _ F Hv') as Hle. cbn in Hf |- *.
  destruct (sync b) eqn:Es; [lia |]. pose proof (view_head _ _ _ _ _ Hb Es Hv).
  destruct (Z.ltb_spec x (base + blen b)); [done |]. apply IH; [lia | done | lia | lia].
Qed.

(** A buffer with as many bytes as there may be has them all. *)
Lemma represents_full p qb b l z : wf p (map lbuf (qchain qb) ++ l) -> represents p qb b -> sbase b <= z ->
  (forall x v, sbase b <= x -> byte_at b x = Some v -> x < z) -> gone qb = sbase b -> qsize qb = z ->
  forall x, sbase b <= x < z -> byte_at b x <> None.
Proof.
  intros Hw [R1 R2 _ _] Hz Hv Hg Hsz x Hx. rewrite <- R2 by lia. apply wf_app_r in Hw as [Hw _].
  eapply (filled_full_view _ _ _ z); [lia | | | | lia].
  - eapply Forall_impl; [exact Hw |]. intros y ?. by eapply good_len.
  - intros y Hy Hn. rewrite R2 in Hn by lia. destruct (byte_at b y) as [v |] eqn:E; [| done]. by eapply (Hv y v); [lia |].
  - unfold gone in Hg. lia.
Qed.

(** ** Lemmas: flow control *)

(** What sending a limit does to the rest. *)
Definition asked_only c c' (ok : bool) : Prop :=
  quiet (fpool c) (fpool c') /\ (forall l, wf (fpool c) l -> wf (fpool c') l) /\ (ok = false -> refused grant) /\
  flow_last c' = flow_last c /\ flow_offset c' = flow_offset c /\ flow_window c' = flow_window c.

Lemma asked_refl c : asked_only c c true.
Proof. by split_and!. Qed.

Lemma queue_limit_spec x c ok c' : queue_limit x c = (ok, c') ->
  asked_only c c' ok /\ flow_max_data c' = flow_max_data c.
Proof.
  unfold queue_limit. destruct (ngx_palloc grant (fpool c)) as [o p] eqn:E. apply palloc_result in E as [-> Hr].
  intros [= <- <-]. destruct o; cbn; split; try done; split_and!; try done; intros l Hl; by eapply (wf_same (fpool c)).
Qed.

Lemma set_max_data_eta s : s = set_max_data (recv_max_data s) s.
Proof. by destruct s. Qed.

Lemma update_stream_spec id s c ok s' c' : ngx_quic_update_max_stream_data id s c = (ok, s', c') ->
  asked_only c c' ok /\ flow_max_data c' = flow_max_data c /\ s' = set_max_data (recv_max_data s') s /\
  (recv_max_data s' = recv_max_data s \/ recv_max_data s' = recv_offset s + recv_window s) /\
  (recv_state s = NGX_QUIC_STREAM_RECV_RECV -> recv_max_data s' = recv_offset s + recv_window s).
Proof.
  unfold ngx_quic_update_max_stream_data. case_bool_decide as Es; cbn [negb].
  - destruct (Z.eqb_spec (recv_max_data s) (recv_offset s + recv_window s)) as [E | E].
    + intros [= <- <- <-]. split_and!; auto using asked_refl, set_max_data_eta.
    + destruct (queue_limit _ c) as [o c1] eqn:Eq. apply queue_limit_spec in Eq as [? ?]. intros [= <- <- <-].
      split_and!; try done. by right.
  - intros [= <- <- <-]. split_and!; auto using asked_refl, set_max_data_eta. done.
Qed.

Lemma update_max_data_spec c ok c' : ngx_quic_update_max_data c = (ok, c') ->
  asked_only c c' ok /\ flow_max_data c' = flow_offset c + flow_window c.
Proof.
  unfold ngx_quic_update_max_data. destruct (Z.eqb_spec (flow_max_data c) (flow_offset c + flow_window c)) as [E | E].
  - intros [= <- <-]. by split; [apply asked_refl |].
  - intros Eq. apply queue_limit_spec in Eq as [H ->]. done.
Qed.

(** What the flow control of a frame does: [recv_last] grows, and so does the sum. *)
Lemma control_flow_spec s c last ok s' c' : ngx_quic_control_flow s c last = (ok, s', c') ->
  fpool c' = fpool c /\
  (ok = true -> s' = set_last (Z.max last (recv_last s)) s /\
    flow_last c' = flow_last c + (recv_last s' - recv_last s) /\ flow_offset c' = flow_offset c /\
    flow_max_data c' = flow_max_data c /\ flow_window c' = flow_window c /\
    (recv_last s < last -> flow_last c' <= flow_max_data c' /\
      (recv_state s = NGX_QUIC_STREAM_RECV_RECV -> last <= recv_max_data s))).
Proof.
  unfold ngx_quic_control_flow. destruct (Z.leb_spec last (recv_last s)).
  { intros [= <- <- <-]. split; [done |]. intros _. split_and!; try lia. destruct s; unfold set_last; cbn in *.
    f_equal. lia. }
  cbn. replace (recv_last s + (last - recv_last s)) with last by lia.
  destruct (bool_decide _ && _) eqn:Em; [by intros [= <- <- <-] |].
  destruct (Z.ltb_spec (flow_max_data c) (flow_last c + (last - recv_last s))); [by intros [= <- <- <-] |].
  intros [= <- <- <-]. split; [done |]. intros _. rewrite Z.max_l by lia. cbn. split_and!; try done.
  intros _. split; [done |]. intros E. rewrite bool_decide_eq_true_2 in Em by done. cbn in Em. lia.
Qed.

(** What the flow control of a read does: [recv_offset] grows, and the limits follow. *)
Record offset_moved (last : Z) s c s' c' : Prop := {
  om_stream : s' = set_max_data (recv_max_data s') (set_offset last s);
  om_max : recv_max_data s' = recv_max_data s \/ recv_max_data s' = last + recv_window s;
  om_half : recv_state s = NGX_QUIC_STREAM_RECV_RECV -> last + recv_window s / 2 < recv_max_data s';
  om_last : flow_last c' = flow_last c;
  om_offset : flow_offset c' = flow_offset c + (last - recv_offset s);
  om_window : flow_window c' = flow_window c;
  om_flow_max : flow_max_data c' = flow_max_data c \/ flow_max_data c' = flow_offset c' + flow_window c';
  om_flow_half : flow_offset c' + flow_window c' / 2 < flow_max_data c' }.

Lemma half_less w : 0 < w -> w / 2 < w.
Proof. intros. apply Z.div_lt; lia. Qed.

Lemma update_flow_spec id s c last ok s' c' : ngx_quic_update_flow id s c last = (ok, s', c') ->
  0 < recv_window s -> 0 < flow_window c -> recv_offset s < last ->
  quiet (fpool c) (fpool c') /\ (forall l, wf (fpool c) l -> wf (fpool c') l) /\ (ok = false -> refused grant) /\
  (ok = true -> offset_moved last s c s' c').
Proof.
  intros E Hw Hcw Hlast. pose proof (half_less _ Hw). pose proof (half_less _ Hcw). unfold ngx_quic_update_flow in E.
  destruct (Z.leb_spec last (recv_offset s)); [lia |].
  cbv zeta in E. replace (recv_offset s + (last - recv_offset s)) with last in E by lia.
  set (s1 := set_offset last s) in *. change (recv_offset s1) with last in E. change (recv_window s1) with (recv_window s) in E.
  change (recv_max_data s1) with (recv_max_data s) in E.
  assert (Hstep : exists ok1 s2 c1, (if recv_max_data s <=? last + recv_window s / 2
      then ngx_quic_update_max_stream_data id s1 c else (true, s1, c)) = (ok1, s2, c1) /\
    asked_only c c1 ok1 /\ flow_max_data c1 = flow_max_data c /\ s2 = set_max_data (recv_max_data s2) s1 /\
    (recv_max_data s2 = recv_max_data s \/ recv_max_data s2 = last + recv_window s) /\
    (recv_state s = NGX_QUIC_STREAM_RECV_RECV -> last + recv_window s / 2 < recv_max_data s2)).
  { destruct (Z.leb_spec (recv_max_data s) (last + recv_window s / 2)).
    - destruct (ngx_quic_update_max_stream_data id s1 c) as [[ok1 s2] c1] eqn:E1.
      apply update_stream_spec in E1 as (? & ? & ? & ? & Hr). exists ok1, s2, c1. split_and!; try done.
      intros Es. rewrite (Hr Es). cbn. lia.
    - exists true, s1, c. by split_and!; auto using asked_refl, set_max_data_eta. }
  destruct Hstep as (ok1 & s2 & c1 & Es & (Hq & Hwf & Hno & F1 & F2 & F3) & F4 & Es2 & Hmax & Hhalf).
  rewrite Es in E. destruct ok1; cbn [negb] in E.
  2:{ injection E as <- <- <-. by split_and!; [| | apply Hno |]. }
  set (c2 := set_flow_offset (flow_offset c1 + (last - recv_offset s)) c1) in *.
  destruct (Z.leb_spec (flow_max_data c2) (flow_offset c2 + flow_window c2 / 2)) as [Hc | Hc].
  - destruct (ngx_quic_update_max_data c2) as [ok2 c3] eqn:E3. injection E as <- <- <-.
    apply update_max_data_spec in E3 as [(Hq2 & Hwf2 & Hno2 & G1 & G2 & G3) G4]. cbn in *.
    split_and!; [by eapply quiet_trans | intros l Hl; by apply Hwf2, Hwf | done |].
    intros _. split; try done; try lia. rewrite G3, F3. lia.
  - injection E as <- <- <-. cbn in *. split_and!; try done. intros _. split; cbn; try done; try lia.
Qed.

(** ** Lemmas: what is refused *)








(** ** Lemmas: one stream *)

(** A stream and the flow control of its connection after an operation that went
    well; [l] are the pieces of the other buffers. *)
Record moved (f : Z -> Z) (l : list buf) s c s' c' (got : list Z) (seen : list (Z * list Z)) : Prop := {
  mv_inv : exists b, sinv f (fpool c') s' b got seen;
  mv_wf : wf (fpool c') (map lbuf (qchain (recv s')) ++ l);
  mv_stable : stable l (fpool c) (fpool c');
  mv_links : (links (fpool c) <= links (fpool c'))%nat;
  mv_flow : finv c';
  mv_last : flow_last c' - flow_last c = recv_last s' - recv_last s;
  mv_offset : flow_offset c' - flow_offset c = recv_offset s' - recv_offset s;
  mv_final z : recv_final_size s = Some z -> recv_final_size s' = Some z;
  mv_window : recv_window s' = recv_window s;
  mv_flow_window : flow_window c' = flow_window c }.

Lemma lay_at d off (k : nat) : lay d off (off + Z.of_nat k) = d !! k.
Proof. unfold lay. destruct (Z.leb_spec off (off + Z.of_nat k)); [f_equal |]; lia. Qed.

Lemma lay_some d off x v : lay d off x = Some v -> exists k : nat, x = off + Z.of_nat k /\ d !! k = Some v /\ (k < length d)%nat.
Proof.
  unfold lay. destruct (Z.leb_spec off x); [| done]. intros E. exists (Z.to_nat (x - off)).
  split_and!; [lia | done | by eapply lookup_lt_Some].
Qed.

Section stream.

Context (f : Z -> Z) (l : list buf) (s : rstream) (c : flow) (b : stream) (got : list Z) (seen : list (Z * list Z)).
Context (Hi : sinv f (fpool c) s b got seen) (Hw : wf (fpool c) (map lbuf (qchain (recv s)) ++ l)) (Hf : finv c).

(** Nothing changes but the frames that were seen. *)
Lemma moved_same seen' : sinv f (fpool c) s b got seen' -> moved f l s c s c got seen'.
Proof. intros H. split; try done; try lia; [by exists b | apply stable_refl]. Qed.

Lemma seen_more off d : (forall k, was_reset s = false -> (k < length d)%nat -> sbase b <= off + Z.of_nat k ->
    (forall z, recv_final_size s = Some z -> off + Z.of_nat k < z) -> byte_at b (off + Z.of_nat k) <> None) ->
  sinv f (fpool c) s b got ((off, d) :: seen).
Proof.
  intros H. destruct Hi. split; try done. intros off' d' k Hr [[= -> ->] | Hin]%elem_of_cons; [by apply H |]. by apply si_seen0.
Qed.

(** A frame that is too late. *)
Lemma frame_late off d : receiving s = false \/ off + Z.of_nat (length d) < recv_offset s ->
  moved f l s c s c got ((off, d) :: seen).
Proof.
  intros H. apply moved_same, seen_more. intros k Hr Hk Hx Hz. pose proof (si_offset _ _ _ _ _ _ Hi Hr).
  destruct H as [H | H]; [| lia]. apply (si_full _ _ _ _ _ _ Hi); [done | done |].
  assert (recv_state s <> NGX_QUIC_STREAM_RECV_RECV) as Hs by (intros E; unfold receiving in H; by rewrite E in H).
  specialize (Hz _ (si_known _ _ _ _ _ _ Hi Hr Hs)). lia.
Qed.

Lemma noted_fields v s2 : let s4 := if (v : bool) then set_ready true (note_size s2) else note_size s2 in
  recv s4 = recv s2 /\ recv_last s4 = recv_last s2 /\ recv_offset s4 = recv_offset s2 /\ recv_window s4 = recv_window s2 /\
  recv_final_size s4 = recv_final_size s2.
Proof. unfold note_size. destruct v; by case_match. Qed.

(** The end of the data of a frame: it has been written, [s2] is the stream with its
    flow control and final size. *)
Lemma frame_written off d s2 c2 qb p' :
  piece_of f off d -> receiving s2 = true ->
  recv s2 = recv s -> recv_offset s2 = recv_offset s -> recv_window s2 = recv_window s ->
  recv_max_data s2 = recv_max_data s -> ready s2 = ready s ->
  receiving s = true ->
  recv_last s <= recv_last s2 -> off + Z.of_nat (length d) <= recv_last s2 -> recv_last s2 <= recv_max_data s2 ->
  (forall z, recv_final_size s2 = Some z -> recv_last s2 = z) ->
  (forall z, recv_final_size s = Some z -> recv_final_size s2 = Some z) ->
  (recv_state s2 = NGX_QUIC_STREAM_RECV_RECV -> recv_state s = NGX_QUIC_STREAM_RECV_RECV /\ recv_final_size s2 = None) ->
  (recv_state s2 <> NGX_QUIC_STREAM_RECV_RECV -> recv_final_size s2 = Some (recv_last s2)) ->
  recv_offset s <= off + Z.of_nat (length d) ->
  represents p' qb (stream_write (take (length d) d) off b) -> gone qb = gone (recv s) ->
  wf p' (map lbuf (qchain qb) ++ l) ->
  let s3 := set_recv qb s2 in
  let s4 := note_size s3 in
  sinv f p' (if off <=? recv_offset s4 then set_ready true s4 else s4)
    (stream_write (take (length d) d) off b) got ((off, d) :: seen).
Proof.
  intros Hd Hr2 Erecv Eoff Ewin Emax Erdy Hr Hlast Hend Hmax Hfin Hfin2 Hst1 Hst2 Hearly Hrep Hgone Hw' s3 s4.
  rewrite take_ge in * by lia. set (b' := stream_write d off b) in *.
  assert (Hres : was_reset s = false) by (unfold receiving, was_reset in *; by destruct (recv_state s)).
  pose proof (si_offset _ _ _ _ _ _ Hi Hres) as Eo. pose proof (si_gone _ _ _ _ _ _ Hi) as Eg.
  assert (Htrue : forall x v, sbase b <= x -> byte_at b' x = Some v -> v = f x /\ x < recv_last s2).
  { intros x v Hx Hv. cbn in Hv. destruct (byte_at b x) as [v' |] eqn:Eb; cbn in Hv.
    - injection Hv as <-. apply (si_true _ _ _ _ _ _ Hi) in Eb as [? ?]; [split; [done | lia] | done].
    - apply lay_some in Hv as (k & -> & Hk & Hlt). split; [by apply Hd | lia]. }
  set (s5 := if off <=? recv_offset s4 then set_ready true s4 else s4).
  assert (Es4 : recv_last s4 = recv_last s2 /\ recv_offset s4 = recv_offset s2 /\ recv_max_data s4 = recv_max_data s2 /\
    recv_window s4 = recv_window s2 /\ recv_final_size s4 = recv_final_size s2 /\ recv s4 = qb /\ ready s4 = ready s2).
  { unfold s4, note_size. by case_match. }
  destruct Es4 as (E1 & E2 & E3 & E4 & E5 & E6 & E7).
  assert (Es5 : recv_last s5 = recv_last s2 /\ recv_offset s5 = recv_offset s2 /\ recv_max_data s5 = recv_max_data s2 /\
    recv_window s5 = recv_window s2 /\ recv_final_size s5 = recv_final_size s2 /\ recv s5 = qb /\
    recv_state s5 = recv_state s4 /\ ready s5 = (if off <=? recv_offset s2 then true else ready s2)).
  { unfold s5. rewrite <- E2. destruct (off <=? recv_offset s4); cbn; by split_and!. }
  destruct Es5 as (F1 & F2 & F3 & F4 & F5 & F6 & F7 & F8). clearbody s5.
  assert (Hfull : recv_state s4 <> recv_state s2 -> recv_state s2 = NGX_QUIC_STREAM_RECV_SIZE_KNOWN /\
    recv_state s4 = NGX_QUIC_STREAM_RECV_DATA_RECVD /\ qsize qb = recv_last s2).
  { unfold s4, s3, note_size. intros H. destruct (bool_decide _) eqn:Ek in H; [| done].
    destruct (bool_decide _) eqn:Eq in H; [| done]. rewrite Ek, Eq in *.
    apply bool_decide_eq_true in Ek, Eq. cbn in *. split_and!; [done | done |]. by rewrite (Hfin _ Eq). }
  assert (Hcase : (recv_state s5 = recv_state s2) \/ (recv_state s5 = NGX_QUIC_STREAM_RECV_DATA_RECVD /\
    recv_state s2 = NGX_QUIC_STREAM_RECV_SIZE_KNOWN /\ qsize qb = recv_last s2)).
  { rewrite F7. destruct (decide (recv_state s4 = recv_state s2)) as [H | H]; [by left | right].
    destruct (Hfull H) as (? & ? & ?). by split_and!. }
  clear Hfull E1 E2 E3 E4 E5 E6 E7.
  assert (Hres5 : was_reset s5 = false).
  { unfold was_reset. destruct Hcase as [-> | (-> & _ & _)]; [| done].
    unfold receiving in Hr2. by destruct (recv_state s2). }
  split; rewrite ?F1, ?F2, ?F3, ?F4, ?F5, ?F6.
  - done.
  - by rewrite Hgone.
  - by destruct Hi.
  - by destruct Hi.
  - intros _. by rewrite Eoff, Eo.
  - exact Htrue.
  - rewrite Eoff. pose proof (si_last _ _ _ _ _ _ Hi). lia.
  - done.
  - intros E. destruct Hcase as [Hc | (Hc & _ & _)]; [| congruence]. rewrite Hc in E. by apply Hst1.
  - intros _ Hne. destruct Hcase as [Hc | (Hc & H2 & _)]; [rewrite Hc in Hne; by apply Hst2 | apply Hst2; congruence].
  - intros x _ Hnr Hx. destruct Hcase as [Hc | (Hc & H2 & Hq)].
    { exfalso. unfold receiving in Hnr, Hr2. rewrite Hc in Hnr. congruence. }
    apply (represents_full p' qb b' l (recv_last s2)); try done; [cbn in *; lia | intros y v Hy Hv; by apply (Htrue y v) |].
    rewrite Hgone, Eg. done.
  - intros E. destruct Hcase as [Hc | (Hc & _ & _)]; [| congruence]. unfold receiving in Hr2. rewrite <- Hc, E in Hr2. done.
  - done.
  - intros _. rewrite Eoff, Ewin, Emax. by apply (si_room _ _ _ _ _ _ Hi).
  - intros E. rewrite Eoff, Ewin, Emax. apply (si_half _ _ _ _ _ _ Hi). destruct Hcase as [Hc | (Hc & _ & _)]; [| congruence].
    rewrite Hc in E. by apply Hst1.
  - intros _. rewrite F8, Eoff, Eo. destruct (Z.leb_spec off (sbase b)); [done |]. rewrite Erdy. intros Hrd.
    destruct (si_wake _ _ _ _ _ _ Hi Hres Hrd) as [Hnone _]. cbn. rewrite Hnone. split.
    + cbn. unfold lay. destruct (Z.leb_spec off (sbase b)); [lia | done].
    + intros [_ E]. lia.
  - intros off' d' k _ Hin Hk Hx Hz. cbn. cbn in Hx.
    destruct (byte_at b (off' + Z.of_nat k)) eqn:Eb; [done |]. cbn.
    apply elem_of_cons in Hin as [[= -> ->] | Hin].
    + rewrite lay_at. by apply lookup_lt_is_Some_2 in Hk as [? ->].
    + exfalso. revert Eb. apply (si_seen _ _ _ _ _ _ Hi off' d' k Hres Hin Hk Hx). intros z E. apply Hz. by apply Hfin2.
Qed.

Lemma take_fin_spec s1 last s2 : take_fin s1 last = Some s2 ->
  (forall z, recv_final_size s1 = Some z -> recv_last s1 = z) -> last <= recv_last s1 ->
  s2 = set_state NGX_QUIC_STREAM_RECV_SIZE_KNOWN (set_final (Some last) s1) /\ recv_last s1 = last /\
  (forall z, recv_final_size s1 = Some z -> z = last).
Proof.
  unfold take_fin. intros E Hz Hl. destruct (recv_final_size s1) as [z |].
  - destruct (Z.eqb_spec z last) as [Ez |]; [| done]. cbn [negb] in E.
    destruct (Z.ltb_spec last (recv_last s1)); [done |].
    injection E as <-. specialize (Hz z eq_refl). split_and!; [done | lia |]. congruence.
  - destruct (Z.ltb_spec last (recv_last s1)); [done |]. injection E as <-. split_and!; [done | lia | done].
Qed.

(** A frame of data that is taken or refused. *)
Lemma stream_frame_ok off d fin : piece_of f off d ->
  exists ok s' c', ngx_quic_handle_stream_frame s c off d fin = Some (ok, s', c') /\
    (ok = true -> moved f l s c s' c' got ((off, d) :: seen)).
Proof.
  intros Hd. unfold ngx_quic_handle_stream_frame. destruct (receiving s) eqn:Er; cbn [negb].
  2:{ eexists _, _, _. split; [done |]. intros _. apply frame_late. by left. }
  set (last := off + Z.of_nat (length d)).
  assert (Hres : was_reset s = false) by (unfold receiving, was_reset in *; by destruct (recv_state s)).
  destruct (ngx_quic_control_flow s c last) as [[ok1 s1] c1] eqn:E1. apply control_flow_spec in E1 as [Ep H1].
  destruct ok1; cbn [negb]; [| by eexists _, _, _]. destruct (H1 eq_refl) as (Es1 & L1 & L2 & L3 & L4 & L5). clear H1.
  destruct (match recv_final_size s1 with Some z => z <? last | None => false end) eqn:Ez; [by eexists _, _, _ |].
  assert (Hz : forall z, recv_final_size s = Some z -> last <= z).
  { intros z E. rewrite Es1 in Ez. cbn in Ez. rewrite E in Ez. lia. }
  destruct (Z.ltb_spec last (recv_offset s1)) as [Hl | Hl].
  { eexists _, _, _. split; [done |]. intros _. rewrite Es1 in Hl. cbn in Hl.
    pose proof (si_last _ _ _ _ _ _ Hi). assert (s1 = s) as -> by (rewrite Es1, Z.max_r by lia; by destruct s).
    destruct (frame_late off d) as [M1 M2 M3 M4 M5 M6 M7 M8 M9]; [by right |].
    destruct M1 as [b1 M1]. destruct Hf. split; rewrite ?Ep; try done; try lia; [by exists b1 |]. split; rewrite ?L4; lia. }
  set (after := if fin then take_fin s1 last else Some s1). destruct after as [s2 |] eqn:Ea; [| by eexists _, _, _].
  assert (Hs2 : (s2 = s1 /\ fin = false \/ s2 = set_state NGX_QUIC_STREAM_RECV_SIZE_KNOWN (set_final (Some last) s1) /\
    recv_last s1 = last /\ forall z, recv_final_size s1 = Some z -> z = last)).
  { unfold after in Ea. destruct fin; [right | left; by injection Ea as <-]. apply take_fin_spec; [done | |].
    - intros z E. rewrite Es1 in *. cbn in *. pose proof (si_final _ _ _ _ _ _ Hi z E). specialize (Hz z E). lia.
    - rewrite Es1. cbn. lia. }
  assert (Hs2' : recv s2 = recv s /\ recv_offset s2 = recv_offset s /\ recv_window s2 = recv_window s /\
    recv_max_data s2 = recv_max_data s /\ ready s2 = ready s /\ recv_last s2 = Z.max last (recv_last s)).
  { destruct Hs2 as [[-> _] | [-> _]]; by rewrite Es1. }
  destruct Hs2' as (T1 & T2 & T3 & T4 & T5 & T6).
  assert (T7 : forall z, recv_final_size s = Some z -> recv_final_size s2 = Some z).
  { intros z E. destruct Hs2 as [[-> _] | (-> & _ & E2)]; [by rewrite Es1 |]. cbn. f_equal. symmetry. apply E2. by rewrite Es1. }
  rewrite <- Ep in Hw. rewrite T1.
  assert (Hrep : represents (fpool c1) (recv s) b) by (rewrite Ep; by destruct Hi).
  destruct (write_buffer_spec grant (fpool c1) (recv s) b l [Input true d] (Z.of_nat (length d)) off Hw Hrep)
    as (r & qb & p' & -> & Hw' & Hst & Hlk & Hr); [by constructor | lia |]. cbn [mbind option_bind].
  destruct r as [rest |]; [| by eexists _, _, _]. destruct Hr as (Hr & Hg & _).
  eexists _, _, _. split; [done |]. intros _. rewrite Nat2Z.id in Hr. change (input_bytes _) with (d ++ []) in Hr.
  rewrite app_nil_r in Hr. split.
  - eexists. apply (frame_written off d s2 c1 qb p'); try done; try lia.
    + destruct Hs2 as [[-> _] | [-> _]]; [by rewrite Es1 | done].
    + rewrite T6, T4. destruct (Z.le_gt_cases last (recv_last s)) as [? | Hgt].
      * rewrite Z.max_r by lia. by apply (si_max _ _ _ _ _ _ Hi).
      * destruct (L5 ltac:(lia)) as [_ Hm]. rewrite Z.max_l by lia. apply Hm. destruct (decide (recv_state s = NGX_QUIC_STREAM_RECV_RECV)) as [E | E]; [done |].
        exfalso. pose proof (si_known _ _ _ _ _ _ Hi Hres E) as Ek. specialize (Hz _ Ek). lia.
    + intros z E. rewrite T6. destruct Hs2 as [[-> _] | (-> & E2 & _)].
      * rewrite Es1 in E. cbn in E. pose proof (si_final _ _ _ _ _ _ Hi z E). specialize (Hz z E). lia.
      * cbn in E. injection E as <-. rewrite Es1 in E2. cbn in E2. lia.
    + destruct Hs2 as [[-> _] | (-> & _ & _)]; [| done]. rewrite Es1. cbn. intros E. split; [done |]. by apply (si_unknown _ _ _ _ _ _ Hi).
    + destruct Hs2 as [[-> _] | (-> & E2 & _)]; rewrite ?Es1; cbn.
      * intros E. pose proof (si_known _ _ _ _ _ _ Hi Hres E) as Ek. specialize (Hz _ Ek). rewrite Ek. f_equal. lia.
      * intros _. f_equal. rewrite Es1 in E2. cbn in E2. lia.
    + rewrite Es1 in Hl. cbn in Hl. lia.
  - destruct (noted_fields (off <=? recv_offset (note_size (set_recv qb s2))) (set_recv qb s2)) as (-> & _). done.
  - cbn. rewrite <- Ep. done.
  - cbn. by rewrite <- Ep.
  - cbn. destruct Hf. split; cbn; rewrite ?L4; try lia. destruct (Z.le_gt_cases last (recv_last s)); [| by apply L5; lia].
    rewrite Es1 in L1. cbn in L1. lia.
  - destruct (noted_fields (off <=? recv_offset (note_size (set_recv qb s2))) (set_recv qb s2)) as (_ & -> & _).
    cbn. rewrite L1, Es1. cbn. lia.
  - destruct (noted_fields (off <=? recv_offset (note_size (set_recv qb s2))) (set_recv qb s2)) as (_ & _ & -> & _).
    cbn. lia.
  - destruct (noted_fields (off <=? recv_offset (note_size (set_recv qb s2))) (set_recv qb s2)) as (_ & _ & _ & _ & ->).
    done.
  - destruct (noted_fields (off <=? recv_offset (note_size (set_recv qb s2))) (set_recv qb s2)) as (_ & _ & _ & -> & _).
    done.
  - done.
Qed.





(** A reset that is taken or refused. *)
Lemma reset_frame_ok id final ok s' c' : 0 < recv_window s -> 0 < flow_window c ->
  ngx_quic_handle_reset_stream_frame id s c final = (ok, s', c') ->
  ok = true -> moved f l s c s' c' got seen.
Proof.
  intros Hwin Hfw E Hok. subst ok. unfold ngx_quic_handle_reset_stream_frame in E. destruct (was_reset s) eqn:Er.
  { injection E as <- <-. by apply moved_same. }
  destruct (ngx_quic_control_flow (set_state NGX_QUIC_STREAM_RECV_RESET_RECVD s) c final) as [[ok1 s1] c1] eqn:E1.
  apply control_flow_spec in E1 as [Ep H1]. destruct ok1; cbn [negb] in E; [| done].
  destruct (H1 eq_refl) as (Es1 & L1 & L2 & L3 & L4 & L5). clear H1. cbn in L1, L5.
  destruct (match recv_final_size s1 with Some z => negb (z =? final) | None => false end) eqn:Ez; [done |].
  destruct (Z.ltb_spec final (recv_last s1)) as [| Hl]; [done |].
  assert (Hl1 : recv_last s1 = final) by (rewrite Es1 in *; cbn in *; lia).
  assert (Hf1 : finv c1).
  { destruct Hf. split; rewrite ?L4; lia. }
  set (s2 := set_final (Some final) s1) in *.
  assert (Hs2 : recv s2 = recv s /\ recv_offset s2 = recv_offset s /\ recv_last s2 = final /\ recv_window s2 = recv_window s /\
    recv_final_size s2 = Some final /\ recv_state s2 = NGX_QUIC_STREAM_RECV_RESET_RECVD)
    by (unfold s2; rewrite Es1 in *; by cbn in * ).
  assert (T7 : forall z, recv_final_size s = Some z -> recv_final_size s2 = Some z).
  { intros z Es. rewrite Es1 in Ez. cbn in Ez. rewrite Es in Ez. cbn. f_equal. lia. }
  destruct Hs2 as (T1 & T2 & T3 & T4 & T5 & T6). clearbody s2.
  assert (Hgrow : recv_last s <= final) by (rewrite Es1 in *; cbn in *; lia).
  (** It does not matter whether the offset moves. *)
  assert (Hinv : forall p' s3, quiet (fpool c) p' -> recv s3 = recv s -> recv_last s3 = final -> recv_offset s3 <= final ->
    recv_final_size s3 = Some final -> recv_state s3 = NGX_QUIC_STREAM_RECV_RESET_RECVD ->
    exists b', sinv f p' s3 b' got seen).
  { intros p' s3 (Ec & _ & Hl3) R1 R2 R3 R4 R5. exists b. destruct Hi as [I1 I2 I3 I4 I5 I6 I7 I8 I9 I10 I11 I12 I13 I14 I15 I16 I17].
    assert (was_reset s3 = true) by (unfold was_reset; by rewrite R5).
    split; rewrite ?R1, ?R2, ?R4; try done; try congruence.
    - eapply represents_stable; [exact Hl3 | by apply stable_cell | done].
    - intros x v Hx Hv. destruct (I6 x v Hx Hv). split; [done | lia]. }
  destruct (ngx_quic_update_flow id s2 c1 final) as [[ok2 s3] c2] eqn:E3. destruct ok2; cbn [negb] in E; [| done].
  injection E as <- <-. destruct (Z.le_gt_cases final (recv_offset s2)) as [Hle | Hgt].
  - unfold ngx_quic_update_flow in E3. destruct (Z.leb_spec final (recv_offset s2)); [| lia]. injection E3 as <- <-.
    pose proof (si_last _ _ _ _ _ _ Hi) as Hlast. split; cbn; rewrite ?Ep, ?T1, ?T2, ?T3, ?T4; try done; try lia.
    + apply (Hinv (fpool c)); try done; cbn; lia.
    + apply stable_refl.
  - apply update_flow_spec in E3 as (Hq & Hwf & _ & H3); [| lia | lia | lia]. destruct (H3 eq_refl) as [O1 O2 O3 O4 O5 O6 O7 O8].
    remember (recv_max_data s3) as m eqn:Em. clear Em. subst s3.
    rewrite Ep in *. destruct Hf1. split; cbn; rewrite ?T1, ?T3, ?T4; try done; try lia.
    + apply (Hinv (fpool c2)); try done; cbn; lia.
    + by apply Hwf.
    + apply stable_cell. by destruct Hq.
    + by destruct Hq as (_ & _ & ?).
    + split; try done; lia.
Qed.

(** The limits are sent again. *)
Lemma stream_blocked_ok id ok s' c' : ngx_quic_update_max_stream_data id s c = (ok, s', c') -> 0 < recv_window s ->
  ok = true -> moved f l s c s' c' got seen.
Proof.
  intros E Hwin ->. apply update_stream_spec in E as ((Hq & Hwf & _ & F1 & F2 & F3) & F4 & Es & F5 & F6).
  pose proof (half_less _ Hwin). destruct Hf. pose proof Hq as (Ec & _ & Hl).
  remember (recv_max_data s') as m eqn:Em. clear Em. subst s'. split; cbn; try done; try lia.
  - exists b. destruct Hi as [I1 I2 I3 I4 I5 I6 I7 I8 I9 I10 I11 I12 I13 I14 I15 I16 I17].
    split; cbn; try done.
    + eapply represents_stable; [exact Hl | by apply stable_cell | done].
    + intros Hr. specialize (I13 Hr). specialize (I14 Hr). lia.
    + intros Hr. specialize (I14 Hr). lia.
    + intros Hr. rewrite (F6 Hr). lia.
  - by apply Hwf.
  - by apply stable_cell.
  - split; rewrite ?F3; lia.
Qed.

(** The bytes that are read are the next bytes of the stream. *)
Lemma got_more size d : run_of (byte_at b) (sbase b) size d ->
  got ++ d = map (fun i => f (Z.of_nat i)) (seq 0 (length (got ++ d))).
Proof.
  intros (Hrun & _ & _). rewrite length_app, seq_app, map_app, <- (si_got _ _ _ _ _ _ Hi). f_equal.
  pose proof (si_base _ _ _ _ _ _ Hi) as Hb. apply list_eq. intros i.
  destruct (decide (i < length d)%nat) as [Hlt | Hge].
  - destruct (lookup_lt_is_Some_2 d i Hlt) as [v Hv]. rewrite Hv. symmetry.
    rewrite list_lookup_fmap, lookup_seq_lt by done. cbn. specialize (Hrun i Hlt). rewrite Hv in Hrun.
    destruct (si_true _ _ _ _ _ _ Hi (sbase b + Z.of_nat i) v) as [-> _]; [lia | done |]. do 2 f_equal. lia.
  - rewrite !lookup_ge_None_2; [done | rewrite length_map, length_seq; lia | lia].
Qed.

(** A read that finds nothing. *)
Lemma recv_nothing p' qb : was_reset s = false -> byte_at b (sbase b) = None -> represents p' qb b -> gone qb = gone (recv s) ->
  let s1 := set_ready false (set_recv qb s) in
  let s2 := note_read s1 in
  sinv f p' s2 b got seen /\ ready s2 = false /\
  (recv_state s2 = NGX_QUIC_STREAM_RECV_DATA_READ -> recv_final_size s2 = Some (Z.of_nat (length got))).
Proof.
  intros Hres Hnone Hrep Hgone s1 s2.
  assert (Hcase : s2 = set_state NGX_QUIC_STREAM_RECV_DATA_READ s1 /\ recv_state s = NGX_QUIC_STREAM_RECV_DATA_RECVD /\
      recv_final_size s = Some (recv_offset s) \/
    s2 = s1 /\ ~ (recv_state s = NGX_QUIC_STREAM_RECV_DATA_RECVD /\ recv_final_size s = Some (recv_offset s))).
  { unfold s2, s1, note_read. cbn. case_bool_decide; cbn; [case_bool_decide; cbn |]; tauto. }
  destruct Hi as [I1 I2 I3 I4 I5 I6 I7 I8 I9 I10 I11 I12 I13 I14 I15 I16 I17].
  destruct Hcase as [(-> & Es & Ef) | [-> Hnot]]; unfold s1; cbn.
  - assert (Hend : sbase b = recv_last s) by (rewrite <- I5 by done; symmetry; by apply I8).
    split_and!; [| done | intros _; rewrite Ef; f_equal; rewrite I5; [lia | done]].
    split; cbn; try done; try congruence.
    + intros _. by apply I5.
    + intros _ _. by apply I10; [| congruence].
    + intros x _ _ Hx. apply I11; [done | by unfold receiving; rewrite Es | done].
    + intros _. by apply I13.
    + intros _. by apply I14.
    + intros _ _. split; [done |]. by intros [? _].
    + intros off d k _. by apply I17.
  - split_and!; [| done |].
    + split; cbn; try done. { by rewrite Hgone. }
      intros _ _. split; [done |]. intros [Es Ee]. apply Hnot. split; [done |]. rewrite I5 by done. rewrite Ee.
      apply I10; [done | congruence].
    + intros Es. specialize (I12 Es). rewrite I10 by congruence. f_equal. lia.
Qed.

(** A read that finds some bytes. *)
Lemma recv_some p' qb size d m : was_reset s = false -> run_of (byte_at b) (sbase b) size d -> d <> [] ->
  let b' := Stream (sbase b + Z.of_nat (length d)) (byte_at b) in
  represents p' qb b' -> gone qb = gone (recv s) + Z.of_nat (length d) ->
  let last := recv_offset s + Z.of_nat (length d) in
  m = recv_max_data s \/ m = last + recv_window s ->
  (recv_state s = NGX_QUIC_STREAM_RECV_RECV -> last + recv_window s / 2 < m) ->
  recv_max_data s <= last + recv_window s ->
  sinv f p' (set_max_data m (set_offset last (set_recv qb s))) b' (got ++ d) seen /\ last <= recv_last s.
Proof.
  intros Hres Hrun Hd b' Hrep Hgone last Hm Hhalf Hroom. pose proof (got_more _ _ Hrun) as Hgot.
  destruct Hi as [I1 I2 I3 I4 I5 I6 I7 I8 I9 I10 I11 I12 I13 I14 I15 I16 I17].
  pose proof Hrun as (Hbytes & _ & _). assert (Hlen : (0 < length d)%nat) by (destruct d; [done | cbn; lia]).
  assert (Hlast : last <= recv_last s).
  { destruct (lookup_lt_is_Some_2 d (length d - 1)%nat) as [v Hv]; [lia |]. specialize (Hbytes (length d - 1)%nat).
    rewrite Hv in Hbytes. apply I6 in Hbytes as [_ ?]; [| lia | lia]. unfold last. rewrite I5 by done. lia. }
  assert (H0 : byte_at b (sbase b) <> None).
  { specialize (Hbytes O Hlen). rewrite Z.add_0_r in Hbytes. rewrite Hbytes. by destruct d. }
  split; [| done]. split; cbn; try done.
  - rewrite Hgone, I2. done.
  - rewrite length_app. lia.
  - intros _. unfold last. rewrite I5 by done. done.
  - intros x v Hx Hv. apply I6; [lia | done].
  - intros x _ Hr Hx. apply I11; [done | done | lia].
  - intros Es. exfalso. specialize (I12 Es). unfold last in Hlast. rewrite I5 in Hlast by done. lia.
  - intros _. specialize (I13 Hres). specialize (I14 Hres). lia.
  - intros _. lia.
  - intros _ Hrd. destruct (I16 Hres Hrd) as [? _]. done.
  - intros off d' k _ Hin Hk Hx Hz. apply (I17 off d' k Hres Hin Hk); [lia | done].
Qed.

(** What a read gives. *)
Definition recv_result (r : received) s' c' : Prop :=
  match r with
  | Bytes d => moved f l s c s' c' (got ++ d) seen /\ (d = [] \/ was_reset s' = false)
  | Eof => moved f l s c s' c' got seen /\ recv_final_size s' = Some (Z.of_nat (length got)) /\ was_reset s' = false
  | NotYet => moved f l s c s' c' got seen /\ ready s' = false /\ was_reset s' = false
  | Failed => (was_reset s = true /\ moved f l s c s' c' got seen) \/ (was_reset s = false /\ refused grant)
  end.

Lemma stream_recv_ok id size r s' c' : 0 < recv_window s -> 0 < flow_window c -> 0 <= size ->
  ngx_quic_stream_recv id s c size = (r, s', c') -> recv_result r s' c'.
Proof.
  intros Hwin Hfw Hsize E. unfold ngx_quic_stream_recv in E. destruct (was_reset s) eqn:Hres.
  { injection E as <- <- <-. left. split; [done |].
    split; cbn; try done; try lia; [| apply stable_refl]. exists b. destruct Hi. by split. }
  destruct (Z.eqb_spec size 0) as [| Hne].
  { injection E as <- <- <-. cbn. rewrite app_nil_r. split; [by apply moved_same | by left]. }
  destruct (ngx_quic_read_buffer grant (fpool c) (recv s) size) as [[r1 qb] p1] eqn:E1.
  apply (read_buffer_spec grant (fpool c) (recv s) b l size r1 qb p1 Hw (si_rep _ _ _ _ _ _ Hi) Hsize) in E1 as [Hq1 E1].
  destruct r1 as [chain |]; [| injection E as <- <- <-; right; split; [done | by destruct E1]].
  cbn zeta in E1. destruct E1 as (Hw1 & Hrun & Hrep & Hgone). set (d := chain_bytes (cell p1) (map lbuf chain)) in *.
  destruct (free_chain_spec grant p1 chain _ Hw1) as [Hw2 Hq2]. set (p2 := ngx_quic_free_chain p1 chain) in *.
  assert (Hq : quiet (fpool c) p2) by (by eapply quiet_trans). pose proof Hq as (Ec & _ & Hl).
  assert (Hrep2 : represents p2 qb (Stream (sbase b + Z.of_nat (length d)) (byte_at b))).
  { destruct Hq2 as (Ec2 & _ & Hl2). eapply represents_stable; [exact Hl2 | by apply stable_cell | done]. }
  destruct (Nat.eqb_spec (length d) 0) as [Hd0 | Hd0].
  - rewrite Hd0, Z.add_0_r in *.
    assert (Hnone : byte_at b (sbase b) = None).
    { destruct Hrun as (_ & _ & [? | Hn]); [lia |]. by rewrite Hd0, Z.add_0_r in Hn. }
    assert (Hrep3 : represents p2 qb b) by (by destruct b).
    destruct (recv_nothing p2 qb Hres Hnone Hrep3 ltac:(lia)) as (Hs & Hrd & Hfin). cbn zeta in E.
    set (s2 := note_read _) in *.
    assert (Hs2 : recv s2 = qb /\ recv_last s2 = recv_last s /\ recv_offset s2 = recv_offset s /\
      recv_window s2 = recv_window s /\ recv_final_size s2 = recv_final_size s)
      by (unfold s2, note_read; by destruct (_ && _)).
    assert (Hres2 : was_reset s2 = false) by (unfold s2, note_read; destruct (_ && _); [done | exact Hres]).
    destruct Hs2 as (T1 & T2 & T3 & T4 & T5). clearbody s2.
    assert (Hmv : moved f l s c s2 (set_fpool p2 c) got seen).
    { split; cbn; rewrite ?T1, ?T5; try done; try lia; [by exists b | by apply stable_cell |]. by destruct Hf. }
    case_bool_decide as Es; injection E as <- <- <-; cbn; by split_and!; auto.
  - change (recv_offset (set_recv qb s)) with (recv_offset s) in E.
    destruct (ngx_quic_update_flow id (set_recv qb s) (set_fpool p2 c) (recv_offset s + Z.of_nat (length d)))
      as [[ok s2] c2] eqn:E2.
    apply update_flow_spec in E2 as (Hq3 & Hwf3 & Hno & H3); [| done | done | cbn; lia].
    destruct ok; injection E as <- <- <-; cbn; [| right; split; [done | by apply Hno]].
    destruct (H3 eq_refl) as [O1 O2 O3 O4 O5 O6 O7 O8]. cbn in O1, O2, O3, O4, O5, O6, O7, O8.
    remember (recv_max_data s2) as m eqn:Em. clear Em H3. subst s2. cbn in Hq3, Hwf3.
    assert (Hne2 : d <> []) by (by intros ->). pose proof Hq3 as (Ec3 & _ & Hl3).
    assert (Hrep3 : represents (fpool c2) qb (Stream (sbase b + Z.of_nat (length d)) (byte_at b))).
    { eapply represents_stable; [exact Hl3 | by apply stable_cell | done]. }
    pose proof (si_room _ _ _ _ _ _ Hi Hres) as Hroom.
    destruct (recv_some (fpool c2) qb size d m Hres Hrun Hne2 Hrep3 Hgone O2 O3 ltac:(lia)) as [Hs Hlast].
    destruct Hf as [F1 F2 F3]. split; [| by right]. split; cbn; try done; try lia.
    + by eexists.
    + by apply Hwf3.
    + apply stable_cell. by rewrite Ec3.
    + split; [lia | lia | done].
Qed.

End stream.

(** ** Lemmas: the streams of a connection *)

Fixpoint sum_of (g : rstream -> Z) (l : list rstream) : Z :=
  match l with [] => 0 | s :: l => g s + sum_of g l end.

Lemma sum_insert g i s s' l : l !! i = Some s -> sum_of g (<[i := s']> l) = sum_of g l + (g s' - g s).
Proof.
  revert i. induction l as [|x l IH]; intros [|i] Hi; cbn in *; [done | done | injection Hi as ->; lia |].
  rewrite IH by done. lia.
Qed.

Section connection.

Context (f : nat -> Z -> Z).

(** The state of a connection after the events [es], when [log] was read. *)
Record cinv (st : rconn) (log : list (nat * received)) (es : list event) : Prop := {
  ci_wf : wf (fpool (rflow st)) (chains (map recv (rstreams st)));
  ci_flow : finv (rflow st);
  ci_window : 0 < flow_window (rflow st) /\ Forall (fun s => 0 < recv_window s) (rstreams st);
  ci_last : flow_last (rflow st) = sum_of recv_last (rstreams st);
  ci_offset : flow_offset (rflow st) = sum_of recv_offset (rstreams st);
  ci_stream i s : rstreams st !! i = Some s ->
    exists b, sinv (f i) (fpool (rflow st)) s b (got_of i log) (frames_of i es);
  ci_eof i s : rstreams st !! i = Some s -> (i, Eof) ∈ log ->
    recv_final_size s = Some (Z.of_nat (length (got_of i log))) }.

Lemma got_of_app i log1 log2 : got_of i (log1 ++ log2) = got_of i log1 ++ got_of i log2.
Proof. induction log1 as [|[j r] log1 IH]; [done |]. cbn. by rewrite IH, app_assoc. Qed.

Lemma frames_of_app i es1 es2 : frames_of i (es1 ++ es2) = frames_of i es1 ++ frames_of i es2.
Proof. induction es1 as [|[] es1 IH]; cbn; rewrite ?IH, ?app_assoc; done. Qed.

Lemma sinv_seen g p s b got seen seen' : (forall x, x ∈ seen' -> x ∈ seen) -> sinv g p s b got seen -> sinv g p s b got seen'.
Proof. intros Hsub []. split; try done. intros off d k Hr Hin. apply si_seen0; [done | by apply Hsub]. Qed.

Lemma sinv_stable g p p' s b got seen : (links p <= links p')%nat -> stable (map lbuf (qchain (recv s))) p p' ->
  sinv g p s b got seen -> sinv g p' s b got seen.
Proof. intros Hl Hs []. split; try done. by eapply represents_stable. Qed.

Lemma stable_chain bs qb p p' : stable (chains bs) p p' -> qb ∈ bs -> stable (map lbuf (qchain qb)) p p'.
Proof.
  unfold chains. induction bs as [|x bs IH]; [by intros _ ?%not_elem_of_nil |]. cbn. rewrite map_app.
  intros [H1 H2]%Forall_app [-> | Hin]%elem_of_cons; [done | by apply IH].
Qed.

(** The buffers of the other streams are among the pieces in use. *)
Lemma others_stream i j s (l : list rstream) p p' : l !! j = Some s -> j <> i -> stable (others i (map recv l)) p p' ->
  stable (map lbuf (qchain (recv s))) p p'.
Proof.
  intros Hj Hne Hs. eapply stable_chain; [exact Hs |]. apply elem_of_app.
  assert (Hm : map recv l !! j = Some (recv s)) by (rewrite list_lookup_fmap, Hj; done).
  destruct (decide (j < i)%nat) as [Hlt | Hge]; [left | right].
  - apply (list_elem_of_lookup_2 _ j). by rewrite lookup_take_lt.
  - apply (list_elem_of_lookup_2 _ (j - S i)). rewrite lookup_drop. by replace (S i + (j - S i))%nat with j by lia.
Qed.

(** The stream [i] moves, and the others stay what they are. *)
Lemma cinv_moved i s s' c' st log es r e : cinv st log es -> rstreams st !! i = Some s ->
  (forall b, sinv (f i) (fpool (rflow st)) s b (got_of i log) (frames_of i es) ->
    wf (fpool (rflow st)) (map lbuf (qchain (recv s)) ++ others i (map recv (rstreams st))) ->
    moved (f i) (others i (map recv (rstreams st))) s (rflow st) s' c'
      (got_of i (log ++ r)) (frames_of i (es ++ [e]))) ->
  (forall j, j <> i -> got_of j r = [] /\ frames_of j [e] = [] /\ (j, Eof) ∉ r) ->
  ((i, Eof) ∈ r -> recv_final_size s' = Some (Z.of_nat (length (got_of i (log ++ r))))) ->
  ((i, Eof) ∈ log -> got_of i r = []) ->
  cinv (RConn (<[i := s']> (rstreams st)) c') (log ++ r) (es ++ [e]).
Proof.
  intros [C1 C2 C3 C4 C5 C6 C7] Hi Hmv Hother Heof Hlate.
  assert (Hm : map recv (rstreams st) !! i = Some (recv s)) by (rewrite list_lookup_fmap, Hi; done).
  destruct (C6 i s Hi) as [b Hb]. pose proof C1 as Cw. rewrite (chains_split i _ _ Hm) in Cw.
  destruct (Hmv b Hb Cw) as [M1 M2 M3 M4 M5 M6 M7 M8 M9 M10].
  pose proof (lookup_lt_Some _ _ _ Hi) as Hlt. split; cbn [rstreams rflow].
  - change (map recv (<[i:=s']> (rstreams st))) with (recv <$> <[i:=s']> (rstreams st)). rewrite list_fmap_insert.
    rewrite chains_insert by (by rewrite length_fmap). exact M2.
  - done.
  - rewrite M10. split; [apply C3 |]. apply Forall_insert; [apply C3 |]. rewrite M9.
    destruct C3 as [_ C3]. rewrite Forall_forall in C3. apply C3. by eapply list_elem_of_lookup_2.
  - rewrite (sum_insert _ _ _ _ _ Hi). lia.
  - rewrite (sum_insert _ _ _ _ _ Hi). lia.
  - intros j sj Hj. rewrite got_of_app, frames_of_app. destruct (decide (j = i)) as [-> | Hne].
    + rewrite list_lookup_insert_eq in Hj by done. injection Hj as <-. by rewrite got_of_app, frames_of_app in M1.
    + rewrite list_lookup_insert_ne in Hj by done. destruct (Hother j Hne) as (-> & -> & _). rewrite !app_nil_r.
      destruct (C6 j sj Hj) as [bj Hbj]. exists bj. eapply sinv_stable; [exact M4 | | done].
      by eapply (others_stream i j).
  - intros j sj Hj Hin. apply elem_of_app in Hin. destruct (decide (j = i)) as [-> | Hne].
    + rewrite list_lookup_insert_eq in Hj by done. injection Hj as <-. destruct Hin as [Hin | Hin]; [| by apply Heof].
      rewrite got_of_app, (Hlate Hin), app_nil_r. by apply M8, C7.
    + rewrite list_lookup_insert_ne in Hj by done. destruct (Hother j Hne) as (Eg & _ & Hno).
      destruct Hin as [Hin | Hin]; [| done]. rewrite got_of_app, Eg, app_nil_r. by apply C7.
Qed.

Definition event_ok (n : nat) (e : event) : Prop :=
  match e with
  | StreamFrame i off d _ => (i < n)%nat /\ piece_of (f i) off d
  | StreamRecv i size => (i < n)%nat /\ 0 <= size
  | ResetStream i _ => (i < n)%nat
  | DataBlocked => True
  | StreamDataBlocked i => (i < n)%nat
  end.

(** An event goes wrong or leaves the connection as it should be. *)
Definition happens (e : event) (st : rconn) (log : list (nat * received)) (es : list event) : Prop :=
  exists ok st' r, happen e st = Some (ok, st', r) /\
    (ok = true -> cinv st' (log ++ r) (es ++ [e]) /\ length (rstreams st') = length (rstreams st)).

Section happen.

Context (st : rconn) (log : list (nat * received)) (es : list event) (Hc : cinv st log es).

Lemma happen_stream i : (i < length (rstreams st))%nat -> exists s, rstreams st !! i = Some s /\ 0 < recv_window s /\
  0 < flow_window (rflow st).
Proof.
  intros [s Hs]%lookup_lt_is_Some_2. exists s. destruct (ci_window _ _ _ Hc) as [? Hw]. split_and!; [done | | done].
  rewrite Forall_forall in Hw. apply Hw. by eapply list_elem_of_lookup_2.
Qed.

(** An event of the stream [i] after which nothing was read. *)
Lemma quiet_event i s s' c' e : rstreams st !! i = Some s ->
  (forall j, j <> i -> frames_of j [e] = []) ->
  (forall b, sinv (f i) (fpool (rflow st)) s b (got_of i log) (frames_of i es) ->
    wf (fpool (rflow st)) (map lbuf (qchain (recv s)) ++ others i (map recv (rstreams st))) ->
    moved (f i) (others i (map recv (rstreams st))) s (rflow st) s' c' (got_of i log) (frames_of i (es ++ [e]))) ->
  cinv (RConn (<[i := s']> (rstreams st)) c') (log ++ []) (es ++ [e]) /\
  length (<[i := s']> (rstreams st)) = length (rstreams st).
Proof.
  intros Hi He Hmv. split; [| by rewrite length_insert].
  apply (cinv_moved i s); [done | done | by rewrite app_nil_r | | by intros ?%not_elem_of_nil | done].
  intros j Hne. split_and!; [done | by apply He | apply not_elem_of_nil].
Qed.

(** The frames seen are those of before and the new one, in another order. *)
Lemma moved_seen g l s c s' c' got seen seen' : (forall x, x ∈ seen' -> x ∈ seen) ->
  moved g l s c s' c' got seen -> moved g l s c s' c' got seen'.
Proof. intros Hsub [[b Hb] ? ? ? ? ? ? ? ? ?]. split; try done. exists b. by eapply sinv_seen. Qed.

Lemma happen_frame i off d fin : (i < length (rstreams st))%nat -> piece_of (f i) off d ->
  happens (StreamFrame i off d fin) st log es.
Proof.
  intros Hi Hd. destruct (happen_stream i Hi) as (s & Hs & _ & _). unfold happens. cbn [happen]. rewrite Hs. cbn [mbind option_bind].
  destruct (ci_stream _ _ _ Hc i s Hs) as [b Hb].
  assert (Hm : map recv (rstreams st) !! i = Some (recv s)) by (rewrite list_lookup_fmap, Hs; done).
  pose proof (ci_wf _ _ _ Hc) as Cw. rewrite (chains_split i _ _ Hm) in Cw.
  destruct (stream_frame_ok (f i) _ s (rflow st) b _ _ Hb Cw (ci_flow _ _ _ Hc) off d fin Hd) as (ok & s' & c' & -> & Hok).
  cbn [mbind option_bind put_stream]. eexists _, _, _. split; [done |]. intros E. apply (quiet_event i s); [done | |].
  - intros j Hne. cbn. by destruct (Nat.eqb_spec i j).
  - intros b' _ _. eapply moved_seen; [| exact (Hok E)]. intros x. rewrite frames_of_app. cbn. rewrite Nat.eqb_refl. cbn.
    set_solver.
Qed.

Lemma happen_reset i final_size : (i < length (rstreams st))%nat -> happens (ResetStream i final_size) st log es.
Proof.
  intros Hi. destruct (happen_stream i Hi) as (s & Hs & Hw & Hfw). unfold happens. cbn [happen]. rewrite Hs. cbn [mbind option_bind].
  destruct (ngx_quic_handle_reset_stream_frame i s (rflow st) final_size) as [[ok s'] c'] eqn:E.
  eexists _, _, _. split; [done |]. intros Hok. cbn in Hok. apply (quiet_event i s); [done | done |].
  intros b Hb Cw. rewrite frames_of_app, app_nil_r. eapply reset_frame_ok; eauto. by apply (ci_flow _ _ _ Hc).
Qed.

Lemma happen_stream_blocked i : (i < length (rstreams st))%nat -> happens (StreamDataBlocked i) st log es.
Proof.
  intros Hi. destruct (happen_stream i Hi) as (s & Hs & Hw & Hfw). unfold happens. cbn [happen]. rewrite Hs. cbn [mbind option_bind].
  destruct (ngx_quic_update_max_stream_data i s (rflow st)) as [[ok s'] c'] eqn:E.
  eexists _, _, _. split; [done |]. intros Hok. cbn in Hok. apply (quiet_event i s); [done | done |].
  intros b Hb Cw. rewrite frames_of_app, app_nil_r. eapply stream_blocked_ok; eauto. by apply (ci_flow _ _ _ Hc).
Qed.

Lemma happen_blocked : happens DataBlocked st log es.
Proof.
  unfold happens. cbn [happen]. destruct (ngx_quic_update_max_data (rflow st)) as [ok c'] eqn:E.
  eexists _, _, _. split; [done |]. intros ->. split; [| done]. rewrite app_nil_r. destruct Hc as [C1 C2 C3 C4 C5 C6 C7].
  apply update_max_data_spec in E as [((Ec & Eb & El) & Hwf & _ & F1 & F2 & F3) F4]. destruct C3 as [C3 C3'].
  pose proof (half_less _ C3). destruct C2. split; cbn [rstreams rflow]; try done; try lia.
  - by apply Hwf.
  - split; rewrite ?F3; lia.
  - split; [lia | done].
  - intros i s Hs. rewrite frames_of_app, app_nil_r. destruct (C6 i s Hs) as [b Hb]. exists b.
    eapply sinv_stable; [exact El | by apply stable_cell | done].
Qed.

Lemma happen_recv i size : (i < length (rstreams st))%nat -> 0 <= size -> happens (StreamRecv i size) st log es.
Proof.
  intros Hi Hsize. destruct (happen_stream i Hi) as (s & Hs & Hw & Hfw). unfold happens. cbn [happen]. rewrite Hs. cbn [mbind option_bind].
  destruct (ngx_quic_stream_recv i s (rflow st) size) as [[r s'] c'] eqn:E. cbn [put_stream].
  eexists _, _, _. split; [done |]. intros Hok. split; [| by cbn [rstreams]; rewrite length_insert].
  assert (Hr : forall b, sinv (f i) (fpool (rflow st)) s b (got_of i log) (frames_of i es) ->
    wf (fpool (rflow st)) (map lbuf (qchain (recv s)) ++ others i (map recv (rstreams st))) ->
    recv_result (f i) (others i (map recv (rstreams st))) s (rflow st) (got_of i log) (frames_of i es) r s' c').
  { intros b Hb Cw. eapply stream_recv_ok; eauto. apply (ci_flow _ _ _ Hc). }
  assert (Hgot : forall j, got_of j [(i, r)] = if (i =? j)%nat then match r with Bytes d => d | _ => [] end else []).
  { intros j. cbn. by rewrite app_nil_r. }
  assert (Hother : forall j, j <> i -> got_of j [(i, r)] = [] /\ frames_of j [StreamRecv i size] = [] /\ (j, Eof) ∉ [(i, r)]).
  { intros j Hne. rewrite Hgot. destruct (Nat.eqb_spec i j); [congruence |]. split_and!; [done | done |].
    intros Hin%list_elem_of_singleton. congruence. }
  assert (Hm : map recv (rstreams st) !! i = Some (recv s)) by (rewrite list_lookup_fmap, Hs; done).
  pose proof (ci_wf _ _ _ Hc) as Cw0. rewrite (chains_split i _ _ Hm) in Cw0.
  destruct (ci_stream _ _ _ Hc i s Hs) as [b0 Hb0]. pose proof (Hr b0 Hb0 Cw0) as Hr0.
  apply (cinv_moved i s); [done | done | | exact Hother | |].
  - intros b Hb Cw. rewrite got_of_app, frames_of_app, Hgot, Nat.eqb_refl. cbn [frames_of]. rewrite !app_nil_r.
    destruct r as [d | | |]; cbn in Hr0; rewrite ?app_nil_r; [by apply Hr0 | by apply Hr0 | by apply Hr0 |].
    destruct Hr0 as [[_ ?] | [Hres _]]; [done | congruence].
  - intros Hin%list_elem_of_singleton. injection Hin as <-. rewrite got_of_app, Hgot, Nat.eqb_refl, app_nil_r. by apply Hr0.
  - intros Hin. rewrite Hgot, Nat.eqb_refl. destruct r as [d | | |]; try done. destruct Hr0 as [Hmv [-> | Hres]]; [done |].
    pose proof (ci_eof _ _ _ Hc i s Hs Hin) as Ef. apply (mv_final _ _ _ _ _ _ _ _ Hmv) in Ef.
    destruct (mv_inv _ _ _ _ _ _ _ _ Hmv) as [b' Hb']. pose proof (si_final _ _ _ _ _ _ Hb' _ Ef) as El.
    pose proof (si_last _ _ _ _ _ _ Hb'). pose proof (si_offset _ _ _ _ _ _ Hb' Hres) as Eo.
    pose proof (si_base _ _ _ _ _ _ Hb') as Eb. rewrite length_app in Eb. apply nil_length_inv. lia.
Qed.

Lemma happen_spec e : event_ok (length (rstreams st)) e -> happens e st log es.
Proof.
  destruct e as [i off d fin | i size | i z | | i]; cbn.
  - intros [? ?]. by apply happen_frame.
  - intros [? ?]. by apply happen_recv.
  - apply happen_reset.
  - intros _. apply happen_blocked.
  - apply happen_stream_blocked.
Qed.

End happen.

Lemma deliver_spec es st log before : cinv st log before -> Forall (event_ok (length (rstreams st))) es ->
  exists st' log' k, deliver es st = Some (st', log', k) /\ cinv st' (log ++ log') (before ++ take k es) /\
    length (rstreams st') = length (rstreams st) /\
    forall e, es !! k = Some e -> exists st2 r, happen e st' = Some (false, st2, r).
Proof.
  revert st log before. induction es as [|e es IH]; intros st log before Hc Hes; cbn [deliver].
  { exists st, [], O. cbn. by rewrite !app_nil_r. }
  apply Forall_cons in Hes as [He Hes].
  destruct (happen_spec st log before Hc e He) as (ok & st1 & r & E & Hok). rewrite E. cbn [mbind option_bind]. destruct ok.
  - destruct (Hok eq_refl) as [Hc1 Hl1]. rewrite <- Hl1 in Hes.
    destruct (IH _ _ _ Hc1 Hes) as (st' & log' & k & -> & Hc' & Hl' & Hk). cbn. exists st', (r ++ log'), (S k).
    rewrite firstn_cons. change (e :: take k es) with ([e] ++ take k es). rewrite !app_assoc.
    split_and!; [done | done | by rewrite Hl' | done].
  - exists st, [], O. cbn. rewrite !app_nil_r. split_and!; [done | done | done |]. intros e' [= <-]. by exists st1, r.
Qed.

Lemma sum_init g (ws : list Z) : (forall w, g (rstream_init w) = 0) -> sum_of g (map rstream_init ws) = 0.
Proof. intros H. induction ws as [|w ws IH]; cbn; [done |]. by rewrite H, IH. Qed.

Lemma sinv_init p g w : 0 < w -> sinv g p (rstream_init w) (Stream 0 (fun _ => None)) [] [].
Proof.
  intros Hw. pose proof (half_less w Hw). split; cbn; try done; try lia.
  - by split; cbn; [| | split; constructor |].
  - intros _ _. split; [done |]. by intros [? _].
  - intros off d k _ ?%not_elem_of_nil. done.
Qed.

Lemma cinv_init cl ws w : 0 < w -> Forall (fun x => 0 < x) ws -> cinv (rconn_init cl ws w) [] [].
Proof.
  intros Hw Hws. pose proof (half_less w Hw). split; cbn [rstreams rflow rconn_init].
  - rewrite map_map. replace (chains _) with (@nil buf) by (clear; induction ws; [done | exact IHws]).
    split; cbn; try lia; constructor.
  - split; cbn; lia.
  - split; [done |]. by apply Forall_map.
  - by rewrite sum_init.
  - by rewrite sum_init.
  - intros i s Hi. change (map rstream_init ws) with (rstream_init <$> ws) in Hi. apply list_lookup_fmap_Some in Hi as (x & -> & Hx).
    exists (Stream 0 (fun _ => None)). apply sinv_init. rewrite Forall_forall in Hws. apply Hws. by eapply list_elem_of_lookup_2.
  - by intros i s _ ?%not_elem_of_nil.
Qed.

Lemma deliver_init cl ws w es : 0 < w -> Forall (fun x => 0 < x) ws -> Forall (event_ok (length ws)) es ->
  exists st log k, deliver es (rconn_init cl ws w) = Some (st, log, k) /\ cinv st log (take k es) /\
    length (rstreams st) = length ws /\
    forall e, es !! k = Some e -> exists st2 r, happen e st = Some (false, st2, r).
Proof.
  intros Hw Hws Hes. destruct (deliver_spec es _ _ _ (cinv_init cl ws w Hw Hws)) as (st & log & k & ? & ? & Hl & ?).
  - cbn. by rewrite length_map.
  - exists st, log, k. split_and!; try done. rewrite Hl. cbn. by rewrite length_map.
Qed.



End connection.

(** ** Theorems *)

(** C18. Whatever frames of the streams [f] arrive, in any order, repeated or
    overlapping, mixed with reads and resets: what is read from a stream is its bytes
    from the first one on, in order and without a gap; the end of the stream is only
    reported when all of it was read; and a stream that was not reset and has no read
    event is one that has nothing to read: neither the next byte, in any of the frames
    that were handled, nor the end. *)
Theorem stream_recv_in_order f cl ws w es :
  0 < w -> Forall (fun x => 0 < x) ws -> Forall (event_ok f (length ws)) es ->
  exists st log k, deliver es (rconn_init cl ws w) = Some (st, log, k) /\
    forall i s, rstreams st !! i = Some s ->
      let n := length (got_of i log) in
      got_of i log = map (fun x => f i (Z.of_nat x)) (seq 0 n) /\
      ((i, Eof) ∈ log -> recv_final_size s = Some (Z.of_nat n)) /\
      (was_reset s = false -> ready s = false ->
        ~ (recv_state s = NGX_QUIC_STREAM_RECV_DATA_RECVD /\ recv_final_size s = Some (Z.of_nat n)) /\
        forall off d, (off, d) ∈ frames_of i (take k es) -> off <= Z.of_nat n < off + Z.of_nat (length d) ->
          exists z, recv_final_size s = Some z /\ z <= Z.of_nat n).
Proof.
  intros Hw Hws Hes. destruct (deliver_init f cl ws w es Hw Hws Hes) as (st & log & k & E & Hc & _ & _).
  exists st, log, k. split; [done |]. intros i s Hs n. destruct (ci_stream _ _ _ _ Hc i s Hs) as [b Hb].
  pose proof (si_base _ _ _ _ _ _ Hb) as Hbase. fold n in Hbase.
  split_and!; [apply (si_got _ _ _ _ _ _ Hb) | by apply (ci_eof _ _ _ _ Hc) |].
  intros Hr Hrd. destruct (si_wake _ _ _ _ _ _ Hb Hr Hrd) as [Hnone Hend]. split.
  - intros [Es Ef]. apply Hend. split; [done |]. rewrite <- (si_final _ _ _ _ _ _ Hb _ Ef) in Hbase. done.
  - intros off d Hin Hx. pose proof (si_seen _ _ _ _ _ _ Hb off d (Z.to_nat (Z.of_nat n - off)) Hr Hin) as Hseen.
    rewrite Z2Nat.id in Hseen by lia. replace (off + (Z.of_nat n - off)) with (sbase b) in Hseen by lia.
    destruct (recv_final_size s) as [z |]; [| exfalso; apply Hseen; [lia | lia | done | done]].
    exists z. split; [done |]. destruct (Z.le_gt_cases z (Z.of_nat n)); [done | exfalso].
    apply Hseen; [lia | lia | | done]. intros z' [= <-]. lia.
Qed.

(** C19. The flow control of a connection: no stream that was not reset takes data
    beyond its limit, and the limits are never more than a window ahead of what was
    read, so that no more than the window of a stream is ever buffered for it; the
    offsets of the connection are the sums of those of its streams and stay below its
    limit; and as long as more data may come, the peer may send at least half a
    window. *)
Theorem stream_flow_control f cl ws w es :
  0 < w -> Forall (fun x => 0 < x) ws -> Forall (event_ok f (length ws)) es ->
  exists st log k, deliver es (rconn_init cl ws w) = Some (st, log, k) /\
    (let c := rflow st in
     flow_last c = sum_of recv_last (rstreams st) /\ flow_offset c = sum_of recv_offset (rstreams st) /\
     flow_last c <= flow_max_data c <= flow_offset c + flow_window c /\
     flow_offset c + flow_window c / 2 < flow_max_data c) /\
    forall i s, rstreams st !! i = Some s -> was_reset s = false ->
      recv_last s <= recv_max_data s <= recv_offset s + recv_window s /\
      recv_offset s = Z.of_nat (length (got_of i log)) /\
      filled (map lbuf (qchain (recv s))) <= recv_window s /\
      (recv_state s = NGX_QUIC_STREAM_RECV_RECV -> recv_offset s + recv_window s / 2 < recv_max_data s).
Proof.
  intros Hw Hws Hes. destruct (deliver_init f cl ws w es Hw Hws Hes) as (st & log & k & E & Hc & _ & _).
  exists st, log, k. split; [done |]. split.
  { destruct (ci_flow _ _ _ _ Hc). destruct Hc. by split_and!. }
  intros i s Hs Hr. destruct (ci_stream _ _ _ _ Hc i s Hs) as [b Hb]. pose proof (ci_wf _ _ _ _ Hc) as Cw.
  assert (Hm : map recv (rstreams st) !! i = Some (recv s)) by (rewrite list_lookup_fmap, Hs; done).
  rewrite (chains_split i _ _ Hm) in Cw. apply wf_app_r in Cw as [Cw _].
  pose proof (si_max _ _ _ _ _ _ Hb Hr). pose proof (si_room _ _ _ _ _ _ Hb Hr). pose proof (si_offset _ _ _ _ _ _ Hb Hr) as Eo.
  split_and!; [done | done | | | apply (si_half _ _ _ _ _ _ Hb)].
  - rewrite Eo. symmetry. apply (si_base _ _ _ _ _ _ Hb).
  - destruct (si_rep _ _ _ _ _ _ Hb) as [R1 R2 _ _].
    enough (filled (map lbuf (qchain (recv s))) <= Z.max 0 (recv_last s - qoffset (recv s))) by
      (pose proof (si_last _ _ _ _ _ _ Hb); lia).
    apply (filled_bound (cell (fpool (rflow st)))).
    + eapply Forall_impl; [exact Cw |]. intros y ?. by eapply good_len.
    + intros x Hx Hn. rewrite R2 in Hn by lia. destruct (byte_at b x) as [v |] eqn:Ev; [| done].
      by apply (si_true _ _ _ _ _ _ Hb x v) in Ev as [_ ?]; [| lia].
Qed.


End operations.

(** ** Witnesses *)

(** Two streams; the first gets "cd", then "ab" and the end over it, with reads
    between them; the second gets more than its window. *)
Definition sample_contents (i : nat) (x : Z) : Z := 97 + x + 10 * Z.of_nat i.

Definition sample_events : list event :=
  [StreamFrame 0 2 [99; 100] false; StreamRecv 0 10; StreamFrame 0 0 [97; 98; 99] false; StreamRecv 0 3;
   StreamFrame 1 0 [107; 108] false; StreamFrame 0 4 [] true; StreamRecv 0 10; StreamRecv 0 10; DataBlocked;
   ResetStream 1 3; StreamRecv 1 5; StreamFrame 1 7 [114; 115] false; StreamDataBlocked 0].

Definition sample_deliver : option (rconn * list (nat * received) * nat) :=
  deliver (fun _ => true) sample_events (rconn_init (fun _ _ => 0) [6; 6] 20).

Lemma sample_ok : Forall (event_ok sample_contents 2) sample_events.
Proof.
  repeat constructor; try lia; intros i v Hv; repeat (destruct i as [|i]; [injection Hv as <-; reflexivity |]); done.
Qed.

Lemma stream_recv_in_order_witness :
  (exists st, sample_deliver = Some (st, [(0%nat, NotYet); (0%nat, Bytes [97; 98; 99]); (0%nat, Bytes [100]); (0%nat, Eof);
    (1%nat, Failed)], 13%nat)) /\
  exists st log k, sample_deliver = Some (st, log, k) /\
    forall i s, rstreams st !! i = Some s ->
      let n := length (got_of i log) in
      got_of i log = map (fun x => sample_contents i (Z.of_nat x)) (seq 0 n) /\
      ((i, Eof) ∈ log -> recv_final_size s = Some (Z.of_nat n)) /\
      (was_reset s = false -> ready s = false ->
        ~ (recv_state s = NGX_QUIC_STREAM_RECV_DATA_RECVD /\ recv_final_size s = Some (Z.of_nat n)) /\
        forall off d, (off, d) ∈ frames_of i (take k sample_events) -> off <= Z.of_nat n < off + Z.of_nat (length d) ->
          exists z, recv_final_size s = Some z /\ z <= Z.of_nat n).
Proof.
  split; [eexists; vm_compute; reflexivity |].
  apply (stream_recv_in_order (fun _ => true) sample_contents (fun _ _ => 0) [6; 6] 20 sample_events);
    [lia | repeat constructor | apply sample_ok].
Defined.

Lemma stream_flow_control_witness :
  exists st log k, sample_deliver = Some (st, log, k) /\
    (let c := rflow st in
     flow_last c = sum_of recv_last (rstreams st) /\ flow_offset c = sum_of recv_offset (rstreams st) /\
     flow_last c <= flow_max_data c <= flow_offset c + flow_window c /\
     flow_offset c + flow_window c / 2 < flow_max_data c) /\
    forall i s, rstreams st !! i = Some s -> was_reset s = false ->
      recv_last s <= recv_max_data s <= recv_offset s + recv_window s /\
      recv_offset s = Z.of_nat (length (got_of i log)) /\
      filled (map lbuf (qchain (recv s))) <= recv_window s /\
      (recv_state s = NGX_QUIC_STREAM_RECV_RECV -> recv_offset s + recv_window s / 2 < recv_max_data s).
Proof.
  apply (stream_flow_control (fun _ => true) sample_contents (fun _ _ => 0) [6; 6] 20 sample_events);
    [lia | repeat constructor | apply sample_ok].
Defined.


(** A reset is not held to the limit of its stream: the state of the stream changes
    before the check, which is made in the state RECV only. *)
Example reset_beyond_limit :
  let st := rconn_init (fun _ _ => 0) [6; 6] 20 in
  match happen (fun _ => true) (ResetStream 1 15) st, happen (fun _ => true) (StreamFrame 1 15 [] true) st with
  | Some (true, st', _), Some (false, st2, _) =>
      map recv_last (rstreams st') = [0; 15] /\ error (rflow st2) = Some NGX_QUIC_ERR_FLOW_CONTROL_ERROR
  | _, _ => False
  end.
Proof. by vm_compute. Qed.

End QuicStream.
