(* ===== verification/QuicCrypto.v ===== *)
(** * QuicCrypto: the handshake data of QUIC (src/event/quic/ngx_event_quic_ssl.c)

    The CRYPTO frames of an encryption level: frames in any order, put together in a
    buffer of [QuicBuffer] and given to the TLS library.  The library is a parameter:
    whether it goes on with the data that it got.  The keys of the level are there,
    and frames that were sent are not part of the model. *)

From S2P Require Import Prelude QuicBuffer QuicStream.
From stdpp Require Import base option list sets.

#[local] Open Scope Z_scope.

Module QuicCrypto.

Import QuicBuffer.

(** ** Definitions *)

Definition NGX_QUIC_MAX_BUFFERED : Z := 65535.
Definition NGX_QUIC_ERR_CRYPTO_BUFFER_EXCEEDED : Z := 0x0D.

(** The buffer of the level ([ctx->crypto]), the memory, what was given to the
    library, and [qc->error]. *)
Record crypto : Type := Crypto { cbuf : qbuf; cpool : pool; tls : list Z; cerror : option Z }.

Definition set_cpool x (c : crypto) : crypto := Crypto (cbuf c) x (tls c) (cerror c).
Definition set_cbuf x (c : crypto) : crypto := Crypto x (cpool c) (tls c) (cerror c).
Definition set_tls x (c : crypto) : crypto := Crypto (cbuf c) (cpool c) x (cerror c).
Definition set_cerror x (c : crypto) : crypto := Crypto (cbuf c) (cpool c) (tls c) x.

Section operations.

Context (grant : nat -> bool) (goes_on : list Z -> bool).

(** [ngx_quic_crypto_input]: the data are given to the library. *)
Definition ngx_quic_crypto_input (d : list Z) (c : crypto) : bool * crypto :=
  (goes_on (tls c ++ d), set_tls (tls c ++ d) c).

(** The bytes that are in order by now are read and given to the library; the result
    of the read is not compared with [NGX_CHAIN_ERROR]. *)
Definition read_crypto (c : crypto) : option (bool * crypto) :=
  let '(r, qb, p) := ngx_quic_read_buffer grant (cpool c) (cbuf c) (2 ^ 64 - 1) in
  let c := set_cpool p (set_cbuf qb c) in
  match r with
  | None => None
  | Some [] => Some (true, c)
  | Some chain =>
      let '(ok, c) := ngx_quic_crypto_input (chain_bytes (cell p) (map lbuf chain)) c in
      if negb ok then Some (false, c) else Some (true, set_cpool (ngx_quic_free_chain p chain) c)
  end.

(** The outer [None] is an access to memory that is not there. *)
Definition ngx_quic_handle_crypto_frame (off : Z) (d : list Z) (c : crypto) : option (bool * crypto) :=
  let last := off + Z.of_nat (length d) in
  if qoffset (cbuf c) + NGX_QUIC_MAX_BUFFERED <? last then
    Some (false, set_cerror (Some NGX_QUIC_ERR_CRYPTO_BUFFER_EXCEEDED) c)
  else if last <=? qoffset (cbuf c) then Some (true, c)
  else if off =? qoffset (cbuf c) then
    let '(ok, c) := ngx_quic_crypto_input d c in
    if negb ok then Some (false, c)
    else
      let '(qb, p) := ngx_quic_skip_buffer (cpool c) (cbuf c) last in
      read_crypto (set_cpool p (set_cbuf qb c))
  else
    '(r, qb, p) ← ngx_quic_write_buffer grant (cpool c) (cbuf c) [Input true d] (Z.of_nat (length d)) off;
    let c := set_cpool p (set_cbuf qb c) in
    match r with
    | None => Some (false, c)
    | Some _ => read_crypto c
    end.

(** The frames up to the first that is refused: the state, and how many went well. *)
Fixpoint crypto_frames (fs : list (Z * list Z)) (c : crypto) : option (crypto * nat) :=
  match fs with
  | [] => Some (c, O)
  | (off, d) :: fs =>
      '(ok, c') ← ngx_quic_handle_crypto_frame off d c;
      if (ok : bool) then '(c2, k) ← crypto_frames fs c'; Some (c2, S k) else Some (c', O)
  end.

Definition crypto_init (cl : nat -> Z -> Z) : crypto := Crypto qbuf_zero (pool_init cl) [] None.

(** ** Invariant *)

(** What was given is the beginning of the contents [f], and the buffer [b] has what
    is known of the rest. *)
Record kinv (f : Z -> Z) (c : crypto) (b : stream) (seen : list (Z * list Z)) : Prop := {
  ki_rep : represents (cpool c) (cbuf c) b;
  ki_wf : wf (cpool c) (map lbuf (qchain (cbuf c)) ++ []);
  ki_tls : tls c = map (fun x => f (Z.of_nat x)) (seq 0 (length (tls c)));
  ki_base : Z.of_nat (length (tls c)) = sbase b;
  ki_true x v : sbase b <= x -> byte_at b x = Some v -> v = f x /\ x < sbase b + NGX_QUIC_MAX_BUFFERED;
  ki_seen off d (k : nat) : (off, d) ∈ seen -> (k < length d)%nat -> sbase b <= off + Z.of_nat k ->
    byte_at b (off + Z.of_nat k) <> None }.

(** Why a frame is refused. *)
Definition crypto_refused (off : Z) (d : list Z) (c : crypto) : Prop :=
  (cerror c = Some NGX_QUIC_ERR_CRYPTO_BUFFER_EXCEEDED /\
   Z.of_nat (length (tls c)) + NGX_QUIC_MAX_BUFFERED < off + Z.of_nat (length d)) \/
  goes_on (tls c) = false \/ refused grant.

Definition prefix_of (f : Z -> Z) (d : list Z) : Prop := d = map (fun x => f (Z.of_nat x)) (seq 0 (length d)).

(** ** Lemmas *)

Lemma prefix_more f d e : prefix_of f d -> QuicStream.piece_of f (Z.of_nat (length d)) e -> prefix_of f (d ++ e).
Proof.
  unfold prefix_of. intros Hd He. rewrite length_app, seq_app, map_app, <- Hd. f_equal. apply list_eq. intros i.
  destruct (decide (i < length e)%nat) as [Hlt | Hge].
  - destruct (lookup_lt_is_Some_2 e i Hlt) as [v Hv]. rewrite Hv. symmetry.
    rewrite list_lookup_fmap, lookup_seq_lt by done. cbn. rewrite (He i v Hv). do 2 f_equal. lia.
  - rewrite !lookup_ge_None_2; [done | rewrite length_map, length_seq; lia | lia].
Qed.

(** A read with a limit above what there is splits no piece. *)
Lemma read_loop_all p l lim base : Forall (fun x => 0 < blen (lbuf x)) l -> filled (map lbuf l) <= lim ->
  exists out rest base' p', read_loop grant p l lim base = (Some (out, rest), base', p').
Proof.
  intros F. revert lim base. induction F as [|x l Hx F IH]; intros lim base Hle; cbn [read_loop]; [by eauto |].
  cbn [map filled] in Hle. destruct (sync (lbuf x)); [by eauto |]. destruct (Z.eqb_spec lim 0); [by eauto |].
  assert (Hpos : 0 <= filled (map lbuf l)).
  { clear -F. induction F as [|y l Hy F IH]; cbn; [lia |]. case_match; lia. }
  destruct (Z.ltb_spec lim (blen (lbuf x))); [lia |].
  destruct (IH (lim - blen (lbuf x)) (base + blen (lbuf x))) as (o & r & b' & p' & ->); [lia |]. by eauto.
Qed.

Lemma kinv_filled f c b seen : kinv f c b seen ->
  Forall (fun x => 0 < blen x) (map lbuf (qchain (cbuf c))) /\ filled (map lbuf (qchain (cbuf c))) <= NGX_QUIC_MAX_BUFFERED.
Proof.
  intros [[R1 R2 _ _] Hw _ _ Ht _]. apply wf_app_r in Hw as [Hw _].
  assert (F : Forall (fun x => 0 < blen x) (map lbuf (qchain (cbuf c)))).
  { eapply Forall_impl; [exact Hw |]. intros y ?. by eapply good_len. }
  split; [done |].
  pose proof (QuicStream.filled_bound (cell (cpool c)) (qoffset (cbuf c)) _ (sbase b + NGX_QUIC_MAX_BUFFERED) F) as H.
  rewrite R1 in H. rewrite R1 in R2. enough (filled (map lbuf (qchain (cbuf c))) <= Z.max 0 NGX_QUIC_MAX_BUFFERED) by (unfold NGX_QUIC_MAX_BUFFERED in *; lia).
  replace (sbase b + NGX_QUIC_MAX_BUFFERED - sbase b) with NGX_QUIC_MAX_BUFFERED in H by lia. apply H.
  intros x Hx Hn. rewrite R2 in Hn by done. destruct (byte_at b x) eqn:E; [| done]. by apply (Ht x z).
Qed.

Lemma read_crypto_ok f c b seen : kinv f c b seen ->
  exists ok c' b', read_crypto c = Some (ok, c') /\ prefix_of f (tls c') /\
    if ok then kinv f c' b' seen /\ byte_at b' (sbase b') = None else goes_on (tls c') = false.
Proof.
  intros Hi. pose proof (kinv_filled _ _ _ _ Hi) as [F Hf]. pose proof Hi as [Hr Hw Ht Hb Hk Hs]. unfold read_crypto.
  destruct (ngx_quic_read_buffer grant (cpool c) (cbuf c) (2 ^ 64 - 1)) as [[r qb] p] eqn:E.
  assert (Hlim : 0 <= 2 ^ 64 - 1) by lia.
  pose proof (read_buffer_spec grant _ _ _ _ _ _ _ _ Hw Hr Hlim E) as [Hq E1].
  assert (exists chain, r = Some chain) as [chain ->].
  { unfold ngx_quic_read_buffer in E. rewrite Forall_map in F.
    destruct (read_loop_all (cpool c) (qchain (cbuf c)) (2 ^ 64 - 1) (qoffset (cbuf c)) F) as (o & rs & b' & p' & El);
      [unfold NGX_QUIC_MAX_BUFFERED in *; lia |].
    rewrite El in E. injection E as <- _ _. by exists o. }
  cbn zeta in E1. destruct E1 as (Hw1 & Hrun & Hrep & _). set (d := chain_bytes (cell p) (map lbuf chain)) in *.
  destruct (free_chain_spec grant p chain _ Hw1) as [Hw2 Hq2].
  assert (Hend : byte_at b (sbase b + Z.of_nat (length d)) = None).
  { destruct Hrun as (Hbytes & _ & [Hlen |]); [| done]. exfalso.
    destruct (lookup_lt_is_Some_2 d (length d - 1)%nat) as [v Hv]; [lia |]. specialize (Hbytes (length d - 1)%nat).
    rewrite Hv in Hbytes. apply Hk in Hbytes as [_ ?]; unfold NGX_QUIC_MAX_BUFFERED in *; lia. }
  assert (Hpiece : QuicStream.piece_of f (Z.of_nat (length (tls c))) d).
  { intros i v Hv. destruct Hrun as (Hbytes & _ & _). pose proof (lookup_lt_Some _ _ _ Hv) as Hlt. specialize (Hbytes i Hlt).
    rewrite Hv in Hbytes. apply Hk in Hbytes as [-> _]; [| lia]. by rewrite Hb. }
  set (b' := Stream (sbase b + Z.of_nat (length d)) (byte_at b)) in *.
  assert (Hdone : forall p', represents p' qb b' -> wf p' (map lbuf (qchain qb) ++ []) -> prefix_of f (tls c ++ d) ->
    kinv f (Crypto qb p' (tls c ++ d) (cerror c)) b' seen).
  { intros p' ? ? ?. split; cbn; try done; [rewrite length_app; lia | |].
    - intros x v Hx Hv. apply Hk in Hv as [? ?]; [split; [done | lia] | lia].
    - intros off e k Hin Hlt Hx. apply (Hs off e k Hin Hlt). lia. }
  destruct chain as [|x chain].
  - exists true, (Crypto qb p (tls c) (cerror c)), b'. split_and!; [done | done | | done].
    replace (Crypto qb p (tls c) (cerror c)) with (Crypto qb p (tls c ++ d) (cerror c)) by (cbn; by rewrite app_nil_r).
    apply Hdone; [done | exact Hw1 | by apply prefix_more].
  - unfold ngx_quic_crypto_input. cbn [negb tls set_cpool set_cbuf]. fold d. pose proof (prefix_more _ _ _ Ht Hpiece) as Hp.
    destruct (goes_on (tls c ++ d)) eqn:Eg; cbn [negb].
    + exists true, (Crypto qb (ngx_quic_free_chain p (x :: chain)) (tls c ++ d) (cerror c)), b'. split_and!; [done | done | | done].
      apply Hdone; [| done | done]. destruct Hq2 as (Ec & _ & Hl). eapply represents_stable; [exact Hl | by apply stable_cell | done].
    + by exists false, (Crypto qb p (tls c ++ d) (cerror c)), b'.
Qed.

(** A frame that is next in order goes to the library at once. *)
Lemma frame_next f c b seen d last qb p : kinv f c b seen -> QuicStream.piece_of f (sbase b) d -> (0 < length d)%nat ->
  last = sbase b + Z.of_nat (length d) -> ngx_quic_skip_buffer (cpool c) (cbuf c) last = (qb, p) ->
  kinv f (Crypto qb p (tls c ++ d) (cerror c)) (Stream last (byte_at b)) ((sbase b, d) :: seen).
Proof.
  intros [Hr Hw Ht Hb Hk Hs] Hd Hpos -> E. apply (skip_buffer_spec grant _ _ _ _ _ _ _ Hw Hr) in E as (_ & Hw' & Hr'); [| lia].
  rewrite <- Hb in Hd. split; cbn; try done.
  - by apply prefix_more.
  - rewrite length_app. lia.
  - intros x v Hx Hv. apply Hk in Hv as [? ?]; [split; [done | lia] | lia].
  - intros off e k [[= -> ->] | Hin]%elem_of_cons Hlt Hx; [lia |]. apply (Hs off e k Hin Hlt). lia.
Qed.

(** Another frame is put into the buffer. *)
Lemma frame_later f c b seen off d qb p : kinv f c b seen -> QuicStream.piece_of f off d ->
  off + Z.of_nat (length d) <= sbase b + NGX_QUIC_MAX_BUFFERED ->
  represents p qb (stream_write d off b) -> wf p (map lbuf (qchain qb) ++ []) ->
  kinv f (Crypto qb p (tls c) (cerror c)) (stream_write d off b) ((off, d) :: seen).
Proof.
  intros [Hr Hw Ht Hb Hk Hs] Hd Hlast Hr' Hw'. split; cbn; try done.
  - intros x v Hx Hv. destruct (byte_at b x) as [v' |] eqn:Eb; cbn in Hv.
    + injection Hv as <-. by apply Hk.
    + apply QuicStream.lay_some in Hv as (k & -> & Hv & Hlt). split; [by apply Hd | lia].
  - intros off' d' k Hin Hlt Hx. destruct (byte_at b (off' + Z.of_nat k)) eqn:Eb; [done |]. cbn.
    apply elem_of_cons in Hin as [[= -> ->] | Hin].
    + rewrite QuicStream.lay_at. by apply lookup_lt_is_Some_2 in Hlt as [? ->].
    + exfalso. by apply (Hs off' d' k Hin Hlt Hx).
Qed.

Lemma kinv_late f c b seen off d : kinv f c b seen -> off + Z.of_nat (length d) <= sbase b -> kinv f c b ((off, d) :: seen).
Proof.
  intros [Hr Hw Ht Hb Hk Hs] Hlast. split; try done. intros off' e k [[= -> ->] | Hin]%elem_of_cons Hlt Hx; [lia |].
  by apply (Hs off' e k Hin Hlt Hx).
Qed.

Lemma crypto_frame_ok f c b seen off d : kinv f c b seen -> byte_at b (sbase b) = None -> QuicStream.piece_of f off d ->
  exists ok c', ngx_quic_handle_crypto_frame off d c = Some (ok, c') /\ prefix_of f (tls c') /\
    if ok then exists b', kinv f c' b' ((off, d) :: seen) /\ byte_at b' (sbase b') = None
    else crypto_refused off d c'.
Proof.
  intros Hi Hnone Hd. pose proof Hi as [Hr Hw Ht Hb Hk Hs]. unfold ngx_quic_handle_crypto_frame, crypto_refused.
  set (last := off + Z.of_nat (length d)). rewrite (rp_base _ _ _ Hr).
  destruct (Z.ltb_spec (sbase b + NGX_QUIC_MAX_BUFFERED) last).
  { eexists _, _. split_and!; [done | done |]. left. split; [done |]. cbn. lia. }
  destruct (Z.leb_spec last (sbase b)).
  { eexists _, _. split_and!; [done | done |]. exists b. split; [by apply kinv_late | done]. }
  destruct (Z.eqb_spec off (sbase b)) as [Eo |].
  - rewrite Eo in *. unfold ngx_quic_crypto_input.
    assert (Hp : prefix_of f (tls c ++ d)) by (apply prefix_more; [done | by rewrite Hb]).
    destruct (goes_on (tls c ++ d)) eqn:Eg; cbn [negb cpool cbuf set_tls].
    2:{ eexists _, _. split_and!; [done | done |]. right. by left. }
    destruct (ngx_quic_skip_buffer (cpool c) (cbuf c) last) as [qb p] eqn:E.
    assert (Hlen : (0 < length d)%nat) by lia.
    assert (El : last = sbase b + Z.of_nat (length d)) by lia.
    pose proof (frame_next _ _ _ _ _ _ _ _ Hi Hd Hlen El E) as Hi'.
    destruct (read_crypto_ok _ _ _ _ Hi') as (ok & c' & b' & Er & Hp' & Hok). exists ok, c'. split_and!; [exact Er | done |].
    destruct ok; [by exists b' |]. right. by left.
  - destruct (write_buffer_spec grant (cpool c) (cbuf c) b [] [Input true d] (Z.of_nat (length d)) off Hw Hr)
      as (r & qb & p & -> & Hw' & _ & _ & Hr'); [by constructor | lia |]. cbn [mbind option_bind].
    destruct r as [rest |].
    2:{ eexists _, _. split_and!; [done | done |]. by right; right. }
    destruct Hr' as [Hr' _]. rewrite Nat2Z.id in Hr'. change (input_bytes _) with (d ++ []) in Hr'.
    rewrite app_nil_r, take_ge in Hr' by lia. pose proof (frame_later _ _ _ _ _ _ _ _ Hi Hd ltac:(lia) Hr' Hw') as Hi'.
    destruct (read_crypto_ok _ _ _ _ Hi') as (ok & c' & b' & Er & Hp' & Hok). exists ok, c'. split_and!; [exact Er | done |].
    destruct ok; [by exists b' |]. right. by left.
Qed.

Lemma crypto_frames_ok f fs c b seen : kinv f c b seen -> byte_at b (sbase b) = None ->
  Forall (fun x => QuicStream.piece_of f x.1 x.2) fs ->
  exists c' k, crypto_frames fs c = Some (c', k) /\ prefix_of f (tls c') /\
    match fs !! k with
    | None => k = length fs /\ exists b', kinv f c' b' (rev (take k fs) ++ seen) /\ byte_at b' (sbase b') = None
    | Some (off, d) => crypto_refused off d c'
    end.
Proof.
  revert c b seen. induction fs as [|[off d] fs IH]; intros c b seen Hi Hnone Hfs; cbn [crypto_frames].
  { exists c, O. split_and!; [done | apply Hi |]. by split; [| exists b]. }
  apply Forall_cons in Hfs as [Hd Hfs]. cbn in Hd. destruct (crypto_frame_ok _ _ _ _ _ _ Hi Hnone Hd) as (ok & c1 & -> & Hp & Hok).
  cbn [mbind option_bind]. destruct ok; [| by exists c1, O]. destruct Hok as (b1 & Hi1 & Hn1).
  destruct (IH _ _ _ Hi1 Hn1 Hfs) as (c' & k & -> & Hp' & Hk). exists c', (S k). cbn [lookup list_lookup take rev mbind option_bind length].
  split_and!; [done | done |]. change (list_lookup k fs) with (fs !! k). destruct (fs !! k) as [[]|]; [done |]. destruct Hk as (-> & b' & Hb' & Hn').
  split; [done |]. exists b'. split; [| done]. by rewrite <- app_assoc.
Qed.

(** ** Theorems *)

(** C32. The TLS library gets the handshake data in order: whatever frames arrive, in
    any order, repeated or overlapping, what it was given is the beginning of the
    data.  When all the frames were taken it is all that can be given: no frame has
    the next byte; and at most 65535 bytes wait in the buffer.  A frame is only refused when
    it ends more than that beyond what was given (CRYPTO_BUFFER_EXCEEDED), when the
    library does not go on, or when there is no memory. *)
Theorem crypto_data_in_order f cl fs : Forall (fun x => QuicStream.piece_of f x.1 x.2) fs ->
  exists c k, crypto_frames fs (crypto_init cl) = Some (c, k) /\
    let n := length (tls c) in
    tls c = map (fun x => f (Z.of_nat x)) (seq 0 n) /\
    match fs !! k with
    | None => k = length fs /\ filled (map lbuf (qchain (cbuf c))) <= NGX_QUIC_MAX_BUFFERED /\
        forall off d, (off, d) ∈ fs -> ~ (off <= Z.of_nat n < off + Z.of_nat (length d))
    | Some (off, d) => crypto_refused off d c
    end.
Proof.
  intros Hfs. set (b := Stream 0 (fun _ => None)).
  assert (Hi : kinv f (crypto_init cl) b []).
  { split; cbn; try done.
    - split; cbn; [done | done | by split; constructor | done].
    - split; cbn; try lia; constructor.
    - intros off d k ?%not_elem_of_nil. done. }
  destruct (crypto_frames_ok _ _ _ _ _ Hi eq_refl Hfs) as (c & k & -> & Hp & Hk). exists c, k. split; [done |].
  split; [exact Hp |]. destruct (fs !! k) as [[off d] |]; [done |]. destruct Hk as (-> & b' & Hb' & Hn).
  split; [done |]. split; [eapply kinv_filled; exact Hb' |]. intros off d Hin Hx.
  pose proof (ki_base _ _ _ _ Hb') as Eb. apply (ki_seen _ _ _ _ Hb' off d (Z.to_nat (Z.of_nat (length (tls c)) - off))).
  - rewrite app_nil_r, firstn_all. rewrite rev_alt. by apply elem_of_reverse_2.
  - lia.
  - lia.
  - rewrite Z2Nat.id by lia. by replace (off + (Z.of_nat (length (tls c)) - off)) with (sbase b') by lia.
Qed.

End operations.

(** ** Witness *)

(** "fgh", then "abcd" with the first of them once more, then "de": the rest. *)
Definition sample_hello (x : Z) : Z := 97 + x.

Definition sample_crypto : list (Z * list Z) :=
  [(5, [102; 103; 104]); (0, [97; 98; 99; 100]); (0, [97]); (3, [100; 101])].

Lemma crypto_data_in_order_witness :
  (exists c, crypto_frames (fun _ => true) (fun _ => true) sample_crypto (crypto_init (fun _ _ => 0)) = Some (c, 4%nat) /\
    tls c = [97; 98; 99; 100; 101; 102; 103; 104]) /\
  exists c k, crypto_frames (fun _ => true) (fun _ => true) sample_crypto (crypto_init (fun _ _ => 0)) = Some (c, k) /\
    let n := length (tls c) in
    tls c = map (fun x => sample_hello (Z.of_nat x)) (seq 0 n) /\
    match sample_crypto !! k with
    | None => k = length sample_crypto /\ filled (map lbuf (qchain (cbuf c))) <= NGX_QUIC_MAX_BUFFERED /\
        forall off d, (off, d) ∈ sample_crypto -> ~ (off <= Z.of_nat n < off + Z.of_nat (length d))
    | Some (off, d) => crypto_refused (fun _ => true) (fun _ => true) off d c
    end.
Proof.
  split; [eexists; split; vm_compute; reflexivity |].
  apply (crypto_data_in_order (fun _ => true) (fun _ => true) sample_hello).
  repeat constructor; intros i v Hv; repeat (destruct i as [|i]; [injection Hv as <-; reflexivity |]); done.
Defined.

End QuicCrypto.
