(* ===== verification/QuicFrame.v ===== *)
(** * QuicFrame: the frames of QUIC (src/event/quic/ngx_event_quic_transport.c)

    Integers of variable length, the frames that are read from packets and those that
    are written to them.  A pointer into a packet is the list of the bytes from it to
    the end of the packet; the bytes of a chain are one list. *)

From S2P Require Import Prelude.
From stdpp Require Import base option list.

#[local] Open Scope Z_scope.

Module QuicFrame.

(** ** Definitions: bytes *)

(** The value of the bytes [l] after the digits [v]. *)
Definition digits (v : Z) (l : list Z) : Z := fold_left (fun v b => u64 (u64 (Z.shiftl v 8) + b)) l v.

Definition ngx_quic_parse_int (pos : list Z) : option (Z * list Z) :=
  match pos with
  | [] => None
  | b :: p =>
      let len := Z.shiftl 1 (Z.shiftr b 6) in
      if Z.of_nat (length p) <? len - 1 then None
      else
        let n := Z.to_nat (len - 1) in
        Some (digits (Z.land b 0x3f) (take n p), drop n p)
  end.

Definition ngx_quic_read_uint8 (pos : list Z) : option (Z * list Z) :=
  match pos with [] => None | b :: p => Some (b, p) end.

(** [ngx_quic_read_bytes] and [ngx_quic_copy_bytes] *)
Definition ngx_quic_read_bytes (len : Z) (pos : list Z) : option (list Z * list Z) :=
  if Z.of_nat (length pos) <? len then None
  else Some (take (Z.to_nat len) pos, drop (Z.to_nat len) pos).

Definition ngx_quic_varint_len (value : Z) : Z :=
  if value <? Z.shiftl 1 6 then 1
  else if value <? Z.shiftl 1 14 then 2
  else if value <? Z.shiftl 1 30 then 4
  else 8.

Definition ngx_quic_build_int_set (value len bits : Z) : Z :=
  Z.lor (Z.land (Z.shiftr value (len * 8)) 0xff) (Z.shiftl bits 6).

(** The bytes that are written. *)
Definition ngx_quic_build_int (value : Z) : list Z :=
  let set := ngx_quic_build_int_set value in
  if value <? Z.shiftl 1 6 then [set 0 0]
  else if value <? Z.shiftl 1 14 then [set 1 1; set 0 0]
  else if value <? Z.shiftl 1 30 then [set 3 2; set 2 0; set 1 0; set 0 0]
  else [set 7 3; set 6 0; set 5 0; set 4 0; set 3 0; set 2 0; set 1 0; set 0 0].

(** ** Definitions: frames *)

Definition NGX_QUIC_FT_PADDING : Z := 0x00.
Definition NGX_QUIC_FT_PING : Z := 0x01.
Definition NGX_QUIC_FT_ACK : Z := 0x02.
Definition NGX_QUIC_FT_ACK_ECN : Z := 0x03.
Definition NGX_QUIC_FT_RESET_STREAM : Z := 0x04.
Definition NGX_QUIC_FT_STOP_SENDING : Z := 0x05.
Definition NGX_QUIC_FT_CRYPTO : Z := 0x06.
Definition NGX_QUIC_FT_NEW_TOKEN : Z := 0x07.
Definition NGX_QUIC_FT_STREAM : Z := 0x08.
Definition NGX_QUIC_FT_STREAM7 : Z := 0x0F.
Definition NGX_QUIC_FT_MAX_DATA : Z := 0x10.
Definition NGX_QUIC_FT_MAX_STREAM_DATA : Z := 0x11.
Definition NGX_QUIC_FT_MAX_STREAMS : Z := 0x12.
Definition NGX_QUIC_FT_MAX_STREAMS2 : Z := 0x13.
Definition NGX_QUIC_FT_DATA_BLOCKED : Z := 0x14.
Definition NGX_QUIC_FT_STREAM_DATA_BLOCKED : Z := 0x15.
Definition NGX_QUIC_FT_STREAMS_BLOCKED : Z := 0x16.
Definition NGX_QUIC_FT_STREAMS_BLOCKED2 : Z := 0x17.
Definition NGX_QUIC_FT_NEW_CONNECTION_ID : Z := 0x18.
Definition NGX_QUIC_FT_RETIRE_CONNECTION_ID : Z := 0x19.
Definition NGX_QUIC_FT_PATH_CHALLENGE : Z := 0x1A.
Definition NGX_QUIC_FT_PATH_RESPONSE : Z := 0x1B.
Definition NGX_QUIC_FT_CONNECTION_CLOSE : Z := 0x1C.
Definition NGX_QUIC_FT_CONNECTION_CLOSE_APP : Z := 0x1D.
Definition NGX_QUIC_FT_HANDSHAKE_DONE : Z := 0x1E.
Definition NGX_QUIC_FT_LAST : Z := NGX_QUIC_FT_HANDSHAKE_DONE.

Definition NGX_QUIC_STREAM_FRAME_FIN : Z := 0x01.
Definition NGX_QUIC_STREAM_FRAME_LEN : Z := 0x02.
Definition NGX_QUIC_STREAM_FRAME_OFF : Z := 0x04.
Definition NGX_QUIC_CID_LEN_MAX : Z := 20.
Definition NGX_QUIC_SR_TOKEN_LEN : Z := 16.
Definition NGX_QUIC_ERR_FRAME_ENCODING_ERROR : Z := 0x07.
Definition NGX_QUIC_ERR_PROTOCOL_VIOLATION : Z := 0x0A.

(** [ngx_quic_frame_t]: the type, the member of the union and the bytes of the chain
    [data].  The last field of [ACK] is that of ACK_ECN: the counts [ect0], [ect1]
    and [ce]. *)
Inductive frame : Set :=
  | PADDING
  | PING
  | ACK (largest delay range_count first_range ranges_length : Z) (data : list Z) (ecn : option (Z * Z * Z))
  | RESET_STREAM (id error_code final_size : Z)
  | STOP_SENDING (id error_code : Z)
  | CRYPTO (offset length : Z) (data : list Z)
  | NEW_TOKEN (length : Z) (data : list Z)
  | STREAM (offset length stream_id : Z) (off len fin : bool) (data : list Z)
  | MAX_DATA (max_data : Z)
  | MAX_STREAM_DATA (id limit : Z)
  | MAX_STREAMS (limit : Z) (bidi : bool)
  | DATA_BLOCKED (limit : Z)
  | STREAM_DATA_BLOCKED (id limit : Z)
  | STREAMS_BLOCKED (limit : Z) (bidi : bool)
  | NEW_CONNECTION_ID (seqnum retire len : Z) (cid srt : list Z)
  | RETIRE_CONNECTION_ID (sequence_number : Z)
  | PATH_CHALLENGE (data : list Z)
  | PATH_RESPONSE (data : list Z)
  | CONNECTION_CLOSE (error_code frame_type : Z) (reason : list Z)
  | CONNECTION_CLOSE_APP (error_code : Z) (reason : list Z)
  | HANDSHAKE_DONE.

(** ** Definitions: reading *)

Definition NGX_QUIC_PKT_LONG : Z := 0x80.
Definition NGX_QUIC_PKT_TYPE : Z := 0x30.
Definition NGX_QUIC_PKT_INITIAL : Z := 0x00.
Definition NGX_QUIC_PKT_HANDSHAKE : Z := 0x20.

Definition ngx_quic_long_pkt (flags : Z) : bool := negb (Z.land flags NGX_QUIC_PKT_LONG =? 0).
Definition ngx_quic_pkt_in (flags : Z) : bool := Z.land flags NGX_QUIC_PKT_TYPE =? NGX_QUIC_PKT_INITIAL.
Definition ngx_quic_pkt_hs (flags : Z) : bool := Z.land flags NGX_QUIC_PKT_TYPE =? NGX_QUIC_PKT_HANDSHAKE.

Definition ngx_quic_frame_masks : list Z :=
  [0xF; 0xF; 0xD; 0xD; 0x3; 0x3; 0xD; 0x0; 0x3; 0x3; 0x3; 0x3; 0x3; 0x3; 0x3; 0x3; 0x3; 0x3; 0x3; 0x3; 0x3; 0x3; 0x3;
   0x3; 0x3; 0x3; 0x3; 0x1; 0xF; 0x3; 0x0].

Definition ngx_quic_frame_allowed (flags frame_type : Z) : bool :=
  let ptype :=
    if ngx_quic_long_pkt flags then
      if ngx_quic_pkt_in flags then 8 else if ngx_quic_pkt_hs flags then 4 else 2
    else 1 in
  negb (Z.land ptype (nth (Z.to_nat frame_type) ngx_quic_frame_masks 0) =? 0).

(** The rest of [l] after the zeros it starts with. *)
Fixpoint skip_padding (l : list Z) : list Z :=
  match l with b :: t => if b =? NGX_QUIC_FT_PADDING then skip_padding t else l | [] => [] end.

(** The rest of [l] after [n] ranges; the outer [None] is the end of the fuel. *)
Fixpoint skip_ranges (fuel : nat) (n : Z) (l : list Z) : option (option (list Z)) :=
  if n <=? 0 then Some (Some l)
  else
    match fuel with
    | O => None
    | S fuel =>
        match ('(_, l) ← ngx_quic_parse_int l; ngx_quic_parse_int l) with
        | None => Some None
        | Some (_, l) => skip_ranges fuel (n - 1) l
        end
    end.

Definition parse_crypto (p : list Z) : option (frame * list Z) :=
  '(offset, p) ← ngx_quic_parse_int p;
  '(length, p) ← ngx_quic_parse_int p;
  '(data, p) ← ngx_quic_read_bytes length p;
  Some (CRYPTO offset length data, p).

Definition parse_ecn (p : list Z) : option (Z * Z * Z * list Z) :=
  '(ect0, p) ← ngx_quic_parse_int p;
  '(ect1, p) ← ngx_quic_parse_int p;
  '(ce, p) ← ngx_quic_parse_int p;
  Some (ect0, ect1, ce, p).

Definition parse_ack_head (p : list Z) : option (Z * Z * Z * Z * list Z) :=
  '(largest, p) ← ngx_quic_parse_int p;
  '(delay, p) ← ngx_quic_parse_int p;
  '(range_count, p) ← ngx_quic_parse_int p;
  '(first_range, p) ← ngx_quic_parse_int p;
  Some (largest, delay, range_count, first_range, p).

(** The outer [None] is the end of the fuel, one turn for a byte and one more. *)
Definition parse_ack (ecn : bool) (p : list Z) : option (option (frame * list Z)) :=
  match parse_ack_head p with
  | None => Some None
  | Some (largest, delay, range_count, first_range, p) =>
      r ← skip_ranges (S (length p)) range_count p;
      match r with
      | None => Some None
      | Some q =>
          let n := (length p - length q)%nat in
          let f := ACK largest delay range_count first_range (Z.of_nat n) (take n p) in
          Some (if ecn then '(e, q) ← parse_ecn q; Some (f (Some e), q) else Some (f None, q))
      end
  end.

Definition parse_new_connection_id (p : list Z) : option (frame * list Z) :=
  '(seqnum, p) ← ngx_quic_parse_int p;
  '(retire, p) ← ngx_quic_parse_int p;
  if seqnum <? retire then None
  else
    '(len, p) ← ngx_quic_read_uint8 p;
    if (len <? 1) || (NGX_QUIC_CID_LEN_MAX <? len) then None
    else
      '(cid, p) ← ngx_quic_read_bytes len p;
      '(srt, p) ← ngx_quic_read_bytes NGX_QUIC_SR_TOKEN_LEN p;
      Some (NEW_CONNECTION_ID seqnum retire len cid srt, p).

Definition parse_close (type : Z) (p : list Z) : option (frame * list Z) :=
  '(error_code, p) ← ngx_quic_parse_int p;
  '(frame_type, p) ← (if type =? NGX_QUIC_FT_CONNECTION_CLOSE then ngx_quic_parse_int p else Some (0, p));
  '(varint, p) ← ngx_quic_parse_int p;
  '(reason, p) ← ngx_quic_read_bytes varint p;
  Some (if type =? NGX_QUIC_FT_CONNECTION_CLOSE then CONNECTION_CLOSE error_code frame_type reason
        else CONNECTION_CLOSE_APP error_code reason, p).

Definition flag (type bit : Z) : bool := negb (Z.land type bit =? 0).

Definition parse_stream (type : Z) (p : list Z) : option (frame * list Z) :=
  '(stream_id, p) ← ngx_quic_parse_int p;
  '(offset, p) ← (if flag type NGX_QUIC_STREAM_FRAME_OFF then ngx_quic_parse_int p else Some (0, p));
  '(len, p) ← (if flag type NGX_QUIC_STREAM_FRAME_LEN then ngx_quic_parse_int p else Some (Z.of_nat (length p), p));
  '(data, p) ← ngx_quic_read_bytes len p;
  Some (STREAM offset len stream_id (flag type NGX_QUIC_STREAM_FRAME_OFF) (flag type NGX_QUIC_STREAM_FRAME_LEN)
          (flag type NGX_QUIC_STREAM_FRAME_FIN) data, p).

(** A frame of one or two integers. *)
Definition parse_one (f : Z -> frame) (p : list Z) : option (frame * list Z) :=
  '(x, p) ← ngx_quic_parse_int p; Some (f x, p).

Definition parse_two (f : Z -> Z -> frame) (p : list Z) : option (frame * list Z) :=
  '(x, p) ← ngx_quic_parse_int p; '(y, p) ← ngx_quic_parse_int p; Some (f x y, p).

Definition parse_limit (f : Z -> frame) (p : list Z) : option (frame * list Z) :=
  '(limit, p) ← ngx_quic_parse_int p;
  if 0x1000000000000000 <? limit then None else Some (f limit, p).

Definition parse_reset_stream (p : list Z) : option (frame * list Z) :=
  '(id, p) ← ngx_quic_parse_int p; '(error_code, p) ← ngx_quic_parse_int p; '(final_size, p) ← ngx_quic_parse_int p;
  Some (RESET_STREAM id error_code final_size, p).

Definition parse_path (f : list Z -> frame) (p : list Z) : option (frame * list Z) :=
  '(d, p) ← ngx_quic_read_bytes 8 p; Some (f d, p).

(** What [ngx_quic_parse_frame] gives: a frame and what is left of the packet, or an
    error, with [pkt->error] if it is set. *)
Inductive parsed : Set :=
  | Frame (f : frame) (rest : list Z)
  | Refused (error : option Z).

(** The switch on the type: [None] is [goto error], [Unknown] the default case. *)
Inductive body : Set := Body (r : option (frame * list Z)) | Unknown.

Definition parse_body (type : Z) (p : list Z) : option body :=
  let same := Z.eqb type in
  if same NGX_QUIC_FT_ACK || same NGX_QUIC_FT_ACK_ECN then
    r ← parse_ack (same NGX_QUIC_FT_ACK_ECN) p; Some (Body r)
  else
    Some
      (if same NGX_QUIC_FT_CRYPTO then Body (parse_crypto p)
       else if same NGX_QUIC_FT_PADDING then Body (Some (PADDING, skip_padding p))
       else if same NGX_QUIC_FT_PING then Body (Some (PING, p))
       else if same NGX_QUIC_FT_NEW_CONNECTION_ID then Body (parse_new_connection_id p)
       else if same NGX_QUIC_FT_RETIRE_CONNECTION_ID then Body (parse_one RETIRE_CONNECTION_ID p)
       else if same NGX_QUIC_FT_CONNECTION_CLOSE || same NGX_QUIC_FT_CONNECTION_CLOSE_APP then Body (parse_close type p)
       else if (NGX_QUIC_FT_STREAM <=? type) && (type <=? NGX_QUIC_FT_STREAM7) then Body (parse_stream type p)
       else if same NGX_QUIC_FT_MAX_DATA then Body (parse_one MAX_DATA p)
       else if same NGX_QUIC_FT_RESET_STREAM then Body (parse_reset_stream p)
       else if same NGX_QUIC_FT_STOP_SENDING then Body (parse_two STOP_SENDING p)
       else if same NGX_QUIC_FT_STREAMS_BLOCKED || same NGX_QUIC_FT_STREAMS_BLOCKED2 then
         Body (parse_limit (fun x => STREAMS_BLOCKED x (same NGX_QUIC_FT_STREAMS_BLOCKED)) p)
       else if same NGX_QUIC_FT_MAX_STREAMS || same NGX_QUIC_FT_MAX_STREAMS2 then
         Body (parse_limit (fun x => MAX_STREAMS x (same NGX_QUIC_FT_MAX_STREAMS)) p)
       else if same NGX_QUIC_FT_MAX_STREAM_DATA then Body (parse_two MAX_STREAM_DATA p)
       else if same NGX_QUIC_FT_DATA_BLOCKED then Body (parse_one DATA_BLOCKED p)
       else if same NGX_QUIC_FT_STREAM_DATA_BLOCKED then Body (parse_two STREAM_DATA_BLOCKED p)
       else if same NGX_QUIC_FT_PATH_CHALLENGE then Body (parse_path PATH_CHALLENGE p)
       else if same NGX_QUIC_FT_PATH_RESPONSE then Body (parse_path PATH_RESPONSE p)
       else Unknown).

Definition ngx_quic_parse_frame (flags : Z) (start : list Z) : option parsed :=
  match ngx_quic_parse_int start with
  | None => Some (Refused (Some NGX_QUIC_ERR_FRAME_ENCODING_ERROR))
  | Some (varint, p) =>
      if NGX_QUIC_FT_LAST <? varint then Some (Refused (Some NGX_QUIC_ERR_FRAME_ENCODING_ERROR))
      else if negb (ngx_quic_frame_allowed flags varint) then Some (Refused (Some NGX_QUIC_ERR_PROTOCOL_VIOLATION))
      else
        r ← parse_body varint p;
        Some match r with
             | Body (Some (f, p)) => Frame f p
             | Body None => Refused (Some NGX_QUIC_ERR_FRAME_ENCODING_ERROR)
             | Unknown => Refused None
             end
  end.

Definition ngx_quic_parse_ack_range (start : list Z) : option (Z * Z * list Z) :=
  '(gap, p) ← ngx_quic_parse_int start; '(range, p) ← ngx_quic_parse_int p; Some (gap, range, p).

(** ** Definitions: writing

    Each function of the source has two halves: without a buffer ([p] is false) it is
    the length of the frame, with one it writes the frame, and is the length of what
    it wrote. *)

Definition vlen := ngx_quic_varint_len.
Definition vint := ngx_quic_build_int.

Definition halves (p : bool) (len : Z) (out : list Z) : Z * list Z :=
  if p then (Z.of_nat (length out), out) else (len, []).

Definition ngx_quic_create_ack_range (p : bool) (gap range : Z) : Z * list Z :=
  halves p (vlen gap + vlen range) (vint gap ++ vint range).

Definition ngx_quic_create_ping (p : bool) : Z * list Z := halves p (vlen NGX_QUIC_FT_PING) (vint NGX_QUIC_FT_PING).

Definition ngx_quic_create_ack (p : bool) (largest delay range_count first_range ranges_length : Z) (ranges : list Z) : Z * list Z :=
  halves p
    (vlen NGX_QUIC_FT_ACK + vlen largest + vlen delay + vlen range_count + vlen first_range + ranges_length)
    (vint NGX_QUIC_FT_ACK ++ vint largest ++ vint delay ++ vint range_count ++ vint first_range ++ ranges).

Definition ngx_quic_create_reset_stream (p : bool) (id error_code final_size : Z) : Z * list Z :=
  halves p (vlen NGX_QUIC_FT_RESET_STREAM + vlen id + vlen error_code + vlen final_size)
    (vint NGX_QUIC_FT_RESET_STREAM ++ vint id ++ vint error_code ++ vint final_size).

Definition ngx_quic_create_stop_sending (p : bool) (id error_code : Z) : Z * list Z :=
  halves p (vlen NGX_QUIC_FT_STOP_SENDING + vlen id + vlen error_code)
    (vint NGX_QUIC_FT_STOP_SENDING ++ vint id ++ vint error_code).

Definition ngx_quic_create_crypto (p : bool) (offset length : Z) (data : list Z) : Z * list Z :=
  halves p (vlen NGX_QUIC_FT_CRYPTO + vlen offset + vlen length + length)
    (vint NGX_QUIC_FT_CRYPTO ++ vint offset ++ vint length ++ data).

Definition ngx_quic_create_hs_done (p : bool) : Z * list Z :=
  halves p (vlen NGX_QUIC_FT_HANDSHAKE_DONE) (vint NGX_QUIC_FT_HANDSHAKE_DONE).

Definition ngx_quic_create_new_token (p : bool) (length : Z) (data : list Z) : Z * list Z :=
  halves p (vlen NGX_QUIC_FT_NEW_TOKEN + vlen length + length) (vint NGX_QUIC_FT_NEW_TOKEN ++ vint length ++ data).

Definition stream_type (off len fin : bool) : Z :=
  let type := NGX_QUIC_FT_STREAM in
  let type := if off then Z.lor type NGX_QUIC_STREAM_FRAME_OFF else type in
  let type := if len then Z.lor type NGX_QUIC_STREAM_FRAME_LEN else type in
  if fin then Z.lor type NGX_QUIC_STREAM_FRAME_FIN else type.

Definition ngx_quic_create_stream (p : bool) (offset length stream_id : Z) (off len fin : bool) (data : list Z) : Z * list Z :=
  let type := stream_type off len fin in
  halves p
    (vlen type + vlen stream_id + (if off then vlen offset else 0) + (if len then vlen length else 0) + length)
    (vint type ++ vint stream_id ++ (if off then vint offset else []) ++ (if len then vint length else []) ++ data).

Definition max_streams_type (bidi : bool) : Z := if bidi then NGX_QUIC_FT_MAX_STREAMS else NGX_QUIC_FT_MAX_STREAMS2.

Definition ngx_quic_create_max_streams (p : bool) (limit : Z) (bidi : bool) : Z * list Z :=
  halves p (vlen (max_streams_type bidi) + vlen limit) (vint (max_streams_type bidi) ++ vint limit).

Definition ngx_quic_create_max_stream_data (p : bool) (id limit : Z) : Z * list Z :=
  halves p (vlen NGX_QUIC_FT_MAX_STREAM_DATA + vlen id + vlen limit)
    (vint NGX_QUIC_FT_MAX_STREAM_DATA ++ vint id ++ vint limit).

Definition ngx_quic_create_max_data (p : bool) (max_data : Z) : Z * list Z :=
  halves p (vlen NGX_QUIC_FT_MAX_DATA + vlen max_data) (vint NGX_QUIC_FT_MAX_DATA ++ vint max_data).

Definition ngx_quic_create_path_challenge (p : bool) (data : list Z) : Z * list Z :=
  halves p (vlen NGX_QUIC_FT_PATH_CHALLENGE + 8) (vint NGX_QUIC_FT_PATH_CHALLENGE ++ data).

Definition ngx_quic_create_path_response (p : bool) (data : list Z) : Z * list Z :=
  halves p (vlen NGX_QUIC_FT_PATH_RESPONSE + 8) (vint NGX_QUIC_FT_PATH_RESPONSE ++ data).

Definition ngx_quic_create_new_connection_id (p : bool) (seqnum retire len : Z) (cid srt : list Z) : Z * list Z :=
  halves p (vlen NGX_QUIC_FT_NEW_CONNECTION_ID + vlen seqnum + vlen retire + 1 + len + NGX_QUIC_SR_TOKEN_LEN)
    (vint NGX_QUIC_FT_NEW_CONNECTION_ID ++ vint seqnum ++ vint retire ++ [len] ++ cid ++ srt).

Definition ngx_quic_create_retire_connection_id (p : bool) (sequence_number : Z) : Z * list Z :=
  halves p (vlen NGX_QUIC_FT_RETIRE_CONNECTION_ID + vlen sequence_number)
    (vint NGX_QUIC_FT_RETIRE_CONNECTION_ID ++ vint sequence_number).

(** The frame type that was refused is there unless the application closes. *)
Definition ngx_quic_create_close (p : bool) (type error_code frame_type : Z) (reason : list Z) : Z * list Z :=
  let app := type =? NGX_QUIC_FT_CONNECTION_CLOSE_APP in
  let len := Z.of_nat (length reason) in
  halves p
    (vlen type + vlen error_code + (if negb app then vlen frame_type else 0) + vlen len + len)
    (vint type ++ vint error_code ++ (if negb app then vint frame_type else []) ++ vint len ++ reason).

(** [None] is [NGX_ERROR]: a frame that is never sent. *)
Definition ngx_quic_create_frame (p : bool) (f : frame) : option (Z * list Z) :=
  match f with
  | PING => Some (ngx_quic_create_ping p)
  | ACK largest delay range_count first_range ranges_length data None =>
      Some (ngx_quic_create_ack p largest delay range_count first_range ranges_length data)
  | RESET_STREAM id error_code final_size => Some (ngx_quic_create_reset_stream p id error_code final_size)
  | STOP_SENDING id error_code => Some (ngx_quic_create_stop_sending p id error_code)
  | CRYPTO offset length data => Some (ngx_quic_create_crypto p offset length data)
  | HANDSHAKE_DONE => Some (ngx_quic_create_hs_done p)
  | NEW_TOKEN length data => Some (ngx_quic_create_new_token p length data)
  | STREAM offset length stream_id off len fin data =>
      Some (ngx_quic_create_stream p offset length stream_id off len fin data)
  | CONNECTION_CLOSE error_code frame_type reason =>
      Some (ngx_quic_create_close p NGX_QUIC_FT_CONNECTION_CLOSE error_code frame_type reason)
  | CONNECTION_CLOSE_APP error_code reason =>
      Some (ngx_quic_create_close p NGX_QUIC_FT_CONNECTION_CLOSE_APP error_code 0 reason)
  | MAX_STREAMS limit bidi => Some (ngx_quic_create_max_streams p limit bidi)
  | MAX_STREAM_DATA id limit => Some (ngx_quic_create_max_stream_data p id limit)
  | MAX_DATA max_data => Some (ngx_quic_create_max_data p max_data)
  | PATH_CHALLENGE data => Some (ngx_quic_create_path_challenge p data)
  | PATH_RESPONSE data => Some (ngx_quic_create_path_response p data)
  | NEW_CONNECTION_ID seqnum retire len cid srt => Some (ngx_quic_create_new_connection_id p seqnum retire len cid srt)
  | RETIRE_CONNECTION_ID sequence_number => Some (ngx_quic_create_retire_connection_id p sequence_number)
  | PADDING | ACK _ _ _ _ _ _ (Some _) | DATA_BLOCKED _ | STREAM_DATA_BLOCKED _ _ | STREAMS_BLOCKED _ _ => None
  end.

(** ** Specification: RFC 9000, sections 16 and 19 *)

(** The [n] bytes of [x], most significant first. *)
Fixpoint big_endian (n : nat) (x : Z) : list Z :=
  match n with O => [] | S n => big_endian n (x / 256) ++ [x mod 256] end.

(** The two first bits are the logarithm of the length. *)
Definition varint (v : Z) (bs : list Z) : Prop :=
  exists k : nat, (k <= 3)%nat /\ 0 <= v < 2 ^ (8 * 2 ^ Z.of_nat k - 2) /\
    bs = big_endian (2 ^ k) (v + Z.of_nat k * 2 ^ (8 * 2 ^ Z.of_nat k - 2)).

(** The fields of a frame: integers and bytes. *)
Inductive field : Set := V (v : Z) | B (d : list Z).

Inductive fields : list field -> list Z -> Prop :=
  | fields_nil : fields [] []
  | fields_int v fs a b : varint v a -> fields fs b -> fields (V v :: fs) (a ++ b)
  | fields_bytes d fs b : fields fs b -> fields (B d :: fs) (d ++ b).

Definition type_of (f : frame) : Z :=
  match f with
  | PADDING => 0x00
  | PING => 0x01
  | ACK _ _ _ _ _ _ None => 0x02
  | ACK _ _ _ _ _ _ (Some _) => 0x03
  | RESET_STREAM _ _ _ => 0x04
  | STOP_SENDING _ _ => 0x05
  | CRYPTO _ _ _ => 0x06
  | NEW_TOKEN _ _ => 0x07
  | STREAM _ _ _ off len fin _ => 0x08 + 4 * Z.b2z off + 2 * Z.b2z len + Z.b2z fin
  | MAX_DATA _ => 0x10
  | MAX_STREAM_DATA _ _ => 0x11
  | MAX_STREAMS _ bidi => if bidi then 0x12 else 0x13
  | DATA_BLOCKED _ => 0x14
  | STREAM_DATA_BLOCKED _ _ => 0x15
  | STREAMS_BLOCKED _ bidi => if bidi then 0x16 else 0x17
  | NEW_CONNECTION_ID _ _ _ _ _ => 0x18
  | RETIRE_CONNECTION_ID _ => 0x19
  | PATH_CHALLENGE _ => 0x1A
  | PATH_RESPONSE _ => 0x1B
  | CONNECTION_CLOSE _ _ _ => 0x1C
  | CONNECTION_CLOSE_APP _ _ => 0x1D
  | HANDSHAKE_DONE => 0x1E
  end.

(** The fields after the type. *)
Definition layout (f : frame) : list field :=
  match f with
  | PADDING | PING | HANDSHAKE_DONE => []
  | ACK largest delay range_count first_range _ data ecn =>
      [V largest; V delay; V range_count; V first_range; B data] ++
      match ecn with Some (ect0, ect1, ce) => [V ect0; V ect1; V ce] | None => [] end
  | RESET_STREAM id error_code final_size => [V id; V error_code; V final_size]
  | STOP_SENDING id error_code => [V id; V error_code]
  | CRYPTO offset length data => [V offset; V length; B data]
  | NEW_TOKEN length data => [V length; B data]
  | STREAM offset length stream_id off len _ data =>
      [V stream_id] ++ (if off then [V offset] else []) ++ (if len then [V length] else []) ++ [B data]
  | MAX_DATA x | MAX_STREAMS x _ | DATA_BLOCKED x | STREAMS_BLOCKED x _ | RETIRE_CONNECTION_ID x => [V x]
  | MAX_STREAM_DATA id limit | STREAM_DATA_BLOCKED id limit => [V id; V limit]
  | NEW_CONNECTION_ID seqnum retire len cid srt => [V seqnum; V retire; B [len]; B cid; B srt]
  | PATH_CHALLENGE data | PATH_RESPONSE data => [B data]
  | CONNECTION_CLOSE error_code frame_type reason =>
      [V error_code; V frame_type; V (Z.of_nat (length reason)); B reason]
  | CONNECTION_CLOSE_APP error_code reason => [V error_code; V (Z.of_nat (length reason)); B reason]
  end.

(** What the values must satisfy. *)
Definition frame_ok (f : frame) : Prop :=
  match f with
  | ACK _ _ range_count _ ranges_length data _ =>
      ranges_length = Z.of_nat (length data) /\
      exists rs : list (Z * Z), Z.of_nat (length rs) = range_count /\
        fields (concat (map (fun r => [V r.1; V r.2]) rs)) data
  | CRYPTO _ len data | NEW_TOKEN len data => len = Z.of_nat (length data)
  | STREAM offset len _ off _ _ data => len = Z.of_nat (length data) /\ (off = false -> offset = 0)
  | MAX_STREAMS x _ | STREAMS_BLOCKED x _ => x <= 2 ^ 60
  | NEW_CONNECTION_ID seqnum retire len cid srt =>
      retire <= seqnum /\ 1 <= len <= 20 /\ Z.of_nat (length cid) = len /\ length srt = 16%nat
  | PATH_CHALLENGE data | PATH_RESPONSE data => length data = 8%nat
  | _ => True
  end.

(** What may follow a frame: a frame of the type STREAM without its length ends the
    packet, and PADDING is all the zeros that there are. *)
Definition frame_end (f : frame) (rest : list Z) : Prop :=
  match f with
  | PADDING => forall t, rest <> 0 :: t
  | STREAM _ _ _ _ false _ _ => rest = []
  | _ => True
  end.

Definition frame_bytes (f : frame) (bs : list Z) : Prop :=
  exists ty b pad, varint (type_of f) ty /\ fields (layout f) b /\ bs = ty ++ b ++ repeat 0 pad /\
    (f = PADDING \/ pad = O).

(** Table 3 of RFC 9000: the packets that a frame may be in, as letters of IH01. *)
Inductive packet : Set := Initial | Handshake | ZeroRTT | OneRTT.

Definition packet_of (flags : Z) : packet :=
  if Z.testbit flags 7 then
    match Z.land (Z.shiftr flags 4) 3 with 0 => Initial | 2 => Handshake | _ => ZeroRTT end
  else OneRTT.

Definition may_be_in (type : Z) (k : packet) : bool :=
  match type with
  | 0x00 | 0x01 | 0x1C => true
  | 0x02 | 0x03 | 0x06 => match k with ZeroRTT => false | _ => true end
  | 0x07 | 0x1E => false
  | 0x1B => match k with OneRTT => true | _ => false end
  | _ => match k with ZeroRTT | OneRTT => true | _ => false end
  end.

(** ** Lemmas: integers *)

Lemma length_big_endian n x : length (big_endian n x) = n.
Proof. revert x. induction n as [|n IH]; intros x; cbn; [done |]. rewrite length_app, IH. cbn. lia. Qed.

Lemma big_endian_cons n x : big_endian (S n) x = (x / 256 ^ Z.of_nat n) mod 256 :: big_endian n x.
Proof.
  revert x. induction n as [|n IH]; intros x; [cbn; by rewrite Z.div_1_r |].
  change (big_endian (S (S n)) x) with (big_endian (S n) (x / 256) ++ [x mod 256]). rewrite IH.
  rewrite Nat2Z.inj_succ, Z.pow_succ_r, Z.div_div by lia. done.
Qed.

Lemma big_endian_add n x c : big_endian n (x + c * 256 ^ Z.of_nat n) = big_endian n x.
Proof.
  revert x c. induction n as [|n IH]; intros x c; [done |]. cbn [big_endian].
  rewrite Nat2Z.inj_succ, Z.pow_succ_r by lia. replace (c * (256 * 256 ^ Z.of_nat n)) with (c * 256 ^ Z.of_nat n * 256) by lia.
  rewrite Z.div_add, Z_mod_plus_full, IH by lia. done.
Qed.

Lemma digits_app v l b : digits v (l ++ [b]) = u64 (u64 (Z.shiftl (digits v l) 8) + b).
Proof. unfold digits. by rewrite fold_left_app. Qed.

Lemma digits_snoc v l b : 0 <= digits v l -> digits v l * 256 + 255 < 2 ^ 64 -> 0 <= b < 256 ->
  digits v (l ++ [b]) = digits v l * 256 + b.
Proof.
  intros H1 H2 H3. rewrite digits_app, Z.shiftl_mul_pow2 by lia. change (2 ^ 8) with 256.
  rewrite u64_small by (rewrite u64_small by lia; lia). rewrite u64_small; lia.
Qed.

(** The digits of an integer give it back. *)
Lemma digits_big_endian n x : 0 <= x < 2 ^ 64 -> digits (x / 256 ^ Z.of_nat n) (big_endian n x) = x.
Proof.
  revert x. induction n as [|n IH]; intros x Hx; [cbn; by rewrite Z.div_1_r |]. cbn [big_endian].
  rewrite Nat2Z.inj_succ, Z.pow_succ_r, <- Z.div_div by lia.
  assert (Hq : 0 <= x / 256 < 2 ^ 56) by (split; [apply Z.div_pos | apply Z.div_lt_upper_bound]; lia).
  pose proof (Z.mod_pos_bound x 256 ltac:(lia)). pose proof (Z.div_mod x 256 ltac:(lia)).
  assert (E : digits (x / 256 / 256 ^ Z.of_nat n) (big_endian n (x / 256)) = x / 256) by (apply IH; lia).
  rewrite digits_snoc; rewrite ?E; lia.
Qed.

Lemma digits_spec n v l : length l = n -> wf_bytes l -> 0 <= v -> (v + 1) * 256 ^ Z.of_nat n <= 2 ^ 64 ->
  v * 256 ^ Z.of_nat n <= digits v l < (v + 1) * 256 ^ Z.of_nat n /\ big_endian n (digits v l) = l.
Proof.
  revert l. induction n as [|n IH]; intros l Hn Hl Hv Hb.
  { destruct l; [| done]. unfold digits. cbn. split; [lia | done]. }
  destruct l as [|b l] using rev_ind; [done |]. clear IHl. rewrite length_app in Hn. cbn in Hn.
  apply wf_bytes_app in Hl as [Hl Hb']. apply Forall_cons in Hb' as [Hb' _]. unfold is_byte in Hb'.
  rewrite Nat2Z.inj_succ, Z.pow_succ_r in * by lia. set (w := 256 ^ Z.of_nat n) in *.
  assert (0 < w) by (apply Z.pow_pos_nonneg; lia).
  destruct (IH l) as [Hr He]; [lia | done | done | nia |].
  rewrite digits_snoc by nia. split; [nia |]. cbn [big_endian].
  rewrite Z.div_add_l, (Z.div_small b), Z.add_0_r, He by lia. f_equal. f_equal.
  rewrite Z.add_comm, Z_mod_plus_full. apply Z.mod_small. lia.
Qed.

Lemma byte_top b : is_byte b -> Z.shiftr b 6 = b / 64 /\ 0 <= b / 64 <= 3 /\ Z.land b 0x3f = b mod 64.
Proof.
  unfold is_byte. intros H. rewrite Z.shiftr_div_pow2 by lia. split; [done |].
  split; [split; [apply Z.div_pos; lia | apply Z.lt_succ_r, Z.div_lt_upper_bound; lia] |].
  change 0x3f with (Z.ones 6). by rewrite Z.land_ones by lia.
Qed.

(** The length of the form of the logarithm [k]. *)
Lemma form_len (k : nat) : (k <= 3)%nat -> exists n, (2 ^ k)%nat = S n /\ Z.shiftl 1 (Z.of_nat k) = Z.of_nat (S n) /\
  2 ^ (8 * 2 ^ Z.of_nat k - 2) = 64 * 256 ^ Z.of_nat n /\ 256 ^ Z.of_nat n * 64 * 4 <= 2 ^ 64 /\ 0 < 256 ^ Z.of_nat n.
Proof.
  intros Hk. do 4 (destruct k as [|k]; [eexists; split; [reflexivity |]; split_and!; by vm_compute |]). lia.
Qed.

(** An integer is read exactly when it is there. *)
Lemma parse_int_iff l v rest : wf_bytes l ->
  ngx_quic_parse_int l = Some (v, rest) <-> exists bs, varint v bs /\ l = bs ++ rest.
Proof.
  intros Hl. split.
  - unfold ngx_quic_parse_int. destruct l as [|b p]; [done |]. apply wf_bytes_cons in Hl as [Hb Hp].
    destruct (byte_top b Hb) as (E1 & E2 & E3). rewrite E1, E3.
    destruct (form_len (Z.to_nat (b / 64))) as (n & F1 & F2 & F3 & F4 & F5); [lia |]. rewrite Z2Nat.id in F2, F3 by lia. rewrite F2.
    destruct (Z.ltb_spec (Z.of_nat (length p)) (Z.of_nat (S n) - 1)) as [| Hlen]; [done |].
    replace (Z.to_nat (Z.of_nat (S n) - 1)) with n by lia. intros [= <- <-]. set (w := 256 ^ Z.of_nat n) in *.
    pose proof (Z.mod_pos_bound b 64 ltac:(lia)).
    destruct (digits_spec n (b mod 64) (take n p)) as [Hr He]; [rewrite length_take; lia | by apply Forall_take | lia | fold w; nia |].
    fold w in Hr. exists (b :: take n p). split; [| by rewrite <- app_comm_cons, take_drop].
    exists (Z.to_nat (b / 64)). rewrite Z2Nat.id, F3, F1 by lia. split_and!; [lia | nia | nia |].
    rewrite big_endian_cons. fold w. replace (b / 64 * (64 * w)) with (b / 64 * 64 * w) by lia.
    rewrite Z.div_add by lia. unfold w at 2. rewrite big_endian_add, He. f_equal.
    assert (digits (b mod 64) (take n p) / w = b mod 64) as -> by (symmetry; apply Z.div_unique with (digits (b mod 64) (take n p) - b mod 64 * w); nia).
    pose proof (Z.div_mod b 64 ltac:(lia)). rewrite Z.mod_small; unfold is_byte in Hb; lia.
  - intros (bs & (k & Hk & Hv & ->) & ->). destruct (form_len k Hk) as (n & F1 & F2 & F3 & F4 & F5). rewrite F3 in *. rewrite F1 in *.
    set (w := 256 ^ Z.of_nat n) in *. rewrite big_endian_cons. fold w.
    replace (Z.of_nat k * (64 * w)) with (Z.of_nat k * 64 * w) by lia. rewrite Z.div_add by lia.
    assert (Hq : 0 <= v / w < 64) by (split; [apply Z.div_pos | apply Z.div_lt_upper_bound]; lia).
    rewrite Z.mod_small by lia. unfold w at 2. rewrite big_endian_add.
    unfold ngx_quic_parse_int. rewrite <- app_comm_cons.
    destruct (byte_top (v / w + Z.of_nat k * 64)) as (E1 & _ & E3); [unfold is_byte; lia |]. rewrite E1, E3.
    rewrite Z.div_add, (Z.div_small (v / w)), Z.add_0_l, Z_mod_plus_full, (Z.mod_small (v / w)) by lia. rewrite F2.
    rewrite length_app, length_big_endian. destruct (Z.ltb_spec (Z.of_nat (n + length rest)) (Z.of_nat (S n) - 1)); [lia |].
    replace (Z.to_nat (Z.of_nat (S n) - 1)) with n by lia.
    rewrite take_app_length', drop_app_length' by (by rewrite length_big_endian).
    unfold w. rewrite digits_big_endian; [done |]. lia.
Qed.

Lemma big_endian_map n x : big_endian n x = map (fun i => (x / 256 ^ Z.of_nat i) mod 256) (rev (seq 0 n)).
Proof. induction n as [|n IH]; [done |]. rewrite big_endian_cons, IH, seq_S, rev_unit. done. Qed.

Lemma build_set_low v i : 0 <= i -> ngx_quic_build_int_set v i 0 = (v / 256 ^ i) mod 256.
Proof.
  intros Hi. unfold ngx_quic_build_int_set. rewrite Z.shiftl_0_l, Z.lor_0_r. change 0xff with (Z.ones 8).
  rewrite Z.land_ones, Z.shiftr_div_pow2 by lia. change 256 with (2 ^ 8). by rewrite <- Z.pow_mul_r, (Z.mul_comm 8) by lia.
Qed.

Lemma build_set_top v i k : 0 <= i -> 0 <= v / 256 ^ i < 64 -> 0 <= k ->
  ngx_quic_build_int_set v i k = v / 256 ^ i + k * 64.
Proof.
  intros Hi Hv Hk. unfold ngx_quic_build_int_set. change 0xff with (Z.ones 8).
  rewrite Z.land_ones, Z.shiftr_div_pow2 by lia. replace (2 ^ (i * 8)) with (256 ^ i) by (change 256 with (2 ^ 8); rewrite <- Z.pow_mul_r by lia; f_equal; lia).
  rewrite Z.mod_small, Z.lor_comm, lor_shiftl_add by lia. lia.
Qed.

(** The form of the logarithm [k] as it is built. *)
Lemma varint_form (k n : nat) v set : (k <= 3)%nat -> (2 ^ k)%nat = S n -> 0 <= v < 64 * 256 ^ Z.of_nat n ->
  set = ngx_quic_build_int_set v ->
  varint v (set (Z.of_nat n) (Z.of_nat k) :: map (fun i => set (Z.of_nat i) 0) (rev (seq 0 n))).
Proof.
  intros Hk Hn Hv ->. destruct (form_len k Hk) as (n' & F1 & F2 & F3 & F4 & F5). assert (n' = n) as -> by lia.
  set (w := 256 ^ Z.of_nat n) in *. assert (Hq : 0 <= v / w < 64) by (split; [apply Z.div_pos | apply Z.div_lt_upper_bound]; lia).
  exists k. rewrite F3. split_and!; [done | lia | lia |]. rewrite F1, big_endian_cons. fold w.
  replace (Z.of_nat k * (64 * w)) with (Z.of_nat k * 64 * w) by lia. rewrite Z.div_add, Z.mod_small by lia.
  unfold w at 2. rewrite big_endian_add, big_endian_map. f_equal.
  - apply build_set_top; [lia | exact Hq | lia].
  - apply map_ext. intros i. apply build_set_low. lia.
Qed.

(** What is built is an integer, of the length that was computed. *)
Lemma build_int_varint v : 0 <= v < 2 ^ 62 ->
  varint v (ngx_quic_build_int v) /\ Z.of_nat (length (ngx_quic_build_int v)) = ngx_quic_varint_len v.
Proof.
  intros Hv. unfold ngx_quic_build_int, ngx_quic_varint_len.
  change (Z.shiftl 1 6) with 64. change (Z.shiftl 1 14) with 16384. change (Z.shiftl 1 30) with 1073741824.
  assert (Hform : forall k n : nat, (k <= 3)%nat -> (2 ^ k)%nat = S n -> v < 64 * 256 ^ Z.of_nat n ->
    varint v (ngx_quic_build_int_set v (Z.of_nat n) (Z.of_nat k) :: map (fun i => ngx_quic_build_int_set v (Z.of_nat i) 0) (rev (seq 0 n)))).
  { intros k n Hk Hn Hlt. apply (varint_form k n v (ngx_quic_build_int_set v)); [done | done | lia | done]. }
  destruct (Z.ltb_spec v 64) as [H1 |]; [split; [apply (Hform 0%nat 0%nat); [lia | done | exact H1] | done] |].
  destruct (Z.ltb_spec v 16384) as [H2 |]; [split; [apply (Hform 1%nat 1%nat); [lia | done | exact H2] | done] |].
  destruct (Z.ltb_spec v 1073741824) as [H3 |]; [split; [apply (Hform 2%nat 3%nat); [lia | done | exact H3] | done] |].
  split; [apply (Hform 3%nat 7%nat); [lia | done | change (v < 2 ^ 62); lia] | done].
Qed.

Lemma varint_bytes v bs : varint v bs -> wf_bytes bs.
Proof.
  intros (k & _ & _ & ->). rewrite big_endian_map. apply Forall_map, Forall_true. intros i. unfold is_byte.
  pose proof (Z.mod_pos_bound ((v + Z.of_nat k * 2 ^ (8 * 2 ^ Z.of_nat k - 2)) / 256 ^ Z.of_nat i) 256 ltac:(lia)). lia.
Qed.

Lemma varint_range v bs : varint v bs -> 0 <= v < 2 ^ 62 /\ (0 < length bs)%nat.
Proof.
  intros (k & Hk & Hv & ->). rewrite length_big_endian. destruct (form_len k Hk) as (n & F1 & F2 & F3 & F4 & F5). lia.
Qed.

(** ** Lemmas: reading *)

(** [P] reads the [x] whose bytes are described by [G], and by [E] what may follow. *)
Definition reads {A : Type} (P : list Z -> option (A * list Z)) (G E : A -> list Z -> Prop) : Prop :=
  forall p, wf_bytes p -> forall x rest, P p = Some (x, rest) <-> exists b, G x b /\ p = b ++ rest /\ E x rest.

Definition any {A : Type} (x : A) (l : list Z) : Prop := True.

Lemma any_holds {A : Type} (x : A) l : any x l.
Proof. exact I. Qed.

#[local] Hint Resolve any_holds : core.

Lemma reads_int : reads ngx_quic_parse_int varint any.
Proof.
  intros p Hp x rest. rewrite parse_int_iff by done. split; [intros (b & ? & ?) | intros (b & ? & ? & _)]; exists b; by split_and!.
Qed.

Lemma reads_uint8 : reads ngx_quic_read_uint8 (fun x b => b = [x]) any.
Proof.
  intros p _ x rest. destruct p as [|c p]; cbn; split.
  - done.
  - by intros (b & -> & ? & _).
  - intros [= -> ->]. by exists [x].
  - by intros (b & -> & [= -> ->] & _).
Qed.

Lemma reads_bytes len : 0 <= len -> reads (ngx_quic_read_bytes len) (fun d b => b = d /\ Z.of_nat (length d) = len) any.
Proof.
  intros Hlen p _ x rest. unfold ngx_quic_read_bytes. destruct (Z.ltb_spec (Z.of_nat (length p)) len); split.
  - done.
  - intros (b & [-> Hl] & -> & _). rewrite length_app in *. lia.
  - intros [= <- <-]. eexists. split_and!; [done | rewrite length_take; lia | by rewrite take_drop | done].
  - intros (b & [-> Hl] & -> & _). rewrite take_app_length', drop_app_length' by lia. done.
Qed.

Lemma reads_ret {A : Type} (x : A) : reads (fun p => Some (x, p)) (fun y b => y = x /\ b = []) any.
Proof. intros p _ y rest. split; [intros [= <- <-]; by exists [] | by intros (b & [-> ->] & -> & _)]. Qed.

Lemma reads_fail {A : Type} : reads (A := A) (fun _ => None) (fun _ _ => False) any.
Proof. intros p _ y rest. split; [done | by intros (b & [] & _)]. Qed.

Lemma reads_bind {A C : Type} (P : list Z -> option (A * list Z)) (Q : A -> list Z -> option (C * list Z)) G H E :
  reads P G any -> (forall x b, G x b -> reads (Q x) (H x) E) ->
  reads (fun p => '(x, p) ← P p; Q x p) (fun y b => exists x b1 b2, G x b1 /\ H x y b2 /\ b = b1 ++ b2) E.
Proof.
  intros HP HQ p Hp y rest. split.
  - destruct (P p) as [[x p1] |] eqn:EP; [| done]. cbn. intros HE.
    apply (HP p Hp) in EP as (b1 & HG & -> & _). apply wf_bytes_app in Hp as [_ Hp1].
    apply (HQ x b1 HG p1 Hp1) in HE as (b2 & HH & -> & He). exists (b1 ++ b2). rewrite app_assoc. split_and!; [by exists x, b1, b2 | done | done].
  - intros (b & (x & b1 & b2 & HG & HH & ->) & -> & He). rewrite <- app_assoc in *.
    assert (EP : P (b1 ++ b2 ++ rest) = Some (x, b2 ++ rest)) by (apply (HP _ Hp); by exists b1).
    rewrite EP. cbn. apply wf_bytes_app in Hp as [_ Hp1]. apply (HQ x b1 HG _ Hp1). by exists b2.
Qed.

Lemma reads_iff {A : Type} (P : list Z -> option (A * list Z)) G G' E E' :
  reads P G E -> (forall x b rest, G x b /\ E x rest <-> G' x b /\ E' x rest) -> reads P G' E'.
Proof.
  intros HP HG p Hp x rest. rewrite (HP p Hp). split; intros (b & H1 & -> & H2); exists b.
  - destruct (proj1 (HG x b rest)); [done |]. by split_and!.
  - destruct (proj2 (HG x b rest)); [done |]. by split_and!.
Qed.

Lemma reads_guard {A : Type} c (P : list Z -> option (A * list Z)) G E : (c = false -> reads P G E) ->
  reads (fun p => if c then None else P p) (fun x b => c = false /\ G x b) E.
Proof.
  intros HP p Hp x rest. destruct c.
  - split; [done | by intros (b & [? _] & _)].
  - rewrite (HP eq_refl p Hp). split; [intros (b & ? & ? & ?) | intros (b & [_ ?] & ? & ?)]; exists b; by split_and!.
Qed.

(** All that is left. *)
Lemma reads_rest {A : Type} (f : Z -> list Z -> A) :
  reads (fun p => '(len, p) ← Some (Z.of_nat (length p), p); '(d, p) ← ngx_quic_read_bytes len p; Some (f len d, p))
    (fun x b => exists d, x = f (Z.of_nat (length d)) d /\ b = d ++ []) (fun _ rest => rest = []).
Proof.
  intros p _ x rest. cbn. unfold ngx_quic_read_bytes. rewrite Z.ltb_irrefl, Nat2Z.id, take_ge, drop_ge by done. cbn. split.
  - intros [= <- <-]. exists p. rewrite app_nil_r. split_and!; [exists p; by rewrite app_nil_r | done | done].
  - intros (b & (d & -> & ->) & -> & ->). by rewrite !app_nil_r.
Qed.

(** The fields of a frame are read one after the other. *)
Lemma fields_cons_int v fs b : fields (V v :: fs) b <-> exists b1 b2, varint v b1 /\ fields fs b2 /\ b = b1 ++ b2.
Proof. split; [inversion 1; subst; eauto | intros (b1 & b2 & ? & ? & ->); by constructor]. Qed.

Lemma fields_cons_bytes d fs b : fields (B d :: fs) b <-> exists b2, fields fs b2 /\ b = d ++ b2.
Proof. split; [inversion 1; subst; eauto | intros (b2 & ? & ->); by constructor]. Qed.

Lemma fields_nil_iff b : fields [] b <-> b = [].
Proof. split; [by inversion 1 | intros ->; constructor]. Qed.

Lemma fields_app f1 f2 b : fields (f1 ++ f2) b <-> exists b1 b2, fields f1 b1 /\ fields f2 b2 /\ b = b1 ++ b2.
Proof.
  revert b. induction f1 as [|[v | d] f1 IH]; intros b; cbn [app].
  - split; [intros H; exists [], b; split_and!; [constructor | done | done] |].
    intros (b1 & b2 & H & ? & ->). apply fields_nil_iff in H as ->. done.
  - rewrite fields_cons_int. split.
    + intros (b1 & b2 & Hv & H & ->). apply IH in H as (c1 & c2 & ? & ? & ->). exists (b1 ++ c1), c2. rewrite <- app_assoc.
      split_and!; [by constructor | done | done].
    + intros (b1 & b2 & H & ? & ->). apply fields_cons_int in H as (c1 & c2 & ? & ? & ->). exists c1, (c2 ++ b2).
      rewrite <- app_assoc. split_and!; [done | apply IH; eauto | done].
  - rewrite fields_cons_bytes. split.
    + intros (b2 & H & ->). apply IH in H as (c1 & c2 & ? & ? & ->). exists (d ++ c1), c2. rewrite <- app_assoc.
      split_and!; [by constructor | done | done].
    + intros (b1 & b2 & H & ? & ->). apply fields_cons_bytes in H as (c2 & ? & ->). exists (c2 ++ b2).
      rewrite <- app_assoc. split; [apply IH; eauto | done].
Qed.

(** The bytes [b] after a type are those of the frame [f] of this type. *)
Definition frame_at (ty : Z) (f : frame) (b : list Z) : Prop := type_of f = ty /\ frame_ok f /\ fields (layout f) b.

Lemma any_iff {A : Type} (x : A) l : any x l <-> True.
Proof. done. Qed.

(** A parser is a sequence of reads. *)
Ltac read_seq :=
  repeat first
    [ apply reads_ret
    | apply reads_rest
    | eapply reads_guard; intros ?
    | eapply reads_bind; [first [apply reads_int | apply reads_uint8 | apply reads_ret | apply reads_bytes; first [eapply varint_range; eassumption | lia | done]] | intros ? ? ?] ].

(** The fields that were read are those of the frame. *)
Ltac fields_of_reads :=
  repeat match goal with
  | H : ex _ |- _ => destruct H
  | H : _ /\ _ |- _ => destruct H
  end; subst.

Ltac build_fields := repeat first [apply fields_nil | apply fields_bytes | apply fields_int; [eassumption |]].

Ltac split_fields :=
  repeat match goal with
  | H : fields [] _ |- _ => apply fields_nil_iff in H
  | H : fields (V _ :: _) _ |- _ => apply fields_cons_int in H as (? & ? & ? & ? & ?)
  | H : fields (B _ :: _) _ |- _ => apply fields_cons_bytes in H as (? & ? & ?)
  | H : frame_ok _ |- _ => progress cbn in H
  | H : _ /\ _ |- _ => destruct H
  end; subst.

Ltac give := repeat match goal with |- ex _ => eexists | |- _ /\ _ => split end.

(** The frames of a type. *)
Ltac frames_of H :=
  match type of H with type_of ?f = _ =>
    destruct f; cbn in H; try discriminate H;
    repeat match type of H with
      | context [match ?x with _ => _ end] => destruct x; cbn in H; try discriminate H
      | context [Z.b2z ?x] => destruct x; cbn in H; try discriminate H
      end
  end.

Ltac frame_read :=
  eapply reads_iff; [cbv delta [parse_crypto parse_reset_stream parse_one parse_two parse_path] beta; read_seq |];
  intros f b rest; split;
  [ intros [H He]; fields_of_reads; unfold frame_at; cbn; split_and!; try done; try lia; try build_fields
  | intros [(Ht & Hok & Hf) He]; frames_of Ht; cbn in Hf, He; split_fields; split; [| done]; give; try reflexivity; eauto ].

Lemma crypto_read : reads parse_crypto (frame_at NGX_QUIC_FT_CRYPTO) frame_end.
Proof. frame_read. Qed.

Lemma retire_read : reads (parse_one RETIRE_CONNECTION_ID) (frame_at NGX_QUIC_FT_RETIRE_CONNECTION_ID) frame_end.
Proof. frame_read. Qed.

Lemma max_data_read : reads (parse_one MAX_DATA) (frame_at NGX_QUIC_FT_MAX_DATA) frame_end.
Proof. frame_read. Qed.

Lemma data_blocked_read : reads (parse_one DATA_BLOCKED) (frame_at NGX_QUIC_FT_DATA_BLOCKED) frame_end.
Proof. frame_read. Qed.

Lemma reset_stream_read : reads parse_reset_stream (frame_at NGX_QUIC_FT_RESET_STREAM) frame_end.
Proof. frame_read. Qed.

Lemma stop_sending_read : reads (parse_two STOP_SENDING) (frame_at NGX_QUIC_FT_STOP_SENDING) frame_end.
Proof. frame_read. Qed.

Lemma max_stream_data_read : reads (parse_two MAX_STREAM_DATA) (frame_at NGX_QUIC_FT_MAX_STREAM_DATA) frame_end.
Proof. frame_read. Qed.

Lemma stream_data_blocked_read : reads (parse_two STREAM_DATA_BLOCKED) (frame_at NGX_QUIC_FT_STREAM_DATA_BLOCKED) frame_end.
Proof. frame_read. Qed.

Lemma path_challenge_read : reads (parse_path PATH_CHALLENGE) (frame_at NGX_QUIC_FT_PATH_CHALLENGE) frame_end.
Proof. frame_read. all: f_equal; lia. Qed.

Lemma path_response_read : reads (parse_path PATH_RESPONSE) (frame_at NGX_QUIC_FT_PATH_RESPONSE) frame_end.
Proof. frame_read. all: f_equal; lia. Qed.

Lemma streams_blocked_read bidi : reads (parse_limit (fun x => STREAMS_BLOCKED x bidi))
  (frame_at (if bidi then NGX_QUIC_FT_STREAMS_BLOCKED else NGX_QUIC_FT_STREAMS_BLOCKED2)) frame_end.
Proof. destruct bidi; unfold parse_limit; frame_read. all: lia. Qed.

Lemma max_streams_read bidi : reads (parse_limit (fun x => MAX_STREAMS x bidi))
  (frame_at (if bidi then NGX_QUIC_FT_MAX_STREAMS else NGX_QUIC_FT_MAX_STREAMS2)) frame_end.
Proof. destruct bidi; unfold parse_limit; frame_read. all: lia. Qed.

Lemma close_read : reads (parse_close NGX_QUIC_FT_CONNECTION_CLOSE) (frame_at NGX_QUIC_FT_CONNECTION_CLOSE) frame_end.
Proof. unfold parse_close. rewrite Z.eqb_refl. frame_read. Qed.

Lemma close_app_read :
  reads (parse_close NGX_QUIC_FT_CONNECTION_CLOSE_APP) (frame_at NGX_QUIC_FT_CONNECTION_CLOSE_APP) frame_end.
Proof. unfold parse_close. change (NGX_QUIC_FT_CONNECTION_CLOSE_APP =? NGX_QUIC_FT_CONNECTION_CLOSE) with false. cbn match. frame_read. Qed.

Lemma ping_read : reads (fun p => Some (PING, p)) (frame_at NGX_QUIC_FT_PING) frame_end.
Proof. frame_read. Qed.

Lemma new_connection_id_read :
  reads parse_new_connection_id (frame_at NGX_QUIC_FT_NEW_CONNECTION_ID) frame_end.
Proof.
  unfold parse_new_connection_id. change NGX_QUIC_SR_TOKEN_LEN with 16. change NGX_QUIC_CID_LEN_MAX with 20.
  frame_read. all: try lia. apply (fields_bytes [_]). build_fields.
Qed.

Lemma stream_flags (off len fin : bool) : let type := stream_type off len fin in
  flag type NGX_QUIC_STREAM_FRAME_OFF = off /\ flag type NGX_QUIC_STREAM_FRAME_LEN = len /\
  flag type NGX_QUIC_STREAM_FRAME_FIN = fin.
Proof. by destruct off, len, fin. Qed.

Lemma stream_read (off len fin : bool) :
  reads (parse_stream (stream_type off len fin)) (frame_at (stream_type off len fin)) frame_end.
Proof.
  unfold parse_stream. destruct (stream_flags off len fin) as (-> & -> & ->).
  destruct off, len, fin; cbv match; frame_read. all: f_equal; auto.
Qed.

Lemma padding_read p f rest : Some (PADDING, skip_padding p) = Some (f, rest) <->
  exists n, f = PADDING /\ p = repeat 0 n ++ rest /\ frame_end PADDING rest.
Proof.
  split.
  - intros [= <- <-]. induction p as [|b p (n & _ & IH & He)]; [by exists O |]. cbn [skip_padding].
    destruct (Z.eqb_spec b NGX_QUIC_FT_PADDING) as [-> | Hb]; [exists (S n); by rewrite IH at 1 |].
    exists O. split_and!; [done | done |]. intros t [= -> _]. done.
  - intros (n & -> & -> & He). do 2 f_equal. induction n as [|n IH]; [| done]. cbn [repeat app].
    destruct rest as [|b rest]; [done |]. cbn. destruct (Z.eqb_spec b NGX_QUIC_FT_PADDING) as [-> |]; [| done].
    by destruct (He rest).
Qed.

Definition range_fields (rs : list (Z * Z)) : list field := concat (map (fun r => [V r.1; V r.2]) rs).

(** The ranges of an acknowledgement are passed over, with fuel for each byte. *)
Lemma skip_ranges_spec fuel n l : (length l < fuel)%nat -> wf_bytes l -> 0 <= n ->
  exists r, skip_ranges fuel n l = Some r /\
    forall q, r = Some q <-> exists rs b, Z.of_nat (length rs) = n /\ fields (range_fields rs) b /\ l = b ++ q.
Proof.
  revert n l. induction fuel as [|fuel IH]; intros n l Hf Hl Hn; [lia |]. cbn [skip_ranges].
  destruct (Z.leb_spec n 0) as [Hz | Hz].
  { exists (Some l). split; [done |]. intros q. split.
    - intros [= <-]. exists [], []. split_and!; [cbn; lia | constructor | done].
    - intros (rs & b & Hrs & Hb & ->). destruct rs; [| cbn in Hrs; lia]. by apply fields_nil_iff in Hb as ->. }
  set (P := fun l => '(g, l) ← ngx_quic_parse_int l; '(r, l) ← ngx_quic_parse_int l; Some ((g, r), l)).
  assert (HP : reads P (fun x b => fields [V x.1; V x.2] b) any).
  { eapply reads_iff; [unfold P; read_seq |]. intros x b rest. split.
    - intros [H _]. fields_of_reads. cbn. split; [build_fields | done].
    - intros [H _]. destruct x as [g r]. cbn in H. split_fields. split; [give; try reflexivity; eauto | done]. }
  assert (Hbind : ('(_, l) ← ngx_quic_parse_int l; ngx_quic_parse_int l) = (p ← P l; Some (p.1.2, p.2))).
  { unfold P. destruct (ngx_quic_parse_int l) as [[g l1] |]; [| done]. cbn. by destruct (ngx_quic_parse_int l1) as [[r l2] |]. }
  pose proof (HP l Hl) as HPl. rewrite Hbind. destruct (P l) as [[[g r] l2] |] eqn:EP; cbn.
  - destruct (proj1 (HPl _ _) eq_refl) as (b & Hb & -> & _). apply wf_bytes_app in Hl as [_ Hl2].
    assert (Hlen : (0 < length b)%nat).
    { apply fields_cons_int in Hb as (b1 & b2 & H1 & _ & ->). apply varint_range in H1 as [_ ?]. rewrite length_app. lia. }
    destruct (IH (n - 1) l2) as (res & E & Hres); [rewrite length_app in Hf; lia | done | lia |]. exists res. split; [done |].
    intros q. rewrite Hres. split.
    + intros (rs & c & Hrs & Hc & ->). exists ((g, r) :: rs), (b ++ c). rewrite <- app_assoc. split_and!; [cbn; lia | | done].
      change (range_fields ((g, r) :: rs)) with ([V g; V r] ++ range_fields rs). apply fields_app. eauto.
    + intros (rs & c & Hrs & Hc & Ec). destruct rs as [|[g' r'] rs]; [cbn in Hrs; lia |].
      change (range_fields ((g', r') :: rs)) with ([V g'; V r'] ++ range_fields rs) in Hc.
      apply fields_app in Hc as (c1 & c2 & Hc1 & Hc2 & ->). rewrite <- app_assoc in Ec.
      assert (E2 : Some (g, r, l2) = Some (g', r', c2 ++ q)) by (apply HPl; by exists c1). injection E2 as <- <- ->.
      exists rs, c2. split_and!; [cbn in Hrs; lia | done | done].
  - exists None. split; [done |]. intros q. split; [done |]. intros (rs & c & Hrs & Hc & ->).
    destruct rs as [|[g r] rs]; [cbn in Hrs; lia |].
    change (range_fields ((g, r) :: rs)) with ([V g; V r] ++ range_fields rs) in Hc.
    apply fields_app in Hc as (c1 & c2 & Hc1 & Hc2 & ->). rewrite <- app_assoc in *.
    discriminate (proj2 (HPl (g, r) (c2 ++ q))). by exists c1.
Qed.

#[local] Arguments skip_ranges : simpl never.

(** The bytes of the ranges. *)
Definition read_ranges (n : Z) (p : list Z) : option (list Z * list Z) :=
  match skip_ranges (S (length p)) n p with
  | Some (Some q) => Some (take (length p - length q) p, q)
  | _ => None
  end.

Lemma ranges_read n : 0 <= n ->
  reads (read_ranges n) (fun d b => b = d /\ exists rs, Z.of_nat (length rs) = n /\ fields (range_fields rs) d) any.
Proof.
  intros Hn p Hp d rest. unfold read_ranges. destruct (skip_ranges_spec (S (length p)) n p) as (r & -> & Hr); [lia | done | done |].
  assert (Htake : forall b q : list Z, take (length (b ++ q) - length q) (b ++ q) = b).
  { intros b q. rewrite length_app. apply take_app_length'. lia. }
  split.
  - destruct r as [q |]; [| done]. intros [= <- <-]. destruct (proj1 (Hr q) eq_refl) as (rs & b & Hrs & Hb & ->).
    rewrite Htake. exists b. split_and!; [done | by exists rs | done | done].
  - intros (b & (-> & rs & Hrs & Hb) & -> & _). rewrite (proj2 (Hr rest)); [by rewrite Htake |]. by exists rs, d.
Qed.

Lemma ack_head_read : reads parse_ack_head
  (fun x b => fields [V x.1.1.1; V x.1.1.2; V x.1.2; V x.2] b /\ 0 <= x.1.2) any.
Proof.
  eapply reads_iff; [unfold parse_ack_head; read_seq |]. intros x b rest. split.
  - intros [H _]. fields_of_reads. split; [| done]. split; [build_fields | by eapply varint_range].
  - intros [H _]. destruct x as [[[? ?] ?] ?]. split; [| done]. cbn in H. split_fields. give; try reflexivity; eauto.
Qed.

Lemma ecn_read : reads parse_ecn (fun x b => fields [V x.1.1; V x.1.2; V x.2] b) any.
Proof.
  eapply reads_iff; [unfold parse_ecn; read_seq |]. intros x b rest. split.
  - intros [H _]. fields_of_reads. split; [build_fields | done].
  - intros [H _]. destruct x as [[? ?] ?]. split; [| done]. cbn in H. split_fields. give; try reflexivity; eauto.
Qed.

(** The body of an acknowledgement without the fuel. *)
Definition ack_body (ecn : bool) (p : list Z) : option (frame * list Z) :=
  '(x, p) ← parse_ack_head p;
  '(d, p) ← read_ranges x.1.2 p;
  let f := ACK x.1.1.1 x.1.1.2 x.1.2 x.2 (Z.of_nat (length d)) d in
  if ecn then '(e, p) ← parse_ecn p; Some (f (Some e), p) else Some (f None, p).

Lemma parse_ack_body ecn p : wf_bytes p -> parse_ack ecn p = Some (ack_body ecn p).
Proof.
  intros Hp. unfold parse_ack, ack_body. pose proof (ack_head_read p Hp) as Hh.
  destruct (parse_ack_head p) as [[[[[largest delay] count] first] q] |]; [| done]. cbn.
  destruct (proj1 (Hh (largest, delay, count, first) q) eq_refl) as (b & [_ Hc] & -> & _). cbn in Hc.
  apply wf_bytes_app in Hp as [_ Hq]. unfold read_ranges.
  destruct (skip_ranges_spec (S (length q)) count q) as (r & -> & _); [lia | done | done |]. cbn.
  destruct r as [q' |]; [| done]. cbn. rewrite length_take, Nat.min_l by lia. done.
Qed.

(** The layout of an acknowledgement in three parts. *)
Lemma ack_layout largest delay count first len d ecn b :
  fields (layout (ACK largest delay count first len d ecn)) b <->
  exists b1 b2, fields [V largest; V delay; V count; V first] b1 /\
    fields (match ecn with Some (ect0, ect1, ce) => [V ect0; V ect1; V ce] | None => [] end) b2 /\ b = b1 ++ d ++ b2.
Proof.
  cbn [layout]. change [V largest; V delay; V count; V first; B d] with ([V largest; V delay; V count; V first] ++ [B d]).
  rewrite <- app_assoc, fields_app. split.
  - intros (b1 & b2 & H1 & H2 & ->). apply fields_cons_bytes in H2 as (b3 & H3 & ->). by exists b1, b3.
  - intros (b1 & b2 & H1 & H2 & ->). exists b1, (d ++ b2). split_and!; [done | by constructor | done].
Qed.

Lemma ack_read (ecn : bool) :
  reads (ack_body ecn) (frame_at (if ecn then NGX_QUIC_FT_ACK_ECN else NGX_QUIC_FT_ACK)) frame_end.
Proof.
  unfold ack_body. destruct ecn; (eapply reads_iff;
    [eapply reads_bind; [apply ack_head_read | intros x b [_ Hc]; eapply reads_bind; [by apply ranges_read | intros d b2 _]] |]).
  - eapply reads_bind; [apply ecn_read | intros e b3 _; apply reads_ret].
  - intros f b rest. unfold frame_at. split.
    + intros [H _]. fields_of_reads. destruct x as [[[largest delay] count] first], x5 as [[ect0 ect1] ce].
      cbn [fst snd] in *. rewrite ack_layout. split_and!; try done; [by split; [| exists x8] |]. exists x0, x6. by rewrite app_nil_r.
    + intros [(Ht & Hok & Hf) _]. split; [| done]. frames_of Ht. destruct Hok as (Hlen & rs & Hrs & Hr). apply ack_layout in Hf as (b1 & b2 & H1 & H2 & ->).
      destruct p as [[ect0 ect1] ce].
      exists (largest, delay, range_count, first_range), b1, (data ++ b2). cbn [fst snd]. split_and!; [done | lia | | done].
      exists data, data, b2. split_and!; [done | by exists rs | | done].
      exists (ect0, ect1, ce), b2, []. rewrite app_nil_r. by subst.
  - apply reads_ret.
  - intros f b rest. unfold frame_at. split.
    + intros [H _]. fields_of_reads. destruct x as [[[largest delay] count] first].
      cbn [fst snd] in *. rewrite ack_layout. split_and!; try done; [by split; [| exists x5] |]. exists x0, []. split_and!; try done. constructor.
    + intros [(Ht & Hok & Hf) _]. split; [| done]. frames_of Ht. destruct Hok as (Hlen & rs & Hrs & Hr). apply ack_layout in Hf as (b1 & b2 & H1 & H2 & ->).
      exists (largest, delay, range_count, first_range), b1, (data ++ b2). cbn [fst snd]. split_and!; [done | lia | | done].
      apply fields_nil_iff in H2 as ->. exists data, data, []. split_and!; [done | by exists rs | by subst | done | done].
Qed.

(** The body of a frame of the type [ty] is read exactly when it is there. *)
Definition body_reads (ty : Z) (p : list Z) : Prop :=
  exists r, parse_body ty p = Some (Body r) /\
    forall f rest, r = Some (f, rest) <->
      exists b pad, frame_at ty f b /\ p = b ++ repeat 0 pad ++ rest /\ (f = PADDING \/ pad = O) /\ frame_end f rest.

Lemma body_case P ty p : reads P (frame_at ty) frame_end -> ty <> 0 -> wf_bytes p -> parse_body ty p = Some (Body (P p)) ->
  body_reads ty p.
Proof.
  intros HP Hty Hp E. exists (P p). split; [done |]. intros f rest. rewrite (HP p Hp). split.
  - intros (b & Hf & -> & He). exists b, O. by split_and!; auto.
  - intros (b & pad & Hf & -> & [-> | ->] & He); [| by exists b]. destruct Hf as [Hf _]. cbn in Hf. congruence.
Qed.

Lemma ack_case (ecn : bool) p : wf_bytes p -> body_reads (if ecn then NGX_QUIC_FT_ACK_ECN else NGX_QUIC_FT_ACK) p.
Proof.
  intros Hp. apply (body_case (ack_body ecn)); [apply ack_read | by destruct ecn | done |].
  transitivity (r ← parse_ack ecn p; Some (Body r)); [by destruct ecn | by rewrite parse_ack_body].
Qed.

Lemma padding_case p : body_reads NGX_QUIC_FT_PADDING p.
Proof.
  exists (Some (PADDING, skip_padding p)). split; [done |]. intros f rest. rewrite padding_read. split.
  - intros (n & -> & E & He). exists [], n. split_and!; [split_and!; [done | done | constructor] | done | by left | done].
  - intros (b & pad & (Hf & _ & Hb) & -> & Hpad & He). frames_of Hf. apply fields_nil_iff in Hb as ->.
    by exists pad.
Qed.

#[local] Create HintDb frame_reads.

#[local] Hint Resolve crypto_read retire_read max_data_read data_blocked_read reset_stream_read stop_sending_read
  max_stream_data_read stream_data_blocked_read path_challenge_read path_response_read close_read close_app_read
  ping_read new_connection_id_read : frame_reads.

Lemma body_spec ty p : 0 <= ty <= NGX_QUIC_FT_LAST -> ty <> NGX_QUIC_FT_NEW_TOKEN -> ty <> NGX_QUIC_FT_HANDSHAKE_DONE ->
  wf_bytes p -> body_reads ty p.
Proof.
  intros Hty H1 H2 Hp. unfold NGX_QUIC_FT_LAST, NGX_QUIC_FT_HANDSHAKE_DONE, NGX_QUIC_FT_NEW_TOKEN in *.
  assert (Hn : exists n, (n <= 30)%nat /\ ty = Z.of_nat n) by (exists (Z.to_nat ty); lia). destruct Hn as (n & Hn & ->).
  do 31 (destruct n as [|n]; [try (exfalso; lia); first
    [ apply padding_case
    | by apply (ack_case false)
    | by apply (ack_case true)
    | eapply body_case; [solve [eauto with frame_reads | apply (streams_blocked_read true) | apply (streams_blocked_read false)
        | apply (max_streams_read true) | apply (max_streams_read false)
        | apply (stream_read false false false) | apply (stream_read false false true) | apply (stream_read false true false)
        | apply (stream_read false true true) | apply (stream_read true false false) | apply (stream_read true false true)
        | apply (stream_read true true false) | apply (stream_read true true true)] | done | done | reflexivity] ] |]).
  lia.
Qed.

(** The table of the source is that of the RFC. *)
Lemma packet_bits flags : is_byte flags ->
  (if ngx_quic_long_pkt flags then if ngx_quic_pkt_in flags then 8 else if ngx_quic_pkt_hs flags then 4 else 2 else 1) =
  match packet_of flags with Initial => 8 | Handshake => 4 | ZeroRTT => 2 | OneRTT => 1 end.
Proof. intros H. by_bytes flags. Qed.

Lemma allowed_spec flags type : is_byte flags -> 0 <= type <= NGX_QUIC_FT_LAST ->
  ngx_quic_frame_allowed flags type = may_be_in type (packet_of flags).
Proof.
  intros Hf Ht. unfold ngx_quic_frame_allowed, NGX_QUIC_FT_LAST, NGX_QUIC_FT_HANDSHAKE_DONE in *. rewrite packet_bits by done.
  assert (Hn : exists n, (n <= 30)%nat /\ type = Z.of_nat n) by (exists (Z.to_nat type); lia). destruct Hn as (n & Hn & ->).
  do 31 (destruct n as [|n]; [by destruct (packet_of flags) |]). lia.
Qed.

(** What is read, and why it is refused. *)
Definition frame_at_start (flags : Z) (l : list Z) (f : frame) (rest : list Z) : Prop :=
  exists bs, frame_bytes f bs /\ frame_ok f /\ may_be_in (type_of f) (packet_of flags) = true /\ l = bs ++ rest /\ frame_end f rest.

Definition refused_for (flags : Z) (l : list Z) (e : option Z) : Prop :=
  e = Some NGX_QUIC_ERR_FRAME_ENCODING_ERROR \/
  e = Some NGX_QUIC_ERR_PROTOCOL_VIOLATION /\
  exists type ty rest, varint type ty /\ l = ty ++ rest /\ may_be_in type (packet_of flags) = false.

Lemma parse_frame_spec flags l : is_byte flags -> wf_bytes l ->
  exists r, ngx_quic_parse_frame flags l = Some r /\
    (forall f rest, r = Frame f rest <-> frame_at_start flags l f rest) /\ (forall e, r = Refused e -> refused_for flags l e).
Proof.
  intros Hfl Hl. unfold ngx_quic_parse_frame, refused_for, frame_at_start. pose proof (reads_int l Hl) as Hty.
  assert (Hno : (forall v p, ngx_quic_parse_int l = Some (v, p) -> NGX_QUIC_FT_LAST < v \/ may_be_in v (packet_of flags) = false) ->
    forall f rest, ~ exists bs, frame_bytes f bs /\ frame_ok f /\ may_be_in (type_of f) (packet_of flags) = true /\
      l = bs ++ rest /\ frame_end f rest).
  { intros Hno f rest (bs & (ty & b & pad & H1 & _ & -> & _) & _ & Hm & -> & _).
    destruct (Hno (type_of f) ((b ++ repeat 0 pad) ++ rest)) as [H | H]; [apply Hty; exists ty; by rewrite <- app_assoc | | congruence].
    unfold NGX_QUIC_FT_LAST, NGX_QUIC_FT_HANDSHAKE_DONE in H. destruct f; cbn in H; repeat case_match; cbn in H; lia || (destruct off, len, fin; cbn in H; lia). }
  destruct (ngx_quic_parse_int l) as [[v p] |] eqn:El.
  2:{ eexists. split; [done |]. split; [| intros e [= <-]; by left]. intros f rest. split; [done |]. intros H. exfalso. by eapply Hno. }
  destruct (proj1 (Hty v p) eq_refl) as (ty & Hv & -> & _). pose proof (varint_range _ _ Hv) as [Hr _].
  destruct (Z.ltb_spec NGX_QUIC_FT_LAST v).
  { eexists. split; [done |]. split; [| intros e [= <-]; by left]. intros f rest. split; [done |]. intros H'. exfalso.
    eapply Hno; [| exact H']. intros ? ? [= <- <-]. by left. }
  rewrite allowed_spec by (done || lia). destruct (may_be_in v (packet_of flags)) eqn:Em; cbn [negb].
  2:{ eexists. split; [done |]. split; [| intros e [= <-]; right; split; [done | by exists v, ty, p]]. intros f rest.
      split; [done |]. intros H'. exfalso. eapply Hno; [| exact H']. intros ? ? [= <- <-]. by right. }
  apply wf_bytes_app in Hl as [_ Hp].
  destruct (body_spec v p) as (r & -> & Hbody); [lia | by intros -> | by intros -> | done |]. cbn [mbind option_bind].
  eexists. split; [done |]. split; [| intros e; destruct r as [[] |]; [done | intros [= <-]; by left]].
  intros f rest. transitivity (r = Some (f, rest)); [destruct r as [[f' q] |]; split; congruence |]. rewrite Hbody. split.
  - intros (b & pad & (<- & Hok & Hf) & -> & Hpad & He). exists (ty ++ b ++ repeat 0 pad).
    rewrite <- !app_assoc. split_and!; [by exists ty, b, pad | done | done | done | done].
  - intros (bs & (ty' & b & pad & Hv' & Hf & -> & Hpad) & Hok & _ & E & He). rewrite <- !app_assoc in E.
    assert (Some (v, p) = Some (type_of f, b ++ repeat 0 pad ++ rest)) as [= -> ->] by (apply Hty; rewrite E; by exists ty').
    by exists b, pad.
Qed.

(** ** Lemmas: writing *)

Definition in_range (x : field) : Prop := match x with V v => 0 <= v < 2 ^ 62 | B d => wf_bytes d end.
Definition written (x : field) : list Z := match x with V v => vint v | B d => d end.
Definition written_len (x : field) : Z := match x with V v => vlen v | B d => Z.of_nat (length d) end.
Definition all_written (fs : list field) : list Z := concat (map written fs).
Definition all_len (fs : list field) : Z := foldr (fun x n => written_len x + n) 0 fs.

Lemma written_fields fs : Forall in_range fs ->
  fields fs (all_written fs) /\ Z.of_nat (length (all_written fs)) = all_len fs /\ wf_bytes (all_written fs).
Proof.
  unfold all_written. induction 1 as [|x fs Hx _ (IH1 & IH2 & IH3)]; [split_and!; constructor |]. cbn. rewrite length_app, Nat2Z.inj_add, IH2.
  destruct x as [v | d]; cbn in *.
  - destruct (build_int_varint v Hx) as [Hv Hl]. split_and!; [by apply fields_int | unfold vint, vlen; by rewrite Hl |].
    apply wf_bytes_app. split; [by eapply varint_bytes | done].
  - split_and!; [by apply fields_bytes | done | by apply wf_bytes_app].
Qed.

(** The frames that are sent. *)
Definition sent (f : frame) : bool :=
  match f with
  | PADDING | ACK _ _ _ _ _ _ (Some _) | DATA_BLOCKED _ | STREAM_DATA_BLOCKED _ _ | STREAMS_BLOCKED _ _ => false
  | _ => true
  end.

Lemma stream_type_of off len fin : stream_type off len fin = 0x08 + 4 * Z.b2z off + 2 * Z.b2z len + Z.b2z fin.
Proof. by destruct off, len, fin. Qed.

Lemma all_len_app f1 f2 : all_len (f1 ++ f2) = all_len f1 + all_len f2.
Proof. unfold all_len. induction f1 as [|x f1 IH]; cbn; [done |]. rewrite IH. lia. Qed.

Lemma all_len_cons x fs : all_len (x :: fs) = written_len x + all_len fs.
Proof. done. Qed.

Lemma all_len_nil : all_len [] = 0.
Proof. done. Qed.

#[local] Opaque vlen vint all_len.

Lemma halves_eq p len len' out out' : len = len' -> out = out' -> halves p len out = halves p len' out'.
Proof. by intros -> ->. Qed.

Lemma create_written p f : sent f = true -> frame_ok f ->
  ngx_quic_create_frame p f =
    Some (halves p (vlen (type_of f) + all_len (layout f)) (vint (type_of f) ++ all_written (layout f))).
Proof.
  intros Hs Hok. unfold all_written. destruct f; try discriminate Hs; cbn [frame_ok] in Hok;
    try (destruct ecn as [|]; [discriminate Hs |]);
    cbn [ngx_quic_create_frame layout type_of]; f_equal.
  all: repeat match type of Hok with _ /\ _ => destruct Hok as [? Hok] end.
  all: cbv delta [ngx_quic_create_ping ngx_quic_create_ack ngx_quic_create_reset_stream ngx_quic_create_stop_sending
    ngx_quic_create_crypto ngx_quic_create_hs_done ngx_quic_create_new_token ngx_quic_create_stream ngx_quic_create_max_streams
    ngx_quic_create_max_stream_data ngx_quic_create_max_data ngx_quic_create_path_challenge ngx_quic_create_path_response
    ngx_quic_create_new_connection_id ngx_quic_create_retire_connection_id ngx_quic_create_close] beta zeta;
    rewrite ?stream_type_of.
  all: try change (_ =? NGX_QUIC_FT_CONNECTION_CLOSE_APP) with false; try change (_ =? NGX_QUIC_FT_CONNECTION_CLOSE_APP) with true.
  all: apply halves_eq; repeat match goal with x : bool |- _ => destruct x end; try (cbn; by rewrite ?app_nil_r).
  all: cbn [app negb]; rewrite ?all_len_cons, ?all_len_nil; cbn [written_len Datatypes.length];
    cbv delta [NGX_QUIC_FT_PING NGX_QUIC_FT_ACK NGX_QUIC_FT_RESET_STREAM NGX_QUIC_FT_STOP_SENDING
      NGX_QUIC_FT_CRYPTO NGX_QUIC_FT_NEW_TOKEN NGX_QUIC_FT_HANDSHAKE_DONE NGX_QUIC_FT_MAX_DATA NGX_QUIC_FT_MAX_STREAM_DATA
      max_streams_type NGX_QUIC_FT_MAX_STREAMS NGX_QUIC_FT_MAX_STREAMS2 NGX_QUIC_FT_NEW_CONNECTION_ID NGX_QUIC_SR_TOKEN_LEN
      NGX_QUIC_FT_RETIRE_CONNECTION_ID NGX_QUIC_FT_PATH_CHALLENGE NGX_QUIC_FT_PATH_RESPONSE NGX_QUIC_FT_CONNECTION_CLOSE
      NGX_QUIC_FT_CONNECTION_CLOSE_APP] beta iota; lia.
Qed.

#[local] Transparent vlen vint all_len.

Lemma type_range f : 0 <= type_of f < 64.
Proof. destruct f; cbn; repeat case_match; repeat match goal with x : bool |- _ => destruct x end; cbn; lia. Qed.

(** The values that can be written. *)
Definition values_ok (f : frame) : Prop := Forall in_range (layout f).

Lemma frame_created f : sent f = true -> frame_ok f -> values_ok f ->
  exists bs, ngx_quic_create_frame true f = Some (Z.of_nat (length bs), bs) /\
    ngx_quic_create_frame false f = Some (Z.of_nat (length bs), []) /\ frame_bytes f bs /\ wf_bytes bs.
Proof.
  intros Hs Hok Hv. rewrite !create_written by done. destruct (written_fields _ Hv) as (H1 & H2 & H3).
  pose proof (type_range f). destruct (build_int_varint (type_of f) ltac:(lia)) as [H4 H5]. eexists. split_and!; [done | | |].
  - unfold halves. rewrite length_app, Nat2Z.inj_add, H2. unfold vint, vlen. by rewrite H5.
  - exists (vint (type_of f)), (all_written (layout f)), O. cbn. rewrite app_nil_r. by split_and!; auto.
  - apply wf_bytes_app. split; [by eapply varint_bytes | done].
Qed.

(** ** Theorems *)

(** C30. A frame is read from a packet exactly when it is there, as section 19 of
    RFC 9000 lays it out, in a packet of a kind that may hold it, and what is left is
    what follows it; anything else is FRAME_ENCODING_ERROR, or PROTOCOL_VIOLATION when
    its type may not be in the packet.  The reading ends, however many ranges an
    acknowledgement announces. *)
Theorem frame_parsed flags l : is_byte flags -> wf_bytes l ->
  exists r, ngx_quic_parse_frame flags l = Some r /\
    (forall f rest, r = Frame f rest <-> frame_at_start flags l f rest) /\ (forall e, r = Refused e -> refused_for flags l e).
Proof. apply parse_frame_spec. Qed.

(** C31. What is written for a frame takes exactly the length that was computed for it
    before, is the frame as RFC 9000 lays it out, and a receiver whose packet may hold
    it reads the frame back, whatever comes after it. *)
Theorem frame_roundtrip f : sent f = true -> frame_ok f -> values_ok f ->
  exists bs, ngx_quic_create_frame true f = Some (Z.of_nat (length bs), bs) /\
    ngx_quic_create_frame false f = Some (Z.of_nat (length bs), []) /\
    frame_bytes f bs /\
    forall flags rest, is_byte flags -> wf_bytes rest -> may_be_in (type_of f) (packet_of flags) = true ->
      frame_end f rest -> ngx_quic_parse_frame flags (bs ++ rest) = Some (Frame f rest).
Proof.
  intros Hs Hok Hv. destruct (frame_created f Hs Hok Hv) as (bs & E1 & E2 & E3 & E4). exists bs. split_and!; [done | done | done |].
  intros flags rest Hf Hr Hm He. assert (Hw : wf_bytes (bs ++ rest)) by (by apply wf_bytes_app).
  destruct (parse_frame_spec flags _ Hf Hw) as (r & -> & Hi & _). f_equal. apply Hi. by exists bs.
Qed.

(** ** Witnesses *)

(** Three bytes at the offset 100 of the stream 4, and a PING after them. *)
Definition sample_stream : frame := STREAM 100 3 4 true true false [97; 98; 99].

Lemma frame_parsed_witness :
  ngx_quic_parse_frame 0x40 [0x0e; 4; 0x40; 100; 3; 97; 98; 99; 1] = Some (Frame sample_stream [1]) /\
  ngx_quic_parse_frame 0xC0 [0x0e; 4; 0x40; 100; 3; 97; 98; 99; 1] = Some (Refused (Some NGX_QUIC_ERR_PROTOCOL_VIOLATION)) /\
  exists r, ngx_quic_parse_frame 0x40 [0x0e; 4; 0x40; 100; 3; 97; 98; 99; 1] = Some r /\
    (forall f rest, r = Frame f rest <-> frame_at_start 0x40 [0x0e; 4; 0x40; 100; 3; 97; 98; 99; 1] f rest) /\
    (forall e, r = Refused e -> refused_for 0x40 [0x0e; 4; 0x40; 100; 3; 97; 98; 99; 1] e).
Proof.
  split; [reflexivity |]. split; [reflexivity |].
  apply (frame_parsed 0x40 [0x0e; 4; 0x40; 100; 3; 97; 98; 99; 1]); [split; lia |].
  repeat constructor; easy.
Defined.

Lemma frame_roundtrip_witness :
  ngx_quic_create_frame true sample_stream = Some (8, [0x0e; 4; 0x40; 100; 3; 97; 98; 99]) /\
  exists bs, ngx_quic_create_frame true sample_stream = Some (Z.of_nat (length bs), bs) /\
    ngx_quic_create_frame false sample_stream = Some (Z.of_nat (length bs), []) /\
    frame_bytes sample_stream bs /\
    forall flags rest, is_byte flags -> wf_bytes rest -> may_be_in (type_of sample_stream) (packet_of flags) = true ->
      frame_end sample_stream rest -> ngx_quic_parse_frame flags (bs ++ rest) = Some (Frame sample_stream rest).
Proof.
  split; [reflexivity |]. apply (frame_roundtrip sample_stream).
  - reflexivity.
  - split; [reflexivity | discriminate].
  - repeat (constructor; [cbn; try lia; repeat constructor; easy |]). constructor.
Defined.

End QuicFrame.
