(* ===== verification/QuicAck.v ===== *)
(** * QuicAck: acknowledgements of QUIC (src/event/quic/ngx_event_quic_ack.c)

    The numbers of the packets that were received, as ranges, the ACK frames made of
    them (src/event/quic/ngx_event_quic_output.c), and what an endpoint does with the
    ACK frame of its peer.  The ranges are numbered from the highest one down; the
    array of the source is the list of those in use.  Packet numbers have 62 bits, so
    that the differences that are taken do not wrap. *)

From S2P Require Import Prelude QuicFrame.
From stdpp Require Import base option list gmap sets.

#[local] Open Scope Z_scope.

Module QuicAck.

(** ** Definitions: what was received *)

Definition NGX_QUIC_MAX_RANGES : nat := 10.
Definition NGX_QUIC_MAX_ACK_GAP : Z := 2.

(** [ngx_quic_frame_t]: the frame, its length, the number and the time of the packet
    that carries it, the length of the packet on its first frame, and the flags
    [pkt_need_ack], [ignore_congestion] and [ignore_loss]. *)
Record qframe : Set := QF {
  content : QuicFrame.frame; flen : Z; pnum : Z; send_time : Z; plen : Z;
  pkt_need_ack : bool; ignore_congestion : bool; ignore_loss : bool }.

(** A frame as [ngx_quic_alloc_frame] leaves it, with its type, its fields and the
    length that [ngx_quic_create_frame] computes. *)
Definition new_frame (f : QuicFrame.frame) : qframe :=
  QF f (default (-1) (fst <$> QuicFrame.ngx_quic_create_frame false f)) 0 0 0 false false false.

(** [ngx_quic_send_ctx_t]: the range at the top, the gaps and ranges below it, what is
    to be acknowledged and since when, the next number to send and the largest one
    that was acknowledged, the frames to send, those of the datagram that is made, and
    those that wait for an acknowledgement.  [NGX_QUIC_UNSET_PN] is [None]. *)
Record send_ctx : Set := Ctx {
  largest_range : option Z; first_range : Z; ranges : list (Z * Z);
  largest_received : Z; pending_ack : option Z; send_ack : Z; ack_delay_start : Z;
  next_pnum : Z; largest_ack : option Z; frames : list qframe; sending : list qframe; sent : list qframe }.

Definition set_range (l : option Z) (first : Z) (rs : list (Z * Z)) (c : send_ctx) : send_ctx :=
  Ctx l first rs (largest_received c) (pending_ack c) (send_ack c) (ack_delay_start c) (next_pnum c) (largest_ack c) (frames c) (sending c) (sent c).
Definition set_received (t : Z) (c : send_ctx) : send_ctx :=
  Ctx (largest_range c) (first_range c) (ranges c) t (pending_ack c) (send_ack c) (ack_delay_start c) (next_pnum c) (largest_ack c) (frames c) (sending c) (sent c).
Definition set_pending (x : option Z) (c : send_ctx) : send_ctx :=
  Ctx (largest_range c) (first_range c) (ranges c) (largest_received c) x (send_ack c) (ack_delay_start c) (next_pnum c) (largest_ack c) (frames c) (sending c) (sent c).
Definition set_send_ack (n : Z) (c : send_ctx) : send_ctx :=
  Ctx (largest_range c) (first_range c) (ranges c) (largest_received c) (pending_ack c) n (ack_delay_start c) (next_pnum c) (largest_ack c) (frames c) (sending c) (sent c).
Definition set_delay_start (t : Z) (c : send_ctx) : send_ctx :=
  Ctx (largest_range c) (first_range c) (ranges c) (largest_received c) (pending_ack c) (send_ack c) t (next_pnum c) (largest_ack c) (frames c) (sending c) (sent c).
Definition set_next (n : Z) (c : send_ctx) : send_ctx :=
  Ctx (largest_range c) (first_range c) (ranges c) (largest_received c) (pending_ack c) (send_ack c) (ack_delay_start c) n (largest_ack c) (frames c) (sending c) (sent c).
Definition set_largest_ack (x : option Z) (c : send_ctx) : send_ctx :=
  Ctx (largest_range c) (first_range c) (ranges c) (largest_received c) (pending_ack c) (send_ack c) (ack_delay_start c) (next_pnum c) x (frames c) (sending c) (sent c).
Definition set_frames (l : list qframe) (c : send_ctx) : send_ctx :=
  Ctx (largest_range c) (first_range c) (ranges c) (largest_received c) (pending_ack c) (send_ack c) (ack_delay_start c) (next_pnum c) (largest_ack c) l (sending c) (sent c).
Definition set_sending (l : list qframe) (c : send_ctx) : send_ctx :=
  Ctx (largest_range c) (first_range c) (ranges c) (largest_received c) (pending_ack c) (send_ack c) (ack_delay_start c) (next_pnum c) (largest_ack c) (frames c) l (sent c).
Definition set_sent (l : list qframe) (c : send_ctx) : send_ctx :=
  Ctx (largest_range c) (first_range c) (ranges c) (largest_received c) (pending_ack c) (send_ack c) (ack_delay_start c) (next_pnum c) (largest_ack c) (frames c) (sending c) l.

Definition ctx_init : send_ctx := Ctx None 0 [] 0 None 0 0 0 None [] [] [].

(** What a call finds around it: whether the allocator gives memory,
    [ngx_current_msec] and [ack_delay_exponent]. *)
Record env : Set := Env { grant : bool; now : Z; exponent : Z }.

(** The bytes of the ranges, and the length that is computed for them. *)
Definition range_bytes (rs : list (Z * Z)) : list Z :=
  concat (map (fun r => (QuicFrame.ngx_quic_create_ack_range true r.1 r.2).2) rs).
Definition ranges_length (rs : list (Z * Z)) : Z :=
  foldr (fun r n => (QuicFrame.ngx_quic_create_ack_range false r.1 r.2).1 + n) 0 rs.

Definition ack_delay (e : env) (c : send_ctx) : Z :=
  Z.shiftr (u64 (u64 (now e - largest_received c) * 1000)) (exponent e).

Definition UNSET_PN : Z := 2 ^ 64 - 1.

Definition ngx_quic_send_ack (e : env) (c : send_ctx) : bool * send_ctx :=
  if negb (grant e) then (false, c)
  else
    let f := QuicFrame.ACK (default UNSET_PN (largest_range c)) (ack_delay e c) (Z.of_nat (length (ranges c)))
      (first_range c) (ranges_length (ranges c)) (range_bytes (ranges c)) None in
    (true, set_frames (new_frame f :: frames c) c).

Definition ngx_quic_send_ack_range (e : env) (smallest largest : Z) (c : send_ctx) : bool * send_ctx :=
  if negb (grant e) then (false, c)
  else (true, set_frames (frames c ++ [new_frame (QuicFrame.ACK largest 0 0 (largest - smallest) 0 [] None)]) c).

(** A packet that wants an acknowledgement. *)
Definition note_pending (e : env) (pn : Z) (c : send_ctx) : send_ctx :=
  let c := if send_ack c =? 0 then set_delay_start (now e) c else c in
  let c := set_send_ack (send_ack c + 1) c in
  match pending_ack c with
  | Some x => if x <? pn then set_pending (Some pn) c else c
  | None => set_pending (Some pn) c
  end.

(** There is no place for a new range: the ranges are sent as they are. *)
Definition make_room (e : env) (prev : option Z) (need_ack : bool) (c : send_ctx) : bool * send_ctx :=
  if (length (ranges c) =? NGX_QUIC_MAX_RANGES)%nat then
    let '(ok, c) := match prev with Some _ => ngx_quic_send_ack e c | None => (true, c) end in
    if negb ok then (false, c)
    else (true, if bool_decide (prev = pending_ack c) || negb need_ack then set_pending None c else c)
  else (true, c).

(** [goto insert] *)
Definition insert_range (i : nat) (gap range : Z) (rs : list (Z * Z)) : list (Z * Z) :=
  take NGX_QUIC_MAX_RANGES (take i rs ++ (gap, range) :: drop i rs).

(** Where the number [pn] lies below the range that ends at [smallest]: in a gap,
    [i], of one number, at an end of one, inside one, in a range, just below the last
    range, or below it. *)
Inductive place : Set :=
  | Filled (i : nat) (range : Z)
  | AtEnd (i : nat)
  | AtStart (i : nat)
  | Inside (i : nat) (gs ge : Z)
  | Known
  | Next (i : nat)
  | Below (smallest : Z).

Fixpoint find_place (pn smallest : Z) (i : nat) (rs : list (Z * Z)) : place :=
  match rs with
  | [] => if pn =? smallest - 1 then Next i else Below smallest
  | (gap, range) :: rs =>
      let ge := smallest - 1 in
      let gs := ge - gap in
      if (gs <=? pn) && (pn <=? ge) then
        if gs =? ge then Filled i range
        else if pn =? gs then AtEnd i
        else if pn =? ge then AtStart i
        else Inside i gs ge
      else
        let largest := smallest - gap - 2 in
        let smallest := largest - range in
        if (smallest <=? pn) && (pn <=? largest) then Known
        else find_place pn smallest (S i) rs
  end.

(** The range before the gap [i] grows by [d]. *)
Definition grow (i : nat) (d : Z) (first : Z) (rs : list (Z * Z)) : Z * list (Z * Z) :=
  match i with
  | O => (first + d, rs)
  | S i => (first, alter (fun r => (r.1, r.2 + d)) i rs)
  end.

Definition change_ranges (f : Z -> list (Z * Z) -> Z * list (Z * Z)) (c : send_ctx) : send_ctx :=
  let '(first, rs) := f (first_range c) (ranges c) in set_range (largest_range c) first rs c.

(** The lookup in the ranges, and what is done there. *)
Definition ack_lower (e : env) (prev : option Z) (pn smallest : Z) (need_ack : bool) (c : send_ctx) : bool * send_ctx :=
  match find_place pn smallest 0 (ranges c) with
  | Filled i range =>
      (true, change_ranges (fun first rs => let '(first, rs) := grow i (range + 2) first rs in (first, delete i rs)) c)
  | AtEnd i => (true, change_ranges (fun first rs => (first, alter (fun r => (r.1 - 1, r.2 + 1)) i rs)) c)
  | AtStart i =>
      (true, change_ranges (fun first rs => grow i 1 first (alter (fun r => (r.1 - 1, r.2)) i rs)) c)
  | Inside i gs ge =>
      let '(ok, c) := make_room e prev need_ack c in
      if negb ok then (false, c)
      else
        (true, change_ranges (fun first rs =>
           (first, insert_range i (ge - pn - 1) 0 (alter (fun r => (pn - gs - 1, r.2)) i rs))) c)
  | Known => (true, c)
  | Next i => (true, change_ranges (grow i 1) c)
  | Below smallest =>
      if (length (ranges c) =? NGX_QUIC_MAX_RANGES)%nat then
        if need_ack then ngx_quic_send_ack_range e pn pn c else (true, c)
      else
        (true, change_ranges (fun first rs => (first, insert_range (length rs) (smallest - 2 - pn) 0 rs)) c)
  end.

Definition ngx_quic_ack_packet (e : env) (keys : bool) (pn received : Z) (need_ack : bool) (c : send_ctx) : bool * send_ctx :=
  if negb keys then (true, c)
  else
    let prev := pending_ack c in
    let c := if need_ack then note_pending e pn c else c in
    match largest_range c with
    | None => (true, set_received received (set_range (Some pn) (first_range c) (ranges c) c))
    | Some base =>
        if base =? pn then (true, c)
        else if base <? pn then
          if pn - base =? 1 then
            (true, set_received received (set_range (Some pn) (first_range c + 1) (ranges c) c))
          else
            let '(ok, c) := make_room e prev need_ack c in
            if negb ok then (false, c)
            else
              let rs := insert_range 0 (pn - base - 2) (first_range c) (ranges c) in
              let c := set_received received (set_range (Some pn) 0 rs c) in
              (true, if need_ack then set_send_ack NGX_QUIC_MAX_ACK_GAP c else c)
        else
          let c := if need_ack then set_send_ack NGX_QUIC_MAX_ACK_GAP c else c in
          let smallest := base - first_range c in
          if (smallest <=? pn) && (pn <=? base) then (true, c)
          else ack_lower e prev pn smallest need_ack c
    end.

(** The ranges up to the number [pn], below the range that ends at [smallest]. *)
Fixpoint cut_ranges (pn smallest : Z) (rs : list (Z * Z)) : list (Z * Z) :=
  match rs with
  | [] => []
  | (gap, range) :: t =>
      let largest := smallest - gap - 2 in
      let smallest := largest - range in
      if largest <=? pn then []
      else if smallest <=? pn then [(gap, largest - pn - 1)]
      else (gap, range) :: cut_ranges pn smallest t
  end.

Definition ngx_quic_drop_ack_ranges (pn : Z) (c : send_ctx) : send_ctx :=
  match largest_range c with
  | None => c
  | Some largest =>
      let c := match pending_ack c with Some x => if x <=? pn then set_pending None c else c | None => c end in
      let smallest := largest - first_range c in
      if largest <=? pn then set_range None 0 [] c
      else if smallest <=? pn then set_range (Some largest) (largest - pn - 1) [] c
      else set_range (Some largest) (first_range c) (cut_ranges pn smallest (ranges c)) c
  end.

Section generating.

(** [level], the timer of [qc->push] and [qc->closing], [qc->tp.max_ack_delay] *)
Context (application timer_set closing : bool) (max_ack_delay : Z).

(** Whether acknowledgements can wait, and for how long [qc->push] is then set. *)
Definition ngx_quic_generate_ack (e : env) (c : send_ctx) : bool * option Z * send_ctx :=
  if send_ack c =? 0 then (true, None, c)
  else
    let delay := u64 (now e - ack_delay_start c) in
    if application && bool_decide (frames c = []) && (send_ack c <? NGX_QUIC_MAX_ACK_GAP) && (delay <? max_ack_delay) then
      (true, if negb timer_set && negb closing then Some (max_ack_delay - delay) else None, c)
    else
      let '(ok, c) := ngx_quic_send_ack e c in
      if negb ok then (false, None, c) else (true, None, set_send_ack 0 c).

End generating.

(** A packet is received, an acknowledgement may be sent, the peer has acknowledged an
    acknowledgement: the history of the numbers that were received.  It ends with the
    connection. *)
Inductive event : Set :=
  | Received (e : env) (keys : bool) (pn received : Z) (need_ack : bool)
  | Generate (e : env) (application timer_set closing : bool) (max_ack_delay : Z)
  | Acknowledged (pn : Z).

Definition event_step (ev : event) (c : send_ctx) : bool * send_ctx :=
  match ev with
  | Received e keys pn received need_ack => ngx_quic_ack_packet e keys pn received need_ack c
  | Generate e a t cl d => let '(ok, _, c) := ngx_quic_generate_ack a t cl d e c in (ok, c)
  | Acknowledged pn => (true, ngx_quic_drop_ack_ranges pn c)
  end.

Fixpoint events (evs : list event) (c : send_ctx) : bool * send_ctx :=
  match evs with
  | [] => (true, c)
  | ev :: evs => let '(ok, c) := event_step ev c in if ok then events evs c else (false, c)
  end.

(** ** Specification: sets of packet numbers *)

(** The highest numbers of the runs of [A], and the [n] highest runs. *)
Definition tops (A : gset Z) : gset Z := filter (fun t : Z => t + 1 ∉ A) A.

Definition keep (n : nat) (A : gset Z) : gset Z :=
  filter (fun x : Z => (size (filter (fun t : Z => (x <= t)%Z) (tops A)) <= n)%nat) A.

(** The numbers that are to be acknowledged: those that were received, but only the
    eleven highest runs, without those that the peer knows to be acknowledged. *)
Definition spec_step (ev : event) (A : gset Z) : gset Z :=
  match ev with
  | Received e keys pn _ _ => if keys then keep (S NGX_QUIC_MAX_RANGES) ({[pn]} ∪ A) else A
  | Generate _ _ _ _ _ => A
  | Acknowledged pn => filter (fun x : Z => pn < x) A
  end.

Definition spec_events (evs : list event) : gset Z := fold_left (fun A ev => spec_step ev A) evs ∅.

Definition event_ok (ev : event) : Prop :=
  match ev with Received _ _ pn _ _ => 0 <= pn < 2 ^ 62 | _ => True end.

(** The allocator gave no memory. *)
Definition denied (ev : event) : Prop :=
  match ev with Received e _ _ _ _ | Generate e _ _ _ _ => grant e = false | Acknowledged _ => False end.

(** The intervals of numbers, from the highest one down. *)
Fixpoint ivs_of (smallest : Z) (rs : list (Z * Z)) : list (Z * Z) :=
  match rs with
  | [] => []
  | (gap, range) :: rs =>
      let largest := smallest - gap - 2 in (largest - range, largest) :: ivs_of (largest - range) rs
  end.

Definition intervals (c : send_ctx) : list (Z * Z) :=
  match largest_range c with
  | Some l => (l - first_range c, l) :: ivs_of (l - first_range c) (ranges c)
  | None => []
  end.

Fixpoint in_ivs (l : list (Z * Z)) (x : Z) : Prop :=
  match l with [] => False | iv :: l => iv.1 <= x <= iv.2 \/ in_ivs l x end.

(** The intervals are apart and below [s]. *)
Fixpoint ok_below (s : Z) (l : list (Z * Z)) : Prop :=
  match l with [] => True | (lo, hi) :: l => 0 <= lo <= hi /\ hi <= s - 2 /\ ok_below lo l end.

(** The ranges of a context are in order. *)
Definition ctx_ok (c : send_ctx) : Prop :=
  match largest_range c with
  | Some l => l < 2 ^ 62 /\ ok_below (l + 2) (intervals c) /\ (length (ranges c) <= NGX_QUIC_MAX_RANGES)%nat
  | None => first_range c = 0 /\ ranges c = []
  end.

(** ** Lemmas: intervals *)

Lemma in_ivs_below s l x : ok_below s l -> in_ivs l x -> 0 <= x <= s - 2.
Proof. revert s. induction l as [|[lo hi] l IH]; intros s; cbn; [done |]. intros (? & ? & Hl) [? | Hx]; [lia |]. specialize (IH lo Hl Hx). lia. Qed.

Lemma ok_below_weaken s s' l : s <= s' -> ok_below s l -> ok_below s' l.
Proof. destruct l as [|[lo hi] l]; cbn; [done |]. intros ? (? & ? & ?). split_and!; [lia | lia | lia | done]. Qed.

Lemma ok_below_take n s l : ok_below s l -> ok_below s (take n l).
Proof. revert s n. induction l as [|[lo hi] l IH]; intros s [|n]; cbn; try done. intros (? & ? & ?). split_and!; auto; lia. Qed.

(** The numbers of the tops at or above [x]. *)
Fixpoint count_tops (x : Z) (l : list (Z * Z)) : nat :=
  match l with [] => O | (_, hi) :: l => ((if (x <=? hi)%Z then 1 else 0) + count_tops x l)%nat end.

Lemma count_below s l x : ok_below s l -> s - 2 < x -> count_tops x l = O.
Proof.
  revert s. induction l as [|[lo hi] l IH]; intros s; cbn; [done |]. intros (? & ? & Hl) ?.
  destruct (Z.leb_spec x hi); [lia |]. apply (IH lo Hl). lia.
Qed.

Lemma in_take n s l x : ok_below s l -> in_ivs (take n l) x <-> in_ivs l x /\ (count_tops x l <= n)%nat.
Proof.
  revert s n. induction l as [|[lo hi] l IH]; intros s n Hok; [destruct n; cbn; tauto |]. cbn in Hok. destruct Hok as (H1 & H2 & Hl).
  destruct n as [|n]; cbn [take in_ivs count_tops fst snd].
  - split; [done |]. intros [[Hx | Hx] Hc]; [destruct (Z.leb_spec x hi); lia |].
    pose proof (in_ivs_below _ _ _ Hl Hx). destruct (Z.leb_spec x hi); lia.
  - rewrite (IH lo) by done. split.
    + intros [Hx | [Hx Hc]].
      * split; [by left |]. rewrite (count_below lo) by (done || lia). destruct (x <=? hi); lia.
      * split; [by right |]. destruct (x <=? hi); lia.
    + intros [[Hx | Hx] Hc]; [by left | right]. split; [done |]. pose proof (in_ivs_below _ _ _ Hl Hx).
      destruct (Z.leb_spec x hi); lia.
Qed.

(** The intervals describe the set [A]. *)
Definition describes (l : list (Z * Z)) (A : gset Z) : Prop := forall x, x ∈ A <-> in_ivs l x.

Lemma tops_in s l t : ok_below s l -> (in_ivs l t /\ ~ in_ivs l (t + 1)) <-> t ∈ map snd l.
Proof.
  revert s. induction l as [|[lo hi] l IH]; intros s; cbn.
  { intros _. split; [by intros [? _] | by intros ?%not_elem_of_nil]. }
  intros (H1 & H2 & Hl). rewrite elem_of_cons, <- (IH lo Hl). split.
  - intros [[Ht | Ht] Hn]; [left; destruct (decide (t = hi)); [done | exfalso; apply Hn; left; lia] |]. right. tauto.
  - intros [-> | [Ht Hn]].
    + split; [left; lia |]. intros [? | Hx]; [lia |]. pose proof (in_ivs_below _ _ _ Hl Hx). lia.
    + split; [by right |]. pose proof (in_ivs_below _ _ _ Hl Ht). intros [? | ?]; [lia | done].
Qed.

Lemma tops_nodup s l : ok_below s l -> NoDup (map snd l).
Proof.
  revert s. induction l as [|[lo hi] l IH]; intros s; cbn; [constructor |]. intros (? & ? & Hl). constructor; [| by eapply IH].
  rewrite <- (tops_in lo) by done. intros [Hx _]. pose proof (in_ivs_below _ _ _ Hl Hx). lia.
Qed.

Lemma count_length x l : count_tops x l = length (filter (fun t : Z => x <= t) (map snd l)).
Proof.
  induction l as [|[lo hi] l IH]; [done |]. cbn [count_tops map snd]. rewrite filter_cons, IH.
  destruct (Z.leb_spec x hi); destruct (decide (x <= hi)); cbn; lia.
Qed.

(** The first intervals are the highest runs. *)
Lemma describes_keep n s l A : ok_below s l -> describes l A -> describes (take n l) (keep n A).
Proof.
  intros Hok HA x. rewrite (in_take n s) by done. unfold keep. rewrite elem_of_filter, (HA x).
  enough (size (filter (fun t : Z => x <= t) (tops A)) = count_tops x l) as -> by tauto.
  rewrite count_length. assert (Hn : NoDup (filter (fun t : Z => x <= t) (map snd l))) by (by eapply NoDup_filter, tops_nodup).
  rewrite <- (size_list_to_set (C := gset Z)) by done. f_equal. apply set_eq. intros t.
  rewrite elem_of_list_to_set, elem_of_filter, list_elem_of_filter, <- (tops_in s) by done.
  unfold tops. rewrite elem_of_filter, (HA t), (HA (t + 1)). tauto.
Qed.


(** ** Lemmas: a number below the first range *)

(** By how much the range before grows, and the ranges after the number is noted. *)
Fixpoint add_lower (pn smallest : Z) (rs : list (Z * Z)) : Z * list (Z * Z) :=
  match rs with
  | [] => if pn =? smallest - 1 then (1, []) else (0, [(smallest - 2 - pn, 0)])
  | (gap, range) :: t =>
      let ge := smallest - 1 in
      let gs := ge - gap in
      if (gs <=? pn) && (pn <=? ge) then
        if gs =? ge then (range + 2, t)
        else if pn =? gs then (0, (gap - 1, range + 1) :: t)
        else if pn =? ge then (1, (gap - 1, range) :: t)
        else (0, (ge - pn - 1, 0) :: (pn - gs - 1, range) :: t)
      else
        let largest := smallest - gap - 2 in
        if (largest - range <=? pn) && (pn <=? largest) then (0, rs)
        else let '(d, t') := add_lower pn (largest - range) t in (0, (gap, range + d) :: t')
  end.

(** What is done at a place, when there is room. *)
Definition at_place (p : place) (pn first : Z) (rs : list (Z * Z)) : Z * list (Z * Z) :=
  match p with
  | Filled i range => let '(first, rs) := grow i (range + 2) first rs in (first, delete i rs)
  | AtEnd i => (first, alter (fun r => (r.1 - 1, r.2 + 1)) i rs)
  | AtStart i => grow i 1 first (alter (fun r => (r.1 - 1, r.2)) i rs)
  | Inside i gs ge =>
      let rs := alter (fun r => (pn - gs - 1, r.2)) i rs in (first, take i rs ++ (ge - pn - 1, 0) :: drop i rs)
  | Known => (first, rs)
  | Next i => grow i 1 first rs
  | Below smallest => (first, rs ++ [(smallest - 2 - pn, 0)])
  end.

Definition next_place (p : place) : place :=
  match p with
  | Filled i range => Filled (S i) range
  | AtEnd i => AtEnd (S i)
  | AtStart i => AtStart (S i)
  | Inside i gs ge => Inside (S i) gs ge
  | Next i => Next (S i)
  | p => p
  end.

Lemma find_place_S pn s i rs : find_place pn s (S i) rs = next_place (find_place pn s i rs).
Proof.
  revert s i. induction rs as [|[gap range] rs IH]; intros s i; cbn [find_place]; [by case_if |].
  cbv zeta. repeat (case_if; [by repeat case_if |]). apply IH.
Qed.

(** One range further down. *)
Lemma at_place_S p pn first r rs :
  at_place (next_place p) pn first (r :: rs) = let '(g, rs) := at_place p pn r.2 rs in (first, (r.1, g) :: rs).
Proof.
  destruct r as [gap range]; destruct p as [[|i] g|i|[|i]|i gs ge| |[|i]|s]; cbn; try reflexivity; try by destruct rs.
Qed.

Lemma find_place_adds pn s first rs :
  at_place (find_place pn s 0 rs) pn first rs = let '(d, rs') := add_lower pn s rs in (first + d, rs').
Proof.
  revert s first. induction rs as [|[gap range] rs IH]; intros s first; cbn [find_place add_lower].
  { destruct (pn =? s - 1); cbn; f_equal; lia. }
  cbv zeta. destruct ((_ <=? pn) && (pn <=? s - 1)).
  { case_if; [reflexivity |]. case_if; [cbn; f_equal; lia |]. case_if; [reflexivity |]. cbn. f_equal. lia. }
  case_if; [cbn; f_equal; lia |]. rewrite find_place_S, at_place_S, IH. cbn [fst snd].
  destruct (add_lower _ _ rs) as [d rs']. f_equal. lia.
Qed.

(** The range above has grown down to [a]. *)
Lemma grown a b c x (P Q R : Prop) :
  (a <= x < b \/ P <-> Q \/ R) -> a <= b <= c -> a <= x <= c \/ P <-> Q \/ b <= x <= c \/ R.
Proof. intros H Hb. assert (a <= x <= c <-> a <= x < b \/ b <= x <= c) by lia. tauto. Qed.

(** Exactly the number is added. *)
Lemma add_lower_spec pn lo rs d rs' :
  ok_below lo (ivs_of lo rs) -> 0 <= pn < lo -> add_lower pn lo rs = (d, rs') ->
  0 <= d <= lo /\ ok_below (lo - d) (ivs_of (lo - d) rs') /\
  (forall x, (lo - d <= x < lo \/ in_ivs (ivs_of (lo - d) rs') x) <-> (x = pn \/ in_ivs (ivs_of lo rs) x)).
Proof.
  revert lo d rs'. induction rs as [|[gap range] rs IH]; intros lo d rs'.
  { cbn [add_lower]. case_if; intros _ ? [= <- <-]; cbn; split_and!; try lia; intros x; lia. }
  cbn [ivs_of add_lower]. cbv zeta. cbn [ok_below]. intros (H1 & H2 & Hl) Hpn.
  destruct ((lo - 1 - gap <=? pn) && (pn <=? lo - 1)) eqn:Eg.
  - case_if; [|case_if; [|case_if]]; intros [= <- <-].
    + replace (lo - (range + 2)) with (lo - gap - 2 - range) by lia. split_and!; [lia | lia | done |].
      intros x. cbn [in_ivs fst snd]. intuition lia.
    + cbn. replace (lo - 0 - (gap - 1) - 2 - (range + 1)) with (lo - gap - 2 - range) by lia.
      split_and!; [lia | lia | lia | lia | lia | done |]. intros x. intuition lia.
    + cbn. replace (lo - 1 - (gap - 1) - 2) with (lo - gap - 2) by lia.
      split_and!; [lia | lia | lia | lia | lia | done |]. intros x. intuition lia.
    + cbn. replace (lo - 0 - (lo - 1 - pn - 1) - 2 - 0 - (pn - (lo - 1 - gap) - 1) - 2) with (lo - gap - 2) by lia.
      split_and!; try lia; [done |]. intros x. intuition lia.
  - case_if.
    + intros [= <- <-]. cbn. rewrite !Z.sub_0_r. split_and!; try lia; [done |]. intros x. intuition lia.
    + destruct (add_lower pn (lo - gap - 2 - range) rs) as [e t'] eqn:Ea. intros [= <- <-].
      destruct (IH _ _ _ Hl ltac:(lia) Ea) as (He & Ho & Hx). cbn.
      replace (lo - 0 - gap - 2 - (range + e)) with (lo - gap - 2 - range - e) by lia.
      split_and!; try lia; [done |]. intros x. specialize (Hx x).
      assert (~ lo - 0 <= x < lo) by lia. replace (lo - 0 - gap - 2) with (lo - gap - 2) by lia.
      rewrite <- (grown _ _ (lo - gap - 2) _ _ _ _ Hx) by lia. tauto.
Qed.

Lemma add_lower_length pn lo rs : (length (add_lower pn lo rs).2 <= S (length rs))%nat.
Proof.
  revert lo. induction rs as [|[gap range] rs IH]; intros lo; cbn [add_lower]; [case_if; cbn; lia |].
  cbv zeta. repeat case_if; cbn; try lia. specialize (IH (lo - gap - 2 - range)).
  destruct (add_lower pn _ rs) as [d t]. cbn in *. lia.
Qed.

(** ** Lemmas: a packet is noted *)

Definition same_ranges (c c' : send_ctx) : Prop :=
  largest_range c' = largest_range c /\ first_range c' = first_range c /\ ranges c' = ranges c.

Lemma same_ranges_trans c1 c2 c3 : same_ranges c1 c2 -> same_ranges c2 c3 -> same_ranges c1 c3.
Proof. intros (? & ? & ?) (? & ? & ?). repeat split; congruence. Qed.

Lemma note_pending_same e pn c : same_ranges c (note_pending e pn c).
Proof. unfold note_pending. destruct (send_ack c =? 0); cbn; destruct (pending_ack c) as [x|]; try (destruct (x <? pn)); done. Qed.

Lemma send_ack_same e c ok c' : ngx_quic_send_ack e c = (ok, c') -> same_ranges c c' /\ (ok = false -> grant e = false).
Proof. unfold ngx_quic_send_ack. destruct (grant e); cbn; intros [= <- <-]; done. Qed.

Lemma make_room_same e prev na c ok c' : make_room e prev na c = (ok, c') -> same_ranges c c' /\ (ok = false -> grant e = false).
Proof.
  unfold make_room. destruct (_ =? _)%nat; [|by intros [= <- <-]].
  destruct (match prev with Some _ => ngx_quic_send_ack e c | None => (true, c) end) as [ok1 c1] eqn:E1.
  assert (same_ranges c c1 /\ (ok1 = false -> grant e = false)) as [Hs Hg].
  { destruct prev; [by apply send_ack_same | by injection E1 as <- <-]. }
  destruct ok1; cbn; intros [= <- <-]; [|by split; [| auto]]. split; [|done]. by destruct (_ || _).
Qed.

Lemma grow_length i d first rs : length (grow i d first rs).2 = length rs.
Proof. destruct i; cbn; [done | apply length_alter]. Qed.

(** Only an insertion makes the ranges more. *)
Lemma at_place_length p pn first rs :
  match p with Inside _ _ _ | Below _ => True | _ => (length (at_place p pn first rs).2 <= length rs)%nat end.
Proof.
  destruct p as [i r|i|i| | |i|]; cbn [at_place]; rewrite ?grow_length; cbn [snd]; rewrite ?length_alter; try done.
  pose proof (grow_length i (r + 2) first rs). destruct (grow i (r + 2) first rs) as [f rs1]. cbn in *.
  rewrite delete_take_drop, length_app, length_take, length_drop. lia.
Qed.

Lemma change_ranges_set f c first rs :
  f (first_range c) (ranges c) = (first, rs) -> change_ranges f c = set_range (largest_range c) first rs c.
Proof. intros E. unfold change_ranges. by rewrite E. Qed.

Lemma ack_lower_adds e prev pn na c l d rs' ok c' :
  ctx_ok c -> largest_range c = Some l -> add_lower pn (l - first_range c) (ranges c) = (d, rs') ->
  ack_lower e prev pn (l - first_range c) na c = (ok, c') ->
  (ok = false -> grant e = false) /\
  (ok = true -> largest_range c' = Some l /\ first_range c' = first_range c + d /\ ranges c' = take NGX_QUIC_MAX_RANGES rs').
Proof.
  unfold ctx_ok. intros Hok Hl Ha. rewrite Hl in Hok. destruct Hok as (_ & _ & Hn).
  pose proof (find_place_adds pn (l - first_range c) (first_range c) (ranges c)) as Hp. rewrite Ha in Hp.
  pose proof (at_place_length (find_place pn (l - first_range c) 0 (ranges c)) pn (first_range c) (ranges c)) as Hle.
  unfold ack_lower. destruct (find_place pn _ 0 (ranges c)) as [i r|i|i|i gs ge| |i|s] eqn:Ef;
    cbv beta iota in Hle; rewrite ?Hp in Hle; cbn [snd] in Hle; cbn [at_place] in Hp.
  1-3, 6: intros [= <- <-]; split; [done |]; intros _; rewrite (change_ranges_set _ _ _ _ Hp); cbn [set_range largest_range first_range ranges]; split_and!; [done | done |];
    symmetry; apply take_ge; lia.
  - destruct (make_room e prev na c) as [ok1 c1] eqn:Em. apply make_room_same in Em as [(S1 & S2 & S3) Hg].
    destruct ok1; cbn [negb]; intros [= <- <-]; (split; [auto |]); [|done]. intros _.
    erewrite change_ranges_set by reflexivity. cbn [set_range largest_range first_range ranges]. rewrite S1, S2, S3. injection Hp as Hf <-. split_and!; [done | lia | done].
  - intros [= <- <-]. injection Hp as Hf <-. split; [done |]. intros _. split_and!; [done | lia |]. symmetry. apply take_ge. lia.
  - injection Hp as Hf <-. destruct (length (ranges c) =? NGX_QUIC_MAX_RANGES)%nat eqn:E10.
    + apply Nat.eqb_eq in E10. rewrite take_app_le by lia. rewrite take_ge by lia. destruct na; [|intros [= <- <-]; split; [done |]; intros _; split_and!; auto; lia].
      unfold ngx_quic_send_ack_range. destruct (grant e); cbn; intros [= <- <-]; (split; [done |]); [|done]. intros _. cbn. split_and!; auto; lia.
    + apply Nat.eqb_neq in E10. intros [= <- <-]. split; [done |]. intros _. erewrite change_ranges_set by reflexivity. cbn [largest_range set_range first_range ranges].
      split_and!; [done | lia |]. unfold insert_range. by rewrite firstn_all, drop_all.
Qed.

Lemma ivs_take s n rs : ivs_of s (take n rs) = take n (ivs_of s rs).
Proof. revert s n. induction rs as [|[g r] rs IH]; intros s [|n]; cbn; [done .. |]. by rewrite IH. Qed.

Lemma ivs_length s rs : length (ivs_of s rs) = length rs.
Proof. revert s. induction rs as [|[g r] rs IH]; intros s; cbn; [done |]. by rewrite IH. Qed.

(** The intervals are those of [c] and the number [pn], as many as there is place for. *)
Definition noted (pn : Z) (c c' : send_ctx) : Prop :=
  ctx_ok c' /\ exists s l, ok_below s l /\ (forall x, in_ivs l x <-> (x = pn \/ in_ivs (intervals c) x)) /\
    intervals c' = take (S NGX_QUIC_MAX_RANGES) l.

Lemma noted_intro pn c c' t first rs :
  largest_range c' = Some t -> first_range c' = first -> ranges c' = take NGX_QUIC_MAX_RANGES rs -> t < 2 ^ 62 ->
  ok_below (t + 2) ((t - first, t) :: ivs_of (t - first) rs) ->
  (forall x, in_ivs ((t - first, t) :: ivs_of (t - first) rs) x <-> (x = pn \/ in_ivs (intervals c) x)) ->
  noted pn c c'.
Proof.
  intros Hl Hf Hr Ht Hok Hx.
  assert (Ei : intervals c' = take (S NGX_QUIC_MAX_RANGES) ((t - first, t) :: ivs_of (t - first) rs)).
  { unfold intervals. rewrite Hl, Hf, Hr, ivs_take. reflexivity. }
  split; [|by exists (t + 2), ((t - first, t) :: ivs_of (t - first) rs)].
  unfold ctx_ok. rewrite Hl, Ei, Hr. split_and!; [done | by apply ok_below_take |]. rewrite length_take. lia.
Qed.

(** Nothing changes: the number is in a range. *)
Lemma noted_same pn c c' : same_ranges c c' -> ctx_ok c -> in_ivs (intervals c) pn -> noted pn c c'.
Proof.
  intros (S1 & S2 & S3) Hok Hin. assert (Ei : intervals c' = intervals c) by (unfold intervals; by rewrite S1, S2, S3).
  split; [unfold ctx_ok in *; rewrite S1, Ei, S3, S2; exact Hok |].
  unfold ctx_ok in Hok. destruct (largest_range c) as [l|] eqn:El; [|unfold intervals in Hin; by rewrite El in Hin].
  destruct Hok as (_ & Hok & Hn). exists (l + 2), (intervals c). rewrite Ei. split_and!; [done | intros x; split; [auto | by intros [-> | ?]] |].
  symmetry. apply take_ge. unfold intervals. rewrite El. cbn [length]. rewrite ivs_length. lia.
Qed.

Lemma ack_packet_none e keys pn received na c : keys = false -> ngx_quic_ack_packet e keys pn received na c = (true, c).
Proof. by intros ->. Qed.

Lemma ack_packet_adds e pn received na c ok c' :
  ctx_ok c -> 0 <= pn < 2 ^ 62 -> ngx_quic_ack_packet e true pn received na c = (ok, c') ->
  (ok = false -> grant e = false) /\ (ok = true -> noted pn c c').
Proof.
  intros Hok Hpn. unfold ngx_quic_ack_packet. cbn [negb]. set (c1 := if na then note_pending e pn c else c).
  assert (Hs : same_ranges c c1) by (unfold c1; destruct na; [apply note_pending_same | done]). clearbody c1.
  pose proof Hs as (S1 & S2 & S3). rewrite S1, S2, S3. unfold ctx_ok in Hok. destruct (largest_range c) as [base|] eqn:El.
  2: { destruct Hok as (Hf & Hr). intros [= <- <-]. split; [done |]. intros _.
    apply (noted_intro pn c _ pn 0 []); cbn; try congruence; try lia. intros x. unfold intervals. rewrite El. cbn. lia. }
  assert (Hi : intervals c = (base - first_range c, base) :: ivs_of (base - first_range c) (ranges c)) by (unfold intervals; by rewrite El).
  assert (Hc : ctx_ok c) by (unfold ctx_ok; by rewrite El). destruct Hok as (Hb & Hok & Hn). rewrite Hi in Hok.
  pose proof Hok as (Hlo & _ & Hl). cbn [fst snd] in Hlo, Hl.
  destruct (Z.eqb_spec base pn) as [-> | Hne].
  { intros [= <- <-]. split; [done |]. intros _. apply noted_same; [done | done |]. rewrite Hi. cbn. lia. }
  destruct (Z.ltb_spec base pn) as [Hlt | Hge].
  - destruct (Z.eqb_spec (pn - base) 1) as [E1 | E1].
    + intros [= <- <-]. split; [done |]. intros _. apply (noted_intro pn c _ pn (first_range c + 1) (ranges c)); cbn; try congruence; try lia.
      * symmetry. by apply take_ge.
      * replace (pn - (first_range c + 1)) with (base - first_range c) by lia. split_and!; [lia | lia | lia | done].
      * intros x. rewrite Hi. cbn. replace (pn - (first_range c + 1)) with (base - first_range c) by lia. intuition lia.
    + destruct (make_room e _ na c1) as [ok1 c2] eqn:Em. apply make_room_same in Em as [Hs2 Hg].
      pose proof (same_ranges_trans _ _ _ Hs Hs2) as (T1 & T2 & T3).
      destruct ok1; cbn [negb]; intros [= <- <-]; (split; [auto |]); [|done]. intros _.
      apply (noted_intro pn c _ pn 0 ((pn - base - 2, first_range c) :: ranges c)); try (destruct na; done); try lia.
      * rewrite <- T2, <- T3. by destruct na.
      * cbn. replace (pn - 0 - (pn - base - 2) - 2) with base by lia. split_and!; try lia. done.
      * intros x. rewrite Hi. cbn. replace (pn - 0 - (pn - base - 2) - 2) with base by lia. intuition lia.
  - set (c2 := if na then set_send_ack _ c1 else c1). assert (Hs2 : same_ranges c c2) by (unfold c2; destruct na; done).
    clearbody c2. pose proof Hs2 as (T1 & T2 & T3). rewrite T2. destruct ((base - first_range c <=? pn) && (pn <=? base)) eqn:Ek.
    + intros [= <- <-]. split; [done |]. intros _. apply noted_same; [done | done |]. rewrite Hi. cbn. lia.
    + destruct (add_lower pn (base - first_range c) (ranges c)) as [d rs'] eqn:Ea. intros Hk.
      assert (Hc2 : ctx_ok c2). { unfold ctx_ok, intervals. rewrite T1, T2, T3, El, <- Hi. rewrite <- Hi in Hok. done. }
      rewrite <- T2 in Hk. rewrite <- T2, <- T3 in Ea.
      destruct (ack_lower_adds _ _ _ _ _ _ _ _ _ _ Hc2 (eq_trans T1 El) Ea Hk) as [Hg Hr]. split; [done |]. intros E.
      destruct (Hr E) as (R1 & R2 & R3). rewrite T2, T3 in Ea.
      assert (Hp : 0 <= pn < base - first_range c) by lia. destruct (add_lower_spec _ _ _ _ _ Hl Hp Ea) as (Hd & Ho & Hx).
      apply (noted_intro pn c c' base (first_range c + d) rs'); [done | congruence | done | lia | |];
        replace (base - (first_range c + d)) with (base - first_range c - d) by lia.
      * cbn. split_and!; [lia | lia | lia | done].
      * intros x. rewrite Hi. cbn. apply (grown _ _ _ _ _ _ _ (Hx x)); lia.
Qed.

(** ** Lemmas: the numbers that are forgotten *)

Lemma cut_ranges_spec pn lo rs : ok_below lo (ivs_of lo rs) ->
  ok_below lo (ivs_of lo (cut_ranges pn lo rs)) /\ (length (cut_ranges pn lo rs) <= length rs)%nat /\
  (forall x, in_ivs (ivs_of lo (cut_ranges pn lo rs)) x <-> pn < x /\ in_ivs (ivs_of lo rs) x).
Proof.
  revert lo. induction rs as [|[gap range] rs IH]; intros lo; cbn [ivs_of cut_ranges]; cbv zeta.
  { intros _. cbn. split_and!; [done | lia | tauto]. }
  cbn [ok_below]. intros (H1 & H2 & Hl).
  assert (Hin : forall x, in_ivs (ivs_of (lo - gap - 2 - range) rs) x -> x <= lo - gap - 2 - range - 2) by (intros x Hx; apply (in_ivs_below _ _ _ Hl) in Hx; lia).
  case_if; [|case_if].
  - cbn. split_and!; [done | lia |]. intros x. split; [done |]. intros [Hx [? | Hy%Hin]]; lia.
  - cbn. replace (lo - gap - 2 - (lo - gap - 2 - pn - 1)) with (pn + 1) by lia. split_and!; try lia; try done.
    intros x. split; [intros [? | []]; split; [lia | left; lia] |]. intros [Hx [? | Hy%Hin]]; lia.
  - destruct (IH _ Hl) as (Ho & Hn & Hx). cbn. split_and!; [lia | lia | lia | done | lia |].
    intros x. rewrite (Hx x). split; [intros [? | []]; (split; [lia | auto]) | tauto].
Qed.

Lemma ctx_ok_intro t first rs c :
  largest_range c = Some t -> first_range c = first -> ranges c = rs -> t < 2 ^ 62 ->
  ok_below (t + 2) ((t - first, t) :: ivs_of (t - first) rs) -> (length rs <= NGX_QUIC_MAX_RANGES)%nat -> ctx_ok c.
Proof. intros Hl Hf Hr. unfold ctx_ok, intervals. rewrite Hl, Hf, Hr. tauto. Qed.

Lemma drop_ranges_spec pn c : ctx_ok c ->
  ctx_ok (ngx_quic_drop_ack_ranges pn c) /\
  (forall x, in_ivs (intervals (ngx_quic_drop_ack_ranges pn c)) x <-> pn < x /\ in_ivs (intervals c) x).
Proof.
  intros Hc. pose proof Hc as Hok. unfold ngx_quic_drop_ack_ranges, ctx_ok in *. destruct (largest_range c) as [l|] eqn:El.
  2: { unfold intervals. rewrite El. cbn. tauto. }
  set (c1 := match pending_ack c with Some _ => _ | None => c end).
  assert (Hs : same_ranges c c1) by (unfold c1; destruct (pending_ack c) as [x|]; [destruct (x <=? pn)|]; done). clearbody c1.
  destruct Hs as (S1 & S2 & S3). rewrite S2, S3.
  assert (Hi : intervals c = (l - first_range c, l) :: ivs_of (l - first_range c) (ranges c)) by (unfold intervals; by rewrite El).
  rewrite Hi in *. destruct Hok as (Hb & Hok & Hn). pose proof Hok as (Hlo & _ & Hl). cbn [fst snd] in Hlo, Hl.
  assert (Hin : forall x, in_ivs (ivs_of (l - first_range c) (ranges c)) x -> x <= l - first_range c - 2) by (intros x Hx; apply (in_ivs_below _ _ _ Hl) in Hx; lia).
  destruct (Z.leb_spec l pn); [|destruct (Z.leb_spec (l - first_range c) pn)].
  - split; [done |]. intros x. unfold intervals. cbn. split; [done |]. intros [? [? | Hy%Hin]]; lia.
  - split.
    + eapply (ctx_ok_intro l (l - pn - 1) []); try done; cbn; [lia | lia].
    + intros x. unfold intervals. cbn. split; [intros [? | []]; split; [lia | left; lia] |]. intros [? [? | Hy%Hin]]; left; lia.
  - destruct (cut_ranges_spec pn _ _ Hl) as (Ho & Hc2 & Hx). split.
    + eapply (ctx_ok_intro l (first_range c)); try done; cbn; [|lia]. split_and!; [lia | lia | lia | done].
    + intros x. unfold intervals. cbn. rewrite (Hx x). split; [intros [? | []]; (split; [lia | auto]) | tauto].
Qed.

Lemma generate_same a t cl d e c ok o c' : ngx_quic_generate_ack a t cl d e c = (ok, o, c') ->
  same_ranges c c' /\ (ok = false -> grant e = false).
Proof.
  unfold ngx_quic_generate_ack. destruct (send_ack c =? 0); [by intros [= <- _ <-] |]. cbv zeta.
  destruct (_ && _); [by intros [= <- _ <-] |]. destruct (ngx_quic_send_ack e c) as [ok1 c1] eqn:E.
  apply send_ack_same in E as [Hs Hg]. destruct ok1; cbn; intros [= <- _ <-]; [by split |]. by split; [| auto].
Qed.

Lemma same_ranges_ivs c c' : same_ranges c c' -> intervals c' = intervals c /\ (ctx_ok c -> ctx_ok c').
Proof.
  intros (S1 & S2 & S3). assert (Ei : intervals c' = intervals c) by (unfold intervals; by rewrite S1, S2, S3).
  split; [done |]. unfold ctx_ok. by rewrite S1, S2, S3, Ei.
Qed.

(** One step follows the specification. *)
Lemma step_refines ev c A ok c' :
  event_ok ev -> ctx_ok c -> describes (intervals c) A -> event_step ev c = (ok, c') ->
  (ok = false -> denied ev) /\ (ok = true -> ctx_ok c' /\ describes (intervals c') (spec_step ev A)).
Proof.
  intros Hev Hok HA. destruct ev as [e keys pn t na|e a ti cl d|pn]; cbn [event_step spec_step denied event_ok] in *.
  - destruct keys; [|rewrite ack_packet_none by done; by intros [= <- <-]].
    intros E. destruct (ack_packet_adds _ _ _ _ _ _ _ Hok Hev E) as [Hg Hn]. split; [done |]. intros Et.
    destruct (Hn Et) as (Hc' & s & l & Hl & Hx & Hi). split; [done |]. rewrite Hi. apply (describes_keep _ s); [done |].
    intros x. rewrite (Hx x), elem_of_union, elem_of_singleton, (HA x). done.
  - destruct (ngx_quic_generate_ack a ti cl d e c) as [[ok1 o] c1] eqn:E. apply generate_same in E as [Hs Hg].
    intros [= <- <-]. split; [done |]. intros _. destruct (same_ranges_ivs _ _ Hs) as [-> Hc]. split; [by apply Hc | done].
  - intros [= <- <-]. split; [done |]. intros _. destruct (drop_ranges_spec pn c Hok) as [Hc Hx]. split; [done |].
    intros x. rewrite elem_of_filter, (HA x), (Hx x). done.
Qed.

Lemma events_refine evs : forall c A ok c',
  Forall event_ok evs -> ctx_ok c -> describes (intervals c) A -> events evs c = (ok, c') ->
  if ok then ctx_ok c' /\ describes (intervals c') (fold_left (fun A ev => spec_step ev A) evs A) else Exists denied evs.
Proof.
  induction evs as [|ev evs IH]; intros c A ok c' Hev Hok HA; cbn [events fold_left]; [by intros [= <- <-] |].
  apply Forall_cons_1 in Hev as [He Hev]. destruct (event_step ev c) as [ok1 c1] eqn:E.
  destruct (step_refines _ _ _ _ _ He Hok HA E) as [Hd Hs]. destruct ok1; [|intros [= <- <-]; left; by apply Hd].
  destruct (Hs eq_refl) as [Hc HA1]. intros E2. specialize (IH _ _ _ _ Hev Hc HA1 E2). destruct ok; [done | by right].
Qed.

(** ** Lemmas: every packet is answered *)

(** Below the number, in its gap, a range ends. *)
Lemma inside_below pn s i rs j gs ge : ok_below s (ivs_of s rs) -> pn < s -> find_place pn s i rs = Inside j gs ge ->
  gs < pn /\ in_ivs (ivs_of s rs) (gs - 1) /\ ~ in_ivs (ivs_of s rs) gs.
Proof.
  revert s i. induction rs as [|[gap range] rs IH]; intros s i; cbn [find_place ivs_of in_ivs ok_below fst snd]; [by case_if |].
  cbv zeta. intros (H1 & H2 & Hl) Hpn. case_if.
  - repeat (case_if; [done |]). intros [= _ <- _]. split_and!; [lia | left; lia |].
    intros [? | Hx]; [lia |]. apply (in_ivs_below _ _ _ Hl) in Hx. lia.
  - case_if; [done |]. intros H. assert (Hp : pn < s - gap - 2 - range) by lia.
    destruct (IH _ _ Hl Hp H) as (? & ? & ?). split_and!; [done | by right |]. intros [? | ?]; [lia | done].
Qed.

Lemma count_le x l : (count_tops x l <= length l)%nat.
Proof. rewrite count_length. etrans; [apply length_filter |]. by rewrite length_map. Qed.

Lemma count_lt s x y l : ok_below s l -> in_ivs l y -> ~ in_ivs l (y + 1) -> y < x -> (count_tops x l < length l)%nat.
Proof.
  intros Hok Hy Hn Hxy. rewrite count_length, <- (length_map snd l).
  apply (length_filter_lt _ _ y); [by apply (tops_in s) | lia].
Qed.

Lemma in_top c t x : largest_range c = Some t -> t - first_range c <= x <= t -> in_ivs (intervals c) x.
Proof. intros Hl Hx. unfold intervals. rewrite Hl. by left. Qed.

(** The answer to a packet: its number is in the ranges, or in a frame of its own. *)
Definition answered (pn : Z) (c c' : send_ctx) : Prop :=
  (in_ivs (intervals c') pn /\ 0 < send_ack c') \/
  frames c' = frames c ++ [new_frame (QuicFrame.ACK pn 0 0 0 0 [] None)].

(** The ranges below get the number, or are full and above it. *)
Lemma ack_lower_in e prev pn na c l c' :
  ctx_ok c -> largest_range c = Some l -> 0 <= pn < l - first_range c ->
  ack_lower e prev pn (l - first_range c) na c = (true, c') ->
  in_ivs (intervals c') pn \/
  exists s, find_place pn (l - first_range c) 0 (ranges c) = Below s /\ length (ranges c) = NGX_QUIC_MAX_RANGES.
Proof.
  intros Hc El Hpn Hk. destruct (add_lower pn (l - first_range c) (ranges c)) as [d rs'] eqn:Ea.
  pose proof Hc as Hok. unfold ctx_ok, intervals in Hok. rewrite El in Hok. destruct Hok as (Hb & (Hlo & _ & Hl) & Hn).
  destruct (ack_lower_adds _ _ _ _ _ _ _ _ _ _ Hc El Ea Hk) as [_ Hr]. destruct (Hr eq_refl) as (R1 & R2 & R3).
  destruct (add_lower_spec _ _ _ _ _ Hl Hpn Ea) as (Hd & Ho & Hx).
  set (lo := l - first_range c) in *. set (L := (lo - d, l) :: ivs_of (lo - d) rs').
  assert (HL : ok_below (l + 2) L) by (cbn; split_and!; [lia | lia | lia | done]).
  assert (Hin : in_ivs L pn) by (cbn; destruct (proj2 (Hx pn) (or_introl eq_refl)); [left; lia | by right]).
  assert (Ei : intervals c' = take (S NGX_QUIC_MAX_RANGES) L).
  { unfold L, intervals. rewrite R1, R2, R3. replace (l - (first_range c + d)) with (lo - d) by lia. by rewrite ivs_take. }
  pose proof (find_place_adds pn lo (first_range c) (ranges c)) as Hp. rewrite Ea in Hp.
  pose proof (at_place_length (find_place pn lo 0 (ranges c)) pn (first_range c) (ranges c)) as Hle.
  pose proof (count_le pn L) as Hct. unfold L in Hct at 2. cbn [length] in Hct. rewrite ivs_length in Hct.
  enough (Hcount : (count_tops pn L <= S NGX_QUIC_MAX_RANGES)%nat \/
    exists s, find_place pn lo 0 (ranges c) = Below s /\ length (ranges c) = NGX_QUIC_MAX_RANGES).
  { destruct Hcount as [Hcount | ?]; [left | by right]. rewrite Ei. by apply (in_take _ _ _ _ HL). }
  pose proof (add_lower_length pn lo (ranges c)) as Hlen. rewrite Ea in Hlen. cbn [snd] in Hlen.
  destruct (find_place pn lo 0 (ranges c)) as [i r|i|i|i gs ge| |i|s] eqn:Ef; cbv beta iota in Hle; rewrite ?Hp in Hle; cbn [snd] in Hle;
    try (left; lia).
  - left. destruct (inside_below _ _ _ _ _ _ _ Hl (proj2 Hpn) Ef) as (Hg & Hy & Hny).
    apply (in_ivs_below _ _ _ Hl) in Hy as Hyb.
    assert ((count_tops pn L < S (length rs'))%nat); [|lia].
    replace (S (length rs')) with (length L) by (cbn; by rewrite ivs_length). apply (count_lt (l + 2) pn (gs - 1) L); [done | | | lia].
    + cbn. destruct (proj2 (Hx (gs - 1)) (or_intror Hy)); [left; lia | by right].
    + replace (gs - 1 + 1) with gs by lia. intros [Hg2 | Hg2]; cbn in Hg2.
      * assert (Hs : lo - d <= gs < lo) by lia. destruct (proj1 (Hx gs) (or_introl Hs)); [lia | done].
      * destruct (proj1 (Hx gs) (or_intror Hg2)); [lia | done].
  - destruct (decide (length (ranges c) = NGX_QUIC_MAX_RANGES)); [right; eauto | left; lia].
Qed.

Lemma lower_send_ack e prev pn s na c c' : ack_lower e prev pn s na c = (true, c') -> send_ack c' = send_ack c.
Proof.
  unfold ack_lower, change_ranges. destruct (find_place pn s 0 (ranges c)) as [i r|i|i|i gs ge| |i|b].
  1-3, 6: repeat case_match; by intros [= <-].
  - destruct (make_room e prev na c) as [ok c1] eqn:Em. destruct ok; cbn [negb]; [|done]. intros [= <-]. cbn.
    unfold make_room in Em. destruct (_ =? _)%nat; [|by injection Em as <-].
    destruct prev; [unfold ngx_quic_send_ack in Em; destruct (grant e); cbn in Em; [|done]|]; injection Em as <-; by destruct (_ || _).
  - by intros [= <-].
  - destruct (_ =? _)%nat; [|by intros [= <-]]. destruct na; [|by intros [= <-]].
    unfold ngx_quic_send_ack_range. destruct (grant e); cbn; by intros [= <-].
Qed.

Lemma note_pending_counts e pn c : 0 <= send_ack c -> 0 < send_ack (note_pending e pn c) /\ frames (note_pending e pn c) = frames c.
Proof. intros H. unfold note_pending. destruct (send_ack c =? 0); cbn; destruct (pending_ack c) as [x|]; try (destruct (x <? pn)); cbn; split; (lia || done). Qed.

Lemma packet_answered e pn t c c' : ctx_ok c -> 0 <= pn < 2 ^ 62 -> 0 <= send_ack c ->
  ngx_quic_ack_packet e true pn t true c = (true, c') -> answered pn c c'.
Proof.
  intros Hc Hpn Hsa. unfold ngx_quic_ack_packet. cbn [negb]. destruct (note_pending_counts e pn c Hsa) as [Hsa1 Hf1].
  pose proof (note_pending_same e pn c) as Hs. set (c1 := note_pending e pn c) in *. clearbody c1.
  pose proof (same_ranges_ivs _ _ Hs) as [Ei1 Hc1]. specialize (Hc1 Hc). destruct Hs as (S1 & S2 & S3).
  unfold answered. rewrite <- Hf1. pose proof Hc1 as Hok. unfold ctx_ok in Hok. destruct (largest_range c1) as [base|] eqn:El.
  2: { intros [= <-]. left. split; [|done]. apply (in_top _ pn); [done | cbn; lia]. }
  destruct Hok as (Hb & Hok & Hn). unfold intervals in Hok. rewrite El in Hok. destruct Hok as (Hlo & _ & _). cbn [fst snd] in Hlo.
  destruct (Z.eqb_spec base pn) as [-> | Hne]; [intros [= <-]; left; split; [apply (in_top _ pn); [done | lia] | done] |].
  destruct (Z.ltb_spec base pn) as [Hlt | Hge].
  - destruct (pn - base =? 1); [intros [= <-]; left; split; [apply (in_top _ pn); [done | cbn; lia] | done] |].
    destruct (make_room e _ true c1) as [ok1 c2] eqn:Em. destruct ok1; cbn [negb]; intros [= <-].
    left. split; [apply (in_top _ pn); [done | cbn; lia] | done].
  - destruct ((base - first_range c1 <=? pn) && (pn <=? base)) eqn:Ek; cbn [first_range set_send_ack]; rewrite Ek.
    + intros [= <-]. left. split; [|done]. apply (in_top _ base); [done | cbn; lia].
    + intros Hk. set (c2 := set_send_ack _ c1) in *. assert (E2 : largest_range c2 = Some base) by done.
      assert (Hc2 : ctx_ok c2) by (by apply (proj2 (same_ranges_ivs c1 c2 ltac:(done)))).
      assert (Hp : 0 <= pn < base - first_range c2) by (cbn; lia).
      destruct (ack_lower_in _ _ _ _ _ _ _ Hc2 E2 Hp Hk) as [Hin | (s & Ef & E10)].
      * left. split; [done |]. by rewrite (lower_send_ack _ _ _ _ _ _ _ Hk).
      * right. revert Hk. unfold ack_lower. cbn [first_range set_send_ack c2] in *. rewrite Ef.
        apply Nat.eqb_eq in E10. rewrite E10. unfold ngx_quic_send_ack_range. destruct (grant e); cbn [negb]; intros [= <-].
        cbn. by rewrite Z.sub_diag.
Qed.

(** *** What becomes of an acknowledgement that is due *)

(** The numbers that an ACK frame reports. *)
Definition acks (f : qframe) (x : Z) : Prop :=
  exists largest delay first len rs,
    content f = QuicFrame.ACK largest delay (Z.of_nat (length rs)) first len (range_bytes rs) None /\
    in_ivs ((largest - first, largest) :: ivs_of (largest - first) rs) x.

(** The acknowledgement of [pn] is due, or in one of the frames [l]. *)
Definition owed (pn : Z) (c : send_ctx) (l : list qframe) : Prop :=
  (in_ivs (intervals c) pn /\ 0 < send_ack c) \/ exists f, In f l /\ acks f pn.

(** An event that does not take [pn] out of the ranges: there is room for a range when
    a packet comes, and the peer does not say that it knows of [pn]. *)
Definition harmless (pn : Z) (ev : event) (c : send_ctx) : Prop :=
  match ev with
  | Received _ _ _ _ _ => (length (ranges c) < NGX_QUIC_MAX_RANGES)%nat
  | Generate _ _ _ _ _ => True
  | Acknowledged x => x < pn
  end.

(** A history of such events, in which the first frames of the queue are sent from time
    to time: [log] has those that were. *)
Inductive onward (pn : Z) : send_ctx -> send_ctx -> list qframe -> Prop :=
  | onward_stop c : onward pn c c []
  | onward_event ev c c1 c2 log : event_ok ev -> harmless pn ev c -> event_step ev c = (true, c1) ->
      onward pn c1 c2 log -> onward pn c c2 log
  | onward_sent n c c2 log : onward pn (set_frames (drop n (frames c)) c) c2 log ->
      onward pn c c2 (take n (frames c) ++ log).

(** The acknowledgement can wait: the one packet that wants it came less than
    [max_ack_delay] ago, and there is nothing to send with it.  The timer is set. *)
Definition waits (pn : Z) (application timer_set closing : bool) (max_ack_delay : Z) (e : env) (c : send_ctx)
    (push : option Z) : Prop :=
  let delay := u64 (now e - ack_delay_start c) in
  in_ivs (intervals c) pn /\ 0 < send_ack c < NGX_QUIC_MAX_ACK_GAP /\ application = true /\ frames c = [] /\
  delay < max_ack_delay /\ push = (if negb timer_set && negb closing then Some (max_ack_delay - delay) else None).

(** A number more makes one interval more at most. *)
Lemma more_intervals s s' l l' pn : ok_below s l -> ok_below s' l' ->
  (forall x, in_ivs l' x <-> (x = pn \/ in_ivs l x)) -> (length l' <= S (length l))%nat.
Proof.
  intros Hl Hl' Hx. rewrite <- (length_map snd l), <- (length_map snd l').
  change (S (length (map snd l))) with (length (pn :: map snd l)).
  apply submseteq_length, NoDup_submseteq; [by eapply tops_nodup |]. intros t.
  rewrite <- (tops_in s'), elem_of_cons, <- (tops_in s), !Hx by done. tauto.
Qed.

(** With room for a range nothing is lost. *)
Lemma noted_keeps pn c c' x : noted pn c c' -> ctx_ok c -> (length (ranges c) < NGX_QUIC_MAX_RANGES)%nat ->
  in_ivs (intervals c) x -> in_ivs (intervals c') x.
Proof.
  intros (_ & s & l & Hl & Hx & ->) Hok Hr Hin. unfold ctx_ok in Hok.
  destruct (largest_range c) as [t|] eqn:El; [|unfold intervals in Hin; by rewrite El in Hin].
  destruct Hok as (_ & Hok & _). pose proof (more_intervals _ _ _ _ _ Hok Hl Hx) as Hn.
  assert (Hi : length (intervals c) = S (length (ranges c))) by (unfold intervals; rewrite El; cbn; by rewrite ivs_length).
  rewrite take_ge by lia. apply Hx. by right.
Qed.

(** The count does not fall back to zero and no frame is lost. *)
Definition calm (c c' : send_ctx) : Prop := (0 < send_ack c -> 0 < send_ack c') /\ incl (frames c) (frames c').

Lemma calm_refl c : calm c c.
Proof. by split; [|apply incl_refl]. Qed.

Lemma calm_trans c1 c2 c3 : calm c1 c2 -> calm c2 c3 -> calm c1 c3.
Proof. intros [? ?] [? ?]. split; [auto | by eapply incl_tran]. Qed.

(** The fields of the ranges and of what is pending do not matter to it. *)
Lemma calm_same c c' : send_ack c' = send_ack c -> frames c' = frames c -> calm c c'.
Proof. intros Hs Hf. split; rewrite ?Hs, ?Hf; [done | apply incl_refl]. Qed.

Lemma calm_gap na c : calm c (if na : bool then set_send_ack NGX_QUIC_MAX_ACK_GAP c else c).
Proof. destruct na; [by split; [|apply incl_refl] | apply calm_refl]. Qed.

Ltac unchanged := intros [= <-]; by apply calm_same.

Lemma make_room_keeps e prev na c c' : make_room e prev na c = (true, c') -> calm c c'.
Proof.
  unfold make_room, ngx_quic_send_ack. destruct (_ =? _)%nat; [|unchanged].
  destruct prev; [destruct (grant e); cbn; [|done] |]; cbn; intros [= <-]; case_if; (split; [done |]); cbn;
    try apply incl_tl; apply incl_refl.
Qed.

Lemma lower_keeps e prev p s na c c' : ack_lower e prev p s na c = (true, c') -> calm c c'.
Proof.
  unfold ack_lower, change_ranges. destruct (find_place _ _ 0 (ranges c)) as [i r|i|i|i gs ge| |i|b];
    try (repeat case_match; unchanged).
  - destruct (make_room e prev na c) as [ok c1] eqn:E. destruct ok; cbn [negb]; [|done]. intros [= <-].
    by apply make_room_keeps in E.
  - repeat case_match; try unchanged. unfold ngx_quic_send_ack_range. destruct (grant e); cbn; [|done].
    intros [= <-]. split; [done |]. by apply incl_appl, incl_refl.
Qed.

Lemma packet_keeps e keys p t na c c' : ngx_quic_ack_packet e keys p t na c = (true, c') -> calm c c'.
Proof.
  unfold ngx_quic_ack_packet. destruct keys; cbn [negb]; [|unchanged].
  set (c1 := if na then note_pending e p c else c). assert (H1 : calm c c1).
  { subst c1. destruct na; [|apply calm_refl]. unfold calm, note_pending.
    destruct (Z.eqb_spec (send_ack c) 0); cbn; destruct (pending_ack c) as [x|]; try (destruct (x <? p)); cbn;
      (split; [lia | apply incl_refl]). }
  intros E. apply (calm_trans _ _ _ H1). revert E. clearbody c1. clear H1.
  destruct (largest_range c1) as [base|]; [|unchanged]. case_if; [unchanged |]. case_if.
  { case_if; [unchanged |]. destruct (make_room e _ na c1) as [ok c2] eqn:E. destruct ok; cbn [negb]; intros [= <-].
    eapply calm_trans; [by eapply make_room_keeps |]. eapply calm_trans; [|apply calm_gap]. by apply calm_same. }
  intros E. eapply calm_trans; [apply (calm_gap na) |]. revert E. case_if; [unchanged |]. apply lower_keeps.
Qed.

(** The frame made of the ranges reports all of them. *)
Lemma send_ack_reports e c c' pn : ngx_quic_send_ack e c = (true, c') -> in_ivs (intervals c) pn ->
  exists f, frames c' = f :: frames c /\ acks f pn.
Proof.
  unfold ngx_quic_send_ack, intervals. destruct (grant e); cbn; [|done]. intros [= <-].
  destruct (largest_range c) as [l|]; [|done]. intros Hin. eexists. split; [done |]. by do 5 eexists.
Qed.

Lemma generate_answers a ts cl d e c push c' pn log : ngx_quic_generate_ack a ts cl d e c = (true, push, c') ->
  owed pn c (log ++ frames c) ->
  (exists f, In f (log ++ frames c') /\ acks f pn) \/ c' = c /\ waits pn a ts cl d e c push.
Proof.
  unfold ngx_quic_generate_ack. destruct (Z.eqb_spec (send_ack c) 0) as [E0 | E0].
  { intros [= <- <-] [[_ ?] | ?]; [lia | by left]. }
  cbv zeta. destruct (a && _ && _ && _) eqn:Ew.
  - intros [= <- <-] [[Hin Hs] | ?]; [right | by left]. split; [done |].
    apply andb_prop in Ew as [Ew Ed]. apply andb_prop in Ew as [Ew Es]. apply andb_prop in Ew as [-> Ef].
    apply bool_decide_eq_true in Ef. unfold waits. split_and!; try done; lia.
  - destruct (ngx_quic_send_ack e c) as [ok c1] eqn:E. destruct ok; cbn [negb]; [|done]. intros [= <- <-] Ho. left. cbn [frames set_send_ack].
    destruct Ho as [[Hin _] | (f & Hf & Ha)].
    + destruct (send_ack_reports _ _ _ _ E Hin) as (f & -> & Ha). exists f. split; [|done]. apply in_or_app. right. by left.
    + exists f. split; [|done]. unfold ngx_quic_send_ack in E. destruct (grant e); cbn in E; [|done]. injection E as <-. cbn [frames set_frames].
      apply in_app_or in Hf as [Hf | Hf]; apply in_or_app; [by left | right; by right].
Qed.

Lemma step_owed pn ev c c' log : ctx_ok c -> event_ok ev -> harmless pn ev c -> event_step ev c = (true, c') ->
  owed pn c (log ++ frames c) -> ctx_ok c' /\ owed pn c' (log ++ frames c').
Proof.
  intros Hc Hev Hh E Ho. destruct ev as [e keys p t na|e a ts cl d|x]; cbn [event_step event_ok harmless] in *.
  - pose proof (packet_keeps _ _ _ _ _ _ _ E) as [Hs Hf]. assert (Hin : ctx_ok c' /\ forall y, in_ivs (intervals c) y -> in_ivs (intervals c') y).
    { destruct keys; [|rewrite ack_packet_none in E by done; by injection E as <-].
      apply ack_packet_adds in E as [_ E]; [|done..]. specialize (E eq_refl). split; [apply E |]. intros y. by apply (noted_keeps p). }
    destruct Hin as [Hc' Hin]. split; [done |]. destruct Ho as [[? ?] | (f & Hl & Ha)]; [left; auto | right].
    exists f. split; [|done]. apply in_app_or in Hl as [Hl | Hl]; apply in_or_app; auto.
  - destruct (ngx_quic_generate_ack a ts cl d e c) as [[ok push] c1] eqn:Eg. injection E as -> <-.
    pose proof (proj1 (generate_same _ _ _ _ _ _ _ _ _ Eg)) as Hsame. split; [by apply (same_ranges_ivs c) |].
    apply (generate_answers _ _ _ _ _ _ _ _ pn log) in Eg as [? | [-> Hw]]; [by right | left | done].
    destruct Hw as (? & ? & _). split; [done | lia].
  - injection E as <-. destruct (drop_ranges_spec x c Hc) as [Hc' Hx]. split; [done |].
    assert (Hs : send_ack (ngx_quic_drop_ack_ranges x c) = send_ack c /\ frames (ngx_quic_drop_ack_ranges x c) = frames c).
    { unfold ngx_quic_drop_ack_ranges. by repeat case_match. }
    destruct Hs as [Hs ->]. destruct Ho as [[? ?] | ?]; [left | by right]. rewrite Hs, Hx. by split_and!.
Qed.

Lemma onward_owed pn c c' log old : onward pn c c' log -> ctx_ok c -> owed pn c (old ++ frames c) ->
  owed pn c' ((old ++ log) ++ frames c').
Proof.
  intros Ho. revert old. induction Ho as [c|ev c c1 c2 log Hev Hh E Ho IH|n c c2 log Ho IH]; intros old Hc H.
  - by rewrite app_nil_r.
  - destruct (step_owed _ _ _ _ old Hc Hev Hh E H). by apply IH.
  - rewrite app_assoc. apply IH; [exact Hc |]. destruct H as [? | H]; [by left | right]. cbn [frames set_frames].
    by rewrite <- app_assoc, take_drop.
Qed.

Lemma answered_owed pn c c' : answered pn c c' -> owed pn c' (frames c').
Proof.
  intros [? | ->]; [by left | right]. eexists. split; [apply in_or_app; right; by left |].
  exists pn, 0, 0, 0, []. split; [done |]. left. cbn. lia.
Qed.

(** ** Properties *)

(** C25. After any history of packets received, acknowledgements sent and
    acknowledgements of those, the ranges of a context are in order, apart from each
    other and at most eleven with the top one, and they hold exactly the numbers of
    the specification: those received and not yet known to be acknowledged, of the
    eleven highest runs.  A step fails only when the allocator has no memory. *)
Theorem ack_ranges_history evs ok c :
  Forall event_ok evs -> events evs ctx_init = (ok, c) ->
  if ok then ctx_ok c /\ describes (intervals c) (spec_events evs) else Exists denied evs.
Proof. intros Hev. apply events_refine; [done | done |]. intros x. cbn. set_solver. Qed.

(** C26. A packet that wants an acknowledgement gets one, unless its number falls out of
    the ranges first.  Once it was noted, its number is in the ranges, with an
    acknowledgement due, or in an ACK frame of its own at the end of the queue.  From
    then on, whatever other packets come, frames are sent and acknowledgements are made
    or reported as seen, as long as there is room for another range when a packet comes
    and the peer does not report this number or a later one: the next call of
    [ngx_quic_generate_ack] leaves an ACK frame with the number among those sent or
    queued, or it waits, for one packet and less than the delay that is allowed, with
    the timer set if it was not.  When the ranges are full the number may be lost
    ([owed_ack_lost]). *)
Theorem packet_gets_ack e pn t c c1 :
  ctx_ok c -> 0 <= send_ack c -> 0 <= pn < 2 ^ 62 ->
  ngx_quic_ack_packet e true pn t true c = (true, c1) ->
  answered pn c c1 /\
  forall c2 log e' application timer_set closing max_ack_delay push c3,
    onward pn c1 c2 log ->
    ngx_quic_generate_ack application timer_set closing max_ack_delay e' c2 = (true, push, c3) ->
    (exists f, In f (log ++ frames c3) /\ acks f pn) \/
    c3 = c2 /\ waits pn application timer_set closing max_ack_delay e' c2 push.
Proof.
  intros Hc Hs Hpn E. pose proof (packet_answered _ _ _ _ _ Hc Hpn Hs E) as Ha. split; [done |].
  intros c2 log e' a ts cl d push c3 Ho Eg. apply (generate_answers _ _ _ _ _ _ _ _ pn log) in Eg; [done |].
  apply ack_packet_adds in E as [_ E]; [|done..]. destruct (E eq_refl) as [Hc1 _].
  apply (onward_owed pn c1 c2 log []); [done | done |]. by apply answered_owed in Ha.
Qed.

(** ** Witnesses *)

Definition sample_env : env := Env true 1000 3.

(** Eleven runs, a number between them, and one above. *)
Definition sample_events : list event :=
  map (fun n => Received sample_env true n 1000 true) [0; 4; 8; 12; 16; 20; 24; 28; 32; 36; 40; 2; 44].

Definition sample_history : list event := sample_events ++ [Received sample_env true 43 1000 false; Acknowledged 9].

Lemma sample_history_ok : Forall event_ok sample_history.
Proof. repeat (constructor; [cbn; lia |]). constructor. Qed.

Lemma sample_history_run : exists c, events sample_history ctx_init = (true, c) /\
  intervals c = [(43, 44); (40, 40); (36, 36); (32, 32); (28, 28); (24, 24); (20, 20); (16, 16); (12, 12)].
Proof. eexists. split; [vm_compute; reflexivity | vm_compute; reflexivity]. Qed.

Lemma ack_ranges_history_witness :
  exists c, events sample_history ctx_init = (true, c) /\
    intervals c = [(43, 44); (40, 40); (36, 36); (32, 32); (28, 28); (24, 24); (20, 20); (16, 16); (12, 12)] /\
    describes (intervals c) (spec_events sample_history).
Proof.
  destruct sample_history_run as (c & E & Hi). exists c. split; [exact E |]. split; [exact Hi |].
  exact (proj2 (ack_ranges_history sample_history true c sample_history_ok E)).
Defined.

(** A packet that is noted when the ranges are full, and one of two packets that are
    acknowledged in one frame. *)
Lemma packet_gets_ack_witness :
  (let c := (events sample_events ctx_init).2 in
   exists c', ngx_quic_ack_packet sample_env true 1 1000 true c = (true, c') /\ answered 1 c c') /\
  let c1 := (event_step (Received sample_env true 5 1000 true) ctx_init).2 in
  let c2 := (event_step (Received sample_env true 3 1000 true) c1).2 in
  exists c3, ngx_quic_generate_ack true false false 25 sample_env c2 = (true, None, c3) /\
    map content (frames c3) = [QuicFrame.ACK 5 0 1 0 2 [0; 0] None] /\
    ((exists f, In f ([] ++ frames c3) /\ acks f 5) \/ c3 = c2 /\ waits 5 true false false 25 sample_env c2 None).
Proof.
  split.
  - intros c. eexists. split; [vm_compute; reflexivity |].
    apply (packet_gets_ack sample_env 1 1000 c); [| vm_compute; discriminate | by split | vm_compute; reflexivity].
    vm_compute. repeat split; discriminate || (repeat constructor).
  - intros c1 c2. eexists. split; [vm_compute; reflexivity |]. split; [vm_compute; reflexivity |].
    refine (proj2 (packet_gets_ack sample_env 5 1000 ctx_init c1 _ _ _ _) c2 [] sample_env true false false 25 None _ _ _);
      [done | done | by split | vm_compute; reflexivity | | vm_compute; reflexivity].
    apply (onward_event 5 (Received sample_env true 3 1000 true) c1 c2 c2 []);
      [by split | vm_compute; lia | vm_compute; reflexivity | apply onward_stop].
Defined.

(** The number 2 wants an acknowledgement, and is neither in the ranges nor in a frame
    that waits to be sent: the frame made for the next gap was made before it came. *)
Remark owed_ack_lost :
  exists c, events sample_events ctx_init = (true, c) /\
    In (Received sample_env true 2 1000 true) sample_events /\ ~ in_ivs (intervals c) 2 /\
    map content (frames c) = [QuicFrame.ACK 40 0 10 0 20 (concat (repeat [2; 0] 10)) None].
Proof.
  eexists. split; [vm_compute; reflexivity |]. split; [vm_compute; tauto |]. split; [|vm_compute; reflexivity].
  vm_compute. intuition discriminate.
Qed.

End QuicAck.
