(* ===== verification/QuicPacket.v ===== *)
(** * QuicPacket: packets of QUIC (src/event/quic/ngx_event_quic_transport.c,
    src/event/quic/ngx_event_quic_output.c)

    The headers of packets, the numbers of packets and their truncation, packets made
    of the frames that are queued, with the splitting of frames that do not fit, and
    the frames of a packet that is received, up to the call of their handlers.

    A packet is its header and its payload as they are before protection, which is a
    matter of OpenSSL: it adds a tag of sixteen bytes, and may fail. *)

From S2P Require Import Prelude QuicFrame QuicAck.
From stdpp Require Import base option list.

#[local] Open Scope Z_scope.

Module QuicPacket.

Import QuicFrame QuicAck.

(** ** Definitions: headers *)

Definition NGX_QUIC_PKT_FIXED_BIT : Z := 0x40.
Definition NGX_QUIC_PKT_KPHASE : Z := 0x04.
Definition NGX_QUIC_PKT_ZRTT : Z := 0x10.
Definition NGX_QUIC_TAG_LEN : Z := 16.
Definition NGX_QUIC_SERVER_CID_LEN : Z := 20.
Definition NGX_QUIC_MIN_INITIAL_SIZE : Z := 1200.
Definition ngx_quic_versions : list Z := [0x00000001].

(** [enum ssl_encryption_level_t] *)
Inductive level : Set := initial | early_data | handshake | application_data.

#[export] Instance level_eq_dec : EqDecision level.
Proof. solve_decision. Defined.

Definition ngx_quic_short_pkt (flags : Z) : bool := Z.land flags NGX_QUIC_PKT_LONG =? 0.
Definition ngx_quic_pkt_zrtt (flags : Z) : bool := Z.land flags NGX_QUIC_PKT_TYPE =? NGX_QUIC_PKT_ZRTT.

Definition ngx_quic_write_uint16 (s : Z) : list Z := [u8 (Z.shiftr s 8); u8 s].
Definition ngx_quic_write_uint24 (s : Z) : list Z := [u8 (Z.shiftr s 16); u8 (Z.shiftr s 8); u8 s].
Definition ngx_quic_write_uint32 (s : Z) : list Z := [u8 (Z.shiftr s 24); u8 (Z.shiftr s 16); u8 (Z.shiftr s 8); u8 s].

Definition ngx_quic_parse_uint32 (b3 b2 b1 b0 : Z) : Z :=
  Z.lor (Z.lor (Z.lor (Z.shiftl b3 24) (Z.shiftl b2 16)) (Z.shiftl b1 8)) b0.

Definition ngx_quic_read_uint32 (pos : list Z) : option (Z * list Z) :=
  match pos with
  | b3 :: b2 :: b1 :: b0 :: p => Some (ngx_quic_parse_uint32 b3 b2 b1 b0, p)
  | _ => None
  end.

(** The part of [ngx_quic_header_t] that is written: the flags, the level, the version,
    the connection ids, the packet number, how many bytes of it are sent, and these. *)
Record header : Set := Header {
  flags : Z; lvl : level; version : Z; dcid : list Z; scid : list Z; number : Z; num_len : Z; trunc : Z }.

Definition len (l : list Z) : Z := Z.of_nat (length l).

Definition trunc_bytes (h : header) : list Z :=
  if num_len h =? 1 then [u8 (trunc h)]
  else if num_len h =? 2 then ngx_quic_write_uint16 (trunc h)
  else if num_len h =? 3 then ngx_quic_write_uint24 (trunc h)
  else if num_len h =? 4 then ngx_quic_write_uint32 (trunc h)
  else [].

(** A payload of [n] bytes follows. *)
Definition ngx_quic_create_long_header (h : header) (n : Z) : list Z :=
  let rem_len := num_len h + n + NGX_QUIC_TAG_LEN in
  [u8 (flags h)] ++ ngx_quic_write_uint32 (version h) ++ [u8 (len (dcid h))] ++ dcid h ++ [u8 (len (scid h))] ++ scid h ++
  (if bool_decide (lvl h = initial) then ngx_quic_build_int 0 else []) ++ ngx_quic_build_int rem_len ++ trunc_bytes h.

Definition ngx_quic_create_short_header (h : header) : list Z := [u8 (flags h)] ++ dcid h ++ trunc_bytes h.

Definition ngx_quic_create_header (h : header) (n : Z) : list Z :=
  if ngx_quic_short_pkt (flags h) then ngx_quic_create_short_header h else ngx_quic_create_long_header h n.

Definition ngx_quic_payload_size (h : header) (pkt_len : Z) : Z :=
  if ngx_quic_short_pkt (flags h) then
    let n := 1 + len (dcid h) + num_len h + NGX_QUIC_TAG_LEN in
    if pkt_len <? n then 0 else pkt_len - n
  else
    let n := 5 + 2 + len (dcid h) + len (scid h) + (if bool_decide (lvl h = initial) then 1 else 0) in
    if pkt_len <? n then 0
    else
      let n := n + ngx_quic_varint_len (pkt_len - n) + num_len h + NGX_QUIC_TAG_LEN in
      if pkt_len <? n then 0 else pkt_len - n.

(** ** Definitions: reading headers *)

(** What is read: the level, the version, the connection ids, the token, and how many
    bytes are left for the packet, with those that follow its header. *)
Record read_header : Set := RHeader {
  r_level : level; r_version : Z; r_dcid : list Z; r_scid : list Z; r_token : list Z; r_len : Z; r_rest : list Z }.

(** [NGX_ERROR], or [NGX_ABORT] of a version that is not supported. *)
Inductive header_result : Set := HeaderOk (h : read_header) | HeaderError | HeaderAbort (h : Z * list Z * list Z).

Definition ngx_quic_parse_short_header (flags : Z) (pos : list Z) (dcid_len : Z) : option (list Z * list Z) :=
  if Z.land flags NGX_QUIC_PKT_FIXED_BIT =? 0 then None else ngx_quic_read_bytes dcid_len pos.

Definition parse_cid (pos : list Z) : option (list Z * list Z) :=
  '(idlen, p) ← ngx_quic_read_uint8 pos;
  if NGX_QUIC_CID_LEN_MAX <? idlen then None else ngx_quic_read_bytes idlen p.

Definition ngx_quic_parse_long_header (flags : Z) (pos : list Z) : option (Z * list Z * list Z * list Z) :=
  '(v, p) ← ngx_quic_read_uint32 pos;
  if Z.land flags NGX_QUIC_PKT_FIXED_BIT =? 0 then None
  else '(d, p) ← parse_cid p; '(s, p) ← parse_cid p; Some (v, d, s, p).

Definition ngx_quic_supported_version (v : Z) : bool := existsb (fun w => w =? v) ngx_quic_versions.

(** The token and the level, by the type of the packet; [n] is the length of the
    datagram. *)
Definition parse_token (flags n : Z) (pos : list Z) : option (level * list Z * list Z) :=
  if ngx_quic_pkt_in flags then
    if n <? NGX_QUIC_MIN_INITIAL_SIZE then None
    else '(tlen, p) ← ngx_quic_parse_int pos; '(t, p) ← ngx_quic_read_bytes tlen p; Some (initial, t, p)
  else if ngx_quic_pkt_zrtt flags then Some (early_data, [], pos)
  else if ngx_quic_pkt_hs flags then Some (handshake, [], pos)
  else None.

Definition ngx_quic_parse_long_header_v1 (flags n v : Z) (d s pos : list Z) : option read_header :=
  '(l, t, p) ← parse_token flags n pos; '(rem, p) ← ngx_quic_parse_int p;
  if len p <? rem then None else Some (RHeader l v d s t rem p).

(** [pos] follows the flags. *)
Definition ngx_quic_parse_packet (flags : Z) (pos : list Z) : header_result :=
  if ngx_quic_short_pkt flags then
    match ngx_quic_parse_short_header flags pos NGX_QUIC_SERVER_CID_LEN with
    | Some (d, p) => HeaderOk (RHeader application_data 0 d [] [] (len p) p)
    | None => HeaderError
    end
  else
    match ngx_quic_parse_long_header flags pos with
    | None => HeaderError
    | Some (v, d, s, p) =>
        if v =? 0 then HeaderError
        else if negb (ngx_quic_supported_version v) then HeaderAbort (v, d, s)
        else match ngx_quic_parse_long_header_v1 flags (1 + len pos) v d s p with Some h => HeaderOk h | None => HeaderError end
    end.

(** ** Definitions: packet numbers *)

(** The flags, the length and the bytes of the number [pnum]. *)
Definition ngx_quic_set_packet_number (pnum : Z) (largest_ack : option Z) (fl : Z) : Z * Z * Z :=
  let delta := u64 (pnum - default UNSET_PN largest_ack) in
  if delta <=? 0x7F then (fl, 1, Z.land pnum 0xff)
  else if delta <=? 0x7FFF then (Z.lor fl 0x1, 2, Z.land pnum 0xffff)
  else if delta <=? 0x7FFFFF then (Z.lor fl 0x2, 3, Z.land pnum 0xffffff)
  else (Z.lor fl 0x3, 4, Z.land pnum 0xffffffff).

(** The number of a packet from its bytes, without their mask; [largest_pn] is
    [NGX_QUIC_UNSET_PN] at first. *)
Definition ngx_quic_parse_pn (bytes : list Z) (largest_pn : Z) : Z * Z :=
  let pn_nbits := Z.min (len bytes * 8) 62 in
  let truncated_pn := digits 0 bytes in
  let expected_pn := u64 (largest_pn + 1) in
  let pn_win := Z.shiftl 1 pn_nbits in
  let pn_hwin := pn_win / 2 in
  let pn_mask := pn_win - 1 in
  let candidate := Z.lor (Z.land expected_pn (u64 (Z.lnot pn_mask))) truncated_pn in
  let candidate :=
    if (s64 candidate <=? s64 (u64 (expected_pn - pn_hwin))) && (candidate <? 2 ^ 62 - pn_win) then candidate + pn_win
    else if (expected_pn + pn_hwin <? candidate) && (pn_win <=? candidate) then candidate - pn_win
    else candidate in
  (candidate, u64 (Z.max (s64 largest_pn) (s64 candidate))).

(** ** Definitions: making packets *)

(** What a packet needs: the level, [key_phase], the ids and the version, whether there
    are keys and encryption succeeds, memory, and [ngx_current_msec]. *)
Record out : Set := Out {
  o_level : level; o_key_phase : bool; o_dcid : list Z; o_scid : list Z; o_version : Z;
  o_keys : bool; o_seals : bool; o_grant : bool; o_now : Z }.

Definition ngx_quic_init_packet (o : out) (x : send_ctx) : header :=
  let fl := NGX_QUIC_PKT_FIXED_BIT in
  let fl :=
    match o_level o with
    | initial => Z.lor fl (Z.lor NGX_QUIC_PKT_LONG NGX_QUIC_PKT_INITIAL)
    | handshake => Z.lor fl (Z.lor NGX_QUIC_PKT_LONG NGX_QUIC_PKT_HANDSHAKE)
    | _ => if o_key_phase o then Z.lor fl NGX_QUIC_PKT_KPHASE else fl
    end in
  let '(fl, n, t) := ngx_quic_set_packet_number (next_pnum x) (largest_ack x) fl in
  Header fl (o_level o) (o_version o) (o_dcid o) (o_scid o) (next_pnum x) n t.

Definition with_content (f : qframe) (c : frame) : qframe :=
  QF c (flen f) (pnum f) (send_time f) (plen f) (pkt_need_ack f) (ignore_congestion f) (ignore_loss f).

Definition with_len (f : qframe) : qframe :=
  QF (content f) (flen (new_frame (content f))) (pnum f) (send_time f) (plen f) (pkt_need_ack f) (ignore_congestion f) (ignore_loss f).

(** A frame of ordered data: its offset, its length, its data and the frame with others
    in their place and with the flag [fin] or not. *)
Definition ordered (c : frame) : option (Z * Z * list Z * (Z -> Z -> list Z -> bool -> frame) * bool) :=
  match c with
  | CRYPTO offset length data => Some (offset, length, data, fun o n d _ => CRYPTO o n d, false)
  | STREAM offset length id off len fin data => Some (offset, length, data, fun o n d fin => STREAM o n id off len fin d, fin)
  | _ => None
  end.

(** [NGX_ERROR], [NGX_DECLINED], or [NGX_OK] with the frame and the one that follows. *)
Inductive split_result : Set := SplitError (f : qframe) | Declined | Whole | Split (f nf : qframe).

Definition ngx_quic_split_frame (o : out) (f : qframe) (n : Z) : split_result :=
  match ordered (content f) with
  | None => Declined
  | Some (offset, length, data, make, fin) =>
      if flen f <=? n then Whole
      else
        let shrink := flen f - n in
        if length <=? shrink then Declined
        else
          let length := length - shrink in
          let f1 := with_len (with_content f (make offset length data fin)) in
          if n <? flen f1 then SplitError f1
          else if negb (o_grant o) then SplitError f1
          else
            let m := Z.to_nat length in
            let nf := with_len (with_content f1 (make (offset + length) shrink (drop m data) fin)) in
            Split (with_content f1 (make offset length (take m data) false)) nf
  end.

(** [need_ack] as [ngx_quic_create_frame] sets it. *)
Definition need_ack (c : frame) : bool :=
  match c with ACK _ _ _ _ _ _ _ | CONNECTION_CLOSE _ _ _ | CONNECTION_CLOSE_APP _ _ => false | _ => true end.

Definition stamp (o : out) (pn : Z) (f : qframe) : qframe :=
  QF (content f) (flen f) pn (o_now o) 0 (pkt_need_ack f) (ignore_congestion f) (ignore_loss f).

(** The loop on [ctx->frames]: [n] bytes are in the packet, [done] are its frames,
    [payload] its bytes.  [None] is the end of the fuel. *)
Fixpoint fill_packet (fuel : nat) (o : out) (pn max : Z) (n : Z) (done : list qframe) (payload : list Z) (todo : list qframe)
    : option (bool * Z * list qframe * list Z * list qframe) :=
  match fuel with
  | O => None
  | S fuel =>
      match todo with
      | [] => Some (true, n, done, payload, [])
      | f :: rest =>
          if max <=? n then Some (true, n, done, payload, todo)
          else
            let put f rest :=
              let f := stamp o pn f in
              match ngx_quic_create_frame true (content f) with
              | None => Some (false, n, done, payload, f :: rest)
              | Some (k, bytes) => fill_packet fuel o pn max (n + k) (done ++ [f]) (payload ++ bytes) rest
              end in
            if max <? n + flen f then
              match ngx_quic_split_frame o f (max - n) with
              | SplitError f => Some (false, n, done, payload, f :: rest)
              | Declined => Some (true, n, done, payload, todo)
              | Whole => put f rest
              | Split f nf => put f (nf :: rest)
              end
            else put f rest
      end
  end.

(** [NGX_ERROR], zero, or a packet: its header, its payload and its length. *)
Inductive output_result : Set := OutError | OutNothing | OutPacket (h : header) (payload : list Z) (n : Z).

Definition sent_frame (need : bool) (f : qframe) : qframe :=
  QF (content f) (flen f) (pnum f) (send_time f) (plen f) need (ignore_congestion f) (ignore_loss f).

Definition mark_length (n : Z) (l : list qframe) : list qframe :=
  match l with
  | f :: t => QF (content f) (flen f) (pnum f) (send_time f) n (pkt_need_ack f) (ignore_congestion f) (ignore_loss f) :: t
  | [] => []
  end.

(** The payload was made of the frames [done]. *)
Definition finish_packet (o : out) (h : header) (min_payload : Z) (done : list qframe) (payload : list Z) (todo : list qframe)
    (x : send_ctx) : output_result * send_ctx :=
  let x := set_frames (done ++ todo) x in
  if bool_decide (done = []) then (OutNothing, x)
  else
    let payload := if len payload <? min_payload then payload ++ repeat NGX_QUIC_FT_PADDING (Z.to_nat (min_payload - len payload)) else payload in
    if negb (o_seals o) then (OutError, x)
    else
      let need := existsb (fun f => need_ack (content f)) done in
      let n := len (ngx_quic_create_header h (len payload)) + len payload + NGX_QUIC_TAG_LEN in
      let x := set_next (next_pnum x + 1) x in
      let done := if need then mark_length n done else done in
      (OutPacket h payload n, set_sending (sending x ++ map (sent_frame need) done) (set_frames todo x)).

Definition ngx_quic_output_packet (o : out) (max min : Z) (x : send_ctx) : option (output_result * send_ctx) :=
  match frames x with
  | [] => Some (OutNothing, x)
  | _ =>
      if negb (o_keys o) then Some (OutNothing, set_frames [] x)
      else
        let h := ngx_quic_init_packet o x in
        let min_payload := Z.max (ngx_quic_payload_size h min) (4 - num_len h) in
        let max_payload := ngx_quic_payload_size h max in
        if max_payload <? min_payload then Some (OutNothing, x)
        else
          '(ok, n, done, payload, todo) ← fill_packet (S (Z.to_nat max_payload)) o (next_pnum x) max_payload 0 [] [] (frames x);
          if negb ok then Some (OutError, set_frames (done ++ todo) x)
          else Some (finish_packet o h min_payload done payload todo x)
  end.

(** [ngx_quic_revert_send] of a space: the frames go back, and the number with them. *)
Definition ngx_quic_revert_send (pn : Z) (x : send_ctx) : send_ctx :=
  match sending x with
  | [] => x
  | l => set_next pn (set_sending [] (set_frames (l ++ frames x) x))
  end.

(** ** Definitions: the frames of a packet that is received *)

(** Who handles a frame: the congestion code, nobody, the end of the connection, a
    handler that makes the packet wait for an acknowledgement, or none at all. *)
Inductive handler : Set := HandleAck | Ignore | DoClose | Handle | Missing.

Definition handler_of (f : frame) : handler :=
  match f with
  | ACK _ _ _ _ _ _ None => HandleAck
  | PADDING => Ignore
  | CONNECTION_CLOSE _ _ _ | CONNECTION_CLOSE_APP _ _ => DoClose
  | CRYPTO _ _ _ | PING | STREAM _ _ _ _ _ _ _ | MAX_DATA _ | STREAMS_BLOCKED _ _ | DATA_BLOCKED _ | STREAM_DATA_BLOCKED _ _
  | MAX_STREAM_DATA _ _ | RESET_STREAM _ _ _ | STOP_SENDING _ _ | MAX_STREAMS _ _ | PATH_CHALLENGE _ | PATH_RESPONSE _
  | NEW_CONNECTION_ID _ _ _ _ _ | RETIRE_CONNECTION_ID _ => Handle
  | ACK _ _ _ _ _ _ (Some _) | NEW_TOKEN _ _ | HANDSHAKE_DONE => Missing
  end.

Definition probing (f : frame) : bool :=
  match f with PADDING | PATH_CHALLENGE _ | PATH_RESPONSE _ | NEW_CONNECTION_ID _ _ _ _ _ => true | _ => false end.

(** The frames that are handed to their handlers, in order, as long as these succeed;
    how it ends: with an error, or with [do_close], [nonprobing] and [need_ack]. *)
Inductive frames_end : Set := FramesError (e : option Z) | FramesMissing | FramesDone (do_close nonprobing need : bool).

Definition add_frame (f : frame) (r : list frame * frames_end) : list frame * frames_end := (f :: r.1, r.2).

Fixpoint ngx_quic_handle_frames (fuel : nat) (fl : Z) (p : list Z) (close nonprobing need : bool) : option (list frame * frames_end) :=
  match fuel with
  | O => None
  | S fuel =>
      match p with
      | [] => Some ([], FramesDone close nonprobing need)
      | _ =>
          r ← ngx_quic_parse_frame fl p;
          match r with
          | Refused e => Some ([], FramesError e)
          | Frame f p =>
              let nonprobing := nonprobing || negb (probing f) in
              match handler_of f with
              | HandleAck => add_frame f <$> ngx_quic_handle_frames fuel fl p close nonprobing need
              | Ignore => add_frame f <$> ngx_quic_handle_frames fuel fl p close nonprobing need
              | DoClose => add_frame f <$> ngx_quic_handle_frames fuel fl p true nonprobing need
              | Handle => add_frame f <$> ngx_quic_handle_frames fuel fl p close nonprobing true
              | Missing => Some ([], FramesMissing)
              end
          end
      end
  end.

(** ** Lemmas: packet numbers *)

(** The bytes of a number of [n] bytes are its last digits. *)
Lemma trunc_digits h (n : nat) : num_len h = Z.of_nat n -> (1 <= n <= 4)%nat -> 0 <= trunc h < 256 ^ Z.of_nat n ->
  trunc_bytes h = big_endian n (trunc h) /\ length (trunc_bytes h) = n.
Proof.
  intros Hn H14 Ht. unfold trunc_bytes, ngx_quic_write_uint16, ngx_quic_write_uint24, ngx_quic_write_uint32. rewrite Hn.
  assert (n = 1 \/ n = 2 \/ n = 3 \/ n = 4)%nat as [-> | [-> | [-> | ->]]] by lia; cbn -[u8 Z.shiftr Z.div Z.modulo Z.pow];
    rewrite ?Z.shiftr_div_pow2 by lia; unfold u8; (split; [|done]); cbn [app]; rewrite ?Z.div_div by lia; reflexivity.
Qed.

Lemma digits_trunc (n : nat) t : (n <= 4)%nat -> 0 <= t < 256 ^ Z.of_nat n -> digits 0 (big_endian n t) = t.
Proof.
  intros Hn Ht. assert (256 ^ Z.of_nat n <= 256 ^ 4) by (apply Z.pow_le_mono_r; lia).
  rewrite <- (Z.div_small t (256 ^ Z.of_nat n)) at 1 by done. apply digits_big_endian. lia.
Qed.

(** Clearing the low bits and putting others there. *)
Lemma lor_window e b t : 0 <= b <= 62 -> 0 <= e < 2 ^ 64 -> 0 <= t < 2 ^ b ->
  Z.lor (Z.land e (u64 (Z.lnot (Z.shiftl 1 b - 1)))) t = e / 2 ^ b * 2 ^ b + t.
Proof.
  intros Hb He Ht. rewrite Z.shiftl_1_l.
  assert (E : Z.land e (u64 (Z.lnot (2 ^ b - 1))) = Z.shiftl (Z.shiftr e b) b).
  { apply Z.bits_inj'. intros i Hi. rewrite Z.land_spec, Z.shiftl_spec by done. unfold u64.
    replace (2 ^ b - 1) with (Z.ones b) by (rewrite Z.ones_equiv; lia).
    destruct (Z.ltb_spec i 64).
    - rewrite Z.mod_pow2_bits_low, Z.lnot_spec by lia. destruct (Z.ltb_spec i b).
      + rewrite Z.ones_spec_low, andb_false_r, Z.testbit_neg_r by lia. done.
      + rewrite Z.ones_spec_high, andb_true_r, Z.shiftr_spec by lia. f_equal. lia.
    - rewrite Z.mod_pow2_bits_high, andb_false_r by lia. symmetry. rewrite Z.shiftr_spec by lia.
      replace (i - b + b) with i by lia. apply Z.bits_above_log2; [lia |].
      destruct (decide (e = 0)) as [-> | Hne]; [cbn; lia |]. assert (Z.log2 e < 64) by (apply Z.log2_lt_pow2; lia). lia. }
  rewrite E, lor_shiftl_add, Z.shiftr_div_pow2 by lia. done.
Qed.

(** The number of the window [(e - M / 2, e + M / 2]] with the digits of [p]. *)
Lemma window_number M e p : 2 <= M <= 2 ^ 32 -> M / 2 * 2 = M -> 0 <= e <= 2 ^ 62 -> 0 <= p < 2 ^ 62 -> e - M / 2 < p <= e + M / 2 ->
  let c := e / M * M + p mod M in
  (if (s64 c <=? s64 (u64 (e - M / 2))) && (c <? 2 ^ 62 - M) then c + M
   else if (e + M / 2 <? c) && (M <=? c) then c - M else c) = p.
Proof.
  intros HM Hh He Hp Hw. cbv zeta. pose proof (Z.div_mod e M ltac:(lia)) as Ee. pose proof (Z.div_mod p M ltac:(lia)) as Ep.
  pose proof (Z.mod_pos_bound e M ltac:(lia)). pose proof (Z.mod_pos_bound p M ltac:(lia)).
  set (h := M / 2) in *. set (qe := e / M) in *. set (qp := p / M) in *. set (re := e mod M) in *. set (rp := p mod M) in *.
  assert (Hq : qp = qe \/ qp = qe + 1 \/ qp = qe - 1) by nia.
  assert (Hqe : 0 <= qe) by (apply Z.div_pos; lia). clearbody h qe qp re rp.
  assert (Hx : 0 <= M * qe) by (apply Z.mul_nonneg_nonneg; lia). rewrite (Z.mul_comm qe M).
  assert (Hc : 0 <= M * qe + rp < 2 ^ 63) by lia.
  rewrite s64_small, s64_u64_small by lia.
  destruct Hq as [-> | [-> | ->]]; rewrite ?Z.mul_add_distr_l, ?Z.mul_sub_distr_l in Ep;
    repeat match goal with |- context [?a <=? ?b] => destruct (Z.leb_spec a b) | |- context [?a <? ?b] => destruct (Z.ltb_spec a b) end; cbn; lia.
Qed.

(** The number as it is sent. *)
Lemma set_number_spec pnum la fl fl' n t : let a := default (-1) la in
  0 <= pnum < 2 ^ 62 -> -1 <= a < pnum -> pnum - a < 2 ^ 31 -> ngx_quic_set_packet_number pnum la fl = (fl', n, t) ->
  1 <= n <= 4 /\ t = pnum mod 2 ^ (8 * n) /\ pnum - a < 2 ^ (8 * n - 1) /\ fl' = Z.lor fl (n - 1).
Proof.
  intros a Hp Ha Hd. unfold ngx_quic_set_packet_number. assert (Ed : u64 (pnum - default UNSET_PN la) = pnum - a).
  { unfold a in *. destruct la as [x|]; cbn [default] in *; [apply u64_small; lia |]. unfold UNSET_PN, u64.
    replace (pnum - (2 ^ 64 - 1)) with ((pnum + 1) + (-1) * 2 ^ 64) by lia. rewrite Z.mod_add, Z.mod_small by lia. lia. }
  rewrite Ed. change 0xff with (Z.ones 8). change 0xffff with (Z.ones 16). change 0xffffff with (Z.ones 24). change 0xffffffff with (Z.ones 32).
  rewrite !Z.land_ones by lia.
  repeat match goal with |- context [?x <=? ?y] => destruct (Z.leb_spec x y) end; intros [= <- <- <-];
    (split; [lia |]); (split; [reflexivity |]); (split; [cbn; lia | first [reflexivity | by rewrite Z.lor_0_r]]).
Qed.

Lemma pn_read pnum la fl fl' n t h lp : let a := default (-1) la in
  0 <= pnum < 2 ^ 62 -> -1 <= a < pnum -> pnum - a < 2 ^ 31 -> ngx_quic_set_packet_number pnum la fl = (fl', n, t) ->
  a <= lp < 2 ^ 62 -> lp + 1 < pnum + 2 ^ (8 * n - 1) -> num_len h = n -> trunc h = t ->
  ngx_quic_parse_pn (trunc_bytes h) (u64 lp) = (pnum, u64 (Z.max lp pnum)).
Proof.
  intros a Hp Ha Hd Es Hl Hw Hn Ht. destruct (set_number_spec _ _ _ _ _ _ Hp Ha Hd Es) as (H14 & Et & Hd2 & _). fold a in Hd2.
  assert (Hm : 256 ^ n = 2 ^ (8 * n)) by (rewrite Z.pow_mul_r by lia; done).
  assert (Htb : 0 <= trunc h < 256 ^ n) by (rewrite Hm, Ht, Et; apply Z.mod_pos_bound; lia).
  destruct (trunc_digits h (Z.to_nat n)) as [Eb El]; [lia | lia | by rewrite Z2Nat.id by lia |].
  unfold ngx_quic_parse_pn, len. rewrite El, Z2Nat.id, Z.min_l, (Z.mul_comm n 8) by lia.
  rewrite Eb, digits_trunc by (rewrite ?Z2Nat.id; lia). rewrite Ht.
  assert (Ex : u64 (u64 lp + 1) = lp + 1) by (unfold u64; rewrite Zplus_mod_idemp_l; apply Z.mod_small; lia). rewrite Ex.
  rewrite lor_window by (rewrite ?Ht, <- ?Hm in *; lia). rewrite Z.shiftl_1_l, Et.
  assert (E2 : 2 ^ (8 * n) = 2 * 2 ^ (8 * n - 1)) by (rewrite <- Z.pow_succ_r by lia; f_equal; lia).
  assert (Hhalf : 2 ^ (8 * n) / 2 = 2 ^ (8 * n - 1)) by (rewrite E2, Z.mul_comm; apply Z.div_mul; lia).
  assert (HM : 2 <= 2 ^ (8 * n) <= 2 ^ 32) by (split; [change 2 with (2 ^ 1) at 1 | ]; apply Z.pow_le_mono_r; lia).
  rewrite window_number; [| done | lia | lia | done | lia]. f_equal. f_equal. rewrite s64_u64_small by lia. by rewrite s64_small by lia.
Qed.

(** ** Lemmas: headers *)

Lemma trunc_wf h : wf_bytes (trunc_bytes h).
Proof. unfold trunc_bytes. repeat case_if; repeat constructor; apply u8_byte. Qed.

Lemma int_read v rest : 0 <= v < 2 ^ 62 -> wf_bytes rest -> ngx_quic_parse_int (ngx_quic_build_int v ++ rest) = Some (v, rest).
Proof.
  intros Hv Hr. destruct (build_int_varint v Hv) as [Hb _]. apply parse_int_iff; [apply wf_bytes_app; split; [by eapply varint_bytes | done] |].
  by eexists.
Qed.

Lemma bytes_read d rest : ngx_quic_read_bytes (len d) (d ++ rest) = Some (d, rest).
Proof.
  unfold ngx_quic_read_bytes, len. destruct (Z.ltb_spec (Z.of_nat (length (d ++ rest))) (Z.of_nat (length d))); [rewrite length_app in *; lia |].
  by rewrite Nat2Z.id, take_app_length, drop_app_length.
Qed.

Lemma uint32_read v rest : is_u32 v -> ngx_quic_read_uint32 (ngx_quic_write_uint32 v ++ rest) = Some (v, rest).
Proof.
  unfold is_u32. intros Hv. unfold ngx_quic_write_uint32, ngx_quic_read_uint32. cbn [app]. f_equal. f_equal. unfold ngx_quic_parse_uint32, u8.
  rewrite !Z.shiftr_div_pow2 by lia. change (2 ^ 24) with (2 ^ 8 * 2 ^ 8 * 2 ^ 8). change (2 ^ 16) with (2 ^ 8 * 2 ^ 8).
  rewrite <- !Z.div_div by lia. set (q1 := v / 2 ^ 8). set (q2 := q1 / 2 ^ 8). set (q3 := q2 / 2 ^ 8).
  pose proof (Z.div_mod v (2 ^ 8) ltac:(lia)) as D0. pose proof (Z.div_mod q1 (2 ^ 8) ltac:(lia)) as D1.
  pose proof (Z.div_mod q2 (2 ^ 8) ltac:(lia)) as D2.
  pose proof (Z.mod_pos_bound v (2 ^ 8) ltac:(lia)). pose proof (Z.mod_pos_bound q1 (2 ^ 8) ltac:(lia)).
  pose proof (Z.mod_pos_bound q2 (2 ^ 8) ltac:(lia)).
  fold q1 in D0. fold q2 in D1. fold q3 in D2.
  assert (Hq3 : 0 <= q3 < 2 ^ 8) by lia. rewrite (Z.mod_small q3) by done.
  assert (Z.shiftl q3 24 = Z.shiftl (Z.shiftl (Z.shiftl q3 8) 8) 8) as -> by (rewrite !Z.shiftl_shiftl by lia; done).
  assert (Z.shiftl (q2 mod 2 ^ 8) 16 = Z.shiftl (Z.shiftl (q2 mod 2 ^ 8) 8) 8) as -> by (rewrite !Z.shiftl_shiftl by lia; done).
  rewrite <- !Z.shiftl_lor, !lor_shiftl_add by lia. lia.
Qed.

Lemma cid_read d rest : len d <= NGX_QUIC_CID_LEN_MAX -> parse_cid (u8 (len d) :: d ++ rest) = Some (d, rest).
Proof.
  unfold NGX_QUIC_CID_LEN_MAX. intros Hd. cbn. rewrite u8_small by (unfold is_byte, len in *; lia). unfold NGX_QUIC_CID_LEN_MAX.
  destruct (Z.ltb_spec 20 (len d)); [lia |]. apply bytes_read.
Qed.

(** A header that this end writes; the first packets fill a datagram of [total] bytes. *)
Definition header_ok (h : header) (total : Z) : Prop :=
  is_byte (flags h) /\ Z.land (flags h) NGX_QUIC_PKT_FIXED_BIT <> 0 /\ wf_bytes (dcid h) /\ wf_bytes (scid h) /\ 1 <= num_len h <= 4 /\
  if ngx_quic_short_pkt (flags h) then lvl h = application_data /\ len (dcid h) = NGX_QUIC_SERVER_CID_LEN
  else
    version h = 1 /\ len (dcid h) <= NGX_QUIC_CID_LEN_MAX /\ len (scid h) <= NGX_QUIC_CID_LEN_MAX /\
    (lvl h = initial /\ ngx_quic_pkt_in (flags h) = true /\ NGX_QUIC_MIN_INITIAL_SIZE <= total \/
     lvl h = handshake /\ ngx_quic_pkt_hs (flags h) = true).

(** What the peer reads of it. *)
Definition as_read (h : header) (n : Z) (rest : list Z) : read_header :=
  if ngx_quic_short_pkt (flags h) then RHeader (lvl h) 0 (dcid h) [] [] (len rest) rest
  else RHeader (lvl h) (version h) (dcid h) (scid h) [] (num_len h + n + NGX_QUIC_TAG_LEN) rest.

Lemma header_read h n tail : let b := ngx_quic_create_header h n in
  header_ok h (len (b ++ tail)) -> 0 <= n < 2 ^ 61 -> wf_bytes tail -> n + NGX_QUIC_TAG_LEN <= len tail ->
  exists p, b = flags h :: p /\ ngx_quic_parse_packet (flags h) (p ++ tail) = HeaderOk (as_read h n (trunc_bytes h ++ tail)).
Proof.
  cbv zeta. unfold ngx_quic_create_header, header_ok, ngx_quic_parse_packet, as_read, NGX_QUIC_TAG_LEN.
  intros (Hf & Hx & Hd & Hs & H14 & Hk) Hn Ht Hlen. pose proof (trunc_wf h) as Hw. destruct (ngx_quic_short_pkt (flags h)) eqn:Es.
  - destruct Hk as [El Hc]. unfold ngx_quic_create_short_header. cbn [app]. rewrite u8_small by done. eexists. split; [done |].
    unfold ngx_quic_parse_short_header. apply Z.eqb_neq in Hx. rewrite Hx, <- Hc, <- app_assoc, bytes_read, El. done.
  - destruct Hk as (Ev & Hcd & Hcs & Hl). set (b := ngx_quic_create_long_header h n) in *. unfold ngx_quic_create_long_header in b.
    unfold b at 1. cbn [app]. rewrite u8_small by done.
    match goal with |- exists p, _ :: ?q = _ /\ _ => exists q end. split; [done |].
    set (rem := num_len h + n + NGX_QUIC_TAG_LEN). unfold NGX_QUIC_TAG_LEN in rem.
    assert (Hrem : 0 <= rem < 2 ^ 62) by lia. repeat (rewrite <- app_assoc || rewrite <- app_comm_cons).
    set (q := (if bool_decide (lvl h = initial) then ngx_quic_build_int 0 else []) ++ ngx_quic_build_int rem ++ trunc_bytes h ++ tail).
    set (q0 := ngx_quic_write_uint32 (version h) ++ _).
    assert (Hq0 : len q0 = len (b ++ tail) - 1).
    { unfold q0, q, b, len, rem, NGX_QUIC_TAG_LEN. repeat (rewrite length_app || cbn [length]). lia. }
    assert (E1 : ngx_quic_parse_long_header (flags h) q0 = Some (version h, dcid h, scid h, q)).
    { unfold ngx_quic_parse_long_header, q0. rewrite uint32_read by (rewrite Ev; split; done). cbn [mbind option_bind].
      apply Z.eqb_neq in Hx. rewrite Hx.
      rewrite cid_read by done. cbn [mbind option_bind].
      by rewrite cid_read by done. }
    rewrite E1, Ev. cbn [Z.eqb negb]. change (negb (ngx_quic_supported_version 1)) with false. cbv iota.
    assert (Hwq : wf_bytes (trunc_bytes h ++ tail)) by (by apply wf_bytes_app).
    assert (Hrest : wf_bytes (ngx_quic_build_int rem ++ trunc_bytes h ++ tail)).
    { apply wf_bytes_app. split; [eapply varint_bytes, build_int_varint; done | done]. }
    unfold ngx_quic_parse_long_header_v1.
    assert (E2 : parse_token (flags h) (1 + len q0) q = Some (lvl h, [], ngx_quic_build_int rem ++ trunc_bytes h ++ tail)).
    { unfold parse_token, q. destruct Hl as [(-> & Ep & Hm) | (-> & Ep)].
      - rewrite Ep, Hq0. destruct (Z.ltb_spec (1 + (len (b ++ tail) - 1)) NGX_QUIC_MIN_INITIAL_SIZE); [lia |].
        rewrite bool_decide_true by done. rewrite int_read by (done || lia). cbn [mbind option_bind].
        unfold ngx_quic_read_bytes. destruct (Z.ltb_spec (Z.of_nat (length (ngx_quic_build_int rem ++ trunc_bytes h ++ tail))) 0); [lia |]. done.
      - unfold ngx_quic_pkt_in, ngx_quic_pkt_hs, ngx_quic_pkt_zrtt in *. apply Z.eqb_eq in Ep. rewrite Ep. done. }
    rewrite E2. cbn [mbind option_bind]. rewrite int_read by done. cbn [mbind option_bind].
    destruct (Z.ltb_spec (len (trunc_bytes h ++ tail)) rem) as [Hbad |]; [|done]. exfalso. unfold len in *. rewrite length_app in Hbad.
    assert (Z.of_nat (length (trunc_bytes h)) = num_len h); [|lia]. unfold trunc_bytes.
    repeat case_if; cbn; lia.
Qed.

(** ** Specification: what a queue of frames says *)

(** A byte of a stream, or of the handshake, at its offset; the end of a stream; any
    other frame. *)
Inductive item : Set := Byte (id : option Z) (off b : Z) | Fin (id off : Z) | Other (f : frame).

Fixpoint bytes_from (id : option Z) (off : Z) (l : list Z) : list item :=
  match l with [] => [] | b :: l => Byte id off b :: bytes_from id (off + 1) l end.

Definition says (f : frame) : list item :=
  match f with
  | STREAM offset length id _ _ fin data => bytes_from (Some id) offset data ++ if fin then [Fin id (offset + length)] else []
  | CRYPTO offset _ data => bytes_from None offset data
  | f => [Other f]
  end.

Definition says_all (l : list qframe) : list item := concat (map (fun f => says (content f)) l).

(** The frames that only a server sends. *)
Definition server_only (c : frame) : bool := match c with NEW_TOKEN _ _ | HANDSHAKE_DONE => true | _ => false end.

(** A frame that the server queues: it can be written, in packets of the kind [k], a
    frame of ordered data has all its fields, and its length is known. *)
Definition content_ok (k : packet) (c : frame) : Prop :=
  QuicFrame.sent c = true /\ frame_ok c /\ values_ok c /\ (may_be_in (type_of c) k = true \/ server_only c = true) /\
  match c with
  | STREAM offset length _ off len _ _ => off = true /\ len = true /\ offset + length < 2 ^ 62
  | CRYPTO offset length _ => offset + length < 2 ^ 62
  | _ => True
  end.

Definition queued (k : packet) (f : qframe) : Prop := content_ok k (content f) /\ flen f = flen (new_frame (content f)).

(** ** Lemmas: splitting *)

Lemma says_all_app a b : says_all (a ++ b) = says_all a ++ says_all b.
Proof. unfold says_all. by rewrite map_app, concat_app. Qed.

Lemma bytes_from_split id off (n : nat) l : (n <= length l)%nat ->
  bytes_from id off (take n l) ++ bytes_from id (off + Z.of_nat n) (drop n l) = bytes_from id off l.
Proof.
  revert off n. induction l as [|b l IH]; intros off [|n] Hn; cbn in *; try lia; [done | by rewrite Z.add_0_r |].
  f_equal. rewrite <- (IH (off + 1) n) by lia. f_equal. f_equal. lia.
Qed.

Lemma varint_len_range v : 1 <= ngx_quic_varint_len v <= 8.
Proof. unfold ngx_quic_varint_len. repeat case_if; lia. Qed.

Lemma varint_len_mono a b : a <= b -> ngx_quic_varint_len a <= ngx_quic_varint_len b.
Proof. intros H. unfold ngx_quic_varint_len. change (Z.shiftl 1 6) with 64. change (Z.shiftl 1 14) with 16384.
  change (Z.shiftl 1 30) with 1073741824. repeat case_if; lia. Qed.

(** A frame of the queue is written as its length says. *)
Lemma queued_bytes k f : queued k f -> exists bs, ngx_quic_create_frame true (content f) = Some (len bs, bs) /\ flen f = len bs /\
  0 < len bs /\ frame_bytes (content f) bs /\ wf_bytes bs.
Proof.
  intros ((Hs & Ho & Hv & _) & Hl). destruct (frame_created _ Hs Ho Hv) as (bs & E1 & E2 & Hb & Hw). exists bs.
  unfold new_frame in Hl. rewrite E2 in Hl. cbn in Hl. split_and!; [done | done | | done | done].
  destruct Hb as (ty & b & pad & Ht & _ & -> & _). apply varint_range in Ht. unfold len. rewrite !length_app. lia.
Qed.

Lemma stream_length offset length id fin data :
  flen (new_frame (STREAM offset length id true true fin data)) = 1 + ngx_quic_varint_len id + ngx_quic_varint_len offset + ngx_quic_varint_len length + length.
Proof.
  change (flen _) with (vlen (stream_type true true fin) + vlen id + vlen offset + vlen length + length).
  assert (vlen (stream_type true true fin) = 1) as -> by (by destruct fin). done.
Qed.

Lemma crypto_length offset length data :
  flen (new_frame (CRYPTO offset length data)) = 1 + ngx_quic_varint_len offset + ngx_quic_varint_len length + length.
Proof. reflexivity. Qed.

(** What the frames of ordered data have in common. *)
Record ordered_frame (k : packet) (c : frame) (offset length : Z) (data : list Z) (make : Z -> Z -> list Z -> bool -> frame) (fin : bool) : Prop := {
  of_length : length = len data;
  of_range : 0 <= offset /\ offset + length < 2 ^ 62;
  of_data : wf_bytes data;
  of_size : exists h, forall o n d b, flen (new_frame (make o n d b)) = h + ngx_quic_varint_len o + ngx_quic_varint_len n + n;
  of_ok : forall o n d b, n = len d -> 0 <= o -> o + n < 2 ^ 62 -> wf_bytes d -> content_ok k (make o n d b);
  of_says : exists id e, forall o n d b, says (make o n d b) = bytes_from id o d ++ if b then e (o + n) else [];
  of_make : make offset length data fin = c }.

Lemma stream_kind o n id o' n' b b' d d' k :
  may_be_in (type_of (STREAM o n id true true b d)) k = may_be_in (type_of (STREAM o' n' id true true b' d')) k.
Proof. by destruct b, b', k. Qed.

Lemma ordered_spec k c offset length data make fin : content_ok k c -> ordered c = Some (offset, length, data, make, fin) ->
  ordered_frame k c offset length data make fin.
Proof.
  intros (Hs & Ho & Hv & Hm & Hx) E. unfold values_ok in Hv. destruct c; try done; injection E as <- <- <- <- <-; cbn [layout app] in Hv.
  - apply Forall_cons_1 in Hv as [Hv1 Hv]. apply Forall_cons_1 in Hv as [Hv2 Hv]. apply Forall_cons_1 in Hv as [Hv3 _]. cbn in Hv1, Hv2, Hv3.
    split; [done | lia | done | | | | done].
    + exists 1. intros. apply crypto_length.
    + intros o n d b -> ? ? ?. unfold len in *. repeat split; [| done | lia]. unfold values_ok. cbn. repeat constructor; cbn; try lia; done.
    + exists None, (fun _ => []). intros. cbn. by case_match; rewrite app_nil_r.
  - destruct Hx as (-> & -> & Hx). apply Forall_cons_1 in Hv as [Hv0 Hv]. apply Forall_cons_1 in Hv as [Hv1 Hv].
    apply Forall_cons_1 in Hv as [Hv2 Hv]. apply Forall_cons_1 in Hv as [Hv3 _]. cbn in Hv0, Hv1, Hv2, Hv3.
    split; [apply Ho | lia | done | | | | done].
    + exists (1 + ngx_quic_varint_len stream_id). intros. apply stream_length.
    + intros o n d b -> ? ? ?. unfold len in *. repeat split; [done | | left; etrans; [apply stream_kind | by destruct Hm] | lia].
      unfold values_ok. cbn. repeat constructor; cbn; try lia; done.
    + exists (Some stream_id), (fun x => [Fin stream_id x]). intros. reflexivity.
Qed.

(** Both halves of a frame of ordered data are frames of the queue, and say what it says. *)
Lemma split_frame_spec o k f n : queued k f -> 0 <= n ->
  match ngx_quic_split_frame o f n with
  | SplitError _ => o_grant o = false
  | Declined => True
  | Whole => flen f <= n
  | Split f' nf => queued k f' /\ queued k nf /\ flen f' <= n /\ says (content f') ++ says (content nf) = says (content f)
  end.
Proof.
  intros (Hc & Hl) Hn. unfold ngx_quic_split_frame. destruct (ordered (content f)) as [[[[[offset length] data] make] fin]|] eqn:Eo; [|done].
  destruct (ordered_spec _ _ _ _ _ _ _ Hc Eo) as [Hlen Hr Hd (h & Hsz) Hok (id & e & Hsay) Hmake].
  destruct (Z.leb_spec (flen f) n); [done |]. destruct (Z.leb_spec length (flen f - n)); [done |]. cbv zeta.
  rewrite <- Hmake, Hsz in Hl. set (shrink := flen f - n) in *. set (m := length - shrink) in *.
  assert (E1 : forall g b, flen (with_len (with_content g (make offset m data b))) = h + ngx_quic_varint_len offset + ngx_quic_varint_len m + m)
    by (intros; apply Hsz).
  rewrite E1. pose proof (varint_len_mono m length ltac:(lia)).
  destruct (Z.ltb_spec n (h + ngx_quic_varint_len offset + ngx_quic_varint_len m + m)); [lia |].
  destruct (o_grant o); cbn [negb]; [|done].
  assert (Hm : (Z.to_nat m <= List.length data)%nat) by (unfold len in Hlen; lia).
  split_and!; cbn [with_content with_len content flen]; rewrite ?Hsz.
  - split; cbn [with_content with_len content flen]; rewrite ?Hsz; [|done].
    apply Hok; [unfold len; rewrite length_take; lia | lia | lia | by apply Forall_take].
  - split; cbn [with_content with_len content flen]; rewrite ?Hsz; [|done].
    apply Hok; [unfold len in *; rewrite length_drop; lia | lia | lia | by apply Forall_drop].
  - lia.
  - rewrite !Hsay, app_nil_r, app_assoc. rewrite <- Hmake, Hsay, <- (bytes_from_split id offset (Z.to_nat m) data Hm), Z2Nat.id by lia.
    replace (offset + m + shrink) with (offset + length) by lia. done.
Qed.

(** ** Lemmas: filling a packet *)

Definition frame_text (f : qframe) : list Z := default [] (snd <$> ngx_quic_create_frame true (content f)).
Definition payload_of (l : list qframe) : list Z := concat (map frame_text l).

Definition stamped (o : out) (pn : Z) (f : qframe) : Prop := pnum f = pn /\ send_time f = o_now o /\ plen f = 0.

Lemma payload_app a b : payload_of (a ++ b) = payload_of a ++ payload_of b.
Proof. unfold payload_of. by rewrite map_app, concat_app. Qed.

Lemma queued_text k f : queued k f -> ngx_quic_create_frame true (content f) = Some (len (frame_text f), frame_text f) /\
  flen f = len (frame_text f) /\ 0 < len (frame_text f).
Proof. intros H. destruct (queued_bytes k f H) as (bs & E & Hl & H0 & _). unfold frame_text. rewrite E. cbn. done. Qed.

(** The state of the loop: what was put in the packet since it was [n] bytes long. *)
Record filled (o : out) (k : packet) (pn max n : Z) (todo : list qframe) (ok : bool) (n' : Z) (new todo' : list qframe) : Prop := {
  fd_length : n' = n + len (payload_of new);
  fd_fits : n' <= max;
  fd_queued : Forall (queued k) new;
  fd_stamped : Forall (stamped o pn) new;
  fd_denied : ok = false -> o_grant o = false;
  fd_left : ok = true -> Forall (queued k) todo' /\ says_all new ++ says_all todo' = says_all todo }.

Lemma filled_nothing o k pn max n todo : n <= max -> Forall (queued k) todo -> filled o k pn max n todo true n [] todo.
Proof. intros Hn Hq. split; try done. unfold len. cbn. lia. Qed.

Lemma filled_more o k pn max n f g rest todo ok n' new todo' : queued k f -> n + len (frame_text f) <= max ->
  says (content f) ++ says_all rest = says_all (g :: todo) ->
  filled o k pn max (n + len (frame_text f)) rest ok n' new todo' ->
  filled o k pn max n (g :: todo) ok n' (stamp o pn f :: new) todo'.
Proof.
  intros Hf Hfit Hsay [H1 H2 H3 H4 H5 H6].
  assert (E : payload_of (stamp o pn f :: new) = frame_text f ++ payload_of new) by done. split.
  - rewrite E, H1. unfold len. rewrite length_app. lia.
  - done.
  - by constructor.
  - by constructor.
  - done.
  - intros Hok. destruct (H6 Hok) as [? Hs]. split; [done |]. rewrite <- Hsay, <- Hs. unfold says_all. cbn. by rewrite app_assoc.
Qed.

Lemma fill_packet_spec fuel o k pn max : forall n done payload todo, Forall (queued k) todo -> 0 <= n <= max -> max - n < Z.of_nat fuel ->
  exists ok n' new todo', fill_packet fuel o pn max n done payload todo = Some (ok, n', done ++ new, payload ++ payload_of new, todo') /\
    filled o k pn max n todo ok n' new todo'.
Proof.
  induction fuel as [|fuel IH]; intros n done payload todo Hq Hn Hfuel; [lia |]. cbn [fill_packet].
  assert (Hstop : forall l, Forall (queued k) l -> filled o k pn max n l true n [] l /\ done ++ [] = done /\ payload ++ payload_of [] = payload).
  { intros l Hl. split; [apply filled_nothing; [lia | done] |]. cbn. by rewrite !app_nil_r. }
  destruct todo as [|f rest]; [destruct (Hstop [] Hq) as (H & E1 & E2); exists true, n, [], []; by rewrite E1, E2 |].
  destruct (Z.leb_spec max n) as [Hfull | Hfull]; [destruct (Hstop _ Hq) as (H & E1 & E2); exists true, n, [], (f :: rest); by rewrite E1, E2 |].
  apply Forall_cons_1 in Hq as [Hf Hrest]. cbv zeta.
  assert (Hput : forall g t, queued k g -> Forall (queued k) t -> n + flen g <= max -> says (content g) ++ says_all t = says_all (f :: rest) ->
    exists ok n' new todo',
      match ngx_quic_create_frame true (content (stamp o pn g)) with
      | None => Some (false, n, done, payload, stamp o pn g :: t)
      | Some (kk, bytes) => fill_packet fuel o pn max (n + kk) (done ++ [stamp o pn g]) (payload ++ bytes) t
      end = Some (ok, n', done ++ new, payload ++ payload_of new, todo') /\ filled o k pn max n (f :: rest) ok n' new todo').
  { intros g t Hg Ht Hfit Hsay. destruct (queued_text k g Hg) as (E & Hl & H0). cbn [content stamp]. rewrite E.
    destruct (IH (n + len (frame_text g)) (done ++ [stamp o pn g]) (payload ++ frame_text g) t Ht ltac:(lia) ltac:(lia)) as (ok & n' & new & todo' & -> & Hfd).
    exists ok, n', (stamp o pn g :: new), todo'. split; [by rewrite <- !app_assoc |]. apply (filled_more _ _ _ _ _ _ _ t); [done | lia | done | done]. }
  destruct (Z.ltb_spec max (n + flen f)) as [Hbig | Hbig]; [|by apply Hput].
  pose proof (split_frame_spec o k f (max - n) Hf ltac:(lia)) as Hsplit. destruct (ngx_quic_split_frame o f (max - n)) as [g| | |g nf].
  - exists false, n, [], (g :: rest). cbn [payload_of map concat]. rewrite !app_nil_r. split; [done |].
    split; try done; unfold len; cbn; lia.
  - destruct (Hstop (f :: rest)) as (H & E1 & E2); [by constructor |]. exists true, n, [], (f :: rest). by rewrite E1, E2.
  - lia.
  - destruct Hsplit as (Hg & Hnf & Hl & Hsay). apply Hput; [done | by constructor | lia |].
    unfold says_all. cbn. by rewrite app_assoc, Hsay.
Qed.

(** ** Lemmas: the length of a packet *)

Lemma build_int_length v : len (ngx_quic_build_int v) = ngx_quic_varint_len v.
Proof. unfold ngx_quic_build_int, ngx_quic_varint_len, len. repeat case_if; done. Qed.

Lemma trunc_length h : 1 <= num_len h <= 4 -> len (trunc_bytes h) = num_len h.
Proof. intros H. unfold trunc_bytes, len. repeat case_if; cbn; lia. Qed.

Lemma header_length h n : 1 <= num_len h <= 4 -> len (ngx_quic_create_header h n) =
  if ngx_quic_short_pkt (flags h) then 1 + len (dcid h) + num_len h
  else 5 + 2 + len (dcid h) + len (scid h) + (if bool_decide (lvl h = initial) then 1 else 0) +
       ngx_quic_varint_len (num_len h + n + NGX_QUIC_TAG_LEN) + num_len h.
Proof.
  intros H. pose proof (trunc_length h H) as Ht. pose proof (build_int_length (num_len h + n + NGX_QUIC_TAG_LEN)) as Hb.
  unfold ngx_quic_create_header, ngx_quic_create_short_header, ngx_quic_create_long_header, len in *.
  destruct (ngx_quic_short_pkt (flags h)); repeat (rewrite length_app || cbn [length]); [lia |].
  destruct (bool_decide (lvl h = initial)); cbn [length ngx_quic_write_uint32]; change (length (ngx_quic_build_int 0)) with 1%nat; lia.
Qed.

(** A payload of the size that was computed makes a packet that fits. *)
Lemma payload_fits h n max : 1 <= num_len h <= 4 -> 0 < n <= ngx_quic_payload_size h max ->
  len (ngx_quic_create_header h n) + n + NGX_QUIC_TAG_LEN <= max.
Proof.
  intros H14 Hn. rewrite header_length by done. unfold ngx_quic_payload_size in Hn.
  destruct (ngx_quic_short_pkt (flags h)); cbv zeta in Hn; repeat case_if_in Hn; unfold NGX_QUIC_TAG_LEN in *; try lia.
  all: set (a := 5 + 2 + len (dcid h) + len (scid h) + _) in *.
  all: pose proof (varint_len_mono (num_len h + n + 16) (max - a)); pose proof (varint_len_range (max - a)); lia.
Qed.

Lemma init_packet_number o x : 1 <= num_len (ngx_quic_init_packet o x) <= 4.
Proof.
  unfold ngx_quic_init_packet. set (fl := match o_level o with initial => _ | early_data => _ | handshake => _ | application_data => _ end). clearbody fl.
  unfold ngx_quic_set_packet_number. cbv zeta. repeat case_if; cbn; lia.
Qed.

(** ** Lemmas: the frames are read back *)

Definition closes (c : frame) : bool := match c with CONNECTION_CLOSE _ _ _ | CONNECTION_CLOSE_APP _ _ => true | _ => false end.

Lemma queued_read k f fl rest : queued k f -> server_only (content f) = false -> packet_of fl = k -> is_byte fl -> wf_bytes rest ->
  ngx_quic_parse_frame fl (frame_text f ++ rest) = Some (Frame (content f) rest) /\ wf_bytes (frame_text f).
Proof.
  intros Hq Hso Hk Hfl Hr. destruct (queued_bytes k f Hq) as (bs & E & _ & _ & Hb & Hw). destruct Hq as ((Hs & Ho & Hv & Hm & Hx) & _).
  unfold frame_text. rewrite E. change (default [] (snd <$> Some (len bs, bs))) with bs. split; [|done].
  destruct (parse_frame_spec fl (bs ++ rest) Hfl) as (r & -> & Hi & _); [by apply wf_bytes_app |]. f_equal. apply Hi. exists bs.
  split_and!; try done.
  - rewrite Hk. destruct Hm as [? | ?]; congruence.
  - destruct (content f); try done. cbn in Hx |- *. by destruct Hx as (_ & -> & _).
Qed.

Lemma payload_wf k l : Forall (queued k) l -> wf_bytes (payload_of l).
Proof.
  induction 1 as [|f l Hf Hl IH]; [constructor |]. unfold payload_of. cbn. apply wf_bytes_app. split; [|done].
  destruct (queued_bytes k f Hf) as (bs & E & _ & _ & _ & Hw). unfold frame_text. by rewrite E.
Qed.

(** The frames of a payload, with whatever is read after them. *)
Lemma frames_read k fl l rest : packet_of fl = k -> is_byte fl -> wf_bytes rest -> Forall (queued k) l ->
  Forall (fun f => server_only (content f) = false) l -> forall fuel c np nd,
  ngx_quic_handle_frames (length l + fuel) fl (payload_of l ++ rest) c np nd =
    (fun r => (map content l ++ r.1, r.2)) <$>
      ngx_quic_handle_frames fuel fl rest (c || existsb (fun f => closes (content f)) l)
        (np || existsb (fun f => negb (probing (content f))) l) (nd || existsb (fun f => need_ack (content f)) l).
Proof.
  intros Hk Hfl Hr. induction 1 as [|f l Hf Hl IH]; intros Hso fuel c np nd.
  { cbn. rewrite !orb_false_r. by destruct (ngx_quic_handle_frames fuel fl rest c np nd) as [[? ?]|]. }
  apply Forall_cons_1 in Hso as [Hfs Hso]. cbn [length Nat.add ngx_quic_handle_frames].
  unfold payload_of. cbn [map concat]. fold (payload_of l). rewrite <- app_assoc.
  assert (Hw : wf_bytes (payload_of l ++ rest)) by (apply wf_bytes_app; split; [by eapply payload_wf | done]).
  destruct (queued_read k f fl _ Hf Hfs Hk Hfl Hw) as [E _]. destruct (queued_text k f Hf) as (_ & _ & H0).
  destruct (frame_text f ++ payload_of l ++ rest) as [|b p] eqn:Ep; [apply app_eq_nil in Ep as [E0 _]; rewrite E0 in H0; done |].
  rewrite E. cbn [mbind option_bind existsb map]. destruct Hf as ((Hs & _) & _). rewrite !orb_assoc.
  assert (Hh : handler_of (content f) = if closes (content f) then DoClose else if need_ack (content f) then Handle else HandleAck).
  { destruct (content f); try done. by destruct ecn. }
  rewrite Hh. destruct (closes (content f)) eqn:Ec; [|destruct (need_ack (content f)) eqn:En]; rewrite (IH Hso).
  - assert (need_ack (content f) = false) as -> by (by destruct (content f)). rewrite orb_true_r, orb_false_r.
    destruct (ngx_quic_handle_frames _ _ _ _ _ _) as [[? ?]|]; done.
  - rewrite orb_false_r, orb_true_r. destruct (ngx_quic_handle_frames _ _ _ _ _ _) as [[? ?]|]; done.
  - rewrite !orb_false_r. destruct (ngx_quic_handle_frames _ _ _ _ _ _) as [[? ?]|]; done.
Qed.

(** ** Lemmas: packets *)

Definition kind_of (l : level) : packet :=
  match l with initial => Initial | handshake => Handshake | early_data => OneRTT | application_data => OneRTT end.

Lemma init_packet_flags o x : is_byte (flags (ngx_quic_init_packet o x)) /\ packet_of (flags (ngx_quic_init_packet o x)) = kind_of (o_level o).
Proof.
  unfold ngx_quic_init_packet, ngx_quic_set_packet_number. cbv zeta. destruct (o_level o); try destruct (o_key_phase o);
    repeat case_if; cbn [flags]; (split; [split; done | reflexivity]).
Qed.

(** What a packet made of the queue of [x] carries: the frames [new], which are those
    that are in the datagram now. *)
Record carried (o : out) (max min : Z) (x : send_ctx) (h : header) (payload : list Z) (n : Z) (x' : send_ctx) (new : list qframe) : Prop := {
  cd_sending : sending x' = sending x ++ new;
  cd_some : new <> [];
  cd_says : says_all new ++ says_all (frames x') = says_all (frames x);
  cd_number : Forall (fun f => pnum f = next_pnum x /\ send_time f = o_now o) new /\ next_pnum x' = next_pnum x + 1;
  cd_sent : QuicAck.sent x' = QuicAck.sent x /\ largest_ack x' = largest_ack x;
  cd_weight : exists f t, new = f :: t /\ plen f = (if existsb (fun f => need_ack (content f)) new then n else 0) /\ Forall (fun g => plen g = 0) t;
  cd_queued : Forall (queued (kind_of (o_level o))) (new ++ frames x');
  cd_header : h = ngx_quic_init_packet o x;
  cd_payload : exists pad, payload = payload_of new ++ repeat NGX_QUIC_FT_PADDING pad;
  cd_length : n = len (ngx_quic_create_header h (len payload)) + len payload + NGX_QUIC_TAG_LEN;
  cd_max : n <= max;
  cd_min : ngx_quic_payload_size h min <= len payload /\ 4 <= num_len h + len payload }.

Lemma contents_same l l' : map content l = map content l' ->
  says_all l = says_all l' /\ payload_of l = payload_of l' /\
  existsb (fun f => need_ack (content f)) l = existsb (fun f => need_ack (content f)) l'.
Proof.
  unfold says_all, payload_of, frame_text. intros H.
  split_and!; revert l' H; induction l as [|f l IH]; intros [|g l']; cbn; try done; intros [= E H]; rewrite E; try f_equal; auto; by rewrite (IH _ H).
Qed.

Lemma queued_change k f g : content f = content g -> flen f = flen g -> queued k f -> queued k g.
Proof. intros Hc Hl [H1 H2]. split; congruence. Qed.

Lemma finish_packet_spec o k max min x n done todo :
  k = kind_of (o_level o) -> Forall (queued k) (frames x) ->
  let h := ngx_quic_init_packet o x in
  let min_payload := Z.max (ngx_quic_payload_size h min) (4 - num_len h) in
  min_payload <= ngx_quic_payload_size h max ->
  filled o k (next_pnum x) (ngx_quic_payload_size h max) 0 (frames x) true n done todo ->
  match finish_packet o h min_payload done (payload_of done) todo x with
  | (OutNothing, x') => x' = set_frames (done ++ todo) x /\ done = []
  | (OutError, _) => o_seals o = false
  | (OutPacket h' payload n, x') => exists new, carried o max min x h' payload n x' new
  end.
Proof.
  intros Hk Hq h mp Hmin [H1 H2 H3 H4 _ H6]. destruct (H6 eq_refl) as [Hqt Hsay]. unfold finish_packet.
  destruct (decide (done = [])) as [-> | Hne]; [by rewrite bool_decide_true | rewrite bool_decide_false by done].
  destruct (o_seals o); cbn [negb]; [|done]. rewrite Z.add_0_l in H1.
  pose proof (init_packet_number o x) as H14. fold h in H14.
  set (payload := if len (payload_of done) <? mp then _ else _).
  assert (Hpad : exists pad, payload = payload_of done ++ repeat NGX_QUIC_FT_PADDING pad /\
    mp <= len payload /\ len (payload_of done) <= len payload <= ngx_quic_payload_size h max).
  { unfold payload. destruct (Z.ltb_spec (len (payload_of done)) mp).
    - eexists. split; [reflexivity |]. unfold len in *. rewrite length_app, repeat_length. lia.
    - exists 0%nat. cbn. rewrite app_nil_r. split; [done | lia]. }
  destruct Hpad as (pad & Ep & Hp1 & Hp2). clearbody payload.
  assert (H0 : 0 < len (payload_of done)).
  { destruct done as [|f done]; [done |]. apply Forall_cons_1 in H3 as [Hf _]. destruct (queued_text k f Hf) as (_ & _ & Hpos).
    unfold payload_of, len in *. cbn. rewrite length_app. lia. }
  set (need := existsb _ done). set (nn := _ + _ + NGX_QUIC_TAG_LEN). set (marked := if need then mark_length nn done else done).
  exists (map (sent_frame need) marked).
  assert (Hm : exists f t, done = f :: t) by (destruct done as [|f t]; [done | by exists f, t]). destruct Hm as (f & t & Ed).
  assert (Hmarked : marked = QF (content f) (flen f) (pnum f) (send_time f) (if need then nn else plen f) (pkt_need_ack f) (ignore_congestion f) (ignore_loss f) :: t).
  { unfold marked. rewrite Ed. destruct need; [done | by destruct f]. }
  assert (Hc : map content (map (sent_frame need) marked) = map content done).
  { rewrite Hmarked, Ed. cbn. f_equal. rewrite map_map. done. }
  destruct (contents_same _ _ Hc) as (Es & Epl & En). rewrite Ed in H3, H4.
  apply Forall_cons_1 in H3 as [Hqf Hqd]. apply Forall_cons_1 in H4 as [(Hf1 & Hf2 & Hf3) Hst].
  split; cbn [sending next_pnum frames QuicAck.sent largest_ack set_sending set_frames set_next].
  - done.
  - by rewrite Hmarked.
  - by rewrite Es.
  - split; [|done]. rewrite Hmarked. cbn. constructor; [done |]. apply Forall_map. eapply Forall_impl; [exact Hst |]. intros g (? & ? & ?). done.
  - done.
  - rewrite En. fold need. rewrite Hmarked. cbn. eexists _, _. split; [reflexivity |]. split; [cbn; by rewrite Hf3 |].
    apply Forall_map. eapply Forall_impl; [exact Hst |]. intros g (? & ? & ?). done.
  - apply Forall_app. subst k. split; [|done]. rewrite Hmarked. cbn. constructor; [by eapply (queued_change _ f) |].
    apply Forall_map. eapply Forall_impl; [exact Hqd |]. intros g Hg. by eapply (queued_change _ g).
  - done.
  - exists pad. by rewrite Epl.
  - done.
  - apply payload_fits; [done | lia].
  - lia.
Qed.

Lemma varint_zero : varint 0 [0].
Proof. exists O. split_and!; [lia | lia | cbn; lia | done]. Qed.

Lemma zeros_wf pad : wf_bytes (repeat 0 pad).
Proof. apply Forall_forall. intros z Hz%list_elem_of_In%repeat_spec. subst. split; lia. Qed.

Lemma zeros_read fl pad c np nd : is_byte fl ->
  ngx_quic_handle_frames 2 fl (repeat 0 pad) c np nd = Some (if bool_decide (pad = O) then [] else [PADDING], FramesDone c np nd).
Proof.
  intros Hf. destruct pad as [|pad]; [done |]. cbn [repeat ngx_quic_handle_frames].
  destruct (parse_frame_spec fl _ Hf (zeros_wf (S pad))) as (r & E & Hi & _). cbn [repeat] in E. rewrite E. assert (r = Frame PADDING []) as ->.
  { apply Hi. exists ([0] ++ [] ++ repeat 0 pad). split_and!; [| done | cbn; by destruct (packet_of fl) | by rewrite app_nil_r | done].
    exists [0], [], pad. split_and!; [apply varint_zero | constructor | done | by left]. }
  cbn. by rewrite orb_false_r.
Qed.

(** The frames of a payload, and the padding after them. *)
Definition padded (l : list qframe) (pad : nat) : list frame := map content l ++ if bool_decide (pad = O) then [] else [PADDING].

Lemma payload_read k fl l pad : packet_of fl = k -> is_byte fl -> Forall (queued k) l ->
  Forall (fun f => server_only (content f) = false) l ->
  ngx_quic_handle_frames (length l + 2) fl (payload_of l ++ repeat 0 pad) false false false =
    Some (padded l pad, FramesDone (existsb (fun f => closes (content f)) l) (existsb (fun f => negb (probing (content f))) l)
      (existsb (fun f => need_ack (content f)) l)).
Proof.
  intros Hk Hf Hq Hso. rewrite (frames_read k fl l (repeat 0 pad)), zeros_read by (done || apply zeros_wf). done.
Qed.

Lemma payload_size_nonneg h n : 0 <= ngx_quic_payload_size h n.
Proof. unfold ngx_quic_payload_size. repeat case_if; lia. Qed.

(** What becomes of a queue. *)
Definition output_done (o : out) (max min : Z) (x : send_ctx) (r : output_result) (x' : send_ctx) : Prop :=
  match r with
  | OutPacket h payload n => exists new, carried o max min x h payload n x' new
  | OutNothing =>
      sending x' = sending x /\ next_pnum x' = next_pnum x /\
      (o_keys o = true -> Forall (queued (kind_of (o_level o))) (frames x') /\ says_all (frames x') = says_all (frames x))
  | OutError => o_grant o = false \/ o_seals o = false
  end.

Lemma output_spec o max min x : Forall (queued (kind_of (o_level o))) (frames x) ->
  exists r x', ngx_quic_output_packet o max min x = Some (r, x') /\ output_done o max min x r x'.
Proof.
  intros Hq. unfold ngx_quic_output_packet. destruct (frames x) as [|f0 t0] eqn:Ef.
  { exists OutNothing, x. cbn. rewrite Ef. done. }
  rewrite <- Ef in *. clear Ef. destruct (o_keys o) eqn:Ek; cbn [negb].
  2: { eexists OutNothing, _. split; [reflexivity |]. cbn. by rewrite Ek. }
  set (h := ngx_quic_init_packet o x). set (mp := Z.max _ _).
  destruct (Z.ltb_spec (ngx_quic_payload_size h max) mp) as [Hno | Hmin].
  { exists OutNothing, x. cbn. done. }
  pose proof (payload_size_nonneg h max) as H0.
  destruct (fill_packet_spec (S (Z.to_nat (ngx_quic_payload_size h max))) o _ (next_pnum x) (ngx_quic_payload_size h max) 0 [] [] (frames x) Hq)
    as (ok & n & done & todo & E & Hfd); [lia | lia |].
  rewrite E. cbn [mbind option_bind app]. destruct ok; cbn [negb].
  - pose proof (finish_packet_spec o _ max min x n done todo eq_refl Hq Hmin Hfd) as H. fold h mp in H.
    destruct (finish_packet o h mp done (payload_of done) todo x) as [[| |h' payload n'] x'] eqn:Efin; cbn -[payload_of].
    + eexists _, _. split; [reflexivity |]. by right.
    + destruct H as [-> ->]. eexists _, _. split; [reflexivity |]. cbn. split_and!; [done | done |]. intros _.
      destruct Hfd as [_ _ _ _ _ H6]. by apply H6.
    + eexists _, _. split; [reflexivity |]. done.
  - eexists OutError, _. split; [reflexivity |]. left. by apply Hfd.
Qed.

Lemma carried_read o max min x h payload n x' new : carried o max min x h payload n x' new ->
  Forall (fun f => server_only (content f) = false) new ->
  exists pad, ngx_quic_handle_frames (length new + 2) (flags h) payload false false false =
    Some (padded new pad, FramesDone (existsb (fun f => closes (content f)) new) (existsb (fun f => negb (probing (content f))) new)
      (existsb (fun f => need_ack (content f)) new)).
Proof.
  intros [] Hso. destruct cd_payload0 as (pad & ->). subst h. destruct (init_packet_flags o x) as [Hf Hk].
  exists pad. apply Forall_app in cd_queued0 as [Hq _]. by apply (payload_read (kind_of (o_level o))).
Qed.

(** Whatever is queued, the frames that were taken are stamped. *)
Lemma fill_stamps o pn max fuel : forall n done payload todo ok n' d p t,
  fill_packet fuel o pn max n done payload todo = Some (ok, n', d, p, t) -> exists new, d = done ++ new /\ Forall (stamped o pn) new.
Proof.
  induction fuel as [|fuel IH]; intros n fs payload todo ok n' d p t; cbn [fill_packet]; [done |].
  assert (Hnil : exists new, fs = fs ++ new /\ Forall (stamped o pn) new) by (exists []; by rewrite app_nil_r).
  destruct todo as [|f rest]; [by intros [= <- <- <- <- <-] |]. destruct (max <=? n); [by intros [= <- <- <- <- <-] |]. cbv zeta.
  assert (Hput : forall g l, match ngx_quic_create_frame true (content (stamp o pn g)) with
      | None => Some (false, n, fs, payload, stamp o pn g :: l)
      | Some (kk, bytes) => fill_packet fuel o pn max (n + kk) (fs ++ [stamp o pn g]) (payload ++ bytes) l
      end = Some (ok, n', d, p, t) -> exists new, d = fs ++ new /\ Forall (stamped o pn) new).
  { intros g l. destruct (ngx_quic_create_frame _ _) as [[kk bytes]|]; [|by intros [= <- <- <- <- <-]].
    intros H. destruct (IH _ _ _ _ _ _ _ _ _ H) as (new & -> & Hnew). exists (stamp o pn g :: new). rewrite <- app_assoc. split; [done | by constructor]. }
  destruct (max <? n + flen f); [|apply Hput]. destruct (ngx_quic_split_frame o f (max - n)); [by intros [= <- <- <- <- <-].. | apply Hput | apply Hput].
Qed.

Lemma output_stamps o max min x r x' : ngx_quic_output_packet o max min x = Some (r, x') ->
  QuicAck.sent x' = QuicAck.sent x /\ largest_ack x' = largest_ack x /\
  exists new, sending x' = sending x ++ new /\ Forall (fun f => pnum f = next_pnum x) new /\
    match r with
    | OutPacket _ _ _ => next_pnum x' = next_pnum x + 1 /\ exists f t, new = f :: t /\ Forall (fun g => plen g = 0) t
    | _ => next_pnum x' = next_pnum x /\ new = []
    end.
Proof.
  unfold ngx_quic_output_packet. destruct (frames x) as [|f0 t0] eqn:Ef.
  { intros [= <- <-]. split_and!; [done | done |]. exists []. by rewrite app_nil_r. }
  rewrite <- Ef. assert (Hnil : forall l, exists new, sending x = sending x ++ new /\ Forall (fun f => pnum f = next_pnum x) new /\
    next_pnum (set_frames l x) = next_pnum x /\ new = []) by (intros; exists []; by rewrite app_nil_r).
  destruct (o_keys o); cbn [negb]; [|by intros [= <- <-]]. set (h := ngx_quic_init_packet o x). cbv zeta.
  destruct (ngx_quic_payload_size h max <? _); [intros [= <- <-]; split_and!; [done | done | apply (Hnil (frames x))] |].
  destruct (fill_packet _ _ _ _ _ _ _ _) as [[[[[ok n] fs] payload] todo]|] eqn:E; cbn [mbind option_bind]; [|done].
  destruct (fill_stamps _ _ _ _ _ _ _ _ _ _ _ _ _ E) as (new & Ed & Hst). cbn [app] in Ed. subst fs.
  destruct ok; cbn [negb]; [|by intros [= <- <-]]. intros [= H]. revert H. unfold finish_packet.
  destruct (decide (new = [])) as [-> | Hne]; [rewrite bool_decide_true by done; by intros [= <- <-] | rewrite bool_decide_false by done].
  destruct (o_seals o); cbn [negb]; [|by intros [= <- <-]]. set (need := existsb _ new). set (nn := _ + NGX_QUIC_TAG_LEN).
  intros [= <- <-]. split_and!; [done | done |]. cbn [sending set_sending set_frames set_next next_pnum]. eexists. split; [reflexivity |].
  assert (Hm : exists f t, new = f :: t) by (destruct new as [|f t]; [done | by exists f, t]). destruct Hm as (f & t & ->).
  apply Forall_cons_1 in Hst as [(Hf & _) Ht].
  assert (Hms : forall a, Forall (fun g => pnum g = next_pnum x) (map (sent_frame a) t) /\ Forall (fun g => plen g = 0) (map (sent_frame a) t)).
  { intros a. rewrite !Forall_map. split; (eapply Forall_impl; [exact Ht |]); intros g (? & ? & ?); done. }
  destruct (Hms need) as [Hm1 Hm2].
  destruct need; cbn [mark_length map]; (split; [constructor; [done | exact Hm1] |]); (split; [done |]); eexists _, _; (split; [reflexivity | exact Hm2]).
Qed.

(** ** Properties *)

(** C23. A packet is made of the queue of frames, whatever its limits: the frames it
    takes and those that are left say what the queue said, byte by byte of every
    stream; the packet has the next number, is not longer than [max], not shorter than
    the sample of header protection needs, and its length is noted once for the
    congestion code; the peer that gets it reads these frames, in order, and padding.
    Without memory or encryption nothing is promised, and nothing else fails. *)
Theorem packet_carries_frames o max min x :
  Forall (queued (kind_of (o_level o))) (frames x) ->
  exists r x', ngx_quic_output_packet o max min x = Some (r, x') /\ output_done o max min x r x' /\
    forall h payload n new, r = OutPacket h payload n -> carried o max min x h payload n x' new ->
      Forall (fun f => server_only (content f) = false) new ->
      exists pad, ngx_quic_handle_frames (length new + 2) (flags h) payload false false false =
        Some (padded new pad, FramesDone (existsb (fun f => closes (content f)) new)
          (existsb (fun f => negb (probing (content f))) new) (existsb (fun f => need_ack (content f)) new)).
Proof.
  intros Hq. destruct (output_spec o max min x Hq) as (r & x' & E & Hd). exists r, x'. split_and!; [done | done |].
  intros h payload n new -> Hc Hso. by eapply carried_read.
Qed.

(** C24. The header of a packet is read as it was written, by a peer that knows the
    connection: the level, the version, the connection ids and the length; the bytes
    that are sent of the number give the whole number, as long as the peer knows the
    last packet that it has acknowledged and no packet far ahead of this one. *)
Theorem packet_header_read o x h n tail lp :
  h = ngx_quic_init_packet o x -> let b := ngx_quic_create_header h n in let a := default (-1) (largest_ack x) in
  header_ok h (len (b ++ tail)) -> 0 <= n < 2 ^ 61 -> wf_bytes tail -> n + NGX_QUIC_TAG_LEN <= len tail ->
  0 <= next_pnum x < 2 ^ 62 -> -1 <= a < next_pnum x -> next_pnum x - a < 2 ^ 31 ->
  a <= lp < 2 ^ 62 -> lp + 1 < next_pnum x + 2 ^ (8 * num_len h - 1) ->
  exists p, b = flags h :: p /\ ngx_quic_parse_packet (flags h) (p ++ tail) = HeaderOk (as_read h n (trunc_bytes h ++ tail)) /\
    Z.land (flags h) 3 + 1 = num_len h /\ ngx_quic_parse_pn (trunc_bytes h) (u64 lp) = (next_pnum x, u64 (Z.max lp (next_pnum x))).
Proof.
  intros Eh b a Hok Hn Ht Hlen Hp Ha Hd Hl Hw. destruct (header_read h n tail Hok Hn Ht Hlen) as (p & Eb & Er).
  exists p. split_and!; [done | done | |].
  - rewrite Eh. unfold ngx_quic_init_packet, ngx_quic_set_packet_number. cbv zeta. destruct (o_level o); try destruct (o_key_phase o);
      repeat case_if; reflexivity.
  - unfold ngx_quic_init_packet in Eh. set (fl := match o_level o with initial => _ | early_data => _ | handshake => _ | application_data => _ end) in Eh.
    destruct (ngx_quic_set_packet_number (next_pnum x) (largest_ack x) fl) as [[fl' k] t] eqn:Es.
    assert (num_len h = k /\ trunc h = t) as [E1 E2] by (by rewrite Eh). rewrite E1 in Hw.
    by apply (pn_read _ _ _ _ _ _ _ _ Hp Ha Hd Es).
Qed.

(** ** Witnesses *)

Definition sample_out : out :=
  Out application_data false (repeat 7 20) [] 1 true true true 1000.

(** Thirty bytes of the stream 4 and its end, and a PING. *)
Definition sample_ctx : send_ctx :=
  set_frames [new_frame (STREAM 0 30 4 true true true (repeat 97 30)); new_frame PING]
    (set_next 300 (set_largest_ack (Some 250) ctx_init)).

Lemma sample_queued : Forall (queued (kind_of (o_level sample_out))) (frames sample_ctx).
Proof.
  constructor; [|constructor; [|constructor]]; (split; [|reflexivity]).
  - split; [reflexivity |]. split; [split; [reflexivity | discriminate] |]. split; [| split; [by left | split; [done | split; [done | reflexivity]]]].
    repeat (constructor; [cbn; split; done || lia |]). constructor; [|constructor]. cbn. repeat (constructor; [split; lia |]). constructor.
  - split; [reflexivity |]. split; [exact I |]. split; [constructor | split; [by left | exact I]].
Qed.

Lemma packet_carries_frames_witness :
  (exists h p x', ngx_quic_output_packet sample_out 60 0 sample_ctx = Some (OutPacket h p 60, x') /\
    map content (sending x') = [STREAM 0 18 4 true true false (repeat 97 18)] /\
    map content (frames x') = [STREAM 18 12 4 true true true (repeat 97 12); PING]) /\
  exists r x', ngx_quic_output_packet sample_out 60 0 sample_ctx = Some (r, x') /\ output_done sample_out 60 0 sample_ctx r x'.
Proof.
  split; [do 3 eexists; split; [vm_compute; reflexivity | split; reflexivity] |].
  destruct (packet_carries_frames sample_out 60 0 sample_ctx sample_queued) as (r & x' & E & Hd & _). exists r, x'. split; [exact E | exact Hd].
Defined.

Lemma packet_header_read_witness :
  let h := ngx_quic_init_packet sample_out sample_ctx in
  ngx_quic_create_header h 22 = 0x40 :: repeat 7 20 ++ [44] /\
  exists p, ngx_quic_create_header h 22 = flags h :: p /\
    ngx_quic_parse_packet (flags h) (p ++ repeat 5 38) = HeaderOk (as_read h 22 (trunc_bytes h ++ repeat 5 38)) /\
    Z.land (flags h) 3 + 1 = num_len h /\ ngx_quic_parse_pn (trunc_bytes h) (u64 260) = (300, u64 (Z.max 260 300)).
Proof.
  split; [reflexivity |].
  apply (packet_header_read sample_out sample_ctx (ngx_quic_init_packet sample_out sample_ctx) 22 (repeat 5 38) 260).
  - reflexivity.
  - split; [split; done |]. split; [done |]. split; [repeat constructor; done |]. split; [constructor |]. split; [split; done |]. split; done.
  - split; done.
  - repeat constructor; done.
  - done.
  - split; done.
  - split; done.
  - done.
  - split; done.
  - done.
Defined.

(** An ACK frame with counts is read, but no handler takes it: the packet is refused. *)
Remark ack_ecn_refused :
  ngx_quic_parse_frame 0x40 [0x03; 5; 0; 0; 0; 1; 1; 1] = Some (Frame (ACK 5 0 0 0 0 [] (Some (1, 1, 1))) []) /\
  ngx_quic_handle_frames 9 0x40 [0x03; 5; 0; 0; 0; 1; 1; 1] false false false = Some ([], FramesMissing).
Proof. split; reflexivity. Qed.

End QuicPacket.
