(* ===== verification/QuicLoss.v ===== *)
(** * QuicLoss: sent packets of QUIC (src/event/quic/ngx_event_quic_ack.c)

    What becomes of the frames that were sent: they are acknowledged by the peer, or
    found to be lost and sent again; the estimate of the round-trip time, the
    congestion window and the timer that follow from it.  The packet number spaces are
    those of [QuicAck], the frames those of [QuicFrame].

    Numbers have the width of the source, but for the signed ones of the cubic window,
    which stay far from their limits while a window is below 2^41 bytes; the times are
    those of [ngx_msec_t].  The path is one whose MTU is not being searched for.

    The books of a connection, [books], are kept by every operation; what an ACK frame
    does is stated for any connection that has them. *)

From S2P Require Import Prelude QuicFrame QuicAck QuicPacket.
From stdpp Require Import base option list gmap sets.

#[local] Open Scope Z_scope.

Module QuicLoss.

Import QuicFrame QuicAck QuicPacket.

(** ** Definitions *)

Definition NGX_QUIC_PKT_THR : Z := 3.
Definition NGX_QUIC_TIME_GRANULARITY : Z := 1.
Definition NGX_QUIC_PERSISTENT_CONGESTION_THR : Z := 3.
Definition NGX_QUIC_CUBIC_BETA : Z := 7.
Definition MGX_QUIC_CUBIC_C : Z := 4.
Definition NGX_TIMER_INFINITE : Z := 2 ^ 64 - 1.
Definition NGX_QUIC_SEND_CTX_LAST : nat := 3.
Definition NGX_QUIC_SOCKET_RETRY_DELAY : Z := 10.
Definition NGX_QUIC_STREAM_SERVER_INITIATED : Z := 0x01.
Definition NGX_QUIC_STREAM_UNIDIRECTIONAL : Z := 0x02.

(** The index of [ssl_encryption_application]. *)
Definition application : nat := 2.

(** [ngx_quic_congestion_t] *)
Record congestion : Set := Cg {
  in_flight : Z; window : Z; ssthresh : Z; w_max : Z; w_est : Z; w_prior : Z; mtu : Z;
  recovery_start : Z; idle_start : Z; k : Z; idle : bool }.

Definition set_in_flight (x : Z) (g : congestion) : congestion :=
  Cg x (window g) (ssthresh g) (w_max g) (w_est g) (w_prior g) (mtu g) (recovery_start g) (idle_start g) (k g) (idle g).
Definition set_window (x : Z) (g : congestion) : congestion :=
  Cg (in_flight g) x (ssthresh g) (w_max g) (w_est g) (w_prior g) (mtu g) (recovery_start g) (idle_start g) (k g) (idle g).
Definition set_w_est (x : Z) (g : congestion) : congestion :=
  Cg (in_flight g) (window g) (ssthresh g) (w_max g) x (w_prior g) (mtu g) (recovery_start g) (idle_start g) (k g) (idle g).
Definition set_recovery (x : Z) (g : congestion) : congestion :=
  Cg (in_flight g) (window g) (ssthresh g) (w_max g) (w_est g) (w_prior g) (mtu g) x (idle_start g) (k g) (idle g).
Definition set_idle (start k : Z) (i : bool) (g : congestion) : congestion :=
  Cg (in_flight g) (window g) (ssthresh g) (w_max g) (w_est g) (w_prior g) (mtu g) (recovery_start g) start k i.

(** The round-trip times of a connection. *)
Record rtts : Set := Rtt { first_rtt : Z; latest_rtt : Z; avg_rtt : Z; min_rtt : Z; rttvar : Z }.

(** [ngx_quic_stream_send_state_e] *)
Inductive send_state_e : Set :=
  | NGX_QUIC_STREAM_SEND_READY
  | NGX_QUIC_STREAM_SEND_SEND
  | NGX_QUIC_STREAM_SEND_DATA_SENT
  | NGX_QUIC_STREAM_SEND_DATA_RECVD
  | NGX_QUIC_STREAM_SEND_RESET_SENT
  | NGX_QUIC_STREAM_SEND_RESET_RECVD.

#[export] Instance send_state_eq_dec : EqDecision send_state_e.
Proof. solve_decision. Defined.

(** The sending half of [ngx_quic_stream_t], with its [recv_max_data], whether its
    [recv_state] is [NGX_QUIC_STREAM_RECV_RECV], and whether it has a connection. *)
Record sstream : Set := SStream {
  send_state : send_state_e; offset_sent : Z; acked : Z; fin_acked : bool;
  stream_max_data : Z; receiving : bool; connected : bool }.

(** What is left to be done by others, last one first: [qc->push] or [qc->close] was
    posted, the timer of [qc->push] was set, the end of the connection was asked for, a
    stream can be written to. *)
Inductive notice : Set := PushPosted | PushTimer (t : Z) | ClosePosted | ShutdownQuic | WriteEvent (id : Z).

(** The part of [ngx_quic_connection_t] that changes: the packet number spaces, initial,
    handshake and application, congestion, round-trip times, [pto_count], the timer
    [pto] with its handler, the streams, their limits, and [error]. *)
Inductive pto_handler_e : Set := ngx_quic_lost_handler | ngx_quic_pto_handler.

Record conn : Set := Conn {
  ctxs : list send_ctx; cg : congestion; rtt : rtts; pto_count : Z; pto : option (pto_handler_e * Z);
  streams : gmap Z sstream; max_data : Z; max_streams_bidi : Z; max_streams_uni : Z;
  notices : list notice; error : option Z }.

(** What does not change in a call: [ngx_current_msec], the answer of the allocator,
    [rst_pnum], the MTU of the path, [closing], [shutdown], whether the handshake is
    done, whether the timer of [push] is set, and the peer's [ack_delay_exponent] and
    [max_ack_delay]; whether memory is had, the size of the buffers of streams. *)
Record setting : Set := Setting {
  now : Z; grant : bool; rst_pnum : Z; path_mtu : Z; closing : bool; shutdown : bool; handshaked : bool;
  push_set : bool; peer_exponent : Z; peer_max_ack_delay : Z; stream_buffer_size : Z }.

Definition set_ctxs (x : list send_ctx) (c : conn) : conn :=
  Conn x (cg c) (rtt c) (pto_count c) (pto c) (streams c) (max_data c) (max_streams_bidi c) (max_streams_uni c) (notices c) (error c).
Definition set_cg (x : congestion) (c : conn) : conn :=
  Conn (ctxs c) x (rtt c) (pto_count c) (pto c) (streams c) (max_data c) (max_streams_bidi c) (max_streams_uni c) (notices c) (error c).
Definition set_rtt (x : rtts) (c : conn) : conn :=
  Conn (ctxs c) (cg c) x (pto_count c) (pto c) (streams c) (max_data c) (max_streams_bidi c) (max_streams_uni c) (notices c) (error c).
Definition set_pto_count (x : Z) (c : conn) : conn :=
  Conn (ctxs c) (cg c) (rtt c) x (pto c) (streams c) (max_data c) (max_streams_bidi c) (max_streams_uni c) (notices c) (error c).
Definition set_pto (x : option (pto_handler_e * Z)) (c : conn) : conn :=
  Conn (ctxs c) (cg c) (rtt c) (pto_count c) x (streams c) (max_data c) (max_streams_bidi c) (max_streams_uni c) (notices c) (error c).
Definition set_streams (x : gmap Z sstream) (c : conn) : conn :=
  Conn (ctxs c) (cg c) (rtt c) (pto_count c) (pto c) x (max_data c) (max_streams_bidi c) (max_streams_uni c) (notices c) (error c).
Definition set_max_streams (bidi uni : Z) (c : conn) : conn :=
  Conn (ctxs c) (cg c) (rtt c) (pto_count c) (pto c) (streams c) (max_data c) bidi uni (notices c) (error c).
Definition notify (x : notice) (c : conn) : conn :=
  Conn (ctxs c) (cg c) (rtt c) (pto_count c) (pto c) (streams c) (max_data c) (max_streams_bidi c) (max_streams_uni c) (x :: notices c) (error c).
Definition set_error (x : Z) (c : conn) : conn :=
  Conn (ctxs c) (cg c) (rtt c) (pto_count c) (pto c) (streams c) (max_data c) (max_streams_bidi c) (max_streams_uni c) (notices c) (Some x).

(** [ngx_quic_get_send_ctx], by the index of the space *)
Definition space (i : nat) (c : conn) : send_ctx := nth i (ctxs c) ctx_init.
Definition set_space (i : nat) (x : send_ctx) (c : conn) : conn := set_ctxs (<[i := x]> (ctxs c)) c.

Section operations.

Context (e : setting).

(** ** Definitions: thresholds *)

Definition ngx_quic_time_threshold (r : rtts) : Z :=
  let thr := Z.max (latest_rtt r) (avg_rtt r) in
  let thr := u64 (thr + Z.shiftr thr 3) in
  Z.max thr NGX_QUIC_TIME_GRANULARITY.

Definition ngx_quic_packet_threshold (x : send_ctx) : Z :=
  match sent x with
  | [] => NGX_QUIC_PKT_THR
  | f :: _ =>
      let pkt_thr := u64 (next_pnum x - pnum f) / 2 in
      if pkt_thr <=? NGX_QUIC_PKT_THR then NGX_QUIC_PKT_THR else pkt_thr
  end.

Definition ngx_quic_oldest_sent_packet (c : conn) : Z :=
  fold_left (fun oldest x =>
    match sent x with
    | [] => oldest
    | start :: _ => if s64 (u64 (send_time start - oldest)) <? 0 then send_time start else oldest
    end) (ctxs c) (now e).

Definition ngx_quic_pto (i : nat) (c : conn) : Z :=
  let duration := u64 (avg_rtt (rtt c) + Z.max (u64 (4 * rttvar (rtt c))) NGX_QUIC_TIME_GRANULARITY) in
  if (i =? application)%nat && handshaked e then u64 (duration + peer_max_ack_delay e) else duration.

Definition ngx_quic_pcg_duration (c : conn) : Z :=
  let duration := u64 (avg_rtt (rtt c) + Z.max (u64 (4 * rttvar (rtt c))) NGX_QUIC_TIME_GRANULARITY) in
  u64 (u64 (duration + peer_max_ack_delay e) * NGX_QUIC_PERSISTENT_CONGESTION_THR).

(** ** Definitions: congestion *)

Definition ngx_quic_congestion_idle (i : bool) (g : congestion) : congestion :=
  if ssthresh g <=? window g then
    let k := if idle g then u64 (k g + u64 (now e - idle_start g)) else k g in set_idle (now e) k i g
  else set_idle (idle_start g) (k g) i g.

Definition ngx_quic_congestion_cubic (g : congestion) : Z * congestion :=
  let g := ngx_quic_congestion_idle (idle g) g in
  let t := s64 (u64 (now e - k g)) in
  let w :=
    if 1000000 <? t then NGX_MAX_SIZE_T_VALUE
    else if t <? -1000000 then 0
    else
      let cc := Z.quot (Z.quot 10000000000 (mtu g)) MGX_QUIC_CUBIC_C in
      let w := Z.quot (t * t * t) cc + w_max g in
      if w <? 0 then 0 else w in
  (w, g).

(** The Newton-Raphson method for [x ^ 3 = v]: [n] steps are left. *)
Fixpoint cube_root (n : nat) (v x : Z) : Z :=
  match n with
  | O => x
  | S n =>
      let d := Z.quot (Z.quot (Z.quot v x) x - x) 3 in
      let x := x + d in
      if Z.abs d <=? 100 then x else cube_root n v x
  end.

Definition ngx_quic_congestion_cubic_time (g : congestion) : Z :=
  if w_max g <=? window g then 0
  else
    let cc := Z.quot (Z.quot 10000000000 (mtu g)) MGX_QUIC_CUBIC_C in
    u64 (cube_root 10 ((w_max g - window g) * cc) 5000).

(** The window after a packet of [n] bytes was acknowledged out of recovery. *)
Definition window_increase (n : Z) (g : congestion) : congestion :=
  if window g <? ssthresh g then set_window (u64 (window g + n)) g
  else
    let '(w_cubic, g) := ngx_quic_congestion_cubic g in
    let g :=
      if window g <? w_prior g then
        set_w_est (u64 (w_est g + u64 (mtu g * n * 3 * (10 - NGX_QUIC_CUBIC_BETA)) / (10 + NGX_QUIC_CUBIC_BETA) / window g)) g
      else set_w_est (u64 (w_est g + u64 (mtu g * n) / window g)) g in
    if w_cubic <? w_est g then set_window (w_est g) g
    else if window g <? w_cubic then
      if u64 (window g * 3) / 2 <=? w_cubic then set_window (u64 (window g + mtu g / 2)) g
      else set_window (u64 (window g + u64 (mtu g * (w_cubic - window g)) / window g)) g
    else g.

(** A packet of [qc] whose first frame this is: it has a length and was sent on the
    present path. *)
Definition counts (f : qframe) : bool := negb (plen f =? 0) && (rst_pnum e <=? pnum f).

(** [done:] *)
Definition unblock (blocked : bool) (c : conn) : conn :=
  if blocked && (in_flight (cg c) <? window (cg c)) then notify PushPosted c else c.

Definition ngx_quic_congestion_ack (f : qframe) (c : conn) : conn :=
  if negb (counts f) then c
  else
    let blocked := window (cg c) <=? in_flight (cg c) in
    let g := set_in_flight (u64 (in_flight (cg c) - plen f)) (cg c) in
    let g := if s64 (u64 (now e - recovery_start g)) <? 0 then set_recovery (u64 (ngx_quic_oldest_sent_packet c - 1)) g else g in
    let g := if (s64 (u64 (send_time f - recovery_start g)) <=? 0) || idle g then g else window_increase (plen f) g in
    unblock blocked (set_cg g c).

Definition set_plen (n : Z) (f : qframe) : qframe :=
  QF (content f) (flen f) (pnum f) (send_time f) n (pkt_need_ack f) (ignore_congestion f) (ignore_loss f).

(** The window after a loss. *)
Definition window_decrease (g : congestion) : congestion :=
  let ssthresh := u64 (in_flight g * NGX_QUIC_CUBIC_BETA) / 10 in
  let w_max := if window g <? w_max g then u64 (window g * (10 + NGX_QUIC_CUBIC_BETA)) / 20 else window g in
  let w := Z.max ssthresh (u64 (path_mtu e * 2)) in
  let g' := Cg (in_flight g) w ssthresh w_max w (window g) (path_mtu e) (now e) (idle_start g) (k g) (idle g) in
  set_idle (now e) (u64 (now e + ngx_quic_congestion_cubic_time g')) (idle g') g'.

Definition ngx_quic_congestion_lost (f : qframe) (c : conn) : qframe * conn :=
  if negb (counts f) then (f, c)
  else
    let blocked := window (cg c) <=? in_flight (cg c) in
    let g := set_in_flight (u64 (in_flight (cg c) - plen f)) (cg c) in
    let g := if (s64 (u64 (send_time f - recovery_start g)) <=? 0) || ignore_loss f then g else window_decrease g in
    (set_plen 0 f, unblock blocked (set_cg g c)).

Definition ngx_quic_persistent_congestion (c : conn) : conn :=
  let g := cg c in
  set_cg (Cg (in_flight g) (u64 (path_mtu e * 2)) (ssthresh g) (w_max g) (w_est g) (w_prior g) (path_mtu e)
    (u64 (ngx_quic_oldest_sent_packet c - 1)) (idle_start g) (k g) (idle g)) c.

(** ** Definitions: streams *)

(** [ngx_quic_queue_frame] of a frame, in the space [i]. *)
Definition ngx_quic_queue_frame (i : nat) (f : qframe) (c : conn) : conn :=
  let x := space i c in
  let c := set_space i (set_frames (frames x ++ [with_len f]) x) c in
  if closing e then c else notify PushPosted c.

(** What follows when a stream is gone: room for another one, unless the peer has not
    opened it.  Whether the connection can be reused is not part of the model. *)
Definition replace_stream (id : Z) (c : conn) : conn :=
  if negb (Z.land id NGX_QUIC_STREAM_SERVER_INITIATED =? 0) then c
  else if negb (grant e) then c
  else if negb (Z.land id NGX_QUIC_STREAM_UNIDIRECTIONAL =? 0) then
    let limit := u64 (max_streams_uni c + 1) in
    ngx_quic_queue_frame application (new_frame (MAX_STREAMS limit false)) (set_max_streams (max_streams_bidi c) limit c)
  else
    let limit := u64 (max_streams_bidi c + 1) in
    ngx_quic_queue_frame application (new_frame (MAX_STREAMS limit true)) (set_max_streams limit (max_streams_uni c) c).

(** [ngx_quic_close_stream], by a caller that has no use for its result. *)
Definition ngx_quic_close_stream (id : Z) (s : sstream) (c : conn) : conn :=
  if negb (closing e)
     && (receiving s || negb (bool_decide (send_state s = NGX_QUIC_STREAM_SEND_DATA_RECVD \/ send_state s = NGX_QUIC_STREAM_SEND_RESET_RECVD)))
  then c
  else
    let c := set_streams (delete id (streams c)) c in
    if closing e then notify ClosePosted c
    else if shutdown e then notify ShutdownQuic c
    else replace_stream id c.

(** The stream after a frame of data was acknowledged. *)
Definition stream_acked (length : Z) (fin : bool) (s : sstream) : sstream :=
  let a := u64 (acked s + length) in
  let fa := fin_acked s || fin in
  let st :=
    if bool_decide (send_state s = NGX_QUIC_STREAM_SEND_DATA_SENT) && (a =? offset_sent s) && fa
    then NGX_QUIC_STREAM_SEND_DATA_RECVD else send_state s in
  SStream st (offset_sent s) a fa (stream_max_data s) (receiving s) (connected s).

Definition stream_reset (s : sstream) : sstream :=
  SStream NGX_QUIC_STREAM_SEND_RESET_RECVD (offset_sent s) (acked s) (fin_acked s) (stream_max_data s) (receiving s) (connected s).

Definition put_acked (id : Z) (s : sstream) (c : conn) : conn :=
  let c := set_streams (<[id := s]> (streams c)) c in
  if connected s then c else ngx_quic_close_stream id s c.

Definition ngx_quic_handle_stream_ack (f : frame) (c : conn) : conn :=
  match f with
  | RESET_STREAM id _ _ =>
      match streams c !! id with
      | None => c
      | Some s => put_acked id (stream_reset s) c
      end
  | STREAM _ length id _ _ fin _ =>
      match streams c !! id with
      | None => c
      | Some s =>
          let c :=
            if connected s && (u64 (offset_sent s - acked s) =? stream_buffer_size e) && (0 <? length)
            then notify (WriteEvent id) c else c in
          put_acked id (stream_acked length fin s) c
      end
  | _ => c
  end.

(** ** Definitions: acknowledgements *)

(** [ngx_quic_ack_stat_t] *)
Record stat : Set := Stat { max_pn : Z; oldest : Z; newest : Z }.

Definition stat_init : stat := Stat NGX_TIMER_INFINITE NGX_TIMER_INFINITE NGX_TIMER_INFINITE.

Definition note_acked (max : Z) (f : qframe) (st : stat) : stat :=
  Stat (if pnum f =? max then send_time f else max_pn st)
    (if (oldest st =? NGX_TIMER_INFINITE) || (send_time f <? oldest st) then send_time f else oldest st)
    (if (newest st =? NGX_TIMER_INFINITE) || (newest st <? send_time f) then send_time f else newest st).

(** A frame of the space [i] is acknowledged. *)
Definition ack_content (i : nat) (f : frame) (c : conn) : conn :=
  match f with
  | ACK largest _ _ _ _ _ _ => set_space i (ngx_quic_drop_ack_ranges largest (space i c)) c
  | STREAM _ _ _ _ _ _ _ | RESET_STREAM _ _ _ => ngx_quic_handle_stream_ack f c
  | _ => c
  end.

(** The loop on [ctx->sent], where [before] was passed and [rest] is left. *)
Fixpoint ack_frames (i : nat) (min max : Z) (before rest : list qframe) (found : bool) (st : stat) (c : conn) : bool * stat * conn :=
  match rest with
  | [] => (found, st, c)
  | f :: rest =>
      if max <? pnum f then (found, st, c)
      else if min <=? pnum f then
        let c := ack_content i (content f) (ngx_quic_congestion_ack f c) in
        let c := set_space i (set_sent (before ++ rest) (space i c)) c in
        ack_frames i min max before rest true (note_acked max f st) c
      else ack_frames i min max (before ++ [f]) rest found st c
  end.

Definition ngx_quic_handle_ack_frame_range (i : nat) (min max : Z) (st : stat) (c : conn) : bool * stat * conn :=
  let st := Stat NGX_TIMER_INFINITE (oldest st) (newest st) in
  let '(found, st, c) := ack_frames i min max [] (sent (space i c)) false st c in
  if negb found then
    if max <? next_pnum (space i c) then (true, st, c)
    else (false, st, set_error NGX_QUIC_ERR_PROTOCOL_VIOLATION c)
  else
    let c := if push_set e then c else notify PushPosted c in
    (true, st, set_pto_count 0 c).

Definition ngx_quic_rtt_sample (delay : Z) (sent_at : Z) (r : rtts) : rtts :=
  let latest := u64 (now e - sent_at) in
  if min_rtt r =? NGX_TIMER_INFINITE then Rtt (now e) latest latest latest (latest / 2)
  else
    let min := Z.min (min_rtt r) latest in
    let ack_delay := u64 (Z.shiftl delay (peer_exponent e)) / 1000 in
    let ack_delay := if handshaked e then Z.min ack_delay (peer_max_ack_delay e) else ack_delay in
    let adjusted := if u64 (min + ack_delay) <? latest then u64 (latest - ack_delay) else latest in
    let sample := Z.abs (s64 (u64 (avg_rtt r - adjusted))) in
    Rtt (first_rtt r) latest (u64 (avg_rtt r + u64 (Z.shiftr adjusted 3 - Z.shiftr (avg_rtt r) 3))) min
      (u64 (rttvar r + u64 (Z.shiftr sample 2 - Z.shiftr (rttvar r) 2))).

(** ** Definitions: losses *)

(** What is sent instead of a frame that was lost; acknowledgements, probes and closes
    are not sent again. *)
Definition again (c : conn) (f : qframe) : option qframe :=
  let renew x := Some (QF x (flen (new_frame x)) (pnum f) (send_time f) (plen f) (pkt_need_ack f) (ignore_congestion f) (ignore_loss f)) in
  match content f with
  | ACK _ _ _ _ _ _ _ | PING | PATH_CHALLENGE _ | PATH_RESPONSE _ | CONNECTION_CLOSE _ _ _ => None
  | MAX_DATA _ => renew (MAX_DATA (max_data c))
  | MAX_STREAMS _ bidi => renew (MAX_STREAMS (if bidi then max_streams_bidi c else max_streams_uni c) bidi)
  | MAX_STREAM_DATA id _ =>
      match streams c !! id with None => None | Some s => renew (MAX_STREAM_DATA id (stream_max_data s)) end
  | STREAM _ _ id _ _ _ _ =>
      match streams c !! id with
      | None => None
      | Some s =>
          if bool_decide (send_state s = NGX_QUIC_STREAM_SEND_RESET_SENT \/ send_state s = NGX_QUIC_STREAM_SEND_RESET_RECVD)
          then None else Some f
      end
  | _ => Some f
  end.

Definition is_ack (f : qframe) : bool := match content f with ACK _ _ _ _ _ _ _ => true | _ => false end.

(** The frames of the packet [pn] at the head, and those after it. *)
Fixpoint split_packet (pn : Z) (l : list qframe) : list qframe * list qframe :=
  match l with
  | f :: t => if pnum f =? pn then let '(a, b) := split_packet pn t in (f :: a, b) else ([], l)
  | [] => ([], [])
  end.

Definition ngx_quic_resend_frames (i : nat) (c : conn) : conn :=
  match sent (space i c) with
  | [] => c
  | start :: t =>
      let '(start, c) := ngx_quic_congestion_lost start c in
      let '(lost, rest) := split_packet (pnum start) (start :: t) in
      let x := space i c in
      let x := if (i =? application)%nat && existsb is_ack lost then set_send_ack NGX_QUIC_MAX_ACK_GAP x else x in
      let x := set_sent rest (set_frames (frames x ++ omap (again c) lost) x) in
      let c := set_space i x c in
      if closing e then c else notify PushPosted c
  end.

(** How many packets count for persistent congestion, and the first and last of their
    times. *)
Record losses : Set := Losses { nlost : Z; lost_oldest : Z; lost_newest : Z }.

Definition note_lost (r : rtts) (f : qframe) (n : losses) : losses :=
  if 0 <? s64 (u64 (send_time f - first_rtt r)) then
    Losses (nlost n + 1)
      (if (nlost n =? 0) || (s64 (u64 (send_time f - lost_oldest n)) <? 0) then send_time f else lost_oldest n)
      (if (nlost n =? 0) || (0 <? s64 (u64 (send_time f - lost_newest n))) then send_time f else lost_newest n)
  else n.

(** Whether the packet of [start] is not lost yet. *)
Definition keeps (thr pkt_thr largest : Z) (start : qframe) : bool :=
  (largest <? pnum start)
  || ((0 <? s64 (u64 (send_time start + thr - now e))) && (largest - pnum start <? pkt_thr)).

(** The loop on the packets of the space [i], of which at most [fuel] are left. *)
Fixpoint lose_packets (fuel : nat) (i : nat) (thr pkt_thr largest : Z) (n : losses) (c : conn) : option (losses * conn) :=
  match fuel with
  | O => None
  | S fuel =>
      match sent (space i c) with
      | [] => Some (n, c)
      | start :: _ =>
          if keeps thr pkt_thr largest start then Some (n, c)
          else lose_packets fuel i thr pkt_thr largest (note_lost (rtt c) start n) (ngx_quic_resend_frames i c)
      end
  end.

Definition lose_space (i : nat) (n : losses) (c : conn) : option (losses * conn) :=
  let x := space i c in
  match largest_ack x with
  | None => Some (n, c)
  | Some largest =>
      lose_packets (S (length (sent x))) i (ngx_quic_time_threshold (rtt c)) (ngx_quic_packet_threshold x) largest n c
  end.

(** ** Definitions: the timer *)

(** The lesser of two times, where -1 is none. *)
Definition sooner (a w : Z) : Z := if (a =? -1) || (w <? a) then w else a.

(** What the space [i] adds to the times of a loss and of a probe. *)
Definition space_times (i : nat) (c : conn) (t : Z * Z) : Z * Z :=
  let x := space i c in
  match sent x, last (sent x) with
  | f :: _, Some l =>
      let lost :=
        match largest_ack x with
        | Some largest =>
            if pnum f <=? largest then
              let w := s64 (u64 (send_time f + ngx_quic_time_threshold (rtt c) - now e)) in
              let w := if (w <? 0) || (ngx_quic_packet_threshold x <=? largest - pnum f) then 0 else w in
              sooner t.1 w
            else t.1
        | None => t.1
        end in
      let w := s64 (u64 (send_time l + u64 (Z.shiftl (ngx_quic_pto i c) (pto_count c)) - now e)) in
      (lost, sooner t.2 (Z.max w 0))
  | _, _ => t
  end.

Definition ngx_quic_set_lost_timer (c : conn) : conn :=
  let '(lost, pto) := fold_left (fun t i => space_times i c t) (seq 0 NGX_QUIC_SEND_CTX_LAST) (-1, -1) in
  set_pto (if negb (lost =? -1) then Some (ngx_quic_lost_handler, lost)
           else if negb (pto =? -1) then Some (ngx_quic_pto_handler, pto) else None) c.

(** Losses in all spaces, and persistent congestion. *)
Definition ngx_quic_detect_lost (st : option stat) (c : conn) : option conn :=
  '(n, c) ← lose_space 0 (Losses 0 (now e) (now e)) c; '(n, c) ← lose_space 1 n c; '(n, c) ← lose_space 2 n c;
  let c :=
    match st with
    | Some st =>
        if (2 <=? nlost n) && ((s64 (u64 (newest st - lost_oldest n)) <? 0) || (0 <? s64 (u64 (oldest st - lost_newest n))))
           && (ngx_quic_pcg_duration c <? u64 (lost_newest n - lost_oldest n))
        then ngx_quic_persistent_congestion c else c
    | None => c
    end in
  Some (ngx_quic_set_lost_timer c).

(** ** Definitions: the ACK frame *)

(** The ranges of the frame below [min], read from [pos]. *)
Fixpoint ack_ranges (i : nat) (n : nat) (min : Z) (pos : list Z) (st : stat) (c : conn) : bool * stat * conn :=
  match n with
  | O => (true, st, c)
  | S n =>
      match ngx_quic_parse_ack_range pos with
      | None => (false, st, c)
      | Some (gap, range, pos) =>
          if min <? gap + 2 then (false, st, set_error NGX_QUIC_ERR_FRAME_ENCODING_ERROR c)
          else
            let max := min - gap - 2 in
            if max <? range then (false, st, set_error NGX_QUIC_ERR_FRAME_ENCODING_ERROR c)
            else
              let '(ok, st, c) := ngx_quic_handle_ack_frame_range i (max - range) max st c in
              if negb ok then (false, st, c) else ack_ranges i n (max - range) pos st c
      end
  end.

(** [ctx->largest_ack], and the sample that its packet gives. *)
Definition note_largest (i : nat) (max delay : Z) (st : stat) (c : conn) : conn :=
  let x := space i c in
  let newer := match largest_ack x with None => true | Some l => l <? max end in
  if newer then
    let c := set_space i (set_largest_ack (Some max) x) c in
    if negb (max_pn st =? NGX_TIMER_INFINITE) then set_rtt (ngx_quic_rtt_sample delay (max_pn st) (rtt c)) c else c
  else c.

Definition ngx_quic_handle_ack_frame (i : nat) (largest delay range_count first_range : Z) (data : list Z) (c : conn) : option (bool * conn) :=
  if largest <? first_range then Some (false, set_error NGX_QUIC_ERR_FRAME_ENCODING_ERROR c)
  else
    let min := largest - first_range in
    let '(ok, st, c) := ngx_quic_handle_ack_frame_range i min largest stat_init c in
    if negb ok then Some (false, c)
    else
      let c := note_largest i largest delay st c in
      let '(ok, st, c) := ack_ranges i (Z.to_nat range_count) min data st c in
      if negb ok then Some (false, c)
      else c ← ngx_quic_detect_lost (Some st) c; Some (true, c).

(** ** Definitions: what is sent and what is given up *)

Definition ngx_quic_commit_space (i : nat) (c : conn) : conn :=
  let x := space i c in
  let kept := if closing e then [] else filter (fun f => pkt_need_ack f) (sending x) in
  let c := set_cg (set_in_flight (u64 (in_flight (cg c) + foldr (fun f n => plen f + n) 0 kept)) (cg c)) c in
  set_space i (set_sent (sent x ++ kept) (set_sending [] x)) c.

Definition ngx_quic_commit_send (c : conn) : conn :=
  let idle := forallb (fun x => bool_decide (frames x = [])) (ctxs c) in
  let c := fold_left (fun c i => ngx_quic_commit_space i c) (seq 0 NGX_QUIC_SEND_CTX_LAST) c in
  set_cg (ngx_quic_congestion_idle idle (cg c)) c.

(** [ngx_quic_revert_send], with the numbers that were kept. *)
Definition revert_all (pns : list Z) (c : conn) : conn :=
  let c := set_ctxs (zip_with ngx_quic_revert_send pns (ctxs c)) c in
  set_cg (ngx_quic_congestion_idle true (cg c)) c.

(** The first space after which a datagram ends, when it has to be padded. *)
Definition ngx_quic_get_padding_level (c : conn) : nat :=
  if existsb (fun f => need_ack (content f)) (frames (space 0 c)) then
    match frames (space 1 c), frames (space 2 c) with [], _ => 0 | _, [] => 1 | _, _ => 2 end%nat
  else NGX_QUIC_SEND_CTX_LAST.

(** What a turn of the loop of [ngx_quic_create_datagrams] needs: the packets of each
    space, [ngx_current_msec] and its like for the acknowledgements, [max_ack_delay]. *)
Record turn : Type := Turn { t_out : nat -> out; t_env : env; t_delay : Z }.

Inductive turn_result : Set := TurnError | TurnStop | TurnGo.

(** The packet of the space [i], when [p] bytes are in the datagram and [n] are left. *)
Definition output_space (u : turn) (pad i : nat) (p n : Z) (c : conn) : option (turn_result * Z * Z * conn) :=
  let '(ok, timer, x) :=
    ngx_quic_generate_ack (i =? application)%nat (push_set e) (closing e) (t_delay u) (t_env u) (space i c) in
  let c := set_space i x c in
  let c := match timer with Some t => notify (PushTimer t) c | None => c end in
  if negb ok then Some (TurnError, p, n, c)
  else
    let min := if (i =? pad)%nat && (p <? NGX_QUIC_MIN_INITIAL_SIZE) then NGX_QUIC_MIN_INITIAL_SIZE - p else 0 in
    if n <? min then Some (TurnStop, p, n, c)
    else
      '(r, x) ← ngx_quic_output_packet (t_out u i) n min (space i c);
      let c := set_space i x c in
      Some match r with
           | OutError => (TurnError, p, n, c)
           | OutNothing => (TurnGo, p, n, c)
           | OutPacket _ _ k => (TurnGo, p + k, n - k, c)
           end.

Fixpoint output_spaces (u : turn) (pad : nat) (ids : list nat) (p n : Z) (c : conn) : option (turn_result * Z * conn) :=
  match ids with
  | [] => Some (TurnGo, p, c)
  | i :: ids =>
      '(r, p, n, c) ← output_space u pad i p n c;
      match r with TurnGo => output_spaces u pad ids p n c | r => Some (r, p, c) end
  end.

(** What [ngx_quic_send] says. *)
Inductive send_result : Set := SendError | SendAgain | SendDone.

(** One turn of the loop of [ngx_quic_create_datagrams], with room for [n] bytes: it is
    over, or a datagram was sent. *)
Definition create_datagram (u : turn) (n : Z) (s : send_result) (c : conn) : option (turn_result * conn) :=
  if window (cg c) <=? in_flight (cg c) then Some (TurnStop, c)
  else
    let pns := map next_pnum (ctxs c) in
    '(r, p, c) ← output_spaces u (ngx_quic_get_padding_level c) (seq 0 NGX_QUIC_SEND_CTX_LAST) 0 n c;
    match r with
    | TurnError => Some (TurnError, c)
    | TurnStop => Some (TurnStop, revert_all pns c)
    | TurnGo =>
        if p =? 0 then Some (TurnStop, c)
        else
          match s with
          | SendError => Some (TurnError, c)
          | SendAgain => Some (TurnStop, notify (PushTimer NGX_QUIC_SOCKET_RETRY_DELAY) (revert_all pns c))
          | SendDone => Some (TurnGo, ngx_quic_commit_send c)
          end
    end.

(** The frames of the space [i] that wait for an acknowledgement are given up. *)
Fixpoint abandon (i : nat) (l : list qframe) (c : conn) : conn :=
  match l with
  | [] => c
  | f :: l => abandon i l (ngx_quic_congestion_ack f (set_space i (set_sent l (space i c)) c))
  end.

(** [ngx_quic_discard_ctx], of the keys of a space that has some; the buffer of handshake
    data and the socket of the first packets are not part of the model. *)
Definition ngx_quic_discard_ctx (i : nat) (c : conn) : conn :=
  let c := set_pto_count 0 c in
  let c := abandon i (sent (space i c)) c in
  ngx_quic_set_lost_timer (set_space i (set_send_ack 0 (set_frames [] (space i c))) c).

(** The handler of the timer. *)
Definition ngx_quic_lost (c : conn) : option conn := ngx_quic_detect_lost None c.

End operations.

(** ** Specification: what is in flight *)

(** What a frame that waits counts for, the frames of a space, those of a connection. *)
Definition weight (e : setting) (f : qframe) : Z := if counts e f then plen f else 0.
Definition weights (e : setting) (l : list qframe) : Z := foldr (fun f n => weight e f + n) 0 l.
Definition waiting (c : conn) : list qframe := concat (map sent (ctxs c)).
Definition flight (e : setting) (c : conn) : Z := weights e (waiting c).

(** ** Lemmas: steps that leave the packets alone *)

(** What acknowledgements look at in a space. *)
Definition rest_of (x : send_ctx) : list qframe * Z * option Z := (sending x, next_pnum x, largest_ack x).
Definition key (x : send_ctx) : list qframe * (list qframe * Z * option Z) := (sent x, rest_of x).
Definition keys (c : conn) : list (list qframe * (list qframe * Z * option Z)) := map key (ctxs c).

(** The same packets wait, and [n] bytes less are in flight. *)
Definition paid (n : Z) (c c' : conn) : Prop :=
  keys c' = keys c /\ error c' = error c /\ rtt c' = rtt c /\
  (0 <= in_flight (cg c) < 2 ^ 64 -> in_flight (cg c') = u64 (in_flight (cg c) - n)).

Lemma paid_quiet c c' : keys c' = keys c -> error c' = error c -> rtt c' = rtt c ->
  in_flight (cg c') = in_flight (cg c) -> paid 0 c c'.
Proof. intros ? ? ? E. split_and!; auto. intros Hb. rewrite E, Z.sub_0_r, u64_small; done. Qed.

Lemma paid_refl c : paid 0 c c.
Proof. by apply paid_quiet. Qed.

Lemma paid_trans n m c1 c2 c3 : paid n c1 c2 -> paid m c2 c3 -> paid (n + m) c1 c3.
Proof.
  intros (K1 & E1 & R1 & F1) (K2 & E2 & R2 & F2). split_and!; try congruence. intros H.
  specialize (F1 H). rewrite F2 by (rewrite F1; apply u64_range). rewrite F1. unfold u64. rewrite Zminus_mod_idemp_l. f_equal. lia.
Qed.

Lemma paid_then c1 c2 c3 n : paid n c1 c2 -> paid 0 c2 c3 -> paid n c1 c3.
Proof. intros H1 H2. rewrite <- (Z.add_0_r n). by eapply paid_trans. Qed.

Lemma paid_first c1 c2 c3 n : paid 0 c1 c2 -> paid n c2 c3 -> paid n c1 c3.
Proof. intros H1 H2. rewrite <- (Z.add_0_l n). by eapply paid_trans. Qed.

#[local] Hint Resolve paid_refl : ngx.

Lemma key_space i c : key (space i c) = nth i (keys c) (key ctx_init).
Proof. unfold space, keys. by rewrite <- (map_nth key). Qed.

Lemma space_key i c c' : keys c' = keys c -> key (space i c') = key (space i c).
Proof. intros H. by rewrite !key_space, H. Qed.

Lemma keys_set i x c : keys (set_space i x c) = <[i := key x]> (keys c).
Proof. unfold keys, set_space. cbn. by rewrite list_fmap_insert. Qed.

Lemma keys_set_same i x c : key x = key (space i c) -> keys (set_space i x c) = keys c.
Proof.
  intros H. rewrite keys_set, H, key_space. destruct (decide (i < length (keys c))%nat) as [Hi | Hi].
  - apply list_insert_id. rewrite nth_lookup. destruct (lookup_lt_is_Some_2 _ _ Hi) as [y ->]. done.
  - rewrite list_insert_ge by lia. done.
Qed.

Lemma paid_space i x c : key x = key (space i c) -> paid 0 c (set_space i x c).
Proof. intros H. apply paid_quiet; [by apply keys_set_same | done | done | done]. Qed.

Section quiet.

Context (e : setting).

Lemma window_increase_flight n g : in_flight (window_increase e n g) = in_flight g.
Proof.
  unfold window_increase, ngx_quic_congestion_cubic, ngx_quic_congestion_idle. destruct (window g <? ssthresh g); [done |].
  destruct (ssthresh g <=? window g); cbn zeta; cbn -[u64 Z.mul Z.quot Z.div Z.pow]; repeat case_if; done.
Qed.

Lemma unblock_paid n b c c' : paid n c c' -> paid n c (unblock b c').
Proof. intros H. unfold unblock. destruct (_ && _); [|done]. eapply paid_then; [exact H |]. by apply paid_quiet. Qed.

Lemma set_cg_paid n g c : in_flight g = u64 (in_flight (cg c) - n) -> paid n c (set_cg g c).
Proof. intros H. split_and!; try done. Qed.

Lemma congestion_ack_paid f c : paid (weight e f) c (ngx_quic_congestion_ack e f c).
Proof.
  unfold ngx_quic_congestion_ack, weight. destruct (counts e f); cbn [negb]; [|apply paid_refl].
  apply unblock_paid, set_cg_paid. destruct (s64 (u64 (now e - _)) <? 0); cbn -[u64 s64];
    (destruct (_ || _); [done | by rewrite window_increase_flight]).
Qed.

Lemma congestion_lost_paid f c : let '(f', c') := ngx_quic_congestion_lost e f c in
  paid (weight e f) c c' /\ content f' = content f /\ pnum f' = pnum f.
Proof.
  unfold ngx_quic_congestion_lost, weight. destruct (counts e f); cbn [negb]; [|split_and!; [apply paid_refl | done | done]].
  split; [|done]. apply unblock_paid, set_cg_paid. by destruct (_ || _).
Qed.

Lemma notify_paid n x c c' : paid n c c' -> paid n c (notify x c').
Proof. intros H. eapply paid_then; [exact H |]. by apply paid_quiet. Qed.

Lemma queue_frame_paid i f c : paid 0 c (ngx_quic_queue_frame e i f c).
Proof. unfold ngx_quic_queue_frame. destruct (closing e); [|apply notify_paid]; by apply paid_space. Qed.

Lemma replace_stream_paid id c : paid 0 c (replace_stream e id c).
Proof.
  unfold replace_stream. repeat (case_if; [apply paid_refl |]).
  case_if; (eapply paid_then; [|apply queue_frame_paid]; by apply paid_quiet).
Qed.

Lemma close_stream_paid id s c : paid 0 c (ngx_quic_close_stream e id s c).
Proof.
  unfold ngx_quic_close_stream. case_if; [apply paid_refl |].
  repeat (case_if; [by apply paid_quiet |]). eapply paid_then; [|apply replace_stream_paid]. by apply paid_quiet.
Qed.

Lemma put_acked_paid id s c : paid 0 c (put_acked e id s c).
Proof. unfold put_acked. destruct (connected s); [by apply paid_quiet |]. eapply paid_then; [|apply close_stream_paid]. by apply paid_quiet. Qed.

Lemma stream_ack_paid f c : paid 0 c (ngx_quic_handle_stream_ack e f c).
Proof.
  unfold ngx_quic_handle_stream_ack. destruct f; try apply paid_refl.
  - destruct (streams c !! id); [apply put_acked_paid | apply paid_refl].
  - destruct (streams c !! stream_id); [|apply paid_refl]. cbv zeta. case_if; [|apply put_acked_paid].
    eapply paid_first; [by apply notify_paid, paid_refl | apply put_acked_paid].
Qed.

Lemma drop_ranges_key pn x : key (ngx_quic_drop_ack_ranges pn x) = key x.
Proof.
  unfold ngx_quic_drop_ack_ranges. destruct (largest_range x) as [l|]; [|done].
  destruct (pending_ack x) as [y|]; [destruct (y <=? pn)|]; cbn; repeat case_if; done.
Qed.

Lemma ack_content_paid i f c : paid 0 c (ack_content e i f c).
Proof.
  destruct f; cbn [ack_content]; try apply paid_refl; try apply stream_ack_paid.
  apply paid_space, drop_ranges_key.
Qed.

End quiet.

(** ** Lemmas: acknowledged packets *)

Section acked.

Context (e : setting).

Lemma weights_app a b : weights e (a ++ b) = weights e a + weights e b.
Proof. unfold weights. induction a as [|f a IH]; cbn; [done |]. cbn in IH. rewrite IH. lia. Qed.

Lemma weights_perm a b : a ≡ₚ b -> weights e a = weights e b.
Proof. unfold weights. induction 1; cbn; lia. Qed.

(** The frames [a] left the space [i], where [l] is left. *)
Definition took (i : nat) (a l : list qframe) (c c' : conn) : Prop :=
  keys c' = <[i := (l, rest_of (space i c))]> (keys c) /\ error c' = error c /\ rtt c' = rtt c /\
  (0 <= in_flight (cg c) < 2 ^ 64 -> in_flight (cg c') = u64 (in_flight (cg c) - weights e a)).

Lemma space_of_keys i c c' l r : keys c' = <[i := (l, r)]> (keys c) -> (i < length (ctxs c))%nat ->
  sent (space i c') = l /\ rest_of (space i c') = r.
Proof.
  intros Hk Hi. pose proof (key_space i c') as H. rewrite Hk, nth_lookup, list_lookup_insert_eq in H by (unfold keys; by rewrite length_map).
  unfold key in H. by injection H.
Qed.

Lemma keys_length c c' : length (keys c') = length (keys c) -> length (ctxs c') = length (ctxs c).
Proof. unfold keys. by rewrite !length_map. Qed.

Lemma took_space i a l c c' : took i a l c c' -> (i < length (ctxs c))%nat ->
  sent (space i c') = l /\ rest_of (space i c') = rest_of (space i c) /\ length (ctxs c') = length (ctxs c).
Proof.
  intros (K & _) Hi. destruct (space_of_keys _ _ _ _ _ K Hi) as (? & ?). split_and!; try done.
  apply keys_length. by rewrite K, length_insert.
Qed.

Lemma took_paid i a l c c1 c2 : took i a l c c1 -> paid 0 c1 c2 -> took i a l c c2.
Proof.
  intros (K1 & E1 & R1 & F1) (K2 & E2 & R2 & F2). split_and!; try congruence. intros H. specialize (F1 H).
  rewrite F2 by (rewrite F1; apply u64_range). by rewrite F1, Z.sub_0_r, (u64_small (u64 _)) by apply u64_range.
Qed.

Lemma took_trans i a b l m c1 c2 c3 : (i < length (ctxs c1))%nat ->
  took i a l c1 c2 -> took i b m c2 c3 -> took i (a ++ b) m c1 c3.
Proof.
  intros Hi H1 (K2 & E2 & R2 & F2). destruct (took_space _ _ _ _ _ H1 Hi) as (_ & N & _). destruct H1 as (K1 & E1 & R1 & F1).
  split_and!; try congruence.
  - rewrite K2, K1, N. apply list_insert_insert_eq.
  - intros H. specialize (F1 H). rewrite F2 by (rewrite F1; apply u64_range). rewrite F1, weights_app. unfold u64.
    rewrite Zminus_mod_idemp_l. f_equal. lia.
Qed.

Lemma took_one i f c c1 l : paid (weight e f) c c1 -> took i [f] l c (set_space i (set_sent l (space i c1)) c1).
Proof.
  intros (K & E & R & F). pose proof (f_equal snd (space_key i _ _ K)) as Hk. cbn in Hk. split_and!.
  - rewrite keys_set, K. unfold key. cbn. by rewrite <- Hk.
  - done.
  - done.
  - intros H. cbn. rewrite (F H), Z.add_0_r. done.
Qed.

Lemma took_nil i c : took i [] (sent (space i c)) c c.
Proof.
  split_and!; try done.
  - symmetry. rewrite <- (keys_set_same i (space i c)) at 2 by done. by rewrite keys_set.
  - intros H. cbn. by rewrite Z.sub_0_r, u64_small.
Qed.

Lemma took_stay i l c : sent (space i c) = l -> took i [] l c c.
Proof. intros <-. apply took_nil. Qed.

(** A frame of a packet from [min] to [max]. *)
Definition within (min max : Z) (f : qframe) : bool := (min <=? pnum f) && (pnum f <=? max).

Definition by_number (l : list qframe) : Prop := StronglySorted (fun f g => pnum f <= pnum g) l.

Lemma filter_none (p : qframe -> bool) l : Forall (fun g => p g = false) l ->
  filter (fun g => p g) l = [] /\ filter (fun g => negb (p g)) l = l.
Proof.
  induction 1 as [|g l Hg Hl [IH1 IH2]]; [done |]. rewrite !filter_cons, Hg. cbn.
  rewrite decide_False, decide_True by naive_solver. split; [done | by f_equal].
Qed.

(** The loop takes the frames of the range and leaves the others in place. *)
Lemma ack_frames_spec i min max rest : forall before found st c found' st' c',
  (i < length (ctxs c))%nat -> sent (space i c) = before ++ rest ->
  ack_frames e i min max before rest found st c = (found', st', c') ->
  exists a l, took i a (before ++ l) c c' /\ rest ≡ₚ a ++ l /\ found' = found || negb (bool_decide (a = [])) /\
    (by_number rest -> a = filter (fun f => within min max f) rest /\ l = filter (fun f => negb (within min max f)) rest).
Proof.
  induction rest as [|f rest IH]; intros before found st c found' st' c' Hi Hs; cbn [ack_frames].
  { intros [= <- _ <-]. exists [], []. rewrite <- Hs. split_and!; [apply took_nil | done | by rewrite orb_false_r | done]. }
  destruct (Z.ltb_spec max (pnum f)) as [Hmax | Hmax].
  { intros [= <- _ <-]. exists [], (f :: rest). rewrite <- Hs. split_and!; [apply took_nil | done | by rewrite orb_false_r |].
    intros Hsort. assert (Hout : Forall (fun g => within min max g = false) (f :: rest)).
    { apply StronglySorted_inv in Hsort as [_ Hge]. constructor; [unfold within; lia |].
      eapply Forall_impl; [exact Hge |]. intros g Hg. cbn in Hg. unfold within. lia. }
    destruct (filter_none (within min max) _ Hout) as [-> ->]. done. }
  destruct (Z.leb_spec min (pnum f)) as [Hmin | Hmin].
  - set (c1 := ack_content _ _ _ _). intros E.
    assert (Hp : paid (weight e f) c c1) by (eapply paid_then; [apply congestion_ack_paid | apply ack_content_paid]).
    pose proof (took_one i f c c1 (before ++ rest) Hp) as H1. destruct (took_space _ _ _ _ _ H1 Hi) as (S1 & _ & L1).
    rewrite <- L1 in Hi. destruct (IH _ _ _ _ _ _ _ Hi S1 E) as (a & l & H2 & Hperm & Hf & Hsort).
    exists (f :: a), l. split_and!.
    + rewrite L1 in Hi. exact (took_trans _ [f] _ _ _ _ _ _ Hi H1 H2).
    + cbn. by rewrite Hperm.
    + by rewrite Hf, orb_true_r.
    + intros Hss. apply StronglySorted_inv in Hss as [Hss _]. destruct (Hsort Hss) as [-> ->].
      assert (Hw : within min max f = true) by (unfold within; lia).
      rewrite !filter_cons, Hw. cbn. by rewrite decide_True, decide_False by naive_solver.
  - intros E. assert (S1 : sent (space i c) = (before ++ [f]) ++ rest) by (by rewrite <- app_assoc).
    destruct (IH _ _ _ _ _ _ _ Hi S1 E) as (a & l & H2 & Hperm & Hf & Hsort). exists a, (f :: l). split_and!.
    + by rewrite <- app_assoc in H2.
    + rewrite Hperm. by rewrite Permutation_middle.
    + done.
    + intros Hss. apply StronglySorted_inv in Hss as [Hss _]. destruct (Hsort Hss) as [-> ->].
      assert (Hw : within min max f = false) by (unfold within; lia).
      rewrite !filter_cons, Hw. cbn. by rewrite decide_False, decide_True by naive_solver.
Qed.


Lemma sorted_sublist (R : qframe -> qframe -> Prop) l m : sublist l m -> StronglySorted R m -> StronglySorted R l.
Proof.
  intros Hs Hm. revert l Hs. induction Hm as [|f m Hm IH Hf]; intros l Hs.
  - apply sublist_nil_r in Hs as ->. constructor.
  - apply sublist_cons_r in Hs as [Hs | (k & -> & Hs)]; [by apply IH |]. constructor; [by apply IH |].
    apply sublist_submseteq, submseteq_Permutation in Hs as (r & Hr). rewrite Hr in Hf. by apply Forall_app in Hf as [? _].
Qed.

(** The frames of a space, in the order of their packets; the length of a packet is on
    its first frame. *)
Definition packets (l : list qframe) : Prop :=
  StronglySorted (fun f g => pnum f < pnum g \/ pnum f = pnum g /\ plen g = 0) l.

Lemma packets_by_number l : packets l -> by_number l.
Proof. unfold packets, by_number. induction 1 as [|f l Hl IH Hf]; constructor; [done |]. eapply Forall_impl; [exact Hf |]. intros g [? | [? _]]; lia. Qed.

Lemma packets_sublist l m : sublist l m -> packets m -> packets l.
Proof. apply sorted_sublist. Qed.

Lemma split_packet_spec pn l a b : split_packet pn l = (a, b) -> l = a ++ b /\ Forall (fun f => pnum f = pn) a.
Proof.
  revert a b. induction l as [|f l IH]; intros a b; cbn [split_packet]; [by intros [= <- <-] |].
  destruct (Z.eqb_spec (pnum f) pn) as [Hf | Hf]; [|by intros [= <- <-]].
  destruct (split_packet pn l) as [a1 b1]. destruct (IH _ _ eq_refl) as [-> Ha]. intros [= <- <-]. split; [done | by constructor].
Qed.

Lemma weight_zero f : plen f = 0 -> weight e f = 0.
Proof. intros H. unfold weight, counts. by rewrite H. Qed.

Lemma weights_zero l : Forall (fun f => plen f = 0) l -> weights e l = 0.
Proof. induction 1 as [|f l Hf Hl IH]; [done |]. unfold weights in *. cbn. rewrite IH, weight_zero; done. Qed.

(** What is sent again depends on the limits and the streams. *)
Definition limits (c : conn) : gmap Z sstream * Z * Z * Z := (streams c, max_data c, max_streams_bidi c, max_streams_uni c).

Lemma again_limits c c' f : limits c' = limits c -> again c' f = again c f.
Proof. intros [= H1 H2 H3 H4]. unfold again. by rewrite H1, H2, H3, H4. Qed.

Lemma again_plen c f n : content <$> again c (set_plen n f) = content <$> again c f.
Proof.
  destruct f as [x ? ? ? ? ? ? ?]. unfold again, set_plen. cbn. destruct x; try done;
    (destruct (streams c !! _) as [s|]; [|done]; repeat case_if; done).
Qed.

(** The frames [a] of the space [i] wait to be sent again. *)
Definition requeued (i : nat) (a : list qframe) (c c' : conn) : Prop :=
  limits c' = limits c /\
  map content (frames (space i c')) = map content (frames (space i c)) ++ map content (omap (again c) a) /\
  forall j, i <> j -> frames (space j c') = frames (space j c).

Lemma requeued_trans i a b c1 c2 c3 : requeued i a c1 c2 -> requeued i b c2 c3 -> requeued i (a ++ b) c1 c3.
Proof.
  intros (L1 & F1 & O1) (L2 & F2 & O2). split_and!; [congruence | | intros j Hj; rewrite O2, O1 by done; done].
  rewrite F2, F1, <- app_assoc. f_equal. rewrite omap_app, map_app. f_equal. f_equal.
  apply list_omap_ext. apply Forall_Forall2_diag. apply Forall_forall. intros f _. by apply again_limits.
Qed.

Lemma requeued_nil i c : requeued i [] c c.
Proof. split_and!; [done | by rewrite app_nil_r | done]. Qed.

Lemma lost_aside f c : let '(f', c') := ngx_quic_congestion_lost e f c in
  ctxs c' = ctxs c /\ limits c' = limits c /\ (f' = f \/ f' = set_plen 0 f).
Proof.
  unfold ngx_quic_congestion_lost. destruct (counts e f); cbn [negb]; [|auto].
  unfold unblock. destruct (_ && _); (split_and!; [done | done | by right]).
Qed.

Lemma space_same i x c : (i < length (ctxs c))%nat -> space i (set_space i x c) = x.
Proof. intros H. unfold space, set_space. cbn. by rewrite nth_lookup, list_lookup_insert_eq. Qed.

Lemma space_other i j x c : i <> j -> space j (set_space i x c) = space j c.
Proof. intros H. unfold space, set_space. cbn. rewrite !nth_lookup, list_lookup_insert_ne by done. done. Qed.

(** A packet is sent again: its frames leave, and what they weigh. *)
Lemma resend_took i c start t : (i < length (ctxs c))%nat -> sent (space i c) = start :: t -> packets (start :: t) ->
  exists a l, t = a ++ l /\ Forall (fun f => pnum f = pnum start) a /\
    took i (start :: a) l c (ngx_quic_resend_frames e i c) /\ requeued i (start :: a) c (ngx_quic_resend_frames e i c).
Proof.
  intros Hi Es Hp. unfold ngx_quic_resend_frames. rewrite Es.
  pose proof (congestion_lost_paid e start c) as Hlost. pose proof (lost_aside start c) as Haside.
  destruct (ngx_quic_congestion_lost e start c) as [start' c1].
  destruct Hlost as (Hpaid & Hc & Hn). destruct Haside as (Ac & Al & Ap). cbn [split_packet]. rewrite Hn, Z.eqb_refl.
  destruct (split_packet (pnum start) t) as [a b] eqn:Esp. apply split_packet_spec in Esp as [-> Ha]. cbv zeta.
  exists a, b. split; [done |]. split; [done |].
  apply StronglySorted_inv in Hp as [_ Hh]. apply Forall_app in Hh as [Hh _].
  assert (Hw : weights e (start :: a) = weight e start).
  { change (weight e start + weights e a = weight e start). rewrite weights_zero; [lia |].
    rewrite Forall_forall in Ha, Hh |- *. intros g Hg. destruct (Hh g Hg) as [Hlt | [_ ?]]; [specialize (Ha g Hg); lia | done]. }
  assert (Hsp : forall j, space j c1 = space j c) by (intros j; unfold space; by rewrite Ac).
  rewrite Hsp. set (x := if _ && _ then _ else _).
  assert (Hx : key x = key (space i c) /\ frames x = frames (space i c)) by (unfold x; by destruct (_ && _)).
  destruct Hx as [Hx Hfx]. set (c2 := set_space i _ c1).
  assert (Hi1 : (i < length (ctxs c1))%nat) by (by rewrite Ac).
  assert (Ht : took i (start :: a) b c c2).
  { destruct Hpaid as (K & E & R & F). unfold key in Hx. split_and!.
    - unfold c2. rewrite keys_set, K. unfold key. cbn. injection Hx as _ H1 H2 H3. unfold rest_of. by rewrite <- H1, <- H2, <- H3.
    - done.
    - done.
    - intros H. rewrite Hw. exact (F H). }
  assert (Hq : requeued i (start :: a) c c2).
  { split_and!; [done | |].
    - unfold c2. rewrite space_same by done. cbn [frames set_frames set_sent]. rewrite Hfx, map_app. f_equal.
      assert (Hag : content <$> again c1 start' = content <$> again c start).
      { rewrite (again_limits c c1) by done. destruct Ap as [-> | ->]; [done | apply again_plen]. }
      cbn [omap list_omap]. rewrite (list_omap_ext _ (again c) a a) by (apply Forall_Forall2_diag, Forall_forall; intros f _; by apply again_limits).
      revert Hag. destruct (again c1 start') as [x1|], (again c start) as [x2|]; cbn; try done. intros [= H]. by rewrite H.
    - intros j Hj. unfold c2. by rewrite space_other, Hsp. }
  destruct (closing e); [by split |]. split; [|done]. eapply took_paid; [exact Ht | apply notify_paid, paid_refl].
Qed.

(** The packets [a] are lost: each has a first frame that is not kept. *)
Definition given_up (thr pkt_thr largest : Z) (a : list qframe) : Prop :=
  Forall (fun f => exists g, g ∈ a /\ pnum g = pnum f /\ keeps e thr pkt_thr largest g = false) a.

(** The loop ends, and the packets it takes are the first ones. *)
Lemma lose_packets_took i thr pkt_thr largest : forall fuel n c,
  (i < length (ctxs c))%nat -> packets (sent (space i c)) -> (length (sent (space i c)) < fuel)%nat ->
  exists a l n' c', lose_packets e fuel i thr pkt_thr largest n c = Some (n', c') /\ sent (space i c) = a ++ l /\
    took i a l c c' /\ requeued i a c c' /\ given_up thr pkt_thr largest a /\
    (forall f t, l = f :: t -> keeps e thr pkt_thr largest f = true).
Proof.
  induction fuel as [|fuel IH]; intros n c Hi Hp Hf; [lia |]. cbn [lose_packets].
  destruct (sent (space i c)) as [|start t] eqn:Es.
  { exists [], [], n, c. split_and!; [done | done | by apply took_stay | apply requeued_nil | by constructor | done]. }
  destruct (keeps e thr pkt_thr largest start) eqn:Ek.
  { exists [], (start :: t), n, c.
    split_and!; [done | done | by apply took_stay | apply requeued_nil | by constructor | by intros f t' [= <- <-]]. }
  destruct (resend_took i c start t Hi Es Hp) as (a & l & -> & Ha & Ht & Hq).
  destruct (took_space _ _ _ _ _ Ht Hi) as (S1 & _ & L1).
  destruct (IH (note_lost (rtt c) start n) (ngx_quic_resend_frames e i c)) as (b & m & n' & c' & E & Em & Ht2 & Hq2 & Hg & Hk).
  - by rewrite L1.
  - rewrite S1. apply (packets_sublist _ (start :: a ++ l)); [by apply (sublist_inserts_l (start :: a)) | done].
  - rewrite S1. cbn in Hf. rewrite length_app in Hf. lia.
  - rewrite S1 in Em. clear S1. subst l. exists ((start :: a) ++ b), m, n', c'. split_and!; [done | | | | | done].
    + by rewrite <- app_assoc.
    + by apply (took_trans _ _ _ (b ++ m) _ c (ngx_quic_resend_frames e i c)).
    + by apply (requeued_trans _ _ _ _ (ngx_quic_resend_frames e i c)).
    + unfold given_up in *. apply Forall_app. split.
      * apply Forall_forall. intros f Hin. exists start. split_and!; [set_solver | | done].
        rewrite Forall_forall in Ha. apply elem_of_cons in Hin as [-> | Hin]; [done |]. symmetry. by apply Ha.
      * eapply Forall_impl; [exact Hg |]. intros f (g & ? & ? & ?). exists g. split_and!; [set_solver | done | done].
Qed.

(** What a space has lost: [a], before [l] that is kept. *)
Definition lost_in (i : nat) (a l : list qframe) (c c' : conn) : Prop :=
  sent (space i c) = a ++ l /\ took i a l c c' /\ requeued i a c c' /\
  match largest_ack (space i c) with
  | None => a = []
  | Some largest =>
      let thr := ngx_quic_time_threshold (rtt c) in let pkt_thr := ngx_quic_packet_threshold (space i c) in
      given_up thr pkt_thr largest a /\ forall f t, l = f :: t -> keeps e thr pkt_thr largest f = true
  end.

Lemma lose_space_took i n c : (i < length (ctxs c))%nat -> packets (sent (space i c)) ->
  exists a l n' c', lose_space e i n c = Some (n', c') /\ lost_in i a l c c'.
Proof.
  intros Hi Hp. unfold lose_space, lost_in. cbv zeta. destruct (largest_ack (space i c)) as [largest|].
  - destruct (lose_packets_took i (ngx_quic_time_threshold (rtt c)) (ngx_quic_packet_threshold (space i c)) largest
      (S (length (sent (space i c)))) n c Hi Hp) as (a & l & n' & c' & E & El & Ht & Hq & Hg & Hk); [lia |].
    exists a, l, n', c'. done.
  - exists [], (sent (space i c)), n, c. split_and!; [done | done | apply took_nil | apply requeued_nil | done].
Qed.

End acked.

(** ** Lemmas: the books are kept *)

Section books.

Context (e : setting).

Lemma waiting_keys c : waiting c = concat (map fst (keys c)).
Proof. unfold waiting, keys. rewrite map_map. done. Qed.

Lemma weights_insert (L : list (list qframe * (list qframe * Z * option Z))) i s r l r' : L !! i = Some (s, r) ->
  weights e (concat (map fst (<[i := (l, r')]> L))) = weights e (concat (map fst L)) - weights e s + weights e l.
Proof.
  revert i. induction L as [|x L IH]; intros [|i]; try done.
  - intros [= ->]. change (weights e (l ++ concat (map fst L)) = weights e (s ++ concat (map fst L)) - weights e s + weights e l).
    rewrite !weights_app. lia.
  - intros H. change (weights e (x.1 ++ concat (map fst (<[i := (l, r')]> L))) = weights e (x.1 ++ concat (map fst L)) - weights e s + weights e l).
    rewrite !weights_app, (IH i H). lia.
Qed.

Lemma keys_lookup i c : (i < length (ctxs c))%nat -> keys c !! i = Some (key (space i c)).
Proof.
  intros Hi. rewrite key_space, nth_lookup. assert (Hk : (i < length (keys c))%nat) by (unfold keys; by rewrite length_map).
  destruct (lookup_lt_is_Some_2 _ _ Hk) as [y Ey]. by rewrite Ey.
Qed.

(** What leaves a space is no longer in flight. *)
Lemma took_flight i a l c c' : (i < length (ctxs c))%nat -> took e i a l c c' -> sent (space i c) ≡ₚ a ++ l ->
  in_flight (cg c) = u64 (flight e c) -> in_flight (cg c') = u64 (flight e c').
Proof.
  intros Hi (K & _ & _ & F) Hp Hf. rewrite F by (rewrite Hf; apply u64_range). rewrite Hf. unfold flight. rewrite !waiting_keys, K.
  rewrite (weights_insert _ i _ _ _ _ (keys_lookup i c Hi)), (weights_perm e _ _ Hp), weights_app.
  unfold u64. rewrite Zminus_mod_idemp_l. f_equal. lia.
Qed.

(** A space between two turns. *)
Record space_ok (x : send_ctx) : Prop := {
  so_sending : sending x = [];
  so_packets : packets (sent x);
  so_numbers : Forall (fun f => pnum f < next_pnum x) (sent x);
  so_rst : rst_pnum e <= next_pnum x }.

Record books (c : conn) : Prop := {
  bk_spaces : length (ctxs c) = NGX_QUIC_SEND_CTX_LAST;
  bk_ok : forall i, (i < NGX_QUIC_SEND_CTX_LAST)%nat -> space_ok (space i c);
  bk_flight : in_flight (cg c) = u64 (flight e c) }.

Lemma space_ok_key x y : (sent y, sending y, next_pnum y) = (sent x, sending x, next_pnum x) -> space_ok x -> space_ok y.
Proof. intros [= H1 H2 H3] []. split; by rewrite ?H1, ?H2, ?H3. Qed.

(** Steps that change nothing that is kept. *)
Lemma books_same c c' : map (fun x => (sent x, sending x, next_pnum x)) (ctxs c') = map (fun x => (sent x, sending x, next_pnum x)) (ctxs c) ->
  in_flight (cg c') = in_flight (cg c) -> books c -> books c'.
Proof.
  intros Hm Hg [H1 H2 H3]. assert (Hl : length (ctxs c') = length (ctxs c)) by (apply (f_equal length) in Hm; by rewrite !length_map in Hm).
  split; [congruence | | ].
  - intros i Hi. apply (space_ok_key (space i c)); [|by apply H2]. unfold space.
    rewrite <- !(map_nth (fun x => (sent x, sending x, next_pnum x)) _ ctx_init), Hm. done.
  - rewrite Hg, H3. unfold flight, waiting. do 3 f_equal. apply (f_equal (map (fun t => t.1.1))) in Hm. rewrite !map_map in Hm. done.
Qed.

Lemma books_keys c c' : keys c' = keys c -> in_flight (cg c') = in_flight (cg c) -> books c -> books c'.
Proof.
  intros Hk. apply books_same. apply (f_equal (map (fun t => (t.1, t.2.1.1, t.2.1.2)))) in Hk. unfold keys in Hk. rewrite !map_map in Hk. done.
Qed.

Lemma books_paid c c' : paid 0 c c' -> books c -> books c'.
Proof.
  intros (K & _ & _ & F) H. eapply books_keys; [exact K | | exact H]. destruct H as [_ _ Hf].
  rewrite F by (rewrite Hf; apply u64_range). rewrite Z.sub_0_r. apply u64_small. rewrite Hf. apply u64_range.
Qed.

Lemma books_took i a l c c' : (i < NGX_QUIC_SEND_CTX_LAST)%nat -> took e i a l c c' -> sent (space i c) ≡ₚ a ++ l ->
  sublist l (sent (space i c)) -> books c -> books c'.
Proof.
  intros Hi Ht Hp Hs [H1 H2 H3]. rewrite <- H1 in Hi. destruct (took_space _ _ _ _ _ _ Ht Hi) as (S1 & R1 & L1). split; [congruence | |].
  - intros j Hj. destruct (decide (i = j)) as [<- | Hne].
    + destruct (H2 i Hj) as [A1 A2 A3 A4]. unfold rest_of in R1. injection R1 as B1 B2 B3. split; rewrite ?S1, ?B1, ?B2; [done | by eapply packets_sublist | | done].
      rewrite Forall_forall in A3 |- *. intros f Hf. apply A3. eapply sublist_submseteq, elem_of_submseteq in Hs; [|exact Hf]. done.
    + assert (Hk : key (space j c') = key (space j c)).
      { destruct Ht as (K & _). rewrite !key_space, K, !nth_lookup, list_lookup_insert_ne by done. done. }
      unfold key, rest_of in Hk. injection Hk as B1 B2 B3 B4. apply (space_ok_key (space j c)); [congruence | by apply H2].
  - by eapply took_flight.
Qed.

End books.

(** ** Specification: the ranges of a frame *)

(** The intervals that a frame acknowledges, highest first, and how the list of its
    ranges ends: well, at its end or with an error. *)
Fixpoint ranges_of (n : nat) (min : Z) (data : list Z) : list (Z * Z) * option (option Z) :=
  match n with
  | O => ([], None)
  | S n =>
      match ngx_quic_parse_ack_range data with
      | None => ([], Some None)
      | Some (gap, range, data) =>
          let max := min - gap - 2 in
          if (max <? 0) || (max <? range) then ([], Some (Some NGX_QUIC_ERR_FRAME_ENCODING_ERROR))
          else let '(l, r) := ranges_of n (max - range) data in ((max - range, max) :: l, r)
      end
  end.

Definition frame_ranges (largest first : Z) (n : nat) (data : list Z) : list (Z * Z) * option (option Z) :=
  if largest <? first then ([], Some (Some NGX_QUIC_ERR_FRAME_ENCODING_ERROR))
  else let '(l, r) := ranges_of n (largest - first) data in ((largest - first, largest) :: l, r).

(** An interval that a space knows: its packets were all sent, or one of them waits. *)
Definition known (x : send_ctx) (iv : Z * Z) : bool := existsb (within iv.1 iv.2) (sent x) || (iv.2 <? next_pnum x).

(** The intervals before one that is not known; what ends the frame. *)
Fixpoint heard (x : send_ctx) (l : list (Z * Z)) : list (Z * Z) :=
  match l with iv :: l => if known x iv then iv :: heard x l else [] | [] => [] end.

Definition verdict (x : send_ctx) (l : list (Z * Z)) (r : option (option Z)) : option (option Z) :=
  if forallb (known x) l then r else Some (Some NGX_QUIC_ERR_PROTOCOL_VIOLATION).

Definition covered (l : list (Z * Z)) (f : qframe) : bool := existsb (fun iv => within iv.1 iv.2 f) l.
Definition uncovered (l : list (Z * Z)) : list qframe -> list qframe := filter (fun f => negb (covered l f)).

(** ** Lemmas: the ranges of a frame *)

Section handling.

Context (e : setting).

Lemma filter_nil (l : list qframe) : uncovered [] l = l.
Proof. unfold uncovered. induction l as [|f l IH]; [done |]. rewrite filter_cons_True, IH; done. Qed.

Lemma uncovered_cons iv l s : uncovered (iv :: l) s = uncovered l (filter (fun f => negb (within iv.1 iv.2 f)) s).
Proof.
  unfold uncovered. rewrite list_filter_filter. apply list_filter_iff. intros f. cbn. rewrite negb_orb, andb_True. tauto.
Qed.

Lemma uncovered_sublist l s : sublist (uncovered l s) s.
Proof. apply sublist_filter. Qed.

(** An interval below those that were taken is known as it was. *)
Lemma known_after x y lo hi iv : iv.2 < lo -> next_pnum y = next_pnum x ->
  sent y = filter (fun f => negb (within lo hi f)) (sent x) -> known y iv = known x iv.
Proof.
  intros Hiv Hn Hs. unfold known. rewrite Hn, Hs. f_equal. clear Hn Hs y. induction (sent x) as [|f l IH]; [done |].
  destruct (within lo hi f) eqn:Ew; [rewrite filter_cons_False by (rewrite Ew; naive_solver) | rewrite filter_cons_True by (rewrite Ew; naive_solver)];
    cbn [existsb]; rewrite IH; [|done].
  assert (within iv.1 iv.2 f = false) as ->; [|done]. unfold within in *. lia.
Qed.

Lemma heard_ext x y l : Forall (fun iv => known y iv = known x iv) l -> heard y l = heard x l /\ forallb (known y) l = forallb (known x) l.
Proof. induction 1 as [|iv l Hiv Hl [IH1 IH2]]; [done |]. cbn. by rewrite Hiv, IH1, IH2. Qed.

Lemma heard_all x l : forallb (known x) l = true -> heard x l = l.
Proof. induction l as [|iv l IH]; [done |]. cbn. destruct (known x iv); [|done]. cbn. intros H. by rewrite IH. Qed.

Lemma ack_range_parsed data gap range rest : wf_bytes data -> ngx_quic_parse_ack_range data = Some (gap, range, rest) ->
  0 <= gap < 2 ^ 62 /\ 0 <= range < 2 ^ 62 /\ wf_bytes rest.
Proof.
  intros Hw. unfold ngx_quic_parse_ack_range. destruct (ngx_quic_parse_int data) as [[g p]|] eqn:E1; cbn [mbind option_bind]; [|done].
  apply parse_int_iff in E1 as (b1 & Hv1 & ->); [|done]. apply wf_bytes_app in Hw as [_ Hw].
  destruct (ngx_quic_parse_int p) as [[r q]|] eqn:E2; cbn [mbind option_bind]; [|done].
  apply parse_int_iff in E2 as (b2 & Hv2 & ->); [|done]. apply wf_bytes_app in Hw as [_ Hw]. intros [= -> -> ->].
  apply varint_range in Hv1, Hv2. split_and!; lia || done.
Qed.

Lemma ranges_below n : forall min data, wf_bytes data -> 0 <= min -> Forall (fun iv => 0 <= iv.1 <= iv.2 /\ iv.2 < min) (ranges_of n min data).1.
Proof.
  induction n as [|n IH]; intros min data Hw Hm; cbn [ranges_of]; [constructor |].
  destruct (ngx_quic_parse_ack_range data) as [[[gap range] rest]|] eqn:E; [|constructor]. cbv zeta.
  destruct (ack_range_parsed _ _ _ _ Hw E) as (Hg & Hr & Hrest).
  destruct (Z.ltb_spec (min - gap - 2) 0); [constructor |]. destruct (Z.ltb_spec (min - gap - 2) range); [constructor |]. cbn [orb].
  pose proof (IH (min - gap - 2 - range) rest Hrest ltac:(lia)) as H1. destruct (ranges_of n _ rest) as [l r]. cbn in *.
  constructor; [cbn; lia |]. eapply Forall_impl; [exact H1 |]. intros iv ?. cbn in *. lia.
Qed.

(** The packets of the intervals left the space [i]; the frame may have been bad. *)
Definition acked_to (i : nat) (l : list qframe) (err : option Z) (c c' : conn) : Prop :=
  exists a c1, sent (space i c) ≡ₚ a ++ l /\ took e i a l c c1 /\ c' = match err with None => c1 | Some x => set_error x c1 end.

Lemma acked_first i a l m err c1 c2 c3 : (i < length (ctxs c1))%nat ->
  took e i a l c1 c2 -> sent (space i c1) ≡ₚ a ++ l -> acked_to i m err c2 c3 -> acked_to i m err c1 c3.
Proof.
  intros Hi Ht Hp (b & c4 & Hb & Ht2 & ->). destruct (took_space _ _ _ _ _ _ Ht Hi) as (S1 & _ & _). rewrite S1 in Hb.
  exists (a ++ b), c4. split_and!; [by rewrite Hp, Hb, app_assoc | by apply (took_trans _ _ _ _ l _ c1 c2 c4) | done].
Qed.

Lemma none_within lo hi (l : list qframe) : existsb (within lo hi) l = negb (bool_decide (filter (fun f => within lo hi f) l = [])).
Proof.
  induction l as [|f l IH]; [done |]. cbn [existsb]. rewrite filter_cons. destruct (within lo hi f); cbn.
  - rewrite decide_True by done. by rewrite bool_decide_false.
  - rewrite decide_False by naive_solver. exact IH.
Qed.

Lemma filter_split (p : qframe -> bool) l : l ≡ₚ filter (fun f => p f) l ++ filter (fun f => negb (p f)) l.
Proof.
  induction l as [|f l IH]; [done |]. rewrite !filter_cons. destruct (p f); cbn.
  - rewrite decide_True, decide_False by naive_solver. cbn. by rewrite <- IH.
  - rewrite decide_False, decide_True by naive_solver. rewrite <- Permutation_middle. by rewrite <- IH.
Qed.

(** One range: known or not, the packets it names have left. *)
Lemma ack_range_spec i min max st c ok st' c' : (i < length (ctxs c))%nat -> by_number (sent (space i c)) ->
  ngx_quic_handle_ack_frame_range e i min max st c = (ok, st', c') ->
  ok = known (space i c) (min, max) /\
  let l := filter (fun f => negb (within min max f)) (sent (space i c)) in
  if ok then took e i (filter (fun f => within min max f) (sent (space i c))) l c c'
  else l = sent (space i c) /\ acked_to i l (Some NGX_QUIC_ERR_PROTOCOL_VIOLATION) c c'.
Proof.
  intros Hi Hs. unfold ngx_quic_handle_ack_frame_range. cbv zeta.
  destruct (ack_frames e i min max [] _ false _ c) as [[found st1] c1] eqn:E.
  assert (Hs0 : sent (space i c) = [] ++ sent (space i c)) by done.
  destruct (ack_frames_spec e i min max _ [] false _ _ _ _ _ Hi Hs0 E) as (a & l & Ht & Hp & Hf & Hab). cbn [app] in *.
  destruct (Hab Hs) as [-> ->]. cbn [orb] in Hf.
  destruct (took_space _ _ _ _ _ _ Ht Hi) as (S1 & R1 & L1).
  unfold known. cbn [fst snd]. rewrite none_within, <- Hf.
  assert (Hn : next_pnum (space i c1) = next_pnum (space i c)) by (unfold rest_of in R1; congruence).
  destruct found; cbn [negb].
  - intros [= <- _ <-]. split; [done |]. apply (took_paid _ _ _ _ _ c1); [done |]. destruct (push_set e); by apply paid_quiet.
  - cbn [orb]. symmetry in Hf. apply negb_false_iff, bool_decide_eq_true in Hf. rewrite Hn.
    destruct (max <? next_pnum (space i c)); intros [= <- _ <-]; (split; [done |]); [done |]. split.
    + apply (filter_none (within min max)). apply Forall_forall. intros f Hin. destruct (within min max f) eqn:Ew; [|done].
      assert (Hx : f ∈ filter (fun f => within min max f) (sent (space i c))) by (apply list_elem_of_filter; rewrite Ew; done).
      rewrite Hf in Hx. by apply elem_of_nil in Hx.
    + eexists _, c1. split_and!; [|exact Ht | done]. apply filter_split.
Qed.

Lemma ack_ranges_spec i n : forall min data st c ok st' c', (i < length (ctxs c))%nat -> by_number (sent (space i c)) ->
  wf_bytes data -> 0 <= min -> ack_ranges e i n min data st c = (ok, st', c') ->
  let '(ivs, r) := ranges_of n min data in let v := verdict (space i c) ivs r in
  ok = bool_decide (v = None) /\ acked_to i (uncovered (heard (space i c) ivs) (sent (space i c))) (mjoin v) c c'.
Proof.
  induction n as [|n IH]; intros min data st c ok st' c' Hi Hs Hw Hm; cbn [ack_ranges ranges_of].
  { intros [= <- _ <-]. split; [done |]. cbn [heard]. rewrite filter_nil. exists [], c. split_and!; [done | apply took_nil | done]. }
  assert (Hnil : forall err, acked_to i (uncovered [] (sent (space i c))) err c match err with None => c | Some x => set_error x c end).
  { intros err. rewrite filter_nil. exists [], c. split_and!; [done | apply took_nil | done]. }
  destruct (ngx_quic_parse_ack_range data) as [[[gap range] rest]|] eqn:E.
  2:{ intros [= <- _ <-]. split; [done | apply (Hnil None)]. }
  destruct (ack_range_parsed _ _ _ _ Hw E) as (Hg & Hr & Hrest). cbv zeta.
  destruct (Z.ltb_spec min (gap + 2)) as [Hlt | Hge].
  { intros [= <- _ <-]. destruct (Z.ltb_spec (min - gap - 2) 0); [|lia]. split; [done | apply (Hnil (Some _))]. }
  destruct (Z.ltb_spec (min - gap - 2) 0); [lia |]. cbn [orb].
  destruct (Z.ltb_spec (min - gap - 2) range) as [Hlt2 | Hge2].
  { intros [= <- _ <-]. split; [done | apply (Hnil (Some _))]. }
  set (max := min - gap - 2) in *. destruct (ngx_quic_handle_ack_frame_range e i (max - range) max st c) as [[ok1 st1] c1] eqn:E1.
  destruct (ack_range_spec _ _ _ _ _ _ _ _ Hi Hs E1) as [Hk Ha]. cbv zeta in Ha.
  pose proof (ranges_below n (max - range) rest Hrest ltac:(lia)) as Hb.
  destruct ok1; cbn [negb]; intros E2.
  - destruct (took_space _ _ _ _ _ _ Ha Hi) as (S1 & R1 & L1).
    specialize (IH (max - range) rest st1 c1 ok st' c'). rewrite L1, S1 in IH.
    assert (Hs1 : by_number (filter (fun f => negb (within (max - range) max f)) (sent (space i c)))).
    { eapply sorted_sublist; [apply sublist_filter | exact Hs]. }
    specialize (IH Hi Hs1 Hrest ltac:(lia) E2). destruct (ranges_of n (max - range) rest) as [ivs r]. cbn [fst] in Hb.
    assert (Hext : Forall (fun iv => known (space i c1) iv = known (space i c) iv) ivs).
    { eapply Forall_impl; [exact Hb |]. intros iv Hiv. cbn in Hiv. apply (known_after _ _ (max - range) max); [lia | | done].
      unfold rest_of in R1. congruence. }
    destruct (heard_ext _ _ _ Hext) as [Hh Hfb]. unfold verdict in *. rewrite Hfb, Hh in IH. cbn [forallb heard]. rewrite <- Hk. cbn [andb].
    destruct IH as [-> IH]. split; [done |]. rewrite uncovered_cons. cbn [fst snd]. eapply acked_first; [done | exact Ha | apply filter_split | exact IH].
  - injection E2 as <- _ <-. destruct (ranges_of n (max - range) rest) as [ivs r]. unfold verdict. cbn [forallb heard]. rewrite <- Hk. cbn [andb].
    destruct Ha as [Hl Ha]. split; [done |]. rewrite filter_nil. by rewrite Hl in Ha.
Qed.

(** The largest number that was acknowledged is noted; the packets stay. *)
Lemma note_largest_spec i max delay st c : (i < length (ctxs c))%nat ->
  let c' := note_largest e i max delay st c in
  map (fun x => (sent x, sending x, next_pnum x)) (ctxs c') = map (fun x => (sent x, sending x, next_pnum x)) (ctxs c) /\
  cg c' = cg c /\ error c' = error c /\ limits c' = limits c /\ (forall j, frames (space j c') = frames (space j c)) /\
  largest_ack (space i c') = Some (match largest_ack (space i c) with Some l => Z.max l max | None => max end) /\
  forall j, i <> j -> space j c' = space j c.
Proof.
  intros Hi. unfold note_largest. cbv zeta. set (newer := match largest_ack (space i c) with Some l => _ | None => true end).
  destruct newer eqn:En; subst newer.
  - set (c1 := set_space i (set_largest_ack (Some max) (space i c)) c).
    assert (H : map (fun x => (sent x, sending x, next_pnum x)) (ctxs c1) = map (fun x => (sent x, sending x, next_pnum x)) (ctxs c) /\
      (forall j, frames (space j c1) = frames (space j c)) /\
      largest_ack (space i c1) = Some (match largest_ack (space i c) with Some l => Z.max l max | None => max end) /\
      forall j, i <> j -> space j c1 = space j c).
    { unfold c1. split_and!.
      - unfold set_space. cbn. rewrite list_fmap_insert. apply list_insert_id. rewrite list_lookup_fmap. unfold space. rewrite nth_lookup.
        destruct (lookup_lt_is_Some_2 _ _ Hi) as [y Ey]. by rewrite Ey.
      - intros j. destruct (decide (i = j)) as [<- | Hne]; [by rewrite space_same | by rewrite space_other].
      - rewrite space_same by done. cbn [largest_ack set_largest_ack]. destruct (largest_ack (space i c)); [|done]. f_equal. lia.
      - intros j Hj. by apply space_other. }
    destruct H as (H1 & H2 & H3 & H4). case_if; split_and!; done.
  - split_and!; try done. destruct (largest_ack (space i c)); [|done]. f_equal. lia.
Qed.

(** What a space loses in a turn, and what a turn leaves to the other spaces. *)
Definition lost_space (j : nat) (c c' : conn) : Prop :=
  exists lost, sent (space j c) = lost ++ sent (space j c') /\ rest_of (space j c') = rest_of (space j c) /\
    map content (frames (space j c')) = map content (frames (space j c)) ++ map content (omap (again c) lost) /\
    match largest_ack (space j c) with
    | None => lost = []
    | Some largest =>
        let thr := ngx_quic_time_threshold (rtt c) in let pkt_thr := ngx_quic_packet_threshold (space j c) in
        given_up e thr pkt_thr largest lost /\ forall f t, sent (space j c') = f :: t -> keeps e thr pkt_thr largest f = true
    end.

Definition left_alone (j : nat) (c c' : conn) : Prop := key (space j c') = key (space j c) /\ frames (space j c') = frames (space j c).
Definition shared (c c' : conn) : Prop := rtt c' = rtt c /\ error c' = error c /\ limits c' = limits c.

Lemma lost_later j c c1 c2 : left_alone j c c1 -> shared c c1 -> lost_space j c1 c2 -> lost_space j c c2.
Proof.
  intros (K & F) (R & _ & L) (lost & H1 & H2 & H3 & H4). unfold key, rest_of in K. injection K as K1 K2 K3 K4.
  exists lost. unfold rest_of in *. rewrite <- K1, <- F, <- K2, <- K3, <- K4. split_and!; [done | done | |].
  - rewrite H3. do 2 f_equal. apply list_omap_ext, Forall_Forall2_diag, Forall_forall. intros f _. by apply again_limits.
  - assert (Hp : ngx_quic_packet_threshold (space j c) = ngx_quic_packet_threshold (space j c1)).
    { unfold ngx_quic_packet_threshold. by rewrite K1, K3. }
    rewrite Hp, <- R. done.
Qed.

Lemma lost_before j c c1 c2 : lost_space j c c1 -> left_alone j c1 c2 -> lost_space j c c2.
Proof.
  intros (lost & H1 & H2 & H3 & H4) (K & F). unfold key in K. injection K as K1 K2.
  exists lost. rewrite K1, F. split_and!; [done | unfold rest_of in *; congruence | done | done].
Qed.

Lemma lost_in_space i a l c c' : (i < length (ctxs c))%nat -> lost_in e i a l c c' ->
  lost_space i c c' /\ (forall j, i <> j -> left_alone j c c') /\ shared c c' /\ length (ctxs c') = length (ctxs c).
Proof.
  intros Hi (Hs & Ht & (Ql & Qf & Qo) & Hk). destruct (took_space _ _ _ _ _ _ Ht Hi) as (S1 & R1 & L1). split_and!; [| | | done].
  - exists a. rewrite S1. done.
  - intros j Hj. split; [|by apply Qo]. destruct Ht as (K & _). rewrite !key_space, K, !nth_lookup, list_lookup_insert_ne by done. done.
  - destruct Ht as (_ & E & R & _). done.
Qed.


Lemma left_alone_trans j c1 c2 c3 : left_alone j c1 c2 -> left_alone j c2 c3 -> left_alone j c1 c3.
Proof. intros [] []. split; congruence. Qed.

Lemma shared_trans c1 c2 c3 : shared c1 c2 -> shared c2 c3 -> shared c1 c3.
Proof. intros (? & ? & ?) (? & ? & ?). split_and!; congruence. Qed.

Lemma lost_in_books i a l c c' : (i < NGX_QUIC_SEND_CTX_LAST)%nat -> lost_in e i a l c c' -> books e c -> books e c'.
Proof.
  intros Hi (Hs & Ht & _) Hb. eapply books_took; [done | exact Ht | by rewrite Hs | rewrite Hs; by apply sublist_inserts_l | done].
Qed.

(** A time that is none or to come. *)
Definition time_ok (t : Z) : Prop := t = -1 \/ 0 <= t.

Lemma sooner_ok a w : time_ok a -> 0 <= w -> 0 <= sooner a w.
Proof. unfold time_ok, sooner. intros Ha Hw. destruct (Z.eqb_spec a (-1)), (Z.ltb_spec w a); cbn [orb]; lia. Qed.

Lemma space_times_spec i c t : time_ok t.1 -> time_ok t.2 -> let t' := space_times e i c t in
  time_ok t'.1 /\ time_ok t'.2 /\ (0 <= t.2 -> 0 <= t'.2) /\ (sent (space i c) = [] -> t' = t) /\ (sent (space i c) <> [] -> 0 <= t'.2).
Proof.
  intros H1 H2. unfold space_times. cbv zeta. destruct (sent (space i c)) as [|f l] eqn:Es; [split_and!; done |].
  destruct (last (f :: l)) as [g|] eqn:El; [|by apply last_None in El]. cbn [fst snd].
  assert (Hp : forall w, 0 <= sooner t.2 (Z.max w 0)) by (intros w; apply sooner_ok; [done | lia]).
  split_and!; [| right; apply Hp | intros _; apply Hp | done | intros _; apply Hp].
  destruct (largest_ack (space i c)) as [largest|]; [|done]. case_if; [|done].
  right. apply sooner_ok; [done |]. case_if; lia.
Qed.

(** The timer is set exactly when a packet waits. *)
Definition timer_ok (c : conn) : Prop := (pto c = None <-> waiting c = []) /\ forall h t, pto c = Some (h, t) -> 0 <= t.

Lemma lost_timer_spec c : length (ctxs c) = NGX_QUIC_SEND_CTX_LAST -> timer_ok (ngx_quic_set_lost_timer e c).
Proof.
  intros Hl. unfold ngx_quic_set_lost_timer. cbn [seq NGX_QUIC_SEND_CTX_LAST fold_left].
  destruct (space_times_spec 0 c (-1, -1)) as (A1 & A2 & A3 & A4 & A5); [by left | by left |]. cbv zeta in *. set (t0 := space_times e 0 c _) in *.
  destruct (space_times_spec 1 c t0) as (B1 & B2 & B3 & B4 & B5); [done | done |]. cbv zeta in *. set (t1 := space_times e 1 c _) in *.
  destruct (space_times_spec 2 c t1) as (C1 & C2 & C3 & C4 & C5); [done | done |]. cbv zeta in *. set (t2 := space_times e 2 c _) in *.
  assert (Hw : waiting c = sent (space 0 c) ++ sent (space 1 c) ++ sent (space 2 c)).
  { unfold waiting, space. destruct (ctxs c) as [|x [|y [|z [|w l]]]]; try done. cbn. by rewrite app_nil_r. }
  assert (Hempty : waiting c = [] -> t2 = (-1, -1)).
  { rewrite Hw. intros H. apply app_nil in H as [H0 H]. apply app_nil in H as [H1 H2]. by rewrite C4, B4, A4. }
  assert (Hfull : waiting c <> [] -> 0 <= t2.2).
  { rewrite Hw. intros H. destruct (decide (sent (space 2 c) = [])) as [E2 | ?]; [|by apply C5].
    destruct (decide (sent (space 1 c) = [])) as [E1 | ?]; [|by apply C3, B5].
    apply C3, B3, A5. intros E0. apply H. by rewrite E0, E1, E2. }
  clearbody t2. clear - Hempty Hfull C1 C2. destruct t2 as [lost p]. cbn [fst snd] in *. unfold timer_ok. cbn [pto set_pto].
  change (waiting (set_pto _ c)) with (waiting c). unfold time_ok in C1, C2.
  destruct (Z.eqb_spec lost (-1)) as [-> | Hlost]; cbn [negb]; [destruct (Z.eqb_spec p (-1)) as [-> | Hpto]; cbn [negb]|].
  - split; [|done]. split; [|done]. intros _. destruct (waiting c); [done |]. specialize (Hfull ltac:(done)). lia.
  - split; [split; [done |]; intros H; specialize (Hempty H); congruence | intros h t [= _ <-]; lia].
  - split; [split; [done |]; intros H; specialize (Hempty H); congruence | intros h t [= _ <-]; lia].
Qed.

(** Losses are found in every space, and the books are kept. *)
Lemma detect_lost_spec st c : books e c -> exists c', ngx_quic_detect_lost e st c = Some c' /\ books e c' /\
  error c' = error c /\ limits c' = limits c /\ timer_ok c' /\ forall j, (j < NGX_QUIC_SEND_CTX_LAST)%nat -> lost_space j c c'.
Proof.
  intros Hb. unfold ngx_quic_detect_lost.
  assert (H0 : forall i n c, (i < NGX_QUIC_SEND_CTX_LAST)%nat -> books e c -> exists n' c', lose_space e i n c = Some (n', c') /\
    books e c' /\ lost_space i c c' /\ (forall j, i <> j -> left_alone j c c') /\ shared c c').
  { intros i n d Hi Hd. pose proof (bk_spaces _ _ Hd) as Hl. destruct (bk_ok _ _ Hd i Hi) as [_ Hp _ _].
    destruct (lose_space_took e i n d) as (a & l & n' & d' & E & H); [by rewrite Hl | done |].
    destruct (lost_in_space i a l d d') as (H1 & H2 & H3 & _); [by rewrite Hl | done |].
    exists n', d'. split_and!; try done. by eapply lost_in_books. }
  destruct (H0 0%nat (Losses 0 (now e) (now e)) c) as (n1 & c1 & -> & B1 & S1 & A1 & Q1); [unfold NGX_QUIC_SEND_CTX_LAST; lia | done |]. cbn [mbind option_bind].
  destruct (H0 1%nat n1 c1) as (n2 & c2 & -> & B2 & S2 & A2 & Q2); [unfold NGX_QUIC_SEND_CTX_LAST; lia | done |]. cbn [mbind option_bind].
  destruct (H0 2%nat n2 c2) as (n3 & c3 & -> & B3 & S3 & A3 & Q3); [unfold NGX_QUIC_SEND_CTX_LAST; lia | done |]. cbn [mbind option_bind].
  set (c4 := match st with Some _ => _ | None => c3 end).
  assert (H4 : ctxs c4 = ctxs c3 /\ in_flight (cg c4) = in_flight (cg c3) /\ error c4 = error c3 /\ limits c4 = limits c3).
  { unfold c4. destruct st; [|done]. case_if; done. }
  destruct H4 as (X1 & X2 & X3 & X4). eexists. split; [reflexivity |].
  assert (Ht : timer_ok (ngx_quic_set_lost_timer e c4)) by (apply lost_timer_spec; rewrite X1; apply B3).
  set (c5 := ngx_quic_set_lost_timer e c4) in *.
  assert (H5 : ctxs c5 = ctxs c3 /\ in_flight (cg c5) = in_flight (cg c3) /\ error c5 = error c3 /\ limits c5 = limits c3).
  { unfold c5, ngx_quic_set_lost_timer. destruct (fold_left _ _ _) as [lost pto]. cbn. by rewrite X1, X2, X3, <- X4. }
  clearbody c5. destruct H5 as (Y1 & Y2 & Y3 & Y4).
  destruct Q1 as (Q1r & Q1e & Q1l), Q2 as (Q2r & Q2e & Q2l), Q3 as (Q3r & Q3e & Q3l). split_and!; [| congruence | congruence | done |].
  - apply (books_same e c3); [by rewrite Y1 | done | done].
  - assert (Hall : forall j, left_alone j c3 c5) by (intros j; unfold left_alone, space; by rewrite Y1).
    intros j Hj. apply (lost_before j _ c3); [|apply Hall].
    assert (Hcase : j = 0%nat \/ j = 1%nat \/ j = 2%nat) by (unfold NGX_QUIC_SEND_CTX_LAST in Hj; lia).
    destruct Hcase as [-> | [-> | ->]].
    + apply (lost_before _ _ c1); [done |]. eapply left_alone_trans; [by apply A2 | by apply A3].
    + apply (lost_before _ _ c2); [|by apply A3]. eapply lost_later; [by apply A1 | done | done].
    + apply (lost_later _ _ c2); [eapply left_alone_trans; [by apply A1 | by apply A2] | by split_and!; congruence | done].
Qed.

(** The packets that a frame acknowledges have left, and the largest is noted. *)
Definition ack_taken (i : nat) (ivs : list (Z * Z)) (largest : Z) (c c' : conn) : Prop :=
  sent (space i c') = uncovered ivs (sent (space i c)) /\ next_pnum (space i c') = next_pnum (space i c) /\
  largest_ack (space i c') = Some (match largest_ack (space i c) with Some l => Z.max l largest | None => largest end) /\
  (forall j, i <> j -> key (space j c') = key (space j c)).

(** All that a frame that is good does: it is taken, then losses are found. *)
Definition ack_handled (i : nat) (ivs : list (Z * Z)) (largest : Z) (c c' : conn) : Prop :=
  error c' = error c /\ timer_ok c' /\ exists c1, ack_taken i ivs largest c c1 /\
    forall j, (j < NGX_QUIC_SEND_CTX_LAST)%nat -> lost_space j c1 c'.

Lemma took_other i j a l c c' : took e i a l c c' -> i <> j -> key (space j c') = key (space j c).
Proof. intros (K & _) Hj. by rewrite !key_space, K, !nth_lookup, list_lookup_insert_ne. Qed.


(** Frames that are bad end with an error, after what was heard of them. *)
Definition ack_refused (i : nat) (ivs : list (Z * Z)) (err : option Z) (c c' : conn) : Prop :=
  error c' = match err with Some x => Some x | None => error c end /\
  sent (space i c') = uncovered (heard (space i c) ivs) (sent (space i c)) /\
  forall j, i <> j -> key (space j c') = key (space j c).

Lemma acked_to_books i l err c c' : (i < NGX_QUIC_SEND_CTX_LAST)%nat -> acked_to i l err c c' -> sublist l (sent (space i c)) -> books e c ->
  books e c' /\ sent (space i c') = l /\ error c' = match err with Some x => Some x | None => error c end /\
  next_pnum (space i c') = next_pnum (space i c) /\ largest_ack (space i c') = largest_ack (space i c) /\
  forall j, i <> j -> key (space j c') = key (space j c).
Proof.
  intros Hi (a & c1 & Hp & Ht & Hc) Hs Hb. pose proof (bk_spaces _ _ Hb) as Hl.
  assert (Hi2 : (i < length (ctxs c))%nat) by (by rewrite Hl). destruct (took_space _ _ _ _ _ _ Ht Hi2) as (S1 & R1 & L1).
  unfold rest_of in R1. injection R1 as R1 R2 R3.
  assert (Hb1 : books e c1) by (by eapply books_took). destruct (Ht) as (_ & E1 & _).
  assert (Hk : forall j, i <> j -> key (space j c1) = key (space j c)) by (intros j; by eapply took_other).
  subst c'. destruct err; split_and!; try done. by apply (books_same e c1).
Qed.

(** What the first range and the sample of the time leave. *)
Lemma first_range_spec i lo largest delay st c ok st1 c1 : books e c -> (i < NGX_QUIC_SEND_CTX_LAST)%nat ->
  ngx_quic_handle_ack_frame_range e i lo largest st c = (ok, st1, c1) ->
  ok = known (space i c) (lo, largest) /\
  if ok then
    let c2 := note_largest e i largest delay st1 c1 in
    books e c2 /\ ack_taken i [(lo, largest)] largest c c2 /\ error c2 = error c
  else books e c1 /\ error c1 = Some NGX_QUIC_ERR_PROTOCOL_VIOLATION /\ sent (space i c1) = sent (space i c) /\
    forall j, i <> j -> key (space j c1) = key (space j c).
Proof.
  intros Hb Hi E. pose proof (bk_spaces _ _ Hb) as Hl. assert (Hi2 : (i < length (ctxs c))%nat) by (by rewrite Hl).
  destruct (bk_ok _ _ Hb i Hi) as [_ Hp _ _]. destruct (ack_range_spec _ _ _ _ _ _ _ _ Hi2 (packets_by_number _ Hp) E) as [Hk Ha].
  cbv zeta in Ha. split; [done |]. destruct ok.
  - assert (Hto : acked_to i (uncovered [(lo, largest)] (sent (space i c))) None c c1).
    { rewrite uncovered_cons, filter_nil. eexists _, c1. split_and!; [|exact Ha | done]. apply filter_split. }
    destruct (acked_to_books _ _ _ _ _ Hi Hto (uncovered_sublist _ _) Hb) as (B1 & S1 & E1 & N1 & G1 & K1).
    assert (Hi3 : (i < length (ctxs c1))%nat) by (by rewrite (bk_spaces _ _ B1)).
    destruct (note_largest_spec i largest delay st1 c1 Hi3) as (M & C & Er & _ & _ & La & Oth). cbv zeta in M, C, Er, La, Oth |- *.
    set (c2 := note_largest _ _ _ _ _ _) in *.
    assert (Hsp : sent (space i c2) = sent (space i c1) /\ next_pnum (space i c2) = next_pnum (space i c1)).
    { unfold space. pose proof (f_equal (fun l => nth i l (sent ctx_init, sending ctx_init, next_pnum ctx_init)) M) as H. cbv beta in H.
      rewrite !(map_nth (fun x => (sent x, sending x, next_pnum x))) in H. by injection H. }
    destruct Hsp as [Hs2 Hn2]. split_and!; [by apply (books_same e c1); [| by rewrite C |] | | by rewrite Er].
    split_and!; [by rewrite Hs2 | by rewrite Hn2 | by rewrite La, G1 | intros j Hj; by rewrite Oth, K1].
  - destruct Ha as [Hs Ha]. rewrite Hs in Ha. destruct (acked_to_books _ _ _ _ _ Hi Ha (reflexivity _) Hb) as (B1 & S1 & E1 & _ & _ & K1). done.
Qed.

Lemma ack_frame_spec i largest delay n first data c : books e c -> (i < NGX_QUIC_SEND_CTX_LAST)%nat -> 0 <= first -> wf_bytes data ->
  let '(ivs, r) := frame_ranges largest first (Z.to_nat n) data in let v := verdict (space i c) ivs r in
  exists c', ngx_quic_handle_ack_frame e i largest delay n first data c = Some (bool_decide (v = None), c') /\ books e c' /\
    (v = None -> ack_handled i ivs largest c c') /\ (v <> None -> ack_refused i ivs (mjoin v) c c').
Proof.
  intros Hb Hi Hf Hw. unfold frame_ranges, ngx_quic_handle_ack_frame. destruct (Z.ltb_spec largest first) as [Hlt | Hge].
  { eexists. split; [reflexivity |]. split; [by apply (books_same e c) |]. split; [done |]. intros _. split_and!; [done | | done].
    cbn [heard]. by rewrite filter_nil. }
  cbv zeta. destruct (ngx_quic_handle_ack_frame_range e i (largest - first) largest stat_init c) as [[ok1 st1] c1] eqn:E1.
  destruct (first_range_spec _ _ _ delay _ _ _ _ _ Hb Hi E1) as [Hk Ha]. cbv zeta in Ha.
  pose proof (ranges_below (Z.to_nat n) (largest - first) data Hw ltac:(lia)) as Hbel.
  destruct ok1; cbn [negb].
  2:{ destruct Ha as (B1 & Er & S1 & K1). destruct (ranges_of _ _ _) as [ivs r]. exists c1. unfold verdict. cbn [forallb].
      rewrite <- Hk. cbn [andb]. split_and!; [done | done | done |]. intros _. split_and!; [done | | done]. cbn [heard].
      rewrite <- Hk. by rewrite filter_nil. }
  set (c2 := note_largest e i largest delay st1 c1) in *. destruct Ha as (B2 & (S2 & N2 & La2 & K2) & Er2).
  destruct (ack_ranges e i (Z.to_nat n) (largest - first) data st1 c2) as [[ok3 st3] c3] eqn:E3.
  assert (Hi2 : (i < length (ctxs c2))%nat) by (by rewrite (bk_spaces _ _ B2)).
  destruct (bk_ok _ _ B2 i Hi) as [_ Hp2 _ _].
  assert (H0 : 0 <= largest - first) by lia.
  pose proof (ack_ranges_spec _ _ _ _ _ _ _ _ _ Hi2 (packets_by_number _ Hp2) Hw H0 E3) as Hr.
  destruct (ranges_of (Z.to_nat n) (largest - first) data) as [ivs r]. cbn [fst] in Hbel.
  assert (Hext : Forall (fun iv => known (space i c2) iv = known (space i c) iv) ivs).
  { eapply Forall_impl; [exact Hbel |]. intros iv Hiv. cbn in Hiv. apply (known_after _ _ (largest - first) largest); [lia | done |].
    rewrite S2, uncovered_cons, filter_nil. done. }
  destruct (heard_ext _ _ _ Hext) as [Hh Hfb]. unfold verdict in *. rewrite Hfb, Hh in Hr. cbn [forallb heard]. rewrite <- Hk. cbn [andb].
  set (v := if forallb (known (space i c)) ivs then r else _) in *. destruct Hr as [Hok Hto].
  rewrite S2, uncovered_cons, filter_nil, <- (uncovered_cons (largest - first, largest)) in Hto.
  assert (Hsub : sublist (uncovered ((largest - first, largest) :: heard (space i c) ivs) (sent (space i c))) (sent (space i c2))).
  { rewrite S2, !uncovered_cons, filter_nil. apply uncovered_sublist. }
  destruct (acked_to_books _ _ _ _ _ Hi Hto Hsub B2) as (B3 & S3 & Er3 & N3 & La3 & K3).
  destruct (decide (v = None)) as [Hv | Hv].
  - rewrite bool_decide_true in Hok |- * by done. subst ok3. cbn [negb]. destruct (detect_lost_spec (Some st3) c3 B3) as (c4 & E4 & B4 & Er4 & _ & T4 & L4).
    rewrite E4. cbn [mbind option_bind]. exists c4. split_and!; [done | done | | done]. intros _. rewrite Hv in Er3. cbn in Er3.
    split; [congruence |]. split; [done |]. exists c3. split; [|done].
    assert (Hall : heard (space i c) ivs = ivs) by (apply heard_all; unfold v in Hv; by destruct (forallb _ ivs)).
    rewrite Hall in S3. split_and!; [done | congruence | congruence | intros j Hj; by rewrite K3, K2].
  - rewrite bool_decide_false in Hok |- * by done. subst ok3. cbn [negb]. exists c3. split_and!; [done | done | done |]. intros _.
    split_and!; [rewrite Er3; destruct (mjoin v); congruence | | intros j Hj; by rewrite K3, K2].
    cbn [heard]. by rewrite <- Hk.
Qed.

End handling.

(** ** Lemmas: packets that are sent *)

Section sending.

Context (e : setting).

Lemma build_int_some v : exists b t, ngx_quic_build_int v = b :: t.
Proof. unfold ngx_quic_build_int. repeat case_if; by eexists _, _. Qed.

Lemma frame_some f n bs : ngx_quic_create_frame true f = Some (n, bs) -> 1 <= n.
Proof.
  assert (H : forall v l, 1 <= Z.of_nat (length (ngx_quic_build_int v ++ l))).
  { intros v l. destruct (build_int_some v) as (b & t & ->). cbn. lia. }
  assert (H0 : forall v, 1 <= Z.of_nat (length (ngx_quic_build_int v))).
  { intros v. destruct (build_int_some v) as (b & t & ->). cbn. lia. }
  destruct f; cbn [ngx_quic_create_frame]; try done; try (destruct ecn; [done |]); intros [= <- _]; first [lia | apply H | apply H0].
Qed.

(** Whatever is queued, a packet is made or not: the loop ends. *)
Lemma fill_total fuel o pn max : forall n d payload todo, max - n < Z.of_nat fuel -> (0 < fuel)%nat -> exists r, fill_packet fuel o pn max n d payload todo = Some r.
Proof.
  induction fuel as [|fuel IH]; intros n d payload todo Hn Hf; cbn [fill_packet].
  - lia.
  - destruct todo as [|f rest]; [by eexists |]. destruct (Z.leb_spec max n); [by eexists |]. cbv zeta.
    assert (Hput : forall g l, exists r, match ngx_quic_create_frame true (content (stamp o pn g)) with
        | None => Some (false, n, d, payload, stamp o pn g :: l)
        | Some (kk, bytes) => fill_packet fuel o pn max (n + kk) (d ++ [stamp o pn g]) (payload ++ bytes) l
        end = Some r).
    { intros g l. destruct (ngx_quic_create_frame _ _) as [[kk bytes]|] eqn:E; [|by eexists]. apply frame_some in E. apply IH; lia. }
    destruct (max <? n + flen f); [|apply Hput]. destruct (ngx_quic_split_frame o f (max - n)); [by eexists.. | apply Hput | apply Hput].
Qed.

Lemma output_total o max min x : exists r x', ngx_quic_output_packet o max min x = Some (r, x').
Proof.
  unfold ngx_quic_output_packet. destruct (frames x) as [|f t]; [by eexists _, _ |]. destruct (o_keys o); cbn [negb]; [|by eexists _, _]. cbv zeta.
  case_if; [by eexists _, _ |].
  destruct (fill_total (S (Z.to_nat (ngx_quic_payload_size (ngx_quic_init_packet o x) max))) o (next_pnum x)
    (ngx_quic_payload_size (ngx_quic_init_packet o x) max) 0 [] [] (f :: t)) as [[[[[ok n] d] p] todo] ->].
  { pose proof (payload_size_nonneg (ngx_quic_init_packet o x) max). lia. }
  { lia. }
  cbn [mbind option_bind]. destruct ok; cbn [negb]; [|by eexists _, _]. destruct (finish_packet _ _ _ _ _ _ _) as [r x']. by eexists _, _.
Qed.

Lemma output_length o max min x h p n x' : ngx_quic_output_packet o max min x = Some (OutPacket h p n, x') -> 0 < n.
Proof.
  unfold ngx_quic_output_packet. destruct (frames x) as [|f t]; [done |]. destruct (o_keys o); cbn [negb]; [|done]. cbv zeta.
  case_if; [done |]. destruct (fill_packet _ _ _ _ _ _ _ _) as [[[[[ok m] d] q] todo]|]; cbn [mbind option_bind]; [|done].
  destruct ok; cbn [negb]; [|done]. unfold finish_packet. case_if; [done |]. destruct (o_seals o); cbn [negb]; [|done]. cbv zeta.
  intros [= _ _ <- _]. unfold QuicPacket.len, NGX_QUIC_TAG_LEN. lia.
Qed.

Lemma generate_key a t cl d v x ok o x' : ngx_quic_generate_ack a t cl d v x = (ok, o, x') -> key x' = key x.
Proof.
  unfold ngx_quic_generate_ack, ngx_quic_send_ack. case_if; [by intros [= _ _ <-] |]. cbv zeta. case_if; [by intros [= _ _ <-] |].
  destruct (QuicAck.grant v); cbn; by intros [= _ _ <-].
Qed.

(** A space in a turn that began with the number [pn]. *)
Record turning (pn : Z) (x : send_ctx) : Prop := {
  tu_packets : packets (sent x ++ sending x);
  tu_sent : Forall (fun f => pnum f < pn) (sent x);
  tu_sending : Forall (fun f => pn <= pnum f < next_pnum x) (sending x);
  tu_next : pn <= next_pnum x;
  tu_rst : rst_pnum e <= pn }.

Lemma turning_key pn x y : key y = key x -> turning pn x -> turning pn y.
Proof. unfold key, rest_of. intros [= H1 H2 H3 H4] []. split; rewrite ?H1, ?H2, ?H3; done. Qed.

Lemma turning_start x : space_ok e x -> turning (next_pnum x) x.
Proof. intros []. split; rewrite ?so_sending0, ?app_nil_r; by try constructor. Qed.

Lemma packets_app a b : packets a -> packets b -> (forall f g, f ∈ a -> g ∈ b -> pnum f < pnum g) -> packets (a ++ b).
Proof.
  unfold packets. induction 1 as [|f a Ha IH Hf]; [done |]. intros Hb Hab. cbn. constructor.
  - apply IH; [done |]. intros g h Hg. apply Hab. by right.
  - apply Forall_app. split; [done |]. apply Forall_forall. intros g Hg. left. apply Hab; [by left | done].
Qed.

Lemma packet_alone pn f t : Forall (fun g => pnum g = pn) (f :: t) -> Forall (fun g => plen g = 0) t -> packets (f :: t).
Proof.
  intros Hn Hz. revert f Hn. induction t as [|g t IH]; intros f Hn; [by repeat constructor |].
  apply Forall_cons in Hn as [Hf Hn]. apply Forall_cons in Hz as [Hg Hz]. constructor; [by apply IH |].
  apply Forall_cons in Hn as [Hgn Hn]. constructor; [right; split; [congruence | done] |].
  rewrite Forall_forall in Hn, Hz |- *. intros h Hh. right. split; [by rewrite Hf, Hn | by apply Hz].
Qed.

(** A packet that is made joins those of the datagram. *)
Lemma output_turning o max min pn x r x' : ngx_quic_output_packet o max min x = Some (r, x') -> turning pn x ->
  turning pn x' /\ sent x' = sent x /\ match r with OutPacket _ _ _ => True | _ => sending x' = sending x end.
Proof.
  intros E [T1 T2 T3 T4 T5]. destruct (output_stamps _ _ _ _ _ _ E) as (S1 & _ & new & Sn & Hn & Hr).
  split; [|split; [done | destruct r as [| |]; [destruct Hr as [_ ->]; by rewrite Sn, app_nil_r.. | done]]].
  assert (Hp : packets new /\ next_pnum x <= next_pnum x' /\ (new <> [] -> next_pnum x < next_pnum x')).
  { destruct r; [destruct Hr as [-> ->]; split_and!; [constructor | lia | done].. |].
    destruct Hr as (-> & f & t & -> & Hz). split_and!; [by eapply packet_alone | lia | lia]. }
  destruct Hp as (Hp & Hle & Hlt). split.
  - rewrite S1, Sn, app_assoc. apply packets_app; [done | done |]. intros f g Hf Hg. rewrite Forall_forall in T2, T3, Hn. rewrite (Hn g Hg).
    apply elem_of_app in Hf as [Hf | Hf]; [specialize (T2 f Hf) | specialize (T3 f Hf)]; cbn in *; lia.
  - by rewrite S1.
  - rewrite Sn. apply Forall_app. split.
    + eapply Forall_impl; [exact T3 |]. intros f ?. cbn in *. lia.
    + rewrite Forall_forall in Hn |- *. intros f Hf. rewrite (Hn f Hf). assert (Hne : new <> []) by (by intros ->; apply elem_of_nil in Hf). specialize (Hlt Hne). cbn. lia.
  - lia.
  - done.
Qed.


(** A connection in a turn that began with the numbers [pns]. *)
Record mid (pns : list Z) (c : conn) : Prop := {
  mid_spaces : length (ctxs c) = NGX_QUIC_SEND_CTX_LAST;
  mid_ok : forall i, (i < NGX_QUIC_SEND_CTX_LAST)%nat -> turning (nth i pns 0) (space i c);
  mid_flight : in_flight (cg c) = u64 (flight e c) }.

Lemma flight_sent c c' : map sent (ctxs c') = map sent (ctxs c) -> flight e c' = flight e c.
Proof. intros H. unfold flight, waiting. by rewrite H. Qed.

Lemma set_space_sent i x c : sent x = sent (space i c) -> map sent (ctxs (set_space i x c)) = map sent (ctxs c).
Proof.
  intros H. unfold set_space. cbn. rewrite list_fmap_insert. destruct (decide (i < length (ctxs c))%nat) as [Hi | Hi].
  - apply list_insert_id. rewrite list_lookup_fmap, H. unfold space. rewrite nth_lookup.
    destruct (lookup_lt_is_Some_2 _ _ Hi) as [y Ey]. by rewrite Ey.
  - apply list_insert_ge. rewrite length_map. lia.
Qed.

Lemma mid_set pns i x c : (i < NGX_QUIC_SEND_CTX_LAST)%nat -> mid pns c -> turning (nth i pns 0) x -> sent x = sent (space i c) ->
  mid pns (set_space i x c).
Proof.
  intros Hi [M1 M2 M3] Hx Hs. split.
  - unfold set_space. cbn. by rewrite length_insert.
  - intros j Hj. destruct (decide (i = j)) as [<- | Hne]; [rewrite space_same by (by rewrite M1); done | rewrite space_other by done; by apply M2].
  - change (in_flight (cg c) = u64 (flight e (set_space i x c))). rewrite M3. f_equal. symmetry. by apply flight_sent, set_space_sent.
Qed.

Lemma mid_notify pns x c : mid pns c -> mid pns (notify x c).
Proof. intros []. by split. Qed.

Lemma books_mid c : books e c -> mid (map next_pnum (ctxs c)) c.
Proof.
  intros [B1 B2 B3]. split; [done | | done]. intros i Hi.
  assert (Hn : nth i (map next_pnum (ctxs c)) 0 = next_pnum (space i c)) by (change 0 with (next_pnum ctx_init); by rewrite map_nth).
  rewrite Hn. by apply turning_start, B2.
Qed.

(** What a space adds to a datagram. *)
Lemma output_space_spec pns u pad i p n c : (i < NGX_QUIC_SEND_CTX_LAST)%nat -> mid pns c ->
  exists r p' n' c', output_space e u pad i p n c = Some (r, p', n', c') /\ mid pns c' /\ p <= p' /\
    (p' = p -> forall j, sending (space j c') = sending (space j c)).
Proof.
  intros Hi Hm. unfold output_space. destruct (ngx_quic_generate_ack _ _ _ _ _ _) as [[ok timer] x] eqn:Eg.
  apply generate_key in Eg. assert (Hx : turning (nth i pns 0) x) by (eapply turning_key; [exact Eg | by apply Hm]).
  assert (Hxs : sent x = sent (space i c) /\ sending x = sending (space i c)) by (unfold key, rest_of in Eg; by injection Eg).
  destruct Hxs as [Hxs Hxd]. pose proof (mid_set _ _ _ _ Hi Hm Hx Hxs) as Hm1.
  assert (Hlen : (i < length (ctxs c))%nat) by (by rewrite (mid_spaces _ _ Hm)).
  set (c1 := match timer with Some t => _ | None => _ end).
  assert (H1 : mid pns c1 /\ forall j, space j c1 = space j (set_space i x c)) by (unfold c1; destruct timer; [by split; [apply mid_notify |] | done]).
  clearbody c1. destruct H1 as [Hm2 Hsp].
  assert (Hsd : forall j, sending (space j c1) = sending (space j c)).
  { intros j. rewrite Hsp. destruct (decide (i = j)) as [<- | Hne]; [by rewrite space_same | by rewrite space_other]. }
  destruct ok; cbn [negb]; [|by exists TurnError, p, n, c1]. cbv zeta. set (m := if _ && _ then _ else _).
  destruct (n <? m); [by exists TurnStop, p, n, c1 |].
  destruct (output_total (t_out u i) n m (space i c1)) as (r & x2 & Eo). rewrite Eo. cbn [mbind option_bind].
  destruct (output_turning _ _ _ (nth i pns 0) _ _ _ Eo) as (T & S & D); [by apply Hm2 |].
  pose proof (mid_set _ _ _ _ Hi Hm2 T S) as Hm3.
  assert (Hlen1 : (i < length (ctxs c1))%nat) by (by rewrite (mid_spaces _ _ Hm2)).
  destruct r as [| |h pl k]; eexists _, _, _, _; (split; [reflexivity |]); (split; [done |]).
  3:{ apply output_length in Eo. split; [lia |]. intros. lia. }
  all: split; [lia |]; intros _ j; destruct (decide (i = j)) as [<- | Hne];
    [rewrite space_same by done; by rewrite D, Hsd | rewrite space_other by done; apply Hsd].
Qed.

Lemma output_spaces_spec pns u pad ids : forall p n c, Forall (fun i => (i < NGX_QUIC_SEND_CTX_LAST)%nat) ids -> mid pns c ->
  exists r p' c', output_spaces e u pad ids p n c = Some (r, p', c') /\ mid pns c' /\ p <= p' /\
    (p' = p -> forall j, sending (space j c') = sending (space j c)).
Proof.
  induction ids as [|i ids IH]; intros p n c Hids Hm; cbn [output_spaces]; [by exists TurnGo, p, c |].
  apply Forall_cons in Hids as [Hi Hids]. destruct (output_space_spec pns u pad i p n c Hi Hm) as (r & p1 & n1 & c1 & -> & Hm1 & Hp1 & Hs1).
  cbn [mbind option_bind]. destruct r; [by exists TurnError, p1, c1 | by exists TurnStop, p1, c1 |].
  destruct (IH p1 n1 c1 Hids Hm1) as (r & p2 & c2 & -> & Hm2 & Hp2 & Hs2). exists r, p2, c2. split_and!; [done | done | lia |].
  intros E j. rewrite Hs2, Hs1 by lia. done.
Qed.

Lemma revert_space pn x : turning pn x -> space_ok e (ngx_quic_revert_send pn x) /\ sent (ngx_quic_revert_send pn x) = sent x.
Proof.
  intros [T1 T2 T3 T4 T5]. unfold ngx_quic_revert_send. assert (Hp : packets (sent x)) by (eapply packets_sublist; [|exact T1]; by apply sublist_inserts_r).
  destruct (sending x) as [|f t] eqn:E; (split; [|done]); split; cbn; try done; try lia.
  eapply Forall_impl; [exact T2 |]. intros g ?. cbn in *. lia.
Qed.

Lemma revert_books pns c : length pns = NGX_QUIC_SEND_CTX_LAST -> mid pns c -> books e (revert_all e pns c).
Proof.
  intros Hl [M1 M2 M3]. unfold revert_all.
  set (c1 := set_ctxs _ c). assert (H1 : books e c1).
  { assert (Hsp : forall i, (i < NGX_QUIC_SEND_CTX_LAST)%nat -> space i c1 = ngx_quic_revert_send (nth i pns 0) (space i c)).
    { intros i Hi. unfold space, c1. cbn. rewrite !nth_lookup, lookup_zip_with.
      destruct (lookup_lt_is_Some_2 pns i) as [pn ->]; [by rewrite Hl |]. destruct (lookup_lt_is_Some_2 (ctxs c) i) as [x ->]; [by rewrite M1 | done]. }
    split.
    - unfold c1. cbn. rewrite length_zip_with, Hl, M1. done.
    - intros i Hi. rewrite Hsp by done. by apply revert_space, M2.
    - change (in_flight (cg c) = u64 (flight e c1)). rewrite M3. f_equal. symmetry. apply flight_sent. unfold c1. cbn.
      apply list_eq. intros i. rewrite !list_lookup_fmap, lookup_zip_with.
      destruct (decide (i < NGX_QUIC_SEND_CTX_LAST)%nat) as [Hi | Hi].
      + destruct (lookup_lt_is_Some_2 pns i) as [pn Ep]; [by rewrite Hl |]. destruct (lookup_lt_is_Some_2 (ctxs c) i) as [x Ex]; [by rewrite M1 |].
        rewrite Ep, Ex. cbn. f_equal. specialize (M2 i Hi). unfold space in M2. rewrite !nth_lookup, Ep, Ex in M2. by apply (revert_space pn x).
      + rewrite (lookup_ge_None_2 (ctxs c)) by (rewrite M1; lia). by destruct (pns !! i). }
  apply (books_same e c1); [done | | done]. cbn. unfold ngx_quic_congestion_idle. by destruct (_ <=? _).
Qed.


(** The frames of a packet that wants an acknowledgement weigh what is added. *)
Lemma kept_weight pn l : Forall (fun f => rst_pnum e <= pnum f) l -> foldr (fun f n => plen f + n) pn l = weights e l + pn.
Proof.
  induction 1 as [|f l Hf Hl IH]; [done |]. cbn [foldr]. rewrite IH. change (plen f + (weights e l + pn) = weight e f + weights e l + pn).
  unfold weight, counts. destruct (Z.eqb_spec (plen f) 0) as [-> | Hz]; cbn [negb andb]; [lia |].
  rewrite (proj2 (Z.leb_le _ _) Hf). lia.
Qed.

(** The spaces below [k] are at rest, the others in a turn. *)
Record committed (pns : list Z) (k : nat) (c : conn) : Prop := {
  cm_spaces : length (ctxs c) = NGX_QUIC_SEND_CTX_LAST;
  cm_ok : forall i, (i < NGX_QUIC_SEND_CTX_LAST)%nat -> if (i <? k)%nat then space_ok e (space i c) else turning (nth i pns 0) (space i c);
  cm_flight : in_flight (cg c) = u64 (flight e c) }.

Lemma commit_space_spec pns k c : (k < NGX_QUIC_SEND_CTX_LAST)%nat -> committed pns k c -> committed pns (S k) (ngx_quic_commit_space e k c).
Proof.
  intros Hk [C1 C2 C3]. unfold ngx_quic_commit_space. set (kept := if closing e then [] else _). cbv zeta.
  pose proof (C2 k Hk) as T. rewrite Nat.ltb_irrefl in T. destruct T as [T1 T2 T3 T4 T5].
  assert (Hsub : sublist kept (sending (space k c))) by (unfold kept; destruct (closing e); [apply sublist_nil_l | apply sublist_filter]).
  assert (Hkn : Forall (fun f => nth k pns 0 <= pnum f < next_pnum (space k c)) kept).
  { apply sublist_submseteq, submseteq_Permutation in Hsub as (r & Hr). rewrite Hr in T3. by apply Forall_app in T3 as [? _]. }
  set (c1 := set_cg _ c). set (x := set_sent _ _).
  assert (Hlen : (k < length (ctxs c1))%nat) by (cbn; by rewrite C1). split.
  - unfold set_space. cbn. by rewrite length_insert.
  - intros i Hi. destruct (decide (k = i)) as [<- | Hne].
    + rewrite space_same by done. rewrite (proj2 (Nat.ltb_lt k (S k))) by lia. split; [done | | | cbn; lia].
      * cbn. eapply packets_sublist; [|exact T1]. by apply sublist_app.
      * cbn. apply Forall_app. split.
        -- eapply Forall_impl; [exact T2 |]. intros f ?. cbn in *. lia.
        -- eapply Forall_impl; [exact Hkn |]. intros f ?. cbn in *. lia.
    + rewrite space_other by done. assert (Hb : (i <? S k)%nat = (i <? k)%nat) by (apply Bool.eq_iff_eq_true; rewrite !Nat.ltb_lt; lia).
      rewrite Hb. by apply C2.
  - change (u64 (in_flight (cg c) + foldr (fun f n => plen f + n) 0 kept) = u64 (flight e (set_space k x c1))).
    rewrite kept_weight by (eapply Forall_impl; [exact Hkn |]; intros f ?; cbn in *; lia). rewrite C3, Z.add_0_r.
    unfold flight. rewrite !waiting_keys, keys_set. change (key x) with (sent (space k c) ++ kept, rest_of x).
    rewrite (weights_insert e (keys c1) k (sent (space k c)) (rest_of (space k c))) by (apply (keys_lookup k c1); done).
    rewrite weights_app. change (keys c1) with (keys c). unfold u64. rewrite Zplus_mod_idemp_l. f_equal. lia.
Qed.

Lemma commit_books pns c : mid pns c -> books e (ngx_quic_commit_send e c).
Proof.
  intros [M1 M2 M3]. unfold ngx_quic_commit_send. cbv zeta. set (idle := forallb _ _).
  set (c3 := fold_left _ _ c). assert (H3 : committed pns 3 c3).
  { unfold c3. cbn [seq fold_left NGX_QUIC_SEND_CTX_LAST]. do 3 (apply commit_space_spec; [unfold NGX_QUIC_SEND_CTX_LAST; lia |]).
    split; [done | | done]. intros i Hi. cbn. by apply M2. }
  clearbody c3. destruct H3 as [H1 H2 H3]. apply (books_same e c3); [done | cbn; unfold ngx_quic_congestion_idle; by destruct (_ <=? _) |].
  split; [done | | done]. intros i Hi. specialize (H2 i Hi). by rewrite (proj2 (Nat.ltb_lt i 3)) in H2 by (unfold NGX_QUIC_SEND_CTX_LAST in Hi; lia).
Qed.

(** A datagram is made, sent or taken back; only an error leaves it unfinished. *)
Lemma datagram_books u n s c : books e c -> exists r c', create_datagram e u n s c = Some (r, c') /\ (r <> TurnError -> books e c').
Proof.
  intros Hb. unfold create_datagram. case_if; [by exists TurnStop, c |]. cbv zeta. set (pns := map next_pnum (ctxs c)).
  assert (Hpl : length pns = NGX_QUIC_SEND_CTX_LAST) by (unfold pns; rewrite length_map; apply Hb).
  pose proof (books_mid _ Hb) as Hm. fold pns in Hm.
  destruct (output_spaces_spec pns u (ngx_quic_get_padding_level c) (seq 0 NGX_QUIC_SEND_CTX_LAST) 0 n c) as (r & p & c1 & -> & Hm1 & Hp & Hs); [|done |].
  { apply Forall_forall. intros i Hi. apply elem_of_seq in Hi. lia. }
  cbn [mbind option_bind]. destruct r.
  - by exists TurnError, c1.
  - exists TurnStop, (revert_all e pns c1). split; [done |]. intros _. by apply revert_books.
  - destruct (Z.eqb_spec p 0) as [Hz | Hz].
    + exists TurnStop, c1. split; [done |]. intros _. specialize (Hs Hz). destruct Hm1 as [M1 M2 M3]. split; [done | | done].
      intros i Hi. destruct (M2 i Hi) as [T1 T2 T3 T4 T5]. rewrite Hs in T1. destruct (bk_ok _ _ Hb i Hi) as [B1 _ _ _].
      rewrite B1, app_nil_r in T1. split; [by rewrite Hs | done | | lia]. eapply Forall_impl; [exact T2 |]. intros f ?. cbn in *. lia.
    + destruct s; [by exists TurnError, c1 | |].
      * eexists _, _. split; [reflexivity |]. intros _. apply (books_paid e (revert_all e pns c1)); [by apply notify_paid, paid_refl | by apply revert_books].
      * eexists _, _. split; [reflexivity |]. intros _. by eapply commit_books.
Qed.

(** The frames of a space are given up. *)
Lemma abandon_took i l : forall c, (i < length (ctxs c))%nat -> sent (space i c) = l -> took e i l [] c (abandon e i l c).
Proof.
  induction l as [|f l IH]; intros c Hi Hs; cbn [abandon]; [by apply took_stay |].
  set (c1 := ngx_quic_congestion_ack e f _).
  assert (H1 : took e i [f] l c c1).
  { destruct (congestion_ack_paid e f (set_space i (set_sent l (space i c)) c)) as (K & E & R & F). fold c1 in K, E, R, F.
    split_and!; [rewrite K, keys_set; done | done | done |]. intros H. rewrite (F H). cbn. by rewrite Z.add_0_r. }
  destruct (took_space _ _ _ _ _ _ H1 Hi) as (S1 & _ & L1). eapply (took_trans e i [f] l l []); [done | exact H1 |]. apply IH; [by rewrite L1 | done].
Qed.

Lemma discard_books i c : (i < NGX_QUIC_SEND_CTX_LAST)%nat -> books e c ->
  books e (ngx_quic_discard_ctx e i c) /\ sent (space i (ngx_quic_discard_ctx e i c)) = [] /\ frames (space i (ngx_quic_discard_ctx e i c)) = [].
Proof.
  intros Hi Hb. unfold ngx_quic_discard_ctx. cbv zeta. set (c0 := set_pto_count 0 c).
  assert (Hb0 : books e c0) by (by apply (books_same e c)).
  assert (Hl : (i < length (ctxs c0))%nat) by (by rewrite (bk_spaces _ _ Hb0)).
  pose proof (abandon_took i _ c0 Hl eq_refl) as Ht. set (c1 := abandon _ _ _ _) in *.
  destruct (took_space _ _ _ _ _ _ Ht Hl) as (S1 & _ & L1).
  assert (Hb1 : books e c1) by (eapply books_took; [done | exact Ht | by rewrite app_nil_r | apply sublist_nil_l | done]).
  set (c2 := set_space i _ c1). assert (Hb2 : books e c2) by (apply (books_paid e c1); [by apply paid_space | done]).
  assert (Hc3 : ctxs (ngx_quic_set_lost_timer e c2) = ctxs c2 /\ cg (ngx_quic_set_lost_timer e c2) = cg c2).
  { unfold ngx_quic_set_lost_timer. by destruct (fold_left _ _ _). }
  destruct Hc3 as [E1 E2]. split; [by apply (books_same e c2); rewrite ?E1, ?E2|].
  unfold space. rewrite E1. fold (space i c2). unfold c2. rewrite space_same by (by rewrite L1). done.
Qed.

End sending.

(** ** Specification: a history *)

(** What happens to a connection, each time in its own setting: a frame waits to be
    sent, a packet was received, a turn is taken to send a datagram, an ACK frame is
    handled, the timer fires, a space is given up. *)
Inductive op : Type :=
  | Queue (e : setting) (i : nat) (f : qframe)
  | Received (e : QuicAck.env) (i : nat) (keys : bool) (pn received : Z) (need_ack : bool)
  | Datagram (e : setting) (u : turn) (n : Z) (s : send_result)
  | Acked (e : setting) (i : nat) (largest delay range_count first_range : Z) (data : list Z)
  | Lost (e : setting)
  | Discard (e : setting) (i : nat).

(** [None] would be a loop that does not end; the connection is closed after an error. *)
Definition happen (o : op) (c : conn) : option (bool * conn) :=
  match o with
  | Queue e i f => Some (true, ngx_quic_queue_frame e i f c)
  | Received v i keys pn received need =>
      let '(ok, x) := ngx_quic_ack_packet v keys pn received need (space i c) in Some (ok, set_space i x c)
  | Datagram e u n s =>
      '(r, c) ← create_datagram e u n s c; Some (match r with TurnError => false | _ => true end, c)
  | Acked e i largest delay count first data => ngx_quic_handle_ack_frame e i largest delay count first data c
  | Lost e => c ← ngx_quic_lost e c; Some (true, c)
  | Discard e i => Some (true, ngx_quic_discard_ctx e i c)
  end.

Fixpoint history (ops : list op) (c : conn) : option (bool * conn) :=
  match ops with
  | [] => Some (true, c)
  | o :: ops => '(ok, c) ← happen o c; if (ok : bool) then history ops c else Some (false, c)
  end.

(** The connection stays on one path; what is read is bytes. *)
Definition op_ok (rst : Z) (o : op) : Prop :=
  match o with
  | Queue e i _ | Discard e i => rst_pnum e = rst /\ (i < NGX_QUIC_SEND_CTX_LAST)%nat
  | Received _ i _ _ _ _ => (i < NGX_QUIC_SEND_CTX_LAST)%nat
  | Datagram e _ _ _ | Lost e => rst_pnum e = rst
  | Acked e i _ _ _ first data => rst_pnum e = rst /\ (i < NGX_QUIC_SEND_CTX_LAST)%nat /\ 0 <= first /\ wf_bytes data
  end.

(** ** Lemmas: histories *)

Lemma ack_packet_key v keys pn t need x ok x' : ngx_quic_ack_packet v keys pn t need x = (ok, x') -> key x' = key x.
Proof.
  assert (Hs : forall ok y y', ngx_quic_send_ack v y = (ok, y') -> key y' = key y).
  { intros b y y'. unfold ngx_quic_send_ack. by destruct (QuicAck.grant v); intros [= _ <-]. }
  assert (Hm : forall prev na ok y y', make_room v prev na y = (ok, y') -> key y' = key y).
  { intros prev na b y y'. unfold make_room. case_if; [|by intros [= _ <-]].
    destruct (match prev with Some _ => _ | None => _ end) as [b1 y1] eqn:E1.
    assert (H1 : key y1 = key y) by (destruct prev; [by eapply Hs | by injection E1 as _ <-]).
    destruct b1; cbn [negb]; [|by intros [= _ <-]]. case_if; by intros [= _ <-]. }
  assert (Hc : forall f y, key (change_ranges f y) = key y) by (intros f y; unfold change_ranges; by destruct (f _ _)).
  unfold ngx_quic_ack_packet. destruct keys; cbn [negb]; [|by intros [= _ <-]]. cbv zeta.
  set (y := if need then _ else x). assert (Hy : key y = key x).
  { unfold y, note_pending. destruct need; [|done]. cbv zeta. destruct (send_ack x =? 0); cbn; (destruct (pending_ack x); [case_if|]); done. }
  clearbody y. destruct (largest_range y) as [base|]; [|by intros [= _ <-]]. case_if; [by intros [= _ <-] |]. case_if.
  - case_if; [by intros [= _ <-] |]. destruct (make_room v _ need y) as [b y1] eqn:E1. apply Hm in E1.
    destruct b; cbn [negb]; [|intros [= _ <-]; congruence]. destruct need; intros [= _ <-]; (transitivity (key y1); [done | congruence]).
  - set (z := if need then set_send_ack _ y else y). assert (Hz : key z = key x) by (unfold z; by destruct need).
    clearbody z. case_if; [by intros [= _ <-] |]. unfold ack_lower. destruct (find_place _ _ _ _); try (intros [= _ <-]; by rewrite ?Hc).
    + destruct (make_room v _ need z) as [b y1] eqn:E1. apply Hm in E1. destruct b; cbn [negb]; intros [= _ <-]; rewrite ?Hc; congruence.
    + case_if; [destruct need; [unfold ngx_quic_send_ack_range; case_if|]; by intros [= _ <-] | intros [= _ <-]; by rewrite Hc].
Qed.

Lemma books_setting e e' c : rst_pnum e' = rst_pnum e -> books e c -> books e' c.
Proof.
  intros He [B1 B2 B3]. split; [done | |].
  - intros i Hi. destruct (B2 i Hi) as [S1 S2 S3 S4]. split; [done | done | done | by rewrite He].
  - rewrite B3. f_equal. unfold flight, weights. f_equal. unfold weight, counts. by rewrite He.
Qed.

(** Every step keeps the books and ends; an error ends the history. *)
Lemma happen_books e o c : op_ok (rst_pnum e) o -> books e c ->
  exists ok c', happen o c = Some (ok, c') /\ (ok = true -> books e c').
Proof.
  intros Ho Hb. destruct o as [d i f | v i keys pn t need | d u n s | d i largest delay n first data | d | d i]; cbn [op_ok happen] in *.
  - destruct Ho as [Hr Hi]. eexists _, _. split; [reflexivity |]. intros _. eapply books_paid; [apply queue_frame_paid | done].
  - destruct (ngx_quic_ack_packet v keys pn t need (space i c)) as [ok x] eqn:E. exists ok. eexists. split; [reflexivity |]. intros _.
    apply (books_paid e c); [|done]. by apply paid_space, (ack_packet_key _ _ _ _ _ _ _ _ E).
  - destruct (datagram_books d u n s c) as (r & c' & -> & H); [by apply (books_setting e) |]. cbn [mbind option_bind].
    exists (match r with TurnError => false | _ => true end), c'. split; [done |]. intros Hr. apply (books_setting d); [done |]. apply H. by destruct r.
  - destruct Ho as (Hr & Hi & Hf & Hw).
    assert (Hbd : books d c) by (by apply (books_setting e)).
    pose proof (ack_frame_spec d i largest delay n first data c Hbd Hi Hf Hw) as H. destruct (frame_ranges _ _ _ _) as [ivs r]. cbv zeta in H.
    destruct H as (c' & -> & Hb' & _). eexists _, c'. split; [reflexivity |]. intros _. by apply (books_setting d).
  - unfold ngx_quic_lost. destruct (detect_lost_spec d None c) as (c' & -> & Hb' & _); [by apply (books_setting e) |].
    cbn [mbind option_bind]. exists true, c'. split; [done |]. intros _. by apply (books_setting d).
  - destruct Ho as [Hr Hi]. eexists _, _. split; [reflexivity |]. intros _. apply (books_setting d); [done |].
    apply discard_books; [done |]. by apply (books_setting e).
Qed.

Lemma history_books e ops : forall c, Forall (op_ok (rst_pnum e)) ops -> books e c ->
  exists ok c', history ops c = Some (ok, c') /\ (ok = true -> books e c').
Proof.
  induction ops as [|o ops IH]; intros c Hops Hb; cbn [history]; [by exists true, c |]. apply Forall_cons in Hops as [Ho Hops].
  destruct (happen_books e o c Ho Hb) as (ok & c1 & -> & Hb1). cbn [mbind option_bind].
  destruct ok; [by apply IH, Hb1 | by exists false, c1].
Qed.

(** A connection that has sent nothing. *)
Definition fresh (c : conn) : Prop := ctxs c = [ctx_init; ctx_init; ctx_init] /\ in_flight (cg c) = 0.

Lemma fresh_books e c : rst_pnum e <= 0 -> fresh c -> books e c.
Proof.
  intros Hr [Hc Hf]. split; [by rewrite Hc | | by rewrite Hf; unfold flight, waiting; rewrite Hc].
  intros i Hi. assert (Hs : space i c = ctx_init).
  { unfold space. rewrite Hc. unfold NGX_QUIC_SEND_CTX_LAST in Hi. destruct i as [|[|[|i]]]; done || lia. }
  rewrite Hs. split; [done | constructor | constructor | done].
Qed.

(** ** Lemmas: what the peer wrote *)

Lemma covered_in ivs f : covered ivs f = true <-> in_ivs ivs (pnum f).
Proof.
  induction ivs as [|iv ivs IH]; [done |]. cbn. rewrite orb_true_iff, IH. unfold within.
  rewrite andb_true_iff, !Z.leb_le. done.
Qed.

Lemma ack_range_read gap range rest : 0 <= gap < 2 ^ 62 -> 0 <= range < 2 ^ 62 -> wf_bytes rest ->
  ngx_quic_parse_ack_range ((ngx_quic_create_ack_range true gap range).2 ++ rest) = Some (gap, range, rest).
Proof.
  intros Hg Hr Hw. unfold ngx_quic_parse_ack_range, ngx_quic_create_ack_range, halves, vint. cbn [snd]. rewrite <- app_assoc.
  assert (Hb : wf_bytes (ngx_quic_build_int range ++ rest)).
  { apply wf_bytes_app. split; [|done]. by eapply varint_bytes, build_int_varint. }
  rewrite int_read by done. cbn [mbind option_bind]. rewrite int_read by done. done.
Qed.

(** The bytes of the ranges are read as the intervals they came from. *)
Lemma range_bytes_read rs : forall lo, lo < 2 ^ 62 -> ok_below lo (ivs_of lo rs) ->
  wf_bytes (range_bytes rs) /\ ranges_of (length rs) lo (range_bytes rs) = (ivs_of lo rs, None).
Proof.
  induction rs as [|[gap range] rs IH]; intros lo Hlo Hok; [split; [constructor | done] |].
  cbn [ivs_of ok_below] in Hok. destruct Hok as (H1 & H2 & Hok).
  destruct (IH (lo - gap - 2 - range)) as [Hw Hr]; [lia | done |].
  assert (Hb : range_bytes ((gap, range) :: rs) = (ngx_quic_create_ack_range true gap range).2 ++ range_bytes rs) by done.
  split.
  - rewrite Hb. apply wf_bytes_app. split; [|done]. unfold ngx_quic_create_ack_range, halves, vint. cbn [snd].
    apply wf_bytes_app. split; eapply varint_bytes, build_int_varint; lia.
  - cbn [length ranges_of ivs_of]. rewrite Hb, ack_range_read by (lia || done). cbv zeta.
    destruct (Z.ltb_spec (lo - gap - 2) 0); [lia |]. destruct (Z.ltb_spec (lo - gap - 2) range); [lia |]. cbn [orb]. by rewrite Hr.
Qed.

Lemma sent_ack_read p l : ctx_ok p -> largest_range p = Some l -> wf_bytes (range_bytes (ranges p)) /\ 0 <= first_range p /\
  frame_ranges l (first_range p) (Z.to_nat (Z.of_nat (length (ranges p)))) (range_bytes (ranges p)) = (intervals p, None).
Proof.
  intros Hok El. unfold ctx_ok in Hok. rewrite El in Hok. destruct Hok as (Hl & Hb & _). unfold intervals in *. rewrite El in *.
  cbn [ok_below] in Hb. destruct Hb as (H1 & _ & Hb). destruct (range_bytes_read (ranges p) (l - first_range p)) as [Hw Hr]; [lia | done |].
  split_and!; [done | lia |]. unfold frame_ranges. destruct (Z.ltb_spec l (first_range p)); [lia |]. by rewrite Nat2Z.id, Hr.
Qed.

(** ** Properties *)

(** C27. The bytes in flight are counted exactly, whatever happens: after any history of
    frames queued, packets received, datagrams sent or taken back, ACK frames good or
    bad, losses and spaces given up, [in_flight] is the sum of the lengths of the
    packets that wait, each of them once; those of a space are in order, below the next
    number, and nothing is left between the queues.  No loop runs on. *)
Theorem in_flight_counts e ops c :
  books e c -> Forall (op_ok (rst_pnum e)) ops ->
  exists ok c', history ops c = Some (ok, c') /\ (ok = true -> books e c').
Proof. intros Hb Ho. by apply history_books. Qed.

(** C28. What an ACK frame does.  It is refused for a range below zero or for one of
    packets none of which waits and not all of which were sent, with the error that
    says so, and then the ranges before it were heard.  Otherwise exactly the packets of
    its ranges have left their space, the largest number is noted, and the first packets
    of every space are lost that are late by the thresholds of time or number, up to one
    that is not; their data waits to be sent again; the timer is set if packets wait. *)
Theorem ack_frame_handled e i largest delay n first data c :
  books e c -> (i < NGX_QUIC_SEND_CTX_LAST)%nat -> 0 <= first -> wf_bytes data ->
  let '(ivs, r) := frame_ranges largest first (Z.to_nat n) data in let v := verdict (space i c) ivs r in
  exists c', ngx_quic_handle_ack_frame e i largest delay n first data c = Some (bool_decide (v = None), c') /\
    (v = None -> ack_handled e i ivs largest c c') /\ (v <> None -> ack_refused i ivs (mjoin v) c c').
Proof.
  intros Hb Hi Hf Hw. pose proof (ack_frame_spec e i largest delay n first data c Hb Hi Hf Hw) as H.
  destruct (frame_ranges _ _ _ _) as [ivs r]. cbv zeta in *. destruct H as (c' & E & _ & H). by exists c'.
Qed.

(** C29. An acknowledgement means to the sender what it meant to its peer: the frame that
    [ngx_quic_send_ack] makes of the ranges of [p], handled at the other end, takes
    exactly the packets that [p] holds, and never fails for packets that were sent. *)
Theorem ack_reaches_sender e v i c p p' :
  books e c -> (i < NGX_QUIC_SEND_CTX_LAST)%nat -> ctx_ok p -> ngx_quic_send_ack v p = (true, p') -> largest_range p <> None ->
  Forall (fun iv => iv.2 < next_pnum (space i c)) (intervals p) ->
  exists largest delay n first len data c', content <$> frames p' !! 0%nat = Some (ACK largest delay n first len data None) /\
    ngx_quic_handle_ack_frame e i largest delay n first data c = Some (true, c') /\ ack_handled e i (intervals p) largest c c' /\
    Forall (fun f => ~ in_ivs (intervals p) (pnum f)) (sent (space i c')).
Proof.
  intros Hb Hi Hp Hs Hl Hn. destruct (largest_range p) as [l|] eqn:El; [|done]. destruct (sent_ack_read p l Hp El) as (Hw & Hf & Hr).
  unfold ngx_quic_send_ack in Hs. destruct (QuicAck.grant v); [|done]. injection Hs as <-. rewrite El.
  pose proof (ack_frame_spec e i l (ack_delay v p) (Z.of_nat (length (ranges p))) (first_range p) (range_bytes (ranges p)) c Hb Hi Hf Hw) as H.
  rewrite Hr in H. cbv zeta in H. assert (Hv : verdict (space i c) (intervals p) None = None).
  { unfold verdict. assert (forallb (known (space i c)) (intervals p) = true) as ->; [|done]. apply forallb_forall. intros iv Hiv.
    rewrite Forall_forall in Hn. specialize (Hn iv ltac:(by apply list_elem_of_In)). unfold known. cbn in Hn.
    by rewrite (proj2 (Z.ltb_lt _ _) Hn), orb_true_r. }
  rewrite Hv in H. destruct H as (c' & E & _ & H & _). specialize (H eq_refl). eexists _, _, _, _, _, _, c'. split_and!; [reflexivity | exact E | done |].
  destruct H as (_ & _ & c1 & (S1 & _) & L). destruct (L i Hi) as (lost & S2 & _). rewrite S1 in S2.
  assert (Hall : Forall (fun f => ~ in_ivs (intervals p) (pnum f)) (uncovered (intervals p) (sent (space i c)))).
  { apply Forall_forall. intros f Hin. apply list_elem_of_filter in Hin as [Hc _]. rewrite <- covered_in. intros Hc2. by rewrite Hc2 in Hc. }
  rewrite S2 in Hall. by apply Forall_app in Hall as [_ ?].
Qed.

(** ** Witnesses *)

(** Nothing was sent yet; there is room for ten packets of 1200 bytes. *)
Definition sample_setting : setting := Setting 1000 true 0 1200 false false true false 3 25 65536.

Definition sample_conn : conn :=
  Conn [ctx_init; ctx_init; ctx_init] (Cg 0 12000 (2 ^ 64 - 1) 0 0 0 1200 (2 ^ 64 - 1) 0 0 false)
    (Rtt 0 0 333 NGX_TIMER_INFINITE 166) 0 None
    {[ 0 := SStream NGX_QUIC_STREAM_SEND_SEND 30 0 false 4096 true true ]} 65536 128 3 [] None.

Definition sample_turn : turn :=
  Turn (fun i => Out (match i with O => initial | S O => handshake | _ => application_data end) false
      (repeat 7 20) (repeat 9 20) 1 true true true 1000) (QuicAck.Env true 1000 3) 25.

(** Ten bytes of the stream in each of five packets. *)
Definition sample_sends : list op :=
  concat (map (fun n => [Queue sample_setting 2 (new_frame (STREAM n 10 0 true true false (repeat 65 10)));
    Datagram sample_setting sample_turn 1200 SendDone]) [0; 10; 20; 30; 40]).

Definition sample_sent : conn := match history sample_sends sample_conn with Some (_, c) => c | None => sample_conn end.

Lemma sample_sends_ok : Forall (op_ok (rst_pnum sample_setting)) sample_sends.
Proof. repeat (constructor; [cbn; unfold NGX_QUIC_SEND_CTX_LAST; done || (split; [done | lia]) |]). constructor. Qed.

Lemma sample_run : history sample_sends sample_conn = Some (true, sample_sent).
Proof. vm_compute. reflexivity. Qed.

Lemma sample_books : books sample_setting sample_sent.
Proof.
  destruct (history_books sample_setting sample_sends sample_conn sample_sends_ok) as (ok & c & E & H); [by apply fresh_books |].
  rewrite sample_run in E. revert E. generalize sample_sent. intros x [= <- <-]. by apply H.
Qed.

Lemma in_flight_counts_witness :
  map pnum (sent (space 2 sample_sent)) = [0; 1; 2; 3; 4] /\ in_flight (cg sample_sent) = 260 /\
  exists ok c', history [Acked sample_setting 2 4 0 0 0 []; Lost sample_setting] sample_sent = Some (ok, c') /\
    (ok = true -> books sample_setting c').
Proof.
  split; [vm_compute; reflexivity |]. split; [vm_compute; reflexivity |].
  pose proof sample_books as Hb. revert Hb. generalize sample_sent. intros s Hb. apply in_flight_counts; [exact Hb |]. repeat constructor; lia.
Defined.

(** The last packet was received: the first two are lost, two still wait. *)
Lemma ack_frame_handled_witness :
  exists c', ngx_quic_handle_ack_frame sample_setting 2 4 0 0 0 [] sample_sent = Some (true, c') /\
    ack_handled sample_setting 2 [(4, 4)] 4 sample_sent c' /\ map pnum (sent (space 2 c')) = [2; 3] /\ in_flight (cg c') = 104 /\
    map content (frames (space 2 c')) = [STREAM 0 10 0 true true false (repeat 65 10); STREAM 10 10 0 true true false (repeat 65 10)].
Proof.
  assert (Hv : verdict (space 2 sample_sent) [(4, 4)] None = None) by (vm_compute; reflexivity).
  assert (Hc : (c ← ngx_quic_handle_ack_frame sample_setting 2 4 0 0 0 [] sample_sent; Some (map pnum (sent (space 2 c.2)), in_flight (cg c.2), map content (frames (space 2 c.2)))) =
    Some ([2; 3], 104, [STREAM 0 10 0 true true false (repeat 65 10); STREAM 10 10 0 true true false (repeat 65 10)])) by (vm_compute; reflexivity).
  pose proof sample_books as Hb. revert Hb Hv Hc. generalize sample_sent. intros s Hb Hv Hc.
  pose proof (ack_frame_handled sample_setting 2 4 0 0 0 [] s Hb) as H.
  change (frame_ranges 4 0 (Z.to_nat 0) []) with ([(4, 4)] : list (Z * Z), None : option (option Z)) in H. cbv zeta beta iota in H.
  rewrite Hv in H. destruct H as (c' & E & H & _); [unfold NGX_QUIC_SEND_CTX_LAST; lia | lia | constructor |].
  exists c'. split; [exact E |]. split; [by apply H |]. rewrite E in Hc. cbn [mbind option_bind snd] in Hc. injection Hc as -> -> ->. done.
Defined.

(** The ranges of a peer that has the packets 0, 1 and 3. *)
Definition sample_peer : send_ctx := set_range (Some 3) 0 [(0, 1)] ctx_init.

Lemma ack_reaches_sender_witness :
  intervals sample_peer = [(3, 3); (0, 1)] /\
  exists largest delay n first len data c', content <$> frames (ngx_quic_send_ack (QuicAck.Env true 8 3) sample_peer).2 !! 0%nat = Some (ACK largest delay n first len data None) /\
    ngx_quic_handle_ack_frame sample_setting 2 largest delay n first data sample_sent = Some (true, c') /\
    ack_handled sample_setting 2 (intervals sample_peer) largest sample_sent c' /\
    Forall (fun f => ~ in_ivs (intervals sample_peer) (pnum f)) (sent (space 2 c')).
Proof.
  split; [reflexivity |]. assert (Hn : next_pnum (space 2 sample_sent) = 5) by (vm_compute; reflexivity).
  pose proof sample_books as Hb. revert Hb Hn. generalize sample_sent. intros s Hb Hn.
  apply (ack_reaches_sender sample_setting (QuicAck.Env true 8 3) 2 s sample_peer).
  - exact Hb.
  - unfold NGX_QUIC_SEND_CTX_LAST. lia.
  - cbn. unfold NGX_QUIC_MAX_RANGES. split_and!; lia || done.
  - reflexivity.
  - discriminate.
  - rewrite Hn. repeat constructor; cbn; lia.
Defined.

(** A range of packets that were never sent is taken when one of its packets waits: the
    largest number acknowledged is beyond those sent. *)
Remark unsent_ack_taken :
  (c ← ngx_quic_handle_ack_frame sample_setting 2 100 0 0 97 [] sample_sent;
   Some (c.1, largest_ack (space 2 c.2), next_pnum (space 2 c.2))) = Some (true, Some 100, 5).
Proof. vm_compute. reflexivity. Qed.

End QuicLoss.
