(* ===== verification/QuicSend.v ===== *)
(** * QuicSend: the sending side of QUIC streams (src/event/quic/ngx_event_quic_streams.c)

    What the application writes to a stream is kept in its buffer and leaves it in
    STREAM frames, as far as the limits of the peer allow; the end of the stream, its
    reset, and what the peer says of its limits.  The buffers are those of
    [QuicBuffer], the streams, their acknowledgements and the queue of frames those of
    [QuicLoss].

    Streams are there from the beginning: their creation is not part of the model.  The
    memory is that of the buffers of sending; a frame of data holds the chain that was
    read for it, and [stream_send_flow] has its bytes still there.  The theorems are
    about any history of calls and frames, up to one that closes the connection. *)

From S2P Require Import Prelude QuicFrame QuicBuffer QuicStream QuicAck QuicPacket QuicLoss.
From stdpp Require Import base option list gmap sets sorting.

#[local] Open Scope Z_scope.

Module QuicSend.

Import QuicBuffer QuicFrame QuicAck QuicPacket QuicLoss.

(** ** Definitions *)

Definition NGX_QUIC_ERR_INTERNAL_ERROR : Z := 0x01.
Definition NGX_QUIC_ERR_STREAM_STATE_ERROR : Z := 0x05.

(** What [ngx_quic_stream_t] has for sending besides its state, the bytes that were
    written and acknowledged, which are those of [sstream]; of its connection [c->sent]
    and the flags of the write event.  A final size of -1 is [None]. *)
Record sender : Set := Sender {
  send_max_data : Z; send_offset : Z; send_final_size : option Z; send : qbuf;
  csent : Z; wready : bool; werror : bool }.

Definition set_send (b : qbuf) (w : sender) : sender :=
  Sender (send_max_data w) (send_offset w) (send_final_size w) b (csent w) (wready w) (werror w).
Definition set_send_max (n : Z) (w : sender) : sender :=
  Sender n (send_offset w) (send_final_size w) (send w) (csent w) (wready w) (werror w).
Definition set_send_offset (n : Z) (w : sender) : sender :=
  Sender (send_max_data w) n (send_final_size w) (send w) (csent w) (wready w) (werror w).
Definition set_send_final (x : option Z) (w : sender) : sender :=
  Sender (send_max_data w) (send_offset w) x (send w) (csent w) (wready w) (werror w).
Definition set_csent (n : Z) (w : sender) : sender :=
  Sender (send_max_data w) (send_offset w) (send_final_size w) (send w) n (wready w) (werror w).
Definition set_wready (x : bool) (w : sender) : sender :=
  Sender (send_max_data w) (send_offset w) (send_final_size w) (send w) (csent w) x (werror w).
Definition set_werror (x : bool) (w : sender) : sender :=
  Sender (send_max_data w) (send_offset w) (send_final_size w) (send w) (csent w) (wready w) x.

(** A connection: what [QuicLoss] has of it, the streams that send, [send_max_data],
    [send_offset] and [sent] of [ngx_quic_streams_t], the memory of the buffers, and the
    chains that the frames of data took, first one first. *)
Record sconn : Type := SConn {
  conn_of : conn; senders : gmap Z sender; conn_max : Z; conn_offset : Z; conn_sent : Z;
  spool : pool; held : list (list link) }.

Definition set_conn (x : conn) (c : sconn) : sconn :=
  SConn x (senders c) (conn_max c) (conn_offset c) (conn_sent c) (spool c) (held c).
Definition set_senders (x : gmap Z sender) (c : sconn) : sconn :=
  SConn (conn_of c) x (conn_max c) (conn_offset c) (conn_sent c) (spool c) (held c).
Definition set_conn_max (x : Z) (c : sconn) : sconn :=
  SConn (conn_of c) (senders c) x (conn_offset c) (conn_sent c) (spool c) (held c).
Definition set_conn_offset (x : Z) (c : sconn) : sconn :=
  SConn (conn_of c) (senders c) (conn_max c) x (conn_sent c) (spool c) (held c).
Definition set_conn_sent (x : Z) (c : sconn) : sconn :=
  SConn (conn_of c) (senders c) (conn_max c) (conn_offset c) x (spool c) (held c).
Definition set_spool (x : pool) (c : sconn) : sconn :=
  SConn (conn_of c) (senders c) (conn_max c) (conn_offset c) (conn_sent c) x (held c).
Definition hold (x : list link) (c : sconn) : sconn :=
  SConn (conn_of c) (senders c) (conn_max c) (conn_offset c) (conn_sent c) (spool c) (held c ++ [x]).

Definition put_sender (id : Z) (w : sender) (c : sconn) : sconn := set_senders (<[id := w]> (senders c)) c.
Definition put_half (id : Z) (s : sstream) (c : sconn) : sconn :=
  set_conn (set_streams (<[id := s]> (streams (conn_of c))) (conn_of c)) c.

(** A stream, if it is there. *)
Definition find_stream (id : Z) (c : sconn) : option (sstream * sender) :=
  s ← streams (conn_of c) !! id; w ← senders c !! id; Some (s, w).

Definition set_send_state (x : send_state_e) (s : sstream) : sstream :=
  SStream x (offset_sent s) (acked s) (fin_acked s) (stream_max_data s) (receiving s) (connected s).

Definition set_stream_sent (n : Z) (s : sstream) : sstream :=
  SStream (send_state s) n (acked s) (fin_acked s) (stream_max_data s) (receiving s) (connected s).

Section operations.

(** The answers of the allocator to the buffers, the setting of a call, and the limit
    [initial_max_data] of the peer. *)
Context (grants : nat -> bool) (e : setting) (initial_max_data : Z).

(** The sender of a stream that was closed: its buffer is free. *)
Definition reap (id : Z) (c : sconn) : sconn :=
  match streams (conn_of c) !! id, senders c !! id with
  | None, Some w => set_senders (delete id (senders c)) (set_spool (ngx_quic_free_buffer (spool c) (send w)).2 c)
  | _, _ => c
  end.

(** [ngx_quic_close_stream] for a caller that looks at its result: only the frame of a
    new limit may fail. *)
Definition close_stream (id : Z) (s : sstream) (c : sconn) : bool * sconn :=
  let b := ngx_quic_close_stream e id s (conn_of c) in
  let gone := bool_decide (streams b !! id = None) in
  (negb (gone && negb (closing e) && negb (shutdown e) && (Z.land id NGX_QUIC_STREAM_SERVER_INITIATED =? 0)) || grant e,
   reap id (set_conn b c)).

Definition ngx_quic_stream_flush (id : Z) (c : sconn) : bool * sconn :=
  match find_stream id c with
  | None => (true, c)
  | Some (s, w) =>
      if negb (bool_decide (send_state s = NGX_QUIC_STREAM_SEND_SEND)) then (true, c)
      else
        let c := if conn_max c =? 0 then set_conn_max initial_max_data c else c in
        let limit := s64 (Z.min (u64 (conn_max c - conn_offset c)) (u64 (send_max_data w - send_offset w))) in
        let '(out, b, p) := ngx_quic_read_buffer grants (spool c) (send w) limit in
        let len := qoffset b - qoffset (send w) in
        let w := set_send b w in
        let c := set_spool p c in
        match out with
        | None => (false, put_sender id w c)
        | Some out =>
            let last := bool_decide (send_final_size w = Some (qoffset b)) in
            let s := if last then set_send_state NGX_QUIC_STREAM_SEND_DATA_SENT s else s in
            let c := put_half id s (put_sender id w c) in
            if (len =? 0) && negb last then (true, c)
            else if negb (grant e) then (false, c)
            else
              let f := STREAM (send_offset w) len id true true last (chain_bytes (cell p) (map lbuf out)) in
              let c := set_conn (ngx_quic_queue_frame e application (new_frame f) (conn_of c)) c in
              let c := put_sender id (set_send_offset (u64 (send_offset w + len)) w) c in
              let c := set_conn_offset (u64 (conn_offset c + len)) (hold out c) in
              if connected s then (true, c) else close_stream id s c
        end
  end.

Definition writable (s : sstream) : bool :=
  bool_decide (send_state s = NGX_QUIC_STREAM_SEND_READY \/ send_state s = NGX_QUIC_STREAM_SEND_SEND).

(** What a write leaves of its input, or [NGX_CHAIN_ERROR]; the outer [None] is a wrong
    access. *)
Definition ngx_quic_stream_send_chain (id : Z) (inp : list input) (limit : Z) (c : sconn)
    : option (option (list input) * sconn) :=
  '(s, w) ← find_stream id c;
  if negb (writable s) then Some (None, put_sender id (set_werror true w) c)
  else
    let s := set_send_state NGX_QUIC_STREAM_SEND_SEND s in
    let c := put_half id s c in
    let flow := u64 (acked s + stream_buffer_size e - offset_sent s) in
    if flow =? 0 then Some (Some inp, put_sender id (set_wready false w) c)
    else
      let limit := if (limit =? 0) || (s64 flow <? limit) then s64 flow else limit in
      '(rest, b, p) ← ngx_quic_write_buffer grants (spool c) (send w) inp limit (offset_sent s);
      let n := qsize b - qsize (send w) in
      let w := set_send b w in
      let c := set_spool p c in
      match rest with
      | None => Some (None, put_sender id w c)
      | Some rest =>
          let w := set_csent (csent w + n) w in
          let w := if flow =? n then set_wready false w else w in
          let c := put_sender id w (put_half id (set_stream_sent (u64 (offset_sent s + n)) s) c) in
          let c := set_conn_sent (u64 (conn_sent c + n)) c in
          let '(ok, c) := ngx_quic_stream_flush id c in
          Some (if ok then Some rest else None, c)
      end.

Definition ngx_quic_shutdown_stream_send (id : Z) (c : sconn) : bool * sconn :=
  match find_stream id c with
  | None => (true, c)
  | Some (s, w) =>
      if negb (writable s) then (true, c)
      else
        let c := put_half id (set_send_state NGX_QUIC_STREAM_SEND_SEND s) c in
        ngx_quic_stream_flush id (put_sender id (set_send_final (Some (csent w)) w) c)
  end.

Definition ngx_quic_do_reset_stream (id err : Z) (c : sconn) : bool * sconn :=
  match find_stream id c with
  | None => (true, c)
  | Some (s, w) =>
      if bool_decide (send_state s = NGX_QUIC_STREAM_SEND_DATA_RECVD \/ send_state s = NGX_QUIC_STREAM_SEND_RESET_SENT
          \/ send_state s = NGX_QUIC_STREAM_SEND_RESET_RECVD) then (true, c)
      else
        let w := set_send_final (Some (send_offset w)) w in
        let w := if connected s then set_werror true w else w in
        let c := put_sender id w (put_half id (set_send_state NGX_QUIC_STREAM_SEND_RESET_SENT s) c) in
        if negb (grant e) then (false, c)
        else
          let f := RESET_STREAM id err (send_offset w) in
          let c := set_conn (ngx_quic_queue_frame e application (new_frame f) (conn_of c)) c in
          let '(b, p) := ngx_quic_free_buffer (spool c) (send w) in
          (true, put_sender id (set_send b w) (set_spool p c))
  end.

(** The loop of [ngx_quic_handle_max_data_frame], over the streams in the order of
    their identifiers. *)
Fixpoint flush_all (ids : list Z) (c : sconn) : bool * sconn :=
  match ids with
  | [] => (true, c)
  | id :: ids =>
      if conn_offset c <? conn_max c then
        let '(ok, c) := ngx_quic_stream_flush id c in
        if negb ok then (false, c) else flush_all ids c
      else (true, c)
  end.

Definition stream_ids (c : sconn) : list Z := merge_sort Z.le (elements (dom (senders c))).

Definition ngx_quic_handle_max_data_frame (max : Z) (c : sconn) : bool * sconn :=
  if max <=? conn_max c then (true, c)
  else if bool_decide (stream_ids c = []) || (conn_offset c <? conn_max c) then (true, set_conn_max max c)
  else let c := set_conn_max max c in flush_all (stream_ids c) c.

(** Whether the peer may speak of the sending side of a stream. *)
Definition sends (id : Z) : bool :=
  (Z.land id NGX_QUIC_STREAM_UNIDIRECTIONAL =? 0) || negb (Z.land id NGX_QUIC_STREAM_SERVER_INITIATED =? 0).

Definition fail (x : Z) (c : sconn) : bool * sconn := (false, set_conn (set_error x (conn_of c)) c).

(** A stream that is not there is gone. *)
Definition ngx_quic_handle_max_stream_data_frame (id limit : Z) (c : sconn) : bool * sconn :=
  if negb (sends id) then fail NGX_QUIC_ERR_STREAM_STATE_ERROR c
  else
    match find_stream id c with
    | None => (true, c)
    | Some (s, w) =>
        if limit <=? send_max_data w then (true, c)
        else
          let c := put_sender id (set_send_max limit w) c in
          if send_offset w <? send_max_data w then (true, c) else ngx_quic_stream_flush id c
    end.

Definition ngx_quic_handle_stop_sending_frame (id err : Z) (c : sconn) : bool * sconn :=
  if negb (sends id) then fail NGX_QUIC_ERR_STREAM_STATE_ERROR c
  else
    match find_stream id c with
    | None => (true, c)
    | Some _ =>
        let '(ok, c) := ngx_quic_do_reset_stream id err c in
        if negb ok then (false, c)
        else
          match find_stream id c with
          | None => (true, c)
          | Some (s, w) =>
              if connected s then
                (true, put_sender id (set_wready true w) (set_conn (notify (WriteEvent id) (conn_of c)) c))
              else close_stream id s c
          end
    end.

(** [ngx_quic_handle_stream_ack], with the write event that it sets and the buffer of a
    stream that it closes. *)
Definition woken (f : frame) (s : sstream) : bool :=
  match f with
  | STREAM _ length _ _ _ _ _ => connected s && (u64 (offset_sent s - acked s) =? stream_buffer_size e) && (0 <? length)
  | _ => false
  end.

Definition acked_stream (f : frame) : option Z :=
  match f with RESET_STREAM id _ _ | STREAM _ _ id _ _ _ _ => Some id | _ => None end.

Definition stream_ack (f : frame) (c : sconn) : sconn :=
  match id ← acked_stream f; sw ← find_stream id c; Some (id, sw) with
  | None => c
  | Some (id, (s, w)) =>
      let b := ngx_quic_handle_stream_ack e f (conn_of c) in
      reap id (set_conn b (if woken f s then put_sender id (set_wready true w) c else c))
  end.

(** [ngx_quic_shutdown_stream_recv], in the state [NGX_QUIC_STREAM_RECV_RECV], or in
    [NGX_QUIC_STREAM_RECV_SIZE_KNOWN] if [size_known]; [code] is [stream_close_code]. *)
Definition ngx_quic_shutdown_stream_recv (id code : Z) (size_known : bool) (c : sconn) : bool * sconn :=
  match find_stream id c with
  | None => (true, c)
  | Some (s, _) =>
      if negb (receiving s || size_known) then (true, c)
      else if code =? 0 then (true, c)
      else if negb (grant e) then (false, c)
      else (true, set_conn (ngx_quic_queue_frame e application (new_frame (STOP_SENDING id code)) (conn_of c)) c)
  end.

Definition detach (id : Z) (c : sconn) : sconn :=
  match find_stream id c with
  | None => c
  | Some (s, _) =>
      put_half id (SStream (send_state s) (offset_sent s) (acked s) (fin_acked s) (stream_max_data s) (receiving s) false) c
  end.

(** The application is done with a stream. *)
Definition ngx_quic_stream_cleanup_handler (id code : Z) (size_known : bool) (c : sconn) : bool * sconn :=
  let '(ok, c) := ngx_quic_shutdown_stream_send id c in
  let '(ok, c) := if ok then ngx_quic_shutdown_stream_recv id code size_known c else (false, c) in
  let c := detach id c in
  let '(ok, c) :=
    match find_stream id c with
    | Some (s, _) => if ok then close_stream id s c else (false, c)
    | None => (ok, c)
    end in
  (ok, if ok then c else set_conn (notify ClosePosted (set_error NGX_QUIC_ERR_INTERNAL_ERROR (conn_of c))) c).

(** The receiving side leaves the state [NGX_QUIC_STREAM_RECV_RECV]: the end of
    [ngx_quic_handle_stream_frame] and of [ngx_quic_handle_reset_stream_frame], whose
    other parts are in [QuicStream]. *)
Definition size_received (id : Z) (c : sconn) : bool * sconn :=
  match find_stream id c with
  | None => (true, c)
  | Some (s, _) =>
      let s := SStream (send_state s) (offset_sent s) (acked s) (fin_acked s) (stream_max_data s) false (connected s) in
      let c := put_half id s c in
      if connected s then (true, c) else close_stream id s c
  end.

End operations.

(** ** What happens to the streams *)

(** Calls of the application, and frames of the peer.  A write has its buffers and its
    limit; the end of a stream what its receiving side needs. *)
Inductive event : Type :=
  | Send (id : Z) (inp : list input) (limit : Z)
  | Shutdown (id : Z)
  | Reset (id err : Z)
  | Cleanup (id code : Z) (size_known : bool)
  | MaxData (max : Z)
  | MaxStreamData (id limit : Z)
  | StopSending (id err : Z)
  | Acked (f : frame)
  | SizeReceived (id : Z).

(** What a write took of its input: the rest is left. *)
Definition accepted (inp rest : list input) : list Z :=
  take (length (input_bytes inp) - length (input_bytes rest)) (input_bytes inp).

(** A result without a log; a connection without the stream. *)
Definition quietly (r : bool * sconn) : option (bool * sconn * list (Z * list Z)) := Some (r.1, r.2, []).

(** One event: whether the connection goes on, and what the streams took. *)
Definition handle (grants : nat -> bool) (ini : Z) (e : setting) (ev : event) (c : sconn) : option (bool * sconn * list (Z * list Z)) :=
  match ev with
  | Send id inp limit =>
      match find_stream id c with
      | None => Some (true, c, [])
      | Some (s, _) =>
          '(r, c) ← ngx_quic_stream_send_chain grants e ini id inp limit c;
          Some (match r with
                | Some rest => (true, c, [(id, accepted inp rest)])
                | None => (negb (writable s), c, [])
                end)
      end
  | Shutdown id => quietly (ngx_quic_shutdown_stream_send grants e ini id c)
  | Reset id err => quietly (ngx_quic_do_reset_stream e id err c)
  | Cleanup id code known => quietly (ngx_quic_stream_cleanup_handler grants e ini id code known c)
  | MaxData max => quietly (ngx_quic_handle_max_data_frame grants e ini max c)
  | MaxStreamData id limit => quietly (ngx_quic_handle_max_stream_data_frame grants e ini id limit c)
  | StopSending id err => quietly (ngx_quic_handle_stop_sending_frame e id err c)
  | Acked f => Some (true, stream_ack e f c, [])
  | SizeReceived id => quietly (size_received e id c)
  end.

(** The events up to the first that closes the connection: the state before it, what
    the streams took, and the number of the events before it. *)
Fixpoint happen (grants : nat -> bool) (ini : Z) (es : list (setting * event)) (c : sconn)
    : option (sconn * list (Z * list Z) * nat) :=
  match es with
  | [] => Some (c, [], O)
  | (e, ev) :: es =>
      '(ok, c', log) ← handle grants ini e ev c;
      if (ok : bool) then '(c', log', k) ← happen grants ini es c'; Some (c', log ++ log', S k)
      else Some (c, [], O)
  end.

(** The bytes of a stream. *)
Fixpoint taken (id : Z) (log : list (Z * list Z)) : list Z :=
  match log with [] => [] | (j, d) :: log => (if j =? id then d else []) ++ taken id log end.

(** A connection with the streams [m], each with the limit that the peer has set for
    it. *)
Definition sender_init (max : Z) : sender := Sender max 0 None qbuf_zero 0 true false.
Definition sstream_init (max : Z) : sstream := SStream NGX_QUIC_STREAM_SEND_READY 0 0 false 0 true true.

Definition sconn_init (cl : nat -> Z -> Z) (b : conn) (m : gmap Z Z) : sconn :=
  SConn (set_streams (sstream_init <$> m) b) (sender_init <$> m) 0 0 0 (pool_init cl) [].

(** ** Specification *)

(** The frames that were queued for the application space; what they say of a stream,
    and the data in them. *)
Definition queue (b : conn) : list frame := map content (frames (space application b)).

Definition of_stream (id : Z) (x : item) : bool :=
  match x with Byte (Some j) _ _ | Fin j _ => j =? id | _ => false end.

Definition items (id : Z) (c : sconn) : list item := filter (of_stream id) (concat (map says (queue (conn_of c)))).

Definition data_of (f : frame) : option (list Z) := match f with STREAM _ _ _ _ _ _ d => Some d | _ => None end.

Definition datas (b : conn) : list (list Z) := omap data_of (queue b).

Definition bytes_in (l : list (list Z)) : Z := Z.of_nat (length (concat l)).

(** The limit of the connection: that of the handshake, until the peer has set one. *)
Definition limit_of (ini : Z) (c : sconn) : Z := if conn_max c =? 0 then ini else conn_max c.

Definition stopped (s : sstream) : bool :=
  bool_decide (send_state s = NGX_QUIC_STREAM_SEND_RESET_SENT \/ send_state s = NGX_QUIC_STREAM_SEND_RESET_RECVD).

Definition finished (s : sstream) : bool :=
  bool_decide (send_state s = NGX_QUIC_STREAM_SEND_DATA_SENT \/ send_state s = NGX_QUIC_STREAM_SEND_DATA_RECVD).

(** The first [n] bytes of [W] were sent on the stream, in order, and after all of them
    its end, if [fin]. *)
Definition sent_so_far (id : Z) (W : list Z) (its : list item) (n : nat) (fin : bool) : Prop :=
  its = bytes_from (Some id) 0 (take n W) ++ (if fin then [Fin id (Z.of_nat n)] else []) /\
  (n <= length W)%nat /\ (fin = true -> n = length W).

(** What a stream is when it took [W]. *)
Record sender_ok (bs : Z) (p : pool) (id : Z) (W : list Z) (its : list item) (s : sstream) (w : sender) : Prop := {
  so_buf : represents p (send w) (Stream (send_offset w) (if stopped s then fun _ => None else lay W 0));
  so_gone : stopped s = false -> gone (send w) = send_offset w;
  so_sent : offset_sent s = Z.of_nat (length W);
  so_csent : csent w = Z.of_nat (length W);
  so_offset : 0 <= send_offset w;
  so_max : send_offset w <= send_max_data w < 2 ^ 62;
  so_acked : 0 <= acked s <= send_offset w;
  so_room : Z.of_nat (length W) <= acked s + bs;
  so_final : stopped s = false -> send_final_size w = None \/ send_final_size w = Some (Z.of_nat (length W));
  so_items : exists fin, sent_so_far id W its (Z.to_nat (send_offset w)) fin /\ (stopped s = false -> fin = finished s);
  so_ready : writable s = true -> connected s = true -> wready w = false -> Z.of_nat (length W) = acked s + bs;
  so_fresh : send_state s = NGX_QUIC_STREAM_SEND_READY -> W = [] /\ send_final_size w = None;
  so_done : send_state s = NGX_QUIC_STREAM_SEND_DATA_RECVD -> acked s = Z.of_nat (length W) }.

(** A stream that can send withholds nothing, and its end neither: what is not sent is
    beyond the limit of the stream, or the limit of the connection is reached. *)
Definition at_rest (blocked : Prop) (W : list Z) (s : sstream) (w : sender) : Prop :=
  send_state s = NGX_QUIC_STREAM_SEND_SEND ->
  send_offset w = Z.of_nat (length W) /\ send_final_size w = None \/ send_offset w = send_max_data w \/ blocked.

Definition blocked (ini : Z) (c : sconn) : Prop := conn_offset c = limit_of ini c.

#[local] Abbreviation bufs := (map lbuf).

(** The pieces of the buffers of the streams. *)
Definition chains (m : gmap Z sender) : list buf := bufs (map_to_list m ≫= fun x => qchain (send x.2)).

(** A connection whose streams took [W]; those of [skip] may have something to send. *)
Record sconn_ok (bs ini : Z) (W : Z -> list Z) (skip : Z -> Prop) (c : sconn) : Prop := {
  sc_dom id : streams (conn_of c) !! id = None <-> senders c !! id = None;
  sc_len : (application < length (ctxs (conn_of c)))%nat;
  sc_wf : wf (spool c) (chains (senders c) ++ bufs (concat (held c)));
  sc_limit : 0 <= conn_offset c <= conn_max c;
  sc_max : conn_max c < 2 ^ 62;
  sc_total : conn_offset c = bytes_in (datas (conn_of c));
  sc_held : datas (conn_of c) = map (fun l => chain_bytes (cell (spool c)) (bufs l)) (held c);
  sc_stream id s w : find_stream id c = Some (s, w) -> sender_ok bs (spool c) id (W id) (items id c) s w;
  sc_rest id s w : find_stream id c = Some (s, w) -> ~ skip id -> at_rest (blocked ini c) (W id) s w;
  sc_gone id : find_stream id c = None -> exists n fin, sent_so_far id (W id) (items id c) n fin }.

(** ** Lemmas *)

Lemma find_stream_Some id c s w : find_stream id c = Some (s, w) <-> streams (conn_of c) !! id = Some s /\ senders c !! id = Some w.
Proof.
  unfold find_stream. destruct (streams (conn_of c) !! id), (senders c !! id); cbn; naive_solver.
Qed.

Lemma find_stream_None id c : (streams (conn_of c) !! id = None <-> senders c !! id = None) ->
  find_stream id c = None <-> senders c !! id = None.
Proof. unfold find_stream. destruct (streams (conn_of c) !! id), (senders c !! id); cbn; intros [? ?]; naive_solver. Qed.

(** *** Chains *)

Lemma senders_insert id w m : chains (<[id := w]> m) ≡ₚ bufs (qchain (send w)) ++ chains (delete id m).
Proof.
  unfold chains. rewrite <- insert_delete_eq, map_to_list_insert by apply lookup_delete_eq.
  by rewrite bind_cons, map_app.
Qed.

Lemma senders_split id w m : m !! id = Some w -> chains m ≡ₚ bufs (qchain (send w)) ++ chains (delete id m).
Proof. intros H. rewrite <- senders_insert. by rewrite insert_id. Qed.

Lemma senders_other id j w m : m !! j = Some w -> j <> id -> exists l, chains (delete id m) ≡ₚ bufs (qchain (send w)) ++ l.
Proof. intros H Hj. eexists. apply senders_split. by rewrite lookup_delete_ne. Qed.

Lemma stable_perm p p' l l' : l ≡ₚ l' -> stable l p p' -> stable l' p p'.
Proof. unfold stable. by intros ->. Qed.

Lemma represents_ext p qb s s' : represents p qb s -> sbase s' = sbase s ->
  (forall x, sbase s <= x -> byte_at s' x = byte_at s x) -> represents p qb s'.
Proof.
  intros [R1 R2 R3 R4] Hb Hx. split; [congruence | | done | done]. intros x. rewrite Hb. intros Hle. rewrite Hx by done. by apply R2.
Qed.

Lemma frames_stable p p' (h : list (list link)) : stable (bufs (concat h)) p p' ->
  map (fun l => chain_bytes (cell p') (bufs l)) h = map (fun l => chain_bytes (cell p) (bufs l)) h.
Proof.
  intros H. induction h as [|l h IH]; [done |]. cbn in *. rewrite map_app in H. apply Forall_app in H as [H1 H2].
  f_equal; [by apply chain_bytes_stable | by apply IH].
Qed.

(** *** The queue *)

(** What a connection queues besides the frames of data changes nothing here. *)
Definition aside (b b' : conn) : Prop :=
  length (ctxs b') = length (ctxs b) /\ exists l, queue b' = queue b ++ l /\ Forall (fun f => data_of f = None) l.

Lemma aside_refl b : aside b b.
Proof. split; [done |]. exists []. by rewrite app_nil_r. Qed.

Lemma aside_same b b' : ctxs b' = ctxs b -> aside b b'.
Proof. intros E. unfold aside, queue, space. rewrite E. apply aside_refl. Qed.

Lemma aside_trans b1 b2 b3 : aside b1 b2 -> aside b2 b3 -> aside b1 b3.
Proof.
  intros (L1 & l1 & E1 & F1) (L2 & l2 & E2 & F2). split; [congruence |]. exists (l1 ++ l2). split; [by rewrite E2, E1, app_assoc |].
  by apply Forall_app.
Qed.

Lemma queue_frame_queue e f b : (application < length (ctxs b))%nat ->
  queue (ngx_quic_queue_frame e application (new_frame f) b) = queue b ++ [f] /\
  length (ctxs (ngx_quic_queue_frame e application (new_frame f) b)) = length (ctxs b) /\
  streams (ngx_quic_queue_frame e application (new_frame f) b) = streams b.
Proof.
  intros H. unfold ngx_quic_queue_frame.
  assert (E : forall x, queue (if closing e then x else notify PushPosted x) = queue x /\
    length (ctxs (if closing e then x else notify PushPosted x)) = length (ctxs x) /\
    streams (if closing e then x else notify PushPosted x) = streams x) by (intros x; by destruct (closing e)).
  destruct (E (set_space application (set_frames (frames (space application b) ++ [with_len (new_frame f)]) (space application b)) b)) as (-> & -> & ->).
  split_and!; [| cbn; apply length_insert | done]. unfold queue. rewrite space_same by done. cbn. by rewrite map_app.
Qed.

Lemma handshake_items id d : forall o, filter (of_stream id) (bytes_from None o d) = [].
Proof. induction d as [|b d IH]; intros o; [done |]. cbn [bytes_from]. rewrite filter_cons_False by (cbn; tauto). apply IH. Qed.

Lemma says_other id f : data_of f = None -> filter (of_stream id) (says f) = [].
Proof. destruct f; cbn [data_of says]; intros H; try done. apply handshake_items. Qed.

Lemma items_app id b b' l (c : sconn) : queue b' = queue b ++ l ->
  items id (set_conn b' c) = items id (set_conn b c) ++ filter (of_stream id) (concat (map says l)).
Proof. intros E. unfold items. cbn. by rewrite E, map_app, concat_app, filter_app. Qed.

Lemma aside_items b b' id c : aside b b' -> items id (set_conn b' c) = items id (set_conn b c).
Proof.
  intros (_ & l & E & F). rewrite (items_app _ _ _ _ _ E). rewrite <- (app_nil_r (items id (set_conn b c))) at 2. f_equal.
  clear E. induction F as [|f l Hf F IH]; [done |]. cbn. by rewrite filter_app, IH, (says_other id f Hf).
Qed.

Lemma aside_datas b b' : aside b b' -> datas b' = datas b.
Proof.
  intros (_ & l & E & F). unfold datas. rewrite E, omap_app. rewrite <- (app_nil_r (omap _ (queue b))) at 2. f_equal.
  clear E. induction F as [|f l Hf F IH]; [done |]. cbn. by rewrite Hf.
Qed.

Lemma queue_frame_aside e f b : (application < length (ctxs b))%nat -> data_of f = None ->
  aside b (ngx_quic_queue_frame e application (new_frame f) b).
Proof. intros H Hf. destruct (queue_frame_queue e f b H) as (E & L & _). split; [done |]. exists [f]. split; [done |]. by constructor. Qed.

Lemma items_same id c c' : queue (conn_of c') = queue (conn_of c) -> items id c' = items id c.
Proof. unfold items. by intros ->. Qed.

Lemma items_aside id c c' : aside (conn_of c) (conn_of c') -> items id c' = items id c.
Proof. exact (aside_items (conn_of c) (conn_of c') id c). Qed.

(** *** One stream changes *)

Section change.

Context (bs ini : Z).

#[local] Abbreviation sconn_ok := (sconn_ok bs ini).
#[local] Abbreviation sender_ok := (sender_ok bs).
#[local] Abbreviation blocked := (blocked ini).

Lemma sender_stable p p' id W its s w : (links p <= links p')%nat -> stable (bufs (qchain (send w))) p p' ->
  sender_ok p id W its s w -> sender_ok p' id W its s w.
Proof. intros Hl Hs []. split; try done. by eapply represents_stable. Qed.

Lemma put_ok W W' skip skip' c c' id s w s' w' :
  sconn_ok W skip c -> find_stream id c = Some (s, w) ->
  streams (conn_of c') = <[id := s']> (streams (conn_of c)) -> senders c' = <[id := w']> (senders c) ->
  length (ctxs (conn_of c')) = length (ctxs (conn_of c)) ->
  stable (chains (delete id (senders c))) (spool c) (spool c') -> (links (spool c) <= links (spool c'))%nat ->
  wf (spool c') (bufs (qchain (send w')) ++ chains (delete id (senders c)) ++ bufs (concat (held c'))) ->
  0 <= conn_offset c' <= conn_max c' -> conn_max c' < 2 ^ 62 -> conn_offset c' = bytes_in (datas (conn_of c')) ->
  datas (conn_of c') = map (fun l => chain_bytes (cell (spool c')) (bufs l)) (held c') ->
  (forall j, j <> id -> W' j = W j /\ items j c' = items j c) ->
  sender_ok (spool c') id (W' id) (items id c') s' w' ->
  (blocked c -> blocked c') -> (forall j, j <> id -> ~ skip' j -> ~ skip j) ->
  (~ skip' id -> at_rest (blocked c') (W' id) s' w') ->
  sconn_ok W' skip' c'.
Proof.
  intros [] Hf Es Ew El Hst Hlk Hwf Hlim Hmax Htot Hheld Hj Hok Hb Hsk Hrest.
  assert (Hfind : forall j, j <> id -> find_stream j c' = find_stream j c).
  { intros j Hne. unfold find_stream. by rewrite Es, Ew, !lookup_insert_ne by done. }
  assert (Hid : find_stream id c' = Some (s', w')).
  { apply find_stream_Some. by rewrite Es, Ew, !lookup_insert_eq. }
  split; try done.
  - intros j. rewrite Es, Ew. destruct (decide (j = id)) as [-> |]; [by rewrite !lookup_insert_eq | by rewrite !lookup_insert_ne].
  - congruence.
  - rewrite Ew, senders_insert, <- app_assoc. done.
  - intros j s0 w0 H. destruct (decide (j = id)) as [-> | Hne]; [rewrite Hid in H; by injection H as <- <- |].
    rewrite Hfind in H by done. destruct (Hj j Hne) as [-> ->]. apply (sender_stable (spool c)); [done | | by apply sc_stream0].
    apply find_stream_Some in H as [_ H]. destruct (senders_other id j w0 _ H Hne) as [l Hl].
    apply (stable_perm _ _ _ _ Hl) in Hst. apply Forall_app in Hst as [? _]. done.
  - intros j s0 w0 H. destruct (decide (j = id)) as [-> | Hne]; [rewrite Hid in H; by injection H as <- <- |].
    rewrite Hfind in H by done. destruct (Hj j Hne) as [-> _]. intros Hk Hs0.
    destruct (sc_rest0 j s0 w0 H (Hsk j Hne Hk) Hs0) as [? | [? | ?]]; tauto.
  - intros j H. destruct (decide (j = id)) as [-> | Hne]; [congruence |]. rewrite Hfind in H by done.
    destruct (Hj j Hne) as [-> ->]. by apply sc_gone0.
Qed.

(** The rest of the memory, besides the buffer of the stream. *)
Lemma rest_wf W skip c id s w : sconn_ok W skip c -> find_stream id c = Some (s, w) ->
  wf (spool c) (bufs (qchain (send w)) ++ chains (delete id (senders c)) ++ bufs (concat (held c))).
Proof.
  intros H [_ Hw]%find_stream_Some. pose proof (sc_wf _ _ _ _ _ H) as Hwf. by rewrite (senders_split _ _ _ Hw), <- app_assoc in Hwf.
Qed.

(** No frame of data is queued. *)
Lemma pool_ok W skip skip' c c' id s w s' w' :
  sconn_ok W skip c -> find_stream id c = Some (s, w) ->
  streams (conn_of c') = <[id := s']> (streams (conn_of c)) -> senders c' = <[id := w']> (senders c) ->
  aside (conn_of c) (conn_of c') -> held c' = held c -> conn_offset c' = conn_offset c -> conn_max c' = conn_max c ->
  stable (chains (delete id (senders c)) ++ bufs (concat (held c))) (spool c) (spool c') -> (links (spool c) <= links (spool c'))%nat ->
  wf (spool c') (bufs (qchain (send w')) ++ chains (delete id (senders c)) ++ bufs (concat (held c))) ->
  (sender_ok (spool c) id (W id) (items id c) s w -> sender_ok (spool c') id (W id) (items id c) s' w') ->
  (forall j, j <> id -> ~ skip' j -> ~ skip j) ->
  (~ skip' id -> at_rest (blocked c) (W id) s' w') ->
  sconn_ok W skip' c'.
Proof.
  intros H Hf Es Ew Ha Eh Eo Em [Hst1 Hst2]%Forall_app Hlk Hwf Hok Hsk Hrest. pose proof H as [].
  assert (Eb : blocked c' <-> blocked c) by (unfold QuicSend.blocked, limit_of; by rewrite Eo, Em).
  eapply (put_ok W W skip skip' c c' id s w s' w'); rewrite ?Eh, ?Eo, ?Em, ?(aside_datas _ _ Ha), ?(frames_stable (spool c)); try done.
  - by destruct Ha.
  - intros j _. split; [done | by apply items_aside].
  - rewrite (items_aside _ _ _ Ha). by apply Hok, sc_stream0.
  - by rewrite Eb.
  - unfold at_rest. rewrite Eb. exact Hrest.
Qed.

(** Nothing is written or read. *)
Lemma set_ok W skip skip' c c' id s w s' w' :
  sconn_ok W skip c -> find_stream id c = Some (s, w) ->
  streams (conn_of c') = <[id := s']> (streams (conn_of c)) -> senders c' = <[id := w']> (senders c) ->
  aside (conn_of c) (conn_of c') -> spool c' = spool c -> held c' = held c -> conn_offset c' = conn_offset c ->
  conn_max c' = conn_max c -> send w' = send w ->
  (sender_ok (spool c) id (W id) (items id c) s w -> sender_ok (spool c) id (W id) (items id c) s' w') ->
  (forall j, j <> id -> ~ skip' j -> ~ skip j) ->
  (~ skip' id -> at_rest (blocked c) (W id) s' w') ->
  sconn_ok W skip' c'.
Proof.
  intros H Hf Es Ew Ha Ep Eh Eo Em Esend Hok Hsk Hrest.
  eapply (pool_ok W skip skip' c c' id s w s' w'); rewrite ?Ep, ?Esend; try done; [by apply stable_cell | by eapply rest_wf].
Qed.

(** The connection queues something else, or leaves a note. *)
Lemma aside_ok W skip c b : sconn_ok W skip c -> aside (conn_of c) b -> streams b = streams (conn_of c) ->
  sconn_ok W skip (set_conn b c).
Proof.
  intros [] Ha Es. assert (Hfind : forall j, find_stream j (set_conn b c) = find_stream j c) by (intros j; unfold find_stream; cbn; by rewrite Es).
  assert (Hi : forall j, items j (set_conn b c) = items j c) by (intros j; by apply items_aside).
  split; cbn [conn_of senders conn_max conn_offset spool held set_conn]; rewrite ?(aside_datas _ _ Ha), ?Es; try done.
  - destruct Ha as [-> _]. done.
  - intros j s w. rewrite Hfind, Hi. apply sc_stream0.
  - intros j s w. rewrite Hfind. apply sc_rest0.
  - intros j. rewrite Hfind, Hi. apply sc_gone0.
Qed.

(** A stream is closed. *)
Lemma reap_ok W skip c b id s w : sconn_ok W skip c -> find_stream id c = Some (s, w) -> aside (conn_of c) b ->
  streams b = delete id (streams (conn_of c)) -> sconn_ok W skip (reap id (set_conn b c)).
Proof.
  intros H Hf Ha Es. pose proof H as []. pose proof (rest_wf _ _ _ _ _ _ H Hf) as Hwf.
  pose proof Hf as [_ Hw]%find_stream_Some. unfold reap. cbn [conn_of set_conn senders]. rewrite Es, lookup_delete_eq, Hw.
  destruct (free_chain_spec (fun _ => true) _ _ _ Hwf) as [Hwf' (Ec & _ & El)].
  assert (Hst : forall l, stable l (spool c) (ngx_quic_free_chain (spool c) (qchain (send w)))) by (intros l; by apply stable_cell).
  set (c' := set_senders _ _).
  assert (Hfind : forall j, find_stream j c' = if decide (j = id) then None else find_stream j c).
  { intros j. unfold find_stream. cbn. rewrite Es. destruct (decide (j = id)) as [-> |];
      [by rewrite (lookup_delete_eq (streams (conn_of c))) | by rewrite !lookup_delete_ne]. }
  assert (Hi : forall j, items j c' = items j c) by (intros j; by apply items_aside).
  split; try done.
  - intros j. cbn. rewrite Es. destruct (decide (j = id)) as [-> |]; [by rewrite !lookup_delete_eq | by rewrite !lookup_delete_ne].
  - cbn. destruct Ha as [-> _]. done.
  - cbn. by rewrite (aside_datas _ _ Ha).
  - cbn. by rewrite (aside_datas _ _ Ha), Ec.
  - intros j s0 w0. rewrite Hfind, Hi. destruct (decide (j = id)); [done |]. intros H0.
    apply (sender_stable (spool c)); [done | by apply Hst | by apply sc_stream0].
  - intros j s0 w0. rewrite Hfind. destruct (decide (j = id)); [done |]. apply sc_rest0.
  - intros j. rewrite Hfind, Hi. destruct (decide (j = id)) as [-> |]; [| apply sc_gone0]. intros _.
    destruct (so_items _ _ _ _ _ _ _ (sc_stream0 id s w Hf)) as (fin & ? & _). by eexists _, _.
Qed.


(** *** Closing *)

Section call.

Context (grants : nat -> bool) (e : setting).

Lemma queue_frame_streams i f b : streams (ngx_quic_queue_frame e i f b) = streams b.
Proof. unfold ngx_quic_queue_frame. by destruct (closing e). Qed.

Lemma replace_aside id b : (application < length (ctxs b))%nat -> aside b (replace_stream e id b) /\ streams (replace_stream e id b) = streams b.
Proof.
  intros H. unfold replace_stream. repeat (case_match; try (split; [apply aside_refl | done]));
    (split; [eapply aside_trans; [| by apply queue_frame_aside]; by apply aside_same |]); by rewrite queue_frame_streams.
Qed.

Lemma close_result id s b : (application < length (ctxs b))%nat -> let b' := ngx_quic_close_stream e id s b in
  b' = b \/ aside b b' /\ streams b' = delete id (streams b).
Proof.
  intros H b'. unfold b', ngx_quic_close_stream. destruct (negb (closing e) && _); [by left | right].
  destruct (closing e), (shutdown e); try (split; [by apply aside_same | done]).
  destruct (replace_aside id (set_streams (delete id (streams b)) b) H) as [Ha Es]. split; [| exact Es].
  eapply aside_trans; [| exact Ha]. by apply aside_same.
Qed.

Lemma reap_there id s c : streams (conn_of c) !! id = Some s -> reap id c = c.
Proof. unfold reap. by intros ->. Qed.

Lemma close_ok W skip c id s s0 w0 : sconn_ok W skip c -> find_stream id c = Some (s0, w0) ->
  let '(ok, c') := close_stream e id s c in
  sconn_ok W skip c' /\ (ok = false -> grant e = false) /\ conn_max c' = conn_max c.
Proof.
  intros H Hf. unfold close_stream. split_and!.
  - destruct (close_result id s (conn_of c) (sc_len _ _ _ _ _ H)) as [-> | [Ha Es]]; [| by eapply reap_ok].
    apply find_stream_Some in Hf as [Hf _]. rewrite (reap_there _ s0) by done. by destruct c.
  - by intros [_ ?]%orb_false_iff.
  - unfold reap. by repeat case_match.
Qed.

(** *** Flushing *)

Lemma run_lay W so lim d : (so <= length W)%nat -> run_of (lay W 0) (Z.of_nat so) lim d ->
  take (so + length d) W = take so W ++ d /\ Z.of_nat (length d) <= lim /\ (so + length d <= length W)%nat /\
  (Z.of_nat (length d) = lim \/ so + length d = length W)%nat.
Proof.
  intros Hso (Hd & Hlim & Hend).
  assert (Hl : forall i : nat, lay W 0 (Z.of_nat so + Z.of_nat i) = W !! (so + i)%nat).
  { intros i. unfold lay. destruct (Z.leb_spec 0 (Z.of_nat so + Z.of_nat i)); [f_equal; lia | lia]. }
  assert (Hle : (so + length d <= length W)%nat).
  { destruct (Nat.le_gt_cases (so + length d) (length W)); [done | exfalso].
    specialize (Hd (length W - so)%nat ltac:(lia)). rewrite Hl, lookup_ge_None_2 in Hd by lia.
    symmetry in Hd. apply lookup_ge_None in Hd. lia. }
  split_and!; [| done | done |].
  - rewrite <- take_take_drop. f_equal. apply list_eq. intros i. destruct (decide (i < length d)%nat).
    + rewrite lookup_take_lt, lookup_drop, <- Hl by done. by apply Hd.
    + rewrite lookup_take_ge, lookup_ge_None_2 by lia. done.
  - destruct Hend as [? | Hend]; [by left | right]. rewrite Hl in Hend. apply lookup_ge_None in Hend. lia.
Qed.

Lemma bytes_from_app id a b : forall off, bytes_from id off (a ++ b) = bytes_from id off a ++ bytes_from id (off + Z.of_nat (length a)) b.
Proof.
  induction a as [|x a IH]; intros off; cbn [app bytes_from length]; [by rewrite Z.add_0_r |]. rewrite IH. do 2 f_equal. f_equal. lia.
Qed.

Lemma own_items id d : forall off, filter (of_stream id) (bytes_from (Some id) off d) = bytes_from (Some id) off d.
Proof.
  induction d as [|x d IH]; intros off; [done |]. cbn [bytes_from]. rewrite filter_cons_True by (cbn; by rewrite Z.eqb_refl). by rewrite IH.
Qed.

Lemma foreign_items id j d : j <> id -> forall off, filter (of_stream id) (bytes_from (Some j) off d) = [].
Proof.
  intros Hj. induction d as [|x d IH]; intros off; [done |]. cbn [bytes_from]. rewrite filter_cons_False; [apply IH |].
  cbn. destruct (Z.eqb_spec j id); tauto.
Qed.

(** The items of a frame of data, for its stream and for the others. *)
Lemma frame_items j id o n b1 b2 fin d : filter (of_stream j) (says (STREAM o n id b1 b2 fin d)) =
  if decide (id = j) then bytes_from (Some id) o d ++ (if fin then [Fin id (o + n)] else []) else [].
Proof.
  cbn [says]. rewrite filter_app. destruct (decide (id = j)) as [-> | Hne].
  - rewrite own_items. f_equal. destruct fin; [| done]. rewrite filter_cons_True; [done |]. cbn. by rewrite Z.eqb_refl.
  - rewrite foreign_items by done. destruct fin; [| done]. rewrite filter_cons_False; [done |]. cbn. destruct (Z.eqb_spec id j); tauto.
Qed.

Lemma bytes_in_app a b : bytes_in (a ++ b) = bytes_in a + bytes_in b.
Proof. unfold bytes_in. rewrite concat_app, length_app. lia. Qed.

Lemma sender_numbers p id W its s w : sender_ok p id W its s w ->
  0 <= acked s <= send_offset w /\ send_offset w <= Z.of_nat (length W) <= acked s + bs /\ send_offset w <= send_max_data w < 2 ^ 62.
Proof. intros []. destruct so_items0 as (fin & (_ & Hle & _) & _). clear so_final0 so_ready0 so_done0. lia. Qed.

(** Data [d] were taken from the buffer for a frame. *)
Lemma sender_flushed p p' id W its s w b d : let n := Z.to_nat (send_offset w) in
  sender_ok p id W its s w -> send_state s = NGX_QUIC_STREAM_SEND_SEND ->
  represents p' b (Stream (send_offset w + Z.of_nat (length d)) (lay W 0)) -> gone b = gone (send w) + Z.of_nat (length d) ->
  take (n + length d) W = take n W ++ d -> (n + length d <= length W)%nat ->
  send_offset w + Z.of_nat (length d) <= send_max_data w ->
  let last := bool_decide (send_final_size w = Some (send_offset w + Z.of_nat (length d))) in
  sender_ok p' id W (its ++ bytes_from (Some id) (send_offset w) d ++ (if last then [Fin id (send_offset w + Z.of_nat (length d))] else []))
    (if last then set_send_state NGX_QUIC_STREAM_SEND_DATA_SENT s else s)
    (set_send_offset (send_offset w + Z.of_nat (length d)) (set_send b w)).
Proof.
  intros n [] Hs Hrep Hg Ht Hn Hmax last.
  assert (Hst : stopped s = false) by (unfold stopped; rewrite Hs; by apply bool_decide_false; intros [? | ?]).
  assert (Hfs : finished s = false) by (unfold finished; rewrite Hs; by apply bool_decide_false; intros [? | ?]).
  set (s' := if last then _ else s).
  assert (Hst' : stopped s' = false) by (unfold s'; destruct last; [done | exact Hst]).
  assert (Hsame : offset_sent s' = offset_sent s /\ acked s' = acked s) by (unfold s'; by destruct last).
  destruct Hsame as [E1 E2].
  split; cbn [send send_offset send_max_data csent send_final_size wready set_send_offset set_send]; rewrite ?E1, ?E2; try done;
    try (clear -so_offset0 so_max0 so_acked0 Hmax; lia).
  - by rewrite Hst'.
  - intros _. rewrite Hg, (so_gone0 Hst). done.
  - intros _. by apply so_final0.
  - destruct so_items0 as (fin & (-> & Hle & _) & Hfin). rewrite (Hfin Hst), Hfs, app_nil_r. exists last.
    assert (Hlen : Z.of_nat n = send_offset w /\ length (take n W) = n).
    { clear -so_offset0 Hn. rewrite length_take. lia. }
    destruct Hlen as [Hn1 Hn2]. clear so_buf0 so_gone0 so_ready0 so_fresh0 so_done0 so_room0. split.
    + replace (Z.to_nat (send_offset w + Z.of_nat (length d))) with (n + length d)%nat by lia. split_and!; [| done |].
      * rewrite Ht, bytes_from_app, Hn2, <- app_assoc. fold n. do 2 f_equal; [f_equal; lia |].
        destruct last; [| done]. do 2 f_equal. lia.
      * intros E%bool_decide_eq_true. destruct (so_final0 Hst) as [E' | E']; rewrite E' in E; [done |].
        injection E as E. lia.
    + intros _. unfold s', finished. destruct last; [done |]. symmetry. exact Hfs.
  - intros Hw Hcn Hr. unfold s' in Hw, Hcn. destruct last; [done |]. by apply so_ready0.
  - unfold s'. destruct last; [done |]. congruence.
  - unfold s'. destruct last; [done |]. congruence.
Qed.

Lemma no_bytes c l : Forall (fun b => 0 < blen b) l -> length (chain_bytes c l) = O -> l = [].
Proof.
  intros F H. destruct F as [|b l Hb F]; [done | exfalso]. unfold chain_bytes in H. cbn in H. rewrite length_app in H.
  pose proof (length_piece c b). lia.
Qed.

Lemma skip_ok W skip skip' c : sconn_ok W skip c ->
  (forall j s w, find_stream j c = Some (s, w) -> ~ skip' j -> ~ skip j \/ send_state s <> NGX_QUIC_STREAM_SEND_SEND) -> sconn_ok W skip' c.
Proof.
  intros [] Hk. split; try done. intros j s w Hf Hj. destruct (Hk j s w Hf Hj) as [? | ?]; [by apply sc_rest0 | by intros ?].
Qed.

Lemma limit_made c : (if conn_max c =? 0 then set_conn_max ini c else c) = set_conn_max (limit_of ini c) c.
Proof. unfold limit_of. destruct c as [x1 x2 m x3 x4 x5 x6]. cbn [conn_max]. by destruct (m =? 0). Qed.

(** What a flush may send. *)
Lemma flush_limit W skip c id s w : 0 <= ini < 2 ^ 62 -> sconn_ok W skip c -> find_stream id c = Some (s, w) ->
  let M := limit_of ini c in
  s64 (Z.min (u64 (M - conn_offset c)) (u64 (send_max_data w - send_offset w))) =
    Z.min (M - conn_offset c) (send_max_data w - send_offset w) /\
  0 <= conn_offset c <= M /\ M < 2 ^ 62 /\ (M = 0 -> ini = 0) /\ (conn_max c <> 0 -> M = conn_max c).
Proof.
  intros Hini H Hf M. pose proof (sc_limit _ _ _ _ _ H). pose proof (sc_max _ _ _ _ _ H).
  pose proof (sc_stream _ _ _ _ _ H id s w Hf) as Hs. pose proof (so_max _ _ _ _ _ _ _ Hs). pose proof (so_offset _ _ _ _ _ _ _ Hs). clear Hs.
  assert (HM : 0 <= conn_offset c <= M /\ M < 2 ^ 62 /\ (M = 0 -> ini = 0) /\ (conn_max c <> 0 -> M = conn_max c)).
  { unfold M, limit_of. destruct (Z.eqb_spec (conn_max c) 0); lia. }
  split; [| exact HM]. rewrite !u64_small, s64_small by lia. done.
Qed.

Section flushed.

Context (W : Z -> list Z) (skip : Z -> Prop) (c c' : sconn) (id : Z) (s : sstream) (w : sender) (b : qbuf) (d : list Z).
Context (Hini : 0 <= ini < 2 ^ 62) (H : sconn_ok W skip c) (Hf : find_stream id c = Some (s, w)).
Context (Hs : send_state s = NGX_QUIC_STREAM_SEND_SEND).

Let M := limit_of ini c.
Let z := send_offset w + Z.of_nat (length d).
Let last := bool_decide (send_final_size w = Some z).

(** The stream [id] with a frame of [d] sent. *)
Lemma flushed :
  represents (spool c') b (Stream z (lay (W id) 0)) -> gone b = gone (send w) + Z.of_nat (length d) ->
  cell (spool c') = cell (spool c) -> (links (spool c) <= links (spool c'))%nat ->
  run_of (lay (W id) 0) (send_offset w) (Z.min (M - conn_offset c) (send_max_data w - send_offset w)) d ->
  streams (conn_of c') = <[id := if last then set_send_state NGX_QUIC_STREAM_SEND_DATA_SENT s else s]> (streams (conn_of c)) ->
  senders c' = <[id := set_send_offset z (set_send b w)]> (senders c) ->
  length (ctxs (conn_of c')) = length (ctxs (conn_of c)) ->
  wf (spool c') (bufs (qchain b) ++ chains (delete id (senders c)) ++ bufs (concat (held c'))) ->
  conn_max c' = M -> conn_offset c' = conn_offset c + Z.of_nat (length d) -> conn_offset c' = bytes_in (datas (conn_of c')) ->
  datas (conn_of c') = map (fun l => chain_bytes (cell (spool c')) (bufs l)) (held c') ->
  (forall j, j <> id -> items j c' = items j c) ->
  items id c' = items id c ++ bytes_from (Some id) (send_offset w) d ++ (if last then [Fin id z] else []) ->
  sconn_ok W (fun j => skip j /\ j <> id) c'.
Proof.
  intros Hrep Hg Ec Elk Hrun Es Ew El Hwf Em Eo Htot Hheld Hj Hi.
  destruct (flush_limit _ _ _ _ _ _ Hini H Hf) as (_ & HM1 & HM2 & HM3 & HM4). fold M in HM1, HM2, HM3, HM4.
  pose proof (sc_stream _ _ _ _ _ H id s w Hf) as Hok. destruct (so_items _ _ _ _ _ _ _ Hok) as (fin & (_ & Hle & _) & _).
  pose proof (so_max _ _ _ _ _ _ _ Hok) as Hmax. pose proof (so_offset _ _ _ _ _ _ _ Hok) as Hoff.
  assert (En : send_offset w = Z.of_nat (Z.to_nat (send_offset w))) by lia. rewrite En in Hrun at 1.
  apply (run_lay _ _ _ _ Hle) in Hrun as (Ht & Hd & Hn & Hend).
  assert (Elim : limit_of ini c' = M) by (unfold limit_of; rewrite Em; destruct (Z.eqb_spec M 0) as [E0 |]; [by rewrite E0, HM3 | done]).
  assert (Eb : blocked c' <-> conn_offset c + Z.of_nat (length d) = M) by (unfold QuicSend.blocked; by rewrite Elim, Eo).
  eapply (put_ok W W skip _ c c' id s w _ _ H Hf Es Ew El); try done.
  - by apply stable_cell.
  - rewrite Em, Eo. lia.
  - by rewrite Em.
  - intros j Hne. split; [done | by apply Hj].
  - rewrite Hi. eapply sender_flushed; try done. lia.
  - rewrite Eb. unfold QuicSend.blocked. fold M. lia.
  - intros j Hne Hk Hsk. apply Hk. tauto.
  - intros _ Hsend. fold z last in Hsend. rewrite Eb. cbn [send_offset send_final_size send_max_data set_send_offset set_send].
    destruct (bool_decide_reflect (send_final_size w = Some z)) as [| Hlast]; [done |].
    destruct Hend as [Hend | Hend]; [unfold z; lia |]. left. split; [unfold z; lia |].
    destruct (so_final _ _ _ _ _ _ _ Hok) as [E | E]; [| done |].
    + unfold stopped. rewrite Hs. by apply bool_decide_false; intros [? | ?].
    + exfalso. apply Hlast. rewrite E. f_equal. unfold z. lia.
Qed.

End flushed.

(** The frame that a flush queues. *)
Lemma flush_frame W skip c id s w b out p : let M := limit_of ini c in let d := chain_bytes (cell p) (bufs out) in
  let z := send_offset w + Z.of_nat (length d) in let last := bool_decide (send_final_size w = Some z) in
  let s' := if last then set_send_state NGX_QUIC_STREAM_SEND_DATA_SENT s else s in
  let c0 := put_half id s' (put_sender id (set_send b w) (set_spool p (set_conn_max M c))) in
  let f := STREAM (send_offset w) (Z.of_nat (length d)) id true true last d in
  let c' := set_conn_offset (conn_offset c + Z.of_nat (length d)) (hold out (put_sender id (set_send_offset z (set_send b w))
    (set_conn (ngx_quic_queue_frame e application (new_frame f) (conn_of c0)) c0))) in
  0 <= ini < 2 ^ 62 -> sconn_ok W skip c -> find_stream id c = Some (s, w) -> send_state s = NGX_QUIC_STREAM_SEND_SEND ->
  represents p b (Stream z (lay (W id) 0)) -> gone b = gone (send w) + Z.of_nat (length d) ->
  cell p = cell (spool c) -> (links (spool c) <= links p)%nat ->
  run_of (lay (W id) 0) (send_offset w) (Z.min (M - conn_offset c) (send_max_data w - send_offset w)) d ->
  wf p (bufs out ++ bufs (qchain b) ++ chains (delete id (senders c)) ++ bufs (concat (held c))) ->
  sconn_ok W (fun j => skip j /\ j <> id) c' /\ find_stream id c' = Some (s', set_send_offset z (set_send b w)).
Proof.
  intros M d z last s' c0 f c' Hini H Hf Hs Hrep Hg Ec Elk Hrun Hwf. pose proof (sc_len _ _ _ _ _ H) as Hlen.
  pose proof (sc_total _ _ _ _ _ H) as Htot. pose proof (sc_held _ _ _ _ _ H) as Hheld.
  destruct (queue_frame_queue e f (set_streams (<[id := s']> (streams (conn_of c))) (conn_of c)) Hlen) as (Eq & Elen & Estr).
  assert (Eqc : queue (conn_of c') = queue (conn_of c) ++ [f]) by exact Eq.
  assert (Edat : datas (conn_of c') = datas (conn_of c) ++ [d]) by (unfold datas; rewrite Eqc; by rewrite omap_app).
  assert (Eit : forall j, items j c' = items j c ++ filter (of_stream j) (says f)).
  { intros j. unfold items. by rewrite Eqc, map_app, concat_app, filter_app; cbn [map concat]; rewrite app_nil_r. }
  assert (Esw : senders c' = <[id := set_send_offset z (set_send b w)]> (senders c)) by (cbn; by rewrite insert_insert_eq).
  split.
  2:{ apply find_stream_Some. rewrite Esw, lookup_insert_eq. split; [| done]. cbn. rewrite Estr. apply lookup_insert_eq. }
  eapply (flushed W skip c c' id s w b d); try done.
  - cbn. rewrite concat_app, map_app. cbn. rewrite app_nil_r. eapply wf_perm; [| exact Hwf].
    by rewrite (Permutation_app_comm (bufs out)), <- !app_assoc.
  - rewrite Edat, bytes_in_app, <- Htot. cbn [conn_offset c' set_conn_offset]. unfold bytes_in. cbn. by rewrite app_nil_r.
  - rewrite Edat. cbn. rewrite map_app, Hheld, <- Ec. done.
  - intros j Hne. rewrite Eit. unfold f. rewrite frame_items, decide_False by congruence. by rewrite app_nil_r.
  - rewrite Eit. unfold f. by rewrite frame_items, decide_True by done.
Qed.

Lemma flush_ok W skip c id : 0 <= ini < 2 ^ 62 -> sconn_ok W skip c ->
  let '(ok, c') := ngx_quic_stream_flush grants e ini id c in
  (if ok then sconn_ok W (fun j => skip j /\ j <> id) c' else refused grants \/ grant e = false) /\
  (conn_max c <> 0 -> conn_max c' = conn_max c).
Proof.
  intros Hini H. unfold ngx_quic_stream_flush. destruct (find_stream id c) as [[s w] |] eqn:Hf.
  2:{ split; [| done]. apply (skip_ok _ _ _ _ H). intros j s w Hj Hn. left. intros ?. apply Hn. split; [done |]. intros ->. congruence. }
  destruct (bool_decide_reflect (send_state s = NGX_QUIC_STREAM_SEND_SEND)) as [Hs | Hs]; cbn [negb].
  2:{ split; [| done]. apply (skip_ok _ _ _ _ H). intros j s0 w0 Hj Hn. destruct (decide (j = id)) as [-> | ?]; [| left; tauto].
      right. congruence. }
  rewrite limit_made. cbn zeta. cbn [conn_max conn_offset spool set_conn_max].
  destruct (flush_limit _ _ _ _ _ _ Hini H Hf) as (-> & HM1 & HM2 & _ & HM4). set (M := limit_of ini c) in *.
  pose proof (sc_stream _ _ _ _ _ H id s w Hf) as Hok. pose proof (rest_wf _ _ _ _ _ _ H Hf) as Hwf.
  pose proof (so_buf _ _ _ _ _ _ _ Hok) as Hrep. pose proof (so_max _ _ _ _ _ _ _ Hok) as Hmax. pose proof (so_offset _ _ _ _ _ _ _ Hok) as Hoff.
  assert (Est : stopped s = false) by (unfold stopped; rewrite Hs; by apply bool_decide_false; intros [? | ?]). rewrite Est in Hrep.
  destruct (ngx_quic_read_buffer grants (spool c) (send w) _) as [[out b] p] eqn:E.
  apply (read_buffer_spec _ _ _ _ _ _ _ _ _ Hwf Hrep) in E as [(Ec & _ & Elk) E]; [| lia].
  destruct out as [out |]; [| split; [left; apply E | exact HM4]]. cbn zeta in E. set (d := chain_bytes (cell p) (bufs out)) in *.
  destruct E as (Hwf' & Hrun & Hrep' & Hg). cbn [sbase byte_at] in Hrun, Hrep'.
  assert (Eb : qoffset b = send_offset w + Z.of_nat (length d)) by apply (rp_base _ _ _ Hrep').
  assert (El : qoffset b - qoffset (send w) = Z.of_nat (length d)) by (pose proof (rp_base _ _ _ Hrep) as Ea; cbn in Ea; lia).
  assert (Hnd : Z.of_nat (length d) <= Z.min (M - conn_offset c) (send_max_data w - send_offset w)) by (by destruct Hrun as (_ & ? & _)).
  rewrite El, Eb. cbn [send_final_size set_send send_offset]. destruct ((Z.of_nat (length d) =? 0) && negb _) eqn:El0.
  - split; [| exact HM4]. apply andb_true_iff in El0 as [El0 Hl%negb_true_iff].
    assert (Hd0 : d = []) by (apply length_zero_iff_nil; lia). pose proof Hwf' as [Hgood _]%wf_app_r.
    assert (Hout : bufs out = []).
    { apply (no_bytes (cell p)); [| by apply (f_equal length) in Hd0]. eapply Forall_impl; [exact Hgood |]. intros y ?. by eapply good_len. }
    rewrite Hout in Hwf'. pose proof (sc_total _ _ _ _ _ H). pose proof (sc_held _ _ _ _ _ H).
    rewrite Hl. eapply (flushed W skip c _ id s w b d); try done; cbn; rewrite ?Hl, ?Ec; try done; rewrite Hd0; cbn; rewrite ?Z.add_0_r, ?app_nil_r; done.
  - destruct (grant e) eqn:Hgr; cbn [negb]; [| split; [by right | exact HM4]].
    rewrite !u64_small by (cbn; lia).
    destruct (flush_frame W skip c id s w b out p Hini H Hf Hs Hrep' Hg Ec Elk Hrun Hwf') as [Hc' Hf'].
    destruct (connected _); [by split |].
    match goal with |- context [close_stream e id ?x ?y] =>
      pose proof (close_ok W _ y id x _ _ Hc' Hf') as Hcl; destruct (close_stream e id x y) as [ok c2] end.
    destruct Hcl as (Hok2 & Hno & Em). split; [destruct ok; [done | right; rewrite <- Hgr; by apply Hno] |]. intros Hm. rewrite Em. exact (HM4 Hm).
Qed.

(** *** The calls *)

Definition none : Z -> Prop := fun _ => False.

(** The allocator refused something. *)
Definition no_memory : Prop := refused grants \/ grant e = false.

(** A call that goes on keeps the invariant; one that does not has no memory. *)
Definition call_ok W (r : bool * sconn) : Prop := if r.1 then sconn_ok W none r.2 else no_memory.

Lemma flush_call W c id : 0 <= ini < 2 ^ 62 -> sconn_ok W (fun j => j = id) c -> call_ok W (ngx_quic_stream_flush grants e ini id c).
Proof.
  intros Hini H. pose proof (flush_ok W _ c id Hini H) as Hr. unfold call_ok. destruct (ngx_quic_stream_flush _ _ _ _ _) as [ok c'].
  destruct Hr as [Hr _]. destruct ok; cbn; [| done]. apply (skip_ok _ _ _ _ Hr). intros j s w _ _. left. tauto.
Qed.

Lemma writable_live s : writable s = true -> stopped s = false /\ finished s = false.
Proof. unfold writable, stopped, finished. by destruct (send_state s). Qed.

(** A stream starts to send. *)
Lemma sender_sending p id W its s w : writable s = true -> sender_ok p id W its s w ->
  sender_ok p id W its (set_send_state NGX_QUIC_STREAM_SEND_SEND s) w.
Proof.
  intros Hw []. destruct (writable_live s Hw) as [E1 E2]. destruct so_items0 as (fin & ? & Hfin).
  split; try done; [by rewrite E1 in so_buf0 | by intros _; apply so_gone0 | by intros _; apply so_final0 | | by intros _; apply so_ready0].
  exists fin. split; [done |]. intros _. by rewrite (Hfin E1).
Qed.

Lemma sender_final p id W its s w : send_state s = NGX_QUIC_STREAM_SEND_SEND -> sender_ok p id W its s w ->
  sender_ok p id W its s (set_send_final (Some (csent w)) w).
Proof. intros Hs []. split; try done; [intros _; right; cbn; congruence | intros E; congruence]. Qed.

Lemma shutdown_send_ok W c id : 0 <= ini < 2 ^ 62 -> sconn_ok W none c -> call_ok W (ngx_quic_shutdown_stream_send grants e ini id c).
Proof.
  intros Hini H. unfold ngx_quic_shutdown_stream_send. destruct (find_stream id c) as [[s w] |] eqn:Hf; [| done].
  destruct (writable s) eqn:Ew; cbn [negb]; [| done]. apply flush_call; [done |].
  eapply (set_ok W none (fun j => j = id) c _ id s w _ _ H Hf); try done; [by apply aside_same | | by intros ? _ _ []].
  intros Hok. apply sender_final; [done |]. by apply sender_sending.
Qed.

(** A stream is reset. *)
Lemma sender_reset p p' id W its s w b : sender_ok p id W its s w -> qchain b = [] -> last_chain b = None -> qoffset b = send_offset w ->
  forall x y, sender_ok p' id W its (set_send_state NGX_QUIC_STREAM_SEND_RESET_SENT s) 
    (set_send b (if y : bool then set_werror true (set_send_final x w) else set_send_final x w)).
Proof.
  intros [] Eb El Eo x y. destruct so_items0 as (fin & ? & _).
  split; try (by destruct y); cbn; [| exists fin; by destruct y].
  split; cbn; rewrite ?Eb, ?El; try done; [by destruct y |]. split; constructor.
Qed.

Lemma do_reset_ok W c id err : sconn_ok W none c -> call_ok W (ngx_quic_do_reset_stream e id err c).
Proof.
  intros H. unfold ngx_quic_do_reset_stream. destruct (find_stream id c) as [[s w] |] eqn:Hf; [| done].
  case_bool_decide; [done |]. destruct (grant e) eqn:Hgr; cbn [negb]; [| right; exact Hgr].
  set (w1 := set_send_final _ w). pose proof (rest_wf _ _ _ _ _ _ H Hf) as Hwf. pose proof (sc_len _ _ _ _ _ H) as Hlen.
  destruct (free_chain_spec grants _ _ _ Hwf) as [Hwf' (Ec & _ & El)]. unfold call_ok, ngx_quic_free_buffer. cbn [fst snd].
  set (w2 := if connected s then set_werror true w1 else w1).
  assert (Hsend : send w2 = send w /\ qoffset (send w2) = send_offset w).
  { pose proof (rp_base _ _ _ (so_buf _ _ _ _ _ _ _ (sc_stream _ _ _ _ _ H id s w Hf))). unfold w2. by destruct (connected s). }
  destruct Hsend as [Hsend Hqo].
  match goal with |- sconn_ok _ _ ?x => set (c' := x) end.
  destruct (queue_frame_queue e (RESET_STREAM id err (send_offset w2))
    (set_streams (<[id := set_send_state NGX_QUIC_STREAM_SEND_RESET_SENT s]> (streams (conn_of c))) (conn_of c)) Hlen) as (Eq & Elen & Estr).
  assert (Ha : aside (conn_of c) (conn_of c')) by (split; [exact Elen | eexists; split; [exact Eq | by constructor]]).
  eapply (pool_ok W none none c c' id s w (set_send_state NGX_QUIC_STREAM_SEND_RESET_SENT s)
    (set_send (Qbuf (qsize (send w2)) (qoffset (send w2)) (last_offset (send w2)) [] None) w2) H Hf); try done.
  - cbn. by rewrite insert_insert_eq.
  - apply stable_cell. cbn. by rewrite Hsend.
  - cbn. by rewrite Hsend.
  - cbn. by rewrite Hsend.
  - intros Hok. by apply (sender_reset (spool c) _ _ _ _ s w _ Hok).
Qed.

Lemma max_stream_data_ok W c id limit : 0 <= ini < 2 ^ 62 -> limit < 2 ^ 62 -> sends id = true -> sconn_ok W none c ->
  call_ok W (ngx_quic_handle_max_stream_data_frame grants e ini id limit c).
Proof.
  intros Hini Hlim Hsd H. unfold ngx_quic_handle_max_stream_data_frame. rewrite Hsd. cbn [negb].
  destruct (find_stream id c) as [[s w] |] eqn:Hf; [| done]. destruct (Z.leb_spec limit (send_max_data w)); [done |].
  assert (Hok : forall its, sender_ok (spool c) id (W id) its s w -> sender_ok (spool c) id (W id) its s (set_send_max limit w)).
  { intros its []. split; try done. cbn. lia. }
  destruct (Z.ltb_spec (send_offset w) (send_max_data w)).
  - eapply (set_ok W none none c _ id s w s _ H Hf); try done; [by rewrite insert_id by (by apply find_stream_Some in Hf as [? _]) | by apply aside_same | by apply Hok |].
    intros _ Hs. destruct (sc_rest _ _ _ _ _ H id s w Hf (fun x => x) Hs) as [? | [? | ?]]; cbn; [tauto | lia | tauto].
  - apply flush_call; [done |].
    eapply (set_ok W none (fun j => j = id) c _ id s w s _ H Hf); try done;
      [by rewrite insert_id by (by apply find_stream_Some in Hf as [? _]) | by apply aside_same | by apply Hok | by intros ? _ _ []].
Qed.

(** The streams [ids] may have something to send, now that the limit is higher. *)
Lemma flush_all_ok W ids : 0 <= ini < 2 ^ 62 -> forall c, conn_max c <> 0 -> sconn_ok W (fun j => j ∈ ids) c ->
  call_ok W (flush_all grants e ini ids c).
Proof.
  intros Hini. induction ids as [|id ids IH]; intros c Hm H; cbn [flush_all].
  { apply (skip_ok _ _ _ _ H). intros j s w _ _. left. by intros ?%not_elem_of_nil. }
  destruct (Z.ltb_spec (conn_offset c) (conn_max c)) as [|Hle].
  - pose proof (flush_ok W _ c id Hini H) as Hr. destruct (ngx_quic_stream_flush _ _ _ _ _) as [ok c'].
    destruct Hr as [Hr Hm']. destruct ok; cbn [negb]; [| exact Hr]. apply IH; [by rewrite Hm' |].
    apply (skip_ok _ _ _ _ Hr). intros j s w _ Hj. left. intros [[? | ?]%elem_of_cons ?]; done.
  - change (sconn_ok W none c). pose proof (sc_limit _ _ _ _ _ H). destruct H. split; try done. intros j s w _ _ _. right. right.
    unfold QuicSend.blocked, limit_of. destruct (Z.eqb_spec (conn_max c) 0); lia.
Qed.

Lemma set_conn_max_ok W skip skip' max c : conn_max c <= max < 2 ^ 62 -> 0 <= ini -> sconn_ok W skip c ->
  (forall j s w, find_stream j c = Some (s, w) -> ~ skip' j -> ~ skip j /\ ~ blocked c) -> sconn_ok W skip' (set_conn_max max c).
Proof.
  intros Hmax Hini [] Hk. split; try done; cbn; try lia. intros j s w Hf Hj Hs.
  destruct (Hk j s w Hf Hj) as [Hj' Hb]. destruct (sc_rest0 j s w Hf Hj' Hs) as [? | [? | ?]]; tauto.
Qed.

Lemma max_data_ok W c max : 0 <= ini < 2 ^ 62 -> max < 2 ^ 62 -> sconn_ok W none c ->
  call_ok W (ngx_quic_handle_max_data_frame grants e ini max c).
Proof.
  intros Hini Hmax H. unfold ngx_quic_handle_max_data_frame. destruct (Z.leb_spec max (conn_max c)); [done |].
  pose proof (sc_limit _ _ _ _ _ H) as Hl. assert (Hids : forall j, j ∈ stream_ids c <-> j ∈ dom (senders c)).
  { intros j. unfold stream_ids. by rewrite merge_sort_Permutation, elem_of_elements. }
  assert (Hin : forall j s w, find_stream j c = Some (s, w) -> j ∈ stream_ids c).
  { intros j s w [_ Hw]%find_stream_Some. apply Hids, elem_of_dom. by eexists. }
  destruct (bool_decide_reflect (stream_ids c = [])) as [Hnil | Hnil]; cbn [orb].
  { apply (set_conn_max_ok W none); [lia | lia | done |]. intros j s w Hf. apply Hin in Hf. rewrite Hnil in Hf. by apply not_elem_of_nil in Hf. }
  destruct (Z.ltb_spec (conn_offset c) (conn_max c)).
  - apply (set_conn_max_ok W none); [lia | lia | done |]. intros j s w _ Hj. split; [done |].
    unfold QuicSend.blocked, limit_of. destruct (Z.eqb_spec (conn_max c) 0); lia.
  - apply flush_all_ok; [done | cbn; lia |]. apply (set_conn_max_ok W none); [lia | lia | done |].
    intros j s w Hf Hj. destruct Hj. by eapply Hin.
Qed.

(** The other fields of a stream do not matter here. *)
Lemma sender_flags p id W its s s' w : send_state s' = send_state s -> offset_sent s' = offset_sent s -> acked s' = acked s ->
  (connected s' = true -> connected s = true) -> sender_ok p id W its s w -> sender_ok p id W its s' w.
Proof.
  destruct s, s'. cbn. intros -> -> -> Hc []. split; try done. intros Hw Hcn. by apply so_ready0; [| apply Hc].
Qed.

Lemma sender_woken p id W its s w : sender_ok p id W its s w -> sender_ok p id W its s (set_wready true w).
Proof. intros []. by split. Qed.

Lemma close_call W c id s s0 w0 : sconn_ok W none c -> find_stream id c = Some (s0, w0) -> call_ok W (close_stream e id s c).
Proof.
  intros H Hf. pose proof (close_ok W none c id s s0 w0 H Hf) as Hr. unfold call_ok. destruct (close_stream e id s c) as [ok c'].
  destruct Hr as (? & Hno & _). destruct ok; cbn; [done | right; by apply Hno].
Qed.

Lemma stop_sending_ok W c id err : sends id = true -> sconn_ok W none c -> call_ok W (ngx_quic_handle_stop_sending_frame e id err c).
Proof.
  intros Hsd H. unfold ngx_quic_handle_stop_sending_frame. rewrite Hsd. cbn [negb]. destruct (find_stream id c); [| done].
  pose proof (do_reset_ok W c id err H) as Hr. destruct (ngx_quic_do_reset_stream e id err c) as [ok c1]. cbn [fst snd call_ok] in Hr.
  destruct ok; cbn [negb]; [| exact Hr]. destruct (find_stream id c1) as [[s w] |] eqn:Hf; [| exact Hr].
  destruct (connected s); [| by eapply close_call].
  eapply (set_ok W none none c1 _ id s w s _ Hr Hf); try done; [| by apply aside_same | by apply sender_woken | exact (sc_rest _ _ _ _ _ Hr id s w Hf)].
  apply find_stream_Some in Hf as [Hf _]. cbn. by rewrite insert_id.
Qed.

(** A stream with other flags. *)
Lemma flags_ok W c id s w s' : sconn_ok W none c -> find_stream id c = Some (s, w) ->
  send_state s' = send_state s -> offset_sent s' = offset_sent s -> acked s' = acked s -> (connected s' = true -> connected s = true) ->
  sconn_ok W none (put_half id s' c) /\ find_stream id (put_half id s' c) = Some (s', w).
Proof.
  intros H Hf E1 E2 E3 E4. pose proof Hf as [_ Hw]%find_stream_Some. split.
  - eapply (set_ok W none none c _ id s w s' w H Hf); try done; [symmetry; by apply insert_id | by apply aside_same | by apply (sender_flags _ _ _ _ s) |].
    intros Hn. unfold at_rest. rewrite E1. exact (sc_rest _ _ _ _ _ H id s w Hf Hn).
  - apply find_stream_Some. cbn. by rewrite lookup_insert_eq.
Qed.

Lemma size_received_ok W c id : sconn_ok W none c -> call_ok W (size_received e id c).
Proof.
  intros H. unfold size_received. destruct (find_stream id c) as [[s w] |] eqn:Hf; [| done]. set (s' := SStream _ _ _ _ _ _ _).
  destruct (flags_ok W c id s w s' H Hf) as [H' Hf']; try done. cbn [connected s']. destruct (connected s); [done |]. by eapply close_call.
Qed.

Lemma shutdown_recv_ok W c id code known : sconn_ok W none c -> call_ok W (ngx_quic_shutdown_stream_recv e id code known c).
Proof.
  intros H. unfold ngx_quic_shutdown_stream_recv. destruct (find_stream id c) as [[s w] |]; [| done].
  destruct (negb (receiving s || known)); [done |]. destruct (code =? 0); [done |]. destruct (grant e) eqn:Hgr; cbn [negb]; [| right; exact Hgr].
  pose proof (sc_len _ _ _ _ _ H). apply aside_ok; [done | by apply queue_frame_aside | apply queue_frame_streams].
Qed.

Lemma detach_ok W c id : sconn_ok W none c -> sconn_ok W none (detach id c).
Proof.
  intros H. unfold detach. destruct (find_stream id c) as [[s w] |] eqn:Hf; [| done]. by eapply (flags_ok W c id s w).
Qed.

Lemma cleanup_ok W c id code known : 0 <= ini < 2 ^ 62 -> sconn_ok W none c ->
  call_ok W (ngx_quic_stream_cleanup_handler grants e ini id code known c).
Proof.
  intros Hini H. unfold ngx_quic_stream_cleanup_handler. pose proof (shutdown_send_ok W c id Hini H) as H1.
  destruct (ngx_quic_shutdown_stream_send _ _ _ _ _) as [ok c1]. cbn [fst snd call_ok] in H1.
  destruct ok; [pose proof (shutdown_recv_ok W c1 id code known H1) as H2 | by destruct (find_stream id (detach id c1)) as [[? ?] |]; exact H1].
  destruct (ngx_quic_shutdown_stream_recv _ _ _ _ _) as [ok c2]. cbn [fst snd call_ok] in H2.
  destruct ok; [apply (detach_ok W c2 id) in H2 | by destruct (find_stream id (detach id c2)) as [[? ?] |]; exact H2].
  destruct (find_stream id (detach id c2)) as [[s w] |] eqn:Hf; [| exact H2].
  pose proof (close_call W _ id s s w H2 Hf) as H3. destruct (close_stream e id s (detach id c2)) as [ok c3]. destruct ok; exact H3.
Qed.

(** *** Acknowledgements *)

(** Bytes of a stream, that were sent, are acknowledged. *)
Lemma sender_acked p id W its s w length fin o b1 b2 d : 0 <= bs < 2 ^ 62 -> stream_buffer_size e = bs -> 0 <= length -> acked s + length <= send_offset w ->
  sender_ok p id W its s w ->
  sender_ok p id W its (stream_acked length fin s) (if woken e (STREAM o length id b1 b2 fin d) s then set_wready true w else w).
Proof.
  intros Hb Hbs Hlen Hle Hok. pose proof (sender_numbers _ _ _ _ _ _ Hok) as Hnum. pose proof Hok as []. cbn [woken]. set (x := connected s && _ && _).
  assert (Ea : u64 (acked s + length) = acked s + length) by (clear -Hnum Hle Hlen; apply u64_small; lia).
  assert (Est : stopped (stream_acked length fin s) = stopped s /\ finished (stream_acked length fin s) = finished s /\
    writable (stream_acked length fin s) = writable s).
  { unfold stream_acked, stopped, finished, writable. cbn. destruct (bool_decide (send_state s = _) && _ && _) eqn:E; [| done].
    apply andb_true_iff in E as [[E%bool_decide_eq_true _]%andb_true_iff _]. by rewrite E. }
  destruct Est as (Est1 & Est2 & Est3).
  assert (Ew : forall A (f : sender -> A), (forall v, f (set_wready true v) = f v) -> f (if x then set_wready true w else w) = f w).
  { intros A f Hf. by destruct x. }
  split; rewrite ?Est1, ?Est2, ?Est3, ?(Ew _ send), ?(Ew _ send_offset), ?(Ew _ csent), ?(Ew _ send_max_data), ?(Ew _ send_final_size) by done;
    cbn [acked offset_sent stream_acked connected]; rewrite ?Ea; try done; try (clear -so_offset0 so_max0 so_acked0 so_room0 Hle Hlen; lia).
  - intros Hwr Hcn Hr. assert (Hx : x = false) by (by destruct x). rewrite Hx in Hr. specialize (so_ready0 Hwr Hcn Hr).
    unfold x in Hx. rewrite Hcn, so_sent0, so_ready0, Hbs in Hx. clear -Hx Hb Hlen so_ready0. rewrite u64_small in Hx by lia. lia.
  - unfold stream_acked. cbn. destruct (bool_decide _ && _ && _); [done |]. exact so_fresh0.
  - unfold stream_acked. cbn. rewrite Ea. destruct (bool_decide (send_state s = _) && _ && _) eqn:E.
    + intros _. apply andb_true_iff in E as [[_ E%Z.eqb_eq]%andb_true_iff _]. congruence.
    + intros Hd. specialize (so_done0 Hd). clear -so_done0 Hnum Hle Hlen. lia.
Qed.

(** What an acknowledgement may speak of: bytes that were sent, or a reset that was. *)
Definition ack_fair (f : frame) (c : sconn) : bool :=
  match id ← acked_stream f; find_stream id c with
  | None => true
  | Some (s, w) =>
      match f with
      | STREAM _ length _ _ _ _ _ => (0 <=? length) && (acked s + length <=? send_offset w)
      | RESET_STREAM _ _ _ => stopped s
      | _ => true
      end
  end.

(** The stream [id] after an acknowledgement. *)
Lemma acked_ok W c b id s w s' w' : sconn_ok W none c -> find_stream id c = Some (s, w) ->
  sender_ok (spool c) id (W id) (items id c) s' w' -> send w' = send w ->
  (send_state s' = NGX_QUIC_STREAM_SEND_SEND -> send_state s = NGX_QUIC_STREAM_SEND_SEND /\ send_offset w' = send_offset w /\
    send_final_size w' = send_final_size w /\ send_max_data w' = send_max_data w) ->
  ctxs b = ctxs (conn_of c) -> streams b = streams (conn_of c) ->
  sconn_ok W none (reap id (set_conn (put_acked e id s' b) (put_sender id w' c))).
Proof.
  intros H Hf Hok Hsend Hrest Ec Es. pose proof Hf as [Hs Hw]%find_stream_Some.
  set (c1 := set_conn (set_streams (<[id := s']> (streams b)) b) (put_sender id w' c)).
  assert (H1 : sconn_ok W none c1).
  { eapply (set_ok W none none c c1 id s w s' w' H Hf); try done; [cbn; by rewrite Es | by apply aside_same |].
    intros Hn Hst. destruct (Hrest Hst) as (Hst0 & -> & -> & ->). by apply (sc_rest _ _ _ _ _ H id s w Hf Hn). }
  unfold put_acked. destruct (connected s').
  - rewrite (reap_there id s'); [exact H1 |]. cbn. apply lookup_insert_eq.
  - pose proof (close_ok W none c1 id s' s' w' H1) as Hr. change (reap id _) with (close_stream e id s' c1).2.
    destruct (close_stream e id s' c1). apply Hr. apply find_stream_Some. cbn. by rewrite !lookup_insert_eq.
Qed.

Lemma put_sender_same id w c : senders c !! id = Some w -> put_sender id w c = c.
Proof. intros H. unfold put_sender. rewrite insert_id by done. by destruct c. Qed.

Lemma stream_ack_ok W c f : 0 <= bs < 2 ^ 62 -> stream_buffer_size e = bs -> ack_fair f c = true -> sconn_ok W none c ->
  sconn_ok W none (stream_ack e f c).
Proof.
  intros Hb Hbs Hfair H. unfold stream_ack. unfold ack_fair in Hfair. destruct (acked_stream f) as [id |] eqn:Ef; [| done]. cbn [mbind option_bind] in *.
  destruct (find_stream id c) as [[s w] |] eqn:Hf; [| done]. cbn [mbind option_bind] in *. pose proof Hf as [Hs Hw]%find_stream_Some.
  pose proof (sc_stream _ _ _ _ _ H id s w Hf) as Hok.
  destruct f; cbn [acked_stream] in Ef; try done; injection Ef as ->; cbn [ngx_quic_handle_stream_ack]; rewrite Hs.
  - cbn [woken]. rewrite <- (put_sender_same id w c Hw) at 2. eapply (acked_ok W c _ id s w); try done.
    destruct Hok as []. destruct so_items0 as (fin & ? & _). rewrite Hfair in so_buf0.
    split; try done. by exists fin.
  - apply andb_true_iff in Hfair as [Hl%Z.leb_le Ha%Z.leb_le].
    set (b := if connected s && _ && _ then notify _ _ else _).
    assert (Eb : ctxs b = ctxs (conn_of c) /\ streams b = streams (conn_of c)) by (unfold b; by destruct (connected s && _ && _)).
    pose proof (sender_acked (spool c) id (W id) (items id c) s w length fin offset off len0 data0 Hb Hbs Hl Ha Hok) as Hok'.
    set (w' := if woken _ _ s then set_wready true w else w) in Hok'.
    match goal with |- context [set_conn _ ?x] => replace x with (put_sender id w' c) end.
    2:{ unfold w'. destruct (woken _ _ s); [done |]. by apply put_sender_same. }
    eapply (acked_ok W c _ id s w); try done; [unfold w'; by destruct (woken _ _ s) | | apply Eb | apply Eb].
    intros Est. unfold w'. split; [| by destruct (woken _ _ s)]. unfold stream_acked in Est. cbn in Est.
    by destruct (bool_decide (send_state s = _) && _ && _).
Qed.

(** *** Writing *)

Definition write_to (id : Z) (d : list Z) (W : Z -> list Z) (j : Z) : list Z := W j ++ if id =? j then d else [].

Lemma filled_nonneg l : Forall (fun b => 0 < blen b) l -> 0 <= QuicBuffer.filled l.
Proof. induction 1; cbn; [lia |]. case_match; lia. Qed.

Lemma filled_most cl base l z : Forall (fun b => 0 < blen b) l -> base <= z ->
  (forall x, base <= x < z -> view cl base l x <> None) -> z - base <= QuicBuffer.filled l.
Proof.
  intros F. revert base. induction F as [|b l Hb F IH]; intros base Hz Hv.
  - destruct (Z.eq_dec base z) as [-> |]; [cbn; lia |]. exfalso. apply (Hv base); [lia | done].
  - destruct (Z.eq_dec base z) as [-> |].
    + rewrite Z.sub_diag. apply filled_nonneg. by constructor.
    + pose proof (Hv base) as H0. cbn in H0. destruct (Z.ltb_spec base (base + blen b)); [| lia]. cbn.
      destruct (sync b); [exfalso; apply H0; [lia | done] |].
      destruct (Z.le_gt_cases z (base + blen b)).
      * pose proof (filled_nonneg l F). lia.
      * specialize (IH (base + blen b)). enough (z - (base + blen b) <= QuicBuffer.filled l) by lia. apply IH; [lia |].
        intros x Hx. specialize (Hv x). cbn in Hv. destruct (Z.ltb_spec x (base + blen b)); [lia |]. apply Hv. lia.
Qed.

(** A buffer without holes has the bytes from its offset up to [z]. *)
Lemma represents_filled p qb W so l : wf p (bufs (qchain qb) ++ l) -> represents p qb (Stream so (lay W 0)) -> 0 <= so <= Z.of_nat (length W) ->
  QuicBuffer.filled (bufs (qchain qb)) = Z.of_nat (length W) - so.
Proof.
  intros Hw [R1 R2 _ _] Hso. cbn in R1, R2. apply wf_app_r in Hw as [Hg _].
  assert (F : Forall (fun b => 0 < blen b) (bufs (qchain qb))) by (eapply Forall_impl; [exact Hg |]; intros y ?; by eapply good_len).
  assert (Hl : forall x, so <= x -> lay W 0 x <> None <-> x < Z.of_nat (length W)).
  { intros x Hx. unfold lay. destruct (Z.leb_spec 0 x); [| lia]. rewrite Z.sub_0_r.
    split.
    - intros Hn. destruct (W !! Z.to_nat x) eqn:E; [| done]. apply lookup_lt_Some in E. lia.
    - intros Hx2 E. apply lookup_ge_None in E. lia. }
  pose proof (QuicStream.filled_bound (cell p) (qoffset qb) (bufs (qchain qb)) (Z.of_nat (length W)) F) as H1.
  pose proof (filled_most (cell p) (qoffset qb) (bufs (qchain qb)) (Z.of_nat (length W)) F) as H2.
  rewrite R1 in *. enough (QuicBuffer.filled (bufs (qchain qb)) <= Z.max 0 (Z.of_nat (length W) - so) /\ Z.of_nat (length W) - so <= QuicBuffer.filled (bufs (qchain qb))) by lia.
  split.
  - apply H1. intros x Hx Hn. apply Hl; [done |]. by rewrite <- R2.
  - apply H2; [lia |]. intros x Hx. rewrite R2 by lia. apply Hl; lia.
Qed.

(** A write at the end. *)
Lemma lay_append W d x : first_of (lay W 0 x) (lay d (Z.of_nat (length W)) x) = lay (W ++ d) 0 x.
Proof.
  unfold lay. rewrite Z.sub_0_r. destruct (Z.leb_spec 0 x); [| by destruct (Z.leb_spec (Z.of_nat (length W)) x); [lia |]].
  destruct (Z.leb_spec (Z.of_nat (length W)) x).
  - rewrite (lookup_ge_None_2 W), lookup_app_r by lia. cbn. f_equal. lia.
  - rewrite lookup_app_l by lia. destruct (lookup_lt_is_Some_2 W (Z.to_nat x)) as [v ->]; [lia | done].
Qed.

(** A stream has taken [d]. *)
Lemma sender_written p p' id W its s w b d x : let n := Z.of_nat (length d) in
  sender_ok p id W its s w -> writable s = true -> send_final_size w = None ->
  represents p' b (Stream (send_offset w) (lay (W ++ d) 0)) -> gone b = gone (send w) ->
  Z.of_nat (length W) + n <= acked s + bs -> Z.of_nat (length W) < acked s + bs -> x = (Z.of_nat (length W) + n =? acked s + bs) ->
  sender_ok p' id (W ++ d) its (set_stream_sent (Z.of_nat (length W) + n) (set_send_state NGX_QUIC_STREAM_SEND_SEND s))
    (if x then set_wready false (set_csent (csent w + n) (set_send b w)) else set_csent (csent w + n) (set_send b w)).
Proof.
  intros n Hok Hw Hfin Hrep Hg Hroom Hlt Hx. pose proof (sender_numbers _ _ _ _ _ _ Hok) as Hnum.
  destruct Hok as []. destruct (writable_live s Hw) as [E1 E2].
  assert (Hlen : Z.of_nat (length (W ++ d)) = Z.of_nat (length W) + n) by (rewrite length_app; lia).
  assert (Hf : exists y, (if x then set_wready false (set_csent (csent w + n) (set_send b w)) else set_csent (csent w + n) (set_send b w)) =
    Sender (send_max_data w) (send_offset w) None b (csent w + n) y (werror w) /\ (y = false -> x = true \/ wready w = false)).
  { destruct x; [exists false | exists (wready w)]; (split; [unfold set_wready, set_csent, set_send; cbn; by rewrite Hfin | tauto]). }
  destruct Hf as (y & -> & Hy).
  split; cbn [send send_offset send_max_data csent send_final_size wready offset_sent acked set_stream_sent set_send_state]; rewrite ?Hlen; try done.
  - intros _. rewrite Hg. by apply so_gone0.
  - by rewrite so_csent0.
  - by left.
  - destruct so_items0 as (fin & (-> & Hle & _) & Hfn). rewrite (Hfn E1), E2. exists false. split; [| done].
    split; [| split; [rewrite length_app; lia | done]]. by rewrite take_app_le.
  - intros _ Hcn Hy0. destruct (Hy Hy0) as [E | E]; [rewrite Hx in E; lia |]. specialize (so_ready0 Hw Hcn E). lia.
Qed.

(** A full buffer: the application waits. *)
Lemma sender_full p id W its s w : writable s = true -> Z.of_nat (length W) = acked s + bs -> sender_ok p id W its s w ->
  sender_ok p id W its (set_send_state NGX_QUIC_STREAM_SEND_SEND s) (set_wready false w).
Proof. intros Hw Hfull Hok. apply (sender_sending _ _ _ _ _ _ Hw) in Hok as []. by split. Qed.

Lemma rest_sending (B : Prop) p id W its s w w' : writable s = true -> sender_ok p id W its s w -> at_rest B W s w ->
  send_offset w' = send_offset w -> send_final_size w' = send_final_size w -> send_max_data w' = send_max_data w ->
  at_rest B W (set_send_state NGX_QUIC_STREAM_SEND_SEND s) w'.
Proof.
  intros Hw Hok Hr E1 E2 E3. unfold at_rest. rewrite E1, E2, E3. intros _. pose proof (sender_numbers _ _ _ _ _ _ Hok) as Hnum.
  destruct (send_state s) eqn:E; unfold writable in Hw; rewrite E in Hw; try done; [| by apply Hr].
  left. destruct (so_fresh _ _ _ _ _ _ _ Hok E) as [-> ?]. split; [cbn in *; lia | done].
Qed.

Lemma taken_length inp rest lim : 0 <= lim -> input_bytes rest = drop (Z.to_nat lim) (input_bytes inp) ->
  accepted inp rest = take (Z.to_nat lim) (input_bytes inp).
Proof.
  intros Hlim E. unfold accepted. rewrite E, length_drop. destruct (Nat.le_gt_cases (Z.to_nat lim) (length (input_bytes inp))).
  - f_equal. lia.
  - rewrite !take_ge by lia. done.
Qed.

Lemma accepted_none inp : accepted inp inp = [].
Proof. unfold accepted. by rewrite Nat.sub_diag. Qed.

Lemma same_taken W W' skip c : (forall j, W' j = W j) -> sconn_ok W skip c -> sconn_ok W' skip c.
Proof.
  intros E []. split; try done; [| | intros j; rewrite E; apply sc_gone0]; intros j s w; rewrite E; [apply sc_stream0 | apply sc_rest0].
Qed.

(** The size of a buffer tells what was written. *)
Lemma written_size p p' qb b W so l d : wf p (bufs (qchain qb) ++ l) -> wf p' (bufs (qchain b) ++ l) -> represents p qb (Stream so (lay W 0)) ->
  represents p' b (stream_write d (Z.of_nat (length W)) (Stream so (lay W 0))) -> gone b = gone qb -> 0 <= so <= Z.of_nat (length W) ->
  qsize b - qsize qb = Z.of_nat (length d) /\ represents p' b (Stream so (lay (W ++ d) 0)).
Proof.
  intros Hw Hw' Hr Hr' Hg Hso. assert (Hr2 : represents p' b (Stream so (lay (W ++ d) 0))).
  { eapply represents_ext; [exact Hr' | done |]. intros x _. symmetry. apply lay_append. }
  split; [| done]. pose proof (represents_filled _ _ _ _ _ Hw Hr Hso) as E1.
  assert (Hso' : 0 <= so <= Z.of_nat (length (W ++ d))) by (rewrite length_app; lia).
  pose proof (represents_filled _ _ _ _ _ Hw' Hr2 Hso') as E2. rewrite length_app in E2. unfold gone in Hg. lia.
Qed.

Lemma put_written W c c' id s w b d (x : bool) : sconn_ok W none c -> find_stream id c = Some (s, w) -> writable s = true -> send_final_size w = None ->
  let n := Z.of_nat (length d) in
  streams (conn_of c') = <[id := set_stream_sent (Z.of_nat (length (W id)) + n) (set_send_state NGX_QUIC_STREAM_SEND_SEND s)]> (streams (conn_of c)) ->
  senders c' = <[id := if x then set_wready false (set_csent (csent w + n) (set_send b w)) else set_csent (csent w + n) (set_send b w)]> (senders c) ->
  ctxs (conn_of c') = ctxs (conn_of c) -> held c' = held c -> conn_offset c' = conn_offset c -> conn_max c' = conn_max c ->
  stable (chains (delete id (senders c)) ++ bufs (concat (held c))) (spool c) (spool c') -> (links (spool c) <= links (spool c'))%nat ->
  wf (spool c') (bufs (qchain b) ++ chains (delete id (senders c)) ++ bufs (concat (held c))) ->
  represents (spool c') b (Stream (send_offset w) (lay (W id ++ d) 0)) -> gone b = gone (send w) ->
  Z.of_nat (length (W id)) + n <= acked s + bs -> Z.of_nat (length (W id)) < acked s + bs -> x = (Z.of_nat (length (W id)) + n =? acked s + bs) ->
  sconn_ok (write_to id d W) (fun j => j = id) c'.
Proof.
  intros H Hf Hw Hfin n Es Ew Ec Eh Eo Em [Hst1 Hst2]%Forall_app Hlk Hwf Hrep Hg Hroom Hlt Hx. pose proof H as [].
  assert (Eb : blocked c' <-> blocked c) by (unfold QuicSend.blocked, limit_of; by rewrite Eo, Em).
  pose proof (aside_same _ _ Ec) as Ha.
  eapply (put_ok W _ none _ c c' id s w _ _ H Hf Es Ew); rewrite ?Ec, ?Eh, ?Eo, ?Em, ?(aside_datas _ _ Ha), ?(frames_stable (spool c)); try done.
  - by destruct x.
  - intros j Hne. split; [| by apply items_aside]. unfold write_to. destruct (Z.eqb_spec id j); [congruence | apply app_nil_r].
  - rewrite (items_aside _ _ _ Ha). unfold write_to. rewrite Z.eqb_refl. by apply (sender_written (spool c)); [apply sc_stream0 | ..].
  - by rewrite Eb.
  - by intros j _ _ [].
Qed.

(** What a write does: the stream has taken what is not left, unless it cannot send. *)
Lemma send_chain_ok W c id inp limit s w : 0 <= ini < 2 ^ 62 -> 0 <= bs < 2 ^ 62 -> stream_buffer_size e = bs -> inputs_ok inp -> 0 <= limit < 2 ^ 63 ->
  sconn_ok W none c -> find_stream id c = Some (s, w) -> (writable s = true -> send_final_size w = None) ->
  exists r c', ngx_quic_stream_send_chain grants e ini id inp limit c = Some (r, c') /\
    match r with
    | Some rest => writable s = true /\ sconn_ok (write_to id (accepted inp rest) W) none c' /\ 
        accepted inp rest ++ input_bytes rest = input_bytes inp
    | None => if writable s then no_memory else sconn_ok W none c'
    end.
Proof.
  intros Hini Hb Hbs Hinp Hlim H Hf Hfin. unfold ngx_quic_stream_send_chain. rewrite Hf. cbn [mbind option_bind].
  pose proof Hf as [Hs Hw]%find_stream_Some. pose proof (sc_stream _ _ _ _ _ H id s w Hf) as Hok.
  pose proof (sender_numbers _ _ _ _ _ _ Hok) as Hnum. pose proof (so_sent _ _ _ _ _ _ _ Hok) as Hsent.
  destruct (writable s) eqn:Ewr; cbn [negb].
  2:{ eexists _, _. split; [done |]. cbn.
      eapply (set_ok W none none c _ id s w s (set_werror true w) H Hf); try done; [by rewrite insert_id | by apply aside_same | | exact (sc_rest _ _ _ _ _ H id s w Hf)].
      intros []. by split. }
  specialize (Hfin eq_refl). cbn [offset_sent acked set_send_state]. rewrite Hbs, Hsent. set (flow := u64 _).
  assert (Eflow : flow = acked s + bs - Z.of_nat (length (W id))) by (apply u64_small; clear -Hnum Hb; lia).
  destruct (Z.eqb_spec flow 0) as [E0 | E0].
  { eexists _, _. split; [done |]. cbn. rewrite accepted_none. split_and!; [done | | done].
    apply (same_taken W); [intros j; unfold write_to; destruct (id =? j); by rewrite app_nil_r |].
    { eapply (set_ok W none none c _ id s w _ _ H Hf); try done; [by apply aside_same | intros _; apply sender_full; [done | lia | done] |].
      intros Hn. by eapply (rest_sending _ _ _ _ _ s w); [| | exact (sc_rest _ _ _ _ _ H id s w Hf Hn) | ..]. }
  }
  set (lim := if _ || _ then _ else limit). assert (Hl : 0 <= lim <= flow).
  { clear -Eflow E0 Hnum Hb Hlim. unfold lim. rewrite s64_small by lia. destruct (Z.eqb_spec limit 0), (Z.ltb_spec flow limit); cbn; lia. }
  clearbody lim. destruct (writable_live s Ewr) as [Est _]. pose proof (so_buf _ _ _ _ _ _ _ Hok) as Hrep. rewrite Est in Hrep.
  pose proof (rest_wf _ _ _ _ _ _ H Hf) as Hwf. pose proof (so_offset _ _ _ _ _ _ _ Hok) as Hoff.
  destruct (write_buffer_spec grants (spool c) (send w) _ _ inp lim (Z.of_nat (length (W id))) Hwf Hrep Hinp ltac:(lia))
    as (r & b & p & Ewrite & Hwf' & Hst & Hlk & Hr).
  change (spool (put_half id _ c)) with (spool c). rewrite Ewrite. cbn [mbind option_bind].
  destruct r as [rest |]; [| eexists _, _; split; [done |]; by left].
  destruct Hr as (Hrep' & Hg & Hrest). rewrite <- (taken_length inp rest lim) in Hrep' by (done || lia).
  remember (accepted inp rest) as d eqn:Ed.
  assert (Hd : Z.of_nat (length d) <= lim /\ d ++ input_bytes rest = input_bytes inp).
  { rewrite Ed, (taken_length inp rest lim), Hrest by (done || lia). split; [rewrite length_take; lia | apply take_drop]. }
  destruct Hd as [Hd Hsplit].
  pose proof (written_size _ _ _ _ _ _ _ _ Hwf Hwf' Hrep Hrep' Hg ltac:(lia)) as [En Hrep2].
  rewrite !En. set (x := flow =? _). match goal with |- context [set_conn_sent ?u ?v] => set (c1 := set_conn_sent u v) end.
  assert (H1 : sconn_ok (write_to id d W) (fun j => j = id) c1).
  { eapply (put_written W c c1 id s w b d x); try done.
    - cbn. rewrite insert_insert_eq, u64_small; [done |]. clear -Eflow Hd Hl Hnum Hb. lia.
    - clear -Eflow Hd Hl. lia.
    - clear -Eflow E0 Hnum Hb. lia.
    - unfold x. rewrite Eflow. clear. destruct (Z.eqb_spec (acked s + bs - Z.of_nat (length (W id))) (Z.of_nat (length d))),
        (Z.eqb_spec (Z.of_nat (length (W id)) + Z.of_nat (length d)) (acked s + bs)); lia. }
  pose proof (flush_call _ _ _ Hini H1) as Hr. destruct (ngx_quic_stream_flush _ _ _ _ _) as [ok c2].
  eexists _, _. split; [done |]. destruct ok; cbn in Hr; [rewrite <- Ed; by split_and! | done].
Qed.

(** What ends a connection: no memory, or a frame about the sending side of a stream
    that has none. *)
Definition closed_for (ev : event) (c' : sconn) : Prop :=
  no_memory \/
  match ev with
  | MaxStreamData id _ | StopSending id _ => sends id = false /\ error (conn_of c') = Some NGX_QUIC_ERR_STREAM_STATE_ERROR
  | _ => False
  end.

(** A write has buffers and comes before the end; numbers in frames have 62 bits. *)
Definition event_fair (ev : event) (c : sconn) : bool :=
  match ev with
  | Send id inp limit =>
      forallb (fun i => in_memory i || (length (data i) =? 0)%nat) inp && (0 <=? limit) && (limit <? 2 ^ 63) &&
      match find_stream id c with
      | Some (s, w) => negb (writable s) || bool_decide (send_final_size w = None)
      | None => true
      end
  | MaxData max => max <? 2 ^ 62
  | MaxStreamData _ limit => limit <? 2 ^ 62
  | Acked f => ack_fair f c
  | _ => true
  end.

Lemma send_fair id inp limit c s w : find_stream id c = Some (s, w) -> event_fair (Send id inp limit) c = true ->
  inputs_ok inp /\ 0 <= limit < 2 ^ 63 /\ (writable s = true -> send_final_size w = None).
Proof.
  cbn [event_fair]. intros ->. intros [[[Hinp Hl1%Z.leb_le]%andb_true_iff Hl2%Z.ltb_lt]%andb_true_iff Hfin]%andb_true_iff. split_and!; try done.
  - apply Forall_forall. intros i Hi Hm. rewrite forallb_forall in Hinp. apply list_elem_of_In, Hinp in Hi. rewrite Hm in Hi.
    by apply length_zero_iff_nil, Nat.eqb_eq.
  - intros Hw. rewrite Hw in Hfin. by apply bool_decide_eq_true in Hfin.
Qed.

Lemma handle_ok W c ev : 0 <= ini < 2 ^ 62 -> 0 <= bs < 2 ^ 62 -> stream_buffer_size e = bs -> event_fair ev c = true -> sconn_ok W none c ->
  exists ok c' log, handle grants ini e ev c = Some (ok, c', log) /\
    if ok then sconn_ok (fun j => W j ++ taken j log) none c' else log = [] /\ closed_for ev c'.
Proof.
  intros Hini Hb Hbs Hfair H.
  assert (Hq : forall r, call_ok W r -> exists ok c' log, quietly r = Some (ok, c', log) /\
    if ok then sconn_ok (fun j => W j ++ taken j log) none c' else log = [] /\ closed_for ev c').
  { intros [ok c'] Hr. exists ok, c', []. split; [done |]. destruct ok; cbn in Hr; [| split; [done | by left]].
    eapply same_taken; [| exact Hr]. intros j. apply app_nil_r. }
  destruct ev as [id inp lim | id | id err | id code known | max | id lim | id err | f | id]; cbn [handle event_fair] in *.
  - destruct (find_stream id c) as [[s w] |] eqn:Hf; [| by apply (Hq (true, c))].
    destruct (send_fair id inp lim c s w Hf) as (Hinp & Hlim & Hfin); [cbn [event_fair]; by rewrite Hf |].
    destruct (send_chain_ok W c id inp lim s w Hini Hb Hbs) as (r & c' & -> & Hr); try done.
    cbn [mbind option_bind]. destruct r as [rest |].
    + destruct Hr as (_ & Hr & _). eexists _, _, _. split; [done |]. cbn. eapply same_taken; [| exact Hr].
      intros j. unfold write_to. cbn. by rewrite app_nil_r.
    + destruct (writable s); [exists false, c', []; split_and!; [done.. | by left] | by apply (Hq (true, c'))].
  - apply Hq. by apply shutdown_send_ok.
  - apply Hq. by apply do_reset_ok.
  - apply Hq. by apply cleanup_ok.
  - apply Hq. apply max_data_ok; [done | lia | done].
  - destruct (sends id) eqn:Es; [apply Hq; apply max_stream_data_ok; [done | lia | done | done] |].
    unfold ngx_quic_handle_max_stream_data_frame. rewrite Es. eexists _, _, _. split; [done |]. cbn. split; [done | by right].
  - destruct (sends id) eqn:Es; [apply Hq; by apply stop_sending_ok |].
    unfold ngx_quic_handle_stop_sending_frame. rewrite Es. eexists _, _, _. split; [done |]. cbn. split; [done | by right].
  - apply (Hq (true, stream_ack e f c)). by apply stream_ack_ok.
  - apply Hq. by apply size_received_ok.
Qed.

End call.

End change.

(** *** Histories *)

(** The streams have buffers of [bs] bytes, and what happens is fair. *)
Fixpoint fair (bs : Z) (grants : nat -> bool) (ini : Z) (es : list (setting * event)) (c : sconn) : bool :=
  match es with
  | [] => true
  | (e, ev) :: es =>
      (stream_buffer_size e =? bs) && event_fair ev c &&
      match handle grants ini e ev c with
      | Some (true, c', _) => fair bs grants ini es c'
      | _ => true
      end
  end.

Lemma taken_app id a b : taken id (a ++ b) = taken id a ++ taken id b.
Proof. induction a as [|[j d] a IH]; [done |]. cbn. by rewrite IH, app_assoc. Qed.

Lemma happen_ok bs grants ini es : 0 <= ini < 2 ^ 62 -> 0 <= bs < 2 ^ 62 -> forall W c,
  sconn_ok bs ini W none c -> fair bs grants ini es c = true ->
  exists c' log k, happen grants ini es c = Some (c', log, k) /\ sconn_ok bs ini (fun j => W j ++ taken j log) none c' /\
    forall e ev, es !! k = Some (e, ev) -> exists c2, handle grants ini e ev c' = Some (false, c2, []) /\ closed_for grants e ev c2.
Proof.
  intros Hini Hb. induction es as [|[e ev] es IH]; intros W c H Hfair.
  { exists c, [], O. split_and!; [done | | done]. eapply same_taken; [| exact H]. intros j. apply app_nil_r. }
  cbn [fair happen] in *. apply andb_true_iff in Hfair as [[Hbs%Z.eqb_eq Hev]%andb_true_iff Hfair].
  destruct (handle_ok bs ini grants e W c ev Hini Hb Hbs Hev H) as (ok & c1 & log & E & Hr). rewrite E in *. cbn [mbind option_bind].
  destruct ok.
  - destruct (IH _ _ Hr Hfair) as (c2 & log2 & k & -> & H2 & Hk). exists c2, (log ++ log2), (S k). split_and!; [done | | exact Hk].
    eapply same_taken; [| exact H2]. intros j. cbn. by rewrite taken_app, app_assoc.
  - destruct Hr as [-> Hr]. exists c, [], O. split_and!; [done | |].
    + eapply same_taken; [| exact H]. intros j. apply app_nil_r.
    + intros e0 ev0 [= <- <-]. by exists c1.
Qed.

(** A connection whose peer has set the limits [m] for its streams. *)
Lemma sending_init_ok bs ini cl b m : 0 <= ini -> 0 <= bs -> (application < length (ctxs b))%nat -> datas b = [] ->
  (forall id, filter (of_stream id) (concat (map says (queue b))) = []) ->
  map_Forall (fun _ max => 0 <= max < 2 ^ 62) m -> sconn_ok bs ini (fun _ => []) none (sconn_init cl b m).
Proof.
  intros Hini Hb Hlen Hd Hi Hm. set (c := sconn_init cl b m).
  assert (Hs : forall id s w, find_stream id c = Some (s, w) -> exists max, m !! id = Some max /\ s = sstream_init max /\ w = sender_init max).
  { intros id s w [Hs Hw]%find_stream_Some. change (streams (conn_of c)) with (sstream_init <$> m) in Hs.
    change (senders c) with (sender_init <$> m) in Hw. rewrite lookup_fmap in Hs. rewrite lookup_fmap in Hw. destruct (m !! id) as [max |]; [| done].
    cbn in *. exists max. naive_solver. }
  assert (Ec : chains (senders c) = []).
  { unfold chains. change (senders c) with (sender_init <$> m). clear. rewrite <- (fmap_nil lbuf). f_equal.
    assert (F : Forall (fun x => qchain (send x.2) = []) (map_to_list (sender_init <$> m))).
    { apply Forall_forall. intros [id w] Hin%elem_of_map_to_list. rewrite lookup_fmap in Hin. destruct (m !! id); [| done].
      cbn in Hin. by injection Hin as <-. }
    induction F as [|x l Hx F IH]; [done |]. rewrite bind_cons. cbn in *. by rewrite Hx. }
  split; try done.
  - intros id. change ((sstream_init <$> m) !! id = None <-> (sender_init <$> m) !! id = None).
    by rewrite !lookup_fmap, !fmap_None.
  - rewrite Ec. split; cbn; try lia; constructor.
  - change (datas (conn_of c)) with (datas b). by rewrite Hd.
  - intros id s w (max & Hmax & -> & ->)%Hs. specialize (Hm _ _ Hmax). cbn in Hm.
    split; cbn; try done; try lia; [| by left |].
    + split; cbn; [done | | by split; constructor | done]. intros x Hx. change (None = lay [] 0 x). unfold lay. by destruct (0 <=? x).
    + exists false. split; [| done]. split_and!; [apply (Hi id) | done | done].
  - intros id s w (max & _ & -> & ->)%Hs _. done.
  - intros id _. exists O, false. split_and!; [apply (Hi id) | done | done].
Qed.

(** ** Theorems *)

(** C21. Whatever the application writes, ends or resets, and whatever the peer allows,
    acknowledges or refuses, in any order: the frames of data that are queued for a
    stream carry the bytes that the stream took, from the first one on, in order,
    without a gap and none of them twice, and the end of the stream only after the last
    byte; as many were sent as [send_offset] says; a stream that was not reset has sent
    its end when it says so; and a connection goes on unless it has no memory or the
    peer speaks of the sending side of a stream that has none. *)
Theorem stream_sends_in_order bs ini grants cl b m es :
  0 <= ini < 2 ^ 62 -> 0 <= bs < 2 ^ 62 -> (application < length (ctxs b))%nat -> queue b = [] ->
  map_Forall (fun _ max => 0 <= max < 2 ^ 62) m -> fair bs grants ini es (sconn_init cl b m) = true ->
  exists c log k, happen grants ini es (sconn_init cl b m) = Some (c, log, k) /\
    (forall e ev, es !! k = Some (e, ev) ->
      exists c', handle grants ini e ev c = Some (false, c', []) /\ closed_for grants e ev c') /\
    forall id, exists n fin, sent_so_far id (taken id log) (items id c) n fin /\
      forall s w, find_stream id c = Some (s, w) ->
        send_offset w = Z.of_nat n /\ (stopped s = false -> fin = finished s).
Proof.
  intros Hini Hb Hlen Hq Hm Hfair.
  assert (H0 : sconn_ok bs ini (fun _ => []) none (sconn_init cl b m)).
  { apply sending_init_ok; try done; try lia; [unfold datas | intros id]; by rewrite Hq. }
  destruct (happen_ok bs grants ini es Hini Hb _ _ H0 Hfair) as (c & log & k & E & H & Hk). exists c, log, k. split_and!; [done | done |].
  intros id. destruct (find_stream id c) as [[s w] |] eqn:Hf.
  - pose proof (sc_stream _ _ _ _ _ H id s w Hf) as Hok. destruct (so_items _ _ _ _ _ _ _ Hok) as (fin & Hs & Hfin).
    exists (Z.to_nat (send_offset w)), fin. split; [done |]. intros s0 w0 [= <- <-]. split; [| done].
    pose proof (so_offset _ _ _ _ _ _ _ Hok). lia.
  - destruct (sc_gone _ _ _ _ _ H id Hf) as (n & fin & ?). by exists n, fin.
Qed.

(** C22. The limits and the waiting: no stream sends more than the peer allows it, nor
    all of them together more than it allows the connection, and no more than a buffer
    waits for an acknowledgement; the frames find their bytes in memory; nothing is
    withheld, that is, a stream that is not at its end has sent all that it took, unless
    its limit or that of the connection is reached; an application that is told to wait
    has filled the buffer; all the bytes of a stream that is done were acknowledged; and
    a write leaves exactly what the stream did not take. *)
Theorem stream_send_flow bs ini grants cl b m es :
  0 <= ini < 2 ^ 62 -> 0 <= bs < 2 ^ 62 -> (application < length (ctxs b))%nat -> queue b = [] ->
  map_Forall (fun _ max => 0 <= max < 2 ^ 62) m -> fair bs grants ini es (sconn_init cl b m) = true ->
  exists c log k, happen grants ini es (sconn_init cl b m) = Some (c, log, k) /\
    conn_offset c = bytes_in (datas (conn_of c)) /\ conn_offset c <= conn_max c /\
    datas (conn_of c) = map (fun l => chain_bytes (cell (spool c)) (bufs l)) (held c) /\
    forall id s w, find_stream id c = Some (s, w) ->
      let n := Z.of_nat (length (taken id log)) in
      send_offset w <= send_max_data w /\ acked s <= send_offset w <= n /\ n <= acked s + bs /\
      at_rest (blocked ini c) (taken id log) s w /\
      (writable s = true -> connected s = true -> wready w = false -> n = acked s + bs) /\
      (send_state s = NGX_QUIC_STREAM_SEND_DATA_RECVD -> acked s = n) /\
      forall e inp limit, stream_buffer_size e = bs -> event_fair (Send id inp limit) c = true ->
        exists r c', ngx_quic_stream_send_chain grants e ini id inp limit c = Some (r, c') /\
          forall rest, r = Some rest -> accepted inp rest ++ input_bytes rest = input_bytes inp.
Proof.
  intros Hini Hb Hlen Hq Hm Hfair.
  assert (H0 : sconn_ok bs ini (fun _ => []) none (sconn_init cl b m)).
  { apply sending_init_ok; try done; try lia; [unfold datas | intros id]; by rewrite Hq. }
  destruct (happen_ok bs grants ini es Hini Hb _ _ H0 Hfair) as (c & log & k & E & H & Hk). exists c, log, k.
  split_and!; [done | apply (sc_total _ _ _ _ _ H) | apply (sc_limit _ _ _ _ _ H) | apply (sc_held _ _ _ _ _ H) |].
  intros id s w Hf n. pose proof (sc_stream _ _ _ _ _ H id s w Hf) as Hok. cbn [app] in Hok.
  pose proof (sender_numbers _ _ _ _ _ _ _ Hok) as Hnum. fold n in Hnum.
  split_and!; try (clear -Hnum; lia); [exact (sc_rest _ _ _ _ _ H id s w Hf (fun x => x)) | apply (so_ready _ _ _ _ _ _ _ Hok) | apply (so_done _ _ _ _ _ _ _ Hok) |].
  intros e inp limit Hbs (Hinp & Hlim & Hfin)%(send_fair _ _ _ _ _ _ Hf).
  destruct (send_chain_ok bs ini grants e _ c id inp limit s w Hini Hb Hbs Hinp Hlim H Hf Hfin) as (r & c' & -> & Hr).
  exists r, c'. split; [done |]. intros rest ->. apply Hr.
Qed.

(** ** Witnesses *)

(** A stream of the peer and one of the server, with limits of 5 and 20 bytes; the
    connection has a limit of 8, the buffers hold 6 bytes. *)
Definition sample_setting : setting := Setting 1000 true 0 1200 false false true false 3 25 6.

Definition sample_base : conn :=
  Conn [ctx_init; ctx_init; ctx_init] (Cg 0 12000 (2 ^ 64 - 1) 0 0 0 1200 0 0 0 false) (Rtt 0 0 333 0 166) 0 None ∅ 0 100 100 [] None.

Definition sample_limits : gmap Z Z := {[0 := 5; 3 := 20]}.

(** The first write fills the buffer; the end of stream 0 comes before its last bytes are
    sent, and with them; stream 3 waits for the connection, then it is reset. *)
Definition sample_events : list (setting * event) :=
  map (fun ev => (sample_setting, ev))
    [Send 0 [Input true [97; 98; 99; 100]; Input true [101; 102; 103; 104]] 0; Acked (STREAM 0 5 0 true true false [97; 98; 99; 100; 101]);
     Send 0 [Input true [103; 104]] 0; Shutdown 0; MaxStreamData 0 9; Send 3 [Input true [120; 121; 122]] 100; MaxData 10;
     Reset 3 7; Cleanup 0 5 true; SizeReceived 0; Acked (STREAM 5 3 0 true true true [102; 103; 104]); StopSending 0 1; MaxStreamData 2 100].

Definition sample_happen : option (sconn * list (Z * list Z) * nat) :=
  happen (fun _ => true) 8 sample_events (sconn_init (fun _ _ => 0) sample_base sample_limits).

Definition sample_result : option (list frame * list (Z * list Z) * nat * list Z * Z) :=
  '(c, log, k) ← sample_happen; Some (queue (conn_of c), log, k, map fst (map_to_list (senders c)), conn_offset c).

Lemma sample_fair : fair 6 (fun _ => true) 8 sample_events (sconn_init (fun _ _ => 0) sample_base sample_limits) = true.
Proof. vm_compute. reflexivity. Qed.

Lemma sample_limits_ok : map_Forall (fun _ max => 0 <= max < 2 ^ 62) sample_limits.
Proof.
  unfold sample_limits. apply map_Forall_insert_2; [lia |]. apply map_Forall_insert_2; [lia |]. apply map_Forall_empty.
Qed.

Lemma stream_sends_in_order_witness :
  sample_result = Some
    ([STREAM 0 5 0 true true false [97; 98; 99; 100; 101]; STREAM 5 3 0 true true true [102; 103; 104];
      STREAM 0 2 3 true true false [120; 121]; RESET_STREAM 3 7 2; STOP_SENDING 0 5; MAX_STREAMS 101 true],
     [(0, [97; 98; 99; 100; 101; 102]); (0, [103; 104]); (3, [120; 121; 122])], 12%nat, [3], 10) /\
  exists c log k, sample_happen = Some (c, log, k) /\
    (forall e ev, sample_events !! k = Some (e, ev) ->
      exists c', handle (fun _ => true) 8 e ev c = Some (false, c', []) /\ closed_for (fun _ => true) e ev c') /\
    forall id, exists n fin, sent_so_far id (taken id log) (items id c) n fin /\
      forall s w, find_stream id c = Some (s, w) ->
        send_offset w = Z.of_nat n /\ (stopped s = false -> fin = finished s).
Proof.
  split; [vm_compute; reflexivity |].
  apply (stream_sends_in_order 6 8 (fun _ => true) (fun _ _ => 0) sample_base sample_limits sample_events);
    [lia | lia | unfold application; cbn; lia | reflexivity | exact sample_limits_ok | exact sample_fair].
Defined.

Lemma stream_send_flow_witness :
  exists c log k, sample_happen = Some (c, log, k) /\
    conn_offset c = bytes_in (datas (conn_of c)) /\ conn_offset c <= conn_max c /\
    datas (conn_of c) = map (fun l => chain_bytes (cell (spool c)) (bufs l)) (held c) /\
    forall id s w, find_stream id c = Some (s, w) ->
      let n := Z.of_nat (length (taken id log)) in
      send_offset w <= send_max_data w /\ acked s <= send_offset w <= n /\ n <= acked s + 6 /\
      at_rest (blocked 8 c) (taken id log) s w /\
      (writable s = true -> connected s = true -> wready w = false -> n = acked s + 6) /\
      (send_state s = NGX_QUIC_STREAM_SEND_DATA_RECVD -> acked s = n) /\
      forall e inp limit, stream_buffer_size e = 6 -> event_fair (Send id inp limit) c = true ->
        exists r c', ngx_quic_stream_send_chain (fun _ => true) e 8 id inp limit c = Some (r, c') /\
          forall rest, r = Some rest -> accepted inp rest ++ input_bytes rest = input_bytes inp.
Proof.
  apply (stream_send_flow 6 8 (fun _ => true) (fun _ _ => 0) sample_base sample_limits sample_events);
    [lia | lia | unfold application; cbn; lia | reflexivity | exact sample_limits_ok | exact sample_fair].
Defined.

(** The limit of the handshake is taken by the first flush only: a MAX_DATA frame that
    comes before it is compared with 0, and one below that limit lowers it.  A peer with
    a limit of 100 has its stream blocked after 5 bytes; without the frame, all six
    bytes are sent. *)
Remark max_data_lowers_limit :
  let sent es := (fun r => conn_offset r.1.1) <$> happen (fun _ => true) 100 (map (fun ev => (sample_setting, ev)) es)
    (sconn_init (fun _ _ => 0) sample_base {[0 := 50]}) in
  let write := Send 0 [Input true [1; 2; 3; 4; 5; 6]] 0 in
  sent [MaxData 5; write] = Some 5 /\ sent [write] = Some 6.
Proof. by vm_compute. Qed.

End QuicSend.
